(* ===== verification/_CoqProject ===== *)
-Q . S2P
Prelude.v
Text.v
Utf8.v
Money.v
Usage.v
ModelMatch.v
Pricing.v
Reservation.v
Windows.v
RequestLimiter.v
ConcurrencyLimiter.v
TokenLimiter.v
Calendar.v
BudgetLimiter.v
Buckets.v
BudgetAccounts.v
BudgetWorld.v
BudgetSafety.v
Lease.v
LeaseSystem.v
Accumulator.v
SSEParser.v
Analytics.v
Session.v
GatewayKey.v
Json.v
Duration.v
Policy.v
Auth.v
Estimator.v
UsageJson.v
JsonCodec.v
ChatObserver.v
ChatAccumulator.v
ChatRender.v
ChatStream.v
ChatDelivery.v
RequestBody.v
BodyRecorder.v
CompletionRecord.v
Trace.v
InputSecurity.v
HistoryStore.v
HistoryWorker.v
CompletionOwnership.v
CompletionLogger.v
UsageObservation.v
UsageWorker.v
HttpHeaders.v
ResponseWriter.v
Transfer.v
Ingress.v
Dispatch.v
Proxy.v
ProxySafety.v
ProxyAdmission.v
ProxyOutcome.v
KeyStore.v
AdminKeys.v
AdminSession.v
AdminLifecycle.v
