(* ===== verification/Prelude.v ===== *)
(** * 9Gateway: admission, accounting and observation in the gateway

    9Gateway is an HTTP gateway in front of an OpenAI-compatible upstream.  A
    request is authenticated, its model is matched against the key's policy,
    its tokens and its price are estimated, and then it must be admitted by
    four limiters (requests, concurrency, tokens, budget).  The resources an
    admitted request holds form one composite lease that is settled when the
    response has been observed, possibly after the transport has finished.
    While the request runs a trace is built; when it ends one completion record
    is emitted, logged and written to the request history, and the usage that
    was observed settles the lease.  This library models that core, file by
    file, as executable definitions, and proves what makes it correct.

    ** Files and the code they model

    - [Prelude]: machine integers, sums over finite maps, shared tactics and
      the hint database [go].
    - [Text], [Utf8]: byte strings, decimal printing and parsing
      ([strconv]), and [unicode/utf8] decoding, as far as the code uses them.
    - [Money], [Usage]: [internal/accounting/money.go], [usage.go].  An amount
      or count is unknown or a non-negative [int64]; every operation returns a
      value or the source's error.
    - [ModelMatch]: [internal/modelmatch/modelmatch.go], the glob compiler and
      the dynamic-programming matcher.
    - [Pricing]: [internal/accounting/pricing.go], the strict table decoder
      (over an abstract YAML node), validation and the indexed resolver.
    - [Reservation]: [internal/accounting/reservation.go], [cost.go],
      [budget.go], the planners that turn an estimate into a reservation.
    - [Windows], [RequestLimiter]: [internal/limiter/request.go] and the
      window arithmetic of [token.go].
    - [ConcurrencyLimiter]: [internal/limiter/concurrency.go].  Go's shared
      pointers are a heap; each critical section is one step.
    - [TokenLimiter]: [internal/limiter/token.go], reservations, settlement,
      deferred tickets, policy replacement and start-up loading.
    - [Calendar], [BudgetLimiter], [BudgetAccounts], [BudgetWorld],
      [BudgetSafety]: [internal/limiter/budget.go]; the first holds UTC days
      and months, the second the operations, the third the accounts an
      operation reads and writes on every branch, the fourth the transition
      system (every call with every argument of its type, from the empty
      limiter, costs above the reservation and adjustments after pruning
      included) and its invariant, the fifth the theorems.
    - [Lease]: [internal/limiter/lease.go], the coordinator as sequential
      functions over a [gate] (the three limiters and the lease objects).
    - [LeaseSystem]: the same code as a machine of atomic sections, run by any
      number of goroutines in any order.
    - [SSEParser]: [internal/streaming/parser.go], the server-sent-event
      reader.
    - [Buckets]: [internal/storage/budget_buckets.go] and [usage_buckets.go],
      the batch writers over tables as maps; the class [Repository] states what
      a batch write promises, and the two writers are its instances.
    - [Accumulator]: [internal/storage/budget_accumulator.go] and
      [usage_accumulator.go], the write-behind workers between the limiters'
      sinks and the buckets, as goroutines over one accumulator; they are
      proved against [Repository], and what the two differ in is the class
      [VariantLaws].
    - [Analytics]: [internal/analytics/coordinator.go], the shared gate, the
      bounded cache and the single-flight query coordinator.
    - [Session]: [internal/session/session.go], the session store and the login
      rate limiter.
    - [GatewayKey]: [internal/auth/key.go], key generation, parsing and
      fingerprints, over the base64 of the standard library.
    - [Json], [Duration]: [encoding/json] and [time.ParseDuration] as the code
      uses them: the grammar with the nesting limit, unquoting, raw messages,
      decoding into structs and slices; a printer for round trips.
    - [Policy]: [internal/auth/policy.go], the compiler from a policy document
      to the compiled policy, and [budgetPolicy] of [httpserver/admin.go].
    - [Auth]: [internal/auth/snapshot.go], snapshots and authentication.
    - [Estimator]: [internal/accounting/estimator.go].
    - [UsageJson]: [internal/protocol/openai/json_usage.go].
    - [JsonCodec]: decoding into structs and the encoder of [encoding/json].
    - [ChatObserver], [ChatAccumulator], [ChatRender], [ChatStream]:
      [internal/protocol/openai]'s [observer.go], [accumulator.go],
      [renderer.go], and the drivers [aggregation.go] and [observation.go]:
      one event of a streamed answer, the accumulated answer, its JSON form,
      and the loop over the event reader.
    - [ChatDelivery]: the composition of the stream reader, the accumulator and
      the renderer, from the bytes of the upstream to the bytes of the client.
    - [RequestBody]: [internal/protocol/openai]'s [request.go] and [body.go],
      the inspection and the rewriting of request bodies.
    - [BodyRecorder]: [internal/observability/body.go], the bounded copy of a
      body that is read elsewhere.
    - [CompletionRecord]: [internal/httpserver/completion_record.go], the
      immutable record of a finished request.
    - [Trace]: [internal/httpserver/trace.go], the builder of that record while
      the request runs: setters, freezing and finalising.
    - [CompletionOwnership]: [internal/httpserver/completion_ownership.go], who
      emits the record when the handler, the usage worker and the transport
      race.
    - [CompletionLogger]: [internal/httpserver]'s [completion.go] and
      [lifecycle.go], the log attributes and the logging worker.
    - [UsageObservation], [UsageWorker]: [internal/httpserver]'s
      [usage_observation.go] and the classifiers of [response.go]: the parsers
      of an observed response, and the worker that settles deferred leases.
    - [InputSecurity]: [internal/security/input.go], the validators of
      values that cross a boundary.
    - [HistoryStore], [HistoryWorker]: the validation half of
      [internal/storage/request_history.go], the projection of a record to a
      history row, and [internal/httpserver/history_worker.go], the queue in
      front of the table.
    - [HttpHeaders], [ResponseWriter]: of [internal/httpserver/server.go] the
      headers that cross the gateway, the upstream path and the completion
      writer; [errors.go], the public error envelope.
    - [Transfer]: the bounded readers, the event limit and the copy loops of
      [server.go], and the record side of [response_observation.go], over a
      class of readers.
    - [Ingress]: the ingress limits, routing, [authentication.go], request
      inspection and the observing request body.
    - [Dispatch]: the dispatch of a response, the conversion of a stream and
      the settlement of an observation.
    - [Proxy]: [proxyHandler.ServeHTTP], a program in a monad of state and
      early return whose resources are those of [Lease] and whose trace is
      that of [Trace].
    - [ProxySafety], [ProxyAdmission], [ProxyOutcome]: what a served request
      takes and returns, what it must pass, and what it records.
    - [KeyStore]: [internal/storage/api_keys.go], the key table as a map with
      the constraints of its schema, and its pages with sealed cursors.
    - [AdminKeys]: the key service of [internal/httpserver/admin.go] over the
      key table, the snapshot of [Auth] and the policies of both limiters, with
      the wiring of [server.go]; the record [coherent] says how they agree.
    - [AdminSession]: the authentication of administration requests, the
      session endpoints over [Session], and the endpoints that change keys.
    - [AdminLifecycle]: the requests of [AdminSession] one after the other on
      one handler, and what becomes of a session.

    ** How state and effects are modelled

    A Go struct is a record, a map a [gmap], a method a function from the old
    state to the new one with its results; an error is a constructor of the
    component's error type, one per sentinel of the source.  Integers are [Z]
    with the wrap-around of [int64] written out wherever the source does not
    check.  Clocks, the durable sinks, gzip, and the YAML, media-type and URL
    parsers are arguments.
    A mutex's critical section is one function, because nothing observes the
    state inside it; where the code leaves the lock between two sections
    ([Lease.Release], [ResourceLease.finish], admission with rollback) each
    section is its own step and the theorems quantify over interleavings.

    ** What the theorems show

    - Conservation: what a limiter counts as active is exactly what the
      unsettled reservations hold ([token_conservation],
      [budget_conservation], [states_exact]), and a system in which every
      call has returned and every lease is settled holds nothing but the
      money whose settlement the state check refused ([no_resource_leaks]).
    - Safety: limits are exceeded only by costs above what was reserved
      ([budget_never_exceeded], [token_quota_respected],
      [request_quota_respected]), slots are returned
      once ([release_exactly_once]), a lease is settled once
      ([one_settlement], [finish_settles_once]).
    - Functional behaviour of each operation on every branch, including the
      exact admission conditions ([Reserve_admits_iff_fits], [Reserve_exact],
      [Acquire_admits_iff_capacity], [request_reset_exact]) and rollback
      ([Acquire_rejection_rolls_back]); a settlement moves exactly the charge
      ([settlement_succeeds]).
    - Refinement and equivalence: each step of the interleaved coordinator is
      at most one of each limiter's own system, and every resource taken has
      an owner ([system_refines_limiters]); a lone goroutine is
      the sequential code ([alone_is_sequential]), the matcher decides the
      glob relation, the indexed resolver is the precedence order.
    - Durability: what the budget sink accepted is stored, pending or in
      flight, whatever fails and whenever ([budget_deltas_conserved]), and a
      successful shutdown has stored it ([budget_shutdown_durable]).
    - Shared services: one query per key and a gate that counts exactly the
      running ones ([analytics_single_flight], [analytics_gate_exact]); the
      session store behaves as one that never forgets
      ([session_store_refines]); generated keys parse, verify and are
      canonical ([gateway_keys_roundtrip]).
    - Admission's inputs: an accepted policy is well formed and the limiters
      take it whole ([policy_compiled_ok]); authentication is exact
      ([Authenticate_exact], [issued_key_authenticates]); the estimator is
      total, bounded and exact on chat requests; the usage of a response text
      is that of its tree ([ParseJSONUsage_spec]).
    - Arithmetic: money, cost and counts are exact or report overflow;
      printing and parsing are inverse.
    - Streamed answers: the events written by an upstream are read back as
      written ([SSE_roundtrip]), observed in order by a fold
      ([observe_stream_fold]), accumulated and rendered to the JSON a client
      that did not ask for a stream expects ([aggregate_chat_stream]), from
      which the answer can be read back ([render_roundtrip]); a request body
      is inspected exactly ([InspectRequestBody_exact]).
    - Telemetry: a body recorder keeps the prefix it has room for
      ([recorder_captures_prefix]); a frozen trace is the record of its fields
      ([FreezeBase_exact]) and does not change ([trace_final_stable]); a
      record is emitted once ([completion_emitted_once]); the history accepts
      exactly the records that meet the conditions only it checks
      ([history_accepts_records]); the three workers account for every job
      they were given ([completion_log_conserved], [history_jobs_conserved],
      [usage_jobs_settled_once]).
    - Serving a request: whatever happens to a request, it returns the slot it
      took and settles every reservation ([request_returns_everything]); the
      upstream is called only for an admitted one
      ([upstream_only_if_admitted]); and it ends with a true outcome
      ([every_request_has_outcome]).  These are theorems about one request run
      without interruption from any state of the limiters; [LeaseSystem] has
      the interleavings of the calls it makes.  The headers that cross, the
      bytes a bounded copy delivers, the events a stream may carry and the
      error a refusal sends are exact ([headers_cross_exactly],
      [copy_bounded_exact], [sse_event_limit_exact], [gateway_error_answer]).
    - Administration: in every state the key service reaches, a principal that
      authenticates carries the policy the limiters enforce
      ([authenticated_policy_in_force]); an update changes all its stores or
      none ([policy_update_atomic]); a created key works at once
      ([created_key_authenticates]); the key list read in pages is the list at
      the first page ([key_pages_exact]).  A request is let in exactly by the
      credential or by a session with its token ([admin_authenticate_exact]),
      and one that is not changes nothing ([key_changes_authenticated]); a
      session lets in until a request ends it, and never
      after ([session_lifecycle]).
    - Defects: theorems and examples that state behaviour of the code which
      contradicts its comments or its sibling: window starts at a sub-second
      instant, two on deferred adjustment after a bucket was pruned (one locks
      the key for ever), a
      cancelled batch in the usage accumulator, policy members that differ in
      case, a usage object with members missing read as zero
      ([partial_usage_reads_zero]), a lease adjusted after the drain deadline
      ([drain_deadline_adjusts_late]), a model list that does not bind a body
      that is not inspected ([model_list_skipped_when_uninspected]), a conflict
      that arises during a policy update reported as an internal error
      ([raced_conflict_is_internal]).

    ** Fuel and bounds

    Loops over a slice are structural.  The loops that are not run on fuel
    that is shown to suffice by the theorem about the function: the stream
    reader's loops get one more than the number of unread bytes, since every
    iteration consumes a byte or returns; the coordinator's [drive] is used
    only in statements that exhibit its final state.  The JSON scanner gets
    twice the length of the text plus one ([value_fuel]), the duplicate check,
    the strict object scanner and the duration parser one more than its length
    ([scanJSONValue_fuel], [scan_members_fuel], [duration_terms_fuel]).

    ** Idealisations

    A reader returns bytes or an error in every read, and a failing request
    body reports its error in a read of its own.  A commit that fails leaves
    the table.  Policy updates, key creations and administration requests run
    one after the other; a request that authenticates between the writes of an
    update is not represented.  A query function of the analytics coordinator
    returns.  [strings.ToLower] is exact for texts compared with ASCII names.

    ** Not modelled

    The constructors that wire the server (apart from the limiters' policies),
    the capture of request bodies and the middleware around the proxy
    ([internal/httpserver/server.go]), the administration endpoints that only
    read ([admin.go]), the user interface ([ui.go]), metrics and readiness; SQL
    ([internal/storage] apart from what the components above list);
    configuration loading, the command-line clients and process start-up.
    They are I/O and calls into libraries outside the repository.
    [PROJECT.json] lists every part with its status. *)

From Stdlib Require Import ZArith Lia ZifyBool.
From stdpp Require Import prelude gmap strings list sorting.
Local Open Scope Z_scope.

(** ** Machine integers

    A Go [int64] (and [int] on the 64-bit targets the gateway is built for) is a
    [Z] together with the wrap-around of the operations that do not check for
    overflow themselves. *)

Definition maxInt64 : Z := 9223372036854775807.
Definition minInt64 : Z := -9223372036854775808.

(** Two's-complement wrap-around of [int64] and truncation to [uint64]/[uint32]. *)
Definition wrap64 (z : Z) : Z :=
  (z + 9223372036854775808) mod 18446744073709551616 - 9223372036854775808.
Definition wrapU64 (z : Z) : Z := z mod 18446744073709551616.
Definition wrapU32 (z : Z) : Z := z mod 4294967296.

Definition add64 (a b : Z) : Z := wrap64 (a + b).
Definition sub64 (a b : Z) : Z := wrap64 (a - b).
Definition mul64 (a b : Z) : Z := wrap64 (a * b).

Definition int64 (z : Z) : Prop := minInt64 <= z <= maxInt64.

(** [lia] after exposing the width constants. *)
Ltac lia64 := unfold int64, minInt64, maxInt64 in *; lia.

(** [lia] for goals with division and remainder by constants. *)
Ltac div_lia := Z.to_euclidean_division_equations; lia.

Create HintDb go discriminated.

Section machine_integers.

Lemma wrap64_id z : int64 z → wrap64 z = z.
Proof. unfold wrap64. intros ?. rewrite Z.mod_small; lia64. Qed.

Lemma wrap64_range z : int64 (wrap64 z).
Proof.
  unfold wrap64.
  pose proof (Z.mod_pos_bound (z + 9223372036854775808) 18446744073709551616).
  lia64.
Qed.

Lemma wrap64_congr z : ∃ k, wrap64 z = z + k * 18446744073709551616.
Proof.
  unfold wrap64. exists (- ((z + 9223372036854775808) / 18446744073709551616)).
  pose proof (Z.div_mod (z + 9223372036854775808) 18446744073709551616). lia.
Qed.

Lemma add64_id a b : int64 (a + b) → add64 a b = a + b.
Proof. apply wrap64_id. Qed.

Lemma sub64_id a b : int64 (a - b) → sub64 a b = a - b.
Proof. apply wrap64_id. Qed.

Lemma mul64_id a b : int64 (a * b) → mul64 a b = a * b.
Proof. apply wrap64_id. Qed.

(** Truncated division by a positive number, Go's [/] on non-negative values,
    is floor division there. *)
Lemma quot_div_nonneg a b : 0 <= a → 0 < b → Z.quot a b = a / b.
Proof. apply Z.quot_div_nonneg. Qed.

Lemma rem_mod_nonneg a b : 0 <= a → 0 < b → Z.rem a b = a mod b.
Proof. apply Z.rem_mod_nonneg. Qed.

(** Go's floor alignment idiom: [r := n % w; if r < 0 { r += w }]. *)
Lemma rem_floor_mod n w :
  0 < w → (if Z.rem n w <? 0 then Z.rem n w + w else Z.rem n w) = n mod w.
Proof.
  intros Hw. pose proof (Z.rem_bound_abs n w).
  pose proof (Z.quot_rem n w).
  destruct (Z.ltb_spec (Z.rem n w) 0).
  - apply (Z.mod_unique n w (Z.quot n w - 1)); lia.
  - apply (Z.mod_unique n w (Z.quot n w)); lia.
Qed.

End machine_integers.

(** ** Fallible code

    A Go function that returns [(T, error)] and whose value is the zero value
    whenever the error is set returns a [result]; where the source returns a
    meaningful value beside an error the model keeps the pair. *)

Inductive result (E A : Type) : Type :=
| Ok (a : A)
| Err (e : E).
Arguments Ok {E A} a.
Arguments Err {E A} e.

Definition result_bind {E A B} (r : result E A) (k : A → result E B) : result E B :=
  match r with Ok a => k a | Err e => Err e end.

Definition is_ok {E A} (r : result E A) : bool :=
  match r with Ok _ => true | Err _ => false end.

Declare Scope go_scope.
Delimit Scope go_scope with go.
Notation "'let?' x ':=' r 'in' k" := (result_bind r (λ x, k))
  (at level 10, x pattern, k at level 200) : go_scope.
Open Scope go_scope.

Lemma result_bind_Ok {E A B} (r : result E A) (k : A → result E B) b :
  result_bind r k = Ok b ↔ ∃ a, r = Ok a ∧ k a = Ok b.
Proof. destruct r; simpl; split; naive_solver. Qed.

(** ** Time

    A [time.Time] is the number of nanoseconds since the Unix epoch.  Go keeps
    seconds and nanoseconds apart, so instants are not limited to 64-bit
    nanoseconds: [UnixNano] is the only accessor that wraps.  All instants the
    gateway handles are converted to UTC, which does not change the instant. *)

Definition second : Z := 1000000000.

(** [time.Time{}]: January 1, year 1, 00:00:00 UTC. *)
Definition zeroTime : Z := -62135596800000000000.
Definition IsZero (t : Z) : bool := t =? zeroTime.
Definition After (t u : Z) : bool := u <? t.
Definition Before (t u : Z) : bool := t <? u.
Definition UnixNano (t : Z) : Z := wrap64 t.
Definition Unix (t : Z) : Z := t / second.
Definition Nanosecond (t : Z) : Z := t mod second.
(** [Time.Sub] saturates at the extreme durations. *)
Definition Sub (t u : Z) : Z := Z.max minInt64 (Z.min maxInt64 (t - u)).

(** The instants for which [UnixNano] is exact. *)
Definition unix_range (t : Z) : Prop := int64 t.

Lemma UnixNano_exact t : unix_range t → UnixNano t = t.
Proof. apply wrap64_id. Qed.

(** ** Tactics *)

(** Case analysis on every boolean test and option/result match in sight,
    closing the arithmetic and contradictory branches. *)
Ltac crush_if :=
  repeat (case_match; simplify_eq/=; try done; try lia64).

(** ** Lists *)

(** Insertion sort for [sort.Slice] under a strict total comparator. *)
Section insertion_sort.
Context {A : Type} (less : A → A → bool).

Fixpoint insert_sorted (x : A) (l : list A) : list A :=
  match l with
  | [] => [x]
  | y :: l' => if less y x then y :: insert_sorted x l' else x :: l
  end.

Definition sort_slice (l : list A) : list A := foldr insert_sorted [] l.

Lemma insert_sorted_Permutation x l : insert_sorted x l ≡ₚ x :: l.
Proof.
  induction l as [|y l IH]; simpl; [done|]. case_match; [|done].
  rewrite IH. constructor.
Qed.

Lemma sort_slice_Permutation l : sort_slice l ≡ₚ l.
Proof.
  induction l as [|x l IH]; simpl; [done|].
  by rewrite insert_sorted_Permutation, IH.
Qed.

Lemma sort_slice_length l : length (sort_slice l) = length l.
Proof. apply Permutation_length, sort_slice_Permutation. Qed.

Context (less_trans : ∀ x y z, less x y = true → less y z = true → less x z = true).
Context (less_total : ∀ x y, less x y = false → less y x = false → x = y).

(** Not-greater-than, the order [sort.Slice] establishes. *)
Definition not_after (x y : A) : Prop := less y x = false.

Lemma insert_sorted_Sorted x l :
  (∀ a b, less a b = true → less b a = false) →
  Sorted not_after l → Sorted not_after (insert_sorted x l).
Proof.
  intros Hasym. unfold not_after. induction 1 as [|y l Hl IH Hhd]; simpl; [by repeat constructor|].
  destruct (less y x) eqn:E.
  - constructor; [done|]. destruct l as [|z l]; simpl in *; [by constructor; apply Hasym|].
    destruct (less z x) eqn:E2; constructor; [by inv Hhd|by apply Hasym].
  - constructor; [by constructor|by constructor].
Qed.

Lemma sort_slice_Sorted l :
  (∀ a b, less a b = true → less b a = false) → Sorted not_after (sort_slice l).
Proof. intros ?. induction l; simpl; [constructor|]. by apply insert_sorted_Sorted. Qed.

End insertion_sort.

(** ** Sums over maps *)

Section sums.
Context {A : Type}.
Implicit Types (f g : A → Z) (m : gmap positive A).

Definition msum (f : A → Z) (m : gmap positive A) : Z :=
  map_fold (λ _ r acc, f r + acc) 0 m.

Lemma msum_empty f : msum f ∅ = 0.
Proof. apply map_fold_empty. Qed.

Lemma msum_insert f m i r : m !! i = None → msum f (<[i := r]> m) = f r + msum f m.
Proof.
  intros H. unfold msum. rewrite map_fold_insert_L; [done| |done]. intros. lia.
Qed.

Lemma msum_update f m i r r' :
  m !! i = Some r → msum f (<[i := r']> m) = msum f m - f r + f r'.
Proof.
  intros H. rewrite <-(insert_delete_id m i r H) at 2. rewrite <-insert_delete_eq.
  rewrite !msum_insert by apply lookup_delete_eq. lia.
Qed.

Lemma msum_le f m i r : (∀ r', 0 <= f r') → m !! i = Some r → f r <= msum f m.
Proof.
  intros Hf H. assert (Hnn : ∀ m', 0 <= msum f m').
  { intros m'. induction m' as [|j x m' Hj IH] using map_ind; [done|]. rewrite msum_insert by done.
    pose proof (Hf x). lia. }
  rewrite <-(insert_delete_id m i r H). rewrite msum_insert by apply lookup_delete_eq.
  pose proof (Hnn (delete i m)). lia.
Qed.

Lemma msum_nonneg f m : (∀ r', 0 <= f r') → 0 <= msum f m.
Proof.
  intros Hf. induction m as [|j x m' Hj IH] using map_ind; [done|]. rewrite msum_insert by done.
  pose proof (Hf x). lia.
Qed.

Lemma msum_ext f g m : (∀ i r, m !! i = Some r → f r = g r) → msum f m = msum g m.
Proof.
  induction m as [|j x m' Hj IH] using map_ind; intros H; [done|]. rewrite !msum_insert by done.
  rewrite (H j x) by apply lookup_insert_eq. f_equal. apply IH. intros i r Hi. apply (H i).
  rewrite lookup_insert_ne; [done|]. congruence.
Qed.

Lemma msum_zero f m : (∀ i r, m !! i = Some r → f r = 0) → msum f m = 0.
Proof.
  induction m as [|j x m' Hj IH] using map_ind; intros H; [done|]. rewrite msum_insert by done.
  rewrite (H j x) by apply lookup_insert_eq. apply IH. intros i r Hi. apply (H i).
  rewrite lookup_insert_ne; [done|]. congruence.
Qed.

End sums.
