(* ===== verification/Text.v ===== *)
(** * Byte strings and the [strings]/[strconv] functions the sources use

    A Go string or byte slice is a list of bytes.  The functions below are the
    standard-library operations called by [accounting/money.go],
    [streaming/parser.go] and [accounting/pricing.go]. *)

From Stdlib Require Import Ascii ZArith Lia ZifyBool.
From stdpp Require Import prelude gmap strings list.
From S2P Require Import Prelude.
Local Open Scope Z_scope.

Abbreviation bytes := (list Ascii.ascii).

(** The bytes of a string literal. *)
Definition str (s : string) : bytes := String.list_ascii_of_string s.

(** The numeric value of a byte. *)
Definition code (c : Ascii.ascii) : Z := Z.of_N (Ascii.N_of_ascii c).
Definition chr (z : Z) : Ascii.ascii := Ascii.ascii_of_N (Z.to_N z).

Definition byte_eqb (a b : Ascii.ascii) : bool := bool_decide (a = b).

Definition dot : Ascii.ascii := "."%char.
Definition zero_char : Ascii.ascii := "0"%char.
Definition minus_char : Ascii.ascii := "-"%char.
Definition plus_char : Ascii.ascii := "+"%char.

Lemma code_range c : 0 <= code c < 256.
Proof.
  unfold code. pose proof (Ascii.N_ascii_bounded c). lia.
Qed.

Lemma code_chr z : 0 <= z < 256 → code (chr z) = z.
Proof.
  intros ?. unfold code, chr. rewrite Ascii.N_ascii_embedding; lia.
Qed.

Lemma chr_code c : chr (code c) = c.
Proof. unfold chr, code. by rewrite N2Z.id, Ascii.ascii_N_embedding. Qed.

Lemma code_inj a b : code a = code b → a = b.
Proof. intros E. by rewrite <-(chr_code a), E, chr_code. Qed.

(** ** [strings] *)

(** [strings.IndexByte]; [None] stands for -1. *)
Fixpoint IndexByte (s : bytes) (c : Ascii.ascii) : option nat :=
  match s with
  | [] => None
  | x :: s' => if byte_eqb x c then Some 0%nat else S <$> IndexByte s' c
  end.

(** [strings.TrimRight(s, cutset)] for a one-byte cutset. *)
Fixpoint trim_left (c : Ascii.ascii) (s : bytes) : bytes :=
  match s with
  | [] => []
  | x :: s' => if byte_eqb x c then trim_left c s' else s
  end.
Definition TrimRight (s : bytes) (c : Ascii.ascii) : bytes := reverse (trim_left c (reverse s)).

(** [strings.Repeat] of a one-byte string; a negative count panics in Go and is
    never reached by the callers. *)
Definition Repeat (c : Ascii.ascii) (n : Z) : bytes := replicate (Z.to_nat n) c.

Lemma IndexByte_Some s c i :
  IndexByte s c = Some i →
  s = take i s ++ c :: drop (S i) s ∧ (i < length s)%nat ∧ c ∉ take i s.
Proof.
  revert i. induction s as [|x s IH]; intros i H; simpl in *; [done|].
  unfold byte_eqb in H. case_bool_decide; simplify_eq/=.
  - split; [by rewrite drop_0|]. split; [lia|]. by apply not_elem_of_nil.
  - apply fmap_Some in H as (j & Hj & ->).
    destruct (IH _ Hj) as (E & Hlt & Hn). simpl. split; [by f_equal|]. split; [lia|].
    rewrite not_elem_of_cons. done.
Qed.

Lemma IndexByte_None s c : IndexByte s c = None ↔ c ∉ s.
Proof.
  induction s as [|x s IH]; simpl.
  - split; [intros _; apply not_elem_of_nil|done].
  - rewrite not_elem_of_cons. unfold byte_eqb. case_bool_decide as E; subst.
    + naive_solver.
    + rewrite fmap_None, IH. naive_solver.
Qed.

Lemma IndexByte_app s1 s2 c :
  c ∉ s1 → IndexByte (s1 ++ c :: s2) c = Some (length s1).
Proof.
  induction s1 as [|x s IH]; simpl; intros H.
  - unfold byte_eqb. by rewrite bool_decide_true.
  - rewrite not_elem_of_cons in H. destruct H as [H1 H2].
    unfold byte_eqb. rewrite bool_decide_false by naive_solver. by rewrite IH.
Qed.

Lemma trim_left_split c s :
  ∃ n, s = replicate n c ++ trim_left c s ∧ head (trim_left c s) ≠ Some c.
Proof.
  induction s as [|x s (n & E & H)]; simpl; [by exists 0%nat|].
  unfold byte_eqb. case_bool_decide; subst.
  - exists (S n). split; [by simpl; rewrite <-E|done].
  - exists 0%nat. split; [done|]. simpl. naive_solver.
Qed.

Lemma trim_left_app c s t :
  trim_left c s ≠ [] → trim_left c (s ++ t) = trim_left c s ++ t.
Proof.
  induction s as [|x s IH]; simpl; [done|]. case_match; [done|]. done.
Qed.

Lemma TrimRight_split c s :
  ∃ n, s = TrimRight s c ++ replicate n c ∧ last (TrimRight s c) ≠ Some c.
Proof.
  destruct (trim_left_split c (reverse s)) as (n & E & H).
  exists n. unfold TrimRight. split; [|by rewrite last_reverse].
  rewrite <-(reverse_involutive s) at 1. rewrite E at 1.
  by rewrite reverse_app, reverse_replicate.
Qed.

(** ** [strconv] *)

Definition is_digit (c : Ascii.ascii) : bool := (48 <=? code c) && (code c <=? 57).
Definition digit_value (c : Ascii.ascii) : Z := code c - 48.
Definition digit_char (d : Z) : Ascii.ascii := chr (48 + d).

Fixpoint format_digits (fuel : nat) (n : Z) (acc : bytes) : bytes :=
  match fuel with
  | O => acc
  | S fuel' =>
      let acc' := digit_char (n mod 10) :: acc in
      if n <? 10 then acc' else format_digits fuel' (n / 10) acc'
  end.

(** [strconv.FormatInt(n, 10)]: an [int64] has at most 19 digits. *)
Definition FormatInt (n : Z) : bytes :=
  if n <? 0 then minus_char :: format_digits 20 (- n) [] else format_digits 20 n [].

(** The value of a digit string, most significant digit first. *)
Definition digits_value (s : bytes) : Z := foldl (λ acc c, 10 * acc + digit_value c) 0 s.

Inductive parse_error := ErrSyntax | ErrRange.

(** [strconv.ParseInt(s, 10, 64)]. *)
Definition ParseInt (s : bytes) : result parse_error Z :=
  let '(neg, body) :=
    match s with
    | c :: s' => if byte_eqb c minus_char then (true, s') else if byte_eqb c plus_char then (false, s') else (false, s)
    | [] => (false, s)
    end in
  if bool_decide (body = []) || negb (forallb is_digit body) then Err ErrSyntax
  else
    let v := if neg : bool then - digits_value body else digits_value body in
    if (v <? minInt64) || (maxInt64 <? v) then Err ErrRange else Ok v.

(** [strconv.ParseUint(s, 10, bits)]: no sign is accepted. *)
Definition ParseUint (s : bytes) (bits : Z) : result parse_error Z :=
  if bool_decide (s = []) || negb (forallb is_digit s) then Err ErrSyntax
  else
    let v := digits_value s in
    if 2 ^ bits <=? v then Err ErrRange else Ok v.

Lemma digits_value_snoc s c : digits_value (s ++ [c]) = 10 * digits_value s + digit_value c.
Proof. unfold digits_value. by rewrite foldl_snoc. Qed.

Lemma digits_value_foldl s a :
  foldl (λ acc c, 10 * acc + digit_value c) a s = a * 10 ^ Z.of_nat (length s) + digits_value s.
Proof.
  unfold digits_value. revert a. induction s as [|c s IH]; intros a; simpl; [lia|].
  rewrite IH, (IH (10 * 0 + _)). rewrite Nat2Z.inj_succ, Z.pow_succ_r by lia. lia.
Qed.

Lemma digits_value_app s t :
  digits_value (s ++ t) = digits_value s * 10 ^ Z.of_nat (length t) + digits_value t.
Proof. unfold digits_value at 1. by rewrite foldl_app, digits_value_foldl. Qed.

Lemma is_digit_value c : is_digit c = true → 0 <= digit_value c <= 9.
Proof. unfold is_digit, digit_value. lia. Qed.

Lemma digit_char_spec d :
  0 <= d <= 9 → is_digit (digit_char d) = true ∧ digit_value (digit_char d) = d.
Proof.
  intros ?. unfold is_digit, digit_value, digit_char. rewrite code_chr; lia.
Qed.

Lemma digits_value_bound s :
  forallb is_digit s = true → 0 <= digits_value s < 10 ^ Z.of_nat (length s).
Proof.
  induction s as [|c s IH] using rev_ind; [done|].
  rewrite forallb_app, andb_true_iff. simpl. rewrite andb_true_r. intros [Hs Hc].
  specialize (IH Hs). apply is_digit_value in Hc.
  rewrite digits_value_snoc, length_app. simpl.
  replace (Z.of_nat (length s + 1)) with (Z.succ (Z.of_nat (length s))) by lia.
  rewrite Z.pow_succ_r by lia. lia.
Qed.

Lemma digits_value_zeros n : digits_value (replicate n zero_char) = 0.
Proof.
  induction n; [done|]. rewrite replicate_S_end, digits_value_snoc, IHn. done.
Qed.

Lemma zeros_digits n : forallb is_digit (replicate n zero_char) = true.
Proof. by induction n. Qed.

(** With enough fuel the digit printer is correct, whatever follows. *)
Lemma format_digits_spec fuel n acc :
  0 <= n < 10 ^ Z.of_nat fuel →
  ∃ ds, format_digits fuel n acc = ds ++ acc ∧ forallb is_digit ds = true ∧
        digits_value ds = n ∧ (n = 0 → (0 < fuel)%nat → ds ≠ []) ∧ (0 < n → ds ≠ []) ∧
        (∀ k, n < 10 ^ Z.of_nat k → (0 < k)%nat → (length ds ≤ k)%nat).
Proof.
  revert n acc. induction fuel as [|fuel IH]; intros n acc Hn.
  - simpl in *. exists []. repeat split; try done; try lia. change (digits_value []) with 0. lia.
    intros; simpl; lia.
  - simpl. rewrite Nat2Z.inj_succ, Z.pow_succ_r in Hn by lia.
    pose proof (Z.mod_pos_bound n 10 ltac:(lia)).
    destruct (digit_char_spec (n mod 10)) as [Hd1 Hd2]; [lia|].
    destruct (Z.ltb_spec n 10).
    + exists [digit_char (n mod 10)]. simpl. rewrite Hd1. unfold digits_value; simpl. rewrite Hd2.
      rewrite Z.mod_small by lia. repeat split; try done; lia.
    + destruct (IH (n / 10) (digit_char (n mod 10) :: acc)) as (ds & E & D & V & N0 & N1 & L).
      { split; [apply Z.div_pos; lia|]. apply Z.div_lt_upper_bound; lia. }
      assert (0 < n / 10) by (apply Z.div_str_pos; lia).
      exists (ds ++ [digit_char (n mod 10)]).
      rewrite E, <-app_assoc, forallb_app, digits_value_snoc, V, Hd2, D. simpl. rewrite Hd1.
      split; [done|]. split; [done|]. split; [pose proof (Z.div_mod n 10); lia|].
      split; [lia|]. split; [intros _; destruct ds; done|].
      intros k Hk Hk0. rewrite length_app. simpl.
      destruct k as [|[|k]]; [lia|simpl in Hk; lia|].
      rewrite Nat2Z.inj_succ, Z.pow_succ_r in Hk by lia.
      assert (length ds ≤ S k)%nat; [|lia].
      apply L; [|lia]. apply Z.div_lt_upper_bound; lia.
Qed.

Lemma FormatInt_spec n :
  0 <= n <= maxInt64 →
  forallb is_digit (FormatInt n) = true ∧ digits_value (FormatInt n) = n ∧ FormatInt n ≠ [] ∧
  (∀ k, n < 10 ^ Z.of_nat k → (0 < k)%nat → (length (FormatInt n) ≤ k)%nat).
Proof.
  intros Hn. unfold FormatInt. destruct (Z.ltb_spec n 0); [lia|].
  destruct (format_digits_spec 20 n []) as (ds & -> & D & V & N0 & N1 & L);
    [unfold maxInt64 in *; lia|].
  rewrite app_nil_r. repeat split; try done.
  destruct (decide (n = 0)); [apply N0; [done|lia]|apply N1; lia].
Qed.

Lemma is_digit_not_sign c :
  is_digit c = true → byte_eqb c minus_char = false ∧ byte_eqb c plus_char = false ∧ c ≠ dot.
Proof.
  intros H. unfold byte_eqb. split_and!.
  - apply bool_decide_false. intros ->. done.
  - apply bool_decide_false. intros ->. done.
  - intros ->. done.
Qed.

(** On a non-empty digit string [ParseInt] returns its value or [ErrRange]. *)
Lemma ParseInt_digits s :
  s ≠ [] → forallb is_digit s = true →
  ParseInt s = if maxInt64 <? digits_value s then Err ErrRange else Ok (digits_value s).
Proof.
  intros Hne Hd. unfold ParseInt. destruct s as [|c s]; [done|].
  pose proof (digits_value_bound _ Hd).
  assert (Hc : is_digit c = true) by (simpl in Hd; by apply andb_true_iff in Hd as [? _]).
  destruct (is_digit_not_sign c Hc) as (-> & -> & _).
  rewrite bool_decide_false by done. rewrite Hd. simpl.
  destruct (Z.ltb_spec (digits_value (c :: s)) minInt64); [lia64|]. done.
Qed.

Lemma digits_no_dot s : forallb is_digit s = true → dot ∉ s.
Proof.
  intros H Hin. rewrite forallb_forall in H.
  by apply list_elem_of_In, H in Hin.
Qed.
