(* ===== verification/Utf8.v ===== *)
(** * UTF-8 as Go's [unicode/utf8] and rune conversions define it

    Used by [modelmatch.Compile] and [Matches], by the pricing resolver and by
    the budget planner.  A rune is its code point. *)

From Stdlib Require Import Ascii ZArith Lia ZifyBool.
From stdpp Require Import prelude strings list.
From S2P Require Import Prelude Text.
Local Open Scope Z_scope.

(** U+FFFD, the replacement for a byte that is not part of a valid encoding. *)
Definition RuneError : Z := 65533.

Definition valid_rune (r : Z) : bool :=
  ((0 <=? r) && (r <? 55296)) || ((57344 <=? r) && (r <=? 1114111)).

(** The accepted range of the second byte depends on the first. *)
Definition second_lo (b0 : Z) : Z := if b0 =? 224 then 160 else if b0 =? 240 then 144 else 128.
Definition second_hi (b0 : Z) : Z := if b0 =? 237 then 159 else if b0 =? 244 then 143 else 191.
Definition continuation (b : Z) : bool := (128 <=? b) && (b <=? 191).

(** [utf8.DecodeRune]: the rune, its width, and whether the encoding is valid
    (Go signals an invalid byte by [RuneError] with width one). *)
Definition DecodeRune (s : bytes) : Z * nat * bool :=
  match s with
  | [] => (RuneError, 0%nat, false)
  | c0 :: s1 =>
      let b0 := code c0 in
      if b0 <? 128 then (b0, 1%nat, true)
      else if (b0 <? 194) || (244 <? b0) then (RuneError, 1%nat, false)
      else
        match s1 with
        | [] => (RuneError, 1%nat, false)
        | c1 :: s2 =>
            let b1 := code c1 in
            if (b1 <? second_lo b0) || (second_hi b0 <? b1) then (RuneError, 1%nat, false)
            else if b0 <? 224 then ((b0 - 192) * 64 + (b1 - 128), 2%nat, true)
            else
              match s2 with
              | [] => (RuneError, 1%nat, false)
              | c2 :: s3 =>
                  let b2 := code c2 in
                  if negb (continuation b2) then (RuneError, 1%nat, false)
                  else if b0 <? 240 then
                    ((b0 - 224) * 4096 + (b1 - 128) * 64 + (b2 - 128), 3%nat, true)
                  else
                    match s3 with
                    | [] => (RuneError, 1%nat, false)
                    | c3 :: _ =>
                        let b3 := code c3 in
                        if negb (continuation b3) then (RuneError, 1%nat, false)
                        else ((b0 - 240) * 262144 + (b1 - 128) * 4096 + (b2 - 128) * 64 + (b3 - 128), 4%nat, true)
                    end
              end
        end
  end.

(** [utf8.AppendRune]/[Builder.WriteRune]: a rune that is not a Unicode scalar
    value is written as U+FFFD. *)
Definition EncodeRune (r0 : Z) : bytes :=
  let r := if valid_rune r0 then r0 else RuneError in
  if r <? 128 then [chr r]
  else if r <? 2048 then [chr (192 + r / 64); chr (128 + r mod 64)]
  else if r <? 65536 then
    [chr (224 + r / 4096); chr (128 + (r / 64) mod 64); chr (128 + r mod 64)]
  else
    [chr (240 + r / 262144); chr (128 + (r / 4096) mod 64);
     chr (128 + (r / 64) mod 64); chr (128 + r mod 64)].

(** [[]rune(s)]; the fuel is the length, since every step consumes a byte. *)
Fixpoint runes_fuel (fuel : nat) (s : bytes) : list Z :=
  match fuel, s with
  | S fuel', _ :: _ =>
      let '(r, n, _) := DecodeRune s in r :: runes_fuel fuel' (drop n s)
  | _, _ => []
  end.
Definition runes (s : bytes) : list Z := runes_fuel (length s) s.

Fixpoint valid_fuel (fuel : nat) (s : bytes) : bool :=
  match fuel, s with
  | S fuel', _ :: _ =>
      let '(_, n, ok) := DecodeRune s in ok && valid_fuel fuel' (drop n s)
  | _, _ => true
  end.
(** [utf8.ValidString]. *)
Definition ValidString (s : bytes) : bool := valid_fuel (length s) s.

Definition RuneCountInString (s : bytes) : Z := Z.of_nat (length (runes s)).

(** Unicode white space, as [unicode.IsSpace] lists it. *)
Definition is_space (r : Z) : bool :=
  ((9 <=? r) && (r <=? 13)) || (r =? 32) || (r =? 133) || (r =? 160) || (r =? 5760)
  || ((8192 <=? r) && (r <=? 8202)) || (r =? 8232) || (r =? 8233) || (r =? 8239)
  || (r =? 8287) || (r =? 12288).

(** [strings.TrimSpace(s) == ""]: the string consists of white space. *)
Definition TrimSpace_empty (s : bytes) : bool := forallb is_space (runes s).

(** [string(runes)] / writing the runes one after the other. *)
Definition encode (rs : list Z) : bytes := concat (map EncodeRune rs).

Section decode_encode.

Lemma valid_rune_spec r : valid_rune r = true ↔ 0 <= r < 55296 ∨ 57344 <= r <= 1114111.
Proof. unfold valid_rune. lia. Qed.

Lemma EncodeRune_length r : (1 ≤ length (EncodeRune r) ≤ 4)%nat.
Proof. unfold EncodeRune. repeat case_match; simpl; lia. Qed.

Ltac divmod r :=
  pose proof (Z.div_mod r 64 ltac:(lia)); pose proof (Z.mod_pos_bound r 64 ltac:(lia));
  pose proof (Z.div_mod (r / 64) 64 ltac:(lia)); pose proof (Z.mod_pos_bound (r / 64) 64 ltac:(lia));
  pose proof (Z.div_mod (r / 64 / 64) 64 ltac:(lia)); pose proof (Z.mod_pos_bound (r / 64 / 64) 64 ltac:(lia)).

Lemma div_4096 r : r / 4096 = r / 64 / 64.
Proof. by rewrite Z.div_div by lia. Qed.
Lemma div_262144 r : r / 262144 = r / 64 / 64 / 64.
Proof. by rewrite !Z.div_div by lia. Qed.

(** Decoding an encoded scalar value gives it back, whatever follows. *)
Lemma DecodeRune_EncodeRune r t :
  valid_rune r = true →
  DecodeRune (EncodeRune r ++ t) = (r, length (EncodeRune r), true).
Proof.
  intros Hv. unfold EncodeRune. rewrite Hv. apply valid_rune_spec in Hv.
  rewrite div_262144, div_4096. divmod r.
  destruct (Z.ltb_spec r 128); [|destruct (Z.ltb_spec r 2048); [|destruct (Z.ltb_spec r 65536)]];
    cbn [app DecodeRune length]; rewrite ?code_chr by lia.
  - destruct (Z.ltb_spec r 128); [done|lia].
  - destruct (Z.ltb_spec (192 + r / 64) 128); [lia|].
    rewrite (proj2 (orb_false_iff _ _)) by lia.
    rewrite (proj2 (orb_false_iff _ _)) by (unfold second_lo, second_hi; repeat case_match; lia).
    destruct (Z.ltb_spec (192 + r / 64) 224); [|lia]. repeat f_equal. lia.
  - destruct (Z.ltb_spec (224 + r / 64 / 64) 128); [lia|].
    rewrite (proj2 (orb_false_iff _ _)) by lia.
    rewrite (proj2 (orb_false_iff _ _)) by (unfold second_lo, second_hi; repeat case_match; lia).
    destruct (Z.ltb_spec (224 + r / 64 / 64) 224); [lia|].
    replace (continuation (128 + r mod 64)) with true by (unfold continuation; lia).
    destruct (Z.ltb_spec (224 + r / 64 / 64) 240); [|lia]. cbn [negb]. repeat f_equal. lia.
  - destruct (Z.ltb_spec (240 + r / 64 / 64 / 64) 128); [lia|].
    rewrite (proj2 (orb_false_iff _ _)) by lia.
    rewrite (proj2 (orb_false_iff _ _)) by (unfold second_lo, second_hi; repeat case_match; lia).
    destruct (Z.ltb_spec (240 + r / 64 / 64 / 64) 224); [lia|].
    replace (continuation (128 + (r / 64) mod 64)) with true by (unfold continuation; lia).
    destruct (Z.ltb_spec (240 + r / 64 / 64 / 64) 240); [lia|].
    replace (continuation (128 + r mod 64)) with true by (unfold continuation; lia).
    cbn [negb]. repeat f_equal. lia.
Qed.

(** A valid decoding step reads exactly the encoding of the rune it returns. *)
Lemma DecodeRune_valid s r n :
  DecodeRune s = (r, n, true) →
  valid_rune r = true ∧ s = EncodeRune r ++ drop n s ∧ n = length (EncodeRune r).
Proof.
  destruct s as [|c0 s1]; [done|]. cbn [DecodeRune].
  pose proof (code_range c0) as R0.
  destruct (Z.ltb_spec (code c0) 128).
  { intros [= <- <-]. assert (Hv : valid_rune (code c0) = true) by (apply valid_rune_spec; lia).
    unfold EncodeRune. rewrite Hv. destruct (Z.ltb_spec (code c0) 128); [|lia].
    simpl. by rewrite chr_code, drop_0. }
  destruct ((code c0 <? 194) || (244 <? code c0)) eqn:E0; [done|].
  destruct s1 as [|c1 s2]; [done|]. pose proof (code_range c1) as R1.
  destruct ((code c1 <? second_lo (code c0)) || (second_hi (code c0) <? code c1)) eqn:E1; [done|].
  assert (B1 : 128 <= code c1 <= 191) by (unfold second_lo, second_hi in E1; repeat case_match; lia).
  assert (Hfin : ∀ r cs n t, valid_rune r = true → EncodeRune r = cs → n = length cs →
     valid_rune r = true ∧ cs ++ t = EncodeRune r ++ drop n (cs ++ t) ∧ n = length (EncodeRune r)).
  { intros r' cs n' t Hv Hcs ->. rewrite Hcs, drop_app_length. done. }
  destruct (Z.ltb_spec (code c0) 224).
  { intros [= <- <-]. apply (Hfin _ [c0; c1]); [apply valid_rune_spec; lia| |done].
    unfold EncodeRune. rewrite (proj2 (valid_rune_spec _)) by lia.
    set (r := (code c0 - 192) * 64 + (code c1 - 128)). assert (128 <= r < 2048) by (unfold r; lia).
    destruct (Z.ltb_spec r 128); [lia|]. destruct (Z.ltb_spec r 2048); [|lia].
    replace (r / 64) with (code c0 - 192) by (unfold r; div_lia).
    replace (r mod 64) with (code c1 - 128) by (unfold r; div_lia).
    rewrite <-(chr_code c0) at 2. rewrite <-(chr_code c1) at 2. repeat f_equal; lia. }
  destruct s2 as [|c2 s3]; [done|]. pose proof (code_range c2) as R2.
  destruct (continuation (code c2)) eqn:E2; [|done]. cbn [negb]. unfold continuation in E2.
  destruct (Z.ltb_spec (code c0) 240).
  { intros [= <- <-].
    set (r := (code c0 - 224) * 4096 + (code c1 - 128) * 64 + (code c2 - 128)).
    assert (Hr : 2048 <= r < 55296 ∨ 57344 <= r < 65536) by (unfold r, second_lo, second_hi in *; clear r; repeat case_match; lia).
    apply (Hfin _ [c0; c1; c2]); [apply valid_rune_spec; lia| |done].
    unfold EncodeRune. rewrite (proj2 (valid_rune_spec _)) by lia.
    destruct (Z.ltb_spec r 128); [lia|]. destruct (Z.ltb_spec r 2048); [lia|].
    destruct (Z.ltb_spec r 65536); [|lia].
    replace (r / 4096) with (code c0 - 224) by (unfold r; div_lia).
    replace ((r / 64) mod 64) with (code c1 - 128) by (unfold r; div_lia).
    replace (r mod 64) with (code c2 - 128) by (unfold r; div_lia).
    rewrite <-(chr_code c0) at 2. rewrite <-(chr_code c1) at 2. rewrite <-(chr_code c2) at 2.
    repeat f_equal; lia. }
  destruct s3 as [|c3 s4]; [done|]. pose proof (code_range c3) as R3.
  destruct (continuation (code c3)) eqn:E3; [|done]. cbn [negb]. unfold continuation in E3.
  intros [= <- <-].
  set (r := (code c0 - 240) * 262144 + (code c1 - 128) * 4096 + (code c2 - 128) * 64 + (code c3 - 128)).
  assert (Hr : 65536 <= r <= 1114111) by (unfold r, second_lo, second_hi in *; clear r; repeat case_match; lia).
  apply (Hfin _ [c0; c1; c2; c3]); [apply valid_rune_spec; lia| |done].
  unfold EncodeRune. rewrite (proj2 (valid_rune_spec _)) by lia.
  destruct (Z.ltb_spec r 128); [lia|]. destruct (Z.ltb_spec r 2048); [lia|].
  destruct (Z.ltb_spec r 65536); [lia|].
  replace (r / 262144) with (code c0 - 240) by (unfold r; div_lia).
  replace ((r / 4096) mod 64) with (code c1 - 128) by (unfold r; div_lia).
  replace ((r / 64) mod 64) with (code c2 - 128) by (unfold r; div_lia).
  replace (r mod 64) with (code c3 - 128) by (unfold r; div_lia).
  rewrite <-(chr_code c0) at 2. rewrite <-(chr_code c1) at 2. rewrite <-(chr_code c2) at 2.
  rewrite <-(chr_code c3) at 2. repeat f_equal; lia.
Qed.

Lemma DecodeRune_width c s r n ok : DecodeRune (c :: s) = (r, n, ok) → (1 ≤ n)%nat.
Proof. cbn [DecodeRune]. repeat case_match; intros; simplify_eq; lia. Qed.

Lemma runes_fuel_encode rs fuel :
  Forall (λ r, valid_rune r = true) rs → (length (encode rs) ≤ fuel)%nat →
  runes_fuel fuel (encode rs) = rs ∧ valid_fuel fuel (encode rs) = true.
Proof.
  unfold encode. intros Hrs. revert fuel. induction Hrs as [|r rs Hr _ IH]; intros fuel Hf; [by destruct fuel|].
  cbn [map concat] in *. rewrite length_app in Hf. pose proof (EncodeRune_length r).
  destruct fuel as [|fuel]; [lia|].
  destruct (EncodeRune r ++ concat (map EncodeRune rs)) as [|c t] eqn:E.
  { apply (f_equal length) in E. rewrite length_app in E. simpl in E. lia. }
  cbn [runes_fuel valid_fuel]. rewrite <-E, DecodeRune_EncodeRune by done.
  rewrite drop_app_length. destruct (IH fuel) as [-> ->]; [lia|]. done.
Qed.

Lemma runes_encode rs :
  Forall (λ r, valid_rune r = true) rs → runes (encode rs) = rs.
Proof. intros. by apply runes_fuel_encode. Qed.

Lemma ValidString_encode rs :
  Forall (λ r, valid_rune r = true) rs → ValidString (encode rs) = true.
Proof. intros. by apply runes_fuel_encode. Qed.

Lemma encode_runes_fuel fuel s :
  (length s ≤ fuel)%nat → valid_fuel fuel s = true →
  encode (runes_fuel fuel s) = s ∧ Forall (λ r, valid_rune r = true) (runes_fuel fuel s).
Proof.
  unfold encode. revert s. induction fuel as [|fuel IH]; intros s Hf Hv.
  - by destruct s; [|simpl in Hf; lia].
  - destruct s as [|c s]; [done|]. cbn [runes_fuel valid_fuel] in *.
    destruct (DecodeRune (c :: s)) as [[r n] ok] eqn:D.
    apply andb_true_iff in Hv as [-> Hv].
    destruct (DecodeRune_valid _ _ _ D) as (Hr & E & Hn).
    assert (Hdrop : (length (drop n (c :: s)) ≤ fuel)%nat).
    { rewrite length_drop. pose proof (EncodeRune_length r). simpl in *. lia. }
    destruct (IH _ Hdrop Hv) as [E2 F2]. split; [|by constructor].
    cbn [map concat]. rewrite E2. by rewrite <-E.
Qed.

Lemma encode_runes s : ValidString s = true → encode (runes s) = s.
Proof. intros. by apply encode_runes_fuel. Qed.

Lemma runes_valid s : ValidString s = true → Forall (λ r, valid_rune r = true) (runes s).
Proof. intros. by apply encode_runes_fuel. Qed.

Lemma runes_nil s : runes s = [] ↔ s = [].
Proof.
  split; [|by intros ->]. unfold runes. destruct s as [|c s]; [done|].
  cbn [length runes_fuel]. by destruct (DecodeRune (c :: s)) as [[? ?] ?].
Qed.

End decode_encode.
