(* ===== verification/Money.v ===== *)
(** * Exact money ([internal/accounting/money.go])

    [Money] is an optional amount of integer USD micros.  Every operation of the
    source is a definition here; the theorems show that the checked arithmetic
    is exact, that unknown is never treated as zero, and that parsing and
    printing are inverse to each other. *)

From Stdlib Require Import Ascii ZArith Lia ZifyBool.
From stdpp Require Import prelude gmap strings list.
From S2P Require Import Prelude Text.
Local Open Scope Z_scope.

Definition MicrosPerUSD : Z := 1000000.
Definition MaxMoneyMicros : Z := maxInt64.

Inductive money_error :=
| ErrNegativeMoney
| ErrMoneyOverflow
| ErrMoneyUnderflow
| ErrInvalidMoney
| ErrUnknownMoney.

#[export] Instance money_error_eq_dec : EqDecision money_error.
Proof. solve_decision. Defined.

Inductive Comparison := Less | Equal | Greater.

#[export] Instance Comparison_eq_dec : EqDecision Comparison.
Proof. solve_decision. Defined.

Record Money := mkMoney { micros : Z; known : bool }.

#[export] Instance Money_eq_dec : EqDecision Money.
Proof. solve_decision. Defined.

(** The zero value [Money{}]. *)
Definition UnknownMoney : Money := mkMoney 0 false.
Definition MaxMoney : Money := mkMoney MaxMoneyMicros true.

Definition NewMoneyMicros (m : Z) : result money_error Money :=
  if m <? 0 then Err ErrNegativeMoney else Ok (mkMoney m true).

Definition Money_Known (money : Money) : bool := known money.
Definition Money_Micros (money : Money) : Z * bool := (micros money, known money).

Definition Money_Add (money other : Money) : result money_error Money :=
  if negb (known money) || negb (known other) then Ok UnknownMoney
  else if sub64 MaxMoneyMicros (micros other) <? micros money then Err ErrMoneyOverflow
  else Ok (mkMoney (add64 (micros money) (micros other)) true).

Definition Money_Subtract (money other : Money) : result money_error Money :=
  if negb (known money) || negb (known other) then Ok UnknownMoney
  else if micros money <? micros other then Err ErrMoneyUnderflow
  else Ok (mkMoney (sub64 (micros money) (micros other)) true).

(** [Compare] returns the zero [Comparison], [Equal], beside its error. *)
Definition Money_Compare (money other : Money) : Comparison * option money_error :=
  if negb (known money) || negb (known other) then (Equal, Some ErrUnknownMoney)
  else if micros money <? micros other then (Less, None)
  else if micros other <? micros money then (Greater, None)
  else (Equal, None).

Definition Money_Equal (money other : Money) : bool * option money_error :=
  let '(c, err) := Money_Compare money other in (bool_decide (c = Equal), err).

Definition Money_Less (money other : Money) : bool * option money_error :=
  let '(c, err) := Money_Compare money other in (bool_decide (c = Less), err).

Definition Money_LessOrEqual (money other : Money) : bool * option money_error :=
  let '(c, err) := Money_Compare money other in
  match err with
  | Some e => (false, Some e)
  | None => (bool_decide (c ≠ Greater), None)
  end.

Definition Money_Greater (money other : Money) : bool * option money_error :=
  let '(c, err) := Money_Compare money other in (bool_decide (c = Greater), err).

Definition Money_GreaterOrEqual (money other : Money) : bool * option money_error :=
  let '(c, err) := Money_Compare money other in
  match err with
  | Some e => (false, Some e)
  | None => (bool_decide (c ≠ Less), None)
  end.

Definition leftPadMicros (value : bytes) : bytes :=
  if 6 <=? Z.of_nat (length value) then value
  else Repeat zero_char (6 - Z.of_nat (length value)) ++ value.

Definition Money_String (money : Money) : bytes :=
  if negb (known money) then str "unknown"
  else
    let whole := Z.quot (micros money) MicrosPerUSD in
    let fraction := Z.rem (micros money) MicrosPerUSD in
    if fraction =? 0 then FormatInt whole
    else TrimRight (FormatInt whole ++ str "." ++ leftPadMicros (FormatInt fraction)) zero_char.

(** The source ranges over runes; a byte outside ASCII decodes to a rune above
    U+007F, so the digit test can be made byte by byte. *)
Definition allASCIIDigits (value : bytes) : bool :=
  if bool_decide (value = []) then false else forallb is_digit value.

Definition ParseMoney (value : bytes) : result money_error Money :=
  match value with
  | [] => Err ErrInvalidMoney
  | c :: _ =>
      if byte_eqb c minus_char then Err ErrNegativeMoney
      else
        let split :=
          match IndexByte value dot with
          | None => Ok (value, [])
          | Some i =>
              if bool_decide (is_Some (IndexByte (drop (S i) value) dot))
                 || (i =? 0)%nat || (i =? length value - 1)%nat
              then Err ErrInvalidMoney
              else
                let fractionText := drop (S i) value in
                if 6 <? Z.of_nat (length fractionText) then Err ErrInvalidMoney
                else Ok (take i value, fractionText)
          end in
        let? (wholeText, fractionText) := split in
        if negb (allASCIIDigits wholeText)
           || (negb (bool_decide (fractionText = [])) && negb (allASCIIDigits fractionText))
        then Err ErrInvalidMoney
        else
          match ParseInt wholeText with
          | Err _ => Err ErrMoneyOverflow
          | Ok whole =>
              if whole <? 0 then Err ErrMoneyOverflow
              else
                match ParseInt (fractionText ++ Repeat zero_char (6 - Z.of_nat (length fractionText))) with
                | Err _ => Err ErrInvalidMoney
                | Ok fraction =>
                    if (Z.quot MaxMoneyMicros MicrosPerUSD <? whole)
                       || ((whole =? Z.quot MaxMoneyMicros MicrosPerUSD)
                           && (Z.rem MaxMoneyMicros MicrosPerUSD <? fraction))
                    then Err ErrMoneyOverflow
                    else Ok (mkMoney (add64 (mul64 whole MicrosPerUSD) fraction) true)
                end
          end
  end.

(** ** Well-formedness: what the constructors guarantee *)

Definition money_wf (m : Money) : Prop :=
  if known m then 0 <= micros m <= MaxMoneyMicros else micros m = 0.

(** The known amount, for specifications. *)
Definition known_amount (m : Money) (z : Z) : Prop := m = mkMoney z true ∧ 0 <= z <= MaxMoneyMicros.

Definition amount_range (z : Z) : Prop := 0 <= z <= MaxMoneyMicros.

Ltac money_lia :=
  unfold amount_range, int64, MaxMoneyMicros, MicrosPerUSD, maxInt64, minInt64 in *; lia.

Section arithmetic.

Lemma Money_Add_known a b :
  amount_range a → amount_range b →
  Money_Add (mkMoney a true) (mkMoney b true) =
    if MaxMoneyMicros <? a + b then Err ErrMoneyOverflow else Ok (mkMoney (a + b) true).
Proof.
  intros ??. unfold Money_Add; simpl.
  rewrite sub64_id by money_lia.
  destruct (Z.ltb_spec (MaxMoneyMicros - b) a), (Z.ltb_spec MaxMoneyMicros (a + b));
    try money_lia; [done|]. by rewrite add64_id by money_lia.
Qed.

Lemma Money_Subtract_known a b :
  amount_range a → amount_range b →
  Money_Subtract (mkMoney a true) (mkMoney b true) =
    if a <? b then Err ErrMoneyUnderflow else Ok (mkMoney (a - b) true).
Proof.
  intros ??. unfold Money_Subtract; simpl.
  destruct (Z.ltb_spec a b); [done|]. by rewrite sub64_id by money_lia.
Qed.

Lemma Money_LessOrEqual_known a b :
  Money_LessOrEqual (mkMoney a true) (mkMoney b true) = (a <=? b, None).
Proof.
  unfold Money_LessOrEqual, Money_Compare; simpl.
  destruct (Z.ltb_spec a b), (Z.ltb_spec b a), (Z.leb_spec a b); try lia; done.
Qed.

Lemma Money_Equal_known a b :
  Money_Equal (mkMoney a true) (mkMoney b true) = (a =? b, None).
Proof.
  unfold Money_Equal, Money_Compare; simpl.
  destruct (Z.ltb_spec a b), (Z.ltb_spec b a), (Z.eqb_spec a b); try lia; done.
Qed.

Lemma Money_Add_unknown a b :
  known a && known b = false → Money_Add a b = Ok UnknownMoney.
Proof. unfold Money_Add. by destruct (known a), (known b). Qed.

Lemma Money_Subtract_unknown a b :
  known a && known b = false → Money_Subtract a b = Ok UnknownMoney.
Proof. unfold Money_Subtract. by destruct (known a), (known b). Qed.

Lemma money_wf_known m : money_wf m → known m = true → m = mkMoney (micros m) true ∧ amount_range (micros m).
Proof. unfold money_wf. destruct m as [z []]; simpl; done. Qed.

End arithmetic.

(** Parsing is characterised through the texts it accepts: digits, optionally
    followed by a point and one to six digits. *)
Section parsing.

(** [decimal_text s w f]: [s] is the whole part [w] and, when [f] is not empty,
    a point and the fraction [f]. *)
Definition decimal_text (s w f : bytes) : Prop :=
  w ≠ [] ∧ forallb is_digit w = true ∧ forallb is_digit f = true ∧ (length f ≤ 6)%nat ∧
  s = (if bool_decide (f = []) then w else w ++ dot :: f).

Definition decimal_micros (w f : bytes) : Z :=
  digits_value w * MicrosPerUSD + digits_value f * 10 ^ (6 - Z.of_nat (length f)).

Lemma fraction_value f :
  forallb is_digit f = true → (length f ≤ 6)%nat →
  ParseInt (f ++ Repeat zero_char (6 - Z.of_nat (length f)))
  = Ok (digits_value f * 10 ^ (6 - Z.of_nat (length f))) ∧
  0 <= digits_value f * 10 ^ (6 - Z.of_nat (length f)) < MicrosPerUSD.
Proof.
  intros Hd Hl. unfold Repeat.
  assert (Hz : length (replicate (Z.to_nat (6 - Z.of_nat (length f))) zero_char) = Z.to_nat (6 - Z.of_nat (length f)))
    by apply length_replicate.
  assert (Hv : digits_value (f ++ replicate (Z.to_nat (6 - Z.of_nat (length f))) zero_char)
               = digits_value f * 10 ^ (6 - Z.of_nat (length f))).
  { rewrite digits_value_app, Hz, digits_value_zeros. rewrite Z2Nat.id by lia. lia. }
  assert (Hall : forallb is_digit (f ++ replicate (Z.to_nat (6 - Z.of_nat (length f))) zero_char) = true).
  { by rewrite forallb_app, Hd, zeros_digits. }
  assert (Hlen : length (f ++ replicate (Z.to_nat (6 - Z.of_nat (length f))) zero_char) = 6%nat).
  { rewrite length_app, Hz. lia. }
  pose proof (digits_value_bound _ Hall) as Hb. rewrite Hlen, Hv in Hb.
  change (10 ^ Z.of_nat 6) with MicrosPerUSD in Hb.
  split; [|done].
  rewrite ParseInt_digits; [|by intros E; rewrite E in Hlen|done].
  rewrite Hv. destruct (Z.ltb_spec maxInt64 (digits_value f * 10 ^ (6 - Z.of_nat (length f)))); [money_lia|done].
Qed.

Lemma allASCIIDigits_spec s : allASCIIDigits s = true ↔ s ≠ [] ∧ forallb is_digit s = true.
Proof. unfold allASCIIDigits. case_bool_decide; naive_solver. Qed.

(** The numeric tail of [ParseMoney], once the text has been split. *)
Lemma ParseMoney_numeric w f :
  w ≠ [] → forallb is_digit w = true → forallb is_digit f = true → (length f ≤ 6)%nat →
  match ParseInt w with
  | Err _ => Err ErrMoneyOverflow
  | Ok whole =>
      if whole <? 0 then Err ErrMoneyOverflow
      else
        match ParseInt (f ++ Repeat zero_char (6 - Z.of_nat (length f))) with
        | Err _ => Err ErrInvalidMoney
        | Ok fraction =>
            if (Z.quot MaxMoneyMicros MicrosPerUSD <? whole)
               || ((whole =? Z.quot MaxMoneyMicros MicrosPerUSD)
                   && (Z.rem MaxMoneyMicros MicrosPerUSD <? fraction))
            then Err ErrMoneyOverflow
            else Ok (mkMoney (add64 (mul64 whole MicrosPerUSD) fraction) true)
        end
  end = if MaxMoneyMicros <? decimal_micros w f then Err ErrMoneyOverflow
        else Ok (mkMoney (decimal_micros w f) true).
Proof.
  intros Hw Dw Df Lf. destruct (fraction_value f Df Lf) as [-> Hf].
  rewrite (ParseInt_digits w Hw Dw). pose proof (digits_value_bound w Dw) as [H0 _].
  unfold decimal_micros in *. change (Z.quot MaxMoneyMicros MicrosPerUSD) with 9223372036854.
  change (Z.rem MaxMoneyMicros MicrosPerUSD) with 775807.
  set (fv := digits_value f * 10 ^ (6 - Z.of_nat (length f))) in *. set (wv := digits_value w) in *.
  destruct (Z.ltb_spec maxInt64 wv).
  - destruct (Z.ltb_spec MaxMoneyMicros (wv * MicrosPerUSD + fv)); [done|money_lia].
  - destruct (Z.ltb_spec wv 0); [lia|].
    destruct (Z.ltb_spec MaxMoneyMicros (wv * MicrosPerUSD + fv)).
    + rewrite (proj2 (orb_true_iff _ _)); [done|]. money_lia.
    + rewrite (proj2 (orb_false_iff _ _)) by money_lia.
      rewrite mul64_id by money_lia. by rewrite add64_id by money_lia.
Qed.

(** [ParseMoney] on a decimal text returns its exact value or an overflow. *)
Lemma ParseMoney_decimal s w f :
  decimal_text s w f →
  ParseMoney s = if MaxMoneyMicros <? decimal_micros w f then Err ErrMoneyOverflow
                 else Ok (mkMoney (decimal_micros w f) true).
Proof.
  intros (Hw & Dw & Df & Lf & ->). destruct w as [|c w']; [done|].
  assert (Hc : is_digit c = true) by (simpl in Dw; by apply andb_true_iff in Dw as [? _]).
  destruct (is_digit_not_sign c Hc) as (Hminus & _ & _).
  rewrite <-(ParseMoney_numeric (c :: w') f Hw Dw Df Lf). unfold ParseMoney.
  assert (HA : allASCIIDigits (c :: w') = true) by (by apply allASCIIDigits_spec).
  case_bool_decide as Ef.
  - subst f. cbv beta iota. rewrite Hminus.
    rewrite (proj2 (IndexByte_None _ _)) by (by apply digits_no_dot). simpl result_bind.
    rewrite HA. done.
  - cbn [app]. cbv beta iota. rewrite Hminus. rewrite app_comm_cons.
    rewrite IndexByte_app by (by apply digits_no_dot).
    assert (Hdrop : drop (S (length (c :: w'))) ((c :: w') ++ dot :: f) = f).
    { change (S (length (c :: w'))) with (1 + length (c :: w'))%nat. rewrite Nat.add_comm.
      rewrite <-drop_drop, drop_app_length. done. }
    assert (Htake : take (length (c :: w')) ((c :: w') ++ dot :: f) = c :: w') by apply take_app_length.
    rewrite Hdrop, Htake.
    rewrite bool_decide_false by
      (rewrite (proj2 (IndexByte_None _ _)) by (by apply digits_no_dot); apply is_Some_None).
    assert (Hlen : (length (c :: w') =? length ((c :: w') ++ dot :: f) - 1)%nat = false).
    { apply Nat.eqb_neq. rewrite length_app. destruct f; [done|]. simpl. lia. }
    rewrite Hlen. simpl orb. destruct (Z.ltb_spec 6 (Z.of_nat (length f))); [lia|].
    simpl result_bind. rewrite HA, (proj2 (allASCIIDigits_spec f) (conj Ef Df)).
    by rewrite andb_false_r.
Qed.

(** Every accepted text is a decimal text. *)
Lemma ParseMoney_accepts s m : ParseMoney s = Ok m → ∃ w f, decimal_text s w f.
Proof.
  unfold ParseMoney. destruct s as [|c s]; [done|].
  case_match; [done|]. intros Hok.
  apply result_bind_Ok in Hok as ([w f] & Hsplit & Hok).
  destruct (negb (allASCIIDigits w) || _) eqn:HA; [done|].
  apply orb_false_iff in HA as [Hw Hf]. apply negb_false_iff, allASCIIDigits_spec in Hw as [Hw Dw].
  exists w, f. destruct (IndexByte (c :: s) dot) as [i|] eqn:Hi.
  - clear Hok. destruct (bool_decide _ || _ || _) eqn:Hb in Hsplit; [done|].
    destruct (6 <? Z.of_nat (length (drop (S i) (c :: s)))) eqn:H6 in Hsplit; [done|].
    injection Hsplit as <- <-.
    apply IndexByte_Some in Hi as (E & _ & _).
    assert (Hne : drop (S i) (c :: s) ≠ []).
    { intros E2. rewrite E2 in E.
      assert (length (c :: s) = S i) as HL.
      { rewrite E, length_app. simpl. rewrite length_take.
        pose proof (f_equal length E) as E3. rewrite length_app, length_take in E3. simpl in *. lia. }
      apply orb_false_iff in Hb as [_ Hb]. apply Nat.eqb_neq in Hb. lia. }
    rewrite bool_decide_false in Hf by done. cbn [negb andb] in Hf.
    apply negb_false_iff, allASCIIDigits_spec in Hf as [_ Df].
    cbn [drop] in *. split_and!; try done; [lia|]. by rewrite bool_decide_false.
  - simplify_eq. split_and!; try done. simpl; lia.
Qed.

End parsing.

Section printing.

(** Trimming zeroes stops inside the fraction when it is not all zeroes. *)
Lemma TrimRight_fraction w F :
  digits_value F ≠ 0 →
  ∃ f n, TrimRight (w ++ [dot] ++ F) zero_char = w ++ dot :: f ∧
         F = f ++ replicate n zero_char ∧ f ≠ [].
Proof.
  intros HF. destruct (TrimRight_split zero_char F) as (n & EF & Hlast).
  exists (TrimRight F zero_char), n. split; [|split; [done|]].
  - unfold TrimRight. rewrite app_assoc, reverse_app.
    rewrite trim_left_app; [by rewrite reverse_app, reverse_involutive, <-app_assoc|].
    intros E. apply HF. rewrite EF. unfold TrimRight. rewrite E. apply digits_value_zeros.
  - intros E. apply HF. rewrite EF, E. apply digits_value_zeros.
Qed.

(** Printing a known amount yields a decimal text of exactly that amount. *)
Lemma Money_String_decimal z :
  amount_range z →
  ∃ w f, decimal_text (Money_String (mkMoney z true)) w f ∧ decimal_micros w f = z.
Proof.
  intros Hz. unfold Money_String; cbn [known micros negb].
  rewrite quot_div_nonneg, rem_mod_nonneg by money_lia.
  pose proof (Z.div_mod z MicrosPerUSD ltac:(done)) as Hdm.
  pose proof (Z.mod_pos_bound z MicrosPerUSD ltac:(done)) as Hmod.
  assert (Hwhole : 0 <= z / MicrosPerUSD <= maxInt64).
  { split; [apply Z.div_pos; money_lia|]. apply Z.div_le_upper_bound; money_lia. }
  destruct (FormatInt_spec _ Hwhole) as (Dw & Vw & Nw & _).
  destruct (Z.eqb_spec (z mod MicrosPerUSD) 0) as [E0|E0].
  - exists (FormatInt (z / MicrosPerUSD)), []. split.
    + split_and!; try done. simpl; lia.
    + unfold decimal_micros. rewrite Vw. change (digits_value []) with 0. lia.
  - assert (Hfr : 0 <= z mod MicrosPerUSD <= maxInt64) by money_lia.
    destruct (FormatInt_spec _ Hfr) as (Df & Vf & Nf & Lf).
    assert (Hl6 : (length (FormatInt (z mod MicrosPerUSD)) ≤ 6)%nat).
    { apply Lf; [|lia]. change (10 ^ Z.of_nat 6) with MicrosPerUSD. lia. }
    assert (Hpad : ∃ k, leftPadMicros (FormatInt (z mod MicrosPerUSD))
                        = replicate k zero_char ++ FormatInt (z mod MicrosPerUSD)
                        ∧ (k + length (FormatInt (z mod MicrosPerUSD)) = 6)%nat).
    { unfold leftPadMicros, Repeat. destruct (Z.leb_spec 6 (Z.of_nat (length (FormatInt (z mod MicrosPerUSD))))).
      - exists 0%nat. split; [done|lia].
      - eexists. split; [done|]. lia. }
    destruct Hpad as (k & -> & Hk).
    set (F := replicate k zero_char ++ FormatInt (z mod MicrosPerUSD)) in *.
    assert (DF : forallb is_digit F = true) by (unfold F; by rewrite forallb_app, zeros_digits, Df).
    assert (VF : digits_value F = z mod MicrosPerUSD).
    { unfold F. rewrite digits_value_app, digits_value_zeros, Vf. lia. }
    assert (LF : length F = 6%nat) by (unfold F; rewrite length_app, length_replicate; lia).
    change (str ".") with [dot].
    destruct (TrimRight_fraction (FormatInt (z / MicrosPerUSD)) F) as (f & n & -> & EF & Nf'); [lia..|].
    exists (FormatInt (z / MicrosPerUSD)), f.
    rewrite EF, forallb_app in DF. apply andb_true_iff in DF as [Df' _].
    rewrite EF, digits_value_app, digits_value_zeros, length_replicate in VF.
    rewrite EF, length_app, length_replicate in LF.
    split.
    + split_and!; try done; [lia|]. by rewrite bool_decide_false.
    + unfold decimal_micros. rewrite Vw.
      replace (6 - Z.of_nat (length f)) with (Z.of_nat n) by lia. lia.
Qed.

End printing.

(** ** Properties *)

(** on well-formed operands the checked operations are exact: an unknown
    operand makes the result unknown, a known sum or difference is the
    mathematical one, and it is an error exactly when that number is outside
    [0, MaxMoneyMicros]; no result is ever wrapped around. *)
Theorem money_arithmetic_exact a b :
  money_wf a → money_wf b →
  Money_Add a b =
    (if negb (known a && known b) then Ok UnknownMoney
     else if MaxMoneyMicros <? micros a + micros b then Err ErrMoneyOverflow
     else Ok (mkMoney (micros a + micros b) true)) ∧
  Money_Subtract a b =
    (if negb (known a && known b) then Ok UnknownMoney
     else if micros a - micros b <? 0 then Err ErrMoneyUnderflow
     else Ok (mkMoney (micros a - micros b) true)).
Proof.
  intros Ha Hb. destruct (known a && known b) eqn:E; simpl.
  - apply andb_true_iff in E as [Ka Kb].
    destruct (money_wf_known a Ha Ka) as [-> Ra], (money_wf_known b Hb Kb) as [-> Rb]. simpl.
    rewrite Money_Add_known, Money_Subtract_known by done. split; [done|].
    destruct (Z.ltb_spec (micros a) (micros b)), (Z.ltb_spec (micros a - micros b) 0); done || lia.
  - by rewrite Money_Add_unknown, Money_Subtract_unknown.
Qed.

Lemma money_arithmetic_exact_witness :
  Money_Add (mkMoney 9223372036854775807 true) (mkMoney 1 true) = Err ErrMoneyOverflow ∧
  Money_Subtract (mkMoney 7 true) (mkMoney 3 true) = Ok (mkMoney 4 true).
Proof.
  split.
  - apply (money_arithmetic_exact (mkMoney 9223372036854775807 true) (mkMoney 1 true)); done.
  - apply (money_arithmetic_exact (mkMoney 7 true) (mkMoney 3 true)); done.
Defined.

(** [ParseMoney] accepts exactly the decimal texts with at most six
    fraction digits whose value fits, and returns that value exactly, without
    rounding. *)
Theorem ParseMoney_exact s m :
  ParseMoney s = Ok m ↔
  ∃ w f, decimal_text s w f ∧ decimal_micros w f <= MaxMoneyMicros ∧
         m = mkMoney (decimal_micros w f) true.
Proof.
  split.
  - intros H. destruct (ParseMoney_accepts s m H) as (w & f & D). exists w, f.
    rewrite (ParseMoney_decimal s w f D) in H.
    destruct (Z.ltb_spec MaxMoneyMicros (decimal_micros w f)); naive_solver.
  - intros (w & f & D & Hle & ->). rewrite (ParseMoney_decimal s w f D).
    destruct (Z.ltb_spec MaxMoneyMicros (decimal_micros w f)); [lia|done].
Qed.

(** printing then parsing is the identity on every known amount. *)
Theorem ParseMoney_String_roundtrip m :
  money_wf m → known m = true → ParseMoney (Money_String m) = Ok m.
Proof.
  intros Hwf Hk. destruct (money_wf_known m Hwf Hk) as [_ Hr].
  destruct m as [z k]; simpl in *; subst k.
  destruct (Money_String_decimal _ Hr) as (w & f & D & V).
  rewrite (ParseMoney_decimal _ w f D), V.
  destruct (Z.ltb_spec MaxMoneyMicros z); [money_lia|done].
Qed.

Lemma ParseMoney_String_roundtrip_witness :
  ParseMoney (str "1.05") = Ok (mkMoney 1050000 true).
Proof. apply (ParseMoney_String_roundtrip (mkMoney 1050000 true)); done. Defined.
