(* ===== verification/Usage.v ===== *)
(** * Token counts and usage ([internal/accounting/usage.go]) *)

From Stdlib Require Import ZArith Lia ZifyBool.
From stdpp Require Import prelude.
From S2P Require Import Prelude.
Local Open Scope Z_scope.

Inductive count_error := ErrNegativeCount | ErrCountOverflow.

#[export] Instance count_error_eq_dec : EqDecision count_error.
Proof. solve_decision. Defined.

Record TokenCount := mkTokenCount { tc_value : Z; tc_known : bool }.

#[export] Instance TokenCount_eq_dec : EqDecision TokenCount.
Proof. solve_decision. Defined.

Definition UnknownTokenCount : TokenCount := mkTokenCount 0 false.

Definition NewTokenCount (value : Z) : result count_error TokenCount :=
  if value <? 0 then Err ErrNegativeCount else Ok (mkTokenCount value true).

Definition TokenCount_Known (count : TokenCount) : bool := tc_known count.
Definition TokenCount_Value (count : TokenCount) : Z * bool := (tc_value count, tc_known count).
Definition TokenCount_Int64 (count : TokenCount) : Z := tc_value count.

Definition TokenCount_Add (count other : TokenCount) : result count_error TokenCount :=
  if negb (tc_known count) || negb (tc_known other) then Ok UnknownTokenCount
  else if sub64 maxInt64 (tc_value other) <? tc_value count then Err ErrCountOverflow
  else Ok (mkTokenCount (add64 (tc_value count) (tc_value other)) true).

(** The five component types wrap a [TokenCount]; the wrappers only keep the
    roles apart, which separate record types do here. *)
Record InputTokens := mkInput { input_count : TokenCount }.
Record OutputTokens := mkOutput { output_count : TokenCount }.
Record TotalTokens := mkTotal { total_count : TokenCount }.
Record CachedInputTokens := mkCachedInput { cached_input_count : TokenCount }.
Record ReasoningOutputTokens := mkReasoningOutput { reasoning_output_count : TokenCount }.

#[export] Instance InputTokens_eq_dec : EqDecision InputTokens.
Proof. solve_decision. Defined.
#[export] Instance OutputTokens_eq_dec : EqDecision OutputTokens.
Proof. solve_decision. Defined.
#[export] Instance TotalTokens_eq_dec : EqDecision TotalTokens.
Proof. solve_decision. Defined.

Definition NewInputTokens (value : Z) : result count_error InputTokens :=
  let? count := NewTokenCount value in Ok (mkInput count).
Definition NewOutputTokens (value : Z) : result count_error OutputTokens :=
  let? count := NewTokenCount value in Ok (mkOutput count).
Definition NewTotalTokens (value : Z) : result count_error TotalTokens :=
  let? count := NewTokenCount value in Ok (mkTotal count).
Definition NewCachedInputTokens (value : Z) : result count_error CachedInputTokens :=
  let? count := NewTokenCount value in Ok (mkCachedInput count).
Definition NewReasoningOutputTokens (value : Z) : result count_error ReasoningOutputTokens :=
  let? count := NewTokenCount value in Ok (mkReasoningOutput count).

Definition UnknownInputTokens : InputTokens := mkInput UnknownTokenCount.
Definition UnknownOutputTokens : OutputTokens := mkOutput UnknownTokenCount.
Definition UnknownTotalTokens : TotalTokens := mkTotal UnknownTokenCount.
Definition UnknownCachedInputTokens : CachedInputTokens := mkCachedInput UnknownTokenCount.
Definition UnknownReasoningOutputTokens : ReasoningOutputTokens := mkReasoningOutput UnknownTokenCount.

Definition InputTokens_Known (c : InputTokens) : bool := TokenCount_Known (input_count c).
Definition InputTokens_Int64 (c : InputTokens) : Z := TokenCount_Int64 (input_count c).
Definition InputTokens_Value (c : InputTokens) : Z * bool := TokenCount_Value (input_count c).
Definition InputTokens_Add (c other : InputTokens) : result count_error InputTokens :=
  let? value := TokenCount_Add (input_count c) (input_count other) in Ok (mkInput value).

Definition OutputTokens_Known (c : OutputTokens) : bool := TokenCount_Known (output_count c).
Definition OutputTokens_Int64 (c : OutputTokens) : Z := TokenCount_Int64 (output_count c).
Definition OutputTokens_Value (c : OutputTokens) : Z * bool := TokenCount_Value (output_count c).
Definition OutputTokens_Add (c other : OutputTokens) : result count_error OutputTokens :=
  let? value := TokenCount_Add (output_count c) (output_count other) in Ok (mkOutput value).

Definition TotalTokens_Known (c : TotalTokens) : bool := TokenCount_Known (total_count c).
Definition TotalTokens_Int64 (c : TotalTokens) : Z := TokenCount_Int64 (total_count c).

Inductive TotalSource := TotalAbsent | TotalObserved | TotalDerived.

#[export] Instance TotalSource_eq_dec : EqDecision TotalSource.
Proof. solve_decision. Defined.

(** A nil pointer is [None]. *)
Record UsageInput := mkUsageInput {
  ui_Input : option Z;
  ui_Output : option Z;
  ui_Total : option Z;
  ui_CachedInput : option Z;
  ui_ReasoningOutput : option Z;
}.

Record Usage := mkUsage {
  usage_input : InputTokens;
  usage_output : OutputTokens;
  usage_total : TotalTokens;
  usage_cachedInput : CachedInputTokens;
  usage_reasoningOutput : ReasoningOutputTokens;
  usage_totalSource : TotalSource;
}.

Definition makeInputTokens (value : option Z) : result count_error InputTokens :=
  match value with None => Ok UnknownInputTokens | Some v => NewInputTokens v end.
Definition makeOutputTokens (value : option Z) : result count_error OutputTokens :=
  match value with None => Ok UnknownOutputTokens | Some v => NewOutputTokens v end.
Definition makeCachedInputTokens (value : option Z) : result count_error CachedInputTokens :=
  match value with None => Ok UnknownCachedInputTokens | Some v => NewCachedInputTokens v end.
Definition makeReasoningOutputTokens (value : option Z) : result count_error ReasoningOutputTokens :=
  match value with None => Ok UnknownReasoningOutputTokens | Some v => NewReasoningOutputTokens v end.

Definition NewUsage (input : UsageInput) : result count_error Usage :=
  let? inputTokens := makeInputTokens (ui_Input input) in
  let? outputTokens := makeOutputTokens (ui_Output input) in
  let? cachedInput := makeCachedInputTokens (ui_CachedInput input) in
  let? reasoningOutput := makeReasoningOutputTokens (ui_ReasoningOutput input) in
  let usage total source := mkUsage inputTokens outputTokens total cachedInput reasoningOutput source in
  match ui_Total input with
  | Some t =>
      let? total := NewTotalTokens t in
      Ok (usage total TotalObserved)
  | None =>
      if InputTokens_Known inputTokens && OutputTokens_Known outputTokens then
        let? combined := TokenCount_Add (input_count inputTokens) (output_count outputTokens) in
        Ok (usage (mkTotal combined) TotalDerived)
      else Ok (usage UnknownTotalTokens TotalAbsent)
  end.

(** ** Lemmas *)

Definition count_wf (c : TokenCount) : Prop :=
  if tc_known c then 0 <= tc_value c <= maxInt64 else tc_value c = 0.

Definition count_range (z : Z) : Prop := 0 <= z <= maxInt64.

Lemma TokenCount_Add_known a b :
  count_range a → count_range b →
  TokenCount_Add (mkTokenCount a true) (mkTokenCount b true) =
    if maxInt64 <? a + b then Err ErrCountOverflow else Ok (mkTokenCount (a + b) true).
Proof.
  unfold count_range. intros ??. unfold TokenCount_Add; simpl.
  rewrite sub64_id by lia64.
  destruct (Z.ltb_spec (maxInt64 - b) a), (Z.ltb_spec maxInt64 (a + b));
    try lia64; [done|]. by rewrite add64_id by lia64.
Qed.

Lemma InputTokens_Add_known a b :
  count_range a → count_range b →
  InputTokens_Add (mkInput (mkTokenCount a true)) (mkInput (mkTokenCount b true)) =
    if maxInt64 <? a + b then Err ErrCountOverflow else Ok (mkInput (mkTokenCount (a + b) true)).
Proof.
  intros ??. unfold InputTokens_Add; simpl. rewrite TokenCount_Add_known by done. by case_match.
Qed.

Definition optional_count (v : option Z) : TokenCount :=
  match v with None => UnknownTokenCount | Some z => mkTokenCount z true end.
Definition optional_range (v : option Z) : Prop :=
  match v with None => True | Some z => minInt64 <= z <= maxInt64 end.
Definition optional_nonneg (v : option Z) : bool :=
  match v with None => true | Some z => 0 <=? z end.

Lemma NewTokenCount_spec z :
  NewTokenCount z = if 0 <=? z then Ok (mkTokenCount z true) else Err ErrNegativeCount.
Proof. unfold NewTokenCount. destruct (Z.ltb_spec z 0), (Z.leb_spec 0 z); lia || done. Qed.

(** ** Properties *)

(** [NewUsage] fails exactly on a negative count or when a derived total
    overflows; otherwise absent fields stay unknown, a supplied total is kept
    as observed, and a total is derived only when input and output are both
    present, as their exact sum. *)
Theorem NewUsage_spec input :
  optional_range (ui_Input input) → optional_range (ui_Output input) →
  NewUsage input =
    if negb (optional_nonneg (ui_Input input) && optional_nonneg (ui_Output input)
             && optional_nonneg (ui_CachedInput input) && optional_nonneg (ui_ReasoningOutput input)
             && optional_nonneg (ui_Total input))
    then Err ErrNegativeCount
    else
      let usage total source :=
        mkUsage (mkInput (optional_count (ui_Input input))) (mkOutput (optional_count (ui_Output input)))
          (mkTotal total) (mkCachedInput (optional_count (ui_CachedInput input)))
          (mkReasoningOutput (optional_count (ui_ReasoningOutput input))) source in
      match ui_Total input, ui_Input input, ui_Output input with
      | Some t, _, _ => Ok (usage (mkTokenCount t true) TotalObserved)
      | None, Some i, Some o =>
          if maxInt64 <? i + o then Err ErrCountOverflow
          else Ok (usage (mkTokenCount (i + o) true) TotalDerived)
      | None, _, _ => Ok (usage UnknownTokenCount TotalAbsent)
      end.
Proof.
  intros Hi Ho. destruct input as [i o t c r]. simpl in *.
  unfold NewUsage, makeInputTokens, makeOutputTokens, makeCachedInputTokens, makeReasoningOutputTokens,
    NewInputTokens, NewOutputTokens, NewCachedInputTokens, NewReasoningOutputTokens, NewTotalTokens. simpl.
  destruct i as [i|]; simpl in *; [rewrite NewTokenCount_spec; destruct (Z.leb_spec 0 i); simpl; [|done]|];
  (destruct o as [o|]; simpl in *; [rewrite NewTokenCount_spec; destruct (Z.leb_spec 0 o); simpl; [|done]|]);
  (destruct c as [c|]; simpl in *; [rewrite NewTokenCount_spec; destruct (Z.leb_spec 0 c); simpl; [|done]|]);
  (destruct r as [r|]; simpl in *; [rewrite NewTokenCount_spec; destruct (Z.leb_spec 0 r); simpl; [|done]|]);
  (destruct t as [t|]; simpl in *; [rewrite NewTokenCount_spec; destruct (Z.leb_spec 0 t); simpl; done|]);
  try done.
  all: rewrite TokenCount_Add_known by (unfold count_range; lia64); by case_match.
Qed.

Lemma NewUsage_spec_witness :
  NewUsage (mkUsageInput (Some 9223372036854775807) (Some 1) None None None) = Err ErrCountOverflow.
Proof.
  rewrite (NewUsage_spec (mkUsageInput (Some 9223372036854775807) (Some 1) None None None)); [done|..];
    simpl; unfold minInt64, maxInt64; lia.
Defined.
