(* ===== verification/ModelMatch.v ===== *)
(** * Slash-aware model globs ([internal/modelmatch/modelmatch.go])

    The compiler from pattern text to tokens, the row-by-row matcher and the
    canonical key.  The theorems relate the matcher to a declarative semantics
    of globs and show that no wildcard crosses a slash. *)

From Stdlib Require Import Ascii ZArith Lia ZifyBool.
From stdpp Require Import prelude strings list.
From S2P Require Import Prelude Text Utf8.
Local Open Scope Z_scope.

Inductive pattern_error := ErrInvalidPattern.

(** The code points of the metacharacters. *)
Definition r_backslash : Z := 92.
Definition r_star : Z := 42.
Definition r_question : Z := 63.
Definition r_open : Z := 91.
Definition r_close : Z := 93.
Definition r_bang : Z := 33.
Definition r_caret : Z := 94.
Definition r_dash : Z := 45.
Definition r_slash : Z := 47.

Record classRange := mkRange { lo : Z; hi : Z }.

(** The source's [kind] tag and the fields each kind uses. *)
Inductive token :=
| literal (r : Z)
| star
| question
| class (negated : bool) (ranges : list classRange).

#[export] Instance classRange_eq_dec : EqDecision classRange.
Proof. solve_decision. Defined.
#[export] Instance token_eq_dec : EqDecision token.
Proof. solve_decision. Defined.

Record Pattern := mkPattern {
  source : bytes;
  tokens : list token;
  key : bytes;
  exact : bool;
}.

(** Positions in the rune slice are represented by the suffix that starts
    there. *)

(** [classRune]: one possibly escaped class member and what follows it. *)
Definition classRune (rs : list Z) : result pattern_error (Z * list Z) :=
  match rs with
  | [] => Err ErrInvalidPattern
  | r :: rest =>
      if r =? r_backslash then
        match rest with
        | [] => Err ErrInvalidPattern
        | r' :: rest' => Ok (r', rest')
        end
      else if r =? r_open then Err ErrInvalidPattern
      else Ok (r, rest)
  end.

(** The loop of [parseClass]; it returns the suffix after the closing bracket.
    Each iteration consumes a rune, so the length is enough fuel. *)
Fixpoint parseClassLoop (fuel : nat) (rs : list Z) (ranges : list classRange)
  : result pattern_error (list classRange * list Z) :=
  match fuel with
  | O => Err ErrInvalidPattern
  | S fuel' =>
      match rs with
      | [] => Err ErrInvalidPattern
      | r :: rest =>
          if r =? r_close then
            if bool_decide (ranges = []) then Err ErrInvalidPattern else Ok (ranges, rest)
          else
            let? (lo, rs1) := classRune rs in
            match rs1 with
            | d :: rs2 =>
                if d =? r_dash then
                  match rs2 with
                  | [] => Err ErrInvalidPattern
                  | e :: _ =>
                      if e =? r_close then Err ErrInvalidPattern
                      else
                        let? (hi, rs3) := classRune rs2 in
                        if hi <? lo then Err ErrInvalidPattern
                        else parseClassLoop fuel' rs3 (ranges ++ [mkRange lo hi])
                  end
                else parseClassLoop fuel' rs1 (ranges ++ [mkRange lo lo])
            | [] => parseClassLoop fuel' rs1 (ranges ++ [mkRange lo lo])
            end
      end
  end.

(** [parseClass], applied to the suffix after the opening bracket. *)
Definition parseClass (rs : list Z) : result pattern_error (token * list Z) :=
  let '(negated, rs1) :=
    match rs with
    | r :: rest => if (r =? r_bang) || (r =? r_caret) then (true, rest) else (false, rs)
    | [] => (false, rs)
    end in
  match rs1 with
  | [] => Err ErrInvalidPattern
  | r :: _ =>
      if r =? r_close then Err ErrInvalidPattern
      else
        let? (ranges, rest) := parseClassLoop (length rs1 + 1) rs1 [] in
        Ok (class negated ranges, rest)
  end.

(** The loop of [Compile] over the remaining runes. *)
Fixpoint compileLoop (fuel : nat) (rs : list Z) (toks : list token)
  : result pattern_error (list token) :=
  match fuel with
  | O => Err ErrInvalidPattern
  | S fuel' =>
      match rs with
      | [] => Ok toks
      | r :: rest =>
          if r =? r_backslash then
            match rest with
            | [] => Err ErrInvalidPattern
            | r' :: rest' => compileLoop fuel' rest' (toks ++ [literal r'])
            end
          else if r =? r_star then
            compileLoop fuel' rest (if bool_decide (last toks = Some star) then toks else toks ++ [star])
          else if r =? r_question then compileLoop fuel' rest (toks ++ [question])
          else if r =? r_open then
            let? (parsed, rest') := parseClass rest in
            compileLoop fuel' rest' (toks ++ [parsed])
          else compileLoop fuel' rest (toks ++ [literal r])
      end
  end.

Definition is_literal (t : token) : bool := match t with literal _ => true | _ => false end.

Definition range_less (a b : classRange) : bool :=
  if lo a =? lo b then hi a <? hi b else lo a <? lo b.

(** The in-place merge of sorted ranges; the accumulator is the merged prefix,
    last range first. *)
Fixpoint mergeLoop (merged : list classRange) (ranges : list classRange) : list classRange :=
  match ranges with
  | [] => reverse merged
  | current :: rest =>
      match merged with
      | m :: merged' =>
          if lo current <=? hi m + 1 then
            mergeLoop (if hi m <? hi current then mkRange (lo m) (hi current) :: merged' else merged) rest
          else mergeLoop (current :: merged) rest
      | [] => mergeLoop [current] rest
      end
  end.
Definition mergeRanges (ranges : list classRange) : list classRange :=
  mergeLoop [] (sort_slice range_less ranges).

Definition token_key (item : token) : bytes :=
  match item with
  | literal r => str "l:" ++ EncodeRune r
  | star => str "s;"
  | question => str "q;"
  | class negated ranges =>
      str "c:" ++ (if negated then str "!" else str "=")
      ++ concat (map (λ b, EncodeRune (lo b) ++ str "-" ++ EncodeRune (hi b) ++ str ",") (mergeRanges ranges))
      ++ str ";"
  end.
Definition canonicalKey (toks : list token) : bytes := concat (map token_key toks).

Definition Compile (src : bytes) : result pattern_error Pattern :=
  if bool_decide (src = []) || negb (ValidString src) then Err ErrInvalidPattern
  else
    let? toks := compileLoop (length (runes src) + 1) (runes src) [] in
    Ok (mkPattern src toks (canonicalKey toks) (forallb is_literal toks)).

Definition Pattern_IsExact (p : Pattern) : bool := exact p.
Definition Pattern_Key (p : Pattern) : bytes := key p.

(** The literal rune a token carries; the zero rune for the other kinds. *)
Definition token_literal (t : token) : Z := match t with literal r => r | _ => 0 end.

(** The zero string beside [false] for a glob. *)
Definition Pattern_ExactValue (p : Pattern) : bytes * bool :=
  if negb (exact p) then ([], false)
  else (concat (map (λ item, EncodeRune (token_literal item)) (tokens p)), true).

Definition range_contains (value : Z) (b : classRange) : bool := (lo b <=? value) && (value <=? hi b).

Definition tokenMatches (item : token) (value : Z) : bool :=
  match item with
  | literal r => r =? value
  | question => negb (value =? r_slash)
  | class negated ranges =>
      if value =? r_slash then false
      else
        let matched := existsb (range_contains value) ranges in
        if negated then negb matched else matched
  | star => false
  end.

(** One row of the matcher: [previous] has one entry per prefix of the value.
    A star row also looks at the entry computed just before. *)
Fixpoint starRow (before : bool) (previous : list bool) (value : list Z) : list bool :=
  match previous, value with
  | p :: previous', v :: value' =>
      let current := p || (negb (v =? r_slash) && before) in
      current :: starRow current previous' value'
  | _, _ => []
  end.

Fixpoint stepRow (item : token) (previous : list bool) (value : list Z) : list bool :=
  match previous, value with
  | p :: previous', v :: value' => (p && tokenMatches item v) :: stepRow item previous' value'
  | _, _ => []
  end.

Definition matchRow (item : token) (previous : list bool) (value : list Z) : list bool :=
  match item, previous with
  | star, p0 :: previous' => p0 :: starRow p0 previous' value
  | _, _ => false :: stepRow item previous value
  end.

Definition Matches_runes (toks : list token) (value : list Z) : bool :=
  let row := foldl (λ previous item, matchRow item previous value)
                   (true :: replicate (length value) false) toks in
  default false (row !! length value).

Definition Pattern_Matches (p : Pattern) (value : bytes) : bool :=
  Matches_runes (tokens p) (runes value).

(** ** Declarative semantics *)

Inductive glob_match : list token → list Z → Prop :=
| glob_nil : glob_match [] []
| glob_star_empty ts v : glob_match ts v → glob_match (star :: ts) v
| glob_star_more ts r v : r ≠ r_slash → glob_match (star :: ts) v → glob_match (star :: ts) (r :: v)
| glob_one t ts r v : tokenMatches t r = true → glob_match ts v → glob_match (t :: ts) (r :: v).

#[export] Hint Constructors glob_match : go.

Section matcher.

Lemma glob_match_app ts1 ts2 v :
  glob_match (ts1 ++ ts2) v ↔
  ∃ v1 v2, v = v1 ++ v2 ∧ glob_match ts1 v1 ∧ glob_match ts2 v2.
Proof.
  split.
  - remember (ts1 ++ ts2) as ts eqn:E. intros H. revert ts1 E.
    induction H as [|ts v H IH|ts r v Hr H IH|t ts r v Ht H IH]; intros ts1 E.
    + symmetry in E. apply app_nil in E as [-> ->]. exists [], []. eauto with go.
    + destruct ts1 as [|t ts1]; simplify_eq/=.
      * exists [], v. eauto with go.
      * destruct (IH ts1 eq_refl) as (v1 & v2 & -> & ? & ?). exists v1, v2. eauto with go.
    + destruct ts1 as [|t ts1]; simplify_eq/=.
      * exists [], (r :: v). eauto with go.
      * destruct (IH (star :: ts1) eq_refl) as (v1 & v2 & -> & ? & ?). exists (r :: v1), v2. eauto with go.
    + destruct ts1 as [|t' ts1]; simplify_eq/=.
      * exists [], (r :: v). eauto with go.
      * destruct (IH ts1 eq_refl) as (v1 & v2 & -> & ? & ?). exists (r :: v1), v2. eauto with go.
  - intros (v1 & v2 & -> & H & H2). induction H; simpl; eauto with go.
Qed.

Lemma glob_match_star v : glob_match [star] v ↔ Forall (λ r, r ≠ r_slash) v.
Proof.
  split.
  - remember [star] as ts eqn:E. induction 1; simplify_eq/=; [|by eauto..].
    match goal with H : glob_match [] _ |- _ => inv H end. done.
  - induction 1; eauto with go.
Qed.

Lemma glob_match_single t v :
  t ≠ star → glob_match [t] v ↔ ∃ r, v = [r] ∧ tokenMatches t r = true.
Proof.
  intros Ht. split.
  - intros H. inv H; try done. match goal with H : glob_match [] _ |- _ => inv H end. eauto.
  - intros (r & -> & ?). eauto with go.
Qed.

(** The meaning of a row: entry [i] says whether the tokens so far match the
    first [i] runes. *)
Definition row_ok (ts : list token) (value : list Z) (row : list bool) : Prop :=
  length row = S (length value) ∧
  ∀ i b, row !! i = Some b → (b = true ↔ glob_match ts (take i value)).

Lemma row_ok_start value : row_ok [] value (true :: replicate (length value) false).
Proof.
  split; [simpl; by rewrite length_replicate|]. intros [|i] b; simpl.
  - intros [= <-]. rewrite take_0. split; eauto with go.
  - intros [-> Hi]%lookup_replicate_1. split; [done|]. intros H.
    inv H. destruct value; simpl in *; [lia|done].
Qed.

Lemma stepRow_lookup item row value i :
  length row = S (length value) →
  stepRow item row value !! i =
    match row !! i, value !! i with
    | Some p, Some v => Some (p && tokenMatches item v)
    | _, _ => None
    end.
Proof.
  revert value i. induction row as [|p row IH]; intros value i; [done|].
  intros [= E]. destruct value as [|v value].
  - destruct row; [|done]. by destruct i.
  - destruct i; [done|]. simpl. by apply IH.
Qed.

Lemma stepRow_length item row value :
  length row = S (length value) → length (stepRow item row value) = length value.
Proof.
  revert value. induction row as [|p row IH]; intros value E; [done|].
  injection E as E. destruct value; [by destruct row|]. simpl in *. rewrite IH; lia.
Qed.

Lemma matchRow_step ts item value row :
  item ≠ star → row_ok ts value row → row_ok (ts ++ [item]) value (false :: stepRow item row value).
Proof.
  intros Hns [Hlen Hrow]. split; [simpl; by rewrite stepRow_length|].
  intros [|i] b; simpl.
  - intros [= <-]. split; [done|]. rewrite glob_match_app. intros (v1 & v2 & E & _ & H2).
    apply glob_match_single in H2 as (r & -> & _); [|done].
    rewrite take_0 in E. by destruct v1.
  - rewrite stepRow_lookup by done.
    destruct (row !! i) as [p|] eqn:Hp; [|done]. destruct (value !! i) as [v|] eqn:Hv; [|done].
    intros [= <-]. rewrite andb_true_iff, (Hrow _ _ Hp), glob_match_app.
    rewrite (take_S_r _ _ _ Hv). split.
    + intros [? ?]. exists (take i value), [v]. rewrite glob_match_single by done. eauto.
    + intros (v1 & v2 & E & H1 & H2). apply glob_match_single in H2 as (r & -> & ?); [|done].
      apply app_inj_tail in E as [<- <-]. done.
Qed.

Lemma starRow_length before row value :
  length row = length value → length (starRow before row value) = length value.
Proof.
  revert before value. induction row as [|p row IH]; intros before value E.
  - by destruct value.
  - destruct value as [|v value]; [done|]. simpl in *. rewrite IH; lia.
Qed.

Lemma starRow_lookup before row value i b :
  length row = length value →
  starRow before row value !! i = Some b →
  ∃ p v c, row !! i = Some p ∧ value !! i = Some v ∧
    (before :: starRow before row value) !! i = Some c ∧ b = p || (negb (v =? r_slash) && c).
Proof.
  revert before value i. induction row as [|p row IH]; intros before value i E; [done|].
  destruct value as [|v value]; [done|]. simpl. destruct i as [|i]; simpl.
  - intros [= <-]. eauto 10.
  - intros H. destruct (IH _ value i ltac:(simpl in E; lia) H) as (p' & v' & c & ? & ? & ? & ?).
    exists p', v', c. eauto.
Qed.

Lemma glob_match_snoc_star ts v r :
  glob_match (ts ++ [star]) (v ++ [r]) ↔
  glob_match ts (v ++ [r]) ∨ (r ≠ r_slash ∧ glob_match (ts ++ [star]) v).
Proof.
  rewrite !glob_match_app. setoid_rewrite glob_match_star. split.
  - intros (v1 & v2 & E & H1 & H2). destruct v2 as [|r' v2 _] using rev_ind.
    + rewrite app_nil_r in E. subst. by left.
    + rewrite app_assoc in E. apply app_inj_tail in E as [-> ->]. right.
      apply Forall_app in H2 as [H2 H3]. inv H3. split; [done|]. by exists v1, v2.
  - intros [H|[Hr (v1 & v2 & -> & H1 & H2)]].
    + exists (v ++ [r]), []. by rewrite app_nil_r.
    + exists v1, (v2 ++ [r]). rewrite app_assoc, Forall_app. auto.
Qed.

Lemma matchRow_star ts value p0 row :
  row_ok ts value (p0 :: row) → row_ok (ts ++ [star]) value (p0 :: starRow p0 row value).
Proof.
  intros [Hlen Hrow]. injection Hlen as Hlen.
  split; [simpl; by rewrite starRow_length|].
  induction i as [|i IH]; intros b; simpl.
  - intros [= <-]. rewrite take_0. rewrite (Hrow 0%nat p0 eq_refl), take_0, glob_match_app. split.
    + intros H. exists [], []. rewrite glob_match_star. eauto.
    + intros (v1 & v2 & E & H1 & H2). symmetry in E. apply app_nil in E as [-> ->]. done.
  - intros H. destruct (starRow_lookup _ _ _ _ _ Hlen H) as (p & v & c & Hp & Hv & Hc & ->).
    rewrite orb_true_iff, andb_true_iff, negb_true_iff, Z.eqb_neq.
    rewrite (take_S_r _ _ _ Hv), glob_match_snoc_star.
    rewrite (IH c Hc), (Hrow (S i) p Hp), (take_S_r _ _ _ Hv). done.
Qed.

Lemma matchRow_ok ts item value row :
  row_ok ts value row → row_ok (ts ++ [item]) value (matchRow item row value).
Proof.
  intros H. assert (row ≠ []) by (destruct H; by destruct row).
  destruct item; try (by apply matchRow_step).
  destruct row as [|p0 row]; [done|]. by apply matchRow_star.
Qed.

Lemma Matches_runes_spec toks value :
  Matches_runes toks value = true ↔ glob_match toks value.
Proof.
  unfold Matches_runes.
  assert (Hok : row_ok toks value
     (foldl (λ previous item, matchRow item previous value) (true :: replicate (length value) false) toks)).
  { induction toks as [|t toks IH] using rev_ind; [apply row_ok_start|].
    rewrite foldl_snoc. by apply matchRow_ok. }
  destruct Hok as [Hlen Hrow].
  destruct (lookup_lt_is_Some_2 _ (length value) ltac:(rewrite Hlen; lia)) as [b Hb].
  rewrite Hb. simpl. by rewrite (Hrow _ _ Hb), firstn_all.
Qed.

(** Literal tokens match one text only. *)
Lemma glob_match_literals toks value :
  forallb is_literal toks = true →
  glob_match toks value ↔ value = map token_literal toks.
Proof.
  revert value. induction toks as [|t toks IH]; intros value; simpl.
  - intros _. split; [by inversion 1|intros ->; constructor].
  - rewrite andb_true_iff. intros [Ht Hts]. destruct t as [r| | |]; try done. split.
    + intros H. inv H; simpl in *. f_equal; [lia|]. by apply IH.
    + intros ->. apply glob_one; [simpl; lia|]. by apply IH.
Qed.

(** Literals, and only they, can match a slash. *)
Definition slashes (v : list Z) : nat := length (filter (.= r_slash) v).
Definition slash_literals (ts : list token) : nat := length (filter (.= literal r_slash) ts).

Lemma glob_match_slashes ts v : glob_match ts v → slashes v = slash_literals ts.
Proof.
  unfold slashes, slash_literals.
  induction 1 as [|ts v H IH|ts r v Hr H IH|t ts r v Ht H IH].
  - done.
  - rewrite IH. by rewrite filter_cons_False.
  - by rewrite filter_cons_False.
  - destruct (decide (t = literal r_slash)) as [->|Hne].
    + apply Z.eqb_eq in Ht as <-. rewrite !filter_cons, !decide_True by done. simpl. by f_equal.
    + rewrite !filter_cons, (decide_False (P := t = _)) by done. rewrite decide_False; [done|].
      intros ->. destruct t; simpl in Ht; try done. assert (r = r_slash) by lia. congruence.
Qed.

End matcher.

(** ** The compiler *)

Section compiler.

Lemma classRune_shorter rs r rest :
  classRune rs = Ok (r, rest) → (length rest < length rs)%nat ∧ rest ⊆ rs ∧ r ∈ rs.
Proof.
  destruct rs as [|a [|b rs]]; simpl; [done|..]; repeat case_match; intros [= <- <-];
    simpl; (split; [lia|]); set_solver.
Qed.

(** The loop's iteration limit is never the reason for its result. *)
Lemma parseClassLoop_fuel fuel fuel' rs acc :
  (length rs < fuel)%nat → (length rs < fuel')%nat →
  parseClassLoop fuel rs acc = parseClassLoop fuel' rs acc.
Proof.
  revert fuel' rs acc. induction fuel as [|fuel IH]; intros [|fuel'] rs acc H H'; [lia..|].
  simpl. destruct rs as [|r rest]; [done|]. case_match; [done|].
  destruct (classRune (r :: rest)) as [[l rs1]|] eqn:C; [|done]. simpl.
  apply classRune_shorter in C as [C _]. simpl in *.
  destruct rs1 as [|d rs2]; [apply IH; simpl in *; lia|].
  case_match; [|apply IH; simpl in *; lia].
  destruct rs2 as [|e rs2]; [done|]. case_match; [done|].
  destruct (classRune (e :: rs2)) as [[h rs3]|] eqn:C2; [|done]. simpl.
  apply classRune_shorter in C2 as [C2 _]. case_match; [done|]. apply IH; simpl in *; lia.
Qed.

Definition range_wf (b : classRange) : Prop := lo b <= hi b.

Lemma parseClassLoop_wf fuel rs acc ranges rest :
  parseClassLoop fuel rs acc = Ok (ranges, rest) → Forall range_wf acc →
  (length rest < length rs)%nat ∧ rest ⊆ rs ∧ Forall range_wf ranges ∧ ranges ≠ [].
Proof.
  assert (Hgrow : ∀ l h, Forall range_wf acc → l <= h → Forall range_wf (acc ++ [mkRange l h])).
  { intros. apply Forall_app. split; [done|]. by constructor. }
  revert rs acc Hgrow. induction fuel as [|fuel IH]; intros rs acc Hgrow H Hacc; [done|].
  simpl in H. destruct rs as [|r rs]; [done|].
  assert (Hgrow' : ∀ l h, l <= h → ∀ l' h', Forall range_wf (acc ++ [mkRange l h]) → l' <= h' →
     Forall range_wf ((acc ++ [mkRange l h]) ++ [mkRange l' h'])).
  { intros. apply Forall_app. split; [done|]. by constructor. }
  case_match.
  - case_bool_decide; [done|]. simplify_eq/=. split; [lia|]. set_solver.
  - apply result_bind_Ok in H as ([l rs1] & C & H).
    apply classRune_shorter in C as (C & Cs & _).
    destruct rs1 as [|d rs2].
    { apply IH in H as (? & ? & ? & ?); [|eauto with lia..]. simpl in *. lia. }
    case_match.
    + destruct rs2 as [|e rs2]; [done|]. case_match; [done|].
      apply result_bind_Ok in H as ([h rs3] & C2 & H). case_match; [done|].
      apply classRune_shorter in C2 as (C2 & C2s & _).
      apply IH in H as (? & ? & ? & ?); [|eauto with lia..].
      simpl in *. split; [lia|]. split; [set_solver|done].
    + apply IH in H as (? & ? & ? & ?); [|eauto with lia..].
      simpl in *. split; [lia|]. split; [set_solver|done].
Qed.

Lemma parseClass_wf rs t rest :
  parseClass rs = Ok (t, rest) →
  (length rest < length rs)%nat ∧ rest ⊆ rs ∧
  ∃ neg ranges, t = class neg ranges ∧ Forall range_wf ranges ∧ ranges ≠ [].
Proof.
  unfold parseClass. destruct rs as [|r rs]; [done|].
  assert (Haux : ∀ neg rs1, (length rs1 ≤ length (r :: rs))%nat → rs1 ⊆ r :: rs →
    match rs1 with
    | [] => Err ErrInvalidPattern
    | r :: _ =>
        if r =? r_close then Err ErrInvalidPattern
        else let? (ranges, rest) := parseClassLoop (length rs1 + 1) rs1 [] in Ok (class neg ranges, rest)
    end = Ok (t, rest) →
    (length rest < length (r :: rs))%nat ∧ rest ⊆ r :: rs ∧
    ∃ neg ranges, t = class neg ranges ∧ Forall range_wf ranges ∧ ranges ≠ []).
  { intros neg rs1 Hl Hs H. destruct rs1 as [|r1 rs1]; [done|]. case_match; [done|].
    apply result_bind_Ok in H as ([ranges rest'] & C & [= <- <-]).
    apply parseClassLoop_wf in C as (C1 & C2 & C3 & C4); [|constructor].
    split; [lia|]. split; [set_solver|]. eauto 10. }
  destruct ((r =? r_bang) || (r =? r_caret)); intros Hp.
  - apply (Haux true rs); [simpl; lia|set_solver|done].
  - apply (Haux false (r :: rs)); [lia|set_solver|done].
Qed.

Lemma compileLoop_fuel fuel fuel' rs toks :
  (length rs < fuel)%nat → (length rs < fuel')%nat →
  compileLoop fuel rs toks = compileLoop fuel' rs toks.
Proof.
  revert fuel' rs toks. induction fuel as [|fuel IH]; intros [|fuel'] rs toks H H'; [lia..|].
  simpl. destruct rs as [|r rest]; [done|]. simpl in *.
  case_match; [destruct rest as [|r' rest]; [done|]; simpl in *; apply IH; lia|].
  case_match; [apply IH; lia|]. case_match; [apply IH; lia|].
  case_match; [|apply IH; lia].
  destruct (parseClass rest) as [[t rest']|] eqn:C; [|done]. simpl.
  apply parseClass_wf in C as [C _]. apply IH; lia.
Qed.

(** What every compiled token list satisfies: literal runes are scalar values,
    classes are non-empty with ordered bounds, and stars are never adjacent. *)
Definition token_wf (t : token) : Prop :=
  match t with
  | literal r => valid_rune r = true
  | class _ ranges => ranges ≠ [] ∧ Forall range_wf ranges
  | _ => True
  end.

Fixpoint no_double_star (toks : list token) : bool :=
  match toks with
  | star :: (star :: _) => false
  | _ :: toks' => no_double_star toks'
  | [] => true
  end.

Lemma no_double_star_snoc toks t :
  no_double_star toks = true → (t = star → last toks ≠ Some star) → no_double_star (toks ++ [t]) = true.
Proof.
  induction toks as [|a toks IH]; intros H Ht.
  - by destruct t.
  - destruct toks as [|b toks].
    + simpl in *. destruct a, t; naive_solver.
    + assert (no_double_star (b :: toks) = true) by (destruct a, b; done).
      change ((a :: b :: toks) ++ [t]) with (a :: ((b :: toks) ++ [t])).
      assert (no_double_star ((b :: toks) ++ [t]) = true) by (apply IH; [done|]; intros ->; by apply Ht).
      destruct a, b; done.
Qed.

Lemma compileLoop_wf fuel rs toks out :
  compileLoop fuel rs toks = Ok out →
  Forall (λ r, valid_rune r = true) rs → Forall token_wf toks → no_double_star toks = true →
  Forall token_wf out ∧ no_double_star out = true ∧ (length toks ≤ length out)%nat ∧
  (rs ≠ [] → out ≠ []).
Proof.
  revert rs toks. induction fuel as [|fuel IH]; intros rs toks H Hrs Hwf Hst; [done|].
  assert (Hsub : ∀ (rest : list Z), rest ⊆ rs → Forall (λ r, valid_rune r = true) rest).
  { intros rest Hs. rewrite Forall_forall in *. intros x Hx. apply Hrs, Hs, Hx. }
  assert (Hgo : ∀ rest t, rest ⊆ rs → token_wf t → (t = star → last toks ≠ Some star) →
     compileLoop fuel rest (toks ++ [t]) = Ok out →
     Forall token_wf out ∧ no_double_star out = true ∧ (length toks ≤ length out)%nat ∧ (rs ≠ [] → out ≠ [])).
  { intros rest t Hs Ht Hlast E. apply IH in E as (? & ? & E & _).
    - rewrite length_app in E. simpl in E. split_and!; [done..|lia|]. intros _ ->. simpl in E. lia.
    - by apply Hsub.
    - apply Forall_app. split; [done|]. by constructor.
    - by apply no_double_star_snoc. }
  simpl in H. destruct rs as [|r rest]; [by simplify_eq|].
  destruct (r =? r_backslash).
  { destruct rest as [|r' rest]; [done|]. eapply Hgo; [| | |exact H]; [set_solver| |done].
    apply Forall_cons in Hrs as [_ Hrs]. by apply Forall_cons in Hrs as [Hr _]. }
  destruct (r =? r_star).
  { case_bool_decide.
    - apply IH in H as (? & ? & E & _); [|apply Hsub; set_solver|done|done].
      split_and!; [done..|]. intros _ ->. simpl in E. destruct toks; [done|]. simpl in E. lia.
    - eapply Hgo; [| | |exact H]; [set_solver|done|done]. }
  destruct (r =? r_question).
  { eapply Hgo; [| | |exact H]; [set_solver|done|done]. }
  destruct (r =? r_open).
  { apply result_bind_Ok in H as ([t rest'] & C & H).
    apply parseClass_wf in C as (C1 & C2 & neg & ranges & -> & ? & ?).
    eapply Hgo; [| | |exact H]; [set_solver|done|done]. }
  eapply Hgo; [| | |exact H]; [set_solver| |done]. by apply Forall_cons in Hrs as [Hr _].
Qed.

Definition pattern_wf (p : Pattern) : Prop :=
  Forall token_wf (tokens p) ∧ no_double_star (tokens p) = true ∧ tokens p ≠ [] ∧
  exact p = forallb is_literal (tokens p) ∧ key p = canonicalKey (tokens p).

Lemma Compile_wf src p : Compile src = Ok p → pattern_wf p ∧ source p = src.
Proof.
  unfold Compile. intros H. destruct (bool_decide (src = []) || _) eqn:E; [done|].
  apply orb_false_iff in E as [E1 E2]. apply bool_decide_eq_false in E1. apply negb_false_iff in E2.
  apply result_bind_Ok in H as (toks & H & [= <-]).
  apply compileLoop_wf in H as (H1 & H2 & _ & H3); [|by apply runes_valid|constructor|done].
  split; [|done]. split_and!; try done. apply H3. by rewrite runes_nil.
Qed.

(** For an exact pattern the exact value is the one text it matches. *)
Lemma exact_matches_iff p v :
  pattern_wf p → exact p = true → ValidString v = true →
  Pattern_Matches p v = true ↔ v = fst (Pattern_ExactValue p).
Proof.
  intros (Hwf & _ & _ & Hex & _) He Hv. unfold Pattern_Matches, Pattern_ExactValue.
  rewrite Matches_runes_spec, He. rewrite Hex in He. rewrite glob_match_literals by done. simpl.
  assert (Hvalid : Forall (λ r, valid_rune r = true) (map token_literal (tokens p))).
  { clear -Hwf He. induction Hwf as [|t toks Ht _ IH]; [constructor|]. simpl in *.
    apply andb_true_iff in He as [Hl He]. constructor; [by destruct t|by apply IH]. }
  rewrite <-(map_map token_literal EncodeRune). fold (encode (map token_literal (tokens p))). split.
  - intros <-. by rewrite encode_runes.
  - intros ->. by apply runes_encode.
Qed.

(** Escaping every rune turns a text into a pattern for exactly that text. *)
Definition escape (rs : list Z) : list Z := concat (map (λ r, [r_backslash; r]) rs).

Lemma compileLoop_escape fuel rs toks :
  (length (escape rs) < fuel)%nat →
  compileLoop fuel (escape rs) toks = Ok (toks ++ map literal rs).
Proof.
  revert fuel toks. induction rs as [|r rs IH]; intros [|fuel] toks H; try (simpl in H; lia).
  - simpl. by rewrite app_nil_r.
  - simpl in *. rewrite IH by (unfold escape; lia). by rewrite <-app_assoc.
Qed.

End compiler.

(** ** Properties *)

(** the table-driven matcher decides exactly the declarative glob
    semantics, for every token list and every text. *)
Theorem Pattern_Matches_correct p value :
  Pattern_Matches p value = true ↔ glob_match (tokens p) (runes value).
Proof. apply Matches_runes_spec. Qed.

(** no wildcard crosses a path separator: a matched text has exactly as
    many slashes as the pattern has literal slashes. *)
Theorem Pattern_Matches_slashes p value :
  Pattern_Matches p value = true → slashes (runes value) = slash_literals (tokens p).
Proof. intros H. by apply glob_match_slashes, Matches_runes_spec. Qed.

Definition demo_pattern : Pattern :=
  mkPattern (str "a/*") [literal 97; literal 47; star] [] false.

Lemma Pattern_Matches_slashes_witness :
  slashes (runes (str "a/bc")) = 1%nat.
Proof. apply (Pattern_Matches_slashes demo_pattern (str "a/bc")). vm_compute. reflexivity. Defined.

(** every pattern that compiles is well formed: literal runes are Unicode
    scalar values, character classes are non-empty with ordered bounds, star
    runs are collapsed, and the exact flag and key describe the tokens. *)
Theorem Compile_well_formed src p : Compile src = Ok p → pattern_wf p ∧ source p = src.
Proof. apply Compile_wf. Qed.

Lemma Compile_well_formed_witness :
  ∃ p, Compile (str "gpt-4*/[a-c]?") = Ok p ∧ pattern_wf p.
Proof.
  destruct (Compile (str "gpt-4*/[a-c]?")) as [p|] eqn:E; [|vm_compute in E; discriminate].
  exists p. split; [reflexivity|]. apply (Compile_well_formed _ _ E).
Defined.

(** an exact pattern matches one valid text, its exact value, so looking a
    model up by exact value agrees with running the matcher. *)
Theorem exact_pattern_unique src p v :
  Compile src = Ok p → Pattern_IsExact p = true → ValidString v = true →
  Pattern_Matches p v = true ↔ v = fst (Pattern_ExactValue p).
Proof. intros H. apply exact_matches_iff. by apply Compile_wf in H as [? _]. Qed.

Lemma exact_pattern_unique_witness :
  ∃ p, Compile (str "a\*b") = Ok p ∧ (Pattern_Matches p (str "a*b") = true ↔ str "a*b" = fst (Pattern_ExactValue p)).
Proof.
  destruct (Compile (str "a\*b")) as [p|] eqn:E; [|vm_compute in E; discriminate].
  exists p. split; [reflexivity|]. apply (exact_pattern_unique _ _ _ E); [|vm_compute; reflexivity].
  vm_compute in E. injection E as <-. reflexivity.
Defined.

(** escaping every rune of a non-empty text compiles to an exact pattern
    whose exact value is that text. *)
Theorem Compile_escape rs :
  rs ≠ [] → Forall (λ r, valid_rune r = true) rs →
  ∃ p, Compile (encode (escape rs)) = Ok p ∧ Pattern_IsExact p = true ∧
       Pattern_ExactValue p = (encode rs, true).
Proof.
  intros Hne Hv. assert (He : Forall (λ r, valid_rune r = true) (escape rs)).
  { clear Hne. induction Hv; [constructor|]. by repeat constructor. }
  unfold Compile. rewrite bool_decide_false.
  2:{ intros E. apply runes_nil in E. rewrite runes_encode in E by done. by destruct rs. }
  rewrite ValidString_encode, runes_encode by done. cbn [orb negb].
  rewrite compileLoop_escape by lia. simpl. eexists. split; [done|].
  unfold Pattern_IsExact, Pattern_ExactValue. simpl.
  assert (forallb is_literal (map literal rs) = true) as -> by (clear; by induction rs).
  split; [done|]. simpl. by rewrite map_map.
Qed.

Lemma Compile_escape_witness :
  ∃ p, Compile (encode (escape [42; 47])) = Ok p ∧ Pattern_IsExact p = true ∧
       Pattern_ExactValue p = (encode [42; 47], true).
Proof. apply (Compile_escape [42; 47]); [done|]. repeat constructor. Defined.
