(* ===== verification/Pricing.v ===== *)
(** * Pricing rules and their resolution ([internal/accounting/pricing.go])

    The strict YAML decoder of the pricing table, its validation and the
    resolver that selects the rule for a model.  A parsed YAML document belongs
    to the YAML library: its node type and accessors are parameters. *)

From Stdlib Require Import Ascii ZArith Lia ZifyBool.
From stdpp Require Import prelude gmap strings list.
From S2P Require Import Prelude Text Utf8 Money ModelMatch.
Local Open Scope Z_scope.

Record PricingRule := mkRule {
  rule_model : bytes;
  rule_pattern : Pattern;
  inputRate : Z;
  outputRate : Z;
  rule_position : Z;
}.

(** [table == nil] is [None]. *)
Record PricingConfig := mkPricingConfig { table : option (list PricingRule) }.

Definition PricingRule_IsExact (rule : PricingRule) : bool := Pattern_IsExact (rule_pattern rule).
Definition PricingRule_Matches (rule : PricingRule) (model : bytes) : bool :=
  Pattern_Matches (rule_pattern rule) model.
Definition PricingConfig_Rules (pricing : PricingConfig) : list PricingRule := default [] (table pricing).

(** ** Decoding *)

Inductive yaml_kind := DocumentNode | SequenceNode | MappingNode | ScalarNode | AliasNode.

#[export] Instance yaml_kind_eq_dec : EqDecision yaml_kind.
Proof. solve_decision. Defined.

(** The two error formats, and the index panic a mapping node with an odd
    number of children would cause. *)
Inductive pricing_error :=
| PricingError (line column : Z) (field : bytes) (message : string)
| RuleError (index : Z) (field : string) (message : string)
| IndexPanic.

Section decoding.

Context {node : Type}.
Context (Kind : node → yaml_kind) (Tag : node → bytes) (Value : node → bytes).
Context (Content : node → list node) (Line Column : node → Z).

Definition pricingError (n : node) (field : bytes) (message : string) : pricing_error :=
  PricingError (Line n) (Column n) field message.

Definition ruleError (index : Z) (field message : string) : pricing_error := RuleError index field message.

Definition is_null (n : node) : bool :=
  bool_decide (Kind n = ScalarNode) && bool_decide (Tag n = str "!!null").
Definition is_string_scalar (n : node) : bool :=
  bool_decide (Kind n = ScalarNode) && bool_decide (Tag n = str "!!str").

Definition parsePricingRate (n : node) (index : Z) (field : string) : result pricing_error Z :=
  if negb (bool_decide (Kind n = ScalarNode)) || negb (bool_decide (Tag n = str "!!int"))
  then Err (ruleError index field "must be a non-negative integer")
  else if bool_decide (Value n = []) || negb (forallb is_digit (Value n)) then
    if bool_decide (head (Value n) = Some minus_char)
    then Err (ruleError index field "must be non-negative")
    else Err (ruleError index field "must be a non-negative integer")
  else
    match ParseUint (Value n) 63 with
    | Err _ => Err (ruleError index field "exceeds the supported money range")
    | Ok value =>
        if MaxMoneyMicros <? value then Err (ruleError index field "exceeds the supported money range")
        else
          match NewMoneyMicros value with
          | Err _ => Err (ruleError index field "is invalid")
          | Ok money => Ok (micros money)
          end
    end.

(** The field map of one rule: the three known fields. *)
Record rule_fields := mkFields {
  f_model : option node; f_input : option node; f_output : option node }.

Definition rule_position_text (index : Z) : bytes := str "pricing.rules[" ++ FormatInt index ++ str "]".

Fixpoint ruleFieldsLoop (position : bytes) (content : list node) (fields : rule_fields)
  : result pricing_error rule_fields :=
  match content with
  | [] => Ok fields
  | [_] => Err IndexPanic
  | k :: v :: rest =>
      if negb (is_string_scalar k) then Err (pricingError k position "field name must be a string")
      else
        let where_ := position ++ str "." ++ Value k in
        let '(seen, fields') :=
          if bool_decide (Value k = str "model") then
            (bool_decide (is_Some (f_model fields)), Some (mkFields (Some v) (f_input fields) (f_output fields)))
          else if bool_decide (Value k = str "input_per_million_micros") then
            (bool_decide (is_Some (f_input fields)), Some (mkFields (f_model fields) (Some v) (f_output fields)))
          else if bool_decide (Value k = str "output_per_million_micros") then
            (bool_decide (is_Some (f_output fields)), Some (mkFields (f_model fields) (f_input fields) (Some v)))
          else (false, None) in
        if (seen : bool) then Err (pricingError k where_ "duplicate field")
        else
          match fields' with
          | None => Err (pricingError k where_ "unknown field")
          | Some fields'' => ruleFieldsLoop position rest fields''
          end
  end.

Definition parsePricingRule (n : node) (index : Z) : result pricing_error PricingRule :=
  let position := rule_position_text index in
  if negb (bool_decide (Kind n = MappingNode)) then Err (pricingError n position "must be a mapping")
  else
    let? fields := ruleFieldsLoop position (Content n) (mkFields None None None) in
    match f_model fields, f_input fields, f_output fields with
    | None, _, _ => Err (ruleError index "model" "field is required")
    | _, None, _ => Err (ruleError index "input_per_million_micros" "field is required")
    | _, _, None => Err (ruleError index "output_per_million_micros" "field is required")
    | Some modelNode, Some inputNode, Some outputNode =>
        if negb (is_string_scalar modelNode) || bool_decide (Value modelNode = [])
           || TrimSpace_empty (Value modelNode) || negb (ValidString (Value modelNode))
        then Err (ruleError index "model" "must be a non-empty UTF-8 string")
        else
          match Compile (Value modelNode) with
          | Err _ => Err (ruleError index "model" "invalid model glob")
          | Ok pattern =>
              let? input := parsePricingRate inputNode index "input_per_million_micros" in
              let? output := parsePricingRate outputNode index "output_per_million_micros" in
              Ok (mkRule (Value modelNode) pattern input output index)
          end
    end.

(** The top-level mapping: only [rules] may appear, and once. *)
Fixpoint pricingFieldsLoop (content : list node) (seen : list bytes) (rulesNode : option node)
  : result pricing_error (option node) :=
  match content with
  | [] => Ok rulesNode
  | [_] => Err IndexPanic
  | k :: v :: rest =>
      if negb (is_string_scalar k) then Err (pricingError k (str "pricing") "field name must be a string")
      else if bool_decide (Value k ∈ seen) then Err (pricingError k (str "pricing") "duplicate field")
      else if negb (bool_decide (Value k = str "rules"))
      then Err (pricingError k (str "pricing." ++ Value k) "unknown field")
      else pricingFieldsLoop rest (Value k :: seen) (Some v)
  end.

Fixpoint rulesLoop (nodes : list node) (index : Z) (rules : list PricingRule)
  (seenExact seenGlob : list bytes) : result pricing_error (list PricingRule) :=
  match nodes with
  | [] => Ok rules
  | ruleNode :: rest =>
      let? rule := parsePricingRule ruleNode index in
      let k := Pattern_Key (rule_pattern rule) in
      if PricingRule_IsExact rule then
        if bool_decide (k ∈ seenExact) then Err (ruleError index "model" "duplicate exact selector")
        else rulesLoop rest (index + 1) (rules ++ [rule]) (k :: seenExact) seenGlob
      else
        if bool_decide (k ∈ seenGlob) then Err (ruleError index "model" "duplicate glob selector")
        else rulesLoop rest (index + 1) (rules ++ [rule]) seenExact (k :: seenGlob)
  end.

Definition PricingConfig_UnmarshalYAML (n : node) : result pricing_error PricingConfig :=
  if is_null n then Ok (mkPricingConfig None)
  else if negb (bool_decide (Kind n = MappingNode)) then Err (pricingError n (str "pricing") "must be a mapping")
  else
    let? rulesNode := pricingFieldsLoop (Content n) [] None in
    match rulesNode with
    | None => Ok (mkPricingConfig None)
    | Some rn =>
        if is_null rn then Ok (mkPricingConfig None)
        else if negb (bool_decide (Kind rn = SequenceNode))
        then Err (pricingError rn (str "pricing.rules") "must be a sequence")
        else
          let? rules := rulesLoop (Content rn) 0 [] [] [] in
          Ok (mkPricingConfig (Some rules))
    end.

End decoding.

(** ** Validation *)

Fixpoint validateLoop (rules : list PricingRule) (index : Z) (seenExact seenGlob : list bytes)
  : option pricing_error :=
  match rules with
  | [] => None
  | rule :: rest =>
      if bool_decide (rule_model rule = []) || negb (ValidString (rule_model rule))
         || (inputRate rule <? 0) || (outputRate rule <? 0)
      then Some (RuleError index "rule" "is invalid")
      else
        let k := Pattern_Key (rule_pattern rule) in
        if PricingRule_IsExact rule then
          if bool_decide (k ∈ seenExact) then Some (RuleError index "model" "duplicate exact selector")
          else validateLoop rest (index + 1) (k :: seenExact) seenGlob
        else
          if bool_decide (k ∈ seenGlob) then Some (RuleError index "model" "duplicate glob selector")
          else validateLoop rest (index + 1) seenExact (k :: seenGlob)
  end.

Definition PricingConfig_Validate (pricing : PricingConfig) : option pricing_error :=
  match table pricing with
  | None => None
  | Some rules => validateLoop rules 0 [] []
  end.

(** ** Resolution *)

Definition zeroPattern : Pattern := mkPattern [] [] [] false.
Definition zeroRule : PricingRule := mkRule [] zeroPattern 0 0 0.

Record PricingResolution := mkResolution { res_rule : PricingRule; res_known : bool }.
Definition UnknownPricingResolution : PricingResolution := mkResolution zeroRule false.
Definition PricingResolution_Known (r : PricingResolution) : bool := res_known r.
Definition PricingResolution_Rule (r : PricingResolution) : PricingRule := res_rule r.

Record PricingResolver := mkResolver {
  present : bool;
  exact_rules : gmap bytes PricingRule;
  globs : list PricingRule;
}.

Definition PricingResolver_HasRules (resolver : PricingResolver) : bool :=
  negb (Nat.eqb (size (exact_rules resolver)) 0) || negb (Nat.eqb (length (globs resolver)) 0).

Definition addRule (resolver : PricingResolver) (rule : PricingRule) : PricingResolver :=
  if PricingRule_IsExact rule then
    let '(value, _) := Pattern_ExactValue (rule_pattern rule) in
    mkResolver (present resolver) (<[value := rule]> (exact_rules resolver)) (globs resolver)
  else mkResolver (present resolver) (exact_rules resolver) (globs resolver ++ [rule]).

Definition NewPricingResolver (pricing : PricingConfig) : PricingResolver :=
  match table pricing with
  | None => mkResolver true ∅ []
  | Some rules => foldl addRule (mkResolver true ∅ []) rules
  end.

Definition PricingResolver_Resolve (resolver : PricingResolver) (model : bytes) : PricingResolution :=
  if bool_decide (model = []) || negb (ValidString model) then UnknownPricingResolution
  else
    match exact_rules resolver !! model with
    | Some rule => mkResolution rule true
    | None =>
        match List.find (λ rule, PricingRule_Matches rule model) (globs resolver) with
        | Some rule => mkResolution rule true
        | None => UnknownPricingResolution
        end
    end.

(** ** The table invariant *)

Definition rule_key (rule : PricingRule) : bytes := Pattern_Key (rule_pattern rule).
Definition exact_part (rules : list PricingRule) : list PricingRule :=
  List.filter PricingRule_IsExact rules.
Definition glob_part (rules : list PricingRule) : list PricingRule :=
  List.filter (λ r, negb (PricingRule_IsExact r)) rules.

(** What strict loading establishes for one rule, and for the whole table. *)
Definition rule_wf (rule : PricingRule) : Prop :=
  rule_model rule ≠ [] ∧ ValidString (rule_model rule) = true ∧
  Compile (rule_model rule) = Ok (rule_pattern rule) ∧
  amount_range (inputRate rule) ∧ amount_range (outputRate rule).

Definition rules_wf (rules : list PricingRule) : Prop :=
  Forall rule_wf rules ∧
  NoDup (map rule_key (exact_part rules)) ∧ NoDup (map rule_key (glob_part rules)) ∧
  ∀ i rule, rules !! i = Some rule → rule_position rule = Z.of_nat i.

Section table.

Context {node : Type}.
Context (Kind : node → yaml_kind) (Tag : node → bytes) (Value : node → bytes).
Context (Content : node → list node) (Line Column : node → Z).

Lemma parsePricingRate_range n index field rate :
  parsePricingRate Kind Tag Value n index field = Ok rate → amount_range rate.
Proof.
  unfold parsePricingRate. intros H.
  destruct (negb _ || negb _); [done|].
  destruct (bool_decide (Value n = []) || _) eqn:E; [by case_match|].
  destruct (ParseUint (Value n) 63) as [v|] eqn:P; [|done].
  assert (0 <= v).
  { unfold ParseUint in P. rewrite E in P. destruct (2 ^ 63 <=? digits_value (Value n)); [done|]. injection P as <-.
    apply orb_false_iff in E as [_ E]. apply negb_false_iff in E. by apply digits_value_bound. }
  destruct (Z.ltb_spec MaxMoneyMicros v); [done|].
  unfold NewMoneyMicros in H. destruct (Z.ltb_spec v 0); [done|]. simpl in H.
  injection H as <-. unfold amount_range. lia.
Qed.

Lemma parsePricingRule_wf n index rule :
  parsePricingRule Kind Tag Value Content Line Column n index = Ok rule →
  rule_wf rule ∧ rule_position rule = index.
Proof.
  unfold parsePricingRule. intros H.
  destruct (negb (bool_decide (Kind n = MappingNode))); [done|].
  apply result_bind_Ok in H as ([m i o] & _ & H). simpl in H.
  destruct m as [m|]; [|done]. destruct i as [i|]; [|done]. destruct o as [o|]; [|done].
  destruct (negb _ || _ || _ || _) eqn:E; [done|].
  destruct (Compile (Value m)) as [p|] eqn:C; [|done].
  apply result_bind_Ok in H as (input & Hi & H). apply result_bind_Ok in H as (output & Ho & H).
  apply parsePricingRate_range in Hi, Ho.
  rewrite !orb_false_iff, !negb_false_iff in E. destruct E as [[[_ E2] _] E4].
  apply bool_decide_eq_false in E2.
  injection H as <-. by split_and!.
Qed.

Lemma exact_part_snoc rules rule :
  exact_part (rules ++ [rule]) =
  exact_part rules ++ (if PricingRule_IsExact rule then [rule] else []).
Proof. unfold exact_part. rewrite List.filter_app. simpl. by case_match. Qed.

Lemma glob_part_snoc rules rule :
  glob_part (rules ++ [rule]) =
  glob_part rules ++ (if PricingRule_IsExact rule then [] else [rule]).
Proof. unfold glob_part. rewrite List.filter_app. simpl. by destruct (PricingRule_IsExact rule). Qed.

Lemma rules_wf_snoc rules rule :
  rules_wf rules → rule_wf rule → rule_position rule = Z.of_nat (length rules) →
  rule_key rule ∉ map rule_key (if PricingRule_IsExact rule then exact_part rules else glob_part rules) →
  rules_wf (rules ++ [rule]).
Proof.
  intros (H1 & H2 & H3 & H4) Hr Hp Hk. split_and!.
  - apply Forall_app. split; [done|]. by constructor.
  - rewrite exact_part_snoc. destruct (PricingRule_IsExact rule); [|by rewrite app_nil_r].
    rewrite map_app. simpl. apply NoDup_app. split_and!; [done| |apply NoDup_singleton].
    intros x Hx ->%list_elem_of_singleton. done.
  - rewrite glob_part_snoc. destruct (PricingRule_IsExact rule); [by rewrite app_nil_r|].
    rewrite map_app. simpl. apply NoDup_app. split_and!; [done| |apply NoDup_singleton].
    intros x Hx ->%list_elem_of_singleton. done.
  - intros i r Hi. apply lookup_app_Some in Hi as [Hi|[Hge Hi]]; [by apply H4|].
    apply list_lookup_singleton_Some in Hi as [Hi <-]. rewrite Hp. lia.
Qed.

Lemma rulesLoop_wf nodes index rules seenExact seenGlob out :
  rulesLoop Kind Tag Value Content Line Column nodes index rules seenExact seenGlob = Ok out →
  rules_wf rules → index = Z.of_nat (length rules) →
  (∀ k, k ∈ seenExact ↔ k ∈ map rule_key (exact_part rules)) →
  (∀ k, k ∈ seenGlob ↔ k ∈ map rule_key (glob_part rules)) →
  rules_wf out.
Proof.
  revert index rules seenExact seenGlob.
  induction nodes as [|n nodes IH]; intros index rules sE sG H Hwf Hidx HE HG; simpl in H.
  { by simplify_eq. }
  apply result_bind_Ok in H as (rule & Hp & H). apply parsePricingRule_wf in Hp as [Hr Hpos].
  destruct (PricingRule_IsExact rule) eqn:Ex; case_bool_decide as Hk; try done;
    apply IH in H; try done.
  - apply rules_wf_snoc; [done..|by rewrite Hpos|]. by rewrite Ex, <-HE.
  - rewrite length_app. simpl. lia.
  - intros k. rewrite exact_part_snoc, Ex, map_app, elem_of_app, elem_of_cons, HE. simpl.
    rewrite list_elem_of_singleton. tauto.
  - intros k. by rewrite glob_part_snoc, Ex, app_nil_r, HG.
  - apply rules_wf_snoc; [done..|by rewrite Hpos|]. by rewrite Ex, <-HG.
  - rewrite length_app. simpl. lia.
  - intros k. by rewrite exact_part_snoc, Ex, app_nil_r, HE.
  - intros k. rewrite glob_part_snoc, Ex, map_app, elem_of_app, elem_of_cons, HG. simpl.
    rewrite list_elem_of_singleton. tauto.
Qed.

Lemma rules_wf_nil : rules_wf [].
Proof. split_and!; try constructor. intros i rule. by rewrite lookup_nil. Qed.

Lemma UnmarshalYAML_wf n pricing :
  PricingConfig_UnmarshalYAML Kind Tag Value Content Line Column n = Ok pricing →
  rules_wf (PricingConfig_Rules pricing).
Proof.
  unfold PricingConfig_UnmarshalYAML. intros H.
  destruct (is_null _ _ n). { injection H as <-. apply rules_wf_nil. }
  destruct (negb _); [done|].
  apply result_bind_Ok in H as (rn & _ & H).
  destruct rn as [rn|]; [|injection H as <-; apply rules_wf_nil].
  destruct (is_null _ _ rn). { injection H as <-. apply rules_wf_nil. }
  destruct (negb _); [done|].
  apply result_bind_Ok in H as (rules & H & [= <-]).
  apply rulesLoop_wf in H; try done. apply rules_wf_nil.
Qed.

End table.

Section validation.

Lemma validateLoop_ok rules : ∀ index sE sG,
  Forall rule_wf rules →
  NoDup (map rule_key (exact_part rules)) → NoDup (map rule_key (glob_part rules)) →
  (∀ k, k ∈ map rule_key (exact_part rules) → k ∉ sE) →
  (∀ k, k ∈ map rule_key (glob_part rules) → k ∉ sG) →
  validateLoop rules index sE sG = None.
Proof.
  induction rules as [|rule rules IH]; intros index sE sG Hwf NE NG HE HG; [done|].
  apply Forall_cons in Hwf as [(Hm & Hv & Hc & Hi & Ho) Hwf]. simpl.
  rewrite bool_decide_false by done. rewrite Hv. cbn [orb negb].
  rewrite (proj2 (orb_false_iff _ _)) by (unfold amount_range in *; lia).
  unfold exact_part, glob_part in *. simpl in *. fold (rule_key rule).
  destruct (PricingRule_IsExact rule); simpl in *.
  - rewrite bool_decide_false by (apply HE; set_solver).
    apply NoDup_cons in NE as [N1 N2]. apply IH; set_solver.
  - rewrite bool_decide_false by (apply HG; set_solver).
    apply NoDup_cons in NG as [N1 N2]. apply IH; set_solver.
Qed.

Lemma Validate_wf rules : rules_wf rules → PricingConfig_Validate (mkPricingConfig (Some rules)) = None.
Proof.
  intros (H1 & H2 & H3 & _). unfold PricingConfig_Validate. simpl.
  apply validateLoop_ok; try done; intros; apply not_elem_of_nil.
Qed.

End validation.

(** ** The resolver against the rule list *)

Section resolution.

(** The selection rule of the documentation: an exact rule that matches wins,
    otherwise the first matching glob in declaration order. *)
Definition select_rule (rules : list PricingRule) (model : bytes) : option PricingRule :=
  match List.find (λ rule, PricingRule_IsExact rule && PricingRule_Matches rule model) rules with
  | Some rule => Some rule
  | None => List.find (λ rule, negb (PricingRule_IsExact rule) && PricingRule_Matches rule model) rules
  end.

Lemma rule_wf_pattern rule : rule_wf rule → pattern_wf (rule_pattern rule).
Proof. intros (_ & _ & H & _). by apply Compile_wf in H as [? _]. Qed.

Lemma exact_value_key p q :
  pattern_wf p → pattern_wf q → exact p = true → exact q = true →
  fst (Pattern_ExactValue p) = fst (Pattern_ExactValue q) → key p = key q.
Proof.
  intros Hp Hq Ep Eq E. assert (Hv : ValidString (fst (Pattern_ExactValue p)) = true).
  { destruct Hp as (Hwf & _ & _ & Hex & _). unfold Pattern_ExactValue. rewrite Ep. simpl. rewrite Hex in Ep.
    rewrite <-(map_map token_literal EncodeRune). apply ValidString_encode.
    clear -Hwf Ep. induction Hwf as [|t toks Ht _ IH]; [constructor|]. simpl in *.
    apply andb_true_iff in Ep as [Hl He]. constructor; [by destruct t|by apply IH]. }
  pose proof (proj2 (exact_matches_iff p _ Hp Ep Hv) eq_refl) as M1.
  rewrite E in Hv, M1. pose proof (proj2 (exact_matches_iff q _ Hq Eq Hv) eq_refl) as M2.
  destruct Hp as (_ & _ & _ & Xp & ->), Hq as (_ & _ & _ & Xq & ->). f_equal.
  unfold Pattern_Matches in *. rewrite Matches_runes_spec in M1, M2.
  rewrite Xp in Ep. rewrite Xq in Eq.
  rewrite glob_match_literals in M1, M2 by done. rewrite M1 in M2. clear -Ep Eq M2.
  revert M2 Eq. generalize (tokens q) as ts. revert Ep. generalize (tokens p) as us.
  induction us as [|u us IH]; intros Ep [|t ts] E Eq; try done. simpl in *.
  apply andb_true_iff in Ep as [? ?], Eq as [? ?]. destruct u, t; try done. simpl in *.
  simplify_eq. f_equal. by apply IH.
Qed.

(** Folding the rules: globs in order, and the exact index keyed by value. *)
Lemma addRule_globs rules r0 :
  globs (foldl addRule r0 rules) = globs r0 ++ glob_part rules.
Proof.
  unfold glob_part. revert r0. induction rules as [|rule rules IH]; intros r0; simpl; [by rewrite app_nil_r|].
  rewrite IH. unfold addRule. destruct (PricingRule_IsExact rule); simpl.
  - by destruct (Pattern_ExactValue (rule_pattern rule)).
  - by rewrite <-app_assoc.
Qed.

Lemma addRule_exact rules r0 model :
  Forall rule_wf rules → ValidString model = true →
  NoDup (map rule_key (exact_part rules)) →
  exact_rules (foldl addRule r0 rules) !! model =
    match List.find (λ rule, PricingRule_IsExact rule && PricingRule_Matches rule model) rules with
    | Some rule => Some rule
    | None => exact_rules r0 !! model
    end.
Proof.
  intros Hwf Hv. revert r0. induction Hwf as [|rule rules Hr Hwf IH]; intros r0 Hnd; [done|].
  unfold exact_part in Hnd. simpl in *. unfold addRule at 2.
  destruct (PricingRule_IsExact rule) eqn:Ex; simpl in *; [|by rewrite IH].
  apply NoDup_cons in Hnd as [Hnin Hnd].
  pose proof (exact_matches_iff (rule_pattern rule) model (rule_wf_pattern _ Hr) Ex Hv) as Hm.
  fold (PricingRule_Matches rule model) in Hm.
  destruct (Pattern_ExactValue (rule_pattern rule)) as [value b] eqn:EV. simpl in Hm.
  rewrite IH by done. simpl.
  destruct (PricingRule_Matches rule model) eqn:M.
  - destruct Hm as [Hm _]. rewrite (Hm eq_refl) in *.
    destruct (List.find _ rules) as [rule'|] eqn:F; [|by rewrite lookup_insert_eq].
    exfalso. apply List.find_some in F as [Hin F]. apply andb_true_iff in F as [Ex' M'].
    apply Hnin. apply list_elem_of_fmap. exists rule'. split.
    + unfold rule_key, Pattern_Key. assert (Hr' : rule_wf rule').
      { rewrite Forall_forall in Hwf. by apply Hwf, list_elem_of_In. }
      apply exact_value_key; [by apply rule_wf_pattern..|done|done|].
      rewrite EV. simpl. by apply (exact_matches_iff (rule_pattern rule') value (rule_wf_pattern _ Hr') Ex').
    + apply list_elem_of_In, List.filter_In. done.
  - destruct (List.find _ rules) as [rule'|]; [done|].
    rewrite lookup_insert_ne; [done|]. intros <-. by destruct Hm as [_ Hm]; specialize (Hm eq_refl).
Qed.

Lemma find_glob_part rules model :
  List.find (λ rule, PricingRule_Matches rule model) (glob_part rules) =
  List.find (λ rule, negb (PricingRule_IsExact rule) && PricingRule_Matches rule model) rules.
Proof.
  unfold glob_part. induction rules as [|rule rules IH]; [done|]. simpl.
  destruct (PricingRule_IsExact rule); simpl; [done|]. by rewrite IH.
Qed.

Lemma Resolve_select pricing model :
  rules_wf (PricingConfig_Rules pricing) → model ≠ [] → ValidString model = true →
  PricingResolver_Resolve (NewPricingResolver pricing) model =
    match select_rule (PricingConfig_Rules pricing) model with
    | Some rule => mkResolution rule true
    | None => UnknownPricingResolution
    end.
Proof.
  intros (Hwf & Hnd & _ & _) Hne Hv. unfold PricingResolver_Resolve, select_rule.
  rewrite bool_decide_false by done. rewrite Hv. simpl.
  destruct pricing as [[rules|]]; [|done]. unfold NewPricingResolver, PricingConfig_Rules in *. simpl in *.
  rewrite addRule_exact by done. rewrite addRule_globs, <-find_glob_part. simpl.
  rewrite lookup_empty. by destruct (List.find _ rules).
Qed.

End resolution.

(** ** Properties *)

(** a pricing table accepted by the strict decoder is well formed: every
    selector is valid and compiled from its own text, rates fit the money
    range, positions are the declaration indices, and no selector key is
    declared twice; the later [Validate] therefore accepts it. *)
Theorem UnmarshalYAML_table {node} Kind Tag Value Content Line Column (n : node) pricing :
  PricingConfig_UnmarshalYAML Kind Tag Value Content Line Column n = Ok pricing →
  rules_wf (PricingConfig_Rules pricing) ∧ PricingConfig_Validate pricing = None.
Proof.
  intros H. apply UnmarshalYAML_wf in H. split; [done|].
  destruct pricing as [[rules|]]; [by apply Validate_wf|done].
Qed.

(** A small document: a node is its kind, tag, value and children. *)
Inductive demo_node := DNode (k : yaml_kind) (tag value : bytes) (content : list demo_node).
Definition demo_kind (n : demo_node) := let 'DNode k _ _ _ := n in k.
Definition demo_tag (n : demo_node) := let 'DNode _ t _ _ := n in t.
Definition demo_value (n : demo_node) := let 'DNode _ _ v _ := n in v.
Definition demo_content (n : demo_node) := let 'DNode _ _ _ c := n in c.
Definition demo_str s := DNode ScalarNode (str "!!str") (str s) [].
Definition demo_int s := DNode ScalarNode (str "!!int") (str s) [].
Definition demo_rule m i o :=
  DNode MappingNode (str "!!map") []
    [demo_str "model"; demo_str m; demo_str "input_per_million_micros"; demo_int i;
     demo_str "output_per_million_micros"; demo_int o].
Definition demo_doc : demo_node :=
  DNode MappingNode (str "!!map") []
    [demo_str "rules"; DNode SequenceNode (str "!!seq") []
       [demo_rule "gpt-*" "10" "20"; demo_rule "gpt-4" "30" "40"]].
Definition demo_load := PricingConfig_UnmarshalYAML demo_kind demo_tag demo_value demo_content (λ _, 0) (λ _, 0).

Lemma UnmarshalYAML_table_witness :
  ∃ pricing, demo_load demo_doc = Ok pricing ∧ length (PricingConfig_Rules pricing) = 2%nat ∧
             rules_wf (PricingConfig_Rules pricing).
Proof.
  destruct (demo_load demo_doc) as [pricing|] eqn:E; [|vm_compute in E; discriminate].
  exists pricing. split; [reflexivity|]. split.
  - vm_compute in E. injection E as <-. reflexivity.
  - apply (UnmarshalYAML_table demo_kind demo_tag demo_value demo_content (λ _, 0) (λ _, 0) demo_doc pricing E).
Defined.

(** for every loaded table the resolver's exact index and glob list select
    the documented rule: the exact rule for the model if there is one,
    otherwise the first matching glob in declaration order, otherwise unknown. *)
Theorem Resolve_precedence pricing model :
  rules_wf (PricingConfig_Rules pricing) → model ≠ [] → ValidString model = true →
  PricingResolver_Resolve (NewPricingResolver pricing) model =
    match select_rule (PricingConfig_Rules pricing) model with
    | Some rule => mkResolution rule true
    | None => UnknownPricingResolution
    end.
Proof. apply Resolve_select. Qed.

Lemma Resolve_precedence_witness :
  ∃ pricing, demo_load demo_doc = Ok pricing ∧
    inputRate (res_rule (PricingResolver_Resolve (NewPricingResolver pricing) (str "gpt-4"))) = 30.
Proof.
  destruct (demo_load demo_doc) as [pricing|] eqn:E; [|vm_compute in E; discriminate].
  exists pricing. split; [reflexivity|].
  rewrite (Resolve_precedence pricing (str "gpt-4")); [|exact (UnmarshalYAML_wf _ _ _ _ _ _ _ _ E)|done|reflexivity].
  vm_compute in E. injection E as <-. vm_compute. reflexivity.
Defined.
