(* ===== verification/Reservation.v ===== *)
(** * Reservation planning and pricing

    The token reservation planner ([internal/accounting/reservation.go]), the
    exact token price ([cost.go]) and the budget reservation planner
    ([budget.go]) that combines them with the pricing resolver. *)

From Stdlib Require Import Ascii ZArith Lia ZifyBool.
From stdpp Require Import prelude gmap strings list.
From S2P Require Import Prelude Text Utf8 Money Usage ModelMatch Pricing.
Local Open Scope Z_scope.

(** ** Token reservations *)

Definition ReservationModeUsageOnly : bytes := str "usage_only".
Definition ReservationModeEstimate : bytes := str "estimate".

(** [EstimateQuality] and the two source tags are unsigned bytes. *)
Definition EstimateQualityUnknown : Z := 0.
Definition EstimateQualityKnown : Z := 1.
Definition EstimateQuality_Known (quality : Z) : bool := quality =? EstimateQualityKnown.

Definition InputSourceEstimate : Z := 0.
Definition InputSourceUnknownFallback : Z := 1.
Definition OutputSourceExplicit : Z := 0.
Definition OutputSourceFallback : Z := 1.

(** The sentinel an error wraps and, where there is one, the wrapped cause. *)
Inductive reservation_error :=
| ErrInvalidReservationConfig
| ErrReservationUnavailable
| ErrReservationOverflow (cause : count_error).

Record ReservationMetadata := mkMetadata {
  MaxTokens : option Z;
  MaxCompletionTokens : option Z;
  MaxOutputTokens : option Z;
}.

Record ReservationOptions := mkResOptions {
  ro_Mode : bytes;
  ro_UnknownInputFallback : Z;
  ro_FallbackMaxOutputTokens : Z;
  ro_ResponsesEndpoint : bool;
  ro_Metadata : ReservationMetadata;
  ro_Input : InputTokens;
  ro_Quality : Z;
}.

Record ReservationPlan := mkPlan {
  plan_Input : InputTokens;
  plan_Output : OutputTokens;
  plan_Total : TotalTokens;
  plan_InputQuality : Z;
  plan_InputSource : Z;
  plan_OutputSource : Z;
}.

(** The conversions drop the error of a negative count, keeping the zero value
    the failed constructor returns. *)
Definition inputTokensFromOutput (output : OutputTokens) : InputTokens :=
  match NewInputTokens (OutputTokens_Int64 output) with
  | Ok value => value
  | Err _ => UnknownInputTokens
  end.

Definition totalTokensFromInput (input : InputTokens) : TotalTokens :=
  match NewTotalTokens (InputTokens_Int64 input) with
  | Ok value => value
  | Err _ => UnknownTotalTokens
  end.

Definition reservationInput (options : ReservationOptions) : result reservation_error (InputTokens * Z) :=
  if ro_UnknownInputFallback options <=? 0 then Err ErrInvalidReservationConfig
  else if negb (bool_decide (ro_Mode options = ReservationModeEstimate))
          && negb (bool_decide (ro_Mode options = ReservationModeUsageOnly))
  then Err ErrInvalidReservationConfig
  else if bool_decide (ro_Mode options = ReservationModeEstimate)
          && EstimateQuality_Known (ro_Quality options) && InputTokens_Known (ro_Input options)
  then
    if InputTokens_Int64 (ro_Input options) <? 0 then Err ErrReservationUnavailable
    else Ok (ro_Input options, InputSourceEstimate)
  else
    match NewInputTokens (ro_UnknownInputFallback options) with
    | Err _ => Err ErrInvalidReservationConfig
    | Ok fallback => Ok (fallback, InputSourceUnknownFallback)
    end.

(** The precedence loop: the first present, non-zero limit. *)
Fixpoint outputLimitLoop (values : list (option Z)) : option (result reservation_error (OutputTokens * Z)) :=
  match values with
  | [] => None
  | None :: rest => outputLimitLoop rest
  | Some v :: rest =>
      if v =? 0 then outputLimitLoop rest
      else Some match NewOutputTokens v with
                | Err _ => Err ErrReservationUnavailable
                | Ok output => Ok (output, OutputSourceExplicit)
                end
  end.

Definition reservationOutput (options : ReservationOptions) : result reservation_error (OutputTokens * Z) :=
  if ro_FallbackMaxOutputTokens options <=? 0 then Err ErrInvalidReservationConfig
  else
    let metadata := ro_Metadata options in
    let applicable :=
      [MaxCompletionTokens metadata; MaxTokens metadata]
      ++ (if ro_ResponsesEndpoint options then [MaxOutputTokens metadata] else []) in
    if existsb (λ value, match value with Some v => v <? 0 | None => false end) applicable
    then Err ErrReservationUnavailable
    else
      let values :=
        (if ro_ResponsesEndpoint options then [MaxOutputTokens metadata] else [])
        ++ [MaxCompletionTokens metadata; MaxTokens metadata] in
      match outputLimitLoop values with
      | Some r => r
      | None =>
          match NewOutputTokens (ro_FallbackMaxOutputTokens options) with
          | Err _ => Err ErrInvalidReservationConfig
          | Ok fallback => Ok (fallback, OutputSourceFallback)
          end
      end.

Definition PlanReservation (options : ReservationOptions) : result reservation_error ReservationPlan :=
  let? (input, source) := reservationInput options in
  let? (output, outputSource) := reservationOutput options in
  match InputTokens_Add input (inputTokensFromOutput output) with
  | Err e => Err (ErrReservationOverflow e)
  | Ok total =>
      if negb (InputTokens_Known total) || (InputTokens_Int64 total <=? 0) then Err ErrReservationUnavailable
      else Ok (mkPlan input output (totalTokensFromInput total) (ro_Quality options) source outputSource)
  end.

(** ** Exact prices ([cost.go]) *)

(** The sentinels joined into one cost error. *)
Inductive cost_sentinel :=
| CostNegativeCount
| ErrCostInputMultiplicationOverflow
| ErrCostOutputMultiplicationOverflow
| ErrCostSumOverflow
| ErrCostCeilingOverflow
| ErrCostOverflow
| CostMoney (e : money_error).

(** The intermediate values are [big.Int]s: unbounded integers. *)
Definition calculateTokenCost (input output inRate outRate : Z) : result (list cost_sentinel) Money :=
  if (input <? 0) || (output <? 0) || (inRate <? 0) || (outRate <? 0) then Err [CostNegativeCount]
  else
    let maxNumerator := MaxMoneyMicros * MicrosPerUSD in
    let inputProduct := input * inRate in
    if maxNumerator <? inputProduct then Err [ErrCostOverflow; ErrCostInputMultiplicationOverflow]
    else
      let outputProduct := output * outRate in
      if maxNumerator <? outputProduct then Err [ErrCostOverflow; ErrCostOutputMultiplicationOverflow]
      else
        let numerator := inputProduct + outputProduct in
        if maxNumerator <? numerator then Err [ErrCostOverflow; ErrCostSumOverflow; ErrCostCeilingOverflow]
        else
          let quotient0 := Z.quot numerator MicrosPerUSD in
          let remainder := Z.rem numerator MicrosPerUSD in
          let quotient := if negb (remainder =? 0) then quotient0 + 1 else quotient0 in
          if (MaxMoneyMicros <? quotient) || negb ((minInt64 <=? quotient) && (quotient <=? maxInt64))
          then Err [ErrCostOverflow; ErrCostCeilingOverflow]
          else
            match NewMoneyMicros quotient with
            | Ok money => Ok money
            | Err e => Err [CostMoney e]
            end.

Definition CalculateActualCost (usage : Usage) (pricing : PricingResolution) : result (list cost_sentinel) Money :=
  if negb (PricingResolution_Known pricing) || negb (InputTokens_Known (usage_input usage))
     || negb (OutputTokens_Known (usage_output usage))
  then Ok UnknownMoney
  else
    let '(input, _) := InputTokens_Value (usage_input usage) in
    let '(output, _) := OutputTokens_Value (usage_output usage) in
    let rule := PricingResolution_Rule pricing in
    calculateTokenCost input output (inputRate rule) (outputRate rule).

Definition CalculateReservationCost (plan : ReservationPlan) (pricing : PricingResolution)
  : result (list cost_sentinel) Money :=
  if negb (PricingResolution_Known pricing) || negb (InputTokens_Known (plan_Input plan))
     || negb (OutputTokens_Known (plan_Output plan))
  then Ok UnknownMoney
  else
    let '(input, _) := InputTokens_Value (plan_Input plan) in
    let '(output, _) := OutputTokens_Value (plan_Output plan) in
    let rule := PricingResolution_Rule pricing in
    calculateTokenCost input output (inputRate rule) (outputRate rule).

(** ** Budget reservations ([budget.go]) *)

Inductive budget_plan_error :=
| ErrBudgetModelMissing
| ErrBudgetModelInvalid
| ErrBudgetModelOversized
| ErrBudgetPricingUnknown
| ErrBudgetReservationInvalid
| ErrBudgetCostInvalid (cause : list cost_sentinel).

Record BudgetReservationOptions := mkBudgetOptions {
  bo_Required : bool;
  bo_Model : bytes;
  bo_MaxModelBytes : Z;
  bo_Reservation : ReservationPlan;
  bo_Resolver : PricingResolver;
}.

Record BudgetPricingSource := mkPricingSource {
  Selector : bytes;
  Exact : bool;
  DeclarationPosition : Z;
}.

Record BudgetReservationPlan := mkBudgetPlan {
  bp_Reservation : Money;
  bp_SelectedPricing : PricingResolution;
  bp_Pricing : BudgetPricingSource;
  bp_InputSource : Z;
  bp_OutputSource : Z;
  bp_InputQuality : Z;
  bp_Skipped : bool;
}.

Definition skippedPlan : BudgetReservationPlan :=
  mkBudgetPlan UnknownMoney UnknownPricingResolution (mkPricingSource [] false 0) 0 0 0 true.

(** [true] when the plan is safe to price. *)
Definition validateBudgetReservation (plan : ReservationPlan) : bool :=
  if negb (InputTokens_Known (plan_Input plan)) || negb (OutputTokens_Known (plan_Output plan))
     || negb (TotalTokens_Known (plan_Total plan)) then false
  else if (InputTokens_Int64 (plan_Input plan) <? 0) || (OutputTokens_Int64 (plan_Output plan) <? 0)
          || (TotalTokens_Int64 (plan_Total plan) <=? 0) then false
  else if (InputSourceUnknownFallback <? plan_InputSource plan) || (OutputSourceFallback <? plan_OutputSource plan)
          || (EstimateQualityKnown <? plan_InputQuality plan) then false
  else
    match InputTokens_Add (plan_Input plan) (inputTokensFromOutput (plan_Output plan)) with
    | Err _ => false
    | Ok sum => InputTokens_Known sum && (InputTokens_Int64 sum =? TotalTokens_Int64 (plan_Total plan))
    end.

Definition PlanBudgetReservation (options : BudgetReservationOptions)
  : result budget_plan_error BudgetReservationPlan :=
  if negb (bo_Required options) then Ok skippedPlan
  else if bool_decide (bo_Model options = []) then Err ErrBudgetModelMissing
  else if bo_MaxModelBytes options <=? 0 then Err ErrBudgetModelInvalid
  else if bo_MaxModelBytes options <? RuneCountInString (bo_Model options) then Err ErrBudgetModelOversized
  else if negb (ValidString (bo_Model options)) || TrimSpace_empty (bo_Model options) then Err ErrBudgetModelInvalid
  else if negb (validateBudgetReservation (bo_Reservation options)) then Err ErrBudgetReservationInvalid
  else
    let pricing := PricingResolver_Resolve (bo_Resolver options) (bo_Model options) in
    if negb (PricingResolution_Known pricing) then Err ErrBudgetPricingUnknown
    else
      match CalculateReservationCost (bo_Reservation options) pricing with
      | Err e => Err (ErrBudgetCostInvalid e)
      | Ok cost =>
          if negb (Money_Known cost) then Err (ErrBudgetCostInvalid [])
          else
            let '(m, _) := Money_Micros cost in
            let rule := PricingResolution_Rule pricing in
            if (negb (inputRate rule =? 0) || negb (outputRate rule =? 0)) && (m <=? 0)
            then Err (ErrBudgetCostInvalid [])
            else
              Ok (mkBudgetPlan cost pricing
                    (mkPricingSource (rule_model rule) (PricingRule_IsExact rule) (rule_position rule))
                    (plan_InputSource (bo_Reservation options)) (plan_OutputSource (bo_Reservation options))
                    (plan_InputQuality (bo_Reservation options)) false)
      end.

(** ** Lemmas *)

Section cost.

(** The price in micros, rounded up once. *)
Definition price (input output inRate outRate : Z) : Z :=
  (input * inRate + output * outRate + 999999) / 1000000.

Lemma quot_ceiling n :
  0 <= n →
  (if negb (Z.rem n MicrosPerUSD =? 0) then Z.quot n MicrosPerUSD + 1 else Z.quot n MicrosPerUSD)
  = (n + 999999) / 1000000.
Proof.
  intros Hn. unfold MicrosPerUSD. rewrite quot_div_nonneg, rem_mod_nonneg by lia.
  destruct (Z.eqb_spec (n mod 1000000) 0); simpl; div_lia.
Qed.

Lemma price_bound n : 0 <= n → n <= MaxMoneyMicros * 1000000 ↔ (n + 999999) / 1000000 <= MaxMoneyMicros.
Proof.
  intros Hn. split; intros H.
  - apply Z.lt_succ_r, Z.div_lt_upper_bound; lia.
  - pose proof (Z.mul_div_le (n + 999999) 1000000 ltac:(lia)).
    pose proof (Z.div_mod (n + 999999) 1000000 ltac:(lia)).
    pose proof (Z.mod_pos_bound (n + 999999) 1000000 ltac:(lia)). lia.
Qed.

Lemma calculateTokenCost_spec input output inRate outRate :
  0 <= input → 0 <= output → 0 <= inRate → 0 <= outRate →
  if price input output inRate outRate <=? MaxMoneyMicros
  then calculateTokenCost input output inRate outRate = Ok (mkMoney (price input output inRate outRate) true)
  else ∃ causes, calculateTokenCost input output inRate outRate = Err causes ∧ ErrCostOverflow ∈ causes.
Proof.
  intros Hi Ho Hir Hor. unfold calculateTokenCost, price.
  rewrite (proj2 (orb_false_iff _ _)) by lia.
  assert (Hp1 : 0 <= input * inRate) by (by apply Z.mul_nonneg_nonneg).
  assert (Hp2 : 0 <= output * outRate) by (by apply Z.mul_nonneg_nonneg).
  pose proof (price_bound (input * inRate + output * outRate) ltac:(lia)) as Hb.
  rewrite quot_ceiling by lia.
  change (MaxMoneyMicros * MicrosPerUSD) with (MaxMoneyMicros * 1000000).
  set (n := input * inRate + output * outRate) in *.
  destruct (Z.leb_spec ((n + 999999) / 1000000) MaxMoneyMicros) as [Hle|Hgt].
  - destruct (Z.ltb_spec (MaxMoneyMicros * 1000000) (input * inRate)); [lia|].
    destruct (Z.ltb_spec (MaxMoneyMicros * 1000000) (output * outRate)); [lia|].
    destruct (Z.ltb_spec (MaxMoneyMicros * 1000000) n); [lia|].
    assert (0 <= (n + 999999) / 1000000) by (apply Z.div_pos; lia).
    rewrite (proj2 (orb_false_iff _ _)) by money_lia.
    unfold NewMoneyMicros. destruct (Z.ltb_spec ((n + 999999) / 1000000) 0); [lia|done].
  - destruct (Z.ltb_spec (MaxMoneyMicros * 1000000) (input * inRate)); [eexists; split; [done|set_solver]|].
    destruct (Z.ltb_spec (MaxMoneyMicros * 1000000) (output * outRate)); [eexists; split; [done|set_solver]|].
    destruct (Z.ltb_spec (MaxMoneyMicros * 1000000) n); [eexists; split; [done|set_solver]|lia].
Qed.

End cost.

Section planning.

Definition input_wf (i : InputTokens) : Prop := count_wf (input_count i).

Lemma NewInputTokens_Ok v : 0 <= v → NewInputTokens v = Ok (mkInput (mkTokenCount v true)).
Proof. intros. unfold NewInputTokens. rewrite NewTokenCount_spec. destruct (Z.leb_spec 0 v); [done|lia]. Qed.
Lemma NewOutputTokens_Ok v : 0 <= v → NewOutputTokens v = Ok (mkOutput (mkTokenCount v true)).
Proof. intros. unfold NewOutputTokens. rewrite NewTokenCount_spec. destruct (Z.leb_spec 0 v); [done|lia]. Qed.

(** The input amount the planner chooses. *)
Definition planned_input (options : ReservationOptions) : Z :=
  if bool_decide (ro_Mode options = ReservationModeEstimate)
     && EstimateQuality_Known (ro_Quality options) && InputTokens_Known (ro_Input options)
  then InputTokens_Int64 (ro_Input options) else ro_UnknownInputFallback options.

Definition first_positive (values : list (option Z)) : option Z :=
  head (omap (λ v, match v with Some z => if 0 <? z then Some z else None | None => None end) values).

Definition output_limits (options : ReservationOptions) : list (option Z) :=
  (if ro_ResponsesEndpoint options then [MaxOutputTokens (ro_Metadata options)] else [])
  ++ [MaxCompletionTokens (ro_Metadata options); MaxTokens (ro_Metadata options)].

(** The output amount: the first positive limit in precedence order. *)
Definition planned_output (options : ReservationOptions) : Z :=
  default (ro_FallbackMaxOutputTokens options) (first_positive (output_limits options)).

Definition limits_nonneg (options : ReservationOptions) : Prop :=
  Forall (λ v, match v with Some z => 0 <= z | None => True end) (output_limits options).

#[export] Instance limits_nonneg_dec options : Decision (limits_nonneg options).
Proof. apply Forall_dec. intros []; apply _. Defined.

Definition options_configured (options : ReservationOptions) : Prop :=
  0 < ro_UnknownInputFallback options <= maxInt64 ∧ 0 < ro_FallbackMaxOutputTokens options <= maxInt64 ∧
  (ro_Mode options = ReservationModeEstimate ∨ ro_Mode options = ReservationModeUsageOnly) ∧
  input_wf (ro_Input options) ∧
  Forall (λ v, match v with Some z => int64 z | None => True end) (output_limits options).

Lemma outputLimitLoop_spec values :
  Forall (λ v, match v with Some z => 0 <= z | None => True end) values →
  outputLimitLoop values =
    (λ z, Ok (mkOutput (mkTokenCount z true), OutputSourceExplicit)) <$> first_positive values.
Proof.
  unfold first_positive. induction 1 as [|[z|] values Hz _ IH]; simpl; [done| |done].
  destruct (Z.eqb_spec z 0) as [->|Hne]; [done|].
  destruct (Z.ltb_spec 0 z); [|lia]. simpl. by rewrite NewOutputTokens_Ok by lia.
Qed.

Lemma first_positive_pos values z : first_positive values = Some z → 0 < z ∧ Some z ∈ values.
Proof.
  unfold first_positive. induction values as [|[v|] values IH]; simpl; [done| |].
  - destruct (Z.ltb_spec 0 v); simpl.
    + intros [= <-]. set_solver.
    + intros H'. destruct (IH H'). set_solver.
  - intros H'. destruct (IH H'). set_solver.
Qed.

Lemma reservationOutput_spec options :
  options_configured options → limits_nonneg options →
  ∃ source, reservationOutput options = Ok (mkOutput (mkTokenCount (planned_output options) true), source) ∧
            OutputSourceExplicit <= source <= OutputSourceFallback.
Proof.
  intros (_ & Hf & _ & _ & _) Hn. unfold reservationOutput, planned_output.
  destruct (Z.leb_spec (ro_FallbackMaxOutputTokens options) 0); [lia|].
  assert (Hneg : existsb (λ value, match value with Some v => v <? 0 | None => false end)
     ([MaxCompletionTokens (ro_Metadata options); MaxTokens (ro_Metadata options)]
      ++ (if ro_ResponsesEndpoint options then [MaxOutputTokens (ro_Metadata options)] else [])) = false).
  { apply not_true_iff_false. rewrite List.existsb_exists. intros ([v|] & Hin & Hv); [|done].
    unfold limits_nonneg, output_limits in Hn. rewrite Forall_forall in Hn.
    assert (0 <= v); [|lia]. apply (Hn (Some v)). apply list_elem_of_In in Hin.
    destruct (ro_ResponsesEndpoint options); set_solver. }
  rewrite Hneg. fold (output_limits options). rewrite outputLimitLoop_spec by done.
  destruct (first_positive (output_limits options)); simpl; [eexists; split; [done|unfold OutputSourceExplicit, OutputSourceFallback; lia]|].
  rewrite NewOutputTokens_Ok by lia. eexists. split; [done|unfold OutputSourceExplicit, OutputSourceFallback; lia].
Qed.

Lemma reservationInput_spec options :
  options_configured options →
  ∃ source, reservationInput options = Ok (mkInput (mkTokenCount (planned_input options) true), source) ∧
            InputSourceEstimate <= source <= InputSourceUnknownFallback.
Proof.
  intros (Hf & _ & Hm & Hi & _). unfold reservationInput, planned_input.
  destruct (Z.leb_spec (ro_UnknownInputFallback options) 0); [lia|].
  rewrite (proj2 (andb_false_iff _ _)) by (destruct Hm as [-> | ->]; [left|right]; by rewrite bool_decide_true).
  destruct (bool_decide (ro_Mode options = ReservationModeEstimate) && EstimateQuality_Known (ro_Quality options)
            && InputTokens_Known (ro_Input options)) eqn:E.
  - apply andb_true_iff in E as [_ Hk]. destruct (ro_Input options) as [ [v k] ].
    unfold InputTokens_Known, TokenCount_Known, InputTokens_Int64, TokenCount_Int64, input_wf, count_wf in *.
    simpl in *. subst k. destruct (Z.ltb_spec v 0); [lia|].
    eexists. split; [done|unfold InputSourceEstimate, InputSourceUnknownFallback; lia].
  - rewrite NewInputTokens_Ok by lia. eexists. split; [done|unfold InputSourceEstimate, InputSourceUnknownFallback; lia].
Qed.

Lemma planned_ranges options :
  options_configured options → limits_nonneg options →
  count_range (planned_input options) ∧ 0 < planned_output options <= maxInt64.
Proof.
  intros (Hf & Ho & _ & Hi & Hl) Hn. split.
  - unfold planned_input, count_range. destruct (_ && _) eqn:E; [|lia].
    apply andb_true_iff in E as [_ Hk]. destruct (ro_Input options) as [ [v k] ].
    unfold InputTokens_Known, TokenCount_Known, InputTokens_Int64, TokenCount_Int64, input_wf, count_wf in *.
    simpl in *. by subst k.
  - unfold planned_output. destruct (first_positive _) as [z|] eqn:F; simpl; [|lia].
    apply first_positive_pos in F as [F1 F2]. rewrite Forall_forall in Hl.
    specialize (Hl _ F2). simpl in Hl. lia64.
Qed.

Lemma PlanReservation_eq options :
  options_configured options → limits_nonneg options →
  ∃ isrc osrc, InputSourceEstimate <= isrc <= InputSourceUnknownFallback ∧
    OutputSourceExplicit <= osrc <= OutputSourceFallback ∧
  PlanReservation options =
    if maxInt64 <? planned_input options + planned_output options
    then Err (ErrReservationOverflow ErrCountOverflow)
    else Ok (mkPlan (mkInput (mkTokenCount (planned_input options) true))
                    (mkOutput (mkTokenCount (planned_output options) true))
                    (mkTotal (mkTokenCount (planned_input options + planned_output options) true))
                    (ro_Quality options) isrc osrc).
Proof.
  intros Hc Hn. destruct (planned_ranges options Hc Hn) as [Hi Ho].
  destruct (reservationInput_spec options Hc) as (isrc & EI & HI).
  destruct (reservationOutput_spec options Hc Hn) as (osrc & EO & HO).
  exists isrc, osrc. split; [done|]. split; [done|].
  unfold PlanReservation. rewrite EI, EO. simpl. unfold inputTokensFromOutput, OutputTokens_Int64. simpl.
  rewrite NewInputTokens_Ok by (simpl; lia). rewrite InputTokens_Add_known by (done || unfold count_range; simpl; lia).
  unfold TokenCount_Int64. simpl.
  destruct (Z.ltb_spec maxInt64 (planned_input options + planned_output options)); [done|].
  unfold InputTokens_Known, InputTokens_Int64, TokenCount_Known, TokenCount_Int64, totalTokensFromInput, NewTotalTokens. simpl.
  unfold count_range in Hi.
  destruct (Z.leb_spec (planned_input options + planned_output options) 0); [lia|]. simpl.
  unfold InputTokens_Int64, TokenCount_Int64. simpl. rewrite NewTokenCount_spec.
  destruct (Z.leb_spec 0 (planned_input options + planned_output options)); [done|lia].
Qed.

Lemma PlanReservation_negative options :
  options_configured options → ¬ limits_nonneg options →
  PlanReservation options = Err ErrReservationUnavailable.
Proof.
  intros Hc Hn. unfold PlanReservation.
  destruct (reservationInput_spec options Hc) as (isrc & -> & _). simpl.
  destruct Hc as (_ & Hf & _). unfold reservationOutput.
  destruct (Z.leb_spec (ro_FallbackMaxOutputTokens options) 0); [lia|].
  rewrite (proj2 (List.existsb_exists _ _)); [done|].
  unfold limits_nonneg in Hn. apply not_Forall_Exists in Hn; [|intros []; apply _].
  apply Exists_exists in Hn as ([z|] & Hin & Hz); simpl in Hz; [|done].
  exists (Some z). split; [|lia]. apply list_elem_of_In. unfold output_limits in Hin.
  destruct (ro_ResponsesEndpoint options); set_solver.
Qed.

End planning.

Section budget_planning.

(** What a valid plan is. *)
Lemma validateBudgetReservation_true plan :
  count_wf (input_count (plan_Input plan)) → count_wf (output_count (plan_Output plan)) →
  validateBudgetReservation plan = true →
  ∃ i o, plan_Input plan = mkInput (mkTokenCount i true) ∧ plan_Output plan = mkOutput (mkTokenCount o true) ∧
         0 <= i ∧ 0 <= o ∧ 0 < i + o <= maxInt64 ∧ TotalTokens_Int64 (plan_Total plan) = i + o.
Proof.
  destruct plan as [ [ [i ik] ] [ [o ok] ] [ [t tk] ] q si so]. simpl. unfold count_wf. simpl. intros Hi Ho.
  unfold validateBudgetReservation, InputTokens_Known, OutputTokens_Known, TotalTokens_Known, InputTokens_Int64,
    OutputTokens_Int64, TotalTokens_Int64, TokenCount_Known, TokenCount_Int64. simpl.
  destruct ik, ok, tk; try done. simpl. destruct ((i <? 0) || (o <? 0) || (t <=? 0)) eqn:E1; [done|].
  case_match; [done|]. unfold inputTokensFromOutput, OutputTokens_Int64, TokenCount_Int64. simpl.
  rewrite NewInputTokens_Ok by lia. rewrite InputTokens_Add_known by (unfold count_range; lia).
  destruct (Z.ltb_spec maxInt64 (i + o)); [done|]. simpl. intros Ht.
  exists i, o. split_and!; try done; lia.
Qed.

Lemma CalculateReservationCost_known i o plan pricing :
  plan_Input plan = mkInput (mkTokenCount i true) → plan_Output plan = mkOutput (mkTokenCount o true) →
  PricingResolution_Known pricing = true →
  CalculateReservationCost plan pricing =
    calculateTokenCost i o (inputRate (res_rule pricing)) (outputRate (res_rule pricing)).
Proof.
  intros Hi Ho Hp. unfold CalculateReservationCost. rewrite Hp, Hi, Ho. done.
Qed.

Lemma select_rule_In rules model rule : select_rule rules model = Some rule → In rule rules ∧ PricingRule_Matches rule model = true.
Proof.
  unfold select_rule. destruct (List.find _ rules) eqn:F.
  - intros [= <-]. apply List.find_some in F as [? F]. by apply andb_true_iff in F as [_ ?].
  - intros F2. apply List.find_some in F2 as [? F2]. by apply andb_true_iff in F2 as [_ ?].
Qed.

End budget_planning.

(** ** Properties *)

(** for non-negative counts and rates the token cost is the exact sum
    [input*inRate + output*outRate] divided by one million and rounded up once;
    it is an overflow error exactly when that price exceeds the largest
    representable amount. *)
Theorem token_cost_exact input output inRate outRate :
  0 <= input → 0 <= output → 0 <= inRate → 0 <= outRate →
  if price input output inRate outRate <=? MaxMoneyMicros
  then calculateTokenCost input output inRate outRate = Ok (mkMoney (price input output inRate outRate) true)
  else ∃ causes, calculateTokenCost input output inRate outRate = Err causes ∧ ErrCostOverflow ∈ causes.
Proof. apply calculateTokenCost_spec. Qed.

Lemma token_cost_exact_witness :
  calculateTokenCost 9223372036854775807 0 1000000 0 = Ok (mkMoney 9223372036854775807 true) ∧
  calculateTokenCost 3 5 100 200 = Ok (mkMoney 1 true).
Proof.
  split.
  - pose proof (token_cost_exact 9223372036854775807 0 1000000 0 ltac:(lia) ltac:(lia) ltac:(lia) ltac:(lia)) as H.
    exact H.
  - pose proof (token_cost_exact 3 5 100 200 ltac:(lia) ltac:(lia) ltac:(lia) ltac:(lia)) as H. exact H.
Defined.

(** with a valid configuration the reservation planner is total and safe:
    a negative client limit makes the plan unavailable, a total beyond the
    count range is an overflow error, and otherwise the plan reserves exactly
    the chosen input plus the first positive output limit in precedence order
    (responses limit, completion limit, legacy limit, fallback), never zero. *)
Theorem PlanReservation_safe options :
  options_configured options →
  (¬ limits_nonneg options ∧ PlanReservation options = Err ErrReservationUnavailable) ∨
  (limits_nonneg options ∧ maxInt64 < planned_input options + planned_output options ∧
   PlanReservation options = Err (ErrReservationOverflow ErrCountOverflow)) ∨
  (limits_nonneg options ∧ ∃ plan, PlanReservation options = Ok plan ∧
   InputTokens_Int64 (plan_Input plan) = planned_input options ∧
   OutputTokens_Int64 (plan_Output plan) = planned_output options ∧
   TotalTokens_Int64 (plan_Total plan) = planned_input options + planned_output options ∧
   0 < TotalTokens_Int64 (plan_Total plan) <= maxInt64 ∧ validateBudgetReservation plan =
     (plan_InputQuality plan <=? EstimateQualityKnown)).
Proof.
  intros Hc. destruct (decide (limits_nonneg options)) as [Hn|Hn].
  2:{ left. split; [done|]. by apply PlanReservation_negative. }
  right. destruct (PlanReservation_eq options Hc Hn) as (isrc & osrc & HI & HO & E).
  destruct (planned_ranges options Hc Hn) as [Hi Ho]. unfold count_range in Hi.
  destruct (Z.ltb_spec maxInt64 (planned_input options + planned_output options)); [by left|].
  right. split; [done|]. eexists. split; [exact E|].
  unfold TotalTokens_Int64, InputTokens_Int64, OutputTokens_Int64, TokenCount_Int64. simpl.
  split_and!; try done; try lia.
  unfold validateBudgetReservation, InputTokens_Known, OutputTokens_Known, TotalTokens_Known, InputTokens_Int64,
    OutputTokens_Int64, TotalTokens_Int64, inputTokensFromOutput, OutputTokens_Int64, TokenCount_Known, TokenCount_Int64. simpl.
  rewrite (proj2 (orb_false_iff _ _)) by lia.
  rewrite NewInputTokens_Ok by lia. rewrite InputTokens_Add_known by (unfold count_range; lia).
  destruct (Z.ltb_spec maxInt64 (planned_input options + planned_output options)); [lia|]. simpl.
  rewrite Z.eqb_refl. unfold InputSourceUnknownFallback, OutputSourceFallback, InputSourceEstimate, OutputSourceExplicit in *.
  destruct (Z.ltb_spec EstimateQualityKnown (ro_Quality options)), (Z.leb_spec (ro_Quality options) EstimateQualityKnown);
    try lia; by rewrite ?orb_true_r, ?(proj2 (orb_false_iff _ _)) by lia.
Qed.

Definition demo_options : ReservationOptions :=
  mkResOptions ReservationModeEstimate 4096 1024 true (mkMetadata (Some 7) None (Some 0))
    (mkInput (mkTokenCount 10 true)) EstimateQualityKnown.

Lemma PlanReservation_safe_witness :
  ∃ plan, PlanReservation demo_options = Ok plan ∧ TotalTokens_Int64 (plan_Total plan) = 17.
Proof.
  destruct (PlanReservation_safe demo_options) as [[_ H]|[(_ & H & _)|(_ & plan & H & _ & _ & Ht & _)]].
  - repeat split; simpl; unfold maxInt64; try lia; [by left|]. repeat constructor; unfold minInt64, maxInt64; lia.
  - discriminate H.
  - exfalso. vm_compute in H. discriminate H.
  - exists plan. split; [exact H|]. rewrite Ht. reflexivity.
Defined.

(** a required budget reservation that is planned prices the plan with the
    rule the table selects for the model: the reserved amount is that rule's
    exact price, representable, and positive unless the rule is entirely free. *)
Theorem PlanBudgetReservation_safe options pricing plan :
  bo_Required options = true → rules_wf (PricingConfig_Rules pricing) →
  bo_Resolver options = NewPricingResolver pricing →
  count_wf (input_count (plan_Input (bo_Reservation options))) →
  count_wf (output_count (plan_Output (bo_Reservation options))) →
  PlanBudgetReservation options = Ok plan →
  ∃ rule, select_rule (PricingConfig_Rules pricing) (bo_Model options) = Some rule ∧
    PricingRule_Matches rule (bo_Model options) = true ∧
    bp_Reservation plan = mkMoney (price (InputTokens_Int64 (plan_Input (bo_Reservation options)))
                                         (OutputTokens_Int64 (plan_Output (bo_Reservation options)))
                                         (inputRate rule) (outputRate rule)) true ∧
    amount_range (micros (bp_Reservation plan)) ∧
    (inputRate rule ≠ 0 ∨ outputRate rule ≠ 0 → 0 < micros (bp_Reservation plan)) ∧
    bp_Skipped plan = false.
Proof.
  intros Hreq Hwf Hres Hi Ho H. unfold PlanBudgetReservation in H. rewrite Hreq in H. simpl in H.
  destruct (bool_decide (bo_Model options = [])) eqn:E1; [done|]. apply bool_decide_eq_false in E1.
  destruct (_ <=? 0); [done|]. destruct (_ <? _); [done|].
  destruct (negb (ValidString _) || _) eqn:E2; [done|]. apply orb_false_iff in E2 as [E2 _].
  apply negb_false_iff in E2.
  destruct (validateBudgetReservation (bo_Reservation options)) eqn:V; [|done]. simpl in H.
  destruct (validateBudgetReservation_true _ Hi Ho V) as (i & o & EI & EO & Hi0 & Ho0 & Hio & _).
  rewrite Hres, Resolve_select in H by done.
  destruct (select_rule (PricingConfig_Rules pricing) (bo_Model options)) as [rule|] eqn:S; [|done].
  destruct (select_rule_In _ _ _ S) as [Hin Hm]. simpl in H.
  erewrite CalculateReservationCost_known in H by done. simpl in H.
  destruct Hwf as (Hwf & _). rewrite Forall_forall in Hwf.
  destruct (Hwf rule) as (_ & _ & _ & Hri & Hro); [by apply list_elem_of_In|].
  pose proof (calculateTokenCost_spec i o (inputRate rule) (outputRate rule) Hi0 Ho0 ltac:(apply Hri) ltac:(apply Hro)) as HC.
  destruct (Z.leb_spec (price i o (inputRate rule) (outputRate rule)) MaxMoneyMicros).
  2:{ destruct HC as (causes & HC & _). by rewrite HC in H. }
  rewrite HC in H. simpl in H. destruct (_ && _) eqn:E3; [done|]. injection H as <-. simpl.
  exists rule. rewrite EI, EO. unfold InputTokens_Int64, OutputTokens_Int64, TokenCount_Int64. simpl.
  assert (0 <= price i o (inputRate rule) (outputRate rule)).
  { unfold price. apply Z.div_pos; [|lia]. unfold amount_range in *. nia. }
  split_and!; try done; lia.
Qed.

Definition demo_pricing : PricingConfig :=
  match demo_load demo_doc with Ok p => p | Err _ => mkPricingConfig None end.
Definition demo_plan : ReservationPlan :=
  mkPlan (mkInput (mkTokenCount 100000 true)) (mkOutput (mkTokenCount 50000 true))
    (mkTotal (mkTokenCount 150000 true)) 1 0 0.
Definition demo_budget_options : BudgetReservationOptions :=
  mkBudgetOptions true (str "gpt-4") 256 demo_plan (NewPricingResolver demo_pricing).

Lemma PlanBudgetReservation_safe_witness :
  ∃ plan, PlanBudgetReservation demo_budget_options = Ok plan ∧ 0 < micros (bp_Reservation plan).
Proof.
  destruct (PlanBudgetReservation demo_budget_options) as [plan|] eqn:E; [|vm_compute in E; discriminate].
  exists plan. split; [reflexivity|].
  destruct (PlanBudgetReservation_safe demo_budget_options demo_pricing plan) as (rule & S & _ & _ & _ & Hpos & _);
    try reflexivity; try done.
  - unfold demo_pricing. destruct (demo_load demo_doc) as [p|] eqn:L; [|vm_compute in L; discriminate].
    exact (UnmarshalYAML_wf _ _ _ _ _ _ _ _ L).
  - apply Hpos. vm_compute in S. injection S as <-. left. discriminate.
Defined.
