(* ===== verification/Windows.v ===== *)
(** * Fixed windows and checked arithmetic of the limiters

    The helpers shared by [internal/limiter/request.go] and [token.go]: window
    alignment, resets, retry delays and window normalization.  Windows come
    from [internal/auth/policy.go]. *)

From Stdlib Require Import ZArith Lia ZifyBool.
From stdpp Require Import prelude gmap strings list sorting.
From S2P Require Import Prelude.
Local Open Scope Z_scope.

(** [auth.RequestWindow] / [auth.TokenWindow] and the normalized map keys
    [requestWindowKey] / [tokenWindowKey]: an amount per duration. *)
Record windowKey := mkWindow { amount : Z; duration : Z }.

#[export] Instance windowKey_eq_dec : EqDecision windowKey.
Proof. solve_decision. Defined.
#[export] Instance windowKey_countable : Countable windowKey.
Proof.
  refine (inj_countable' (λ w, (amount w, duration w)) (λ p, mkWindow p.1 p.2) _).
  by intros [].
Defined.

(** ** Checked arithmetic ([token.go]) *)

Definition checkedNonNegativeAdd (left right : Z) : Z * bool :=
  if (left <? 0) || (right <? 0) || (sub64 maxInt64 right <? left) then (0, false)
  else (add64 left right, true).

Definition checkedSignedAdd (left right : Z) : Z * bool :=
  if (0 <? right) && (sub64 maxInt64 right <? left) then (0, false)
  else if (right <? 0) && (left <? sub64 minInt64 right) then (0, false)
  else (add64 left right, true).

(** ** Window alignment *)

(** [FixedWindowStart] goes through [UnixNano], which wraps outside 1678-2262. *)
Definition FixedWindowStart (now d : Z) : Z :=
  if d <=? 0 then zeroTime
  else
    let nanos := UnixNano now in
    let width := d in
    let remainder := Z.rem nanos width in
    let remainder := if remainder <? 0 then add64 remainder width else remainder in
    sub64 nanos remainder.

(** [fixedWindowStartChecked] takes seconds and nanoseconds apart; both bounds
    are computed in [int64]. *)
Definition fixedWindowStartChecked (now d : Z) : Z * bool :=
  if d <=? 0 then (zeroTime, false)
  else
    let seconds := Unix now in
    let nanoseconds := Nanosecond now in
    if (Z.quot (sub64 maxInt64 nanoseconds) second <? seconds)
       || (seconds <? Z.quot (sub64 minInt64 nanoseconds) second)
    then (zeroTime, false)
    else
      let nanos := add64 (mul64 seconds second) nanoseconds in
      if nanos =? minInt64 then (zeroTime, false)
      else
        let width := d in
        let remainder := Z.rem nanos width in
        let remainder := if remainder <? 0 then add64 remainder width else remainder in
        let '(start, ok) := checkedSignedAdd nanos (- remainder) in
        if negb ok then (zeroTime, false) else (start, true).

Definition checkedWindowReset (start d : Z) : Z * bool :=
  let nanos := UnixNano start in
  let '(added, ok) := checkedSignedAdd nanos d in
  if negb ok then (zeroTime, false) else (added, true).

(** ** Retry delays *)

Definition RetryAfterSecondsAt (now resetAt : Z) : Z :=
  let delta := Sub resetAt now in
  if delta <=? 0 then 1
  else
    let seconds := Z.quot delta second in
    let seconds := if negb (Z.rem delta second =? 0) then add64 seconds 1 else seconds in
    if maxInt64 <? seconds then maxInt64
    else if seconds <? 1 then 1
    else seconds.

(** ** Normalization *)

Definition window_less (a b : windowKey) : bool :=
  if negb (duration a =? duration b) then duration a <? duration b else amount a <? amount b.

Fixpoint normalizeLoop (windows : list windowKey) (seen : list windowKey) : option (list windowKey) :=
  match windows with
  | [] => Some []
  | w :: rest =>
      if (amount w <=? 0) || (duration w <=? 0) then None
      else if bool_decide (w ∈ seen) then None
      else (w ::.) <$> normalizeLoop rest (w :: seen)
  end.

(** [normalizeWindows] returns nil for an invalid list; the caller compares
    lengths to notice it. *)
Definition normalizeWindows (windows : list windowKey) : list windowKey :=
  match normalizeLoop windows [] with
  | Some ws => sort_slice window_less ws
  | None => []
  end.

Definition normalizeTokenWindows (windows : list windowKey) : list windowKey * bool :=
  match normalizeLoop windows [] with
  | Some ws => (sort_slice window_less ws, true)
  | None => ([], false)
  end.

(** ** Lemmas *)

Definition window_wf (w : windowKey) : Prop := 0 < amount w <= maxInt64 ∧ 0 < duration w <= maxInt64.

(** The instants of the deployed clock: from the epoch to 2262. *)
Definition clock_range (t : Z) : Prop := 0 <= t <= maxInt64.

Section arithmetic.

Lemma checkedNonNegativeAdd_spec a b :
  int64 a → int64 b →
  checkedNonNegativeAdd a b =
    if (0 <=? a) && (0 <=? b) && (a + b <=? maxInt64) then (a + b, true) else (0, false).
Proof.
  intros Ha Hb. unfold checkedNonNegativeAdd.
  destruct (Z.ltb_spec a 0), (Z.leb_spec 0 a); try lia; simpl; [done|].
  destruct (Z.ltb_spec b 0), (Z.leb_spec 0 b); try lia; simpl; [done|].
  rewrite sub64_id by lia64.
  destruct (Z.ltb_spec (maxInt64 - b) a), (Z.leb_spec (a + b) maxInt64); try lia; [done|].
  by rewrite add64_id by lia64.
Qed.

Lemma checkedSignedAdd_spec a b :
  int64 a → int64 b →
  checkedSignedAdd a b = if (minInt64 <=? a + b) && (a + b <=? maxInt64) then (a + b, true) else (0, false).
Proof.
  intros Ha Hb. unfold checkedSignedAdd.
  destruct (Z.ltb_spec 0 b); simpl.
  - rewrite sub64_id by lia64. destruct (Z.ltb_spec b 0); [lia|]. simpl.
    destruct (Z.ltb_spec (maxInt64 - b) a), (Z.leb_spec (a + b) maxInt64), (Z.leb_spec minInt64 (a + b));
      try lia64; simpl; [done|]. by rewrite add64_id by lia64.
  - destruct (Z.ltb_spec b 0); simpl.
    + assert (sub64 minInt64 b = minInt64 - b) as -> by (apply sub64_id; lia64).
      destruct (Z.ltb_spec a (minInt64 - b)), (Z.leb_spec (a + b) maxInt64), (Z.leb_spec minInt64 (a + b));
        try lia64; simpl; [done|]. by rewrite add64_id by lia64.
    + destruct (Z.leb_spec (a + b) maxInt64), (Z.leb_spec minInt64 (a + b)); try lia64. simpl.
      by rewrite add64_id by lia64.
Qed.

End arithmetic.

Section alignment.

(** The start of the epoch-aligned window that contains [now]. *)
Definition window_start (now d : Z) : Z := now - now mod d.

Lemma window_start_spec now d :
  0 < d → window_start now d <= now < window_start now d + d.
Proof. intros Hd. unfold window_start. pose proof (Z.mod_pos_bound now d Hd). lia. Qed.

Lemma window_start_divides now d : 0 < d → window_start now d mod d = 0.
Proof.
  intros Hd. unfold window_start. rewrite Zminus_mod, Zmod_mod, Z.sub_diag. by rewrite Z.mod_0_l by lia.
Qed.

Lemma window_start_mono a b d : 0 < d → a <= b → window_start a d <= window_start b d.
Proof.
  intros Hd H. unfold window_start.
  pose proof (Z.div_mod a d ltac:(lia)). pose proof (Z.div_mod b d ltac:(lia)).
  pose proof (Z.div_le_mono a b d Hd H). nia.
Qed.

Lemma window_start_same now t d :
  0 < d → window_start now d <= t < window_start now d + d → window_start t d = window_start now d.
Proof.
  intros Hd Ht. pose proof (window_start_divides now d Hd) as H0.
  unfold window_start at 1. set (s := window_start now d) in *.
  replace (t mod d) with (t - s); [lia|].
  apply Z.mod_divide in H0 as [q Hq]; [|lia]. apply (Z.mod_unique_pos t d q); lia.
Qed.

Lemma window_start_nonneg now d : 0 < d → 0 <= now → 0 <= window_start now d.
Proof.
  intros Hd Hn. unfold window_start. pose proof (Z.mod_le now d Hn Hd). lia.
Qed.

Lemma FixedWindowStart_eq now d :
  clock_range now → 0 < d <= maxInt64 → FixedWindowStart now d = window_start now d.
Proof.
  intros Hn Hd. unfold clock_range in Hn. unfold FixedWindowStart.
  destruct (Z.leb_spec d 0); [lia|]. rewrite UnixNano_exact by (unfold unix_range; lia64).
  rewrite rem_mod_nonneg by lia. pose proof (Z.mod_pos_bound now d ltac:(lia)).
  destruct (Z.ltb_spec (now mod d) 0); [lia|].
  pose proof (window_start_nonneg now d ltac:(lia) ltac:(lia)).
  unfold window_start in *. rewrite sub64_id by lia64. done.
Qed.

(** At a whole second the checked alignment computes the window start... *)
Lemma fixedWindowStartChecked_whole now d :
  clock_range now → now mod second = 0 → 0 < d <= maxInt64 →
  fixedWindowStartChecked now d = (window_start now d, true).
Proof.
  intros Hn Hs Hd. unfold clock_range, maxInt64 in Hn. unfold fixedWindowStartChecked, Unix, Nanosecond.
  destruct (Z.leb_spec d 0); [lia|]. rewrite Hs.
  pose proof (Z.div_mod now second ltac:(unfold second; lia)) as E. rewrite Hs in E.
  change (Z.quot (sub64 maxInt64 0) second) with 9223372036.
  change (Z.quot (sub64 minInt64 0) second) with (-9223372036).
  assert (0 <= now / second <= 9223372036).
  { unfold second in *. split; [apply Z.div_pos; lia|]. apply Z.lt_succ_r, Z.div_lt_upper_bound; lia. }
  rewrite (proj2 (orb_false_iff _ _)) by lia.
  rewrite mul64_id by (unfold second in *; lia64). rewrite add64_id by (unfold second in *; lia64).
  replace (now / second * second + 0) with now by lia.
  destruct (Z.eqb_spec now minInt64); [lia64|].
  rewrite rem_mod_nonneg by lia. pose proof (Z.mod_pos_bound now d ltac:(lia)).
  destruct (Z.ltb_spec (now mod d) 0); [lia|].
  pose proof (window_start_nonneg now d ltac:(lia) ltac:(lia)). unfold window_start in *.
  rewrite checkedSignedAdd_spec by lia64.
  rewrite (proj2 (andb_true_iff _ _)) by lia64. simpl. f_equal.
Qed.

(** ... and within a second it rejects every instant before 2262, because the
    lower bound [minInt64 - nanoseconds] wraps around to a positive number. *)
Lemma fixedWindowStartChecked_fraction now d :
  clock_range now → now mod second ≠ 0 → now < 9223372035000000000 →
  fixedWindowStartChecked now d = (zeroTime, false).
Proof.
  intros Hn Hs Hlt. unfold clock_range in Hn. unfold fixedWindowStartChecked, Unix, Nanosecond.
  destruct (Z.leb_spec d 0); [done|].
  assert (Hm : 0 < now mod second < second).
  { pose proof (Z.mod_pos_bound now second ltac:(unfold second; lia)). lia. }
  assert (E : sub64 minInt64 (now mod second) = 9223372036854775808 - now mod second).
  { unfold sub64, wrap64, minInt64, second in *. symmetry.
    replace (-9223372036854775808 - now mod 1000000000 + 9223372036854775808)
      with (- (now mod 1000000000)) by lia.
    replace ((- (now mod 1000000000)) mod 18446744073709551616)
      with (18446744073709551616 - now mod 1000000000); [lia|].
    apply (Z.mod_unique_pos _ _ (-1)); lia. }
  rewrite E.
  assert (Hq : 9223372035 <= Z.quot (9223372036854775808 - now mod second) second).
  { rewrite quot_div_nonneg by (unfold second in *; lia). apply Z.div_le_lower_bound; unfold second in *; lia. }
  assert (now / second < 9223372035) by (apply Z.div_lt_upper_bound; unfold second in *; lia).
  rewrite (proj2 (orb_true_iff _ _)); [done|]. right. lia.
Qed.

(** Whenever the checked alignment succeeds it is right. *)
Lemma fixedWindowStartChecked_true now d start :
  clock_range now → d <= maxInt64 → fixedWindowStartChecked now d = (start, true) →
  start = window_start now d ∧ 0 < d.
Proof.
  intros Hn Hdm H. unfold clock_range in Hn. unfold fixedWindowStartChecked in H.
  destruct (Z.leb_spec d 0); [done|]. split; [|done]. case_match; [done|].
  pose proof (Z.div_mod now second ltac:(done)) as E.
  assert (Hd : 0 <= now / second) by (apply Z.div_pos; [lia|done]).
  pose proof (Z.mod_pos_bound now second ltac:(done)).
  unfold Unix, Nanosecond in H.
  rewrite mul64_id in H by (unfold second in *; lia64). rewrite add64_id in H by (unfold second in *; lia64).
  replace (now / second * second + now mod second) with now in H by lia.
  destruct (Z.eqb_spec now minInt64); [done|].
  rewrite rem_mod_nonneg in H by lia. pose proof (Z.mod_pos_bound now d ltac:(lia)).
  destruct (Z.ltb_spec (now mod d) 0); [lia|].
  pose proof (window_start_nonneg now d ltac:(lia) ltac:(lia)). unfold window_start in *.
  rewrite checkedSignedAdd_spec in H by lia64.
  rewrite (proj2 (andb_true_iff _ _)) in H by lia64. simpl in H. injection H as <-. lia.
Qed.

Lemma checkedWindowReset_eq start d :
  0 <= start <= maxInt64 → 0 < d <= maxInt64 →
  checkedWindowReset start d = if start + d <=? maxInt64 then (start + d, true) else (zeroTime, false).
Proof.
  intros Hs Hd. unfold checkedWindowReset. rewrite UnixNano_exact by (unfold unix_range; lia64).
  rewrite checkedSignedAdd_spec by lia64.
  destruct (Z.leb_spec (start + d) maxInt64), (Z.leb_spec minInt64 (start + d)); simpl; lia64 || done.
Qed.

End alignment.

Section normalization.

Lemma normalizeLoop_spec windows seen out :
  normalizeLoop windows seen = Some out →
  out = windows ∧ Forall (λ w, 0 < amount w ∧ 0 < duration w) windows ∧ NoDup windows ∧
  (∀ w, w ∈ windows → w ∉ seen).
Proof.
  revert seen out. induction windows as [|w ws IH]; intros seen out H; simpl in H.
  { simplify_eq. repeat split; constructor || set_solver. }
  destruct ((amount w <=? 0) || (duration w <=? 0)) eqn:E; [done|].
  case_bool_decide as Hs; [done|].
  apply fmap_Some in H as (out' & H & ->). apply IH in H as (-> & F & N & D).
  split; [done|]. split; [constructor; [lia|done]|].
  split; [constructor; [|done]; set_solver|]. set_solver.
Qed.

Lemma normalizeLoop_complete windows seen :
  Forall (λ w, 0 < amount w ∧ 0 < duration w) windows → NoDup windows →
  (∀ w, w ∈ windows → w ∉ seen) → normalizeLoop windows seen = Some windows.
Proof.
  revert seen. induction windows as [|w ws IH]; intros seen F N D; [done|]. simpl.
  apply Forall_cons in F as [F1 F2]. apply NoDup_cons in N as [N1 N2].
  rewrite (proj2 (orb_false_iff _ _)) by lia.
  rewrite bool_decide_false by (apply D; set_solver).
  rewrite IH; [done|done|done|set_solver].
Qed.

(** Valid window lists: positive and pairwise distinct. *)
Definition windows_ok (windows : list windowKey) : Prop := Forall window_wf windows ∧ NoDup windows.

#[export] Instance windows_ok_dec windows : Decision (windows_ok windows).
Proof. unfold windows_ok, window_wf. apply _. Defined.

Definition windows_int64 (windows : list windowKey) : Prop :=
  Forall (λ w, amount w <= maxInt64 ∧ duration w <= maxInt64) windows.

Lemma normalizeTokenWindows_spec windows ws ok :
  windows_int64 windows → normalizeTokenWindows windows = (ws, ok) →
  if ok then ws ≡ₚ windows ∧ windows_ok ws ∧ windows_ok windows else ws = [] ∧ ¬ windows_ok windows.
Proof.
  intros Hi. unfold normalizeTokenWindows. destruct (normalizeLoop windows []) as [out|] eqn:E; intros [= <- <-].
  - apply normalizeLoop_spec in E as (-> & F & N & _).
    assert (Hok : windows_ok windows).
    { split; [|done]. unfold windows_int64, window_wf in *. rewrite Forall_forall in *. naive_solver lia. }
    split; [apply sort_slice_Permutation|]. split; [|done]. unfold windows_ok.
    by rewrite (sort_slice_Permutation window_less windows).
  - split; [done|]. intros [F N]. rewrite normalizeLoop_complete in E; [done| |done|set_solver].
    eapply Forall_impl; [exact F|]. unfold window_wf. simpl. lia.
Qed.

Lemma normalizeTokenWindows_ok windows :
  windows_ok windows → ∃ ws, normalizeTokenWindows windows = (ws, true) ∧ ws ≡ₚ windows ∧ windows_ok ws.
Proof.
  intros [F N]. unfold normalizeTokenWindows. rewrite normalizeLoop_complete; [|eapply Forall_impl; [exact F|]; unfold window_wf; simpl; lia|done|set_solver].
  eexists. split; [done|]. split; [apply sort_slice_Permutation|]. unfold windows_ok.
  by rewrite (sort_slice_Permutation window_less windows).
Qed.

Lemma normalizeWindows_ok windows :
  windows_ok windows → normalizeWindows windows ≡ₚ windows.
Proof.
  intros H. destruct (normalizeTokenWindows_ok windows H) as (ws & E & P & _).
  unfold normalizeTokenWindows, normalizeWindows in *. destruct (normalizeLoop windows []); [|done].
  by injection E as ->.
Qed.

Lemma normalizeWindows_bad windows :
  windows_int64 windows → ¬ windows_ok windows → normalizeWindows windows = [].
Proof.
  intros Hi Hn. unfold normalizeWindows. destruct (normalizeTokenWindows windows) as [ws ok] eqn:E.
  pose proof (normalizeTokenWindows_spec _ _ _ Hi E) as H. destruct ok; [by destruct H as (_ & _ & ?)|].
  unfold normalizeTokenWindows in E. by destruct (normalizeLoop windows []).
Qed.

Lemma windows_ok_int64 windows : windows_ok windows → windows_int64 windows.
Proof. intros [F _]. eapply Forall_impl; [exact F|]. unfold window_wf. simpl. lia. Qed.

End normalization.

(** ** Properties *)

(** a retry delay is at least one second and is the exact remaining time
    rounded up to whole seconds (for any reset within the duration range). *)
Theorem RetryAfterSecondsAt_ceiling now resetAt :
  resetAt - now <= maxInt64 →
  1 <= RetryAfterSecondsAt now resetAt ∧
  (now < resetAt →
   resetAt <= now + RetryAfterSecondsAt now resetAt * second ∧
   now + (RetryAfterSecondsAt now resetAt - 1) * second < resetAt).
Proof.
  intros H. unfold RetryAfterSecondsAt, Sub.
  destruct (Z.leb_spec (Z.max minInt64 (Z.min maxInt64 (resetAt - now))) 0); [lia64|].
  replace (Z.max minInt64 (Z.min maxInt64 (resetAt - now))) with (resetAt - now) by lia64.
  set (delta := resetAt - now) in *. assert (0 < delta) by lia64.
  rewrite quot_div_nonneg, rem_mod_nonneg by (unfold second; lia).
  pose proof (Z.div_mod delta second ltac:(done)). pose proof (Z.mod_pos_bound delta second ltac:(done)).
  assert (0 <= delta / second) by (apply Z.div_pos; [lia|done]).
  assert (delta / second <= 9223372036).
  { apply Z.lt_succ_r, Z.div_lt_upper_bound; unfold second, maxInt64 in *; lia. }
  rewrite add64_id by lia64.
  destruct (Z.eqb_spec (delta mod second) 0) as [E|E]; simpl;
    repeat match goal with |- context [?a <? ?b] => destruct (Z.ltb_spec a b) end; unfold second in *; lia64.
Qed.

Lemma RetryAfterSecondsAt_ceiling_witness : 1 <= RetryAfterSecondsAt 0 1500000000 <= 2.
Proof.
  destruct (RetryAfterSecondsAt_ceiling 0 1500000000) as [H1 H2]; [unfold maxInt64; lia|].
  split; [exact H1|]. vm_compute. discriminate.
Defined.
