(* ===== verification/RequestLimiter.v ===== *)
(** * The request-count limiter ([internal/limiter/request.go])

    Fixed windows of admitted requests per key.  Every operation runs under
    the limiter's mutex, so one call is one atomic step; the reading of the
    injected clock is an argument of the step.  Receivers are non-nil. *)

From Stdlib Require Import ZArith Lia ZifyBool.
From stdpp Require Import prelude gmap strings list.
From S2P Require Import Prelude Windows.
Local Open Scope Z_scope.

Record counterKey := mkCounterKey { ck_keyID : string; ck_window : windowKey }.

#[export] Instance counterKey_eq_dec : EqDecision counterKey.
Proof. solve_decision. Defined.
#[export] Instance counterKey_countable : Countable counterKey.
Proof.
  refine (inj_countable' (λ k, (ck_keyID k, ck_window k)) (λ p, mkCounterKey p.1 p.2) _).
  by intros [].
Defined.

Record windowCounter := mkCounter { counter_start : Z; counter_count : Z }.

Record RequestLimiter := mkRequestLimiter {
  counts : gmap counterKey windowCounter;
  rl_lastNow : Z;
}.

Definition NewRequestLimiter : RequestLimiter := mkRequestLimiter ∅ zeroTime.

(** [currentTimeLocked]: the clock reading, held at the last one if it moved
    backwards. *)
Definition RequestLimiter_currentTimeLocked (clk : Z) (limiter : RequestLimiter) : Z * RequestLimiter :=
  if negb (IsZero (rl_lastNow limiter)) && Before clk (rl_lastNow limiter)
  then (rl_lastNow limiter, limiter)
  else (clk, mkRequestLimiter (counts limiter) clk).

Definition counter_live (now : Z) (kc : counterKey * windowCounter) : Prop :=
  After (counter_start kc.2 + duration (ck_window kc.1)) now = true.
#[export] Instance counter_live_dec now kc : Decision (counter_live now kc).
Proof. unfold counter_live. apply _. Defined.

Definition RequestLimiter_discardExpiredLocked (now : Z) (limiter : RequestLimiter) : RequestLimiter :=
  mkRequestLimiter (filter (counter_live now) (counts limiter)) (rl_lastNow limiter).

(** The local [currentWindow] records of [Allow]. *)
Record currentWindow := mkCurrent { cw_key : counterKey; cw_start : Z; cw_reset : Z; cw_count : Z }.

Definition currentWindowOf (limiter : RequestLimiter) (keyID : string) (now : Z) (w : windowKey) : currentWindow :=
  let start := FixedWindowStart now (duration w) in
  let key := mkCounterKey keyID w in
  let count :=
    match counts limiter !! key with
    | Some counter => if counter_start counter =? start then counter_count counter else 0
    | None => 0
    end in
  mkCurrent key start (start + duration w) count.

Definition latestReset (resetAt : Z) (window : currentWindow) : Z :=
  if amount (ck_window (cw_key window)) <=? cw_count window then
    if IsZero resetAt || After (cw_reset window) resetAt then cw_reset window else resetAt
  else resetAt.

Definition consume (m : gmap counterKey windowCounter) (window : currentWindow) : gmap counterKey windowCounter :=
  <[cw_key window := mkCounter (cw_start window) (add64 (cw_count window) 1)]> m.

Definition RequestLimiter_Allow (clk : Z) (limiter : RequestLimiter) (keyID : string) (windows : list windowKey)
  : bool * Z * RequestLimiter :=
  let '(now, limiter) := RequestLimiter_currentTimeLocked clk limiter in
  let limiter := RequestLimiter_discardExpiredLocked now limiter in
  let normalized := normalizeWindows windows in
  if negb (length normalized =? length windows)%nat then (false, zeroTime, limiter)
  else if (length normalized =? 0)%nat then (true, zeroTime, limiter)
  else
    let current := map (currentWindowOf limiter keyID now) normalized in
    let resetAt := foldl latestReset zeroTime current in
    if negb (IsZero resetAt) then (false, resetAt, limiter)
    else (true, zeroTime, mkRequestLimiter (foldl consume (counts limiter) current) (rl_lastNow limiter)).

Definition RequestLimiter_RetryAfterSeconds (clk : Z) (limiter : RequestLimiter) (resetAt : Z) : Z * RequestLimiter :=
  if IsZero resetAt then (0, limiter)
  else
    let '(now, limiter) := RequestLimiter_currentTimeLocked clk limiter in
    (RetryAfterSecondsAt now resetAt, limiter).

Definition RequestLimiter_Len (clk : Z) (limiter : RequestLimiter) : Z * RequestLimiter :=
  let '(now, limiter) := RequestLimiter_currentTimeLocked clk limiter in
  let limiter := RequestLimiter_discardExpiredLocked now limiter in
  (Z.of_nat (size (counts limiter)), limiter).

(** ** Traces *)

(** One [Allow] call: the clock reading, the key and its policy windows. *)
Record call := mkCall { call_clk : Z; call_key : string; call_windows : list windowKey }.

Definition call_ok (c : call) : Prop :=
  clock_range (call_clk c) ∧ windows_int64 (call_windows c).

(** An admitted call is remembered with the time it was admitted at. *)
Record admission := mkAdmission { adm_time : Z; adm_key : string; adm_windows : list windowKey }.

Inductive reachable : RequestLimiter → list admission → Prop :=
| reach_init : reachable NewRequestLimiter []
| reach_reject lim adms c reset lim' :
    reachable lim adms → call_ok c →
    RequestLimiter_Allow (call_clk c) lim (call_key c) (call_windows c) = (false, reset, lim') →
    reachable lim' adms
| reach_admit lim adms c reset lim' :
    reachable lim adms → call_ok c →
    RequestLimiter_Allow (call_clk c) lim (call_key c) (call_windows c) = (true, reset, lim') →
    reachable lim' (mkAdmission (rl_lastNow lim') (call_key c) (call_windows c) :: adms)
| reach_len lim adms clk n lim' :
    reachable lim adms → clock_range clk →
    RequestLimiter_Len clk lim = (n, lim') → reachable lim' adms
| reach_retry lim adms clk resetAt n lim' :
    reachable lim adms → clock_range clk →
    RequestLimiter_RetryAfterSeconds clk lim resetAt = (n, lim') → reachable lim' adms.

(** The admissions of key [k] counted by window [w] in the window starting at
    [s]. *)
Definition counted (k : string) (w : windowKey) (s : Z) (a : admission) : Prop :=
  adm_key a = k ∧ w ∈ adm_windows a ∧ window_start (adm_time a) (duration w) = s.
#[export] Instance counted_dec k w s a : Decision (counted k w s a).
Proof. unfold counted. apply _. Defined.
Definition admitted (adms : list admission) (k : string) (w : windowKey) (s : Z) : Z :=
  Z.of_nat (length (filter (counted k w s) adms)).

(** What the counters mean. *)
Definition counter_value (lim : RequestLimiter) (k : string) (w : windowKey) (s : Z) : Z :=
  match counts lim !! mkCounterKey k w with
  | Some c => if counter_start c =? s then counter_count c else 0
  | None => 0
  end.

Definition time_ok (t : Z) : Prop := t = zeroTime ∨ clock_range t.

Record limiter_inv (lim : RequestLimiter) (adms : list admission) : Prop := {
  inv_time : time_ok (rl_lastNow lim);
  inv_bound : ∀ k w s, window_wf w → admitted adms k w s <= amount w;
  inv_current : ∀ k w s, window_wf w → rl_lastNow lim < s + duration w → 0 <= s →
      admitted adms k w s = counter_value lim k w s;
  inv_past : ∀ k w c, window_wf w → counts lim !! mkCounterKey k w = Some c →
      counter_start c <= rl_lastNow lim ∧ 0 <= counter_count c <= amount w ∧ 0 <= counter_start c;
  inv_times : Forall (λ a, 0 <= adm_time a <= rl_lastNow lim) adms;
}.

Section steps.

Definition exhausted (cw : currentWindow) : bool := amount (ck_window (cw_key cw)) <=? cw_count cw.

(** The reset loop computes the latest reset of the exhausted windows. *)
Lemma latestReset_max r cw :
  zeroTime <= r → zeroTime < cw_reset cw →
  latestReset r cw = if exhausted cw then Z.max r (cw_reset cw) else r.
Proof.
  intros Hr Hc. unfold latestReset, exhausted, IsZero, After. case_match; [|done].
  destruct (Z.eqb_spec r zeroTime), (Z.ltb_spec r (cw_reset cw)); simpl; lia.
Qed.

Lemma foldl_latestReset cur r :
  zeroTime <= r → Forall (λ cw, zeroTime < cw_reset cw) cur →
  r <= foldl latestReset r cur ∧
  (∀ cw, cw ∈ cur → exhausted cw = true → cw_reset cw <= foldl latestReset r cur) ∧
  (foldl latestReset r cur = r ∨
   ∃ cw, cw ∈ cur ∧ exhausted cw = true ∧ foldl latestReset r cur = cw_reset cw).
Proof.
  intros Hr Hc. revert r Hr. induction Hc as [|cw cur Hcw _ IH]; intros r Hr; simpl.
  { split; [lia|]. split; [set_solver|]. by left. }
  rewrite latestReset_max by done.
  destruct (IH (if exhausted cw then Z.max r (cw_reset cw) else r)) as (H1 & H2 & H3); [case_match; lia|].
  split; [case_match; lia|]. split.
  - intros cw' Hin He. apply elem_of_cons in Hin as [-> | Hin]; [rewrite He in *; lia|by apply H2].
  - destruct H3 as [H3|(cw' & ? & ? & ?)]; [|right; set_solver].
    destruct (exhausted cw) eqn:E; [|by left]. rewrite H3.
    destruct (Z.max_spec r (cw_reset cw)) as [[? ->] | [? ->]]; [right; set_solver|by left].
Qed.

Lemma consume_lookup lim keyID now ws m k w :
  foldl consume m (map (currentWindowOf lim keyID now) ws) !! mkCounterKey k w =
  if decide (k = keyID ∧ w ∈ ws)
  then Some (mkCounter (FixedWindowStart now (duration w))
               (add64 (cw_count (currentWindowOf lim keyID now w)) 1))
  else m !! mkCounterKey k w.
Proof.
  revert m. induction ws as [|v ws IH]; intros m; simpl.
  { rewrite decide_False; [done|]. set_solver. }
  rewrite IH. unfold consume. simpl. destruct (decide (k = keyID ∧ w ∈ ws)) as [[-> Hin]|Hn].
  - rewrite decide_True by set_solver. done.
  - destruct (decide (k = keyID ∧ w = v)) as [[-> ->]|Hne].
    + rewrite decide_True by set_solver. by rewrite lookup_insert_eq.
    + rewrite lookup_insert_ne by (intros [=]; naive_solver). rewrite decide_False; [done|].
      rewrite elem_of_cons. tauto.
Qed.

Lemma currentTime_mono clk lim :
  time_ok (rl_lastNow lim) → clock_range clk →
  ∃ now, RequestLimiter_currentTimeLocked clk lim = (now, mkRequestLimiter (counts lim) now) ∧
         clock_range now ∧ rl_lastNow lim <= now ∧ (rl_lastNow lim <= clk → now = clk).
Proof.
  intros Ht Hc. unfold RequestLimiter_currentTimeLocked, IsZero, Before, time_ok, clock_range, zeroTime in *.
  destruct lim as [m t]; simpl in *.
  destruct (Z.eqb_spec t (-62135596800000000000)), (Z.ltb_spec clk t); simpl;
    eexists; (split; [done|]); lia.
Qed.

Lemma discard_lookup now lim k w c :
  counts (RequestLimiter_discardExpiredLocked now lim) !! mkCounterKey k w = Some c ↔
  counts lim !! mkCounterKey k w = Some c ∧ now < counter_start c + duration w.
Proof.
  unfold RequestLimiter_discardExpiredLocked. simpl. rewrite map_lookup_filter_Some.
  unfold counter_live, After. simpl. rewrite Z.ltb_lt. done.
Qed.

(** Dropping expired counters does not change the value of a live window. *)
Lemma discard_value now lim k w s :
  now < s + duration w →
  counter_value (RequestLimiter_discardExpiredLocked now lim) k w s = counter_value lim k w s.
Proof.
  intros Hs. unfold counter_value.
  destruct (counts (RequestLimiter_discardExpiredLocked now lim) !! mkCounterKey k w) as [c|] eqn:E.
  - apply discard_lookup in E as [-> _]. done.
  - destruct (counts lim !! mkCounterKey k w) as [c|] eqn:E2; [|done].
    destruct (Z.eqb_spec (counter_start c) s); [|done]. subst.
    assert (counts (RequestLimiter_discardExpiredLocked now lim) !! mkCounterKey k w = Some c)
      by (by apply discard_lookup). congruence.
Qed.

Lemma admitted_cons a adms k w s :
  admitted (a :: adms) k w s = admitted adms k w s + (if decide (counted k w s a) then 1 else 0).
Proof. unfold admitted. rewrite filter_cons. case_decide; simpl; lia. Qed.

Lemma admitted_nonneg adms k w s : 0 <= admitted adms k w s.
Proof. unfold admitted. lia. Qed.

(** Only the window that contains the present can be both live and counted. *)
Lemma admitted_live adms t k w s :
  window_wf w → Forall (λ a, 0 <= adm_time a <= t) adms → t < s + duration w →
  admitted adms k w s = 0 ∨ s = window_start t (duration w).
Proof.
  intros [_ Hd] Hadm Hs. destruct (decide (admitted adms k w s = 0)) as [|Hne]; [by left|]. right.
  unfold admitted in Hne. destruct (filter (counted k w s) adms) as [|a l] eqn:E; [done|].
  assert (Ha : a ∈ filter (counted k w s) adms) by (rewrite E; set_solver).
  apply list_elem_of_filter in Ha as [(_ & _ & Hst) Hin].
  rewrite Forall_forall in Hadm. specialize (Hadm a Hin).
  pose proof (window_start_spec (adm_time a) (duration w) ltac:(lia)) as Hsp. rewrite Hst in Hsp.
  rewrite <-Hst. symmetry. apply window_start_same; [lia|]. rewrite Hst. lia.
Qed.

(** Advancing the clock and dropping expired counters preserves the invariant. *)
Lemma advance_inv clk lim adms now lim1 :
  limiter_inv lim adms → clock_range clk →
  RequestLimiter_currentTimeLocked clk lim = (now, lim1) →
  clock_range now ∧ limiter_inv (RequestLimiter_discardExpiredLocked now lim1) adms ∧
  rl_lastNow (RequestLimiter_discardExpiredLocked now lim1) = now.
Proof.
  intros [Ht Hb Hc Hp Hs] Hclk E.
  destruct (currentTime_mono clk lim Ht Hclk) as (now' & E' & Hnow & Hle & _).
  rewrite E in E'. injection E' as <- ->. split; [done|]. split; [|done].
  constructor; simpl.
  - by right.
  - done.
  - intros k w s Hw Hlive Hs0.
    change (counter_value (RequestLimiter_discardExpiredLocked now (mkRequestLimiter (counts lim) now)) k w s)
      with (counter_value (RequestLimiter_discardExpiredLocked now lim) k w s).
    rewrite discard_value by done. apply Hc; [done|lia|done].
  - intros k w c Hw Hl.
    assert (counts (RequestLimiter_discardExpiredLocked now lim) !! mkCounterKey k w = Some c) as H by done.
    apply discard_lookup in H as [H _].
    destruct (Hp k w c Hw H) as (? & ? & ?). split_and!; try done; lia.
  - eapply Forall_impl; [exact Hs|]. simpl. lia.
Qed.

(** Advancing the clock alone preserves it too. *)
Lemma tick_inv clk lim adms now lim1 :
  limiter_inv lim adms → clock_range clk → RequestLimiter_currentTimeLocked clk lim = (now, lim1) → limiter_inv lim1 adms.
Proof.
  intros [Ht Hb Hc Hp Hs] Hclk E. destruct (currentTime_mono clk lim Ht Hclk) as (now' & E' & Hnow & Hle & _).
  rewrite E in E'. injection E' as <- ->. constructor; simpl; [by right|done| | |].
  - intros k w s Hw Hlive Hs0. change (counter_value (mkRequestLimiter (counts lim) now) k w s) with (counter_value lim k w s). apply Hc; [done|lia|done].
  - intros k w c Hw Hl. destruct (Hp k w c Hw Hl) as (? & ? & ?). split_and!; try done; lia.
  - eapply Forall_impl; [exact Hs|]. simpl. lia.
Qed.

(** Consuming one request from windows that are not exhausted. *)
Lemma consume_inv lim adms keyID windows :
  limiter_inv lim adms → clock_range (rl_lastNow lim) → windows_ok windows →
  (∀ w, w ∈ windows → cw_count (currentWindowOf lim keyID (rl_lastNow lim) w) < amount w) →
  limiter_inv
    (mkRequestLimiter (foldl consume (counts lim)
        (map (currentWindowOf lim keyID (rl_lastNow lim)) (normalizeWindows windows))) (rl_lastNow lim))
    (mkAdmission (rl_lastNow lim) keyID windows :: adms).
Proof.
  intros [Ht Hb Hc Hp Hs] Hnow Hok Hroom. set (now := rl_lastNow lim) in *.
  assert (Hmem : ∀ w, w ∈ normalizeWindows windows ↔ w ∈ windows)
    by (intros w; by rewrite (normalizeWindows_ok windows Hok)).
  assert (Hval : ∀ w, window_wf w → cw_count (currentWindowOf lim keyID now w)
                       = counter_value lim keyID w (window_start now (duration w))).
  { intros w [_ Hd]. unfold currentWindowOf, counter_value. simpl. rewrite FixedWindowStart_eq by done. done. }
  assert (Hcount : ∀ k w s, window_wf w →
     admitted (mkAdmission now keyID windows :: adms) k w s =
       admitted adms k w s + (if decide (k = keyID ∧ w ∈ windows ∧ s = window_start now (duration w)) then 1 else 0)).
  { intros k w s Hw. rewrite admitted_cons. f_equal. unfold counted. simpl.
    repeat case_decide; try done; exfalso; naive_solver. }
  assert (Hcur : ∀ w, window_wf w → w ∈ windows →
     admitted adms keyID w (window_start now (duration w)) = cw_count (currentWindowOf lim keyID now w)
     ∧ 0 <= cw_count (currentWindowOf lim keyID now w)).
  { intros w Hw Hin. pose proof (window_start_spec now (duration w) ltac:(apply Hw)) as Hsp.
    pose proof (window_start_nonneg now (duration w) ltac:(apply Hw) ltac:(apply Hnow)).
    rewrite Hval by done. rewrite <-(Hc keyID w) by (done || lia).
    split; [done|apply admitted_nonneg]. }
  constructor; simpl; fold now.
  - by right.
  - intros k w s Hw. rewrite Hcount by done. case_decide as HD; [|rewrite Z.add_0_r; by apply Hb].
    destruct HD as (-> & Hin & ->). destruct (Hcur w Hw Hin) as [-> _]. specialize (Hroom w Hin). lia.
  - intros k w s Hw Hlive Hs0. rewrite Hcount by done. unfold counter_value. cbn [counts].
    rewrite consume_lookup, FixedWindowStart_eq by (done || apply Hw).
    destruct (decide (k = keyID ∧ w ∈ normalizeWindows windows)) as [[-> Hin]|Hn].
    + rewrite Hmem in Hin. cbn [counter_start counter_count]. destruct (Hcur w Hw Hin) as [Ha Hnn]. specialize (Hroom w Hin).
      destruct (Z.eqb_spec (window_start now (duration w)) s) as [<-|Hne].
      * rewrite decide_True by done. rewrite Ha, add64_id by (destruct Hw; lia64). done.
      * rewrite decide_False by naive_solver. rewrite Z.add_0_r.
        destruct (admitted_live adms now keyID w s Hw Hs Hlive); [done|congruence].
    + rewrite Hmem in Hn. rewrite decide_False by naive_solver. rewrite Z.add_0_r.
      rewrite (Hc k w s) by done. done.
  - intros k w c Hw. rewrite consume_lookup, FixedWindowStart_eq by (done || apply Hw).
    destruct (decide (k = keyID ∧ w ∈ normalizeWindows windows)) as [[-> Hin]|Hn]; [|by apply Hp].
    intros Hsome. apply (inj Some) in Hsome as <-. cbn [counter_start counter_count]. rewrite Hmem in Hin. destruct (Hcur w Hw Hin) as [_ Hnn]. specialize (Hroom w Hin).
    pose proof (window_start_spec now (duration w) ltac:(apply Hw)).
    pose proof (window_start_nonneg now (duration w) ltac:(apply Hw) ltac:(apply Hnow)).
    rewrite add64_id by (destruct Hw; lia64). lia.
  - constructor; [|done]. simpl. unfold clock_range in Hnow. lia.
Qed.

(** All the facts about one [Allow] call, for callers of this section. *)
Lemma resets_positive lim keyID now ws :
  clock_range now → Forall window_wf ws →
  Forall (λ cw, zeroTime < cw_reset cw) (map (currentWindowOf lim keyID now) ws).
Proof.
  intros Hnow Hws. apply Forall_map. eapply Forall_impl; [exact Hws|]. intros w Hw. simpl.
  rewrite FixedWindowStart_eq by (done || apply Hw).
  pose proof (window_start_nonneg now (duration w) ltac:(apply Hw) ltac:(apply Hnow)).
  destruct Hw. unfold zeroTime. lia.
Qed.

Lemma Allow_inv clk lim adms keyID windows ok reset lim' :
  limiter_inv lim adms → clock_range clk → windows_int64 windows →
  RequestLimiter_Allow clk lim keyID windows = (ok, reset, lim') →
  limiter_inv lim' (if ok then mkAdmission (rl_lastNow lim') keyID windows :: adms else adms).
Proof.
  intros Hinv Hclk Hint H. unfold RequestLimiter_Allow in H.
  destruct (RequestLimiter_currentTimeLocked clk lim) as [now lim1] eqn:E.
  destruct (advance_inv _ _ _ _ _ Hinv Hclk E) as (Hnow & Hinv1 & Hlast).
  set (lim2 := RequestLimiter_discardExpiredLocked now lim1) in *. clearbody lim2.
  destruct (windows_ok_dec windows) as [Hok|Hbad].
  2:{ rewrite (normalizeWindows_bad windows Hint Hbad) in H.
      destruct windows as [|w ws].
      - exfalso. apply Hbad. split; constructor.
      - simpl in H. by injection H as <- <- <-. }
  pose proof (normalizeWindows_ok windows Hok) as Hperm.
  rewrite (Permutation_length Hperm), Nat.eqb_refl in H. simpl in H.
  destruct (Nat.eqb_spec (length windows) 0) as [E0|E0].
  { injection H as <- <- <-. destruct windows; [|done].
    pose proof (consume_inv lim2 adms keyID [] Hinv1 ltac:(rewrite Hlast; done) ltac:(split; constructor)) as HC.
    destruct lim2 as [m t]. apply HC. set_solver. }
  assert (Hwf : Forall window_wf (normalizeWindows windows)).
  { rewrite Hperm. apply Hok. }
  pose proof (foldl_latestReset _ zeroTime ltac:(lia) (resets_positive lim2 keyID now _ Hnow Hwf)) as (_ & HR2 & _).
  destruct (IsZero (foldl latestReset zeroTime (map (currentWindowOf lim2 keyID now) (normalizeWindows windows)))) eqn:EZ;
    simpl in H; injection H as <- <- <-; [|done].
  rewrite <-Hlast. simpl. apply consume_inv; [done|by rewrite Hlast|done|]. rewrite Hlast.
  intros w Hin. apply Z.eqb_eq in EZ. rewrite EZ in HR2.
  assert (Hin' : currentWindowOf lim2 keyID now w ∈ map (currentWindowOf lim2 keyID now) (normalizeWindows windows)).
  { apply list_elem_of_fmap. exists w. split; [done|]. by rewrite Hperm. }
  pose proof (resets_positive lim2 keyID now _ Hnow Hwf) as HP. rewrite Forall_forall in HP.
  specialize (HP _ Hin'). specialize (HR2 _ Hin').
  destruct (exhausted (currentWindowOf lim2 keyID now w)) eqn:Ex; [specialize (HR2 eq_refl); lia|].
  unfold exhausted in Ex. simpl in Ex |- *. lia.
Qed.

Lemma reachable_inv lim adms : reachable lim adms → limiter_inv lim adms.
Proof.
  induction 1 as [|lim adms c reset lim' _ IH [Hc1 Hc2] H|lim adms c reset lim' _ IH [Hc1 Hc2] H|lim adms clk n lim' _ IH Hclk H|lim adms clk resetAt n lim' _ IH Hclk H].
  - constructor; simpl.
    + by left.
    + intros k w s [Hw _]. unfold admitted. simpl. lia.
    + done.
    + intros. done.
    + constructor.
  - exact (Allow_inv _ _ _ _ _ _ _ _ IH Hc1 Hc2 H).
  - exact (Allow_inv _ _ _ _ _ _ _ _ IH Hc1 Hc2 H).
  - unfold RequestLimiter_Len in H. destruct (RequestLimiter_currentTimeLocked clk lim) as [now lim1] eqn:E.
    injection H as <- <-. by destruct (advance_inv _ _ _ _ _ IH Hclk E) as (_ & ? & _).
  - unfold RequestLimiter_RetryAfterSeconds in H. destruct (IsZero resetAt); [by injection H as <- <-|].
    destruct (RequestLimiter_currentTimeLocked clk lim) as [now lim1] eqn:E. injection H as <- <-. by eapply tick_inv.
Qed.

(** The decision of [Allow] in terms of the counter values at the held time. *)
Definition exhausted_at (lim : RequestLimiter) (k : string) (now : Z) (w : windowKey) : Prop :=
  amount w <= counter_value lim k w (window_start now (duration w)).

Lemma currentTimeLocked_max clk lim :
  time_ok (rl_lastNow lim) → clock_range clk →
  RequestLimiter_currentTimeLocked clk lim =
    (Z.max (rl_lastNow lim) clk, mkRequestLimiter (counts lim) (Z.max (rl_lastNow lim) clk)).
Proof.
  intros Ht Hc. unfold RequestLimiter_currentTimeLocked, IsZero, Before, time_ok, clock_range, zeroTime in *.
  destruct lim as [m t]; simpl in *.
  destruct (Z.eqb_spec t (-62135596800000000000)), (Z.ltb_spec clk t); simpl; repeat f_equal; lia.
Qed.

Lemma exhausted_currentWindow lim now k w :
  clock_range now → window_wf w →
  exhausted (currentWindowOf (RequestLimiter_discardExpiredLocked now (mkRequestLimiter (counts lim) now)) k now w)
    = true ↔ exhausted_at lim k now w.
Proof.
  intros Hnow Hw. unfold exhausted, exhausted_at. rewrite Z.leb_le.
  pose proof (window_start_spec now (duration w) ltac:(apply Hw)).
  rewrite <-(discard_value now lim) by lia. unfold currentWindowOf, counter_value. simpl.
  rewrite FixedWindowStart_eq by (done || apply Hw). done.
Qed.

Lemma Allow_decision clk lim adms k ws :
  limiter_inv lim adms → clock_range clk → windows_ok ws →
  ∃ ok reset lim', RequestLimiter_Allow clk lim k ws = (ok, reset, lim') ∧
    rl_lastNow lim' = Z.max (rl_lastNow lim) clk ∧ clock_range (rl_lastNow lim') ∧
    if ok then reset = zeroTime ∧ ∀ w, w ∈ ws → ¬ exhausted_at lim k (rl_lastNow lim') w
    else (∀ w s, rl_lastNow lim' < s + duration w → counter_value lim' k w s = counter_value lim k w s) ∧
      (∀ w, w ∈ ws → exhausted_at lim k (rl_lastNow lim') w →
            window_start (rl_lastNow lim') (duration w) + duration w <= reset) ∧
      ∃ w, w ∈ ws ∧ exhausted_at lim k (rl_lastNow lim') w ∧
           reset = window_start (rl_lastNow lim') (duration w) + duration w.
Proof.
  intros Hinv Hclk Hok. unfold RequestLimiter_Allow.
  rewrite currentTimeLocked_max by (done || apply Hinv).
  assert (Hnow : clock_range (Z.max (rl_lastNow lim) clk)).
  { destruct Hinv as [Ht _ _ _ _]. unfold time_ok, clock_range, zeroTime in *. lia. }
  set (now := Z.max (rl_lastNow lim) clk) in *. clearbody now.
  pose proof (normalizeWindows_ok ws Hok) as Hperm.
  rewrite (Permutation_length Hperm), Nat.eqb_refl. simpl negb. cbv iota.
  destruct (Nat.eqb_spec (length ws) 0) as [E0|E0].
  { destruct ws; [|done]. eexists _, _, _. split; [done|]. do 2 (split; [done|]). set_solver. }
  assert (Hwf : Forall window_wf (normalizeWindows ws)) by (rewrite Hperm; apply Hok).
  set (lim2 := RequestLimiter_discardExpiredLocked now (mkRequestLimiter (counts lim) now)).
  pose proof (resets_positive lim2 k now _ Hnow Hwf) as Hpos.
  destruct (foldl_latestReset _ zeroTime ltac:(lia) Hpos) as (_ & HR2 & HR3).
  set (r := foldl latestReset zeroTime (map (currentWindowOf lim2 k now) (normalizeWindows ws))) in *.
  assert (Hreset : ∀ w, w ∈ ws → cw_reset (currentWindowOf lim2 k now w) = window_start now (duration w) + duration w).
  { intros w Hin. simpl. rewrite FixedWindowStart_eq; [done..|]. apply (proj1 (Forall_forall window_wf ws)); [apply Hok|done]. }
  assert (Hex : ∀ w, w ∈ ws → exhausted_at lim k now w →
            currentWindowOf lim2 k now w ∈ map (currentWindowOf lim2 k now) (normalizeWindows ws) ∧
            exhausted (currentWindowOf lim2 k now w) = true).
  { intros w Hin He. split; [apply list_elem_of_fmap; exists w; by rewrite Hperm|].
    apply exhausted_currentWindow; [done| |done]. by apply (proj1 (Forall_forall window_wf ws)); [apply Hok|]. }
  destruct (IsZero r) eqn:EZ; simpl negb; cbv iota.
  - eexists true, _, _. split; [done|]. do 2 (split; [done|]). split; [done|].
    intros w Hin He. destruct (Hex w Hin He) as [Hin' Hx]. specialize (HR2 _ Hin' Hx).
    rewrite Forall_forall in Hpos. specialize (Hpos _ Hin'). apply Z.eqb_eq in EZ. lia.
  - eexists false, _, _. split; [done|]. do 2 (split; [done|]). split_and!.
    + intros w s Hlive. exact (discard_value now lim k w s Hlive).
    + intros w Hin He. destruct (Hex w Hin He) as [Hin' Hx]. rewrite <-Hreset by done. by apply HR2.
    + destruct HR3 as [HR3|(cw & Hin & Hx & Hr)]; [apply Z.eqb_neq in EZ; done|].
      apply list_elem_of_fmap in Hin as (w & -> & Hin). rewrite Hperm in Hin.
      exists w. split; [done|]. rewrite Hr, Hreset by done. split; [|done].
      apply exhausted_currentWindow in Hx; [done..|]. by apply (proj1 (Forall_forall window_wf ws)); [apply Hok|].
Qed.

(** A window that is exhausted at a later time was already exhausted before. *)
Lemma exhausted_later lim adms k w now :
  limiter_inv lim adms → window_wf w → rl_lastNow lim <= now → exhausted_at lim k now w →
  window_start now (duration w) <= rl_lastNow lim.
Proof.
  intros [_ _ _ Hp _] Hw Hle He. unfold exhausted_at, counter_value in He.
  destruct (counts lim !! mkCounterKey k w) as [c|] eqn:E; [|destruct Hw; lia].
  destruct (Z.eqb_spec (counter_start c) (window_start now (duration w))) as [<-|]; [|destruct Hw; lia].
  by apply (Hp k w c).
Qed.

End steps.

(** ** Properties *)

(** C13: no sequence of calls, with any clock readings (also backwards ones) and
    any mix of keys and policies, admits more requests of a key into one fixed
    window than that window's amount. *)
Theorem request_quota_respected lim adms k w s :
  reachable lim adms → window_wf w → admitted adms k w s <= amount w.
Proof. intros H Hw. by apply (inv_bound _ _ (reachable_inv _ _ H)). Qed.

Definition demo_window : windowKey := mkWindow 1 60000000000.

Lemma request_quota_respected_witness :
  let '(_, _, l1) := RequestLimiter_Allow 5000000000 NewRequestLimiter "k" [demo_window] in
  let '(ok, _, l2) := RequestLimiter_Allow 6000000000 l1 "k" [demo_window] in
  ok = false ∧ admitted [mkAdmission (rl_lastNow l1) "k" [demo_window]] "k" demo_window 0 <= 1.
Proof.
  destruct (RequestLimiter_Allow 5000000000 NewRequestLimiter "k" [demo_window]) as [ [ok1 r1] l1] eqn:E1.
  destruct (RequestLimiter_Allow 6000000000 l1 "k" [demo_window]) as [ [ok2 r2] l2] eqn:E2.
  assert (ok1 = true) as -> by (vm_compute in E1; congruence).
  split; [vm_compute in E1; injection E1 as <- <-; vm_compute in E2; congruence|].
  apply (request_quota_respected l1 _ "k" demo_window 0); [|split; vm_compute; split; congruence].
  apply (reach_admit NewRequestLimiter [] (mkCall 5000000000 "k" [demo_window]) r1 l1); [constructor| |exact E1].
  split; [unfold clock_range, maxInt64; simpl; lia|repeat constructor; vm_compute; congruence].
Defined.

(** C14: the reset time of a rejection is exact.  After a rejection, the same
    request is rejected with the same reset at every clock reading before that
    reset and admitted at every reading from it on. *)
Theorem request_reset_exact lim adms clk k ws reset lim' clk' :
  reachable lim adms → clock_range clk → windows_ok ws →
  RequestLimiter_Allow clk lim k ws = (false, reset, lim') → clock_range clk' →
  (RequestLimiter_Allow clk' lim' k ws).1 =
    (negb (clk' <? reset), if clk' <? reset then reset else zeroTime).
Proof.
  intros Hreach Hclk Hok HA Hclk'. apply reachable_inv in Hreach.
  pose proof (Allow_inv _ _ _ _ _ _ _ _ Hreach Hclk (windows_ok_int64 _ Hok) HA) as Hinv'. simpl in Hinv'.
  assert (Hwf : ∀ w, w ∈ ws → window_wf w) by (apply Forall_forall, Hok).
  destruct (Allow_decision clk lim adms k ws Hreach Hclk Hok) as (ok0 & r0 & l0 & E & Hl & Hnow & HD).
  rewrite HA in E. injection E as <- <- <-. destruct HD as (Hval & Hmax & w & Hin & Hex & Hr).
  destruct (Allow_decision clk' lim' adms k ws Hinv' Hclk' Hok) as (ok & r & l & -> & Hl' & Hnow' & HD'). simpl.
  assert (Hback : ∀ v, v ∈ ws → exhausted_at lim' k (rl_lastNow l) v →
     window_start (rl_lastNow l) (duration v) = window_start (rl_lastNow lim') (duration v) ∧
     exhausted_at lim k (rl_lastNow lim') v).
  { intros v Hv Hx. pose proof (Hwf v Hv) as Hvw.
    pose proof (exhausted_later lim' adms k v (rl_lastNow l) Hinv' Hvw ltac:(lia) Hx).
    pose proof (window_start_spec (rl_lastNow l) (duration v) ltac:(apply Hvw)).
    assert (Es : window_start (rl_lastNow lim') (duration v) = window_start (rl_lastNow l) (duration v)).
    { apply window_start_same; [apply Hvw|lia]. }
    split; [done|]. unfold exhausted_at in *. rewrite <-Es, Hval in Hx; [done|].
    rewrite Es. lia. }
  pose proof (window_start_spec (rl_lastNow lim') (duration w) ltac:(apply (Hwf w Hin))) as Hsp.
  destruct (Z.ltb_spec clk' reset) as [Hlt|Hge]; simpl.
  - assert (Hfwd : window_start (rl_lastNow l) (duration w) = window_start (rl_lastNow lim') (duration w) ∧
                   exhausted_at lim' k (rl_lastNow l) w).
    { assert (Es : window_start (rl_lastNow l) (duration w) = window_start (rl_lastNow lim') (duration w))
        by (apply window_start_same; [apply (Hwf w Hin)|lia]).
      split; [done|]. unfold exhausted_at. rewrite Es, Hval by lia. exact Hex. }
    destruct Hfwd as [Es Hx]. destruct ok.
    + destruct HD' as [_ Hno]. by destruct (Hno w Hin).
    + destruct HD' as (_ & Hmax' & v & Hv & Hvx & ->). destruct (Hback v Hv Hvx) as [Ev Hvx'].
      specialize (Hmax' w Hin Hx). specialize (Hmax v Hv Hvx'). repeat f_equal. rewrite Ev in *. lia.
  - destruct ok; [destruct HD' as [-> _]; done|exfalso].
    destruct HD' as (_ & _ & v & Hv & Hvx & _). destruct (Hback v Hv Hvx) as [Ev Hvx'].
    specialize (Hmax v Hv Hvx').
    pose proof (window_start_spec (rl_lastNow l) (duration v) ltac:(apply (Hwf v Hv))). lia.
Qed.

Lemma request_reset_exact_witness :
  let l1 := (RequestLimiter_Allow 5000000000 NewRequestLimiter "k" [demo_window]).2 in
  let l2 := (RequestLimiter_Allow 6000000000 l1 "k" [demo_window]).2 in
  (RequestLimiter_Allow 60000000000 l2 "k" [demo_window]).1 = (true, zeroTime).
Proof.
  cbv zeta.
  destruct (RequestLimiter_Allow 5000000000 NewRequestLimiter "k" [demo_window]) as [ [ok1 r1] l1] eqn:E1. cbn [snd].
  destruct (RequestLimiter_Allow 6000000000 l1 "k" [demo_window]) as [ [ok2 r2] l2] eqn:E2. cbn [snd].
  assert (ok1 = true) as -> by (vm_compute in E1; congruence).
  assert (ok2 = false ∧ r2 = 60000000000) as [-> ->]
    by (vm_compute in E1; injection E1 as <- <-; vm_compute in E2; injection E2 as <- <- <-; done).
  assert (Hw : windows_ok [demo_window]).
  { split; [repeat constructor; vm_compute; congruence|apply NoDup_singleton]. }
  assert (Hc : ∀ t, 0 <= t <= 60000000000 → clock_range t) by (unfold clock_range, maxInt64; lia).
  apply (request_reset_exact l1 [mkAdmission (rl_lastNow l1) "k" [demo_window]] 6000000000 "k" [demo_window]
             60000000000 l2 60000000000); [ |apply Hc; lia|exact Hw|exact E2|apply Hc; lia].
  apply (reach_admit NewRequestLimiter [] (mkCall 5000000000 "k" [demo_window]) r1 l1); [constructor| |exact E1].
  split; [apply Hc; simpl; lia|by apply windows_ok_int64].
Defined.
