(* ===== verification/ConcurrencyLimiter.v ===== *)
(** * The concurrency limiter ([internal/limiter/concurrency.go])

    Slots of concurrent work per key.  Limiters, key states and leases are
    shared objects reached through pointers, so the model is a small heap.  The
    limiter's mutex and a lease's mutex protect separate critical sections:
    [Release] marks the lease under the lease mutex, drops it, and only then
    takes the limiter mutex in [releaseSlot].  Each critical section is one
    step, and a step relation interleaves the steps of all goroutines.
    Receivers are non-nil. *)

From Stdlib Require Import ZArith Lia ZifyBool.
From stdpp Require Import prelude gmap strings list.
From S2P Require Import Prelude.
Local Open Scope Z_scope.

(** A pointer. *)
Abbreviation loc := positive.

(** [Lease]: [limiter] and [state] are pointers, nil for an unlimited lease. *)
Record Lease := mkLease {
  lease_limiter : option loc;
  lease_keyID : string;
  lease_state : option loc;
  lease_released : bool;
  lease_claimed : bool;
  lease_admitted : bool;
}.

(** The heap: the [states] map of every limiter (indexed by the limiter's
    pointer and the key), the [active] field of every [concurrencyState], and
    the leases. *)
Record heap := mkHeap {
  states : gmap (loc * string) loc;
  active : gmap loc Z;
  leases : gmap loc Lease;
}.

Definition new_heap : heap := mkHeap ∅ ∅ ∅.

Definition active_of (h : heap) (s : loc) : Z := default 0 (active h !! s).

Definition with_states (f : gmap (loc * string) loc → gmap (loc * string) loc) (h : heap) : heap :=
  mkHeap (f (states h)) (active h) (leases h).
Definition set_active (s : loc) (n : Z) (h : heap) : heap :=
  mkHeap (states h) (<[s := n]> (active h)) (leases h).
Definition set_lease (l : loc) (lease : Lease) (h : heap) : heap :=
  mkHeap (states h) (active h) (<[l := lease]> (leases h)).

(** Allocation of a lease and of a key state. *)
Definition new_lease (lease : Lease) (h : heap) : loc * heap :=
  let l := fresh (dom (leases h)) in (l, set_lease l lease h).
Definition new_state (h : heap) : loc * heap :=
  let s := fresh (dom (active h)) in (s, set_active s 0 h).

Definition ConcurrencyLimiter_Acquire (limiter : loc) (keyID : string) (max : Z) (h : heap) : option loc * heap :=
  if max <? 0 then (None, h)
  else if max =? 0 then
    let '(l, h) := new_lease (mkLease None keyID None false false true) h in (Some l, h)
  else
    let '(state, h) :=
      match states h !! (limiter, keyID) with
      | Some state => (state, h)
      | None => let '(state, h) := new_state h in (state, with_states (<[(limiter, keyID) := state]>) h)
      end in
    if max <=? active_of h state then
      (None, if active_of h state =? 0 then with_states (delete (limiter, keyID)) h else h)
    else
      let h := set_active state (add64 (active_of h state) 1) h in
      let '(l, h) := new_lease (mkLease (Some limiter) keyID (Some state) false false true) h in
      (Some l, h).

Definition set_released (lease : Lease) : Lease :=
  mkLease (lease_limiter lease) (lease_keyID lease) (lease_state lease) true
    (lease_claimed lease) (lease_admitted lease).
Definition set_claimed (lease : Lease) : Lease :=
  mkLease (lease_limiter lease) (lease_keyID lease) (lease_state lease) (lease_released lease)
    true (lease_admitted lease).

(** The critical section of [Release] under the lease mutex; the result says
    whether [releaseSlot] is called afterwards. *)
Definition Release_mark (l : loc) (h : heap) : bool * heap :=
  match leases h !! l with
  | None => (false, h)
  | Some lease =>
      if lease_released lease || lease_claimed lease || negb (lease_admitted lease) then (false, h)
      else (true, set_lease l (set_released lease) h)
  end.

(** The critical section of [releaseOwned] under the lease mutex. *)
Definition releaseOwned_mark (l : loc) (h : heap) : bool * heap :=
  match leases h !! l with
  | None => (false, h)
  | Some lease =>
      if lease_released lease then (false, h) else (true, set_lease l (set_released lease) h)
  end.

(** [releaseSlot], under the limiter mutex. *)
Definition releaseSlot (l : loc) (h : heap) : heap :=
  match leases h !! l with
  | None => h
  | Some lease =>
      match lease_limiter lease, lease_state lease with
      | Some limiter, Some state =>
          if bool_decide (states h !! (limiter, lease_keyID lease) = Some state) then
            let h := if 0 <? active_of h state then set_active state (active_of h state - 1) h else h in
            if active_of h state =? 0 then with_states (delete (limiter, lease_keyID lease)) h else h
          else h
      | _, _ => h
      end
  end.

(** The calls as one goroutine runs them without interference. *)
Definition Lease_Release (l : loc) (h : heap) : heap :=
  let '(continue, h) := Release_mark l h in if continue then releaseSlot l h else h.
Definition Lease_releaseOwned (l : loc) (h : heap) : heap :=
  let '(continue, h) := releaseOwned_mark l h in if continue then releaseSlot l h else h.

Definition Lease_adopt (l : loc) (h : heap) : bool * heap :=
  match leases h !! l with
  | None => (false, h)
  | Some lease =>
      if lease_released lease || lease_claimed lease || negb (lease_admitted lease) then (false, h)
      else (true, set_lease l (set_claimed lease) h)
  end.

(** [adoptFor] holds both mutexes for its whole body; [expected] may be nil. *)
Definition Lease_adoptFor (l : loc) (expected : option loc) (keyID : string) (requireSlot : bool) (h : heap)
  : bool * heap :=
  match leases h !! l with
  | None => (false, h)
  | Some lease =>
      if lease_released lease || lease_claimed lease || negb (lease_admitted lease) then (false, h)
      else
        match lease_limiter lease with
        | None =>
            if requireSlot || (negb (bool_decide (lease_keyID lease = ""%string))
                               && negb (bool_decide (lease_keyID lease = keyID)))
            then (false, h) else (true, set_lease l (set_claimed lease) h)
        | Some limiter =>
            match expected, lease_state lease with
            | Some e, Some state =>
                if negb (bool_decide (limiter = e)) || negb (bool_decide (lease_keyID lease = keyID)) then (false, h)
                else if negb (bool_decide (states h !! (e, keyID) = Some state)) || (active_of h state <=? 0)
                then (false, h)
                else (true, set_lease l (set_claimed lease) h)
            | _, _ => (false, h)
            end
        end
  end.

Definition ConcurrencyLimiter_Len (limiter : loc) (h : heap) : Z :=
  Z.of_nat (size (filter (λ e : loc * string * loc, e.1.1 = limiter) (states h))).

(** ** Interleavings

    [p] is the set of leases whose releasing goroutine has marked the lease and
    has not yet entered [releaseSlot]. *)

Inductive cstep : heap * gset loc → heap * gset loc → Prop :=
| step_acquire h p limiter keyID max r h' :
    max <= maxInt64 → ConcurrencyLimiter_Acquire limiter keyID max h = (r, h') → cstep (h, p) (h', p)
| step_release h p l b h' :
    Release_mark l h = (b, h') → cstep (h, p) (h', if b then {[l]} ∪ p else p)
| step_releaseOwned h p l b h' :
    releaseOwned_mark l h = (b, h') → cstep (h, p) (h', if b then {[l]} ∪ p else p)
| step_slot h p l :
    l ∈ p → cstep (h, p) (releaseSlot l h, p ∖ {[l]})
| step_adopt h p l b h' :
    Lease_adopt l h = (b, h') → cstep (h, p) (h', p)
| step_adoptFor h p l e k rs b h' :
    Lease_adoptFor l e k rs h = (b, h') → cstep (h, p) (h', p).

Definition creachable (c : heap * gset loc) : Prop := rtc cstep (new_heap, ∅) c.

(** A lease occupies a slot of key [k] of [limiter] until [releaseSlot] has
    run for it. *)
Definition holds_slot (p : gset loc) (limiter : loc) (k : string) (e : loc * Lease) : Prop :=
  lease_limiter e.2 = Some limiter ∧ lease_keyID e.2 = k ∧ (lease_released e.2 = false ∨ e.1 ∈ p).
#[export] Instance holds_dec p limiter k e : Decision (holds_slot p limiter k e).
Proof. unfold holds_slot. apply _. Defined.

Definition holders (h : heap) (p : gset loc) (limiter : loc) (k : string) : gmap loc Lease :=
  filter (holds_slot p limiter k) (leases h).
Definition held_slots (h : heap) (p : gset loc) (limiter : loc) (k : string) : Z :=
  Z.of_nat (size (holders h p limiter k)).

Record cinv (h : heap) (p : gset loc) : Prop := {
  ci_hold : ∀ l lease limiter, leases h !! l = Some lease → lease_limiter lease = Some limiter →
    lease_released lease = false ∨ l ∈ p →
    ∃ s, lease_state lease = Some s ∧ states h !! (limiter, lease_keyID lease) = Some s;
  ci_count : ∀ limiter k s, states h !! (limiter, k) = Some s →
    active h !! s = Some (held_slots h p limiter k) ∧ 0 < held_slots h p limiter k;
  ci_inj : ∀ e e' s, states h !! e = Some s → states h !! e' = Some s → e = e';
  ci_pend : ∀ l, l ∈ p → ∃ lease, leases h !! l = Some lease ∧ lease_released lease = true;
}.

Section counting.

Lemma size_filter_delete {A} (P : loc * A → Prop) `{∀ x, Decision (P x)} (m : gmap loc A) l x :
  m !! l = Some x →
  size (filter P m) = (size (filter P (delete l m)) + if decide (P (l, x)) then 1 else 0)%nat.
Proof.
  intros Hx. rewrite <-(insert_delete_id m l x Hx) at 1. case_decide.
  - rewrite map_filter_insert_True by done. rewrite map_size_insert_None; [lia|].
    apply map_lookup_filter_None. left. by rewrite lookup_delete_eq.
  - rewrite map_filter_insert_False by done. rewrite delete_delete_eq. lia.
Qed.

(** What lease [l] contributes to the slots of a key. *)
Definition slot_of (h : heap) (p : gset loc) (limiter : loc) (k : string) (l : loc) : Z :=
  match leases h !! l with
  | Some lease => if decide (holds_slot p limiter k (l, lease)) then 1 else 0
  | None => 0
  end.

Lemma held_slots_split h p limiter k l :
  held_slots h p limiter k =
  Z.of_nat (size (filter (holds_slot p limiter k) (delete l (leases h)))) + slot_of h p limiter k l.
Proof.
  unfold held_slots, holders, slot_of. destruct (leases h !! l) as [lease|] eqn:E.
  - rewrite (size_filter_delete _ _ _ _ E). case_decide; lia.
  - rewrite delete_id by done. lia.
Qed.

Lemma held_slots_update h h' p p' l limiter k :
  delete l (leases h') = delete l (leases h) → (∀ l', l' ≠ l → l' ∈ p' ↔ l' ∈ p) →
  held_slots h' p' limiter k =
  held_slots h p limiter k - slot_of h p limiter k l + slot_of h' p' limiter k l.
Proof.
  intros Hd Hp. rewrite (held_slots_split h p _ _ l), (held_slots_split h' p' _ _ l), Hd.
  assert (filter (holds_slot p' limiter k) (delete l (leases h)) = filter (holds_slot p limiter k) (delete l (leases h)))
    as ->; [|lia].
  apply map_filter_ext. intros i x Hx. apply lookup_delete_Some in Hx as [Hne _]. unfold holds_slot. simpl.
  rewrite (Hp i) by done. done.
Qed.

Lemma held_slots_nonneg h p limiter k : 0 <= held_slots h p limiter k.
Proof. unfold held_slots. lia. Qed.

Lemma held_slots_frame h h' p limiter k :
  leases h' = leases h → held_slots h' p limiter k = held_slots h p limiter k.
Proof. intros E. unfold held_slots, holders. by rewrite E. Qed.

(** The key's counter is exactly the number of slots held. *)
Lemma active_held h p limiter k s :
  cinv h p → states h !! (limiter, k) = Some s → active_of h s = held_slots h p limiter k.
Proof. intros Hi Hs. unfold active_of. by destruct (ci_count _ _ Hi _ _ _ Hs) as [-> _]. Qed.

Lemma held_none h p limiter k :
  cinv h p → states h !! (limiter, k) = None → held_slots h p limiter k = 0.
Proof.
  intros Hi Hs. unfold held_slots. cut (holders h p limiter k = ∅); [by intros ->|].
  apply map_empty. intros l. apply map_lookup_filter_None. right.
  intros lease Hl (HL & Hk & Hr). simpl in *. subst k.
  destruct (ci_hold _ _ Hi l lease limiter Hl HL Hr) as (s & _ & Hs'). congruence.
Qed.

(** Changing the flags of a lease without changing what it holds. *)
Lemma flag_step h h' p p' l lease lease' :
  cinv h p → leases h !! l = Some lease →
  states h' = states h → active h' = active h → leases h' = <[l := lease']> (leases h) →
  lease_limiter lease' = lease_limiter lease → lease_keyID lease' = lease_keyID lease →
  lease_state lease' = lease_state lease →
  (lease_released lease' = false ∨ l ∈ p' ↔ lease_released lease = false ∨ l ∈ p) →
  (∀ l', l' ≠ l → l' ∈ p' ↔ l' ∈ p) → (l ∈ p' → lease_released lease' = true) →
  cinv h' p'.
Proof.
  intros [Hh Hc Hj Hp] Hl Es Ea El EL EK ES Hheld Hpp Hpend.
  assert (Hcnt : ∀ limiter k, held_slots h' p' limiter k = held_slots h p limiter k).
  { intros limiter k. rewrite (held_slots_update h h' p p' l) by (done || by rewrite El, delete_insert_eq).
    unfold slot_of. rewrite El, lookup_insert_eq, Hl.
    assert (holds_slot p' limiter k (l, lease') ↔ holds_slot p limiter k (l, lease))
      by (unfold holds_slot; simpl; rewrite EL, EK; tauto).
    repeat case_decide; try lia; exfalso; tauto. }
  constructor.
  - intros i x limiter. rewrite El, Es. destruct (decide (i = l)) as [-> |Hne].
    + rewrite lookup_insert_eq. intros [= <-]. rewrite EL, EK, ES, Hheld. by apply Hh.
    + rewrite lookup_insert_ne, Hpp by done. apply Hh.
  - intros limiter k s. rewrite Es, Ea, Hcnt. apply Hc.
  - rewrite Es. exact Hj.
  - intros i Hi. rewrite El. destruct (decide (i = l)) as [-> |Hne].
    + rewrite lookup_insert_eq. eauto.
    + rewrite lookup_insert_ne by done. apply Hp. by apply Hpp.
Qed.

Lemma mark_released_inv h p l lease :
  cinv h p → leases h !! l = Some lease → lease_released lease = false →
  cinv (set_lease l (set_released lease) h) ({[l]} ∪ p).
Proof.
  intros Hi Hl Hr. eapply flag_step; try done; simpl; [|set_solver].
  rewrite Hr. set_solver.
Qed.

Lemma mark_claimed_inv h p l lease :
  cinv h p → leases h !! l = Some lease → cinv (set_lease l (set_claimed lease) h) p.
Proof.
  intros Hi Hl. eapply flag_step; try done. simpl. intros Hp.
  destruct (ci_pend _ _ Hi l Hp) as (x & Hx & Hr). congruence.
Qed.

(** Adding a lease that was not there before. *)
Lemma new_lease_not_pending h p : cinv h p → fresh (dom (leases h)) ∉ p.
Proof.
  intros Hi Hp. destruct (ci_pend _ _ Hi _ Hp) as (x & Hx & _).
  apply (is_fresh (dom (leases h))). by apply elem_of_dom_2 in Hx.
Qed.

Lemma fresh_lease_None (h : heap) : leases h !! fresh (dom (leases h)) = None.
Proof. apply not_elem_of_dom, is_fresh. Qed.

Lemma held_slots_new_lease h lease p limiter k :
  held_slots (set_lease (fresh (dom (leases h))) lease h) p limiter k =
  held_slots h p limiter k + (if decide (holds_slot p limiter k (fresh (dom (leases h)), lease)) then 1 else 0).
Proof.
  pose proof (fresh_lease_None h) as Hl. set (l := fresh _) in *. rewrite (held_slots_update h _ p p l) by (done || apply delete_insert_eq).
  unfold slot_of, set_lease. cbn [leases]. rewrite lookup_insert_eq, Hl. lia.
Qed.

Lemma unlimited_inv h p keyID :
  cinv h p → cinv (new_lease (mkLease None keyID None false false true) h).2 p.
Proof.
  intros Hi. pose proof (new_lease_not_pending h p Hi) as Hnp.
  unfold new_lease. cbn [snd].
  assert (Hcnt : ∀ limiter k, held_slots (set_lease (fresh (dom (leases h))) (mkLease None keyID None false false true) h)
            p limiter k = held_slots h p limiter k).
  { intros. rewrite held_slots_new_lease, decide_False; [lia|]. by intros (? & _). }
  constructor.
  - intros i x limiter. unfold set_lease. cbn [leases states].
    intros [[<- <-]|[Hne Hx]]%lookup_insert_Some; [done|]. by apply (ci_hold _ _ Hi).
  - intros limiter k s Hs. rewrite Hcnt. by apply (ci_count _ _ Hi).
  - apply (ci_inj _ _ Hi).
  - intros i Hin. destruct (ci_pend _ _ Hi i Hin) as (x & Hx & Hr). exists x. split; [|done].
    unfold set_lease. cbn [leases]. rewrite lookup_insert_ne by (intros <-; done). done.
Qed.

(** The heap after a successful [Acquire] of a limited key: state [s] of the
    key, one more slot. *)
Definition admit_slot (limiter : loc) (k : string) (s : loc) (h : heap) : heap :=
  let h := set_active s (add64 (active_of h s) 1) h in
  set_lease (fresh (dom (leases h))) (mkLease (Some limiter) k (Some s) false false true) h.

Lemma admit_slot_held h p limiter k s limiter' k' :
  held_slots (admit_slot limiter k s h) p limiter' k' =
  held_slots h p limiter' k' + if decide (limiter' = limiter ∧ k' = k) then 1 else 0.
Proof.
  unfold admit_slot. set (h1 := set_active _ _ h). rewrite held_slots_new_lease.
  rewrite (held_slots_frame h h1) by done. f_equal.
  unfold holds_slot. simpl. repeat case_decide; try done; exfalso; naive_solver.
Qed.

(** [s] is the key's state, or a fresh one entered for a key without slots. *)
Lemma admit_slot_inv h h0 p limiter k s :
  cinv h p → leases h0 = leases h →
  (∀ e, e ≠ (limiter, k) → states h0 !! e = states h !! e) →
  states h0 !! (limiter, k) = Some s →
  (states h !! (limiter, k) = Some s ∨ states h !! (limiter, k) = None ∧ ∀ e, states h !! e ≠ Some s) →
  (∀ s', s' ≠ s → active h0 !! s' = active h !! s') →
  active_of h0 s = held_slots h p limiter k → held_slots h p limiter k < maxInt64 →
  cinv (admit_slot limiter k s h0) p.
Proof.
  intros Hi El Hst Hs Hcase Hact Hheld Hmax.
  pose proof (held_slots_nonneg h p limiter k) as Hnn.
  pose proof (new_lease_not_pending h p Hi) as Hnp.
  assert (Hfr : ∀ L K, held_slots h0 p L K = held_slots h p L K) by (intros; by apply held_slots_frame).
  assert (Hinj : ∀ e, e ≠ (limiter, k) → states h !! e ≠ Some s).
  { intros e Hne He. destruct Hcase as [Hc|[_ Hn]]; [|by destruct (Hn e)].
    apply Hne. by apply (ci_inj _ _ Hi e (limiter, k) s). }
  assert (Efresh : fresh (dom (leases (set_active s (add64 (active_of h0 s) 1) h0))) = fresh (dom (leases h)))
    by (simpl; by rewrite El).
  constructor.
  - intros i x L. unfold admit_slot. cbv zeta. rewrite Efresh. unfold set_lease, set_active. cbn [leases states].
    intros [[<- <-]|[Hne Hx]]%lookup_insert_Some.
    + intros [= <-] _. eauto.
    + rewrite El in Hx. intros HL Hr. destruct (ci_hold _ _ Hi i x L Hx HL Hr) as (s' & ES & Hs').
      exists s'. split; [done|]. destruct (decide ((L, lease_keyID x) = (limiter, k))) as [E|E].
      * rewrite E in *. destruct Hcase as [Hc|[Hc _]]; congruence.
      * by rewrite Hst.
  - intros L K s' HsL. rewrite admit_slot_held, Hfr. change (states h0 !! (L, K) = Some s') in HsL.
    unfold admit_slot, set_lease, set_active. cbn [active].
    destruct (decide (L = limiter ∧ K = k)) as [[-> ->]|Hne].
    + assert (s' = s) as -> by congruence. rewrite lookup_insert_eq, add64_id by lia64.
      rewrite Hheld. split; [done|lia].
    + assert (Hne' : (L, K) ≠ (limiter, k)) by naive_solver.
      rewrite Hst in HsL by done. assert (s' ≠ s) by (intros ->; by destruct (Hinj _ Hne')).
      rewrite lookup_insert_ne, Hact, Z.add_0_r by done. by apply (ci_count _ _ Hi).
  - intros e e' s' He He'. change (states h0 !! e = Some s') in He. change (states h0 !! e' = Some s') in He'.
    destruct (decide (e = (limiter, k))) as [-> |Hne], (decide (e' = (limiter, k))) as [-> |Hne']; [done|..].
    + rewrite Hst in He' by done. assert (s' = s) as -> by congruence. by destruct (Hinj e' Hne').
    + rewrite Hst in He by done. assert (s' = s) as -> by congruence. by destruct (Hinj e Hne).
    + rewrite Hst in He, He' by done. by apply (ci_inj _ _ Hi e e' s').
  - intros i Hin. destruct (ci_pend _ _ Hi i Hin) as (x & Hx & Hr). exists x. split; [|done].
    unfold admit_slot. cbv zeta. rewrite Efresh. unfold set_lease, set_active. cbn [leases].
    rewrite lookup_insert_ne by (intros <-; done). by rewrite El.
Qed.

End counting.

Section steps.

(** [Acquire] admits exactly while the key holds fewer than [max] slots. *)
Lemma Acquire_spec h p limiter k max :
  cinv h p → 0 < max <= maxInt64 →
  if held_slots h p limiter k <? max
  then ∃ l h', ConcurrencyLimiter_Acquire limiter k max h = (Some l, h') ∧ cinv h' p ∧ leases h !! l = None ∧
         leases h' = <[l := mkLease (Some limiter) k (lease_state (default (mkLease None k None true true true) (leases h' !! l)))
                              false false true]> (leases h) ∧
         ∀ limiter' k', held_slots h' p limiter' k' =
           held_slots h p limiter' k' + if decide (limiter' = limiter ∧ k' = k) then 1 else 0
  else ConcurrencyLimiter_Acquire limiter k max h = (None, h).
Proof.
  intros Hi Hmax. unfold ConcurrencyLimiter_Acquire.
  destruct (Z.ltb_spec max 0); [lia|]. destruct (Z.eqb_spec max 0); [lia|].
  destruct (states h !! (limiter, k)) as [s|] eqn:Es.
  - rewrite (active_held h p limiter k s Hi Es). pose proof (ci_count _ _ Hi _ _ _ Es) as [Ea Hpos].
    destruct (Z.ltb_spec (held_slots h p limiter k) max), (Z.leb_spec max (held_slots h p limiter k)); try lia.
    + eexists _, _. split; [done|].
      assert (E : set_lease (fresh (dom (leases h))) (mkLease (Some limiter) k (Some s) false false true)
                    (set_active s (add64 (held_slots h p limiter k) 1) h) = admit_slot limiter k s h)
        by (unfold admit_slot; by rewrite (active_held h p limiter k s Hi Es)).
      change (leases (set_active s (add64 (held_slots h p limiter k) 1) h)) with (leases h). rewrite E.
      split_and!.
      * eapply admit_slot_inv; try done; [by left|by apply active_held|lia].
      * apply fresh_lease_None.
      * unfold admit_slot, set_lease. cbn [leases set_active]. by rewrite lookup_insert_eq.
      * intros. apply admit_slot_held.
    + destruct (Z.eqb_spec (held_slots h p limiter k) 0); [lia|done].
  - rewrite (held_none h p limiter k Hi Es). destruct (Z.ltb_spec 0 max); [|lia].
    unfold new_state. set (s := fresh (dom (active h))). set (h0 := with_states _ _).
    assert (Ha : active_of h0 s = 0) by (unfold active_of, h0; simpl; by rewrite lookup_insert_eq).
    rewrite Ha. destruct (Z.leb_spec max 0); [lia|].
    assert (Hfresh : active h !! s = None) by apply not_elem_of_dom, is_fresh.
    eexists _, _. split; [done|].
    assert (E : set_lease (fresh (dom (leases h))) (mkLease (Some limiter) k (Some s) false false true)
                    (set_active s (add64 0 1) h0) = admit_slot limiter k s h0)
        by (unfold admit_slot; by rewrite Ha).
    change (leases (set_active s (add64 0 1) h0)) with (leases h). rewrite E.
    split_and!.
    + eapply (admit_slot_inv h); try done.
      * intros e Hne. unfold h0. simpl. by rewrite lookup_insert_ne.
      * unfold h0. simpl. by rewrite lookup_insert_eq.
      * right. split; [done|]. intros [L K] He. destruct (ci_count _ _ Hi _ _ _ He) as [? _]. congruence.
      * intros s' Hne. unfold h0. simpl. by rewrite lookup_insert_ne.
      * by rewrite (held_none h p limiter k Hi Es).
      * rewrite (held_none h p limiter k Hi Es). lia64.
    + apply fresh_lease_None.
    + unfold admit_slot, set_lease. cbn [leases set_active]. by rewrite lookup_insert_eq.
    + intros. rewrite admit_slot_held. by rewrite (held_slots_frame h h0).
Qed.

Lemma Acquire_inv h p limiter k max r h' :
  cinv h p → max <= maxInt64 → ConcurrencyLimiter_Acquire limiter k max h = (r, h') → cinv h' p.
Proof.
  intros Hi Hmax HA. destruct (Z.ltb_spec 0 max).
  - pose proof (Acquire_spec h p limiter k max Hi ltac:(lia)) as Hs. case_match.
    + destruct Hs as (l & h1 & E & ? & _). congruence.
    + congruence.
  - unfold ConcurrencyLimiter_Acquire in HA. destruct (Z.ltb_spec max 0); [congruence|].
    destruct (Z.eqb_spec max 0); [|lia]. unfold new_lease in HA. injection HA as <- <-.
    exact (unlimited_inv h p k Hi).
Qed.

(** The slot of a pending lease is returned to its own key, once. *)
Lemma slot_of_pending h p l lease limiter :
  cinv h p → l ∈ p → leases h !! l = Some lease → lease_limiter lease = Some limiter →
  ∀ h' L K, leases h' = leases h →
  held_slots h' (p ∖ {[l]}) L K =
  held_slots h p L K - if decide (L = limiter ∧ K = lease_keyID lease) then 1 else 0.
Proof.
  intros Hi Hp Hl HL h' L K E. destruct (ci_pend _ _ Hi l Hp) as (x & Hx & Hr).
  assert (x = lease) as -> by congruence.
  rewrite (held_slots_update h h' p (p ∖ {[l]}) l) by (by rewrite E || set_solver).
  unfold slot_of. rewrite E, Hl.
  rewrite (decide_False (P := holds_slot (p ∖ {[l]}) L K (l, lease)))
    by (unfold holds_slot; simpl; rewrite Hr; set_solver).
  assert (holds_slot p L K (l, lease) ↔ L = limiter ∧ K = lease_keyID lease)
    by (unfold holds_slot; simpl; rewrite HL; naive_solver).
  repeat case_decide; try lia; exfalso; tauto.
Qed.

Lemma releaseSlot_held h p l :
  cinv h p → l ∈ p → ∃ lease, leases h !! l = Some lease ∧
  match lease_limiter lease with
  | None => releaseSlot l h = h
  | Some limiter => ∃ s n, lease_state lease = Some s ∧ states h !! (limiter, lease_keyID lease) = Some s ∧
      n = held_slots h p limiter (lease_keyID lease) ∧ 0 < n ∧
      releaseSlot l h = (if n =? 1 then with_states (delete (limiter, lease_keyID lease)) else id)
                          (set_active s (n - 1) h)
  end.
Proof.
  intros Hi Hp. destruct (ci_pend _ _ Hi l Hp) as (lease & Hl & Hr). exists lease. split; [done|].
  unfold releaseSlot. rewrite Hl. destruct (lease_limiter lease) as [limiter|] eqn:HL; [|done].
  destruct (ci_hold _ _ Hi l lease limiter Hl HL (or_intror Hp)) as (s & ES & Hs). rewrite ES.
  destruct (ci_count _ _ Hi _ _ _ Hs) as [Ha Hpos].
  exists s, (held_slots h p limiter (lease_keyID lease)). do 4 (split; [done|]).
  rewrite bool_decide_true by done. rewrite (active_held h p _ _ s Hi Hs).
  destruct (Z.ltb_spec 0 (held_slots h p limiter (lease_keyID lease))); [|lia].
  assert (active_of (set_active s (held_slots h p limiter (lease_keyID lease) - 1) h) s
          = held_slots h p limiter (lease_keyID lease) - 1) as ->
    by (unfold active_of; simpl; by rewrite lookup_insert_eq).
  destruct (Z.eqb_spec (held_slots h p limiter (lease_keyID lease)) 1),
    (Z.eqb_spec (held_slots h p limiter (lease_keyID lease) - 1) 0); done || lia.
Qed.

Lemma releaseSlot_inv h p l : cinv h p → l ∈ p → cinv (releaseSlot l h) (p ∖ {[l]}).
Proof.
  intros Hi Hp. destruct (releaseSlot_held h p l Hi Hp) as (lease & Hl & HR).
  destruct (lease_limiter lease) as [limiter|] eqn:HL.
  2:{ rewrite HR. destruct (ci_pend _ _ Hi l Hp) as (x & Hx & Hr). assert (x = lease) as -> by congruence.
      assert (Hc : ∀ L K, held_slots h (p ∖ {[l]}) L K = held_slots h p L K).
      { intros L K. rewrite (held_slots_update h h p (p ∖ {[l]}) l) by (done || set_solver).
        unfold slot_of. rewrite Hl. rewrite !decide_False; [lia|..]; intros (E & _); simpl in E; congruence. }
      constructor; [|intros; rewrite Hc; by apply (ci_count _ _ Hi)|apply (ci_inj _ _ Hi)|].
      - intros i y L Hy HyL Hh. apply (ci_hold _ _ Hi i y L Hy HyL). set_solver.
      - intros i Hin. apply (ci_pend _ _ Hi). set_solver. }
  destruct HR as (s & n & ES & Hs & Hn & Hpos & HR).
  assert (El : leases (releaseSlot l h) = leases h) by (rewrite HR; by case_match).
  assert (Ea : active (releaseSlot l h) = <[s := n - 1]> (active h)) by (rewrite HR; by case_match).
  assert (Est : ∀ e, states (releaseSlot l h) !! e =
            if decide (e = (limiter, lease_keyID lease)) then (if n =? 1 then None else Some s) else states h !! e).
  { intros e. rewrite HR. case_decide as He; [subst e|]; case_match; simpl; try done.
    - by rewrite lookup_delete_eq.
    - by rewrite lookup_delete_ne. }
  pose proof (slot_of_pending h p l lease limiter Hi Hp Hl HL (releaseSlot l h)) as Hc.
  constructor.
  - intros i x L. rewrite El. intros Hx HxL Hh.
    destruct (ci_hold _ _ Hi i x L Hx HxL ltac:(set_solver)) as (s' & ES' & Hs'). exists s'. split; [done|].
    rewrite Est. case_decide as He; [|done]. assert (s' = s) as -> by congruence.
    destruct (Z.eqb_spec n 1) as [-> |]; [exfalso|done]. injection He as -> Hk.
    assert (Hz : held_slots h (p ∖ {[l]}) limiter (lease_keyID lease) = 0).
    { rewrite (slot_of_pending h p l lease limiter Hi Hp Hl HL h) by done. rewrite decide_True by done. lia. }
    rewrite (held_slots_split h _ _ _ i) in Hz. unfold slot_of in Hz. rewrite Hx, decide_True in Hz; [lia|].
    done.
  - intros L K s' Hs'. rewrite Est in Hs'. rewrite Hc, Ea by done.
    case_decide as He; [injection He as -> ->; destruct (Z.eqb_spec n 1); [done|]; injection Hs' as <-|].
    + rewrite decide_True, lookup_insert_eq by done. rewrite <-Hn. split; [done|lia].
    + rewrite decide_False by naive_solver. rewrite Z.sub_0_r.
      rewrite lookup_insert_ne; [by apply (ci_count _ _ Hi)|].
      intros <-. apply He. by apply (ci_inj _ _ Hi _ _ s).
  - intros e e' s' He He'. apply (ci_inj _ _ Hi e e' s'); [revert He|revert He']; rewrite Est;
      (case_decide as Hd; [rewrite Hd|done]); case_match; intros [= <-]; exact Hs.
  - intros i Hin. rewrite El. apply (ci_pend _ _ Hi). set_solver.
Qed.

(** [releaseSlot] for a marked lease returns the slot the lease held. *)
Lemma releaseSlot_returns h p l lease :
  cinv h p → l ∈ p → leases h !! l = Some lease →
  ∀ L K, held_slots (releaseSlot l h) (p ∖ {[l]}) L K =
    held_slots h p L K - if decide (lease_limiter lease = Some L ∧ K = lease_keyID lease) then 1 else 0.
Proof.
  intros Hi Hp Hl L K. destruct (releaseSlot_held h p l Hi Hp) as (x & Hx & HR). assert (x = lease) as -> by congruence.
  destruct (lease_limiter lease) as [limiter|] eqn:HL.
  - rewrite (slot_of_pending h p l lease limiter) by
      (done || (destruct HR as (s & n & _ & _ & _ & _ & ->); by case_match)).
    repeat case_decide; try lia; exfalso; naive_solver.
  - rewrite HR, decide_False by naive_solver.
    rewrite (held_slots_update h h p (p ∖ {[l]}) l) by (done || set_solver).
    unfold slot_of. rewrite Hl. rewrite !decide_False; [lia|..]; intros (E & _); simpl in E; congruence.
Qed.

(** Marking alone returns nothing. *)
Lemma mark_released_held h p l lease :
  leases h !! l = Some lease → lease_released lease = false →
  ∀ L K, held_slots (set_lease l (set_released lease) h) ({[l]} ∪ p) L K = held_slots h p L K.
Proof.
  intros Hl Hr L K. rewrite (held_slots_update h _ p ({[l]} ∪ p) l);
    [|unfold set_lease; cbn [leases]; by rewrite delete_insert_eq|set_solver].
  unfold slot_of, set_lease. cbn [leases]. rewrite lookup_insert_eq, Hl.
  assert (holds_slot ({[l]} ∪ p) L K (l, set_released lease) ↔ holds_slot p L K (l, lease)) as Hiff
    by (unfold holds_slot; simpl; rewrite Hr; set_solver).
  repeat case_decide; try lia; exfalso; tauto.
Qed.

(** [releaseOwned] by one goroutine. *)
Lemma releaseOwned_held h p l lease :
  cinv h p → leases h !! l = Some lease → lease_released lease = false →
  cinv (Lease_releaseOwned l h) p ∧
  ∀ L K, held_slots (Lease_releaseOwned l h) p L K =
    held_slots h p L K - if decide (lease_limiter lease = Some L ∧ K = lease_keyID lease) then 1 else 0.
Proof.
  intros Hi Hl Hr.
  assert (Hn : l ∉ p) by (intros Hp; destruct (ci_pend _ _ Hi l Hp) as (x & Hx & ?); congruence).
  unfold Lease_releaseOwned, releaseOwned_mark. rewrite Hl, Hr.
  set (h1 := set_lease l (set_released lease) h). pose proof (mark_released_inv h p l lease Hi Hl Hr) as Hi1.
  assert (Hp : p = ({[l]} ∪ p) ∖ {[l]}) by set_solver.
  assert (Hl1 : leases h1 !! l = Some (set_released lease)) by (unfold h1, set_lease; cbn [leases]; by rewrite lookup_insert_eq).
  split.
  - rewrite Hp. apply releaseSlot_inv; [done|set_solver].
  - intros L K. rewrite Hp at 1. rewrite (releaseSlot_returns h1 ({[l]} ∪ p) l (set_released lease)) by (done || set_solver).
    unfold h1. by rewrite mark_released_held.
Qed.

Lemma cstep_inv c c' : cstep c c' → cinv c.1 c.2 → cinv c'.1 c'.2.
Proof.
  destruct 1 as [h p L k max r h' Hm H|h p l b h' H|h p l b h' H|h p l Hp|h p l b h' H|h p l e k rs b h' H];
    simpl; intros Hi.
  - by eapply Acquire_inv.
  - unfold Release_mark in H. destruct (leases h !! l) as [lease|] eqn:Hl; [|by injection H as <- <-].
    destruct (lease_released lease) eqn:Hr; [by injection H as <- <-|]. simpl in H.
    case_match; injection H as <- <-; [done|]. by apply mark_released_inv.
  - unfold releaseOwned_mark in H. destruct (leases h !! l) as [lease|] eqn:Hl; [|by injection H as <- <-].
    destruct (lease_released lease) eqn:Hr; injection H as <- <-; [done|]. by apply mark_released_inv.
  - by apply releaseSlot_inv.
  - unfold Lease_adopt in H. destruct (leases h !! l) as [lease|] eqn:Hl; [|by injection H as <- <-].
    case_match; injection H as <- <-; [done|]. by apply mark_claimed_inv.
  - unfold Lease_adoptFor in H. destruct (leases h !! l) as [lease|] eqn:Hl; [|by injection H as <- <-].
    repeat case_match; injection H as <- <-; try done; by apply mark_claimed_inv.
Qed.

Lemma creachable_inv h p : creachable (h, p) → cinv h p.
Proof.
  assert (Hgen : ∀ c c', rtc cstep c c' → cinv c.1 c.2 → cinv c'.1 c'.2).
  { induction 1; [done|]. eauto using cstep_inv. }
  intros H. apply (Hgen _ _ H). constructor; done || set_solver.
Qed.

End steps.

(** ** Properties *)

(** under every interleaving of the goroutines' critical sections, a
    limited [Acquire] admits exactly when the key holds fewer than [max] slots,
    counting every lease whose slot has not been returned yet; admission takes
    one slot of that key and of no other, and rejection changes nothing. *)
Theorem Acquire_admits_iff_capacity h p limiter k max :
  creachable (h, p) → 0 < max <= maxInt64 →
  if held_slots h p limiter k <? max
  then ∃ l h', ConcurrencyLimiter_Acquire limiter k max h = (Some l, h') ∧ leases h !! l = None ∧
         ∀ limiter' k', held_slots h' p limiter' k' =
           held_slots h p limiter' k' + if decide (limiter' = limiter ∧ k' = k) then 1 else 0
  else ConcurrencyLimiter_Acquire limiter k max h = (None, h).
Proof.
  intros Hr Hmax. pose proof (Acquire_spec h p limiter k max (creachable_inv _ _ Hr) Hmax) as H.
  case_match; [|done]. destruct H as (l & h' & ? & _ & ? & _ & ?). eauto 6.
Qed.

Lemma Acquire_admits_iff_capacity_witness :
  let h := (ConcurrencyLimiter_Acquire 1 "k" 1 new_heap).2 in
  ConcurrencyLimiter_Acquire 1 "k" 1 h = (None, h).
Proof.
  cbv zeta. destruct (ConcurrencyLimiter_Acquire 1 "k" 1 new_heap) as [r h] eqn:E. cbn [snd].
  pose proof (Acquire_admits_iff_capacity h ∅ 1 "k" 1) as H.
  assert ((held_slots h ∅ 1 "k" <? 1) = false) as Hh by (vm_compute in E; injection E as _ <-; vm_compute; done).
  rewrite Hh in H. apply H; [|unfold maxInt64; lia].
  eapply rtc_l; [|apply rtc_refl]. eapply step_acquire; [|exact E]. unfold maxInt64; lia.
Defined.

(** no slot is lost and none is returned twice.  Entering [releaseSlot] for
    a marked lease returns exactly one slot of the lease's key (none for an
    unlimited lease) under every interleaving, and a lease that has been marked
    is never marked again, neither by [Release] nor by [releaseOwned]. *)
Theorem release_exactly_once h p l :
  creachable (h, p) → l ∈ p →
  ∃ lease, leases h !! l = Some lease ∧
    Release_mark l h = (false, h) ∧ releaseOwned_mark l h = (false, h) ∧
    ∀ limiter k, held_slots (releaseSlot l h) (p ∖ {[l]}) limiter k =
      held_slots h p limiter k -
      if decide (lease_limiter lease = Some limiter ∧ k = lease_keyID lease) then 1 else 0.
Proof.
  intros Hr Hp. apply creachable_inv in Hr as Hi.
  destruct (releaseSlot_held h p l Hi Hp) as (lease & Hl & HR). exists lease.
  destruct (ci_pend _ _ Hi l Hp) as (x & Hx & Hrel). assert (x = lease) as -> by congruence.
  unfold Release_mark, releaseOwned_mark. rewrite Hl, Hrel. split_and!; [done..|]. intros L K.
  by apply releaseSlot_returns.
Qed.

Lemma release_exactly_once_witness :
  let '(r, h) := ConcurrencyLimiter_Acquire 1 "k" 1 new_heap in
  let h1 := (Release_mark 1 h).2 in
  held_slots h {[1%positive]} 1 "k" = 1 ∧ held_slots (releaseSlot 1 h1) ∅ 1 "k" = 0.
Proof.
  destruct (ConcurrencyLimiter_Acquire 1 "k" 1 new_heap) as [r h] eqn:E. cbv zeta.
  destruct (Release_mark 1 h) as [b h1] eqn:E1. cbn [snd].
  assert (Hb : b = true ∧ held_slots h1 {[1%positive]} 1 "k" = 1 ∧ held_slots h {[1%positive]} 1 "k" = 1 ∧
      lease_limiter <$> leases h1 !! 1%positive = Some (Some 1%positive) ∧
      lease_keyID <$> leases h1 !! 1%positive = Some "k"%string).
  { vm_compute in E. injection E as _ <-. vm_compute in E1. injection E1 as <- <-. vm_compute. done. }
  destruct Hb as (-> & Hh1 & Hh & HL & HK). split; [exact Hh|].
  destruct (release_exactly_once h1 {[1%positive]} 1) as (lease & Hl & _ & _ & Hs); [|set_solver|].
  - eapply rtc_l; [eapply step_acquire; [|exact E]; unfold maxInt64; lia|].
    eapply rtc_l; [exact (step_release h ∅ 1 true h1 E1)|]. rewrite (right_id_L ∅ (∪)). apply rtc_refl.
  - specialize (Hs 1%positive "k"%string). rewrite difference_diag_L in Hs. rewrite Hs, Hh1.
    rewrite Hl in HL, HK. simpl in HL, HK. injection HL as HL. injection HK as HK.
    rewrite decide_True by done. done.
Defined.

(** the limiter keeps no idle state.  A key has an entry exactly while some
    lease holds a slot of it, the entry's counter is the number of held slots,
    and entries of different keys or limiters never share a counter. *)
Theorem states_exact h p limiter k :
  creachable (h, p) →
  match states h !! (limiter, k) with
  | Some s => active_of h s = held_slots h p limiter k ∧ 0 < held_slots h p limiter k ∧
              ∀ e, states h !! e = Some s → e = (limiter, k)
  | None => held_slots h p limiter k = 0
  end.
Proof.
  intros Hr. apply creachable_inv in Hr as Hi. destruct (states h !! (limiter, k)) as [s|] eqn:E; [|by eapply held_none].
  split; [by apply active_held|]. split; [by apply (ci_count _ _ Hi _ _ _ E)|].
  intros e He. by apply (ci_inj _ _ Hi e (limiter, k) s).
Qed.

Lemma states_exact_witness :
  states (Lease_Release 1 (ConcurrencyLimiter_Acquire 1 "k" 2 new_heap).2) !! (1%positive, "k"%string) = None ∧
  held_slots new_heap ∅ 1 "k" = 0.
Proof.
  split; [vm_compute; reflexivity|]. exact (states_exact new_heap ∅ 1 "k" (rtc_refl _ _)).
Defined.
