(* ===== verification/TokenLimiter.v ===== *)
(** * The token limiter ([internal/limiter/token.go])

    Token estimates are reserved in epoch-aligned fixed windows and settled
    once with the observed usage.  Every method runs under the limiter's mutex
    (policy operations also hold the policy lock), so a call is one atomic step
    taking the clock reading it makes as an argument.  Receivers are non-nil. *)

From Stdlib Require Import ZArith Lia ZifyBool.
From stdpp Require Import prelude gmap strings list.
From S2P Require Import Prelude Windows.
Local Open Scope Z_scope.

(** ** State *)

Inductive TokenError := ErrInvalidTokenUsage | ErrTokenAccountingOverflow | ErrTokenReservationState
                      | ErrTokenPolicyReplacementConflict.

Record tokenBucketKey := mkBucketKey { bk_keyID : string; bk_window : windowKey; bk_start : Z }.

#[export] Instance tokenBucketKey_eq_dec : EqDecision tokenBucketKey.
Proof. solve_decision. Defined.
#[export] Instance tokenBucketKey_countable : Countable tokenBucketKey.
Proof.
  refine (inj_countable' (λ k, (bk_keyID k, bk_window k, bk_start k))
            (λ p, mkBucketKey p.1.1 p.1.2 p.2) _).
  by intros [].
Defined.

Record tokenBucket := mkBucket { committed : Z; active : Z }.

(** The zero value a Go map yields for an absent key. *)
Definition emptyBucket : tokenBucket := mkBucket 0 0.

Record CommittedTokenBucket := mkCommitted {
  ctb_KeyID : string; ctb_BucketStart : Z; ctb_Window : windowKey; ctb_CommittedTokens : Z }.
Record CommittedTokenDelta := mkDelta {
  ctd_KeyID : string; ctd_BucketStart : Z; ctd_Window : windowKey; ctd_CommittedDelta : Z }.

(** [deltaSink] says whether a sink is installed; [emitted] is the sequence of
    the calls made to it, oldest first. *)
Record TokenLimiter := mkTokenLimiter {
  buckets : gmap tokenBucketKey tokenBucket;
  policyWindows : gmap string (gset windowKey);
  tl_lastNow : Z;
  deltaSink : bool;
  emitted : list CommittedTokenDelta;
}.

Definition NewTokenLimiter : TokenLimiter := mkTokenLimiter ∅ ∅ zeroTime false [].

Definition with_buckets (m : gmap tokenBucketKey tokenBucket) (l : TokenLimiter) : TokenLimiter :=
  mkTokenLimiter m (policyWindows l) (tl_lastNow l) (deltaSink l) (emitted l).
Definition with_lastNow (t : Z) (l : TokenLimiter) : TokenLimiter :=
  mkTokenLimiter (buckets l) (policyWindows l) t (deltaSink l) (emitted l).
Definition with_policies (p : gmap string (gset windowKey)) (l : TokenLimiter) : TokenLimiter :=
  mkTokenLimiter (buckets l) p (tl_lastNow l) (deltaSink l) (emitted l).
Definition emit (d : CommittedTokenDelta) (l : TokenLimiter) : TokenLimiter :=
  mkTokenLimiter (buckets l) (policyWindows l) (tl_lastNow l) (deltaSink l) (emitted l ++ [d]).

(** The ticket of [CommitDeferred].  It is reached only through the reservation
    that created it, so it is kept inside the reservation; [tt_once] and
    [tt_notify] say whether the two [sync.Once] have fired. *)
Record TokenAdjustmentTicket := mkTicket {
  tt_limiter : bool;
  tt_buckets : list tokenBucketKey;
  tt_reserved : Z;
  tt_once : bool;
  tt_notify : bool;
  tt_finalErr : option TokenError;
  tt_deltas : list CommittedTokenDelta;
  tt_sink : bool;
}.

(** [tr_limiter] says whether the limiter pointer is non-nil. *)
Record TokenReservation := mkReservation {
  tr_limiter : bool;
  tr_buckets : list tokenBucketKey;
  tr_amount : Z;
  tr_finalized : bool;
  tr_finalErr : option TokenError;
  tr_ticket : option TokenAdjustmentTicket;
}.

(** ** Operations *)

Definition SetCommittedDeltaSink (sink : bool) (l : TokenLimiter) : TokenLimiter :=
  mkTokenLimiter (buckets l) (policyWindows l) (tl_lastNow l) sink (emitted l).

Definition TokenLimiter_currentTimeLocked (clk : Z) (l : TokenLimiter) : Z * TokenLimiter :=
  if negb (IsZero (tl_lastNow l)) && Before clk (tl_lastNow l)
  then (tl_lastNow l, l)
  else (clk, with_lastNow clk l).

Definition bucket_kept (now : Z) (e : tokenBucketKey * tokenBucket) : Prop :=
  let '(reset, ok) := checkedWindowReset (bk_start e.1) (duration (bk_window e.1)) in
  ok && negb (After reset now) && (active e.2 =? 0) = false.
#[export] Instance bucket_kept_dec now e : Decision (bucket_kept now e).
Proof. unfold bucket_kept. destruct (checkedWindowReset _ _). apply _. Defined.

Definition TokenLimiter_discardExpiredLocked (now : Z) (l : TokenLimiter) : TokenLimiter :=
  with_buckets (filter (bucket_kept now) (buckets l)) l.

Definition discardNow (clk : Z) (l : TokenLimiter) : TokenLimiter :=
  let '(now, l) := TokenLimiter_currentTimeLocked clk l in TokenLimiter_discardExpiredLocked now l.

(** [LoadCommitted] stops at the first malformed row, keeping the rows already
    inserted; rows of finished windows are skipped. *)
Fixpoint loadRows (now : Z) (rows : list CommittedTokenBucket) (m : gmap tokenBucketKey tokenBucket)
  : option TokenError * gmap tokenBucketKey tokenBucket :=
  match rows with
  | [] => (None, m)
  | persisted :: rest =>
      if bool_decide (ctb_KeyID persisted = ""%string)
         || negb (Nanosecond (ctb_BucketStart persisted) =? 0)
         || Before (ctb_BucketStart persisted) 0
         || (ctb_CommittedTokens persisted <? 0)
         || (amount (ctb_Window persisted) <=? 0)
         || (duration (ctb_Window persisted) <=? 0)
      then (Some ErrTokenReservationState, m)
      else
        let '(start, ok) := fixedWindowStartChecked (ctb_BucketStart persisted) (duration (ctb_Window persisted)) in
        if negb ok || negb (start =? ctb_BucketStart persisted) then (Some ErrTokenReservationState, m)
        else
          let '(reset, ok) := checkedWindowReset (ctb_BucketStart persisted) (duration (ctb_Window persisted)) in
          if negb ok || negb (After reset now) then loadRows now rest m
          else
            let key := mkBucketKey (ctb_KeyID persisted) (ctb_Window persisted) (ctb_BucketStart persisted) in
            match m !! key with
            | Some _ => (Some ErrTokenReservationState, m)
            | None => loadRows now rest (<[key := mkBucket (ctb_CommittedTokens persisted) 0]> m)
            end
  end.

Definition TokenLimiter_LoadCommitted (now : Z) (rows : list CommittedTokenBucket) (l : TokenLimiter)
  : option TokenError * TokenLimiter :=
  if IsZero now then (Some ErrTokenReservationState, l)
  else
    let '(err, m) := loadRows now rows (buckets l) in
    let l := with_buckets m l in
    match err with
    | Some e => (Some e, l)
    | None => (None, with_lastNow now l)
    end.

(** A live bucket of a removed window that still carries usage. *)
Definition pins (keyID : string) (removed : list windowKey) (e : tokenBucketKey * tokenBucket) : Prop :=
  bk_keyID e.1 = keyID ∧ bk_window e.1 ∈ removed ∧ (0 < committed e.2 ∨ 0 < active e.2).
#[export] Instance pins_dec keyID removed e : Decision (pins keyID removed e).
Proof. unfold pins. apply _. Defined.

Definition allowsPolicyReplacementLocked (clk : Z) (keyID : string) (oldWindows newWindows : list windowKey)
  (l : TokenLimiter) : bool * TokenLimiter :=
  let l := discardNow clk l in
  let removed := filter (λ w, w ∉ newWindows) oldWindows in
  (bool_decide (filter (pins keyID removed) (buckets l) = ∅), l).

Definition TokenLimiter_AllowsPolicyReplacement := allowsPolicyReplacementLocked.

(** [commit] is nil, or a callback whose error result is given; [E] is the
    type of its errors.  The policy lock is held throughout. *)
Definition TokenLimiter_ReplacePolicy {E} (clk : Z) (keyID : string) (oldWindows newWindows : list windowKey)
  (commit : option (option E)) (l : TokenLimiter) : option (TokenError + E) * TokenLimiter :=
  let '(allowed, l) := allowsPolicyReplacementLocked clk keyID oldWindows newWindows l in
  if negb allowed then (Some (inl ErrTokenPolicyReplacementConflict), l)
  else
    match commit with
    | None => (None, l)
    | Some (Some err) => (Some (inr err), l)
    | Some None => (None, with_policies (<[keyID := list_to_set newWindows]> (policyWindows l)) l)
    end.

Definition TokenLimiter_RegisterPolicy (keyID : string) (windows : list windowKey) (l : TokenLimiter) : TokenLimiter :=
  with_policies (<[keyID := list_to_set windows]> (policyWindows l)) l.

Definition sameTokenWindowSet (configured : gset windowKey) (windows : list windowKey) : bool :=
  if negb (size configured =? length windows)%nat then false
  else forallb (λ w, bool_decide (w ∈ configured)) windows.

Definition committedTokenDelta (key : tokenBucketKey) (delta : Z) : CommittedTokenDelta :=
  mkDelta (bk_keyID key) (bk_start key) (bk_window key) delta.

Definition emitDeltaLocked (key : tokenBucketKey) (delta : Z) (l : TokenLimiter) : TokenLimiter :=
  if negb (deltaSink l) || (delta =? 0) then l else emit (committedTokenDelta key delta) l.

(** The validation pass of [Reserve]; [None] is the early return on a window
    that cannot be computed. *)
Record reservePass := mkPass {
  rp_updates : list (tokenBucketKey * tokenBucket); rp_resetAt : Z; rp_rejected : bool }.

Fixpoint reserveWindows (l : TokenLimiter) (keyID : string) (now amt : Z) (windows : list windowKey)
  (pass : reservePass) : option reservePass :=
  match windows with
  | [] => Some pass
  | window :: rest =>
      let '(start, ok) := fixedWindowStartChecked now (duration window) in
      if negb ok then None
      else
        let '(reset, ok) := checkedWindowReset start (duration window) in
        if negb ok then None
        else
          let key := mkBucketKey keyID window start in
          let bucket := default emptyBucket (buckets l !! key) in
          let '(used, ok) := checkedNonNegativeAdd (committed bucket) (active bucket) in
          let full := negb ok || (amount window <? amt) || (amount window <? used)
                      || (sub64 (amount window) used <? amt) in
          let resetAt :=
            if full && (amt <=? amount window) && ok
               && (IsZero (rp_resetAt pass) || After reset (rp_resetAt pass))
            then reset else rp_resetAt pass in
          let '(act, activeOK) := checkedNonNegativeAdd (active bucket) amt in
          let rejected := rp_rejected pass || full || negb activeOK || (amount window <? act) in
          reserveWindows l keyID now amt rest
            (mkPass (rp_updates pass ++ [(key, mkBucket (committed bucket) act)]) resetAt rejected)
  end.

Definition putBucket (m : gmap tokenBucketKey tokenBucket) (e : tokenBucketKey * tokenBucket) :=
  <[e.1 := e.2]> m.

Definition TokenLimiter_Reserve (clk : Z) (keyID : string) (windows : list windowKey) (amt : Z) (l : TokenLimiter)
  : option TokenReservation * Z * TokenLimiter :=
  if amt <=? 0 then (None, zeroTime, l)
  else
    let '(normalized, valid) := normalizeTokenWindows windows in
    if negb valid then (None, zeroTime, l)
    else if (length normalized =? 0)%nat then
      (Some (mkReservation false [] amt false None None), zeroTime, l)
    else if match policyWindows l !! keyID with
            | Some configured => negb (sameTokenWindowSet configured normalized)
            | None => false
            end then (None, zeroTime, l)
    else
      let '(now, l) := TokenLimiter_currentTimeLocked clk l in
      let l := TokenLimiter_discardExpiredLocked now l in
      match reserveWindows l keyID now amt normalized (mkPass [] zeroTime false) with
      | None => (None, zeroTime, l)
      | Some pass =>
          if rp_rejected pass then (None, rp_resetAt pass, l)
          else (Some (mkReservation true (map fst (rp_updates pass)) amt false None None), zeroTime,
                with_buckets (foldl putBucket (buckets l) (rp_updates pass)) l)
      end.

Definition TokenLimiter_RetryAfterSeconds (clk : Z) (resetAt : Z) (l : TokenLimiter) : Z * TokenLimiter :=
  if IsZero resetAt then (0, l)
  else
    let '(now, l) := TokenLimiter_currentTimeLocked clk l in
    (RetryAfterSecondsAt now resetAt, l).

(** The validation loop of [finalize] for an observed usage: the settled
    amount and the error. *)
Fixpoint validateActual (m : gmap tokenBucketKey tokenBucket) (amt usage : Z) (keys : list tokenBucketKey)
  : Z * option TokenError :=
  match keys with
  | [] => (usage, None)
  | key :: rest =>
      match m !! key with
      | None => (usage, Some ErrTokenReservationState)
      | Some bucket =>
          if active bucket <? amt then (usage, Some ErrTokenReservationState)
          else if negb (checkedNonNegativeAdd (committed bucket) usage).2
          then (amt, Some ErrTokenAccountingOverflow)
          else validateActual m amt usage rest
      end
  end.

(** Writing a bucket back, dropping it when nothing is left in it. *)
Definition storeBucket (key : tokenBucketKey) (bucket : tokenBucket) (l : TokenLimiter) : TokenLimiter :=
  if (active bucket =? 0) && (committed bucket =? 0)
  then with_buckets (delete key (buckets l)) l
  else with_buckets (<[key := bucket]> (buckets l)) l.

Definition settleBucket (amt settle : Z) (acc : option TokenError * TokenLimiter) (key : tokenBucketKey)
  : option TokenError * TokenLimiter :=
  let '(result, l) := acc in
  match buckets l !! key with
  | None => (result, l)
  | Some bucket =>
      let act := if active bucket <? amt then 0 else sub64 (active bucket) amt in
      let '(sum, ok) := checkedNonNegativeAdd (committed bucket) settle in
      let '(result, com) := if negb ok then (Some ErrTokenAccountingOverflow, committed bucket) else (result, sum) in
      (result, emitDeltaLocked key settle (storeBucket key (mkBucket com act) l))
  end.

Definition finalize (clk : Z) (reservation : TokenReservation) (usage : Z) (actual : bool) (l : TokenLimiter)
  : option TokenError * TokenLimiter :=
  let '(usage, actual, result) :=
    if usage <? 0 then (tr_amount reservation, false, Some ErrInvalidTokenUsage) else (usage, actual, None) in
  if negb (tr_limiter reservation) || (length (tr_buckets reservation) =? 0)%nat || (tr_amount reservation <=? 0)
  then (result, l)
  else
    let '(settle, result) :=
      match actual, result with
      | true, None => validateActual (buckets l) (tr_amount reservation) usage (tr_buckets reservation)
      | _, _ => (usage, result)
      end in
    let settle := if settle <? 0 then tr_amount reservation else settle in
    let settle := match result with
                  | Some _ => if settle =? usage then tr_amount reservation else settle
                  | None => settle
                  end in
    let '(result, l) := foldl (settleBucket (tr_amount reservation) settle) (result, l) (tr_buckets reservation) in
    (result, discardNow clk l).

Definition set_final (err : option TokenError) (ticket : option TokenAdjustmentTicket) (r : TokenReservation)
  : TokenReservation :=
  mkReservation (tr_limiter r) (tr_buckets r) (tr_amount r) true err ticket.

Definition finalizeOnce (clk : Z) (usage : Z) (actual : bool) (r : TokenReservation) (l : TokenLimiter)
  : option TokenError * TokenReservation * TokenLimiter :=
  if negb (tr_finalized r) then
    let '(err, l) := finalize clk r usage actual l in
    (err, set_final err (tr_ticket r) r, l)
  else (tr_finalErr r, r, l).

Definition TokenReservation_Commit (clk actual : Z) := finalizeOnce clk actual true.
Definition TokenReservation_AbortConservative (clk : Z) (r : TokenReservation) :=
  finalizeOnce clk (tr_amount r) false r.
Definition TokenReservation_ReleaseBeforeUpstream (clk : Z) := finalizeOnce clk 0 false.

Definition TokenReservation_CommitDeferred (clk : Z) (r : TokenReservation) (l : TokenLimiter)
  : option TokenError * TokenReservation * TokenLimiter :=
  if tr_finalized r then (tr_finalErr r, r, l)
  else
    let '(err, l) := finalize clk r (tr_amount r) false l in
    (err, set_final err (Some (mkTicket (tr_limiter r) (tr_buckets r) (tr_amount r) false false None [] false)) r, l).

(** ** Deferred adjustment *)

Fixpoint checkIncrease (m : gmap tokenBucketKey tokenBucket) (delta : Z) (keys : list tokenBucketKey) : bool :=
  match keys with
  | [] => true
  | key :: rest =>
      match m !! key with
      | None => checkIncrease m delta rest
      | Some bucket =>
          if negb (checkedNonNegativeAdd (committed bucket) delta).2 then false else checkIncrease m delta rest
      end
  end.

Fixpoint checkRefund (m : gmap tokenBucketKey tokenBucket) (refund : Z) (keys : list tokenBucketKey) : bool :=
  match keys with
  | [] => true
  | key :: rest =>
      match m !! key with
      | Some bucket => if committed bucket <? refund then false else checkRefund m refund rest
      | None => checkRefund m refund rest
      end
  end.

(** The mutation loop of [Adjust]: the deltas collected, and whether it ran to
    its end. *)
Fixpoint adjustBuckets (delta : Z) (keys : list tokenBucketKey) (deltas : list CommittedTokenDelta) (l : TokenLimiter)
  : bool * list CommittedTokenDelta * TokenLimiter :=
  match keys with
  | [] => (true, deltas, l)
  | key :: rest =>
      match buckets l !! key with
      | None => adjustBuckets delta rest deltas l
      | Some bucket =>
          let '(updated, ok) :=
            if negb (delta =? 0) then checkedSignedAdd (committed bucket) delta else (committed bucket, true) in
          if negb ok then (false, deltas, l)
          else
            let l := storeBucket key (mkBucket updated (active bucket)) l in
            let deltas := if negb (delta =? 0) then deltas ++ [committedTokenDelta key delta] else deltas in
            adjustBuckets delta rest deltas l
      end
  end.

(** The body of [once.Do] in [Adjust]: the error, the collected deltas and the
    captured sink. *)
Definition adjustOnce (clk actual : Z) (t : TokenAdjustmentTicket) (l : TokenLimiter)
  : option TokenError * list CommittedTokenDelta * bool * TokenLimiter :=
  if actual <? 0 then (Some ErrInvalidTokenUsage, [], false, l)
  else if negb (tt_limiter t) || (length (tt_buckets t) =? 0)%nat then (None, [], false, l)
  else
    let delta := sub64 actual (tt_reserved t) in
    if (tt_reserved t <=? actual) && (delta <? 0) then (Some ErrTokenAccountingOverflow, [], false, l)
    else if (0 <? delta) && negb (checkIncrease (buckets l) delta (tt_buckets t))
    then (Some ErrTokenAccountingOverflow, [], false, l)
    else if (delta <? 0) && negb (checkRefund (buckets l) (sub64 (tt_reserved t) actual) (tt_buckets t))
    then (Some ErrTokenReservationState, [], false, l)
    else
      let '(complete, deltas, l) := adjustBuckets delta (tt_buckets t) [] l in
      if negb complete then (Some ErrTokenAccountingOverflow, deltas, false, l)
      else (None, deltas, deltaSink l, discardNow clk l).

Definition ticket_Adjust (clk actual : Z) (t : TokenAdjustmentTicket) (l : TokenLimiter)
  : option TokenError * TokenAdjustmentTicket * TokenLimiter :=
  let '(t, l) :=
    if tt_once t then (t, l)
    else
      let '(err, deltas, sink, l) := adjustOnce clk actual t l in
      (mkTicket (tt_limiter t) (tt_buckets t) (tt_reserved t) true (tt_notify t) err deltas sink, l) in
  if tt_notify t then (tt_finalErr t, t, l)
  else
    let l := if tt_sink t then foldl (λ l d, emit d l) l (tt_deltas t) else l in
    (tt_finalErr t,
     mkTicket (tt_limiter t) (tt_buckets t) (tt_reserved t) (tt_once t) true (tt_finalErr t) (tt_deltas t) (tt_sink t),
     l).

Definition ticket_Invalidate (t : TokenAdjustmentTicket) : TokenAdjustmentTicket :=
  if tt_once t then t
  else mkTicket false [] 0 true (tt_notify t) (tt_finalErr t) (tt_deltas t) (tt_sink t).

Definition TokenLimiter_Len (clk : Z) (l : TokenLimiter) : Z * TokenLimiter :=
  let l := discardNow clk l in (Z.of_nat (size (buckets l)), l).

(** ** Lemmas *)

Definition bucket_ok (b : tokenBucket) : Prop := 0 <= committed b <= maxInt64 ∧ 0 <= active b <= maxInt64.
Definition buckets_ok (l : TokenLimiter) : Prop := map_Forall (λ _ b, bucket_ok b) (buckets l).

Definition bucket_at (l : TokenLimiter) (key : tokenBucketKey) : tokenBucket :=
  default emptyBucket (buckets l !! key).

Lemma bucket_at_ok l key : buckets_ok l → bucket_ok (bucket_at l key).
Proof.
  intros Hl. unfold bucket_at. destruct (buckets l !! key) as [b|] eqn:E; [by apply (Hl key)|].
  simpl. unfold bucket_ok. simpl. lia64.
Qed.

Section reserve.
Context (l : TokenLimiter) (keyID : string) (now amt : Z).

(** The bucket [Reserve] looks at for a window, and whether it can be computed. *)
Definition window_key (w : windowKey) : tokenBucketKey :=
  mkBucketKey keyID w (fixedWindowStartChecked now (duration w)).1.
Definition computable (w : windowKey) : bool :=
  (fixedWindowStartChecked now (duration w)).2
  && (checkedWindowReset (fixedWindowStartChecked now (duration w)).1 (duration w)).2.
Definition fits (w : windowKey) : bool :=
  committed (bucket_at l (window_key w)) + active (bucket_at l (window_key w)) + amt <=? amount w.
Definition reserved_update (w : windowKey) : tokenBucketKey * tokenBucket :=
  (window_key w, mkBucket (committed (bucket_at l (window_key w)))
                   (checkedNonNegativeAdd (active (bucket_at l (window_key w))) amt).1).

Context (Hl : buckets_ok l) (Hamt : 0 < amt <= maxInt64).

Lemma reserveWindows_spec ws pass :
  Forall window_wf ws →
  match reserveWindows l keyID now amt ws pass with
  | None => forallb computable ws = false
  | Some pass' => forallb computable ws = true ∧
      rp_updates pass' = rp_updates pass ++ map reserved_update ws ∧
      rp_rejected pass' = rp_rejected pass || negb (forallb fits ws)
  end.
Proof.
  intros Hws. revert pass. induction Hws as [|w ws [Hwa _] _ IH]; intros pass; simpl.
  { split; [done|]. rewrite app_nil_r, orb_false_r. done. }
  destruct (fixedWindowStartChecked now (duration w)) as [start sok] eqn:Es.
  destruct (checkedWindowReset start (duration w)) as [reset rok] eqn:Er.
  assert (EK : window_key w = mkBucketKey keyID w start) by (unfold window_key; by rewrite Es).
  assert (EC : computable w = sok && rok) by (unfold computable; rewrite Es; simpl; by rewrite Er).
  rewrite EC. destruct sok; simpl; [|done]. destruct rok; simpl; [|done].
  pose proof (bucket_at_ok l (window_key w) Hl) as [Hc Ha].
  unfold fits at 1, reserved_update at 1. rewrite EK in *.
  change (default emptyBucket (buckets l !! mkBucketKey keyID w start)) with (bucket_at l (mkBucketKey keyID w start)).
  set (b := bucket_at l (mkBucketKey keyID w start)) in *.
  destruct (checkedNonNegativeAdd (committed b) (active b)) as [used ok] eqn:Eu.
  destruct (checkedNonNegativeAdd (active b) amt) as [act aok] eqn:Ea.
  rewrite checkedNonNegativeAdd_spec in Eu, Ea by lia64.
  match goal with |- context [reserveWindows l keyID now amt ws ?p] =>
    specialize (IH p); destruct (reserveWindows l keyID now amt ws p) as [pass'|]; [|done] end.
  destruct IH as (-> & -> & ->). simpl. split; [done|].
  split; [by rewrite <-app_assoc|].
  rewrite negb_andb, !orb_assoc. f_equal. rewrite <-!orb_assoc. f_equal.
  repeat case_match; simplify_eq/=; rewrite ?sub64_id by lia64; lia.
Qed.

End reserve.

Lemma foldl_putBucket_lookup (f : windowKey → tokenBucketKey * tokenBucket) ws m key :
  (∀ w w', (f w).1 = (f w').1 → w = w') →
  foldl putBucket m (map f ws) !! key =
    match list_find (λ w, (f w).1 = key) ws with
    | Some (_, w) => Some (f w).2
    | None => m !! key
    end.
Proof.
  intros Hinj. revert m. induction ws as [|w ws IH]; intros m; simpl; [done|].
  rewrite IH. case_decide as Hw.
  - destruct (list_find (λ w0, (f w0).1 = key) ws) as [ [i w'] |] eqn:E; simpl.
    + apply list_find_Some in E as (_ & Hw' & _). rewrite (Hinj w w') by congruence. done.
    + unfold putBucket. rewrite Hw, lookup_insert_eq. done.
  - destruct (list_find (λ w0, (f w0).1 = key) ws) as [ [i w'] |] eqn:E; simpl; [done|].
    unfold putBucket. by rewrite lookup_insert_ne.
Qed.

Section time.

Definition tl_time_ok (t : Z) : Prop := t = zeroTime ∨ clock_range t.

Lemma discardNow_eq clk l :
  tl_time_ok (tl_lastNow l) → clock_range clk →
  discardNow clk l =
    TokenLimiter_discardExpiredLocked (Z.max (tl_lastNow l) clk) (with_lastNow (Z.max (tl_lastNow l) clk) l).
Proof.
  intros Ht Hc. unfold discardNow, TokenLimiter_currentTimeLocked, IsZero, Before, tl_time_ok, clock_range, zeroTime in *.
  destruct l as [m p t s e]; simpl in *.
  destruct (Z.eqb_spec t (-62135596800000000000)), (Z.ltb_spec clk t); simpl;
    unfold with_lastNow; simpl; repeat f_equal; lia.
Qed.

Lemma currentTime_eq clk l :
  tl_time_ok (tl_lastNow l) → clock_range clk →
  TokenLimiter_currentTimeLocked clk l = (Z.max (tl_lastNow l) clk, with_lastNow (Z.max (tl_lastNow l) clk) l).
Proof.
  intros Ht Hc. unfold TokenLimiter_currentTimeLocked, IsZero, Before, tl_time_ok, clock_range, zeroTime in *.
  destruct l as [m p t s e]; simpl in *.
  destruct (Z.eqb_spec t (-62135596800000000000)), (Z.ltb_spec clk t); simpl;
    unfold with_lastNow; simpl; repeat f_equal; lia.
Qed.

(** Expiry only drops buckets without active reservations. *)
Lemma discardNow_lookup clk l key :
  buckets (discardNow clk l) !! key = buckets l !! key ∨
  buckets (discardNow clk l) !! key = None ∧ ∃ b, buckets l !! key = Some b ∧ active b = 0.
Proof.
  unfold discardNow. destruct (TokenLimiter_currentTimeLocked clk l) as [now l'] eqn:E.
  assert (buckets l' = buckets l) as Hb.
  { unfold TokenLimiter_currentTimeLocked in E. case_match; by simplify_eq/=. }
  unfold TokenLimiter_discardExpiredLocked. simpl. rewrite Hb.
  destruct (buckets l !! key) as [b|] eqn:Ek; [|left; apply map_lookup_filter_None; by left].
  destruct (decide (bucket_kept now (key, b))) as [Hk|Hk].
  - left. by apply map_lookup_filter_Some.
  - destruct (Z.eqb_spec (active b) 0) as [Ha|Ha].
    + right. split; [|by exists b]. apply map_lookup_filter_None. right. intros b' Hb'. by simplify_eq.
    + exfalso. apply Hk. unfold bucket_kept. simpl. destruct (checkedWindowReset _ _) as [r ok].
      destruct (Z.eqb_spec (active b) 0); [done|]. by rewrite andb_false_r.
Qed.

Lemma discardNow_Some clk l key b :
  buckets (discardNow clk l) !! key = Some b → buckets l !! key = Some b.
Proof. intros H. destruct (discardNow_lookup clk l key) as [E|[E _] ]; congruence. Qed.

Lemma discardNow_ok clk l : buckets_ok l → buckets_ok (discardNow clk l).
Proof. intros H key b Hb. apply discardNow_Some in Hb. exact (H key b Hb). Qed.

Lemma discardNow_frame clk l :
  policyWindows (discardNow clk l) = policyWindows l ∧ deltaSink (discardNow clk l) = deltaSink l ∧
  emitted (discardNow clk l) = emitted l.
Proof.
  unfold discardNow, TokenLimiter_currentTimeLocked. case_match eqn:E; case_match; by simplify_eq/=.
Qed.

End time.

Lemma window_key_inj keyID now w w' : window_key keyID now w = window_key keyID now w' → w = w'.
Proof. unfold window_key. by intros [= ->]. Qed.

(** The reservation time: the clock held at the last reading. *)
Definition reserve_time (clk : Z) (l : TokenLimiter) : Z := (TokenLimiter_currentTimeLocked clk l).1.

(** The policy check of [Reserve]. *)
Definition policy_current (l : TokenLimiter) (keyID : string) (ws : list windowKey) : bool :=
  match policyWindows l !! keyID with
  | Some configured => sameTokenWindowSet configured ws
  | None => true
  end.

(** Everything [Reserve] does, with a valid non-empty policy. *)
Lemma Reserve_cases clk keyID windows amt l :
  buckets_ok l → amt <= maxInt64 → windows_ok windows → windows ≠ [] → 0 < amt →
  let ws := (normalizeTokenWindows windows).1 in
  let now := reserve_time clk l in
  let l1 := discardNow clk l in
  if policy_current l keyID ws then
    if forallb (computable now) ws && forallb (fits l1 keyID now amt) ws
    then TokenLimiter_Reserve clk keyID windows amt l =
           (Some (mkReservation true (map (window_key keyID now) ws) amt false None None), zeroTime,
            with_buckets (foldl putBucket (buckets l1) (map (reserved_update l1 keyID now amt) ws)) l1)
    else ∃ reset, TokenLimiter_Reserve clk keyID windows amt l = (None, reset, l1)
  else TokenLimiter_Reserve clk keyID windows amt l = (None, zeroTime, l).
Proof.
  intros Hl Hamt Hok Hne Hpos. cbv zeta.
  destruct (normalizeTokenWindows_ok windows Hok) as (ws & Ews & Hperm & Hws). rewrite Ews. cbn [fst].
  unfold TokenLimiter_Reserve. destruct (Z.leb_spec amt 0); [lia|]. rewrite Ews. cbn [negb].
  destruct (Nat.eqb_spec (length ws) 0) as [E0|_].
  { apply nil_length_inv in E0 as ->. by apply Permutation_nil_l in Hperm. }
  unfold policy_current. destruct (match policyWindows l !! keyID with Some c => sameTokenWindowSet c ws | None => true end) eqn:EP.
  2:{ destruct (policyWindows l !! keyID); [|done]. by rewrite EP. }
  assert (match policyWindows l !! keyID with
          | Some configured => negb (sameTokenWindowSet configured ws) | None => false end = false) as ->.
  { destruct (policyWindows l !! keyID); [|done]. by rewrite EP. }
  unfold reserve_time, discardNow.
  destruct (TokenLimiter_currentTimeLocked clk l) as [now l0] eqn:Et. cbn [fst].
  pose proof (discardNow_ok clk l Hl) as Hl1. unfold discardNow in Hl1. rewrite Et in Hl1.
  set (l1 := TokenLimiter_discardExpiredLocked now l0) in *.
  pose proof (reserveWindows_spec l1 keyID now amt Hl1 ltac:(lia) ws (mkPass [] zeroTime false) (proj1 Hws)) as HS.
  destruct (reserveWindows l1 keyID now amt ws (mkPass [] zeroTime false)) as [pass|].
  - destruct HS as (-> & HU & HR). rewrite HU, HR. cbn [rp_updates rp_rejected app orb andb].
    destruct (forallb (fits l1 keyID now amt) ws); cbn [negb]; [|eauto].
    by rewrite map_map.
  - rewrite HS. cbn [andb]. eauto.
Qed.

(** The buckets of an admitted reservation. *)
Lemma Reserve_buckets l keyID now amt ws key :
  buckets_ok l → 0 < amt <= maxInt64 → Forall window_wf ws → forallb (fits l keyID now amt) ws = true →
  foldl putBucket (buckets l) (map (reserved_update l keyID now amt) ws) !! key =
    if decide (key ∈ map (window_key keyID now) ws)
    then Some (mkBucket (committed (bucket_at l key)) (active (bucket_at l key) + amt))
    else buckets l !! key.
Proof.
  intros Hl Hamt Hws Hfit.
  rewrite foldl_putBucket_lookup by (intros w w'; apply window_key_inj).
  destruct (list_find _ ws) as [ [i w] |] eqn:E.
  - apply list_find_Some in E as (Hi & Hk & _). cbn [reserved_update fst] in Hk. subst key.
    assert (Hin : w ∈ ws) by (by eapply list_elem_of_lookup_2).
    rewrite decide_True by (apply list_elem_of_fmap; eauto). unfold reserved_update. cbn [snd]. do 2 f_equal.
    pose proof (bucket_at_ok l (window_key keyID now w) Hl) as [Hc Ha].
    rewrite Forall_forall in Hws. destruct (Hws w Hin) as [Hwa _].
    assert (Hf : fits l keyID now amt w = true).
    { apply (proj1 (forallb_forall _ ws) Hfit). by apply list_elem_of_In. }
    unfold fits in Hf. rewrite checkedNonNegativeAdd_spec by lia64.
    rewrite (proj2 (andb_true_iff _ _)); [done|]. lia.
  - apply list_find_None in E. rewrite decide_False; [done|].
    intros (w & -> & Hin)%list_elem_of_fmap. rewrite Forall_forall in E. by apply (E w Hin).
Qed.

Section settlement.

Definition drop_empty (b : tokenBucket) : option tokenBucket :=
  if (active b =? 0) && (committed b =? 0) then None else Some b.

(** The settlement of one bucket, without wrap-around. *)
Definition settled (amt settle : Z) (b : tokenBucket) : tokenBucket :=
  mkBucket (if committed b + settle <=? maxInt64 then committed b + settle else committed b)
           (if active b <? amt then 0 else active b - amt).

Lemma storeBucket_lookup key b l k :
  buckets (storeBucket key b l) !! k = if decide (k = key) then drop_empty b else buckets l !! k.
Proof.
  unfold storeBucket, drop_empty. case_match; simpl; case_decide as Hk; subst.
  - by rewrite lookup_delete_eq.
  - by rewrite lookup_delete_ne.
  - by rewrite lookup_insert_eq.
  - by rewrite lookup_insert_ne.
Qed.

Lemma emitDelta_buckets key d l : buckets (emitDeltaLocked key d l) = buckets l.
Proof. unfold emitDeltaLocked. by case_match. Qed.

Definition settle_ok (b : tokenBucket) (settle : Z) : bool := committed b + settle <=? maxInt64.

Lemma settleBucket_step amt settle result l key :
  buckets_ok l → 0 < amt → 0 <= settle <= maxInt64 →
  settleBucket amt settle (result, l) key =
    match buckets l !! key with
    | None => (result, l)
    | Some b => (if settle_ok b settle then result else Some ErrTokenAccountingOverflow,
                 emitDeltaLocked key settle (storeBucket key (settled amt settle b) l))
    end.
Proof.
  intros Hl Hamt Hs. unfold settleBucket. destruct (buckets l !! key) as [b|] eqn:E; [|done].
  destruct (Hl key b E) as [Hc Ha]. rewrite checkedNonNegativeAdd_spec by lia64.
  unfold settled, settle_ok.
  rewrite (proj2 (Z.leb_le 0 (committed b))), (proj2 (Z.leb_le 0 settle)) by lia. cbn [andb].
  assert ((if active b <? amt then 0 else sub64 (active b) amt) = (if active b <? amt then 0 else active b - amt)) as ->.
  { case_match; [done|]. apply sub64_id. lia64. }
  destruct (Z.leb_spec (committed b + settle) maxInt64); done.
Qed.

Lemma settled_ok amt settle b :
  bucket_ok b → 0 < amt → 0 <= settle → bucket_ok (settled amt settle b).
Proof. intros [Hc Ha] ? ?. unfold bucket_ok, settled. simpl. split; case_match; lia. Qed.

Lemma drop_empty_Some b b' : drop_empty b = Some b' → b' = b.
Proof. unfold drop_empty. by case_match; intros; simplify_eq. Qed.

Lemma drop_empty_cases b :
  drop_empty b = None ∧ active b = 0 ∧ committed b = 0 ∨ drop_empty b = Some b.
Proof. unfold drop_empty. destruct (Z.eqb_spec (active b) 0), (Z.eqb_spec (committed b) 0); simpl; auto. Qed.

Lemma store_ok key b l : buckets_ok l → bucket_ok b → buckets_ok (storeBucket key b l).
Proof.
  intros Hl Hb k b'. rewrite storeBucket_lookup. case_decide; [|apply Hl].
  by intros ->%drop_empty_Some.
Qed.

Lemma settle_lookup amt settle keys result l :
  buckets_ok l → 0 < amt → 0 <= settle <= maxInt64 → NoDup keys →
  buckets_ok (foldl (settleBucket amt settle) (result, l) keys).2 ∧
  (foldl (settleBucket amt settle) (result, l) keys).1 =
    (if forallb (λ k, match buckets l !! k with Some b => settle_ok b settle | None => true end) keys
     then result else Some ErrTokenAccountingOverflow) ∧
  ∀ k, buckets (foldl (settleBucket amt settle) (result, l) keys).2 !! k =
    if decide (k ∈ keys) then buckets l !! k ≫= (drop_empty ∘ settled amt settle) else buckets l !! k.
Proof.
  intros Hl Hamt Hs. revert result l Hl. induction keys as [|key keys IH]; intros result l Hl Hnd; cbn [foldl].
  { split; [done|]. split; [done|]. intros k. rewrite decide_False by set_solver. done. }
  apply NoDup_cons in Hnd as [Hnin Hnd]. rewrite settleBucket_step by done.
  set (l' := match buckets l !! key with
             | None => l
             | Some b => emitDeltaLocked key settle (storeBucket key (settled amt settle b) l) end).
  set (r' := match buckets l !! key with
             | None => result
             | Some b => if settle_ok b settle then result else Some ErrTokenAccountingOverflow end).
  assert (Hlk : ∀ k, buckets l' !! k = if decide (k = key) then buckets l !! k ≫= (drop_empty ∘ settled amt settle) else buckets l !! k).
  { intros k. unfold l'. destruct (buckets l !! key) as [b|] eqn:E.
    - rewrite emitDelta_buckets, storeBucket_lookup. case_decide; subst; [|done]. by rewrite E.
    - case_decide; subst; [|done]. by rewrite E. }
  assert (Hl' : buckets_ok l').
  { unfold l'. destruct (buckets l !! key) as [b|] eqn:E; [|done].
    intros k b'. rewrite emitDelta_buckets. revert k b'. apply store_ok; [done|].
    apply settled_ok; [by apply (Hl key)|done|lia]. }
  assert (Hfold : foldl (settleBucket amt settle) (match buckets l !! key with
      | None => (result, l)
      | Some b => (if settle_ok b settle then result else Some ErrTokenAccountingOverflow,
                   emitDeltaLocked key settle (storeBucket key (settled amt settle b) l)) end) keys
      = foldl (settleBucket amt settle) (r', l') keys).
  { unfold r', l'. by destruct (buckets l !! key). }
  rewrite Hfold. destruct (IH r' l' Hl' Hnd) as (IH1 & IH2 & IH3). split; [done|]. split.
  - rewrite IH2. cbn [forallb].
    assert (forallb (λ k, match buckets l' !! k with Some b => settle_ok b settle | None => true end) keys =
            forallb (λ k, match buckets l !! k with Some b => settle_ok b settle | None => true end) keys) as ->.
    { clear -Hlk Hnin. induction keys as [|x keys IH]; [done|]. cbn [forallb].
      rewrite (Hlk x), decide_False by set_solver. f_equal. apply IH. set_solver. }
    unfold r'. destruct (buckets l !! key) as [b|]; simpl; [|done].
    match goal with |- context [forallb ?f keys] => generalize (forallb f keys) end.
    by intros []; destruct (settle_ok b settle).
  - intros k. rewrite IH3, Hlk. destruct (decide (k = key)) as [-> |Hne].
    + rewrite decide_False by done. rewrite decide_True by set_solver. done.
    + destruct (decide (k ∈ keys)); [rewrite decide_True by set_solver|rewrite decide_False by set_solver]; done.
Qed.

(** The settled amount and error of [finalize] before the buckets are touched. *)
Definition settlement (m : gmap tokenBucketKey tokenBucket) (r : TokenReservation) (usage : Z) (actual : bool)
  : Z * option TokenError :=
  if usage <? 0 then (tr_amount r, Some ErrInvalidTokenUsage)
  else if actual then
    match validateActual m (tr_amount r) usage (tr_buckets r) with
    | (settle, None) => (usage, None)
    | (settle, Some e) => (tr_amount r, Some e)
    end
  else (usage, None).

Lemma validateActual_spec m amt usage keys :
  validateActual m amt usage keys = (usage, None) ∨
  validateActual m amt usage keys = (usage, Some ErrTokenReservationState) ∨
  validateActual m amt usage keys = (amt, Some ErrTokenAccountingOverflow).
Proof.
  induction keys as [|key keys IH]; simpl; [by left|]. repeat case_match; eauto.
Qed.

Lemma finalize_eq clk r usage actual l :
  tr_limiter r = true → tr_buckets r ≠ [] → 0 < tr_amount r →
  finalize clk r usage actual l =
    let '(settle, result) := settlement (buckets l) r usage actual in
    let '(result, l) := foldl (settleBucket (tr_amount r) settle) (result, l) (tr_buckets r) in
    (result, discardNow clk l).
Proof.
  intros HL Hne Hamt. unfold finalize, settlement. rewrite HL.
  destruct (Nat.eqb_spec (length (tr_buckets r)) 0) as [E|_]; [by apply nil_length_inv in E|].
  destruct (Z.leb_spec (tr_amount r) 0); [lia|].
  destruct (Z.ltb_spec usage 0).
  - cbn [negb orb]. destruct (Z.ltb_spec (tr_amount r) 0); [lia|]. rewrite Z.eqb_refl. done.
  - cbn [negb orb]. destruct actual.
    + destruct (validateActual_spec (buckets l) (tr_amount r) usage (tr_buckets r)) as [-> |[-> | ->] ].
      * destruct (Z.ltb_spec usage 0); [lia|done].
      * destruct (Z.ltb_spec usage 0); [lia|]. rewrite Z.eqb_refl. done.
      * destruct (Z.ltb_spec (tr_amount r) 0); [lia|]. destruct (Z.eqb_spec (tr_amount r) usage) as [<-|]; done.
    + destruct (Z.ltb_spec usage 0); [lia|done].
Qed.

Lemma settlement_range m r usage actual :
  0 < tr_amount r <= maxInt64 → usage <= maxInt64 →
  0 <= (settlement m r usage actual).1 <= maxInt64.
Proof.
  intros Ha Hu. unfold settlement. destruct (Z.ltb_spec usage 0); [simpl; lia|].
  destruct actual; [|simpl; lia]. destruct (validateActual _ _ _ _) as [s [e|] ]; simpl; lia.
Qed.

Lemma settlement_bound m r usage actual :
  0 < tr_amount r → usage <= tr_amount r → (settlement m r usage actual).1 <= tr_amount r.
Proof.
  intros Ha Hu. unfold settlement. destruct (Z.ltb_spec usage 0); [simpl; lia|].
  destruct actual; [|simpl; lia]. destruct (validateActual _ _ _ _) as [s [e|] ]; simpl; lia.
Qed.

End settlement.

Section adjustment.

Definition adjusted (delta : Z) (b : tokenBucket) : tokenBucket := mkBucket (committed b + delta) (active b).

Definition adjustable (l : TokenLimiter) (delta : Z) (keys : list tokenBucketKey) : Prop :=
  ∀ k b, k ∈ keys → buckets l !! k = Some b → 0 <= committed b + delta <= maxInt64.

Lemma storeBucket_frame key b l :
  policyWindows (storeBucket key b l) = policyWindows l ∧ tl_lastNow (storeBucket key b l) = tl_lastNow l ∧
  deltaSink (storeBucket key b l) = deltaSink l ∧ emitted (storeBucket key b l) = emitted l.
Proof. unfold storeBucket. by case_match. Qed.

Lemma adjustBuckets_spec delta keys deltas l :
  int64 delta → buckets_ok l → NoDup keys → adjustable l delta keys →
  ∃ deltas' l', adjustBuckets delta keys deltas l = (true, deltas', l') ∧ buckets_ok l' ∧
    tl_lastNow l' = tl_lastNow l ∧ policyWindows l' = policyWindows l ∧ deltaSink l' = deltaSink l ∧
    ∀ k, buckets l' !! k =
      if decide (k ∈ keys) then buckets l !! k ≫= (drop_empty ∘ adjusted delta) else buckets l !! k.
Proof.
  intros Hd. revert deltas l. induction keys as [|key keys IH]; intros deltas l Hl Hnd Hadj; cbn [adjustBuckets].
  { eexists _, _. split; [done|]. do 4 (split; [done|]). intros k. rewrite decide_False by set_solver. done. }
  apply NoDup_cons in Hnd as [Hnin Hnd]. destruct (buckets l !! key) as [b|] eqn:E.
  2:{ destruct (IH deltas l Hl Hnd) as (d' & l' & -> & ? & ? & ? & ? & Hlk); [by intros k b Hk; apply Hadj; set_solver|].
      exists d', l'. do 5 (split; [done|]). intros k. rewrite Hlk. destruct (decide (k = key)) as [-> |].
      - rewrite decide_False by done. rewrite decide_True by set_solver. by rewrite E.
      - repeat case_decide; done || set_solver. }
  destruct (Hl key b E) as [Hc Ha]. pose proof (Hadj key b ltac:(set_solver) E) as Hb.
  assert ((if negb (delta =? 0) then checkedSignedAdd (committed b) delta else (committed b, true))
          = (committed b + delta, true)) as ->.
  { destruct (Z.eqb_spec delta 0) as [-> |]; simpl; [f_equal; lia|].
    rewrite checkedSignedAdd_spec by lia64. rewrite (proj2 (andb_true_iff _ _)); [done|lia64]. }
  cbn [negb]. set (b' := mkBucket (committed b + delta) (active b)).
  assert (Hl' : buckets_ok (storeBucket key b' l)) by (apply store_ok; [done|split; simpl; lia]).
  match goal with |- context [adjustBuckets delta keys ?d _] =>
    destruct (IH d (storeBucket key b' l) Hl' Hnd) as (d' & l' & -> & ? & ? & ? & ? & Hlk) end.
  { intros k x Hk. rewrite storeBucket_lookup, decide_False by (intros ->; done). apply Hadj. set_solver. }
  destruct (storeBucket_frame key b' l) as (? & ? & ? & ?).
  exists d', l'. split; [done|]. do 4 (split; [done || congruence|]). intros k. rewrite Hlk, storeBucket_lookup.
  destruct (decide (k = key)) as [-> |].
  - rewrite decide_False by done. rewrite decide_True by set_solver. by rewrite E.
  - repeat case_decide; done || set_solver.
Qed.

Lemma checkIncrease_spec m delta keys :
  (∀ k b, m !! k = Some b → 0 <= committed b <= maxInt64) → 0 <= delta <= maxInt64 →
  checkIncrease m delta keys = true →
  ∀ k b, k ∈ keys → m !! k = Some b → committed b + delta <= maxInt64.
Proof.
  intros Hm Hd. induction keys as [|key keys IH]; intros H k b Hk Hb; [set_solver|]. simpl in H.
  apply elem_of_cons in Hk as [-> |Hk].
  - rewrite Hb in H. pose proof (Hm key b Hb). rewrite checkedNonNegativeAdd_spec in H by lia64.
    destruct (Z.leb_spec (committed b + delta) maxInt64); [done|]. by rewrite andb_false_r in H.
  - destruct (m !! key); [case_match; [done|]|]; by eapply IH.
Qed.

Lemma checkRefund_spec m refund keys :
  checkRefund m refund keys = true →
  ∀ k b, k ∈ keys → m !! k = Some b → refund <= committed b.
Proof.
  induction keys as [|key keys IH]; intros H k b Hk Hb; [set_solver|]. simpl in H.
  apply elem_of_cons in Hk as [-> |Hk].
  - rewrite Hb in H. case_match; [done|lia].
  - destruct (m !! key); [case_match; [done|]|]; by eapply IH.
Qed.

Lemma checkRefund_complete m refund keys :
  (∀ k b, k ∈ keys → m !! k = Some b → refund <= committed b) → checkRefund m refund keys = true.
Proof.
  induction keys as [|key keys IH]; intros H; simpl; [done|].
  destruct (m !! key) as [b|] eqn:E; [|apply IH; set_solver].
  pose proof (H key b ltac:(set_solver) E). destruct (Z.ltb_spec (committed b) refund); [lia|].
  apply IH. set_solver.
Qed.

(** The three outcomes of [adjustOnce] on a ticket with captured buckets. *)
Lemma adjustOnce_cases clk actual t l :
  buckets_ok l → NoDup (tt_buckets t) → 0 < tt_reserved t <= maxInt64 → actual <= maxInt64 →
  (∃ e, adjustOnce clk actual t l = (Some e, [], false, l)) ∨
  adjustOnce clk actual t l = (None, [], false, l) ∧ (tt_limiter t = false ∨ tt_buckets t = []) ∨
  ∃ deltas l1, adjustOnce clk actual t l = (None, deltas, deltaSink l, discardNow clk l1) ∧ 0 <= actual ∧
    buckets_ok l1 ∧ tl_lastNow l1 = tl_lastNow l ∧
    ∀ k, buckets l1 !! k =
      if decide (k ∈ tt_buckets t)
      then buckets l !! k ≫= (drop_empty ∘ adjusted (actual - tt_reserved t)) else buckets l !! k.
Proof.
  intros Hl Hnd Hr Ha. unfold adjustOnce. destruct (Z.ltb_spec actual 0); [eauto|].
  destruct (tt_limiter t); simpl; [|eauto].
  destruct (Nat.eqb_spec (length (tt_buckets t)) 0) as [E|E]; [right; left; apply nil_length_inv in E; eauto|].
  rewrite !sub64_id by lia64. set (delta := actual - tt_reserved t).
  destruct ((tt_reserved t <=? actual) && (delta <? 0)); [eauto|].
  destruct ((0 <? delta) && negb (checkIncrease (buckets l) delta (tt_buckets t))) eqn:E1; [eauto|].
  destruct ((delta <? 0) && negb (checkRefund (buckets l) (tt_reserved t - actual) (tt_buckets t))) eqn:E2; [eauto|].
  right; right.
  destruct (adjustBuckets_spec delta (tt_buckets t) [] l) as (d' & l' & -> & ? & ? & ? & Hsink & Hlk); [lia64|done..| |].
  - intros k b Hk Hb. pose proof (Hl k b Hb) as [Hc _].
    destruct (Z.ltb_spec 0 delta); cbn [andb] in E1.
    + apply negb_false_iff in E1. pose proof (checkIncrease_spec (buckets l) delta (tt_buckets t)
        ltac:(intros k' b' Hb'; apply (Hl k' b' Hb')) ltac:(lia64) E1 k b Hk Hb). lia.
    + destruct (Z.ltb_spec delta 0); cbn [andb] in E2; [|lia].
      apply negb_false_iff in E2. pose proof (checkRefund_spec _ _ _ E2 k b Hk Hb). lia.
  - cbn [negb]. exists d', l'. rewrite Hsink. eauto 8.
Qed.

End adjustment.

(** ** Worlds: a limiter and the reservations it has handed out *)

Record world := mkWorld { w_limiter : TokenLimiter; w_reservations : gmap positive TokenReservation }.

(** What a reservation still holds in a bucket, and what its unconsumed ticket
    has charged there. *)
Definition unsettled (key : tokenBucketKey) (r : TokenReservation) : Z :=
  if tr_finalized r then 0 else if decide (key ∈ tr_buckets r) then Z.max 0 (tr_amount r) else 0.
Definition deferred (key : tokenBucketKey) (r : TokenReservation) : Z :=
  match tr_ticket r with
  | Some t => if tt_once t then 0 else if decide (key ∈ tt_buckets t) then Z.max 0 (tt_reserved t) else 0
  | None => 0
  end.

Definition with_ticket (t : TokenAdjustmentTicket) (r : TokenReservation) : TokenReservation :=
  mkReservation (tr_limiter r) (tr_buckets r) (tr_amount r) (tr_finalized r) (tr_finalErr r) (Some t).

(** One call, by any goroutine.  [ts_final] covers [Commit], [AbortConservative],
    [ReleaseBeforeUpstream] and their aliases.  In an [honest] run the observed
    usage stays within the estimate. *)
Inductive tstep (honest : bool) : world → world → Prop :=
| ts_reserve l m clk keyID ws amt r reset l' :
    clock_range clk → windows_int64 ws → amt <= maxInt64 →
    TokenLimiter_Reserve clk keyID ws amt l = (Some r, reset, l') →
    tstep honest (mkWorld l m) (mkWorld l' (<[fresh (dom m) := r]> m))
| ts_reject l m clk keyID ws amt reset l' :
    clock_range clk → windows_int64 ws → amt <= maxInt64 →
    TokenLimiter_Reserve clk keyID ws amt l = (None, reset, l') →
    tstep honest (mkWorld l m) (mkWorld l' m)
| ts_final l m i r clk usage actual err r' l' :
    m !! i = Some r → clock_range clk → usage <= maxInt64 → (honest = true → usage <= tr_amount r) →
    finalizeOnce clk usage actual r l = (err, r', l') →
    tstep honest (mkWorld l m) (mkWorld l' (<[i := r']> m))
| ts_defer l m i r clk err r' l' :
    m !! i = Some r → clock_range clk → TokenReservation_CommitDeferred clk r l = (err, r', l') →
    tstep honest (mkWorld l m) (mkWorld l' (<[i := r']> m))
| ts_adjust l m i r t clk actual err t' l' :
    m !! i = Some r → tr_ticket r = Some t → clock_range clk → actual <= maxInt64 →
    (honest = true → tt_once t = false → actual <= tt_reserved t) →
    ticket_Adjust clk actual t l = (err, t', l') →
    tstep honest (mkWorld l m) (mkWorld l' (<[i := with_ticket t' r]> m))
| ts_invalidate l m i r t :
    m !! i = Some r → tr_ticket r = Some t →
    tstep honest (mkWorld l m) (mkWorld l (<[i := with_ticket (ticket_Invalidate t) r]> m))
| ts_register l m keyID ws :
    tstep honest (mkWorld l m) (mkWorld (TokenLimiter_RegisterPolicy keyID ws l) m)
| ts_replace l m clk keyID old new (commit : option (option unit)) err l' :
    clock_range clk → TokenLimiter_ReplacePolicy clk keyID old new commit l = (err, l') →
    tstep honest (mkWorld l m) (mkWorld l' m)
| ts_len l m clk : clock_range clk → tstep honest (mkWorld l m) (mkWorld (TokenLimiter_Len clk l).2 m)
| ts_retry l m clk reset :
    clock_range clk → tstep honest (mkWorld l m) (mkWorld (TokenLimiter_RetryAfterSeconds clk reset l).2 m)
| ts_sink l m b : tstep honest (mkWorld l m) (mkWorld (SetCommittedDeltaSink b l) m).

(** Startup: an empty limiter, or one whose durable rows loaded without error. *)
Inductive tstart (honest : bool) : world → Prop :=
| start_new : tstart honest (mkWorld NewTokenLimiter ∅)
| start_load now rows l :
    clock_range now →
    Forall (λ r, ctb_CommittedTokens r <= if honest then amount (ctb_Window r) else maxInt64) rows →
    Forall (λ r, amount (ctb_Window r) <= maxInt64 ∧ duration (ctb_Window r) <= maxInt64) rows →
    TokenLimiter_LoadCommitted now rows NewTokenLimiter = (None, l) →
    tstart honest (mkWorld l ∅).

Definition treachable (honest : bool) (w : world) : Prop :=
  ∃ w0, tstart honest w0 ∧ rtc (tstep honest) w0 w.

(** ** The invariant *)

Definition reservation_wf (r : TokenReservation) : Prop :=
  NoDup (tr_buckets r) ∧ 0 < tr_amount r <= maxInt64 ∧ (tr_limiter r = false → tr_buckets r = []) ∧
  match tr_ticket r with
  | None => True
  | Some t => tr_finalized r = true ∧ NoDup (tt_buckets t) ∧
      (tt_once t = false → tt_buckets t = tr_buckets r ∧ tt_reserved t = tr_amount r)
  end.

Definition active_matches (l : TokenLimiter) (m : gmap positive TokenReservation) : Prop :=
  ∀ key, match buckets l !! key with
         | Some b => active b = msum (unsettled key) m
         | None => msum (unsettled key) m = 0
         end.

Definition within_quota (l : TokenLimiter) : Prop :=
  ∀ key b, buckets l !! key = Some b →
    committed b + active b <= amount (bk_window key) ∧ amount (bk_window key) <= maxInt64.

Definition expired (t : Z) (key : tokenBucketKey) : Prop :=
  ∃ reset, checkedWindowReset (bk_start key) (duration (bk_window key)) = (reset, true) ∧ reset <= t.

(** The charge of an unconsumed ticket is still in its bucket, unless the
    bucket's window is over. *)
Definition tickets_charged (l : TokenLimiter) (m : gmap positive TokenReservation) : Prop :=
  ∀ key, match buckets l !! key with
         | Some b => msum (deferred key) m <= committed b
         | None => msum (deferred key) m = 0 ∨ expired (tl_lastNow l) key
         end.

Record tinv (honest : bool) (w : world) : Prop := {
  ti_buckets : buckets_ok (w_limiter w);
  ti_time : tl_time_ok (tl_lastNow (w_limiter w));
  ti_active : active_matches (w_limiter w) (w_reservations w);
  ti_wf : map_Forall (λ _ r, reservation_wf r) (w_reservations w);
  ti_quota : honest = true → within_quota (w_limiter w);
  ti_tickets : honest = true → tickets_charged (w_limiter w) (w_reservations w);
}.

Section invariant.
Context (honest : bool).

Lemma unsettled_nonneg key r : 0 <= unsettled key r.
Proof. unfold unsettled. repeat case_match; lia. Qed.
Lemma deferred_nonneg key r : 0 <= deferred key r.
Proof. unfold deferred. repeat case_match; lia. Qed.

Lemma unfinalized_no_ticket r : reservation_wf r → tr_finalized r = false → tr_ticket r = None.
Proof. intros (_ & _ & _ & Ht) Hf. destruct (tr_ticket r); [|done]. destruct Ht; congruence. Qed.

Lemma discardNow_time clk l :
  tl_time_ok (tl_lastNow l) → clock_range clk →
  tl_lastNow (discardNow clk l) = Z.max (tl_lastNow l) clk ∧ tl_time_ok (tl_lastNow (discardNow clk l)).
Proof.
  intros Ht Hc. rewrite discardNow_eq by done. simpl. split; [done|].
  unfold tl_time_ok, clock_range, zeroTime in *. lia.
Qed.

Lemma discard_expired clk l key b :
  tl_time_ok (tl_lastNow l) → clock_range clk →
  buckets l !! key = Some b → buckets (discardNow clk l) !! key = None →
  expired (tl_lastNow (discardNow clk l)) key.
Proof.
  intros Ht Hc Hb. rewrite discardNow_eq by done. simpl. rewrite map_lookup_filter_None.
  intros [H|H]; [congruence|]. specialize (H b Hb). unfold bucket_kept in H. simpl in H. unfold expired.
  destruct (checkedWindowReset _ _) as [reset ok]. destruct ok; simpl in H; [|done].
  exists reset. split; [done|]. unfold After in H.
  destruct (Z.ltb_spec (Z.max (tl_lastNow l) clk) reset); [by destruct H|done].
Qed.

Lemma expired_mono t t' key : t <= t' → expired t key → expired t' key.
Proof. intros H (r & ? & ?). exists r. split; [done|lia]. Qed.

(** Expiry, and only moving time forward, preserves the invariant. *)
Lemma discardNow_inv clk l m :
  clock_range clk → tinv honest (mkWorld l m) → tinv honest (mkWorld (discardNow clk l) m).
Proof.
  intros Hc [Hb Ht Ha Hw Hq Hk]. simpl in *. destruct (discardNow_time clk l Ht Hc) as [Et Hto].
  constructor; simpl; try done.
  - by apply discardNow_ok.
  - intros key. specialize (Ha key). destruct (discardNow_lookup clk l key) as [-> |[-> (b & Eb & H0)] ]; [done|].
    rewrite Eb in Ha. congruence.
  - intros Hh key b Hkb. apply (Hq Hh). by eapply discardNow_Some.
  - intros Hh key. specialize (Hk Hh key). destruct (discardNow_lookup clk l key) as [E|[E (b & Eb & H0)] ].
    + rewrite E. case_match; [done|]. destruct Hk as [?|?]; [by left|right]. eapply expired_mono; [|done]. lia.
    + rewrite E. right. by eapply discard_expired.
Qed.

(** Changes of the limiter that the invariant does not look at. *)
Lemma frame_inv l l' m :
  buckets l' = buckets l → tl_lastNow l' = tl_lastNow l →
  tinv honest (mkWorld l m) → tinv honest (mkWorld l' m).
Proof.
  intros Eb Et [Hb Ht Ha Hw Hq Hk]. simpl in *.
  constructor; simpl; unfold buckets_ok, active_matches, within_quota, tickets_charged in *; rewrite ?Eb, ?Et; done.
Qed.

(** A new reservation, with [amt] added to the active part of its buckets. *)
Lemma reserve_inv l l' m keys keyID now amt ws :
  tinv honest (mkWorld l m) → 0 < amt <= maxInt64 → Forall window_wf ws → NoDup ws →
  clock_range now → tl_lastNow l = now → tl_lastNow l' = now →
  keys = map (window_key keyID now) ws → forallb (computable now) ws = true →
  forallb (fits l keyID now amt) ws = true →
  (∀ key, buckets l' !! key = if decide (key ∈ keys)
       then Some (mkBucket (committed (bucket_at l key)) (active (bucket_at l key) + amt)) else buckets l !! key) →
  tinv honest (mkWorld l' (<[fresh (dom m) := mkReservation true keys amt false None None]> m)).
Proof.
  intros [Hb Ht Ha Hw Hq Hk] Hamt Hws Hnd Hnow El El' Ekeys Hcomp Hfit Hlk. simpl in *.
  assert (Hfresh : m !! fresh (dom m) = None) by apply not_elem_of_dom, is_fresh.
  assert (Hkey : ∀ key, key ∈ keys → ∃ w, w ∈ ws ∧ key = window_key keyID now w ∧
     committed (bucket_at l key) + active (bucket_at l key) + amt <= amount (bk_window key) ∧ ¬ expired now key ∧
     amount (bk_window key) <= maxInt64).
  { intros key Hin. rewrite Ekeys in Hin. apply list_elem_of_fmap in Hin as (w & -> & Hin).
    exists w. split; [done|]. split; [done|].
    pose proof (proj1 (forallb_forall _ _) Hfit w ltac:(by apply list_elem_of_In)) as Hf.
    pose proof (proj1 (forallb_forall _ _) Hcomp w ltac:(by apply list_elem_of_In)) as Hc.
    rewrite Forall_forall in Hws. destruct (Hws w Hin) as [Hwa Hwd].
    unfold fits in Hf. split; [simpl; lia|]. split; [|simpl; lia].
    unfold expired, window_key, computable in *. simpl.
    destruct (fixedWindowStartChecked now (duration w)) as [s sok] eqn:Es. simpl in *.
    destruct sok; [|done]. apply fixedWindowStartChecked_true in Es as [-> Hd]; [|done|lia].
    pose proof (window_start_spec now (duration w) Hd).
    pose proof (window_start_nonneg now (duration w) Hd ltac:(apply Hnow)).
    rewrite checkedWindowReset_eq by (unfold clock_range in Hnow; lia).
    intros (r & Er & Hr). case_match; simplify_eq; lia. }
  constructor; simpl.
  - intros key b. rewrite Hlk. case_decide as Hin; [|apply Hb]. intros [= <-].
    destruct (Hkey key Hin) as (w & _ & _ & Hfw & _ & Hmax). pose proof (bucket_at_ok l key Hb) as [? ?].
    split; simpl; lia.
  - rewrite El'. rewrite <-El. done.
  - intros key. rewrite Hlk, msum_insert by done. unfold unsettled at 1 3. simpl.
    specialize (Ha key). case_decide as Hin.
    + simpl. unfold bucket_at. destruct (buckets l !! key); simpl in *; lia.
    + rewrite Z.add_0_l. exact Ha.
  - apply map_Forall_insert_2; [|done]. split; [|split; [done|split; [done|done] ] ]. simpl.
    rewrite Ekeys. apply NoDup_fmap_2_strong; [|done]. intros ? ? _ _. apply window_key_inj.
  - intros Hh key b. rewrite Hlk. case_decide as Hin; [|by apply Hq]. intros [= <-].
    destruct (Hkey key Hin) as (w & _ & _ & Hfw & _ & ?). simpl. lia.
  - intros Hh key. rewrite msum_insert by done. specialize (Hk Hh key). rewrite Hlk, El'. unfold deferred at 1 3. simpl.
    rewrite El in Hk. case_decide as Hin; [|exact Hk]. simpl. unfold bucket_at.
    destruct (buckets l !! key); simpl; [done|]. destruct (Hkey key Hin) as (w & _ & _ & _ & Hne & _).
    destruct Hk as [-> |?]; [lia|done].
Qed.

(** Settling an unfinalized reservation; [r'] is the settled one. *)
Lemma settle_inv l m i r r' clk settle result :
  tinv honest (mkWorld l m) → clock_range clk → m !! i = Some r → tr_finalized r = false →
  tr_finalized r' = true → reservation_wf r' →
  0 <= settle <= maxInt64 → (honest = true → settle <= tr_amount r) →
  (∀ key, deferred key r' <= if decide (key ∈ tr_buckets r) then settle else 0) →
  tinv honest (mkWorld
    (discardNow clk (foldl (settleBucket (tr_amount r) settle) (result, l) (tr_buckets r)).2) (<[i := r']> m)).
Proof.
  intros [Hb Ht Ha Hw Hq Hk] Hc Hm Hf Hf' Hwf' Hs Hhon Hdef. simpl in *.
  destruct (Hw i r Hm) as (Hnd & Hamt & _ & _).
  pose proof (unfinalized_no_ticket r (Hw i r Hm) Hf) as Htick.
  destruct (settle_lookup (tr_amount r) settle (tr_buckets r) result l Hb ltac:(lia) Hs Hnd) as (Hb1 & _ & Hlk).
  set (l1 := (foldl (settleBucket (tr_amount r) settle) (result, l) (tr_buckets r)).2) in *.
  assert (Hlast : tl_lastNow l1 = tl_lastNow l).
  { unfold l1. clear. generalize result l. induction (tr_buckets r) as [|k ks IH]; intros res l0; [done|]. cbn [foldl].
    destruct (settleBucket (tr_amount r) settle (res, l0) k) as [res' l0'] eqn:E. rewrite IH.
    unfold settleBucket, emitDeltaLocked, storeBucket in E. repeat case_match; by simplify_eq/=. }
  assert (Hun : ∀ key, msum (unsettled key) (<[i := r']> m) = msum (unsettled key) m - unsettled key r).
  { intros key. rewrite (msum_update _ _ _ r) by done.
    assert (unsettled key r' = 0) as -> by (unfold unsettled; by rewrite Hf'). lia. }
  assert (Hde : ∀ key, msum (deferred key) (<[i := r']> m) = msum (deferred key) m + deferred key r').
  { intros key. rewrite (msum_update _ _ _ r) by done.
    assert (deferred key r = 0) as -> by (unfold deferred; by rewrite Htick). lia. }
  assert (Hin : ∀ key, key ∈ tr_buckets r → ∃ b, buckets l !! key = Some b ∧ tr_amount r <= active b ∧
      unsettled key r = tr_amount r).
  { intros key Hkin. assert (Hu : unsettled key r = tr_amount r)
      by (unfold unsettled; rewrite Hf, decide_True by done; lia).
    pose proof (msum_le (unsettled key) m i r (unsettled_nonneg key) Hm). specialize (Ha key).
    destruct (buckets l !! key) as [b|]; [|lia]. exists b. split; [done|]. lia. }
  apply discardNow_inv; [done|]. constructor; simpl.
  - done.
  - by rewrite Hlast.
  - intros key. rewrite Hlk, Hun. specialize (Ha key). case_decide as Hkin.
    + destruct (Hin key Hkin) as (b & Eb & Hge & ->). rewrite Eb in *. cbn [mbind option_bind compose].
      assert (active (settled (tr_amount r) settle b) = active b - tr_amount r)
        by (unfold settled; simpl; destruct (Z.ltb_spec (active b) (tr_amount r)); lia).
      destruct (drop_empty_cases (settled (tr_amount r) settle b)) as [(-> & ? & _)| ->]; lia.
    + assert (unsettled key r = 0) as -> by (unfold unsettled; rewrite Hf, decide_False; done).
      rewrite Z.sub_0_r. exact Ha.
  - by apply map_Forall_insert_2.
  - intros Hh key b'. rewrite Hlk. case_decide as Hkin; [|by apply Hq].
    destruct (Hin key Hkin) as (b & Eb & Hge & _). rewrite Eb. simpl. intros ->%drop_empty_Some.
    specialize (Hq Hh key b Eb). specialize (Hhon Hh). unfold settled. simpl.
    destruct (Z.ltb_spec (active b) (tr_amount r)); [lia|]. case_match; lia.
  - intros Hh key. rewrite Hlk, Hde, Hlast. specialize (Hk Hh key). specialize (Hdef key).
    pose proof (deferred_nonneg key r').
    case_decide as Hkin; [|rewrite (Z.le_antisymm (deferred key r') 0), Z.add_0_r by lia; exact Hk].
    destruct (Hin key Hkin) as (b & Eb & Hge & _). rewrite Eb in *. cbn [mbind option_bind compose].
    pose proof (Hq Hh key b Eb). specialize (Hhon Hh). pose proof (Hb key b Eb) as [? ?].
    assert (committed (settled (tr_amount r) settle b) = committed b + settle)
      by (unfold settled; simpl; destruct (Z.leb_spec (committed b + settle) maxInt64); lia).
    pose proof (msum_nonneg (deferred key) m (deferred_nonneg key)).
    destruct (drop_empty_cases (settled (tr_amount r) settle b)) as [(-> & _ & ?)| ->]; [left|]; lia.
Qed.

(** Consuming a ticket: its charge is no longer deferred. *)
Lemma ticket_inv l m i r t' :
  tinv honest (mkWorld l m) → m !! i = Some r → tr_ticket r ≠ None → reservation_wf (with_ticket t' r) →
  (∀ key, deferred key (with_ticket t' r) <= deferred key r) →
  tinv honest (mkWorld l (<[i := with_ticket t' r]> m)).
Proof.
  intros [Hb Ht Ha Hw Hq Hk] Hm Hne Hwf Hdef. simpl in *. constructor; simpl; try done.
  - intros key. rewrite (msum_update _ _ _ r) by done.
    assert (unsettled key (with_ticket t' r) = unsettled key r) as -> by done.
    rewrite Z.sub_add. apply Ha.
  - by apply map_Forall_insert_2.
  - intros Hh key. specialize (Hk Hh key). rewrite (msum_update _ _ _ r) by done. specialize (Hdef key).
    pose proof (msum_le (deferred key) m i r (deferred_nonneg key) Hm).
    pose proof (deferred_nonneg key (with_ticket t' r)).
    case_match; [lia|]. destruct Hk as [?|?]; [left; lia|by right].
Qed.

(** A successful adjustment. *)
Lemma adjust_inv l l1 m i r t t' clk actual :
  tinv honest (mkWorld l m) → clock_range clk → m !! i = Some r → tr_ticket r = Some t → tt_once t = false →
  0 <= actual <= maxInt64 → (honest = true → actual <= tt_reserved t) →
  tt_once t' = true → NoDup (tt_buckets t') → buckets_ok l1 → tl_lastNow l1 = tl_lastNow l →
  (∀ k, buckets l1 !! k = if decide (k ∈ tt_buckets t)
        then buckets l !! k ≫= (drop_empty ∘ adjusted (actual - tt_reserved t)) else buckets l !! k) →
  tinv honest (mkWorld (discardNow clk l1) (<[i := with_ticket t' r]> m)).
Proof.
  intros [Hb Ht Ha Hw Hq Hk] Hc Hm Et Honce Hact Hhon Honce' Hnd' Hb1 Hlast Hlk. simpl in *.
  destruct (Hw i r Hm) as (Hnd & Hamt & HL & Htk). rewrite Et in Htk.
  destruct Htk as (Hfin & _ & Hto). destruct (Hto Honce) as [Ebk Erv].
  assert (Hun : ∀ key, msum (unsettled key) (<[i := with_ticket t' r]> m) = msum (unsettled key) m).
  { intros key. rewrite (msum_update _ _ _ r) by done.
    assert (unsettled key (with_ticket t' r) = unsettled key r) as -> by done. lia. }
  assert (Hde : ∀ key, msum (deferred key) (<[i := with_ticket t' r]> m) =
      msum (deferred key) m - if decide (key ∈ tt_buckets t) then tt_reserved t else 0).
  { intros key. rewrite (msum_update _ _ _ r) by done. unfold deferred at 2 3. simpl.
    rewrite Et, Honce, Honce'. case_decide; lia. }
  apply discardNow_inv; [done|]. constructor; simpl.
  - done.
  - by rewrite Hlast.
  - intros key. rewrite Hlk, Hun. specialize (Ha key). case_decide as Hkin; [|done].
    destruct (buckets l !! key) as [b|]; [|done]. cbn [mbind option_bind compose].
    destruct (drop_empty_cases (adjusted (actual - tt_reserved t) b)) as [(-> & ? & _)| ->]; simpl in *; lia.
  - apply map_Forall_insert_2; [|done]. unfold reservation_wf, with_ticket. simpl.
    split_and!; try done; [lia..|]. congruence.
  - intros Hh key b'. rewrite Hlk. case_decide as Hkin; [|by apply Hq].
    destruct (buckets l !! key) as [b|] eqn:Eb; [|done]. cbn [mbind option_bind compose]. intros ->%drop_empty_Some.
    specialize (Hq Hh key b Eb). specialize (Hhon Hh). simpl. lia.
  - intros Hh key. rewrite Hlk, Hde, Hlast. specialize (Hk Hh key).
    case_decide as Hkin; [|by rewrite Z.sub_0_r].
    assert (Htot : tt_reserved t <= msum (deferred key) m).
    { etrans; [|exact (msum_le (deferred key) m i r (deferred_nonneg key) Hm)].
      unfold deferred. rewrite Et, Honce, decide_True by done. lia. }
    destruct (buckets l !! key) as [b|]; cbn [mbind option_bind compose].
    + destruct (drop_empty_cases (adjusted (actual - tt_reserved t) b)) as [(-> & _ & ?)| ->]; simpl in *; [left|]; lia.
    + destruct Hk as [Hk|Hk]; [left; lia|by right].
Qed.

Lemma Reserve_inv l m clk keyID ws amt r reset l' :
  tinv honest (mkWorld l m) → clock_range clk → windows_int64 ws → amt <= maxInt64 →
  TokenLimiter_Reserve clk keyID ws amt l = (r, reset, l') →
  tinv honest (mkWorld l' (match r with Some r => <[fresh (dom m) := r]> m | None => m end)).
Proof.
  intros Hi Hc Hint Hamt HR.
  assert (Hempty : amt > 0 → tinv honest (mkWorld l (<[fresh (dom m) := mkReservation false [] amt false None None]> m))).
  { intros Hpos. destruct Hi as [Hb Ht Ha Hw Hq Hk]. simpl in *.
    assert (Hfresh : m !! fresh (dom m) = None) by apply not_elem_of_dom, is_fresh.
    constructor; simpl; try done.
    - intros key. rewrite msum_insert by done. apply Ha.
    - apply map_Forall_insert_2; [|done]. split; [constructor|]. simpl. split; [lia|done].
    - intros Hh key. rewrite msum_insert by done. by apply Hk. }
  destruct (Z.leb_spec amt 0) as [Hz|Hpos].
  { unfold TokenLimiter_Reserve in HR. rewrite (proj2 (Z.leb_le amt 0)) in HR by done. by simplify_eq. }
  destruct (windows_ok_dec ws) as [Hok|Hbad].
  2:{ unfold TokenLimiter_Reserve in HR. destruct (Z.leb_spec amt 0); [lia|].
      destruct (normalizeTokenWindows ws) as [n ok] eqn:En.
      pose proof (normalizeTokenWindows_spec ws n ok Hint En) as Hn.
      destruct ok; [by destruct Hn as (_ & _ & ?)|]. simpl in HR. by simplify_eq. }
  destruct ws as [|w0 ws0] eqn:Ews.
  { unfold TokenLimiter_Reserve in HR. destruct (Z.leb_spec amt 0); [lia|]. simpl in HR. simplify_eq. apply Hempty. lia. }
  rewrite <-Ews in *. assert (Hne : ws ≠ []) by (by subst). clear Ews.
  pose proof (Reserve_cases clk keyID ws amt l (ti_buckets _ _ Hi) Hamt Hok Hne Hpos) as HC. cbv zeta in HC.
  destruct (normalizeTokenWindows_ok ws Hok) as (ns & En & Hperm & Hns). rewrite En in HC. cbn [fst] in HC.
  destruct (policy_current l keyID ns); [|rewrite HR in HC; by simplify_eq].
  destruct (forallb (computable (reserve_time clk l)) ns && forallb (fits (discardNow clk l) keyID (reserve_time clk l) amt) ns) eqn:EF.
  2:{ destruct HC as [rs HC]. rewrite HR in HC. simplify_eq. by apply discardNow_inv. }
  rewrite HR in HC. simplify_eq. apply andb_true_iff in EF as [E1 E2].
  pose proof (discardNow_inv clk l m Hc Hi) as Hi1.
  destruct (discardNow_time clk l (ti_time _ _ Hi) Hc) as [Et Hto].
  assert (Enow : reserve_time clk l = Z.max (tl_lastNow l) clk)
    by (unfold reserve_time; rewrite currentTime_eq by (done || apply (ti_time _ _ Hi)); done).
  eapply (reserve_inv (discardNow clk l) _ m _ keyID (reserve_time clk l) amt ns Hi1); try done.
  - apply Hns.
  - apply Hns.
  - rewrite Enow. pose proof (ti_time _ _ Hi) as Ht. simpl in Ht.
    unfold tl_time_ok, clock_range, zeroTime in *. lia.
  - by rewrite Enow.
  - simpl. by rewrite Enow.
  - intros key. apply Reserve_buckets; [apply (ti_buckets _ _ Hi1)|done|apply Hns|done].
Qed.

Lemma finalize_inv l m i r clk usage actual err l' t :
  tinv honest (mkWorld l m) → clock_range clk → m !! i = Some r → tr_finalized r = false →
  usage <= maxInt64 → (honest = true → usage <= tr_amount r) →
  finalize clk r usage actual l = (err, l') →
  t = None ∨ usage = tr_amount r ∧ actual = false ∧
    t = Some (mkTicket (tr_limiter r) (tr_buckets r) (tr_amount r) false false None [] false) →
  tinv honest (mkWorld l' (<[i := set_final err t r]> m)).
Proof.
  intros Hi Hc Hm Hf Hu Hhon HF Ht. destruct (ti_wf _ _ Hi i r Hm) as (Hnd & Hamt & HL & Htk).
  pose proof (unfinalized_no_ticket r (ti_wf _ _ Hi i r Hm) Hf) as Hnt.
  assert (Hwf : reservation_wf (set_final err t r)).
  { unfold reservation_wf, set_final. simpl. split_and!; try done; [lia..|].
    destruct Ht as [-> |(_ & _ & ->)]; [done|]. simpl. done. }
  assert (Hdef : ∀ key s, s = usage ∨ t = None → 0 <= s → deferred key (set_final err t r) <= if decide (key ∈ tr_buckets r) then s else 0).
  { intros key s Hs Hs0. unfold deferred, set_final. simpl. destruct Ht as [-> |(-> & _ & ->)]; [case_decide; lia|]. simpl.
    destruct Hs as [-> |?]; [|done]. case_decide; lia. }
  destruct (decide (tr_limiter r = true ∧ tr_buckets r ≠ [])) as [ [HL1 Hne]|Hno].
  - rewrite finalize_eq in HF by (done || lia).
    destruct (settlement (buckets l) r usage actual) as [settle result] eqn:Es.
    pose proof (settlement_range (buckets l) r usage actual Hamt Hu) as Hsr. rewrite Es in Hsr. cbn [fst] in Hsr.
    destruct (foldl (settleBucket (tr_amount r) settle) (result, l) (tr_buckets r)) as [res1 l1] eqn:EF.
    injection HF as <- <-.
    replace l1 with (foldl (settleBucket (tr_amount r) settle) (result, l) (tr_buckets r)).2 by (by rewrite EF).
    apply settle_inv; try done.
    + intros Hh. pose proof (settlement_bound (buckets l) r usage actual ltac:(lia) (Hhon Hh)) as Hb.
      by rewrite Es in Hb.
    + intros key. apply Hdef; [|lia]. destruct Ht as [-> |(-> & -> & _)]; [by right|left].
      unfold settlement in Es. destruct (Z.ltb_spec (tr_amount r) 0); [lia|]. by injection Es as <- _.
  - assert (HB : tr_buckets r = []).
    { destruct (tr_limiter r); [|by apply HL]. destruct (tr_buckets r); [done|]. by destruct Hno. }
    assert (l' = l) as ->.
    { unfold finalize in HF. rewrite HB in HF.
      destruct (usage <? 0); cbv iota beta in HF; cbn [length Nat.eqb] in HF;
        rewrite orb_true_r in HF; cbn [orb] in HF; by simplify_eq. }
    destruct Hi as [Hb Htm Ha Hw Hq Hk]. simpl in *.
    assert (Hd0 : ∀ key, deferred key (set_final err t r) = 0).
    { intros key. unfold deferred, set_final. simpl. destruct Ht as [-> |(_ & _ & ->)]; [done|]. simpl.
      rewrite HB. rewrite decide_False by set_solver. done. }
    constructor; simpl; try done.
    + intros key. rewrite (msum_update _ _ _ r) by done.
      assert (unsettled key r = 0) as -> by (unfold unsettled; rewrite Hf, HB, decide_False; set_solver).
      assert (unsettled key (set_final err t r) = 0) as -> by done.
      rewrite Z.sub_0_r, Z.add_0_r. apply Ha.
    + by apply map_Forall_insert_2.
    + intros Hh key. rewrite (msum_update _ _ _ r) by done. rewrite Hd0.
      assert (deferred key r = 0) as -> by (unfold deferred; by rewrite Hnt).
      rewrite Z.sub_0_r, Z.add_0_r. by apply Hk.
Qed.

Definition loaded (key : tokenBucketKey) (b : tokenBucket) : Prop :=
  active b = 0 ∧ 0 <= committed b <= maxInt64 ∧
  (honest = true → committed b <= amount (bk_window key) ∧ amount (bk_window key) <= maxInt64).

Lemma loadRows_loaded now rows m :
  Forall (λ r, ctb_CommittedTokens r <= if honest then amount (ctb_Window r) else maxInt64) rows →
  Forall (λ r, amount (ctb_Window r) <= maxInt64 ∧ duration (ctb_Window r) <= maxInt64) rows →
  map_Forall loaded m → map_Forall loaded (loadRows now rows m).2.
Proof.
  intros H1 H2. revert m. induction H1 as [|row rows Hr H1 IH]; intros m Hm; [done|].
  apply Forall_cons in H2 as [Hi H2]. specialize (IH H2). cbn [loadRows].
  destruct (_ || _) eqn:EB; [done|].
  destruct (fixedWindowStartChecked _ _) as [start ok]. destruct (negb ok || _); [done|].
  destruct (checkedWindowReset _ _) as [reset rok]. destruct (negb rok || _); [by apply IH|].
  destruct (m !! _); [done|]. apply IH. apply map_Forall_insert_2; [|done].
  split; [done|]. simpl. repeat (apply orb_false_iff in EB as [EB ?]).
  split; [destruct honest; lia|]. intros Hh. rewrite Hh in Hr. lia.
Qed.

Lemma start_inv w : tstart honest w → tinv honest w.
Proof.
  destruct 1 as [|now rows l Hnow H1 H2 HL].
  - constructor; simpl; try done.
    + by left.
    + by intros _ key; left.
  - assert (Hl : map_Forall loaded (buckets l) ∧ tl_lastNow l = now).
    { unfold TokenLimiter_LoadCommitted in HL. destruct (IsZero now); [done|].
      pose proof (loadRows_loaded now rows (buckets NewTokenLimiter) H1 H2 ltac:(done)) as HF.
      destruct (loadRows now rows (buckets NewTokenLimiter)) as [err m]. destruct err; simplify_eq. done. }
    destruct Hl as [Hl <-]. constructor; simpl; try done.
    + intros key b Hb. destruct (Hl key b Hb) as (Ha & Hc & _). split; [done|]. rewrite Ha. unfold maxInt64. lia.
    + by right.
    + intros key. simpl. destruct (buckets l !! key) as [b|] eqn:E; [|done]. by destruct (Hl _ _ E).
    + intros Hh key b Hb. destruct (Hl key b Hb) as (Ha & _ & Hq). specialize (Hq Hh). lia.
    + intros Hh key. simpl. destruct (buckets l !! key) as [b|] eqn:E; [|by left]. destruct (Hl _ _ E) as (_ & ? & _). rewrite msum_empty. lia.
Qed.

Lemma Adjust_inv l m i r t clk actual err t' l' :
  tinv honest (mkWorld l m) → m !! i = Some r → tr_ticket r = Some t → clock_range clk → actual <= maxInt64 →
  (honest = true → tt_once t = false → actual <= tt_reserved t) →
  ticket_Adjust clk actual t l = (err, t', l') →
  tinv honest (mkWorld l' (<[i := with_ticket t' r]> m)).
Proof.
  intros Hi Hm Et Hc Hact Hhon HA.
  assert (Hemit : ∀ ds l0, buckets (foldl (λ l d, emit d l) l0 ds) = buckets l0 ∧
                           tl_lastNow (foldl (λ l d, emit d l) l0 ds) = tl_lastNow l0).
  { induction ds as [|d ds IH]; intros l0; [done|]. simpl. destruct (IH (emit d l0)) as [-> ->]. done. }
  destruct (ti_wf _ _ Hi i r Hm) as (Hnd & Hamt & HL & Htk). rewrite Et in Htk. destruct Htk as (Hfin & Hndt & Hto).
  assert (Hwf : ∀ t1, tt_once t1 = true → tt_buckets t1 = tt_buckets t → reservation_wf (with_ticket t1 r)).
  { intros t1 H1 H2. unfold reservation_wf, with_ticket. simpl. rewrite H1, H2. split_and!; try done; lia. }
  assert (Hdef : ∀ t1 key, tt_once t1 = true → deferred key (with_ticket t1 r) <= deferred key r).
  { intros t1 key H1. pose proof (deferred_nonneg key r). unfold deferred at 1. simpl. rewrite H1. lia. }
  unfold ticket_Adjust in HA. destruct (tt_once t) eqn:Honce.
  - assert (Hr : tinv honest (mkWorld l (<[i := with_ticket t' r]> m))).
    { destruct (tt_notify t); simplify_eq.
      - replace (with_ticket t' r) with r by (destruct r; unfold with_ticket; simpl in *; by subst).
        by rewrite insert_id.
      - eapply ticket_inv; try done; [congruence|by apply Hwf|intros; by apply Hdef]. }
    destruct (tt_notify t); simplify_eq; [done|].
    destruct (tt_sink t); [|done]. eapply frame_inv; [apply Hemit..|done].
  - destruct (Hto eq_refl) as [Ebk Erv]. specialize (λ Hh, Hhon Hh eq_refl).
    destruct (adjustOnce clk actual t l) as [ [ [aerr deltas] sink] l2] eqn:EO.
    set (t1 := mkTicket (tt_limiter t) (tt_buckets t) (tt_reserved t) true (tt_notify t) aerr deltas sink) in HA.
    assert (Hr : ∀ t2, tt_once t2 = true → tt_buckets t2 = tt_buckets t →
              tinv honest (mkWorld l2 (<[i := with_ticket t2 r]> m))).
    { intros t2 H1 H2.
      destruct (adjustOnce_cases clk actual t l (ti_buckets _ _ Hi) Hndt ltac:(lia) Hact)
        as [ [e E] |[ [E _] |(ds & l1 & E & Hge & Hb1 & Hlast & Hlk)] ]; rewrite EO in E; simplify_eq.
      - eapply ticket_inv; try done; [congruence|by apply Hwf|intros; by apply Hdef].
      - eapply ticket_inv; try done; [congruence|by apply Hwf|intros; by apply Hdef].
      - eapply (adjust_inv l l1 m i r t t2 clk actual); try done. by rewrite H2. }
    cbv beta iota zeta in HA. destruct (tt_notify t1); simplify_eq; [by apply Hr|].
    destruct (tt_sink t1); [|by apply Hr]. eapply frame_inv; [apply Hemit..|by apply Hr].
Qed.

Lemma tstep_inv w w' : tstep honest w w' → tinv honest w → tinv honest w'.
Proof.
  destruct 1 as [l m clk k ws amt r reset l' Hc Hw Ha HR|l m clk k ws amt reset l' Hc Hw Ha HR
                |l m i r clk usage actual err r' l' Hm Hc Hu Hh HF|l m i r clk err r' l' Hm Hc HF
                |l m i r t clk actual err t' l' Hm Et Hc Ha Hh HA|l m i r t Hm Et|l m k ws
                |l m clk k old new commit err l' Hc HR|l m clk Hc|l m clk reset Hc|l m b]; intros Hi.
  - exact (Reserve_inv _ _ _ _ _ _ _ _ _ Hi Hc Hw Ha HR).
  - exact (Reserve_inv _ _ _ _ _ _ _ _ _ Hi Hc Hw Ha HR).
  - unfold finalizeOnce in HF. destruct (tr_finalized r) eqn:Ef; cbn [negb] in HF.
    + simplify_eq. by rewrite insert_id.
    + destruct (finalize clk r usage actual l) as [e l1] eqn:EF. simplify_eq.
      rewrite (unfinalized_no_ticket r (ti_wf _ _ Hi i r Hm) Ef).
      eapply finalize_inv; try done. by left.
  - unfold TokenReservation_CommitDeferred in HF. destruct (tr_finalized r) eqn:Ef.
    + simplify_eq. by rewrite insert_id.
    + destruct (finalize clk r (tr_amount r) false l) as [e l1] eqn:EF. simplify_eq.
      destruct (ti_wf _ _ Hi i r Hm) as (_ & ? & _). apply (finalize_inv l m i r clk (tr_amount r) false); try done; [lia|by right].
  - by eapply Adjust_inv.
  - destruct (ti_wf _ _ Hi i r Hm) as (Hnd & Hamt & HL & Htk). rewrite Et in Htk. destruct Htk as (Hfin & Hndt & Hto).
    assert (HI : tt_once (ticket_Invalidate t) = true ∧ NoDup (tt_buckets (ticket_Invalidate t))).
    { unfold ticket_Invalidate. destruct (tt_once t) eqn:E; [done|]. split; [done|constructor]. }
    destruct HI as [HI1 HI2]. eapply ticket_inv; try done; [congruence|..].
    + unfold reservation_wf, with_ticket. simpl. rewrite HI1. split_and!; try done; lia.
    + intros key. pose proof (deferred_nonneg key r). unfold deferred at 1. simpl. rewrite HI1. lia.
  - by eapply frame_inv; [..|exact Hi].
  - unfold TokenLimiter_ReplacePolicy, allowsPolicyReplacementLocked in HR.
    pose proof (discardNow_inv clk l m Hc Hi) as Hd.
    case_match; simplify_eq; [done|]. repeat case_match; simplify_eq; try done. by eapply frame_inv; [..|exact Hd].
  - by apply discardNow_inv.
  - unfold TokenLimiter_RetryAfterSeconds. case_match; [done|].
    rewrite currentTime_eq by (done || apply (ti_time _ _ Hi)). simpl. destruct Hi as [Hb Ht Ha Hw Hq Hk]. simpl in *.
    constructor; simpl; try done.
    + unfold tl_time_ok, clock_range, zeroTime in *. lia.
    + intros Hh key. specialize (Hk Hh key). simpl. case_match; [done|]. destruct Hk as [?|Hk]; [by left|right].
      eapply expired_mono; [|exact Hk]. lia.
  - by eapply frame_inv; [..|exact Hi].
Qed.

Lemma treachable_inv w : treachable honest w → tinv honest w.
Proof.
  intros (w0 & H0 & Hr). apply start_inv in H0. induction Hr; [done|]. eauto using tstep_inv.
Qed.

End invariant.

Section facts.

Lemma settle_emitted amt settle keys result l :
  NoDup keys → (∀ k, k ∈ keys → is_Some (buckets l !! k)) →
  emitted (foldl (settleBucket amt settle) (result, l) keys).2 =
    emitted l ++ (if negb (deltaSink l) || (settle =? 0) then [] else map (λ k, committedTokenDelta k settle) keys).
Proof.
  revert result l. induction keys as [|key keys IH]; intros result l Hnd Hin; cbn [foldl].
  { case_match; by rewrite app_nil_r. }
  apply NoDup_cons in Hnd as [Hnin Hnd].
  destruct (settleBucket amt settle (result, l) key) as [res' l'] eqn:E.
  assert (H : deltaSink l' = deltaSink l ∧ (∀ k, k ≠ key → buckets l' !! k = buckets l !! k) ∧
     emitted l' = emitted l ++ if negb (deltaSink l) || (settle =? 0) then [] else [committedTokenDelta key settle]).
  { unfold settleBucket in E. destruct (Hin key ltac:(set_solver)) as [b Hb]. rewrite Hb in E.
    destruct (checkedNonNegativeAdd (committed b) settle) as [sum ok].
    destruct (if negb ok then (Some ErrTokenAccountingOverflow, committed b) else (result, sum)) as [res com].
    set (b' := mkBucket com (if active b <? amt then 0 else sub64 (active b) amt)) in E.
    destruct (storeBucket_frame key b' l) as (_ & _ & Hs & He).
    injection E as <- <-. unfold emitDeltaLocked. rewrite Hs.
    destruct (negb (deltaSink l) || (settle =? 0)); simpl; split_and!; try done.
    - intros k Hk. by rewrite storeBucket_lookup, decide_False.
    - by rewrite He, app_nil_r.
    - intros k Hk. by rewrite storeBucket_lookup, decide_False.
    - by rewrite He. }
  destruct H as (Hs & Hk & He). rewrite IH; [|done|].
  - rewrite He, Hs. destruct (negb (deltaSink l) || (settle =? 0)); simpl; [by rewrite !app_nil_r|].
    by rewrite <-app_assoc.
  - intros k Hkin. rewrite Hk by (intros ->; done). apply Hin. set_solver.
Qed.

(** In a reachable world an unsettled reservation is active in every bucket it
    captured. *)
Lemma unsettled_present honest w i r key :
  tinv honest w → w_reservations w !! i = Some r → tr_finalized r = false → key ∈ tr_buckets r →
  ∃ b, buckets (w_limiter w) !! key = Some b ∧ tr_amount r <= active b.
Proof.
  intros Hi Hm Hf Hk. destruct (ti_wf _ _ Hi i r Hm) as (_ & Hamt & _).
  pose proof (msum_le (unsettled key) _ i r (unsettled_nonneg key) Hm) as Hle.
  unfold unsettled in Hle at 1. rewrite Hf, decide_True in Hle by done.
  pose proof (ti_active _ _ Hi key) as Ha. destruct (buckets (w_limiter w) !! key) as [b|]; [|lia].
  exists b. split; [done|]. lia.
Qed.

Lemma validateActual_ok m amt usage keys :
  0 <= usage <= maxInt64 →
  (∀ k, k ∈ keys → ∃ b, m !! k = Some b ∧ amt <= active b ∧ 0 <= committed b ∧ committed b + usage <= maxInt64) →
  validateActual m amt usage keys = (usage, None).
Proof.
  intros Hu. induction keys as [|k keys IH]; intros H; simpl; [done|].
  destruct (H k ltac:(set_solver)) as (b & -> & Ha & Hc & Hs). destruct (Z.ltb_spec (active b) amt); [lia|].
  rewrite checkedNonNegativeAdd_spec by lia64.
  rewrite (proj2 (Z.leb_le 0 (committed b))), (proj2 (Z.leb_le 0 usage)), (proj2 (Z.leb_le _ _)) by lia. simpl.
  apply IH. intros k' Hk'. apply H. set_solver.
Qed.

(** [finalize] of an unsettled reservation whose settlement is representable. *)
Lemma finalize_reachable honest l m i r clk usage actual :
  tinv honest (mkWorld l m) → m !! i = Some r → tr_finalized r = false → tr_buckets r ≠ [] →
  0 <= usage <= maxInt64 →
  (∀ k b, k ∈ tr_buckets r → buckets l !! k = Some b → committed b + usage <= maxInt64) →
  ∃ l1, finalize clk r usage actual l = (None, discardNow clk l1) ∧ buckets_ok l1 ∧ tl_lastNow l1 = tl_lastNow l ∧
    deltaSink l1 = deltaSink l ∧
    emitted l1 = emitted l ++ (if negb (deltaSink l) || (usage =? 0) then []
                               else map (λ k, committedTokenDelta k usage) (tr_buckets r)) ∧
    ∀ k, buckets l1 !! k =
      if decide (k ∈ tr_buckets r)
      then buckets l !! k ≫= λ b, drop_empty (mkBucket (committed b + usage) (active b - tr_amount r))
      else buckets l !! k.
Proof.
  intros Hi Hm Hf Hne Hu Hroom. destruct (ti_wf _ _ Hi i r Hm) as (Hnd & Hamt & HL & _).
  assert (Hin : ∀ k, k ∈ tr_buckets r → ∃ b, buckets l !! k = Some b ∧ tr_amount r <= active b)
    by (intros k Hk; exact (unsettled_present honest (mkWorld l m) i r k Hi Hm Hf Hk)).
  assert (Hlim : tr_limiter r = true) by (destruct (tr_limiter r); [done|by destruct (Hne (HL eq_refl))]).
  rewrite finalize_eq by (done || lia).
  assert (settlement (buckets l) r usage actual = (usage, None)) as ->.
  { unfold settlement. destruct (Z.ltb_spec usage 0); [lia|]. destruct actual; [|done].
    rewrite validateActual_ok; [done|done|]. intros k Hk. destruct (Hin k Hk) as (b & Hb & Ha).
    pose proof (ti_buckets _ _ Hi k b Hb) as [? _]. specialize (Hroom k b Hk Hb). exists b. split_and!; done || lia. }
  destruct (settle_lookup (tr_amount r) usage (tr_buckets r) None l (ti_buckets _ _ Hi) ltac:(lia) Hu Hnd) as (Hb1 & Herr & Hlk).
  pose proof (settle_emitted (tr_amount r) usage (tr_buckets r) None l Hnd) as Hem.
  assert (Hframe : tl_lastNow (foldl (settleBucket (tr_amount r) usage) (None, l) (tr_buckets r)).2 = tl_lastNow l ∧
                   deltaSink (foldl (settleBucket (tr_amount r) usage) (None, l) (tr_buckets r)).2 = deltaSink l).
  { clear. generalize (@None TokenError) l. induction (tr_buckets r) as [|k ks IH]; intros res l0; [done|]. cbn [foldl].
    destruct (settleBucket (tr_amount r) usage (res, l0) k) as [res' l0'] eqn:E. destruct (IH res' l0') as [-> ->].
    unfold settleBucket, emitDeltaLocked, storeBucket in E. repeat case_match; by simplify_eq/=. }
  destruct (foldl (settleBucket (tr_amount r) usage) (None, l) (tr_buckets r)) as [res1 l1]. cbn [fst snd] in *.
  exists l1. split.
  - f_equal. rewrite Herr. rewrite (proj2 (forallb_forall _ _)); [done|]. intros k Hk. apply list_elem_of_In in Hk.
    destruct (Hin k Hk) as (b & Hb & _). rewrite Hb. unfold settle_ok. specialize (Hroom k b Hk Hb). lia.
  - split; [done|]. split; [apply Hframe|]. split; [apply Hframe|]. split.
    + apply Hem. intros k Hk. destruct (Hin k Hk) as (b & -> & _). eauto.
    + intros k. rewrite Hlk. case_decide as Hk; [|done]. destruct (Hin k Hk) as (b & Hb & Ha). rewrite Hb. simpl.
      unfold settled. specialize (Hroom k b Hk Hb). rewrite (proj2 (Z.leb_le _ _)) by lia.
      destruct (Z.ltb_spec (active b) (tr_amount r)); [lia|done].
Qed.

Lemma sameTokenWindowSet_perm ws ns :
  NoDup ws → ns ≡ₚ ws → sameTokenWindowSet (list_to_set ws) ns = true.
Proof.
  intros Hnd Hp. unfold sameTokenWindowSet. rewrite size_list_to_set by done.
  rewrite (Permutation_length Hp), Nat.eqb_refl. simpl. apply forallb_forall. intros w Hw.
  apply list_elem_of_In in Hw. apply bool_decide_eq_true. rewrite elem_of_list_to_set. by rewrite <-Hp.
Qed.

Lemma sameTokenWindowSet_inv ws ns :
  NoDup ns → sameTokenWindowSet (list_to_set ws) ns = true → ∀ w, w ∈ ns ↔ w ∈ ws.
Proof.
  intros Hnd H. unfold sameTokenWindowSet in H.
  destruct (Nat.eqb_spec (size (list_to_set ws : gset windowKey)) (length ns)) as [Hs|]; [|done]. simpl in H.
  assert (Hsub : (list_to_set ns : gset windowKey) ⊆ list_to_set ws).
  { intros w Hw. rewrite elem_of_list_to_set in Hw. apply list_elem_of_In in Hw.
    apply (proj1 (forallb_forall _ _) H) in Hw. by apply bool_decide_eq_true in Hw. }
  assert (Heq : (list_to_set ns : gset windowKey) = list_to_set ws).
  { apply leibniz_equiv, set_subseteq_size_equiv; [done|]. rewrite (size_list_to_set ns) by done. lia. }
  intros w. rewrite <-(elem_of_list_to_set (C := gset windowKey)), Heq. apply elem_of_list_to_set.
Qed.

End facts.

(** ** Properties *)

(** C5: conservation.  In every state reachable by any interleaving of calls,
    whatever usage is reported, the active part of each bucket is exactly the
    sum of the amounts of the unsettled reservations that captured it; so a
    settled reservation leaves nothing behind and an unsettled one is counted
    in every window that admitted it. *)
Theorem token_conservation honest l m key :
  treachable honest (mkWorld l m) →
  active (bucket_at l key) = msum (unsettled key) m ∧ bucket_ok (bucket_at l key) ∧
  ∀ i r, m !! i = Some r → tr_finalized r = false → key ∈ tr_buckets r →
         tr_amount r <= active (bucket_at l key).
Proof.
  intros Hr. apply treachable_inv in Hr as Hi. split_and!.
  - pose proof (ti_active _ _ Hi key) as Ha. simpl in Ha. unfold bucket_at.
    destruct (buckets l !! key); simpl; lia.
  - apply bucket_at_ok, (ti_buckets _ _ Hi).
  - intros i r Hm Hf Hk. destruct (unsettled_present honest _ i r key Hi Hm Hf Hk) as (b & Hb & Ha).
    simpl in Hb. unfold bucket_at. by rewrite Hb.
Qed.

Definition demo_token_window : windowKey := mkWindow 100 60000000000.
Definition demo_bucket : tokenBucketKey := mkBucketKey "k" demo_token_window 60000000000.
Definition demo_reserve : option TokenReservation * Z * TokenLimiter :=
  TokenLimiter_Reserve 60000000000 "k" [demo_token_window] 40 NewTokenLimiter.
Definition demo_reservation : TokenReservation := mkReservation true [demo_bucket] 40 false None None.
Definition demo_limiter : TokenLimiter := demo_reserve.2.
Definition demo_world : world := mkWorld demo_limiter {[ 1%positive := demo_reservation ]}.

Lemma demo_reachable honest : treachable honest demo_world.
Proof.
  exists (mkWorld NewTokenLimiter ∅). split; [constructor|]. eapply rtc_l; [|apply rtc_refl].
  assert (demo_world = mkWorld demo_limiter
            (<[fresh (dom (∅ : gmap positive TokenReservation)) := demo_reservation]> ∅)) as -> by (vm_compute; reflexivity).
  apply (ts_reserve honest NewTokenLimiter ∅ 60000000000 "k" [demo_token_window] 40 demo_reservation zeroTime demo_limiter).
  - unfold clock_range, maxInt64. lia.
  - repeat constructor; vm_compute; congruence.
  - unfold maxInt64. lia.
  - vm_compute. reflexivity.
Qed.

Lemma token_conservation_witness :
  active (bucket_at demo_limiter demo_bucket) = 40 ∧
  active (bucket_at demo_limiter demo_bucket) = msum (unsettled demo_bucket) {[ 1%positive := demo_reservation ]}.
Proof.
  split; [vm_compute; reflexivity|].
  apply (token_conservation true demo_limiter {[ 1%positive := demo_reservation ]} demo_bucket (demo_reachable true)).
Defined.

(** C12: no oversubscription.  As long as reported usage does not exceed the
    estimates (and restored rows were within their windows), the committed and
    reserved tokens of every bucket together never exceed the window's amount,
    whatever the order of reservations, settlements, deferrals, adjustments,
    policy changes and clock readings. *)
Theorem token_quota_respected l m key b :
  treachable true (mkWorld l m) → buckets l !! key = Some b →
  committed b + active b <= amount (bk_window key).
Proof. intros Hr Hb. apply treachable_inv in Hr as Hi. by apply (ti_quota _ _ Hi eq_refl key b). Qed.

Lemma token_quota_respected_witness :
  let b := bucket_at demo_limiter demo_bucket in committed b + active b <= 100.
Proof.
  apply (token_quota_respected demo_limiter {[ 1%positive := demo_reservation ]} demo_bucket
           (bucket_at demo_limiter demo_bucket) (demo_reachable true)).
  vm_compute. reflexivity.
Defined.

(** admission is exact and atomic.  On a whole second, with a current valid
    policy, [Reserve] admits exactly when the estimate fits beside the committed
    and active tokens of every window; it then adds the estimate to the active
    part of those buckets and of no other, and otherwise changes nothing beyond
    dropping expired idle buckets. *)
Theorem Reserve_exact honest l m clk keyID ws amt :
  treachable honest (mkWorld l m) → clock_range clk → windows_ok ws → ws ≠ [] → 0 < amt <= maxInt64 →
  let now := Z.max (tl_lastNow l) clk in
  let l1 := discardNow clk l in
  let key w := mkBucketKey keyID w (window_start now (duration w)) in
  now mod second = 0 → Forall (λ w, window_start now (duration w) + duration w <= maxInt64) ws →
  policyWindows l !! keyID = None ∨ policyWindows l !! keyID = Some (list_to_set ws) →
  if forallb (λ w, committed (bucket_at l1 (key w)) + active (bucket_at l1 (key w)) + amt <=? amount w) ws
  then ∃ r l', TokenLimiter_Reserve clk keyID ws amt l = (Some r, zeroTime, l') ∧
         tr_buckets r ≡ₚ map key ws ∧ tr_amount r = amt ∧
         ∀ k, buckets l' !! k = if decide (k ∈ map key ws)
                then Some (mkBucket (committed (bucket_at l1 k)) (active (bucket_at l1 k) + amt))
                else buckets l1 !! k
  else ∃ reset, TokenLimiter_Reserve clk keyID ws amt l = (None, reset, l1).
Proof.
  intros Hr Hc Hok Hne Hamt now l1 key Hwhole Hreset Hpol. apply treachable_inv in Hr as Hi.
  pose proof (Reserve_cases clk keyID ws amt l (ti_buckets _ _ Hi) ltac:(lia) Hok Hne ltac:(lia)) as HC.
  cbv zeta in HC. fold l1 in HC.
  destruct (normalizeTokenWindows_ok ws Hok) as (ns & En & Hperm & Hns). rewrite En in HC. cbn [fst] in HC.
  assert (Enow : reserve_time clk l = now)
    by (unfold reserve_time; rewrite currentTime_eq by (done || apply (ti_time _ _ Hi)); done).
  rewrite Enow in HC.
  assert (Hnow : clock_range now).
  { pose proof (ti_time _ _ Hi) as Ht. simpl in Ht. unfold now, tl_time_ok, clock_range, zeroTime in *. lia. }
  assert (policy_current l keyID ns = true) as Hp.
  { unfold policy_current. destruct Hpol as [-> | ->]; [done|]. apply sameTokenWindowSet_perm; [apply Hok|done]. }
  rewrite Hp in HC.
  assert (Hstart : ∀ w, w ∈ ns → fixedWindowStartChecked now (duration w) = (window_start now (duration w), true) ∧
       window_start now (duration w) + duration w <= maxInt64 ∧ window_wf w).
  { intros w Hw. assert (Hwf : window_wf w) by (by apply (proj1 (Forall_forall _ _) (proj1 Hns))).
    split; [apply fixedWindowStartChecked_whole; [done|done|apply Hwf]|]. split; [|done].
    rewrite Hperm in Hw. by apply (proj1 (Forall_forall _ _) Hreset). }
  assert (Hkey : ∀ w, w ∈ ns → window_key keyID now w = key w)
    by (intros w Hw; unfold window_key, key; by destruct (Hstart w Hw) as [-> _]).
  assert (Hcomp : forallb (computable now) ns = true).
  { apply forallb_forall. intros w Hw%list_elem_of_In. destruct (Hstart w Hw) as (Es & Hle & Hwf).
    unfold computable. rewrite Es. cbn [fst snd andb]. pose proof (window_start_nonneg now (duration w) ltac:(apply Hwf) ltac:(apply Hnow)).
    pose proof (window_start_spec now (duration w) ltac:(apply Hwf)).
    rewrite checkedWindowReset_eq by (unfold clock_range in Hnow; destruct Hwf; lia).
    rewrite (proj2 (Z.leb_le _ _)) by done. done. }
  rewrite Hcomp in HC. cbn [andb] in HC.
  assert (Hfits : forallb (fits l1 keyID now amt) ns =
     forallb (λ w, committed (bucket_at l1 (key w)) + active (bucket_at l1 (key w)) + amt <=? amount w) ws).
  { apply eq_iff_eq_true. rewrite !forallb_forall. unfold fits. split; intros H w Hw%list_elem_of_In.
    - rewrite <-Hkey by (by rewrite Hperm). apply H. apply list_elem_of_In. by rewrite Hperm.
    - rewrite Hkey by done. apply H. apply list_elem_of_In. by rewrite <-Hperm. }
  rewrite Hfits in HC. destruct (forallb _ ws); [|exact HC].
  eexists _, _. split; [exact HC|].
  assert (Hmap : map (window_key keyID now) ns = map key ns)
    by (apply list_fmap_ext; intros i w Hw; apply Hkey; by eapply list_elem_of_lookup_2).
  assert (Hmp : map key ns ≡ₚ map key ws) by (by apply fmap_Permutation).
  split; [cbn [tr_buckets]; by rewrite Hmap|]. split; [done|].
  intros k. cbn [buckets with_buckets]. rewrite Reserve_buckets; [|by apply discardNow_ok, (ti_buckets _ _ Hi)|lia|apply Hns|done].
  rewrite Hmap. destruct (decide (k ∈ map key ns)) as [Hk|Hk]; rewrite Hmp in Hk;
    [rewrite decide_True by done|rewrite decide_False by done]; done.
Qed.

Lemma Reserve_exact_witness :
  (∃ r l', TokenLimiter_Reserve 61000000000 "k" [demo_token_window] 60 demo_limiter = (Some r, zeroTime, l')) ∧
  (∃ reset, TokenLimiter_Reserve 61000000000 "k" [demo_token_window] 61 demo_limiter
            = (None, reset, discardNow 61000000000 demo_limiter)).
Proof.
  assert (Hw : windows_ok [demo_token_window]).
  { split; [repeat constructor; vm_compute; congruence|apply NoDup_singleton]. }
  assert (Hc : clock_range 61000000000) by (unfold clock_range, maxInt64; lia).
  assert (HF : Forall (λ w, window_start (Z.max (tl_lastNow demo_limiter) 61000000000) (duration w) + duration w <= maxInt64)
                 [demo_token_window]) by (repeat constructor; vm_compute; congruence).
  assert (HP : policyWindows demo_limiter !! "k"%string = None) by (vm_compute; reflexivity).
  split.
  - pose proof (Reserve_exact true demo_limiter _ 61000000000 "k" [demo_token_window] 60 (demo_reachable true) Hc Hw
      ltac:(done) ltac:(unfold maxInt64; lia) ltac:(vm_compute; reflexivity) HF (or_introl HP)) as H. cbv zeta in H.
    match type of H with if ?b then _ else _ => destruct b eqn:Hb end; [|vm_compute in Hb; discriminate].
    destruct H as (r & l' & E & _). exists r, l'. exact E.
  - pose proof (Reserve_exact true demo_limiter _ 61000000000 "k" [demo_token_window] 61 (demo_reachable true) Hc Hw
      ltac:(done) ltac:(unfold maxInt64; lia) ltac:(vm_compute; reflexivity) HF (or_introl HP)) as H. cbv zeta in H.
    match type of H with if ?b then _ else _ => destruct b eqn:Hb end; [vm_compute in Hb; discriminate|].
    exact H.
Defined.

(** settlement.  Committing an observed usage that is representable
    succeeds, replaces the reserved amount by the observed one in every bucket
    that admitted the reservation (and touches no other bucket), notifies the
    sink once per bucket, and marks the reservation so that every later
    settlement returns the same result without effect. *)
Theorem Commit_settles honest l m i r clk actual :
  treachable honest (mkWorld l m) → m !! i = Some r → tr_finalized r = false → tr_buckets r ≠ [] →
  0 <= actual <= maxInt64 →
  (∀ k, k ∈ tr_buckets r → committed (bucket_at l k) + actual <= maxInt64) →
  ∃ r' l1, TokenReservation_Commit clk actual r l = (None, r', discardNow clk l1) ∧
    (∀ k, buckets l1 !! k = if decide (k ∈ tr_buckets r)
       then drop_empty (mkBucket (committed (bucket_at l k) + actual) (active (bucket_at l k) - tr_amount r))
       else buckets l !! k) ∧
    emitted l1 = emitted l ++ (if negb (deltaSink l) || (actual =? 0) then []
                               else map (λ k, committedTokenDelta k actual) (tr_buckets r)) ∧
    ∀ clk' usage flag l2, finalizeOnce clk' usage flag r' l2 = (None, r', l2) ∧
                          TokenReservation_CommitDeferred clk' r' l2 = (None, r', l2).
Proof.
  intros Hr Hm Hf Hne Ha Hroom. apply treachable_inv in Hr as Hi.
  destruct (finalize_reachable honest l m i r clk actual true Hi Hm Hf Hne Ha) as (l1 & EF & _ & _ & _ & Hem & Hlk).
  { intros k b Hk Hb. specialize (Hroom k Hk). unfold bucket_at in Hroom. by rewrite Hb in Hroom. }
  unfold TokenReservation_Commit, finalizeOnce. rewrite Hf. cbn [negb]. rewrite EF.
  eexists _, l1. split; [done|]. split; [|split; [exact Hem|done] ].
  intros k. rewrite Hlk. case_decide as Hk; [|done].
  destruct (unsettled_present honest _ i r k Hi Hm Hf Hk) as (b & Hb & _). simpl in Hb.
  unfold bucket_at. rewrite Hb. done.
Qed.

Lemma Commit_settles_witness :
  ∃ r' l1, TokenReservation_Commit 61000000000 55 demo_reservation demo_limiter = (None, r', discardNow 61000000000 l1) ∧
    buckets l1 !! demo_bucket = Some (mkBucket 55 0).
Proof.
  destruct (Commit_settles false demo_limiter _ 1 demo_reservation 61000000000 55 (demo_reachable false)
    ltac:(reflexivity) ltac:(reflexivity) ltac:(done) ltac:(unfold maxInt64; lia)) as (r' & l1 & E & Hlk & _).
  - intros k Hk. apply list_elem_of_singleton in Hk as ->. vm_compute. discriminate.
  - exists r', l1. split; [exact E|]. rewrite Hlk. vm_compute. reflexivity.
Defined.

Section deferral.

Lemma discardNow_filter clk l key :
  tl_time_ok (tl_lastNow l) → clock_range clk →
  buckets (discardNow clk l) !! key =
    buckets l !! key ≫= λ b, if decide (bucket_kept (Z.max (tl_lastNow l) clk) (key, b)) then Some b else None.
Proof.
  intros Ht Hc. rewrite discardNow_eq by done. simpl. rewrite map_lookup_filter.
  destruct (buckets l !! key) as [b|]; simpl; [|done]. case_decide; simpl.
  - by rewrite option_guard_True.
  - by rewrite option_guard_False.
Qed.

Lemma bucket_kept_active now key b b' :
  active b = active b' → bucket_kept now (key, b) ↔ bucket_kept now (key, b').
Proof. intros E. unfold bucket_kept. simpl. by rewrite E. Qed.

Lemma checkIncrease_complete m delta keys :
  0 <= delta <= maxInt64 →
  (∀ k b, k ∈ keys → m !! k = Some b → 0 <= committed b ∧ committed b + delta <= maxInt64) →
  checkIncrease m delta keys = true.
Proof.
  intros Hd. induction keys as [|key keys IH]; intros H; simpl; [done|].
  destruct (m !! key) as [b|] eqn:E; [|apply IH; set_solver].
  destruct (H key b ltac:(set_solver) E). rewrite checkedNonNegativeAdd_spec by lia64.
  rewrite (proj2 (Z.leb_le 0 (committed b))), (proj2 (Z.leb_le 0 delta)), (proj2 (Z.leb_le _ maxInt64)) by lia.
  simpl. apply IH. intros k b' Hk. apply H. set_solver.
Qed.

(** An adjustment whose result is representable succeeds. *)
Lemma adjustOnce_ok clk actual t l :
  buckets_ok l → NoDup (tt_buckets t) → 0 < tt_reserved t <= maxInt64 → 0 <= actual <= maxInt64 →
  tt_limiter t = true → tt_buckets t ≠ [] →
  (∀ k b, k ∈ tt_buckets t → buckets l !! k = Some b →
     0 <= committed b + (actual - tt_reserved t) <= maxInt64) →
  ∃ deltas l1, adjustOnce clk actual t l = (None, deltas, deltaSink l, discardNow clk l1) ∧
    tl_lastNow l1 = tl_lastNow l ∧
    ∀ k, buckets l1 !! k =
      if decide (k ∈ tt_buckets t)
      then buckets l !! k ≫= (drop_empty ∘ adjusted (actual - tt_reserved t)) else buckets l !! k.
Proof.
  intros Hl Hnd Hr Ha HL Hne Hroom. unfold adjustOnce. rewrite HL.
  destruct (Z.ltb_spec actual 0); [lia|].
  destruct (Nat.eqb_spec (length (tt_buckets t)) 0) as [E|E]; [by apply nil_length_inv in E|].
  rewrite !sub64_id by lia64. set (delta := actual - tt_reserved t) in *. cbn [negb orb].
  rewrite (proj2 (andb_false_iff _ _)) by lia.
  destruct ((0 <? delta) && negb (checkIncrease (buckets l) delta (tt_buckets t))) eqn:E1.
  { apply andb_true_iff in E1 as [E1 E1']. rewrite checkIncrease_complete in E1'; [done|lia64|].
    intros k b Hk Hb. specialize (Hroom k b Hk Hb). pose proof (Hl k b Hb) as [? _]. lia. }
  destruct ((delta <? 0) && negb (checkRefund (buckets l) (tt_reserved t - actual) (tt_buckets t))) eqn:E2.
  { apply andb_true_iff in E2 as [E2 E2']. rewrite checkRefund_complete in E2'; [done|].
    intros k b Hk Hb. specialize (Hroom k b Hk Hb). lia. }
  destruct (adjustBuckets_spec delta (tt_buckets t) [] l) as (d' & l' & -> & _ & Hlast & _ & Hsink & Hlk); [lia64|done..|].
  cbn [negb]. exists d', l'. rewrite Hsink. done.
Qed.

Lemma emit_all_buckets ds l : buckets (foldl (λ l d, emit d l) l ds) = buckets l.
Proof. revert l. induction ds as [|d ds IH]; intros l; [done|]. simpl. by rewrite IH. Qed.

End deferral.

(** deferring is transparent.  Settling conservatively with
    [CommitDeferred] and adjusting the ticket to the observed usage afterwards
    leaves the same buckets as committing the observed usage directly. *)
Theorem defer_adjust_is_commit honest l m i r clk actual :
  treachable honest (mkWorld l m) → m !! i = Some r → tr_finalized r = false → tr_buckets r ≠ [] →
  clock_range clk → 0 <= actual <= maxInt64 →
  (∀ k, k ∈ tr_buckets r → committed (bucket_at l k) + Z.max actual (tr_amount r) <= maxInt64) →
  ∃ rc lc rd ld t td la,
    TokenReservation_Commit clk actual r l = (None, rc, lc) ∧
    TokenReservation_CommitDeferred clk r l = (None, rd, ld) ∧ tr_ticket rd = Some t ∧
    ticket_Adjust clk actual t ld = (None, td, la) ∧ buckets la = buckets lc.
Proof.
  intros Hr Hm Hf Hne Hc Ha Hroom. apply treachable_inv in Hr as Hi.
  destruct (ti_wf _ _ Hi i r Hm) as (Hnd & Hamt & HL & _).
  assert (Hlim : tr_limiter r = true) by (destruct (tr_limiter r); [done|by destruct (Hne (HL eq_refl))]).
  assert (Hroom' : ∀ u, u <= Z.max actual (tr_amount r) → ∀ k b, k ∈ tr_buckets r → buckets l !! k = Some b → committed b + u <= maxInt64).
  { intros u Hu k b Hk Hb. specialize (Hroom k Hk). unfold bucket_at in Hroom. rewrite Hb in Hroom. simpl in Hroom. lia. }
  destruct (finalize_reachable honest l m i r clk actual true Hi Hm Hf Hne Ha (Hroom' actual ltac:(lia)))
    as (lc & EC & _ & Hlc & _ & _ & HlkC).
  destruct (finalize_reachable honest l m i r clk (tr_amount r) false Hi Hm Hf Hne ltac:(lia) (Hroom' (tr_amount r) ltac:(lia)))
    as (ld & ED & Hbd & Hld & _ & _ & HlkD).
  assert (Ht : tl_time_ok (tl_lastNow l)) by apply (ti_time _ _ Hi).
  unfold TokenReservation_Commit, finalizeOnce, TokenReservation_CommitDeferred. rewrite Hf. cbn [negb]. rewrite EC, ED.
  set (t := mkTicket (tr_limiter r) (tr_buckets r) (tr_amount r) false false None [] false).
  destruct (discardNow_time clk ld ltac:(by rewrite Hld) Hc) as [Htd Hto]. rewrite Hld in Htd.
  destruct (adjustOnce_ok clk actual t (discardNow clk ld)) as (ds & l1 & EA & Hl1 & HlkA); [by apply discardNow_ok|done..| |].
  { simpl. intros k b Hk Hb. apply discardNow_Some in Hb. rewrite HlkD, decide_True in Hb by done.
    destruct (buckets l !! k) as [b0|] eqn:Eb; [|done]. simpl in Hb. apply drop_empty_Some in Hb as ->. simpl.
    specialize (Hroom' actual ltac:(lia) k b0 Hk Eb). pose proof (ti_buckets _ _ Hi k b0 Eb) as [? _]. lia. }
  eexists _, _, _, _, t, _, _. split; [done|]. split; [done|]. split; [done|].
  unfold ticket_Adjust. cbn [tt_once t]. rewrite EA. cbn [tt_notify tt_finalErr tt_sink tt_deltas t]. split; [done|].
  assert (Hfin : buckets (discardNow clk l1) = buckets (discardNow clk lc)).
  2:{ case_match; [rewrite emit_all_buckets|]; exact Hfin. }
  apply map_eq. intros k. rewrite !discardNow_filter by (done || (by rewrite Hlc) || (by rewrite Hl1)).
  rewrite Hlc, Hl1, Htd. replace (Z.max (Z.max (tl_lastNow l) clk) clk) with (Z.max (tl_lastNow l) clk) by lia.
  rewrite HlkA, HlkC. cbn [tt_buckets t]. rewrite discardNow_filter by (by rewrite ?Hld). rewrite HlkD, Hld.
  set (now := Z.max (tl_lastNow l) clk).
  case_decide as Hk.
  2:{ destruct (buckets l !! k) as [b|]; simpl; [|done]. case_decide; simpl; [by rewrite decide_True|done]. }
  destruct (unsettled_present honest _ i r k Hi Hm Hf Hk) as (b & Hb & Hab). simpl in Hb. rewrite Hb.
  pose proof (ti_buckets _ _ Hi k b Hb) as [? _].
  cbn [mbind option_bind]. set (bd := mkBucket (committed b + tr_amount r) (active b - tr_amount r)).
  set (bc := mkBucket (committed b + actual) (active b - tr_amount r)).
  assert (drop_empty bd = Some bd) as ->.
  { destruct (drop_empty_cases bd) as [(_ & _ & E)|E]; [simpl in E; lia|done]. }
  assert (Hkept : bucket_kept now (k, bd) ↔ bucket_kept now (k, bc)) by (by apply bucket_kept_active).
  assert (adjusted (actual - tt_reserved t) bd = bc) as Eadj by (unfold adjusted, bd, bc; simpl; f_equal; lia).
  assert (Hbind : ∀ (f : tokenBucket → option tokenBucket) x, Some x ≫= f = f x) by done.
  rewrite Hbind. destruct (decide (bucket_kept now (k, bd))) as [Hbd'|Hbd'].
  - rewrite Hbind. unfold compose. rewrite Eadj. done.
  - destruct (drop_empty_cases bc) as [(-> & _)| ->]; [done|]. rewrite Hbind, decide_False by tauto. done.
Qed.

Lemma defer_adjust_is_commit_witness :
  ∃ rc lc rd ld t td la,
    TokenReservation_Commit 61000000000 55 demo_reservation demo_limiter = (None, rc, lc) ∧
    TokenReservation_CommitDeferred 61000000000 demo_reservation demo_limiter = (None, rd, ld) ∧ tr_ticket rd = Some t ∧
    ticket_Adjust 61000000000 55 t ld = (None, td, la) ∧ buckets la = buckets lc.
Proof.
  apply (defer_adjust_is_commit false demo_limiter {[1%positive := demo_reservation]} 1 demo_reservation 61000000000 55).
  - exact (demo_reachable false).
  - reflexivity.
  - reflexivity.
  - discriminate.
  - unfold clock_range, maxInt64. lia.
  - unfold maxInt64. lia.
  - intros k Hk. apply list_elem_of_singleton in Hk as ->. vm_compute. discriminate.
Defined.

(** a pending refund is never lost.  In a run whose reported usage stays
    within the estimates, adjusting an unconsumed ticket downwards always
    succeeds, however many other requests were settled, refunded or expired in
    between. *)
Theorem Adjust_refund_succeeds l m i r t clk actual :
  treachable true (mkWorld l m) → m !! i = Some r → tr_ticket r = Some t → tt_once t = false →
  clock_range clk → 0 <= actual <= tt_reserved t →
  ∃ t' l', ticket_Adjust clk actual t l = (None, t', l') ∧ tt_once t' = true.
Proof.
  intros Hr Hm Et Ho Hc Ha. apply treachable_inv in Hr as Hi.
  destruct (ti_wf _ _ Hi i r Hm) as (Hnd & Hamt & HL & Htk). rewrite Et in Htk.
  destruct Htk as (_ & _ & Hto). destruct (Hto Ho) as [Ebk Erv].
  unfold ticket_Adjust. rewrite Ho.
  assert (HA : ∃ ds s l2, adjustOnce clk actual t l = (None, ds, s, l2)).
  { destruct (decide (tt_limiter t = true ∧ tt_buckets t ≠ [])) as [ [HLt Hne]|Hno].
    - destruct (adjustOnce_ok clk actual t l) as (ds & l1 & E & _); [apply (ti_buckets _ _ Hi)|by rewrite Ebk|lia|lia|done|done| |eauto].
      intros k b Hk Hb. pose proof (ti_buckets _ _ Hi k b Hb) as [? _].
      pose proof (ti_tickets _ _ Hi eq_refl k) as Hch. simpl in Hch, Hb. rewrite Hb in Hch.
      pose proof (msum_le (deferred k) m i r (deferred_nonneg k) Hm) as Hle.
      unfold deferred in Hle at 1. rewrite Et, Ho, decide_True in Hle by done. lia.
    - unfold adjustOnce. destruct (Z.ltb_spec actual 0); [lia|].
      assert (negb (tt_limiter t) || (length (tt_buckets t) =? 0)%nat = true) as ->; [|eauto].
      destruct (tt_limiter t); [|done]. destruct (tt_buckets t) eqn:E; [done|]. by destruct Hno. }
  destruct HA as (ds & s & l2 & ->). destruct (tt_notify t) eqn:En; simpl; rewrite ?En; eauto.
Qed.

Definition demo_deferred : option TokenError * TokenReservation * TokenLimiter :=
  TokenReservation_CommitDeferred 61000000000 demo_reservation demo_limiter.
Definition demo_ticket : TokenAdjustmentTicket := mkTicket true [demo_bucket] 40 false false None [] false.

Lemma Adjust_refund_succeeds_witness :
  ∃ t' l', ticket_Adjust 62000000000 10 demo_ticket demo_deferred.2 = (None, t', l') ∧ tt_once t' = true.
Proof.
  apply (Adjust_refund_succeeds demo_deferred.2 (<[1%positive := demo_deferred.1.2]> {[1%positive := demo_reservation]})
           1 demo_deferred.1.2 demo_ticket 62000000000 10).
  - destruct (demo_reachable true) as (w0 & H0 & Hr). exists w0. split; [exact H0|].
    eapply rtc_r; [exact Hr|]. apply (ts_defer true _ _ 1 demo_reservation 61000000000 demo_deferred.1.1);
      [reflexivity|unfold clock_range, maxInt64; lia|vm_compute; reflexivity].
  - reflexivity.
  - vm_compute. reflexivity.
  - reflexivity.
  - unfold clock_range, maxInt64. lia.
  - simpl. lia.
Defined.

(** policy replacement is a cut-off.  After a replacement has been
    committed, no live bucket of a removed window carries usage of the key, and
    a reservation made with any window set other than the new one is rejected
    without effect. *)
Theorem ReplacePolicy_cutoff {E} clk keyID old new l l' ws amt clk' :
  TokenLimiter_ReplacePolicy (E := E) clk keyID old new (Some None) l = (None, l') →
  windows_ok ws → ws ≠ [] → ¬ (∀ w, w ∈ ws ↔ w ∈ new) →
  (∀ key b, buckets l' !! key = Some b → bk_keyID key = keyID → bk_window key ∈ old → bk_window key ∉ new →
            committed b <= 0 ∧ active b <= 0) ∧
  TokenLimiter_Reserve clk' keyID ws amt l' = (None, zeroTime, l').
Proof.
  intros HR Hok Hne Hdiff. unfold TokenLimiter_ReplacePolicy, allowsPolicyReplacementLocked in HR.
  set (l1 := discardNow clk l) in *.
  case_bool_decide as Hempty; simpl in HR; [|done]. injection HR as <-. split.
  - intros key b Hb Hk Hold Hnew. simpl in Hb.
    destruct (decide (0 < committed b ∨ 0 < active b)) as [Hp|]; [exfalso|lia].
    apply (map_empty (filter (pins keyID (filter (λ w, w ∉ new) old)) (buckets l1))) with (i := key) in Hempty.
    apply map_lookup_filter_None in Hempty as [Hn|Hn]; [congruence|]. apply (Hn b Hb).
    unfold pins. simpl. split; [done|]. split; [|done]. apply list_elem_of_filter. done.
  - unfold TokenLimiter_Reserve. destruct (Z.leb_spec amt 0); [done|].
    destruct (normalizeTokenWindows_ok ws Hok) as (ns & -> & Hperm & Hns). cbn [negb].
    destruct (Nat.eqb_spec (length ns) 0) as [E0|_].
    { apply nil_length_inv in E0 as ->. by apply Permutation_nil_l in Hperm. }
    simpl policyWindows. rewrite lookup_insert_eq.
    destruct (sameTokenWindowSet (list_to_set new) ns) eqn:Es; [exfalso|done]. apply Hdiff. intros w.
    rewrite <-Hperm. apply (sameTokenWindowSet_inv new ns (proj2 Hns) Es).
Qed.

Lemma ReplacePolicy_cutoff_witness :
  let l' := (TokenLimiter_ReplacePolicy (E := unit) 61000000000 "k2" [demo_token_window] [] (Some None) demo_limiter).2 in
  TokenLimiter_Reserve 62000000000 "k2" [demo_token_window] 1 l' = (None, zeroTime, l').
Proof.
  cbv zeta.
  destruct (TokenLimiter_ReplacePolicy (E := unit) 61000000000 "k2" [demo_token_window] [] (Some None) demo_limiter) as [err l'] eqn:ER.
  assert (err = None) as -> by (vm_compute in ER; congruence).
  apply (ReplacePolicy_cutoff 61000000000 "k2" [demo_token_window] [] demo_limiter l' [demo_token_window] 1 62000000000 ER).
  - split; [repeat constructor; vm_compute; congruence|apply NoDup_singleton].
  - discriminate.
  - intros H. apply (not_elem_of_nil demo_token_window), H, list_elem_of_singleton. reflexivity.
Defined.

(** a defect.  The lower bound of [fixedWindowStartChecked] wraps around,
    so whenever the clock is between two whole seconds (as the wall clock
    practically always is) [Reserve] rejects every request of every key with a
    non-empty policy, whatever its size and however empty the windows are. *)
Theorem Reserve_rejects_within_second honest l m clk keyID ws amt :
  treachable honest (mkWorld l m) → clock_range clk → windows_ok ws → ws ≠ [] → amt <= maxInt64 →
  Z.max (tl_lastNow l) clk mod second ≠ 0 → Z.max (tl_lastNow l) clk < 9223372035000000000 →
  ∃ l', TokenLimiter_Reserve clk keyID ws amt l = (None, zeroTime, l').
Proof.
  intros Hr Hc Hok Hne Hmax Hfrac Hlt. apply treachable_inv in Hr as Hi.
  unfold TokenLimiter_Reserve. destruct (Z.leb_spec amt 0); [eauto|].
  destruct (normalizeTokenWindows_ok ws Hok) as (ns & -> & Hperm & Hns). cbn [negb].
  destruct (Nat.eqb_spec (length ns) 0) as [E0|_].
  { apply nil_length_inv in E0 as ->. by apply Permutation_nil_l in Hperm. }
  destruct (match policyWindows l !! keyID with Some _ => _ | None => _ end); [eauto|].
  rewrite currentTime_eq by (done || apply (ti_time _ _ Hi)).
  destruct ns as [|w ns]; [by apply Permutation_nil_l in Hperm|]. cbn [reserveWindows].
  rewrite fixedWindowStartChecked_fraction; [eexists; reflexivity| |done|done].
  pose proof (ti_time _ _ Hi) as Ht. simpl in Ht. unfold tl_time_ok, clock_range, zeroTime in *. lia.
Qed.

Lemma Reserve_rejects_within_second_witness :
  ∃ l', TokenLimiter_Reserve 1700000000500000000 "k" [mkWindow 1000000 3600000000000] 2 NewTokenLimiter = (None, zeroTime, l').
Proof.
  apply (Reserve_rejects_within_second true NewTokenLimiter ∅ 1700000000500000000 "k" [mkWindow 1000000 3600000000000] 2).
  - exists (mkWorld NewTokenLimiter ∅). split; [constructor|apply rtc_refl].
  - unfold clock_range, maxInt64. lia.
  - split; [repeat constructor; vm_compute; congruence|apply NoDup_singleton].
  - discriminate.
  - unfold maxInt64. lia.
  - vm_compute. discriminate.
  - vm_compute. reflexivity.
Defined.
