(* ===== verification/Calendar.v ===== *)
(** * UTC calendar days and months

    The budget limiter ([internal/limiter/budget.go]) charges UTC calendar
    days and months through [time.Date], [Year], [Month], [Day] and [AddDate].
    The proleptic Gregorian calendar those use is modelled by the conversion
    between day numbers and civil dates over 400-year eras; the facts about it
    are computed for every day of one era and carried over by periodicity. *)

From Stdlib Require Import ZArith Lia ZifyBool.
From stdpp Require Import prelude list.
From S2P Require Import Prelude.
Local Open Scope Z_scope.

Definition day_ns : Z := 86400000000000.

(** Days from 0000-03-01 to the epoch, and in an era. *)
Definition epoch_shift : Z := 719468.
Definition era_days : Z := 146097.

(** The civil year (from March), the month (0 is March) and the day within an
    era. *)
Definition era_civil (doe : Z) : Z * Z * Z :=
  let yoe := (doe - doe / 1460 + doe / 36524 - doe / 146096) / 365 in
  let doy := doe - (365 * yoe + yoe / 4 - yoe / 100) in
  let mp := (5 * doy + 2) / 153 in
  (yoe, mp, doy - (153 * mp + 2) / 5 + 1).

(** The day of the era of a civil date, for a year of the era. *)
Definition era_day (yoe mp d : Z) : Z :=
  yoe * 365 + yoe / 4 - yoe / 100 + (153 * mp + 2) / 5 + d - 1.

(** [time.Date(y, m, d, 0, 0, 0, 0, UTC)] as a day number, months 1 to 12. *)
Definition date_days (y m d : Z) : Z :=
  let y' := if m <=? 2 then y - 1 else y in
  let mp := (m + 9) mod 12 in
  y' / 400 * era_days + era_day (y' mod 400) mp d - epoch_shift.

(** [Year], [Month] and [Day] of a day number. *)
Definition days_date (n : Z) : Z * Z * Z :=
  let z := n + epoch_shift in
  let '(yoe, mp, d) := era_civil (z mod era_days) in
  let m := if mp <? 10 then mp + 3 else mp - 9 in
  (yoe + 400 * (z / era_days) + (if m <=? 2 then 1 else 0), m, d).

Definition currentDay (now : Z) : Z :=
  let '(y, m, d) := days_date (now / day_ns) in date_days y m d * day_ns.

Definition currentMonth (now : Z) : Z :=
  let '(y, m, _) := days_date (now / day_ns) in date_days y m 1 * day_ns.

(** [AddDate(0, 1, 0)]: the month is incremented and normalised, the time of
    day is kept.  Used on the first day of a month only, where no day overflow
    occurs. *)
Definition nextMonth (start : Z) : Z :=
  let '(y, m, d) := days_date (start / day_ns) in
  (if m =? 12 then date_days (y + 1) 1 d else date_days y (m + 1) d) * day_ns + start mod day_ns.

Definition validDayStart (start : Z) : bool := negb (IsZero start) && (start =? currentDay start).
Definition validMonthStart (start : Z) : bool := negb (IsZero start) && (start =? currentMonth start).

(** ** Facts about one era

    The year formula is a monotone step function, so it is enough to compute it
    at the first and the last day of each of the 400 years. *)

Definition year_index (doe : Z) : Z := doe - doe / 1460 + doe / 36524 - doe / 146096.

(** The first day of a year of the era; [year_start 400] is the end of the era. *)
Definition year_start (y : Z) : Z := 365 * y + y / 4 - y / 100 + y / 400.

Fixpoint check_years (n : nat) (y : Z) : bool :=
  match n with
  | O => true
  | S n' => (year_index (year_start y) / 365 =? y) && (year_index (year_start (y + 1) - 1) / 365 =? y)
            && (year_start (y + 1) - year_start y <=? 366) && (365 <=? year_start (y + 1) - year_start y)
            && check_years n' (y + 1)
  end.

Section era.

Lemma check_years_spec n y :
  check_years n y = true → ∀ k, y <= k < y + Z.of_nat n →
  year_index (year_start k) / 365 = k ∧ year_index (year_start (k + 1) - 1) / 365 = k ∧
  365 <= year_start (k + 1) - year_start k <= 366.
Proof.
  revert y. induction n as [|n IH]; intros y H k Hk; [lia|]. cbn [check_years] in H.
  repeat (apply andb_true_iff in H as [H ?]).
  destruct (Z.eq_dec k y) as [-> |]; [lia|]. apply (IH (y + 1)); [done|lia].
Qed.

Lemma years_computed : check_years 400 0 = true.
Proof. vm_compute. reflexivity. Qed.

Lemma year_index_step doe : year_index doe <= year_index (doe + 1).
Proof. unfold year_index. div_lia. Qed.

Lemma year_index_mono a b : a <= b → year_index a <= year_index b.
Proof.
  intros H. replace b with (a + Z.of_nat (Z.to_nat (b - a))) by lia.
  induction (Z.to_nat (b - a)) as [|n IH]; [rewrite Z.add_0_r; lia|].
  etrans; [exact IH|]. replace (a + Z.of_nat (S n)) with (a + Z.of_nat n + 1) by lia. apply year_index_step.
Qed.

(** Every day of the era is in one year. *)
Lemma year_exists doe :
  0 <= doe < era_days → ∃ y, 0 <= y < 400 ∧ year_start y <= doe < year_start (y + 1).
Proof.
  intros Hd.
  assert (H : ∀ n, doe < year_start (Z.of_nat n) → ∃ y, 0 <= y < Z.of_nat n ∧ year_start y <= doe < year_start (y + 1)).
  { induction n as [|n IH]; intros Hn; [change (year_start (Z.of_nat 0)) with 0 in Hn; lia|].
    destruct (Z_lt_le_dec doe (year_start (Z.of_nat n))) as [Hlt|Hge].
    - destruct (IH Hlt) as (y & ? & ?). exists y. split; [lia|done].
    - exists (Z.of_nat n). split; [lia|]. split; [done|]. by replace (Z.of_nat n + 1) with (Z.of_nat (S n)) by lia. }
  apply (H 400%nat). change (year_start (Z.of_nat 400)) with era_days. lia.
Qed.

Lemma year_of y doe :
  0 <= y < 400 → year_start y <= doe < year_start (y + 1) → year_index doe / 365 = y.
Proof.
  intros Hy Hd. destruct (check_years_spec _ _ years_computed y ltac:(lia)) as (H1 & H2 & _).
  pose proof (year_index_mono (year_start y) doe ltac:(lia)) as Ha.
  pose proof (year_index_mono doe (year_start (y + 1) - 1) ltac:(lia)) as Hb.
  apply (Z.div_le_mono _ _ 365) in Ha, Hb; [|lia..]. lia.
Qed.

Lemma year_start_code y : 0 <= y < 400 → year_start y = 365 * y + y / 4 - y / 100.
Proof. intros. unfold year_start. rewrite (Z.div_small y 400) by lia. lia. Qed.

(** The date of day [doy] of year [y]. *)
Lemma era_civil_of y doy :
  0 <= y < 400 → 0 <= doy < year_start (y + 1) - year_start y →
  era_civil (year_start y + doy) =
    (y, (5 * doy + 2) / 153, doy - (153 * ((5 * doy + 2) / 153) + 2) / 5 + 1).
Proof.
  intros Hy Hd. unfold era_civil.
  pose proof (year_of y (year_start y + doy) Hy ltac:(lia)) as E. unfold year_index in E. rewrite E.
  rewrite <-year_start_code by done. replace (year_start y + doy - year_start y) with doy by lia. done.
Qed.

(** The day of the year a month begins on. *)
Definition month_start (mp : Z) : Z := (153 * mp + 2) / 5.

Lemma era_day_start y mp d : 0 <= y < 400 → era_day y mp d = year_start y + month_start mp + d - 1.
Proof. intros. rewrite year_start_code by done. unfold era_day, month_start. lia. Qed.

Lemma month_of_day doy :
  0 <= doy < 366 →
  0 <= (5 * doy + 2) / 153 < 12 ∧ month_start ((5 * doy + 2) / 153) <= doy < month_start ((5 * doy + 2) / 153 + 1).
Proof. intros. unfold month_start. div_lia. Qed.

Lemma month_unique mp doy :
  0 <= mp < 12 → month_start mp <= doy < month_start (mp + 1) → (5 * doy + 2) / 153 = mp.
Proof. intros ? H. unfold month_start in H. div_lia. Qed.

(** A day of the era, its date, and the first days of this and the next month. *)
Lemma era_date doe :
  0 <= doe < era_days →
  ∃ y mp doy, 0 <= y < 400 ∧ 0 <= mp < 12 ∧ 0 <= doy < year_start (y + 1) - year_start y ∧
    doe = year_start y + doy ∧ month_start mp <= doy < month_start (mp + 1) ∧
    era_civil doe = (y, mp, doy - month_start mp + 1).
Proof.
  intros Hd. destruct (year_exists doe Hd) as (y & Hy & Hr).
  destruct (check_years_spec _ _ years_computed y ltac:(lia)) as (_ & _ & Hlen).
  destruct (month_of_day (doe - year_start y) ltac:(lia)) as [Hm Hmd].
  exists y, ((5 * (doe - year_start y) + 2) / 153), (doe - year_start y).
  split_and!; try lia.
  transitivity (era_civil (year_start y + (doe - year_start y))); [f_equal; lia|]. apply era_civil_of; lia.
Qed.

End era.

Section months.

(** Day numbers of the first days of the current and the next month. *)
Definition month_first (n : Z) : Z := let '(y, m, _) := days_date n in date_days y m 1.
Definition month_next (n : Z) : Z :=
  let '(y, m, _) := days_date n in if m =? 12 then date_days (y + 1) 1 1 else date_days y (m + 1) 1.

(** A civil date of the era, back to its day number. *)
Lemma date_days_era era y mp d :
  0 <= y < 400 → 0 <= mp < 12 →
  date_days (y + 400 * era + (if (if mp <? 10 then mp + 3 else mp - 9) <=? 2 then 1 else 0))
            (if mp <? 10 then mp + 3 else mp - 9) d
  = era * era_days + era_day y mp d - epoch_shift.
Proof.
  intros Hy Hm. unfold date_days. set (m := if mp <? 10 then mp + 3 else mp - 9).
  assert (Hm9 : (m + 9) mod 12 = mp).
  { unfold m. destruct (Z.ltb_spec mp 10); [|rewrite Z.mod_small; lia].
    replace (mp + 3 + 9) with (mp + 1 * 12) by lia. rewrite Z.mod_add by lia. apply Z.mod_small. lia. }
  rewrite Hm9.
  replace (if m <=? 2 then y + 400 * era + (if m <=? 2 then 1 else 0) - 1
           else y + 400 * era + (if m <=? 2 then 1 else 0)) with (y + era * 400) by (destruct (m <=? 2); lia).
  rewrite Z.div_add, Z.mod_add by lia. rewrite (Z.div_small y), (Z.mod_small y) by lia. done.
Qed.

(** The same for the first day of the following month. *)
Lemma date_days_next era y mp :
  0 <= y < 400 → 0 <= mp < 12 →
  let m := if mp <? 10 then mp + 3 else mp - 9 in
  let yy := y + 400 * era + (if m <=? 2 then 1 else 0) in
  (if m =? 12 then date_days (yy + 1) 1 1 else date_days yy (m + 1) 1)
  = era * era_days + (if mp =? 11 then year_start (y + 1) else year_start y + month_start (mp + 1)) - epoch_shift.
Proof.
  intros Hy Hm m yy.
  destruct (Z.eqb_spec mp 11) as [-> |Hne].
  - change m with 2 in *. subst yy. change (2 =? 12) with false. cbv iota.
    unfold date_days. change (2 + 1 <=? 2) with false. cbv iota. change ((2 + 1 + 9) mod 12) with 0.
    change (if 2 <=? 2 then 1 else 0) with 1.
    destruct (Z.eq_dec y 399) as [-> |].
    + replace (399 + 400 * era + 1) with (0 + (era + 1) * 400) by lia. rewrite Z.div_add, Z.mod_add by lia.
      change (0 / 400) with 0. change (0 mod 400) with 0. change (era_day 0 0 1) with 0.
      change (year_start (399 + 1)) with era_days. lia.
    + replace (y + 400 * era + 1) with (y + 1 + era * 400) by lia. rewrite Z.div_add, Z.mod_add by lia.
      rewrite (Z.div_small (y + 1)), (Z.mod_small (y + 1)) by lia.
      rewrite era_day_start by lia. change (month_start 0) with 0. lia.
  - assert (E : (if m =? 12 then date_days (yy + 1) 1 1 else date_days yy (m + 1) 1) =
      date_days (y + 400 * era + (if (if mp + 1 <? 10 then mp + 1 + 3 else mp + 1 - 9) <=? 2 then 1 else 0))
                (if mp + 1 <? 10 then mp + 1 + 3 else mp + 1 - 9) 1).
    { assert (Hcases : mp = 9 ∨ mp = 10 ∨ mp < 9) by lia. subst yy m.
      destruct Hcases as [-> |[-> |Hlt] ].
      - simpl. f_equal; lia.
      - simpl. done.
      - destruct (Z.ltb_spec mp 10), (Z.ltb_spec (mp + 1) 10); try lia.
        destruct (Z.eqb_spec (mp + 3) 12); [lia|].
        destruct (Z.leb_spec (mp + 3) 2), (Z.leb_spec (mp + 1 + 3) 2); try lia. f_equal; lia. }
    rewrite E, date_days_era by lia. rewrite era_day_start by lia. lia.
Qed.

(** The month of a day: its bounds, and that they are the same for every day
    between them. *)
Lemma month_spec n :
  month_first n <= n < month_next n ∧
  ∀ k, month_first n <= k < month_next n → days_date k = let '(y, m, _) := days_date n in (y, m, k - month_first n + 1).
Proof.
  unfold month_first, month_next.
  set (z := n + epoch_shift). pose proof (Z.mod_pos_bound z era_days ltac:(done)) as Hb.
  pose proof (Z.div_mod z era_days ltac:(done)) as Ez.
  destruct (era_date (z mod era_days) Hb) as (y & mp & doy & Hy & Hm & Hdoy & Edoe & Hmd & Eciv).
  assert (En : days_date n = (y + 400 * (z / era_days) + (if (if mp <? 10 then mp + 3 else mp - 9) <=? 2 then 1 else 0),
                              (if mp <? 10 then mp + 3 else mp - 9), doy - month_start mp + 1)).
  { unfold days_date. fold z. rewrite Eciv. done. }
  rewrite En. rewrite date_days_era, date_days_next by done. rewrite era_day_start by done.
  set (next := if mp =? 11 then year_start (y + 1) else year_start y + month_start (mp + 1)).
  destruct (check_years_spec _ _ years_computed y ltac:(lia)) as (_ & _ & Hlen).
  assert (Hnext : doy + year_start y < next ∧
     ∀ k, month_start mp <= k → year_start y + k < next → k < month_start (mp + 1) ∧ k < year_start (y + 1) - year_start y).
  { unfold next. destruct (Z.eqb_spec mp 11) as [-> |].
    - split; [lia|]. intros k H1 H2. change (month_start (11 + 1)) with 367 in *. lia.
    - split; [lia|]. intros k H1 H2. split; [lia|].
      assert (month_start (mp + 1) <= 337) by (unfold month_start; div_lia). lia. }
  destruct Hnext as [Hn1 Hn2]. split; [unfold z in *; lia|].
  intros k Hk. set (kd := k + epoch_shift - z / era_days * era_days - year_start y).
  destruct (Hn2 kd ltac:(unfold kd; lia) ltac:(unfold kd; lia)) as [Hk1 Hk2].
  assert (Hkd0 : 0 <= kd) by (unfold kd, month_start in *; pose proof (Z.div_pos (153 * mp + 2) 5); lia).
  assert (Hys : 0 <= year_start y ∧ year_start (y + 1) <= era_days) by (unfold year_start, era_days; div_lia).
  assert (Ekd : k + epoch_shift = year_start y + kd + z / era_days * era_days) by (unfold kd; lia).
  unfold days_date. rewrite Ekd. rewrite Z.div_add, Z.mod_add by done.
  rewrite (Z.div_small (year_start y + kd)), (Z.mod_small (year_start y + kd)) by lia.
  rewrite era_civil_of by lia. rewrite (month_unique mp kd) by lia. fold (month_start mp).
  rewrite Z.add_0_l. f_equal. unfold kd. lia.
Qed.

End months.

Section instants.

Lemma days_date_back n : let '(y, m, d) := days_date n in date_days y m d = n.
Proof.
  pose proof (month_spec n) as [Hb Hk]. specialize (Hk n Hb). unfold month_first in *.
  destruct (days_date n) as [ [y m] d]. injection Hk as Hd.
  assert (E : ∀ x, date_days y m x = date_days y m 1 + x - 1) by (intros x; unfold date_days, era_day; lia).
  rewrite E. lia.
Qed.

Lemma currentDay_eq now : currentDay now = now / day_ns * day_ns.
Proof.
  unfold currentDay. pose proof (days_date_back (now / day_ns)) as H.
  destruct (days_date (now / day_ns)) as [ [y m] d]. by rewrite H.
Qed.

Lemma currentMonth_eq now : currentMonth now = month_first (now / day_ns) * day_ns.
Proof. unfold currentMonth, month_first. by destruct (days_date (now / day_ns)) as [ [y m] d]. Qed.

Lemma day_of_multiple n : n * day_ns / day_ns = n.
Proof. apply Z.div_mul. done. Qed.

Lemma month_first_same n k : month_first n <= k < month_next n → month_first k = month_first n.
Proof.
  intros Hk. destruct (month_spec n) as [_ H]. specialize (H k Hk).
  unfold month_first at 1. rewrite H. unfold month_first. by destruct (days_date n) as [ [y m] d].
Qed.

Lemma month_next_first n : month_next (month_first n) = month_next n.
Proof.
  destruct (month_spec n) as [Hb H]. specialize (H (month_first n) ltac:(lia)).
  unfold month_next. rewrite H. by destruct (days_date n) as [ [y m] d].
Qed.

Lemma month_next_ext a b : (days_date a).1 = (days_date b).1 → month_next a = month_next b.
Proof.
  unfold month_next. destruct (days_date a) as [ [y m] d], (days_date b) as [ [y' m'] d']. simpl. by intros [= -> ->].
Qed.

Lemma nextMonth_eq n : nextMonth (month_first n * day_ns) = month_next n * day_ns.
Proof.
  rewrite <-month_next_first. unfold nextMonth, month_next. rewrite day_of_multiple, Z.mod_mul by done.
  destruct (month_spec n) as [Hb H]. specialize (H (month_first n) ltac:(lia)). rewrite H.
  destruct (days_date n) as [ [y m] d]. rewrite Z.add_0_r. by replace (month_first n - month_first n + 1) with 1 by lia.
Qed.

(** The first day after a month begins the next month. *)
Lemma month_next_is_first n : month_first (month_next n) = month_next n.
Proof.
  destruct (month_spec n) as [Hb H]. destruct (month_spec (month_next n)) as [Hb' H'].
  destruct (Z.eq_dec (month_first (month_next n)) (month_next n)) as [|Hne]; [done|exfalso].
  specialize (H (month_next n - 1) ltac:(lia)). specialize (H' (month_next n - 1) ltac:(lia)).
  assert (Ey : (days_date (month_next n)).1 = (days_date n).1).
  { rewrite H' in H. destruct (days_date (month_next n)) as [ [y m] d], (days_date n) as [ [y0 m0] d0].
    injection H as -> -> _. done. }
  apply month_next_ext in Ey. lia.
Qed.

(** The starts computed for instants since the epoch are valid starts. *)
Lemma currentDay_valid now : 0 <= now → validDayStart (currentDay now) = true.
Proof.
  intros H. unfold validDayStart. rewrite (currentDay_eq (currentDay now)), currentDay_eq, day_of_multiple, Z.eqb_refl.
  pose proof (Z.div_pos now day_ns H ltac:(done)). unfold IsZero, zeroTime, day_ns in *.
  destruct (Z.eqb_spec (now / 86400000000000 * 86400000000000) (-62135596800000000000)); [lia|done].
Qed.

Lemma currentMonth_valid now : 0 <= now → validMonthStart (currentMonth now) = true.
Proof.
  intros H. unfold validMonthStart. rewrite (currentMonth_eq (currentMonth now)), currentMonth_eq, day_of_multiple.
  destruct (month_spec (now / day_ns)) as [Hb _].
  rewrite (month_first_same (now / day_ns) (month_first (now / day_ns))), Z.eqb_refl by lia.
  pose proof (Z.div_pos now day_ns H ltac:(done)).
  assert (0 <= month_first (now / day_ns)).
  { destruct (Z_lt_le_dec (month_first (now / day_ns)) 0) as [Hlt|]; [|done].
    pose proof (month_first_same (now / day_ns) 0 ltac:(lia)) as E. change (month_first 0) with 0 in E. lia. }
  unfold IsZero, zeroTime, day_ns in *.
  destruct (Z.eqb_spec (month_first (now / 86400000000000) * 86400000000000) (-62135596800000000000)); [lia|done].
Qed.

End instants.

(** ** Properties *)

(** the calendar periods partition time.  Every instant lies in its UTC day
    and its UTC month; the day lasts 24 hours; every instant between a month's
    start and the next month's start has that same month start; and the reset
    reported for a month is the start of another month. *)
Theorem calendar_periods now :
  (currentDay now <= now < currentDay now + day_ns ∧
   ∀ t, currentDay now <= t < currentDay now + day_ns → currentDay t = currentDay now) ∧
  (currentMonth now <= now < nextMonth (currentMonth now) ∧
   ∀ t, currentMonth now <= t < nextMonth (currentMonth now) → currentMonth t = currentMonth now) ∧
  currentMonth (currentDay now) = currentMonth now ∧
  currentMonth (nextMonth (currentMonth now)) = nextMonth (currentMonth now).
Proof.
  pose proof (Z.div_mod now day_ns ltac:(done)). pose proof (Z.mod_pos_bound now day_ns ltac:(done)).
  assert (Hday : ∀ t, currentDay now <= t < currentDay now + day_ns → t / day_ns = now / day_ns).
  { intros t Ht. rewrite currentDay_eq in Ht. symmetry. apply (Z.div_unique t day_ns _ (t - now / day_ns * day_ns)); lia. }
  split; [split|split; [split|split] ].
  - rewrite currentDay_eq. lia.
  - intros t Ht. rewrite !currentDay_eq. by rewrite Hday.
  - rewrite currentMonth_eq, nextMonth_eq. destruct (month_spec (now / day_ns)) as [Hb _].
    unfold day_ns in *. lia.
  - intros t. rewrite !currentMonth_eq, nextMonth_eq. intros Ht. f_equal. apply month_first_same.
    pose proof (Z.div_mod t day_ns ltac:(done)). pose proof (Z.mod_pos_bound t day_ns ltac:(done)).
    unfold day_ns in *. lia.
  - rewrite !currentMonth_eq, currentDay_eq, day_of_multiple. done.
  - rewrite !currentMonth_eq, nextMonth_eq, day_of_multiple, month_next_is_first. done.
Qed.
