(* ===== verification/BudgetLimiter.v ===== *)
(** * The budget limiter ([internal/limiter/budget.go])

    Exact money reservations against lifetime, daily and monthly budgets.  A
    key's [budgetState] is a shared object: reservations keep a pointer to it
    and its generation, so the model has a heap of states beside the shards'
    maps.  The policy lock spans the whole of [Reserve] and [ReplacePolicy], and
    a key's shard lock spans every access to its state, so each call is one
    step; the clock reading is an argument.  Receivers are non-nil, and so are
    the maps of a state (every state is created with both). *)

From Stdlib Require Import Ascii ZArith Lia ZifyBool.
From stdpp Require Import prelude gmap strings list.
From S2P Require Import Prelude Text Money Windows Calendar.
Local Open Scope Z_scope.

(** ** Errors and records *)

Inductive BudgetCause := CauseInvalidActual | CauseState | CauseArithmetic.

Inductive BudgetError :=
| ErrBudgetInvalid
| ErrBudgetState
| ErrBudgetPolicyReplacementConflict
| BudgetCapacityError (ResetAt : Z) (TotalRejected : bool)
| BudgetSettlementError (Cause : BudgetCause) (Conservative : bool).

Inductive BudgetSettlementKind :=
| BudgetSettlementKnown | BudgetSettlementConservative | BudgetSettlementPreUpstreamRelease | BudgetSettlementDeferred.

#[export] Instance BudgetSettlementKind_eq_dec : EqDecision BudgetSettlementKind.
Proof. solve_decision. Defined.

Definition BudgetPeriodTotal : string := "total".
Definition BudgetPeriodDay : string := "day".
Definition BudgetPeriodMonth : string := "month".

Record BudgetPolicy := mkPolicy {
  Total : Money; Limited : bool; Day : Money; DayLimited : bool; Month : Money; MonthLimited : bool }.

Definition UnlimitedBudgetPolicy : BudgetPolicy := mkPolicy UnknownMoney false UnknownMoney false UnknownMoney false.
Definition LimitedBudgetPolicy (total : Money) : BudgetPolicy :=
  mkPolicy total true UnknownMoney false UnknownMoney false.
Definition LimitedBudgetPolicyWithDay (total day : Money) (totalLimited : bool) : BudgetPolicy :=
  mkPolicy total totalLimited day true UnknownMoney false.
Definition DailyBudgetPolicy (day : Money) : BudgetPolicy := mkPolicy UnknownMoney false day true UnknownMoney false.
Definition MonthlyBudgetPolicy (month : Money) : BudgetPolicy := mkPolicy UnknownMoney false UnknownMoney false month true.
Definition TotalDailyMonthlyBudgetPolicy (total day month : Money) : BudgetPolicy :=
  mkPolicy total true day true month true.

Record BudgetSettlementResult := mkResult {
  sr_KeyID : string; sr_Kind : BudgetSettlementKind; sr_Reserved : Money; sr_Actual : Money;
  sr_Charged : Money; sr_CommittedDelta : Z; sr_Error : option BudgetError }.

(** [Delta] and [CommittedDelta] always hold the same number. *)
Record CommittedBudgetDelta := mkBudgetDelta {
  bd_KeyID : string; bd_Delta : Z; bd_Period : string; bd_PeriodStart : Z }.

Record BudgetSpent := mkSpent {
  bs_KeyID : string; bs_Spent : Money; bs_Period : string; bs_PeriodStart : Z }.

Record budgetDayState := mkDay { day_spent : Money; day_active : Money }.

Record budgetState := mkState {
  spent : Money; active : Money;
  dayBuckets : gmap Z budgetDayState; monthBuckets : gmap Z budgetDayState;
  total : Money; hasLimit : bool; dayLimit : Money; hasDayLimit : bool; monthLimit : Money; hasMonthLimit : bool;
  totalLoaded : bool; generation : Z }.

(** The shards' maps, indexed by shard number and key, hold pointers into the
    heap of states.  [bl_emitted] is the sequence of calls to the sink. *)
Record BudgetLimiter := mkBudgetLimiter {
  bl_states : gmap (Z * string) positive;
  bl_heap : gmap positive budgetState;
  bl_sequence : Z;
  bl_policies : gmap string BudgetPolicy;
  bl_sink : bool;
  bl_emitted : list CommittedBudgetDelta;
  bl_lastNow : Z }.

(** The ticket is reached only through the reservation that created it. *)
Record BudgetAdjustmentTicket := mkBTicket {
  bt_limiter : bool; bt_keyID : string; bt_generation : Z; bt_reserved : Money;
  bt_dayStart : Z; bt_monthStart : Z;
  bt_totalCaptured : bool; bt_dayCaptured : bool; bt_monthCaptured : bool;
  bt_consumed : bool; bt_resultErr : option BudgetError }.

(** [budgetReservationOwnership]; its limiter is never nil. *)
Record BudgetReservation := mkBReservation {
  br_keyID : string; br_state : option positive; br_generation : Z; br_amount : Money;
  br_dayStart : Z; br_monthStart : Z;
  br_totalCaptured : bool; br_dayCaptured : bool; br_monthCaptured : bool;
  br_finalized : bool; br_finalErr : option BudgetError; br_result : option BudgetSettlementResult;
  br_ticket : option BudgetAdjustmentTicket }.

Definition NewBudgetLimiter : BudgetLimiter := mkBudgetLimiter ∅ ∅ 0 ∅ false [] zeroTime.

(** ** Helpers *)

Definition validKeyID (keyID : string) : bool := negb (bool_decide (keyID = ""%string)).
Definition validKnownMoney (value : Money) : bool :=
  let '(m, k) := Money_Micros value in k && (0 <=? m).
Definition knownZeroMoney : Money := mkMoney 0 true.
Definition isZeroMoney (value : Money) : bool :=
  let '(m, k) := Money_Micros value in k && (m =? 0).
Definition sameMoney (first second : Money) : bool :=
  let '(equal, err) := Money_Equal first second in
  match err with None => equal | Some _ => false end.

Definition validPolicy (policy : BudgetPolicy) : bool :=
  if negb (Bool.eqb (Limited policy) (validKnownMoney (Total policy))) then false
  else if negb (Bool.eqb (DayLimited policy) (validKnownMoney (Day policy))) then false
  else Bool.eqb (MonthLimited policy) (validKnownMoney (Month policy)).

Definition sameBudgetPolicy (first second : BudgetPolicy) : bool :=
  Bool.eqb (Limited first) (Limited second) && Bool.eqb (DayLimited first) (DayLimited second)
  && Bool.eqb (MonthLimited first) (MonthLimited second)
  && (negb (Limited first) || sameMoney (Total first) (Total second))
  && (negb (DayLimited first) || sameMoney (Day first) (Day second))
  && (negb (MonthLimited first) || sameMoney (Month first) (Month second)).

Definition applyBudgetPolicyLocked (policy : BudgetPolicy) (st : budgetState) : budgetState :=
  mkState (spent st) (active st) (dayBuckets st) (monthBuckets st)
    (Total policy) (Limited policy) (Day policy) (DayLimited policy) (Month policy) (MonthLimited policy)
    (totalLoaded st || Limited policy) (generation st).

(** FNV-1a over the key's bytes, and the shard it selects. *)
Definition fnv32a (s : bytes) : Z :=
  foldl (λ h c, wrapU32 (Z.lxor h (code c) * 16777619)) 2166136261 s.
Definition budgetShardCount : Z := 32.
Definition shard (keyID : string) : Z := fnv32a (str keyID) mod budgetShardCount.
Definition state_ptr (l : BudgetLimiter) (keyID : string) : option positive := bl_states l !! (shard keyID, keyID).
Definition state_of (l : BudgetLimiter) (keyID : string) : option budgetState :=
  p ← state_ptr l keyID; bl_heap l !! p.

Definition set_state (p : positive) (st : budgetState) (l : BudgetLimiter) : BudgetLimiter :=
  mkBudgetLimiter (bl_states l) (<[p := st]> (bl_heap l)) (bl_sequence l) (bl_policies l) (bl_sink l) (bl_emitted l) (bl_lastNow l).
Definition put_ptr (keyID : string) (p : positive) (l : BudgetLimiter) : BudgetLimiter :=
  mkBudgetLimiter (<[(shard keyID, keyID) := p]> (bl_states l)) (bl_heap l) (bl_sequence l) (bl_policies l) (bl_sink l) (bl_emitted l) (bl_lastNow l).
Definition drop_ptr (keyID : string) (l : BudgetLimiter) : BudgetLimiter :=
  mkBudgetLimiter (delete (shard keyID, keyID) (bl_states l)) (bl_heap l) (bl_sequence l) (bl_policies l) (bl_sink l) (bl_emitted l) (bl_lastNow l).
Definition set_policies (p : gmap string BudgetPolicy) (l : BudgetLimiter) : BudgetLimiter :=
  mkBudgetLimiter (bl_states l) (bl_heap l) (bl_sequence l) p (bl_sink l) (bl_emitted l) (bl_lastNow l).
Definition set_sequence (n : Z) (l : BudgetLimiter) : BudgetLimiter :=
  mkBudgetLimiter (bl_states l) (bl_heap l) n (bl_policies l) (bl_sink l) (bl_emitted l) (bl_lastNow l).
Definition set_lastNow (t : Z) (l : BudgetLimiter) : BudgetLimiter :=
  mkBudgetLimiter (bl_states l) (bl_heap l) (bl_sequence l) (bl_policies l) (bl_sink l) (bl_emitted l) t.
Definition BudgetLimiter_SetCommittedDeltaSink (sink : bool) (l : BudgetLimiter) : BudgetLimiter :=
  mkBudgetLimiter (bl_states l) (bl_heap l) (bl_sequence l) (bl_policies l) sink (bl_emitted l) (bl_lastNow l).

(** A new object for a state. *)
Definition alloc_state (st : budgetState) (l : BudgetLimiter) : positive * BudgetLimiter :=
  let p := fresh (dom (bl_heap l)) in (p, set_state p st l).

Definition valid_bucket (validStart : Z → bool) (e : Z * budgetDayState) : bool :=
  validStart e.1 && validKnownMoney (day_spent e.2) && validKnownMoney (day_active e.2)
  && is_ok (Money_Add (day_spent e.2) (day_active e.2)).

(** Every failure of [validateBudgetState] is the same error, so the order in
    which Go ranges over the maps does not matter. *)
Definition validateBudgetState (st : budgetState) : option BudgetError :=
  if (generation st =? 0) || negb (validKnownMoney (spent st)) || negb (validKnownMoney (active st))
  then Some ErrBudgetState
  else if hasLimit st && negb (validKnownMoney (total st)) then Some ErrBudgetState
  else if negb (is_ok (Money_Add (spent st) (active st))) then Some ErrBudgetState
  else if hasDayLimit st && negb (validKnownMoney (dayLimit st)) then Some ErrBudgetState
  else if hasMonthLimit st && negb (validKnownMoney (monthLimit st)) then Some ErrBudgetState
  else if negb (forallb (valid_bucket validDayStart) (map_to_list (dayBuckets st))) then Some ErrBudgetState
  else if negb (forallb (valid_bucket validMonthStart) (map_to_list (monthBuckets st))) then Some ErrBudgetState
  else None.

Definition BudgetLimiter_nowTime (clk : Z) (l : BudgetLimiter) : Z * BudgetLimiter :=
  if negb (IsZero (bl_lastNow l)) && Before clk (bl_lastNow l) then (bl_lastNow l, l) else (clk, set_lastNow clk l).

Definition BudgetLimiter_RetryAfterSeconds (clk resetAt : Z) (l : BudgetLimiter) : Z * BudgetLimiter :=
  let '(now, l) := BudgetLimiter_nowTime clk l in (RetryAfterSecondsAt now resetAt, l).

(** [sequence.Add(1)] wraps; generation zero is refused. *)
Definition nextGeneration (l : BudgetLimiter) : Z * bool * BudgetLimiter :=
  let g := wrapU64 (bl_sequence l + 1) in (g, negb (g =? 0), set_sequence g l).

Definition newBudgetReservation (keyID : string) (state : option positive) (gen : Z) (amt : Money)
  (dayStart monthStart : Z) (t d m : bool) : BudgetReservation :=
  mkBReservation keyID state gen amt dayStart monthStart t d m false None None None.

(** ** Policies *)

Definition BudgetLimiter_RegisterPolicy (keyID : string) (policy : BudgetPolicy) (l : BudgetLimiter) : BudgetLimiter :=
  if negb (validKeyID keyID) || negb (validPolicy policy) then l
  else set_policies (<[keyID := policy]> (bl_policies l)) l.

Definition BudgetLimiter_PolicyCurrent (keyID : string) (policy : BudgetPolicy) (l : BudgetLimiter) : bool :=
  match bl_policies l !! keyID with
  | Some current => sameBudgetPolicy current policy
  | None => true
  end.

Definition BudgetLimiter_AllowsPolicyReplacement (keyID : string) (oldPolicy newPolicy : BudgetPolicy)
  (l : BudgetLimiter) : bool :=
  match bl_policies l !! keyID with
  | Some current => sameBudgetPolicy current oldPolicy
  | None => true
  end.

(** [commit] is nil, or a callback whose error result is given. *)
Definition BudgetLimiter_ReplacePolicy {E} (keyID : string) (oldPolicy newPolicy : BudgetPolicy)
  (commit : option (option E)) (l : BudgetLimiter) : option (BudgetError + E) * BudgetLimiter :=
  if negb (validKeyID keyID) || negb (validPolicy oldPolicy) || negb (validPolicy newPolicy)
  then (Some (inl ErrBudgetInvalid), l)
  else if match bl_policies l !! keyID with
          | Some current => negb (sameBudgetPolicy current oldPolicy)
          | None => false
          end then (Some (inl ErrBudgetPolicyReplacementConflict), l)
  else
    match commit with
    | Some (Some err) => (Some (inr err), l)
    | _ =>
        let l := set_policies (<[keyID := newPolicy]> (bl_policies l)) l in
        (None, match state_ptr l keyID with
               | Some p => match bl_heap l !! p with
                           | Some st => set_state p (applyBudgetPolicyLocked newPolicy st) l
                           | None => l
                           end
               | None => l
               end)
    end.

(** ** Loading committed spend *)

Record pendingSpent := mkPending { ps_keyID : string; ps_period : string; ps_start : Z; ps_spent : Money }.

Definition pending_of (value : BudgetSpent) : option pendingSpent :=
  if negb (validKeyID (bs_KeyID value)) || negb (validKnownMoney (bs_Spent value))
     || (negb (bool_decide (bs_Period value = ""%string)) && negb (bool_decide (bs_Period value = BudgetPeriodTotal))
         && negb (bool_decide (bs_Period value = BudgetPeriodDay)) && negb (bool_decide (bs_Period value = BudgetPeriodMonth)))
  then None
  else
    let period := if bool_decide (bs_Period value = ""%string) then BudgetPeriodTotal else bs_Period value in
    if bool_decide (period = BudgetPeriodTotal) then
      if IsZero (bs_PeriodStart value)
      then Some (mkPending (bs_KeyID value) period zeroTime (bs_Spent value)) else None
    else if bool_decide (period = BudgetPeriodDay) then
      if validDayStart (bs_PeriodStart value)
      then Some (mkPending (bs_KeyID value) period (currentDay (bs_PeriodStart value)) (bs_Spent value)) else None
    else if bool_decide (period = BudgetPeriodMonth) then
      if validMonthStart (bs_PeriodStart value)
      then Some (mkPending (bs_KeyID value) period (currentMonth (bs_PeriodStart value)) (bs_Spent value)) else None
    else None.

Definition spent_identity (p : pendingSpent) : string * string * Z := (ps_keyID p, ps_period p, ps_start p).

Fixpoint pendingLoop (values : list BudgetSpent) (identities : list (string * string * Z)) : option (list pendingSpent) :=
  match values with
  | [] => Some []
  | value :: rest =>
      match pending_of value with
      | None => None
      | Some p =>
          if bool_decide (spent_identity p ∈ identities) then None
          else (p ::.) <$> pendingLoop rest (spent_identity p :: identities)
      end
  end.

Definition states_valid (l : BudgetLimiter) : bool :=
  forallb (λ e : Z * string * positive,
    validKeyID e.1.2 &&
    match bl_heap l !! e.2 with
    | Some st => match validateBudgetState st with None => true | Some _ => false end
    | None => false
    end) (map_to_list (bl_states l)).

(** The bucket a row would fill is already there. *)
Definition already_loaded (l : BudgetLimiter) (p : pendingSpent) : bool :=
  match state_of l (ps_keyID p) with
  | None => false
  | Some st =>
      if bool_decide (ps_period p = BudgetPeriodDay) then bool_decide (is_Some (dayBuckets st !! ps_start p))
      else if bool_decide (ps_period p = BudgetPeriodMonth) then bool_decide (is_Some (monthBuckets st !! ps_start p))
      else totalLoaded st
  end.

Definition newKeys (l : BudgetLimiter) (pending : list pendingSpent) : gset string :=
  list_to_set (map ps_keyID (filter (λ p, isZeroMoney (ps_spent p) = false ∧ state_ptr l (ps_keyID p) = None) pending)).

Definition load_bucket (p : pendingSpent) (st : budgetState) : budgetState :=
  let bucket := mkDay (ps_spent p) knownZeroMoney in
  if bool_decide (ps_period p = BudgetPeriodDay) then
    mkState (spent st) (active st) (<[ps_start p := bucket]> (dayBuckets st)) (monthBuckets st)
      (total st) (hasLimit st) (dayLimit st) (hasDayLimit st) (monthLimit st) (hasMonthLimit st) (totalLoaded st) (generation st)
  else if bool_decide (ps_period p = BudgetPeriodMonth) then
    mkState (spent st) (active st) (dayBuckets st) (<[ps_start p := bucket]> (monthBuckets st))
      (total st) (hasLimit st) (dayLimit st) (hasDayLimit st) (monthLimit st) (hasMonthLimit st) (totalLoaded st) (generation st)
  else
    mkState (ps_spent p) (active st) (dayBuckets st) (monthBuckets st)
      (total st) (hasLimit st) (dayLimit st) (hasDayLimit st) (monthLimit st) (hasMonthLimit st) true (generation st).

Definition blankState (gen : Z) : budgetState :=
  mkState knownZeroMoney knownZeroMoney ∅ ∅ UnknownMoney false UnknownMoney false UnknownMoney false false gen.

Definition apply_pending (generations : gmap string Z) (l : BudgetLimiter) (p : pendingSpent) : BudgetLimiter :=
  if isZeroMoney (ps_spent p) then l
  else
    match state_ptr l (ps_keyID p) with
    | Some ptr =>
        match bl_heap l !! ptr with
        | Some st => set_state ptr (load_bucket p st) l
        | None => l
        end
    | None =>
        let st := blankState (default 0 (generations !! ps_keyID p)) in
        let '(ptr, l) := alloc_state (load_bucket p st) l in put_ptr (ps_keyID p) ptr l
    end.

(** [order] is the order in which Go ranges over the map of new keys; it
    decides which key gets which of the new generations. *)
Definition generations_of (current : Z) (order : list string) : gmap string Z :=
  list_to_map (imap (λ i k, (k, current + Z.of_nat i + 1)) order).

Definition BudgetLimiter_LoadSpent (order : gset string → list string) (values : list BudgetSpent) (l : BudgetLimiter)
  : option BudgetError * BudgetLimiter :=
  match pendingLoop values [] with
  | None => (Some ErrBudgetInvalid, l)
  | Some pending =>
      if negb (states_valid l) then (Some ErrBudgetState, l)
      else if existsb (already_loaded l) pending then (Some ErrBudgetInvalid, l)
      else
        let new := newKeys l pending in
        let current := bl_sequence l in
        if 18446744073709551615 - current <? Z.of_nat (size new) then (Some ErrBudgetState, l)
        else
          let l := set_sequence (current + Z.of_nat (size new)) l in
          (None, foldl (apply_pending (generations_of current (order new))) l pending)
  end.

(** ** Admission *)

Definition day_expired (start : Z) (e : Z * budgetDayState) : Prop :=
  Before e.1 start && isZeroMoney (day_active e.2) = true.
#[export] Instance day_expired_dec start e : Decision (day_expired start e).
Proof. unfold day_expired. apply _. Defined.

(** The two pruning loops of [Reserve]. *)
Definition prune (dayStart monthStart : Z) (st : budgetState) : budgetState :=
  mkState (spent st) (active st)
    (filter (λ e, ¬ day_expired dayStart e) (dayBuckets st)) (filter (λ e, ¬ day_expired monthStart e) (monthBuckets st))
    (total st) (hasLimit st) (dayLimit st) (hasDayLimit st) (monthLimit st) (hasMonthLimit st) (totalLoaded st) (generation st).

(** The spent and active amounts of a bucket, zero where absent or unknown. *)
Definition bucket_money (m : gmap Z budgetDayState) (start : Z) : Money * Money :=
  let bucket := default (mkDay UnknownMoney UnknownMoney) (m !! start) in
  (if known (day_spent bucket) then day_spent bucket else knownZeroMoney,
   if known (day_active bucket) then day_active bucket else knownZeroMoney).

(** The check of one configured limit: whether the candidate is rejected. *)
Definition limitRejects (limited : bool) (limit used candidate : Money) : result BudgetError bool :=
  if limited then
    match Money_Subtract limit used with
    | Err ErrMoneyUnderflow => Ok true
    | Err _ => Err ErrBudgetState
    | Ok remaining =>
        let '(fits, cmpErr) := Money_LessOrEqual candidate remaining in
        match cmpErr with
        | Some _ => Err ErrBudgetState
        | None => Ok (negb fits)
        end
    end
  else Ok false.

Definition add_or_state (a b : Money) : result BudgetError Money :=
  match Money_Add a b with Ok m => Ok m | Err _ => Err ErrBudgetState end.

Definition add_known_or_state (a b : Money) : result BudgetError Money :=
  match Money_Add a b with Ok m => if known m then Ok m else Err ErrBudgetState | Err _ => Err ErrBudgetState end.

(** A captured counter grows by the candidate; others are kept. *)
Definition grow (captured : bool) (counter candidate : Money) : result BudgetError Money :=
  if captured then add_or_state counter candidate else Ok counter.

(** The admission check: the amounts used for the new buckets, or the error. *)
Record admission := mkAdmission {
  ad_spent : Money; ad_active : Money; ad_daySpent : Money; ad_dayActive : Money; ad_monthSpent : Money; ad_monthActive : Money }.

Definition admission_of (st : option budgetState) (dayStart monthStart : Z) : admission :=
  match st with
  | None => mkAdmission knownZeroMoney knownZeroMoney knownZeroMoney knownZeroMoney knownZeroMoney knownZeroMoney
  | Some st =>
      let '(ds, da) := bucket_money (dayBuckets st) dayStart in
      let '(ms, ma) := bucket_money (monthBuckets st) monthStart in
      mkAdmission (spent st) (active st) ds da ms ma
  end.

Definition checkLimits (policy : BudgetPolicy) (candidate : Money) (a : admission) (dayStart monthStart : Z)
  : option BudgetError :=
  match
    let? used := add_known_or_state (ad_spent a) (ad_active a) in
    let? totalRejected := limitRejects (Limited policy) (Total policy) used candidate in
    let? dayUsed := add_or_state (ad_daySpent a) (ad_dayActive a) in
    let? dayRejected := limitRejects (DayLimited policy) (Day policy) dayUsed candidate in
    let? monthRejected :=
      if MonthLimited policy then
        let? monthUsed := add_or_state (ad_monthSpent a) (ad_monthActive a) in
        limitRejects true (Month policy) monthUsed candidate
      else Ok false in
    if totalRejected || dayRejected || monthRejected then
      let reset := if negb totalRejected && monthRejected then nextMonth monthStart
                   else if dayRejected && negb totalRejected then dayStart + day_ns
                   else zeroTime in
      Err (BudgetCapacityError reset totalRejected)
    else Ok tt
  with
  | Ok _ => None
  | Err e => Some e
  end.

(** The historical check for keys without a registered policy. *)
Definition unregistered_mismatch (policy : BudgetPolicy) (st : budgetState) : bool :=
  (hasLimit st && (negb (Limited policy) || negb (sameMoney (total st) (Total policy))))
  || (hasDayLimit st && (negb (DayLimited policy) || negb (sameMoney (dayLimit st) (Day policy))))
  || (hasMonthLimit st && (negb (MonthLimited policy) || negb (sameMoney (monthLimit st) (Month policy)))).

Definition set_bucket (captured : bool) (start : Z) (b : budgetDayState) (m : gmap Z budgetDayState) : gmap Z budgetDayState :=
  if captured then <[start := b]> m else m.

Definition BudgetLimiter_Reserve (clk : Z) (keyID : string) (policy : BudgetPolicy) (candidate : Money) (l : BudgetLimiter)
  : result BudgetError BudgetReservation * BudgetLimiter :=
  if negb (validKeyID keyID) || negb (validKnownMoney candidate) || negb (validPolicy policy) then (Err ErrBudgetInvalid, l)
  else if negb (BudgetLimiter_PolicyCurrent keyID policy l) then (Err ErrBudgetPolicyReplacementConflict, l)
  else
    let state := state_of l keyID in
    match
      match state with
      | None => None
      | Some st =>
          match validateBudgetState st with
          | Some e => Some e
          | None =>
              match bl_policies l !! keyID with
              | Some _ => None
              | None => if unregistered_mismatch policy st then Some ErrBudgetInvalid else None
              end
          end
      end
    with
    | Some e => (Err e, l)
    | None =>
        let uncaptured := newBudgetReservation keyID None 0 candidate zeroTime zeroTime false false false in
        if negb (Limited policy) && negb (DayLimited policy) && negb (MonthLimited policy) then (Ok uncaptured, l)
        else
          let '(now, l) := BudgetLimiter_nowTime clk l in
          let dayStart := currentDay now in
          let monthStart := currentMonth dayStart in
          let state := prune dayStart monthStart <$> state in
          let l := match state_ptr l keyID, state with
                   | Some p, Some st => set_state p st l
                   | _, _ => l
                   end in
          let a := admission_of state dayStart monthStart in
          match checkLimits policy candidate a dayStart monthStart with
          | Some e => (Err e, l)
          | None =>
              if isZeroMoney candidate then (Ok uncaptured, l)
              else
                match
                  let? newActive := (if Limited policy then add_known_or_state (ad_active a) candidate else Ok (ad_active a)) in
                  let? newDayActive := grow (DayLimited policy) (ad_dayActive a) candidate in
                  Ok (newActive, newDayActive)
                with
                | Err e => (Err e, l)
                | Ok (newActive, newDayActive) =>
                    let newMonthActive := grow (MonthLimited policy) (ad_monthActive a) candidate in
                    let reservation p gen :=
                      newBudgetReservation keyID (Some p) gen candidate
                        (if DayLimited policy then dayStart else zeroTime) (if MonthLimited policy then monthStart else zeroTime)
                        (Limited policy) (DayLimited policy) (MonthLimited policy) in
                    match state_ptr l keyID, state with
                    | Some p, Some st =>
                        (* the policy and the total and day counters are written before the month sum is checked *)
                        let st := applyBudgetPolicyLocked policy st in
                        let st := mkState (spent st) newActive
                                    (set_bucket (DayLimited policy) dayStart (mkDay (ad_daySpent a) newDayActive) (dayBuckets st))
                                    (monthBuckets st) (total st) (hasLimit st) (dayLimit st) (hasDayLimit st)
                                    (monthLimit st) (hasMonthLimit st) (totalLoaded st) (generation st) in
                        match newMonthActive with
                        | Err e => (Err e, set_state p st l)
                        | Ok newMonthActive =>
                            let st := mkState (spent st) (active st) (dayBuckets st)
                                        (set_bucket (MonthLimited policy) monthStart (mkDay (ad_monthSpent a) newMonthActive) (monthBuckets st))
                                        (total st) (hasLimit st) (dayLimit st) (hasDayLimit st)
                                        (monthLimit st) (hasMonthLimit st) (totalLoaded st) (generation st) in
                            (Ok (reservation p (generation st)), set_state p st l)
                        end
                    | _, _ =>
                        let '(gen, ok, l) := nextGeneration l in
                        if negb ok then (Err ErrBudgetState, l)
                        else
                          match newMonthActive with
                          | Err e => (Err e, l)
                          | Ok newMonthActive =>
                              let st := mkState (ad_spent a) newActive
                                          (set_bucket (DayLimited policy) dayStart (mkDay (ad_daySpent a) newDayActive) ∅)
                                          (set_bucket (MonthLimited policy) monthStart (mkDay (ad_monthSpent a) newMonthActive) ∅)
                                          (Total policy) (Limited policy) (Day policy) (DayLimited policy)
                                          (Month policy) (MonthLimited policy) (Limited policy) gen in
                              let '(p, l) := alloc_state st l in
                              (Ok (reservation p gen), put_ptr keyID p l)
                          end
                    end
                end
          end
    end.

(** ** Settlement *)

Definition checkedBudgetDelta (keyID : string) (delta : Z) (period : string) (start : Z) : CommittedBudgetDelta :=
  mkBudgetDelta keyID delta period start.

(** [notifyBudgetDelta]; a panic of the sink is recovered and changes nothing. *)
Definition notifyBudgetDelta (sink : bool) (delta : CommittedBudgetDelta) (l : BudgetLimiter) : BudgetLimiter :=
  if negb sink || (bd_Delta delta =? 0) then l
  else mkBudgetLimiter (bl_states l) (bl_heap l) (bl_sequence l) (bl_policies l) (bl_sink l)
         (bl_emitted l ++ [delta]) (bl_lastNow l).

(** [if captured { x, err = op }]: the value kept beside an error is the zero
    [Money], which is unknown. *)
Definition captured_op (captured : bool) (old : Money) (op : result money_error Money) : Money * bool :=
  if captured then match op with Ok m => (m, true) | Err _ => (UnknownMoney, false) end else (old, true).

Definition ok_known (r : Money * bool) : bool := r.2 && known r.1.

Definition with_amounts (st : budgetState) (newSpent newActive : Money) (days months : gmap Z budgetDayState) : budgetState :=
  mkState newSpent newActive days months (total st) (hasLimit st) (dayLimit st) (hasDayLimit st)
    (monthLimit st) (hasMonthLimit st) (totalLoaded st) (generation st).

Definition state_idle (st : budgetState) : bool :=
  isZeroMoney (spent st) && isZeroMoney (active st) && (size (dayBuckets st) =? 0)%nat && (size (monthBuckets st) =? 0)%nat.

(** The amounts a settlement writes: [None] is the state error (nothing was
    touched), otherwise the new spends, the charge and whether the charge is
    the fallback; an [Err] inside is the arithmetic error. *)
Definition settle_spends (r : BudgetReservation) (kind : BudgetSettlementKind) (charge sp dsp msp : Money)
  : option (Money * Money * Money * Money * bool) :=
  let newSpent := captured_op (br_totalCaptured r) sp (Money_Add sp charge) in
  let newDaySpent := captured_op (br_dayCaptured r) dsp (Money_Add dsp charge) in
  let newMonthSpent := captured_op (br_monthCaptured r) msp (Money_Add msp charge) in
  if ok_known newSpent && ok_known newDaySpent && ok_known newMonthSpent
  then Some (newSpent.1, newDaySpent.1, newMonthSpent.1, charge, false)
  else
    let retry := negb (isZeroMoney charge) || bool_decide (kind = BudgetSettlementKnown) in
    let again (captured : bool) (first : Money * bool) (old : Money) :=
      if captured && retry then captured_op true old (Money_Add old (br_amount r)) else first in
    let newSpent := again (br_totalCaptured r) newSpent sp in
    let newDaySpent := again (br_dayCaptured r) newDaySpent dsp in
    let newMonthSpent := again (br_monthCaptured r) newMonthSpent msp in
    if ok_known newSpent && ok_known newDaySpent && ok_known newMonthSpent
    then Some (newSpent.1, newDaySpent.1, newMonthSpent.1, br_amount r, true)
    else None.

Definition settle_deltas (r : BudgetReservation) (charge : Money) (delta : Z) : list CommittedBudgetDelta :=
  if isZeroMoney charge then []
  else
    (if br_totalCaptured r then [checkedBudgetDelta (br_keyID r) delta BudgetPeriodTotal zeroTime] else [])
    ++ (if br_dayCaptured r && negb (IsZero (br_dayStart r))
        then [checkedBudgetDelta (br_keyID r) delta BudgetPeriodDay (br_dayStart r)] else [])
    ++ (if br_monthCaptured r && negb (IsZero (br_monthStart r))
        then [checkedBudgetDelta (br_keyID r) delta BudgetPeriodMonth (br_monthStart r)] else []).

Definition zeroDay : budgetDayState := mkDay knownZeroMoney knownZeroMoney.

Definition settleReservation (r : BudgetReservation) (kind : BudgetSettlementKind) (actual : Money) (deferred : bool) (l : BudgetLimiter)
  : BudgetSettlementResult * list CommittedBudgetDelta * option BudgetAdjustmentTicket * BudgetLimiter :=
  let res k charged delta err := mkResult (br_keyID r) k (br_amount r) actual charged delta err in
  match br_state r, isZeroMoney (br_amount r) with
  | Some ptr, false =>
      match state_ptr l (br_keyID r), bl_heap l !! ptr with
      | Some p, Some st =>
          if negb (bool_decide (p = ptr)) || negb (generation st =? br_generation r)
          then (res kind knownZeroMoney 0 (Some ErrBudgetState), [], None, l)
          else
            match validateBudgetState st with
            | Some e => (res kind knownZeroMoney 0 (Some e), [], None, l)
            | None =>
                let '(charge, kind', err) :=
                  match kind with
                  | BudgetSettlementPreUpstreamRelease => (knownZeroMoney, kind, None)
                  | BudgetSettlementKnown =>
                      if validKnownMoney actual then (actual, kind, None)
                      else (br_amount r, BudgetSettlementConservative, Some (BudgetSettlementError CauseInvalidActual true))
                  | _ => (br_amount r, kind, None)
                  end in
                let newActive := captured_op (br_totalCaptured r) (active st) (Money_Subtract (active st) (br_amount r)) in
                let day := default zeroDay (dayBuckets st !! br_dayStart r) in
                let newDayActive := captured_op (br_dayCaptured r) (day_active day) (Money_Subtract (day_active day) (br_amount r)) in
                let month := if IsZero (br_monthStart r) then zeroDay
                             else default (mkDay UnknownMoney UnknownMoney) (monthBuckets st !! br_monthStart r) in
                let newMonthActive := captured_op (br_monthCaptured r) (day_active month) (Money_Subtract (day_active month) (br_amount r)) in
                if negb (ok_known newActive && ok_known newDayActive && ok_known newMonthActive)
                then (res kind' knownZeroMoney 0 (Some (BudgetSettlementError CauseState false)), [], None, l)
                else
                  match settle_spends r kind charge (spent st) (day_spent day) (day_spent month) with
                  | None => (res kind' knownZeroMoney 0 (Some (BudgetSettlementError CauseArithmetic true)), [], None, l)
                  | Some (newSpent, newDaySpent, newMonthSpent, charge, fallback) =>
                      let '(kind', err) := if fallback then (BudgetSettlementConservative, Some (BudgetSettlementError CauseArithmetic true))
                                           else (kind', err) in
                      let st' := with_amounts st newSpent newActive.1
                        (set_bucket (br_dayCaptured r && negb (IsZero (br_dayStart r))) (br_dayStart r)
                           (mkDay newDaySpent newDayActive.1) (dayBuckets st))
                        (set_bucket (br_monthCaptured r && negb (IsZero (br_monthStart r))) (br_monthStart r)
                           (mkDay newMonthSpent newMonthActive.1) (monthBuckets st)) in
                      let delta := if known charge then micros charge else 0 in
                      let l := set_state ptr st' l in
                      let l := if state_idle st' then drop_ptr (br_keyID r) l else l in
                      let ticket :=
                        match deferred, err with
                        | true, None => Some (mkBTicket true (br_keyID r) (br_generation r) (br_amount r) (br_dayStart r) (br_monthStart r)
                                                (br_totalCaptured r) (br_dayCaptured r) (br_monthCaptured r) false None)
                        | _, _ => None
                        end in
                      (res kind' charge delta err, settle_deltas r charge delta, ticket, l)
                  end
            end
      | _, _ => (res kind knownZeroMoney 0 (Some ErrBudgetState), [], None, l)
      end
  | _, _ =>
      let '(k, err) :=
        match kind with
        | BudgetSettlementKnown =>
            if validKnownMoney actual then (kind, None)
            else (BudgetSettlementConservative, Some (BudgetSettlementError CauseInvalidActual true))
        | _ => (kind, None)
        end in
      let ticket := if bool_decide (kind = BudgetSettlementDeferred)
        then Some (mkBTicket false ""%string 0 (br_amount r) (br_dayStart r) (br_monthStart r) false false false false None) else None in
      (res k knownZeroMoney 0 err, [], ticket, l)
  end.

(** [finalizeInternal]: the first terminal transition wins; the deltas are
    delivered after the locks are released. *)
Definition finalizeInternal (kind : BudgetSettlementKind) (actual : Money) (deferred : bool) (r : BudgetReservation) (l : BudgetLimiter)
  : option BudgetError * BudgetReservation * BudgetLimiter :=
  if br_finalized r then (br_finalErr r, r, l)
  else
    let '(result, deltas, ticket, l) := settleReservation r kind actual deferred l in
    let r' := mkBReservation (br_keyID r) (br_state r) (br_generation r) (br_amount r) (br_dayStart r) (br_monthStart r)
                (br_totalCaptured r) (br_dayCaptured r) (br_monthCaptured r) true (sr_Error result) (Some result) ticket in
    (sr_Error result, r', foldl (λ l d, notifyBudgetDelta (bl_sink l) d l) l deltas).

Definition BudgetReservation_Commit (actual : Money) := finalizeInternal BudgetSettlementKnown actual false.
Definition BudgetReservation_CompleteConservative := finalizeInternal BudgetSettlementConservative UnknownMoney false.
Definition BudgetReservation_ReleaseBeforeUpstream := finalizeInternal BudgetSettlementPreUpstreamRelease knownZeroMoney false.
Definition BudgetReservation_CommitDeferred := finalizeInternal BudgetSettlementDeferred UnknownMoney true.

(** ** Deferred adjustment *)

(** The new spends, the signed delta and whether day and month could be
    adjusted; the outer [None] is the arithmetic error. *)
Record adjustment := mkAdjustment {
  aj_spent : Money; aj_daySpent : Money; aj_monthSpent : Money;
  aj_delta : Z; aj_dayDelta : Z; aj_monthDelta : Z; aj_ok : bool }.

Definition adjust_bucket (captured : bool) (op : result money_error Money) (delta : Z) : Money * Z * bool :=
  if captured then
    match op with
    | Ok m => if known m then (m, delta, true) else (m, 0, false)
    | Err _ => (UnknownMoney, 0, false)
    end
  else (UnknownMoney, 0, true).

Definition adjust_amounts (t : BudgetAdjustmentTicket) (actual : Money) (st : budgetState) : BudgetError + adjustment :=
  let dayIn := bt_dayCaptured t && negb (IsZero (bt_dayStart t)) in
  let monthIn := bt_monthCaptured t && negb (IsZero (bt_monthStart t)) in
  let zero := mkDay UnknownMoney UnknownMoney in
  let day := default zero (dayBuckets st !! bt_dayStart t) in
  let month := default zero (monthBuckets st !! bt_monthStart t) in
  let '(comparison, cmpErr) := Money_Compare actual (bt_reserved t) in
  match cmpErr with
  | Some _ => inl ErrBudgetState
  | None =>
      match comparison with
      | Greater =>
          match Money_Subtract actual (bt_reserved t) with
          | Err _ => inl (BudgetSettlementError CauseArithmetic true)
          | Ok increase =>
              let newSpent := captured_op (bt_totalCaptured t) (spent st) (Money_Add (spent st) increase) in
              if negb (ok_known newSpent) then inl (BudgetSettlementError CauseArithmetic true)
              else
                let '(delta, ok) := Money_Micros increase in
                let '(newDay, dayDelta, ok1) := adjust_bucket dayIn (Money_Add (day_spent day) increase) delta in
                let '(newMonth, monthDelta, ok2) := adjust_bucket monthIn (Money_Add (day_spent month) increase) delta in
                inr (mkAdjustment newSpent.1 newDay newMonth delta dayDelta monthDelta (ok && ok1 && ok2))
          end
      | Less =>
          match Money_Subtract (bt_reserved t) actual with
          | Err _ => inl (BudgetSettlementError CauseArithmetic true)
          | Ok refund =>
              let newSpent := captured_op (bt_totalCaptured t) (spent st) (Money_Subtract (spent st) refund) in
              if negb (ok_known newSpent) then inl (BudgetSettlementError CauseArithmetic true)
              else
                let delta := - (micros refund) in
                let '(newDay, dayDelta, ok1) := adjust_bucket dayIn (Money_Subtract (day_spent day) refund) delta in
                let '(newMonth, monthDelta, ok2) := adjust_bucket monthIn (Money_Subtract (day_spent month) refund) delta in
                inr (mkAdjustment newSpent.1 newDay newMonth delta dayDelta monthDelta (ok1 && ok2))
          end
      | Equal => inr (mkAdjustment (spent st) (day_spent day) (day_spent month) 0 0 0 true)
      end
  end.

(** Writing the new spend of a captured bucket; an absent bucket would be
    created with an unknown active amount. *)
Definition adjust_store (captured : bool) (start : Z) (newSpent : Money) (m : gmap Z budgetDayState) : gmap Z budgetDayState :=
  if captured then
    let bucket := default (mkDay UnknownMoney UnknownMoney) (m !! start) in <[start := mkDay newSpent (day_active bucket)]> m
  else m.

(** The part of [Adjust] under the shard lock, on a live state. *)
Definition adjust_state (t : BudgetAdjustmentTicket) (st : budgetState) (a : adjustment) : budgetState :=
  with_amounts st (aj_spent a) (active st)
    (adjust_store (bt_dayCaptured t && negb (IsZero (bt_dayStart t))) (bt_dayStart t) (aj_daySpent a) (dayBuckets st))
    (adjust_store (bt_monthCaptured t && negb (IsZero (bt_monthStart t))) (bt_monthStart t) (aj_monthSpent a) (monthBuckets st)).

Definition consume_ticket (err : option BudgetError) (t : BudgetAdjustmentTicket) : BudgetAdjustmentTicket :=
  mkBTicket (bt_limiter t) (bt_keyID t) (bt_generation t) (bt_reserved t) (bt_dayStart t) (bt_monthStart t)
    (bt_totalCaptured t) (bt_dayCaptured t) (bt_monthCaptured t) true err.

Definition BudgetTicket_Adjust (actual : Money) (t : BudgetAdjustmentTicket) (l : BudgetLimiter)
  : option BudgetError * BudgetAdjustmentTicket * BudgetLimiter :=
  if bt_consumed t then (bt_resultErr t, t, l)
  else
    let fail e := (Some e, consume_ticket (Some e) t, l) in
    if negb (validKnownMoney actual) then fail (BudgetSettlementError CauseInvalidActual true)
    else if negb (bt_limiter t) || negb (validKeyID (bt_keyID t)) || (bt_generation t =? 0) then fail ErrBudgetState
    else
      match state_ptr l (bt_keyID t) with
      | None => fail ErrBudgetState
      | Some p =>
          match bl_heap l !! p with
          | None => fail ErrBudgetState
          | Some st =>
              if negb (generation st =? bt_generation t) || negb (validKnownMoney (spent st)) || negb (validKnownMoney (active st))
              then fail ErrBudgetState
              else
                match adjust_amounts t actual st with
                | inl e => fail e
                | inr a =>
                    let l :=
                      if aj_ok a then
                        let st' := adjust_state t st a in
                        let l := set_state p st' l in
                        if state_idle st' then drop_ptr (bt_keyID t) l
                        else if negb (aj_delta a =? 0) then put_ptr (bt_keyID t) p l else l
                      else l in
                    let sink := bl_sink l in
                    let l := if negb (aj_delta a =? 0) && bt_totalCaptured t
                             then notifyBudgetDelta sink (checkedBudgetDelta (bt_keyID t) (aj_delta a) BudgetPeriodTotal zeroTime) l else l in
                    let l := if negb (aj_dayDelta a =? 0)
                             then notifyBudgetDelta sink (checkedBudgetDelta (bt_keyID t) (aj_dayDelta a) BudgetPeriodDay (bt_dayStart t)) l else l in
                    let l := if negb (aj_monthDelta a =? 0)
                             then notifyBudgetDelta sink (checkedBudgetDelta (bt_keyID t) (aj_monthDelta a) BudgetPeriodMonth (bt_monthStart t)) l else l in
                    (None, consume_ticket None t, l)
                end
          end
      end.

Definition BudgetTicket_Invalidate (t : BudgetAdjustmentTicket) : BudgetAdjustmentTicket :=
  mkBTicket false ""%string 0 UnknownMoney (bt_dayStart t) (bt_monthStart t)
    (bt_totalCaptured t) (bt_dayCaptured t) (bt_monthCaptured t) true (bt_resultErr t).

Definition BudgetLimiter_Len (l : BudgetLimiter) : Z := Z.of_nat (size (bl_states l)).
