(* ===== verification/Buckets.v ===== *)
(** * Durable buckets ([internal/storage/budget_buckets.go], [usage_buckets.go])

    The two repositories apply batches of deltas to a table inside one SQL
    transaction.  A table is a finite map from the primary key to the counter
    column; the statements of the transaction are functions on it, with the
    schema's CHECK constraints as failures.  The database engine is outside: it
    may fail at any point, which is the argument [fault], and a transaction that
    is not committed leaves the table as it was; a commit that reports a failure
    is taken as not committed.  Rows that expire and rows that go with a deleted
    key are outside this system.

    [Repository] states what the accumulators rely on. *)

From Stdlib Require Import ZArith Lia ZifyBool.
From stdpp Require Import prelude gmap strings list.
From S2P Require Import Prelude Windows Calendar BudgetLimiter.
Local Open Scope Z_scope.

(** Where the engine can fail, by the index of the delta. *)
Inductive tx_point :=
| TxLock | TxBegin | TxKey (n : nat) | TxWrite (n : nat) | TxRows (n : nat) | TxQuery (n : nat)
| TxCleanup | TxCommit.

Inductive bucket_error :=
| ErrInvalidBucket | ErrBucketUnderflow | ErrBucketOverflow | ErrBucketUnknownKey | ErrBucketWrite.

(** The sum of the deltas of one identity in a batch. *)
Definition delta_sum {Id} `{EqDecision Id} (batch : list (Id * Z)) (id : Id) : Z :=
  foldr (λ d s, if bool_decide (d.1 = id) then d.2 + s else s) 0 batch.
#[global] Arguments delta_sum : simpl never.

(** ** What a repository promises

    [stored s id] is the durable amount of an identity.  A batch is applied
    completely or not at all, on the identities the repository accepts. *)
Class Repository (Id Store : Type) `{EqDecision Id} := {
  repo_apply : (tx_point → bool) → list (Id * Z) → Store → option bucket_error * Store;
  stored : Store → Id → Z;
  canonical : Id → Prop;
  repo_apply_ok fault batch s s' :
    Forall (λ d, canonical d.1) batch → repo_apply fault batch s = (None, s') →
    ∀ id, canonical id → stored s' id = stored s id + delta_sum batch id;
  repo_apply_err fault batch s s' e : repo_apply fault batch s = (Some e, s') → s' = s;
}.

(** ** Budget buckets *)

(** The identity of a [BudgetBucketDelta]: key, period and period start. *)
Definition budgetIdentity : Type := string * string * Z.

(** The row key: key, period and start in Unix seconds. *)
Definition budget_row : Type := string * string * Z.

(** The keys of the table [api_keys] and the rows of [budget_buckets]. *)
Record budget_store := mkBudgetStore { bs_keys : gset string; bs_rows : gmap budget_row Z }.

Definition bucketStart (period : string) (start : Z) : Z :=
  if bool_decide (period = BudgetPeriodDay) || bool_decide (period = BudgetPeriodMonth) then Unix start else 0.

Definition row_of (id : budgetIdentity) : budget_row :=
  let '(key, period, start) := id in (key, period, bucketStart period start).

(** The validation loop of [ApplyDeltas], for one nonzero delta. *)
Definition validate_delta (id : budgetIdentity) (delta : Z) : result bucket_error (budgetIdentity * Z) :=
  let '(key, period, start) := id in
  let period := if bool_decide (period = ""%string) then BudgetPeriodTotal else period in
  let total := bool_decide (period = BudgetPeriodTotal) in
  let day := bool_decide (period = BudgetPeriodDay) in
  let month := bool_decide (period = BudgetPeriodMonth) in
  if total && negb (IsZero start) then Err ErrInvalidBucket
  else if negb total && (day && negb (validDayStart start) || month && negb (validMonthStart start) || negb day && negb month)
  then Err ErrInvalidBucket
  else if bool_decide (key = ""%string) then Err ErrInvalidBucket
  else if delta =? minInt64 then Err ErrBucketUnderflow
  else Ok (key, period, start, delta).

Fixpoint validate_deltas (deltas : list (budgetIdentity * Z)) : result bucket_error (list (budgetIdentity * Z)) :=
  match deltas with
  | [] => Ok []
  | (id, delta) :: rest =>
      if delta =? 0 then validate_deltas rest
      else let? d := validate_delta id delta in let? ds := validate_deltas rest in Ok (d :: ds)
  end.

Definition maxBudgetUnixTimestamp : Z := 253402300799.

(** The CHECK constraints on a row: the start is in range, the counter is a
    non-negative integer (a sum beyond 64 bits is stored as a real). *)
Definition row_allowed (row : budget_row) (spent : Z) : bool :=
  (0 <=? row.2) && (row.2 <=? maxBudgetUnixTimestamp) && (0 <=? spent) && (spent <=? maxInt64).

(** One round of the write loop. *)
Definition write_delta (fault : tx_point → bool) (keys : gset string) (known : gset string) (n : nat)
    (id : budgetIdentity) (delta : Z) (rows : gmap budget_row Z) : result bucket_error (gmap budget_row Z) :=
  let '(key, period, start) := id in
  let row := row_of id in
  if negb (bool_decide (key ∈ known)) && fault (TxKey n) then Err ErrBucketWrite
  else if negb (bool_decide (key ∈ known)) && negb (bool_decide (key ∈ keys)) then Err ErrBucketUnknownKey
  else if delta <? 0 then
    if fault (TxWrite n) then Err ErrBucketWrite
    else match rows !! row with
         | None => Err (if fault (TxQuery n) then ErrBucketUnderflow else ErrBucketUnknownKey)
         | Some spent =>
             if fault (TxRows n) || (spent <? - delta) then Err ErrBucketUnderflow
             else Ok (<[row := spent + delta]> rows)
         end
  else
    if fault (TxWrite n) then Err ErrBucketOverflow
    else
      let spent := default 0 (rows !! row) + delta in
      if negb (row_allowed row spent) || fault (TxRows n) then Err ErrBucketOverflow
      else Ok (<[row := spent]> rows).

Fixpoint write_deltas (fault : tx_point → bool) (keys known : gset string) (n : nat)
    (deltas : list (budgetIdentity * Z)) (rows : gmap budget_row Z) : result bucket_error (gmap budget_row Z) :=
  match deltas with
  | [] => Ok rows
  | (id, delta) :: rest =>
      let? rows := write_delta fault keys known n id delta rows in
      write_deltas fault keys ({[id.1.1]} ∪ known) (S n) rest rows
  end.

Definition ApplyDeltas (fault : tx_point → bool) (deltas : list (budgetIdentity * Z)) (s : budget_store)
  : option bucket_error * budget_store :=
  match validate_deltas deltas with
  | Err e => (Some e, s)
  | Ok [] => (None, s)
  | Ok valid =>
      if fault TxLock || fault TxBegin then (Some ErrBucketWrite, s)
      else match write_deltas fault (bs_keys s) ∅ 0 valid (bs_rows s) with
           | Err e => (Some e, s)
           | Ok rows =>
               if fault TxCleanup then (Some ErrBucketWrite, s)
               else if fault TxCommit then (Some ErrBucketWrite, s)
               else (None, mkBudgetStore (bs_keys s) (filter (λ r, r.2 ≠ 0) rows))
           end
  end.

(** ** The budget repository keeps its promise *)

(** Identities [ApplyDeltas] writes under their own name: a period is named. *)
Definition budget_canonical (id : budgetIdentity) : Prop := id.1.2 ≠ ""%string.

Definition budget_valid (id : budgetIdentity) : bool :=
  match validate_delta id 1 with Ok _ => true | Err _ => false end.

(** The durable amount; an identity the repository refuses has none. *)
Definition budget_stored (s : budget_store) (id : budgetIdentity) : Z :=
  if budget_valid id then default 0 (bs_rows s !! row_of id) else 0.

Section budget_repository.

Lemma delta_sum_cons {Id} `{EqDecision Id} d (batch : list (Id * Z)) id :
  delta_sum (d :: batch) id = (if bool_decide (d.1 = id) then d.2 else 0) + delta_sum batch id.
Proof. unfold delta_sum. simpl. case_bool_decide; lia. Qed.

Lemma day_start_multiple start : validDayStart start = true → ∃ k, start = k * day_ns.
Proof.
  unfold validDayStart. rewrite andb_true_iff, Z.eqb_eq, currentDay_eq. intros [_ H].
  by exists (start / day_ns).
Qed.

Lemma month_start_multiple start : validMonthStart start = true → ∃ k, start = k * day_ns.
Proof.
  unfold validMonthStart. rewrite andb_true_iff, Z.eqb_eq, currentMonth_eq. intros [_ H].
  by exists (month_first (start / day_ns)).
Qed.

Lemma Unix_day k : Unix (k * day_ns) = k * 86400.
Proof. unfold Unix, day_ns. replace (k * 86400000000000) with (k * 86400 * 1000000000) by lia. by rewrite Z.div_mul. Qed.

(** What the validation accepts. *)
Lemma validate_delta_Ok key period start delta d :
  period ≠ ""%string → validate_delta (key, period, start) delta = Ok d →
  d = (key, period, start, delta) ∧
  (period = BudgetPeriodTotal ∧ start = zeroTime ∨
   (period = BudgetPeriodDay ∨ period = BudgetPeriodMonth) ∧ ∃ k, start = k * day_ns).
Proof.
  intros Hp. unfold validate_delta. rewrite (bool_decide_false (period = ""%string)) by done.
  destruct (bool_decide (period = BudgetPeriodTotal) && negb (IsZero start)) eqn:E1; [done|].
  destruct (negb (bool_decide (period = BudgetPeriodTotal)) && _) eqn:E2; [done|].
  destruct (bool_decide (key = _)); [done|]. destruct (delta =? minInt64); [done|]. intros [= <-]. split; [done|].
  destruct (bool_decide (period = BudgetPeriodTotal)) eqn:Et.
  - left. apply bool_decide_eq_true in Et as ->. simpl in E1. split; [done|].
    unfold IsZero in E1. by apply negb_false_iff, Z.eqb_eq in E1.
  - right. simpl in E2. rewrite !orb_false_iff in E2. destruct E2 as [[Ed Em] En].
    destruct (bool_decide (period = BudgetPeriodDay)) eqn:Ed'; simpl in *.
    + apply bool_decide_eq_true in Ed' as ->. split; [by left|]. apply day_start_multiple. by apply negb_false_iff.
    + destruct (bool_decide (period = BudgetPeriodMonth)) eqn:Em'; [|done]. simpl in *.
      apply bool_decide_eq_true in Em' as ->. split; [by right|]. apply month_start_multiple. by apply negb_false_iff.
Qed.

Lemma validate_delta_valid id delta d : budget_canonical id → validate_delta id delta = Ok d → budget_valid id = true ∧ d = (id, delta).
Proof.
  destruct id as [[key period] start]. unfold budget_canonical, budget_valid. simpl. intros Hp H.
  pose proof H as Hv. apply validate_delta_Ok in Hv as [-> _]; [|done]. split; [|done].
  unfold validate_delta in *. rewrite (bool_decide_false (period = ""%string)) in * by done.
  repeat (case_match; [done|]). by repeat case_match.
Qed.

(** Accepted identities are told apart by their rows. *)
Lemma row_of_inj id1 id2 :
  budget_canonical id1 → budget_canonical id2 → budget_valid id1 = true → budget_valid id2 = true →
  row_of id1 = row_of id2 → id1 = id2.
Proof.
  destruct id1 as [[k1 p1] s1], id2 as [[k2 p2] s2]. unfold budget_canonical, budget_valid. cbn [fst snd].
  intros Hp1 Hp2 H1 H2.
  destruct (validate_delta (k1, p1, s1) 1) eqn:E1; [|done]. destruct (validate_delta (k2, p2, s2) 1) eqn:E2; [|done].
  apply validate_delta_Ok in E1 as [_ V1]; [|done]. apply validate_delta_Ok in E2 as [_ V2]; [|done].
  unfold row_of. intros [= -> -> Hs]. f_equal. unfold bucketStart in Hs.
  destruct V1 as [[-> ->]|[[-> | ->] [k1' ->]]]; destruct V2 as [[? ->]|[[?|?] [k2' ->]]]; try done;
    simpl in Hs; rewrite !Unix_day in Hs; f_equal; lia.
Qed.

Lemma validate_deltas_Ok batch ds :
  Forall (λ d, budget_canonical d.1) batch → validate_deltas batch = Ok ds →
  Forall (λ d, budget_canonical d.1 ∧ budget_valid d.1 = true) ds ∧ ∀ id, delta_sum ds id = delta_sum batch id.
Proof.
  intros Hb. revert ds. induction Hb as [|[id delta] batch Hid _ IH]; intros ds H; cbn [validate_deltas] in H; [by simplify_eq|].
  destruct (Z.eqb_spec delta 0) as [->|].
  { apply IH in H as [H1 H2]. split; [done|]. intros id'. rewrite delta_sum_cons, H2. simpl. by case_bool_decide. }
  apply result_bind_Ok in H as (d & Hd & H). apply result_bind_Ok in H as (ds' & Hds & [= <-]).
  apply validate_delta_valid in Hd as [Hv ->]; [|done]. apply IH in Hds as [H1 H2].
  split; [by constructor|]. intros id'. by rewrite !delta_sum_cons, H2.
Qed.

Lemma write_delta_Ok fault keys known n id delta rows rows' id' :
  budget_canonical id → budget_canonical id' → budget_valid id = true → budget_valid id' = true →
  write_delta fault keys known n id delta rows = Ok rows' →
  default 0 (rows' !! row_of id') = default 0 (rows !! row_of id') + (if bool_decide (id = id') then delta else 0).
Proof.
  intros Hc Hc' Hv Hv' H.
  assert (Hrow : ∃ spent, rows' = <[row_of id := spent + delta]> rows ∧ spent = default 0 (rows !! row_of id)).
  { unfold write_delta in H. destruct id as [[k p] st]. set (row := row_of (k, p, st)) in *.
    destruct (_ && fault (TxKey n)); [done|]. destruct (_ && _); [done|]. destruct (delta <? 0).
    - destruct (fault (TxWrite n)); [done|]. destruct (rows !! row) as [spent|]; [|done].
      destruct (_ || _); [done|]. injection H as <-. by exists spent.
    - destruct (fault (TxWrite n)); [done|]. destruct (_ || _); [done|]. injection H as <-. eauto. }
  destruct Hrow as (spent & -> & ->). case_bool_decide as E.
  - subst id'. by rewrite lookup_insert_eq.
  - rewrite lookup_insert_ne, Z.add_0_r; [done|]. intros Hr. by apply E, row_of_inj.
Qed.

Lemma write_deltas_Ok fault keys known n ds rows rows' id :
  Forall (λ d, budget_canonical d.1 ∧ budget_valid d.1 = true) ds → budget_canonical id → budget_valid id = true →
  write_deltas fault keys known n ds rows = Ok rows' →
  default 0 (rows' !! row_of id) = default 0 (rows !! row_of id) + delta_sum ds id.
Proof.
  intros Hds Hc Hv. revert known n rows. induction Hds as [|[id0 delta] ds [Hc0 Hv0] _ IH]; intros known n rows H.
  { simpl in H. simplify_eq. unfold delta_sum. simpl. lia. }
  cbn [write_deltas] in H. apply result_bind_Ok in H as (rows1 & H1 & H).
  apply IH in H. rewrite H, delta_sum_cons.
  rewrite (write_delta_Ok _ _ _ _ _ _ _ _ id Hc0 Hc Hv0 Hv H1). simpl. lia.
Qed.

Lemma default_filter_nonzero `{Countable K} (rows : gmap K Z) row :
  default 0 (filter (λ r : K * Z, r.2 ≠ 0) rows !! row) = default 0 (rows !! row).
Proof.
  rewrite map_lookup_filter. destruct (rows !! row) as [v|]; simpl; [|done].
  case_guard; simpl; [done|]. simpl in *. lia.
Qed.

Lemma delta_sum_unused {Id} `{EqDecision Id} (P : Id → Prop) ds id :
  Forall (λ d, P d.1) ds → ¬ P id → delta_sum ds id = 0.
Proof.
  intros H Hv. induction H as [|[id0 delta] ds Hd _ IH]; [done|]. rewrite delta_sum_cons, IH. simpl in *.
  rewrite bool_decide_false; [done|]. by intros ->.
Qed.

Lemma ApplyDeltas_ok fault batch s s' id :
  Forall (λ d, budget_canonical d.1) batch → ApplyDeltas fault batch s = (None, s') → budget_canonical id →
  budget_stored s' id = budget_stored s id + delta_sum batch id.
Proof.
  intros Hb H Hc. unfold ApplyDeltas in H. destruct (validate_deltas batch) as [ds|] eqn:Ev; [|done].
  apply validate_deltas_Ok in Ev as [Hds Hsum]; [|done]. rewrite <-Hsum. unfold budget_stored.
  destruct ds as [|d ds]; [injection H as <-; unfold delta_sum; simpl; lia|].
  destruct (_ || _); [done|]. destruct (write_deltas _ _ _ _ _ _) as [rows|] eqn:Ew; [|done].
  destruct (fault TxCleanup); [done|]. destruct (fault TxCommit); [done|]. injection H as <-.
  destruct (budget_valid id) eqn:Hv.
  - cbn [bs_rows]. rewrite default_filter_nonzero. by eapply write_deltas_Ok.
  - rewrite (delta_sum_unused (λ i, budget_canonical i ∧ budget_valid i = true)); [done..|]. intros [_ ?]. congruence.
Qed.

Lemma ApplyDeltas_err fault batch s s' e : ApplyDeltas fault batch s = (Some e, s') → s' = s.
Proof. unfold ApplyDeltas. intros H. by repeat case_match; simplify_eq. Qed.

End budget_repository.

#[export] Instance budget_repository : Repository budgetIdentity budget_store := {|
  repo_apply := ApplyDeltas;
  stored := budget_stored;
  canonical := budget_canonical;
  repo_apply_ok fault batch s s' Hb H id Hid := ApplyDeltas_ok fault batch s s' id Hb H Hid;
  repo_apply_err := ApplyDeltas_err;
|}.

(** ** Usage buckets *)

(** The identity of a [UsageBucketDelta]: key, bucket start, seconds, amount. *)
Definition usageIdentity : Type := string * Z * Z * Z.

Record usage_store := mkUsageStore { us_keys : gset string; us_rows : gmap usageIdentity Z }.

Definition validateUsageBucketIdentity (keyID : string) (start seconds : Z) : bool :=
  if bool_decide (keyID = ""%string) || negb (Nanosecond start =? 0) || (Unix start <? 0) || (seconds <=? 0)
     || (Z.quot maxInt64 1000000000 <? seconds) then false
  else Z.rem (Unix start) seconds =? 0.

Definition usage_row (id : usageIdentity) : usageIdentity :=
  let '(key, start, seconds, amount) := id in (key, Unix start, seconds, amount).

Definition usage_valid (id : usageIdentity) : bool :=
  let '(key, start, seconds, amount) := id in validateUsageBucketIdentity key start seconds && (0 <? amount).

Fixpoint validate_usage (deltas : list (usageIdentity * Z)) : result bucket_error (list (usageIdentity * Z)) :=
  match deltas with
  | [] => Ok []
  | (id, delta) :: rest =>
      let '(key, start, seconds, amount) := id in
      if delta =? 0 then validate_usage rest
      else if delta =? minInt64 then Err ErrBucketUnderflow
      else if negb (validateUsageBucketIdentity key start seconds) then Err ErrInvalidBucket
      else if amount <=? 0 then Err ErrInvalidBucket
      else let? ds := validate_usage rest in Ok ((id, delta) :: ds)
  end.

(** One round of the write loop; the foreign key refuses a row of no key. *)
Definition write_usage (fault : tx_point → bool) (keys : gset string) (n : nat) (id : usageIdentity) (delta : Z)
    (rows : gmap usageIdentity Z) : result bucket_error (gmap usageIdentity Z) :=
  let row := usage_row id in
  if delta <? 0 then
    if fault (TxWrite n) then Err ErrBucketUnderflow
    else match rows !! row with
         | None => Err ErrBucketUnderflow
         | Some committed =>
             if fault (TxRows n) || (committed <? - delta) then Err ErrBucketUnderflow
             else Ok (<[row := committed + delta]> rows)
         end
  else
    let committed := default 0 (rows !! row) + delta in
    if fault (TxWrite n) || negb (bool_decide (id.1.1.1 ∈ keys)) || (maxInt64 <? committed) then Err ErrBucketWrite
    else Ok (<[row := committed]> rows).

Fixpoint write_usages (fault : tx_point → bool) (keys : gset string) (n : nat)
    (deltas : list (usageIdentity * Z)) (rows : gmap usageIdentity Z) : result bucket_error (gmap usageIdentity Z) :=
  match deltas with
  | [] => Ok rows
  | (id, delta) :: rest =>
      let? rows := write_usage fault keys n id delta rows in write_usages fault keys (S n) rest rows
  end.

Definition UpsertCommittedDeltas (fault : tx_point → bool) (deltas : list (usageIdentity * Z)) (s : usage_store)
  : option bucket_error * usage_store :=
  match validate_usage deltas with
  | Err e => (Some e, s)
  | Ok [] => (None, s)
  | Ok valid =>
      if fault TxLock || fault TxBegin then (Some ErrBucketWrite, s)
      else match write_usages fault (us_keys s) 0 valid (us_rows s) with
           | Err e => (Some e, s)
           | Ok rows =>
               if fault TxCleanup then (Some ErrBucketWrite, s)
               else if fault TxCommit then (Some ErrBucketWrite, s)
               else (None, mkUsageStore (us_keys s) (filter (λ r, r.2 ≠ 0) rows))
           end
  end.

Definition usage_stored (s : usage_store) (id : usageIdentity) : Z :=
  if usage_valid id then default 0 (us_rows s !! usage_row id) else 0.

Section usage_repository.

Lemma usage_row_inj id1 id2 :
  usage_valid id1 = true → usage_valid id2 = true → usage_row id1 = usage_row id2 → id1 = id2.
Proof.
  destruct id1 as [[[k1 s1] c1] a1], id2 as [[[k2 s2] c2] a2].
  unfold usage_valid, validateUsageBucketIdentity. cbn [usage_row].
  destruct (_ || (_ <? c1)) eqn:E1; [done|]. destruct (_ || (_ <? c2)) eqn:E2; [done|]. intros _ _ [= -> Hs -> ->].
  rewrite !orb_false_iff in E1, E2. destruct E1 as [[[[_ N1] _] _] _], E2 as [[[[_ N2] _] _] _].
  f_equal; f_equal. f_equal. unfold Unix, Nanosecond in *.
  apply negb_false_iff, Z.eqb_eq in N1, N2. div_lia.
Qed.

Lemma validate_usage_Ok batch ds :
  validate_usage batch = Ok ds →
  Forall (λ d, usage_valid d.1 = true) ds ∧ ∀ id, delta_sum ds id = delta_sum batch id.
Proof.
  revert ds. induction batch as [|[id delta] batch IH]; intros ds H; [by simplify_eq/=|].
  destruct id as [[[k st] c] a]. cbn [validate_usage] in H.
  destruct (Z.eqb_spec delta 0) as [->|].
  { apply IH in H as [H1 H2]. split; [done|]. intros id'. rewrite delta_sum_cons, H2. simpl. by case_bool_decide. }
  destruct (delta =? minInt64); [done|]. destruct (negb _) eqn:Ev; [done|]. destruct (a <=? 0) eqn:Ea; [done|].
  apply result_bind_Ok in H as (ds' & Hds & [= <-]). apply IH in Hds as [H1 H2]. split.
  - constructor; [|done]. simpl. apply negb_false_iff in Ev. rewrite Ev. simpl. lia.
  - intros id'. by rewrite !delta_sum_cons, H2.
Qed.

Lemma write_usage_Ok fault keys n id delta rows rows' id' :
  usage_valid id = true → usage_valid id' = true → write_usage fault keys n id delta rows = Ok rows' →
  default 0 (rows' !! usage_row id') = default 0 (rows !! usage_row id') + (if bool_decide (id = id') then delta else 0).
Proof.
  intros Hv Hv' H.
  assert (Hrow : rows' = <[usage_row id := default 0 (rows !! usage_row id) + delta]> rows).
  { unfold write_usage in H. destruct (delta <? 0).
    - destruct (fault (TxWrite n)); [done|]. destruct (rows !! usage_row id) as [c|]; [|done].
      destruct (_ || _); [done|]. by injection H as <-.
    - destruct (_ || _); [done|]. by injection H as <-. }
  subst rows'. case_bool_decide as E.
  - subst id'. by rewrite lookup_insert_eq.
  - rewrite lookup_insert_ne, Z.add_0_r; [done|]. intros Hr. by apply E, usage_row_inj.
Qed.

Lemma write_usages_Ok fault keys n ds rows rows' id :
  Forall (λ d, usage_valid d.1 = true) ds → usage_valid id = true →
  write_usages fault keys n ds rows = Ok rows' →
  default 0 (rows' !! usage_row id) = default 0 (rows !! usage_row id) + delta_sum ds id.
Proof.
  intros Hds Hv. revert n rows. induction Hds as [|[id0 delta] ds Hv0 _ IH]; intros n rows H.
  { simpl in H. simplify_eq. unfold delta_sum. simpl. lia. }
  cbn [write_usages] in H. apply result_bind_Ok in H as (rows1 & H1 & H).
  apply IH in H. rewrite H, delta_sum_cons, (write_usage_Ok _ _ _ _ _ _ _ id Hv0 Hv H1). simpl. lia.
Qed.

Lemma UpsertCommittedDeltas_ok fault batch s s' id :
  UpsertCommittedDeltas fault batch s = (None, s') →
  usage_stored s' id = usage_stored s id + delta_sum batch id.
Proof.
  intros H. unfold UpsertCommittedDeltas in H. destruct (validate_usage batch) as [ds|] eqn:Ev; [|done].
  apply validate_usage_Ok in Ev as [Hds Hsum]. rewrite <-Hsum. unfold usage_stored.
  destruct ds as [|d ds]; [injection H as <-; unfold delta_sum; simpl; lia|].
  destruct (_ || _); [done|]. destruct (write_usages _ _ _ _ _) as [rows|] eqn:Ew; [|done].
  destruct (fault TxCleanup); [done|]. destruct (fault TxCommit); [done|]. injection H as <-.
  destruct (usage_valid id) eqn:Hv.
  - cbn [us_rows]. rewrite (default_filter_nonzero rows). by eapply write_usages_Ok.
  - rewrite (delta_sum_unused (λ i, usage_valid i = true)); [done..|congruence].
Qed.

Lemma UpsertCommittedDeltas_err fault batch s s' e : UpsertCommittedDeltas fault batch s = (Some e, s') → s' = s.
Proof. unfold UpsertCommittedDeltas. intros H. by repeat case_match; simplify_eq. Qed.

End usage_repository.

#[export] Instance usage_repository : Repository usageIdentity usage_store := {|
  repo_apply := UpsertCommittedDeltas;
  stored := usage_stored;
  canonical _ := True;
  repo_apply_ok fault batch s s' _ H id _ := UpsertCommittedDeltas_ok fault batch s s' id H;
  repo_apply_err := UpsertCommittedDeltas_err;
|}.
