(* ===== verification/BudgetAccounts.v ===== *)
(** * The accounts of a key's budget

    The abstract view of a key's budget state is an account: for the lifetime
    total, for each day and for each month, the amount spent and the amount
    held by unsettled reservations.  The lemmas show that, on a state the
    limiter's own check accepts, [Reserve] and settlement implement the account
    operations, every branch included. *)

From Stdlib Require Import Ascii ZArith Lia ZifyBool.
From stdpp Require Import prelude gmap strings list.
From S2P Require Import Prelude Text Money Windows Calendar BudgetLimiter.
Local Open Scope Z_scope.

(** ** Accounts *)

Inductive slot := STotal | SDay (start : Z) | SMonth (start : Z).
#[export] Instance slot_eq_dec : EqDecision slot.
Proof. solve_decision. Defined.

Definition bucket_val (b : budgetDayState) : Money * Money := (day_spent b, day_active b).

Definition slot_val (st : budgetState) (s : slot) : option (Money * Money) :=
  match s with
  | STotal => Some (spent st, active st)
  | SDay d => bucket_val <$> dayBuckets st !! d
  | SMonth d => bucket_val <$> monthBuckets st !! d
  end.

(** The amounts of an account; an absent one is empty. *)
Definition account (st : option budgetState) (s : slot) : Z * Z :=
  match st with
  | Some st => match slot_val st s with Some v => (micros v.1, micros v.2) | None => (0, 0) end
  | None => (0, 0)
  end.

Definition captures (r : BudgetReservation) (s : slot) : bool :=
  match s with
  | STotal => br_totalCaptured r
  | SDay d => br_dayCaptured r && (d =? br_dayStart r)
  | SMonth d => br_monthCaptured r && (d =? br_monthStart r)
  end.

Definition slot_start_ok (s : slot) : Prop :=
  match s with
  | STotal => True
  | SDay d => validDayStart d = true
  | SMonth d => validMonthStart d = true
  end.

Definition limits_known (st : budgetState) : Prop :=
  (hasLimit st = true → validKnownMoney (total st) = true) ∧
  (hasDayLimit st = true → validKnownMoney (dayLimit st) = true) ∧
  (hasMonthLimit st = true → validKnownMoney (monthLimit st) = true).

(** A state whose accounts are known, hold what is [owed] to the unsettled
    reservations, and whose sums are representable. *)
Record state_good (owed : slot → Z) (st : budgetState) : Prop := {
  sg_val : ∀ s x y, slot_val st s = Some (x, y) →
    ∃ a b, x = mkMoney a true ∧ y = mkMoney b true ∧ 0 <= a ∧ 0 <= b ∧ a + b <= MaxMoneyMicros ∧ b = owed s;
  sg_none : ∀ s, slot_val st s = None → owed s = 0;
  sg_start : ∀ s, is_Some (slot_val st s) → slot_start_ok s;
  sg_gen : generation st ≠ 0;
  sg_limits : limits_known st;
}.

Section accounts.

Lemma good_slot owed st s :
  state_good owed st → is_Some (slot_val st s) →
  ∃ a b, slot_val st s = Some (mkMoney a true, mkMoney b true) ∧
    amount_range a ∧ amount_range b ∧ a + b <= MaxMoneyMicros ∧ b = owed s.
Proof.
  intros Hg [ [x y] Hv]. destruct (sg_val _ _ Hg s x y Hv) as (a & b & -> & -> & ? & ? & ? & ?).
  exists a, b. unfold amount_range. split_and!; done || lia.
Qed.

Lemma validKnownMoney_known a : amount_range a → validKnownMoney (mkMoney a true) = true.
Proof. intros [? _]. unfold validKnownMoney. simpl. lia. Qed.

Lemma validKnownMoney_spec m : validKnownMoney m = true → money_wf m → m = mkMoney (micros m) true ∧ amount_range (micros m).
Proof.
  destruct m as [z [] ]; unfold validKnownMoney, money_wf; simpl; [|done]. intros ? ?. done.
Qed.

Lemma add_ok a b : amount_range a → amount_range b → a + b <= MaxMoneyMicros →
  Money_Add (mkMoney a true) (mkMoney b true) = Ok (mkMoney (a + b) true).
Proof. intros. rewrite Money_Add_known by done. destruct (Z.ltb_spec MaxMoneyMicros (a + b)); [lia|done]. Qed.

Lemma sub_ok a b : amount_range a → amount_range b → b <= a →
  Money_Subtract (mkMoney a true) (mkMoney b true) = Ok (mkMoney (a - b) true).
Proof. intros. rewrite Money_Subtract_known by done. destruct (Z.ltb_spec a b); [lia|done]. Qed.

Lemma good_bucket_valid owed st s (v : Z → bool) d b :
  state_good owed st → slot_val st s = Some (bucket_val b) → (slot_start_ok s → v d = true) →
  valid_bucket v (d, b) = true.
Proof.
  intros Hg Hv Hs. destruct (good_slot owed st s Hg) as (x & y & E & Hx & Hy & Hxy & _); [eauto|].
  rewrite Hv in E. unfold bucket_val in E. injection E as Ex Ey. unfold valid_bucket. cbn [fst snd].
  rewrite Ex, Ey, !validKnownMoney_known, add_ok by done.
  rewrite Hs; [done|]. apply (sg_start _ _ Hg). eauto.
Qed.

Lemma good_valid owed st : state_good owed st → validateBudgetState st = None.
Proof.
  intros Hg. unfold validateBudgetState. destruct (sg_limits _ _ Hg) as (HL & HD & HM).
  destruct (good_slot owed st STotal Hg ltac:(eauto)) as (a & b & E & Ha & Hb & Hab & _). injection E as Ea Eb.
  rewrite Ea, Eb, !validKnownMoney_known, add_ok by done.
  destruct (Z.eqb_spec (generation st) 0); [by destruct (sg_gen _ _ Hg)|]. simpl.
  destruct (hasLimit st); simpl; [rewrite HL by done|]; simpl;
  (destruct (hasDayLimit st); simpl; [rewrite HD by done|]; simpl);
  (destruct (hasMonthLimit st); simpl; [rewrite HM by done|]; simpl);
  (rewrite (proj2 (forallb_forall (valid_bucket validDayStart) _));
    [|intros [d bk] Hin%list_elem_of_In%elem_of_map_to_list;
      apply (good_bucket_valid owed st (SDay d)); [done|simpl; by rewrite Hin|done] ]);
  (rewrite (proj2 (forallb_forall (valid_bucket validMonthStart) _));
    [|intros [d bk] Hin%list_elem_of_In%elem_of_map_to_list;
      apply (good_bucket_valid owed st (SMonth d)); [done|simpl; by rewrite Hin|done] ]); done.
Qed.

End accounts.

(** ** Settlement refines the account operation *)

(** What a settlement asks to charge, for a reservation of [n] micros. *)
Definition wanted (kind : BudgetSettlementKind) (actual : Money) (n : Z) : Z :=
  match kind with
  | BudgetSettlementPreUpstreamRelease => 0
  | BudgetSettlementKnown => if validKnownMoney actual then micros actual else n
  | _ => n
  end.

(** The spends the charge is added to stay representable. *)
Definition charge_fits (r : BudgetReservation) (st : budgetState) (c : Z) : bool :=
  let ok s := negb (captures r s) || ((account (Some st) s).1 + c <=? MaxMoneyMicros) in
  ok STotal && ok (SDay (br_dayStart r)) && ok (SMonth (br_monthStart r)).

(** What it charges: a cost that is not representable falls back to the
    reservation. *)
Definition charged (r : BudgetReservation) (kind : BudgetSettlementKind) (actual : Money) (n : Z) (st : budgetState) : Z :=
  if charge_fits r st (wanted kind actual n) then wanted kind actual n else n.

Definition settle_error (r : BudgetReservation) (kind : BudgetSettlementKind) (actual : Money) (n : Z) (st : budgetState) : option BudgetError :=
  if charge_fits r st (wanted kind actual n) then
    match kind with
    | BudgetSettlementKnown => if validKnownMoney actual then None else Some (BudgetSettlementError CauseInvalidActual true)
    | _ => None
    end
  else Some (BudgetSettlementError CauseArithmetic true).

(** The account operation: a captured account moves [n] out of the held amount
    and [c] into the spent amount. *)
Definition settles (r : BudgetReservation) (n c : Z) (st st' : budgetState) : Prop :=
  ∀ s, slot_val st' s =
    if captures r s
    then (λ v : Money * Money, (mkMoney (micros v.1 + c) true, mkMoney (micros v.2 - n) true)) <$> slot_val st s
    else slot_val st s.

Definition same_limits (st st' : budgetState) : Prop :=
  generation st' = generation st ∧ totalLoaded st' = totalLoaded st ∧ (limits_known st → limits_known st').

(** An idle state is unlinked from its shard. *)
Definition retire (keyID : string) (st : budgetState) (l : BudgetLimiter) : BudgetLimiter :=
  if state_idle st then drop_ptr keyID l else l.

(** A reservation that holds money in some account of state [p]. *)
Record b_holds (r : BudgetReservation) (p : positive) (n : Z) : Prop := {
  h_state : br_state r = Some p;
  h_amount : br_amount r = mkMoney n true;
  h_pos : 0 < n <= MaxMoneyMicros;
  h_day : br_dayCaptured r = negb (IsZero (br_dayStart r));
  h_month : br_monthCaptured r = negb (IsZero (br_monthStart r));
}.

Section settlement.
Context (owed : slot → Z).
Context (r : BudgetReservation) (p : positive) (n : Z) (st : budgetState).
Context (Hg : state_good owed st) (Hh : b_holds r p n).
Context (Howed : ∀ s, captures r s = true → n <= owed s).

Lemma captured_present s : captures r s = true → is_Some (slot_val st s).
Proof.
  intros Hc. destruct (slot_val st s) eqn:E; [eauto|]. pose proof (sg_none _ _ Hg s E).
  specialize (Howed s Hc). destruct Hh. lia.
Qed.

(** The day and month buckets [settleReservation] reads, as known amounts. *)
Lemma settle_day :
  ∃ a b, default zeroDay (dayBuckets st !! br_dayStart r) = mkDay (mkMoney a true) (mkMoney b true) ∧
    amount_range a ∧ amount_range b ∧ a + b <= MaxMoneyMicros ∧
    (br_dayCaptured r = true → slot_val st (SDay (br_dayStart r)) = Some (mkMoney a true, mkMoney b true) ∧ n <= b).
Proof.
  destruct (br_dayCaptured r) eqn:E.
  - assert (Hc : captures r (SDay (br_dayStart r)) = true) by (simpl; rewrite E; apply Z.eqb_refl).
    destruct (good_slot owed st _ Hg (captured_present _ Hc)) as (a & b & Ev & Ha & Hb & Hab & Hbo).
    pose proof Ev as Ev'. simpl in Ev'. destruct (dayBuckets st !! br_dayStart r) as [ [x y]|]; [|done].
    unfold bucket_val in Ev'. simpl in Ev'. injection Ev' as -> ->.
    exists a, b. specialize (Howed _ Hc). rewrite <-Hbo in Howed. split_and!; try done; apply Ha || apply Hb || lia.
  - assert (Hz : dayBuckets st !! br_dayStart r = None).
    { destruct (dayBuckets st !! br_dayStart r) as [bk|] eqn:Eb; [exfalso|done].
      pose proof (sg_start _ _ Hg (SDay (br_dayStart r))) as Hs. simpl in Hs. rewrite Eb in Hs.
      specialize (Hs ltac:(eauto)). unfold validDayStart in Hs. pose proof (h_day _ _ _ Hh) as Hd. rewrite E in Hd.
      destruct (IsZero (br_dayStart r)); done. }
    rewrite Hz. exists 0, 0. unfold amount_range, MaxMoneyMicros, maxInt64. split_and!; done || lia.
Qed.

Lemma settle_month :
  ∃ a b, (if IsZero (br_monthStart r) then zeroDay
          else default (mkDay UnknownMoney UnknownMoney) (monthBuckets st !! br_monthStart r))
         = mkDay (mkMoney a true) (mkMoney b true) ∧
    amount_range a ∧ amount_range b ∧ a + b <= MaxMoneyMicros ∧
    (br_monthCaptured r = true → slot_val st (SMonth (br_monthStart r)) = Some (mkMoney a true, mkMoney b true) ∧ n <= b).
Proof.
  pose proof (h_month _ _ _ Hh) as Hm. destruct (br_monthCaptured r) eqn:E.
  - assert (Hc : captures r (SMonth (br_monthStart r)) = true) by (simpl; rewrite E; apply Z.eqb_refl).
    destruct (good_slot owed st _ Hg (captured_present _ Hc)) as (a & b & Ev & Ha & Hb & Hab & Hbo).
    pose proof Ev as Ev'. simpl in Ev'. destruct (monthBuckets st !! br_monthStart r) as [ [x y]|]; [|done].
    unfold bucket_val in Ev'. simpl in Ev'. injection Ev' as -> ->.
    exists a, b. specialize (Howed _ Hc). rewrite <-Hbo in Howed. destruct (IsZero (br_monthStart r)); [done|].
    split_and!; try done; apply Ha || apply Hb || lia.
  - destruct (IsZero (br_monthStart r)); [|done]. exists 0, 0. unfold amount_range, MaxMoneyMicros, maxInt64.
    split_and!; done || lia.
Qed.

Lemma captured_op_add captured a c :
  amount_range a → amount_range c →
  captured_op captured (mkMoney a true) (Money_Add (mkMoney a true) (mkMoney c true)) =
    if negb captured || (a + c <=? MaxMoneyMicros) then (mkMoney (if captured then a + c else a) true, true) else (UnknownMoney, false).
Proof.
  intros Ha Hc. unfold captured_op. destruct captured; [|done]. rewrite Money_Add_known by done. simpl.
  destruct (Z.ltb_spec MaxMoneyMicros (a + c)), (Z.leb_spec (a + c) MaxMoneyMicros); try lia; done.
Qed.

Lemma captured_op_sub captured b :
  amount_range b → (captured = true → n <= b) →
  captured_op captured (mkMoney b true) (Money_Subtract (mkMoney b true) (mkMoney n true)) =
    (mkMoney (if captured then b - n else b) true, true).
Proof.
  intros Hb Hs. unfold captured_op. destruct captured; [|done].
  destruct Hh. rewrite sub_ok; [done|done|unfold amount_range; lia|auto].
Qed.

(** The spends a settlement writes: the charge where it fits, and otherwise
    the reservation, which always fits. *)
Lemma settle_spends_spec kind a da ma c :
  amount_range a → amount_range da → amount_range ma → amount_range c →
  (br_totalCaptured r = true → a + n <= MaxMoneyMicros) → (br_dayCaptured r = true → da + n <= MaxMoneyMicros) →
  (br_monthCaptured r = true → ma + n <= MaxMoneyMicros) →
  let ok (b : bool) x := negb b || (x + c <=? MaxMoneyMicros) in
  let f := ok (br_totalCaptured r) a && ok (br_dayCaptured r) da && ok (br_monthCaptured r) ma in
  let x := if f then c else n in
  settle_spends r kind (mkMoney c true) (mkMoney a true) (mkMoney da true) (mkMoney ma true) =
    Some (mkMoney (if br_totalCaptured r then a + x else a) true, mkMoney (if br_dayCaptured r then da + x else da) true,
          mkMoney (if br_monthCaptured r then ma + x else ma) true, mkMoney x true, negb f).
Proof.
  intros Ha Hda Hma Hc Ht Hd Hm ok f x. pose proof (h_pos _ _ _ Hh) as Hn.
  assert (Hnr : amount_range n) by (unfold amount_range; lia).
  unfold settle_spends. rewrite (h_amount _ _ _ Hh), !captured_op_add by done. cbn [negb orb].
  fold (ok (br_totalCaptured r) a) (ok (br_dayCaptured r) da) (ok (br_monthCaptured r) ma).
  assert (Hz : f = false → isZeroMoney (mkMoney c true) = false).
  { intros Hf. unfold isZeroMoney. simpl. destruct (Z.eqb_spec c 0) as [-> |]; [exfalso|done]. revert Hf. unfold f, ok.
    rewrite !Z.add_0_r. unfold amount_range in *.
    rewrite !(proj2 (Z.leb_le _ _)), !orb_true_r by lia. done. }
  assert (Hfit : ∀ (b : bool) y, (b = true → y + n <= MaxMoneyMicros) → b = true → (y + n <=? MaxMoneyMicros) = true).
  { intros b y Hb E. specialize (Hb E). lia. }
  pose proof (Hfit _ _ Ht) as Ht'. pose proof (Hfit _ _ Hd) as Hd'. pose proof (Hfit _ _ Hm) as Hm'.
  unfold x. destruct f eqn:Ef.
  - unfold f in Ef. apply andb_true_iff in Ef as [Ef E3]. apply andb_true_iff in Ef as [E1 E2]. by rewrite E1, E2, E3.
  - rewrite (Hz eq_refl). cbn [negb orb]. rewrite !andb_true_r.
    match goal with |- (if ?b then _ else _) = _ => assert (b = false) as -> end.
    { revert Ef. unfold f. destruct (ok (br_totalCaptured r) a), (ok (br_dayCaptured r) da), (ok (br_monthCaptured r) ma); done. }
    assert (Hun : ∀ y, ok false y = true) by done.
    destruct (br_totalCaptured r); [rewrite Ht' by done|rewrite Hun]; (destruct (br_dayCaptured r); [rewrite Hd' by done|rewrite Hun]);
      (destruct (br_monthCaptured r); [rewrite Hm' by done|rewrite Hun]); done.
Qed.

Lemma wanted_range kind actual : money_wf actual → amount_range (wanted kind actual n).
Proof.
  pose proof (h_pos _ _ _ Hh). intros Hw. unfold wanted, amount_range. destruct kind; try lia. destruct (validKnownMoney actual) eqn:E; [|lia].
  destruct (validKnownMoney_spec actual E Hw) as [_ ?]. done.
Qed.

Lemma charged_range kind actual : money_wf actual → amount_range (charged r kind actual n st).
Proof.
  intros Hw. pose proof (wanted_range kind actual Hw). pose proof (h_pos _ _ _ Hh). unfold charged. case_match; [done|]. unfold amount_range. lia.
Qed.

(** A captured account has room for the charge. *)
Lemma charged_fits kind actual s a b :
  captures r s = true → slot_val st s = Some (mkMoney a true, mkMoney b true) → a + charged r kind actual n st <= MaxMoneyMicros.
Proof.
  intros Hc Hv. unfold charged. destruct (charge_fits r st (wanted kind actual n)) eqn:Ef.
  - unfold charge_fits in Ef. apply andb_true_iff in Ef as [Ef E3]. apply andb_true_iff in Ef as [E1 E2].
    assert (Hs : s = STotal ∨ s = SDay (br_dayStart r) ∨ s = SMonth (br_monthStart r)).
    { destruct s as [|d|d]; simpl in Hc; [by left|right; left|right; right]; apply andb_true_iff in Hc as [_ Hc]; f_equal; lia. }
    assert (Hok : negb (captures r s) || ((account (Some st) s).1 + wanted kind actual n <=? MaxMoneyMicros) = true)
      by (destruct Hs as [-> |[-> | ->] ]; done).
    rewrite Hc in Hok. unfold account in Hok. rewrite Hv in Hok. simpl in Hok. lia.
  - destruct (good_slot owed st s Hg (captured_present _ Hc)) as (a' & b' & E & _ & _ & Hab & Hbo). rewrite Hv in E. injection E as <- <-.
    specialize (Howed s Hc). lia.
Qed.

(** Settling on a state the limiter accepts, every branch. *)
Lemma settle_good l kind actual deferred c err :
  state_ptr l (br_keyID r) = Some p → bl_heap l !! p = Some st → generation st = br_generation r → money_wf actual →
  c = charged r kind actual n st → err = settle_error r kind actual n st →
  ∃ st' res,
    settleReservation r kind actual deferred l =
      (res, settle_deltas r (mkMoney c true) c,
       (if deferred && bool_decide (err = None) then
          Some (mkBTicket true (br_keyID r) (br_generation r) (mkMoney n true) (br_dayStart r) (br_monthStart r)
                  (br_totalCaptured r) (br_dayCaptured r) (br_monthCaptured r) false None) else None),
       retire (br_keyID r) st' (set_state p st' l)) ∧
    sr_Error res = err ∧ sr_Charged res = mkMoney c true ∧ sr_CommittedDelta res = c ∧
    settles r n c st st' ∧ same_limits st st'.
Proof.
  intros Hp Hst Hgen Hwf -> ->. unfold settleReservation. rewrite (h_state _ _ _ Hh), (h_amount _ _ _ Hh).
  pose proof (h_pos _ _ _ Hh) as Hpos.
  assert (isZeroMoney (mkMoney n true) = false) as -> by (unfold isZeroMoney; simpl; lia).
  rewrite Hp, Hst, bool_decide_true, Hgen, Z.eqb_refl by done. cbn [negb orb].
  rewrite (good_valid owed st Hg).
  destruct (good_slot owed st STotal Hg ltac:(eauto)) as (a & b & E & Ha & Hb & Hab & Hbo). injection E as Ea Eb.
  destruct settle_day as (da & db & -> & Hda & Hdb & Hdab & Hday).
  destruct settle_month as (ma & mb & -> & Hma & Hmb & Hmab & Hmonth).
  assert (Htot : br_totalCaptured r = true → n <= b) by (intros Ht; rewrite Hbo; by apply Howed).
  set (w := wanted kind actual n).
  assert (Hcr : amount_range w) by (by apply wanted_range).
  assert (Hf : charge_fits r st w = (negb (br_totalCaptured r) || (a + w <=? MaxMoneyMicros)) &&
     (negb (br_dayCaptured r) || (da + w <=? MaxMoneyMicros)) && (negb (br_monthCaptured r) || (ma + w <=? MaxMoneyMicros))).
  { unfold charge_fits, account. cbn [captures slot_val]. rewrite !Z.eqb_refl, !andb_true_r, Ea. cbn [fst micros].
    destruct (br_dayCaptured r) eqn:E1, (br_monthCaptured r) eqn:E2; cbn [negb orb]; rewrite ?andb_true_r; f_equal; try f_equal;
      try (destruct (Hday eq_refl) as [Hv _]; simpl in Hv; by rewrite Hv);
      destruct (Hmonth eq_refl) as [Hv _]; simpl in Hv; by rewrite Hv. }
  assert (Hch : ∃ kind', (match kind with
                  | BudgetSettlementPreUpstreamRelease => (knownZeroMoney, kind, None)
                  | BudgetSettlementKnown =>
                      if validKnownMoney actual then (actual, kind, None)
                      else (mkMoney n true, BudgetSettlementConservative, Some (BudgetSettlementError CauseInvalidActual true))
                  | _ => (mkMoney n true, kind, None)
                  end) = (mkMoney w true, kind', match kind with
                    | BudgetSettlementKnown => if validKnownMoney actual then None else Some (BudgetSettlementError CauseInvalidActual true)
                    | _ => None end)).
  { unfold w, wanted. destruct kind; try by eexists.
    destruct (validKnownMoney actual) eqn:Ev; [|by eexists]. eexists. repeat f_equal.
    unfold validKnownMoney in Ev. destruct actual as [z [] ]; done. }
  destruct Hch as [kind' ->]. cbn [day_spent day_active]. rewrite Ea, Eb.
  rewrite !captured_op_sub by naive_solver. cbn [ok_known fst snd known andb negb].
  rewrite settle_spends_spec by (done || (intros Ht; specialize (Htot Ht) || specialize (Hday Ht) || specialize (Hmonth Ht); lia)).
  rewrite <-Hf. unfold settle_error, charged. fold w. set (c := if charge_fits r st w then w else n).
  match goal with |- context [if negb (charge_fits r st w) then (?k1, ?e1) else (?k2, ?e2)] =>
    assert ((if negb (charge_fits r st w) then (k1, e1) else (k2, e2)) = (if charge_fits r st w then k2 else k1, if charge_fits r st w then e2 else e1)) as ->
      by (by destruct (charge_fits r st w)) end.
  match goal with |- context [state_idle ?x] => exists x end.
  eexists. split; [|split; [|split; [|split; [|split] ] ] ].
  - unfold retire. apply (f_equal (λ x, (x, _))), (f_equal (λ x, (_, x))).
    destruct deferred, (charge_fits r st w); simpl; try done; destruct kind; try done; destruct (validKnownMoney actual); done.
  - done.
  - done.
  - done.
  - intros s. destruct s as [|d|d]; simpl.
    + rewrite Ea, Eb. destruct (br_totalCaptured r); done.
    + unfold set_bucket. pose proof (h_day _ _ _ Hh) as Hd. rewrite <-Hd.
      destruct (br_dayCaptured r) eqn:E; simpl; [|done]. destruct (Hday eq_refl) as [Hv _]. simpl in Hv.
      destruct (Z.eqb_spec d (br_dayStart r)) as [-> |Hne].
      * rewrite lookup_insert_eq. rewrite Hv. done.
      * by rewrite lookup_insert_ne.
    + unfold set_bucket. pose proof (h_month _ _ _ Hh) as Hd. rewrite <-Hd.
      destruct (br_monthCaptured r) eqn:E; simpl; [|done]. destruct (Hmonth eq_refl) as [Hv _]. simpl in Hv.
      destruct (Z.eqb_spec d (br_monthStart r)) as [-> |Hne].
      * rewrite lookup_insert_eq. rewrite Hv. done.
      * by rewrite lookup_insert_ne.
  - split; [done|]. split; [done|]. by intros.
Qed.

End settlement.

(** ** Admission refines the account operation *)

(** The limit a policy sets on an account at the current day and month. *)
Definition limit_of (policy : BudgetPolicy) (dayStart monthStart : Z) (s : slot) : option Z :=
  match s with
  | STotal => if Limited policy then Some (micros (Total policy)) else None
  | SDay d => if DayLimited policy && (d =? dayStart) then Some (micros (Day policy)) else None
  | SMonth d => if MonthLimited policy && (d =? monthStart) then Some (micros (Month policy)) else None
  end.

Definition account_used (st : option budgetState) (s : slot) : Z := (account st s).1 + (account st s).2.

(** The candidate does not fit the account. *)
Definition rejects (policy : BudgetPolicy) (dayStart monthStart : Z) (st : option budgetState) (c : Z) (s : slot) : bool :=
  match limit_of policy dayStart monthStart s with
  | Some lim => lim <? account_used st s + c
  | None => false
  end.

Definition policy_wf (policy : BudgetPolicy) : Prop :=
  money_wf (Total policy) ∧ money_wf (Day policy) ∧ money_wf (Month policy).

(** The admission decision in terms of accounts. *)
Definition decision (policy : BudgetPolicy) (dayStart monthStart : Z) (st : option budgetState) (c : Z) : option BudgetError :=
  let t := rejects policy dayStart monthStart st c STotal in
  let d := rejects policy dayStart monthStart st c (SDay dayStart) in
  let m := rejects policy dayStart monthStart st c (SMonth monthStart) in
  if t || d || m then
    Some (BudgetCapacityError (if negb t && m then nextMonth monthStart else if d && negb t then dayStart + day_ns else zeroTime) t)
  else None.

Definition account_ok (st : option budgetState) (s : slot) : Prop :=
  amount_range (account st s).1 ∧ amount_range (account st s).2 ∧ account_used st s <= MaxMoneyMicros.

Section admission.
Context (policy : BudgetPolicy) (dayStart monthStart : Z).
Context (Hpol : validPolicy policy = true) (Hwf : policy_wf policy).

Lemma policy_amounts :
  (Limited policy = true → Total policy = mkMoney (micros (Total policy)) true ∧ amount_range (micros (Total policy))) ∧
  (DayLimited policy = true → Day policy = mkMoney (micros (Day policy)) true ∧ amount_range (micros (Day policy))) ∧
  (MonthLimited policy = true → Month policy = mkMoney (micros (Month policy)) true ∧ amount_range (micros (Month policy))).
Proof.
  destruct Hwf as (H1 & H2 & H3). unfold validPolicy in Hpol.
  destruct (Bool.eqb_spec (Limited policy) (validKnownMoney (Total policy))) as [E1|]; [|done].
  destruct (Bool.eqb_spec (DayLimited policy) (validKnownMoney (Day policy))) as [E2|]; [|done].
  simpl in Hpol. apply Bool.eqb_prop in Hpol.
  split_and!; intros E; apply validKnownMoney_spec; congruence.
Qed.

Lemma limitRejects_spec limited limit used c :
  (limited = true → amount_range limit) → amount_range used → amount_range c →
  limitRejects limited (mkMoney limit true) (mkMoney used true) (mkMoney c true) =
    Ok (if limited then limit <? used + c else false).
Proof.
  intros Hl Hu Hc. unfold limitRejects. destruct limited; [|done]. specialize (Hl eq_refl).
  rewrite Money_Subtract_known by done. destruct (Z.ltb_spec limit used).
  - destruct (Z.ltb_spec limit (used + c)); [done|]. unfold amount_range in *. lia.
  - rewrite Money_LessOrEqual_known. f_equal. cbn [negb].
    destruct (Z.leb_spec c (limit - used)), (Z.ltb_spec limit (used + c)); try lia; done.
Qed.

Lemma checkLimits_spec st c :
  account_ok st STotal → account_ok st (SDay dayStart) → account_ok st (SMonth monthStart) → amount_range c →
  checkLimits policy (mkMoney c true)
    (mkAdmission (mkMoney (account st STotal).1 true) (mkMoney (account st STotal).2 true)
       (mkMoney (account st (SDay dayStart)).1 true) (mkMoney (account st (SDay dayStart)).2 true)
       (mkMoney (account st (SMonth monthStart)).1 true) (mkMoney (account st (SMonth monthStart)).2 true))
    dayStart monthStart = decision policy dayStart monthStart st c.
Proof.
  intros (Ht1 & Ht2 & Ht3) (Hd1 & Hd2 & Hd3) (Hm1 & Hm2 & Hm3) Hc.
  destruct policy_amounts as (PT & PD & PM).
  assert (Hu : ∀ s, amount_range (account st s).1 → amount_range (account st s).2 → account_used st s <= MaxMoneyMicros →
     amount_range (account_used st s)) by (unfold amount_range, account_used; lia).
  unfold checkLimits, decision, rejects, limit_of. cbn [ad_spent ad_active ad_daySpent ad_dayActive ad_monthSpent ad_monthActive].
  unfold add_known_or_state, add_or_state. rewrite !add_ok by done.
  fold (account_used st STotal) (account_used st (SDay dayStart)) (account_used st (SMonth monthStart)).
  cbn [known result_bind]. rewrite !Z.eqb_refl, !andb_true_r.
  assert (ET : limitRejects (Limited policy) (Total policy) (mkMoney (account_used st STotal) true) (mkMoney c true) =
     Ok (match (if Limited policy then Some (micros (Total policy)) else None) with
         | Some lim => lim <? account_used st STotal + c | None => false end)).
  { destruct (Limited policy); [|done]. destruct (PT eq_refl) as [-> HT]. rewrite limitRejects_spec by auto. done. }
  assert (ED : limitRejects (DayLimited policy) (Day policy) (mkMoney (account_used st (SDay dayStart)) true) (mkMoney c true) =
     Ok (match (if DayLimited policy then Some (micros (Day policy)) else None) with
         | Some lim => lim <? account_used st (SDay dayStart) + c | None => false end)).
  { destruct (DayLimited policy); [|done]. destruct (PD eq_refl) as [-> HT]. rewrite limitRejects_spec by auto. done. }
  rewrite ET. cbn [result_bind]. rewrite ED. cbn [result_bind].
  destruct (MonthLimited policy); [destruct (PM eq_refl) as [-> HT]; rewrite limitRejects_spec by auto|];
    cbn [result_bind micros]; repeat case_match; simplify_eq/=; done.
Qed.

End admission.

Section pruning.

Lemma prune_slot ds ms st s :
  slot_val (prune ds ms st) s = slot_val st s ∨
  slot_val (prune ds ms st) s = None ∧ ∃ x y, slot_val st s = Some (x, y) ∧ isZeroMoney y = true.
Proof.
  assert (H : ∀ start (m : gmap Z budgetDayState) d,
     bucket_val <$> filter (λ e, ¬ day_expired start e) m !! d = bucket_val <$> m !! d ∨
     bucket_val <$> filter (λ e, ¬ day_expired start e) m !! d = None ∧
       ∃ x y, bucket_val <$> m !! d = Some (x, y) ∧ isZeroMoney y = true).
  { intros start m d. destruct (m !! d) as [b|] eqn:E.
    - destruct (decide (day_expired start (d, b))) as [He|He].
      + right. split.
        * rewrite (proj2 (map_lookup_filter_None _ _ _)); [done|]. right. intros b' Hb'. simplify_eq. tauto.
        * exists (day_spent b), (day_active b). split; [done|]. unfold day_expired in He.
          by apply andb_true_iff in He as [_ He].
      + left. rewrite (proj2 (map_lookup_filter_Some _ _ _ b)); [done|]. done.
    - left. rewrite (proj2 (map_lookup_filter_None _ _ _)); [done|]. by left. }
  destruct s as [|d|d]; simpl; [by left|apply H|apply H].
Qed.

Lemma prune_good owed ds ms st : state_good owed st → state_good owed (prune ds ms st).
Proof.
  intros Hg. constructor.
  - intros s x y Hv. destruct (prune_slot ds ms st s) as [E|[E _] ]; [|congruence]. rewrite E in Hv. by apply (sg_val _ _ Hg).
  - intros s Hv. destruct (prune_slot ds ms st s) as [E|(_ & x & y & E & Hz)]; [rewrite E in Hv; by apply (sg_none _ _ Hg)|].
    destruct (sg_val _ _ Hg s x y E) as (a & b & _ & -> & _ & _ & _ & <-). unfold isZeroMoney in Hz. simpl in Hz. lia.
  - intros s Hs. apply (sg_start _ _ Hg). destruct (prune_slot ds ms st s) as [E|[E _] ]; rewrite E in Hs; [done|].
    by destruct Hs.
  - apply (sg_gen _ _ Hg).
  - apply (sg_limits _ _ Hg).
Qed.

Lemma account_good owed st s :
  (∀ st', st = Some st' → state_good owed st') → account_ok st s.
Proof.
  intros Hg. unfold account_ok, account_used, account. destruct st as [st|]; [|unfold amount_range, MaxMoneyMicros, maxInt64; simpl; lia].
  destruct (slot_val st s) as [v|] eqn:E; [|unfold amount_range, MaxMoneyMicros, maxInt64; simpl; lia].
  destruct (good_slot owed st s (Hg st eq_refl) ltac:(eauto)) as (a & b & E' & ? & ? & ? & _).
  rewrite E in E'. injection E' as ->. done.
Qed.

(** The amounts [Reserve] reads from a good state. *)
Lemma admission_of_spec owed st ds ms :
  (∀ st', st = Some st' → state_good owed st') →
  admission_of st ds ms =
    mkAdmission (mkMoney (account st STotal).1 true) (mkMoney (account st STotal).2 true)
       (mkMoney (account st (SDay ds)).1 true) (mkMoney (account st (SDay ds)).2 true)
       (mkMoney (account st (SMonth ms)).1 true) (mkMoney (account st (SMonth ms)).2 true).
Proof.
  intros Hg. unfold admission_of, account. destruct st as [st|]; [|done]. specialize (Hg st eq_refl).
  destruct (good_slot owed st STotal Hg ltac:(eauto)) as (a & b & E & _). injection E as Ea Eb.
  assert (HB : ∀ (m : gmap Z budgetDayState) s d, slot_val st s = bucket_val <$> m !! d →
     bucket_money m d = (mkMoney (match slot_val st s with Some v => (micros v.1, micros v.2) | None => (0, 0) end).1 true,
                         mkMoney (match slot_val st s with Some v => (micros v.1, micros v.2) | None => (0, 0) end).2 true)).
  { intros m s d Es. unfold bucket_money. destruct (m !! d) as [bk|] eqn:Em; simpl in *; [|by rewrite Es].
    destruct (good_slot owed st s Hg ltac:(rewrite Es; eauto)) as (x & y & Ev & _). rewrite Es in Ev.
    unfold bucket_val in Ev. injection Ev as Ex Ey. rewrite Es. unfold bucket_val. simpl. rewrite Ex, Ey. done. }
  rewrite (HB (dayBuckets st) (SDay ds) ds), (HB (monthBuckets st) (SMonth ms) ms) by done.
  simpl. rewrite Ea, Eb. done.
Qed.

End pruning.

(** ** [Reserve] on good states *)

(** The limiter after the pruning loops. *)
Definition pruned_limiter (clk : Z) (k : string) (st0 : option budgetState) (l : BudgetLimiter) : BudgetLimiter :=
  let l := (BudgetLimiter_nowTime clk l).2 in
  match state_ptr l k, st0 with
  | Some p, Some st => set_state p st l
  | _, _ => l
  end.

(** The check for keys without a registered policy fails. *)
Definition mismatch (l : BudgetLimiter) (k : string) (policy : BudgetPolicy) : bool :=
  match bl_policies l !! k, state_of l k with
  | None, Some st => unregistered_mismatch policy st
  | _, _ => false
  end.

Definition captured_reservation (k : string) (policy : BudgetPolicy) (ds ms : Z) (c : Z) (p : positive) (gen : Z) : BudgetReservation :=
  newBudgetReservation k (Some p) gen (mkMoney c true)
    (if DayLimited policy then ds else zeroTime) (if MonthLimited policy then ms else zeroTime)
    (Limited policy) (DayLimited policy) (MonthLimited policy).

(** The account operation: every limited account holds [c] more. *)
Definition reserves (policy : BudgetPolicy) (ds ms c : Z) (st0 : option budgetState) (st' : budgetState) : Prop :=
  ∀ s, slot_val st' s =
    match limit_of policy ds ms s with
    | Some _ => Some (mkMoney (account st0 s).1 true, mkMoney ((account st0 s).2 + c) true)
    | None => match st0 with
              | Some st => slot_val st s
              | None => match s with STotal => Some (knownZeroMoney, knownZeroMoney) | _ => None end
              end
    end.

Definition unlimited (policy : BudgetPolicy) : bool :=
  negb (Limited policy) && negb (DayLimited policy) && negb (MonthLimited policy).

Definition uncaptured_reservation (k : string) (c : Z) : BudgetReservation :=
  newBudgetReservation k None 0 (mkMoney c true) zeroTime zeroTime false false false.

Section reserve.
Context (owed : slot → Z).
Context (clk : Z) (k : string) (policy : BudgetPolicy) (c : Z) (l : BudgetLimiter).
Context (Hk : validKeyID k = true) (Hc : amount_range c).
Context (Hpol : validPolicy policy = true) (Hwf : policy_wf policy).
Context (Hlink : ∀ p, state_ptr l k = Some p → is_Some (bl_heap l !! p)).
Context (Hgood : ∀ st, state_of l k = Some st → state_good owed st).

Let now := (BudgetLimiter_nowTime clk l).1.
Let ds := currentDay now.
Let ms := currentMonth ds.
Let st0 := prune ds ms <$> state_of l k.
Let l0 := pruned_limiter clk k st0 l.

Lemma nowTime_ptr : state_ptr (BudgetLimiter_nowTime clk l).2 k = state_ptr l k ∧
  bl_heap (BudgetLimiter_nowTime clk l).2 = bl_heap l ∧ bl_sequence (BudgetLimiter_nowTime clk l).2 = bl_sequence l.
Proof. unfold BudgetLimiter_nowTime. by case_match. Qed.

Lemma pruned_ptr : state_ptr l0 k = state_ptr l k ∧ bl_sequence l0 = bl_sequence l.
Proof.
  destruct nowTime_ptr as (E & _ & Es). unfold l0, pruned_limiter. cbv zeta.
  rewrite <-E, <-Es. generalize (BudgetLimiter_nowTime clk l).2. intros L.
  split; destruct (state_ptr L k) eqn:E2, st0; done.
Qed.

Lemma st0_good st : st0 = Some st → state_good owed st.
Proof.
  unfold st0. destruct (state_of l k) as [st1|] eqn:E; [|done]. intros [= <-]. apply prune_good, Hgood. done.
Qed.

Lemma state_ptr_of : match state_ptr l k with Some p => ∃ st, state_of l k = Some st ∧ bl_heap l !! p = Some st | None => state_of l k = None end.
Proof.
  unfold state_of. destruct (state_ptr l k) as [p|] eqn:E; [|done]. destruct (Hlink p eq_refl) as [st Hst].
  exists st. simpl. done.
Qed.

(** Everything [Reserve] does for a current policy. *)
Lemma Reserve_spec :
  BudgetLimiter_PolicyCurrent k policy l = true →
  if mismatch l k policy then BudgetLimiter_Reserve clk k policy (mkMoney c true) l = (Err ErrBudgetInvalid, l)
  else if unlimited policy then BudgetLimiter_Reserve clk k policy (mkMoney c true) l = (Ok (uncaptured_reservation k c), l)
  else match decision policy ds ms st0 c with
  | Some e => BudgetLimiter_Reserve clk k policy (mkMoney c true) l = (Err e, l0)
  | None =>
      if c =? 0 then BudgetLimiter_Reserve clk k policy (mkMoney c true) l = (Ok (uncaptured_reservation k c), l0)
      else match state_ptr l k, st0 with
      | Some p, Some st =>
          ∃ st', BudgetLimiter_Reserve clk k policy (mkMoney c true) l =
                   (Ok (captured_reservation k policy ds ms c p (generation st)), set_state p st' l0) ∧
                 reserves policy ds ms c st0 st' ∧ limits_known st' ∧ generation st' = generation st ∧
                 totalLoaded st' = totalLoaded st || Limited policy
      | _, _ =>
          let g := wrapU64 (bl_sequence l + 1) in
          let p := fresh (dom (bl_heap l0)) in
          if g =? 0 then BudgetLimiter_Reserve clk k policy (mkMoney c true) l = (Err ErrBudgetState, set_sequence g l0)
          else ∃ st', BudgetLimiter_Reserve clk k policy (mkMoney c true) l =
                   (Ok (captured_reservation k policy ds ms c p g), put_ptr k p (set_state p st' (set_sequence g l0))) ∧
                 reserves policy ds ms c st0 st' ∧ limits_known st' ∧ generation st' = g ∧ totalLoaded st' = Limited policy
      end
  end.
Proof.
  intros Hcur. unfold BudgetLimiter_Reserve. rewrite Hk, Hpol, validKnownMoney_known, Hcur by done. cbn [negb orb].
  unfold mismatch.
  assert (Hpre : (match state_of l k with
      | None => None
      | Some st => match validateBudgetState st with
          | Some e => Some e
          | None => match bl_policies l !! k with
              | Some _ => None
              | None => if unregistered_mismatch policy st then Some ErrBudgetInvalid else None end end end)
     = if match bl_policies l !! k, state_of l k with None, Some st => unregistered_mismatch policy st | _, _ => false end
       then Some ErrBudgetInvalid else None).
  { destruct (state_of l k) as [st|] eqn:Es; [|by destruct (bl_policies l !! k)].
    rewrite (good_valid owed st) by auto. by destruct (bl_policies l !! k). }
  rewrite Hpre. destruct (match bl_policies l !! k, state_of l k with None, Some st => unregistered_mismatch policy st | _, _ => false end); [done|].
  fold (unlimited policy). destruct (unlimited policy) eqn:Eun; [done|].
  rewrite (surjective_pairing (BudgetLimiter_nowTime clk l)). fold now. cbv zeta. fold ds. fold ms. fold st0.
  fold (pruned_limiter clk k st0 l). fold l0.
  rewrite (admission_of_spec owed st0 ds ms st0_good).
  rewrite (checkLimits_spec policy ds ms Hpol Hwf st0 c) by (done || (apply (account_good owed); exact st0_good)).
  destruct (decision policy ds ms st0 c) eqn:ED; [done|].
  replace (isZeroMoney (mkMoney c true)) with (c =? 0) by done. destruct (Z.eqb_spec c 0) as [|Hc0]; [done|].
  cbn [ad_active ad_dayActive ad_monthActive ad_spent ad_daySpent ad_monthSpent].
  destruct (policy_amounts policy Hpol Hwf) as (PT & PD & PM).
  assert (Hrej : ∀ s lim, (s = STotal ∨ s = SDay ds ∨ s = SMonth ms) → limit_of policy ds ms s = Some lim → account_used st0 s + c <= lim).
  { intros s lim Hs Hl. assert (Hr : rejects policy ds ms st0 c s = false).
    { unfold decision in ED. destruct (rejects policy ds ms st0 c STotal) eqn:E1, (rejects policy ds ms st0 c (SDay ds)) eqn:E2,
        (rejects policy ds ms st0 c (SMonth ms)) eqn:E3; try done. destruct Hs as [-> |[-> | ->] ]; done. }
    unfold rejects in Hr. rewrite Hl in Hr. lia. }
  assert (Hgrow : ∀ s (b : bool), account_ok st0 s → (b = true → account_used st0 s + c <= MaxMoneyMicros) →
     (if b then Money_Add (mkMoney (account st0 s).2 true) (mkMoney c true) else Ok (mkMoney (account st0 s).2 true)) =
     Ok (mkMoney (if b then (account st0 s).2 + c else (account st0 s).2) true)).
  { intros s b (Ha1 & Ha2 & Hu) Hb. destruct b; [|done]. specialize (Hb eq_refl). unfold account_used in Hb.
    apply add_ok; [done|done|]. unfold amount_range in Ha1. lia. }
  assert (Hok : ∀ s, account_ok st0 s) by (intros s; apply (account_good owed); exact st0_good).
  assert (HT : (if Limited policy then add_known_or_state (mkMoney (account st0 STotal).2 true) (mkMoney c true)
                else Ok (mkMoney (account st0 STotal).2 true))
               = Ok (mkMoney (if Limited policy then (account st0 STotal).2 + c else (account st0 STotal).2) true)).
  { pose proof (Hgrow STotal (Limited policy) (Hok _)) as HG. unfold add_known_or_state.
    destruct (Limited policy) eqn:EL; [|done]. rewrite HG; [done|]. intros _.
    destruct (PT eq_refl) as [_ Hr]. pose proof (Hrej STotal (micros (Total policy)) ltac:(auto)) as HR.
    cbn [limit_of] in HR. rewrite EL in HR. specialize (HR eq_refl). unfold amount_range in Hr. lia. }
  assert (HD : grow (DayLimited policy) (mkMoney (account st0 (SDay ds)).2 true) (mkMoney c true)
               = Ok (mkMoney (if DayLimited policy then (account st0 (SDay ds)).2 + c else (account st0 (SDay ds)).2) true)).
  { pose proof (Hgrow (SDay ds) (DayLimited policy) (Hok _)) as HG. unfold grow, add_or_state.
    destruct (DayLimited policy) eqn:EL; [|done]. rewrite HG; [done|]. intros _.
    destruct (PD eq_refl) as [_ Hr]. pose proof (Hrej (SDay ds) (micros (Day policy)) ltac:(auto)) as HR.
    cbn [limit_of] in HR. rewrite EL, Z.eqb_refl in HR. specialize (HR eq_refl). unfold amount_range in Hr. lia. }
  assert (HM : grow (MonthLimited policy) (mkMoney (account st0 (SMonth ms)).2 true) (mkMoney c true)
               = Ok (mkMoney (if MonthLimited policy then (account st0 (SMonth ms)).2 + c else (account st0 (SMonth ms)).2) true)).
  { pose proof (Hgrow (SMonth ms) (MonthLimited policy) (Hok _)) as HG. unfold grow, add_or_state.
    destruct (MonthLimited policy) eqn:EL; [|done]. rewrite HG; [done|]. intros _.
    destruct (PM eq_refl) as [_ Hr]. pose proof (Hrej (SMonth ms) (micros (Month policy)) ltac:(auto)) as HR.
    cbn [limit_of] in HR. rewrite EL, Z.eqb_refl in HR. specialize (HR eq_refl). unfold amount_range in Hr. lia. }
  rewrite HT, HD, HM. cbn [result_bind]. clear HT HD HM Hgrow.
  destruct pruned_ptr as [Eptr Eseq]. rewrite Eptr.
  assert (Hlim : limits_known (mkState knownZeroMoney knownZeroMoney ∅ ∅ (Total policy) (Limited policy) (Day policy) (DayLimited policy)
       (Month policy) (MonthLimited policy) false 0)).
  { unfold limits_known. simpl. split_and!; intros E; [destruct (PT E) as [-> ?]|destruct (PD E) as [-> ?]|destruct (PM E) as [-> ?] ];
      by apply validKnownMoney_known. }
  pose proof state_ptr_of as Hsp.
  assert (Hbucket : ∀ (b : bool) (m : gmap Z budgetDayState) start d x y,
     (bucket_val <$> set_bucket b start (mkDay x y) m !! d) = if b && (d =? start) then Some (x, y) else bucket_val <$> m !! d).
  { intros b m start d x y. unfold set_bucket. destruct b; simpl; [|done]. destruct (Z.eqb_spec d start) as [-> |].
    - by rewrite lookup_insert_eq.
    - by rewrite lookup_insert_ne. }
  destruct (state_ptr l k) as [p|] eqn:Ep.
  - destruct Hsp as (st1 & Es1 & Hst1). destruct st0 as [st|] eqn:Est0; [|unfold st0 in Est0; by rewrite Es1 in Est0].
    eexists. split; [reflexivity|]. split; [|split; [exact Hlim|by split] ].
    intros s. destruct s as [|d|d]; cbn [slot_val applyBudgetPolicyLocked spent active dayBuckets monthBuckets limit_of].
    + pose proof (good_slot owed st STotal (st0_good st Est0) ltac:(eauto)) as (a & b & Ev & _).
      unfold account. rewrite Ev. injection Ev as Ea Eb. rewrite Ea. cbn [fst snd micros]. destruct (Limited policy); [done|]. by rewrite Eb.
    + rewrite Hbucket. destruct (DayLimited policy); [|done]. cbn [andb]. destruct (Z.eqb_spec d ds) as [-> |]; done.
    + rewrite Hbucket. destruct (MonthLimited policy); [|done]. cbn [andb]. destruct (Z.eqb_spec d ms) as [-> |]; done.
  - assert (Est0 : st0 = None) by (unfold st0; by rewrite Hsp). rewrite Est0.
    unfold nextGeneration. rewrite Eseq. set (g := wrapU64 (bl_sequence l + 1)).
    destruct (Z.eqb_spec g 0); cbn [negb]; [done|]. unfold alloc_state. eexists. split; [reflexivity|].
    split; [|split; [exact Hlim|by split] ].
    intros s. destruct s as [|d|d]; cbn [slot_val spent active dayBuckets monthBuckets limit_of account fst snd].
    + by destruct (Limited policy).
    + rewrite Hbucket. destruct (DayLimited policy); [|done]. cbn [andb]. destruct (Z.eqb_spec d ds) as [-> |]; done.
    + rewrite Hbucket. destruct (MonthLimited policy); [|done]. cbn [andb]. destruct (Z.eqb_spec d ms) as [-> |]; done.
Qed.

End reserve.
