(* ===== verification/BudgetWorld.v ===== *)
(** * The budget limiter's calls as a transition system

    The calls of the limiter, in any order and from any number of requests,
    make a transition system over a limiter and the reservations it has handed
    out; it starts with the empty limiter, and every call may be made with
    every argument of its type.  The invariant over all its runs says what
    every account holds, bounds it, and says which states the limiter's own
    check refuses; a second analysis follows one key's state through a call. *)

From Stdlib Require Import Ascii ZArith Lia ZifyBool.
From stdpp Require Import prelude gmap strings list.
From S2P Require Import Prelude Text Money Windows Calendar BudgetLimiter BudgetAccounts.
Local Open Scope Z_scope.

(** ** The states of a key, sound or not *)

(** The amounts of a bucket that [Adjust] created in place of a pruned one. *)
Definition lost : Money * Money := (UnknownMoney, UnknownMoney).

(** What is true of every reachable state: an account is lost, and then nothing
    is owed to it, or its amounts are known, it holds what is [owed] to the
    reservations, and it stays within [cap]. *)
Record state_ok (cap owed : slot → Z) (st : budgetState) : Prop := {
  so_val : ∀ s v, slot_val st s = Some v →
    (v = lost ∧ s ≠ STotal ∧ owed s = 0) ∨
    (∃ a b, v = (mkMoney a true, mkMoney b true) ∧ amount_range a ∧ amount_range b ∧ a + b <= cap s ∧ b = owed s ∧ slot_start_ok s);
  so_none : ∀ s, slot_val st s = None → owed s = 0;
  so_gen : generation st ≠ 0;
  so_limits : limits_known st;
  so_loaded : totalLoaded st = false → owed STotal = 0;
}.

Section states.
Context (cap owed : slot → Z).

Lemma is_ok_add a b : amount_range a → amount_range b → is_ok (Money_Add (mkMoney a true) (mkMoney b true)) = true → a + b <= MaxMoneyMicros.
Proof. intros Ha Hb. rewrite Money_Add_known by done. destruct (Z.ltb_spec MaxMoneyMicros (a + b)); [done|lia]. Qed.

(** What the limiter's check says of an account. *)
Lemma valid_slot st s x y :
  validateBudgetState st = None → slot_val st s = Some (x, y) →
  validKnownMoney x = true ∧ validKnownMoney y = true ∧ is_ok (Money_Add x y) = true.
Proof.
  intros Hv Hs. unfold validateBudgetState in Hv.
  destruct (generation st =? 0); [done|]. destruct (validKnownMoney (spent st)) eqn:E1; [|done].
  destruct (validKnownMoney (active st)) eqn:E2; [|done]. cbn [negb orb] in Hv.
  destruct (hasLimit st && _); [done|]. destruct (is_ok (Money_Add (spent st) (active st))) eqn:E3; [|done]. cbn [negb] in Hv.
  destruct (hasDayLimit st && _); [done|]. destruct (hasMonthLimit st && _); [done|].
  destruct (forallb (valid_bucket validDayStart) _) eqn:E4; [|done]. destruct (forallb (valid_bucket validMonthStart) _) eqn:E5; [|done].
  assert (Hb : ∀ f (m : gmap Z budgetDayState) d, forallb (valid_bucket f) (map_to_list m) = true → bucket_val <$> m !! d = Some (x, y) →
    validKnownMoney x = true ∧ validKnownMoney y = true ∧ is_ok (Money_Add x y) = true).
  { intros f m d HF (b & Hd & Eb)%fmap_Some. unfold bucket_val in Eb. injection Eb as -> ->.
    apply (proj1 (forallb_forall _ _)) with (x := (d, b)) in HF; [|by apply list_elem_of_In, elem_of_map_to_list].
    unfold valid_bucket in HF. simpl in HF. apply andb_true_iff in HF as [HF ?]. apply andb_true_iff in HF as [HF ?].
    by apply andb_true_iff in HF as [_ ?]. }
  destruct s as [|d|d]; cbn [slot_val] in Hs; [injection Hs as <- <-; auto|exact (Hb _ _ _ E4 Hs)|exact (Hb _ _ _ E5 Hs)].
Qed.

Lemma ok_valid_good st : state_ok cap owed st → validateBudgetState st = None → state_good owed st.
Proof.
  intros Ho Hv. constructor.
  - intros s x y Hs. destruct (valid_slot st s x y Hv Hs) as (Hx & _ & Hxy).
    destruct (so_val _ _ _ Ho s _ Hs) as [ [[= -> ->] _]|(a & b & [= -> ->] & Ha & Hb & _ & Hbo & _)]; [done|].
    pose proof (is_ok_add a b Ha Hb Hxy). unfold amount_range in *. exists a, b. split_and!; done || lia.
  - apply (so_none _ _ _ Ho).
  - intros s [[x y] Hs]. destruct (valid_slot st s x y Hv Hs) as (Hx & _).
    destruct (so_val _ _ _ Ho s _ Hs) as [ [[= -> ->] _]|(a & b & _ & _ & _ & _ & _ & ?)]; done.
  - apply (so_gen _ _ _ Ho).
  - apply (so_limits _ _ _ Ho).
Qed.

(** The limiter accepts a state exactly when no account is lost and every sum
    is representable. *)
Lemma ok_valid_iff st : state_ok cap owed st →
  validateBudgetState st = None ↔
  (∀ s v, slot_val st s = Some v → v ≠ lost ∧ micros v.1 + micros v.2 <= MaxMoneyMicros).
Proof.
  intros Ho. split.
  - intros Hv s [x y] Hs. destruct (valid_slot st s x y Hv Hs) as (Hx & Hy & Hxy). split; [by intros [= -> ->]|].
    destruct (so_val _ _ _ Ho s _ Hs) as [ [[= -> ->] _]|(a & b & [= -> ->] & Ha & Hb & _)]; [done|]. by apply is_ok_add.
  - intros H. apply (good_valid owed). constructor.
    + intros s x y Hs. destruct (H s _ Hs) as [Hne Hsum].
      destruct (so_val _ _ _ Ho s _ Hs) as [ [? _]|(a & b & [= -> ->] & Ha & Hb & _ & Hbo & _)]; [done|].
      unfold amount_range in *. exists a, b. simpl in Hsum. split_and!; done || lia.
    + apply (so_none _ _ _ Ho).
    + intros s [v Hs]. destruct (H s _ Hs) as [Hne _].
      destruct (so_val _ _ _ Ho s _ Hs) as [ [? _]|(a & b & _ & _ & _ & _ & _ & ?)]; done.
    + apply (so_gen _ _ _ Ho).
    + apply (so_limits _ _ _ Ho).
Qed.

Lemma prune_ok ds ms st : state_ok cap owed st → state_ok cap owed (prune ds ms st).
Proof.
  intros Ho. constructor.
  - intros s v Hv. destruct (prune_slot ds ms st s) as [E|[E _] ]; [|congruence]. rewrite E in Hv. by apply (so_val _ _ _ Ho).
  - intros s Hv. destruct (prune_slot ds ms st s) as [E|(_ & x & y & E & Hz)]; [rewrite E in Hv; by apply (so_none _ _ _ Ho)|].
    destruct (so_val _ _ _ Ho s _ E) as [ [_ [_ ?] ]|(a & b & [= -> ->] & _ & _ & _ & <- & _)]; [done|].
    unfold isZeroMoney in Hz. simpl in Hz. lia.
  - apply (so_gen _ _ _ Ho).
  - apply (so_limits _ _ _ Ho).
  - apply (so_loaded _ _ _ Ho).
Qed.

Lemma idle_owed st s : state_ok cap owed st → state_idle st = true → owed s = 0.
Proof.
  intros Ho Hi. unfold state_idle in Hi. repeat (apply andb_true_iff in Hi as [Hi ?]).
  destruct s as [|d|d].
  - destruct (so_val _ _ _ Ho STotal _ eq_refl) as [ [_ [? _] ]|(a & b & [= _ E] & _ & _ & _ & <- & _)]; [done|].
    unfold isZeroMoney in *. rewrite E in *. simpl in *. lia.
  - apply (so_none _ _ _ Ho). simpl. rewrite (map_size_empty_inv (dayBuckets st)); [done|]. lia.
  - apply (so_none _ _ _ Ho). simpl. rewrite (map_size_empty_inv (monthBuckets st)); [done|]. lia.
Qed.

Lemma state_ok_mono cap' owed' st :
  (∀ s, cap s <= cap' s) → (∀ s, owed' s = owed s) → state_ok cap owed st → state_ok cap' owed' st.
Proof.
  intros Hc How [H1 H2 H3 H4 H5]. constructor; try done.
  - intros s v Hv. rewrite How. destruct (H1 s v Hv) as [?|(a & b & ? & ? & ? & ? & ? & ?)]; [by left|right].
    exists a, b. specialize (Hc s). split_and!; done || lia.
  - intros s Hv. rewrite How. auto.
  - rewrite How. auto.
Qed.

End states.

(** ** Worlds: a limiter and the reservations it has handed out *)

Record bworld := mkBWorld { bw_limiter : BudgetLimiter; bw_reservations : gmap positive BudgetReservation }.

Definition bstart : bworld := mkBWorld NewBudgetLimiter ∅.

(** The settlement has moved the reservation out of the accounts; one that
    failed on the state has not. *)
Definition b_returned (r : BudgetReservation) : bool :=
  br_finalized r &&
  match br_result r with
  | Some res => match sr_Error res with None => true | Some _ => negb (isZeroMoney (sr_Charged res)) end
  | None => false
  end.

(** What a reservation holds in an account of state [p]. *)
Definition b_held (p : positive) (s : slot) (r : BudgetReservation) : Z :=
  if b_returned r then 0
  else if bool_decide (br_state r = Some p) && captures r s then Z.max 0 (micros (br_amount r)) else 0.
Definition owed (m : gmap positive BudgetReservation) (p : positive) (s : slot) : Z := msum (b_held p s) m.

Definition with_bticket (t : BudgetAdjustmentTicket) (r : BudgetReservation) : BudgetReservation :=
  mkBReservation (br_keyID r) (br_state r) (br_generation r) (br_amount r) (br_dayStart r) (br_monthStart r)
    (br_totalCaptured r) (br_dayCaptured r) (br_monthCaptured r) (br_finalized r) (br_finalErr r) (br_result r) (Some t).

(** The accounts a ticket adjusts. *)
Definition tcaptures (t : BudgetAdjustmentTicket) (s : slot) : bool :=
  match s with
  | STotal => bt_totalCaptured t
  | SDay d => bt_dayCaptured t && negb (IsZero (bt_dayStart t)) && (d =? bt_dayStart t)
  | SMonth d => bt_monthCaptured t && negb (IsZero (bt_monthStart t)) && (d =? bt_monthStart t)
  end.

(** The calls of the limiter's interface; the callers name reservations by
    their handle, and a ticket by the reservation it was taken from. *)
Inductive bcall :=
| CReserve (clk : Z) (keyID : string) (policy : BudgetPolicy) (candidate : Money)
| CSettle (i : positive) (kind : BudgetSettlementKind) (actual : Money) (deferred : bool)
| CAdjust (i : positive) (actual : Money)
| CInvalidate (i : positive)
| CRegister (keyID : string) (policy : BudgetPolicy)
| CReplace (keyID : string) (old new : BudgetPolicy) (commit : option (option unit))
| CRetry (clk resetAt : Z)
| CSink (sink : bool)
| CLoad (order : gset string → list string) (values : list BudgetSpent).

Definition bcall_step (c : bcall) (w : bworld) : bworld :=
  let '(mkBWorld l m) := w in
  match c with
  | CReserve clk keyID policy candidate =>
      let '(r, l) := BudgetLimiter_Reserve clk keyID policy candidate l in
      mkBWorld l (match r with Ok r => <[fresh (dom m) := r]> m | Err _ => m end)
  | CSettle i kind actual deferred =>
      match m !! i with
      | Some r => let '(_, r, l) := finalizeInternal kind actual deferred r l in mkBWorld l (<[i := r]> m)
      | None => w
      end
  | CAdjust i actual =>
      match m !! i with
      | Some r =>
          match br_ticket r with
          | Some t => let '(_, t, l) := BudgetTicket_Adjust actual t l in mkBWorld l (<[i := with_bticket t r]> m)
          | None => w
          end
      | None => w
      end
  | CInvalidate i =>
      mkBWorld l (alter (λ r, match br_ticket r with Some t => with_bticket (BudgetTicket_Invalidate t) r | None => r end) i m)
  | CRegister keyID policy => mkBWorld (BudgetLimiter_RegisterPolicy keyID policy l) m
  | CReplace keyID old new commit => mkBWorld (BudgetLimiter_ReplacePolicy keyID old new commit l).2 m
  | CRetry clk resetAt => mkBWorld (BudgetLimiter_RetryAfterSeconds clk resetAt l).2 m
  | CSink sink => mkBWorld (BudgetLimiter_SetCommittedDeltaSink sink l) m
  | CLoad order values => mkBWorld (BudgetLimiter_LoadSpent order values l).2 m
  end.

(** The arguments are values of their Go types: the clock is an instant after
    1970, amounts come from [Money]'s constructors, and ranging over a map
    visits every key. *)
Definition bcall_ok (c : bcall) : Prop :=
  match c with
  | CReserve clk _ policy candidate => clock_range clk ∧ policy_wf policy ∧ money_wf candidate
  | CSettle _ _ actual _ => money_wf actual
  | CAdjust _ actual => money_wf actual
  | CRetry clk _ => clock_range clk
  | CLoad order values => (∀ X k, k ∈ X → k ∈ order X) ∧ Forall (λ v, money_wf (bs_Spent v)) values
  | _ => True
  end.

Definition bstep (w w' : bworld) : Prop := ∃ c, bcall_ok c ∧ w' = bcall_step c w.

Definition breachable (w : bworld) : Prop := rtc bstep bstart w.

(** ** Limits and overshoot *)

(** [cap] bounds the limits of the policies requests are admitted under and
    the spends that are loaded. *)
Definition within (cap : string → slot → Z) (k : string) (policy : BudgetPolicy) : Prop :=
  ∀ ds ms s lim, limit_of policy ds ms s = Some lim → lim <= cap k s.

Definition row_slot (p : pendingSpent) : slot :=
  if bool_decide (ps_period p = BudgetPeriodDay) then SDay (ps_start p)
  else if bool_decide (ps_period p = BudgetPeriodMonth) then SMonth (ps_start p)
  else STotal.

Definition call_within (cap : string → slot → Z) (c : bcall) : Prop :=
  match c with
  | CReserve _ k policy _ => within cap k policy
  | CLoad _ values => ∀ p, p ∈ omap pending_of values → micros (ps_spent p) <= cap (ps_keyID p) (row_slot p)
  | _ => True
  end.

(** What a call charges an account above the reservation: the settlement's
    charge and the adjustment's cost beyond the reserved amount. *)
Definition call_overshoot (c : bcall) (w : bworld) (k : string) (s : slot) : Z :=
  match c with
  | CSettle i kind actual deferred =>
      match bw_reservations w !! i with
      | Some r =>
          if negb (br_finalized r) && bool_decide (br_keyID r = k) && captures r s then
            match br_result (finalizeInternal kind actual deferred r (bw_limiter w)).1.2 with
            | Some res => Z.max 0 (sr_CommittedDelta res - micros (br_amount r))
            | None => 0
            end
          else 0
      | None => 0
      end
  | CAdjust i actual =>
      match bw_reservations w !! i ≫= br_ticket with
      | Some t => if negb (bt_consumed t) && bool_decide (bt_keyID t = k) && tcaptures t s
                  then Z.max 0 (micros actual - micros (bt_reserved t)) else 0
      | None => 0
      end
  | _ => 0
  end.

Fixpoint brun (calls : list bcall) (w : bworld) : bworld :=
  match calls with [] => w | c :: calls => brun calls (bcall_step c w) end.

Fixpoint overshoot (calls : list bcall) (w : bworld) (k : string) (s : slot) : Z :=
  match calls with
  | [] => 0
  | c :: calls => call_overshoot c w k s + overshoot calls (bcall_step c w) k s
  end.

(** ** The invariant *)

Record binv (cap : string → slot → Z) (l : BudgetLimiter) (m : gmap positive BudgetReservation) : Prop := {
  bi_link : ∀ e p, bl_states l !! e = Some p → e.1 = shard e.2 ∧ is_Some (bl_heap l !! p);
  bi_inj : ∀ e e' p, bl_states l !! e = Some p → bl_states l !! e' = Some p → e = e';
  bi_ok : ∀ k p st, state_ptr l k = Some p → bl_heap l !! p = Some st → state_ok (cap k) (owed m p) st;
  bi_res : ∀ i r p, m !! i = Some r → b_returned r = false → br_state r = Some p →
    ∃ n st, b_holds r p n ∧ state_ptr l (br_keyID r) = Some p ∧ bl_heap l !! p = Some st ∧
            generation st = br_generation r ∧ ∃ s, captures r s = true;
  bi_ticket : ∀ i r t, m !! i = Some r → br_ticket r = Some t → money_wf (bt_reserved t) ∧ br_finalized r = true;
  bi_amount : ∀ i r, m !! i = Some r → money_wf (br_amount r);
  bi_time : bl_lastNow l = zeroTime ∨ clock_range (bl_lastNow l);
  bi_seq : 0 <= bl_sequence l;
}.

Section invariant.
Context (cap : string → slot → Z) (Hcap : ∀ k s, 0 <= cap k s).

Lemma b_held_nonneg p s r : 0 <= b_held p s r.
Proof. unfold b_held. repeat case_match; lia. Qed.

Lemma held_holds p s r n : b_returned r = false → b_holds r p n → captures r s = true → b_held p s r = n.
Proof.
  intros Hf [Hs Ha Hp _ _] Hc. unfold b_held. rewrite Hf, Hs, Hc, bool_decide_true by done. rewrite Ha. simpl. lia.
Qed.

Lemma held_other p p' s r : br_state r = Some p' → p' ≠ p → b_held p s r = 0.
Proof. intros Hs Hne. unfold b_held. rewrite Hs, bool_decide_false by congruence. by case_match. Qed.

Lemma b_held_none p s r : br_state r = None → b_held p s r = 0.
Proof. intros Hs. unfold b_held. rewrite Hs, bool_decide_false by congruence. by case_match. Qed.

Lemma held_uncaptured p s r : captures r s = false → b_held p s r = 0.
Proof. intros Hs. unfold b_held. rewrite Hs, andb_false_r. by case_match. Qed.

Lemma unfinalized_held r : br_finalized r = false → b_returned r = false.
Proof. intros H. unfold b_returned. by rewrite H. Qed.

Lemma owed_insert m i r p s : m !! i = None → owed (<[i := r]> m) p s = b_held p s r + owed m p s.
Proof. apply msum_insert. Qed.

Lemma owed_update m i r r' p s : m !! i = Some r → owed (<[i := r']> m) p s = owed m p s - b_held p s r + b_held p s r'.
Proof. apply msum_update. Qed.

Lemma owed_holds m i r p n s :
  m !! i = Some r → b_returned r = false → b_holds r p n → captures r s = true → n <= owed m p s.
Proof.
  intros Hm Hf Hh Hc. rewrite <-(held_holds p s r n Hf Hh Hc). apply (msum_le _ m i r); [apply b_held_nonneg|done].
Qed.

(** What the invariant says of a reservation's money fields. *)
Definition money_fields (r : BudgetReservation) : Prop :=
  money_wf (br_amount r) ∧ ∀ t, br_ticket r = Some t → money_wf (bt_reserved t) ∧ br_finalized r = true.

Lemma money_of l m i r : binv cap l m → m !! i = Some r → money_fields r.
Proof. intros Hi Hr. split; [by eapply bi_amount|]. intros t. by eapply bi_ticket. Qed.

(** Replacing the state of one key. *)
Lemma update_inv l m l' m' k p st' :
  binv cap l m →
  bl_heap l' = <[p := st']> (bl_heap l) →
  (∀ e, e ≠ (shard k, k) → bl_states l' !! e = bl_states l !! e) →
  bl_states l' !! (shard k, k) = Some p ∨ (bl_states l' !! (shard k, k) = None ∧ ∀ s, owed m' p s = 0) →
  bl_states l !! (shard k, k) = Some p ∨ (bl_states l !! (shard k, k) = None ∧ bl_heap l !! p = None) →
  state_ok (cap k) (owed m' p) st' →
  (∀ p' s, p' ≠ p → owed m' p' s = owed m p' s) →
  (∀ i r q, m' !! i = Some r → b_returned r = false → br_state r = Some q →
     (q ≠ p ∧ m !! i = Some r) ∨
     (q = p ∧ br_keyID r = k ∧ generation st' = br_generation r ∧ (∃ n, b_holds r p n) ∧ ∃ s, captures r s = true)) →
  (∀ i r, m' !! i = Some r → money_fields r) →
  bl_lastNow l' = zeroTime ∨ clock_range (bl_lastNow l') → 0 <= bl_sequence l' →
  binv cap l' m'.
Proof.
  intros [Hl Hj Hg Hr Ht Ha Htm Hsq] Eh Hoth Hnew Hold Hgood Howed Hres Hmoney Htime Hseq.
  assert (Hpne : ∀ e q, e ≠ (shard k, k) → bl_states l !! e = Some q → q ≠ p).
  { intros e q Hne He ->. destruct Hold as [Ho|[_ Ho] ]; [apply Hne; by eapply Hj|].
    destruct (Hl e p He) as [_ [x Hx] ]. congruence. }
  constructor.
  - intros e q He. destruct (decide (e = (shard k, k))) as [-> |Hne].
    + destruct Hnew as [Hn|[Hn _] ]; rewrite Hn in He; simplify_eq. split; [done|]. rewrite Eh, lookup_insert_eq. eauto.
    + rewrite Hoth in He by done. destruct (Hl e q He) as [? [x Hx] ]. split; [done|].
      rewrite Eh, lookup_insert_ne by (symmetry; by eapply Hpne). eauto.
  - intros e e' q He He'. destruct (decide (e = (shard k, k))) as [-> |Hne], (decide (e' = (shard k, k))) as [-> |Hne']; [done|..].
    + exfalso. rewrite Hoth in He' by done. destruct Hnew as [Hn|[Hn _] ]; rewrite Hn in He; simplify_eq. by eapply (Hpne e').
    + exfalso. rewrite Hoth in He by done. destruct Hnew as [Hn|[Hn _] ]; rewrite Hn in He'; simplify_eq. by eapply (Hpne e).
    + rewrite Hoth in He, He' by done. by eapply Hj.
  - intros k' q st Hp Hs. unfold state_ptr in Hp. destruct (decide (k' = k)) as [-> |Hne].
    + destruct Hnew as [Hn|[Hn _] ]; rewrite Hn in Hp; simplify_eq. rewrite Eh, lookup_insert_eq in Hs. by simplify_eq.
    + assert (Hne2 : (shard k', k') ≠ (shard k, k)) by congruence. rewrite Hoth in Hp by done.
      pose proof (Hpne _ _ Hne2 Hp) as Hqp. rewrite Eh, lookup_insert_ne in Hs by done.
      eapply state_ok_mono; [| |exact (Hg k' q st Hp Hs)]; [done|]. intros s. by apply Howed.
  - intros i r q Hi Hf Hs. destruct (Hres i r q Hi Hf Hs) as [ [Hqp Hm]|(-> & Hk & Hgen & [n Hh] & [s Hc])].
    + destruct (Hr i r q Hm Hf Hs) as (n & st & Hh & Hp & Hst & Hgen & Hc). exists n, st.
      assert (Hkk : br_keyID r ≠ k).
      { intros E. unfold state_ptr in Hp. rewrite E in Hp. destruct Hold as [Ho|[Ho _] ]; congruence. }
      split; [done|]. split; [unfold state_ptr in *; rewrite Hoth; [done|congruence]|].
      split; [|done]. by rewrite Eh, lookup_insert_ne.
    + exists n, st'. split; [done|]. rewrite Hk. split.
      * destruct Hnew as [Hn|[_ Hz] ]; [done|exfalso].
        pose proof (owed_holds m' i r p n s Hi Hf Hh Hc) as Hle. rewrite Hz in Hle. destruct Hh. lia.
      * rewrite Eh, lookup_insert_eq. eauto.
  - intros i r t Hi Hti. by apply (Hmoney i r Hi).
  - intros i r Hi. by apply (Hmoney i r Hi).
  - done.
  - done.
Qed.

(** Changes that leave the states and what is owed alone. *)
Lemma b_frame_inv l m l' m' :
  binv cap l m → bl_heap l' = bl_heap l → bl_states l' = bl_states l →
  (∀ p s, owed m' p s = owed m p s) →
  (∀ i r p, m' !! i = Some r → b_returned r = false → br_state r = Some p → ∃ r0, m !! i = Some r0 ∧ b_returned r0 = false ∧
     br_state r0 = br_state r ∧ br_keyID r0 = br_keyID r ∧ br_generation r0 = br_generation r ∧
     (∀ n, b_holds r0 p n → b_holds r p n) ∧ ∀ s, captures r s = captures r0 s) →
  (∀ i r, m' !! i = Some r → money_fields r) →
  bl_lastNow l' = zeroTime ∨ clock_range (bl_lastNow l') → 0 <= bl_sequence l' →
  binv cap l' m'.
Proof.
  intros [Hl Hj Hg Hr Ht Ha Htm Hsq] Eh Es Howed Hres Hmoney Htime Hseq. unfold state_ptr in *.
  constructor; rewrite ?Eh, ?Es; try done.
  - intros k p st Hp Hs. unfold state_ptr in Hp. rewrite Es in Hp.
    eapply state_ok_mono; [| |exact (Hg k p st Hp Hs)]; done.
  - intros i r p Hi Hf Hs. unfold state_ptr. rewrite Es.
    destruct (Hres i r p Hi Hf Hs) as (r0 & Hm & Hf0 & Es0 & Ek & Eg & Hh & Hc).
    destruct (Hr i r0 p Hm Hf0 ltac:(congruence)) as (n & st & H1 & H2 & H3 & H4 & s & H5). exists n, st.
    rewrite <-Ek, <-Eg. split; [by apply Hh|]. split; [done|]. split; [done|]. split; [done|]. exists s. by rewrite Hc.
  - intros i r t Hi. by apply (Hmoney i r Hi).
  - intros i r Hi. by apply (Hmoney i r Hi).
Qed.

Lemma limiter_frame l m l' :
  binv cap l m → bl_heap l' = bl_heap l → bl_states l' = bl_states l →
  bl_lastNow l' = zeroTime ∨ clock_range (bl_lastNow l') → 0 <= bl_sequence l' → binv cap l' m.
Proof. intros Hi ????. eapply b_frame_inv; try done; [|intros; by eapply money_of]. intros i r p Hm ??. exists r. done. Qed.

(** The reservations of a state belong to its key. *)
Lemma same_state l m i r k p st :
  binv cap l m → state_ptr l k = Some p → bl_heap l !! p = Some st → m !! i = Some r → b_returned r = false → br_state r = Some p →
  br_keyID r = k ∧ generation st = br_generation r ∧ (∃ n, b_holds r p n) ∧ ∃ s, captures r s = true.
Proof.
  intros Hi Hp Hst Hm Hf Hs. destruct (bi_res _ _ _ Hi i r p Hm Hf Hs) as (n & st2 & Hh & Hp2 & Hst2 & Hgen & Hc).
  pose proof (bi_inj _ _ _ Hi (shard (br_keyID r), br_keyID r) (shard k, k) p Hp2 Hp) as Ek.
  assert (st2 = st) as -> by congruence. split; [congruence|]. eauto.
Qed.

(** *** Reserve *)

Lemma nowTime_range clk l :
  bl_lastNow l = zeroTime ∨ clock_range (bl_lastNow l) → clock_range clk →
  clock_range (BudgetLimiter_nowTime clk l).1 ∧
  bl_lastNow (BudgetLimiter_nowTime clk l).2 = (BudgetLimiter_nowTime clk l).1.
Proof.
  intros Ht Hc. unfold BudgetLimiter_nowTime, IsZero, Before.
  destruct (Z.eqb_spec (bl_lastNow l) zeroTime), (Z.ltb_spec clk (bl_lastNow l)); simpl; try done.
  destruct Ht; done.
Qed.

Lemma nowTime_states clk l : bl_states (BudgetLimiter_nowTime clk l).2 = bl_states l.
Proof. unfold BudgetLimiter_nowTime. by case_match. Qed.

Lemma nowTime_heap clk l : bl_heap (BudgetLimiter_nowTime clk l).2 = bl_heap l.
Proof. unfold BudgetLimiter_nowTime. by case_match. Qed.

Lemma nowTime_seq clk l : bl_sequence (BudgetLimiter_nowTime clk l).2 = bl_sequence l.
Proof. unfold BudgetLimiter_nowTime. by case_match. Qed.

Lemma nowTime_inv l m clk : binv cap l m → clock_range clk → binv cap (BudgetLimiter_nowTime clk l).2 m.
Proof.
  intros Hi Hc. destruct (nowTime_range clk l (bi_time _ _ _ Hi) Hc) as [Hn1 Hn2].
  eapply limiter_frame; [exact Hi|apply nowTime_heap|apply nowTime_states|right; by rewrite Hn2|rewrite nowTime_seq; apply (bi_seq _ _ _ Hi)].
Qed.

Lemma pruned_inv l m clk k ds ms :
  binv cap l m → clock_range clk →
  binv cap (pruned_limiter clk k (prune ds ms <$> state_of l k) l) m.
Proof.
  intros Hi Hc. destruct (nowTime_range clk l (bi_time _ _ _ Hi) Hc) as [Hn1 Hn2].
  pose proof (nowTime_inv l m clk Hi Hc) as Hi1. pose proof (nowTime_states clk l) as Es. pose proof (nowTime_heap clk l) as Eh.
  set (l1 := (BudgetLimiter_nowTime clk l).2) in *.
  assert (Ep : state_ptr l1 k = state_ptr l k) by (unfold state_ptr; by rewrite Es).
  unfold pruned_limiter. fold l1. cbv zeta. rewrite Ep. unfold state_of.
  destruct (state_ptr l k) as [p|] eqn:Ek; simpl; [|done].
  destruct (bl_heap l !! p) as [st|] eqn:Est; simpl; [|done].
  assert (Hb : bl_states l1 !! (shard k, k) = Some p) by (by rewrite Es).
  eapply (update_inv l1 m _ m k p (prune ds ms st)); try done.
  - by left.
  - by left.
  - apply prune_ok. by eapply (bi_ok _ _ _ Hi).
  - intros i r q Hm Hf Hq. destruct (decide (q = p)) as [-> |]; [right|by left]. split; [done|].
    apply (same_state l1 m i r k p st Hi1); try done. by rewrite Eh.
  - intros i r Hm. by eapply money_of.
  - right. simpl. by rewrite Hn2.
  - apply (bi_seq _ _ _ Hi1).
Qed.

(** The accounts a policy limits. *)
Lemma limit_slot policy ds ms s lim :
  limit_of policy ds ms s = Some lim → s = STotal ∨ s = SDay ds ∨ s = SMonth ms.
Proof.
  destruct s as [|d|d]; simpl; [by left|..].
  - destruct (DayLimited policy); [|done]. simpl. destruct (Z.eqb_spec d ds) as [-> |]; [|done]. auto.
  - destruct (MonthLimited policy); [|done]. simpl. destruct (Z.eqb_spec d ms) as [-> |]; [|done]. auto.
Qed.

Lemma decision_fits policy ds ms st c s lim :
  decision policy ds ms st c = None → limit_of policy ds ms s = Some lim → account_used st s + c <= lim.
Proof.
  intros HD Hl. destruct (limit_slot policy ds ms s lim Hl) as [-> |[-> | ->] ]; unfold decision in HD;
    destruct (rejects policy ds ms st c STotal) eqn:E1, (rejects policy ds ms st c (SDay ds)) eqn:E2,
      (rejects policy ds ms st c (SMonth ms)) eqn:E3; try done; unfold rejects in E1, E2, E3;
    rewrite ?Hl in E1; rewrite ?Hl in E2; rewrite ?Hl in E3; lia.
Qed.

Lemma reserves_ok k policy ds ms c st0 st' ow ow' :
  (∀ st, st0 = Some st → state_ok (cap k) ow st ∧ state_good ow st) → (st0 = None → ∀ s, ow s = 0) →
  decision policy ds ms st0 c = None → within cap k policy → policy_wf policy → validPolicy policy = true → amount_range c →
  reserves policy ds ms c st0 st' → limits_known st' → generation st' ≠ 0 →
  totalLoaded st' = default false (totalLoaded <$> st0) || Limited policy →
  validDayStart ds = true → validMonthStart ms = true →
  (∀ s, ow' s = ow s + match limit_of policy ds ms s with Some _ => c | None => 0 end) →
  state_ok (cap k) ow' st'.
Proof.
  intros Hg Hn HD Hw Hwf Hvp Hc HR HL Hgen Hld Hds Hms How.
  assert (Hacc : ∀ s, (account st0 s).2 = ow s).
  { intros s. unfold account. destruct st0 as [st|]; [|simpl; symmetry; by apply Hn].
    destruct (slot_val st s) as [ [x y]|] eqn:E; simpl.
    - destruct (sg_val _ _ (proj2 (Hg st eq_refl)) s x y E) as (a & b & -> & -> & _ & _ & _ & <-). done.
    - symmetry. by apply (so_none _ _ _ (proj1 (Hg st eq_refl))). }
  assert (Haok : ∀ s, account_ok st0 s) by (intros s; apply (account_good ow); intros st Hst; by apply Hg).
  assert (Hlim : ∀ s lim, limit_of policy ds ms s = Some lim → lim <= MaxMoneyMicros).
  { destruct (policy_amounts policy Hvp Hwf) as (PT & PD & PM). unfold amount_range in *.
    intros [|d|d] lim; simpl; [destruct (Limited policy)|destruct (DayLimited policy && _) eqn:E|destruct (MonthLimited policy && _) eqn:E];
      try done; try (apply andb_true_iff in E as [E _]); intros [= <-]; naive_solver lia. }
  constructor.
  - intros s v Hv. rewrite HR in Hv. rewrite How. destruct (limit_of policy ds ms s) as [lim|] eqn:El.
    + injection Hv as <-. right. pose proof (decision_fits _ _ _ _ _ _ _ HD El) as Hfit. pose proof (Hw ds ms s lim El).
      specialize (Hlim s lim El). destruct (Haok s) as (H1 & H2 & _).
      unfold account_used in Hfit. rewrite Hacc in *. exists (account st0 s).1, (ow s + c).
      unfold amount_range in *. split_and!; try done; try lia.
      destruct (limit_slot policy ds ms s lim El) as [-> |[-> | ->] ]; done.
    + rewrite Z.add_0_r. destruct st0 as [st|]; [by apply (so_val _ _ _ (proj1 (Hg st eq_refl)))|].
      destruct s; [|done..]. injection Hv as <-. right. exists 0, 0. pose proof (Hcap k STotal).
      rewrite Hn by done. unfold amount_range, MaxMoneyMicros, maxInt64. split_and!; done || lia.
  - intros s Hv. rewrite HR in Hv. rewrite How. destruct (limit_of policy ds ms s); [done|].
    destruct st0 as [st|]; [rewrite (so_none _ _ _ (proj1 (Hg st eq_refl)) s Hv); lia|]. rewrite Hn by done. lia.
  - done.
  - done.
  - rewrite Hld. intros [E1 E2]%orb_false_iff. rewrite How. simpl. rewrite E2, Z.add_0_r.
    destruct st0 as [st|]; [by apply (so_loaded _ _ _ (proj1 (Hg st eq_refl)))|by apply Hn].
Qed.

Lemma captured_captures k policy ds ms c p gen s :
  captures (captured_reservation k policy ds ms c p gen) s = bool_decide (is_Some (limit_of policy ds ms s)).
Proof.
  destruct s as [|d|d]; simpl.
  - by destruct (Limited policy).
  - destruct (DayLimited policy); simpl; [|done]. by destruct (Z.eqb_spec d ds).
  - destruct (MonthLimited policy); simpl; [|done]. by destruct (Z.eqb_spec d ms).
Qed.

Lemma captured_holds k policy ds ms c p gen :
  0 < c <= MaxMoneyMicros → validDayStart ds = true → validMonthStart ms = true →
  b_holds (captured_reservation k policy ds ms c p gen) p c.
Proof.
  intros Hc Hd Hm. constructor; simpl; try done.
  - unfold validDayStart in Hd. destruct (DayLimited policy); [|done]. by destruct (IsZero ds).
  - unfold validMonthStart in Hm. destruct (MonthLimited policy); [|done]. by destruct (IsZero ms).
Qed.

(** Adding a reservation that holds nothing. *)
Lemma uncaptured_inv l m k c :
  binv cap l m → amount_range c → binv cap l (<[fresh (dom m) := uncaptured_reservation k c]> m).
Proof.
  intros Hi Hc. assert (Hfresh : m !! fresh (dom m) = None) by apply not_elem_of_dom, is_fresh.
  eapply b_frame_inv; try done.
  - intros p s. rewrite owed_insert by done. rewrite b_held_none by done. lia.
  - intros i r p Hm Hf Hs. apply lookup_insert_Some in Hm as [ [_ <-]|[_ Hm] ]; [done|]. by exists r.
  - intros i r Hm. apply lookup_insert_Some in Hm as [ [_ <-]|[_ Hm] ]; [|by eapply money_of]. split; [|done].
    unfold money_wf, amount_range in *. simpl. lia.
  - apply (bi_time _ _ _ Hi).
  - apply (bi_seq _ _ _ Hi).
Qed.

(** Nothing is held in a state that is not linked. *)
Lemma unlinked_owed l m k p s :
  binv cap l m → bl_states l !! (shard k, k) = None → bl_heap l !! p = None → owed m p s = 0.
Proof.
  intros Hi Hk Hp. apply msum_zero. intros i r Hm. unfold b_held. destruct (b_returned r) eqn:Ef; [done|].
  destruct (decide (br_state r = Some p)) as [Hs|]; [|by rewrite bool_decide_false].
  destruct (bi_res _ _ _ Hi i r p Hm Ef Hs) as (n & st & _ & _ & Hst & _). congruence.
Qed.

(** Adding a reservation that holds [c] in the accounts its policy limits. *)
Lemma captured_inv l0 l' m k policy ds ms c p st0 st' :
  binv cap l0 m → 0 < c <= MaxMoneyMicros → validDayStart ds = true → validMonthStart ms = true →
  bl_heap l' = <[p := st']> (bl_heap l0) →
  (∀ e, e ≠ (shard k, k) → bl_states l' !! e = bl_states l0 !! e) →
  bl_states l' !! (shard k, k) = Some p →
  bl_states l0 !! (shard k, k) = Some p ∨ (bl_states l0 !! (shard k, k) = None ∧ bl_heap l0 !! p = None) →
  bl_lastNow l' = bl_lastNow l0 → 0 <= bl_sequence l' →
  (∀ st, st0 = Some st → bl_states l0 !! (shard k, k) = Some p ∧ bl_heap l0 !! p = Some st ∧ generation st' = generation st ∧
     validateBudgetState st = None) →
  (st0 = None → bl_states l0 !! (shard k, k) = None) →
  decision policy ds ms st0 c = None → within cap k policy → policy_wf policy → validPolicy policy = true → unlimited policy = false →
  reserves policy ds ms c st0 st' → limits_known st' → generation st' ≠ 0 →
  totalLoaded st' = default false (totalLoaded <$> st0) || Limited policy →
  binv cap l' (<[fresh (dom m) := captured_reservation k policy ds ms c p (generation st')]> m).
Proof.
  intros Hi Hc Hds Hms Eh Hoth Hnew Hold Htime Hseq Hst0 Hnone HD Hw Hwf Hvp Hun HR HL Hgen Hld.
  assert (Hfresh : m !! fresh (dom m) = None) by apply not_elem_of_dom, is_fresh.
  pose proof (captured_holds k policy ds ms c p (generation st') Hc Hds Hms) as Hh.
  assert (Hz : st0 = None → ∀ s, owed m p s = 0).
  { intros En s. specialize (Hnone En). destruct Hold as [?|[? ?] ]; [congruence|]. by eapply unlinked_owed. }
  assert (Hg0 : ∀ st, st0 = Some st → state_ok (cap k) (owed m p) st ∧ state_good (owed m p) st).
  { intros st Es. destruct (Hst0 st Es) as (H1 & H2 & _ & Hv). pose proof (bi_ok _ _ _ Hi k p st H1 H2) as Ho.
    split; [done|]. by eapply ok_valid_good. }
  eapply (update_inv l0 m l' _ k p st'); try done.
  - by left.
  - eapply (reserves_ok k policy ds ms c st0 st' (owed m p)); try done; [unfold amount_range; lia|].
    intros s. rewrite owed_insert by done.
    destruct (limit_of policy ds ms s) as [lim|] eqn:El.
    + rewrite (held_holds p s _ c); [lia|done|done|]. rewrite captured_captures, El. done.
    + rewrite held_uncaptured; [lia|]. by rewrite captured_captures, El.
  - intros q s Hne. rewrite owed_insert by done. rewrite (held_other q p) by done. lia.
  - intros i r q Hm Hf Hs. apply lookup_insert_Some in Hm as [ [_ <-]|[Hne Hm] ].
    + injection Hs as <-. right. split; [done|]. split; [done|]. split; [done|]. split; [eauto|].
      unfold unlimited in Hun. destruct (Limited policy) eqn:E1.
      { exists STotal. simpl. done. }
      destruct (DayLimited policy) eqn:E2.
      { exists (SDay ds). simpl. rewrite E2. apply Z.eqb_refl. }
      destruct (MonthLimited policy) eqn:E3; [|done]. exists (SMonth ms). simpl. rewrite E3. apply Z.eqb_refl.
    + destruct (decide (q = p)) as [-> |]; [right|by left]. split; [done|].
      destruct (bi_res _ _ _ Hi i r p Hm Hf Hs) as (n & st & _ & _ & Hst & _).
      destruct Hold as [Ho|[_ Ho] ]; [|congruence].
      destruct st0 as [st1|]; [|by rewrite Hnone in Ho]. destruct (Hst0 st1 eq_refl) as (_ & H2 & H3 & _).
      rewrite H3. by apply (same_state l0 m i r k p st1 Hi).
  - intros i r Hm. apply lookup_insert_Some in Hm as [ [_ <-]|[_ Hm] ]; [|by eapply money_of]. split; [|done].
    unfold money_wf. simpl. lia.
  - rewrite Htime. apply (bi_time _ _ _ Hi).
Qed.

Lemma validate_error st e : validateBudgetState st = Some e → e = ErrBudgetState.
Proof. unfold validateBudgetState. by repeat case_match; intros; simplify_eq. Qed.

(** Every call on a state the check refuses leaves the limiter alone. *)
Lemma Reserve_refused clk k policy candidate l st e :
  validKeyID k = true → validKnownMoney candidate = true → validPolicy policy = true → BudgetLimiter_PolicyCurrent k policy l = true →
  state_of l k = Some st → validateBudgetState st = Some e →
  BudgetLimiter_Reserve clk k policy candidate l = (Err ErrBudgetState, l).
Proof.
  intros Hk Hc Hp Hcur Hs Hv. unfold BudgetLimiter_Reserve. rewrite Hk, Hc, Hp, Hcur, Hs, Hv. cbn [negb orb].
  by rewrite (validate_error st e Hv).
Qed.

Lemma b_Reserve_inv l m clk k policy candidate r l' :
  binv cap l m → clock_range clk → policy_wf policy → money_wf candidate → within cap k policy →
  BudgetLimiter_Reserve clk k policy candidate l = (r, l') →
  binv cap l' (match r with Ok r => <[fresh (dom m) := r]> m | Err _ => m end).
Proof.
  intros Hi Hc Hwf Hcw Hw HR.
  destruct (negb (validKeyID k) || negb (validKnownMoney candidate) || negb (validPolicy policy)) eqn:Ev.
  { unfold BudgetLimiter_Reserve in HR. rewrite Ev in HR. by simplify_eq. }
  apply orb_false_iff in Ev as [Ev Hpol]. apply orb_false_iff in Ev as [Hk Hkc].
  apply negb_false_iff in Hk, Hpol, Hkc.
  destruct (BudgetLimiter_PolicyCurrent k policy l) eqn:Ecur.
  2:{ unfold BudgetLimiter_Reserve in HR. rewrite Hk, Hkc, Hpol, Ecur in HR. simpl in HR. by simplify_eq. }
  destruct (state_of l k ≫= validateBudgetState) as [e|] eqn:Evs.
  { apply bind_Some in Evs as (st & Hs & Hv). rewrite (Reserve_refused clk k policy candidate l st e) in HR by done. by simplify_eq. }
  destruct (validKnownMoney_spec candidate Hkc Hcw) as [Ecand Hcr]. set (c := micros candidate) in *. clearbody c. subst candidate.
  assert (Hlink : ∀ p, state_ptr l k = Some p → is_Some (bl_heap l !! p)) by (intros p Hp; by apply (bi_link _ _ _ Hi _ _ Hp)).
  set (ow := match state_ptr l k with Some p => owed m p | None => λ _, 0 end).
  assert (Hvalid : ∀ st, state_of l k = Some st → validateBudgetState st = None) by (intros st Hs; by rewrite Hs in Evs).
  assert (Hgood : ∀ st, state_of l k = Some st → state_good ow st).
  { intros st Hs. pose proof (Hvalid st Hs). unfold state_of in Hs. unfold ow. destruct (state_ptr l k) as [p|] eqn:Ep; [|done].
    eapply ok_valid_good; [by apply (bi_ok _ _ _ Hi k p)|done]. }
  destruct (nowTime_range clk l (bi_time _ _ _ Hi) Hc) as [Hn1 _].
  pose proof (Reserve_spec ow clk k policy c l Hk Hcr Hpol Hwf Hlink Hgood Ecur) as HS.
  destruct (mismatch l k policy); [rewrite HR in HS; by simplify_eq|].
  destruct (unlimited policy) eqn:Eun; [rewrite HR in HS; simplify_eq; by apply uncaptured_inv|].
  set (now := (BudgetLimiter_nowTime clk l).1) in *. set (ds := currentDay now) in *. set (ms := currentMonth ds) in *.
  assert (Hds : validDayStart ds = true) by (apply currentDay_valid, Hn1).
  assert (Hms : validMonthStart ms = true).
  { apply currentMonth_valid. unfold ds. rewrite currentDay_eq. unfold day_ns.
    pose proof (Z.div_pos now 86400000000000). destruct Hn1. lia. }
  pose proof (pruned_inv l m clk k ds ms Hi Hc) as Hi0.
  set (st0 := prune ds ms <$> state_of l k) in *. set (l0 := pruned_limiter clk k st0 l) in *.
  destruct (decision policy ds ms st0 c) eqn:ED; [rewrite HR in HS; by simplify_eq|].
  destruct (Z.eqb_spec c 0) as [Ec|Ec]; [rewrite HR in HS; simplify_eq; by apply uncaptured_inv|].
  assert (Hcpos : 0 < c <= MaxMoneyMicros) by (unfold amount_range in Hcr; lia).
  assert (Hl0 : bl_states l0 = bl_states l ∧ bl_lastNow l0 = now ∧ bl_sequence l0 = bl_sequence l ∧
     ∀ p st, state_ptr l k = Some p → st0 = Some st → bl_heap l0 !! p = Some st).
  { destruct (nowTime_range clk l (bi_time _ _ _ Hi) Hc) as [_ Hn2]. fold now in Hn2.
    pose proof (nowTime_states clk l) as Es. pose proof (nowTime_seq clk l) as Eq.
    unfold l0, pruned_limiter. cbv zeta.
    assert (Ep : state_ptr (BudgetLimiter_nowTime clk l).2 k = state_ptr l k) by (unfold state_ptr; by rewrite Es). rewrite Ep.
    destruct (state_ptr l k) as [p|], st0 as [st|]; simpl; rewrite ?Es; split_and!; try done.
    intros q st1 [= <-] [= <-]. by rewrite lookup_insert_eq. }
  destruct Hl0 as (El0s & El0t & El0q & El0h).
  pose proof (state_ptr_of k l Hlink) as Hsp.
  assert (Hst0v : ∀ st, st0 = Some st → validateBudgetState st = None).
  { intros st E. apply (good_valid ow). exact (st0_good ow clk k l Hgood st E). }
  destruct (state_ptr l k) as [p|] eqn:Ep.
  - destruct Hsp as (st1 & Es1 & Hst1). destruct st0 as [st|] eqn:Est0; [|unfold st0 in Est0; by rewrite Es1 in Est0].
    destruct HS as (st' & E & HRs & HL & Hgen & Hld). rewrite HR in E. simplify_eq. rewrite <-Hgen.
    eapply (captured_inv l0 _ m k policy ds ms c p (Some st) st'); try done.
    + cbn [bl_states set_state]. by rewrite El0s.
    + left. by rewrite El0s.
    + simpl. rewrite El0q. apply (bi_seq _ _ _ Hi).
    + intros st2 [= <-]. rewrite El0s. split; [done|]. split; [by apply El0h|]. split; [done|]. by apply Hst0v.
    + rewrite Hgen. exact (sg_gen _ _ (st0_good ow clk k l Hgood st Est0)).
  - assert (Est0 : st0 = None) by (unfold st0; by rewrite Hsp). rewrite Est0 in *.
    assert (Hseq : 0 <= wrapU64 (bl_sequence l + 1)) by (unfold wrapU64; apply Z.mod_pos_bound; lia).
    cbv zeta in HS. destruct (Z.eqb_spec (wrapU64 (bl_sequence l + 1)) 0) as [Eg|Eg].
    + rewrite HR in HS. simplify_eq. eapply limiter_frame; try done. right. simpl. by rewrite El0t.
    + destruct HS as (st' & E & HRs & HL & Hgen & Hld). rewrite HR in E. simplify_eq. rewrite <-Hgen.
      assert (Hnp : bl_states l0 !! (shard k, k) = None) by (rewrite El0s; exact Ep).
      eapply (captured_inv l0 _ m k policy ds ms c _ None st'); try done.
      * intros e Hne. simpl. by rewrite lookup_insert_ne.
      * simpl. by rewrite lookup_insert_eq.
      * right. split; [done|]. apply not_elem_of_dom, is_fresh.
      * by rewrite Hgen.
      * by rewrite Hgen.
Qed.

(** *** Settlement *)

Lemma notify_one b d l :
  bl_heap (notifyBudgetDelta b d l) = bl_heap l ∧ bl_states (notifyBudgetDelta b d l) = bl_states l ∧
  bl_lastNow (notifyBudgetDelta b d l) = bl_lastNow l ∧ bl_sequence (notifyBudgetDelta b d l) = bl_sequence l.
Proof. unfold notifyBudgetDelta. by case_match. Qed.

Lemma notify_frame l ds :
  let l' := foldl (λ l d, notifyBudgetDelta (bl_sink l) d l) l ds in
  bl_heap l' = bl_heap l ∧ bl_states l' = bl_states l ∧ bl_lastNow l' = bl_lastNow l ∧ bl_sequence l' = bl_sequence l.
Proof.
  revert l. induction ds as [|d ds IH]; intros l; [done|]. simpl.
  destruct (IH (notifyBudgetDelta (bl_sink l) d l)) as (-> & -> & -> & ->). unfold notifyBudgetDelta. by case_match.
Qed.

(** Replacing a holder of state [p] by another reservation with the same
    handle, and the state by the one it left behind. *)
Lemma settle_world l m i r r' p st st' n :
  binv cap l m → m !! i = Some r → b_returned r = false → b_holds r p n →
  state_ptr l (br_keyID r) = Some p → bl_heap l !! p = Some st →
  b_returned r' = true → money_fields r' →
  generation st' = generation st → state_ok (cap (br_keyID r)) (owed (<[i := r']> m) p) st' →
  binv cap (retire (br_keyID r) st' (set_state p st' l)) (<[i := r']> m).
Proof.
  intros Hi Hm Hf Hh Hp Hst Hf' Hmf Hgen Hg.
  eapply (update_inv l m _ _ (br_keyID r) p st'); try done.
  - unfold retire. by case_match.
  - intros e Hne. unfold retire. case_match; simpl; [by rewrite lookup_delete_ne|done].
  - unfold retire. destruct (state_idle st') eqn:Eid; simpl; [right|by left].
    rewrite lookup_delete_eq. split; [done|]. intros s. by eapply idle_owed.
  - by left.
  - intros q s Hne. rewrite (owed_update m i r) by done.
    rewrite (held_other q p) by (done || apply Hh).
    assert (b_held q s r' = 0) as -> by (unfold b_held; by rewrite Hf'). lia.
  - intros j x q Hj Hfx Hs. apply lookup_insert_Some in Hj as [ [_ <-]|[Hne Hj] ]; [congruence|].
    destruct (decide (q = p)) as [-> |]; [right|by left]. split; [done|].
    rewrite Hgen. by apply (same_state l m j x (br_keyID r) p st Hi).
  - intros j x Hj. apply lookup_insert_Some in Hj as [ [_ <-]|[Hne Hj] ]; [done|by eapply money_of].
  - pose proof (bi_time _ _ _ Hi). unfold retire. by case_match.
  - pose proof (bi_seq _ _ _ Hi). unfold retire. by case_match.
Qed.

End invariant.

Section growth.

Lemma binv_mono cap cap' l m : (∀ k s, cap k s <= cap' k s) → binv cap l m → binv cap' l m.
Proof.
  intros Hc [H1 H2 H3 H4 H5 H6 H7 H8]. constructor; try done.
  intros k p st Hp Hs. eapply state_ok_mono; [apply Hc| |by eapply H3]. done.
Qed.

(** A settlement on a state the check refuses changes nothing in memory. *)
Lemma settle_refused r kind actual deferred l p n st e :
  b_holds r p n → state_ptr l (br_keyID r) = Some p → bl_heap l !! p = Some st → generation st = br_generation r →
  validateBudgetState st = Some e →
  settleReservation r kind actual deferred l =
    (mkResult (br_keyID r) kind (br_amount r) actual knownZeroMoney 0 (Some ErrBudgetState), [], None, l).
Proof.
  intros Hh Hp Hst Hgen Hv. unfold settleReservation. rewrite (h_state _ _ _ Hh), (h_amount _ _ _ Hh).
  pose proof (h_pos _ _ _ Hh). assert (isZeroMoney (mkMoney n true) = false) as -> by (unfold isZeroMoney; simpl; lia).
  rewrite Hp, Hst, bool_decide_true, Hgen, Z.eqb_refl, Hv by done. cbn [negb orb]. by rewrite (validate_error st e Hv).
Qed.

(** A state with the settled accounts holds what is still owed. *)
Lemma b_settled_ok cap cap' ow ow' r n c st st' :
  state_ok cap ow st → state_good ow st → settles r n c st st' → same_limits st st' → amount_range c → 0 <= n →
  (∀ s, captures r s = true → n <= ow s) →
  (∀ s a b, captures r s = true → slot_val st s = Some (mkMoney a true, mkMoney b true) → a + c <= MaxMoneyMicros) →
  (∀ s, cap s <= cap' s) → (∀ s, captures r s = true → cap s + (c - n) <= cap' s) →
  (∀ s, ow' s = ow s - if captures r s then n else 0) →
  state_ok cap' ow' st'.
Proof.
  intros Ho Hg HS (Hgen & Hld & HL) Hc Hn0 Hn Hfit Hcap Hcap' How. constructor.
  - intros s v Hv. rewrite HS in Hv. rewrite How. specialize (Hcap s). destruct (captures r s) eqn:Ec.
    + apply fmap_Some in Hv as ([x0 y0] & Hv & ->). right.
      destruct (sg_val _ _ Hg s x0 y0 Hv) as (a & b & -> & -> & Ha & Hb & Hab & Hbo).
      specialize (Hn s Ec). specialize (Hcap' s Ec). specialize (Hfit s a b Ec Hv).
      destruct (so_val _ _ _ Ho s _ Hv) as [ [? _]|(a' & b' & [= <- <-] & _ & _ & Hle & _ & _)]; [done|].
      pose proof (sg_start _ _ Hg s ltac:(eauto)). unfold amount_range in *. exists (a + c), (ow s - n). simpl. rewrite Hbo. split_and!; done || lia.
    + rewrite Z.sub_0_r. destruct (so_val _ _ _ Ho s v Hv) as [?|(a & b & ? & ? & ? & ? & ? & ?)]; [by left|right].
      exists a, b. split_and!; done || lia.
  - intros s Hv. rewrite HS in Hv. rewrite How. destruct (captures r s) eqn:Ec.
    + apply fmap_None in Hv. pose proof (so_none _ _ _ Ho s Hv). specialize (Hn s Ec). lia.
    + rewrite (so_none _ _ _ Ho s Hv). lia.
  - rewrite Hgen. apply (so_gen _ _ _ Ho).
  - apply HL, (so_limits _ _ _ Ho).
  - rewrite Hld, How. intros Hl. pose proof (so_loaded _ _ _ Ho Hl). destruct (captures r STotal) eqn:Ec; [|lia].
    specialize (Hn _ Ec). lia.
Qed.

Lemma final_inv cap cap' l m i r kind actual deferred err r' l' :
  binv cap l m → m !! i = Some r → money_wf actual → (∀ k s, cap k s <= cap' k s) →
  (∀ s res, br_finalized r = false → captures r s = true → br_result r' = Some res →
     cap (br_keyID r) s + (sr_CommittedDelta res - micros (br_amount r)) <= cap' (br_keyID r) s) →
  finalizeInternal kind actual deferred r l = (err, r', l') →
  binv cap' l' (<[i := r']> m).
Proof.
  intros Hi Hm Hwf Hcap Hover HF. pose proof (binv_mono cap cap' l m Hcap Hi) as Hi'.
  unfold finalizeInternal in HF. destruct (br_finalized r) eqn:Ef.
  { simplify_eq. by rewrite insert_id. }
  destruct (settleReservation r kind actual deferred l) as [ [ [res deltas] ticket] l1] eqn:ES. injection HF as <- <- <-.
  destruct (notify_frame l1 deltas) as (Nh & Ns & Nt & Nq).
  set (r' := mkBReservation _ _ _ _ _ _ _ _ _ _ _ _ _) in *.
  enough (Hmain : binv cap' l1 (<[i := r']> m)).
  { eapply limiter_frame; try done; [rewrite Nt; apply (bi_time _ _ _ Hmain)|rewrite Nq; apply (bi_seq _ _ _ Hmain)]. }
  pose proof (unfinalized_held r Ef) as Hf.
  assert (Hmf : ∀ t, ticket = Some t → bt_reserved t = br_amount r → money_fields r').
  { intros t Et Er. split; [exact (bi_amount _ _ _ Hi i r Hm)|]. simpl. rewrite Et. intros t' [= <-]. rewrite Er.
    split; [exact (bi_amount _ _ _ Hi i r Hm)|done]. }
  assert (Hmf0 : ticket = None → money_fields r').
  { intros Et. split; [exact (bi_amount _ _ _ Hi i r Hm)|]. simpl. by rewrite Et. }
  assert (Hkeep : l1 = l → (∀ q s, b_held q s r' = b_held q s r) → money_fields r' → binv cap' l1 (<[i := r']> m)).
  { intros -> Hh Hmr. eapply b_frame_inv; try done.
    - intros q s. rewrite (owed_update m i r) by done. rewrite Hh. lia.
    - intros j x q Hj Hfx Hs. apply lookup_insert_Some in Hj as [ [<- <-]|[_ Hj] ]; [|by exists x]. exists r. split_and!; try done.
      intros n0 [? ? ? ? ?]. by constructor.
    - intros j x Hj. apply lookup_insert_Some in Hj as [ [_ <-]|[_ Hj] ]; [done|by eapply money_of].
    - apply (bi_time _ _ _ Hi).
    - apply (bi_seq _ _ _ Hi). }
  destruct (br_state r) as [p|] eqn:Es.
  - destruct (bi_res _ _ _ Hi i r p Hm Hf Es) as (n & st & Hh & Hp & Hst & Hgen & _).
    pose proof (bi_ok _ _ _ Hi _ p st Hp Hst) as Ho. pose proof (h_pos _ _ _ Hh) as Hn.
    assert (Howed : ∀ s, captures r s = true → n <= owed m p s) by (intros s Hc; exact (owed_holds m i r p n s Hm Hf Hh Hc)).
    destruct (validateBudgetState st) as [e|] eqn:Hv.
    { rewrite (settle_refused r kind actual deferred l p n st e Hh Hp Hst Hgen Hv) in ES. injection ES as <- <- <- <-.
      apply Hkeep; try done; [|by apply Hmf0]. intros q s. unfold b_held. rewrite Hf, Es. by destruct s. }
    pose proof (ok_valid_good _ _ st Ho Hv) as Hg.
    destruct (settle_good (owed m p) r p n st Hg Hh Howed l kind actual deferred _ _ Hp Hst Hgen Hwf eq_refl eq_refl)
      as (st' & res' & E & Herr & Hch & Hdel & HS & HL). rewrite ES in E. injection E as -> -> Etk ->.
    set (c := charged r kind actual n st) in *.
    pose proof (charged_range r p n st Hh kind actual Hwf) as Hcr. fold c in Hcr.
    assert (Hret : b_returned r' = true).
    { unfold b_returned, r'. cbn [br_finalized br_result andb]. rewrite Herr, Hch. unfold settle_error. destruct (charge_fits _ _ _) eqn:Efit.
      - destruct kind; try done. destruct (validKnownMoney actual) eqn:Eva; [done|].
        unfold c, charged. rewrite Efit. unfold wanted. rewrite Eva. unfold isZeroMoney. simpl. lia.
      - unfold c, charged. rewrite Efit. unfold isZeroMoney. simpl. lia. }
    eapply (settle_world cap' l m i r r' p st st' n); try done.
    + destruct ticket as [t|]; [|by apply Hmf0]. apply (Hmf t); [done|]. rewrite (h_amount _ _ _ Hh).
      destruct (deferred && _); [by injection Etk as ->|done].
    + apply HL.
    + eapply (b_settled_ok (cap (br_keyID r)) _ (owed m p) _ r n c); try done; [lia| | |].
      * intros s a b Hcs Hvs. by eapply charged_fits.
      * intros s Hcs. specialize (Hover s res' eq_refl Hcs eq_refl). rewrite Hdel, (h_amount _ _ _ Hh) in Hover. exact Hover.
      * intros s. rewrite (owed_update m i r) by done.
        assert (b_held p s r' = 0) as -> by (unfold b_held; by rewrite Hret). rewrite Z.add_0_r. f_equal.
        destruct (captures r s) eqn:Ec; [by apply (held_holds p s r n)|by apply held_uncaptured].
  - assert (Hl1 : l1 = l ∧ ∀ t, ticket = Some t → bt_reserved t = br_amount r).
    { unfold settleReservation in ES. rewrite Es in ES.
      destruct (match kind with BudgetSettlementKnown => _ | _ => _ end) as [k0 e0]. injection ES as <- <- <- <-. split; [done|].
      intros t. case_match; [|done]. by intros [= <-]. }
    destruct Hl1 as [El Htk]. apply Hkeep; try done.
    + intros q s. rewrite (b_held_none q s r) by done. by apply b_held_none.
    + destruct ticket as [t|]; [apply (Hmf t); auto|by apply Hmf0].
Qed.

(** *** Adjustment *)

(** The spend of an account, adjusted from a charge of [n] to one of [a]. *)
Definition respent (a n : Z) (x x' : Money) : Prop :=
  (n < a ∧ Money_Add x (mkMoney (a - n) true) = Ok x' ∧ known x' = true) ∨
  (a < n ∧ Money_Subtract x (mkMoney (n - a) true) = Ok x' ∧ known x' = true) ∨
  (a = n ∧ x' = x).

Lemma respent_known a n x x' :
  amount_range a → amount_range n → amount_range x → respent a n (mkMoney x true) x' →
  ∃ z, x' = mkMoney z true ∧ amount_range z ∧ z <= x + Z.max 0 (a - n).
Proof.
  intros Ha Hn Hx [ (Hlt & E & _)|[ (Hlt & E & _)|[-> ->] ] ].
  - rewrite Money_Add_known in E by (done || unfold amount_range in *; lia).
    destruct (Z.ltb_spec MaxMoneyMicros (x + (a - n))); [done|]. injection E as <-. eexists. split; [done|]. unfold amount_range in *. lia.
  - rewrite Money_Subtract_known in E by (done || unfold amount_range in *; lia).
    destruct (Z.ltb_spec x (n - a)); [done|]. injection E as <-. eexists. split; [done|]. unfold amount_range in *. lia.
  - eexists. split; [done|]. split; [done|]. lia.
Qed.

Lemma respent_lost a n x' : respent a n UnknownMoney x' → a = n ∧ x' = UnknownMoney.
Proof. intros [ (_ & [= <-] & ?)|[ (_ & [= <-] & ?)|[-> ->] ] ]; done. Qed.

Definition day_of (start : Z) (m : gmap Z budgetDayState) : budgetDayState := default (mkDay UnknownMoney UnknownMoney) (m !! start).

Lemma adjust_fields t a n st aj :
  bt_reserved t = mkMoney n true → amount_range a → amount_range n →
  adjust_amounts t (mkMoney a true) st = inr aj → aj_ok aj = true →
  (if bt_totalCaptured t then respent a n (spent st) (aj_spent aj) else aj_spent aj = spent st) ∧
  (bt_dayCaptured t && negb (IsZero (bt_dayStart t)) = true →
     respent a n (day_spent (day_of (bt_dayStart t) (dayBuckets st))) (aj_daySpent aj)) ∧
  (bt_monthCaptured t && negb (IsZero (bt_monthStart t)) = true →
     respent a n (day_spent (day_of (bt_monthStart t) (monthBuckets st))) (aj_monthSpent aj)).
Proof.
  intros Hres Ha Hn HA Hok. unfold adjust_amounts, Money_Compare in HA. rewrite Hres in HA. cbn [known negb orb micros] in HA.
  fold (day_of (bt_dayStart t) (dayBuckets st)) (day_of (bt_monthStart t) (monthBuckets st)) in HA.
  set (dayIn := bt_dayCaptured t && _) in *. set (monthIn := bt_monthCaptured t && _) in *.
  assert (Hbucket : ∀ (b : bool) op delta y dd, adjust_bucket b op delta = (y, dd, true) → b = true → op = Ok y ∧ known y = true).
  { intros [] op delta y dd E ?; [|done]. unfold adjust_bucket in E. destruct op as [m|]; [|done]. destruct (known m) eqn:Ek; by simplify_eq. }
  assert (Htotal : ∀ (b : bool) op z, captured_op b (spent st) op = z → ok_known z = true →
     if b then op = Ok z.1 ∧ known z.1 = true else z.1 = spent st).
  { intros [] op z <- Hz; [|done]. unfold captured_op, ok_known in *. destruct op; simpl in *; [|done]. done. }
  destruct (Z.ltb_spec a n) as [Hlt|Hge]; [|destruct (Z.ltb_spec n a) as [Hgt|Hle] ].
  - rewrite sub_ok in HA by (done || lia). specialize (Htotal (bt_totalCaptured t) (Money_Subtract (spent st) (mkMoney (n - a) true)) _ eq_refl).
    destruct (ok_known (captured_op _ _ _)); [|done]. cbn [negb] in HA. specialize (Htotal eq_refl).
    destruct (adjust_bucket dayIn _ _) as [ [y1 d1] ok1] eqn:E1. destruct (adjust_bucket monthIn _ _) as [ [y2 d2] ok2] eqn:E2.
    injection HA as <-. cbn [aj_ok aj_spent aj_daySpent aj_monthSpent] in *. apply andb_true_iff in Hok as [-> ->]. split; [|split].
    + destruct (bt_totalCaptured t); [|done]. right. left. split; [done|]. exact Htotal.
    + intros Hin. right. left. split; [done|]. by eapply Hbucket.
    + intros Hin. right. left. split; [done|]. by eapply Hbucket.
  - rewrite sub_ok in HA by (done || lia). specialize (Htotal (bt_totalCaptured t) (Money_Add (spent st) (mkMoney (a - n) true)) _ eq_refl).
    destruct (ok_known (captured_op _ _ _)); [|done]. cbn [negb] in HA. specialize (Htotal eq_refl). cbn [Money_Micros micros known] in HA.
    destruct (adjust_bucket dayIn _ _) as [ [y1 d1] ok1] eqn:E1. destruct (adjust_bucket monthIn _ _) as [ [y2 d2] ok2] eqn:E2.
    injection HA as <-. cbn [aj_ok aj_spent aj_daySpent aj_monthSpent andb] in *. apply andb_true_iff in Hok as [-> ->]. split; [|split].
    + destruct (bt_totalCaptured t); [|done]. left. split; [done|]. exact Htotal.
    + intros Hin. left. split; [done|]. by eapply Hbucket.
    + intros Hin. left. split; [done|]. by eapply Hbucket.
  - assert (a = n) as -> by lia. injection HA as <-. cbn [aj_spent aj_daySpent aj_monthSpent].
    split; [destruct (bt_totalCaptured t); [|done]|split; intros _]; right; by right.
Qed.

(** The accounts after an applied adjustment.  An absent account, pruned since
    the settlement, comes back lost. *)
Lemma adjust_slots cap ow t a n st aj s :
  state_ok cap ow st → bt_reserved t = mkMoney n true → amount_range a → amount_range n →
  adjust_amounts t (mkMoney a true) st = inr aj → aj_ok aj = true →
  if tcaptures t s then
    match slot_val st s with
    | Some v => v = lost ∧ slot_val (adjust_state t st aj) s = Some lost ∨
        ∃ x y x', v = (mkMoney x true, mkMoney y true) ∧ slot_val (adjust_state t st aj) s = Some (mkMoney x' true, mkMoney y true) ∧
          amount_range x' ∧ x' <= x + Z.max 0 (a - n)
    | None => s ≠ STotal ∧ slot_val (adjust_state t st aj) s = Some lost ∧ a = n
    end
  else slot_val (adjust_state t st aj) s = slot_val st s.
Proof.
  intros Ho Hres Ha Hn HA Hok. destruct (adjust_fields t a n st aj Hres Ha Hn HA Hok) as (HT & HD & HM).
  assert (Hstore : ∀ (b : bool) start newSpent (m : gmap Z budgetDayState) d,
     bucket_val <$> adjust_store b start newSpent m !! d =
     if b && (d =? start) then Some (newSpent, day_active (day_of start m)) else bucket_val <$> m !! d).
  { intros b start x m d. unfold adjust_store. destruct b; simpl; [|done]. destruct (Z.eqb_spec d start) as [-> |].
    - by rewrite lookup_insert_eq.
    - by rewrite lookup_insert_ne. }
  assert (Hbucket : ∀ (m : gmap Z budgetDayState) start x' s', s' ≠ STotal → slot_val st s' = bucket_val <$> m !! start →
     respent a n (day_spent (day_of start m)) x' →
     match bucket_val <$> m !! start with
     | Some v => v = lost ∧ Some (x', day_active (day_of start m)) = Some lost ∨
         ∃ x y z, v = (mkMoney x true, mkMoney y true) ∧ Some (x', day_active (day_of start m)) = Some (mkMoney z true, mkMoney y true) ∧
           amount_range z ∧ z <= x + Z.max 0 (a - n)
     | None => s' ≠ STotal ∧ Some (x', day_active (day_of start m)) = Some lost ∧ a = n
     end).
  { intros m start x' s' Hs' Ev Hr. unfold day_of in *. destruct (m !! start) as [ [x y]|] eqn:Em; simpl in *.
    - destruct (so_val _ _ _ Ho s' _ Ev) as [ [E _]|(x0 & y0 & E & Hx0 & _)]; unfold bucket_val, lost in E; simpl in E; injection E as -> ->.
      + left. split; [done|]. by destruct (respent_lost a n x' Hr) as [_ ->].
      + right. destruct (respent_known a n x0 x' Ha Hn Hx0 Hr) as (z & -> & ? & ?). exists x0, y0, z. done.
    - destruct (respent_lost a n x' Hr) as [-> ->]. done. }
  destruct s as [|d|d]; unfold adjust_state; cbn [slot_val with_amounts spent active dayBuckets monthBuckets tcaptures].
  - destruct (so_val _ _ _ Ho STotal _ eq_refl) as [ [_ [? _] ]|(x0 & y0 & E & Hx0 & _)]; [done|]. injection E as Ex Ey.
    destruct (bt_totalCaptured t); [|by rewrite HT]. right. rewrite Ex in HT.
    destruct (respent_known a n x0 _ Ha Hn Hx0 HT) as (z & -> & ? & ?). exists x0, y0, z. by rewrite Ex, Ey.
  - rewrite Hstore. set (dayIn := bt_dayCaptured t && _) in *. destruct dayIn; cbn [andb]; [|done].
    destruct (Z.eqb_spec d (bt_dayStart t)) as [-> |]; [|done]. by apply Hbucket; [|done|auto].
  - rewrite Hstore. set (monthIn := bt_monthCaptured t && _) in *. destruct monthIn; cbn [andb]; [|done].
    destruct (Z.eqb_spec d (bt_monthStart t)) as [-> |]; [|done]. by apply Hbucket; [|done|auto].
Qed.

Lemma adjusted_ok cap cap' ow t a n st aj :
  state_ok cap ow st → bt_reserved t = mkMoney n true → amount_range a → amount_range n →
  adjust_amounts t (mkMoney a true) st = inr aj → aj_ok aj = true →
  (∀ s, cap s <= cap' s) → (∀ s, tcaptures t s = true → cap s + Z.max 0 (a - n) <= cap' s) →
  state_ok cap' ow (adjust_state t st aj).
Proof.
  intros Ho Hres Ha Hn HA Hok Hcap Hcap'.
  pose proof (λ s, adjust_slots cap ow t a n st aj s Ho Hres Ha Hn HA Hok) as HS. constructor.
  - intros s v Hv. specialize (HS s). specialize (Hcap s). specialize (Hcap' s). destruct (tcaptures t s).
    + specialize (Hcap' eq_refl). destruct (slot_val st s) as [v0|] eqn:E0.
      * pose proof (so_val _ _ _ Ho s v0 E0) as Hv0. destruct HS as [ [-> HS]|(x & y & x' & -> & HS & Hx' & Hle)].
        -- rewrite HS in Hv. injection Hv as <-. left. destruct Hv0 as [?|(? & ? & ? & _)]; done.
        -- rewrite HS in Hv. injection Hv as <-. destruct Hv0 as [ [? _]|(x0 & y0 & [= <- <-] & ? & ? & ? & ? & ?)]; [done|right].
           exists x', y. split_and!; done || lia.
      * destruct HS as (Hne & HS & _). rewrite HS in Hv. injection Hv as <-. left. split; [done|]. split; [done|]. by apply (so_none _ _ _ Ho).
    + rewrite HS in Hv. destruct (so_val _ _ _ Ho s v Hv) as [?|(x0 & y0 & ? & ? & ? & ? & ? & ?)]; [by left|right].
      exists x0, y0. split_and!; done || lia.
  - intros s Hv. specialize (HS s). destruct (tcaptures t s).
    + destruct (slot_val st s) as [v0|] eqn:E0.
      * destruct HS as [ [_ HS]|(x & y & x' & _ & HS & _)]; congruence.
      * by apply (so_none _ _ _ Ho).
    + rewrite HS in Hv. by apply (so_none _ _ _ Ho).
  - apply (so_gen _ _ _ Ho).
  - apply (so_limits _ _ _ Ho).
  - apply (so_loaded _ _ _ Ho).
Qed.

(** Replacing a reservation's ticket does not change what is owed. *)
Lemma ticket_frame cap l m i r t t' :
  binv cap l m → m !! i = Some r → br_ticket r = Some t → money_wf (bt_reserved t') →
  binv cap l (<[i := with_bticket t' r]> m) ∧ ∀ p s, owed (<[i := with_bticket t' r]> m) p s = owed m p s.
Proof.
  intros Hi Hm Ht Hw.
  assert (Hou : ∀ p s, owed (<[i := with_bticket t' r]> m) p s = owed m p s).
  { intros p s. rewrite (owed_update m i r) by done.
    assert (b_held p s (with_bticket t' r) = b_held p s r) as -> by (by destruct s). lia. }
  split; [|done]. eapply b_frame_inv; try done.
  - intros j x q Hj Hfx Hs. apply lookup_insert_Some in Hj as [ [<- <-]|[_ Hj] ]; [|by exists x]. exists r. split_and!; try done.
    intros n0 [? ? ? ? ?]. by constructor.
  - intros j x Hj. apply lookup_insert_Some in Hj as [ [_ <-]|[_ Hj] ]; [|by eapply money_of].
    split; [exact (bi_amount _ _ _ Hi i r Hm)|]. intros t0 [= <-]. split; [done|]. exact (proj2 (bi_ticket _ _ _ Hi i r t Hm Ht)).
  - apply (bi_time _ _ _ Hi).
  - apply (bi_seq _ _ _ Hi).
Qed.

Lemma b_adjust_inv cap cap' l m i r t actual err t' l' :
  binv cap l m → m !! i = Some r → br_ticket r = Some t → money_wf actual → (∀ k s, cap k s <= cap' k s) →
  (∀ s, bt_consumed t = false → tcaptures t s = true →
     cap (bt_keyID t) s + Z.max 0 (micros actual - micros (bt_reserved t)) <= cap' (bt_keyID t) s) →
  BudgetTicket_Adjust actual t l = (err, t', l') →
  binv cap' l' (<[i := with_bticket t' r]> m).
Proof.
  intros Hi Hm Et Haw Hcap Hover HA. destruct (bi_ticket _ _ _ Hi i r t Hm Et) as [Htw Hf].
  pose proof (binv_mono cap cap' l m Hcap Hi) as Hi'.
  unfold BudgetTicket_Adjust in HA. destruct (bt_consumed t) eqn:Ec.
  { simplify_eq. by apply (ticket_frame cap' l' m i r t' t'). }
  set (fail := λ e : BudgetError, (Some e, consume_ticket (Some e) t, l)) in HA.
  assert (Hfail : ∀ e, fail e = (err, t', l') → binv cap' l' (<[i := with_bticket t' r]> m)).
  { intros e E. unfold fail in E. simplify_eq. by apply (ticket_frame cap' l' m i r t). }
  destruct (validKnownMoney actual) eqn:Ev; cbn [negb] in HA; [|by eapply Hfail].
  destruct (negb (bt_limiter t) || _ || _); [by eapply Hfail|].
  destruct (state_ptr l (bt_keyID t)) as [p|] eqn:Ep; [|by eapply Hfail].
  destruct (bl_heap l !! p) as [st|] eqn:Est; [|by eapply Hfail].
  destruct (negb (generation st =? _) || _ || _); [by eapply Hfail|].
  destruct (adjust_amounts t actual st) as [e|aj] eqn:Eaj; [by eapply Hfail|].
  destruct (validKnownMoney_spec actual Ev Haw) as [Eact Har].
  set (l1 := if aj_ok aj then _ else l) in HA.
  assert (Hl1 : binv cap' l1 (<[i := with_bticket (consume_ticket None t) r]> m)).
  { destruct (ticket_frame cap' l m i r t (consume_ticket None t) Hi' Hm Et Htw) as [Hi1 Hou].
    unfold l1. destruct (aj_ok aj) eqn:Eok; [|done].
    pose proof (bi_ok _ _ _ Hi _ p st Ep Est) as Ho.
    assert (Hres : bt_reserved t = mkMoney (micros (bt_reserved t)) true ∧ amount_range (micros (bt_reserved t))).
    { apply money_wf_known; [done|]. unfold adjust_amounts, Money_Compare in Eaj. rewrite Eact in Eaj. simpl in Eaj.
      by destruct (known (bt_reserved t)). }
    destruct Hres as [Hres Hnr]. rewrite Eact in Eaj.
    pose proof (adjusted_ok _ _ _ t _ _ st aj Ho Hres Har Hnr Eaj Eok (Hcap _) (λ s, Hover s eq_refl)) as Ho'.
    set (st' := adjust_state t st aj) in *.
    assert (Hg' : state_ok (cap' (bt_keyID t)) (owed (<[i := with_bticket (consume_ticket None t) r]> m) p) st')
      by (eapply state_ok_mono; [| |exact Ho']; [done|]; intros s; by rewrite Hou).
    eapply (update_inv cap' l _ _ _ (bt_keyID t) p st' Hi1); try done.
    - by repeat case_match.
    - intros e Hne. repeat case_match; simpl; rewrite ?lookup_delete_ne, ?lookup_insert_ne by done; done.
    - destruct (state_idle st') eqn:Eid; simpl.
      + right. rewrite lookup_delete_eq. split; [done|]. intros s. by eapply idle_owed.
      + left. destruct (aj_delta aj =? 0); simpl; [done|]. by rewrite lookup_insert_eq.
    - by left.
    - intros j x q Hj Hfx Hs. destruct (decide (q = p)) as [-> |]; [right|by left]. split; [done|].
      by apply (same_state cap' l _ j x (bt_keyID t) p st Hi1).
    - intros j x Hj. by eapply money_of.
    - pose proof (bi_time _ _ _ Hi). by repeat case_match.
    - pose proof (bi_seq _ _ _ Hi). by repeat case_match. }
  injection HA as <- <- <-.
  assert (Hstep : ∀ (c b : bool) d l2, binv cap' l2 (<[i := with_bticket (consume_ticket None t) r]> m) →
      binv cap' (if c then notifyBudgetDelta b d l2 else l2) (<[i := with_bticket (consume_ticket None t) r]> m)).
  { intros c b d l2 H2. destruct c; [|done]. destruct (notify_one b d l2) as (Eh & Es & Etm & Eq).
    eapply limiter_frame; [exact H2|done|done|rewrite Etm; apply (bi_time _ _ _ H2)|rewrite Eq; apply (bi_seq _ _ _ H2)]. }
  by apply Hstep, Hstep, Hstep.
Qed.

(** *** Loading *)

Definition slot_period (s : slot) : string :=
  match s with STotal => BudgetPeriodTotal | SDay _ => BudgetPeriodDay | SMonth _ => BudgetPeriodMonth end.
Definition slot_start (s : slot) : Z := match s with STotal => zeroTime | SDay d | SMonth d => d end.

(** What [LoadSpent] has checked of a row. *)
Record row_ok (p : pendingSpent) : Prop := {
  rk_money : validKnownMoney (ps_spent p) = true;
  rk_start : slot_start_ok (row_slot p);
  rk_identity : spent_identity p = (ps_keyID p, slot_period (row_slot p), slot_start (row_slot p));
}.

Lemma pending_row_ok v p : pending_of v = Some p → row_ok p ∧ ps_spent p = bs_Spent v.
Proof.
  unfold pending_of. destruct (validKnownMoney (bs_Spent v)) eqn:Em; [|by rewrite orb_true_r].
  destruct (_ || _); [done|]. cbv zeta. set (period := if bool_decide (bs_Period v = ""%string) then _ else _).
  case_bool_decide as E1; [|case_bool_decide as E2; [|case_bool_decide as E3; [|done] ] ].
  - destruct (IsZero _); [|done]. intros [= <-]. split; [|done].
    assert (Er : ∀ k x, row_slot (mkPending k period zeroTime x) = STotal).
    { intros k x. unfold row_slot. simpl. by rewrite E1, !bool_decide_false by done. }
    constructor; rewrite ?Er; [done..|]. unfold spent_identity. simpl. by rewrite E1.
  - destruct (validDayStart (bs_PeriodStart v)) eqn:Ed; [|done]. intros [= <-].
    assert (Es : currentDay (bs_PeriodStart v) = bs_PeriodStart v) by (unfold validDayStart in Ed; lia). rewrite Es. split; [|done].
    assert (Er : ∀ k d x, row_slot (mkPending k period d x) = SDay d).
    { intros k d x. unfold row_slot. simpl. by rewrite bool_decide_true by done. }
    constructor; rewrite ?Er; [done..|]. unfold spent_identity. simpl. by rewrite E2.
  - destruct (validMonthStart (bs_PeriodStart v)) eqn:Ed; [|done]. intros [= <-].
    assert (Es : currentMonth (bs_PeriodStart v) = bs_PeriodStart v) by (unfold validMonthStart in Ed; lia). rewrite Es. split; [|done].
    assert (Er : ∀ k d x, row_slot (mkPending k period d x) = SMonth d).
    { intros k d x. unfold row_slot. simpl. by rewrite bool_decide_false, bool_decide_true by done. }
    constructor; rewrite ?Er; [done..|]. unfold spent_identity. simpl. by rewrite E3.
Qed.

Lemma pendingLoop_spec values ids ps :
  pendingLoop values ids = Some ps →
  ps = omap pending_of values ∧ Forall row_ok ps ∧ NoDup (map spent_identity ps) ∧ ∀ p, p ∈ ps → spent_identity p ∉ ids.
Proof.
  revert ids ps. induction values as [|v values IH]; intros ids ps; simpl.
  { intros [= <-]. split; [done|]. split; [done|]. split; [constructor|]. intros p Hp. by apply not_elem_of_nil in Hp. }
  destruct (pending_of v) as [p|] eqn:Ep; [|done]. case_bool_decide as Hin; [done|].
  intros (qs & Hq & ->)%fmap_Some. destruct (IH _ _ Hq) as (-> & Hok & Hnd & Hni). split; [done|]. split; [|split].
  - constructor; [by eapply pending_row_ok|done].
  - simpl. constructor; [|done]. intros (q & Eq & Hqin)%list_elem_of_fmap. apply (Hni q Hqin). rewrite <-Eq. set_solver.
  - intros q [-> |Hqin]%elem_of_cons; [done|]. specialize (Hni q Hqin). set_solver.
Qed.

Lemma load_slot p st s :
  slot_val (load_bucket p st) s =
    if decide (s = row_slot p) then Some (ps_spent p, match s with STotal => active st | _ => knownZeroMoney end) else slot_val st s.
Proof.
  unfold load_bucket, row_slot. case_bool_decide; [|case_bool_decide]; case_decide as E; try (by subst);
    try (subst s; cbn [slot_val dayBuckets monthBuckets]; by rewrite lookup_insert_eq);
    destruct s as [|d|d]; try done; cbn [slot_val dayBuckets monthBuckets]; by rewrite lookup_insert_ne by congruence.
Qed.

Lemma load_frame p st :
  generation (load_bucket p st) = generation st ∧ (limits_known st → limits_known (load_bucket p st)) ∧
  (totalLoaded (load_bucket p st) = false ↔ totalLoaded st = false ∧ row_slot p ≠ STotal).
Proof. unfold load_bucket, row_slot. repeat case_bool_decide; simpl; naive_solver. Qed.

(** The row's account is still to be loaded. *)
Definition unloaded (l : BudgetLimiter) (p : pendingSpent) : Prop :=
  ∀ st, state_of l (ps_keyID p) = Some st →
    match row_slot p with STotal => totalLoaded st = false | s => slot_val st s = None end.

Lemma already_loaded_spec l p : row_ok p → already_loaded l p = false → unloaded l p.
Proof.
  intros Hok Ha st Hs. unfold already_loaded in Ha. rewrite Hs in Ha. unfold row_slot.
  case_bool_decide; [|case_bool_decide; [|done] ]; simpl; case_bool_decide as Hn; try done; apply eq_None_not_Some in Hn; by rewrite Hn.
Qed.

Lemma loaded_ok cap ow p st :
  state_ok cap ow st → row_ok p → money_wf (ps_spent p) → micros (ps_spent p) <= cap (row_slot p) →
  match row_slot p with STotal => totalLoaded st = false | s => slot_val st s = None end →
  state_ok cap ow (load_bucket p st).
Proof.
  intros Ho [Hm Hst _] Hw Hc Hun. destruct (load_frame p st) as (Eg & HL & Ht).
  destruct (validKnownMoney_spec _ Hm Hw) as [Em Hr].
  assert (Hz : ow (row_slot p) = 0).
  { destruct (row_slot p) eqn:Er; [by apply (so_loaded _ _ _ Ho)|by apply (so_none _ _ _ Ho)..]. }
  constructor.
  - intros s v Hv. rewrite load_slot in Hv. case_decide as Es; [|by apply (so_val _ _ _ Ho)]. injection Hv as <-. right.
    exists (micros (ps_spent p)), 0. rewrite Es, <-Em, Hz.
    assert (Hact : match row_slot p with STotal => active st | _ => knownZeroMoney end = mkMoney 0 true).
    { destruct (row_slot p) eqn:Er; try done.
      destruct (so_val _ _ _ Ho STotal _ eq_refl) as [ [_ [? _] ]|(a & b & [= _ ->] & _ & _ & _ & -> & _)]; [done|]. by rewrite Hz. }
    rewrite Hact. split_and!; try done; unfold amount_range, MaxMoneyMicros, maxInt64 in *; lia.
  - intros s Hv. rewrite load_slot in Hv. case_decide; [done|]. by apply (so_none _ _ _ Ho).
  - rewrite Eg. apply (so_gen _ _ _ Ho).
  - apply HL, (so_limits _ _ _ Ho).
  - intros [H1 _]%Ht. by apply (so_loaded _ _ _ Ho).
Qed.

Lemma blank_ok cap gen : (∀ s, 0 <= cap s) → gen ≠ 0 → state_ok cap (λ _, 0) (blankState gen).
Proof.
  intros Hc Hg. constructor; try done. intros [|d|d] v Hv; simpl in Hv; [|done..]. injection Hv as <-. right. exists 0, 0.
  specialize (Hc STotal). unfold amount_range, MaxMoneyMicros, maxInt64. split_and!; done || lia.
Qed.

(** One row written: the state it fills, new or not. *)
Lemma apply_row gens l p :
  (∀ ptr, state_ptr l (ps_keyID p) = Some ptr → is_Some (bl_heap l !! ptr)) → isZeroMoney (ps_spent p) = false →
  ∃ ptr st, bl_heap (apply_pending gens l p) = <[ptr := load_bucket p st]> (bl_heap l) ∧
    bl_states (apply_pending gens l p) = <[(shard (ps_keyID p), ps_keyID p) := ptr]> (bl_states l) ∧
    bl_lastNow (apply_pending gens l p) = bl_lastNow l ∧ bl_sequence (apply_pending gens l p) = bl_sequence l ∧
    (state_ptr l (ps_keyID p) = Some ptr ∧ bl_heap l !! ptr = Some st ∨
     state_ptr l (ps_keyID p) = None ∧ bl_heap l !! ptr = None ∧ st = blankState (default 0 (gens !! ps_keyID p))).
Proof.
  intros Hlink Hz. unfold apply_pending. rewrite Hz. destruct (state_ptr l (ps_keyID p)) as [ptr|] eqn:Ep.
  - destruct (Hlink ptr eq_refl) as [st Hst]. rewrite Hst. exists ptr, st. split_and!; try done; [|by left].
    simpl. symmetry. by apply insert_id.
  - exists (fresh (dom (bl_heap l))), (blankState (default 0 (gens !! ps_keyID p))). split_and!; try done.
    right. split; [done|]. split; [|done]. apply not_elem_of_dom, is_fresh.
Qed.

Lemma apply_pending_inv cap l m gens p :
  (∀ k s, 0 <= cap k s) → binv cap l m → row_ok p → money_wf (ps_spent p) → micros (ps_spent p) <= cap (ps_keyID p) (row_slot p) →
  unloaded l p → (isZeroMoney (ps_spent p) = false → state_ptr l (ps_keyID p) = None → default 0 (gens !! ps_keyID p) ≠ 0) →
  binv cap (apply_pending gens l p) m ∧
  (∀ q, row_ok q → spent_identity q ≠ spent_identity p → unloaded l q → unloaded (apply_pending gens l p) q) ∧
  (∀ k, state_ptr (apply_pending gens l p) k = None → state_ptr l k = None).
Proof.
  intros Hcap Hi Hok Hw Hc Hun Hgen. destruct (isZeroMoney (ps_spent p)) eqn:Ez; [unfold apply_pending; by rewrite Ez|].
  set (k := ps_keyID p) in *.
  destruct (apply_row gens l p) as (ptr & st & Eh & Es & Et & Eq & Hcase); [intros q Hq; by apply (bi_link _ _ _ Hi _ _ Hq)|done|].
  fold k in Es, Hcase. specialize (Hgen eq_refl). set (l' := apply_pending gens l p) in *.
  assert (Hst : state_ok (cap k) (owed m ptr) st ∧ match row_slot p with STotal => totalLoaded st = false | s => slot_val st s = None end).
  { destruct Hcase as [ [Hp Hst]|(Hp & Hn & ->)].
    - split; [by apply (bi_ok _ _ _ Hi k ptr)|]. apply Hun. unfold state_of. fold k. rewrite Hp. exact Hst.
    - split; [|by destruct (row_slot p)]. eapply state_ok_mono; [done| |apply (blank_ok (cap k)); auto].
      intros s. simpl. by eapply unlinked_owed. }
  destruct Hst as [Ho Hrow].
  assert (Hother : ∀ k', k' ≠ k → state_of l' k' = state_of l k').
  { intros k' Hne. unfold state_of, state_ptr. rewrite Es, lookup_insert_ne by congruence.
    destruct (bl_states l !! (shard k', k')) as [q|] eqn:Eq'; [|done]. simpl. rewrite Eh, lookup_insert_ne; [done|]. intros <-.
    destruct Hcase as [ [Hp _]|(_ & Hn & _)].
    - pose proof (bi_inj _ _ _ Hi _ _ _ Eq' Hp). congruence.
    - destruct (bi_link _ _ _ Hi _ _ Eq') as [_ [x Hx] ]. congruence. }
  assert (Hsame : state_of l' k = Some (load_bucket p st)).
  { unfold state_of, state_ptr. rewrite Es, lookup_insert_eq. simpl. by rewrite Eh, lookup_insert_eq. }
  split; [|split].
  - eapply (update_inv cap l m l' m k ptr (load_bucket p st)); try done.
    + intros e Hne. by rewrite Es, lookup_insert_ne.
    + left. by rewrite Es, lookup_insert_eq.
    + destruct Hcase as [ [Hp _]|(Hp & Hn & _)]; [by left|by right].
    + by apply loaded_ok.
    + intros i r q Hm Hf Hs. destruct (decide (q = ptr)) as [-> |]; [right|by left]. split; [done|].
      destruct (load_frame p st) as [-> _]. destruct Hcase as [ [Hp Hst]|(_ & Hn & _)].
      * by apply (same_state cap l m i r k ptr st Hi).
      * destruct (bi_res _ _ _ Hi i r ptr Hm Hf Hs) as (n & x & _ & _ & Hx & _). congruence.
    + intros i r Hm. by eapply money_of.
    + rewrite Et. apply (bi_time _ _ _ Hi).
    + rewrite Eq. apply (bi_seq _ _ _ Hi).
  - intros q Hqok Hne Hq st' Hs. destruct (decide (ps_keyID q = k)) as [Ek|Hk]; [|rewrite Hother in Hs by done; by apply Hq].
    assert (Hslot : row_slot q ≠ row_slot p).
    { intros E. apply Hne. rewrite (rk_identity _ Hqok), (rk_identity _ Hok), E. fold k. by rewrite Ek. }
    rewrite Ek, Hsame in Hs. injection Hs as <-. destruct (load_frame p st) as (_ & _ & Hld).
    assert (Hq0 : match row_slot q with STotal => totalLoaded st = false | s => slot_val st s = None end).
    { destruct Hcase as [ [Hp Hst]|(_ & _ & ->)]; [|by destruct (row_slot q)]. apply Hq. unfold state_of. rewrite Ek. fold k. rewrite Hp. exact Hst. }
    destruct (row_slot q) eqn:Eqs; [apply Hld; split; [done|congruence]|..]; rewrite load_slot; by rewrite decide_False.
  - intros k' Hk'. unfold state_ptr in *. rewrite Es in Hk'. by apply lookup_insert_None in Hk' as [? _].
Qed.

Lemma apply_rows_inv cap m gens ps l :
  (∀ k s, 0 <= cap k s) → binv cap l m → Forall row_ok ps → NoDup (map spent_identity ps) →
  (∀ p, p ∈ ps → money_wf (ps_spent p) ∧ micros (ps_spent p) <= cap (ps_keyID p) (row_slot p) ∧ unloaded l p ∧
     (isZeroMoney (ps_spent p) = false → state_ptr l (ps_keyID p) = None → default 0 (gens !! ps_keyID p) ≠ 0)) →
  binv cap (foldl (apply_pending gens) l ps) m.
Proof.
  intros Hcap. revert l. induction ps as [|p ps IH]; intros l Hi Hok Hnd Hp; [done|]. cbn [foldl].
  apply Forall_cons in Hok as [Hok1 Hok]. apply NoDup_cons in Hnd as [Hni Hnd].
  destruct (Hp p ltac:(set_solver)) as (Hw & Hc & Hun & Hg).
  destruct (apply_pending_inv cap l m gens p Hcap Hi Hok1 Hw Hc Hun Hg) as (Hi1 & Hun1 & Hptr).
  apply IH; try done. intros q Hq. destruct (Hp q ltac:(set_solver)) as (Hqw & Hqc & Hqun & Hqg). split; [done|]. split; [done|]. split.
  - apply Hun1; [by eapply Forall_forall| |done]. intros E. apply Hni. rewrite <-E. by apply list_elem_of_fmap_2.
  - intros Hz Hnone. apply Hqg; auto.
Qed.

Lemma generations_nonzero current order k :
  0 <= current → k ∈ order → default 0 (generations_of current order !! k) ≠ 0.
Proof.
  intros Hc Hk. unfold generations_of. set (xs := imap _ order).
  destruct ((list_to_map xs : gmap string Z) !! k) as [v|] eqn:E.
  - apply elem_of_list_to_map_2 in E. apply elem_of_lookup_imap in E as (i & x & [= _ ->] & _). simpl. lia.
  - exfalso. apply not_elem_of_list_to_map in E. apply E. apply list_elem_of_lookup in Hk as [i Hi].
    apply list_elem_of_fmap. exists (k, current + Z.of_nat i + 1). split; [done|]. apply elem_of_lookup_imap. eauto.
Qed.

Lemma load_inv cap l m order values :
  (∀ k s, 0 <= cap k s) → binv cap l m → bcall_ok (CLoad order values) → call_within cap (CLoad order values) →
  binv cap (BudgetLimiter_LoadSpent order values l).2 m.
Proof.
  intros Hcap Hi [Hord Hw] Hc. unfold BudgetLimiter_LoadSpent. destruct (pendingLoop values []) as [ps|] eqn:EP; [|done].
  destruct (pendingLoop_spec _ _ _ EP) as (Eps & Hok & Hnd & _).
  destruct (negb (states_valid l)); [done|]. destruct (existsb (already_loaded l) ps) eqn:EA; [done|]. cbv zeta.
  case_match; [done|]. cbn [snd]. pose proof (bi_seq _ _ _ Hi) as Hseq. apply apply_rows_inv; try done.
  { eapply limiter_frame; try done; [apply (bi_time _ _ _ Hi)|]. simpl. lia. }
  intros p Hp. assert (Hpok : row_ok p) by (by eapply Forall_forall). split_and!.
  - rewrite Eps in Hp. apply list_elem_of_omap in Hp as (v & Hv & Ev). destruct (pending_row_ok v p Ev) as [_ ->].
    rewrite Forall_forall in Hw. by apply Hw.
  - apply Hc. by rewrite <-Eps.
  - apply (already_loaded_spec l); [done|]. destruct (already_loaded l p) eqn:E; [|done].
    rewrite (proj2 (existsb_exists _ _)) in EA; [done|]. exists p. split; [by apply list_elem_of_In|done].
  - intros Hz Hnone. apply generations_nonzero; [done|]. apply Hord. unfold newKeys. apply elem_of_list_to_set, list_elem_of_fmap.
    exists p. split; [done|]. by apply list_elem_of_filter.
Qed.

(** *** The other calls *)

Lemma replace_inv cap l m k old new (commit : option (option unit)) :
  binv cap l m → binv cap (BudgetLimiter_ReplacePolicy k old new commit l).2 m.
Proof.
  intros Hi. unfold BudgetLimiter_ReplacePolicy.
  destruct (negb (validKeyID k) || negb (validPolicy old) || negb (validPolicy new)) eqn:Ev; [done|].
  apply orb_false_iff in Ev as [_ Hnew]. apply negb_false_iff in Hnew.
  destruct (match bl_policies l !! k with Some _ => _ | None => _ end); [done|].
  set (l1 := set_policies _ l).
  assert (Hi1 : binv cap l1 m) by (eapply limiter_frame; [exact Hi|done..|apply (bi_time _ _ _ Hi)|apply (bi_seq _ _ _ Hi)]).
  assert (Hres : binv cap (match state_ptr l1 k with
               | Some p => match bl_heap l1 !! p with
                           | Some st => set_state p (applyBudgetPolicyLocked new st) l1 | None => l1 end
               | None => l1 end) m).
  { destruct (state_ptr l1 k) as [p|] eqn:Ep; [|done]. destruct (bl_heap l1 !! p) as [st|] eqn:Est; [|done].
    pose proof (bi_ok _ _ _ Hi1 k p st Ep Est) as Hg.
    eapply (update_inv cap l1 m _ m k p (applyBudgetPolicyLocked new st) Hi1); try done.
    - by left.
    - by left.
    - destruct Hg as [G1 G2 G3 _ G5]. constructor; try done.
      + unfold validPolicy in Hnew. unfold limits_known. simpl.
        destruct (Bool.eqb_spec (Limited new) (validKnownMoney (Total new))) as [E1|]; [|done].
        destruct (Bool.eqb_spec (DayLimited new) (validKnownMoney (Day new))) as [E2|]; [|done].
        simpl in Hnew. apply Bool.eqb_prop in Hnew. split_and!; congruence.
      + simpl. intros [E _]%orb_false_iff. auto.
    - intros j x q Hj Hfx Hs. destruct (decide (q = p)) as [-> |]; [right|by left]. split; [done|].
      by apply (same_state cap l1 m j x k p st Hi1).
    - intros j x Hj. by eapply money_of.
    - apply (bi_time _ _ _ Hi1).
    - apply (bi_seq _ _ _ Hi1). }
  by destruct commit as [ [e|]|].
Qed.

Lemma call_overshoot_nonneg c w k s : 0 <= call_overshoot c w k s.
Proof. destruct c; simpl; repeat case_match; lia. Qed.

(** Every call keeps the invariant, with room for what it charged above the
    reservations. *)
Lemma bcall_inv cap c l m :
  (∀ k s, 0 <= cap k s) → bcall_ok c → call_within cap c → binv cap l m →
  let w' := bcall_step c (mkBWorld l m) in
  binv (λ k s, cap k s + call_overshoot c (mkBWorld l m) k s) (bw_limiter w') (bw_reservations w').
Proof.
  intros Hcap Hok Hw Hi.
  assert (Hover : ∀ k s, cap k s <= cap k s + call_overshoot c (mkBWorld l m) k s).
  { intros k s. pose proof (call_overshoot_nonneg c (mkBWorld l m) k s). lia. }
  assert (Hkeep : ∀ l' m', binv cap l' m' → binv (λ k s, cap k s + call_overshoot c (mkBWorld l m) k s) l' m').
  { intros l' m'. by apply binv_mono. }
  destruct c as [clk k policy cand|i kind actual def|i actual|i|k policy|k old new commit|clk reset|b|order values]; cbn [bcall_step].
  - destruct Hok as (H1 & H2 & H3). destruct (BudgetLimiter_Reserve clk k policy cand l) as [r l'] eqn:E. simpl. apply Hkeep.
    by eapply b_Reserve_inv.
  - destruct (m !! i) as [r|] eqn:Em; [|by apply Hkeep]. destruct (finalizeInternal kind actual def r l) as [ [e r'] l'] eqn:E. simpl.
    eapply final_inv; try done. intros s res Hf Hc Hr. simpl. rewrite Em, Hf, Hc, bool_decide_true, E by done. simpl. rewrite Hr. lia.
  - destruct (m !! i) as [r|] eqn:Em; [|by apply Hkeep]. destruct (br_ticket r) as [t|] eqn:Et; [|by apply Hkeep].
    destruct (BudgetTicket_Adjust actual t l) as [ [e t'] l'] eqn:E. simpl.
    eapply b_adjust_inv; try done. intros s Hcs Hc. simpl. rewrite Em. simpl. rewrite Et, Hcs, Hc, bool_decide_true by done. simpl. lia.
  - apply Hkeep. simpl. destruct (m !! i) as [r|] eqn:Em.
    + destruct (br_ticket r) as [t|] eqn:Et.
      * replace (alter _ i m) with (<[i := with_bticket (BudgetTicket_Invalidate t) r]> m);
          [by eapply (ticket_frame cap l m i r t)|].
        apply map_eq. intros j. destruct (decide (j = i)) as [-> |].
        -- rewrite lookup_insert_eq, lookup_alter_eq, Em. simpl. by rewrite Et.
        -- by rewrite lookup_insert_ne, lookup_alter_ne.
      * rewrite alter_id; [done|]. intros x Hx. rewrite Em in Hx. injection Hx as <-. by rewrite Et.
    + rewrite alter_id; [done|]. intros x Hx. congruence.
  - apply Hkeep. simpl. unfold BudgetLimiter_RegisterPolicy. case_match; [done|].
    eapply limiter_frame; try done; [apply (bi_time _ _ _ Hi)|apply (bi_seq _ _ _ Hi)].
  - apply Hkeep. by apply replace_inv.
  - apply Hkeep. simpl. unfold BudgetLimiter_RetryAfterSeconds. pose proof (nowTime_inv cap l m clk Hi Hok) as H.
    by destruct (BudgetLimiter_nowTime clk l).
  - apply Hkeep. eapply limiter_frame; try done; [apply (bi_time _ _ _ Hi)|apply (bi_seq _ _ _ Hi)].
  - apply Hkeep. by apply load_inv.
Qed.

Lemma bstart_inv cap : binv cap NewBudgetLimiter ∅.
Proof. constructor; simpl; try done. by left. Qed.

Lemma call_within_mono cap cap' c : (∀ k s, cap k s <= cap' k s) → call_within cap c → call_within cap' c.
Proof.
  intros Hc. destruct c; simpl; try done.
  - intros Hw ds ms s lim Hl. specialize (Hw ds ms s lim Hl). specialize (Hc keyID s). lia.
  - intros Hw p Hp. specialize (Hw p Hp). specialize (Hc (ps_keyID p) (row_slot p)). lia.
Qed.

Lemma brun_inv cap calls w :
  (∀ k s, 0 <= cap k s) → Forall bcall_ok calls → Forall (call_within cap) calls → binv cap (bw_limiter w) (bw_reservations w) →
  binv (λ k s, cap k s + overshoot calls w k s) (bw_limiter (brun calls w)) (bw_reservations (brun calls w)).
Proof.
  revert cap w. induction calls as [|c calls IH]; intros cap [l m] Hcap Hok Hw Hi; simpl.
  { eapply binv_mono; [|exact Hi]. intros; lia. }
  apply Forall_cons in Hok as [Hok1 Hok]. apply Forall_cons in Hw as [Hw1 Hw].
  pose proof (bcall_inv cap c l m Hcap Hok1 Hw1 Hi) as Hi1. cbv zeta in Hi1.
  assert (Hmono : ∀ k s, cap k s <= cap k s + call_overshoot c (mkBWorld l m) k s).
  { intros k s. pose proof (call_overshoot_nonneg c (mkBWorld l m) k s). lia. }
  eapply binv_mono; [|eapply (IH (λ k s, cap k s + call_overshoot c (mkBWorld l m) k s)); [|done| |exact Hi1] ].
  - intros k s. simpl. lia.
  - intros k s. specialize (Hmono k s). specialize (Hcap k s). lia.
  - eapply Forall_impl; [exact Hw|]. intros x. by apply call_within_mono.
Qed.

(** Every amount is representable, so this bound never fails. *)
Definition topcap (k : string) (s : slot) : Z := 2 * MaxMoneyMicros.

Lemma topcap_pos k s : 0 <= topcap k s.
Proof. unfold topcap, MaxMoneyMicros, maxInt64. lia. Qed.

Lemma binv_top cap l m : binv cap l m → binv topcap l m.
Proof.
  intros [H1 H2 H3 H4 H5 H6 H7 H8]. constructor; try done. intros k p st Hp Hs. destruct (H3 k p st Hp Hs) as [G1 G2 G3 G4 G5].
  constructor; try done. intros s v Hv. destruct (G1 s v Hv) as [?|(a & b & ? & Ha & Hb & ? & ? & ?)]; [by left|right].
  exists a, b. split_and!; try done. unfold topcap, amount_range in *. lia.
Qed.

Lemma call_within_top c : bcall_ok c → call_within topcap c.
Proof.
  destruct c as [clk k policy cand| | | | | | | |order values]; simpl; try done.
  - intros (_ & (H1 & H2 & H3) & _) ds ms s lim Hl. unfold topcap.
    assert (Hm : ∀ x, money_wf x → micros x <= MaxMoneyMicros).
    { intros x. unfold money_wf, MaxMoneyMicros, maxInt64. destruct (known x); lia. }
    apply Hm in H1, H2, H3. pose proof topcap_pos k s. unfold topcap in *. destruct s; simpl in Hl; repeat case_match; simplify_eq; lia.
  - intros [_ Hw] p Hp. apply list_elem_of_omap in Hp as (v & Hv & Ev). destruct (pending_row_ok v p Ev) as [_ ->].
    rewrite Forall_forall in Hw. specialize (Hw v Hv). unfold money_wf in Hw. pose proof topcap_pos "" STotal. unfold topcap in *.
    destruct (known (bs_Spent v)); lia.
Qed.

Lemma bstep_inv w w' : bstep w w' → binv topcap (bw_limiter w) (bw_reservations w) → binv topcap (bw_limiter w') (bw_reservations w').
Proof.
  intros (c & Hok & ->) Hi. destruct w as [l m]. eapply binv_top, bcall_inv; try done; [apply topcap_pos|by apply call_within_top].
Qed.

Lemma breachable_inv w : breachable w → binv topcap (bw_limiter w) (bw_reservations w).
Proof.
  unfold breachable. intros Hr.
  assert (Hgen : ∀ w w', rtc bstep w w' → binv topcap (bw_limiter w) (bw_reservations w) → binv topcap (bw_limiter w') (bw_reservations w')).
  { induction 1; [done|]. eauto using bstep_inv. }
  apply (Hgen _ _ Hr). apply bstart_inv.
Qed.

(** Runs of calls are the paths of the transition system. *)
Lemma brun_reachable calls : Forall bcall_ok calls → breachable (brun calls bstart).
Proof.
  assert (Hgen : ∀ calls w, Forall bcall_ok calls → rtc bstep w (brun calls w)).
  { clear calls. induction calls as [|c calls IH]; intros w Hok; [done|]. apply Forall_cons in Hok as [? ?].
    eapply rtc_l; [by exists c|]. by apply IH. }
  apply Hgen.
Qed.

Lemma breachable_run w : breachable w → ∃ calls, Forall bcall_ok calls ∧ w = brun calls bstart.
Proof.
  unfold breachable. generalize bstart. induction 1 as [w|w1 w2 w3 (c & Hok & ->) _ (calls & Hc & ->)]; [by exists []|].
  exists (c :: calls). split; [by constructor|done].
Qed.

End growth.

(** ** How a call changes the state of a key *)

Definition lossless (st : budgetState) : Prop := ∀ s, slot_val st s ≠ Some lost.

Lemma good_lossless ow st : state_good ow st → lossless st.
Proof. intros Hg s Hs. destruct (sg_val _ _ Hg s _ _ Hs) as (a & b & ? & _). done. Qed.

Lemma valid_lossless st : validateBudgetState st = None → lossless st.
Proof. intros Hv s Hs. by destruct (valid_slot st s _ _ Hv Hs) as (? & _). Qed.

(** The changes: none; amounts kept; the limiter's own check passed and the new
    amounts are known; or an adjustment, which does not make that check. *)
Inductive evolves (c : bcall) (w : bworld) (k : string) : option budgetState → option budgetState → Prop :=
| ev_same o : evolves c w k o o
| ev_amounts st st' : (∀ s, slot_val st' s = slot_val st s) → evolves c w k (Some st) (Some st')
| ev_checked o o' :
    (∀ st, o = Some st → validateBudgetState st = None) → (∀ st', o' = Some st' → lossless st') → evolves c w k o o'
| ev_adjusted i actual r t st aj :
    c = CAdjust i actual → bw_reservations w !! i = Some r → br_ticket r = Some t → bt_keyID t = k → bt_consumed t = false →
    validKnownMoney actual = true → adjust_amounts t actual st = inr aj → aj_ok aj = true →
    evolves c w k (Some st) (if state_idle (adjust_state t st aj) then None else Some (adjust_state t st aj)).

Section evolution.
Context (cap : string → slot → Z).

Lemma state_of_eq l l' k : bl_states l' !! (shard k, k) = bl_states l !! (shard k, k) → bl_heap l' = bl_heap l → state_of l' k = state_of l k.
Proof. intros E1 E2. unfold state_of, state_ptr. by rewrite E1, E2. Qed.

(** Writing the state of one key leaves the others alone. *)
Lemma state_of_other l m l' k p st' k' :
  binv cap l m → (∀ e, e ≠ (shard k, k) → bl_states l' !! e = bl_states l !! e) → bl_heap l' = <[p := st']> (bl_heap l) →
  bl_states l !! (shard k, k) = Some p ∨ bl_heap l !! p = None → k' ≠ k → state_of l' k' = state_of l k'.
Proof.
  intros Hi Es Eh Hp Hne. unfold state_of, state_ptr. rewrite Es by congruence.
  destruct (bl_states l !! (shard k', k')) as [q|] eqn:Eq; [|done]. simpl. rewrite Eh, lookup_insert_ne; [done|]. intros <-.
  destruct Hp as [Hp|Hp].
  - pose proof (bi_inj _ _ _ Hi _ _ _ Eq Hp). congruence.
  - destruct (bi_link _ _ _ Hi _ _ Eq) as [_ [x Hx] ]. congruence.
Qed.

Lemma state_of_here l l' k p st' :
  bl_states l' !! (shard k, k) = Some p → bl_heap l' = <[p := st']> (bl_heap l) → state_of l' k = Some st'.
Proof. intros Es Eh. unfold state_of, state_ptr. rewrite Es. simpl. by rewrite Eh, lookup_insert_eq. Qed.

(** The limiter after pruning. *)
Lemma pruned_state l m clk k ds ms :
  binv cap l m → clock_range clk →
  let st0 := prune ds ms <$> state_of l k in
  state_of (pruned_limiter clk k st0 l) k = st0 ∧ ∀ k', k' ≠ k → state_of (pruned_limiter clk k st0 l) k' = state_of l k'.
Proof.
  intros Hi Hc st0. pose proof (nowTime_inv cap l m clk Hi Hc) as Hi1.
  pose proof (nowTime_states clk l) as Es. pose proof (nowTime_heap clk l) as Eh.
  unfold pruned_limiter. cbv zeta. set (l1 := (BudgetLimiter_nowTime clk l).2) in *.
  assert (Hsame : ∀ k', state_of l1 k' = state_of l k') by (intros k'; by apply state_of_eq; rewrite ?Es).
  assert (Ep : state_ptr l1 k = state_ptr l k) by (unfold state_ptr; by rewrite Es). rewrite Ep. unfold st0.
  destruct (state_ptr l k) as [p|] eqn:Ek.
  - destruct (bi_link _ _ _ Hi _ _ Ek) as [_ [st Hst] ]. assert (Hs : state_of l k = Some st) by (unfold state_of; rewrite Ek; exact Hst).
    rewrite Hs. simpl. split.
    + eapply (state_of_here l1); [exact Ep|done].
    + intros k' Hne. rewrite <-Hsame. eapply (state_of_other l1 m); try done. left. exact Ep.
  - assert (Hs : state_of l k = None) by (unfold state_of; by rewrite Ek). rewrite Hs. simpl. split; [by rewrite Hsame|done].
Qed.

Lemma reserves_lossless policy ds ms c st0 st' ow :
  (∀ st, st0 = Some st → state_good ow st) → reserves policy ds ms c st0 st' → lossless st'.
Proof.
  intros Hg HR s Hs. rewrite HR in Hs. destruct (limit_of policy ds ms s); [done|]. destruct st0 as [st|].
  - by apply (good_lossless ow st (Hg st eq_refl) s).
  - destruct s; done.
Qed.

Lemma Reserve_evolves c w l m clk k policy candidate k' :
  binv cap l m → clock_range clk → policy_wf policy → money_wf candidate →
  evolves c w k' (state_of l k') (state_of (BudgetLimiter_Reserve clk k policy candidate l).2 k').
Proof.
  intros Hi Hc Hwf Hcw. destruct (BudgetLimiter_Reserve clk k policy candidate l) as [res l'] eqn:HR. cbn [snd].
  destruct (negb (validKeyID k) || negb (validKnownMoney candidate) || negb (validPolicy policy)) eqn:Ev.
  { unfold BudgetLimiter_Reserve in HR. rewrite Ev in HR. simplify_eq. constructor. }
  apply orb_false_iff in Ev as [Ev Hpol]. apply orb_false_iff in Ev as [Hk Hkc]. apply negb_false_iff in Hk, Hpol, Hkc.
  destruct (BudgetLimiter_PolicyCurrent k policy l) eqn:Ecur.
  2:{ unfold BudgetLimiter_Reserve in HR. rewrite Hk, Hkc, Hpol, Ecur in HR. simpl in HR. simplify_eq. constructor. }
  destruct (state_of l k ≫= validateBudgetState) as [e|] eqn:Evs.
  { apply bind_Some in Evs as (st & Hs & Hv). rewrite (Reserve_refused clk k policy candidate l st e) in HR by done. simplify_eq. constructor. }
  destruct (validKnownMoney_spec candidate Hkc Hcw) as [Ecand Hcr]. set (n := micros candidate) in *. clearbody n. subst candidate.
  assert (Hlink : ∀ p, state_ptr l k = Some p → is_Some (bl_heap l !! p)) by (intros p Hp; by apply (bi_link _ _ _ Hi _ _ Hp)).
  set (ow := match state_ptr l k with Some p => owed m p | None => λ _, 0 end).
  assert (Hvalid : ∀ st, state_of l k = Some st → validateBudgetState st = None) by (intros st Hs; by rewrite Hs in Evs).
  assert (Hgood : ∀ st, state_of l k = Some st → state_good ow st).
  { intros st Hs. pose proof (Hvalid st Hs). unfold state_of in Hs. unfold ow. destruct (state_ptr l k) as [p|] eqn:Ep; [|done].
    eapply ok_valid_good; [by apply (bi_ok _ _ _ Hi k p)|done]. }
  pose proof (Reserve_spec ow clk k policy n l Hk Hcr Hpol Hwf Hlink Hgood Ecur) as HS.
  destruct (mismatch l k policy); [rewrite HR in HS; simplify_eq; constructor|].
  destruct (unlimited policy) eqn:Eun; [rewrite HR in HS; simplify_eq; constructor|].
  set (ds := currentDay (BudgetLimiter_nowTime clk l).1) in *. set (ms := currentMonth ds) in *.
  destruct (pruned_state l m clk k ds ms Hi Hc) as [Hp1 Hp2]. pose proof (pruned_inv cap l m clk k ds ms Hi Hc) as Hi0.
  assert (Hg0 : ∀ st, prune ds ms <$> state_of l k = Some st → state_good ow st) by exact (st0_good ow clk k l Hgood).
  pose proof (pruned_ptr clk k l) as [Eptr _]. fold ds ms in Eptr.
  set (st0 := prune ds ms <$> state_of l k) in *. set (l0 := pruned_limiter clk k st0 l) in *.
  assert (Hl0 : evolves c w k' (state_of l k') (state_of l0 k')).
  { destruct (decide (k' = k)) as [-> |Hne]; [|rewrite Hp2 by done; constructor]. rewrite Hp1. apply ev_checked; [done|].
    intros st Hst. by eapply good_lossless, Hg0. }
  (* the state of [k] written with new reserved amounts *)
  assert (Hwritten : ∀ p st', bl_heap l' = <[p := st']> (bl_heap l0) → (∀ e, e ≠ (shard k, k) → bl_states l' !! e = bl_states l0 !! e) →
     bl_states l' !! (shard k, k) = Some p → bl_states l0 !! (shard k, k) = Some p ∨ bl_heap l0 !! p = None →
     reserves policy ds ms n st0 st' → evolves c w k' (state_of l k') (state_of l' k')).
  { intros p st' Eh Es Ek Hold HRs. destruct (decide (k' = k)) as [-> |Hne].
    - rewrite (state_of_here l0 l' k p st' Ek Eh). apply ev_checked; [done|]. intros x [= <-].
      by apply (reserves_lossless policy ds ms n st0 st' ow).
    - rewrite (state_of_other l0 m l' k p st' k' Hi0 Es Eh Hold Hne), Hp2 by done. constructor. }
  destruct (decision policy ds ms st0 n); [rewrite HR in HS; by simplify_eq|].
  destruct (n =? 0); [rewrite HR in HS; by simplify_eq|].
  pose proof (state_ptr_of k l Hlink) as Hsp. destruct (state_ptr l k) as [p|] eqn:Ep; [destruct st0 as [st|] eqn:Est0|].
  - destruct HS as (st' & E & HRs & _). rewrite HR in E. simplify_eq. apply (Hwritten p st'); try done. by left.
  - exfalso. destruct Hsp as (x & Hx & _). unfold st0 in Est0. by rewrite Hx in Est0.
  - cbv zeta in HS. case_match.
    + rewrite HR in HS. simplify_eq. exact Hl0.
    + destruct HS as (st' & E & HRs & _). rewrite HR in E. simplify_eq. apply (Hwritten (fresh (dom (bl_heap l0))) st'); try done.
      * intros e Hne. simpl. by rewrite lookup_insert_ne.
      * simpl. by rewrite lookup_insert_eq.
      * right. apply not_elem_of_dom, is_fresh.
Qed.

(** A state written back and unlinked when idle. *)
Lemma state_of_retire l m k p st' k' :
  binv cap l m → state_ptr l k = Some p →
  state_of (retire k st' (set_state p st' l)) k' =
    if decide (k' = k) then (if state_idle st' then None else Some st') else state_of l k'.
Proof.
  intros Hi Hp. case_decide as Ek.
  - subst k'. unfold retire, state_of, state_ptr in *. destruct (state_idle st'); simpl; [by rewrite lookup_delete_eq|].
    rewrite Hp. simpl. by rewrite lookup_insert_eq.
  - eapply (state_of_other l m _ k p st'); try done; [|by unfold retire; case_match|by left].
    intros e Hne. unfold retire. case_match; simpl; [by rewrite lookup_delete_ne|done].
Qed.

Lemma settles_lossless r n c ow st st' : state_good ow st → settles r n c st st' → lossless st'.
Proof.
  intros Hg HS s Hs. rewrite HS in Hs. destruct (captures r s).
  - apply fmap_Some in Hs as (v & _ & ?). done.
  - by apply (good_lossless ow st Hg s).
Qed.

Lemma final_evolves c w l m i r kind actual deferred k' :
  binv cap l m → m !! i = Some r → money_wf actual →
  evolves c w k' (state_of l k') (state_of (finalizeInternal kind actual deferred r l).2 k').
Proof.
  intros Hi Hm Hwf. unfold finalizeInternal. destruct (br_finalized r) eqn:Ef; [constructor|].
  destruct (settleReservation r kind actual deferred l) as [ [ [res deltas] ticket] l1] eqn:ES. cbn [snd].
  destruct (notify_frame l1 deltas) as (Nh & Ns & _ & _). rewrite (state_of_eq l1 (foldl _ _ _) k') by (by rewrite ?Ns).
  pose proof (unfinalized_held r Ef) as Hf. destruct (br_state r) as [p|] eqn:Es.
  - destruct (bi_res _ _ _ Hi i r p Hm Hf Es) as (n & st & Hh & Hp & Hst & Hgen & _).
    destruct (validateBudgetState st) as [e|] eqn:Hv.
    { rewrite (settle_refused r kind actual deferred l p n st e Hh Hp Hst Hgen Hv) in ES. injection ES as <- <- <- <-. constructor. }
    pose proof (ok_valid_good _ _ st (bi_ok _ _ _ Hi _ p st Hp Hst) Hv) as Hg.
    destruct (settle_good (owed m p) r p n st Hg Hh (λ s, owed_holds m i r p n s Hm Hf Hh) l kind actual deferred _ _ Hp Hst Hgen Hwf eq_refl eq_refl)
      as (st' & res' & E & _ & _ & _ & HS & _). rewrite ES in E. injection E as -> -> -> ->.
    rewrite (state_of_retire l m) by done. case_decide as Ek; [|constructor]. subst k'.
    apply ev_checked.
    + intros x Hx. unfold state_of in Hx. rewrite Hp in Hx. simpl in Hx. congruence.
    + intros x Hx. destruct (state_idle st'); [done|]. injection Hx as <-. by eapply settles_lossless.
  - unfold settleReservation in ES. rewrite Es in ES.
    destruct (match kind with BudgetSettlementKnown => _ | _ => _ end) as [k0 e0]. injection ES as <- <- <- <-. constructor.
Qed.

Lemma adjust_evolves w l m i r t actual k' :
  w = mkBWorld l m → binv cap l m → m !! i = Some r → br_ticket r = Some t →
  evolves (CAdjust i actual) w k' (state_of l k') (state_of (BudgetTicket_Adjust actual t l).2 k').
Proof.
  intros -> Hi Hm Et. unfold BudgetTicket_Adjust. destruct (bt_consumed t) eqn:Ec; [constructor|].
  destruct (validKnownMoney actual) eqn:Ev; cbn [negb]; [|constructor].
  destruct (negb (bt_limiter t) || _ || _); [constructor|].
  destruct (state_ptr l (bt_keyID t)) as [p|] eqn:Ep; [|constructor].
  destruct (bl_heap l !! p) as [st|] eqn:Est; [|constructor].
  destruct (negb (generation st =? _) || _ || _); [constructor|].
  destruct (adjust_amounts t actual st) as [e|aj] eqn:Eaj; [constructor|]. cbn [snd].
  set (l1 := if aj_ok aj then _ else l).
  assert (Hst : state_of l (bt_keyID t) = Some st) by (unfold state_of; rewrite Ep; exact Est).
  assert (Hl1 : evolves (CAdjust i actual) (mkBWorld l m) k' (state_of l k') (state_of l1 k')).
  { unfold l1. destruct (aj_ok aj) eqn:Eok; [|constructor]. set (st' := adjust_state t st aj).
    assert (E1 : state_of (if state_idle st' then drop_ptr (bt_keyID t) (set_state p st' l)
              else if negb (aj_delta aj =? 0) then put_ptr (bt_keyID t) p (set_state p st' l) else set_state p st' l) k'
            = state_of (retire (bt_keyID t) st' (set_state p st' l)) k').
    { unfold retire. destruct (state_idle st'); [done|]. destruct (aj_delta aj =? 0); [done|]. apply state_of_eq; [|done]. simpl.
      destruct (decide (k' = bt_keyID t)) as [-> |]; [by rewrite lookup_insert_eq|by rewrite lookup_insert_ne by congruence]. }
    rewrite E1, (state_of_retire l m) by done. case_decide as Ek; [|constructor]. subst k'. rewrite Hst.
    by eapply ev_adjusted. }
  assert (Hstep : ∀ (b s : bool) d l2, state_of (if b then notifyBudgetDelta s d l2 else l2) k' = state_of l2 k').
  { intros b s d l2. destruct b; [|done]. destruct (notify_one s d l2) as (Eh & Es & _). apply state_of_eq; [by rewrite Es|done]. }
  by rewrite !Hstep.
Qed.

Definition live_lossless (l : BudgetLimiter) : Prop :=
  (∀ k ptr, state_ptr l k = Some ptr → is_Some (bl_heap l !! ptr)) ∧ ∀ k st, state_of l k = Some st → lossless st.

Lemma load_lossless p st : row_ok p → lossless st → lossless (load_bucket p st).
Proof.
  intros [Hm _ _] Hl s Hs. rewrite load_slot in Hs. case_decide; [|by apply (Hl s)]. injection Hs as E _. by rewrite E in Hm.
Qed.

Lemma apply_rows_lossless gens ps l : live_lossless l → Forall row_ok ps → live_lossless (foldl (apply_pending gens) l ps).
Proof.
  intros Hl Hok. revert l Hl. induction Hok as [|p ps Hp _ IH]; intros l [Hlink Hl]; [done|]. cbn [foldl]. apply IH.
  destruct (isZeroMoney (ps_spent p)) eqn:Ez; [unfold apply_pending; by rewrite Ez|].
  destruct (apply_row gens l p (Hlink _) Ez) as (ptr & st & Eh & Es & _ & _ & Hcase).
  assert (Hst : lossless st).
  { destruct Hcase as [ [H1 H2]|(_ & _ & ->)]; [|intros []; done]. apply (Hl (ps_keyID p)). unfold state_of. rewrite H1. exact H2. }
  split.
  - intros k q. unfold state_ptr. rewrite Es, Eh. intros [ [_ <-]|[_ Hq] ]%lookup_insert_Some; [rewrite lookup_insert_eq; eauto|].
    destruct (decide (ptr = q)) as [-> |]; [rewrite lookup_insert_eq; eauto|rewrite lookup_insert_ne by done; by eapply Hlink].
  - intros k x. unfold state_of, state_ptr. rewrite Es, Eh. intros (q & Hq & Hx)%bind_Some.
    apply lookup_insert_Some in Hx as [ [_ <-]|[Hne Hx] ]; [by apply load_lossless|].
    apply lookup_insert_Some in Hq as [ [_ <-]|[_ Hq] ]; [done|]. apply (Hl k). unfold state_of, state_ptr. rewrite Hq. exact Hx.
Qed.

Lemma load_evolves c w l m order values k' :
  binv cap l m → evolves c w k' (state_of l k') (state_of (BudgetLimiter_LoadSpent order values l).2 k').
Proof.
  intros Hi. unfold BudgetLimiter_LoadSpent. destruct (pendingLoop values []) as [ps|] eqn:EP; [|constructor].
  destruct (pendingLoop_spec _ _ _ EP) as (_ & Hok & _). destruct (states_valid l) eqn:EV; [|constructor]. cbn [negb].
  destruct (existsb (already_loaded l) ps); [constructor|]. cbv zeta. case_match; [constructor|]. cbn [snd].
  assert (Hvalid : ∀ k st, state_of l k = Some st → validateBudgetState st = None).
  { intros k st (p & Hp & Hst)%bind_Some. unfold states_valid in EV.
    apply (proj1 (forallb_forall _ _)) with (x := ((shard k, k), p)) in EV; [|by apply list_elem_of_In, elem_of_map_to_list].
    simpl in EV. rewrite Hst in EV. apply andb_true_iff in EV as [_ EV]. by destruct (validateBudgetState st). }
  apply ev_checked; [by apply Hvalid|]. apply (apply_rows_lossless _ _ _); [|done]. split.
  - intros k p Hp. by apply (bi_link _ _ _ Hi _ _ Hp).
  - intros k st Hst. by apply valid_lossless, (Hvalid k).
Qed.

Lemma replace_evolves c w l m k old new (commit : option (option unit)) k' :
  binv cap l m → evolves c w k' (state_of l k') (state_of (BudgetLimiter_ReplacePolicy k old new commit l).2 k').
Proof.
  intros Hi. unfold BudgetLimiter_ReplacePolicy. destruct (_ || _); [constructor|].
  destruct (match bl_policies l !! k with Some _ => _ | None => _ end); [constructor|].
  assert (Hgo : evolves c w k' (state_of l k') (state_of (match state_ptr (set_policies (<[k := new]> (bl_policies l)) l) k with
      | Some p => match bl_heap (set_policies (<[k := new]> (bl_policies l)) l) !! p with
                  | Some st => set_state p (applyBudgetPolicyLocked new st) (set_policies (<[k := new]> (bl_policies l)) l)
                  | None => set_policies (<[k := new]> (bl_policies l)) l end
      | None => set_policies (<[k := new]> (bl_policies l)) l end) k')).
  { change (state_ptr (set_policies _ l) k) with (state_ptr l k). cbn [bl_heap set_policies].
    destruct (state_ptr l k) as [p|] eqn:Ep; [|constructor]. destruct (bl_heap l !! p) as [st|] eqn:Est; [|constructor].
    destruct (decide (k' = k)) as [-> |Hne].
    - assert (Hs : state_of l k = Some st) by (unfold state_of; rewrite Ep; exact Est). rewrite Hs.
      match goal with |- evolves _ _ _ _ (state_of ?x k) => rewrite (state_of_here l x k p (applyBudgetPolicyLocked new st) Ep eq_refl) end.
      by apply ev_amounts.
    - match goal with |- evolves _ _ _ _ (state_of ?x k') =>
        rewrite (state_of_other l m x k p (applyBudgetPolicyLocked new st) k' Hi) by (done || by left) end. constructor. }
  by destruct commit as [ [e|]|]; [constructor|..].
Qed.

Lemma bcall_evolves c l m k :
  binv cap l m → bcall_ok c →
  evolves c (mkBWorld l m) k (state_of l k) (state_of (bw_limiter (bcall_step c (mkBWorld l m))) k).
Proof.
  intros Hi Hok.
  destruct c as [clk kk policy cand|i kind actual def|i actual|i|kk policy|kk old new commit|clk reset|b|order values]; cbn [bcall_step].
  - destruct Hok as (H1 & H2 & H3). pose proof (Reserve_evolves (CReserve clk kk policy cand) (mkBWorld l m) l m clk kk policy cand k Hi H1 H2 H3) as HE.
    by destruct (BudgetLimiter_Reserve clk kk policy cand l).
  - destruct (m !! i) as [r|] eqn:Em; [|constructor].
    pose proof (final_evolves (CSettle i kind actual def) (mkBWorld l m) l m i r kind actual def k Hi Em Hok) as HE.
    by destruct (finalizeInternal kind actual def r l) as [ [? ?] ?].
  - destruct (m !! i) as [r|] eqn:Em; [|constructor]. destruct (br_ticket r) as [t|] eqn:Et; [|constructor].
    pose proof (adjust_evolves (mkBWorld l m) l m i r t actual k eq_refl Hi Em Et) as HE.
    by destruct (BudgetTicket_Adjust actual t l) as [ [? ?] ?].
  - constructor.
  - simpl. unfold BudgetLimiter_RegisterPolicy. case_match; constructor.
  - by eapply replace_evolves.
  - simpl. unfold BudgetLimiter_RetryAfterSeconds. pose proof (nowTime_states clk l). pose proof (nowTime_heap clk l).
    destruct (BudgetLimiter_nowTime clk l) as [now l1]. simpl in *. rewrite (state_of_eq l l1 k) by congruence. constructor.
  - constructor.
  - by eapply load_evolves.
Qed.

(** A lost account stays lost. *)
Lemma evolves_lost c w k st s o' ow :
  state_ok (cap k) ow st → bcall_ok c → evolves c w k (Some st) o' → slot_val st s = Some lost →
  (∀ i r t, bw_reservations w !! i = Some r → br_ticket r = Some t → money_wf (bt_reserved t)) →
  ∃ st', o' = Some st' ∧ slot_val st' s = Some lost.
Proof.
  intros Ho Hok HE Hs Htw. remember (Some st) as o eqn:Eo.
  destruct HE as [o|st1 st' Hsl|o o' Hv _|i actual r t st1 aj -> Hm Et Hk Hc Hva Haj Hajok].
  - exists st. by subst.
  - injection Eo as ->. exists st'. split; [done|]. by rewrite Hsl.
  - exfalso. by apply (valid_lossless st (Hv st Eo) s).
  - injection Eo as ->. simpl in Hok. destruct (validKnownMoney_spec actual Hva Hok) as [Ea Har].
    assert (Hres : bt_reserved t = mkMoney (micros (bt_reserved t)) true ∧ amount_range (micros (bt_reserved t))).
    { apply money_wf_known; [by eapply Htw|]. unfold adjust_amounts, Money_Compare in Haj. rewrite Ea in Haj. simpl in Haj.
      by destruct (known (bt_reserved t)). }
    destruct Hres as [Hres Hnr]. rewrite Ea in Haj.
    pose proof (adjust_slots _ _ t _ _ st aj s Ho Hres Har Hnr Haj Hajok) as HS. rewrite Hs in HS.
    assert (Hl : slot_val (adjust_state t st aj) s = Some lost).
    { destruct (tcaptures t s); [|done]. destruct HS as [ [_ ?]|(x & y & x' & ? & _)]; done. }
    exists (adjust_state t st aj). split; [|done].
    assert (state_idle (adjust_state t st aj) = false) as ->; [|done].
    destruct (state_idle (adjust_state t st aj)) eqn:Ei; [exfalso|done]. unfold state_idle in Ei.
    apply andb_true_iff in Ei as [Ei E4]. apply andb_true_iff in Ei as [Ei E3]. apply andb_true_iff in Ei as [E1 E2].
    apply Nat.eqb_eq in E3, E4. apply map_size_empty_inv in E3, E4. destruct s as [|d|d]; cbn [slot_val] in Hl.
    + injection Hl as E _. change (isZeroMoney (aj_spent aj) = true) in E1. by rewrite E in E1.
    + by rewrite E3 in Hl.
    + by rewrite E4 in Hl.
Qed.

End evolution.

Lemma lost_for_ever w w' k st s :
  binv topcap (bw_limiter w) (bw_reservations w) → rtc bstep w w' →
  state_of (bw_limiter w) k = Some st → slot_val st s = Some lost →
  ∃ st', state_of (bw_limiter w') k = Some st' ∧ slot_val st' s = Some lost.
Proof.
  intros Hi Hr. revert st Hi. induction Hr as [w|w1 w2 w3 Hstep _ IH]; intros st Hi Hs Hl; [eauto|].
  pose proof (bstep_inv w1 w2 Hstep Hi) as Hi2. destruct Hstep as (c & Hok & ->). destruct w1 as [l m]. simpl in *.
  pose proof (bcall_evolves topcap c l m k Hi Hok) as HE. rewrite Hs in HE.
  pose proof Hs as (p & Hp & Hst)%bind_Some.
  destruct (evolves_lost topcap c (mkBWorld l m) k st s _ (owed m p)
     (bi_ok _ _ _ Hi k p st Hp Hst) Hok HE Hl (λ i r t H1 H2, proj1 (bi_ticket _ _ _ Hi i r t H1 H2))) as (st' & E & Hl').
  by apply (IH st').
Qed.
