(* ===== verification/BudgetSafety.v ===== *)
(** * What the budget limiter promises

    Over every run of the transition system of [BudgetWorld]: the held amounts
    are exactly the reservations that were not returned, an account exceeds
    the limits it was admitted under only by the costs reported above the
    reservations, admission and settlement are exact on every branch, and the
    defects of [Adjust] after pruning. *)

From Stdlib Require Import Ascii ZArith Lia ZifyBool.
From stdpp Require Import prelude gmap strings list.
From S2P Require Import Prelude Text Money Windows Calendar BudgetLimiter BudgetAccounts BudgetWorld.
Local Open Scope Z_scope.

(** ** Honest runs *)

(** A reported cost stays within the reservation, and an adjustment to exactly
    the reserved amount finds the buckets it was charged to. *)
Definition call_honest (c : bcall) (w : bworld) : Prop :=
  match c with
  | CSettle i kind actual _ => ∀ r, bw_reservations w !! i = Some r → wanted kind actual (micros (br_amount r)) <= micros (br_amount r)
  | CAdjust i actual => ∀ r t, bw_reservations w !! i = Some r → br_ticket r = Some t →
      micros actual <= micros (bt_reserved t) ∧
      (micros actual = micros (bt_reserved t) →
       ∀ st s, state_of (bw_limiter w) (bt_keyID t) = Some st → tcaptures t s = true → is_Some (slot_val st s))
  | _ => True
  end.

Fixpoint honest_run (calls : list bcall) (w : bworld) : Prop :=
  match calls with [] => True | c :: calls => call_honest c w ∧ honest_run calls (bcall_step c w) end.

Section honest.

Lemma settle_delta cap l m i r kind actual deferred res :
  binv cap l m → m !! i = Some r → money_wf actual → br_finalized r = false →
  br_result (finalizeInternal kind actual deferred r l).1.2 = Some res →
  sr_CommittedDelta res <= Z.max (micros (br_amount r)) (wanted kind actual (micros (br_amount r))).
Proof.
  intros Hi Hm Hwf Ef. unfold finalizeInternal. rewrite Ef.
  destruct (settleReservation r kind actual deferred l) as [ [ [res' deltas] ticket] l1] eqn:ES. cbn [fst snd br_result]. intros [= <-].
  pose proof (unfinalized_held r Ef) as Hf.
  assert (Hamt : 0 <= micros (br_amount r)).
  { pose proof (bi_amount _ _ _ Hi i r Hm) as H. unfold money_wf in H. destruct (known (br_amount r)); lia. }
  destruct (br_state r) as [p|] eqn:Es.
  - destruct (bi_res _ _ _ Hi i r p Hm Hf Es) as (n & st & Hh & Hp & Hst & Hgen & _).
    destruct (validateBudgetState st) as [e|] eqn:Hv.
    { rewrite (settle_refused r kind actual deferred l p n st e Hh Hp Hst Hgen Hv) in ES. injection ES as <- <- <- <-. simpl. lia. }
    pose proof (ok_valid_good _ _ st (bi_ok _ _ _ Hi _ p st Hp Hst) Hv) as Hg.
    destruct (settle_good (owed m p) r p n st Hg Hh (λ s, owed_holds m i r p n s Hm Hf Hh) l kind actual deferred _ _ Hp Hst Hgen Hwf eq_refl eq_refl)
      as (st' & res1 & E & _ & _ & Hd & _). rewrite ES in E. injection E as -> _ _ _. rewrite Hd, (h_amount _ _ _ Hh). simpl.
    unfold charged. case_match; lia.
  - unfold settleReservation in ES. rewrite Es in ES.
    destruct (match kind with BudgetSettlementKnown => _ | _ => _ end) as [k0 e0]. injection ES as <- <- <- <-. simpl. lia.
Qed.

Lemma honest_overshoot cap c l m k s :
  binv cap l m → bcall_ok c → call_honest c (mkBWorld l m) → call_overshoot c (mkBWorld l m) k s = 0.
Proof.
  intros Hi Hok Hh. destruct c as [| i kind actual def|i actual| | | | | |]; try done; simpl in *.
  - destruct (m !! i) as [r|] eqn:Em; [|done]. destruct (br_finalized r) eqn:Ef; [done|]. destruct (_ && _); [|done].
    destruct (br_result _) as [res|] eqn:Er; [|done]. pose proof (settle_delta cap l m i r kind actual def res Hi Em Hok Ef Er).
    specialize (Hh r eq_refl). lia.
  - destruct (m !! i) as [r|] eqn:Em; [|done]. simpl. destruct (br_ticket r) as [t|] eqn:Et; [|done].
    destruct (Hh r t eq_refl Et) as [Hle _]. case_match; lia.
Qed.

Lemma honest_lossless cap c l m :
  binv cap l m → bcall_ok c → call_honest c (mkBWorld l m) →
  (∀ k st, state_of l k = Some st → lossless st) →
  ∀ k st, state_of (bw_limiter (bcall_step c (mkBWorld l m))) k = Some st → lossless st.
Proof.
  intros Hi Hok Hh Hl k st' Hs'. pose proof (bcall_evolves cap c l m k Hi Hok) as HE. rewrite Hs' in HE.
  remember (state_of l k) as o eqn:Eo. remember (Some st') as o' eqn:Eo'.
  destruct HE as [o|st st1 Hsl|o o' _ Hn|i actual r t st aj -> Hm Et Hk Hc Hva Haj Hajok].
  - subst o. by apply (Hl k).
  - injection Eo' as ->. intros s. rewrite Hsl. by apply (Hl k).
  - by apply Hn.
  - destruct (state_idle _); [done|]. injection Eo' as <-. intros s Hs. symmetry in Eo. simpl in Hm.
    pose proof Eo as (p & Hp & Hst)%bind_Some. pose proof (bi_ok _ _ _ Hi k p st Hp Hst) as Ho.
    destruct (validKnownMoney_spec actual Hva Hok) as [Ea Har].
    assert (Hres : bt_reserved t = mkMoney (micros (bt_reserved t)) true ∧ amount_range (micros (bt_reserved t))).
    { apply money_wf_known; [by eapply (bi_ticket _ _ _ Hi i r t)|]. unfold adjust_amounts, Money_Compare in Haj. rewrite Ea in Haj. simpl in Haj.
      by destruct (known (bt_reserved t)). }
    destruct Hres as [Hres Hnr]. rewrite Ea in Haj.
    pose proof (adjust_slots _ _ t _ _ st aj s Ho Hres Har Hnr Haj Hajok) as HS. destruct (tcaptures t s) eqn:Ec.
    + destruct (slot_val st s) as [v|] eqn:Ev.
      * destruct HS as [ [-> _]|(x & y & x' & _ & HS & _)]; [by apply (Hl k st Eo s)|]. rewrite HS in Hs. done.
      * destruct HS as (_ & _ & Heq). destruct (Hh r t Hm Et) as [_ Hpres]. rewrite Hk in Hpres.
        destruct (Hpres Heq st s Eo Ec) as [v Hv]. congruence.
    + rewrite HS in Hs. by apply (Hl k st Eo s).
Qed.

(** Nothing representable exceeds the largest amount. *)
Definition maxcap (k : string) (s : slot) : Z := MaxMoneyMicros.

Lemma call_within_max c : bcall_ok c → call_within maxcap c.
Proof.
  destruct c as [clk k policy cand| | | | | | | |order values]; simpl; try done.
  - intros (_ & (H1 & H2 & H3) & _) ds ms s lim Hl.
    assert (Hm : ∀ x, money_wf x → micros x <= MaxMoneyMicros).
    { intros x. unfold money_wf, MaxMoneyMicros, maxInt64. destruct (known x); lia. }
    apply Hm in H1, H2, H3. unfold maxcap. destruct s; simpl in Hl; repeat case_match; simplify_eq; lia.
  - intros [_ Hw] p Hp. apply list_elem_of_omap in Hp as (v & Hv & Ev). destruct (pending_row_ok v p Ev) as [_ ->].
    rewrite Forall_forall in Hw. specialize (Hw v Hv). unfold money_wf in Hw. unfold maxcap, MaxMoneyMicros, maxInt64 in *.
    destruct (known (bs_Spent v)); lia.
Qed.

Lemma honest_run_inv calls w :
  Forall bcall_ok calls → honest_run calls w → binv maxcap (bw_limiter w) (bw_reservations w) →
  (∀ k st, state_of (bw_limiter w) k = Some st → lossless st) →
  (∀ k s, overshoot calls w k s = 0) ∧ ∀ k st, state_of (bw_limiter (brun calls w)) k = Some st → lossless st.
Proof.
  revert w. induction calls as [|c calls IH]; intros [l m] Hok Hh Hi Hl; [done|]. cbn [overshoot brun].
  apply Forall_cons in Hok as [Hok1 Hok]. destruct Hh as [Hh1 Hh].
  assert (H0 : ∀ k s, call_overshoot c (mkBWorld l m) k s = 0) by (intros; by eapply honest_overshoot).
  destruct (IH (bcall_step c (mkBWorld l m)) Hok Hh) as [IH1 IH2].
  - assert (Hm : ∀ k s, 0 <= maxcap k s) by (intros; unfold maxcap, MaxMoneyMicros, maxInt64; lia).
    eapply binv_mono; [|exact (bcall_inv maxcap c l m Hm Hok1 (call_within_max c Hok1) Hi)].
    intros k s. simpl. rewrite H0. lia.
  - by eapply honest_lossless.
  - split; [|done]. intros k s. rewrite H0, IH1. lia.
Qed.

(** After an honest run the limiter accepts every state. *)
Lemma honest_accepted calls k st :
  Forall bcall_ok calls → honest_run calls bstart → state_of (bw_limiter (brun calls bstart)) k = Some st → validateBudgetState st = None.
Proof.
  intros Hok Hh Hs. destruct (honest_run_inv calls bstart Hok Hh (bstart_inv maxcap) ltac:(done)) as [H0 Hl].
  assert (Hi : binv (λ k s, maxcap k s + overshoot calls bstart k s) (bw_limiter (brun calls bstart)) (bw_reservations (brun calls bstart))).
  { apply brun_inv; [|done| |apply bstart_inv].
    - intros. unfold maxcap, MaxMoneyMicros, maxInt64. lia.
    - eapply Forall_impl; [exact Hok|]. apply call_within_max. }
  pose proof Hs as (p & Hp & Hst)%bind_Some. pose proof (bi_ok _ _ _ Hi k p st Hp Hst) as Ho.
  apply (ok_valid_iff _ _ st Ho). intros s v Hv. split; [intros ->; by apply (Hl k st Hs s)|].
  destruct (so_val _ _ _ Ho s v Hv) as [ [-> _]|(a & b & -> & _ & _ & Hab & _)]; [by destruct (Hl k st Hs s)|].
  rewrite H0 in Hab. unfold maxcap in Hab. simpl. lia.
Qed.

End honest.
Section effects.

Lemma notify_emitted l ds :
  Forall (λ d, bd_Delta d ≠ 0) ds →
  bl_emitted (foldl (λ l d, notifyBudgetDelta (bl_sink l) d l) l ds) = bl_emitted l ++ (if bl_sink l then ds else []).
Proof.
  intros H. revert l. induction H as [|d ds Hd _ IH]; intros l; simpl; [case_match; by rewrite app_nil_r|].
  rewrite IH. unfold notifyBudgetDelta. destruct (Z.eqb_spec (bd_Delta d) 0); [done|].
  destruct (bl_sink l) eqn:Es; simpl; rewrite ?Es; [by rewrite <-app_assoc|done].
Qed.

Lemma settle_deltas_nonzero r c : Forall (λ d, bd_Delta d ≠ 0) (settle_deltas r (mkMoney c true) c).
Proof.
  unfold settle_deltas, isZeroMoney. simpl. destruct (Z.eqb_spec c 0); [done|].
  apply Forall_app; split; [case_match; repeat constructor; done|].
  apply Forall_app; split; case_match; repeat constructor; done.
Qed.

(** Pruning never touches the accounts of the current day and month. *)
Lemma prune_current ds ms st s :
  (s = STotal ∨ s = SDay ds ∨ s = SMonth ms) → account (prune ds ms <$> st) s = account st s.
Proof.
  intros Hs. destruct st as [st|]; [|done]. unfold account. simpl.
  assert (E : slot_val (prune ds ms st) s = slot_val st s); [|by rewrite E].
  assert (H : ∀ (m : gmap Z budgetDayState) d, filter (λ e, ¬ day_expired d e) m !! d = m !! d).
  { intros m d. destruct (m !! d) as [b|] eqn:Em.
    - apply map_lookup_filter_Some. split; [done|]. unfold day_expired, Before. simpl. by rewrite Z.ltb_irrefl.
    - apply map_lookup_filter_None. by left. }
  destruct Hs as [-> |[-> | ->] ]; simpl; [done|by rewrite H..].
Qed.

Lemma decision_prune policy ds ms st c :
  decision policy ds ms (prune ds ms <$> st) c = decision policy ds ms st c.
Proof. unfold decision, rejects, account_used. by rewrite !prune_current by auto. Qed.

End effects.

(** ** Properties *)

(** C9: conservation.  After any sequence of calls of the limiter, with any
    arguments, the amount an account of a key holds as active is exactly the
    sum of the reservations that captured it and whose settlement did not
    return them (no settlement was made, or it was refused by the state check).
    An account without a bucket is owed nothing, and neither is one that an
    adjustment after pruning left without known amounts. *)
Theorem budget_conservation l m k p st s :
  breachable (mkBWorld l m) → state_ptr l k = Some p → bl_heap l !! p = Some st →
  match slot_val st s with
  | Some (sp, ac) =>
      (ac = mkMoney (owed m p s) true ∧ known sp = true) ∨ ((sp, ac) = lost ∧ s ≠ STotal ∧ owed m p s = 0)
  | None => owed m p s = 0
  end.
Proof.
  intros Hr Hp Hst. apply breachable_inv in Hr as Hi.
  pose proof (bi_ok _ _ _ Hi k p st Hp Hst) as Hg. simpl in Hg.
  destruct (slot_val st s) as [ [sp ac]|] eqn:E; [|by apply (so_none _ _ _ Hg)].
  destruct (so_val _ _ _ Hg s _ E) as [?|(a & b & [= -> ->] & _ & _ & _ & -> & _)]; [by right|by left].
Qed.

Definition demo_policy : BudgetPolicy := LimitedBudgetPolicyWithDay (mkMoney 100 true) (mkMoney 50 true) true.
Definition demo_admit : result BudgetError BudgetReservation * BudgetLimiter :=
  BudgetLimiter_Reserve 1700000000000000000 "k" demo_policy (mkMoney 40 true) NewBudgetLimiter.
Definition b_demo_reservation : BudgetReservation :=
  newBudgetReservation "k" (Some 1%positive) 1 (mkMoney 40 true) 1699920000000000000 zeroTime true true false.
Definition b_demo_limiter : BudgetLimiter := demo_admit.2.
Definition demo_state : budgetState := default (blankState 0) (bl_heap b_demo_limiter !! 1%positive).
Definition demo_world : bworld := mkBWorld b_demo_limiter {[ 1%positive := b_demo_reservation ]}.

Lemma demo_policy_wf : policy_wf demo_policy.
Proof. unfold policy_wf, money_wf. simpl. unfold MaxMoneyMicros, maxInt64. lia. Qed.

Lemma demo_money_wf n : 0 <= n <= 1000 → money_wf (mkMoney n true).
Proof. unfold money_wf. simpl. unfold MaxMoneyMicros, maxInt64. lia. Qed.

Lemma demo_reserve_ok clk n : 0 <= clk <= maxInt64 → 0 <= n <= 1000 → bcall_ok (CReserve clk "k" demo_policy (mkMoney n true)).
Proof. intros ? ?. split_and!; [done|apply demo_policy_wf|by apply demo_money_wf]. Qed.

Lemma demo_breachable : breachable demo_world.
Proof.
  assert (demo_world = brun [CReserve 1700000000000000000 "k" demo_policy (mkMoney 40 true)] bstart) as ->
    by (vm_compute; reflexivity).
  apply brun_reachable. constructor; [|constructor]. apply demo_reserve_ok; unfold maxInt64; lia.
Qed.

Lemma budget_conservation_witness :
  slot_val demo_state (SDay 1699920000000000000) = Some (mkMoney 0 true, mkMoney 40 true) ∧
  mkMoney 40 true = mkMoney (owed {[ 1%positive := b_demo_reservation ]} 1 (SDay 1699920000000000000)) true.
Proof.
  assert (E : slot_val demo_state (SDay 1699920000000000000) = Some (mkMoney 0 true, mkMoney 40 true)) by (vm_compute; reflexivity).
  split; [exact E|].
  pose proof (budget_conservation b_demo_limiter {[ 1%positive := b_demo_reservation ]} "k" 1 demo_state (SDay 1699920000000000000)
    demo_breachable ltac:(vm_compute; reflexivity) ltac:(vm_compute; reflexivity)) as H.
  rewrite E in H. destruct H as [ [H _]|[H _] ]; [exact H|discriminate H].
Defined.

(** Admissions of key [k] and spends loaded for it limit account [s] to at
    most [L]. *)
Definition admits_within (k : string) (s : slot) (L : Z) (c : bcall) : Prop :=
  match c with
  | CReserve _ k' policy _ => k' = k → ∀ ds ms lim, limit_of policy ds ms s = Some lim → lim <= L
  | CLoad _ values => ∀ p, p ∈ omap pending_of values → ps_keyID p = k → row_slot p = s → micros (ps_spent p) <= L
  | _ => True
  end.

Definition only_cap (k : string) (s : slot) (L : Z) (k' : string) (s' : slot) : Z :=
  if decide (k' = k ∧ s' = s) then L else topcap k' s'.

Lemma only_cap_within k s L c : bcall_ok c → admits_within k s L c → call_within (only_cap k s L) c.
Proof.
  intros Hok Hw. pose proof (call_within_top c Hok) as Ht. destruct c as [clk k' policy cand| | | | | | | |order values]; try done; simpl in *.
  - intros ds ms s' lim Hl. unfold only_cap. case_decide as E; [destruct E as [-> ->]; by eapply Hw|by eapply Ht].
  - intros p Hp. unfold only_cap. case_decide as E; [destruct E; by apply Hw|by apply Ht].
Qed.

(** C4: an account exceeds its limit only by costs above the reservations.
    After any sequence of calls, if the requests of key [k] were admitted under
    policies that limit account [s] to at most [L], and the spend loaded for it
    was at most [L], the money spent and held in the account is at most [L] plus
    the amounts that settlements and adjustments charged it above what had been
    reserved.  When no cost exceeded its reservation, and no adjustment to
    exactly the reserved amount came after its bucket was pruned, that excess
    is zero and the limiter's check accepts the state of every key. *)
Theorem budget_never_exceeded calls k s L :
  0 <= L → Forall bcall_ok calls → Forall (admits_within k s L) calls →
  account_used (state_of (bw_limiter (brun calls bstart)) k) s <= L + overshoot calls bstart k s ∧
  (honest_run calls bstart →
     overshoot calls bstart k s = 0 ∧
     ∀ k' st, state_of (bw_limiter (brun calls bstart)) k' = Some st → validateBudgetState st = None).
Proof.
  intros HL Hok Hw. split.
  - assert (Hi : binv (λ k' s', only_cap k s L k' s' + overshoot calls bstart k' s')
                   (bw_limiter (brun calls bstart)) (bw_reservations (brun calls bstart))).
    { apply brun_inv; [|done| |apply bstart_inv].
      - intros k' s'. unfold only_cap. case_decide; [done|apply topcap_pos].
      - apply Forall_forall. intros c Hc. rewrite Forall_forall in Hok, Hw. apply only_cap_within; auto. }
    assert (Hover : 0 <= overshoot calls bstart k s).
    { clear. generalize bstart. induction calls as [|c calls IH]; intros w; simpl; [lia|].
      pose proof (call_overshoot_nonneg c w k s). specialize (IH (bcall_step c w)). lia. }
    unfold account_used, account. destruct (state_of _ k) as [st|] eqn:Es; [|simpl; lia].
    destruct (slot_val st s) as [v|] eqn:Ev; [|simpl; lia]. pose proof Es as (p & Hp & Hst)%bind_Some.
    destruct (so_val _ _ _ (bi_ok _ _ _ Hi k p st Hp Hst) s v Ev) as [ [-> _]|(a & b & -> & _ & _ & Hab & _)]; [simpl; lia|].
    unfold only_cap in Hab. rewrite decide_True in Hab by done. simpl. lia.
  - intros Hh. destruct (honest_run_inv calls bstart Hok Hh (bstart_inv maxcap) ltac:(done)) as [H0 _]. split; [apply H0|].
    intros k' st. by apply honest_accepted.
Qed.

(** A spend of 55 is loaded, a request is admitted for 45 under a limit of 100,
    and its cost turns out to be 60; without the last call the run is honest. *)
Definition demo_order (X : gset string) : list string := elements X.
Definition demo_load : bcall := CLoad demo_order [mkSpent "k" (mkMoney 55 true) BudgetPeriodTotal zeroTime].
Definition demo_calls : list bcall :=
  [demo_load; CReserve 1700000000000000000 "k" demo_policy (mkMoney 45 true)].
Definition demo_overrun : bcall := CSettle 1 BudgetSettlementKnown (mkMoney 60 true) false.

Lemma demo_calls_ok : Forall bcall_ok demo_calls ∧ bcall_ok demo_overrun.
Proof.
  split; [|by apply demo_money_wf]. constructor; [split|constructor; [apply demo_reserve_ok; unfold maxInt64; lia|constructor] ].
  - intros X k Hk. by apply elem_of_elements.
  - constructor; [by apply demo_money_wf|constructor].
Qed.

Lemma demo_calls_within : Forall (admits_within "k" STotal 100) (demo_calls ++ [demo_overrun]).
Proof.
  constructor; [|constructor; [|constructor; [exact I|constructor] ] ].
  - intros p Hp. apply list_elem_of_omap in Hp as (v & Hv & Ev). apply list_elem_of_singleton in Hv as ->.
    vm_compute in Ev. injection Ev as <-. simpl. lia.
  - intros _ ds ms lim. simpl. intros [= <-]. lia.
Qed.

Lemma budget_never_exceeded_witness :
  account_used (state_of (bw_limiter (brun (demo_calls ++ [demo_overrun]) bstart)) "k") STotal = 115 ∧
  overshoot (demo_calls ++ [demo_overrun]) bstart "k" STotal = 15 ∧
  account_used (state_of (bw_limiter (brun (demo_calls ++ [demo_overrun]) bstart)) "k") STotal <= 100 + 15 ∧
  account_used (state_of (bw_limiter (brun demo_calls bstart)) "k") STotal = 100 ∧
  overshoot demo_calls bstart "k" STotal = 0.
Proof.
  destruct demo_calls_ok as [H1 H2]. pose proof demo_calls_within as Hw.
  assert (E : overshoot (demo_calls ++ [demo_overrun]) bstart "k" STotal = 15) by (vm_compute; reflexivity).
  split; [vm_compute; reflexivity|]. split; [exact E|]. split; [|split].
  - rewrite <-E. apply (budget_never_exceeded (demo_calls ++ [demo_overrun]) "k" STotal 100); [lia| |exact Hw].
    apply Forall_app. split; [exact H1|]. constructor; [exact H2|constructor].
  - vm_compute. reflexivity.
  - apply (budget_never_exceeded demo_calls "k" STotal 100); [lia|exact H1| |].
    + by apply Forall_app in Hw as [? _].
    + repeat split.
Defined.

(** C10: settlement is exact.  In every reachable state, the first settlement
    of a reservation that holds money does one of two things.  If the limiter's
    check accepts the key's state, it moves the reservation out of the active
    amount of exactly the accounts that admitted it, adds the charge to their
    spend, and notifies the sink of exactly those changes; the charge is the
    cost, or the reservation when the cost is unknown or a spend would no
    longer be representable (both reported), and a cost up to the reservation
    is always charged as it is.  If the check refuses the state, it reports the
    state error and changes nothing. *)
Theorem settlement_succeeds l m i r p n kind actual deferred :
  breachable (mkBWorld l m) → m !! i = Some r → br_finalized r = false → br_state r = Some p → br_amount r = mkMoney n true →
  money_wf actual →
  ∃ st, bl_heap l !! p = Some st ∧
  match validateBudgetState st with
  | None => ∃ r' l' st', finalizeInternal kind actual deferred r l = (settle_error r kind actual n st, r', l') ∧
      br_finalized r' = true ∧ b_returned r' = true ∧
      bl_heap l' !! p = Some st' ∧ settles r n (charged r kind actual n st) st st' ∧
      bl_emitted l' = bl_emitted l ++
        (if bl_sink l then settle_deltas r (mkMoney (charged r kind actual n st) true) (charged r kind actual n st) else []) ∧
      (wanted kind actual n <= n → charged r kind actual n st = wanted kind actual n)
  | Some _ => ∃ r', finalizeInternal kind actual deferred r l = (Some ErrBudgetState, r', l) ∧
      br_finalized r' = true ∧ b_returned r' = false
  end.
Proof.
  intros Hr Hm Hf Hs Ha Hwf. apply breachable_inv in Hr as Hi. pose proof (unfinalized_held r Hf) as Hf'. simpl in Hi.
  destruct (bi_res _ _ _ Hi i r p Hm Hf' Hs) as (n' & st & Hh & Hp & Hst & Hgen & _).
  pose proof (h_amount _ _ _ Hh) as E. rewrite Ha in E. injection E as <-. exists st. split; [done|].
  pose proof (bi_ok _ _ _ Hi _ p st Hp Hst) as Ho. unfold finalizeInternal. rewrite Hf.
  destruct (validateBudgetState st) as [e|] eqn:Hv.
  { rewrite (settle_refused r kind actual deferred l p n st e Hh Hp Hst Hgen Hv). eexists. split; [done|]. done. }
  pose proof (ok_valid_good _ _ st Ho Hv) as Hg.
  assert (Howed : ∀ s, captures r s = true → n <= owed m p s) by (intros s Hc; exact (owed_holds m i r p n s Hm Hf' Hh Hc)).
  destruct (settle_good (owed m p) r p n st Hg Hh Howed l kind actual deferred _ _ Hp Hst Hgen Hwf eq_refl eq_refl)
    as (st' & res & E & Herr & Hch & _ & HS & _). rewrite E, Herr. eexists _, _, st'. split; [done|]. split; [done|].
  destruct (notify_frame (retire (br_keyID r) st' (set_state p st' l))
    (settle_deltas r (mkMoney (charged r kind actual n st) true) (charged r kind actual n st))) as (-> & _).
  pose proof (h_pos _ _ _ Hh) as Hn. split_and!.
  - unfold b_returned. cbn [br_finalized br_result andb]. rewrite Herr, Hch. unfold settle_error, charged, wanted.
    destruct (charge_fits _ _ _); [|unfold isZeroMoney; simpl; lia]. destruct kind; try done. destruct (validKnownMoney actual); [done|].
    unfold isZeroMoney. simpl. lia.
  - unfold retire. destruct (state_idle st'); simpl; by rewrite lookup_insert_eq.
  - done.
  - rewrite notify_emitted by apply settle_deltas_nonzero. unfold retire. by destruct (state_idle st').
  - intros Hle. unfold charged. assert (charge_fits r st (wanted kind actual n) = true) as ->; [|done].
    assert (Hone : ∀ s, negb (captures r s) || ((account (Some st) s).1 + wanted kind actual n <=? MaxMoneyMicros) = true).
    { intros s. destruct (captures r s) eqn:Ec; [|done]. unfold account.
      destruct (good_slot _ st s Hg (captured_present _ r p n st Hg Hh Howed s Ec)) as (a & b & Ev & _ & _ & Hab & Hbo).
      rewrite Ev. specialize (Howed s Ec). simpl. lia. }
    unfold charge_fits. by rewrite !Hone.
Qed.

(** The demonstration reservation settled within its estimate; and a
    reservation of a state driven over the largest amount by two overruns. *)
Definition demo_stuck_calls : list bcall :=
  [CReserve 1700000000000000000 "k" demo_policy (mkMoney 10 true); CReserve 1700000000000000000 "k" demo_policy (mkMoney 10 true);
   CSettle 1 BudgetSettlementKnown (mkMoney MaxMoneyMicros true) false].
Definition demo_stuck : bworld := brun demo_stuck_calls bstart.

Lemma settlement_succeeds_witness :
  (∃ r' l' st', finalizeInternal BudgetSettlementKnown (mkMoney 25 true) false b_demo_reservation b_demo_limiter = (None, r', l') ∧
     b_returned r' = true ∧ bl_heap l' !! 1%positive = Some st' ∧ settles b_demo_reservation 40 25 demo_state st') ∧
  (∃ r r', bw_reservations demo_stuck !! 2%positive = Some r ∧
     finalizeInternal BudgetSettlementKnown (mkMoney 5 true) false r (bw_limiter demo_stuck) = (Some ErrBudgetState, r', bw_limiter demo_stuck) ∧
     b_returned r' = false).
Proof.
  split.
  - destruct (settlement_succeeds b_demo_limiter {[ 1%positive := b_demo_reservation ]} 1 b_demo_reservation 1 40
           BudgetSettlementKnown (mkMoney 25 true) false demo_breachable) as (st & Hst & HS);
      [reflexivity|reflexivity|reflexivity|reflexivity|by apply demo_money_wf|].
    assert (st = demo_state) as -> by (vm_compute in Hst; injection Hst as <-; vm_compute; reflexivity).
    assert (Hv : validateBudgetState demo_state = None) by (vm_compute; reflexivity). rewrite Hv in HS.
    destruct HS as (r' & l' & st' & E & _ & Hret & Hst' & HS & _ & _). exists r', l', st'.
    split; [rewrite E; vm_compute; reflexivity|]. split; [exact Hret|]. split; [exact Hst'|exact HS].
  - destruct (bw_reservations demo_stuck !! 2%positive) as [r|] eqn:Er; [|vm_compute in Er; discriminate]. exists r.
    assert (Hr : br_finalized r = false ∧ br_state r = Some 1%positive ∧ br_amount r = mkMoney 10 true)
      by (vm_compute in Er; injection Er as <-; repeat split). destruct Hr as (H1 & H2 & H3).
    assert (Hb : breachable (mkBWorld (bw_limiter demo_stuck) (bw_reservations demo_stuck))).
    { assert (Hc : bcall_ok (CReserve 1700000000000000000 "k" demo_policy (mkMoney 10 true)))
        by (apply demo_reserve_ok; unfold maxInt64; lia).
      apply (brun_reachable demo_stuck_calls). constructor; [exact Hc|constructor; [exact Hc|constructor; [|constructor] ] ].
      unfold bcall_ok, money_wf. simpl. unfold MaxMoneyMicros, maxInt64. lia. }
    destruct (settlement_succeeds (bw_limiter demo_stuck) (bw_reservations demo_stuck) 2 r 1 10 BudgetSettlementKnown (mkMoney 5 true) false
      Hb Er H1 H2 H3 (demo_money_wf 5 ltac:(lia))) as (st & Hst & HS).
    assert (Hv : validateBudgetState st = Some ErrBudgetState) by (vm_compute in Hst; injection Hst as <-; vm_compute; reflexivity).
    rewrite Hv in HS. destruct HS as (r' & E & _ & Hret). exists r'. split; [reflexivity|]. split; [exact E|exact Hret].
Defined.

(** C11: admission is exact.  With a valid current policy, [Reserve] on a state
    the limiter's check accepts admits a positive candidate exactly when it
    fits beside the spent and active amounts of every limited account; it then
    adds the candidate to the active amount of those accounts.  A rejection
    carries the reset of the month or day that refused it (none when the
    lifetime total did) and leaves every limited account as it was.  On a state
    the check refuses it reports the state error and changes nothing. *)
Theorem Reserve_admits_iff_fits l m clk k policy c :
  breachable (mkBWorld l m) → clock_range clk →
  validKeyID k = true → validPolicy policy = true → policy_wf policy → 0 < c <= MaxMoneyMicros →
  BudgetLimiter_PolicyCurrent k policy l = true → mismatch l k policy = false → unlimited policy = false →
  0 <= bl_sequence l < 18446744073709551615 →
  let now := (BudgetLimiter_nowTime clk l).1 in
  let ds := currentDay now in
  let ms := currentMonth ds in
  match state_of l k ≫= validateBudgetState with
  | Some _ => BudgetLimiter_Reserve clk k policy (mkMoney c true) l = (Err ErrBudgetState, l)
  | None =>
    match decision policy ds ms (state_of l k) c with
    | None => ∃ r l' st', BudgetLimiter_Reserve clk k policy (mkMoney c true) l = (Ok r, l') ∧
        br_amount r = mkMoney c true ∧ state_of l' k = Some st' ∧
        ∀ s lim, limit_of policy ds ms s = Some lim →
          captures r s = true ∧
          account (Some st') s = ((account (state_of l k) s).1, (account (state_of l k) s).2 + c)
    | Some e => ∃ l', BudgetLimiter_Reserve clk k policy (mkMoney c true) l = (Err e, l') ∧
        ∀ s lim, limit_of policy ds ms s = Some lim → account (state_of l' k) s = account (state_of l k) s
    end
  end.
Proof.
  intros Hr Hc Hk Hpol Hwf Hcr Hcur Hmis Hun Hseq. apply breachable_inv in Hr as Hi. simpl in Hi. cbv zeta.
  set (ds := currentDay (BudgetLimiter_nowTime clk l).1). set (ms := currentMonth ds).
  assert (Hcm : amount_range c) by (unfold amount_range; lia).
  destruct (state_of l k ≫= validateBudgetState) as [e|] eqn:Evs.
  { apply bind_Some in Evs as (st & Hs & Hv). apply (Reserve_refused clk k policy (mkMoney c true) l st e); try done. by apply validKnownMoney_known. }
  assert (Hlink : ∀ p, state_ptr l k = Some p → is_Some (bl_heap l !! p)) by (intros p Hp; by apply (bi_link _ _ _ Hi _ _ Hp)).
  set (ow := match state_ptr l k with Some p => owed m p | None => λ _, 0 end).
  assert (Hgood : ∀ st, state_of l k = Some st → state_good ow st).
  { intros st Hs. rewrite Hs in Evs. unfold state_of in Hs. unfold ow. destruct (state_ptr l k) as [p|] eqn:Ep; [|done].
    eapply ok_valid_good; [by apply (bi_ok _ _ _ Hi k p)|done]. }
  pose proof (Reserve_spec ow clk k policy c l Hk Hcm Hpol Hwf Hlink Hgood Hcur) as HS.
  rewrite Hmis, Hun in HS. fold ds ms in HS. rewrite decision_prune in HS.
  pose proof (pruned_ptr clk k l) as [Eptr _]. fold ds ms in Eptr.
  destruct (pruned_state topcap l m clk k ds ms Hi Hc) as [Hl0 _].
  set (st0 := prune ds ms <$> state_of l k) in *. set (l0 := pruned_limiter clk k st0 l) in *.
  destruct (decision policy ds ms (state_of l k) c) as [e|] eqn:ED.
  - exists l0. split; [exact HS|]. intros s lim Hl. rewrite Hl0. apply prune_current. by eapply limit_slot.
  - destruct (Z.eqb_spec c 0); [lia|].
    assert (Hgen : (wrapU64 (bl_sequence l + 1) =? 0) = false).
    { unfold wrapU64. rewrite Z.mod_small by lia. lia. }
    assert (Hacc : ∀ st' s lim, reserves policy ds ms c st0 st' → limit_of policy ds ms s = Some lim →
      account (Some st') s = ((account (state_of l k) s).1, (account (state_of l k) s).2 + c)).
    { intros st' s lim HR Hl. unfold account at 1. rewrite HR, Hl. simpl. rewrite <-(prune_current ds ms (state_of l k) s); [done|].
      by eapply limit_slot. }
    cbv zeta in HS. rewrite Hgen in HS. pose proof (state_ptr_of k l Hlink) as Hsp.
    destruct (state_ptr l k) as [p|] eqn:Ep; [destruct st0 as [st|] eqn:Est0|].
    + destruct HS as (st' & E & HR & _ & _). eexists _, _, st'. split; [exact E|]. split; [done|].
      split; [unfold state_of; simpl; unfold state_ptr in *; simpl; rewrite Eptr; simpl; by rewrite lookup_insert_eq|].
      intros s lim Hl. split; [rewrite captured_captures, Hl; done|]. by eapply Hacc.
    + exfalso. destruct Hsp as (st & Es & _).
      unfold st0 in Est0. by rewrite Es in Est0.
    + destruct HS as (st' & E & HR & _ & _). eexists _, _, st'. split; [exact E|]. split; [done|].
      split; [unfold state_of, state_ptr; simpl; rewrite lookup_insert_eq; simpl; by rewrite lookup_insert_eq|].
      intros s lim Hl. split; [rewrite captured_captures, Hl; done|]. by eapply Hacc.
Qed.

Lemma Reserve_admits_iff_fits_witness :
  (∃ r l' st', BudgetLimiter_Reserve 1700000001000000000 "k" demo_policy (mkMoney 10 true) b_demo_limiter = (Ok r, l') ∧
     br_amount r = mkMoney 10 true ∧ state_of l' "k" = Some st') ∧
  (∃ l', BudgetLimiter_Reserve 1700000001000000000 "k" demo_policy (mkMoney 11 true) b_demo_limiter
         = (Err (BudgetCapacityError 1700006400000000000 false), l')).
Proof.
  assert (Hc : clock_range 1700000001000000000) by (unfold clock_range, maxInt64; lia).
  assert (Hcr : ∀ c, 0 < c <= 100 → 0 < c <= MaxMoneyMicros) by (unfold MaxMoneyMicros, maxInt64; lia).
  assert (Hv : state_of b_demo_limiter "k" ≫= validateBudgetState = None) by (vm_compute; reflexivity).
  split.
  - pose proof (Reserve_admits_iff_fits b_demo_limiter _ 1700000001000000000 "k" demo_policy 10 demo_breachable Hc
      ltac:(vm_compute; reflexivity) ltac:(vm_compute; reflexivity) demo_policy_wf ltac:(apply Hcr; lia)
      ltac:(vm_compute; reflexivity) ltac:(vm_compute; reflexivity) ltac:(vm_compute; reflexivity)
      ltac:(vm_compute; split; congruence)) as H. cbv zeta in H. rewrite Hv in H.
    match type of H with match ?d with Some _ => _ | None => _ end => destruct d eqn:Hd end; [vm_compute in Hd; discriminate|].
    destruct H as (r & l' & st' & H1 & H2 & H3 & _). exists r, l', st'. auto.
  - pose proof (Reserve_admits_iff_fits b_demo_limiter _ 1700000001000000000 "k" demo_policy 11 demo_breachable Hc
      ltac:(vm_compute; reflexivity) ltac:(vm_compute; reflexivity) demo_policy_wf ltac:(apply Hcr; lia)
      ltac:(vm_compute; reflexivity) ltac:(vm_compute; reflexivity) ltac:(vm_compute; reflexivity)
      ltac:(vm_compute; split; congruence)) as H. cbv zeta in H. rewrite Hv in H.
    match type of H with match ?d with Some _ => _ | None => _ end => destruct d as [e|] eqn:Hd end; [|vm_compute in Hd; discriminate].
    assert (e = BudgetCapacityError 1700006400000000000 false) as -> by (vm_compute in Hd; congruence).
    destruct H as (l' & H & _). exists l'. exact H.
Defined.

(** ** Defects of [Adjust] *)

(** A live ticket whose day bucket has been pruned by a later admission. *)
Record pruned_ticket (t : BudgetAdjustmentTicket) (l : BudgetLimiter) (p : positive) (st : budgetState) (n : Z) : Prop := {
  pt_live : bt_consumed t = false ∧ bt_limiter t = true ∧ validKeyID (bt_keyID t) = true ∧ bt_generation t ≠ 0;
  pt_state : state_ptr l (bt_keyID t) = Some p ∧ bl_heap l !! p = Some st ∧ generation st = bt_generation t;
  pt_known : validKnownMoney (spent st) = true ∧ validKnownMoney (active st) = true;
  pt_reserved : bt_reserved t = mkMoney n true ∧ 0 <= n;
  pt_day : bt_dayCaptured t = true ∧ IsZero (bt_dayStart t) = false ∧ dayBuckets st !! bt_dayStart t = None;
}.

(** Adjusting such a ticket to exactly its reservation reports success and
    loses the day's account. *)
Lemma Adjust_equal_loses t l p st n :
  pruned_ticket t l p st n →
  ∃ t' l' st', BudgetTicket_Adjust (mkMoney n true) t l = (None, t', l') ∧
    state_of l' (bt_keyID t) = Some st' ∧ slot_val st' (SDay (bt_dayStart t)) = Some lost.
Proof.
  intros [(Hc & HL & Hk & Hg) (Hp & Hst & Hgen) (Hs & Ha) (Hr & Hn) (Hd & Hz & Hno)].
  unfold BudgetTicket_Adjust. rewrite Hc.
  assert (validKnownMoney (mkMoney n true) = true) as -> by (unfold validKnownMoney; simpl; lia).
  rewrite HL, Hk, Hp, Hst, Hgen, Z.eqb_refl, Hs, Ha. cbn [negb orb].
  destruct (Z.eqb_spec (bt_generation t) 0); [done|].
  unfold adjust_amounts, Money_Compare. rewrite Hr. cbn [known negb orb micros]. rewrite Z.ltb_irrefl. cbv iota.
  rewrite Hno. cbn [negb andb default aj_ok aj_delta aj_dayDelta aj_monthDelta Z.eqb day_spent].
  set (st' := adjust_state t st _).
  assert (Hidle : state_idle st' = false).
  { unfold state_idle, st', adjust_state, with_amounts, adjust_store. cbn [dayBuckets]. rewrite Hd, Hz. cbn [negb andb].
    rewrite map_size_insert_None by done. cbn [Nat.eqb]. by rewrite andb_false_r. }
  rewrite Hidle. eexists _, _, st'. split; [reflexivity|]. split.
  - unfold state_of. change (state_ptr (set_state p st' l) (bt_keyID t)) with (state_ptr l (bt_keyID t)). rewrite Hp.
    simpl. by rewrite lookup_insert_eq.
  - unfold st', adjust_state, with_amounts, adjust_store. cbn [slot_val dayBuckets aj_daySpent].
    rewrite Hd, Hz, Hno. cbn [negb andb default day_active]. by rewrite lookup_insert_eq.
Qed.

(** C40: a defect.  Adjusting a ticket to exactly its reserved amount, after a
    later admission pruned the ticket's day bucket, reports success and locks
    the key for ever: after any further calls, every admission of the key with
    a valid current policy and every settlement of a reservation of the key
    fails with the state error and changes nothing. *)
Theorem Adjust_equal_after_prune_locks_key l m i r t p st n :
  breachable (mkBWorld l m) → m !! i = Some r → br_ticket r = Some t → pruned_ticket t l p st n → n <= MaxMoneyMicros →
  (BudgetTicket_Adjust (mkMoney n true) t l).1.1 = None ∧
  ∀ w', rtc bstep (bcall_step (CAdjust i (mkMoney n true)) (mkBWorld l m)) w' →
    (∀ clk policy c, validKnownMoney c = true → validPolicy policy = true →
       BudgetLimiter_PolicyCurrent (bt_keyID t) policy (bw_limiter w') = true →
       BudgetLimiter_Reserve clk (bt_keyID t) policy c (bw_limiter w') = (Err ErrBudgetState, bw_limiter w')) ∧
    (∀ j x q kind actual deferred, bw_reservations w' !! j = Some x → br_finalized x = false → br_keyID x = bt_keyID t → br_state x = Some q →
       ∃ x', finalizeInternal kind actual deferred x (bw_limiter w') = (Some ErrBudgetState, x', bw_limiter w')).
Proof.
  intros Hr Hm Et Hpt Hmax. destruct (Adjust_equal_loses t l p st n Hpt) as (t' & l' & st' & EA & Hs' & Hl').
  rewrite EA. split; [done|]. intros w' Hw'.
  set (w1 := bcall_step (CAdjust i (mkMoney n true)) (mkBWorld l m)) in *.
  assert (Hn : bcall_ok (CAdjust i (mkMoney n true))).
  { destruct Hpt as [_ _ _ [_ Hn] _]. unfold bcall_ok, money_wf. simpl. lia. }
  assert (Hb1 : breachable w1) by (eapply rtc_r; [exact Hr|by eexists]).
  assert (E1 : bw_limiter w1 = l') by (unfold w1; simpl; by rewrite Hm, Et, EA).
  pose proof (breachable_inv w1 Hb1) as Hi1. rewrite <-E1 in Hs'.
  destruct (lost_for_ever w1 w' (bt_keyID t) st' _ Hi1 Hw' Hs' Hl') as (st2 & Hs2 & Hl2).
  assert (Hv : ∃ e, validateBudgetState st2 = Some e).
  { destruct (validateBudgetState st2) eqn:Ev; [eauto|]. by destruct (valid_lossless st2 Ev (SDay (bt_dayStart t))). }
  destruct Hv as [e Hv]. split.
  - intros clk policy c Hc Hp Hcur. eapply Reserve_refused; try done. by destruct Hpt as [(_ & _ & ? & _) _ _ _ _].
  - intros j x q kind actual deferred Hj Hf Hk Hq.
    assert (Hb2 : breachable w') by (unfold breachable in *; etrans; [exact Hb1|exact Hw']). pose proof (breachable_inv w' Hb2) as Hi2.
    destruct (bi_res _ _ _ Hi2 j x q Hj (unfinalized_held x Hf) Hq) as (n' & st3 & Hh & Hp3 & Hst3 & Hgen & _).
    assert (st3 = st2) as -> by (rewrite Hk in Hp3; unfold state_of in Hs2; rewrite Hp3 in Hs2; simpl in Hs2; congruence).
    unfold finalizeInternal. rewrite Hf, (settle_refused x kind actual deferred _ q n' st2 e Hh Hp3 Hst3 Hgen Hv). by eexists.
Qed.

(** The calls that lead there: a request late in the day is settled by
    deferral, the next request arrives after midnight, and the deferred usage
    turns out to equal the estimate. *)
Definition demo_prune_calls : list bcall :=
  [CReserve 1700000000000000000 "k" demo_policy (mkMoney 40 true); CSettle 1 BudgetSettlementDeferred UnknownMoney true;
   CReserve 1700010000000000000 "k" demo_policy (mkMoney 5 true)].
Definition demo_nextday : BudgetLimiter := bw_limiter (brun demo_prune_calls bstart).
Definition demo_bticket : BudgetAdjustmentTicket :=
  mkBTicket true "k" 1 (mkMoney 40 true) 1699920000000000000 zeroTime true true false false None.

Lemma demo_prune_reachable : breachable (brun demo_prune_calls bstart).
Proof.
  apply brun_reachable. constructor; [|constructor; [|constructor; [|constructor] ] ].
  - apply demo_reserve_ok; unfold maxInt64; lia.
  - unfold bcall_ok, money_wf. done.
  - apply demo_reserve_ok; unfold maxInt64; lia.
Qed.

Lemma Adjust_equal_after_prune_locks_key_witness :
  let w1 := bcall_step (CAdjust 1 (mkMoney 40 true)) (brun demo_prune_calls bstart) in
  (BudgetTicket_Adjust (mkMoney 40 true) demo_bticket demo_nextday).1.1 = None ∧
  ∀ w', rtc bstep w1 w' → BudgetLimiter_PolicyCurrent "k" demo_policy (bw_limiter w') = true →
    ∀ clk, BudgetLimiter_Reserve clk "k" demo_policy (mkMoney 1 true) (bw_limiter w') = (Err ErrBudgetState, bw_limiter w').
Proof.
  destruct (bw_reservations (brun demo_prune_calls bstart) !! 1%positive) as [r|] eqn:Er; [|vm_compute in Er; discriminate].
  assert (Et : br_ticket r = Some demo_bticket) by (vm_compute in Er; injection Er as <-; reflexivity).
  pose proof (Adjust_equal_after_prune_locks_key demo_nextday (bw_reservations (brun demo_prune_calls bstart)) 1 r demo_bticket 1
    (default (blankState 0) (bl_heap demo_nextday !! 1%positive)) 40 demo_prune_reachable Er Et
    ltac:(constructor; vm_compute; repeat split; congruence) ltac:(unfold MaxMoneyMicros, maxInt64; lia)) as [H1 H2].
  split; [exact H1|]. intros w' Hw' Hcur clk. apply (H2 w' Hw'); [reflexivity|reflexivity|exact Hcur].
Defined.

Lemma refund_amounts a n sp :
  0 <= a < n → n <= MaxMoneyMicros → n - a <= sp <= MaxMoneyMicros →
  validKnownMoney (mkMoney a true) = true ∧ (a <? n) = true ∧
  Money_Subtract (mkMoney n true) (mkMoney a true) = Ok (mkMoney (n - a) true) ∧
  Money_Subtract (mkMoney sp true) (mkMoney (n - a) true) = Ok (mkMoney (sp - (n - a)) true) ∧
  - (n - a) = a - n ∧ (a - n =? 0) = false.
Proof.
  intros. split; [unfold validKnownMoney; simpl; lia|]. split; [lia|].
  split; [apply sub_ok; unfold amount_range; lia|]. split; [apply sub_ok; unfold amount_range; lia|]. lia.
Qed.

(** a defect.  Adjusting such a ticket downwards reports success and sends
    the refund of the lifetime total to the sink, although no amount in memory
    is changed: the persisted spend falls below the enforced one. *)
Theorem Adjust_refund_after_prune_diverges t l p st n a :
  pruned_ticket t l p st n → 0 <= a < n → n <= MaxMoneyMicros →
  bt_totalCaptured t = true → bt_monthCaptured t = false → bl_sink l = true →
  n - a <= micros (spent st) <= MaxMoneyMicros →
  ∃ t' l', BudgetTicket_Adjust (mkMoney a true) t l = (None, t', l') ∧
    bl_heap l' = bl_heap l ∧ bl_states l' = bl_states l ∧
    bl_emitted l' = bl_emitted l ++ [checkedBudgetDelta (bt_keyID t) (a - n) BudgetPeriodTotal zeroTime].
Proof.
  intros [(Hc & HL & Hk & Hg) (Hp & Hst & Hgen) (Hs & Ha) (Hr & Hn) (Hd & Hz & Hno)] Han Hmax Ht Hm Hsink Hsp.
  destruct (spent st) as [sp ksp] eqn:Esp. cbn [micros] in Hsp.
  destruct (refund_amounts a n sp Han Hmax Hsp) as (Hva & Hlt & Hs1 & Hs2 & Hneg & Hnz).
  assert (ksp = true) as -> by (by destruct ksp).
  unfold BudgetTicket_Adjust. rewrite Hc, Hva, HL, Hk, Hp, Hst, Hgen, Z.eqb_refl, Esp, Hs, Ha. cbn [negb orb].
  rewrite (proj2 (Z.eqb_neq _ _) Hg).
  unfold adjust_amounts, Money_Compare. rewrite Hr, Esp. cbn [known negb orb micros]. rewrite Hlt, Hs1, Ht.
  unfold captured_op. rewrite Hs2. cbn [ok_known fst snd known andb negb].
  rewrite Hd, Hz, Hno, Hm. cbn [negb andb default day_spent adjust_bucket Money_Subtract known orb UnknownMoney].
  cbn [aj_ok aj_delta aj_dayDelta aj_monthDelta andb negb Z.eqb micros]. rewrite Hneg, Hnz. cbn [negb].
  unfold notifyBudgetDelta, checkedBudgetDelta. rewrite Hsink. cbn [negb orb bd_Delta]. rewrite Hnz.
  eexists _, _. split; [reflexivity|]. done.
Qed.

Definition demo_nextday_sink : BudgetLimiter := BudgetLimiter_SetCommittedDeltaSink true demo_nextday.

Lemma Adjust_refund_after_prune_diverges_witness :
  ∃ t' l', BudgetTicket_Adjust (mkMoney 15 true) demo_bticket demo_nextday_sink = (None, t', l') ∧
    bl_heap l' = bl_heap demo_nextday_sink ∧ bl_states l' = bl_states demo_nextday_sink ∧
    bl_emitted l' = bl_emitted demo_nextday_sink ++ [checkedBudgetDelta "k" (15 - 40) BudgetPeriodTotal zeroTime].
Proof.
  apply (Adjust_refund_after_prune_diverges demo_bticket demo_nextday_sink 1
           (default (blankState 0) (bl_heap demo_nextday_sink !! 1%positive)) 40 15).
  - constructor; vm_compute; repeat split; congruence.
  - lia.
  - unfold MaxMoneyMicros, maxInt64. lia.
  - reflexivity.
  - reflexivity.
  - reflexivity.
  - vm_compute. split; congruence.
Defined.
