(* ===== verification/Lease.v ===== *)
(** * The resource lease ([internal/limiter/lease.go])

    One request's admission takes a concurrency slot, then tokens, then budget,
    and gives back in reverse order what it has taken when a later resource
    rejects.  The composite lease settles the three resources once, whatever
    terminal methods are called on it and however often.

    The coordinator works on shared objects: the [gate] holds the heap of
    concurrency leases, the two limiters with the reservations they handed out,
    and the composite leases, each reached through a pointer.  Coordinator and
    lease receivers are non-nil; its limiters may be nil. *)

From Stdlib Require Import ZArith Lia ZifyBool.
From stdpp Require Import prelude gmap strings list.
From S2P Require Import Prelude Money Usage Windows ConcurrencyLimiter TokenLimiter BudgetLimiter BudgetAccounts BudgetWorld BudgetSafety.
Local Open Scope Z_scope.

(** ** Data *)

Inductive AdmissionResource := AdmissionConcurrency | AdmissionTokens | AdmissionBudget.

Inductive AdmissionSentinel :=
| ErrConcurrencyUnavailable | ErrTokenUnavailable | ErrBudgetUnavailable | ErrInvalidAdmission.

Record AdmissionError := mkAdmissionError {
  ae_Resource : AdmissionResource; ae_ResetAt : Z; ae_RetryAfterSeconds : Z; ae_Invalid : bool }.

Definition AdmissionError_Unwrap (err : AdmissionError) : AdmissionSentinel :=
  if ae_Invalid err then ErrInvalidAdmission
  else match ae_Resource err with
       | AdmissionTokens => ErrTokenUnavailable
       | AdmissionBudget => ErrBudgetUnavailable
       | AdmissionConcurrency => ErrConcurrencyUnavailable
       end.

Definition invalid_admission (r : AdmissionResource) : AdmissionError := mkAdmissionError r zeroTime 0 true.
Definition rejected_until (r : AdmissionResource) (resetAt : Z) : AdmissionError := mkAdmissionError r resetAt 0 false.

Record ResourceLeaseOptions := mkOptions {
  ro_KeyID : string; ro_MaxConcurrency : Z; ro_TokenWindows : list windowKey; ro_TokenAmount : Z;
  ro_BudgetPolicy : BudgetPolicy; ro_BudgetCandidate : Money }.

(** Which limiters are configured; the concurrency limiter by its pointer. *)
Record ResourceLeaseCoordinator := mkCoordinator {
  co_concurrency : option loc; co_tokens : bool; co_budgets : bool }.

Definition NewResourceLeaseCoordinator (concurrency : option loc) (tokens : bool) (budgets : list bool)
  : ResourceLeaseCoordinator :=
  mkCoordinator concurrency tokens (match budgets with b :: _ => b | [] => false end).

(** A ticket is reached through the reservation that created it, so a pointer
    to a ticket is the pointer to its reservation. *)
Record LeaseAdjustmentTickets := mkTickets { lt_Token : option positive; lt_Budget : option positive }.
Definition noTickets : LeaseAdjustmentTickets := mkTickets None None.

(** [errors.Join] of the two children's errors; nil when both are. *)
Record joinedError := errors_Join { je_token : option TokenError; je_budget : option BudgetError }.
Definition noError : joinedError := errors_Join None None.

(** [done] is closed exactly when [finalized] is set; [finalTokenErr] and
    [finalBudgetErr] are the parts of [finalErr]. *)
Record ResourceLease := mkResourceLease {
  rl_concurrency : option loc; rl_tokens : option positive; rl_budget : option positive;
  rl_finalized : bool; rl_finalizing : bool; rl_finalErr : joinedError; rl_deferredTickets : LeaseAdjustmentTickets }.

Inductive leaseOutcome :=
| outcomeKnown | outcomeConservative | outcomeRelease | outcomeDeferred | outcomeDeferredBudgetConservative.

Record gate := mkGate {
  g_heap : heap; g_tokens : world; g_budgets : bworld; g_leases : gmap positive ResourceLease }.

Definition with_heap (h : heap) (g : gate) : gate := mkGate h (g_tokens g) (g_budgets g) (g_leases g).
Definition with_tokens (w : world) (g : gate) : gate := mkGate (g_heap g) w (g_budgets g) (g_leases g).
Definition with_budgets (w : bworld) (g : gate) : gate := mkGate (g_heap g) (g_tokens g) w (g_leases g).
Definition with_leases (m : gmap positive ResourceLease) (g : gate) : gate := mkGate (g_heap g) (g_tokens g) (g_budgets g) m.

(** ** Calls on the shared objects *)

Definition gate_reserve_tokens (clk : Z) (o : ResourceLeaseOptions) (g : gate) : option positive * Z * gate :=
  let w := g_tokens g in
  let '(r, resetAt, l) := TokenLimiter_Reserve clk (ro_KeyID o) (ro_TokenWindows o) (ro_TokenAmount o) (w_limiter w) in
  match r with
  | None => (None, resetAt, with_tokens (mkWorld l (w_reservations w)) g)
  | Some r =>
      let i := fresh (dom (w_reservations w)) in
      (Some i, resetAt, with_tokens (mkWorld l (<[i := r]> (w_reservations w))) g)
  end.

Definition gate_reserve_budget (clk : Z) (o : ResourceLeaseOptions) (g : gate) : result BudgetError positive * gate :=
  let w := g_budgets g in
  let '(r, l) := BudgetLimiter_Reserve clk (ro_KeyID o) (ro_BudgetPolicy o) (ro_BudgetCandidate o) (bw_limiter w) in
  match r with
  | Err e => (Err e, with_budgets (mkBWorld l (bw_reservations w)) g)
  | Ok r =>
      let i := fresh (dom (bw_reservations w)) in
      (Ok i, with_budgets (mkBWorld l (<[i := r]> (bw_reservations w))) g)
  end.

(** A terminal method of the token reservation at [i]; the ticket it carries
    afterwards. *)
Definition gate_token
  (f : TokenReservation → TokenLimiter.TokenLimiter → option TokenError * TokenReservation * TokenLimiter.TokenLimiter)
  (i : positive) (g : gate) : option TokenError * option positive * gate :=
  let w := g_tokens g in
  match w_reservations w !! i with
  | None => (None, None, g)
  | Some r =>
      let '(err, r, l) := f r (w_limiter w) in
      (err, match tr_ticket r with Some _ => Some i | None => None end,
       with_tokens (mkWorld l (<[i := r]> (w_reservations w))) g)
  end.

Definition gate_budget
  (f : BudgetReservation → BudgetLimiter.BudgetLimiter → option BudgetError * BudgetReservation * BudgetLimiter.BudgetLimiter)
  (i : positive) (g : gate) : option BudgetError * option positive * gate :=
  let w := g_budgets g in
  match bw_reservations w !! i with
  | None => (None, None, g)
  | Some r =>
      let '(err, r, l) := f r (bw_limiter w) in
      (err, match br_ticket r with Some _ => Some i | None => None end,
       with_budgets (mkBWorld l (<[i := r]> (bw_reservations w))) g)
  end.

Definition gate_retry_after (clk resetAt : Z) (g : gate) : Z * gate :=
  let w := g_budgets g in
  let '(n, l) := BudgetLimiter_RetryAfterSeconds clk resetAt (bw_limiter w) in
  (n, with_budgets (mkBWorld l (bw_reservations w)) g).

(** [_ = tokens.ReleaseBeforeUpstream()] on a reservation that may be nil. *)
Definition gate_release_tokens (clk : Z) (t : option positive) (g : gate) : gate :=
  match t with
  | None => g
  | Some i => (gate_token (TokenReservation_ReleaseBeforeUpstream clk) i g).2
  end.

Definition gate_releaseOwned (l : loc) (g : gate) : gate := with_heap (Lease_releaseOwned l (g_heap g)) g.

(** ** Admission *)

Definition acquireConcurrency (co : ResourceLeaseCoordinator) (keyID : string) (maximum : Z) (g : gate)
  : result AdmissionError loc * gate :=
  if maximum <? 0 then (Err (invalid_admission AdmissionConcurrency), g)
  else match co_concurrency co with
  | None =>
      let '(l, h) := new_lease (mkLease None keyID None false false true) (g_heap g) in (Ok l, with_heap h g)
  | Some limiter =>
      let '(r, h) := ConcurrencyLimiter_Acquire limiter keyID maximum (g_heap g) in
      (match r with Some l => Ok l | None => Err (rejected_until AdmissionConcurrency zeroTime) end, with_heap h g)
  end.

Definition budgetRequested (o : ResourceLeaseOptions) : bool :=
  Limited (ro_BudgetPolicy o) || Money_Known (ro_BudgetCandidate o).

(** The clock readings of one admission: by the token limiter in [Reserve] and
    in the rollback, by the budget limiter in [Reserve] and for the retry delay. *)
Record clocks := mkClocks { ck_tokens : Z; ck_budget : Z; ck_rollback : Z; ck_retry : Z }.

(** The rejection reported for a budget error, and the retry delay's reading. *)
Definition budget_rejection (clk : Z) (err : BudgetError) (g : gate) : AdmissionError * gate :=
  match err with
  | BudgetCapacityError resetAt _ =>
      if negb (IsZero resetAt) then
        let '(n, g) := gate_retry_after clk resetAt g in (mkAdmissionError AdmissionBudget resetAt n false, g)
      else (mkAdmissionError AdmissionBudget resetAt 0 false, g)
  | _ => (invalid_admission AdmissionBudget, g)
  end.

(** The token part: the reservation, or the rejection (nothing is held). *)
Definition admit_tokens (co : ResourceLeaseCoordinator) (clk : Z) (o : ResourceLeaseOptions) (g : gate)
  : result AdmissionError (option positive) * gate :=
  if co_tokens co then
    if ro_TokenAmount o <? 0 then (Err (invalid_admission AdmissionTokens), g)
    else if 0 <? ro_TokenAmount o then
      let '(r, resetAt, g) := gate_reserve_tokens clk o g in
      match r with
      | None => (Err (rejected_until AdmissionTokens resetAt), g)
      | Some i => (Ok (Some i), g)
      end
    else (Ok None, g)
  else (Ok None, g).

(** The budget part: the reservation, or the error; [None] is an unknown
    candidate. *)
Definition admit_budget (co : ResourceLeaseCoordinator) (clk : Z) (o : ResourceLeaseOptions) (g : gate)
  : result (option BudgetError) (option positive) * gate :=
  if co_budgets co && budgetRequested o then
    if negb (Money_Known (ro_BudgetCandidate o)) then (Err None, g)
    else
      let '(r, g) := gate_reserve_budget clk o g in
      match r with
      | Err e => (Err (Some e), g)
      | Ok i => (Ok (Some i), g)
      end
  else (Ok None, g).

Definition new_resource_lease (l : loc) (t b : option positive) (g : gate) : positive * gate :=
  let i := fresh (dom (g_leases g)) in
  (i, with_leases (<[i := mkResourceLease (Some l) t b false false noError noTickets]> (g_leases g)) g).

Definition finishAdmission (co : ResourceLeaseCoordinator) (ck : clocks) (l : loc) (o : ResourceLeaseOptions) (g : gate)
  : result AdmissionError positive * gate :=
  let '(tokens, g) := admit_tokens co (ck_tokens ck) o g in
  match tokens with
  | Err e => (Err e, gate_releaseOwned l g)
  | Ok t =>
      let '(budget, g) := admit_budget co (ck_budget ck) o g in
      match budget with
      | Err err =>
          let g := gate_release_tokens (ck_rollback ck) t g in
          let g := gate_releaseOwned l g in
          match err with
          | None => (Err (invalid_admission AdmissionBudget), g)
          | Some e => let '(rej, g) := budget_rejection (ck_retry ck) e g in (Err rej, g)
          end
      | Ok b => let '(i, g) := new_resource_lease l t b g in (Ok i, g)
      end
  end.

Definition Coordinator_Acquire (co : ResourceLeaseCoordinator) (ck : clocks) (o : ResourceLeaseOptions) (g : gate)
  : result AdmissionError positive * gate :=
  let '(r, g) := acquireConcurrency co (ro_KeyID o) (ro_MaxConcurrency o) g in
  match r with
  | Err e => (Err e, g)
  | Ok l => finishAdmission co ck l o g
  end.

Definition Coordinator_AcquireRequest (co : ResourceLeaseCoordinator) (ck : clocks) (keyID : string) (maxConcurrency : Z)
  (tokenWindows : list windowKey) (tokenAmount : Z) : gate → result AdmissionError positive * gate :=
  Coordinator_Acquire co ck
    (mkOptions keyID maxConcurrency tokenWindows tokenAmount UnlimitedBudgetPolicy UnknownMoney).

(** Taking over a provisional lease. *)
Definition adopt_provisional (co : ResourceLeaseCoordinator) (provisional : loc) (o : ResourceLeaseOptions) (g : gate)
  : bool * gate :=
  if ro_MaxConcurrency o <? 0 then (false, g)
  else
    let '(ok, h) := Lease_adoptFor provisional (co_concurrency co) (ro_KeyID o) (0 <? ro_MaxConcurrency o) (g_heap g) in
    (ok, with_heap h g).

Definition Coordinator_AcquireWithProvisional (co : ResourceLeaseCoordinator) (ck : clocks) (provisional : loc)
  (o : ResourceLeaseOptions) (g : gate) : result AdmissionError positive * gate :=
  let '(ok, g) := adopt_provisional co provisional o g in
  if negb ok then (Err (invalid_admission AdmissionConcurrency), g)
  else finishAdmission co ck provisional o g.

Definition Coordinator_PromoteRequest (co : ResourceLeaseCoordinator) (ck : clocks) (provisional : loc) (keyID : string)
  (maxConcurrency : Z) (tokenWindows : list windowKey) (tokenAmount : Z) : gate → result AdmissionError positive * gate :=
  Coordinator_AcquireWithProvisional co ck provisional
    (mkOptions keyID maxConcurrency tokenWindows tokenAmount UnlimitedBudgetPolicy UnknownMoney).

(** ** Settlement *)

(** The arguments of [finish]. *)
Record terminal := mkTerminal { te_outcome : leaseOutcome; te_actual : Z; te_actualKnown : bool; te_cost : Money }.

(** The token half of the outcome switch. *)
Definition settle_tokens (clk : Z) (c : terminal) (tokens : option positive) (g : gate)
  : option TokenError * option positive * gate :=
  match tokens with
  | None => (None, None, g)
  | Some i =>
      let plain f := let '(err, _, g) := gate_token f i g in (err, None, g) in
      match te_outcome c with
      | outcomeKnown =>
          if te_actualKnown c then plain (TokenReservation_Commit clk (te_actual c))
          else plain (TokenReservation_AbortConservative clk)
      | outcomeConservative => plain (TokenReservation_AbortConservative clk)
      | outcomeRelease => plain (TokenReservation_ReleaseBeforeUpstream clk)
      | outcomeDeferred | outcomeDeferredBudgetConservative => gate_token (TokenReservation_CommitDeferred clk) i g
      end
  end.

(** The budget half of the outcome switch. *)
Definition settle_budget (c : terminal) (budget : option positive) (g : gate)
  : option BudgetError * option positive * gate :=
  match budget with
  | None => (None, None, g)
  | Some i =>
      let plain f := let '(err, _, g) := gate_budget f i g in (err, None, g) in
      match te_outcome c with
      | outcomeKnown => plain (BudgetReservation_Commit (te_cost c))
      | outcomeConservative | outcomeDeferredBudgetConservative => plain BudgetReservation_CompleteConservative
      | outcomeRelease => plain BudgetReservation_ReleaseBeforeUpstream
      | outcomeDeferred => gate_budget BudgetReservation_CommitDeferred i g
      end
  end.

(** The first critical section of [finish]: the result of an earlier call, the
    need to wait for a running one, or the claim of the lease's resources. *)
Inductive entered :=
| Returned (err : joinedError) (tickets : LeaseAdjustmentTickets)
| Waiting
| Claimed (lease : ResourceLease).

Definition finish_enter (i : positive) (g : gate) : entered * gate :=
  match g_leases g !! i with
  | None => (Returned noError noTickets, g)
  | Some lease =>
      if rl_finalized lease then (Returned (rl_finalErr lease) (rl_deferredTickets lease), g)
      else if rl_finalizing lease then (Waiting, g)
      else (Claimed lease,
            with_leases (<[i := mkResourceLease (rl_concurrency lease) (rl_tokens lease) (rl_budget lease)
                                  false true (rl_finalErr lease) (rl_deferredTickets lease)]> (g_leases g)) g)
  end.

(** The last critical section: publishing the result and waking the waiters. *)
Definition finish_publish (i : positive) (err : joinedError) (tickets : LeaseAdjustmentTickets) (g : gate) : gate :=
  with_leases (<[i := mkResourceLease None None None true false err tickets]> (g_leases g)) g.

(** [None]: the call waits until the running one closes [done]. *)
Definition ResourceLease_finish (clk : Z) (c : terminal) (i : positive) (g : gate)
  : option (joinedError * LeaseAdjustmentTickets * gate) :=
  let '(e, g) := finish_enter i g in
  match e with
  | Returned err tickets => Some (err, tickets, g)
  | Waiting => None
  | Claimed lease =>
      let '(tokenErr, tokenTicket, g) := settle_tokens clk c (rl_tokens lease) g in
      let '(budgetErr, budgetTicket, g) := settle_budget c (rl_budget lease) g in
      let g := match rl_concurrency lease with Some l => gate_releaseOwned l g | None => g end in
      let err := errors_Join tokenErr budgetErr in
      let tickets := mkTickets tokenTicket budgetTicket in
      Some (err, tickets, finish_publish i err tickets g)
  end.

Definition ResourceLease_CommitKnown (clk actual : Z) :=
  ResourceLease_finish clk (mkTerminal outcomeKnown actual true UnknownMoney).
Definition ResourceLease_CommitKnownWithCost (clk actual : Z) (cost : Money) :=
  ResourceLease_finish clk (mkTerminal outcomeKnown actual true cost).
Definition ResourceLease_CommitKnownUsage (clk : Z) (usage : Usage) (cost : Money) :=
  if negb (TotalTokens_Known (usage_total usage)) then ResourceLease_finish clk (mkTerminal outcomeKnown 0 false cost)
  else ResourceLease_CommitKnownWithCost clk (TotalTokens_Int64 (usage_total usage)) cost.
Definition ResourceLease_CompleteKnown := ResourceLease_CommitKnownUsage.
Definition ResourceLease_CompleteConservative (clk : Z) :=
  ResourceLease_finish clk (mkTerminal outcomeConservative 0 false UnknownMoney).
Definition ResourceLease_ReleaseBeforeUpstream (clk : Z) :=
  ResourceLease_finish clk (mkTerminal outcomeRelease 0 false UnknownMoney).
Definition ResourceLease_TransportCompleteWithAdjustments (clk : Z) :=
  ResourceLease_finish clk (mkTerminal outcomeDeferred 0 false UnknownMoney).
Definition ResourceLease_TransportCompleteTokenDeferredBudgetConservative (clk : Z) :=
  ResourceLease_finish clk (mkTerminal outcomeDeferredBudgetConservative 0 false UnknownMoney).
(** Only the token ticket is returned; the budget ticket stays with the lease. *)
Definition ResourceLease_TransportComplete (clk : Z) (i : positive) (g : gate)
  : option (joinedError * option positive * gate) :=
  '(err, tickets, g) ← ResourceLease_TransportCompleteWithAdjustments clk i g; Some (err, lt_Token tickets, g).

(** [LeaseAdjustmentTickets]' cleanup. *)
Definition Tickets_InvalidateToken (t : LeaseAdjustmentTickets) (g : gate) : gate :=
  match lt_Token t with
  | None => g
  | Some i =>
      let w := g_tokens g in
      with_tokens (mkWorld (w_limiter w)
        (alter (λ r, match tr_ticket r with Some tk => with_ticket (ticket_Invalidate tk) r | None => r end) i
           (w_reservations w))) g
  end.
Definition Tickets_InvalidateBudget (t : LeaseAdjustmentTickets) (g : gate) : gate :=
  match lt_Budget t with
  | None => g
  | Some i =>
      let w := g_budgets g in
      with_budgets (mkBWorld (bw_limiter w)
        (alter (λ r, match br_ticket r with Some tk => with_bticket (BudgetTicket_Invalidate tk) r | None => r end) i
           (bw_reservations w))) g
  end.
Definition Tickets_Invalidate (t : LeaseAdjustmentTickets) (g : gate) : gate :=
  Tickets_InvalidateBudget t (Tickets_InvalidateToken t g).

(** ** What a rejected admission leaves behind

    Admission may notice that a window or a period is over, and forget what
    was accounted for it.  Apart from that a rejection changes no amount: the
    relations say so for each limiter, and are preorders, so that the effects
    of the steps of an admission compose. *)

Record tokens_kept (l l' : TokenLimiter.TokenLimiter) : Prop := {
  tk_active : ∀ key, TokenLimiter.active (bucket_at l' key) = TokenLimiter.active (bucket_at l key);
  tk_committed : ∀ key, committed (bucket_at l' key) = committed (bucket_at l key) ∨ expired (tl_lastNow l') key;
  tk_time : tl_lastNow l <= tl_lastNow l';
  tk_emitted : emitted l' = emitted l;
  tk_policies : policyWindows l' = policyWindows l;
}.

Definition period_over (t : Z) (s : slot) : Prop :=
  ∃ now, now <= t ∧
    match s with
    | STotal => False
    | SDay d => d < Calendar.currentDay now
    | SMonth d => d < Calendar.currentMonth (Calendar.currentDay now)
    end.

Definition slot_kept (t : Z) (st st' : budgetState) (s : slot) : Prop :=
  slot_val st' s = slot_val st s ∨
  slot_val st' s = None ∧ period_over t s ∧ ∃ x y, slot_val st s = Some (x, y) ∧ isZeroMoney y = true.

Record budgets_kept (l l' : BudgetLimiter.BudgetLimiter) : Prop := {
  bk_some : ∀ k st, state_of l k = Some st → ∃ st', state_of l' k = Some st' ∧ ∀ s, slot_kept (bl_lastNow l') st st' s;
  bk_none : ∀ k, state_of l k = None → state_of l' k = None;
  bk_time : bl_lastNow l <= bl_lastNow l';
  bk_emitted : bl_emitted l' = bl_emitted l;
  bk_policies : bl_policies l' = bl_policies l;
}.

Section kept.

#[export] Instance tokens_kept_preorder : PreOrder tokens_kept.
Proof.
  split.
  - intros l. constructor; auto; lia.
  - intros l1 l2 l3 [A1 C1 T1 E1 P1] [A2 C2 T2 E2 P2]. constructor; try congruence; [|lia].
    intros key. destruct (C2 key) as [Ec|]; [|by right]. destruct (C1 key) as [Ec'|Hx]; [left; congruence|right].
    by eapply expired_mono.
Qed.

Lemma period_over_mono t t' s : t <= t' → period_over t s → period_over t' s.
Proof. intros H (now & ? & ?). exists now. split; [lia|done]. Qed.

#[export] Instance budgets_kept_preorder : PreOrder budgets_kept.
Proof.
  split.
  - intros l. constructor; auto; [|lia]. intros k st Hs. exists st. split; [done|]. by left.
  - intros l1 l2 l3 [S1 N1 T1 E1 P1] [S2 N2 T2 E2 P2]. constructor; try congruence; try lia; [|by auto].
    intros k st Hs. destruct (S1 k st Hs) as (st2 & Hs2 & K1). destruct (S2 k st2 Hs2) as (st3 & Hs3 & K2).
    exists st3. split; [done|]. intros s. destruct (K2 s) as [E|(E & Hp & x & y & Hv & Hz)].
    + destruct (K1 s) as [E'|(E' & Hp & Hz)]; [left; congruence|right]. split; [congruence|]. split; [|done].
      by eapply period_over_mono.
    + destruct (K1 s) as [E'|(E' & Hp' & Hz')]; [|congruence]. right. split; [done|]. split; [done|].
      exists x, y. by rewrite <-E'.
Qed.

Lemma discard_kept clk l : tl_time_ok (tl_lastNow l) → clock_range clk → tokens_kept l (discardNow clk l).
Proof.
  intros Ht Hc. destruct (discardNow_frame clk l) as (Hp & _ & He). destruct (discardNow_time clk l Ht Hc) as [Et _].
  constructor; try done; [| |lia]; intros key; unfold bucket_at;
    destruct (discardNow_lookup clk l key) as [-> |[E (b & Eb & H0)] ]; auto; rewrite E, Eb; simpl; [done|].
  right. by eapply discard_expired.
Qed.

End kept.

Section token_rollback.
Context (honest : bool) (l : TokenLimiter.TokenLimiter) (m : gmap positive TokenReservation).
Context (clk : Z) (keyID : string) (ws : list windowKey) (amt : Z).
Context (Hi : tinv honest (mkWorld l m)) (Hc : clock_range clk) (Hint : windows_int64 ws) (Hamt : amt <= maxInt64).

(** The four ways [Reserve] can end. *)
Lemma Reserve_outcomes r reset l1 :
  TokenLimiter_Reserve clk keyID ws amt l = (r, reset, l1) →
  (r = None ∧ l1 = l) ∨ (r = None ∧ l1 = discardNow clk l) ∨
  (r = Some (mkReservation false [] amt false None None) ∧ l1 = l) ∨
  (∃ keys, keys ≠ [] ∧ r = Some (mkReservation true keys amt false None None) ∧
     emitted l1 = emitted l ∧ policyWindows l1 = policyWindows l ∧ tl_lastNow l1 = tl_lastNow (discardNow clk l) ∧
     ∀ key, buckets l1 !! key =
       if decide (key ∈ keys)
       then Some (mkBucket (committed (bucket_at (discardNow clk l) key)) (TokenLimiter.active (bucket_at (discardNow clk l) key) + amt))
       else buckets (discardNow clk l) !! key).
Proof.
  intros HR. destruct (Z.leb_spec amt 0) as [Hz|Hpos].
  { unfold TokenLimiter_Reserve in HR. rewrite (proj2 (Z.leb_le amt 0)) in HR by done. simplify_eq. by left. }
  destruct (windows_ok_dec ws) as [Hok|Hbad].
  2:{ unfold TokenLimiter_Reserve in HR. destruct (Z.leb_spec amt 0); [lia|].
      destruct (normalizeTokenWindows ws) as [n ok] eqn:En.
      pose proof (normalizeTokenWindows_spec ws n ok Hint En) as Hn.
      destruct ok; [by destruct Hn as (_ & _ & ?)|]. simpl in HR. simplify_eq. by left. }
  destruct (decide (ws = [])) as [-> |Hne].
  { unfold TokenLimiter_Reserve in HR. destruct (Z.leb_spec amt 0); [lia|]. simpl in HR. simplify_eq. auto. }
  pose proof (Reserve_cases clk keyID ws amt l (ti_buckets _ _ Hi) Hamt Hok Hne Hpos) as HC. cbv zeta in HC.
  destruct (normalizeTokenWindows_ok ws Hok) as (ns & En & Hperm & Hns). rewrite En in HC. cbn [fst] in HC.
  destruct (policy_current l keyID ns); [|rewrite HR in HC; simplify_eq; auto].
  destruct (forallb (computable (reserve_time clk l)) ns && forallb (fits (discardNow clk l) keyID (reserve_time clk l) amt) ns) eqn:EF.
  2:{ destruct HC as [rs HC]. rewrite HR in HC. simplify_eq. auto. }
  rewrite HR in HC. simplify_eq. apply andb_true_iff in EF as [E1 E2]. do 3 right.
  destruct (discardNow_frame clk l) as (Hp & _ & He). eexists. split; [|split; [done|] ].
  - intros E. apply map_eq_nil in E as ->. by apply Permutation_nil_l in Hperm.
  - cbn [emitted policyWindows tl_lastNow with_buckets]. split_and!; try done.
    intros key. apply Reserve_buckets; [apply discardNow_ok, (ti_buckets _ _ Hi)|lia|apply Hns|done].
Qed.

Lemma Reserve_reject_kept reset l1 :
  TokenLimiter_Reserve clk keyID ws amt l = (None, reset, l1) → tokens_kept l l1.
Proof.
  intros HR. destruct (Reserve_outcomes _ _ _ HR) as [ [_ ->]|[ [_ ->]|[ [? _]|(? & _ & ? & _)] ] ]; try done.
  apply discard_kept; [apply (ti_time _ _ Hi)|done].
Qed.

(** Releasing a fresh reservation undoes it. *)
Lemma Reserve_release_kept clk' r reset l1 err r' l2 :
  clock_range clk' → TokenLimiter_Reserve clk keyID ws amt l = (Some r, reset, l1) →
  TokenReservation_ReleaseBeforeUpstream clk' r l1 = (err, r', l2) → err = None ∧ tokens_kept l l2.
Proof.
  intros Hc' HR HF. pose proof (Reserve_inv honest l m clk keyID ws amt (Some r) reset l1 Hi Hc Hint Hamt HR) as Hi1.
  unfold TokenReservation_ReleaseBeforeUpstream, finalizeOnce in HF.
  destruct (Reserve_outcomes _ _ _ HR) as [ [? _]|[ [? _]|[ [Er ->]|(keys & Hne & Er & He & Hp & Ht & Hb)] ] ]; try done;
    injection Er as ->; cbn [tr_finalized negb] in HF.
  { unfold finalize in HF. simpl in HF. by simplify_eq. }
  destruct (finalize_reachable honest l1 _ (fresh (dom m)) (mkReservation true keys amt false None None) clk' 0 false
              Hi1) as (l3 & HF3 & _ & Ht3 & _ & He3 & Hb3); try done; [by rewrite lookup_insert_eq| |].
  { intros k b _ Hk. pose proof (ti_buckets _ _ Hi1 k b Hk) as [? _]. lia. }
  rewrite HF3 in HF. injection HF as <- _ <-. split; [done|].
  pose proof (ti_time _ _ Hi) as Hto. simpl in Hto. pose proof (ti_time _ _ Hi1) as Hto1. simpl in Hto1.
  assert (Hp3 : policyWindows l3 = policyWindows l1).
  { apply (f_equal snd) in HF3. simpl in HF3. apply (f_equal policyWindows) in HF3.
    rewrite (proj1 (discardNow_frame clk' l3)) in HF3. rewrite <-HF3.
    rewrite finalize_eq by (done || (simpl; pose proof (ti_wf _ _ Hi1 (fresh (dom m)) _ (lookup_insert_eq _ _ _)) as (_ & ? & _); simpl in *; lia)).
    simpl. destruct (foldl _ _ _) as [res lx] eqn:Ef. simpl. rewrite (proj1 (discardNow_frame clk' lx)).
    assert (Hgen : ∀ ks acc, policyWindows (foldl (settleBucket amt 0) acc ks).2 = policyWindows acc.2).
    { induction ks as [|k ks IH]; intros [e0 l0]; [done|]. cbn [foldl]. rewrite IH.
      unfold settleBucket, emitDeltaLocked, storeBucket. repeat case_match; by simplify_eq/=. }
    specialize (Hgen keys (None, l1)). rewrite Ef in Hgen. exact Hgen. }
  transitivity (discardNow clk l); [by apply discard_kept|].
  transitivity l3; [|apply discard_kept; [by rewrite Ht3|done] ].
  assert (Hat : ∀ key, bucket_at l3 key = bucket_at (discardNow clk l) key).
  { intros key. unfold bucket_at at 1. rewrite Hb3, Hb. cbn [tr_buckets tr_amount]. case_decide; [|done]. simpl.
    rewrite Z.add_0_r, Z.add_simpl_r. destruct (bucket_at (discardNow clk l) key) as [c a]. simpl.
    unfold drop_empty. simpl. destruct (Z.eqb_spec a 0), (Z.eqb_spec c 0); simpl; subst; done. }
  destruct (discardNow_frame clk l) as (HpD & _ & HeD).
  constructor.
  - intros key. by rewrite Hat.
  - intros key. left. by rewrite Hat.
  - rewrite Ht3, Ht. lia.
  - rewrite He3, He, HeD. rewrite Z.eqb_refl, orb_true_r. apply app_nil_r.
  - by rewrite Hp3, Hp, HpD.
Qed.

End token_rollback.

Section budget_rollback.
Lemma prune_kept now t st s :
  now <= t → slot_kept t st (prune (Calendar.currentDay now) (Calendar.currentMonth (Calendar.currentDay now)) st) s.
Proof.
  intros Hn. set (ds := Calendar.currentDay now). set (ms := Calendar.currentMonth ds).
  destruct (prune_slot ds ms st s) as [E|(E & x & y & Hv & Hz)]; [by left|right]. split; [done|]. split; [|by exists x, y].
  exists now. split; [done|].
  assert (H : ∀ start (b : gmap Z budgetDayState) d v, bucket_val <$> b !! d = Some v →
            bucket_val <$> filter (λ e, ¬ day_expired start e) b !! d = None → d < start).
  { intros start b d v (bk & Hb & _)%fmap_Some HN. apply fmap_None in HN.
    apply map_lookup_filter_None in HN as [HN|HN]; [congruence|]. specialize (HN bk Hb).
    destruct (decide (day_expired start (d, bk))) as [He|]; [|done].
    unfold day_expired in He. simpl in He. apply andb_true_iff in He as [He _]. unfold Before in He. lia. }
  destruct s; simpl in *; [congruence|by eapply H|by eapply H].
Qed.

Lemma nowTime_kept l clk :
  bl_lastNow l = zeroTime ∨ clock_range (bl_lastNow l) → clock_range clk → budgets_kept l (BudgetLimiter_nowTime clk l).2.
Proof.
  intros Ht Hc. constructor.
  - intros k st Hs. exists st. unfold state_of, state_ptr in *. rewrite nowTime_states, nowTime_heap. split; [done|]. by left.
  - intros k. unfold state_of, state_ptr. by rewrite nowTime_states, nowTime_heap.
  - unfold BudgetLimiter_nowTime, IsZero, Before, clock_range, zeroTime in *.
    destruct (Z.eqb_spec (bl_lastNow l) (-62135596800000000000)), (Z.ltb_spec clk (bl_lastNow l)); simpl; lia.
  - unfold BudgetLimiter_nowTime. by case_match.
  - unfold BudgetLimiter_nowTime. by case_match.
Qed.

Lemma pruned_kept l m clk k :
  binv topcap l m → clock_range clk →
  let ds := Calendar.currentDay (BudgetLimiter_nowTime clk l).1 in
  budgets_kept l (pruned_limiter clk k (prune ds (Calendar.currentMonth ds) <$> state_of l k) l).
Proof.
  intros Hi Hc ds. pose proof (nowTime_kept l clk (bi_time _ _ _ Hi) Hc) as HK. etrans; [exact HK|].
  destruct (nowTime_range clk l (bi_time _ _ _ Hi) Hc) as [Hn1 Hn2]. unfold pruned_limiter. cbv zeta.
  set (l1 := (BudgetLimiter_nowTime clk l).2) in *.
  assert (Es : ∀ k, state_ptr l1 k = state_ptr l k) by (intros; unfold state_ptr, l1; by rewrite nowTime_states).
  assert (Eh : bl_heap l1 = bl_heap l) by apply nowTime_heap.
  rewrite Es. unfold state_of. destruct (state_ptr l k) as [p|] eqn:Ep; [|done]. simpl.
  destruct (bl_heap l !! p) as [st|] eqn:Est; [|done]. simpl.
  constructor; try done.
  - intros k' st' Hs. unfold state_of in *. change (state_ptr (set_state p ?x l1) k') with (state_ptr l1 k').
    rewrite Es in *. destruct (state_ptr l k') as [p'|] eqn:Ep'; [|done]. simpl in *. rewrite Eh in *.
    destruct (decide (p' = p)) as [-> |Hne].
    + rewrite lookup_insert_eq. simplify_eq. eexists. split; [done|]. intros s. apply prune_kept. by rewrite Hn2.
    + rewrite lookup_insert_ne by done. exists st'. split; [done|]. by left.
  - intros k' Hs. unfold state_of in *. change (state_ptr (set_state p ?x l1) k') with (state_ptr l1 k').
    rewrite Es in *. destruct (state_ptr l k') as [p'|] eqn:Ep'; [|done]. simpl in *. rewrite Eh in *.
    rewrite lookup_insert_None. split; [done|]. intros <-. congruence.
Qed.

Lemma Reserve_budget_kept l m clk k policy candidate e l' :
  binv topcap l m → clock_range clk → policy_wf policy → money_wf candidate →
  BudgetLimiter_Reserve clk k policy candidate l = (Err e, l') → budgets_kept l l'.
Proof.
  intros Hi Hc Hwf Hcw HR.
  destruct (negb (validKeyID k) || negb (validKnownMoney candidate) || negb (validPolicy policy)) eqn:Ev.
  { unfold BudgetLimiter_Reserve in HR. rewrite Ev in HR. by simplify_eq. }
  apply orb_false_iff in Ev as [Ev Hpol]. apply orb_false_iff in Ev as [Hk Hkc].
  apply negb_false_iff in Hk, Hpol, Hkc.
  destruct (BudgetLimiter_PolicyCurrent k policy l) eqn:Ecur.
  2:{ unfold BudgetLimiter_Reserve in HR. rewrite Hk, Hkc, Hpol, Ecur in HR. simpl in HR. by simplify_eq. }
  destruct (state_of l k ≫= validateBudgetState) as [ev|] eqn:Evs.
  { apply bind_Some in Evs as (st & Hs & Hv). rewrite (Reserve_refused clk k policy candidate l st ev) in HR by done. by simplify_eq. }
  destruct (validKnownMoney_spec candidate Hkc Hcw) as [Ecand Hcr]. set (c := micros candidate) in *. clearbody c. subst candidate.
  assert (Hlink : ∀ p, state_ptr l k = Some p → is_Some (bl_heap l !! p)) by (intros p Hp; by apply (bi_link _ _ _ Hi _ _ Hp)).
  set (ow := match state_ptr l k with Some p => owed m p | None => λ _, 0 end).
  assert (Hgood : ∀ st, state_of l k = Some st → state_good ow st).
  { intros st Hs. rewrite Hs in Evs. unfold state_of in Hs. unfold ow. destruct (state_ptr l k) as [p|] eqn:Ep; [|done].
    eapply ok_valid_good; [by apply (bi_ok _ _ _ Hi k p)|done]. }
  pose proof (Reserve_spec ow clk k policy c l Hk Hcr Hpol Hwf Hlink Hgood Ecur) as HS.
  destruct (mismatch l k policy); [rewrite HR in HS; by simplify_eq|].
  destruct (unlimited policy); [rewrite HR in HS; by simplify_eq|].
  pose proof (pruned_kept l m clk k Hi Hc) as HK. cbv zeta in HK.
  destruct (decision _ _ _ _ _); [rewrite HR in HS; by simplify_eq|].
  destruct (c =? 0); [rewrite HR in HS; by simplify_eq|].
  destruct (state_ptr l k) as [p|]; [destruct (prune _ _ <$> _)|].
  1: destruct HS as (st' & E & _); rewrite HR in E; by simplify_eq.
  all: cbv zeta in HS; case_match; [|destruct HS as (st' & E & _); rewrite HR in E; by simplify_eq].
  all: rewrite HR in HS; simplify_eq; etrans; [exact HK|]; constructor; try done;
    intros k' st' Hs; exists st'; (split; [done|by left]).
Qed.

End budget_rollback.

(** ** Admission and its rollback *)

(** The inputs are machine integers and well-formed amounts. *)
Record options_ok (o : ResourceLeaseOptions) : Prop := {
  oo_max : ro_MaxConcurrency o <= maxInt64;
  oo_windows : windows_int64 (ro_TokenWindows o);
  oo_amount : ro_TokenAmount o <= maxInt64;
  oo_policy : policy_wf (ro_BudgetPolicy o);
  oo_candidate : money_wf (ro_BudgetCandidate o);
}.

Record clocks_ok (ck : clocks) : Prop := {
  co_ck_tokens : clock_range (ck_tokens ck);
  co_ck_budget : clock_range (ck_budget ck);
  co_ck_rollback : clock_range (ck_rollback ck);
  co_ck_retry : clock_range (ck_retry ck);
}.

(** No unsettled reservation appears. *)
Record gate_kept (g g' : gate) : Prop := {
  gk_tokens : tokens_kept (w_limiter (g_tokens g)) (w_limiter (g_tokens g'));
  gk_budgets : budgets_kept (bw_limiter (g_budgets g)) (bw_limiter (g_budgets g'));
  gk_token_res : ∀ i r, w_reservations (g_tokens g') !! i = Some r → tr_finalized r = false →
    w_reservations (g_tokens g) !! i = Some r;
  gk_budget_res : bw_reservations (g_budgets g') = bw_reservations (g_budgets g);
  gk_leases : g_leases g' = g_leases g;
}.

Section admission.
#[export] Instance gate_kept_preorder : PreOrder gate_kept.
Proof.
  split.
  - intros g. constructor; try done.
  - intros g1 g2 g3 [T1 B1 R1 S1 L1] [T2 B2 R2 S2 L2]. constructor; try congruence; try (by etrans); auto.
Qed.

Lemma acquireConcurrency_spec co p keyID max g r g' :
  cinv (g_heap g) p → max <= maxInt64 → acquireConcurrency co keyID max g = (r, g') →
  g_tokens g' = g_tokens g ∧ g_budgets g' = g_budgets g ∧ g_leases g' = g_leases g ∧
  match r with
  | Err _ => g_heap g' = g_heap g
  | Ok l => cinv (g_heap g') p ∧ leases (g_heap g) !! l = None ∧ ∃ lease,
      leases (g_heap g') = <[l := lease]> (leases (g_heap g)) ∧
      lease_released lease = false ∧ lease_claimed lease = false ∧
      ∀ L K, held_slots (g_heap g') p L K =
        held_slots (g_heap g) p L K + if decide (lease_limiter lease = Some L ∧ K = lease_keyID lease) then 1 else 0
  end.
Proof.
  intros Hi Hmax HA. unfold acquireConcurrency in HA. destruct (Z.ltb_spec max 0); [by simplify_eq|].
  set (un := mkLease None keyID None false false true).
  assert (Hun : cinv (set_lease (fresh (dom (leases (g_heap g)))) un (g_heap g)) p ∧
     ∀ L K, held_slots (set_lease (fresh (dom (leases (g_heap g)))) un (g_heap g)) p L K = held_slots (g_heap g) p L K + 0).
  { split; [exact (unlimited_inv (g_heap g) p keyID Hi)|]. intros L K. rewrite held_slots_new_lease, decide_False; [done|].
    by intros (? & _). }
  destruct (co_concurrency co) as [limiter|].
  - destruct (ConcurrencyLimiter_Acquire limiter keyID max (g_heap g)) as [ol h] eqn:EA. injection HA as <- <-.
    do 3 (split; [done|]). destruct (Z.ltb_spec 0 max).
    + pose proof (Acquire_spec (g_heap g) p limiter keyID max Hi ltac:(lia)) as HS. case_match.
      * destruct HS as (l & h' & E & Hi' & Hnone & Hl & Hh). rewrite EA in E. simplify_eq. cbn [g_heap with_heap].
        do 2 (split; [done|]). eexists. split; [exact Hl|]. split; [done|]. split; [done|]. cbn [lease_limiter lease_keyID].
        intros L K. rewrite Hh. repeat case_decide; try lia; exfalso; naive_solver.
      * rewrite EA in HS. by simplify_eq.
    + unfold ConcurrencyLimiter_Acquire in EA. destruct (Z.ltb_spec max 0); [lia|].
      destruct (Z.eqb_spec max 0); [|lia]. unfold new_lease in EA. simplify_eq. cbn [g_heap with_heap].
      split; [apply Hun|]. split; [apply fresh_lease_None|]. exists un. split; [done|]. split; [done|]. split; [done|].
      intros L K. rewrite (proj2 Hun). rewrite decide_False; [done|]. by intros [? _].
  - unfold new_lease in HA. simplify_eq. cbn [g_heap with_heap g_tokens g_budgets g_leases]. do 3 (split; [done|]).
    split; [apply Hun|]. split; [apply fresh_lease_None|]. exists un. split; [done|]. split; [done|]. split; [done|].
    intros L K. rewrite (proj2 Hun). rewrite decide_False; [done|]. by intros [? _].
Qed.

Section one.
Context (honest : bool).
Context (co : ResourceLeaseCoordinator) (ck : clocks) (o : ResourceLeaseOptions).
Context (Hck : clocks_ok ck) (Ho : options_ok o).

(** The token part either reserves, or keeps everything. *)
Lemma admit_tokens_spec g r g' :
  tinv honest (g_tokens g) → admit_tokens co (ck_tokens ck) o g = (r, g') →
  g_heap g' = g_heap g ∧ g_budgets g' = g_budgets g ∧ g_leases g' = g_leases g ∧
  match r with
  | Err _ => gate_kept g g'
  | Ok t => gate_kept g (gate_release_tokens (ck_rollback ck) t g')
  end.
Proof.
  intros Hi HA. unfold admit_tokens in HA. destruct (co_tokens co); [|by simplify_eq].
  destruct (Z.ltb_spec (ro_TokenAmount o) 0); [by simplify_eq|]. destruct (Z.ltb_spec 0 (ro_TokenAmount o)); [|by simplify_eq].
  unfold gate_reserve_tokens in HA. destruct (g_tokens g) as [l m] eqn:Eg. cbn [w_limiter w_reservations] in HA.
  destruct (TokenLimiter_Reserve _ _ _ _ l) as [ [ [r1|] reset] l1] eqn:ER; injection HA as <- <-; split_and!; try done.
  - cbn [gate_release_tokens]. unfold gate_token. cbn [g_tokens with_tokens w_reservations w_limiter].
    rewrite lookup_insert_eq.
    destruct (TokenReservation_ReleaseBeforeUpstream (ck_rollback ck) r1 l1) as [ [err r2] l2] eqn:EF. cbn [snd].
    destruct (Reserve_release_kept honest l m _ _ _ _ Hi (co_ck_tokens _ Hck) (oo_windows _ Ho) (oo_amount _ Ho)
                _ _ _ _ _ _ _ (co_ck_rollback _ Hck) ER EF) as [_ HK].
    constructor; cbn; try done; rewrite ?Eg; [done|]. intros i r Hr Hf.
    rewrite insert_insert_eq in Hr. apply lookup_insert_Some in Hr as [ [_ <-]|[_ Hr] ]; [|done].
    unfold TokenReservation_ReleaseBeforeUpstream, finalizeOnce in EF. exfalso.
    destruct (tr_finalized r1) eqn:E1; simpl in EF; [simplify_eq; congruence|].
    destruct (finalize _ _ _ _ _) in EF. by simplify_eq.
  - constructor; cbn; try done; rewrite ?Eg; [|done].
    exact (Reserve_reject_kept honest l m _ _ _ _ Hi (co_ck_tokens _ Hck) (oo_windows _ Ho) (oo_amount _ Ho) _ _ ER).
Qed.

(** The budget part either reserves, or keeps everything. *)
Lemma admit_budget_spec g e g' :
  binv topcap (bw_limiter (g_budgets g)) (bw_reservations (g_budgets g)) →
  admit_budget co (ck_budget ck) o g = (Err e, g') → ∃ l', g' = with_budgets (mkBWorld l' (bw_reservations (g_budgets g))) g ∧
    budgets_kept (bw_limiter (g_budgets g)) l' ∧ (bl_lastNow l' = zeroTime ∨ clock_range (bl_lastNow l')).
Proof.
  intros Hi HA. unfold admit_budget in HA. destruct (co_budgets co && budgetRequested o); [|by simplify_eq].
  destruct (Money_Known _); simpl in HA.
  - unfold gate_reserve_budget in HA. destruct (BudgetLimiter_Reserve _ _ _ _ _) as [ [r|e1] l1] eqn:ER; simplify_eq.
    exists l1. split; [done|]. split.
    + exact (Reserve_budget_kept _ _ _ _ _ _ _ _ Hi (co_ck_budget _ Hck) (oo_policy _ Ho) (oo_candidate _ Ho) ER).
    + apply (bi_time topcap l1 (bw_reservations (g_budgets g))).
      assert (Hcall : bcall_ok (CReserve (ck_budget ck) (ro_KeyID o) (ro_BudgetPolicy o) (ro_BudgetCandidate o)))
        by (split_and!; [apply (co_ck_budget _ Hck)|apply (oo_policy _ Ho)|apply (oo_candidate _ Ho)]).
      exact (b_Reserve_inv topcap topcap_pos _ _ _ _ _ _ (Err e1) l1 Hi (co_ck_budget _ Hck) (oo_policy _ Ho)
               (oo_candidate _ Ho) (call_within_top _ Hcall) ER).
  - simplify_eq. exists (bw_limiter (g_budgets g')). split; [by destruct g' as [? ? [? ?] ?]|]. split; [done|]. apply (bi_time _ _ _ Hi).
Qed.

Lemma release_tokens_frame clk t w g :
  gate_release_tokens clk t (with_budgets w g) = with_budgets w (gate_release_tokens clk t g).
Proof.
  unfold gate_release_tokens, gate_token. destruct t as [i|]; [|done]. cbn [g_tokens with_budgets].
  destruct (w_reservations (g_tokens g) !! i) as [r|]; [|done]. by destruct (TokenReservation_ReleaseBeforeUpstream _ _ _) as [ [? ?] ?].
Qed.

Lemma release_tokens_only clk t g :
  g_heap (gate_release_tokens clk t g) = g_heap g ∧ g_budgets (gate_release_tokens clk t g) = g_budgets g ∧
  g_leases (gate_release_tokens clk t g) = g_leases g.
Proof.
  unfold gate_release_tokens, gate_token. destruct t as [i|]; [|done].
  destruct (w_reservations (g_tokens g) !! i) as [r|]; [|done]. by destruct (TokenReservation_ReleaseBeforeUpstream _ _ _) as [ [? ?] ?].
Qed.

(** The retry delay only reads the budget limiter's clock. *)
Lemma budget_rejection_kept e g rej g' :
  bl_lastNow (bw_limiter (g_budgets g)) = zeroTime ∨ clock_range (bl_lastNow (bw_limiter (g_budgets g))) →
  budget_rejection (ck_retry ck) e g = (rej, g') → gate_kept g g' ∧ g_heap g' = g_heap g.
Proof.
  intros Ht HB. unfold budget_rejection in HB. destruct e; try by simplify_eq.
  destruct (IsZero ResetAt); simpl in HB; [by simplify_eq|].
  unfold gate_retry_after, BudgetLimiter_RetryAfterSeconds in HB.
  pose proof (nowTime_kept (bw_limiter (g_budgets g)) (ck_retry ck) Ht (co_ck_retry _ Hck)) as HK.
  destruct (BudgetLimiter_nowTime _ _) as [now l]. simplify_eq. split; [|done]. by constructor.
Qed.

Lemma finishAdmission_reject l g e g' :
  tinv honest (g_tokens g) → binv topcap (bw_limiter (g_budgets g)) (bw_reservations (g_budgets g)) →
  finishAdmission co ck l o g = (Err e, g') →
  gate_kept g g' ∧ g_heap g' = Lease_releaseOwned l (g_heap g).
Proof.
  intros Ht Hb HF. unfold finishAdmission in HF.
  destruct (admit_tokens co (ck_tokens ck) o g) as [t g1] eqn:ET.
  destruct (admit_tokens_spec g t g1 Ht ET) as (Eh1 & Eb1 & El1 & HK1).
  destruct t as [t|e1].
  2:{ simplify_eq. unfold gate_releaseOwned. cbn [g_heap with_heap]. rewrite Eh1. split; [|done].
      destruct HK1. by constructor. }
  destruct (admit_budget co (ck_budget ck) o g1) as [b g2] eqn:EB.
  destruct b as [b|err]; [by destruct (new_resource_lease _ _ _ _); simplify_eq|].
  rewrite <-Eb1 in Hb. destruct (admit_budget_spec g1 err g2 Hb EB) as (l' & -> & HKb & Htime).
  rewrite release_tokens_frame in HF. destruct (release_tokens_only (ck_rollback ck) t g1) as (Eh3 & Eb3 & El3).
  set (g4 := gate_releaseOwned l _) in HF.
  assert (HK4 : gate_kept g g4 ∧ g_heap g4 = Lease_releaseOwned l (g_heap g)).
  { unfold g4, gate_releaseOwned. cbn [g_heap with_heap with_budgets]. rewrite Eh3, Eh1. split; [|done].
    destruct HK1 as [KT KB KR KS KL]. constructor; try done; cbn; [by rewrite <-Eb1|by rewrite Eb1]. }
  destruct err as [err|]; [|by simplify_eq].
  destruct (budget_rejection (ck_retry ck) err g4) as [rej g5] eqn:ER. simplify_eq.
  destruct (budget_rejection_kept err g4 e g' Htime ER) as [HK5 Eh5]. split; [|rewrite Eh5; apply HK4].
  etrans; [apply HK4|exact HK5].
Qed.

End one.
End admission.

(** ** The effects of settlement *)

Section settling.

Lemma finalizeOnce_final clk usage actual r l err r' l' :
  finalizeOnce clk usage actual r l = (err, r', l') → tr_finalized r' = true ∧ tr_ticket r' = tr_ticket r.
Proof.
  unfold finalizeOnce. destruct (tr_finalized r) eqn:E; simpl; [by intros [= <- <- <-]|].
  destruct (finalize _ _ _ _ _). by intros [= <- <- <-].
Qed.

Lemma CommitDeferred_final clk r l err r' l' :
  TokenReservation_CommitDeferred clk r l = (err, r', l') → tr_finalized r' = true.
Proof.
  unfold TokenReservation_CommitDeferred. destruct (tr_finalized r) eqn:E; simpl; [by intros [= <- <- <-]|].
  destruct (finalize _ _ _ _ _). by intros [= <- <- <-].
Qed.

(** One settlement of a child: nothing but that child's world changes, and the
    reservation is settled. *)
Definition token_settled (t : option positive) (g g' : gate) : Prop :=
  ∃ l', match t with
        | None => g' = g
        | Some i => match w_reservations (g_tokens g) !! i with
                    | None => g' = g
                    | Some r => ∃ r', tr_finalized r' = true ∧
                        g' = with_tokens (mkWorld l' (<[i := r']> (w_reservations (g_tokens g)))) g
                    end
        end.

Definition budget_settled (b : option positive) (g g' : gate) : Prop :=
  ∃ l', match b with
        | None => g' = g
        | Some i => match bw_reservations (g_budgets g) !! i with
                    | None => g' = g
                    | Some r => ∃ r', br_finalized r' = true ∧
                        g' = with_budgets (mkBWorld l' (<[i := r']> (bw_reservations (g_budgets g)))) g
                    end
        end.

Lemma gate_token_settled f i g err tk g' :
  (∀ r l err r' l', f r l = (err, r', l') → tr_finalized r' = true) →
  gate_token f i g = (err, tk, g') → token_settled (Some i) g g'.
Proof.
  intros Hf HG. unfold gate_token in HG. unfold token_settled.
  destruct (w_reservations (g_tokens g) !! i) as [r|]; [|simplify_eq; by exists (w_limiter (g_tokens g'))].
  destruct (f r (w_limiter (g_tokens g))) as [ [e r'] l'] eqn:E. simplify_eq. eauto 6.
Qed.

Lemma gate_budget_settled kind actual deferred i g err tk g' :
  gate_budget (finalizeInternal kind actual deferred) i g = (err, tk, g') → budget_settled (Some i) g g'.
Proof.
  intros HG. unfold gate_budget in HG. unfold budget_settled.
  destruct (bw_reservations (g_budgets g) !! i) as [r|]; [|simplify_eq; by exists (bw_limiter (g_budgets g'))].
  destruct (finalizeInternal kind actual deferred r (bw_limiter (g_budgets g))) as [ [e r'] l'] eqn:E. simplify_eq.
  exists l', r'. split; [|done]. unfold finalizeInternal in E.
  destruct (br_finalized r) eqn:Ef; [by simplify_eq|]. destruct (settleReservation _ _ _ _ _) as [ [ [? ?] ?] ?]. by simplify_eq.
Qed.

Lemma settle_tokens_settled clk c t g err tk g' :
  settle_tokens clk c t g = (err, tk, g') → token_settled t g g'.
Proof.
  intros HS. unfold settle_tokens in HS. destruct t as [i|]; [|simplify_eq; by exists (w_limiter (g_tokens g'))].
  assert (Hf : ∀ f, (∀ r l err r' l', f r l = (err, r', l') → tr_finalized r' = true) →
            (let '(err, _, g) := gate_token f i g in (err, @None positive, g)) = (err, tk, g') → token_settled (Some i) g g').
  { intros f Hf HG. destruct (gate_token f i g) as [ [? ?] ?] eqn:E. simplify_eq. by eapply gate_token_settled. }
  destruct (te_outcome c); [destruct (te_actualKnown c)| | | |]; revert HS;
    (apply Hf || apply gate_token_settled); intros r l e r' l';
    first [intros H; by apply CommitDeferred_final in H | intros H; by apply finalizeOnce_final in H as [? _] ].
Qed.

Lemma settle_budget_settled c b g err tk g' :
  settle_budget c b g = (err, tk, g') → budget_settled b g g'.
Proof.
  intros HS. unfold settle_budget in HS. destruct b as [i|]; [|simplify_eq; by exists (bw_limiter (g_budgets g'))].
  unfold BudgetReservation_Commit, BudgetReservation_CompleteConservative, BudgetReservation_ReleaseBeforeUpstream,
    BudgetReservation_CommitDeferred in HS.
  destruct (te_outcome c); try (by eapply gate_budget_settled);
    destruct (gate_budget _ _ _) as [ [? ?] ?] eqn:E; simplify_eq; by eapply gate_budget_settled.
Qed.

Lemma token_settled_frame t g g' :
  token_settled t g g' → g_heap g' = g_heap g ∧ g_budgets g' = g_budgets g ∧ g_leases g' = g_leases g.
Proof. intros [l' H]. destruct t; [|by subst]. case_match; [destruct H as (r' & _ & ->)|subst]; done. Qed.

Lemma budget_settled_frame b g g' :
  budget_settled b g g' → g_heap g' = g_heap g ∧ g_tokens g' = g_tokens g ∧ g_leases g' = g_leases g.
Proof. intros [l' H]. destruct b; [|by subst]. case_match; [destruct H as (r' & _ & ->)|subst]; done. Qed.

Lemma token_settled_after t g g' i r :
  token_settled t g g' → t = Some i → w_reservations (g_tokens g') !! i = Some r → tr_finalized r = true.
Proof.
  intros [l' H] ->. destruct (w_reservations (g_tokens g) !! i) eqn:E; [destruct H as (r' & Hr & ->)|subst; congruence].
  simpl. rewrite lookup_insert_eq. by intros [= <-].
Qed.

Lemma budget_settled_after b g g' i r :
  budget_settled b g g' → b = Some i → bw_reservations (g_budgets g') !! i = Some r → br_finalized r = true.
Proof.
  intros [l' H] ->. destruct (bw_reservations (g_budgets g) !! i) eqn:E; [destruct H as (r' & Hr & ->)|subst; congruence].
  simpl. rewrite lookup_insert_eq. by intros [= <-].
Qed.

End settling.

(** ** Properties *)

(** C7: a rejected admission is rolled back.  Whichever resource rejects, the
    coordinator returns the slot it took and undoes the token reservation it
    made: every key holds as many slots as before, every token bucket and every
    budget account has the amounts it had (unless its window or period is
    over), nothing is reported to the durable sinks, and no lease and no
    unsettled reservation is left. *)
Theorem Acquire_rejection_rolls_back honest p co ck o g e g' :
  clocks_ok ck → options_ok o →
  creachable (g_heap g, p) → treachable honest (g_tokens g) → breachable (g_budgets g) →
  Coordinator_Acquire co ck o g = (Err e, g') →
  gate_kept g g' ∧ ∀ limiter k, held_slots (g_heap g') p limiter k = held_slots (g_heap g) p limiter k.
Proof.
  intros Hck Ho Hh Ht Hb HA. apply creachable_inv in Hh. apply treachable_inv in Ht.
  destruct (g_budgets g) as [bl bm] eqn:Eb. apply breachable_inv in Hb.
  unfold Coordinator_Acquire in HA. destruct (acquireConcurrency _ _ _ g) as [r g1] eqn:EA.
  destruct (acquireConcurrency_spec co p _ _ g r g1 Hh (oo_max _ Ho) EA) as (Et1 & Eb1 & El1 & HS).
  assert (HK1 : gate_kept g g1) by (constructor; by rewrite ?Et1, ?Eb1).
  destruct r as [l|e1]; [|simplify_eq; split; [done|]; by rewrite HS].
  destruct HS as (Hi1 & _ & lease & Hl & Hr & _ & Hheld).
  destruct (finishAdmission_reject honest co ck o Hck Ho l g1 e g') as [HK2 Eh]; try done.
  - by rewrite Et1.
  - by rewrite Eb1, Eb.
  - split; [by etrans|]. intros L K. rewrite Eh.
    rewrite (proj2 (releaseOwned_held (g_heap g1) p l lease Hi1 ltac:(rewrite Hl; apply lookup_insert_eq) Hr)).
    rewrite Hheld. case_decide; lia.
Qed.

(** An admission whose tokens fit and whose cost exceeds the daily budget. *)
Definition demo_gate : gate := mkGate new_heap (mkWorld NewTokenLimiter ∅) (mkBWorld NewBudgetLimiter ∅) ∅.
Definition demo_coordinator : ResourceLeaseCoordinator := NewResourceLeaseCoordinator (Some 1%positive) true [true].
Definition demo_clocks : clocks := mkClocks 1700000000000000000 1700000000000000000 1700000000000000000 1700000000000000000.
Definition demo_request (cost : Z) : ResourceLeaseOptions :=
  mkOptions "k" 2 [demo_token_window] 40 demo_policy (mkMoney cost true).

Lemma demo_clocks_ok : clocks_ok demo_clocks.
Proof. constructor; unfold clock_range, maxInt64; simpl; lia. Qed.

Lemma demo_request_ok cost : 0 <= cost <= 100 → options_ok (demo_request cost).
Proof.
  intros Hc. constructor; simpl; [unfold maxInt64; lia| |unfold maxInt64; lia|apply demo_policy_wf|].
  - constructor; [|constructor]. simpl. unfold maxInt64. lia.
  - unfold money_wf. simpl. unfold MaxMoneyMicros, maxInt64. lia.
Qed.

Lemma Acquire_rejection_rolls_back_witness :
  ∃ e g', Coordinator_Acquire demo_coordinator demo_clocks (demo_request 60) demo_gate = (Err e, g') ∧
    ae_Resource e = AdmissionBudget ∧ held_slots (g_heap g') ∅ 1 "k" = held_slots new_heap ∅ 1 "k".
Proof.
  destruct (Coordinator_Acquire demo_coordinator demo_clocks (demo_request 60) demo_gate) as [r g'] eqn:E.
  assert (Hr : match r with Err e => ae_Resource e = AdmissionBudget | Ok _ => False end)
    by (vm_compute in E; injection E as <- _; reflexivity).
  destruct r as [|e]; [destruct Hr|]. exists e, g'. split; [reflexivity|]. split; [exact Hr|].
  apply (Acquire_rejection_rolls_back true ∅ demo_coordinator demo_clocks (demo_request 60) demo_gate e g').
  - apply demo_clocks_ok.
  - apply demo_request_ok. lia.
  - apply rtc_refl.
  - exists (mkWorld NewTokenLimiter ∅). split; [constructor|apply rtc_refl].
  - apply rtc_refl.
  - exact E.
Defined.

(** C8: a lease settles once and completely.  The first terminal call on an open
    lease returns, whatever its outcome and whatever the children's errors: the
    token and budget reservations are settled and the slot the lease held is
    returned.  Every later terminal call, of any kind, returns the same error
    and the same tickets and changes nothing. *)
Theorem finish_settles_once p clk c i g lease :
  creachable (g_heap g, p) → g_leases g !! i = Some lease → rl_finalized lease = false → rl_finalizing lease = false →
  ∃ err tickets g', ResourceLease_finish clk c i g = Some (err, tickets, g') ∧
    (∀ t r, rl_tokens lease = Some t → w_reservations (g_tokens g') !! t = Some r → tr_finalized r = true) ∧
    (∀ b r, rl_budget lease = Some b → bw_reservations (g_budgets g') !! b = Some r → br_finalized r = true) ∧
    (∀ l slot, rl_concurrency lease = Some l → leases (g_heap g) !! l = Some slot → lease_released slot = false →
       ∀ limiter k, held_slots (g_heap g') p limiter k =
         held_slots (g_heap g) p limiter k -
         if decide (lease_limiter slot = Some limiter ∧ k = lease_keyID slot) then 1 else 0) ∧
    ∀ clk' c', ResourceLease_finish clk' c' i g' = Some (err, tickets, g').
Proof.
  intros Hh Hl Hf Hz. apply creachable_inv in Hh. unfold ResourceLease_finish at 1, finish_enter at 1. rewrite Hl, Hf, Hz.
  set (g0 := with_leases _ g).
  destruct (settle_tokens clk c (rl_tokens lease) g0) as [ [terr ttk] g1] eqn:ET. apply settle_tokens_settled in ET.
  destruct (settle_budget c (rl_budget lease) g1) as [ [berr btk] g2] eqn:EB. apply settle_budget_settled in EB.
  destruct (token_settled_frame _ _ _ ET) as (Eh1 & _ & _). destruct (budget_settled_frame _ _ _ EB) as (Eh2 & Et2 & _).
  set (g3 := match rl_concurrency lease with Some l => gate_releaseOwned l g2 | None => g2 end).
  assert (E3 : g_tokens g3 = g_tokens g2 ∧ g_budgets g3 = g_budgets g2 ∧
     g_heap g3 = match rl_concurrency lease with Some l => Lease_releaseOwned l (g_heap g2) | None => g_heap g2 end)
    by (unfold g3; by case_match).
  destruct E3 as (Et3 & Eb3 & Eh3). eexists _, _, _. split; [done|]. cbn [g_tokens g_budgets g_heap finish_publish with_leases].
  rewrite Et3, Eb3, Et2. split_and!.
  - intros t r Ht. by eapply token_settled_after.
  - intros b r Hb. by eapply budget_settled_after.
  - intros l slot Hc Hs Hr L K. rewrite Eh3, Hc, Eh2, Eh1. by apply releaseOwned_held.
  - intros clk' c'. unfold ResourceLease_finish, finish_enter, finish_publish.
    cbn [g_leases with_leases]. by rewrite lookup_insert_eq.
Qed.

Lemma finish_settles_once_witness :
  match Coordinator_Acquire demo_coordinator demo_clocks (demo_request 40) demo_gate with
  | (Ok i, g) => ∃ err tickets g',
      ResourceLease_CommitKnownWithCost 1700000000000000000 25 (mkMoney 30 true) i g = Some (err, tickets, g') ∧
      ResourceLease_ReleaseBeforeUpstream 1700000001000000000 i g' = Some (err, tickets, g')
  | _ => False
  end.
Proof.
  destruct (Coordinator_Acquire demo_coordinator demo_clocks (demo_request 40) demo_gate) as [r g] eqn:E.
  assert (Hr : match r with
               | Ok i => ∃ h' l, ConcurrencyLimiter_Acquire 1 "k" 2 new_heap = (l, h') ∧ g_heap g = h' ∧
                   ∃ lease, g_leases g !! i = Some lease ∧ rl_finalized lease = false ∧ rl_finalizing lease = false
               | Err _ => False
               end)
    by (vm_compute in E; injection E as <- <-; do 2 eexists; split; [vm_compute; reflexivity|];
        split; [reflexivity|]; eexists; split; [vm_compute; reflexivity|split; reflexivity]).
  destruct r as [i|]; [|destruct Hr]. destruct Hr as (h' & l & HA & Hh & lease & Hl & Hf & Hz).
  destruct (finish_settles_once ∅ 1700000000000000000 (mkTerminal outcomeKnown 25 true (mkMoney 30 true)) i g lease)
    as (err & tickets & g' & HF & _ & _ & _ & Hagain).
  - rewrite Hh. eapply rtc_l; [|apply rtc_refl]. eapply step_acquire; [|exact HA]. unfold maxInt64. lia.
  - exact Hl.
  - exact Hf.
  - exact Hz.
  - exists err, tickets, g'. split; [exact HF|]. apply Hagain.
Defined.
