(* ===== verification/LeaseSystem.v ===== *)
(** * All requests together ([internal/limiter/lease.go], concurrently)

    The coordinator's calls are sequences of critical sections, run by many
    goroutines at once.  A goroutine is a program counter into such a call, a
    step runs one critical section of one goroutine, and the system interleaves
    them freely with the other calls on the limiters.  Every step is a step of
    each limiter's own transition system, so the limiters' guarantees carry
    over, and every resource taken has an owner until it is settled, so nothing
    leaks. *)

From Stdlib Require Import ZArith Lia ZifyBool.
From stdpp Require Import prelude gmap strings list.
From S2P Require Import Prelude Money Usage Windows ConcurrencyLimiter TokenLimiter BudgetLimiter BudgetAccounts BudgetWorld BudgetSafety Lease.
Local Open Scope Z_scope.

(** ** The interface of a limiter that hands out reservations

    What the coordinator needs of the token and budget limiters: in a sound
    state whose reservations are all settled, an account holds what [kept]
    says the settlements left behind. *)

Class Ledger (W R A : Type) := {
  reservations : W → gmap positive R;
  is_settled : R → bool;
  sound : W → Prop;
  held : W → A → Z;
  kept : W → A → Z;
  held_settled w : sound w → map_Forall (λ _ r, is_settled r = true) (reservations w) → ∀ a, held w a = kept w a;
}.

Lemma token_held_settled w :
  tinv false w → map_Forall (λ _ r, tr_finalized r = true) (w_reservations w) →
  ∀ key, TokenLimiter.active (bucket_at (w_limiter w) key) = 0.
Proof.
  intros Hw Hs key. pose proof (ti_active _ _ Hw key) as Ha.
  assert (E : msum (unsettled key) (w_reservations w) = 0).
  { apply msum_zero. intros i r Hr. unfold unsettled. by rewrite (Hs i r Hr). }
  unfold bucket_at. destruct (buckets (w_limiter w) !! key); simpl; [|done]. lia.
Qed.

#[export] Instance token_ledger : Ledger world TokenReservation tokenBucketKey := {|
  reservations := w_reservations;
  is_settled := tr_finalized;
  sound := tinv false;
  held w key := TokenLimiter.active (bucket_at (w_limiter w) key);
  kept _ _ := 0;
  held_settled := token_held_settled |}.

Definition budget_held (w : bworld) (a : string * slot) : Z := (account (state_of (bw_limiter w) a.1) a.2).2.

(** A settlement the limiter refused because the key's state failed its check:
    the reservation is final and still holds its money. *)
Definition refused_settlement (r : BudgetReservation) : bool :=
  br_finalized r && bool_decide (is_Some (br_state r)) && negb (b_returned r).

Definition refused_money (m : gmap positive BudgetReservation) (k : string) (s : slot) : Z :=
  msum (λ r, if refused_settlement r && bool_decide (br_keyID r = k) && captures r s then micros (br_amount r) else 0) m.

Lemma budget_held_settled w :
  binv topcap (bw_limiter w) (bw_reservations w) → map_Forall (λ _ r, br_finalized r = true) (bw_reservations w) →
  ∀ a, budget_held w a = refused_money (bw_reservations w) a.1 a.2.
Proof.
  intros Hw Hs [k s]. destruct w as [l m]. unfold budget_held. simpl in *.
  (* what an unreturned reservation holds, by its key *)
  assert (Hkey : ∀ i r, m !! i = Some r → refused_settlement r = true → br_keyID r = k → ∃ p st,
    state_ptr l k = Some p ∧ bl_heap l !! p = Some st ∧ br_state r = Some p ∧ b_held p s r = if captures r s then micros (br_amount r) else 0).
  { intros i r Hr Hf Hk. unfold refused_settlement in Hf. apply andb_true_iff in Hf as [Hf Hret]. apply andb_true_iff in Hf as [_ Hst].
    apply bool_decide_eq_true in Hst as [p Hp]. apply negb_true_iff in Hret.
    destruct (bi_res _ _ _ Hw i r p Hr Hret Hp) as (n & st & Hh & Hptr & Hheap & _). rewrite Hk in Hptr. exists p, st.
    split_and!; try done. destruct (captures r s) eqn:Ec; [|by apply held_uncaptured].
    rewrite (held_holds p s r n Hret Hh Ec), (h_amount _ _ _ Hh). done. }
  unfold account, state_of. destruct (state_ptr l k) as [p|] eqn:Ep; simpl.
  - destruct (bi_link _ _ _ Hw _ _ Ep) as [_ [st Est] ]. rewrite Est.
    assert (E : refused_money m k s = owed m p s).
    { apply msum_ext. intros i r Hr. destruct (refused_settlement r && bool_decide (br_keyID r = k)) eqn:Ef; simpl.
      - apply andb_true_iff in Ef as [Ef Ek]. apply bool_decide_eq_true in Ek.
        destruct (Hkey i r Hr Ef Ek) as (q & x & [= <-] & _ & _ & ->). done.
      - symmetry. unfold b_held. destruct (b_returned r) eqn:Eret; [done|]. destruct (decide (br_state r = Some p)) as [Eq|Eq];
          [|by rewrite bool_decide_false by done].
        destruct (bi_res _ _ _ Hw i r p Hr Eret Eq) as (n & x & Hh & Hptr & _).
        pose proof (bi_inj _ _ _ Hw _ _ _ Hptr Ep) as Ekk. exfalso. revert Ef.
        unfold refused_settlement. rewrite (Hs i r Hr), Eret, Eq, !bool_decide_true by (eauto || congruence). done. }
    rewrite E. destruct (slot_val st s) as [v|] eqn:Ev; simpl.
    + destruct (so_val _ _ _ (bi_ok _ _ _ Hw k p st Ep Est) s v Ev) as [(-> & _ & ->)|(a & b & -> & _ & _ & _ & -> & _)]; done.
    + by rewrite (so_none _ _ _ (bi_ok _ _ _ Hw k p st Ep Est) s Ev).
  - symmetry. apply msum_zero. intros i r Hr. destruct (refused_settlement r && bool_decide (br_keyID r = k)) eqn:Ef; [|done].
    apply andb_true_iff in Ef as [Ef Ek]. apply bool_decide_eq_true in Ek. destruct (Hkey i r Hr Ef Ek) as (q & x & ? & _). done.
Qed.

#[export] Instance budget_ledger : Ledger bworld BudgetReservation (string * slot) := {|
  reservations := bw_reservations;
  is_settled := br_finalized;
  sound w := binv topcap (bw_limiter w) (bw_reservations w);
  held := budget_held;
  kept w a := refused_money (bw_reservations w) a.1 a.2;
  held_settled := budget_held_settled |}.

(** Every unsettled reservation has an owner. *)
Definition covered `{Ledger W R A} (owned : positive → Prop) (w : W) : Prop :=
  ∀ i r, reservations w !! i = Some r → is_settled r = false → owned i.

Lemma unowned_empty `{Ledger W R A} owned (w : W) :
  sound w → covered owned w → (∀ i, ¬ owned i) → ∀ a, held w a = kept w a.
Proof.
  intros Hw Hc Hn. apply held_settled; [done|]. intros i r Hr. destruct (is_settled r) eqn:E; [done|].
  destruct (Hn i (Hc i r Hr E)).
Qed.

(** ** Goroutines *)

(** What a rollback reports: a rejection, or the budget error it will turn into
    one after the rollback. *)
Abbreviation rejection := (AdmissionError + BudgetError)%type.

Inductive pc :=
(* the bounded inspection of an upload, holding a provisional slot *)
| PProvision (limiter : loc) (keyID : string) (max : Z)
| PHold (l : loc)
| PDrop (l : loc)
| PDropSlot (l : loc)
| PDone
(* Acquire and AcquireWithProvisional *)
| PAcquire (o : ResourceLeaseOptions)
| PPromote (l : loc) (o : ResourceLeaseOptions)
| PTokens (l : loc) (o : ResourceLeaseOptions)
| PBudget (l : loc) (t : option positive) (o : ResourceLeaseOptions)
| PUndoTokens (l : loc) (t : option positive) (rej : rejection)
| PUndoMark (l : loc) (rej : rejection)
| PUndoSlot (l : loc) (rej : rejection)
| PReject (rej : rejection)
| PRejected (e : AdmissionError)
| PAdmitted (i : positive)
(* finish *)
| PFinish (i : positive) (c : terminal)
| PWait (i : positive)
| PSettleTokens (i : positive) (c : terminal) (lease : ResourceLease)
| PSettleBudget (i : positive) (c : terminal) (lease : ResourceLease) (terr : option TokenError) (ttk : option positive)
| PReleaseMark (i : positive) (lease : ResourceLease) (err : joinedError) (tickets : LeaseAdjustmentTickets)
| PReleaseSlot (i : positive) (l : loc) (err : joinedError) (tickets : LeaseAdjustmentTickets)
| PPublish (i : positive) (err : joinedError) (tickets : LeaseAdjustmentTickets)
| PFinished (i : positive) (err : joinedError) (tickets : LeaseAdjustmentTickets).

(** The next critical section; [None] when the goroutine waits or has
    returned (a provisional holder waits for its request's decision). *)
Definition pc_step (co : ResourceLeaseCoordinator) (clk : Z) (q : pc) (g : gate) : option (pc * gate) :=
  match q with
  | PProvision limiter keyID max =>
      let '(r, h) := ConcurrencyLimiter_Acquire limiter keyID max (g_heap g) in
      Some (match r with Some l => PHold l | None => PDone end, with_heap h g)
  | PDrop l =>
      let '(b, h) := Release_mark l (g_heap g) in Some (if b then PDropSlot l else PDone, with_heap h g)
  | PDropSlot l => Some (PDone, with_heap (releaseSlot l (g_heap g)) g)
  | PAcquire o =>
      let '(r, g) := acquireConcurrency co (ro_KeyID o) (ro_MaxConcurrency o) g in
      Some (match r with Ok l => PTokens l o | Err e => PRejected e end, g)
  | PPromote l o =>
      let '(ok, g) := adopt_provisional co l o g in Some (if ok then PTokens l o else PHold l, g)
  | PTokens l o =>
      let '(r, g) := admit_tokens co clk o g in
      Some (match r with Ok t => PBudget l t o | Err e => PUndoMark l (inl e) end, g)
  | PBudget l t o =>
      let '(r, g) := admit_budget co clk o g in
      match r with
      | Err None => Some (PUndoTokens l t (inl (invalid_admission AdmissionBudget)), g)
      | Err (Some e) => Some (PUndoTokens l t (inr e), g)
      | Ok b => let '(i, g) := new_resource_lease l t b g in Some (PAdmitted i, g)
      end
  | PUndoTokens l t rej => Some (PUndoMark l rej, gate_release_tokens clk t g)
  | PUndoMark l rej =>
      let '(b, h) := releaseOwned_mark l (g_heap g) in Some (if b then PUndoSlot l rej else PReject rej, with_heap h g)
  | PUndoSlot l rej => Some (PReject rej, with_heap (releaseSlot l (g_heap g)) g)
  | PReject (inl e) => Some (PRejected e, g)
  | PReject (inr err) => let '(e, g) := budget_rejection clk err g in Some (PRejected e, g)
  | PFinish i c =>
      let '(e, g) := finish_enter i g in
      Some (match e with
            | Returned err tickets => PFinished i err tickets
            | Waiting => PWait i
            | Claimed lease => PSettleTokens i c lease
            end, g)
  | PWait i =>
      match g_leases g !! i with
      | Some lease => if rl_finalized lease then Some (PFinished i (rl_finalErr lease) (rl_deferredTickets lease), g) else None
      | None => None
      end
  | PSettleTokens i c lease =>
      let '(terr, ttk, g) := settle_tokens clk c (rl_tokens lease) g in Some (PSettleBudget i c lease terr ttk, g)
  | PSettleBudget i c lease terr ttk =>
      let '(berr, btk, g) := settle_budget c (rl_budget lease) g in
      Some (PReleaseMark i lease (errors_Join terr berr) (mkTickets ttk btk), g)
  | PReleaseMark i lease err tickets =>
      match rl_concurrency lease with
      | None => Some (PPublish i err tickets, g)
      | Some l =>
          let '(b, h) := releaseOwned_mark l (g_heap g) in
          Some (if b then PReleaseSlot i l err tickets else PPublish i err tickets, with_heap h g)
      end
  | PReleaseSlot i l err tickets => Some (PPublish i err tickets, with_heap (releaseSlot l (g_heap g)) g)
  | PPublish i err tickets => Some (PFinished i err tickets, finish_publish i err tickets g)
  | PHold _ | PDone | PRejected _ | PAdmitted _ | PFinished _ _ _ => None
  end.

(** ** A goroutine running alone computes the calls of [Lease] *)

Definition clock_of (ck : clocks) (q : pc) : Z :=
  match q with
  | PTokens _ _ | PSettleTokens _ _ _ => ck_tokens ck
  | PBudget _ _ _ => ck_budget ck
  | PUndoTokens _ _ _ => ck_rollback ck
  | _ => ck_retry ck
  end.

Fixpoint drive (co : ResourceLeaseCoordinator) (ck : clocks) (n : nat) (q : pc) (g : gate) : pc * gate :=
  match n with
  | O => (q, g)
  | S n => match pc_step co (clock_of ck q) q g with
           | None => (q, g)
           | Some (q, g) => drive co ck n q g
           end
  end.

Definition admission_pc (r : result AdmissionError positive) : pc :=
  match r with Ok i => PAdmitted i | Err e => PRejected e end.

Section alone.
Context (co : ResourceLeaseCoordinator) (ck : clocks).

Lemma drive_reject n l rej g :
  drive co ck (4 + n) (PUndoMark l rej) g =
  match rej with
  | inl e => (PRejected e, gate_releaseOwned l g)
  | inr err => let '(e, g) := budget_rejection (ck_retry ck) err (gate_releaseOwned l g) in (PRejected e, g)
  end.
Proof.
  assert (Hrej : ∀ k g, drive co ck (2 + k) (PReject rej) g =
            match rej with
            | inl e => (PRejected e, g)
            | inr err => let '(e, g) := budget_rejection (ck_retry ck) err g in (PRejected e, g)
            end).
  { intros k g'. destruct rej as [e|err]; simpl; [done|]. by destruct (budget_rejection (ck_retry ck) err g'). }
  change (4 + n)%nat with (S (3 + n)). cbn [drive pc_step]. unfold gate_releaseOwned, Lease_releaseOwned.
  destruct (releaseOwned_mark l (g_heap g)) as [b h]. destruct b.
  - change (3 + n)%nat with (S (2 + n)). cbn [drive pc_step]. apply Hrej.
  - exact (Hrej (S n) (with_heap h g)).
Qed.

Lemma drive_admission n l o g :
  drive co ck (7 + n) (PTokens l o) g = let '(r, g) := finishAdmission co ck l o g in (admission_pc r, g).
Proof.
  unfold finishAdmission. change (7 + n)%nat with (S (6 + n)). cbn [drive pc_step clock_of].
  destruct (admit_tokens co (ck_tokens ck) o g) as [ [t|e] g1].
  2:{ exact (drive_reject (2 + n) l (inl e) g1). }
  change (6 + n)%nat with (S (5 + n)). cbn [drive pc_step clock_of].
  destruct (admit_budget co (ck_budget ck) o g1) as [ [b|[e|] ] g2].
  - by destruct (new_resource_lease l t b g2).
  - change (5 + n)%nat with (S (4 + n)). cbn [drive pc_step clock_of]. rewrite drive_reject.
    by destruct (budget_rejection _ _ _).
  - change (5 + n)%nat with (S (4 + n)). cbn [drive pc_step clock_of]. by rewrite drive_reject.
Qed.

Lemma drive_acquire o g :
  drive co ck 8 (PAcquire o) g = let '(r, g) := Coordinator_Acquire co ck o g in (admission_pc r, g).
Proof.
  unfold Coordinator_Acquire. change 8%nat with (S 7). cbn [drive pc_step].
  destruct (acquireConcurrency co (ro_KeyID o) (ro_MaxConcurrency o) g) as [ [l|e] g1]; [|done].
  apply (drive_admission 0).
Qed.

Lemma drive_finish c i g :
  match ResourceLease_finish (ck_tokens ck) c i g with
  | Some (err, tickets, g') => drive co ck 6 (PFinish i c) g = (PFinished i err tickets, g')
  | None => drive co ck 6 (PFinish i c) g = (PWait i, g)
  end.
Proof.
  unfold ResourceLease_finish. change 6%nat with (S 5). cbn [drive pc_step].
  destruct (finish_enter i g) as [e g0] eqn:EE. destruct e as [err tickets| |lease]; [done| |].
  - unfold finish_enter in EE. cbn [drive pc_step].
    destruct (g_leases g !! i) as [lease|] eqn:El; [|done]. destruct (rl_finalized lease) eqn:Ef; [done|].
    destruct (rl_finalizing lease); [|done]. injection EE as <-. by rewrite El, Ef.
  - cbn [drive pc_step clock_of]. destruct (settle_tokens (ck_tokens ck) c (rl_tokens lease) g0) as [ [terr ttk] g1].
    cbn [drive pc_step]. destruct (settle_budget c (rl_budget lease) g1) as [ [berr btk] g2].
    cbn [drive pc_step]. destruct (rl_concurrency lease) as [l|]; [|done].
    unfold gate_releaseOwned, Lease_releaseOwned. by destruct (releaseOwned_mark l (g_heap g2)) as [ [] h].
Qed.

End alone.

(** ** The system *)

Record sys := mkSys { s_gate : gate; s_threads : gmap positive pc }.

Definition sys_start (S : sys) : Prop :=
  g_heap (s_gate S) = new_heap ∧ g_leases (s_gate S) = ∅ ∧ s_threads S = ∅ ∧
  w_reservations (g_tokens (s_gate S)) = ∅ ∧ g_budgets (s_gate S) = bstart.

(** The calls a goroutine may start with; a lease must exist to be finished. *)
Definition call_allowed (q : pc) (g : gate) : Prop :=
  match q with
  | PProvision _ _ _ | PAcquire _ => True
  | PFinish i _ => is_Some (g_leases g !! i)
  | _ => False
  end.

(** The inputs of a step are machine integers and well-formed amounts. *)
Definition step_ok (q : pc) : Prop :=
  match q with
  | PProvision _ _ max => max <= maxInt64
  | PAcquire o | PTokens _ o | PBudget _ _ o => options_ok o
  | PSettleTokens _ c _ => te_actual c <= maxInt64
  | PSettleBudget _ c _ _ _ => money_wf (te_cost c)
  | _ => True
  end.

(** Steps of the other callers of a limiter (policy changes, tickets, sinks)
    make no new reservation. *)
Definition no_new `{Ledger W R A} (w w' : W) : Prop :=
  ∀ i r, reservations w' !! i = Some r → is_settled r = false → reservations w !! i = Some r.

Section system.
Context (co : ResourceLeaseCoordinator).

Inductive sstep : sys → sys → Prop :=
| ss_call g th q : call_allowed q g → sstep (mkSys g th) (mkSys g (<[fresh (dom th) := q]> th))
| ss_run g th tid q clk q' g' :
    th !! tid = Some q → clock_range clk → step_ok q → pc_step co clk q g = Some (q', g') →
    sstep (mkSys g th) (mkSys g' (<[tid := q']> th))
(* a provisional holder promotes its slot, or gives it up *)
| ss_promote g th tid l o : th !! tid = Some (PHold l) → sstep (mkSys g th) (mkSys g (<[tid := PPromote l o]> th))
| ss_drop g th tid l : th !! tid = Some (PHold l) → sstep (mkSys g th) (mkSys g (<[tid := PDrop l]> th))
(* the deferred Release of a provisional lease that was promoted *)
| ss_stale g th l lease b h :
    leases (g_heap g) !! l = Some lease → lease_claimed lease = true → Release_mark l (g_heap g) = (b, h) →
    sstep (mkSys g th) (mkSys (with_heap h g) (if b then <[fresh (dom th) := PDropSlot l]> th else th))
| ss_tokens g th w : tstep false (g_tokens g) w → no_new (g_tokens g) w → sstep (mkSys g th) (mkSys (with_tokens w g) th)
| ss_budgets g th w : bstep (g_budgets g) w → no_new (g_budgets g) w → sstep (mkSys g th) (mkSys (with_budgets w g) th).

Definition sreachable (S : sys) : Prop :=
  ∃ S0, sys_start S0 ∧ tstart false (g_tokens (s_gate S0)) ∧ rtc sstep S0 S.

(** *** Owners *)

(** The unreleased lease, the marked lease, the token and the budget
    reservation a goroutine is responsible for; the lease it is settling. *)
Definition pc_slot (q : pc) : option loc :=
  match q with
  | PHold l | PDrop l | PPromote l _ | PTokens l _ | PBudget l _ _ | PUndoTokens l _ _ | PUndoMark l _ => Some l
  | PSettleTokens _ _ lease | PSettleBudget _ _ lease _ _ | PReleaseMark _ lease _ _ => rl_concurrency lease
  | _ => None
  end.
Definition pc_pending (q : pc) : option loc :=
  match q with PDropSlot l | PUndoSlot l _ | PReleaseSlot _ l _ _ => Some l | _ => None end.
(** The provisional lease a goroutine may still release or promote. *)
Definition pc_provisional (q : pc) : option loc :=
  match q with PHold l | PDrop l | PPromote l _ => Some l | _ => None end.
Definition pc_token (q : pc) : option positive :=
  match q with
  | PBudget _ t _ | PUndoTokens _ t _ => t
  | PSettleTokens _ _ lease => rl_tokens lease
  | _ => None
  end.
Definition pc_budget (q : pc) : option positive :=
  match q with PSettleTokens _ _ lease | PSettleBudget _ _ lease _ _ => rl_budget lease | _ => None end.
Definition pc_settling (q : pc) : option positive :=
  match q with
  | PSettleTokens i _ _ | PSettleBudget i _ _ _ _ | PReleaseMark i _ _ _ | PReleaseSlot i _ _ _ | PPublish i _ _ => Some i
  | _ => None
  end.

Definition pc_target (q : pc) : option positive :=
  match q with PFinish i _ | PWait i | PFinished i _ _ => Some i | _ => pc_settling q end.

Definition lease_open (lease : ResourceLease) : Prop := rl_finalized lease = false ∧ rl_finalizing lease = false.

(** [x] is owned by a goroutine (through [f]) or by an open lease (through [k]). *)
Definition owns (f : pc → option positive) (k : ResourceLease → option positive) (S : sys) (x : positive) : Prop :=
  (∃ tid q, s_threads S !! tid = Some q ∧ f q = Some x) ∨
  (∃ i lease, g_leases (s_gate S) !! i = Some lease ∧ lease_open lease ∧ k lease = Some x).

(** The marked leases are those of the goroutines about to return their slot,
    one goroutine each. *)
Definition pending_threads (th : gmap positive pc) (p : gset loc) : Prop :=
  (∀ l, l ∈ p ↔ ∃ tid q, th !! tid = Some q ∧ pc_pending q = Some l) ∧
  (∀ tid tid' q q' l, th !! tid = Some q → th !! tid' = Some q' →
     pc_pending q = Some l → pc_pending q' = Some l → tid = tid').

(** A provisional lease has one holder, and is unclaimed until it is promoted. *)
Record prov_ok (h : heap) (th : gmap positive pc) : Prop := {
  pr_lease : ∀ tid q l, th !! tid = Some q → pc_provisional q = Some l →
    ∃ lease, leases h !! l = Some lease ∧
      (lease_released lease = false → lease_claimed lease = false ∧ lease_admitted lease = true);
  pr_once : ∀ tid tid' q q' l, th !! tid = Some q → th !! tid' = Some q' →
    pc_provisional q = Some l → pc_provisional q' = Some l → tid = tid';
}.

(** At most one goroutine settles a lease, and exactly while the lease is
    marked [finalizing]; what any call returned is what the lease recorded. *)
Record claims_ok (rls : gmap positive ResourceLease) (th : gmap positive pc) : Prop := {
  cl_once : ∀ tid tid' q q' i, th !! tid = Some q → th !! tid' = Some q' →
    pc_settling q = Some i → pc_settling q' = Some i → tid = tid';
  cl_settling : ∀ tid q i, th !! tid = Some q → pc_settling q = Some i →
    ∃ lease, rls !! i = Some lease ∧ rl_finalized lease = false ∧ rl_finalizing lease = true;
  cl_claim : ∀ i lease, rls !! i = Some lease → rl_finalized lease = false → rl_finalizing lease = true →
    ∃ tid q, th !! tid = Some q ∧ pc_settling q = Some i;
  cl_target : ∀ tid q i, th !! tid = Some q → pc_target q = Some i → is_Some (rls !! i);
  cl_result : ∀ tid i err tickets lease, th !! tid = Some (PFinished i err tickets) → rls !! i = Some lease →
    rl_finalized lease = true ∧ rl_finalErr lease = err ∧ rl_deferredTickets lease = tickets;
}.

Record sinv (S : sys) : Prop := {
  si_conc : ∃ p, creachable (g_heap (s_gate S), p) ∧ pending_threads (s_threads S) p;
  si_tok : treachable false (g_tokens (s_gate S));
  si_bud : breachable (g_budgets (s_gate S));
  si_slots : ∀ l lease, leases (g_heap (s_gate S)) !! l = Some lease → lease_released lease = false →
    owns pc_slot rl_concurrency S l;
  si_tokens : covered (owns pc_token rl_tokens S) (g_tokens (s_gate S));
  si_budgets : covered (owns pc_budget rl_budget S) (g_budgets (s_gate S));
  si_prov : prov_ok (g_heap (s_gate S)) (s_threads S);
  si_claims : claims_ok (g_leases (s_gate S)) (s_threads S);
}.

(** *** One goroutine's step on the slots *)

Inductive conc_move (q q' : pc) : heap → heap → Prop :=
| cm_same h : pc_pending q = None → pc_pending q' = None → conc_move q q' h h
| cm_step h h' : (∀ p, cstep (h, p) (h', p)) → pc_pending q = None → pc_pending q' = None → conc_move q q' h h'
| cm_mark h l b h' :
    Release_mark l h = (b, h') ∨ releaseOwned_mark l h = (b, h') →
    pc_pending q = None → pc_pending q' = (if b then Some l else None) → conc_move q q' h h'
| cm_slot h l : pc_pending q = Some l → pc_pending q' = None → conc_move q q' h (releaseSlot l h).

Lemma pending_same th p tid q q' :
  pending_threads th p → th !! tid = Some q → pc_pending q = None → pc_pending q' = None → pending_threads (<[tid := q']> th) p.
Proof.
  intros [Hp Hu] Hq E E'. split.
  - intros l. rewrite Hp. split; intros (t & x & Hx & Hl).
    + exists t, x. rewrite lookup_insert_ne; [done|]. intros ->. congruence.
    + apply lookup_insert_Some in Hx as [ [_ <-]|[_ Hx] ]; [congruence|eauto].
  - intros t t' x x' l Hx Hx' Hl Hl'. apply lookup_insert_Some in Hx as [ [_ <-]|[_ Hx] ]; [congruence|].
    apply lookup_insert_Some in Hx' as [ [_ <-]|[_ Hx'] ]; [congruence|eauto].
Qed.

Lemma pending_mark th p tid q q' l :
  pending_threads th p → th !! tid = Some q → pc_pending q = None → pc_pending q' = Some l → l ∉ p →
  pending_threads (<[tid := q']> th) ({[l]} ∪ p).
Proof.
  intros [Hp Hu] Hq E E' Hl. split.
  - intros l'. rewrite elem_of_union, elem_of_singleton, Hp. split.
    + intros [-> |(t & x & Hx & Hxl)]; [exists tid, q'; by rewrite lookup_insert_eq|].
      exists t, x. rewrite lookup_insert_ne; [done|]. intros ->. congruence.
    + intros (t & x & Hx & Hxl). apply lookup_insert_Some in Hx as [ [_ <-]|[_ Hx] ]; [left; congruence|right; eauto].
  - assert (Hno : ∀ t x, th !! t = Some x → pc_pending x = Some l → False) by (intros t x Hx Hxl; apply Hl, Hp; eauto).
    intros t t' x x' l' Hx Hx' Hxl Hxl'.
    apply lookup_insert_Some in Hx as [ [<- <-]|[_ Hx] ]; apply lookup_insert_Some in Hx' as [ [<- <-]|[_ Hx'] ]; [done|..|by eauto].
    + destruct (Hno t' x' Hx'). congruence.
    + destruct (Hno t x Hx). congruence.
Qed.

Lemma pending_slot th p tid q q' l :
  pending_threads th p → th !! tid = Some q → pc_pending q = Some l → pc_pending q' = None →
  l ∈ p ∧ pending_threads (<[tid := q']> th) (p ∖ {[l]}).
Proof.
  intros [Hp Hu] Hq E E'. split; [apply Hp; eauto|]. split.
  - intros l'. rewrite elem_of_difference, elem_of_singleton, Hp. split.
    + intros [(t & x & Hx & Hxl) Hne]. exists t, x. rewrite lookup_insert_ne; [done|]. intros ->. congruence.
    + intros (t & x & Hx & Hxl). apply lookup_insert_Some in Hx as [ [_ <-]|[Hne Hx] ]; [congruence|].
      split; [eauto|]. intros ->. apply Hne. by eapply Hu.
  - intros t t' x x' l' Hx Hx' Hxl Hxl'. apply lookup_insert_Some in Hx as [ [_ <-]|[_ Hx] ]; [congruence|].
    apply lookup_insert_Some in Hx' as [ [_ <-]|[_ Hx'] ]; [congruence|eauto].
Qed.

Lemma marked_unreleased l h b h' :
  Release_mark l h = (b, h') ∨ releaseOwned_mark l h = (b, h') →
  if b then ∃ lease, leases h !! l = Some lease ∧ lease_released lease = false ∧ leases h' = <[l := set_released lease]> (leases h)
  else h' = h.
Proof.
  unfold Release_mark, releaseOwned_mark. intros [H|H]; destruct (leases h !! l) as [lease|] eqn:E; try (by simplify_eq);
    destruct (lease_released lease) eqn:Er; simpl in H; repeat case_match; simplify_eq; eauto.
Qed.

(** A goroutine's step on the slots is at most one step of the concurrency
    limiter, which also tracks the marked leases. *)
Definition cmove (c c' : heap * gset loc) : Prop := c' = c ∨ cstep c c'.

Lemma conc_move_step q q' h h' th tid p :
  conc_move q q' h h' → th !! tid = Some q → creachable (h, p) → pending_threads th p →
  ∃ p', cmove (h, p) (h', p') ∧ pending_threads (<[tid := q']> th) p'.
Proof.
  intros Hm Hq Hr Hp. destruct Hm as [h E E'|h h' Hs E E'|h l b h' Hk E E'|h l E E'].
  - exists p. split; [by left|]. by eapply pending_same.
  - exists p. split; [by right|by eapply pending_same].
  - pose proof (marked_unreleased l h b h' Hk) as Hu.
    assert (Hstep : cstep (h, p) (h', if b then {[l]} ∪ p else p)) by (destruct Hk; [by eapply step_release|by eapply step_releaseOwned]).
    destruct b; (eexists; split; [by right|]); [|by eapply pending_same].
    eapply pending_mark; try done. intros Hin. destruct Hu as (lease & Hl & Hf & _).
    destruct (ci_pend _ _ (creachable_inv _ _ Hr) l Hin) as (x & Hx & Hxr). congruence.
  - destruct (pending_slot th p tid q q' l Hp Hq E E') as [Hin Hp']. exists (p ∖ {[l]}). split; [|done].
    right. by apply step_slot.
Qed.

Lemma conc_move_inv q q' h h' th tid :
  conc_move q q' h h' → th !! tid = Some q → (∃ p, creachable (h, p) ∧ pending_threads th p) →
  ∃ p, creachable (h', p) ∧ pending_threads (<[tid := q']> th) p.
Proof.
  intros Hm Hq (p & Hr & Hp). destruct (conc_move_step q q' h h' th tid p Hm Hq Hr Hp) as (p' & [ [= -> ->]|Hs] & Hp'); [eauto|].
  exists p'. split; [by eapply rtc_r|done].
Qed.

(** *** Ownership *)

Definition lease_owns (k : ResourceLease → option positive) (g : gate) (x : positive) : Prop :=
  ∃ i lease, g_leases g !! i = Some lease ∧ lease_open lease ∧ k lease = Some x.

(** A step that keeps every unsettled [x] owned. *)
Definition transfer (f : pc → option positive) (k : ResourceLease → option positive) (U : gate → positive → Prop)
  (q q' : pc) (g g' : gate) : Prop :=
  (∀ x, U g' x → f q' = Some x ∨ lease_owns k g' x ∨ (U g x ∧ f q ≠ Some x)) ∧
  (∀ i lease, g_leases g !! i = Some lease → lease_open lease → g_leases g' !! i = Some lease ∨ f q' = k lease).

Lemma transfer_owned f k U q q' g g' th tid :
  transfer f k U q q' g g' → th !! tid = Some q → (∀ x, U g x → owns f k (mkSys g th) x) →
  ∀ x, U g' x → owns f k (mkSys g' (<[tid := q']> th)) x.
Proof.
  intros [H1 H2] Hq Ho x Hx. destruct (H1 x Hx) as [E|[E|[Hu Hne] ] ].
  - left. exists tid, q'. simpl. by rewrite lookup_insert_eq.
  - by right.
  - destruct (Ho x Hu) as [(t & y & Hy & Hf)|(i & lease & Hi & Hop & Hk)]; simpl in *.
    + left. exists t, y. simpl. rewrite lookup_insert_ne; [done|]. intros ->. congruence.
    + destruct (H2 i lease Hi Hop) as [Hi'|Hf]; [right; exists i, lease; done|left].
      exists tid, q'. simpl. rewrite lookup_insert_eq. split; [done|congruence].
Qed.

(** Nothing new, no lease touched, and the goroutine keeps what is unsettled. *)
Lemma transfer_same f k (U : gate → positive → Prop) q q' g g' :
  g_leases g' = g_leases g → (∀ x, U g' x → U g x) → (∀ x, f q = Some x → U g' x → f q' = Some x) → transfer f k U q q' g g'.
Proof.
  intros El Hu Hf. split; [|intros; left; by rewrite El]. intros x Hx.
  destruct (decide (f q = Some x)) as [E|]; [left; eauto|right; right; auto].
Qed.

(** One thing is new, and the goroutine takes it. *)
Lemma transfer_new f k (U : gate → positive → Prop) q q' g g' n :
  g_leases g' = g_leases g → (∀ x, U g' x → U g x ∨ x = n) → f q = None → f q' = Some n → transfer f k U q q' g g'.
Proof.
  intros El Hu E E'. split; [|intros; left; by rewrite El]. intros x Hx.
  destruct (Hu x Hx) as [Hx0| ->]; [|by left]. right. right. split; [done|]. by rewrite E.
Qed.

Definition unreleased (g : gate) (l : loc) : Prop :=
  ∃ lease, leases (g_heap g) !! l = Some lease ∧ lease_released lease = false.
Definition open_token (g : gate) (i : positive) : Prop :=
  ∃ r, w_reservations (g_tokens g) !! i = Some r ∧ tr_finalized r = false.
Definition open_budget (g : gate) (i : positive) : Prop :=
  ∃ r, bw_reservations (g_budgets g) !! i = Some r ∧ br_finalized r = false.

(** *** One goroutine's step on the tokens and on the budgets *)

Definition tmove (w w' : world) : Prop := w' = w ∨ tstep false w w'.
Definition bmove (w w' : bworld) : Prop := w' = w ∨ bstep w w'.

Lemma tmove_reachable w w' : tmove w w' → treachable false w → treachable false w'.
Proof. intros [-> |Hs] H; [done|]. destruct H as (w0 & H0 & Hr). exists w0. split; [done|]. by eapply rtc_r. Qed.
Lemma bmove_reachable w w' : bmove w w' → breachable w → breachable w'.
Proof. intros [-> |Hs] H; [done|]. by eapply rtc_r. Qed.

Lemma admit_tokens_move clk o g r g' :
  clock_range clk → options_ok o → admit_tokens co clk o g = (r, g') →
  tmove (g_tokens g) (g_tokens g') ∧ g_heap g' = g_heap g ∧ g_budgets g' = g_budgets g ∧ g_leases g' = g_leases g ∧
  ∀ i, open_token g' i → open_token g i ∨ r = Ok (Some i).
Proof.
  intros Hc Ho HA. unfold admit_tokens in HA.
  destruct (co_tokens co); [|simplify_eq; split_and!; try done; [by left|auto] ].
  destruct (ro_TokenAmount o <? 0); [simplify_eq; split_and!; try done; [by left|auto]|].
  destruct (0 <? ro_TokenAmount o); [|simplify_eq; split_and!; try done; [by left|auto] ].
  unfold gate_reserve_tokens in HA. unfold open_token. destruct (g_tokens g) as [l m] eqn:Eg. cbn [w_limiter w_reservations] in *.
  destruct (TokenLimiter_Reserve _ _ _ _ l) as [ [ [r1|] reset] l1] eqn:ER; injection HA as <- <-; cbn; split_and!; try done.
  - right. exact (ts_reserve false l m clk _ _ _ r1 reset l1 Hc (oo_windows _ Ho) (oo_amount _ Ho) ER).
  - intros i (r & Hr & Hf). apply lookup_insert_Some in Hr as [ [<- _]|[_ Hr] ]; [by right|left; eauto].
  - right. exact (ts_reject false l m clk _ _ _ reset l1 Hc (oo_windows _ Ho) (oo_amount _ Ho) ER).
  - intros i Hi. by left.
Qed.

Lemma settled_open_token t g g' i : token_settled t g g' → open_token g' i → open_token g i ∧ t ≠ Some i.
Proof.
  intros Hs (r & Hr & Hf). assert (Hne : t ≠ Some i).
  { intros E. pose proof (token_settled_after t g g' i r Hs E Hr). congruence. }
  split; [|done]. destruct Hs as [l' Hs]. destruct t as [j|]; [|subst; by exists r].
  destruct (w_reservations (g_tokens g) !! j) as [rj|]; [destruct Hs as (r' & _ & ->)|subst; by exists r].
  simpl in Hr. rewrite lookup_insert_ne in Hr by congruence. by exists r.
Qed.

Lemma settled_open_budget b g g' i : budget_settled b g g' → open_budget g' i → open_budget g i ∧ b ≠ Some i.
Proof.
  intros Hs (r & Hr & Hf). assert (Hne : b ≠ Some i).
  { intros E. pose proof (budget_settled_after b g g' i r Hs E Hr). congruence. }
  split; [|done]. destruct Hs as [l' Hs]. destruct b as [j|]; [|subst; by exists r].
  destruct (bw_reservations (g_budgets g) !! j) as [rj|]; [destruct Hs as (r' & _ & ->)|subst; by exists r].
  simpl in Hr. rewrite lookup_insert_ne in Hr by congruence. by exists r.
Qed.

(** A terminal method is one step of the token limiter. *)
Lemma gate_token_move f i g err tk g' :
  (∀ l m r err r' l', g_tokens g = mkWorld l m → m !! i = Some r → f r l = (err, r', l') →
     tstep false (mkWorld l m) (mkWorld l' (<[i := r']> m))) →
  gate_token f i g = (err, tk, g') → tmove (g_tokens g) (g_tokens g').
Proof.
  intros Hf HG. unfold gate_token in HG. destruct (g_tokens g) as [l m] eqn:Eg. cbn [w_limiter w_reservations] in *.
  destruct (m !! i) as [r|] eqn:Em; [|simplify_eq; left; by rewrite Eg].
  destruct (f r l) as [ [e r'] l'] eqn:Ef. simplify_eq. right. simpl. by eapply Hf.
Qed.

Lemma gate_budget_move kind actual deferred i g err tk g' :
  money_wf actual →
  gate_budget (finalizeInternal kind actual deferred) i g = (err, tk, g') → bmove (g_budgets g) (g_budgets g').
Proof.
  intros Hw HG. unfold gate_budget in HG. destruct (g_budgets g) as [l m] eqn:Eg. cbn [bw_limiter bw_reservations] in *.
  destruct (m !! i) as [r|] eqn:Em; [|simplify_eq; left; by rewrite Eg].
  destruct (finalizeInternal kind actual deferred r l) as [ [e r'] l'] eqn:Ef. simplify_eq. right. simpl.
  exists (CSettle i kind actual deferred). split; [done|]. simpl. by rewrite Em, Ef.
Qed.

Lemma settle_tokens_move clk c t g err tk g' :
  treachable false (g_tokens g) → clock_range clk → te_actual c <= maxInt64 →
  settle_tokens clk c t g = (err, tk, g') → tmove (g_tokens g) (g_tokens g').
Proof.
  intros Ht Hc Ha HS. apply treachable_inv in Ht. unfold settle_tokens in HS. destruct t as [i|]; [|simplify_eq; by left].
  assert (Hfin : ∀ usage actual, (∀ r, w_reservations (g_tokens g) !! i = Some r → usage r <= maxInt64) →
    (let '(err, _, g) := gate_token (λ r, finalizeOnce clk (usage r) actual r) i g in (err, @None positive, g)) = (err, tk, g') →
    tmove (g_tokens g) (g_tokens g')).
  { clear HS. intros usage actual Hu HG. destruct (gate_token (λ r, finalizeOnce clk (usage r) actual r) i g) as [ [? ?] ?] eqn:E. simplify_eq.
    eapply gate_token_move; [|exact E]. intros l m r e r' l' Eg Hm HF. rewrite Eg in Hu.
    eapply ts_final; [exact Hm|exact Hc|by eapply Hu|done|exact HF]. }
  assert (Hamt : ∀ r, w_reservations (g_tokens g) !! i = Some r → tr_amount r <= maxInt64).
  { intros r Hr. destruct (ti_wf _ _ Ht i r Hr) as (_ & ? & _). lia. }
  assert (Hdef : gate_token (TokenReservation_CommitDeferred clk) i g = (err, tk, g') → tmove (g_tokens g) (g_tokens g')).
  { apply gate_token_move. intros l m r e r' l' Eg Hm HF. by eapply ts_defer. }
  destruct (te_outcome c); [destruct (te_actualKnown c)| | | |]; try (by apply Hdef).
  - by apply (Hfin (λ _, te_actual c) true).
  - by apply (Hfin tr_amount false).
  - by apply (Hfin tr_amount false).
  - by apply (Hfin (λ _, 0) false).
Qed.

Lemma release_tokens_move clk t g :
  clock_range clk → tmove (g_tokens g) (g_tokens (gate_release_tokens clk t g)) ∧ token_settled t g (gate_release_tokens clk t g).
Proof.
  intros Hc. unfold gate_release_tokens. destruct t as [i|]; [|split; [by left|by exists (w_limiter (g_tokens g))] ].
  destruct (gate_token (TokenReservation_ReleaseBeforeUpstream clk) i g) as [ [err tk] g'] eqn:E. cbn [snd]. split.
  - eapply gate_token_move; [|exact E]. intros l m r e r' l' Eg Hm HF.
    apply (ts_final false l m i r clk 0 false e r' l' Hm Hc); done.
  - eapply gate_token_settled; [|exact E]. intros r l e r' l' HF. by apply finalizeOnce_final in HF as [? _].
Qed.

Lemma settle_budget_move c b g err tk g' :
  money_wf (te_cost c) → settle_budget c b g = (err, tk, g') → bmove (g_budgets g) (g_budgets g').
Proof.
  intros Hcost HS. unfold settle_budget in HS. destruct b as [i|]; [|simplify_eq; by left].
  assert (Hu : money_wf UnknownMoney ∧ money_wf knownZeroMoney) by (unfold money_wf; simpl; unfold MaxMoneyMicros, maxInt64; lia).
  unfold BudgetReservation_Commit, BudgetReservation_CompleteConservative, BudgetReservation_ReleaseBeforeUpstream,
    BudgetReservation_CommitDeferred in HS.
  destruct (te_outcome c) eqn:Eo;
    destruct (gate_budget _ _ _) as [ [? ?] ?] eqn:E; simplify_eq; (eapply gate_budget_move; [|exact E]; tauto).
Qed.

Lemma admit_budget_move clk o g r g' :
  clock_range clk → options_ok o → admit_budget co clk o g = (r, g') →
  bmove (g_budgets g) (g_budgets g') ∧ g_heap g' = g_heap g ∧ g_tokens g' = g_tokens g ∧ g_leases g' = g_leases g ∧
  ∀ i, open_budget g' i → open_budget g i ∨ r = Ok (Some i).
Proof.
  intros Hc Ho HA. unfold admit_budget in HA.
  destruct (co_budgets co && budgetRequested o); [|simplify_eq; split_and!; try done; [by left|auto] ].
  destruct (negb _); [simplify_eq; split_and!; try done; [by left|auto]|].
  unfold gate_reserve_budget in HA. unfold open_budget. destruct (g_budgets g) as [l m] eqn:Eg. cbn [bw_limiter bw_reservations] in *.
  destruct (BudgetLimiter_Reserve _ _ _ _ l) as [ [r1|e] l1] eqn:ER; injection HA as <- <-; cbn; split_and!; try done.
  - right. exists (CReserve clk (ro_KeyID o) (ro_BudgetPolicy o) (ro_BudgetCandidate o)). split; [|simpl; by rewrite ER].
    split_and!; [done|apply (oo_policy _ Ho)|apply (oo_candidate _ Ho)].
  - intros i (r & Hr & Hf). apply lookup_insert_Some in Hr as [ [<- _]|[_ Hr] ]; [by right|left; eauto].
  - right. exists (CReserve clk (ro_KeyID o) (ro_BudgetPolicy o) (ro_BudgetCandidate o)). split; [|simpl; by rewrite ER].
    split_and!; [done|apply (oo_policy _ Ho)|apply (oo_candidate _ Ho)].
  - intros i Hi. by left.
Qed.

Lemma budget_rejection_move clk err g e g' :
  clock_range clk → budget_rejection clk err g = (e, g') →
  bmove (g_budgets g) (g_budgets g') ∧ g_heap g' = g_heap g ∧ g_tokens g' = g_tokens g ∧ g_leases g' = g_leases g ∧
  bw_reservations (g_budgets g') = bw_reservations (g_budgets g).
Proof.
  intros Hc HB. unfold budget_rejection in HB. assert (H0 : bmove (g_budgets g) (g_budgets g)) by (by left).
  destruct err; try (by simplify_eq). destruct (negb _); [|by simplify_eq].
  unfold gate_retry_after in HB. destruct (g_budgets g) as [l m] eqn:Eg. cbn [bw_limiter bw_reservations] in HB.
  destruct (BudgetLimiter_RetryAfterSeconds clk ResetAt l) as [n l'] eqn:ER. simplify_eq. cbn. split_and!; try done.
  right. exists (CRetry clk ResetAt). split; [done|]. simpl. by rewrite ER.
Qed.

(** *** One goroutine's step on the leases' flags *)

(** Leases stay; an unreleased lease keeps its flags, except that the goroutine
    holding it provisionally may claim it. *)
Definition flags_move (q q' : pc) (h h' : heap) : Prop :=
  (∀ l lease, leases h !! l = Some lease → ∃ lease', leases h' !! l = Some lease' ∧
     (lease_released lease' = false → lease_released lease = false ∧ lease_admitted lease' = lease_admitted lease ∧
        (lease_claimed lease' = lease_claimed lease ∨ pc_provisional q = Some l ∧ pc_provisional q' = None))) ∧
  (∀ l, pc_provisional q' = Some l → pc_provisional q = Some l ∨
     leases h !! l = None ∧ ∃ lease, leases h' !! l = Some lease ∧ lease_claimed lease = false ∧ lease_admitted lease = true).

Lemma flags_same q q' h h' :
  leases h' = leases h → pc_provisional q' = None ∨ pc_provisional q' = pc_provisional q → flags_move q q' h h'.
Proof.
  intros E Hp. split.
  - intros l lease Hl. exists lease. rewrite E. auto 6.
  - intros l Hl. destruct Hp; [congruence|]. left. congruence.
Qed.

Lemma flags_new q q' h h' l lease :
  leases h !! l = None → leases h' = <[l := lease]> (leases h) → lease_claimed lease = false → lease_admitted lease = true →
  pc_provisional q' = None ∨ pc_provisional q' = Some l → flags_move q q' h h'.
Proof.
  intros Hn E Hc Ha Hp. split.
  - intros l' x Hx. exists x. rewrite E, lookup_insert_ne by congruence. auto 6.
  - intros l' Hl'. right. destruct Hp; [congruence|]. assert (l' = l) as -> by congruence. split; [done|].
    exists lease. rewrite E. by rewrite lookup_insert_eq.
Qed.

Lemma flags_released q q' h h' l lease :
  leases h !! l = Some lease → leases h' = <[l := set_released lease]> (leases h) →
  pc_provisional q' = None → flags_move q q' h h'.
Proof.
  intros Hl E Hp. split; [|intros; congruence]. intros l' x Hx. rewrite E.
  destruct (decide (l' = l)) as [-> |]; [|rewrite lookup_insert_ne by done; exists x; auto 6].
  rewrite lookup_insert_eq. eexists. split; [done|]. done.
Qed.

Lemma flags_claimed q q' h h' l lease :
  leases h !! l = Some lease → leases h' = <[l := set_claimed lease]> (leases h) →
  pc_provisional q = Some l → pc_provisional q' = None → flags_move q q' h h'.
Proof.
  intros Hl E Hp Hp'. split; [|intros; congruence]. intros l' x Hx. rewrite E.
  destruct (decide (l' = l)) as [-> |]; [|rewrite lookup_insert_ne by done; exists x; auto 6].
  rewrite lookup_insert_eq. eexists. split; [done|]. simpl. simplify_eq. auto 6.
Qed.

Lemma releaseSlot_leases l h : leases (releaseSlot l h) = leases h.
Proof. unfold releaseSlot. repeat (case_match; try done). Qed.

Lemma Acquire_leases limiter k max h r h' :
  ConcurrencyLimiter_Acquire limiter k max h = (r, h') →
  match r with
  | None => leases h' = leases h
  | Some l => leases h !! l = None ∧ ∃ lease, leases h' = <[l := lease]> (leases h) ∧
      lease_claimed lease = false ∧ lease_admitted lease = true
  end.
Proof.
  unfold ConcurrencyLimiter_Acquire. destruct (max <? 0); [by intros [= <- <-]|].
  destruct (max =? 0).
  { unfold new_lease. intros [= <- <-]. split; [apply fresh_lease_None|]. by eexists. }
  set (sh := match states h !! (limiter, k) with Some state => (state, h) | None => _ end).
  assert (Hsh : leases sh.2 = leases h) by (unfold sh; by destruct (states h !! (limiter, k))).
  destruct sh as [s h0]. cbn [snd] in Hsh. destruct (max <=? active_of h0 s).
  - intros [= <- <-]. by case_match.
  - unfold new_lease. intros [= <- <-]. rewrite <-Hsh. split; [apply fresh_lease_None|]. by eexists.
Qed.

Lemma acquireConcurrency_move keyID max g r g' :
  max <= maxInt64 → acquireConcurrency co keyID max g = (r, g') →
  g_tokens g' = g_tokens g ∧ g_budgets g' = g_budgets g ∧ g_leases g' = g_leases g ∧
  (g_heap g' = g_heap g ∨ ∀ p, cstep (g_heap g, p) (g_heap g', p)) ∧
  match r with
  | Err _ => leases (g_heap g') = leases (g_heap g)
  | Ok l => leases (g_heap g) !! l = None ∧ ∃ lease, leases (g_heap g') = <[l := lease]> (leases (g_heap g)) ∧
      lease_claimed lease = false ∧ lease_admitted lease = true
  end.
Proof.
  intros Hm HA. unfold acquireConcurrency in HA. destruct (max <? 0); [simplify_eq; by auto 6|].
  assert (Hgen : ∀ limiter m ol h, m <= maxInt64 → ConcurrencyLimiter_Acquire limiter keyID m (g_heap g) = (ol, h) →
    (∀ p, cstep (g_heap g, p) (h, p)) ∧
    match ol with
    | None => leases h = leases (g_heap g)
    | Some l => leases (g_heap g) !! l = None ∧ ∃ lease, leases h = <[l := lease]> (leases (g_heap g)) ∧
        lease_claimed lease = false ∧ lease_admitted lease = true
    end) by (intros limiter m ol h Hmm E; split; [intros p; by eapply step_acquire|by eapply Acquire_leases]).
  destruct (co_concurrency co) as [limiter|].
  - destruct (ConcurrencyLimiter_Acquire limiter keyID max (g_heap g)) as [ol h] eqn:EA. injection HA as <- <-.
    destruct (Hgen limiter max ol h Hm EA) as [Hs Hl]. cbn. do 3 (split; [done|]). split; [by right|]. by destruct ol.
  - destruct (new_lease (mkLease None keyID None false false true) (g_heap g)) as [l h] eqn:EA. injection HA as <- <-.
    destruct (Hgen 1%positive 0 (Some l) h ltac:(done)) as [Hs Hl].
    { unfold ConcurrencyLimiter_Acquire. cbn [Z.ltb Z.eqb Z.compare]. by rewrite EA. }
    cbn. do 3 (split; [done|]). split; [by right|exact Hl].
Qed.

Lemma adopt_provisional_move l o g b g' :
  adopt_provisional co l o g = (b, g') →
  g_tokens g' = g_tokens g ∧ g_budgets g' = g_budgets g ∧ g_leases g' = g_leases g ∧
  (g_heap g' = g_heap g ∨ ∀ p, cstep (g_heap g, p) (g_heap g', p)) ∧
  if b then ∃ lease, leases (g_heap g) !! l = Some lease ∧ lease_released lease = false ∧
         leases (g_heap g') = <[l := set_claimed lease]> (leases (g_heap g))
  else leases (g_heap g') = leases (g_heap g).
Proof.
  unfold adopt_provisional. destruct (_ <? 0); [intros [= <- <-]; by auto 6|].
  destruct (Lease_adoptFor l (co_concurrency co) (ro_KeyID o) (0 <? ro_MaxConcurrency o) (g_heap g)) as [ok h] eqn:EA.
  intros [= <- <-]. cbn. do 3 (split; [done|]). split; [right; intros p; by eapply step_adoptFor|].
  unfold Lease_adoptFor in EA. destruct (leases (g_heap g) !! l) as [lease|]; [|by simplify_eq].
  repeat case_match; simplify_eq; try done; exists lease; by destruct (lease_released lease).
Qed.

(** *** One goroutine's step *)

Record moved (q q' : pc) (g g' : gate) : Prop := {
  mv_conc : conc_move q q' (g_heap g) (g_heap g');
  mv_flags : flags_move q q' (g_heap g) (g_heap g');
  mv_tok : tmove (g_tokens g) (g_tokens g');
  mv_bud : bmove (g_budgets g) (g_budgets g');
  mv_slots : transfer pc_slot rl_concurrency unreleased q q' g g';
  mv_tokens : transfer pc_token rl_tokens open_token q q' g g';
  mv_budgets : transfer pc_budget rl_budget open_budget q q' g g';
}.

Lemma tmove_refl w : tmove w w. Proof. by left. Qed.
Lemma bmove_refl w : bmove w w. Proof. by left. Qed.
#[local] Hint Resolve tmove_refl bmove_refl : core.

(** Steps on the slots only. *)
Lemma moved_heap q q' g h :
  conc_move q q' (g_heap g) h → flags_move q q' (g_heap g) h →
  transfer pc_slot rl_concurrency unreleased q q' g (with_heap h g) →
  pc_token q' = pc_token q → pc_budget q' = pc_budget q → moved q q' g (with_heap h g).
Proof.
  intros Hc Hf Hs Et Eb. constructor; try done; try (by left); apply transfer_same; try done; congruence.
Qed.

(** Marking a lease released, by the goroutine that owns it. *)
Lemma moved_mark q q' g l b h :
  Release_mark l (g_heap g) = (b, h) ∨ releaseOwned_mark l (g_heap g) = (b, h) →
  (b = false → ¬ unreleased g l) → pc_slot q = Some l → pc_slot q' = None →
  pc_pending q = None → pc_pending q' = (if b then Some l else None) → pc_provisional q' = None →
  pc_token q' = pc_token q → pc_budget q' = pc_budget q → moved q q' g (with_heap h g).
Proof.
  intros Hm Hb Es Es' Ep Ep' Epr Et Ebu. pose proof (marked_unreleased l (g_heap g) b h Hm) as Hu.
  apply moved_heap; try done; [by eapply cm_mark| |].
  - destruct b; [destruct Hu as (lease & Hl & _ & E); by eapply flags_released|subst; by apply flags_same; auto].
  - apply transfer_same; [done| |].
    + intros x (lease & Hx & Hr). cbn in Hx. destruct b; [|subst; by exists lease]. destruct Hu as (y & Hl & _ & E).
      rewrite E in Hx. apply lookup_insert_Some in Hx as [ [_ <-]|[_ Hx] ]; [done|]. by exists lease.
    + intros x Hx (lease & Hl & Hr). assert (x = l) as -> by congruence. exfalso. cbn in Hl. destruct b.
      * destruct Hu as (y & _ & _ & E). rewrite E, lookup_insert_eq in Hl. by simplify_eq.
      * subst. apply Hb; [done|]. by exists lease.
Qed.

Lemma moved_slot q q' g l :
  pc_pending q = Some l → pc_pending q' = None → pc_provisional q' = None → pc_slot q = None →
  pc_token q' = pc_token q → pc_budget q' = pc_budget q → moved q q' g (with_heap (releaseSlot l (g_heap g)) g).
Proof.
  intros Ep Ep' Epr Es Et Eb. apply moved_heap; try done.
  - by apply cm_slot.
  - apply flags_same; [apply releaseSlot_leases|by left].
  - apply transfer_same; [done| |congruence]. intros x (lease & Hx & Hr). cbn in Hx. rewrite releaseSlot_leases in Hx. by exists lease.
Qed.

(** Taking a new slot. *)
Lemma moved_acquire q q' g h :
  (h = g_heap g ∨ ∀ p, cstep (g_heap g, p) (h, p)) →
  match pc_slot q' with
  | None => leases h = leases (g_heap g)
  | Some l => leases (g_heap g) !! l = None ∧ ∃ lease, leases h = <[l := lease]> (leases (g_heap g)) ∧
      lease_claimed lease = false ∧ lease_admitted lease = true
  end →
  pc_slot q = None → pc_pending q = None → pc_pending q' = None →
  pc_provisional q' = None ∨ pc_provisional q' = pc_slot q' →
  pc_token q' = pc_token q → pc_budget q' = pc_budget q → moved q q' g (with_heap h g).
Proof.
  intros Hc Hl Es Ep Ep' Hpr Et Eb. apply moved_heap; try done.
  - destruct Hc as [-> |Hs]; [by apply cm_same|by apply cm_step].
  - destruct (pc_slot q') as [l|] eqn:E.
    + destruct Hl as (Hn & lease & El & Hcl & Ha). by eapply flags_new.
    + apply flags_same; [done|]. left. by destruct Hpr.
  - destruct (pc_slot q') as [l|] eqn:E.
    + destruct Hl as (Hn & lease & El & _). apply (transfer_new _ _ _ _ _ _ _ l); try done.
      intros x (y & Hy & Hr). cbn in Hy. rewrite El in Hy. apply lookup_insert_Some in Hy as [ [-> _]|[_ Hy] ]; [by right|].
      left. by exists y.
    + apply transfer_same; [done| |congruence]. intros x (y & Hy & Hr). cbn in Hy. rewrite Hl in Hy. by exists y.
Qed.

Lemma releaseOwned_false l g h : releaseOwned_mark l (g_heap g) = (false, h) → ¬ unreleased g l.
Proof. unfold releaseOwned_mark. intros H (lease & Hl & Hr). by rewrite Hl, Hr in H. Qed.

(** Steps that touch no slot and no lease. *)
Lemma moved_worlds q q' g g' :
  g_heap g' = g_heap g → g_leases g' = g_leases g → tmove (g_tokens g) (g_tokens g') → bmove (g_budgets g) (g_budgets g') →
  pc_slot q' = pc_slot q → pc_pending q = None → pc_pending q' = None →
  pc_provisional q' = None ∨ pc_provisional q' = pc_provisional q →
  transfer pc_token rl_tokens open_token q q' g g' → transfer pc_budget rl_budget open_budget q q' g g' → moved q q' g g'.
Proof.
  intros Eh El Ht Hb Es Ep Ep' Epr Htt Hbt. constructor; try done.
  - rewrite Eh. by apply cm_same.
  - apply flags_same; [by rewrite Eh|done].
  - apply transfer_same; [done| |congruence]. intros x (y & Hy & Hr). rewrite Eh in Hy. by exists y.
Qed.

(** Admission: the new lease takes over what the goroutine held. *)
Lemma moved_admitted l t b o g g1 i g' :
  bmove (g_budgets g) (g_budgets g1) → g_heap g1 = g_heap g → g_tokens g1 = g_tokens g → g_leases g1 = g_leases g →
  (∀ x, open_budget g1 x → open_budget g x ∨ b = Some x) →
  new_resource_lease l t b g1 = (i, g') → moved (PBudget l t o) (PAdmitted i) g g'.
Proof.
  intros Hb Eh Et El Hnew HN. unfold new_resource_lease in HN. injection HN as <- <-.
  set (i := fresh (dom (g_leases g1))). set (rl := mkResourceLease (Some l) t b false false noError noTickets).
  assert (Hi : g_leases g1 !! i = None) by apply not_elem_of_dom, is_fresh.
  assert (Hold : ∀ j lease, g_leases g !! j = Some lease → <[i := rl]> (g_leases g1) !! j = Some lease).
  { intros j lease Hj. rewrite lookup_insert_ne; [by rewrite El|]. intros <-. rewrite <-El in Hj. congruence. }
  assert (Hrl : ∀ (k : ResourceLease → option positive) x, k rl = Some x → lease_owns k (with_leases (<[i := rl]> (g_leases g1)) g1) x).
  { intros k x Hk. exists i, rl. cbn. rewrite lookup_insert_eq. done. }
  constructor; cbn; try done.
  - rewrite Eh. by apply cm_same.
  - rewrite Eh. apply flags_same; auto.
  - rewrite Et. by left.
  - split; [|intros j lease Hj _; left; by apply Hold]. intros x (y & Hy & Hr). cbn in Hy. rewrite Eh in Hy.
    destruct (decide (x = l)) as [-> |]; [right; left; by apply Hrl|right; right]. split; [by exists y|]. simpl. congruence.
  - split; [|intros j lease Hj _; left; by apply Hold]. intros x (y & Hy & Hr). cbn in Hy. rewrite Et in Hy.
    destruct (decide (t = Some x)) as [E|]; [right; left; by apply Hrl|right; right]. split; [by exists y|done].
  - split; [|intros j lease Hj _; left; by apply Hold]. intros x Hx.
    destruct (Hnew x Hx) as [Hx0|Hx0]; [|right; left; by apply Hrl]. right. right. done.
Qed.

(** Steps that change composite leases only. *)
Lemma moved_leases q q' g m :
  pc_slot q = None → pc_token q = None → pc_budget q = None → pc_pending q = None → pc_pending q' = None → pc_provisional q' = None →
  (∀ j x, g_leases g !! j = Some x → lease_open x →
     m !! j = Some x ∨ (pc_slot q' = rl_concurrency x ∧ pc_token q' = rl_tokens x ∧ pc_budget q' = rl_budget x)) →
  moved q q' g (with_leases m g).
Proof.
  intros Es Et Eb Ep Ep' Epr Hm. constructor; cbn; auto; [by apply cm_same|apply flags_same; auto| | |];
    (split; [intros x Hx; right; right; split; [done|congruence]|]);
    intros j x Hj Hop; destruct (Hm j x Hj Hop) as [?|(? & ? & ?)]; auto.
Qed.

(** The steps of a goroutine at [q], in a state where the invariant holds. *)
Definition moves (q : pc) : Prop := ∀ clk g q' g',
  treachable false (g_tokens g) → breachable (g_budgets g) → clock_range clk → step_ok q →
  (∀ i, pc_settling q = Some i → ∃ lease, g_leases g !! i = Some lease ∧ rl_finalizing lease = true) →
  (∀ l lease, pc_provisional q = Some l → leases (g_heap g) !! l = Some lease → lease_released lease = false →
     lease_claimed lease = false ∧ lease_admitted lease = true) →
  pc_step co clk q g = Some (q', g') → moved q q' g g'.

Ltac start_move := intros clk g q' g' Ht Hb Hc Hok Hset Hprov HS; simpl in HS, Hok.

Lemma moves_Provision limiter keyID max : moves (PProvision limiter keyID max).
Proof.
  start_move. destruct (ConcurrencyLimiter_Acquire limiter keyID max (g_heap g)) as [r h] eqn:EA. injection HS as <- <-.
  pose proof (Acquire_leases _ _ _ _ _ _ EA) as Hl.
  apply moved_acquire; try (by destruct r); [right; intros p; by eapply step_acquire|destruct r; auto].
Qed.

Lemma moves_Drop l : moves (PDrop l).
Proof.
  start_move. destruct (Release_mark l (g_heap g)) as [b h] eqn:EM. injection HS as <- <-.
  apply (moved_mark _ _ _ l b); try (by destruct b); [by left|]. intros -> (lease & Hl & Hr).
  destruct (Hprov l lease eq_refl Hl Hr) as [E1 E2]. unfold Release_mark in EM. by rewrite Hl, Hr, E1, E2 in EM.
Qed.

Lemma moves_DropSlot l : moves (PDropSlot l).
Proof.
  start_move. injection HS as <- <-. by apply moved_slot.
Qed.

Lemma moves_Acquire o : moves (PAcquire o).
Proof.
  start_move. destruct (acquireConcurrency co (ro_KeyID o) (ro_MaxConcurrency o) g) as [r g1] eqn:EA. injection HS as <- <-.
  destruct (acquireConcurrency_move _ _ _ _ _ (oo_max _ Hok) EA) as (E1 & E2 & E3 & Hh & Hl).
  replace g1 with (with_heap (g_heap g1) g) by (destruct g, g1; simpl in *; by subst).
  apply moved_acquire; try (by destruct r); auto; destruct r; auto.
Qed.

Lemma moves_Promote l o : moves (PPromote l o).
Proof.
  start_move. destruct (adopt_provisional co l o g) as [ok g1] eqn:EA. injection HS as <- <-.
  destruct (adopt_provisional_move _ _ _ _ _ EA) as (E1 & E2 & E3 & Hh & Hl).
  replace g1 with (with_heap (g_heap g1) g) by (destruct g, g1; simpl in *; by subst).
  apply moved_heap; try (by destruct ok).
  + destruct Hh as [-> |Hs]; [by apply cm_same; destruct ok|by apply cm_step; destruct ok].
  + destruct ok; [destruct Hl as (lease & Hl & _ & El); by eapply flags_claimed|apply flags_same; auto].
  + apply transfer_same; [done| |by destruct ok]. intros x (y & Hy & Hr). cbn in Hy.
    destruct ok; [|rewrite Hl in Hy; by exists y]. destruct Hl as (lease & Hl & Hlr & El). rewrite El in Hy.
    apply lookup_insert_Some in Hy as [ [<- <-]|[_ Hy] ]; [by exists lease|by exists y].
Qed.

Lemma moves_Tokens l o : moves (PTokens l o).
Proof.
  start_move. destruct (admit_tokens co clk o g) as [r g1] eqn:EA. injection HS as <- <-.
  destruct (admit_tokens_move _ _ _ _ _ Hc Hok EA) as (Hm & Eh & Eb & El & Hnew).
  apply moved_worlds; try done; try (by destruct r); [by rewrite Eb; left|by destruct r; left| |].
  + destruct r as [ [t|]|e].
    * apply (transfer_new _ _ _ _ _ _ _ t); try done. intros x Hx. destruct (Hnew x Hx) as [?|[= ->] ]; auto.
    * apply transfer_same; try done. intros x Hx. by destruct (Hnew x Hx).
    * apply transfer_same; try done. intros x Hx. by destruct (Hnew x Hx).
  + apply transfer_same; try done. unfold open_budget. by rewrite Eb.
Qed.

Lemma moves_Budget l t o : moves (PBudget l t o).
Proof.
  start_move. destruct (admit_budget co clk o g) as [r g1] eqn:EA.
  destruct (admit_budget_move _ _ _ _ _ Hc Hok EA) as (Hm & Eh & Et & El & Hnew).
  destruct r as [b|err].
  + destruct (new_resource_lease l t b g1) as [i g2] eqn:EN. simplify_eq.
    eapply moved_admitted; try done. intros x Hx. destruct (Hnew x Hx) as [?|[= ->] ]; auto.
  + assert (∃ rej, q' = PUndoTokens l t rej ∧ g' = g1) as (rej & -> & ->) by (destruct err; simplify_eq; eauto).
    apply moved_worlds; try done; [by rewrite Et; left|by left| |].
    * apply transfer_same; try done. unfold open_token. by rewrite Et.
    * apply transfer_same; try done. intros x Hx. by destruct (Hnew x Hx).
Qed.

Lemma moves_UndoTokens l t rej : moves (PUndoTokens l t rej).
Proof.
  start_move. injection HS as <- <-. destruct (release_tokens_move clk t g Hc) as [Hm Hs].
  destruct (token_settled_frame _ _ _ Hs) as (Eh & Eb & El).
  apply moved_worlds; try done; [by rewrite Eb; left|by left| |].
  + apply transfer_same; [done| |].
    * intros x Hx. by destruct (settled_open_token _ _ _ x Hs Hx).
    * intros x E Hx. by destruct (settled_open_token _ _ _ x Hs Hx).
  + apply transfer_same; try done. unfold open_budget. by rewrite Eb.
Qed.

Lemma moves_UndoMark l rej : moves (PUndoMark l rej).
Proof.
  start_move. destruct (releaseOwned_mark l (g_heap g)) as [b h] eqn:EM. injection HS as <- <-.
  apply (moved_mark _ _ _ l b); try (by destruct b); [by right|]. intros ->. by eapply releaseOwned_false.
Qed.

Lemma moves_UndoSlot l rej : moves (PUndoSlot l rej).
Proof.
  start_move. injection HS as <- <-. by apply moved_slot.
Qed.

Lemma moves_Reject rej : moves (PReject rej).
Proof.
  start_move. destruct rej as [e|err].
  + injection HS as <- <-. apply moved_worlds; try done; [by left..| |]; by apply transfer_same.
  + destruct (budget_rejection clk err g) as [e g1] eqn:EB. injection HS as <- <-.
    destruct (budget_rejection_move _ _ _ _ _ Hc EB) as (Hm & Eh & Et & El & Er).
    apply moved_worlds; try done; [by rewrite Et; left|by left| |]; apply transfer_same; try done.
    * unfold open_token. by rewrite Et.
    * unfold open_budget. by rewrite Er.
Qed.

Lemma moves_Finish i c : moves (PFinish i c).
Proof.
  start_move. destruct (finish_enter i g) as [e g1] eqn:EE. injection HS as <- <-. unfold finish_enter in EE.
  assert (Hsame : ∀ q'', g1 = g → pc_slot q'' = None → pc_pending q'' = None → pc_provisional q'' = None →
            pc_token q'' = None → pc_budget q'' = None → moved (PFinish i c) q'' g g1).
  { intros q'' -> ? ? ? ? ?. apply moved_worlds; try done; auto; apply transfer_same; done. }
  destruct (g_leases g !! i) as [lease|] eqn:El; [|simplify_eq; by apply Hsame].
  destruct (rl_finalized lease) eqn:Ef; [simplify_eq; by apply Hsame|].
  destruct (rl_finalizing lease) eqn:Ez; [simplify_eq; by apply Hsame|]. simplify_eq.
  apply moved_leases; try done. intros j x Hj Hop.
  destruct (decide (j = i)) as [-> |]; [right|left; by rewrite lookup_insert_ne]. by simplify_eq.
Qed.

Lemma moves_Wait i : moves (PWait i).
Proof.
  start_move. destruct (g_leases g !! i) as [lease|]; [|done]. destruct (rl_finalized lease); [|done]. injection HS as <- <-.
  apply moved_worlds; try done; auto; by apply transfer_same.
Qed.

Lemma moves_SettleTokens i c lease : moves (PSettleTokens i c lease).
Proof.
  start_move. destruct (settle_tokens clk c (rl_tokens lease) g) as [ [terr ttk] g1] eqn:ES. injection HS as <- <-.
  pose proof (settle_tokens_move _ _ _ _ _ _ _ Ht Hc Hok ES) as Hm. apply settle_tokens_settled in ES as Hs.
  destruct (token_settled_frame _ _ _ Hs) as (Eh & Eb & El).
  apply moved_worlds; try done; [by rewrite Eb; left|by left| |].
  + apply transfer_same; [done| |].
    * intros x Hx. by destruct (settled_open_token _ _ _ x Hs Hx).
    * intros x E Hx. by destruct (settled_open_token _ _ _ x Hs Hx).
  + apply transfer_same; try done. unfold open_budget. by rewrite Eb.
Qed.

Lemma moves_SettleBudget i c lease terr ttk : moves (PSettleBudget i c lease terr ttk).
Proof.
  start_move. destruct (settle_budget c (rl_budget lease) g) as [ [berr btk] g1] eqn:ES. injection HS as <- <-.
  pose proof (settle_budget_move _ _ _ _ _ _ Hok ES) as Hm. apply settle_budget_settled in ES as Hs.
  destruct (budget_settled_frame _ _ _ Hs) as (Eh & Et & El).
  apply moved_worlds; try done; [by rewrite Et; left|by left| |].
  + apply transfer_same; try done. unfold open_token. by rewrite Et.
  + apply transfer_same; [done| |].
    * intros x Hx. by destruct (settled_open_budget _ _ _ x Hs Hx).
    * intros x E Hx. by destruct (settled_open_budget _ _ _ x Hs Hx).
Qed.

Lemma moves_ReleaseMark i lease err tickets : moves (PReleaseMark i lease err tickets).
Proof.
  start_move. destruct (rl_concurrency lease) as [l|] eqn:El.
  + destruct (releaseOwned_mark l (g_heap g)) as [b h] eqn:EM. injection HS as <- <-.
    apply (moved_mark _ _ _ l b); try (by destruct b); [by right|]. intros ->. by eapply releaseOwned_false.
  + injection HS as <- <-. apply moved_worlds; try done; auto; by apply transfer_same.
Qed.

Lemma moves_ReleaseSlot i l err tickets : moves (PReleaseSlot i l err tickets).
Proof.
  start_move. injection HS as <- <-. by apply moved_slot.
Qed.

Lemma moves_Publish i err tickets : moves (PPublish i err tickets).
Proof.
  start_move. injection HS as <- <-. destruct (Hset i eq_refl) as (lease & Hl & Hz).
  apply moved_leases; try done. intros j x Hj [_ Hx]. left. rewrite lookup_insert_ne; [done|]. intros <-. congruence.
Qed.

Lemma pc_step_moved q : moves q.
Proof.
  destruct q; auto using moves_Provision, moves_Drop, moves_DropSlot, moves_Acquire, moves_Promote, moves_Tokens,
    moves_Budget, moves_UndoTokens, moves_UndoMark, moves_UndoSlot, moves_Reject, moves_Finish, moves_Wait,
    moves_SettleTokens, moves_SettleBudget, moves_ReleaseMark, moves_ReleaseSlot, moves_Publish; by start_move.
Qed.

(** *** The invariant *)

Lemma prov_move q q' h h' th tid :
  flags_move q q' h h' → th !! tid = Some q → prov_ok h th → prov_ok h' (<[tid := q']> th).
Proof.
  intros [Hold Hnew] Hq [Hl Ho]. split.
  - intros t x l Hx Hp. apply lookup_insert_Some in Hx as [ [<- <-]|[Hne Hx] ].
    + destruct (Hnew l Hp) as [Hp0|(_ & lease & ? & ? & ?)]; [|by exists lease].
      destruct (Hl tid q l Hq Hp0) as (lease & Hlk & Hf). destruct (Hold l lease Hlk) as (lease' & Hlk' & Hk).
      exists lease'. split; [done|]. intros Hr. destruct (Hk Hr) as (Hr0 & Ha & [Hc|[_ ?] ]); [|congruence].
      rewrite Ha, Hc. by apply Hf.
    + destruct (Hl t x l Hx Hp) as (lease & Hlk & Hf). destruct (Hold l lease Hlk) as (lease' & Hlk' & Hk).
      exists lease'. split; [done|]. intros Hr. destruct (Hk Hr) as (Hr0 & Ha & [Hc|[Hpq _] ]).
      * rewrite Ha, Hc. by apply Hf.
      * destruct Hne. by eapply Ho.
  - assert (Hno : ∀ t x l, tid ≠ t → th !! t = Some x → pc_provisional x = Some l → pc_provisional q' = Some l → False).
    { intros t x l Hne Hx Hp Hp'. destruct (Hnew l Hp') as [Hp0|[HN _] ]; [by apply Hne; eapply Ho|].
      destruct (Hl t x l Hx Hp) as (lease & ? & _). congruence. }
    intros t t' x x' l Hx Hx' Hp Hp'. apply lookup_insert_Some in Hx as [ [<- <-]|[Hne Hx] ];
      apply lookup_insert_Some in Hx' as [ [<- <-]|[Hne' Hx'] ]; [done|..|by eauto].
    + destruct (Hno t' x' l Hne' Hx' Hp' Hp).
    + destruct (Hno t x l Hne Hx Hp Hp').
Qed.

Inductive lease_move (q q' : pc) (m : gmap positive ResourceLease) : gmap positive ResourceLease → Prop :=
| lm_same :
    pc_settling q' = pc_settling q → pc_target q' = pc_target q ∨ pc_target q' = None →
    (∀ i err tickets lease, q' = PFinished i err tickets → m !! i = Some lease →
       rl_finalized lease = true ∧ rl_finalErr lease = err ∧ rl_deferredTickets lease = tickets) →
    lease_move q q' m m
| lm_new i lease :
    m !! i = None → lease_open lease → pc_settling q = None → pc_target q' = None → lease_move q q' m (<[i := lease]> m)
| lm_claim i c lease lease' :
    q = PFinish i c → q' = PSettleTokens i c lease → m !! i = Some lease → lease_open lease →
    rl_finalized lease' = false → rl_finalizing lease' = true → lease_move q q' m (<[i := lease']> m)
| lm_publish i err tickets :
    q = PPublish i err tickets → q' = PFinished i err tickets →
    lease_move q q' m (<[i := mkResourceLease None None None true false err tickets]> m).

Lemma acquireConcurrency_leases k max g r g' : acquireConcurrency co k max g = (r, g') → g_leases g' = g_leases g.
Proof. unfold acquireConcurrency. intros. repeat case_match; by simplify_eq. Qed.
Lemma adopt_leases l o g b g' : adopt_provisional co l o g = (b, g') → g_leases g' = g_leases g.
Proof. unfold adopt_provisional. intros. repeat case_match; by simplify_eq. Qed.
Lemma admit_tokens_leases clk o g r g' : admit_tokens co clk o g = (r, g') → g_leases g' = g_leases g.
Proof. unfold admit_tokens, gate_reserve_tokens. intros. repeat case_match; by simplify_eq. Qed.
Lemma admit_budget_leases clk o g r g' : admit_budget co clk o g = (r, g') → g_leases g' = g_leases g.
Proof. unfold admit_budget, gate_reserve_budget. intros. repeat case_match; by simplify_eq. Qed.
Lemma budget_rejection_leases clk err g e g' : budget_rejection clk err g = (e, g') → g_leases g' = g_leases g.
Proof. unfold budget_rejection, gate_retry_after. intros. repeat case_match; by simplify_eq. Qed.

Lemma finish_step_leases i c clk g q' g' :
  pc_step co clk (PFinish i c) g = Some (q', g') → lease_move (PFinish i c) q' (g_leases g) (g_leases g').
Proof.
  intros HS. simpl in HS. unfold finish_enter in HS. destruct (g_leases g !! i) as [lease|] eqn:El.
  - destruct (rl_finalized lease) eqn:Ef.
    { simplify_eq. apply lm_same; auto. intros ? ? ? x [= -> <- <-] Hx. by simplify_eq. }
    destruct (rl_finalizing lease) eqn:Ez; simplify_eq; [by apply lm_same; auto|]. by eapply lm_claim.
  - simplify_eq. apply lm_same; auto. intros ? ? ? x [= -> <- <-] Hx. congruence.
Qed.

Lemma pc_step_leases clk q g q' g' :
  pc_step co clk q g = Some (q', g') → lease_move q q' (g_leases g) (g_leases g').
Proof.
  assert (Hsame : g_leases g' = g_leases g → pc_settling q' = pc_settling q → pc_target q' = pc_target q ∨ pc_target q' = None →
            (∀ i err tickets, q' ≠ PFinished i err tickets) → lease_move q q' (g_leases g) (g_leases g')).
  { intros -> ? ? Hn. apply lm_same; try done. intros i e t x E. by destruct (Hn i e t). }
  destruct q; try (by eauto using finish_step_leases); simpl; intros HS; try done.
  - destruct (ConcurrencyLimiter_Acquire _ _ _ _) as [ [l|] h]; simplify_eq; apply Hsame; auto.
  - destruct (Release_mark _ _) as [ [] h]; simplify_eq; apply Hsame; auto.
  - simplify_eq; apply Hsame; auto.
  - destruct (acquireConcurrency _ _ _ g) as [ [l|e] g1] eqn:E; apply acquireConcurrency_leases in E; simplify_eq; apply Hsame; auto.
  - destruct (adopt_provisional _ _ _ g) as [ [] g1] eqn:E; apply adopt_leases in E; simplify_eq; apply Hsame; auto.
  - destruct (admit_tokens _ _ _ g) as [ [t|e] g1] eqn:E; apply admit_tokens_leases in E; simplify_eq; apply Hsame; auto.
  - destruct (admit_budget _ _ _ g) as [ [b|[e|] ] g1] eqn:E; apply admit_budget_leases in E; simplify_eq; try (apply Hsame; by auto).
    cbn. rewrite E. apply lm_new; try done. apply not_elem_of_dom, is_fresh.
  - simplify_eq. apply Hsame; auto. apply release_tokens_only.
  - destruct (releaseOwned_mark _ _) as [ [] h]; simplify_eq; apply Hsame; auto.
  - simplify_eq; apply Hsame; auto.
  - destruct rej as [e|err]; [simplify_eq; by apply Hsame; auto|].
    destruct (budget_rejection _ _ g) as [e g1] eqn:E; apply budget_rejection_leases in E; simplify_eq; apply Hsame; auto.
  - destruct (g_leases g !! i) as [lease|] eqn:El; [|done]. destruct (rl_finalized lease) eqn:Ef; [|done]. simplify_eq.
    apply lm_same; auto. intros ? ? ? x [= -> <- <-] Hx. by simplify_eq.
  - destruct (settle_tokens _ _ _ g) as [ [terr ttk] g1] eqn:E; apply settle_tokens_settled, token_settled_frame in E as (_ & _ & E).
    simplify_eq; apply Hsame; auto.
  - destruct (settle_budget _ _ g) as [ [berr btk] g1] eqn:E; apply settle_budget_settled, budget_settled_frame in E as (_ & _ & E).
    simplify_eq; apply Hsame; auto.
  - destruct (rl_concurrency lease); [|simplify_eq; by apply Hsame; auto].
    destruct (releaseOwned_mark _ _) as [ [] h]; simplify_eq; apply Hsame; auto.
  - simplify_eq; apply Hsame; auto.
  - simplify_eq. by apply lm_publish.
Qed.

(** The goroutine at [tid] keeps its claim, if it has one. *)
Lemma claims_same q q' m th tid :
  claims_ok m th → th !! tid = Some q → pc_settling q' = pc_settling q → pc_target q' = pc_target q ∨ pc_target q' = None →
  (∀ i err tickets lease, q' = PFinished i err tickets → m !! i = Some lease →
     rl_finalized lease = true ∧ rl_finalErr lease = err ∧ rl_deferredTickets lease = tickets) →
  claims_ok m (<[tid := q']> th).
Proof.
  intros [Ho Hs Hc Ht Hr] Hq Es Et Hf. constructor.
  - intros t t' x x' i Hx Hx' Hi Hi'. apply lookup_insert_Some in Hx as [ [<- <-]|[Hne Hx] ];
      apply lookup_insert_Some in Hx' as [ [<- <-]|[Hne' Hx'] ]; rewrite ?Es in *; eauto.
  - intros t x i Hx Hi. apply lookup_insert_Some in Hx as [ [<- <-]|[Hne Hx] ]; rewrite ?Es in *; eauto.
  - intros i lease Hi Hf0 Hz. destruct (Hc i lease Hi Hf0 Hz) as (t & x & Hx & Hxi).
    destruct (decide (t = tid)) as [-> |]; [|exists t, x; by rewrite lookup_insert_ne].
    exists tid, q'. rewrite lookup_insert_eq, Es. split; [done|]. by simplify_eq.
  - intros t x i Hx Hi. apply lookup_insert_Some in Hx as [ [<- <-]|[Hne Hx] ]; [|by eapply Ht].
    destruct Et as [E|E]; rewrite E in Hi; [by eapply Ht|done].
  - intros t i e tk lease Hx Hi. apply lookup_insert_Some in Hx as [ [<- ->]|[Hne Hx] ]; eauto.
Qed.

Lemma claims_add m th i lease :
  claims_ok m th → m !! i = None → lease_open lease → claims_ok (<[i := lease]> m) th.
Proof.
  intros [Ho Hs Hc Ht Hr] Hi [Hf Hz]. constructor; [done|..].
  - intros t x j Hx Hj. destruct (Hs t x j Hx Hj) as (y & Hy & ?). exists y. rewrite lookup_insert_ne by congruence. done.
  - intros j y Hj Hf' Hz'. apply lookup_insert_Some in Hj as [ [<- <-]|[_ Hj] ]; [congruence|eauto].
  - intros t x j Hx Hj. destruct (Ht t x j Hx Hj) as [y Hy]. exists y. rewrite lookup_insert_ne by congruence. done.
  - intros t j e tk y Hx Hj. apply lookup_insert_Some in Hj as [ [<- <-]|[_ Hj] ]; [|eauto].
    destruct (Ht t _ i Hx eq_refl). congruence.
Qed.

Lemma claims_claim m th tid i c lease lease' :
  claims_ok m th → th !! tid = Some (PFinish i c) → m !! i = Some lease → lease_open lease →
  rl_finalized lease' = false → rl_finalizing lease' = true →
  claims_ok (<[i := lease']> m) (<[tid := PSettleTokens i c lease]> th).
Proof.
  intros [Ho Hs Hc Ht Hr] Hq Hi [Hf Hz] Hf' Hz'.
  assert (Hno : ∀ t x, th !! t = Some x → pc_settling x = Some i → False).
  { intros t x Hx Hxi. destruct (Hs t x i Hx Hxi) as (y & Hy & _ & ?). congruence. }
  constructor.
  - intros t t' x x' j Hx Hx' Hj Hj'. apply lookup_insert_Some in Hx as [ [<- <-]|[Hne Hx] ];
      apply lookup_insert_Some in Hx' as [ [<- <-]|[Hne' Hx'] ]; [done|..|by eauto].
    + simpl in Hj. simplify_eq. by destruct (Hno t' x').
    + simpl in Hj'. simplify_eq. by destruct (Hno t x).
  - intros t x j Hx Hj. apply lookup_insert_Some in Hx as [ [<- <-]|[Hne Hx] ].
    + simpl in Hj. simplify_eq. exists lease'. by rewrite lookup_insert_eq.
    + destruct (decide (j = i)) as [-> |]; [by destruct (Hno t x)|]. rewrite lookup_insert_ne by done. eauto.
  - intros j y Hj Hjf Hjz. apply lookup_insert_Some in Hj as [ [<- <-]|[Hne Hj] ].
    + exists tid, (PSettleTokens i c lease). by rewrite lookup_insert_eq.
    + destruct (Hc j y Hj Hjf Hjz) as (t & x & Hx & Hxj). exists t, x. rewrite lookup_insert_ne; [done|]. intros <-. by simplify_eq.
  - intros t x j Hx Hj. destruct (decide (j = i)) as [-> |]; [rewrite lookup_insert_eq; eauto|].
    rewrite lookup_insert_ne by done. apply lookup_insert_Some in Hx as [ [<- <-]|[Hne Hx] ]; [simpl in Hj; congruence|eauto].
  - intros t j e tk y Hx Hj. apply lookup_insert_Some in Hx as [ [_ ?]|[Hne Hx] ]; [done|].
    apply lookup_insert_Some in Hj as [ [<- <-]|[_ Hj] ]; [|eauto].
    destruct (Hr t i e tk lease Hx Hi) as (? & _). congruence.
Qed.

Lemma claims_publish m th tid i err tickets :
  claims_ok m th → th !! tid = Some (PPublish i err tickets) →
  claims_ok (<[i := mkResourceLease None None None true false err tickets]> m) (<[tid := PFinished i err tickets]> th).
Proof.
  intros [Ho Hs Hc Ht Hr] Hq. destruct (Hs tid _ i Hq eq_refl) as (lease & Hi & Hf & Hz).
  assert (Hno : ∀ t x, tid ≠ t → th !! t = Some x → pc_settling x = Some i → False).
  { intros t x Hne Hx Hxi. apply Hne. by eapply Ho. }
  constructor.
  - intros t t' x x' j Hx Hx' Hj Hj'. apply lookup_insert_Some in Hx as [ [<- <-]|[Hne Hx] ]; [done|].
    apply lookup_insert_Some in Hx' as [ [<- <-]|[Hne' Hx'] ]; [done|eauto].
  - intros t x j Hx Hj. apply lookup_insert_Some in Hx as [ [<- <-]|[Hne Hx] ]; [done|].
    destruct (decide (j = i)) as [-> |]; [by destruct (Hno t x)|]. rewrite lookup_insert_ne by done. eauto.
  - intros j y Hj Hjf Hjz. apply lookup_insert_Some in Hj as [ [<- <-]|[Hne Hj] ]; [done|].
    destruct (Hc j y Hj Hjf Hjz) as (t & x & Hx & Hxj). exists t, x. rewrite lookup_insert_ne; [done|]. intros <-. simplify_eq. simpl in Hxj. congruence.
  - intros t x j Hx Hj. destruct (decide (j = i)) as [-> |]; [rewrite lookup_insert_eq; eauto|].
    rewrite lookup_insert_ne by done. apply lookup_insert_Some in Hx as [ [<- <-]|[Hne Hx] ]; [simpl in Hj; congruence|eauto].
  - intros t j e tk y Hx Hj. apply lookup_insert_Some in Hx as [ [_ Hx]|[Hne Hx] ].
    + simplify_eq. rewrite lookup_insert_eq in Hj. by simplify_eq.
    + apply lookup_insert_Some in Hj as [ [<- <-]|[_ Hj] ]; [|eauto].
      destruct (Hr t i e tk lease Hx Hi) as (? & _). congruence.
Qed.

Lemma lease_move_inv q q' m m' th tid :
  lease_move q q' m m' → th !! tid = Some q → claims_ok m th → claims_ok m' (<[tid := q']> th).
Proof.
  intros Hm Hq Hc. destruct Hm as [Es Et Hf|i lease Hi Hop Es Et|i c lease lease' -> -> Hi Hop Hf Hz|i err tickets -> ->].
  - by eapply claims_same.
  - apply claims_add; try done.
    assert (Es' : pc_settling q' = None) by (destruct q'; simpl in *; done).
    eapply claims_same; try done; [congruence|by right|]. intros j e tk x -> _. done.
  - by eapply claims_claim.
  - by apply claims_publish.
Qed.

Lemma moved_inv g th tid q q' g' :
  sinv (mkSys g th) → th !! tid = Some q → moved q q' g g' → lease_move q q' (g_leases g) (g_leases g') →
  sinv (mkSys g' (<[tid := q']> th)).
Proof.
  intros [Hconc Htok Hbud Hsl Htk Hbg Hpr Hcl] Hq [Mc Mf Mt Mb Ms Mtk Mbg] Hlm. cbn [s_gate s_threads] in *.
  constructor; cbn [s_gate s_threads].
  - by eapply conc_move_inv.
  - by eapply tmove_reachable.
  - by eapply bmove_reachable.
  - intros l lease Hl Hr. eapply transfer_owned; [exact Ms|done| |by exists lease]. intros x (y & Hy & Hyr). eauto.
  - intros i r Hr Hf. eapply transfer_owned; [exact Mtk|done| |by exists r]. intros x (y & Hy & Hyr). eauto.
  - intros i r Hr Hf. eapply transfer_owned; [exact Mbg|done| |by exists r]. intros x (y & Hy & Hyr). eauto.
  - by eapply prov_move.
  - by eapply lease_move_inv.
Qed.

Lemma run_moved g th tid q clk q' g' :
  sinv (mkSys g th) → th !! tid = Some q → clock_range clk → step_ok q → pc_step co clk q g = Some (q', g') → moved q q' g g'.
Proof.
  intros Hi Hq Hc Hok HS. destruct Hi as [_ Htok Hbud _ _ _ Hpr Hcl]. cbn [s_gate s_threads] in *. eapply pc_step_moved; try done.
  - intros i Hi. destruct (cl_settling _ _ Hcl tid q i Hq Hi) as (lease & ? & _ & ?). eauto.
  - intros l lease Hl Hlk Hr. destruct (pr_lease _ _ Hpr tid q l Hq Hl) as (x & Hx & Hf). simplify_eq. auto.
Qed.

Lemma run_inv g th tid q clk q' g' :
  sinv (mkSys g th) → th !! tid = Some q → clock_range clk → step_ok q → pc_step co clk q g = Some (q', g') →
  sinv (mkSys g' (<[tid := q']> th)).
Proof. intros Hi Hq Hc Hok HS. eapply moved_inv; [done|done|by eapply run_moved|by eapply pc_step_leases]. Qed.

(** A provisional holder makes up its mind. *)
Lemma decide_inv g th tid q q' l :
  sinv (mkSys g th) → th !! tid = Some q → pc_provisional q = Some l → pc_provisional q' = Some l → sinv (mkSys g (<[tid := q']> th)).
Proof.
  intros Hi Hq E E'.
  assert (Hq' : ∀ x, pc_provisional x = Some l → pc_slot x = Some l ∧ pc_pending x = None ∧ pc_token x = None ∧
            pc_budget x = None ∧ pc_settling x = None ∧ pc_target x = None) by (intros x Hx; destruct x; simpl in *; by simplify_eq).
  destruct (Hq' q E) as (?&?&?&?&?&?), (Hq' q' E') as (?&?&?&?&?&?). eapply moved_inv; [done|done| |].
  - apply moved_worlds; try done; auto; [congruence|right; congruence| |]; apply transfer_same; congruence || done.
  - apply lm_same; [congruence|by right|]. intros i e tk lease -> _. done.
Qed.

(** A new call owns nothing. *)
Lemma spawn_inv g th tid q : sinv (mkSys g th) → th !! tid = None → call_allowed q g → sinv (mkSys g (<[tid := q]> th)).
Proof.
  intros [ (p & Hcr & Hp & Hpu) Htok Hbud Hsl Htk Hbg [Pl Po] [Co Cs Cc Ct Cr] ] Hn Hok. cbn [s_gate s_threads] in *.
  assert (Hq : pc_pending q = None ∧ pc_provisional q = None ∧ pc_settling q = None ∧ (∀ i e t, q ≠ PFinished i e t) ∧
            ∀ i, pc_target q = Some i → is_Some (g_leases g !! i))
    by (destruct q; simpl in *; split_and!; try done; intros; by simplify_eq).
  destruct Hq as (Ep & Epr & Es & Ef & Et).
  assert (Hins : ∀ t x, th !! t = Some x → <[tid := q]> th !! t = Some x)
    by (intros t x Hx; rewrite lookup_insert_ne; [done|congruence]).
  assert (Hown : ∀ f k x, owns f k (mkSys g th) x → owns f k (mkSys g (<[tid := q]> th)) x).
  { intros f k x [(t & y & Hy & ?)|Hx]; [left|by right]. exists t, y. simpl. auto. }
  constructor; cbn [s_gate s_threads]; try done.
  - exists p. split; [done|]. split.
    + intros l. rewrite Hp. split; intros (t & x & Hx & ?); [eauto|].
      apply lookup_insert_Some in Hx as [ [_ <-]|[_ Hx] ]; [congruence|eauto].
    + intros t t' x x' l Hx Hx' ? ?. apply lookup_insert_Some in Hx as [ [_ <-]|[_ Hx] ]; [congruence|].
      apply lookup_insert_Some in Hx' as [ [_ <-]|[_ Hx'] ]; [congruence|eauto].
  - intros l lease Hl Hr. eauto.
  - intros i r Hr Hf. eauto.
  - intros i r Hr Hf. eauto.
  - split.
    + intros t x l Hx Hl. apply lookup_insert_Some in Hx as [ [_ <-]|[_ Hx] ]; [congruence|eauto].
    + intros t t' x x' l Hx Hx' ? ?. apply lookup_insert_Some in Hx as [ [_ <-]|[_ Hx] ]; [congruence|].
      apply lookup_insert_Some in Hx' as [ [_ <-]|[_ Hx'] ]; [congruence|eauto].
  - constructor.
    + intros t t' x x' l Hx Hx' ? ?. apply lookup_insert_Some in Hx as [ [_ <-]|[_ Hx] ]; [congruence|].
      apply lookup_insert_Some in Hx' as [ [_ <-]|[_ Hx'] ]; [congruence|eauto].
    + intros t x i Hx Hi. apply lookup_insert_Some in Hx as [ [_ <-]|[_ Hx] ]; [congruence|eauto].
    + intros i lease Hi Hf Hz. destruct (Cc i lease Hi Hf Hz) as (t & x & ? & ?). eauto.
    + intros t x i Hx Hi. apply lookup_insert_Some in Hx as [ [_ <-]|[_ Hx] ]; eauto.
    + intros t i e tk lease Hx Hi. apply lookup_insert_Some in Hx as [ [_ Hx]|[_ Hx] ]; [by destruct (Ef i e tk)|eauto].
Qed.

Lemma sstep_inv S S' : sstep S S' → sinv S → sinv S'.
Proof.
  intros HS Hi. destruct HS as [g th q Hq|g th tid q clk q' g' Hq Hc Hok HS|g th tid l o Hq|g th tid l Hq
                               |g th l lease b h Hl Hc Hm|g th w Hw Hn|g th w Hw Hn].
  - apply spawn_inv; [done|apply not_elem_of_dom, is_fresh|done].
  - by eapply run_inv.
  - by eapply decide_inv.
  - by eapply decide_inv.
  - unfold Release_mark in Hm. rewrite Hl, Hc, orb_true_r in Hm. simpl in Hm. simplify_eq. by destruct g.
  - destruct Hi as [Hconc Htok Hbud Hsl Htk Hbg Hpr Hcl]. constructor; try done.
    + cbn in *. eapply tmove_reachable; [by right|done].
    + intros i r Hr Hf. exact (Htk i r (Hn i r Hr Hf) Hf).
  - destruct Hi as [Hconc Htok Hbud Hsl Htk Hbg Hpr Hcl]. constructor; try done.
    + cbn in *. eapply bmove_reachable; [by right|done].
    + intros i r Hr Hf. exact (Hbg i r (Hn i r Hr Hf) Hf).
Qed.

(** A new goroutine has marked nothing. *)
Lemma spawn_pending th tid q p :
  th !! tid = None → pc_pending q = None → pending_threads th p → pending_threads (<[tid := q]> th) p.
Proof.
  intros Hn Ep [Hp Hpu]. split.
  - intros l. rewrite Hp. split; intros (t & x & Hx & ?).
    + exists t, x. rewrite lookup_insert_ne; [done|congruence].
    + apply lookup_insert_Some in Hx as [ [_ <-]|[_ Hx] ]; [congruence|eauto].
  - intros t t' x x' l Hx Hx' ? ?. apply lookup_insert_Some in Hx as [ [_ <-]|[_ Hx] ]; [congruence|].
    apply lookup_insert_Some in Hx' as [ [_ <-]|[_ Hx'] ]; [congruence|eauto].
Qed.

(** Every step of the system is at most one step of each limiter. *)
Lemma sstep_moves S S' p :
  sinv S → creachable (g_heap (s_gate S), p) → pending_threads (s_threads S) p → sstep S S' →
  (∃ p', cmove (g_heap (s_gate S), p) (g_heap (s_gate S'), p') ∧ pending_threads (s_threads S') p') ∧
  tmove (g_tokens (s_gate S)) (g_tokens (s_gate S')) ∧ bmove (g_budgets (s_gate S)) (g_budgets (s_gate S')).
Proof.
  intros Hi Hr Hp HS. destruct HS as [g th q Hq|g th tid q clk q' g' Hq Hc Hok HS|g th tid l o Hq|g th tid l Hq
                               |g th l lease b h Hl Hc Hm|g th w Hw Hn|g th w Hw Hn]; cbn [s_gate s_threads] in *.
  - split; [|split; by left]. exists p. split; [by left|]. apply spawn_pending; [apply not_elem_of_dom, is_fresh|by destruct q|done].
  - pose proof (run_moved g th tid q clk q' g' Hi Hq Hc Hok HS) as [Hmc _ Hmt Hmb _ _ _]. split; [|done].
    by eapply conc_move_step.
  - split; [|split; by left]. exists p. split; [by left|]. by eapply pending_same.
  - split; [|split; by left]. exists p. split; [by left|]. by eapply pending_same.
  - unfold Release_mark in Hm. rewrite Hl, Hc, orb_true_r in Hm. simpl in Hm. simplify_eq.
    split; [|split; by left]. exists p. split; [by left|done].
  - split; [exists p; split; [by left|done]|]. split; [by right|by left].
  - split; [exists p; split; [by left|done]|]. split; [by left|by right].
Qed.

Lemma sreachable_inv S : sreachable S → sinv S.
Proof.
  intros (S0 & (Eh & El & Eth & Et & Eb) & Ht & Hr).
  assert (H0 : sinv S0).
  { destruct S0 as [g th]. cbn in *. subst th. constructor; cbn; try done; rewrite ?Eh, ?El.
    - exists ∅. split; [apply rtc_refl|]. split; [set_solver|done].
    - by exists (g_tokens g).
    - rewrite Eb. apply rtc_refl.
    - done.
    - intros i r Hr'. change (w_reservations (g_tokens g) !! i = Some r) in Hr'. by rewrite Et in Hr'.
    - intros i r Hr'. change (bw_reservations (g_budgets g) !! i = Some r) in Hr'. by rewrite Eb in Hr'.
    - by constructor. }
  clear Ht Eh El Eth Et Eb. induction Hr; [done|]. apply IHHr. by eapply sstep_inv.
Qed.

(** *** Runs of one admission *)

Definition admitting (o : ResourceLeaseOptions) (q : pc) : Prop :=
  match q with
  | PAcquire o' | PTokens _ o' | PBudget _ _ o' => o' = o
  | PUndoTokens _ _ _ | PUndoMark _ _ | PUndoSlot _ _ | PReject _ | PRejected _ | PAdmitted _ => True
  | _ => False
  end.

Lemma admitting_step o clk q g q' g' : admitting o q → pc_step co clk q g = Some (q', g') → admitting o q'.
Proof. intros Ha HS. destruct q; simpl in *; try done; subst; repeat case_match; by simplify_eq. Qed.

Lemma admitting_ok o q : options_ok o → admitting o q → step_ok q.
Proof. intros Ho Ha. destruct q; simpl in *; by subst. Qed.

Lemma drive_reachable ck o n g th tid q :
  clocks_ok ck → options_ok o → admitting o q → sreachable (mkSys g th) → th !! tid = Some q →
  let '(q', g') := drive co ck n q g in sreachable (mkSys g' (<[tid := q']> th)).
Proof.
  intros Hck Ho. revert q g th. induction n as [|n IH]; intros q g th Ha Hr Hq; simpl; [by rewrite insert_id|].
  destruct (pc_step co (clock_of ck q) q g) as [ [q1 g1]|] eqn:E; [|by rewrite insert_id].
  specialize (IH q1 g1 (<[tid := q1]> th) (admitting_step _ _ _ _ _ _ Ha E)).
  destruct (drive co ck n q1 g1) as [q' g']. rewrite insert_insert_eq in IH. apply IH; [|apply lookup_insert_eq].
  destruct Hr as (S0 & ? & ? & Hr). exists S0. split_and!; try done. eapply rtc_r; [exact Hr|].
  eapply ss_run; [exact Hq| |by eapply admitting_ok|exact E]. destruct Hck, q; done.
Qed.

Lemma acquire_reachable ck o n g :
  clocks_ok ck → options_ok o → sreachable (mkSys g ∅) →
  let '(q', g') := drive co ck n (PAcquire o) g in sreachable (mkSys g' (<[1%positive := q']> ∅)).
Proof.
  intros Hck Ho Hr. pose proof (drive_reachable ck o n g (<[1%positive := PAcquire o]> ∅) 1 (PAcquire o) Hck Ho eq_refl) as H.
  destruct (drive co ck n (PAcquire o) g) as [q' g']. rewrite insert_insert_eq in H. apply H; [|apply lookup_insert_eq].
  destruct Hr as (S0 & ? & ? & Hr). exists S0. split_and!; try done. eapply rtc_r; [exact Hr|].
  exact (ss_call g ∅ (PAcquire o) I).
Qed.

End system.

(** ** Properties *)

(** running alone, a goroutine computes the sequential admission and
    settlement: eight critical sections admit or reject a request, six settle a
    lease or find it being settled by another goroutine. *)
Theorem alone_is_sequential co ck o g c i :
  (drive co ck 8 (PAcquire o) g = let '(r, g') := Coordinator_Acquire co ck o g in (admission_pc r, g')) ∧
  match ResourceLease_finish (ck_tokens ck) c i g with
  | Some (err, tickets, g') => drive co ck 6 (PFinish i c) g = (PFinished i err tickets, g')
  | None => drive co ck 6 (PFinish i c) g = (PWait i, g)
  end.
Proof. split; [apply drive_acquire|apply drive_finish]. Qed.

Lemma demo_sstart : sreachable demo_coordinator (mkSys demo_gate ∅).
Proof. exists (mkSys demo_gate ∅). split; [done|]. split; [constructor|apply rtc_refl]. Qed.

(** C6: the interleaved system simulates the three limiters and tracks every
    resource.  Whatever the interleaving of admissions, rollbacks, settlements
    and other calls, every step of the system is at most one step of the
    concurrency limiter, of the token limiter and of the budget limiter, whose
    own guarantees therefore hold in the running gateway; the leases marked
    released and still counted are those of the goroutines about to return
    their slot; and after the step every unreleased slot, every unsettled token
    reservation and every unsettled budget reservation belongs to a goroutine
    that is about to settle it or hand it to a lease, or to a lease that has
    not been finished. *)
Theorem system_refines_limiters co S S' :
  sreachable co S → sstep co S S' →
  (∃ p p', creachable (g_heap (s_gate S), p) ∧ cmove (g_heap (s_gate S), p) (g_heap (s_gate S'), p') ∧
     pending_threads (s_threads S) p ∧ pending_threads (s_threads S') p') ∧
  (treachable false (g_tokens (s_gate S)) ∧ tmove (g_tokens (s_gate S)) (g_tokens (s_gate S'))) ∧
  (breachable (g_budgets (s_gate S)) ∧ bmove (g_budgets (s_gate S)) (g_budgets (s_gate S'))) ∧
  (∀ l, unreleased (s_gate S') l → owns pc_slot rl_concurrency S' l) ∧
  (∀ i, open_token (s_gate S') i → owns pc_token rl_tokens S' i) ∧
  (∀ i, open_budget (s_gate S') i → owns pc_budget rl_budget S' i).
Proof.
  intros Hr Hs. pose proof (sreachable_inv co S Hr) as Hi. pose proof (sstep_inv co S S' Hs Hi) as Hi'.
  destruct (si_conc _ Hi) as (p & Hp & Hpe). destruct (sstep_moves co S S' p Hi Hp Hpe Hs) as ((p' & Hc & Hpe') & Ht & Hb).
  split_and!; [by exists p, p'|apply (si_tok _ Hi)|done|apply (si_bud _ Hi)|done|..].
  - intros l (lease & Hl & Hf). by eapply (si_slots _ Hi').
  - intros i (r & Hir & Hf). by eapply (si_tokens _ Hi').
  - intros i (r & Hir & Hf). by eapply (si_budgets _ Hi').
Qed.

(** The first critical section of an admission takes a slot, and the goroutine
    owns it. *)
Lemma system_refines_limiters_witness :
  match pc_step demo_coordinator 1700000000000000000 (PAcquire (demo_request 40)) demo_gate with
  | Some (q, g) => unreleased g 1%positive ∧ pc_slot q = Some 1%positive ∧
      owns pc_slot rl_concurrency (mkSys g (<[1%positive := q]> ∅)) 1%positive
  | None => False
  end.
Proof.
  pose proof (acquire_reachable demo_coordinator demo_clocks (demo_request 40) 0 demo_gate demo_clocks_ok
                (demo_request_ok 40 ltac:(lia)) demo_sstart) as Hr. cbn [drive] in Hr.
  destruct (pc_step demo_coordinator 1700000000000000000 (PAcquire (demo_request 40)) demo_gate) as [ [q g]|] eqn:E;
    [|vm_compute in E; discriminate].
  assert (Hu : unreleased g 1%positive ∧ pc_slot q = Some 1%positive).
  { vm_compute in E. injection E as <- <-. split; [|reflexivity]. eexists. split; [vm_compute; reflexivity|reflexivity]. }
  split; [apply Hu|]. split; [apply Hu|].
  assert (Hstep : sstep demo_coordinator (mkSys demo_gate (<[1%positive := PAcquire (demo_request 40)]> ∅)) (mkSys g (<[1%positive := q]> ∅))).
  { replace (<[1%positive := q]> (∅ : gmap positive pc)) with (<[1%positive := q]> (<[1%positive := PAcquire (demo_request 40)]> (∅ : gmap positive pc)))
      by apply insert_insert_eq.
    eapply ss_run; [apply lookup_insert_eq| | |exact E]; [unfold clock_range, maxInt64; lia|apply demo_request_ok; lia]. }
  destruct (system_refines_limiters demo_coordinator _ _ Hr Hstep) as (_ & _ & _ & Hown & _). apply Hown, Hu.
Defined.

(** The calls have returned, and every admitted lease has been settled. *)
Definition quiescent (S : sys) : Prop :=
  map_Forall (λ _ q, pc_slot q = None ∧ pc_pending q = None ∧ pc_token q = None ∧ pc_budget q = None) (s_threads S) ∧
  map_Forall (λ _ lease, rl_finalized lease = true) (g_leases (s_gate S)).

(** C1: nothing leaks.  Under every interleaving, whatever the reported costs,
    once no call is in progress and every admitted lease was settled, whatever
    was rejected, rolled back, promoted, deferred or failed on the way: no key
    holds a slot and no token bucket holds an active reservation.  A budget
    account holds as active exactly the reservations whose settlement the
    limiter refused because the key's state failed its check, so it holds
    nothing when there was none. *)
Theorem no_resource_leaks co S :
  sreachable co S → quiescent S →
  (∀ limiter k, states (g_heap (s_gate S)) !! (limiter, k) = None) ∧
  (∀ key, TokenLimiter.active (bucket_at (w_limiter (g_tokens (s_gate S))) key) = 0) ∧
  (∀ k s, (account (state_of (bw_limiter (g_budgets (s_gate S))) k) s).2 = refused_money (bw_reservations (g_budgets (s_gate S))) k s) ∧
  (map_Forall (λ _ r, refused_settlement r = false) (bw_reservations (g_budgets (s_gate S))) →
   ∀ k s, (account (state_of (bw_limiter (g_budgets (s_gate S))) k) s).2 = 0).
Proof.
  intros Hr [Hq Hl]. destruct (sreachable_inv co S Hr) as [ (p & Hp & Hpe & _) Ht Hb Hsl Htk Hbg _ _].
  assert (Hno : ∀ f k, (∀ t q, s_threads S !! t = Some q → f q = None) → ∀ x, ¬ owns f k S x).
  { intros f k Hf x [(t & q & Ht' & Hx)|(i & lease & Hi & [Hop _] & _)]; [by rewrite (Hf t q Ht') in Hx|].
    by rewrite (Hl i lease Hi) in Hop. }
  assert (Hbud : ∀ k s, (account (state_of (bw_limiter (g_budgets (s_gate S))) k) s).2 = refused_money (bw_reservations (g_budgets (s_gate S))) k s).
  { intros k s. change (held (g_budgets (s_gate S)) (k, s) = kept (g_budgets (s_gate S)) (k, s)).
    eapply unowned_empty; [exact (breachable_inv _ Hb)|exact Hbg|]. apply Hno. intros t q Hx. by destruct (Hq t q Hx) as (_ & _ & _ & ?). }
  split; [|split; [|split; [exact Hbud|] ] ].
  - intros limiter k. apply creachable_inv in Hp as Hi. destruct (states (g_heap (s_gate S)) !! (limiter, k)) as [s|] eqn:E; [|done].
    exfalso. destruct (ci_count _ _ Hi limiter k s E) as [_ Hpos].
    assert (holders (g_heap (s_gate S)) p limiter k = ∅) as Hemp; [|unfold held_slots in Hpos; by rewrite Hemp in Hpos].
    apply map_empty. intros l. apply map_lookup_filter_None. right. intros lease Hlk (_ & _ & [Hf|Hin]); simpl in *.
    + apply (Hno pc_slot rl_concurrency) with (x := l); [|by eapply Hsl]. intros t q Hx. by destruct (Hq t q Hx) as (? & _).
    + apply Hpe in Hin as (t & q & Hx & Hxl). destruct (Hq t q Hx) as (_ & ? & _). congruence.
  - intros key. change (held (g_tokens (s_gate S)) key = kept (g_tokens (s_gate S)) key).
    eapply unowned_empty; [by apply treachable_inv|exact Htk|].
    apply Hno. intros t q Hx. by destruct (Hq t q Hx) as (_ & _ & ? & _).
  - intros Hnone k s. rewrite Hbud. apply msum_zero. intros i r Hir. by rewrite (Hnone i r Hir).
Qed.

Lemma no_resource_leaks_witness :
  let '(q, g) := drive demo_coordinator demo_clocks 8 (PAcquire (demo_request 60)) demo_gate in
  quiescent (mkSys g (<[1%positive := q]> ∅)) ∧ states (g_heap g) !! (1%positive, "k"%string) = None ∧
  (account (state_of (bw_limiter (g_budgets g)) "k") STotal).2 = 0.
Proof.
  pose proof (acquire_reachable demo_coordinator demo_clocks (demo_request 60) 8 demo_gate demo_clocks_ok
                (demo_request_ok 60 ltac:(lia)) demo_sstart) as Hr.
  destruct (drive demo_coordinator demo_clocks 8 (PAcquire (demo_request 60)) demo_gate) as [q g] eqn:E.
  assert (Hq : quiescent (mkSys g (<[1%positive := q]> ∅)) ∧
            map_Forall (λ _ r, refused_settlement r = false) (bw_reservations (g_budgets g))).
  { vm_compute in E. injection E as <- <-. split; [split; [|done]; apply map_Forall_insert_2; done|done]. }
  destruct Hq as [Hq Hn]. split; [exact Hq|].
  destruct (no_resource_leaks demo_coordinator _ Hr Hq) as (H1 & _ & _ & H4). split; [apply H1|by apply H4].
Defined.

(** a lease is settled by one goroutine.  Under every interleaving at most
    one goroutine is between claiming a lease and publishing its result, and
    every call that has returned, also those that waited for the settling one,
    returned the error and the tickets recorded in the lease. *)
Theorem one_settlement co S i lease :
  sreachable co S → g_leases (s_gate S) !! i = Some lease →
  (∀ t t' q q', s_threads S !! t = Some q → s_threads S !! t' = Some q' →
     pc_settling q = Some i → pc_settling q' = Some i → t = t') ∧
  (rl_finalized lease = false → rl_finalizing lease = true ↔ ∃ t q, s_threads S !! t = Some q ∧ pc_settling q = Some i) ∧
  (∀ t err tickets, s_threads S !! t = Some (PFinished i err tickets) →
     rl_finalized lease = true ∧ rl_finalErr lease = err ∧ rl_deferredTickets lease = tickets).
Proof.
  intros Hr Hi. pose proof (si_claims _ (sreachable_inv co S Hr)) as [Co Cs Cc Ct Cr]. split_and!.
  - intros. by eapply Co.
  - intros Hf. split; [by apply Cc|]. intros (t & q & Hx & Hq). destruct (Cs t q i Hx Hq) as (y & Hy & _ & ?). congruence.
  - intros. by eapply Cr.
Qed.

Lemma one_settlement_witness :
  let '(q, g) := drive demo_coordinator demo_clocks 8 (PAcquire (demo_request 40)) demo_gate in
  ∃ lease, g_leases g !! 1%positive = Some lease ∧ rl_finalized lease = false ∧
    ¬ ∃ t x, (<[1%positive := q]> ∅ : gmap positive pc) !! t = Some x ∧ pc_settling x = Some 1%positive.
Proof.
  pose proof (acquire_reachable demo_coordinator demo_clocks (demo_request 40) 8 demo_gate demo_clocks_ok
                (demo_request_ok 40 ltac:(lia)) demo_sstart) as Hr.
  destruct (drive demo_coordinator demo_clocks 8 (PAcquire (demo_request 40)) demo_gate) as [q g] eqn:E.
  assert (Hl : ∃ lease, g_leases g !! 1%positive = Some lease ∧ rl_finalized lease = false ∧ rl_finalizing lease = false).
  { vm_compute in E. injection E as <- <-. eexists. split; [vm_compute; reflexivity|split; reflexivity]. }
  destruct Hl as (lease & Hl & Hf & Hz). exists lease. split; [exact Hl|]. split; [exact Hf|]. intros Hex.
  destruct (one_settlement demo_coordinator _ 1%positive lease Hr Hl) as (_ & Hc & _).
  apply Hc in Hex; [|exact Hf]. congruence.
Defined.
