(* ===== verification/Accumulator.v ===== *)
(** * The delta accumulators ([internal/storage/budget_accumulator.go],
      [usage_accumulator.go])

    The limiters publish their committed deltas to an accumulator, which
    coalesces them by bucket identity and lets one worker goroutine write them to
    the durable buckets.  [Sink], [take] and [restore] are critical sections; the
    worker and the callers of [Shutdown] are goroutines that interleave with each
    other and with the sinks.  The two accumulators run the same loop around
    different operations, which are a [variant]; the loop is proved against the
    [Repository] interface. *)

From Stdlib Require Import ZArith Lia ZifyBool.
From stdpp Require Import prelude gmap strings list.
From S2P Require Import Prelude Windows TokenLimiter BudgetLimiter Buckets.
Local Open Scope Z_scope.

(** ** State and operations *)

Inductive acc_error := ErrAccumulatorOverflow | AccStorage (e : bucket_error) | AccDeadline.

(** [wake] is the buffered signal, [stopped] the closed stop channel and
    [cancelled] the worker's context; [failed] is counted by the usage
    accumulator only. *)
Record Accumulator (Id : Type) `{Countable Id} := mkAcc {
  pending : gmap Id Z;
  accepting : bool;
  lastErr : option acc_error;
  failed : Z;
  wake : bool;
  stopped : bool;
  cancelled : bool;
}.
Arguments mkAcc {_ _ _}.
Arguments pending {_ _ _}.
Arguments accepting {_ _ _}.
Arguments lastErr {_ _ _}.
Arguments failed {_ _ _}.
Arguments wake {_ _ _}.
Arguments stopped {_ _ _}.
Arguments cancelled {_ _ _}.

Section operations.
Context {Id : Type} `{Countable Id}.
Implicit Types a : Accumulator Id.

Definition new_accumulator : Accumulator Id := mkAcc ∅ true None 0 false false false.

(** The map's value, zero when absent. *)
Definition pend a (id : Id) : Z := default 0 (pending a !! id).

Definition with_pending (p : gmap Id Z) a : Accumulator Id :=
  mkAcc p (accepting a) (lastErr a) (failed a) (wake a) (stopped a) (cancelled a).
Definition with_error (e : option acc_error) a : Accumulator Id :=
  mkAcc (pending a) (accepting a) e (failed a) (wake a) (stopped a) (cancelled a).
Definition with_wake (b : bool) a : Accumulator Id :=
  mkAcc (pending a) (accepting a) (lastErr a) (failed a) b (stopped a) (cancelled a).
Definition with_failure a : Accumulator Id :=
  mkAcc (pending a) (accepting a) (Some ErrAccumulatorOverflow) (wrapU64 (failed a + 1)) (wake a) (stopped a) (cancelled a).
Definition with_closed a : Accumulator Id :=
  mkAcc (pending a) false (lastErr a) (failed a) (wake a) (stopped a) (cancelled a).
Definition with_stopped a : Accumulator Id :=
  mkAcc (pending a) (accepting a) (lastErr a) (failed a) (wake a) true (cancelled a).
Definition with_cancelled a : Accumulator Id :=
  mkAcc (pending a) (accepting a) (lastErr a) (failed a) (wake a) (stopped a) true.

(** [delete] on zero, store otherwise. *)
Definition put (id : Id) (next : Z) (p : gmap Id Z) : gmap Id Z :=
  if next =? 0 then delete id p else <[id := next]> p.

End operations.

(** *** Budget *)

Definition budget_identity (delta : CommittedBudgetDelta) : budgetIdentity :=
  let period := if bool_decide (bd_Period delta = ""%string) then BudgetPeriodTotal else bd_Period delta in
  (bd_KeyID delta, period, bd_PeriodStart delta).

Definition BudgetAccumulator_Sink (delta : CommittedBudgetDelta) (a : Accumulator budgetIdentity)
  : Accumulator budgetIdentity :=
  if bd_Delta delta =? 0 then a
  else if negb (accepting a) then a
  else
    let identity := budget_identity delta in
    let '(next, ok) := checkedSignedAdd (pend a identity) (bd_Delta delta) in
    if negb ok then with_error (Some ErrAccumulatorOverflow) a
    else with_wake true (with_pending (put identity next (pending a)) a).

Definition budget_restore_one (a : Accumulator budgetIdentity) (d : budgetIdentity * Z) : Accumulator budgetIdentity :=
  let '(identity, delta) := d in
  let '(next, ok) := checkedSignedAdd (pend a identity) delta in
  if negb ok then with_error (Some ErrAccumulatorOverflow) a
  else with_pending (put identity next (pending a)) a.

Definition BudgetAccumulator_restore (batch : list (budgetIdentity * Z)) (a : Accumulator budgetIdentity)
  : Accumulator budgetIdentity :=
  foldl budget_restore_one a batch.

(** *** Usage *)

Definition usage_identity (delta : CommittedTokenDelta) : usageIdentity :=
  (ctd_KeyID delta, ctd_BucketStart delta, Z.quot (duration (ctd_Window delta)) 1000000000, amount (ctd_Window delta)).

Definition UsageAccumulator_Sink (delta : CommittedTokenDelta) (a : Accumulator usageIdentity)
  : Accumulator usageIdentity :=
  if ctd_CommittedDelta delta =? 0 then a
  else if negb (accepting a) then a
  else
    let identity := usage_identity delta in
    let '(_, ok) := checkedSignedAdd (pend a identity) (ctd_CommittedDelta delta) in
    if negb ok then with_failure a
    else
      let current := add64 (pend a identity) (ctd_CommittedDelta delta) in
      with_wake true (with_pending (put identity current (pending a)) a).

(** A sum of zero is not stored, and what was pending stays. *)
Definition usage_restore_one (a : Accumulator usageIdentity) (d : usageIdentity * Z) : Accumulator usageIdentity :=
  let '(identity, delta) := d in
  let '(_, ok) := checkedSignedAdd (pend a identity) delta in
  if negb ok then with_failure a
  else
    let current := add64 (pend a identity) delta in
    if negb (current =? 0) then with_pending (<[identity := current]> (pending a)) a else a.

Definition UsageAccumulator_restore (batch : list (usageIdentity * Z)) (a : Accumulator usageIdentity)
  : Accumulator usageIdentity :=
  foldl usage_restore_one a batch.

(** ** The goroutines

    [v_clears]: a successful flush resets the error (budget only);
    [v_stop_interrupts]: the backoff also waits for the stop signal (budget only). *)
Record variant (Id Event : Type) `{Countable Id} := mkVariant {
  v_sink : Event → Accumulator Id → Accumulator Id;
  v_identity : Event → Id;
  v_delta : Event → Z;
  v_restore : list (Id * Z) → Accumulator Id → Accumulator Id;
  v_clears : bool;
  v_stop_interrupts : bool;
}.
Arguments mkVariant {_ _ _ _}.
Arguments v_sink {_ _ _ _}.
Arguments v_identity {_ _ _ _}.
Arguments v_delta {_ _ _ _}.
Arguments v_restore {_ _ _ _}.
Arguments v_clears {_ _ _ _}.
Arguments v_stop_interrupts {_ _ _ _}.

Definition budget_variant : variant budgetIdentity CommittedBudgetDelta :=
  mkVariant BudgetAccumulator_Sink budget_identity bd_Delta BudgetAccumulator_restore true true.
Definition usage_variant : variant usageIdentity CommittedTokenDelta :=
  mkVariant UsageAccumulator_Sink usage_identity ctd_CommittedDelta UsageAccumulator_restore false false.

(** Where a goroutine is: the worker in [run], [flushRetry] and [flush], or a
    caller of [Shutdown]. *)
Inductive goroutine (Id : Type) :=
| WSelect
| WFlush
| WApply (batch : list (Id * Z))
| WRestore (batch : list (Id * Z)) (e : bucket_error)
| WSetErr (e : bucket_error)
| WClear
| WCheck
| WBackoff
| WExit
| SEnter
| SStop
| SJoin
| SDrain
| SApply (batch : list (Id * Z))
| SRestore (batch : list (Id * Z)) (e : bucket_error)
| SReturned (r : option acc_error).
Arguments WSelect {_}.
Arguments WFlush {_}.
Arguments WApply {_}.
Arguments WRestore {_}.
Arguments WSetErr {_}.
Arguments WClear {_}.
Arguments WCheck {_}.
Arguments WBackoff {_}.
Arguments WExit {_}.
Arguments SEnter {_}.
Arguments SStop {_}.
Arguments SJoin {_}.
Arguments SDrain {_}.
Arguments SApply {_}.
Arguments SRestore {_}.
Arguments SReturned {_}.

Section system.
Context {Id Event Store : Type} `{Countable Id} `{!Repository Id Store} (v : variant Id Event).
Implicit Types a : Accumulator Id.

(** A section of a goroutine; [exited] says that the worker has closed [done]. *)
Inductive section_step (exited : bool) : goroutine Id → Accumulator Id → Store → goroutine Id → Accumulator Id → Store → Prop :=
| step_wake a s : wake a = true → section_step exited WSelect a s WFlush (with_wake false a) s
| step_exit a s : stopped a = true → section_step exited WSelect a s WExit a s
| step_flush_empty a s : pending a = ∅ → section_step exited WFlush a s WCheck a s
| step_flush a s batch :
    pending a ≠ ∅ → batch ≡ₚ map_to_list (pending a) →
    section_step exited WFlush a s (WApply batch) (with_pending ∅ a) s
| step_apply_ok fault a s s' batch :
    repo_apply fault batch s = (None, s') →
    section_step exited (WApply batch) a s (if v_clears v then WClear else WCheck) a s'
| step_apply_err fault a s s' batch e :
    repo_apply fault batch s = (Some e, s') → section_step exited (WApply batch) a s (WRestore batch e) a s'
| step_restore a s batch e : section_step exited (WRestore batch e) a s (WSetErr e) (v_restore v batch a) s
| step_set_error a s e : section_step exited (WSetErr e) a s WCheck (with_error (Some (AccStorage e)) a) s
| step_clear a s : section_step exited WClear a s WCheck (with_error None a) s
| step_check a s :
    section_step exited WCheck a s
      (if bool_decide (pending a = ∅) || bool_decide (lastErr a = None) then WSelect else WBackoff) a s
| step_timer a s : section_step exited WBackoff a s WFlush a s
| step_cancelled a s : cancelled a = true → section_step exited WBackoff a s WSelect a s
| step_interrupted a s : stopped a = true → v_stop_interrupts v = true → section_step exited WBackoff a s WSelect a s
| step_close a s : section_step exited SEnter a s SStop (with_closed a) s
| step_stop a s : section_step exited SStop a s SJoin (with_stopped a) s
| step_joined a s : exited = true → section_step exited SJoin a s SDrain a s
| step_deadline a s : section_step exited SJoin a s (SReturned (Some AccDeadline)) (with_cancelled a) s
| step_drained a s : pending a = ∅ → section_step exited SDrain a s (SReturned None) a s
| step_drain a s batch :
    pending a ≠ ∅ → batch ≡ₚ map_to_list (pending a) →
    section_step exited SDrain a s (SApply batch) (with_pending ∅ a) s
| step_drain_ok fault a s s' batch :
    repo_apply fault batch s = (None, s') → section_step exited (SApply batch) a s SDrain a s'
| step_drain_err fault a s s' batch e :
    repo_apply fault batch s = (Some e, s') → section_step exited (SApply batch) a s (SRestore batch e) a s'
| step_drain_restore a s batch e :
    section_step exited (SRestore batch e) a s (SReturned (Some (AccStorage e))) (v_restore v batch a) s.

(** The system: the accumulator, the store, the goroutines (the worker is the
    first) and, as a ghost, the deltas the sink has accepted. *)
Record system := mkSystem {
  sy_acc : Accumulator Id; sy_store : Store; sy_threads : list (goroutine Id); sy_published : list (Id * Z) }.

Definition worker_exited (ts : list (goroutine Id)) : bool :=
  match ts with WExit :: _ => true | _ => false end.

(** What a call of the sink accepts. *)
Definition accepted (ev : Event) a : list (Id * Z) :=
  if negb (v_delta v ev =? 0) && accepting a && (checkedSignedAdd (pend a (v_identity v ev)) (v_delta v ev)).2
  then [(v_identity v ev, v_delta v ev)] else [].

Inductive system_step : system → system → Prop :=
| sys_sink ev a s ts pub :
    int64 (v_delta v ev) →
    system_step (mkSystem a s ts pub) (mkSystem (v_sink v ev a) s ts (pub ++ accepted ev a))
| sys_run i g g' a a' s s' ts pub :
    ts !! i = Some g → section_step (worker_exited ts) g a s g' a' s' →
    system_step (mkSystem a s ts pub) (mkSystem a' s' (<[i := g']> ts) pub)
| sys_shutdown a s ts pub : system_step (mkSystem a s ts pub) (mkSystem a s (ts ++ [SEnter]) pub)
| sys_cancel a s ts pub : system_step (mkSystem a s ts pub) (mkSystem (with_cancelled a) s ts pub).

Definition start (s0 : Store) : system := mkSystem new_accumulator s0 [WSelect] [].

Inductive reachable (s0 : Store) : system → Prop :=
| reach_start : reachable s0 (start s0)
| reach_step x y : reachable s0 x → system_step x y → reachable s0 y.

(** What the goroutines hold between [take] and the end of the write. *)
Definition held (g : goroutine Id) : list (Id * Z) :=
  match g with WApply b | WRestore b _ | SApply b | SRestore b _ => b | _ => [] end.

Definition in_flight (ts : list (goroutine Id)) : list (Id * Z) := concat (map held ts).

(** The sizes of the deltas of an identity, added up. *)
Definition delta_weight (batch : list (Id * Z)) (id : Id) : Z :=
  foldr (λ d s, if bool_decide (d.1 = id) then Z.abs d.2 + s else s) 0 batch.

#[global] Arguments delta_weight : simpl never.

(** The published deltas stay within a machine integer. *)
Definition within_range (pub : list (Id * Z)) : Prop := ∀ id, delta_weight pub id ≤ maxInt64.

End system.

(** ** Sums over batches *)

Section sums.
Context {Id : Type} `{Countable Id}.
Implicit Types l batch : list (Id * Z).

Lemma delta_sum_app l1 l2 (id : Id) : delta_sum (l1 ++ l2) id = delta_sum l1 id + delta_sum l2 id.
Proof. induction l1 as [|d l1 IH]; [done|]. simpl app. rewrite !delta_sum_cons, IH. lia. Qed.

Lemma delta_weight_cons d l (id : Id) :
  delta_weight (d :: l) id = (if bool_decide (d.1 = id) then Z.abs d.2 else 0) + delta_weight l id.
Proof. unfold delta_weight. simpl. case_bool_decide; lia. Qed.

Lemma delta_weight_app l1 l2 (id : Id) : delta_weight (l1 ++ l2) id = delta_weight l1 id + delta_weight l2 id.
Proof. induction l1 as [|d l1 IH]; [done|]. simpl app. rewrite !delta_weight_cons, IH. lia. Qed.

Lemma delta_weight_nonneg l (id : Id) : 0 ≤ delta_weight l id.
Proof. induction l as [|d l IH]; [done|]. rewrite delta_weight_cons. case_bool_decide; lia. Qed.

Lemma delta_sum_weight l (id : Id) : Z.abs (delta_sum l id) ≤ delta_weight l id.
Proof. induction l as [|d l IH]; [done|]. rewrite delta_weight_cons, delta_sum_cons. case_bool_decide; lia. Qed.

Lemma delta_sum_notin l (id : Id) : id ∉ l.*1 → delta_sum l id = 0 ∧ delta_weight l id = 0.
Proof.
  induction l as [|d l IH]; intros Hn; [done|]. rewrite fmap_cons, not_elem_of_cons in Hn.
  rewrite delta_sum_cons, delta_weight_cons, bool_decide_false by naive_solver. destruct (IH (proj2 Hn)). lia.
Qed.

Lemma delta_sum_in l (id : Id) z :
  NoDup l.*1 → (id, z) ∈ l → delta_sum l id = z ∧ delta_weight l id = Z.abs z.
Proof.
  induction l as [|[i x] l IH]; intros Hn Hin; [by apply elem_of_nil in Hin|].
  rewrite fmap_cons in Hn. apply NoDup_cons in Hn as [Hi Hn]. rewrite delta_sum_cons, delta_weight_cons.
  apply elem_of_cons in Hin as [[= -> ->]|Hin]; simpl.
  - rewrite bool_decide_true by done. destruct (delta_sum_notin l i Hi). lia.
  - rewrite bool_decide_false; [by apply IH|]. intros ->. apply Hi, list_elem_of_fmap. by exists (id, z).
Qed.

(** A batch taken from the pending map. *)
Lemma taken_sums batch (p : gmap Id Z) id :
  batch ≡ₚ map_to_list p →
  delta_sum batch id = default 0 (p !! id) ∧ delta_weight batch id = Z.abs (default 0 (p !! id)).
Proof.
  intros Hp. assert (Hn : NoDup batch.*1) by (rewrite Hp; apply NoDup_fst_map_to_list).
  destruct (p !! id) as [z|] eqn:E.
  - apply delta_sum_in; [done|]. rewrite Hp. by apply elem_of_map_to_list.
  - apply delta_sum_notin. intros ((i & z) & -> & Hin)%list_elem_of_fmap. rewrite Hp in Hin.
    apply elem_of_map_to_list in Hin. simpl in E. congruence.
Qed.

Lemma taken_nodup batch (p : gmap Id Z) : batch ≡ₚ map_to_list p → NoDup batch.*1.
Proof. intros Hp. rewrite Hp. apply NoDup_fst_map_to_list. Qed.

Lemma in_flight_insert (F : list (Id * Z) → Z) (ts : list (goroutine Id)) i g g' :
  (F [] = 0) → (∀ l1 l2, F (l1 ++ l2) = F l1 + F l2) → ts !! i = Some g →
  F (in_flight (<[i := g']> ts)) = F (in_flight ts) - F (held g) + F (held g').
Proof.
  intros H0 Happ. revert i. induction ts as [|t ts IH]; intros [|i] Hi; simplify_eq/=; unfold in_flight in *; simpl.
  - rewrite !Happ. lia.
  - rewrite !Happ, (IH _ Hi). lia.
Qed.

Lemma put_pend (id id' : Id) next (p : gmap Id Z) :
  default 0 (put id next p !! id') = if bool_decide (id = id') then next else default 0 (p !! id').
Proof.
  unfold put. case_bool_decide as E; [subst id'|]; destruct (Z.eqb_spec next 0) as [->|].
  - by rewrite lookup_delete_eq.
  - by rewrite lookup_insert_eq.
  - by rewrite lookup_delete_ne.
  - by rewrite lookup_insert_ne.
Qed.

Lemma put_dom (id id' : Id) next (p : gmap Id Z) :
  is_Some (put id next p !! id') → is_Some (p !! id') ∨ id' = id.
Proof.
  unfold put. destruct (decide (id = id')) as [->|]; [by right|]. left.
  destruct (next =? 0); [rewrite lookup_delete_ne in * by done|rewrite lookup_insert_ne in * by done]; done.
Qed.

End sums.

(** ** What a variant promises to the loop *)

Class VariantLaws {Id Event Store : Type} `{Countable Id} `{!Repository Id Store} (v : variant Id Event) := {
  law_identity ev : canonical (v_identity v ev);
  law_sink ev a id :
    int64 (v_delta v ev) → (∀ i, int64 (pend a i)) →
    pend (v_sink v ev a) id = pend a id + delta_sum (accepted v ev a) id;
  law_sink_accepting ev a : accepting (v_sink v ev a) = accepting a;
  law_sink_closed ev a : accepting a = false → v_sink v ev a = a;
  law_sink_dom ev a id : is_Some (pending (v_sink v ev a) !! id) → is_Some (pending a !! id) ∨ id = v_identity v ev;
  law_restore batch a id :
    NoDup batch.*1 → (∀ i d, (i, d) ∈ batch → int64 (pend a i) ∧ int64 d ∧ int64 (pend a i + d)) →
    pend (v_restore v batch a) id = pend a id + delta_sum batch id;
  law_restore_accepting batch a : accepting (v_restore v batch a) = accepting a;
  law_restore_dom batch a id :
    is_Some (pending (v_restore v batch a) !! id) → is_Some (pending a !! id) ∨ id ∈ batch.*1;
}.

(** ** The conservation invariant *)

Section conservation.
Context {Id Event Store : Type} `{Countable Id} `{!Repository Id Store} (v : variant Id Event) `{!VariantLaws v}.
Implicit Types a : Accumulator Id.

Definition held_ok (g : goroutine Id) : Prop := Forall (λ d, canonical d.1) (held g) ∧ NoDup (held g).*1.

Record acc_inv (s0 : Store) (x : system (Id := Id) (Store := Store)) : Prop := {
  ai_pending id : is_Some (pending (sy_acc x) !! id) → canonical id;
  ai_held : Forall held_ok (sy_threads x);
  ai_sum id : within_range (sy_published x) → canonical id →
    stored (sy_store x) id + pend (sy_acc x) id + delta_sum (in_flight (sy_threads x)) id =
    stored s0 id + delta_sum (sy_published x) id;
  ai_weight id : within_range (sy_published x) →
    Z.abs (pend (sy_acc x) id) + delta_weight (in_flight (sy_threads x)) id ≤ delta_weight (sy_published x) id;
}.

(** What one section has to respect: [ok] says that nothing has overflowed. *)
Record moves (ok : Prop) (g : goroutine Id) a (s : Store) (g' : goroutine Id) a' (s' : Store) : Prop := {
  mv_pending id : is_Some (pending a' !! id) → canonical id;
  mv_held : held_ok g';
  mv_sum id : ok → canonical id →
    stored s' id + pend a' id + delta_sum (held g') id = stored s id + pend a id + delta_sum (held g) id;
  mv_weight id : ok →
    Z.abs (pend a' id) + delta_weight (held g') id ≤ Z.abs (pend a id) + delta_weight (held g) id;
}.

Lemma moves_idle ok g a s g' a' :
  (∀ id, is_Some (pending a !! id) → canonical id) → held_ok g → pending a' = pending a → held g' = held g →
  moves ok g a s g' a' s.
Proof.
  intros Hp Hg Ha Hh. unfold held_ok in *. split; unfold held_ok, pend; rewrite ?Ha, ?Hh; done.
Qed.

Lemma moves_take ok g a s g' batch :
  (∀ id, is_Some (pending a !! id) → canonical id) → held g = [] → held g' = batch →
  batch ≡ₚ map_to_list (pending a) → moves ok g a s g' (with_pending ∅ a) s.
Proof.
  intros Hp Hg <- Hb. split.
  - intros id. simpl. rewrite lookup_empty. by intros [].
  - split; [|by eapply taken_nodup]. rewrite Hb. apply Forall_forall. intros [id z] Hin%elem_of_map_to_list.
    apply Hp. simpl. eauto.
  - intros id _ _. destruct (taken_sums _ _ id Hb) as [E1 E2]. rewrite Hg, E1. unfold pend. simpl.
    rewrite lookup_empty. unfold delta_sum. simpl. lia.
  - intros id _. destruct (taken_sums _ _ id Hb) as [E1 E2]. rewrite Hg, E2. unfold pend. simpl.
    rewrite lookup_empty. unfold delta_weight. simpl. lia.
Qed.

Lemma moves_apply ok fault g a s g' s' batch :
  (∀ id, is_Some (pending a !! id) → canonical id) → held_ok g → held g = batch → held g' = [] →
  repo_apply fault batch s = (None, s') → moves ok g a s g' a s'.
Proof.
  intros Hp [Hc _] Hg Hg' Hr. rewrite Hg in Hc. split; [done|by split; rewrite Hg'; constructor|..]; rewrite Hg, Hg'.
  - intros id _ Hid. rewrite (repo_apply_ok fault batch s s' Hc Hr id Hid). unfold delta_sum at 2. simpl. lia.
  - intros id _. pose proof (delta_weight_nonneg batch id). unfold delta_weight at 1. simpl. lia.
Qed.

Lemma moves_restore (ok : Prop) g a s g' batch :
  (∀ id, is_Some (pending a !! id) → canonical id) → held_ok g → held g = batch → held g' = [] →
  (ok → ∀ id, Z.abs (pend a id) + delta_weight batch id ≤ maxInt64) →
  moves ok g a s g' (v_restore v batch a) s.
Proof.
  intros Hp [Hc Hn] Hg Hg' Hw. rewrite Hg in Hc, Hn.
  assert (Hr : ok → ∀ id, pend (v_restore v batch a) id = pend a id + delta_sum batch id).
  { intros Hok id. apply law_restore; [done|]. intros i d Hin.
    destruct (delta_sum_in _ _ _ Hn Hin) as [_ E]. specialize (Hw Hok i). lia64. }
  split; [|by split; rewrite Hg'; constructor|..]; rewrite ?Hg, ?Hg'.
  - intros id [Hid|Hid]%law_restore_dom; [by apply Hp|].
    apply list_elem_of_fmap in Hid as ([i z] & -> & Hin). rewrite Forall_forall in Hc. by apply (Hc (i, z)).
  - intros id Hok _. rewrite (Hr Hok). unfold delta_sum at 2. simpl. lia.
  - intros id Hok. rewrite (Hr Hok). pose proof (delta_sum_weight batch id).
    unfold delta_weight at 1. simpl. lia.
Qed.

Lemma section_moves (ok : Prop) exited g a s g' a' s' :
  section_step v exited g a s g' a' s' →
  (∀ id, is_Some (pending a !! id) → canonical id) → held_ok g →
  (ok → ∀ id, Z.abs (pend a id) + delta_weight (held g) id ≤ maxInt64) →
  moves ok g a s g' a' s'.
Proof.
  intros Hs Hp Hg Hw. destruct Hs; try (by apply moves_idle);
    try (by eapply moves_take); try (by eapply moves_restore).
  - eapply moves_apply; try done. by destruct (v_clears v).
  - rewrite (repo_apply_err _ _ _ _ _ H0). by apply moves_idle.
  - apply moves_idle; try done. by case_match.
  - by eapply moves_apply.
  - rewrite (repo_apply_err _ _ _ _ _ H0). by apply moves_idle.
Qed.

Lemma held_weight (ts : list (goroutine Id)) i g id :
  ts !! i = Some g → delta_weight (held g) id ≤ delta_weight (in_flight ts) id.
Proof.
  revert i. induction ts as [|t ts IH]; intros [|i] Hi; simplify_eq/=; unfold in_flight in *; simpl; rewrite delta_weight_app.
  - pose proof (delta_weight_nonneg (concat (map held ts)) id). lia.
  - pose proof (delta_weight_nonneg (held t) id). specialize (IH _ Hi). lia.
Qed.

Lemma within_range_app l1 l2 : within_range (Id := Id) (l1 ++ l2) → within_range l1.
Proof.
  intros Hw id. specialize (Hw id). rewrite delta_weight_app in Hw.
  pose proof (delta_weight_nonneg l2 id). lia.
Qed.

Lemma run_conserves s0 a s ts pub i g g' a' s' :
  acc_inv s0 (mkSystem a s ts pub) → ts !! i = Some g → section_step v (worker_exited ts) g a s g' a' s' →
  acc_inv s0 (mkSystem a' s' (<[i := g']> ts) pub).
Proof.
  intros [Hp Hh Hs Hw] Hi Hstep. simpl in *.
  assert (Hg : held_ok g) by (rewrite Forall_lookup in Hh; by eapply Hh).
  destruct (section_moves (within_range pub) _ _ _ _ _ _ _ Hstep Hp Hg) as [M1 M2 M3 M4].
  { intros Hok id. specialize (Hw id Hok). pose proof (held_weight ts i g id Hi). specialize (Hok id). lia. }
  pose proof (λ id, in_flight_insert (λ l, delta_sum l id) ts i g g' eq_refl (λ l1 l2, delta_sum_app l1 l2 id) Hi) as F1.
  pose proof (λ id, in_flight_insert (λ l, delta_weight l id) ts i g g' eq_refl (λ l1 l2, delta_weight_app l1 l2 id) Hi) as F2.
  simpl in F1, F2. split; simpl.
  - done.
  - by apply Forall_insert.
  - intros id Hok Hid. rewrite F1. specialize (M3 id Hok Hid). specialize (Hs id Hok Hid). lia.
  - intros id Hok. rewrite F2. specialize (M4 id Hok). specialize (Hw id Hok). lia.
Qed.

Lemma sink_conserves s0 a s ts pub ev :
  acc_inv s0 (mkSystem a s ts pub) → int64 (v_delta v ev) →
  acc_inv s0 (mkSystem (v_sink v ev a) s ts (pub ++ accepted v ev a)).
Proof.
  intros [Hp Hh Hs Hw] Hd. simpl in *.
  assert (Hpend : within_range pub → ∀ id, pend (v_sink v ev a) id = pend a id + delta_sum (accepted v ev a) id).
  { intros Hok id. apply law_sink; [done|]. intros i. specialize (Hw i Hok).
    pose proof (delta_weight_nonneg (in_flight ts) i). specialize (Hok i). lia64. }
  split; simpl.
  - intros id [Hid| ->]%law_sink_dom; [by apply Hp|apply law_identity].
  - done.
  - intros id Hok%within_range_app Hid. rewrite (Hpend Hok), delta_sum_app. specialize (Hs id Hok Hid). lia.
  - intros id Hok%within_range_app. rewrite (Hpend Hok), delta_weight_app.
    pose proof (delta_sum_weight (accepted v ev a) id). specialize (Hw id Hok). lia.
Qed.

Lemma system_conserves s0 x y : acc_inv s0 x → system_step v x y → acc_inv s0 y.
Proof.
  intros Hx Hstep. destruct Hstep.
  - by apply sink_conserves.
  - by eapply run_conserves.
  - destruct Hx as [Hp Hh Hs Hw]. simpl in *.
    assert (F : in_flight (ts ++ [SEnter]) = in_flight ts) by (unfold in_flight; rewrite map_app, concat_app; by rewrite app_nil_r).
    split; simpl; rewrite ?F; try done. apply Forall_app. split; [done|]. repeat constructor.
  - destruct Hx as [Hp Hh Hs Hw]. by split.
Qed.

Lemma reachable_conserves s0 x : reachable v s0 x → acc_inv s0 x.
Proof.
  induction 1 as [|x y _ IH Hstep]; [|by eapply system_conserves].
  unfold start. split; simpl.
  - intros id. rewrite lookup_empty. by intros [].
  - repeat constructor.
  - intros id _ _. unfold pend, delta_sum. simpl. rewrite lookup_empty. simpl. lia.
  - intros id _. unfold pend, delta_weight. simpl. rewrite lookup_empty. simpl. lia.
Qed.

(** *** Shutdown *)











End conservation.

(** ** An executable scheduler

    [choice] resolves the selects; every executed action is a step. *)

Section scheduler.
Context {Id Event Store : Type} `{Countable Id} `{!Repository Id Store} (v : variant Id Event).

Inductive action :=
| ASink (ev : Event)
| ARun (i : nat) (fault : tx_point → bool) (choice : bool)
| AShutdown
| ACancel.

Definition next_section (exited : bool) (fault : tx_point → bool) (choice : bool) (g : goroutine Id)
    (a : Accumulator Id) (s : Store) : option (goroutine Id * Accumulator Id * Store) :=
  match g with
  | WSelect =>
      if choice then (if wake a then Some (WFlush, with_wake false a, s) else None)
      else (if stopped a then Some (WExit, a, s) else None)
  | WFlush =>
      if bool_decide (pending a = ∅) then Some (WCheck, a, s)
      else Some (WApply (map_to_list (pending a)), with_pending ∅ a, s)
  | WApply batch =>
      match repo_apply fault batch s with
      | (None, s') => Some (if v_clears v then WClear else WCheck, a, s')
      | (Some e, s') => Some (WRestore batch e, a, s')
      end
  | WRestore batch e => Some (WSetErr e, v_restore v batch a, s)
  | WSetErr e => Some (WCheck, with_error (Some (AccStorage e)) a, s)
  | WClear => Some (WCheck, with_error None a, s)
  | WCheck => Some (if bool_decide (pending a = ∅) || bool_decide (lastErr a = None) then WSelect else WBackoff, a, s)
  | WBackoff =>
      if choice then Some (WFlush, a, s)
      else if cancelled a then Some (WSelect, a, s)
      else if stopped a && v_stop_interrupts v then Some (WSelect, a, s) else None
  | SEnter => Some (SStop, with_closed a, s)
  | SStop => Some (SJoin, with_stopped a, s)
  | SJoin =>
      if choice then (if exited then Some (SDrain, a, s) else None)
      else Some (SReturned (Some AccDeadline), with_cancelled a, s)
  | SDrain =>
      if bool_decide (pending a = ∅) then Some (SReturned None, a, s)
      else Some (SApply (map_to_list (pending a)), with_pending ∅ a, s)
  | SApply batch =>
      match repo_apply fault batch s with
      | (None, s') => Some (SDrain, a, s')
      | (Some e, s') => Some (SRestore batch e, a, s')
      end
  | SRestore batch e => Some (SReturned (Some (AccStorage e)), v_restore v batch a, s)
  | WExit | SReturned _ => None
  end.

Definition exec (act : action) (x : system (Id := Id) (Store := Store)) : option (system (Id := Id) (Store := Store)) :=
  let '(mkSystem a s ts pub) := x in
  match act with
  | ASink ev =>
      if (minInt64 <=? v_delta v ev) && (v_delta v ev <=? maxInt64)
      then Some (mkSystem (v_sink v ev a) s ts (pub ++ accepted v ev a)) else None
  | ARun i fault choice =>
      match ts !! i with
      | Some g =>
          match next_section (worker_exited ts) fault choice g a s with
          | Some (g', a', s') => Some (mkSystem a' s' (<[i := g']> ts) pub)
          | None => None
          end
      | None => None
      end
  | AShutdown => Some (mkSystem a s (ts ++ [SEnter]) pub)
  | ACancel => Some (mkSystem (with_cancelled a) s ts pub)
  end.

Fixpoint execs (acts : list action) (x : system (Id := Id) (Store := Store)) : option (system (Id := Id) (Store := Store)) :=
  match acts with
  | [] => Some x
  | act :: acts => match exec act x with Some y => execs acts y | None => None end
  end.

Lemma next_section_step exited fault choice g a s g' a' s' :
  next_section exited fault choice g a s = Some (g', a', s') → section_step v exited g a s g' a' s'.
Proof.
  destruct g; cbn [next_section]; intros E; try (by simplify_eq; constructor);
    try (by destruct (repo_apply fault batch s) as [[e|] s1] eqn:R; simplify_eq; econstructor).
  all: repeat case_match; simplify_eq;
    repeat match goal with B : bool_decide _ = true |- _ => apply bool_decide_eq_true in B
                         | B : bool_decide _ = false |- _ => apply bool_decide_eq_false in B
                         | B : _ && _ = true |- _ => apply andb_true_iff in B as [? ?] end;
    by constructor.
Qed.

Lemma exec_step act x y : exec act x = Some y → system_step v x y.
Proof.
  destruct x as [a s ts pub], act; simpl; intros E.
  - case_match eqn:B; simplify_eq. apply sys_sink. apply andb_true_iff in B. lia64.
  - destruct (ts !! i) as [g|] eqn:Hi; [|done].
    destruct (next_section _ _ _ _ _ _) as [[[g' a'] s']|] eqn:Hn; simplify_eq.
    eapply sys_run; [done|]. by eapply next_section_step.
  - simplify_eq. constructor.
  - simplify_eq. constructor.
Qed.

Lemma execs_reachable s0 acts x y : reachable v s0 x → execs acts x = Some y → reachable v s0 y.
Proof.
  revert x. induction acts as [|act acts IH]; intros x Hx E; simpl in E; [by simplify_eq|].
  destruct (exec act x) as [z|] eqn:Ez; [|done]. eapply IH; [|done]. eapply reach_step; [done|]. by eapply exec_step.
Qed.

End scheduler.
Arguments ASink {_}.
Arguments ARun {_}.
Arguments AShutdown {_}.
Arguments ACancel {_}.

(** ** The budget accumulator *)

Section budget.
Implicit Types a : Accumulator budgetIdentity.

Lemma budget_identity_canonical delta : budget_canonical (budget_identity delta).
Proof. unfold budget_canonical, budget_identity. simpl. by case_bool_decide. Qed.

Lemma budget_sink_pend ev a id :
  int64 (bd_Delta ev) → (∀ i, int64 (pend a i)) →
  pend (BudgetAccumulator_Sink ev a) id = pend a id + delta_sum (accepted budget_variant ev a) id.
Proof.
  intros Hd Ha. unfold BudgetAccumulator_Sink, accepted. cbn [v_delta v_identity budget_variant].
  destruct (bd_Delta ev =? 0); [unfold delta_sum; simpl; lia|].
  destruct (accepting a); [|unfold delta_sum; simpl; lia]. simpl.
  rewrite checkedSignedAdd_spec by done. destruct (_ && _); simpl.
  - unfold pend, with_wake, with_pending. simpl. rewrite put_pend, delta_sum_cons. simpl.
    case_bool_decide as E; [subst id|]; unfold delta_sum; simpl; lia.
  - unfold pend, delta_sum. simpl. lia.
Qed.

Lemma budget_restore_one_pend a i d id :
  int64 (pend a i) → int64 d → int64 (pend a i + d) →
  pend (budget_restore_one a (i, d)) id = pend a id + (if bool_decide (i = id) then d else 0).
Proof.
  intros H1 H2 H3. unfold budget_restore_one. rewrite checkedSignedAdd_spec by done.
  rewrite (proj2 (andb_true_iff _ _)) by lia64. simpl. unfold pend. simpl. rewrite put_pend.
  case_bool_decide as E; [subst id|]; unfold pend; lia.
Qed.

Lemma budget_restore_pend batch a id :
  NoDup batch.*1 → (∀ i d, (i, d) ∈ batch → int64 (pend a i) ∧ int64 d ∧ int64 (pend a i + d)) →
  pend (BudgetAccumulator_restore batch a) id = pend a id + delta_sum batch id.
Proof.
  unfold BudgetAccumulator_restore. revert a. induction batch as [|[i d] batch IH]; intros a Hn Hb.
  { simpl. unfold delta_sum. simpl. lia. }
  rewrite fmap_cons in Hn. apply NoDup_cons in Hn as [Hi Hn].
  destruct (Hb i d) as (H1 & H2 & H3); [by left|].
  cbn [foldl]. rewrite IH; [|done|].
  - rewrite delta_sum_cons, budget_restore_one_pend by done. simpl. lia.
  - intros i' d' Hin. rewrite budget_restore_one_pend by done.
    rewrite bool_decide_false; [rewrite Z.add_0_r; apply Hb; by right|].
    intros ->. apply Hi, list_elem_of_fmap. by exists (i', d').
Qed.

Lemma budget_restore_frame batch a id :
  accepting (BudgetAccumulator_restore batch a) = accepting a ∧
  (is_Some (pending (BudgetAccumulator_restore batch a) !! id) → is_Some (pending a !! id) ∨ id ∈ batch.*1).
Proof.
  unfold BudgetAccumulator_restore. revert a. induction batch as [|[i d] batch IH]; intros a; [by split; [|left]|].
  cbn [foldl]. destruct (IH (budget_restore_one a (i, d))) as [-> Hd].
  unfold budget_restore_one in *. destruct (checkedSignedAdd _ _) as [next ok]. destruct ok; simpl in *.
  - split; [done|]. intros [Hp|Hp]%Hd; [|right; by right].
    apply put_dom in Hp as [Hp| ->]; [by left|right; by left].
  - split; [done|]. intros [Hp|Hp]%Hd; [by left|right; by right].
Qed.

End budget.

#[export] Instance budget_laws : VariantLaws (Store := budget_store) budget_variant.
Proof.
  split.
  - apply budget_identity_canonical.
  - apply budget_sink_pend.
  - intros ev a. simpl. unfold BudgetAccumulator_Sink. by repeat case_match.
  - intros ev a Ha. simpl. unfold BudgetAccumulator_Sink. rewrite Ha. by case_match.
  - intros ev a id. simpl. unfold BudgetAccumulator_Sink.
    destruct (_ =? _); [by left|]. destruct (accepting a); [|by left]. simpl.
    destruct (checkedSignedAdd _ _) as [next []]; simpl; [apply put_dom|by left].
  - apply budget_restore_pend.
  - intros batch a. by apply (budget_restore_frame batch a inhabitant).
  - intros batch a id. by apply budget_restore_frame.
Qed.

(** C17: No committed budget delta is lost or counted twice on its way to the
    store.  Under every interleaving of sinks, the worker's flushes and retries,
    engine failures at any point, cancellations and shutdowns, for every bucket
    identity: what is stored, plus what is pending, plus what the goroutines hold
    between taking and writing, is what was stored at the start plus every delta
    the sink accepted (as long as those sum to a machine integer). *)
Theorem budget_deltas_conserved s0 x id :
  reachable budget_variant s0 x → within_range (sy_published x) → budget_canonical id →
  budget_stored (sy_store x) id + pend (sy_acc x) id + delta_sum (in_flight (sy_threads x)) id =
  budget_stored s0 id + delta_sum (sy_published x) id.
Proof. intros Hr Hw Hid. by apply (ai_sum s0 x (reachable_conserves budget_variant s0 x Hr)). Qed.



(** A run with a failed commit, a retry and a clean shutdown. *)
Definition no_fault : tx_point → bool := λ _, false.
Definition commit_fault (p : tx_point) : bool := match p with TxCommit => true | _ => false end.

Definition demo_budget_store : budget_store := mkBudgetStore {["k"%string]} ∅.
Definition demo_delta (n : Z) : CommittedBudgetDelta := mkBudgetDelta "k" n "" zeroTime.

Definition demo_actions : list (action (Event := CommittedBudgetDelta)) :=
  [ASink (demo_delta 5); ARun 0 no_fault true; ARun 0 no_fault true; ASink (demo_delta (-5)); ASink (demo_delta 7);
   ARun 0 commit_fault true; ARun 0 no_fault true; ARun 0 no_fault true; ARun 0 no_fault true].

Definition demo_shutdown : list (action (Event := CommittedBudgetDelta)) :=
  [ARun 0 no_fault true; ARun 0 no_fault true; ARun 0 no_fault true; ARun 0 no_fault true; ARun 0 no_fault true;
   AShutdown; ARun 1 no_fault true; ARun 1 no_fault true; ARun 0 no_fault true; ARun 0 no_fault true;
   ARun 0 no_fault true; ARun 0 no_fault false; ARun 1 no_fault true; ARun 1 no_fault true].

Definition demo_run (acts : list (action (Event := CommittedBudgetDelta))) : system (Id := budgetIdentity) (Store := budget_store) :=
  default (start demo_budget_store) (execs budget_variant acts (start demo_budget_store)).

Lemma demo_run_reachable acts x :
  execs budget_variant acts (start demo_budget_store) = Some x → reachable budget_variant demo_budget_store (demo_run acts).
Proof.
  intros E. unfold demo_run. rewrite E. simpl.
  apply (execs_reachable budget_variant demo_budget_store acts (start demo_budget_store)); [constructor|done].
Qed.

Example demo_run_ends :
  sy_threads (demo_run demo_actions) = [WBackoff] ∧
  sy_threads (demo_run (demo_actions ++ demo_shutdown)) = [WExit; SReturned None] ∧
  budget_stored (sy_store (demo_run (demo_actions ++ demo_shutdown))) ("k", "total", zeroTime)%string = 7.
Proof. vm_compute. done. Qed.

Lemma small_range {Id} `{Countable Id} (pub : list (Id * Z)) :
  foldr (λ d s, Z.abs d.2 + s) 0 pub ≤ maxInt64 → within_range pub.
Proof.
  intros Hs id. etrans; [|exact Hs]. clear Hs.
  induction pub as [|d pub IH]; [done|]. rewrite delta_weight_cons. simpl. case_bool_decide; lia.
Qed.

Lemma budget_deltas_conserved_witness :
  budget_stored (sy_store (demo_run demo_actions)) ("k", "total", zeroTime)%string
  + pend (sy_acc (demo_run demo_actions)) ("k", "total", zeroTime)%string
  + delta_sum (in_flight (sy_threads (demo_run demo_actions))) ("k", "total", zeroTime)%string =
  budget_stored demo_budget_store ("k", "total", zeroTime)%string
  + delta_sum (sy_published (demo_run demo_actions)) ("k", "total", zeroTime)%string.
Proof.
  apply (budget_deltas_conserved demo_budget_store (demo_run demo_actions)).
  - eapply demo_run_reachable. vm_compute. reflexivity.
  - apply small_range. vm_compute. discriminate.
  - discriminate.
Defined.


(** ** The usage accumulator *)

Definition demo_usage_store : usage_store := mkUsageStore {["k"%string]} ∅.
Definition demo_usage (n : Z) : CommittedTokenDelta := mkDelta "k" 0 (mkWindow 100 60000000000) n.
Definition demo_usage_id : usageIdentity := ("k"%string, 0, 60, 100).

(** A reservation is charged, its write fails, and it is refunded in between. *)
Definition refund_actions : list (action (Event := CommittedTokenDelta)) :=
  [ASink (demo_usage 5); ARun 0 no_fault true; ARun 0 no_fault true; ASink (demo_usage (-5));
   ARun 0 commit_fault true; ARun 0 no_fault true; ARun 0 no_fault true; ARun 0 no_fault true].

Definition refund_state : system (Id := usageIdentity) (Store := usage_store) :=
  default (start demo_usage_store) (execs usage_variant refund_actions (start demo_usage_store)).

Lemma refund_state_reachable : reachable usage_variant demo_usage_store refund_state.
Proof.
  destruct (execs usage_variant refund_actions (start demo_usage_store)) as [x|] eqn:E; [|by vm_compute in E].
  unfold refund_state. rewrite E. simpl. eapply execs_reachable; [apply reach_start|exact E].
Qed.

Lemma refund_state_eq :
  refund_state = mkSystem (mkAcc {[ demo_usage_id := -5 ]} true (Some (AccStorage ErrBucketWrite)) 0 true false false)
                          demo_usage_store [WBackoff] [(demo_usage_id, 5); (demo_usage_id, -5)].
Proof. vm_compute. reflexivity. Qed.

(** A refund of a bucket that was never written fails. *)
Lemma refund_unwritten_fails fault :
  (UpsertCommittedDeltas fault [(demo_usage_id, -5)] demo_usage_store).1 ≠ None.
Proof.
  unfold UpsertCommittedDeltas.
  change (validate_usage [(demo_usage_id, -5)]) with (Ok (E := bucket_error) [(demo_usage_id, -5)]).
  destruct (_ || _); [done|]. cbn [write_usages]. unfold write_usage. cbn [Z.ltb Z.compare].
  destruct (fault (TxWrite 0)); [done|]. unfold demo_usage_store. cbn [us_rows]. by rewrite lookup_empty.
Qed.

(** The usage accumulator loses a delta.  [restore] keeps what is pending
    when the sum is zero, so a charge whose write failed and whose refund arrived
    in between leaves the refund alone pending: the accepted deltas sum to zero
    and nothing is in flight, yet [-5] is pending against a bucket that was never
    written, and from then on every flush fails whatever the engine does. *)
Theorem usage_restore_loses_delta :
  ∃ x, reachable usage_variant demo_usage_store x ∧ in_flight (sy_threads x) = [] ∧
    delta_sum (sy_published x) demo_usage_id = 0 ∧
    usage_stored (sy_store x) demo_usage_id = 0 ∧ pend (sy_acc x) demo_usage_id = -5 ∧
    ∀ fault batch, batch ≡ₚ map_to_list (pending (sy_acc x)) →
      (UpsertCommittedDeltas fault batch (sy_store x)).1 ≠ None.
Proof.
  exists refund_state. split; [apply refund_state_reachable|]. rewrite refund_state_eq.
  cbn [sy_acc sy_store sy_threads sy_published]. split_and!; [by vm_compute..|].
  intros fault batch Hb. cbn [pending] in Hb. rewrite map_to_list_singleton in Hb.
  apply Permutation_singleton_r in Hb as ->. apply refund_unwritten_fails.
Qed.
