(* ===== verification/SSEParser.v ===== *)
(** * The server-sent event reader ([internal/streaming/parser.go])

    [bufio.Reader] presents its input as one sequence of bytes followed by the
    error of the underlying reader, so the boundaries of the reads are not
    observable and the input is the list of the bytes not yet read.  The loop of
    [Next] runs on fuel; a line takes at least one byte, so one more than the
    number of unread bytes is always enough. *)

From Stdlib Require Import Ascii ZArith Lia ZifyBool.
From stdpp Require Import prelude strings list.
From S2P Require Import Prelude Text.
Local Open Scope Z_scope.

(** ** Data *)

Record SSEEvent := mkEvent { se_Event : bytes; se_Data : bytes }.

(** [ReadFailed] is any error of the underlying reader other than [io.EOF]. *)
Inductive read_error := EOF | ReadFailed | ErrEventTooLarge | ErrEventIncomplete.

(** How the underlying reader ends. *)
Inductive source_end := SourceEOF | SourceFailed.

Definition source_error (e : source_end) : read_error :=
  match e with SourceEOF => EOF | SourceFailed => ReadFailed end.

#[export] Instance read_error_eq_dec : EqDecision read_error.
Proof. solve_decision. Defined.

Record Reader := mkReader {
  input : bytes;
  inputErr : source_end;
  maxEventSize : Z;
  eventSize : Z;
  eventName : bytes;
  dataLines : list bytes;
  hasContent : bool;
  hasField : bool;
  line : bytes;
  terminalErr : option read_error;
  offset : Z;
  lastEventEnd : Z;
}.

Definition LF : ascii := "010"%char.
Definition CR : ascii := "013"%char.
Definition colon : ascii := ":"%char.
Definition space : ascii := " "%char.

(** [None] is a construction error. *)
Definition NewReader (source : option (bytes * source_end)) (max : Z) : option Reader :=
  match source with
  | None => None
  | Some (s, e) => if max <=? 0 then None else Some (mkReader s e max 0 [] [] false false [] None 0 0)
  end.

(** ** Lines *)

Definition trimLineEnding (l : bytes) : bytes :=
  match last l with
  | Some c =>
      if byte_eqb c LF then
        let l := take (length l - 1) l in
        match last l with
        | Some c => if byte_eqb c CR then take (length l - 1) l else l
        | None => l
        end
      else l
  | None => l
  end.

Definition isCommentLine (l : bytes) : bool :=
  match trimLineEnding l with c :: _ => byte_eqb c colon | [] => false end.

Definition parseField (l : bytes) : bytes * bytes :=
  let l := trimLineEnding l in
  match IndexByte l colon with
  | None => (l, [])
  | Some i =>
      let value := drop (S i) l in
      (take i l, match value with c :: v => if byte_eqb c space then v else value | [] => value end)
  end.

Definition isBlankLine (l : bytes) : bool :=
  match trimLineEnding l with [] => true | _ => false end.

(** What [readLine] returns, with the line buffer, the counters and the unread
    input it leaves. *)
Record lineRead := mkLineRead {
  lr_line : bytes; lr_buffer : bytes; lr_terminated : bool; lr_err : option read_error;
  lr_input : bytes; lr_size : Z; lr_offset : Z }.

Fixpoint readLoop (max : Z) (srcErr : source_end) (s : bytes) (acc : bytes) (size off : Z) : lineRead :=
  match s with
  | [] => mkLineRead acc acc false (Some (source_error srcErr)) [] size off
  | c :: s =>
      let size := add64 size 1 in
      let off := add64 off 1 in
      if max <? size then mkLineRead [] acc false (Some ErrEventTooLarge) s size off
      else if byte_eqb c LF then mkLineRead acc acc true None s size off
      else if byte_eqb c CR then
        match s with
        | c' :: s' =>
            if byte_eqb c' LF then
              let size := add64 size 1 in
              let off := add64 off 1 in
              if max <? size then mkLineRead [] acc false (Some ErrEventTooLarge) s' size off
              else mkLineRead acc acc true None s' size off
            else mkLineRead acc acc true None s size off
        | [] => mkLineRead acc acc true None s size off
        end
      else readLoop max srcErr s (acc ++ [c]) size off
  end.

(** [readLine] starts from an empty line; a size error is recorded. *)
Definition Reader_readLine (r : Reader) : bytes * bool * option read_error * Reader :=
  let x := readLoop (maxEventSize r) (inputErr r) (input r) [] (eventSize r) (offset r) in
  let terminal := if bool_decide (lr_err x = Some ErrEventTooLarge) then Some ErrEventTooLarge else terminalErr r in
  (lr_line x, lr_terminated x, lr_err x,
   mkReader (lr_input x) (inputErr r) (maxEventSize r) (lr_size x) (eventName r) (dataLines r)
     (hasContent r) (hasField r) (lr_buffer x) terminal (lr_offset x) (lastEventEnd r)).

(** ** Events *)

Definition resetEvent (r : Reader) : Reader :=
  mkReader (input r) (inputErr r) (maxEventSize r) 0 [] [] false false [] (terminalErr r) (offset r) (lastEventEnd r).

Fixpoint Join (lines : list bytes) (sep : ascii) : bytes :=
  match lines with
  | [] => []
  | [l] => l
  | l :: rest => l ++ sep :: Join rest sep
  end.

Definition with_line (l : bytes) (r : Reader) : Reader :=
  mkReader (input r) (inputErr r) (maxEventSize r) (eventSize r) (eventName r) (dataLines r)
    (hasContent r) (hasField r) l (terminalErr r) (offset r) (lastEventEnd r).
Definition with_terminal (e : read_error) (r : Reader) : Reader :=
  mkReader (input r) (inputErr r) (maxEventSize r) (eventSize r) (eventName r) (dataLines r)
    (hasContent r) (hasField r) (line r) (Some e) (offset r) (lastEventEnd r).
Definition with_eventEnd (r : Reader) : Reader :=
  mkReader (input r) (inputErr r) (maxEventSize r) (eventSize r) (eventName r) (dataLines r)
    (hasContent r) (hasField r) (line r) (terminalErr r) (offset r) (offset r).

(** The field switch, for a line that is not a comment. *)
Definition applyField (field value : bytes) (r : Reader) : Reader :=
  let data := bool_decide (field = str "data") in
  let event := bool_decide (field = str "event") in
  mkReader (input r) (inputErr r) (maxEventSize r) (eventSize r)
    (if event then value else eventName r)
    (if data then dataLines r ++ [value] else dataLines r)
    (data || hasContent r) true (line r) (terminalErr r) (offset r) (lastEventEnd r).

(** One iteration of the loop of [Next]. *)
Inductive iteration :=
| Return (res : result read_error SSEEvent) (r : Reader)
| Continue (r : Reader).

Definition Next_iteration (r : Reader) : iteration :=
  let '(l, terminated, readErr, r) := Reader_readLine r in
  match readErr with
  | Some ReadFailed => Return (Err ReadFailed) r
  | Some ErrEventTooLarge => Return (Err ErrEventTooLarge) r
  | Some ErrEventIncomplete => Return (Err ErrEventIncomplete) r
  | _ =>
      let r := with_line l r in
      if terminated && (length l =? 0)%nat then
        if hasContent r then
          let event := mkEvent (eventName r) (Join (dataLines r) LF) in
          Return (Ok event) (resetEvent (with_eventEnd r))
        else Continue (with_line [] (resetEvent r))
      else if terminated then
        let '(field, value) := parseField l in
        if isCommentLine l then Continue (with_line [] r)
        else Continue (with_line [] (applyField field value r))
      else
        (* the input has ended *)
        let '(field, _) := parseField l in
        if hasField r || hasContent r || negb (bool_decide (eventName r = []))
           || (negb (length l =? 0)%nat && negb (isCommentLine l)) || bool_decide (field = str "data")
        then Return (Err ErrEventIncomplete) (with_terminal ErrEventIncomplete r)
        else Return (Err EOF) (with_terminal EOF r)
  end.

(** [None] would be running out of fuel. *)
Fixpoint Next_loop (fuel : nat) (r : Reader) : option (result read_error SSEEvent * Reader) :=
  match fuel with
  | O => None
  | S fuel => match Next_iteration r with
              | Return res r => Some (res, r)
              | Continue r => Next_loop fuel r
              end
  end.

Definition Reader_Next (r : Reader) : option (result read_error SSEEvent * Reader) :=
  match terminalErr r with
  | Some e => Some (Err e, r)
  | None => Next_loop (S (length (input r))) r
  end.

Definition Reader_LastEventEndOffset (r : Reader) : Z := lastEventEnd r.

(** ** The reader's invariant

    [retained] counts the bytes the reader keeps of the current event, one more
    for each data line (the separator it is joined with). *)

Abbreviation lenZ l := (Z.of_nat (length l)).

Definition data_size (ls : list bytes) : Z := foldr (λ l n, lenZ l + 1 + n) 0 ls.

Definition retained (r : Reader) : Z := lenZ (eventName r) + data_size (dataLines r).

(** The stream is at most [maxInt64] bytes long, so that its offsets exist. *)
Definition reader_ok (r : Reader) : Prop :=
  0 < maxEventSize r ≤ maxInt64 ∧
  0 ≤ eventSize r ≤ offset r ∧ offset r + lenZ (input r) ≤ maxInt64 ∧
  (terminalErr r = None → eventSize r ≤ maxEventSize r ∧ retained r ≤ eventSize r ∧
    (hasContent r = true ↔ dataLines r ≠ [])).

Section lines.

Lemma byte_eqb_true a b : byte_eqb a b = true ↔ a = b.
Proof. unfold byte_eqb. by rewrite bool_decide_eq_true. Qed.

Lemma data_size_nonneg ls : 0 ≤ data_size ls.
Proof. induction ls; simpl; lia. Qed.

Lemma data_size_app l1 l2 : data_size (l1 ++ l2) = data_size l1 + data_size l2.
Proof. induction l1; simpl; lia. Qed.

Lemma Join_size ls : lenZ (Join ls LF) ≤ data_size ls.
Proof.
  induction ls as [|l [|l' ls] IH]; [done|simpl; lia|].
  change (Join (l :: l' :: ls) LF) with (l ++ LF :: Join (l' :: ls) LF).
  change (data_size (l :: l' :: ls)) with (lenZ l + 1 + data_size (l' :: ls)).
  rewrite length_app, length_cons. lia.
Qed.

Lemma trimLineEnding_length l : (length (trimLineEnding l) ≤ length l)%nat.
Proof.
  unfold trimLineEnding. repeat case_match; rewrite ?length_take; lia.
Qed.

Lemma parseField_length l f v :
  parseField l = (f, v) → lenZ f + lenZ v ≤ lenZ l ∧ (v ≠ [] → lenZ f + lenZ v + 1 ≤ lenZ l).
Proof.
  pose proof (trimLineEnding_length l) as Ht. unfold parseField. intros H.
  destruct (IndexByte _ _) as [i|] eqn:E; simplify_eq; [|split; [simpl; lia|done]].
  apply IndexByte_Some in E as (_ & Hi & _).
  assert (Hd : (length match drop (S i) (trimLineEnding l) with
            | c :: v => if byte_eqb c space then v else drop (S i) (trimLineEnding l)
            | [] => drop (S i) (trimLineEnding l) end ≤ length (trimLineEnding l) - S i)%nat).
  { destruct (drop (S i) (trimLineEnding l)) as [|c v] eqn:D; [simpl; lia|].
    assert (length (c :: v) = (length (trimLineEnding l) - S i)%nat) by (by rewrite <-D, length_drop).
    case_match; simpl in *; lia. }
  rewrite length_take. lia.
Qed.

(** Everything [readLine] can do: it consumes a prefix [p]. *)
Inductive reads (max : Z) (e : source_end) (s acc : bytes) (size off : Z) : lineRead → Prop :=
| reads_line p l rest :
    s = p ++ rest → (length l < length p)%nat → size + lenZ p ≤ max →
    reads max e s acc size off
      (mkLineRead (acc ++ l) (acc ++ l) true None rest (size + lenZ p) (off + lenZ p))
| reads_end :
    size + lenZ s ≤ max →
    reads max e s acc size off
      (mkLineRead (acc ++ s) (acc ++ s) false (Some (source_error e)) [] (size + lenZ s) (off + lenZ s))
| reads_large p buffer rest :
    s = p ++ rest → size + lenZ p = max + 1 →
    reads max e s acc size off
      (mkLineRead [] buffer false (Some ErrEventTooLarge) rest (size + lenZ p) (off + lenZ p)).

Lemma reads_cons max e c s acc size off x :
  reads max e s (acc ++ [c]) (size + 1) (off + 1) x → reads max e (c :: s) acc size off x.
Proof.
  intros H. inversion H as [p l rest -> Hl Hs|Hs|p b rest -> Hs]; subst; rewrite <-?app_assoc; simpl.
  - replace (size + 1 + lenZ p) with (size + lenZ (c :: p)) by (simpl; lia).
    replace (off + 1 + lenZ p) with (off + lenZ (c :: p)) by (simpl; lia).
    apply (reads_line _ _ _ _ _ _ (c :: p) (c :: l)); simpl in *; (done || lia).
  - replace (size + 1 + lenZ s) with (size + lenZ (c :: s)) by (simpl; lia).
    replace (off + 1 + lenZ s) with (off + lenZ (c :: s)) by (simpl; lia).
    apply reads_end; simpl in *; lia.
  - replace (size + 1 + lenZ p) with (size + lenZ (c :: p)) by (simpl; lia).
    replace (off + 1 + lenZ p) with (off + lenZ (c :: p)) by (simpl; lia).
    apply (reads_large _ _ _ _ _ _ (c :: p)); simpl in *; (done || lia).
Qed.

Lemma readLoop_reads max e s acc size off :
  size ≤ max → 0 ≤ size ≤ off → off + lenZ s ≤ maxInt64 →
  reads max e s acc size off (readLoop max e s acc size off).
Proof.
  revert acc size off.
  induction s as [|c s IH]; intros acc size off Hm Hs Ho.
  { simpl. pose proof (reads_end max e [] acc size off) as H. simpl in *.
    rewrite !Z.add_0_r, app_nil_r in H. apply H. lia. }
  assert (Hlen : lenZ (c :: s) = lenZ s + 1 ∧ 0 ≤ lenZ s) by (simpl; lia).
  cbn [readLoop]. unfold add64. rewrite !wrap64_id by lia64. case_match eqn:E1.
  { apply (reads_large _ _ _ _ _ _ [c]); simpl; (done || lia). }
  pose proof (reads_line max e (c :: s) acc size off [c] [] s eq_refl) as R1.
  simpl in R1; rewrite app_nil_r in R1.
  destruct (byte_eqb c LF); [apply R1; lia|].
  destruct (byte_eqb c CR); [|apply reads_cons, IH; lia].
  destruct s as [|c' s]; [apply R1; lia|].
  destruct (byte_eqb c' LF); [|apply R1; lia].
  assert (Hs2 : lenZ (c' :: s) = lenZ s + 1) by (simpl; lia). rewrite !wrap64_id by lia64.
  replace (size + 1 + 1) with (size + lenZ [c; c']) by (simpl; lia).
  replace (off + 1 + 1) with (off + lenZ [c; c']) by (simpl; lia).
  case_match eqn:E2; [apply (reads_large _ _ _ _ _ _ [c; c']); simpl in *; (done || lia)|].
  pose proof (reads_line max e (c :: c' :: s) acc size off [c; c'] [] s eq_refl) as R2.
  rewrite app_nil_r in R2. apply R2; simpl in *; lia.
Qed.

(** What one iteration does to a reader that satisfies the invariant. *)
Definition advances (r r' : Reader) : Prop :=
  ∃ p, input r = p ++ input r' ∧ offset r' = offset r + lenZ p ∧
       maxEventSize r' = maxEventSize r ∧ inputErr r' = inputErr r.

Lemma advances_trans r1 r2 r3 : advances r1 r2 → advances r2 r3 → advances r1 r3.
Proof.
  intros (p & H1 & H2 & H3 & H4) (q & H5 & H6 & H7 & H8). exists (p ++ q).
  rewrite H1, H5, <-app_assoc, length_app. split_and!; [done|lia|congruence|congruence].
Qed.

(** What [Next] promises of its result [res] and of the reader [r'] it leaves. *)
Definition next_result (r : Reader) (res : result read_error SSEEvent) (r' : Reader) : Prop :=
  match res with
  | Ok ev => terminalErr r' = None ∧ lastEventEnd r' = offset r' ∧ offset r < offset r' ∧
             lenZ (se_Event ev) + lenZ (se_Data ev) ≤ maxEventSize r
  | Err e => lastEventEnd r' = lastEventEnd r ∧
             (e = ReadFailed ∧ inputErr r = SourceFailed ∧ input r' = [] ∨
              e ≠ ReadFailed ∧ terminalErr r' = Some e)
  end.

Lemma applyField_retained l f v r :
  parseField l = (f, v) → retained (applyField f v r) ≤ retained r + lenZ l + 1.
Proof.
  intros H%parseField_length. pose proof (data_size_nonneg (dataLines r)).
  unfold retained, applyField. cbn [eventName dataLines].
  case_bool_decide as E; [subst f; change (lenZ (str "event")) with 5 in H|]; case_bool_decide as E'.
  - done.
  - lia.
  - subst f. change (lenZ (str "data")) with 4 in H. rewrite data_size_app. simpl. lia.
  - lia.
Qed.

Ltac reader_tac :=
  unfold reader_ok, advances, next_result, retained in *; cbn -[length data_size str parseField isCommentLine] in *;
  split_and?; try eexists; split_and?; eauto; try (cbn [length]; lia); try done;
  try (by rewrite app_nil_r); try (by left); try (by right).

Lemma Next_iteration_ok r :
  reader_ok r → terminalErr r = None →
  match Next_iteration r with
  | Return res r' => reader_ok r' ∧ advances r r' ∧ next_result r res r'
  | Continue r' => reader_ok r' ∧ terminalErr r' = None ∧ advances r r' ∧ offset r < offset r' ∧
                   lastEventEnd r' = lastEventEnd r
  end.
Proof.
  intros (Hmax & Hsize & Hlen & Ht) Hn. destruct (Ht Hn) as (Hle & Hret & Hc).
  unfold Next_iteration, Reader_readLine.
  destruct (readLoop_reads (maxEventSize r) (inputErr r) (input r) [] (eventSize r) (offset r))
    as [p l rest E Hl Hp|Hp|p b rest E Hp]; [lia..| | |].
  - assert (lenZ (input r) = lenZ p + lenZ rest) by (rewrite E, length_app; lia).
    cbn -[parseField isCommentLine length str].
    destruct (length l =? 0)%nat eqn:L.
    + destruct (hasContent r) eqn:Ec.
      * reader_tac. pose proof (Join_size (dataLines r)). unfold retained in *. lia.
      * reader_tac.
    + destruct (parseField l) as [f v] eqn:Ef. pose proof (applyField_retained _ _ _ r Ef) as Ha.
      destruct (isCommentLine l); reader_tac.
      destruct (bool_decide (f = str "data")); [|done]. split; [|done]. intros _. by destruct (dataLines r).
  - destruct (inputErr r) eqn:Ei; cbn -[parseField isCommentLine length str]; [|reader_tac].
    destruct (parseField (input r)) as [f v].
    match goal with |- context [if ?b then Return _ _ else _] => destruct b end;
      reader_tac.
  - assert (lenZ (input r) = lenZ p + lenZ rest) by (rewrite E, length_app; lia). reader_tac.
Qed.

Lemma Next_loop_ok n r :
  reader_ok r → terminalErr r = None → (length (input r) < n)%nat →
  ∃ res r', Next_loop n r = Some (res, r') ∧ reader_ok r' ∧ advances r r' ∧ next_result r res r'.
Proof.
  revert r. induction n as [|n IH]; intros r Hok Hn Hf; [lia|]. simpl.
  pose proof (Next_iteration_ok r Hok Hn) as H.
  destruct (Next_iteration r) as [res r'|r'].
  { exists res, r'. by destruct H as (? & ? & ?). }
  destruct H as (Hok' & Hn' & Ha & Hlt & Hl). pose proof Ha as (p & Hp & Ho & Hm & He).
  apply (f_equal length) in Hp. rewrite length_app in Hp.
  destruct (IH r' Hok' Hn' ltac:(lia)) as (res & r2 & E & Hok2 & Ha2 & Hr).
  exists res, r2. split_and!; [done..|by eapply advances_trans|].
  unfold next_result in *. rewrite Hm, He, Hl in Hr. destruct res; naive_solver lia.
Qed.

End lines.

Lemma NewReader_ok s e max r :
  NewReader (Some (s, e)) max = Some r → max ≤ maxInt64 → lenZ s ≤ maxInt64 → reader_ok r.
Proof.
  simpl. case_match eqn:E; [done|]. intros H ??. simplify_eq.
  unfold reader_ok, retained. simpl. split_and!; try lia. intros _. split_and!; [lia..|done].
Qed.

(** [Next] is total and bounded.  On every reader that satisfies the
    invariant, which the constructor establishes, it returns; it keeps the
    invariant (what the reader retains of an unfinished event never exceeds the
    size limit); it consumes a prefix of the input and the offset counts exactly
    the bytes consumed; an event fits the limit, was paid for with at least one
    byte and ends at the reported offset; only a failure of the source is not
    terminal; and a terminal error is repeated by every later call, which reads
    nothing. *)
Theorem Next_bounded r :
  reader_ok r →
  ∃ res r', Reader_Next r = Some (res, r') ∧ reader_ok r' ∧ advances r r' ∧
    (terminalErr r = None → next_result r res r') ∧
    (∀ e, terminalErr r = Some e → res = Err e ∧ r' = r) ∧
    (∀ e, res = Err e → e ≠ ReadFailed → Reader_Next r' = Some (Err e, r')).
Proof.
  intros Hok. unfold Reader_Next at 1. destruct (terminalErr r) as [e|] eqn:Ht.
  - exists (Err e), r. split_and!; try done.
    + exists []. split_and!; [done|simpl; lia|done..].
    + intros e' [= <-]. done.
    + intros e' [= <-] _. unfold Reader_Next. by rewrite Ht.
  - destruct (Next_loop_ok _ r Hok Ht (Nat.lt_succ_diag_r _)) as (res & r' & E & Hok' & Ha & Hr).
    exists res, r'. split_and!; try done. intros e -> He. unfold Reader_Next.
    destruct Hr as (_ & [(? & _)|(_ & ->)]); done.
Qed.

Definition demo_stream : bytes := str "data: a" ++ LF :: str "data: b" ++ [CR; LF; LF] ++ str "event: x".

Definition demo_reader : Reader := mkReader demo_stream SourceEOF 64 0 [] [] false false [] None 0 0.

Lemma Next_bounded_witness :
  reader_ok demo_reader ∧
  ∃ res r', Reader_Next demo_reader = Some (res, r') ∧ reader_ok r' ∧ advances demo_reader r' ∧
    (terminalErr demo_reader = None → next_result demo_reader res r') ∧
    (∀ e, terminalErr demo_reader = Some e → res = Err e ∧ r' = demo_reader) ∧
    (∀ e, res = Err e → e ≠ ReadFailed → Reader_Next r' = Some (Err e, r')).
Proof.
  assert (H : reader_ok demo_reader)
    by (apply (NewReader_ok demo_stream SourceEOF 64); [reflexivity|vm_compute; discriminate..]).
  split; [exact H|apply (Next_bounded demo_reader H)].
Defined.

(** ** A reference definition of the stream

    A stream is its lines (every terminator read as LF) and an unterminated
    rest; the lines are frames, each ended by a blank line, and an unfinished
    frame; a frame with a data field is an event. *)

Fixpoint split_by {A} (sep : A → bool) (s : list A) : list (list A) * list A :=
  match s with
  | [] => ([], [])
  | c :: s =>
      let '(pieces, rest) := split_by sep s in
      if sep c then ([] :: pieces, rest)
      else match pieces with
           | [] => ([], c :: rest)
           | p :: pieces => ((c :: p) :: pieces, rest)
           end
  end.

Fixpoint unify_terminators (s : bytes) : bytes :=
  match s with
  | [] => []
  | c :: s' =>
      if byte_eqb c CR then
        match s' with
        | c' :: s'' => if byte_eqb c' LF then LF :: unify_terminators s'' else LF :: unify_terminators s'
        | [] => [LF]
        end
      else c :: unify_terminators s'
  end.

Definition is_blank (l : bytes) : bool := bool_decide (l = []).
Definition is_comment (l : bytes) : bool := match l with c :: _ => byte_eqb c colon | [] => false end.

Fixpoint field_of (l : bytes) : bytes * bytes :=
  match l with
  | [] => ([], [])
  | c :: l' =>
      if byte_eqb c colon then
        ([], match l' with c' :: v => if byte_eqb c' space then v else l' | [] => [] end)
      else let '(f, v) := field_of l' in (c :: f, v)
  end.

(** The values of the fields of a frame that are called [name], in order. *)
Definition values (name : bytes) (frame : list bytes) : list bytes :=
  omap (λ l, if is_comment l then None
             else let '(f, v) := field_of l in if bool_decide (f = name) then Some v else None) frame.

Definition frame_name (frame : list bytes) : bytes := default [] (last (values (str "event") frame)).

Definition frame_event (frame : list bytes) : option SSEEvent :=
  match values (str "data") frame with
  | [] => None
  | vs => Some (mkEvent (frame_name frame) (Join vs LF))
  end.

Definition stream_lines (s : bytes) : list bytes * bytes := split_by (byte_eqb LF) (unify_terminators s).
Definition stream_frames (s : bytes) : list (list bytes) * list bytes := split_by is_blank (stream_lines s).1.
Definition stream_events (s : bytes) : list SSEEvent := omap frame_event (stream_frames s).1.

(** How the stream ends: with a field that belongs to no complete frame, or not. *)
Definition stream_error (s : bytes) (e : source_end) : read_error :=
  match e with
  | SourceFailed => ReadFailed
  | SourceEOF =>
      if existsb (λ l, negb (is_comment l)) (stream_frames s).2 ||
         negb (is_blank (stream_lines s).2) && negb (is_comment (stream_lines s).2)
      then ErrEventIncomplete else EOF
  end.

(** Reading to the first error. *)
Fixpoint read_to_end (fuel : nat) (r : Reader) : option (list SSEEvent * read_error) :=
  match fuel with
  | O => None
  | S fuel =>
      match Reader_Next r with
      | Some (Ok ev, r) =>
          match read_to_end fuel r with Some (evs, e) => Some (ev :: evs, e) | None => None end
      | Some (Err e, _) => Some ([], e)
      | None => None
      end
  end.

Example demo_stream_read :
  read_to_end 40 demo_reader = Some (stream_events demo_stream, stream_error demo_stream SourceEOF).
Proof. vm_compute. reflexivity. Qed.

Example demo_stream_events :
  stream_events demo_stream = [mkEvent [] (str "a" ++ LF :: str "b")] ∧
  stream_error demo_stream SourceEOF = ErrEventIncomplete.
Proof. vm_compute. split; reflexivity. Qed.

(** ** The reader follows the reference definition *)

Section reference.

Lemma split_by_clean {A} (sep : A → bool) s ps rest :
  split_by sep s = (ps, rest) →
  Forall (λ p, Forall (λ c, sep c = false) p) ps ∧ Forall (λ c, sep c = false) rest.
Proof.
  revert ps rest. induction s as [|c s IH]; intros ps rest H; simpl in H; [by simplify_eq|].
  destruct (split_by sep s) as [ps0 rest0]. destruct (IH _ _ eq_refl) as [Hps Hrest].
  destruct (sep c) eqn:E; [simplify_eq; by auto|].
  destruct ps0 as [|p ps0]; simplify_eq; [by auto|].
  inversion Hps; subst. by auto.
Qed.

Lemma clean_trim l : Forall (λ c, byte_eqb LF c = false) l → trimLineEnding l = l.
Proof.
  intros H. unfold trimLineEnding. destruct (last l) as [c|] eqn:E; [|done].
  apply last_Some_elem_of in E. rewrite Forall_forall in H. specialize (H _ E).
  unfold byte_eqb in *. rewrite bool_decide_eq_false in H. by rewrite bool_decide_false by congruence.
Qed.

Lemma parseField_clean l :
  Forall (λ c, byte_eqb LF c = false) l → parseField l = field_of l ∧ isCommentLine l = is_comment l.
Proof.
  intros H. unfold parseField, isCommentLine. rewrite (clean_trim _ H). split; [|done]. clear H.
  induction l as [|c l IH]; [done|]. cbn [IndexByte field_of].
  destruct (byte_eqb c colon); [simpl; by destruct l|].
  rewrite <-IH. by destruct (IndexByte l colon).
Qed.

Lemma stream_lines_cons c s ls rest :
  byte_eqb c LF = false → byte_eqb c CR = false → stream_lines s = (ls, rest) →
  stream_lines (c :: s) = match ls with [] => ([], c :: rest) | l :: ls => ((c :: l) :: ls, rest) end.
Proof.
  unfold stream_lines. intros H1 H2 H. simpl. rewrite H2. simpl. rewrite H.
  unfold byte_eqb in *. rewrite bool_decide_eq_false in H1. by rewrite bool_decide_false by congruence.
Qed.

Lemma stream_lines_LF s ls rest :
  stream_lines s = (ls, rest) → stream_lines (LF :: s) = ([] :: ls, rest).
Proof. unfold stream_lines. simpl. by intros ->. Qed.

Ltac line_read := split_and!; [done|simpl; lia|done|rewrite app_nil_r; f_equal; simpl; lia].

(** [readLine] reads the first line of the stream, or its unterminated rest. *)
Lemma readLoop_lines max e s acc size off ls rest :
  size + lenZ s ≤ max → 0 ≤ size ≤ off → off + lenZ s ≤ maxInt64 → stream_lines s = (ls, rest) →
  match ls with
  | [] => readLoop max e s acc size off =
          mkLineRead (acc ++ rest) (acc ++ rest) false (Some (source_error e)) [] (size + lenZ s) (off + lenZ s)
  | l :: ls => ∃ p s', s = p ++ s' ∧ (0 < length p)%nat ∧ stream_lines s' = (ls, rest) ∧
          readLoop max e s acc size off =
          mkLineRead (acc ++ l) (acc ++ l) true None s' (size + lenZ p) (off + lenZ p)
  end.
Proof.
  revert acc size off ls rest.
  induction s as [|c s IH]; intros acc size off ls rest Hm Hs Ho Hl.
  { injection Hl as <- <-. simpl. by rewrite !Z.add_0_r, app_nil_r. }
  rewrite length_cons in Hm, Ho. cbn [readLoop]. unfold add64. rewrite !wrap64_id by lia64.
  rewrite (proj2 (Z.ltb_ge _ _)) by lia.
  destruct (byte_eqb c LF) eqn:EL.
  { apply byte_eqb_true in EL as ->. destruct (stream_lines s) as [ls0 rest0] eqn:E.
    rewrite (stream_lines_LF _ _ _ E) in Hl. simplify_eq.
    exists [LF], s. line_read. }
  destruct (byte_eqb c CR) eqn:EC.
  - apply byte_eqb_true in EC as ->. destruct s as [|c' s].
    { injection Hl as <- <-. exists [CR], []. line_read. }
    destruct (byte_eqb c' LF) eqn:EL'.
    + apply byte_eqb_true in EL' as ->. rewrite length_cons in Hm, Ho.
      rewrite !wrap64_id by lia64. rewrite (proj2 (Z.ltb_ge _ _)) by lia.
      destruct (stream_lines s) as [ls0 rest0] eqn:E.
      change (stream_lines (CR :: LF :: s)) with (stream_lines (LF :: s)) in Hl.
      rewrite (stream_lines_LF _ _ _ E) in Hl. simplify_eq.
      exists [CR; LF], s. line_read.
    + destruct (stream_lines (c' :: s)) as [ls0 rest0] eqn:E.
      assert (Hl' : stream_lines (CR :: c' :: s) = ([] :: ls0, rest0)).
      { unfold stream_lines in *. cbn -[byte_eqb] in E |- *. rewrite EL'.
        change (byte_eqb CR CR) with true. cbn -[byte_eqb]. by rewrite E. }
      rewrite Hl in Hl'. simplify_eq. exists [CR], (c' :: s). line_read.
  - destruct (stream_lines s) as [ls0 rest0] eqn:E.
    rewrite (stream_lines_cons _ _ _ _ EL EC E) in Hl.
    specialize (IH (acc ++ [c]) (size + 1) (off + 1) ls0 rest0 ltac:(lia) ltac:(lia) ltac:(lia) eq_refl).
    destruct ls0 as [|l ls0]; simplify_eq.
    + rewrite IH, <-app_assoc, length_cons. simpl. f_equal; lia.
    + destruct IH as (p & s' & -> & Hp & Hs' & ->). exists (c :: p), s'.
      rewrite <-app_assoc, length_cons. split_and!; [done|lia|done|f_equal; lia].
Qed.

(** The reader's fields hold the unfinished frame [fr]. *)
Record tracks (fr : list bytes) (r : Reader) : Prop := {
  tr_name : eventName r = frame_name fr;
  tr_data : dataLines r = values (str "data") fr;
  tr_content : hasContent r = negb (bool_decide (values (str "data") fr = []));
  tr_field : hasField r = existsb (λ l, negb (is_comment l)) fr;
  tr_terminal : terminalErr r = None;
}.

(** The rest of the stream fits the limit. *)
Definition fits (r : Reader) : Prop :=
  0 ≤ eventSize r ≤ offset r ∧ eventSize r + lenZ (input r) ≤ maxEventSize r ∧
  offset r + lenZ (input r) ≤ maxInt64.

Lemma values_app name fr l :
  values name (fr ++ [l]) =
  values name fr ++ (if is_comment l then [] else
    let '(f, v) := field_of l in if bool_decide (f = name) then [v] else []).
Proof.
  unfold values. rewrite omap_app. f_equal. simpl.
  destruct (is_comment l); [done|]. destruct (field_of l). by case_bool_decide.
Qed.

Lemma frame_name_app fr l :
  frame_name (fr ++ [l]) =
  if is_comment l then frame_name fr else
    let '(f, v) := field_of l in if bool_decide (f = str "event") then v else frame_name fr.
Proof.
  unfold frame_name. rewrite values_app. destruct (is_comment l); [by rewrite app_nil_r|].
  destruct (field_of l). case_bool_decide; [by rewrite last_snoc|by rewrite app_nil_r].
Qed.

Lemma tracks_comment fr l r r' :
  tracks fr r → is_comment l = true → eventName r' = eventName r → dataLines r' = dataLines r →
  hasContent r' = hasContent r → hasField r' = hasField r → terminalErr r' = terminalErr r →
  tracks (fr ++ [l]) r'.
Proof.
  intros [H1 H2 H3 H4 H5] Hc E1 E2 E3 E4 E5. split; rewrite ?E1, ?E2, ?E3, ?E4, ?E5, ?frame_name_app, ?values_app, ?Hc, ?app_nil_r; try done.
  rewrite existsb_app. simpl. by rewrite Hc, !orb_false_r.
Qed.

Lemma tracks_applyField fr l f v r :
  tracks fr r → is_comment l = false → field_of l = (f, v) → tracks (fr ++ [l]) (applyField f v r).
Proof.
  intros [H1 H2 H3 H4 H5] Hc Ef. unfold applyField.
  split; cbn -[str]; rewrite ?frame_name_app, ?values_app, ?Hc, ?Ef, <-?H1, <-?H2; try done.
  - destruct (bool_decide (f = str "data")); [done|by rewrite app_nil_r].
  - rewrite H3. destruct (bool_decide (f = str "data")); [|by rewrite app_nil_r, H2].
    rewrite (bool_decide_false (_ ++ _ = _)); [done|]. by destruct (dataLines r).
  - rewrite existsb_app. simpl. rewrite Hc. by rewrite orb_true_r.
Qed.

(** [Next] on the lines of the stream: the first frame with data is an event. *)
Fixpoint next_ref (fr : list bytes) (ls : list bytes) : (SSEEvent * list bytes) + list bytes :=
  match ls with
  | [] => inr fr
  | l :: ls =>
      if is_blank l then
        match frame_event fr with Some ev => inl (ev, ls) | None => next_ref [] ls end
      else next_ref (fr ++ [l]) ls
  end.

(** The frames of the lines that follow the unfinished frame [fr]. *)
Definition frames_after (fr : list bytes) (ls : list bytes) : list (list bytes) * list bytes :=
  match split_by is_blank ls with
  | ([], part) => ([], fr ++ part)
  | (f :: fs, part) => ((fr ++ f) :: fs, part)
  end.

Lemma frames_after_nil ls : frames_after [] ls = split_by is_blank ls.
Proof. unfold frames_after. by destruct (split_by is_blank ls) as [[]]. Qed.

Lemma frames_after_cons fr l ls :
  frames_after fr (l :: ls) =
  if is_blank l then (fr :: (frames_after [] ls).1, (frames_after [] ls).2) else frames_after (fr ++ [l]) ls.
Proof.
  rewrite frames_after_nil. unfold frames_after. cbn [split_by].
  destruct (split_by is_blank ls) as [[|f fs] part]; destruct (is_blank l); simpl;
    by rewrite <-?app_assoc, ?app_nil_r.
Qed.

Lemma next_ref_frames fr ls :
  match next_ref fr ls with
  | inl (ev, ls') => omap frame_event (frames_after fr ls).1 = ev :: omap frame_event (frames_after [] ls').1 ∧
                     (frames_after fr ls).2 = (frames_after [] ls').2
  | inr fr' => omap frame_event (frames_after fr ls).1 = [] ∧ (frames_after fr ls).2 = fr'
  end.
Proof.
  revert fr. induction ls as [|l ls IH]; intros fr.
  { simpl. by rewrite app_nil_r. }
  rewrite frames_after_cons. cbn [next_ref]. destruct (is_blank l); [|apply IH]. simpl.
  destruct (frame_event fr) as [ev|]; [done|]. apply IH.
Qed.

(** The error [Next] ends with after the unfinished frame [fr] and the rest. *)
Definition end_error (fr : list bytes) (rest : bytes) (e : source_end) : read_error :=
  match e with
  | SourceFailed => ReadFailed
  | SourceEOF =>
      if existsb (λ l, negb (is_comment l)) fr || negb (is_blank rest) && negb (is_comment rest)
      then ErrEventIncomplete else EOF
  end.

Lemma no_field_no_values name fr :
  existsb (λ l, negb (is_comment l)) fr = false → values name fr = [].
Proof.
  induction fr as [|l fr IH]; [done|]. unfold values. simpl.
  destruct (is_comment l); [apply IH|done].
Qed.

Lemma length_zero_blank {A} (l : list A) : (length l =? 0)%nat = true ↔ l = [].
Proof. by destruct l. Qed.

(** The test at the end of the input is the reference's. *)
Lemma end_test fr rest r :
  tracks fr r → Forall (λ c, byte_eqb LF c = false) rest →
  hasField r || hasContent r || negb (bool_decide (eventName r = []))
    || (negb (length rest =? 0)%nat && negb (isCommentLine rest)) || bool_decide ((parseField rest).1 = str "data")
  = existsb (λ l, negb (is_comment l)) fr || negb (is_blank rest) && negb (is_comment rest).
Proof.
  intros [H1 H2 H3 H4 H5] Hc. rewrite H1, H3, H4. destruct (parseField_clean _ Hc) as [-> ->].
  destruct (existsb _ fr) eqn:E; [done|]. unfold frame_name.
  rewrite !(no_field_no_values _ _ E). simpl. unfold is_blank.
  destruct rest as [|c rest]; [done|]. simpl.
  destruct (byte_eqb c colon) eqn:Ec; simpl; [done|]. by destruct (field_of rest).
Qed.

Lemma tracks_event fr r :
  tracks fr r →
  frame_event fr = if hasContent r then Some (mkEvent (eventName r) (Join (dataLines r) LF)) else None.
Proof.
  intros [H1 H2 H3 H4 H5]. unfold frame_event. rewrite H1, H2, H3. by destruct (values _ fr).
Qed.

Lemma tracks_nil r :
  eventName r = [] → dataLines r = [] → hasContent r = false → hasField r = false →
  terminalErr r = None → tracks [] r.
Proof. by split. Qed.

(** [res] is what the reference says of the lines [ls] after the frame [fr]. *)
Definition agrees (r : Reader) (fr ls : list bytes) (rest : bytes)
    (res : option (result read_error SSEEvent * Reader)) : Prop :=
  match next_ref fr ls with
  | inl (ev, ls') => ∃ r', res = Some (Ok ev, r') ∧ tracks [] r' ∧ fits r' ∧
      stream_lines (input r') = (ls', rest) ∧ (length (input r') < length (input r))%nat ∧
      inputErr r' = inputErr r
  | inr fr' => ∃ r', res = Some (Err (end_error fr' rest (inputErr r)), r')
  end.

Lemma agrees_mono r1 r fr ls rest res :
  (length (input r1) ≤ length (input r))%nat → inputErr r1 = inputErr r →
  agrees r1 fr ls rest res → agrees r fr ls rest res.
Proof.
  unfold agrees. intros H1 H2. destruct (next_ref fr ls) as [[ev ls']|fr'].
  - intros (r' & ? & ? & ? & ? & ? & ?). exists r'. split_and!; [done..|lia|congruence].
  - by rewrite H2.
Qed.

(** A reader that has read [k] bytes and has [s'] left. *)
Definition moved (r : Reader) (s' : bytes) (size k : Z) (r' : Reader) : Prop :=
  input r' = s' ∧ eventSize r' = size ∧ offset r' = offset r + k ∧
  maxEventSize r' = maxEventSize r ∧ inputErr r' = inputErr r.

(** One iteration on a terminated line. *)
Lemma iteration_line fr r l s' k :
  tracks fr r → Forall (λ c, byte_eqb LF c = false) l →
  readLoop (maxEventSize r) (inputErr r) (input r) [] (eventSize r) (offset r) =
    mkLineRead l l true None s' (eventSize r + k) (offset r + k) →
  if is_blank l then
    match frame_event fr with
    | Some ev => ∃ r', Next_iteration r = Return (Ok ev) r' ∧ tracks [] r' ∧ moved r s' 0 k r' ∧
                       lastEventEnd r' = offset r'
    | None => ∃ r', Next_iteration r = Continue r' ∧ tracks [] r' ∧ moved r s' 0 k r'
    end
  else ∃ r', Next_iteration r = Continue r' ∧ tracks (fr ++ [l]) r' ∧ moved r s' (eventSize r + k) k r'.
Proof.
  intros Ht Hcl Hread. unfold Next_iteration, Reader_readLine. rewrite Hread.
  cbn -[parseField length str isCommentLine]. unfold is_blank.
  destruct (length l =? 0)%nat eqn:Ez.
  - apply length_zero_blank in Ez as ->. change (bool_decide ([] = [])) with true.
    rewrite (tracks_event _ _ Ht). destruct (hasContent r); eexists; (split; [done|]);
      (split; [by apply tracks_nil; try apply Ht|done]).
  - rewrite bool_decide_false by (by intros ->).
    destruct (parseField_clean _ Hcl) as [-> ->]. destruct (field_of l) as [f v] eqn:Ef.
    destruct (is_comment l) eqn:Ecm; eexists; (split; [done|]); (split; [|done]).
    + by apply (tracks_comment fr l r).
    + pose proof (tracks_applyField _ _ _ _ _ Ht Ecm Ef) as [T1 T2 T3 T4 T5]. by split.
Qed.

Lemma Next_loop_ref n fr r ls rest :
  (length (input r) < n)%nat → tracks fr r → fits r → stream_lines (input r) = (ls, rest) →
  agrees r fr ls rest (Next_loop n r).
Proof.
  revert fr r ls. induction n as [|n IH]; intros fr r ls Hn Ht Hf Hl; [lia|].
  pose proof (split_by_clean _ _ _ _ Hl) as [Hls Hrest]. destruct Hf as (Hs & Hm & Ho).
  pose proof (readLoop_lines _ (inputErr r) _ [] _ _ _ _ Hm Hs Ho Hl) as Hread. cbn [Next_loop].
  destruct ls as [|l ls].
  { unfold agrees, Next_iteration, Reader_readLine. rewrite Hread. cbn -[parseField length str isCommentLine].
    destruct (inputErr r) eqn:Ei; cbn -[parseField length str isCommentLine].
    - pose proof (end_test fr rest r Ht Hrest) as Htest. destruct (parseField rest) as [f v].
      simpl fst in Htest. rewrite Htest. clear Htest. destruct (_ || _); eexists; reflexivity.
    - eexists; reflexivity. }
  destruct Hread as (p & s' & E & Hp & Hl' & Hread). inversion Hls as [|?? Hcl _]; subst.
  assert (Hlen : lenZ (input r) = lenZ p + lenZ s' ∧ (length (input r) = length p + length s')%nat)
    by (rewrite E, length_app; lia).
  pose proof (iteration_line fr r l s' (lenZ p) Ht Hcl Hread) as Hit. unfold agrees. cbn [next_ref].
  destruct (is_blank l); [destruct (frame_event fr) as [ev|]|].
  - destruct Hit as (r' & -> & Ht' & (E1 & E2 & E3 & E4 & E5) & _). exists r'.
    split_and!; [done..|unfold fits; rewrite E1, E2, E3, E4; lia|by rewrite E1|rewrite E1; lia|done].
  - destruct Hit as (r' & -> & Ht' & (E1 & E2 & E3 & E4 & E5)).
    apply (agrees_mono r'); [rewrite E1; lia|done|].
    apply (IH []); [rewrite E1; lia|done|unfold fits; rewrite E1, E2, E3, E4; lia|by rewrite E1].
  - destruct Hit as (r' & -> & Ht' & (E1 & E2 & E3 & E4 & E5)).
    apply (agrees_mono r'); [rewrite E1; lia|done|].
    apply (IH (fr ++ [l])); [rewrite E1; lia|done|unfold fits; rewrite E1, E2, E3, E4; lia|by rewrite E1].
Qed.

Lemma read_to_end_ref n r ls rest :
  (length (input r) < n)%nat → tracks [] r → fits r → stream_lines (input r) = (ls, rest) →
  read_to_end n r = Some (omap frame_event (split_by is_blank ls).1,
                          end_error (split_by is_blank ls).2 rest (inputErr r)).
Proof.
  revert r ls. induction n as [|n IH]; intros r ls Hn Ht Hf Hl; [lia|].
  cbn [read_to_end]. unfold Reader_Next. rewrite (tr_terminal _ _ Ht).
  pose proof (Next_loop_ref _ [] r ls rest (Nat.lt_succ_diag_r _) Ht Hf Hl) as H.
  pose proof (next_ref_frames [] ls) as Hr. rewrite <-!frames_after_nil.
  unfold agrees in H. destruct (next_ref [] ls) as [[ev ls']|fr'].
  - destruct H as (r' & -> & Ht' & Hf' & Hl' & Hlt & Ei). destruct Hr as [-> ->].
    rewrite (IH r' ls') by (done || lia). by rewrite Ei, !frames_after_nil.
  - destruct H as (r' & ->). by destruct Hr as [-> ->].
Qed.

End reference.

(** Reading a stream to its end agrees with the line-based reference
    definition.  For every input and every way the source can end, if the limit
    is not smaller than the input, then reading until the first error returns
    exactly the events of the complete frames that have a data field, in order,
    and the error is the source's failure, [ErrEventIncomplete] when a field
    belongs to no complete frame, and [io.EOF] otherwise. *)
Theorem Next_matches_stream s e max r :
  NewReader (Some (s, e)) max = Some r → lenZ s ≤ max → max ≤ maxInt64 →
  read_to_end (S (length s)) r = Some (stream_events s, stream_error s e).
Proof.
  unfold NewReader. case_match; [done|]. intros [= <-] Hs Hm.
  destruct (stream_lines s) as [ls rest] eqn:E.
  rewrite (read_to_end_ref _ _ ls rest); [|simpl; lia|by apply tracks_nil|unfold fits; simpl; lia|done].
  unfold stream_events, stream_error, stream_frames. by rewrite E.
Qed.

Lemma Next_matches_stream_witness :
  NewReader (Some (demo_stream, SourceEOF)) 64 = Some demo_reader ∧
  read_to_end (S (length demo_stream)) demo_reader =
    Some (stream_events demo_stream, stream_error demo_stream SourceEOF).
Proof.
  split; [reflexivity|].
  apply (Next_matches_stream demo_stream SourceEOF 64); [reflexivity|vm_compute; discriminate..].
Defined.

(** ** Encoding events *)

(** The lines of a frame: an optional name and one data field per data line. *)
Definition encode_lines (ev : SSEEvent) : list bytes :=
  let '(ps, p) := split_by (byte_eqb LF) (se_Data ev) in
  (if is_blank (se_Event ev) then [] else [str "event: " ++ se_Event ev]) ++
  map (λ l, str "data: " ++ l) (ps ++ [p]).

Definition frame_bytes (ls : list bytes) : bytes := concat (map (λ l, l ++ [LF]) ls) ++ [LF].

Definition encode (ev : SSEEvent) : bytes := frame_bytes (encode_lines ev).

(** Names are one line; data may have several, without carriage returns. *)
Definition encodable (ev : SSEEvent) : Prop := (LF ∉ se_Event ev) ∧ (CR ∉ se_Event ev) ∧ (CR ∉ se_Data ev).

(** [n] calls of [Next], with the offset reported after each. *)
Fixpoint read_events (n : nat) (r : Reader) : option (list (SSEEvent * Z) * Reader) :=
  match n with
  | O => Some ([], r)
  | S n =>
      match Reader_Next r with
      | Some (Ok ev, r) =>
          match read_events n r with
          | Some (evs, r') => Some ((ev, Reader_LastEventEndOffset r) :: evs, r')
          | None => None
          end
      | _ => None
      end
  end.

(** The offsets at which the encoded events end. *)
Fixpoint end_offsets (off : Z) (evs : list SSEEvent) : list Z :=
  match evs with [] => [] | ev :: evs => (off + lenZ (encode ev)) :: end_offsets (off + lenZ (encode ev)) evs end.

Section encoding.

Definition plain (l : bytes) : Prop := Forall (λ c, byte_eqb c LF = false ∧ byte_eqb c CR = false) l.

Lemma plain_clean l : plain l → Forall (λ c, byte_eqb LF c = false) l.
Proof.
  intros Hl. eapply Forall_impl; [exact Hl|]. intros c [H _]. unfold byte_eqb in *.
  rewrite bool_decide_eq_false in H. by apply bool_decide_eq_false.
Qed.

Lemma readLoop_plain max e l s acc size off :
  plain l → size + lenZ l + 1 ≤ max → 0 ≤ size ≤ off → off + lenZ l + 1 ≤ maxInt64 → max ≤ maxInt64 →
  readLoop max e (l ++ LF :: s) acc size off =
  mkLineRead (acc ++ l) (acc ++ l) true None s (size + (lenZ l + 1)) (off + (lenZ l + 1)).
Proof.
  intros Hl. revert acc size off. induction Hl as [|c l [H1 H2] _ IH]; intros acc size off Hm Hs Ho Hx.
  - cbn [readLoop app]. unfold add64. simpl in Hm, Ho. rewrite !wrap64_id by lia64.
    rewrite (proj2 (Z.ltb_ge _ _)) by lia. change (byte_eqb LF LF) with true. cbv iota.
    rewrite app_nil_r. f_equal; simpl; lia.
  - rewrite length_cons in Hm, Ho. cbn [readLoop app]. unfold add64. rewrite !wrap64_id by lia64.
    rewrite (proj2 (Z.ltb_ge _ _)) by lia. rewrite H1, H2, IH by lia.
    rewrite <-app_assoc, length_cons. simpl. f_equal; lia.
Qed.

Lemma frame_bytes_cons l ls : frame_bytes (l :: ls) = l ++ LF :: frame_bytes ls.
Proof. unfold frame_bytes. simpl. by rewrite <-!app_assoc. Qed.

(** [Next] reads the rest [ls] of a frame. *)
Lemma Next_loop_frame n fr ls r s' ev :
  input r = frame_bytes ls ++ s' → Forall plain ls → Forall (λ l, l ≠ []) ls →
  tracks fr r → frame_event (fr ++ ls) = Some ev → (length ls < n)%nat →
  0 ≤ eventSize r ≤ offset r → eventSize r + lenZ (frame_bytes ls) ≤ maxEventSize r ≤ maxInt64 →
  offset r + lenZ (frame_bytes ls) ≤ maxInt64 →
  ∃ r', Next_loop n r = Some (Ok ev, r') ∧ tracks [] r' ∧ moved r s' 0 (lenZ (frame_bytes ls)) r' ∧
        lastEventEnd r' = offset r'.
Proof.
  revert fr ls r. induction n as [|n IH]; intros fr ls r Hi Hp Hb Ht Hev Hn Hs Hm Ho; [lia|].
  cbn [Next_loop]. destruct ls as [|l ls].
  - change (frame_bytes []) with [LF] in *. rewrite app_nil_r in Hev. change (lenZ [LF]) with 1 in *.
    pose proof (iteration_line fr r [] s' 1 Ht (Forall_nil_2 _)) as Hit.
    rewrite Hi in Hit. simpl app in Hit.
    rewrite (readLoop_plain _ _ [] s' []) in Hit by (try (by constructor); simpl; lia).
    specialize (Hit eq_refl). change (is_blank []) with true in Hit. cbv iota in Hit. rewrite Hev in Hit.
    destruct Hit as (r' & -> & Ht' & Hmv & He). by exists r'.
  - rewrite frame_bytes_cons in *. inversion Hp; inversion Hb; subst.
    rewrite length_app, length_cons in *.
    pose proof (iteration_line fr r l (frame_bytes ls ++ s') (lenZ l + 1) Ht (plain_clean _ H1)) as Hit.
    rewrite Hi, <-app_assoc in Hit. simpl app in Hit.
    rewrite (readLoop_plain _ _ l _ []) in Hit by (done || lia). specialize (Hit eq_refl).
    unfold is_blank in Hit. rewrite bool_decide_false in Hit by done.
    destruct Hit as (r1 & -> & Ht1 & (E1 & E2 & E3 & E4 & E5)).
    destruct (IH (fr ++ [l]) ls r1) as (r' & -> & Ht' & (F1 & F2 & F3 & F4 & F5) & He);
      [done..|by rewrite <-app_assoc|simpl in Hn; lia|rewrite E2, E3; lia|rewrite E2, E4; lia|rewrite E3; lia|].
    exists r'. unfold moved. split_and!; [done..|rewrite F3, E3; lia|congruence|congruence|done].
Qed.

Lemma split_by_join s ps p :
  split_by (byte_eqb LF) s = (ps, p) → Join (ps ++ [p]) LF = s ∧
  (∀ c, c ∉ s → Forall (λ q, c ∉ q) (ps ++ [p])).
Proof.
  revert ps p. induction s as [|c s IH]; intros ps p H; cbn [split_by] in H;
    [simplify_eq; split; [done|by repeat constructor]|].
  destruct (split_by _ s) as [ps0 p0]. destruct (IH _ _ eq_refl) as [Hj Hn].
  destruct (byte_eqb LF c) eqn:E.
  - apply byte_eqb_true in E as <-. simplify_eq. split.
    + simpl. by destruct (ps0 ++ [p]) eqn:E; [destruct ps0|].
    + intros c Hc. apply not_elem_of_cons in Hc as [_ Hc]. simpl. constructor; [set_solver|]. by apply Hn.
  - destruct ps0 as [|q ps0]; simplify_eq/=.
    + split; [done|]. intros x [Hx1 Hx2]%not_elem_of_cons. specialize (Hn _ Hx2).
      inversion Hn; subst. repeat constructor. by apply not_elem_of_cons.
    + split; [by destruct (ps0 ++ [p])|]. intros x [Hx1 Hx2]%not_elem_of_cons. specialize (Hn _ Hx2).
      inversion Hn; subst. constructor; [by apply not_elem_of_cons|done].
Qed.

Lemma plain_intro l : LF ∉ l → CR ∉ l → plain l.
Proof.
  intros H1 H2. apply Forall_forall. intros c Hc. unfold byte_eqb.
  split; apply bool_decide_eq_false; intros ->; done.
Qed.

Lemma values_cons name l ls :
  values name (l :: ls) =
  (if is_comment l then [] else
    let '(f, v) := field_of l in if bool_decide (f = name) then [v] else []) ++ values name ls.
Proof.
  unfold values. cbn [omap list_omap]. destruct (is_comment l); [done|].
  destruct (field_of l). by case_bool_decide.
Qed.

Lemma values_data name ls :
  values name (map (λ l, str "data: " ++ l) ls) = if bool_decide (str "data" = name) then ls else [].
Proof.
  induction ls as [|l ls IH]; [by case_bool_decide|]. rewrite map_cons, values_cons, IH.
  change (is_comment (str "data: " ++ l)) with false.
  change (field_of (str "data: " ++ l)) with (str "data", l). cbv beta iota.
  by case_bool_decide.
Qed.

(** An encoded frame is read back as the event. *)
Lemma encode_lines_event ev :
  encodable ev →
  frame_event (encode_lines ev) = Some ev ∧ Forall plain (encode_lines ev) ∧ Forall (λ l, l ≠ []) (encode_lines ev).
Proof.
  intros (H1 & H2 & H3). destruct ev as [name data]. unfold encode_lines.
  cbn [se_Data se_Event] in *.
  destruct (split_by (byte_eqb LF) data) as [ps p] eqn:E.
  pose proof (split_by_join _ _ _ E) as [Hj Hn]. pose proof (split_by_clean _ _ _ _ E) as [Hc1 Hc2].
  assert (Hp : Forall plain (ps ++ [p])).
  { apply Forall_forall. intros l Hl. apply plain_intro.
    - assert (Hc : Forall (λ c, byte_eqb LF c = false) l).
      { apply elem_of_app in Hl as [Hl| ->%list_elem_of_singleton]; [|done].
        rewrite Forall_forall in Hc1. by apply Hc1. }
      intros HL. rewrite Forall_forall in Hc. by specialize (Hc _ HL).
    - specialize (Hn _ H3). rewrite Forall_forall in Hn. by apply Hn. }
  assert (Hd : Forall plain (map (λ l, str "data: " ++ l) (ps ++ [p]))).
  { apply Forall_fmap. eapply Forall_impl; [exact Hp|]. intros l Hl. apply Forall_app. split; [|done].
    repeat constructor. }
  assert (Hne : Forall (λ l, l ≠ []) (map (λ l, str "data: " ++ l) (ps ++ [p]))).
  { apply Forall_fmap, Forall_true. done. }
  pose proof (values_data (str "data") (ps ++ [p])) as V1.
  pose proof (values_data (str "event") (ps ++ [p])) as V2.
  rewrite bool_decide_true in V1 by done. rewrite bool_decide_false in V2 by done.
  assert (Hx : ∃ x xs, ps ++ [p] = x :: xs) by (destruct ps; eauto). destruct Hx as (x & xs & Hx).
  set (ds := map _ _) in *. unfold is_blank, frame_event, frame_name. case_bool_decide as En.
  - subst name. rewrite app_nil_l. rewrite V1, V2, Hx, <-Hx, Hj. done.
  - rewrite <-app_comm_cons, app_nil_l. rewrite !values_cons, V1, V2.
    change (is_comment (str "event: " ++ name)) with false.
    change (field_of (str "event: " ++ name)) with (str "event", name). cbv beta iota.
    rewrite bool_decide_false, bool_decide_true, app_nil_l by done. rewrite Hx, <-Hx, Hj.
    split_and!; [done|..]; (constructor; [|done]); [|done].
    apply Forall_app. split; [by repeat constructor|by apply plain_intro].
Qed.

End encoding.

Lemma Next_encoded ev s' r :
  encodable ev → input r = encode ev ++ s' → tracks [] r → eventSize r = 0 → 0 ≤ offset r →
  lenZ (encode ev) ≤ maxEventSize r ≤ maxInt64 → offset r + lenZ (encode ev) ≤ maxInt64 →
  ∃ r', Reader_Next r = Some (Ok ev, r') ∧ tracks [] r' ∧ moved r s' 0 (lenZ (encode ev)) r' ∧
        lastEventEnd r' = offset r'.
Proof.
  intros Hev Hi Ht Hz Ho Hm Hx. destruct (encode_lines_event ev Hev) as (He & Hp & Hb).
  unfold Reader_Next. rewrite (tr_terminal _ _ Ht).
  apply (Next_loop_frame _ [] (encode_lines ev)); try done; try (rewrite Hz; unfold encode in *; lia).
  rewrite Hi, length_app. unfold encode, frame_bytes. rewrite length_app. simpl length.
  assert (H : ∀ ls : list bytes, (length ls ≤ length (concat (map (λ l, l ++ [LF]) ls)))%nat).
  { induction ls; simpl; [lia|]. rewrite !length_app. simpl. lia. }
  specialize (H (encode_lines ev)). lia.
Qed.

Lemma read_encoded evs tail r :
  Forall encodable evs → Forall (λ ev, lenZ (encode ev) ≤ maxEventSize r) evs →
  input r = concat (map encode evs) ++ tail → tracks [] r → eventSize r = 0 → 0 ≤ offset r →
  maxEventSize r ≤ maxInt64 → offset r + lenZ (concat (map encode evs)) ≤ maxInt64 →
  ∃ r', read_events (length evs) r = Some (zip evs (end_offsets (offset r) evs), r') ∧
        tracks [] r' ∧ input r' = tail ∧ eventSize r' = 0 ∧
        offset r' = offset r + lenZ (concat (map encode evs)).
Proof.
  intros Henc. revert r. induction Henc as [|ev evs Hev _ IH]; intros r Hfit Hi Ht Hz Ho Hm Hx.
  - exists r. simpl in *. split_and!; [done..|lia].
  - inversion Hfit; subst. simpl concat in *. rewrite length_app in Hx. rewrite <-app_assoc in Hi.
    destruct (Next_encoded ev (concat (map encode evs) ++ tail) r) as (r1 & E & Ht1 & (E1 & E2 & E3 & E4 & _) & El);
      [done..|lia|lia|].
    destruct (IH r1) as (r' & E' & Ht' & Hi' & Hz' & Ho'); rewrite ?E3, ?E4; try done; try lia.
    exists r'. simpl read_events. rewrite E, E'. unfold Reader_LastEventEndOffset. rewrite El, E3.
    split_and!; [done..|]. rewrite Ho', E3, length_app. lia.
Qed.

(** C15: Events survive the wire.  For every list of events (names on one line,
    data on any number of lines, no carriage returns) whose encoded frames fit
    the limit one by one, reading the concatenation of the frames returns the
    events in order, each with the offset at which its frame ends, and leaves the
    reader between events with exactly the bytes that follow the last frame. *)
Theorem SSE_roundtrip evs tail e max r :
  NewReader (Some (concat (map encode evs) ++ tail, e)) max = Some r → max ≤ maxInt64 →
  Forall encodable evs → Forall (λ ev, lenZ (encode ev) ≤ max) evs →
  lenZ (concat (map encode evs)) ≤ maxInt64 →
  ∃ r', read_events (length evs) r = Some (zip evs (end_offsets 0 evs), r') ∧
        tracks [] r' ∧ input r' = tail ∧ eventSize r' = 0 ∧ offset r' = lenZ (concat (map encode evs)).
Proof.
  unfold NewReader. case_match; [done|]. intros [= <-] Hm Henc Hfit Hx.
  set (r := mkReader _ _ _ _ _ _ _ _ _ _ _ _).
  destruct (read_encoded evs tail r) as (r' & E & H1 & H2 & H3 & H4);
    [done..|by apply tracks_nil|done|done|done|done|].
  exists r'. by rewrite E, H4.
Qed.

Definition demo_events : list SSEEvent :=
  [mkEvent (str "delta") (str "a" ++ LF :: str "b"); mkEvent [] (str "[DONE]")].

Definition encoded_reader : Reader :=
  mkReader (concat (map encode demo_events) ++ str ": end") SourceEOF 64 0 [] [] false false [] None 0 0.

Lemma SSE_roundtrip_witness :
  ∃ r', read_events 2 encoded_reader = Some (zip demo_events (end_offsets 0 demo_events), r') ∧
        tracks [] r' ∧ input r' = str ": end" ∧ eventSize r' = 0 ∧
        offset r' = lenZ (concat (map encode demo_events)).
Proof.
  apply (SSE_roundtrip demo_events (str ": end") SourceEOF 64); [reflexivity|vm_compute; discriminate| | |].
  - repeat constructor; simpl; set_solver.
  - repeat constructor; vm_compute; discriminate.
  - vm_compute; discriminate.
Defined.
