(* ===== verification/Analytics.v ===== *)
(** * The analytics coordinator ([internal/analytics/coordinator.go])

    [Do] answers a query from a bounded cache, from an identical query that is
    already running, or by running it, if the gate that several coordinators may
    share has a free slot.  The two critical sections of [Do] are functions on
    the shared state; a call of [Do] is a goroutine between them, and contexts may
    be cancelled at any moment.  The time is an argument of the sections that read
    the clock.  The query function returns a value or an error; that it panics is
    not modelled. *)

From Stdlib Require Import ZArith Lia ZifyBool.
From stdpp Require Import prelude gmap strings list.
From S2P Require Import Prelude.
Local Open Scope Z_scope.

(** ** The gate *)

Record Gate := mkGate { gate_capacity : Z; gate_active : Z }.

Definition NewGate (capacity : Z) : Gate := mkGate (if capacity <=? 0 then 2 else capacity) 0.

Definition Gate_TryAcquire (g : Gate) : bool * Gate :=
  if gate_capacity g <=? gate_active g then (false, g)
  else (true, mkGate (gate_capacity g) (add64 (gate_active g) 1)).

Definition Gate_Release (g : Gate) : Gate :=
  if 0 <? gate_active g then mkGate (gate_capacity g) (sub64 (gate_active g) 1) else g.

(** ** The coordinator *)

Inductive do_error := ErrCapacityExceeded | ErrLeaderCanceled | ContextError | QueryError.

#[export] Instance do_error_eq_dec : EqDecision do_error.
Proof. solve_decision. Defined.

Section coordinator.
Context {T : Type}.

(** A [flightCall]; [fc_done] is the closed channel. *)
Record flightCall := mkCall { fc_done : bool; fc_val : T; fc_err : option do_error; fc_leaderCanceled : bool }.

(** The cache holds values with their creation times; [co_inFlight] maps a key to
    the call in the heap of calls. *)
Record Coordinator := mkCoordinator {
  co_maxCache : Z; co_ttl : Z;
  co_cache : gmap string (T * Z); co_cacheOrder : list string; co_inFlight : gmap string nat }.

Definition NewCoordinatorWithGate (maxCache ttl : Z) : Coordinator :=
  mkCoordinator (if maxCache <=? 0 then 32 else maxCache) (if ttl <=? 0 then 15000000000 else ttl) ∅ [] ∅.

Fixpoint removeKeyFromOrder (key : string) (order : list string) : list string :=
  match order with
  | [] => []
  | k :: rest => if bool_decide (k = key) then rest else k :: removeKeyFromOrder key rest
  end.

Definition touch (key : string) (c : Coordinator) : Coordinator :=
  mkCoordinator (co_maxCache c) (co_ttl c) (co_cache c) (removeKeyFromOrder key (co_cacheOrder c) ++ [key]) (co_inFlight c).

(** The eviction loop of [setCache]; [maxCache] is positive. *)
Fixpoint evict (maxCache : Z) (order : list string) (cache : gmap string (T * Z)) : list string * gmap string (T * Z) :=
  match order with
  | [] => ([], cache)
  | oldest :: rest =>
      if maxCache <=? Z.of_nat (length order) then evict maxCache rest (delete oldest cache) else (order, cache)
  end.

Definition setCache (now : Z) (key : string) (val : T) (c : Coordinator) : Coordinator :=
  let '(order, cache) := evict (co_maxCache c) (removeKeyFromOrder key (co_cacheOrder c)) (co_cache c) in
  mkCoordinator (co_maxCache c) (co_ttl c) (<[key := (val, now)]> cache) (order ++ [key]) (co_inFlight c).

Definition expire (key : string) (c : Coordinator) : Coordinator :=
  mkCoordinator (co_maxCache c) (co_ttl c) (delete key (co_cache c)) (removeKeyFromOrder key (co_cacheOrder c)) (co_inFlight c).

Definition with_inFlight (m : gmap string nat) (c : Coordinator) : Coordinator :=
  mkCoordinator (co_maxCache c) (co_ttl c) (co_cache c) (co_cacheOrder c) m.

Definition Coordinator_CacheLen (c : Coordinator) : Z := Z.of_nat (size (co_cache c)).

(** ** The critical sections of [Do] *)

(** How the first section of an attempt ends. *)
Inductive lookup_outcome := Hit (v : T) | Join (id : nat) | Full | Lead (id : nat).

(** Singleflight, then the gate. *)
Definition Do_miss (zero : T) (key : string) (g : Gate) (c : Coordinator) (calls : list flightCall)
  : lookup_outcome * Gate * Coordinator * list flightCall :=
  match co_inFlight c !! key with
  | Some id => (Join id, g, c, calls)
  | None =>
      let '(ok, g) := Gate_TryAcquire g in
      if negb ok then (Full, g, c, calls)
      else
        let id := length calls in
        (Lead id, g, with_inFlight (<[key := id]> (co_inFlight c)) c, calls ++ [mkCall false zero None false])
  end.

(** The cache first; an expired entry is dropped. *)
Definition Do_lookup (zero : T) (now : Z) (key : string) (g : Gate) (c : Coordinator) (calls : list flightCall)
  : lookup_outcome * Gate * Coordinator * list flightCall :=
  match co_cache c !! key with
  | Some (v, createdAt) =>
      if now - createdAt <=? co_ttl c then (Hit v, g, touch key c, calls) else Do_miss zero key g (expire key c) calls
  | None => Do_miss zero key g c calls
  end.

(** The last section: [canceled1] and [canceled2] are the two readings of the
    leader's context. *)
Definition Do_finish (now : Z) (key : string) (id : nat) (val : T) (err : option do_error) (canceled1 canceled2 : bool)
    (g : Gate) (c : Coordinator) (calls : list flightCall) : Gate * Coordinator * list flightCall :=
  let g := Gate_Release g in
  let c := with_inFlight (delete key (co_inFlight c)) c in
  let c := if bool_decide (err = None) && negb canceled1 then setCache now key val c else c in
  (g, c, <[id := mkCall true val err canceled2]> calls).

End coordinator.
Arguments flightCall : clear implicits.
Arguments Coordinator : clear implicits.
Arguments lookup_outcome : clear implicits.

(** ** Concurrent calls of [Do] *)

Section concurrent.
Context {T : Type} (zero : T).

(** A call of [Do]: before an attempt, before the lock, waiting for a call,
    running the query, before the last section, returned. *)
Inductive dpc :=
| DAttempt (n : nat)
| DLock (n : nat)
| DWait (n : nat) (id : nat)
| DLead (id : nat)
| DFinish (id : nat) (val : T) (err : option do_error)
| DReturn (val : T) (err : option do_error).

Record dthread := mkThread { d_co : nat; d_key : string; d_canceled : bool; d_pc : dpc }.

(** [a_produced] is a ghost: the results of the queries that succeeded. *)
Record asys := mkASys {
  a_gate : Gate; a_coords : list (Coordinator T); a_calls : list (flightCall T);
  a_threads : list dthread; a_produced : list (nat * string * T) }.

Definition goto (pc : dpc) (t : dthread) : dthread := mkThread (d_co t) (d_key t) (d_canceled t) pc.
Definition canceled (t : dthread) : dthread := mkThread (d_co t) (d_key t) true (d_pc t).

Definition maxAttempts : nat := 5.

(** The head of the loop. *)
Definition attempt_next (n : nat) (canceled : bool) : dpc :=
  if (n <? maxAttempts)%nat then (if canceled then DReturn zero (Some ContextError) else DLock n)
  else DReturn zero (Some ErrLeaderCanceled).

Definition lookup_next (n : nat) (o : lookup_outcome T) : dpc :=
  match o with
  | Hit v => DReturn v None
  | Join id => DWait n id
  | Full => DReturn zero (Some ErrCapacityExceeded)
  | Lead id => DLead id
  end.

(** A waiter whose leader was cancelled tries again. *)
Definition wait_next (n : nat) (call : flightCall T) (canceled : bool) : dpc :=
  if negb (bool_decide (fc_err call = None)) && fc_leaderCanceled call && negb canceled then DAttempt (S n)
  else DReturn (fc_val call) (fc_err call).

Inductive do_step : asys → asys → Prop :=
| do_call g cs ca ts pr ci key :
    is_Some (cs !! ci) →
    do_step (mkASys g cs ca ts pr) (mkASys g cs ca (ts ++ [mkThread ci key false (DAttempt 0)]) pr)
| do_cancel g cs ca ts pr i t :
    ts !! i = Some t → do_step (mkASys g cs ca ts pr) (mkASys g cs ca (<[i := canceled t]> ts) pr)
| do_attempt g cs ca ts pr i t n :
    ts !! i = Some t → d_pc t = DAttempt n →
    do_step (mkASys g cs ca ts pr) (mkASys g cs ca (<[i := goto (attempt_next n (d_canceled t)) t]> ts) pr)
| do_lookup g cs ca ts pr i t n c now o g' c' ca' :
    ts !! i = Some t → d_pc t = DLock n → cs !! d_co t = Some c →
    Do_lookup zero now (d_key t) g c ca = (o, g', c', ca') →
    do_step (mkASys g cs ca ts pr) (mkASys g' (<[d_co t := c']> cs) ca' (<[i := goto (lookup_next n o) t]> ts) pr)
| do_wait g cs ca ts pr i t n id call :
    ts !! i = Some t → d_pc t = DWait n id → ca !! id = Some call → fc_done call = true →
    do_step (mkASys g cs ca ts pr) (mkASys g cs ca (<[i := goto (wait_next n call (d_canceled t)) t]> ts) pr)
| do_abandon g cs ca ts pr i t n id :
    ts !! i = Some t → d_pc t = DWait n id → d_canceled t = true →
    do_step (mkASys g cs ca ts pr) (mkASys g cs ca (<[i := goto (DReturn zero (Some ContextError)) t]> ts) pr)
| do_query g cs ca ts pr i t id val err :
    ts !! i = Some t → d_pc t = DLead id →
    do_step (mkASys g cs ca ts pr)
      (mkASys g cs ca (<[i := goto (DFinish id val err) t]> ts)
         (if bool_decide (err = None) then (d_co t, d_key t, val) :: pr else pr))
| do_finish g cs ca ts pr i t id val err c now canceled1 canceled2 g' c' ca' :
    ts !! i = Some t → d_pc t = DFinish id val err → cs !! d_co t = Some c →
    (d_canceled t = true → canceled1 = true) → (canceled1 = true → canceled2 = true) →
    Do_finish now (d_key t) id val err canceled1 canceled2 g c ca = (g', c', ca') →
    do_step (mkASys g cs ca ts pr)
      (mkASys g' (<[d_co t := c']> cs) ca'
         (<[i := mkThread (d_co t) (d_key t) canceled2 (DReturn val err)]> ts) pr).

(** A gate of its own or shared, and any number of coordinators behind it. *)
Definition analytics_start (g : Gate) (cs : list (Coordinator T)) : asys := mkASys g cs [] [] [].

Inductive areachable (g : Gate) (cs : list (Coordinator T)) : asys → Prop :=
| areach_start : areachable g cs (analytics_start g cs)
| areach_step x y : areachable g cs x → do_step x y → areachable g cs y.

(** The call a goroutine leads. *)
Definition leads (t : dthread) : option nat :=
  match d_pc t with DLead id | DFinish id _ _ => Some id | _ => None end.

Definition leading (ts : list dthread) : Z := foldr (λ t n, match leads t with Some _ => 1 | None => 0 end + n) 0 ts.

End concurrent.

(** ** The cache *)

Section cache.
Context {T : Type}.
Implicit Types c : Coordinator T.

Record cache_ok c : Prop := {
  ck_max : 0 < co_maxCache c;
  ck_nodup : NoDup (co_cacheOrder c);
  ck_keys k : (k ∈ co_cacheOrder c) ↔ is_Some (co_cache c !! k);
  ck_size : Z.of_nat (length (co_cacheOrder c)) ≤ co_maxCache c;
}.

Lemma removeKey_spec key order :
  NoDup order →
  NoDup (removeKeyFromOrder key order) ∧ (∀ k, k ∈ removeKeyFromOrder key order ↔ (k ∈ order) ∧ k ≠ key) ∧
  (length (removeKeyFromOrder key order) ≤ length order)%nat.
Proof.
  induction order as [|o order IH]; intros Hn; simpl; [split_and!; [done|set_solver|done]|].
  apply NoDup_cons in Hn as [Ho Hn]. destruct (IH Hn) as (H1 & H2 & H3). case_bool_decide as E.
  - subst o. split_and!; [done| |lia]. intros k. rewrite elem_of_cons. naive_solver.
  - split_and!; [|set_solver|simpl; lia]. apply NoDup_cons. split; [|done]. rewrite H2. naive_solver.
Qed.

(** Eviction makes room for one key that is not in the order. *)
Lemma evict_spec max key order (cache : gmap string (T * Z)) order' cache' :
  0 < max → NoDup order → key ∉ order → (∀ k, k ≠ key → k ∈ order ↔ is_Some (cache !! k)) →
  evict max order cache = (order', cache') →
  NoDup order' ∧ (key ∉ order') ∧ (∀ k, k ≠ key → k ∈ order' ↔ is_Some (cache' !! k)) ∧
  Z.of_nat (length order') < max ∧ (∀ k v, cache' !! k = Some v → cache !! k = Some v).
Proof.
  intros Hmax. revert cache. induction order as [|o order IH]; intros cache Hn Hk Hc E; cbn [evict] in E.
  { simplify_eq. simpl. split_and!; [done..|lia|done]. }
  destruct (max <=? Z.of_nat (length (o :: order))) eqn:El.
  - apply NoDup_cons in Hn as [Ho Hn]. apply not_elem_of_cons in Hk as [Hko Hk].
    apply IH in E as (H1 & H2 & H3 & H4 & H5); [|done..|].
    + split_and!; [done..|]. intros k v Hv%H5. by apply lookup_delete_Some in Hv as [_ Hv].
    + intros k Hkk. destruct (decide (k = o)) as [->|Hne].
      * rewrite lookup_delete_eq. split; [done|]. by intros [].
      * rewrite lookup_delete_ne by done. rewrite <-Hc by done. rewrite elem_of_cons. naive_solver.
  - simplify_eq. split_and!; [done..|lia|done].
Qed.

Lemma touch_ok key c : is_Some (co_cache c !! key) → cache_ok c → cache_ok (touch key c).
Proof.
  intros Hk [H1 H2 H3 H4]. destruct (removeKey_spec key _ H2) as (R1 & R2 & R3).
  assert (Hlen : (length (removeKeyFromOrder key (co_cacheOrder c)) < length (co_cacheOrder c))%nat).
  { apply H3 in Hk. clear H1 H3 H4 R1 R2 R3. revert H2 Hk. generalize (co_cacheOrder c). intros order Hn Hk.
    induction order as [|o order IH]; [by apply elem_of_nil in Hk|]. simpl. case_bool_decide; [lia|].
    apply NoDup_cons in Hn as [_ Hn]. apply elem_of_cons in Hk as [|Hk]; [done|]. simpl. specialize (IH Hn Hk). lia. }
  split; simpl; [done|..].
  - apply NoDup_app. split_and!; [done| |apply NoDup_singleton].
    intros k [_ Hne]%R2 ->%list_elem_of_singleton. done.
  - intros k. rewrite elem_of_app, R2, list_elem_of_singleton, <-H3.
    destruct (decide (k = key)) as [->|]; [|naive_solver]. apply H3 in Hk. naive_solver.
  - rewrite length_app. simpl. lia.
Qed.

Lemma expire_ok key c : cache_ok c → cache_ok (expire key c).
Proof.
  intros [H1 H2 H3 H4]. destruct (removeKey_spec key _ H2) as (R1 & R2 & R3).
  split; simpl; [done|done| |lia]. intros k. rewrite R2, H3. destruct (decide (k = key)) as [->|].
  - rewrite lookup_delete_eq. split; [naive_solver|by intros []].
  - rewrite lookup_delete_ne by done. naive_solver.
Qed.

Lemma setCache_ok now key val c :
  cache_ok c →
  cache_ok (setCache now key val c) ∧
  (∀ k v, co_cache (setCache now key val c) !! k = Some v → k = key ∧ v = (val, now) ∨ co_cache c !! k = Some v) ∧
  co_inFlight (setCache now key val c) = co_inFlight c.
Proof.
  intros [H1 H2 H3 H4]. destruct (removeKey_spec key _ H2) as (R1 & R2 & R3). unfold setCache.
  destruct (evict _ _ _) as [order cache] eqn:E.
  apply (evict_spec _ key) in E as (E1 & E2 & E3 & E4 & E5); [|done|done|rewrite R2; naive_solver|].
  2: { intros k Hk. rewrite R2, H3. naive_solver. }
  split_and!; [split; simpl|simpl|done].
  - done.
  - apply NoDup_app. split_and!; [done| |apply NoDup_singleton]. intros k Hk ->%list_elem_of_singleton. done.
  - intros k. rewrite elem_of_app, list_elem_of_singleton. destruct (decide (k = key)) as [->|].
    + rewrite lookup_insert_eq. naive_solver.
    + rewrite lookup_insert_ne by done. rewrite <-E3 by done. naive_solver.
  - rewrite length_app. simpl. lia.
  - intros k v. destruct (decide (k = key)) as [->|].
    + rewrite lookup_insert_eq. intros [= <-]. by left.
    + rewrite lookup_insert_ne by done. intros Hv%E5. by right.
Qed.

Lemma cache_ok_inFlight m c : cache_ok c → cache_ok (with_inFlight m c).
Proof. by intros [H1 H2 H3 H4]; split. Qed.

End cache.

(** ** The invariant *)

Section invariant.
Context {T : Type} (zero : T).
Implicit Types x : asys (T := T).

(** What the first section does, by how it ends. *)
Definition lookup_spec now key g (c : Coordinator T) ca (o : lookup_outcome T) g' (c' : Coordinator T) ca' : Prop :=
  cache_ok c' ∧ (∀ k v, co_cache c' !! k = Some v → co_cache c !! k = Some v) ∧
  match o with
  | Lead id => id = length ca ∧ co_inFlight c !! key = None ∧ gate_active g < gate_capacity g ∧
      g' = mkGate (gate_capacity g) (add64 (gate_active g) 1) ∧
      co_inFlight c' = <[key := id]> (co_inFlight c) ∧ ca' = ca ++ [mkCall false zero None false]
  | _ => g' = g ∧ ca' = ca ∧ co_inFlight c' = co_inFlight c ∧
      match o with
      | Hit v => ∃ createdAt, co_cache c !! key = Some (v, createdAt) ∧ now - createdAt ≤ co_ttl c
      | Join id => co_inFlight c !! key = Some id
      | _ => gate_capacity g ≤ gate_active g
      end
  end.

Lemma Do_miss_spec now key g (c c1 : Coordinator T) ca o g' c' ca' :
  co_inFlight c1 = co_inFlight c → cache_ok c1 →
  (∀ k v, co_cache c1 !! k = Some v → co_cache c !! k = Some v) →
  Do_miss zero key g c1 ca = (o, g', c', ca') → lookup_spec now key g c ca o g' c' ca'.
Proof.
  intros Ei Hc1 Hsub. unfold Do_miss, Gate_TryAcquire, lookup_spec. rewrite Ei.
  destruct (co_inFlight c !! key) as [id|] eqn:Ek; [intros; simplify_eq; by split_and!|].
  destruct (gate_capacity g <=? gate_active g) eqn:Eg; simpl; intros; simplify_eq.
  - split_and!; try done. lia.
  - split_and!; try done; [by apply cache_ok_inFlight|lia].
Qed.

Lemma Do_lookup_spec now key g (c : Coordinator T) ca o g' c' ca' :
  cache_ok c → Do_lookup zero now key g c ca = (o, g', c', ca') → lookup_spec now key g c ca o g' c' ca'.
Proof.
  intros Hc H. unfold Do_lookup in H. destruct (co_cache c !! key) as [[v createdAt]|] eqn:Ek.
  - destruct (now - createdAt <=? co_ttl c) eqn:Et.
    + simplify_eq. split_and!; try done; [apply touch_ok; [by rewrite Ek|done]|]. exists createdAt. split; [done|lia].
    + eapply Do_miss_spec; [| | |exact H]; [done|by apply expire_ok|].
      intros k v'. simpl. intros [_ Hv]%lookup_delete_Some. done.
  - by eapply Do_miss_spec.
Qed.

Definition leader x (i : nat) (t : dthread) (id : nat) : Prop := a_threads x !! i = Some t ∧ leads t = Some id.

(** What a goroutine knows about the calls and the results. *)
Definition thread_ok x (t : dthread) : Prop :=
  is_Some (a_coords x !! d_co t) ∧
  match d_pc t with
  | DWait _ id =>
      ∃ call, a_calls x !! id = Some call ∧
        if fc_done call then fc_err call = None → (d_co t, d_key t, fc_val call) ∈ a_produced x
        else ∃ i u, leader x i u id ∧ d_co u = d_co t ∧ d_key u = d_key t
  | DFinish _ val None | DReturn val None => (d_co t, d_key t, val) ∈ a_produced x
  | _ => True
  end.

Record ainv x : Prop := {
  av_gate : gate_active (a_gate x) = leading (a_threads x);
  av_capacity : leading (a_threads x) ≤ gate_capacity (a_gate x) ≤ maxInt64;
  av_cache ci c : a_coords x !! ci = Some c →
    cache_ok c ∧ ∀ k v, co_cache c !! k = Some v → (ci, k, v.1) ∈ a_produced x;
  av_leader i t id : leader x i t id →
    ∃ c call, a_coords x !! d_co t = Some c ∧ co_inFlight c !! d_key t = Some id ∧
              a_calls x !! id = Some call ∧ fc_done call = false;
  av_inFlight ci c key id : a_coords x !! ci = Some c → co_inFlight c !! key = Some id →
    ∃ i t, leader x i t id ∧ d_co t = ci ∧ d_key t = key;
  av_unique i j t u id : leader x i t id → leader x j u id → i = j;
  av_threads i t : a_threads x !! i = Some t → thread_ok x t;
}.

Lemma leading_insert (ts : list (dthread (T := T))) i t t' :
  ts !! i = Some t →
  leading (<[i := t']> ts) = leading ts - (match leads t with Some _ => 1 | None => 0 end)
                             + (match leads t' with Some _ => 1 | None => 0 end).
Proof.
  revert i. induction ts as [|u ts IH]; intros [|i] Hi; simplify_eq/=; [lia|]. rewrite (IH _ Hi). lia.
Qed.

Lemma leading_nonneg (ts : list (dthread (T := T))) : 0 ≤ leading ts.
Proof. induction ts as [|u ts IH]; simpl; [lia|]. destruct (leads u); lia. Qed.

Lemma leading_pos (ts : list (dthread (T := T))) i t id : ts !! i = Some t → leads t = Some id → 1 ≤ leading ts.
Proof.
  revert i. induction ts as [|u ts IH]; intros [|i] Hi Hl; simplify_eq/=.
  - rewrite Hl. pose proof (leading_nonneg ts). lia.
  - specialize (IH _ Hi Hl). destruct (leads u); lia.
Qed.

(** A goroutine that keeps its query, and leads what it led before. *)
Lemma leader_insert x ts' i t t' j u id :
  a_threads x !! i = Some t → leads t' = leads t → ts' = <[i := t']> (a_threads x) →
  (ts' !! j = Some u ∧ leads u = Some id) →
  ∃ u0, leader x j u0 id ∧ (j = i ∧ u = t' ∧ u0 = t ∨ j ≠ i ∧ u = u0).
Proof.
  intros Hi Hl -> [Hj Hu]. destruct (decide (j = i)) as [->|Hne].
  - rewrite list_lookup_insert_eq in Hj by (by eapply lookup_lt_Some). simplify_eq. exists t.
    split; [split; [done|congruence]|by left].
  - rewrite list_lookup_insert_ne in Hj by done. exists u. split; [done|by right].
Qed.

Lemma leader_insert_back x ts' i t t' j u id :
  a_threads x !! i = Some t → leads t' = leads t → d_co t' = d_co t → d_key t' = d_key t →
  ts' = <[i := t']> (a_threads x) → leader x j u id →
  ∃ u', ts' !! j = Some u' ∧ leads u' = Some id ∧ d_co u' = d_co u ∧ d_key u' = d_key u.
Proof.
  intros Hi Hl Hc Hk -> [Hj Hu]. destruct (decide (j = i)) as [->|Hne].
  - exists t'. rewrite list_lookup_insert_eq by (by eapply lookup_lt_Some). simplify_eq.
    split_and!; [done|congruence|done|done].
  - exists u. rewrite list_lookup_insert_ne by done. done.
Qed.

(** A step of one goroutine that touches nothing shared. *)
Lemma local_inv g cs ca ts pr pr' i t t' :
  ainv (mkASys g cs ca ts pr) → ts !! i = Some t →
  leads t' = leads t → d_co t' = d_co t → d_key t' = d_key t → (∀ p, p ∈ pr → p ∈ pr') →
  thread_ok (mkASys g cs ca (<[i := t']> ts) pr') t' →
  ainv (mkASys g cs ca (<[i := t']> ts) pr').
Proof.
  intros [G1 G2 G3 G4 G5 G6 G7] Hi Hl Hc Hk Hpr Hok. simpl in *.
  pose proof (leading_insert _ _ _ t' Hi) as Hn. rewrite Hl in Hn.
  assert (Hlead : leading (<[i := t']> ts) = leading ts) by lia.
  set (x := mkASys g cs ca ts pr).
  split; simpl; rewrite ?Hlead; [done|done|..].
  - intros ci c Hci. destruct (G3 ci c Hci) as [H1 H2]. split; [done|]. intros k v Hv. by apply Hpr, H2.
  - intros j u id Hu. destruct (leader_insert x _ i t t' j u id Hi Hl eq_refl Hu) as (u0 & Hu0 & Hcase).
    destruct (G4 j u0 id Hu0) as (c & call & H1 & H2 & H3 & H4). exists c, call.
    destruct Hcase as [(_ & -> & ->)|(_ & ->)]; [by rewrite Hc, Hk|done].
  - intros ci c key id Hci Hkey. destruct (G5 ci c key id Hci Hkey) as (j & u & Hu & H1 & H2).
    destruct (leader_insert_back x _ i t t' j u id Hi Hl Hc Hk eq_refl Hu) as (u' & H3 & H4 & H5 & H6).
    exists j, u'. split; [by split|]. split; congruence.
  - intros j k u w id Hu Hw.
    destruct (leader_insert x _ i t t' j u id Hi Hl eq_refl Hu) as (u0 & Hu0 & _).
    destruct (leader_insert x _ i t t' k w id Hi Hl eq_refl Hw) as (w0 & Hw0 & _).
    by eapply G6.
  - intros j u Hj. destruct (decide (j = i)) as [->|Hne].
    { rewrite list_lookup_insert_eq in Hj by (by eapply lookup_lt_Some). by simplify_eq. }
    rewrite list_lookup_insert_ne in Hj by done. destruct (G7 j u Hj) as [Hco Hpc]. split; [done|]. simpl in *.
    destruct (d_pc u) as [n|n|n id|id|id val [err|]|val [err|]]; try done; try (by apply Hpr).
    destruct Hpc as (call & H1 & H2). exists call. split; [done|]. destruct (fc_done call); [intros He; by apply Hpr, H2|].
    destruct H2 as (k & w & Hw & H3 & H4).
    destruct (leader_insert_back x _ i t t' k w id Hi Hl Hc Hk eq_refl Hw) as (w' & H5 & H6 & H7 & H8).
    exists k, w'. split; [by split|]. split; congruence.
Qed.

(** A coordinator's cache changes under its lock. *)
Lemma coords_inv g cs ca ts pr ci c c' :
  ainv (mkASys g cs ca ts pr) → cs !! ci = Some c → co_inFlight c' = co_inFlight c → cache_ok c' →
  (∀ k v, co_cache c' !! k = Some v → (ci, k, v.1) ∈ pr) →
  ainv (mkASys g (<[ci := c']> cs) ca ts pr).
Proof.
  intros [G1 G2 G3 G4 G5 G6 G7] Hci Hin Hok Hval. simpl in *.
  assert (Hlook : ∀ cj d', <[ci := c']> cs !! cj = Some d' →
    ∃ d, cs !! cj = Some d ∧ co_inFlight d' = co_inFlight d ∧ (cj = ci ∧ d' = c' ∨ cj ≠ ci ∧ d' = d)).
  { intros cj d' Hd. destruct (decide (cj = ci)) as [->|Hne].
    - rewrite list_lookup_insert_eq in Hd by (by eapply lookup_lt_Some). simplify_eq. exists c. naive_solver.
    - rewrite list_lookup_insert_ne in Hd by done. exists d'. naive_solver. }
  assert (Hlook' : ∀ cj d, cs !! cj = Some d → ∃ d', <[ci := c']> cs !! cj = Some d' ∧ co_inFlight d' = co_inFlight d).
  { intros cj d Hd. destruct (decide (cj = ci)) as [->|Hne].
    - rewrite list_lookup_insert_eq by (by eapply lookup_lt_Some). simplify_eq. eauto.
    - rewrite list_lookup_insert_ne by done. eauto. }
  split; simpl; [done|done|..].
  - intros cj d' Hd. destruct (Hlook cj d' Hd) as (d & Hd0 & _ & [(-> & ->)|(_ & ->)]); [done|by apply G3].
  - intros j u id Hu. destruct (G4 j u id Hu) as (d & call & H1 & H2 & H3).
    destruct (Hlook' _ _ H1) as (d' & Hd' & Ed). exists d', call. by rewrite Ed.
  - intros cj d' key id Hd Hkey. destruct (Hlook cj d' Hd) as (d & Hd0 & Ed & _). rewrite Ed in Hkey. by eapply G5.
  - intros j k u w id. apply G6.
  - intros j u Hj. destruct (G7 j u Hj) as [[d Hd] Hpc]. split; [|done].
    destruct (Hlook' _ _ Hd) as (d' & Hd' & _). by exists d'.
Qed.

(** A goroutine becomes the leader of a new call. *)
Lemma lead_inv g cs ca ts pr i t n c c' :
  ainv (mkASys g cs ca ts pr) → ts !! i = Some t → d_pc t = DLock n → cs !! d_co t = Some c →
  cache_ok c' → (∀ k v, co_cache c' !! k = Some v → co_cache c !! k = Some v) →
  co_inFlight c !! d_key t = None → gate_active g < gate_capacity g →
  co_inFlight c' = <[d_key t := length ca]> (co_inFlight c) →
  ainv (mkASys (mkGate (gate_capacity g) (add64 (gate_active g) 1)) (<[d_co t := c']> cs)
          (ca ++ [mkCall false zero None false]) (<[i := goto (DLead (length ca)) t]> ts) pr).
Proof.
  intros [G1 G2 G3 G4 G5 G6 G7] Hi Hpc Hci Hok Hsub Hnone Hcap Hin. simpl in *.
  pose proof (leading_insert _ _ _ (goto (DLead (length ca)) t) Hi) as Hn.
  unfold leads at 1 2 in Hn. rewrite Hpc in Hn. simpl in Hn.
  assert (Hlt : (i < length ts)%nat) by (by eapply lookup_lt_Some).
  assert (Hfresh : ∀ j u id, ts !! j = Some u ∧ leads u = Some id → (id < length ca)%nat).
  { intros j u id Hu. destruct (G4 j u id Hu) as (? & ? & _ & _ & Hca & _). by eapply lookup_lt_Some. }
  assert (Hnl : leads t = None) by (unfold leads; by rewrite Hpc).
  assert (Hcases : ∀ j u id, <[i := goto (DLead (length ca)) t]> ts !! j = Some u ∧ leads u = Some id →
    j = i ∧ u = goto (DLead (length ca)) t ∧ id = length ca ∨ j ≠ i ∧ ts !! j = Some u ∧ leads u = Some id).
  { intros j u id [Hj Hu]. destruct (decide (j = i)) as [->|Hne].
    - rewrite list_lookup_insert_eq in Hj by done. simplify_eq. left. unfold leads in Hu. simpl in Hu. by simplify_eq.
    - rewrite list_lookup_insert_ne in Hj by done. by right. }
  assert (Hold : ∀ j u id, ts !! j = Some u ∧ leads u = Some id →
    <[i := goto (DLead (length ca)) t]> ts !! j = Some u ∧ leads u = Some id).
  { intros j u id [Hj Hu]. rewrite list_lookup_insert_ne; [done|]. intros ->. congruence. }
  split; simpl.
  - rewrite Hn. unfold add64. rewrite wrap64_id; [lia|]. pose proof (leading_nonneg ts). lia64.
  - lia.
  - intros cj d Hd. destruct (decide (cj = d_co t)) as [->|Hne].
    + rewrite list_lookup_insert_eq in Hd by (by eapply lookup_lt_Some). simplify_eq. split; [done|].
      intros k v Hv%Hsub. by apply (G3 _ c Hci).
    + rewrite list_lookup_insert_ne in Hd by done. by apply G3.
  - intros j u id [(-> & -> & ->)|(Hne & Hu)]%Hcases.
    + exists c', (mkCall false zero None false). simpl. rewrite list_lookup_insert_eq by (by eapply lookup_lt_Some).
      rewrite Hin, lookup_insert_eq, lookup_app_r, Nat.sub_diag by lia. done.
    + destruct (G4 j u id Hu) as (d & call & H1 & H2 & H3 & H4).
      destruct (decide (d_co u = d_co t)) as [Heq|Hneq].
      * rewrite Heq in *. simplify_eq. exists c', call. rewrite list_lookup_insert_eq by (by eapply lookup_lt_Some).
        split; [done|]. rewrite Hin, lookup_insert_ne by congruence.
        rewrite lookup_app_l by (by eapply lookup_lt_Some). done.
      * exists d, call. rewrite list_lookup_insert_ne by done. rewrite lookup_app_l by (by eapply lookup_lt_Some). done.
  - intros cj d key id Hd Hkey. destruct (decide (cj = d_co t)) as [->|Hne].
    + rewrite list_lookup_insert_eq in Hd by (by eapply lookup_lt_Some). simplify_eq. rewrite Hin in Hkey.
      apply lookup_insert_Some in Hkey as [[<- <-]|[Hk Hkey]].
      * exists i, (goto (DLead (length ca)) t). split; [|done]. split; [by apply list_lookup_insert_eq|done].
      * destruct (G5 _ _ _ _ Hci Hkey) as (j & u & Hu & H1 & H2). exists j, u. split; [by apply Hold|done].
    + rewrite list_lookup_insert_ne in Hd by done. destruct (G5 _ _ _ _ Hd Hkey) as (j & u & Hu & H1 & H2).
      exists j, u. split; [by apply Hold|done].
  - intros j k u w id [(-> & -> & ->)|(Hne & Hu)]%Hcases [(-> & -> & Hid)|(Hne' & Hw)]%Hcases.
    + done.
    + apply Hfresh in Hw. lia.
    + apply Hfresh in Hu. lia.
    + by eapply G6.
  - intros j u Hj. destruct (decide (j = i)) as [->|Hne].
    + rewrite list_lookup_insert_eq in Hj by done. simplify_eq. split; [|done]. simpl.
      rewrite list_lookup_insert_eq by (by eapply lookup_lt_Some). by eexists.
    + rewrite list_lookup_insert_ne in Hj by done. destruct (G7 j u Hj) as [Hco Hp]. simpl in *. split; simpl.
      { apply lookup_lt_is_Some. rewrite length_insert. by apply lookup_lt_is_Some. }
      destruct (d_pc u) as [m|m|m id|id|id val [err|]|val [err|]]; try done.
      destruct Hp as (call & H1 & H2). exists call. rewrite lookup_app_l by (by eapply lookup_lt_Some). split; [done|].
      destruct (fc_done call); [done|]. destruct H2 as (k & w & Hw & H3). exists k, w. split; [by apply Hold|done].
Qed.

Lemma Do_finish_spec now key id val err canceled1 canceled2 g (c : Coordinator T) ca g' c' ca' :
  cache_ok c → Do_finish now key id val err canceled1 canceled2 g c ca = (g', c', ca') →
  cache_ok c' ∧ co_inFlight c' = delete key (co_inFlight c) ∧ g' = Gate_Release g ∧
  ca' = <[id := mkCall true val err canceled2]> ca ∧
  (∀ k v, co_cache c' !! k = Some v → err = None ∧ k = key ∧ v.1 = val ∨ co_cache c !! k = Some v).
Proof.
  intros Hc. unfold Do_finish. set (m := delete key (co_inFlight c)).
  destruct (setCache_ok now key val _ (cache_ok_inFlight m c Hc)) as (S1 & S2 & S3).
  destruct (bool_decide (err = None) && negb canceled1) eqn:E; intros; simplify_eq.
  - apply andb_true_iff in E as [E _]. apply bool_decide_eq_true in E as ->.
    split_and!; [done..|]. intros k v [[-> ->]|Hv]%S2; [by left|by right].
  - split_and!; [by apply cache_ok_inFlight|done..|]. intros k v Hv. by right.
Qed.

(** The leader publishes its result and gives the slot back. *)
Lemma finish_inv g cs ca ts pr i t id val err canceled2 c c' ca' :
  ainv (mkASys g cs ca ts pr) → ts !! i = Some t → d_pc t = DFinish id val err → cs !! d_co t = Some c →
  cache_ok c' → co_inFlight c' = delete (d_key t) (co_inFlight c) →
  ca' = <[id := mkCall true val err canceled2]> ca →
  (∀ k v, co_cache c' !! k = Some v → err = None ∧ k = d_key t ∧ v.1 = val ∨ co_cache c !! k = Some v) →
  ainv (mkASys (Gate_Release g) (<[d_co t := c']> cs) ca'
          (<[i := mkThread (d_co t) (d_key t) canceled2 (DReturn val err)]> ts) pr).
Proof.
  intros [G1 G2 G3 G4 G5 G6 G7] Hi Hpc Hci Hok Hin -> Hval. simpl in *.
  set (t' := mkThread _ _ _ _). assert (Hlt : (i < length ts)%nat) by (by eapply lookup_lt_Some).
  assert (Hld : leads t = Some id) by (unfold leads; by rewrite Hpc).
  pose proof (leading_insert _ _ _ t' Hi) as Hn. rewrite Hld in Hn. simpl in Hn.
  pose proof (leading_pos _ _ _ _ Hi Hld) as Hpos.
  destruct (G4 i t id (conj Hi Hld)) as (c0 & call0 & Hc0 & Hfl & Hcall & Hund). simplify_eq.
  assert (Hid : (id < length ca)%nat) by (by eapply lookup_lt_Some).
  assert (Hres : err = None → (d_co t, d_key t, val) ∈ pr).
  { intros ->. destruct (G7 i t Hi) as [_ Hp]. rewrite Hpc in Hp. done. }
  assert (Hcases : ∀ j u id', <[i := t']> ts !! j = Some u ∧ leads u = Some id' → j ≠ i ∧ id' ≠ id ∧ ts !! j = Some u ∧ leads u = Some id').
  { intros j u id' [Hj Hu]. destruct (decide (j = i)) as [->|Hne].
    - rewrite list_lookup_insert_eq in Hj by done. by simplify_eq.
    - rewrite list_lookup_insert_ne in Hj by done. split_and!; try done. intros ->. by apply Hne, (G6 j i u t id). }
  assert (Hold : ∀ j u id', ts !! j = Some u ∧ leads u = Some id' → id' ≠ id →
    <[i := t']> ts !! j = Some u ∧ leads u = Some id').
  { intros j u id' [Hj Hu] Hne. rewrite list_lookup_insert_ne; [done|]. intros ->. congruence. }
  split; simpl.
  - rewrite Hn. unfold Gate_Release. rewrite (proj2 (Z.ltb_lt _ _)) by lia. simpl. rewrite sub64_id by lia64. lia.
  - unfold Gate_Release. destruct (0 <? gate_active g); simpl; lia.
  - intros cj d Hd. destruct (decide (cj = d_co t)) as [->|Hne].
    + rewrite list_lookup_insert_eq in Hd by (by eapply lookup_lt_Some). simplify_eq. split; [done|].
      intros k v [(-> & -> & ->)|Hv]%Hval; [by apply Hres|by apply (G3 _ c Hci)].
    + rewrite list_lookup_insert_ne in Hd by done. by apply G3.
  - intros j u id' (Hj & Hne & Hu)%Hcases. destruct (G4 j u id' Hu) as (d & call & H1 & H2 & H3 & H4).
    destruct (decide (d_co u = d_co t)) as [Heq|Hneq].
    + rewrite Heq in *. simplify_eq. exists c', call. rewrite list_lookup_insert_eq by (by eapply lookup_lt_Some).
      rewrite (list_lookup_insert_ne ca) by done. rewrite Hin, lookup_delete_ne by congruence. done.
    + exists d, call. rewrite (list_lookup_insert_ne ca), list_lookup_insert_ne by done. done.
  - intros cj d key id' Hd Hkey.
    assert (Hk0 : ∃ d0, cs !! cj = Some d0 ∧ co_inFlight d0 !! key = Some id' ∧ (cj = d_co t → key ≠ d_key t)).
    { destruct (decide (cj = d_co t)) as [->|Hne].
      - rewrite list_lookup_insert_eq in Hd by (by eapply lookup_lt_Some). simplify_eq. rewrite Hin in Hkey.
        apply lookup_delete_Some in Hkey as [Hk Hkey]. exists c. naive_solver.
      - rewrite list_lookup_insert_ne in Hd by done. exists d. naive_solver. }
    destruct Hk0 as (d0 & Hd0 & Hk0 & Hne). destruct (G5 _ _ _ _ Hd0 Hk0) as (j & u & Hu & H1 & H2).
    exists j, u. split; [|done]. apply Hold; [done|]. intros ->.
    assert (j = i) by (by eapply (G6 j i u t id)). subst j. destruct Hu as [Hu _]. simpl in Hu. simplify_eq. exact (Hne eq_refl eq_refl).
  - intros j k u w id' (_ & _ & Hu)%Hcases (_ & _ & Hw)%Hcases. by eapply G6.
  - intros j u Hj. destruct (decide (j = i)) as [->|Hne].
    + rewrite list_lookup_insert_eq in Hj by done. simplify_eq. split; simpl; [|destruct err; [done|by apply Hres]].
      rewrite list_lookup_insert_eq by (by eapply lookup_lt_Some). by eexists.
    + rewrite list_lookup_insert_ne in Hj by done. destruct (G7 j u Hj) as [Hco Hp]. simpl in *. split; simpl.
      { apply lookup_lt_is_Some. rewrite length_insert. by apply lookup_lt_is_Some. }
      destruct (d_pc u) as [m|m|m id'|id'|id' val' [e|]|val' [e|]]; try done.
      destruct Hp as (call & H1 & H2). destruct (decide (id' = id)) as [->|Hid'].
      * exists (mkCall true val err canceled2). rewrite list_lookup_insert_eq by done. split; [done|]. simpl. simplify_eq.
        intros ->. rewrite Hund in H2.
        destruct H2 as (k & w & Hw & <- & <-). assert (k = i) by (by eapply (G6 k i w t id)). subst k.
        destruct Hw as [Hw _]. simpl in Hw. simplify_eq. by apply Hres.
      * exists call. rewrite list_lookup_insert_ne by done. split; [done|]. destruct (fc_done call); [done|].
        destruct H2 as (k & w & Hw & H3). exists k, w. split; [by apply Hold|done].
Qed.

(** The outcomes that do not make the caller a leader. *)
Lemma lookup_inv g cs ca ts pr i t n c now o g' c' ca' :
  ainv (mkASys g cs ca ts pr) → ts !! i = Some t → d_pc t = DLock n → cs !! d_co t = Some c →
  Do_lookup zero now (d_key t) g c ca = (o, g', c', ca') →
  ainv (mkASys g' (<[d_co t := c']> cs) ca' (<[i := goto (lookup_next zero n o) t]> ts) pr).
Proof.
  intros Hx Hi Hpc Hci Hl. destruct (av_cache _ Hx _ _ Hci) as [Hok Hval]. simpl in Hval.
  apply Do_lookup_spec in Hl as (H1 & H2 & H3); [|done].
  destruct o as [v|id| |id]; simpl.
  4: { destruct H3 as (-> & H4 & H5 & -> & H6 & ->). by eapply lead_inv. }
  all: destruct H3 as (-> & -> & Hfl & Ho).
  all: assert (Hc' : ∀ k v, co_cache c' !! k = Some v → (d_co t, k, v.1) ∈ pr) by (intros k v' Hv; by apply Hval, H2).
  all: assert (Hx' : ainv (mkASys g (<[d_co t := c']> cs) ca ts pr)) by (by eapply coords_inv).
  all: assert (Hco : is_Some (<[d_co t := c']> cs !! d_co t))
    by (rewrite list_lookup_insert_eq by (by eapply lookup_lt_Some); eauto).
  all: apply (local_inv _ _ _ _ pr pr i t); try done; try (unfold leads; by rewrite Hpc); (split; [done|]); simpl; try done.
  - destruct Ho as (createdAt & Hv & _). by apply (Hval _ (v, createdAt)).
  - destruct (av_inFlight _ Hx _ _ _ _ Hci Ho) as (j & u & Hu & E1 & E2).
    destruct (av_leader _ Hx _ _ _ Hu) as (d & call & _ & _ & E3 & E4). simpl in E3.
    exists call. split; [done|]. rewrite E4. exists j, u. split; [|done].
    destruct Hu as [Hj Hu]. split; [|done]. simpl in *. rewrite list_lookup_insert_ne; [done|].
    intros ->. simplify_eq. unfold leads in Hu. by rewrite Hpc in Hu.
Qed.

Lemma call_inv g cs ca ts pr ci key :
  ainv (mkASys g cs ca ts pr) → is_Some (cs !! ci) →
  ainv (mkASys g cs ca (ts ++ [mkThread ci key false (DAttempt 0)]) pr).
Proof.
  intros [G1 G2 G3 G4 G5 G6 G7] Hci. simpl in *.
  assert (Hn : leading (ts ++ [mkThread ci key false (DAttempt 0)]) = leading ts).
  { clear. induction ts as [|u ts IH]; [done|]. simpl. by rewrite IH. }
  assert (Hold : ∀ j u id, (ts ++ [mkThread ci key false (DAttempt 0)]) !! j = Some u ∧ leads u = Some id →
    ts !! j = Some u ∧ leads u = Some id).
  { intros j u id [Hj Hu]. apply lookup_app_Some in Hj as [Hj|[_ Hj]]; [done|].
    apply list_lookup_singleton_Some in Hj as [_ <-]. done. }
  assert (Hnew : ∀ j u, ts !! j = Some u → (ts ++ [mkThread ci key false (DAttempt 0)]) !! j = Some u)
    by (intros j u Hj; by apply lookup_app_l_Some).
  split; simpl; rewrite ?Hn; try done.
  - intros j u id Hu%Hold. by eapply G4.
  - intros cj d k id Hd Hk. destruct (G5 _ _ _ _ Hd Hk) as (j & u & [Hj Hu] & H1). exists j, u.
    split; [split; [by apply Hnew|done]|done].
  - intros j k u w id Hu%Hold Hw%Hold. by eapply G6.
  - intros j u Hj. apply lookup_app_Some in Hj as [Hj|[_ Hj]].
    + destruct (G7 j u Hj) as [Hco Hp]. split; [done|]. simpl in *.
      destruct (d_pc u) as [m|m|m id'|id'|id' val' [e|]|val' [e|]]; try done.
      destruct Hp as (call & H1 & H2). exists call. split; [done|]. destruct (fc_done call); [done|].
      destruct H2 as (k & w & [Hw1 Hw2] & H3). exists k, w. split; [split; [by apply Hnew|done]|done].
    + apply list_lookup_singleton_Some in Hj as [_ <-]. by split.
Qed.

Lemma do_step_inv x y : ainv x → do_step zero x y → ainv y.
Proof.
  intros Hx Hstep. destruct Hstep as [g cs ca ts pr ci key Hci|g cs ca ts pr i t Hi|g cs ca ts pr i t n Hi Hpc
    |g cs ca ts pr i t n c now o g' c' ca' Hi Hpc Hci Hl|g cs ca ts pr i t n id call Hi Hpc Hca Hd
    |g cs ca ts pr i t n id Hi Hpc Hc|g cs ca ts pr i t id val err Hi Hpc
    |g cs ca ts pr i t id val err c now k1 k2 g' c' ca' Hi Hpc Hci H1 H2 Hf].
  - by apply call_inv.
  - destruct (av_threads _ Hx i t Hi) as [Hco Hp]. apply (local_inv _ _ _ _ pr pr i t); try done. split; [done|].
    simpl in *. destruct (d_pc t) as [m|m|m id'|id'|id' val' [e|]|val' [e|]] eqn:Hpc; try done.
    destruct Hp as (call & H1 & H2). exists call. split; [done|]. destruct (fc_done call); [done|].
    destruct H2 as (k & w & Hw & H3 & H4). exists k, w. split; [|done]. destruct Hw as [Hw1 Hw2]. split; [|done]. simpl in *.
    rewrite list_lookup_insert_ne; [done|]. intros ->. simplify_eq. unfold leads in Hw2. by rewrite Hpc in Hw2.
  - destruct (av_threads _ Hx i t Hi) as [Hco _].
    apply (local_inv _ _ _ _ pr pr i t); try done; unfold attempt_next.
    + unfold leads. rewrite Hpc. simpl. by repeat case_match.
    + split; [done|]. simpl. by repeat case_match; simplify_eq.
  - by eapply lookup_inv.
  - destruct (av_threads _ Hx i t Hi) as [Hco Hp]. rewrite Hpc in Hp. simpl in Hp.
    destruct Hp as (call' & Hca' & Hp). simplify_eq. rewrite Hd in Hp.
    apply (local_inv _ _ _ _ pr pr i t); try done; unfold wait_next.
    + unfold leads. rewrite Hpc. simpl. by destruct (_ && negb (d_canceled t)).
    + split; [done|]. simpl. destruct (_ && negb (d_canceled t)); [done|]. by destruct (fc_err call); [|apply Hp].
  - destruct (av_threads _ Hx i t Hi) as [Hco _]. apply (local_inv _ _ _ _ pr pr i t); try done.
    unfold leads. by rewrite Hpc.
  - destruct (av_threads _ Hx i t Hi) as [Hco _]. apply (local_inv _ _ _ _ pr _ i t); try done.
    + unfold leads. by rewrite Hpc.
    + intros p Hp. case_bool_decide; [by right|done].
    + split; [done|]. simpl. destruct err; [done|]. rewrite bool_decide_true by done. left.
  - destruct (av_cache _ Hx _ _ Hci) as [Hok _].
    apply Do_finish_spec in Hf as (F1 & F2 & -> & F4 & F5); [|done]. by eapply finish_inv.
Qed.

(** Fresh coordinators behind a fresh gate. *)
Definition fresh (g : Gate) (cs : list (Coordinator T)) : Prop :=
  gate_active g = 0 ∧ 0 ≤ gate_capacity g ≤ maxInt64 ∧
  Forall (λ c, 0 < co_maxCache c ∧ co_cache c = ∅ ∧ co_cacheOrder c = [] ∧ co_inFlight c = ∅) cs.

Lemma areachable_inv g cs x : fresh g cs → areachable zero g cs x → ainv x.
Proof.
  intros (Hg & Hcap & Hcs). induction 1 as [|x y _ IH Hstep]; [|by eapply do_step_inv].
  unfold analytics_start. rewrite Forall_lookup in Hcs. split; simpl; [done|lia|..].
  - intros ci c (H1 & H2 & H3 & H4)%Hcs. split; [|intros k v; rewrite H2, lookup_empty; done].
    split; rewrite ?H3, ?H2; simpl; [done|constructor| |lia]. intros k. rewrite lookup_empty, elem_of_nil.
    split; [done|by intros []].
  - intros i t id [Hi _]. simpl in Hi; by rewrite lookup_nil in Hi.
  - intros ci c key id (H1 & H2 & H3 & H4)%Hcs. by rewrite H4, lookup_empty.
  - intros i j t u id [Hi _]. simpl in Hi; by rewrite lookup_nil in Hi.
  - intros i t Hi. simpl in Hi; by rewrite lookup_nil in Hi.
Qed.

End invariant.

(** ** The properties *)

(** The gate counts exactly the running queries.  Whatever coordinators share
    it and however the calls of [Do], their retries and the cancellations
    interleave, the active count is the number of goroutines between taking a slot
    and giving it back, so at most [capacity] queries run at a time and the gate is
    empty when none does. *)
Theorem analytics_gate_exact {T} (zero : T) g cs x :
  fresh g cs → areachable zero g cs x →
  gate_active (a_gate x) = leading (a_threads x) ∧ leading (a_threads x) ≤ gate_capacity (a_gate x).
Proof. intros Hf Hr. destruct (areachable_inv zero g cs x Hf Hr) as [G1 G2 _ _ _ _ _]. split; [done|lia]. Qed.

(** C19: Identical queries run once.  Two goroutines that run the same query of the
    same coordinator are the same goroutine; the coordinator's table of calls in
    flight lists exactly the queries that goroutines run; and a goroutine that
    waits is woken or is going to be: its call is finished, or the goroutine that
    runs the same query is still there to finish it. *)
Theorem analytics_single_flight {T} (zero : T) g cs x :
  fresh g cs → areachable zero g cs x →
  (∀ i j t u n m, leader x i t n → leader x j u m → d_co t = d_co u → d_key t = d_key u → i = j) ∧
  (∀ ci c key id, a_coords x !! ci = Some c →
     co_inFlight c !! key = Some id ↔ ∃ i t, leader x i t id ∧ d_co t = ci ∧ d_key t = key) ∧
  (∀ i t n id, a_threads x !! i = Some t → d_pc t = DWait n id →
     ∃ call, a_calls x !! id = Some call ∧
       (fc_done call = true ∨ ∃ j u, leader x j u id ∧ d_co u = d_co t ∧ d_key u = d_key t)).
Proof.
  intros Hf Hr. pose proof (areachable_inv zero g cs x Hf Hr) as Hx. split_and!.
  - intros i j t u n m Ht Hu Hc Hk. destruct (av_leader _ Hx _ _ _ Ht) as (c & _ & H1 & H2 & _).
    destruct (av_leader _ Hx _ _ _ Hu) as (d & _ & H3 & H4 & _). rewrite <-Hc in H3. rewrite <-Hk in H4. simplify_eq.
    by eapply av_unique.
  - intros ci c key id Hci. split; [by apply (av_inFlight _ Hx)|]. intros (i & t & Ht & <- & <-).
    destruct (av_leader _ Hx _ _ _ Ht) as (d & _ & H1 & H2 & _). by simplify_eq.
  - intros i t n id Hi Hpc. destruct (av_threads _ Hx i t Hi) as [_ Hp]. rewrite Hpc in Hp.
    destruct Hp as (call & H1 & H2). exists call. split; [done|]. destruct (fc_done call); [by left|by right].
Qed.

(** A successful [Do] returns a value that a run of the same query of the same
    coordinator produced, from its own run, from the call it joined or from the
    cache; and the caches stay bounded, with the eviction order listing exactly
    the cached keys, each once. *)
Theorem analytics_results {T} (zero : T) g cs x :
  fresh g cs → areachable zero g cs x →
  (∀ i t val, a_threads x !! i = Some t → d_pc t = DReturn val None → (d_co t, d_key t, val) ∈ a_produced x) ∧
  (∀ ci c, a_coords x !! ci = Some c →
     NoDup (co_cacheOrder c) ∧ (∀ k, (k ∈ co_cacheOrder c) ↔ is_Some (co_cache c !! k)) ∧
     Coordinator_CacheLen c ≤ co_maxCache c).
Proof.
  intros Hf Hr. pose proof (areachable_inv zero g cs x Hf Hr) as Hx. split.
  - intros i t val Hi Hpc. destruct (av_threads _ Hx i t Hi) as [_ Hp]. by rewrite Hpc in Hp.
  - intros ci c Hc. destruct (av_cache _ Hx _ _ Hc) as [[H1 H2 H3 H4] _]. split_and!; [done..|].
    unfold Coordinator_CacheLen. rewrite <-size_dom.
    assert (Hd : dom (co_cache c) = list_to_set (co_cacheOrder c)).
    { apply set_eq. intros k. rewrite elem_of_dom, elem_of_list_to_set. symmetry. apply H3. }
    rewrite Hd, size_list_to_set by done. done.
Qed.

(** ** Runs *)

Section runs.
Context {T : Type} (zero : T).

(** A move of the goroutine [i]; [now], the result of the query and the context
    readings are what the environment decides. *)
Inductive do_action :=
| XCall (ci : nat) (key : string)
| XCancel (i : nat)
| XRun (i : nat) (now : Z) (res : T * option do_error).

Definition do_exec (act : do_action) (x : asys (T := T)) : option (asys (T := T)) :=
  let '(mkASys g cs ca ts pr) := x in
  match act with
  | XCall ci key =>
      match cs !! ci with
      | Some _ => Some (mkASys g cs ca (ts ++ [mkThread ci key false (DAttempt 0)]) pr)
      | None => None
      end
  | XCancel i => match ts !! i with Some t => Some (mkASys g cs ca (<[i := canceled t]> ts) pr) | None => None end
  | XRun i now (val, err) =>
      match ts !! i with
      | None => None
      | Some t =>
          match d_pc t with
          | DAttempt n => Some (mkASys g cs ca (<[i := goto (attempt_next zero n (d_canceled t)) t]> ts) pr)
          | DLock n =>
              match cs !! d_co t with
              | None => None
              | Some c =>
                  let '(o, g', c', ca') := Do_lookup zero now (d_key t) g c ca in
                  Some (mkASys g' (<[d_co t := c']> cs) ca' (<[i := goto (lookup_next zero n o) t]> ts) pr)
              end
          | DWait n id =>
              match ca !! id with
              | Some call =>
                  if fc_done call then Some (mkASys g cs ca (<[i := goto (wait_next n call (d_canceled t)) t]> ts) pr)
                  else None
              | None => None
              end
          | DLead id =>
              Some (mkASys g cs ca (<[i := goto (DFinish id val err) t]> ts)
                      (if bool_decide (err = None) then (d_co t, d_key t, val) :: pr else pr))
          | DFinish id val err =>
              match cs !! d_co t with
              | None => None
              | Some c =>
                  let '(g', c', ca') := Do_finish now (d_key t) id val err (d_canceled t) (d_canceled t) g c ca in
                  Some (mkASys g' (<[d_co t := c']> cs) ca'
                          (<[i := mkThread (d_co t) (d_key t) (d_canceled t) (DReturn val err)]> ts) pr)
              end
          | DReturn _ _ => None
          end
      end
  end.

Fixpoint do_execs (acts : list do_action) (x : asys (T := T)) : option (asys (T := T)) :=
  match acts with
  | [] => Some x
  | act :: acts => match do_exec act x with Some y => do_execs acts y | None => None end
  end.

Lemma do_exec_step act x y : do_exec act x = Some y → do_step zero x y.
Proof.
  destruct x as [g cs ca ts pr], act as [ci key|i|i now [val err]]; cbn [do_exec]; intros E.
  - destruct (cs !! ci) eqn:Hc; [|done]. injection E as <-. by constructor.
  - destruct (ts !! i) eqn:Hi; [|done]. injection E as <-. by constructor.
  - destruct (ts !! i) as [t|] eqn:Hi; [|done]. destruct (d_pc t) eqn:Hpc.
    + injection E as <-. by constructor.
    + destruct (cs !! d_co t) as [c|] eqn:Hc; [|done].
      destruct (Do_lookup _ _ _ _ _ _) as [[[o g'] c'] ca'] eqn:Hl. injection E as <-. by econstructor.
    + destruct (ca !! id) as [call|] eqn:Hc; [|done]. destruct (fc_done call) eqn:Hd; [|done].
      injection E as <-. by econstructor.
    + injection E as <-. by constructor.
    + destruct (cs !! d_co t) as [c|] eqn:Hc; [|done].
      destruct (Do_finish _ _ _ _ _ _ _ _ _ _) as [[g' c'] ca'] eqn:Hl. injection E as <-. eapply do_finish; [done|done|done| | |done]; done.
    + done.
Qed.

Lemma do_execs_reachable g cs acts x y : areachable zero g cs x → do_execs acts x = Some y → areachable zero g cs y.
Proof.
  revert x. induction acts as [|act acts IH]; intros x Hx E; simpl in E; [by simplify_eq|].
  destruct (do_exec act x) as [z|] eqn:Ez; [|done]. eapply IH; [|done]. eapply areach_step; [done|]. by eapply do_exec_step.
Qed.

End runs.

(** Two identical queries, the second joining the first, a third from the cache. *)
Definition demo_gate : Gate := NewGate 1.
Definition demo_coords : list (Coordinator Z) := [NewCoordinatorWithGate 0 0; NewCoordinatorWithGate 8 1000].

Definition demo_join : list (do_action (T := Z)) :=
  [XCall 0 "q"; XCall 0 "q"; XRun 0 5 (0, None); XRun 0 5 (0, None); XRun 1 6 (0, None); XRun 1 6 (0, None)].
Definition demo_answer : list (do_action (T := Z)) :=
  [XRun 0 7 (42, None); XRun 0 8 (0, None); XRun 1 9 (0, None); XCall 0 "q"; XRun 2 10 (0, None); XRun 2 10 (0, None)].

Definition demo_asys (acts : list (do_action (T := Z))) : asys (T := Z) :=
  default (analytics_start demo_gate demo_coords) (do_execs 0 acts (analytics_start demo_gate demo_coords)).

Lemma demo_asys_reachable acts :
  is_Some (do_execs 0 acts (analytics_start demo_gate demo_coords)) → areachable 0 demo_gate demo_coords (demo_asys acts).
Proof.
  intros [x E]. unfold demo_asys. rewrite E. simpl.
  apply (do_execs_reachable 0 demo_gate demo_coords acts (analytics_start demo_gate demo_coords)); [constructor|done].
Qed.

Lemma demo_fresh : fresh demo_gate demo_coords.
Proof. unfold fresh, demo_gate, demo_coords. simpl. split_and!; try lia64. repeat constructor. Qed.

Lemma analytics_gate_exact_witness :
  leading (a_threads (demo_asys demo_join)) = 1 ∧
  gate_active (a_gate (demo_asys demo_join)) = leading (a_threads (demo_asys demo_join)) ∧
  leading (a_threads (demo_asys demo_join)) ≤ gate_capacity (a_gate (demo_asys demo_join)).
Proof.
  split; [vm_compute; reflexivity|].
  apply (analytics_gate_exact 0 demo_gate demo_coords); [apply demo_fresh|].
  apply demo_asys_reachable. vm_compute. eauto.
Defined.

Lemma analytics_single_flight_witness :
  (∃ t, a_threads (demo_asys demo_join) !! 1%nat = Some t ∧ d_pc t = DWait 0 0) ∧
  (∃ c key, a_coords (demo_asys demo_join) !! 0%nat = Some c ∧ co_inFlight c !! key = Some 0%nat ∧
     ∃ i t, leader (demo_asys demo_join) i t 0 ∧ d_co t = 0%nat ∧ d_key t = key) ∧
  (∀ i j t u n m, leader (demo_asys demo_join) i t n → leader (demo_asys demo_join) j u m →
     d_co t = d_co u → d_key t = d_key u → i = j).
Proof.
  assert (Hr : areachable 0 demo_gate demo_coords (demo_asys demo_join)) by (apply demo_asys_reachable; vm_compute; eauto).
  destruct (analytics_single_flight 0 demo_gate demo_coords _ demo_fresh Hr) as (H1 & H2 & _).
  split; [eexists; split; vm_compute; reflexivity|]. split; [|exact H1].
  destruct (a_coords (demo_asys demo_join) !! 0%nat) as [c|] eqn:Ec; [|vm_compute in Ec; discriminate].
  destruct (a_threads (demo_asys demo_join) !! 0%nat) as [t|] eqn:Et; [|vm_compute in Et; discriminate].
  assert (Ek : co_inFlight c !! d_key t = Some 0%nat)
    by (vm_compute in Ec, Et; injection Ec as <-; injection Et as <-; vm_compute; reflexivity).
  exists c, (d_key t). split; [reflexivity|]. split; [exact Ek|]. by apply (H2 0%nat c).
Defined.

Lemma analytics_results_witness :
  (map d_pc (a_threads (demo_asys (demo_join ++ demo_answer))) = [DReturn 42 None; DReturn 42 None; DReturn 42 None]) ∧
  (∀ i t val, a_threads (demo_asys (demo_join ++ demo_answer)) !! i = Some t → d_pc t = DReturn val None →
     (d_co t, d_key t, val) ∈ a_produced (demo_asys (demo_join ++ demo_answer))) ∧
  (∀ ci c, a_coords (demo_asys (demo_join ++ demo_answer)) !! ci = Some c →
     NoDup (co_cacheOrder c) ∧ (∀ k, (k ∈ co_cacheOrder c) ↔ is_Some (co_cache c !! k)) ∧
     Coordinator_CacheLen c ≤ co_maxCache c).
Proof.
  split; [vm_compute; reflexivity|].
  apply (analytics_results 0 demo_gate demo_coords); [apply demo_fresh|].
  apply demo_asys_reachable. vm_compute. eauto.
Defined.
