(* ===== verification/Session.v ===== *)
(** * Administrative sessions and login throttling ([internal/session/session.go])

    The session store and the failed-login limiter are maps behind a mutex; each
    operation is one critical section, a function of the store and of the time it
    reads.  Go iterates over a map in an unspecified order, which is the argument
    [iter]; the random source is the list of the bytes it will return. *)

From Stdlib Require Import Ascii ZArith Lia ZifyBool.
From stdpp Require Import prelude gmap strings list.
From S2P Require Import Prelude.
Local Open Scope Z_scope.

Definition DefaultMaxSessions : Z := 256.
Definition DefaultIdleTimeout : Z := 30 * 60 * 1000000000.
Definition DefaultAbsoluteTimeout : Z := 12 * 3600 * 1000000000.
Definition DefaultMaxTrackedIPs : Z := 1024.
Definition DefaultMaxFailedAttempts : Z := 5.
Definition DefaultLockoutDuration : Z := 5 * 60 * 1000000000.
Definition DefaultRateLimitWindow : Z := 5 * 60 * 1000000000.

(** ** Sessions *)

Record Session := mkSession { s_ID : string; s_CSRFToken : string; s_CreatedAt : Z; s_LastActiveAt : Z }.

Definition Session_IsExpired (s : Session) (now idleTimeout absoluteTimeout : Z) : bool :=
  if (0 <? absoluteTimeout) && (absoluteTimeout <? Sub now (s_CreatedAt s)) then true
  else if (0 <? idleTimeout) && (idleTimeout <? Sub now (s_LastActiveAt s)) then true
  else false.

Record Store := mkStore {
  st_sessions : gmap string Session; st_maxSessions : Z; st_idleTimeout : Z; st_absoluteTimeout : Z }.

Definition NewStore (maxSessions idleTimeout absoluteTimeout : Z) : Store :=
  mkStore ∅ (if maxSessions <=? 0 then DefaultMaxSessions else maxSessions)
    (if idleTimeout <=? 0 then DefaultIdleTimeout else idleTimeout)
    (if absoluteTimeout <=? 0 then DefaultAbsoluteTimeout else absoluteTimeout).

Definition with_sessions (m : gmap string Session) (st : Store) : Store :=
  mkStore m (st_maxSessions st) (st_idleTimeout st) (st_absoluteTimeout st).

Definition expired (st : Store) (now : Z) (s : Session) : bool :=
  Session_IsExpired s now (st_idleTimeout st) (st_absoluteTimeout st).

Definition Store_purgeExpiredLocked (now : Z) (st : Store) : Store :=
  with_sessions (filter (λ e, expired st now e.2 = false) (st_sessions st)) st.

(** The scan for the entry with the earliest time, in iteration order. *)
Definition earlier {A} (time : A → Z) (best : option (string * Z)) (e : string * A) : option (string * Z) :=
  match best with
  | Some (_, oldestTime) => if Before (time e.2) oldestTime then Some (e.1, time e.2) else best
  | None => Some (e.1, time e.2)
  end.

Definition Store_evictOldestLocked (iter : gmap string Session → list (string * Session)) (st : Store) : Store :=
  match foldl (earlier s_LastActiveAt) None (iter (st_sessions st)) with
  | Some (oldestID, _) =>
      if bool_decide (oldestID = ""%string) then st else with_sessions (delete oldestID (st_sessions st)) st
  | None => st
  end.

(** [encoding/hex]. *)
Definition hex_digit (n : Z) : ascii := ascii_of_N (Z.to_N (if n <? 10 then 48 + n else 87 + n)).

Fixpoint hex_encode (bytes : list Z) : string :=
  match bytes with
  | [] => ""
  | b :: rest => String (hex_digit (b / 16)) (String (hex_digit (b mod 16)) (hex_encode rest))
  end.

(** [io.ReadFull] of the random source; a short source is an error. *)
Definition randomHex (rand : list Z) (byteCount : nat) : option string * list Z :=
  if (length rand <? byteCount)%nat then (None, [])
  else (Some (hex_encode (take byteCount rand)), drop byteCount rand).

Definition Store_Create (iter : gmap string Session → list (string * Session)) (now : Z) (rand : list Z) (st : Store)
  : option Session * list Z * Store :=
  let st := Store_purgeExpiredLocked now st in
  let st := if st_maxSessions st <=? Z.of_nat (size (st_sessions st)) then Store_evictOldestLocked iter st else st in
  match randomHex rand 32 with
  | (None, rand) => (None, rand, st)
  | (Some sessionID, rand) =>
      match randomHex rand 32 with
      | (None, rand) => (None, rand, st)
      | (Some csrfToken, rand) =>
          let sess := mkSession sessionID csrfToken now now in
          (Some sess, rand, with_sessions (<[sessionID := sess]> (st_sessions st)) st)
      end
  end.

Definition touched (now : Z) (s : Session) : Session := mkSession (s_ID s) (s_CSRFToken s) (s_CreatedAt s) now.

Definition Store_Get (now : Z) (id : string) (st : Store) : option Session * Store :=
  if bool_decide (id = ""%string) then (None, st)
  else match st_sessions st !! id with
       | None => (None, st)
       | Some s =>
           if expired st now s then (None, with_sessions (delete id (st_sessions st)) st)
           else (Some (touched now s), with_sessions (<[id := touched now s]> (st_sessions st)) st)
       end.

Definition Store_GetWithoutTouch (now : Z) (id : string) (st : Store) : option Session :=
  if bool_decide (id = ""%string) then None
  else match st_sessions st !! id with
       | None => None
       | Some s => if expired st now s then None else Some s
       end.

Definition Store_Revoke (id : string) (st : Store) : Store :=
  if bool_decide (id = ""%string) then st else with_sessions (delete id (st_sessions st)) st.

Definition Store_RevokeAll (st : Store) : Store := with_sessions ∅ st.

Definition Store_Count (now : Z) (st : Store) : Z * Store :=
  let st := Store_purgeExpiredLocked now st in (Z.of_nat (size (st_sessions st)), st).

Definition Store_ValidateCSRF (now : Z) (sessionID csrfToken : string) (st : Store) : bool :=
  if bool_decide (sessionID = ""%string) || bool_decide (csrfToken = ""%string) then false
  else match st_sessions st !! sessionID with
       | None => false
       | Some s => if expired st now s then false else bool_decide (s_CSRFToken s = csrfToken)
       end.

(** ** Failed logins *)

Record rateLimitEntry := mkEntry { re_count : Z; re_firstFailed : Z; re_lastFailed : Z; re_lockedUntil : Z }.

Record LoginRateLimiter := mkLogin {
  ll_failures : gmap string rateLimitEntry; ll_maxTrackedIPs : Z; ll_maxAttempts : Z; ll_window : Z; ll_lockoutDuration : Z }.

Definition NewLoginRateLimiter (maxIPs maxAttempts window lockout : Z) : LoginRateLimiter :=
  mkLogin ∅ (if maxIPs <=? 0 then DefaultMaxTrackedIPs else maxIPs)
    (if maxAttempts <=? 0 then DefaultMaxFailedAttempts else maxAttempts)
    (if window <=? 0 then DefaultRateLimitWindow else window)
    (if lockout <=? 0 then DefaultLockoutDuration else lockout).

Definition with_failures (m : gmap string rateLimitEntry) (l : LoginRateLimiter) : LoginRateLimiter :=
  mkLogin m (ll_maxTrackedIPs l) (ll_maxAttempts l) (ll_window l) (ll_lockoutDuration l).

Definition Login_Allow (now : Z) (ip : string) (l : LoginRateLimiter) : bool * LoginRateLimiter :=
  if bool_decide (ip = ""%string) then (true, l)
  else match ll_failures l !! ip with
       | None => (true, l)
       | Some entry =>
           if Before now (re_lockedUntil entry) then (false, l)
           else if (ll_window l <? Sub now (re_firstFailed entry)) && After now (re_lockedUntil entry)
           then (true, with_failures (delete ip (ll_failures l)) l)
           else (true, l)
       end.

Definition entry_stale (l : LoginRateLimiter) (now : Z) (e : rateLimitEntry) : bool :=
  After now (re_lockedUntil e) && (ll_window l <? Sub now (re_firstFailed e)).

Definition Login_purgeExpiredLocked (now : Z) (l : LoginRateLimiter) : LoginRateLimiter :=
  with_failures (filter (λ e, entry_stale l now e.2 = false) (ll_failures l)) l.

Definition Login_evictOldestLocked (iter : gmap string rateLimitEntry → list (string * rateLimitEntry))
    (l : LoginRateLimiter) : LoginRateLimiter :=
  match foldl (earlier re_lastFailed) None (iter (ll_failures l)) with
  | Some (oldestIP, _) =>
      if bool_decide (oldestIP = ""%string) then l else with_failures (delete oldestIP (ll_failures l)) l
  | None => l
  end.

(** Room for one more entry. *)
Definition Login_makeRoom (iter : gmap string rateLimitEntry → list (string * rateLimitEntry)) (now : Z)
    (l : LoginRateLimiter) : LoginRateLimiter :=
  if ll_maxTrackedIPs l <=? Z.of_nat (size (ll_failures l)) then
    let l := Login_purgeExpiredLocked now l in
    if ll_maxTrackedIPs l <=? Z.of_nat (size (ll_failures l)) then Login_evictOldestLocked iter l else l
  else l.

Definition Login_RecordFailure (iter : gmap string rateLimitEntry → list (string * rateLimitEntry)) (now : Z)
    (ip : string) (l : LoginRateLimiter) : LoginRateLimiter :=
  if bool_decide (ip = ""%string) then l
  else
    let l := Login_makeRoom iter now l in
    let fresh := with_failures (<[ip := mkEntry 1 now now zeroTime]> (ll_failures l)) l in
    match ll_failures l !! ip with
    | None => fresh
    | Some entry =>
        if ll_window l <? Sub now (re_firstFailed entry) then fresh
        else
          let count := add64 (re_count entry) 1 in
          let lockedUntil := if ll_maxAttempts l <=? count then now + ll_lockoutDuration l else re_lockedUntil entry in
          with_failures (<[ip := mkEntry count (re_firstFailed entry) now lockedUntil]> (ll_failures l)) l
    end.

Definition Login_RecordSuccess (ip : string) (l : LoginRateLimiter) : LoginRateLimiter :=
  if bool_decide (ip = ""%string) then l else with_failures (delete ip (ll_failures l)) l.

(** ** Eviction *)

Section eviction.

Lemma earlier_spec {A} (time : A → Z) (l : list (string * A)) best :
  match foldl (earlier time) best l with
  | None => best = None ∧ l = []
  | Some (id, t) =>
      (best = Some (id, t) ∨ ∃ a, (id, a) ∈ l ∧ t = time a) ∧
      (∀ id' t', best = Some (id', t') → t ≤ t') ∧ (∀ e, e ∈ l → t ≤ time e.2)
  end.
Proof.
  revert best. induction l as [|e l IH]; intros best; simpl.
  { destruct best as [[id t]|]; [|done]. split_and!; [by left|naive_solver lia|]. by intros e ?%elem_of_nil. }
  specialize (IH (earlier time best e)). destruct (foldl _ _ l) as [[id t]|].
  2: { destruct IH as [IH _]. destruct best as [[? ?]|]; simpl in IH; [by case_match|done]. }
  destruct IH as (H1 & H2 & H3). destruct best as [[id0 t0]|]; simpl in *.
  - unfold Before in *. destruct (Z.ltb_spec (time e.2) t0).
    + specialize (H2 _ _ eq_refl). split_and!.
      * right. destruct H1 as [[= <- <-]|(a & Ha & ->)]; [exists e.2; split; [rewrite <-surjective_pairing; left|done]|exists a; split; [by right|done]].
      * intros id' t' [= <- <-]. lia.
      * intros e' [->|He']%elem_of_cons; [done|by apply H3].
    + specialize (H2 _ _ eq_refl). split_and!.
      * destruct H1 as [H1|(a & Ha & ->)]; [by left|right; exists a; split; [by right|done]].
      * intros id' t' [= <- <-]. done.
      * intros e' [->|He']%elem_of_cons; [lia|by apply H3].
  - specialize (H2 _ _ eq_refl). split_and!; [|done|].
    + right. destruct H1 as [[= <- <-]|(a & Ha & ->)]; [exists e.2; split; [rewrite <-surjective_pairing; left|done]|exists a; split; [by right|done]].
    + intros e' [->|He']%elem_of_cons; [done|by apply H3].
Qed.

(** The entry that is evicted, found in any iteration order. *)
Lemma oldest_spec {A} (time : A → Z) (m : gmap string A) (l : list (string * A)) :
  l ≡ₚ map_to_list m → m ≠ ∅ →
  ∃ id a, foldl (earlier time) None l = Some (id, time a) ∧ m !! id = Some a ∧
          ∀ id' a', m !! id' = Some a' → time a ≤ time a'.
Proof.
  intros Hl Hm. pose proof (earlier_spec time l None) as H. destruct (foldl _ _ l) as [[id t]|].
  - destruct H as ([|(a & Ha & ->)] & _ & Hmin); [done|]. exists id, a. split; [done|]. split.
    + rewrite Hl in Ha. by apply elem_of_map_to_list.
    + intros id' a' Ha'. apply (Hmin (id', a')). rewrite Hl. by apply elem_of_map_to_list.
  - destruct H as [_ ->]. symmetry in Hl. apply Permutation_nil_r, map_to_list_empty_iff in Hl. done.
Qed.

End eviction.

(** ** Operation sequences *)

Section store.
Context (iter : gmap string Session → list (string * Session)).
Hypothesis iter_all : ∀ m, iter m ≡ₚ map_to_list m.

Inductive session_op :=
| OCreate (now : Z) (rand : list Z)
| OGet (now : Z) (id : string)
| OPeek (now : Z) (id : string)
| ORevoke (id : string)
| ORevokeAll
| OCount (now : Z).

Definition apply_op (op : session_op) (st : Store) : option Session * Store :=
  match op with
  | OCreate now rand => let '(s, _, st) := Store_Create iter now rand st in (s, st)
  | OGet now id => Store_Get now id st
  | OPeek now id => (Store_GetWithoutTouch now id st, st)
  | ORevoke id => (None, Store_Revoke id st)
  | ORevokeAll => (None, Store_RevokeAll st)
  | OCount now => (None, (Store_Count now st).2)
  end.

(** The results of a sequence of operations, and the final store. *)
Fixpoint run_ops (ops : list session_op) (st : Store) : list (option Session) * Store :=
  match ops with
  | [] => ([], st)
  | op :: ops => let '(r, st) := apply_op op st in let '(rs, st) := run_ops ops st in (r :: rs, st)
  end.

(** The ideal store: no capacity, nothing purged; a session is usable until it
    expires or is revoked. *)
Definition ideal_op (idle absolute : Z) (op : session_op) (m : gmap string Session) : option Session * gmap string Session :=
  match op with
  | OCreate now rand =>
      match randomHex rand 32 with
      | (Some id, rand) =>
          match randomHex rand 32 with
          | (Some token, _) => let s := mkSession id token now now in (Some s, <[id := s]> m)
          | (None, _) => (None, m)
          end
      | (None, _) => (None, m)
      end
  | OGet now id =>
      match m !! id with
      | Some s => if Session_IsExpired s now idle absolute then (None, m) else (Some (touched now s), <[id := touched now s]> m)
      | None => (None, m)
      end
  | OPeek now id =>
      (match m !! id with Some s => if Session_IsExpired s now idle absolute then None else Some s | None => None end, m)
  | ORevoke id => (None, delete id m)
  | ORevokeAll => (None, ∅)
  | OCount _ => (None, m)
  end.

Fixpoint run_ideal (idle absolute : Z) (ops : list session_op) (m : gmap string Session)
  : list (option Session) * gmap string Session :=
  match ops with
  | [] => ([], m)
  | op :: ops =>
      let '(r, m) := ideal_op idle absolute op m in
      let '(rs, m) := run_ideal idle absolute ops m in (r :: rs, m)
  end.

(** What the store always satisfies. *)
Record store_ok (st : Store) : Prop := {
  so_max : 0 < st_maxSessions st;
  so_size : Z.of_nat (size (st_sessions st)) ≤ st_maxSessions st;
  so_ids id s : st_sessions st !! id = Some s → id ≠ ""%string;
}.

Lemma hex_nonempty rand id rest : randomHex rand 32 = (Some id, rest) → id ≠ ""%string.
Proof.
  unfold randomHex. destruct (Nat.ltb_spec (length rand) 32); [done|].
  destruct rand as [|b rand]; [simpl in *; lia|]. intros [= <- _]. done.
Qed.

Lemma purge_ok now st : store_ok st → store_ok (Store_purgeExpiredLocked now st).
Proof.
  intros [H1 H2 H3]. split; simpl; [done| |].
  - etrans; [|exact H2]. apply inj_le, map_size_filter.
  - intros id s [Hs _]%map_lookup_filter_Some. by eapply H3.
Qed.

(** Making room removes at most one session, one that was idle longest. *)
Lemma evict_ok st :
  store_ok st → st_sessions st ≠ ∅ →
  ∃ id s, st_sessions st !! id = Some s ∧ st_sessions (Store_evictOldestLocked iter st) = delete id (st_sessions st) ∧
    (∀ id' s', st_sessions st !! id' = Some s' → s_LastActiveAt s ≤ s_LastActiveAt s').
Proof.
  intros Hok Hne. destruct (oldest_spec s_LastActiveAt _ _ (iter_all (st_sessions st)) Hne) as (id & s & E & Hs & Hmin).
  exists id, s. unfold Store_evictOldestLocked. rewrite E.
  rewrite bool_decide_false by (by eapply so_ids). done.
Qed.

(** The store after purging and making room. *)
Definition roomy (now : Z) (st : Store) : Store :=
  let st := Store_purgeExpiredLocked now st in
  if st_maxSessions st <=? Z.of_nat (size (st_sessions st)) then Store_evictOldestLocked iter st else st.

Lemma Create_unfold now rand st :
  Store_Create iter now rand st =
  match randomHex rand 32 with
  | (None, rand) => (None, rand, roomy now st)
  | (Some id, rand) =>
      match randomHex rand 32 with
      | (None, rand) => (None, rand, roomy now st)
      | (Some token, rand) =>
          (Some (mkSession id token now now), rand,
           with_sessions (<[id := mkSession id token now now]> (st_sessions (roomy now st))) (roomy now st))
      end
  end.
Proof. reflexivity. Qed.

Lemma evict_config st :
  st_maxSessions (Store_evictOldestLocked iter st) = st_maxSessions st ∧
  st_idleTimeout (Store_evictOldestLocked iter st) = st_idleTimeout st ∧
  st_absoluteTimeout (Store_evictOldestLocked iter st) = st_absoluteTimeout st.
Proof. unfold Store_evictOldestLocked. by repeat case_match. Qed.

(** Either nothing but expired sessions goes, or exactly one more. *)
Lemma roomy_spec now st :
  store_ok st →
  let live := filter (λ e : string * Session, expired st now e.2 = false) (st_sessions st) in
  st_maxSessions (roomy now st) = st_maxSessions st ∧ st_idleTimeout (roomy now st) = st_idleTimeout st ∧
  st_absoluteTimeout (roomy now st) = st_absoluteTimeout st ∧
  Z.of_nat (size (st_sessions (roomy now st))) < st_maxSessions st ∧
  (st_sessions (roomy now st) = live ∧ Z.of_nat (size live) < st_maxSessions st ∨
   st_maxSessions st ≤ Z.of_nat (size live) ∧
   ∃ id s, live !! id = Some s ∧ st_sessions (roomy now st) = delete id live ∧
     ∀ id' s', live !! id' = Some s' → s_LastActiveAt s ≤ s_LastActiveAt s').
Proof.
  intros Hok live. pose proof (purge_ok now _ Hok) as Hp. unfold roomy.
  change (st_sessions (Store_purgeExpiredLocked now st)) with live.
  change (st_maxSessions (Store_purgeExpiredLocked now st)) with (st_maxSessions st).
  pose proof (so_size _ Hp) as Hsz. simpl in Hsz. fold live in Hsz. pose proof (so_max _ Hok) as Hmax.
  destruct (Z.leb_spec (st_maxSessions st) (Z.of_nat (size live))) as [Hfull|Hroom].
  - assert (Hne : st_sessions (Store_purgeExpiredLocked now st) ≠ ∅).
    { change (st_sessions (Store_purgeExpiredLocked now st)) with live. intros E. rewrite E, map_size_empty in Hfull. lia. }
    destruct (evict_ok _ Hp Hne) as (id & s & Hs & E & Hmin). destruct (evict_config (Store_purgeExpiredLocked now st)) as (C1 & C2 & C3).
    change (st_sessions (Store_purgeExpiredLocked now st)) with live in *.
    rewrite C1, C2, C3, E. split_and!; try done.
    + rewrite map_size_delete_Some by (by eexists). assert (size live ≠ 0%nat) by lia. lia.
    + right. split; [lia|]. exists id, s. done.
  - split_and!; try done. left. split; [done|lia].
Qed.

Lemma roomy_sub now st id s : store_ok st → st_sessions (roomy now st) !! id = Some s →
  st_sessions st !! id = Some s ∧ expired st now s = false.
Proof.
  intros Hok Hs. destruct (roomy_spec now st Hok) as (_ & _ & _ & _ & [[E _]|(_ & v & t & _ & E & _)]); rewrite E in Hs.
  - by apply map_lookup_filter_Some in Hs.
  - apply lookup_delete_Some in Hs as [_ Hs]. by apply map_lookup_filter_Some in Hs.
Qed.

Lemma roomy_ok now st : store_ok st → store_ok (roomy now st).
Proof.
  intros Hok. destruct (roomy_spec now st Hok) as (C1 & _ & _ & Hsz & _). pose proof (so_max _ Hok).
  split; rewrite ?C1; [done|lia|]. intros id s Hs%roomy_sub; [|done]. by eapply so_ids, Hs.
Qed.

Lemma create_ok now st id s :
  store_ok st → id ≠ ""%string → store_ok (with_sessions (<[id := s]> (st_sessions (roomy now st))) (roomy now st)).
Proof.
  intros Hok Hid. destruct (roomy_spec now st Hok) as (C1 & _ & _ & Hsz & _). pose proof (roomy_ok now st Hok) as [R1 R2 R3].
  split; simpl; [done| |].
  - rewrite map_size_insert. destruct (_ !! id); simpl; lia.
  - intros id' s'. destruct (decide (id' = id)) as [->|]; [done|]. rewrite lookup_insert_ne by done. apply R3.
Qed.

Lemma IsExpired_mono s now now' idle absolute :
  now ≤ now' → Session_IsExpired s now idle absolute = true → Session_IsExpired s now' idle absolute = true.
Proof. unfold Session_IsExpired, Sub. intros Hn. repeat case_match; try done; lia. Qed.

Definition same_config (st st' : Store) : Prop :=
  st_maxSessions st' = st_maxSessions st ∧ st_idleTimeout st' = st_idleTimeout st ∧
  st_absoluteTimeout st' = st_absoluteTimeout st.

Lemma apply_ok op st : store_ok st → store_ok (apply_op op st).2 ∧ same_config st (apply_op op st).2.
Proof.
  intros Hok. destruct op as [now rand|now id|now id|id| |now]; unfold same_config.
  - simpl. rewrite Create_unfold. destruct (roomy_spec now st Hok) as (C1 & C2 & C3 & _).
    destruct (randomHex rand 32) as [[id|] rand1] eqn:E1; [|by split; [apply roomy_ok|]].
    destruct (randomHex rand1 32) as [[token|] rand2] eqn:E2; [|by split; [apply roomy_ok|]].
    split; [apply create_ok; [done|by eapply hex_nonempty]|done].
  - destruct Hok as [H1 H2 H3]. cbn [apply_op]. unfold Store_Get. destruct (bool_decide _); [by split|].
    destruct (st_sessions st !! id) as [s|] eqn:E; [|by split].
    destruct (expired st now s); split; try done; split; simpl; try done.
    + rewrite map_size_delete, E. simpl. lia.
    + intros id' s' [_ Hs]%lookup_delete_Some. by eapply H3.
    + rewrite map_size_insert_Some by done. done.
    + intros id' s'. destruct (decide (id' = id)) as [->|]; [intros _; by eapply H3|].
      rewrite lookup_insert_ne by done. apply H3.
  - by split.
  - destruct Hok as [H1 H2 H3]. cbn [apply_op]. unfold Store_Revoke. simpl. destruct (bool_decide _); [by split|].
    split; [|done]. split; simpl; [done| |].
    + rewrite map_size_delete. destruct (st_sessions st !! id); simpl; lia.
    + intros id' s' [_ Hs]%lookup_delete_Some. by eapply H3.
  - split; [|done]. split; simpl; [by apply Hok|rewrite map_size_empty; pose proof (so_max _ Hok); lia|].
    intros id s. by rewrite lookup_empty.
  - split; [by apply purge_ok|done].
Qed.

(** Soundness of one operation: the store holds a part of the ideal store. *)
Lemma apply_sound op st m :
  store_ok st → st_sessions st ⊆ m →
  let '(r, st') := apply_op op st in
  let '(r', m') := ideal_op (st_idleTimeout st) (st_absoluteTimeout st) op m in
  st_sessions st' ⊆ m' ∧ ∀ s, r = Some s → r' = Some s.
Proof.
  intros Hok Hsub. assert (Hlk : ∀ id s, st_sessions st !! id = Some s → m !! id = Some s) by (intros; by eapply lookup_weaken).
  destruct op as [now rand|now id|now id|id| |now]; cbn [apply_op ideal_op].
  - rewrite Create_unfold.
    assert (Hr : st_sessions (roomy now st) ⊆ m).
    { apply map_subseteq_spec. intros id s [Hs _]%roomy_sub; [|done]. by apply Hlk. }
    destruct (randomHex rand 32) as [[id|] rand1]; [|done]. destruct (randomHex rand1 32) as [[token|] rand2]; [|done].
    split; [by apply insert_mono|done].
  - unfold Store_Get. assert (Hmiss : st_sessions st !! id = None →
      let '(r', m') := match m !! id with
        | Some s => if Session_IsExpired s now (st_idleTimeout st) (st_absoluteTimeout st) then (None, m)
                    else (Some (touched now s), <[id := touched now s]> m)
        | None => (None, m) end in
      st_sessions st ⊆ m' ∧ ∀ s, None = Some s → r' = Some s).
    { intros Hn. destruct (m !! id) as [s|]; [|done]. destruct (Session_IsExpired _ _ _ _); [done|].
      split; [|done]. by apply insert_subseteq_r. }
    case_bool_decide as Eid.
    { apply Hmiss. destruct (st_sessions st !! id) eqn:E; [|done]. by apply (so_ids _ Hok) in E. }
    destruct (st_sessions st !! id) as [s|] eqn:E; [|by apply Hmiss].
    rewrite (Hlk _ _ E). unfold expired. destruct (Session_IsExpired _ _ _ _); simpl.
    + split; [|done]. etrans; [apply delete_subseteq|done].
    + split; [by apply insert_mono|done].
  - split; [done|]. unfold Store_GetWithoutTouch. case_bool_decide; [done|].
    destruct (st_sessions st !! id) as [s|] eqn:E; [|done]. by rewrite (Hlk _ _ E).
  - split; [|done]. unfold Store_Revoke. case_bool_decide as Eid; simpl; [|by apply delete_mono].
    apply map_subseteq_spec. intros id' s' Hs. rewrite lookup_delete_ne; [by apply Hlk|].
    intros <-. by apply (so_ids _ Hok) in Hs.
  - split; [apply map_empty_subseteq|done].
  - split; [|done]. simpl. etrans; [apply map_filter_subseteq|done].
Qed.

(** The time an operation reads. *)
Definition op_time (op : session_op) : option Z :=
  match op with OCreate now _ | OGet now _ | OPeek now _ | OCount now => Some now | _ => None end.

Definition creates (op : session_op) : Z := match op with OCreate _ _ => 1 | _ => 0 end.

(** The clock does not go back. *)
Fixpoint in_time (last : Z) (ops : list session_op) : Prop :=
  match ops with
  | [] => True
  | op :: ops => match op_time op with Some now => last ≤ now ∧ in_time now ops | None => in_time last ops end
  end.

(** Nothing usable is missing: [k] sessions were created, up to the time [last]. *)
Record complete (last k : Z) (st : Store) (m : gmap string Session) : Prop := {
  cp_sub : st_sessions st ⊆ m;
  cp_size : Z.of_nat (size (st_sessions st)) ≤ k;
  cp_all id s : m !! id = Some s → expired st last s = false → st_sessions st !! id = Some s;
  cp_ids id s : m !! id = Some s → id ≠ ""%string;
}.

Lemma expired_config st st' now s : same_config st st' → expired st' now s = expired st now s.
Proof. unfold expired. by intros (_ & -> & ->). Qed.

Lemma expired_later st last now s : last ≤ now → expired st now s = false → expired st last s = false.
Proof.
  unfold expired. intros Hl Hn. destruct (Session_IsExpired s last _ _) eqn:E; [|done].
  by rewrite (IsExpired_mono s last now) in Hn.
Qed.

Lemma roomy_complete now last k st m :
  store_ok st → complete last k st m → last ≤ now → k < st_maxSessions st →
  complete now k (roomy now st) m.
Proof.
  intros Hok [Hsub Hsz Hall Hids] Hl Hk. destruct (roomy_spec now st Hok) as (C1 & C2 & C3 & _ & [[E _]|(Hfull & _)]).
  - split; rewrite ?E; [|etrans; [|exact Hsz]; apply inj_le, map_size_filter| |done].
    + etrans; [apply map_filter_subseteq|done].
    + intros id s Hs He. rewrite (expired_config st) in He by done. apply map_lookup_filter_Some. split; [|done].
      apply Hall; [done|]. by eapply expired_later.
  - exfalso. pose proof (map_size_filter (λ e : string * Session, expired st now e.2 = false) (st_sessions st)). lia.
Qed.

Lemma complete_later last now k k' st m : last ≤ now → k ≤ k' → complete last k st m → complete now k' st m.
Proof.
  intros Hl Hk [H1 H2 H3 H4]. split; [done|lia| |done]. intros id s Hs He. apply H3; [done|]. by eapply expired_later.
Qed.

Lemma complete_insert last k st m id s :
  complete last k st m → id ≠ ""%string → Z.of_nat (size (<[id := s]> (st_sessions st))) ≤ k →
  complete last k (with_sessions (<[id := s]> (st_sessions st)) st) (<[id := s]> m).
Proof.
  intros [H1 H2 H3 H4] Hid Hk. split; simpl; [by apply insert_mono|done|..].
  - intros id' s'. destruct (decide (id' = id)) as [->|]; [by rewrite !lookup_insert_eq|].
    rewrite !lookup_insert_ne by done. apply H3.
  - intros id' s'. destruct (decide (id' = id)) as [->|]; [done|]. rewrite lookup_insert_ne by done. apply H4.
Qed.

Lemma apply_complete op st m last k :
  store_ok st → complete last k st m → (∀ now, op_time op = Some now → last ≤ now) →
  k + creates op ≤ st_maxSessions st →
  let '(r, st') := apply_op op st in
  let '(r', m') := ideal_op (st_idleTimeout st) (st_absoluteTimeout st) op m in
  r = r' ∧ complete (default last (op_time op)) (k + creates op) st' m'.
Proof.
  intros Hok Hc Htime Hk. destruct op as [now rand|now id|now id|id| |now]; cbn [apply_op ideal_op op_time creates default] in *.
  - rewrite Create_unfold. specialize (Htime _ eq_refl).
    pose proof (roomy_complete now last k st m Hok Hc Htime ltac:(lia)) as Hr.
    destruct (randomHex rand 32) as [[id|] rand1] eqn:E1; [|split; [done|by apply (complete_later now now k); [lia|lia|]]].
    destruct (randomHex rand1 32) as [[token|] rand2]; [|split; [done|by apply (complete_later now now k); [lia|lia|]]].
    split; [done|]. apply complete_insert; [by apply (complete_later now now k); [lia|lia|]|by eapply hex_nonempty|].
    pose proof (cp_size _ _ _ _ Hr). rewrite map_size_insert. destruct (_ !! id); simpl; lia.
  - specialize (Htime _ eq_refl). apply (complete_later last now k k) in Hc as [H1 H2 H3 H4]; [|lia..].
    rewrite Z.add_0_r. unfold Store_Get. case_bool_decide as Eid.
    { destruct (m !! id) as [s|] eqn:E; [by apply H4 in E|]. by split. }
    destruct (st_sessions st !! id) as [s|] eqn:E.
    + rewrite (lookup_weaken _ _ _ _ E H1). fold (expired st now s). destruct (expired st now s) eqn:Ex.
      * split; [done|]. split; simpl; [etrans; [apply delete_subseteq|done]| | |done].
        -- rewrite map_size_delete, E. simpl. lia.
        -- intros id' s' Hs He. destruct (decide (id' = id)) as [->|]; [|rewrite lookup_delete_ne by done; by apply H3].
           rewrite (lookup_weaken _ _ _ _ E H1) in Hs. simplify_eq. unfold expired in *. simpl in He. congruence.
      * split; [done|]. apply complete_insert; [by split|done|]. by rewrite map_size_insert_Some.
    + destruct (m !! id) as [s|] eqn:Em; [|by split].
      fold (expired st now s). destruct (expired st now s) eqn:Ex; [by split|]. by rewrite (H3 _ _ Em Ex) in E.
  - specialize (Htime _ eq_refl). apply (complete_later last now k k) in Hc as Hc'; [|lia..].
    rewrite Z.add_0_r. split; [|done]. destruct Hc' as [H1 H2 H3 H4]. unfold Store_GetWithoutTouch. case_bool_decide as Eid.
    { destruct (m !! id) as [s|] eqn:E; [by apply H4 in E|done]. }
    destruct (st_sessions st !! id) as [s|] eqn:E; [by rewrite (lookup_weaken _ _ _ _ E H1)|].
    destruct (m !! id) as [s|] eqn:Em; [|done]. fold (expired st now s).
    destruct (expired st now s) eqn:Ex; [done|]. by rewrite (H3 _ _ Em Ex) in E.
  - rewrite Z.add_0_r. split; [done|]. destruct Hc as [H1 H2 H3 H4]. unfold Store_Revoke. case_bool_decide as Eid.
    + rewrite delete_id; [by split|]. destruct (m !! id) eqn:E; [by apply H4 in E|done].
    + split; simpl; [by apply delete_mono| | |].
      * rewrite map_size_delete. destruct (st_sessions st !! id); simpl; lia.
      * intros id' s' [Hne Hs]%lookup_delete_Some He. rewrite lookup_delete_ne by done. by apply H3.
      * intros id' s' [_ Hs]%lookup_delete_Some. by eapply H4.
  - split; [done|]. rewrite Z.add_0_r. pose proof (cp_size _ _ _ _ Hc). split; simpl; try done.
    rewrite map_size_empty. lia.
  - specialize (Htime _ eq_refl). apply (complete_later last now k k) in Hc as [H1 H2 H3 H4]; [|lia..].
    rewrite Z.add_0_r. split; [done|]. split; simpl; [etrans; [apply map_filter_subseteq|done]| | |done].
    + etrans; [|exact H2]. apply inj_le, map_size_filter.
    + intros id s Hs He. apply map_lookup_filter_Some. split; [by apply H3|done].
Qed.

(** Runs. *)
Lemma run_sound ops st m :
  store_ok st → st_sessions st ⊆ m →
  let '(rs, st') := run_ops ops st in
  let '(es, m') := run_ideal (st_idleTimeout st) (st_absoluteTimeout st) ops m in
  store_ok st' ∧ ∀ k s, rs !! k = Some (Some s) → es !! k = Some (Some s).
Proof.
  revert st m. induction ops as [|op ops IH]; intros st m Hok Hsub; simpl; [done|].
  pose proof (apply_ok op st Hok) as [Hok1 (_ & C2 & C3)]. pose proof (apply_sound op st m Hok Hsub) as Hs.
  destruct (apply_op op st) as [r st1]. destruct (ideal_op _ _ op m) as [r' m1]. simpl in *.
  destruct Hs as [Hsub1 Hr]. specialize (IH st1 m1 Hok1 Hsub1). rewrite C2, C3 in IH.
  destruct (run_ops ops st1) as [rs st2]. destruct (run_ideal _ _ ops m1) as [es m2].
  destruct IH as [H1 H2]. split; [done|]. intros [|k] s; simpl; [|by apply H2]. intros [= ->]. by rewrite (Hr s).
Qed.

Lemma run_complete ops st m last k :
  store_ok st → complete last k st m → in_time last ops →
  k + foldr (λ op n, creates op + n) 0 ops ≤ st_maxSessions st →
  (run_ops ops st).1 = (run_ideal (st_idleTimeout st) (st_absoluteTimeout st) ops m).1.
Proof.
  revert st m last k. induction ops as [|op ops IH]; intros st m last k Hok Hc Ht Hk; simpl; [done|]. simpl in Hk, Ht.
  assert (Hn : 0 ≤ foldr (λ op n, creates op + n) 0 ops).
  { clear. induction ops as [|o ops IH]; simpl; [lia|]. unfold creates at 1. destruct o; lia. }
  pose proof (apply_ok op st Hok) as [Hok1 (C1 & C2 & C3)].
  pose proof (apply_complete op st m last k Hok Hc) as Hs.
  destruct (apply_op op st) as [r st1]. destruct (ideal_op _ _ op m) as [r' m1]. simpl in *.
  destruct Hs as [-> Hc1].
  - intros now E. rewrite E in Ht. apply Ht.
  - lia.
  - assert (Ht1 : in_time (default last (op_time op)) ops) by (destruct (op_time op); [apply Ht|done]).
    specialize (IH st1 m1 _ (k + creates op) Hok1 Hc1 Ht1 ltac:(rewrite C1; lia)). rewrite C2, C3 in IH.
    destruct (run_ops ops st1) as [rs st2]. destruct (run_ideal _ _ ops m1) as [es m2]. simpl in *. by rewrite IH.
Qed.

End store.

Lemma NewStore_ok m i a : store_ok (NewStore m i a).
Proof.
  split; simpl.
  - unfold DefaultMaxSessions. destruct (Z.leb_spec m 0); lia.
  - rewrite map_size_empty. unfold DefaultMaxSessions. destruct (Z.leb_spec m 0); lia.
  - intros id s. by rewrite lookup_empty.
Qed.

(** C20: The session store implements an ideal store that keeps every session until
    it expires or is revoked.  For every sequence of operations, every clock, every
    random source and every order in which Go may iterate over its map: the store
    never exceeds its capacity; every session it returns the ideal store returns
    too, so an expired, revoked or unknown session is never accepted; and as long
    as no more sessions were created than fit and the clock does not go back, the
    two return exactly the same. *)
Theorem session_store_refines (iter : gmap string Session → list (string * Session)) maxSessions idle absolute ops :
  (∀ m, iter m ≡ₚ map_to_list m) →
  let st0 := NewStore maxSessions idle absolute in
  let rs := (run_ops iter ops st0).1 in
  let ideal := (run_ideal (st_idleTimeout st0) (st_absoluteTimeout st0) ops ∅).1 in
  Z.of_nat (size (st_sessions (run_ops iter ops st0).2)) ≤ st_maxSessions (run_ops iter ops st0).2 ∧
  (∀ k s, rs !! k = Some (Some s) → ideal !! k = Some (Some s)) ∧
  (∀ last, in_time last ops → foldr (λ op n, creates op + n) 0 ops ≤ st_maxSessions st0 → rs = ideal).
Proof.
  intros Hiter st0 rs ideal. pose proof (NewStore_ok maxSessions idle absolute) as Hok. fold st0 in Hok.
  assert (Hsub : st_sessions st0 ⊆ ∅) by done.
  pose proof (run_sound iter Hiter ops st0 ∅ Hok Hsub) as Hs. split_and!.
  - destruct (run_ops iter ops st0) as [rs' st']. destruct (run_ideal _ _ ops ∅). by apply so_size, Hs.
  - unfold rs, ideal. destruct (run_ops iter ops st0) as [rs' st']. destruct (run_ideal _ _ ops ∅). apply Hs.
  - intros last Ht Hk. apply (run_complete iter Hiter ops st0 ∅ last 0 Hok); [|done|lia].
    split; simpl; [done|by rewrite map_size_empty| |]; intros id s; by rewrite lookup_empty.
Qed.

Definition demo_rand (n : Z) : list Z := replicate 32 n ++ replicate 32 (n + 1).

Definition demo_session_id : string := hex_encode (replicate 32 7).

Definition demo_session_ops : list session_op :=
  [OCreate 10 (demo_rand 7); OGet 20 demo_session_id; ORevoke demo_session_id; OGet 30 demo_session_id].

Lemma session_store_refines_witness :
  (map (λ r : option Session, if r is Some _ then true else false) (run_ops map_to_list demo_session_ops (NewStore 2 100 1000)).1 = [true; true; false; false]) ∧
  let st0 := NewStore 2 100 1000 in
  let rs := (run_ops map_to_list demo_session_ops st0).1 in
  let ideal := (run_ideal (st_idleTimeout st0) (st_absoluteTimeout st0) demo_session_ops ∅).1 in
  Z.of_nat (size (st_sessions (run_ops map_to_list demo_session_ops st0).2)) ≤ st_maxSessions (run_ops map_to_list demo_session_ops st0).2 ∧
  (∀ k s, rs !! k = Some (Some s) → ideal !! k = Some (Some s)) ∧
  (∀ last, in_time last demo_session_ops → foldr (λ op n, creates op + n) 0 demo_session_ops ≤ st_maxSessions st0 → rs = ideal).
Proof.
  split; [vm_compute; reflexivity|].
  apply (session_store_refines map_to_list 2 100 1000 demo_session_ops). done.
Defined.

(** A new session displaces at most the session that was idle longest.  After a
    successful [Create] the new session is stored with the current time, the
    sessions that were not expired are unchanged except for at most one, which goes
    only when the store was full of unexpired sessions and which no remaining one
    was idle longer than, and nothing else is in the store. *)
Theorem Create_evicts_lru (iter : gmap string Session → list (string * Session)) now rand st s rand' st' :
  (∀ m, iter m ≡ₚ map_to_list m) → store_ok st → Store_Create iter now rand st = (Some s, rand', st') →
  s_CreatedAt s = now ∧ s_LastActiveAt s = now ∧ st_sessions st' !! s_ID s = Some s ∧
  (∀ id t, id ≠ s_ID s → st_sessions st' !! id = Some t → st_sessions st !! id = Some t ∧ expired st now t = false) ∧
  ∃ victim : option string,
    (∀ id t, id ≠ s_ID s → st_sessions st !! id = Some t → expired st now t = false → Some id ≠ victim →
       st_sessions st' !! id = Some t) ∧
    (∀ v, victim = Some v →
       st_maxSessions st ≤ Z.of_nat (size (filter (λ e : string * Session, expired st now e.2 = false) (st_sessions st))) ∧
       ∃ tv, st_sessions st !! v = Some tv ∧
         ∀ id t, id ≠ s_ID s → st_sessions st' !! id = Some t → s_LastActiveAt tv ≤ s_LastActiveAt t).
Proof.
  intros Hiter Hok. rewrite Create_unfold.
  destruct (randomHex rand 32) as [[id|] rand1]; [|done]. destruct (randomHex rand1 32) as [[token|] rand2]; [|done].
  intros [= <- _ <-]. cbn [s_CreatedAt s_LastActiveAt s_ID with_sessions st_sessions].
  split_and!; [done|done|by rewrite lookup_insert_eq| |].
  { intros id' t Hne. rewrite lookup_insert_ne by done. by apply roomy_sub. }
  destruct (roomy_spec iter Hiter now st Hok) as (_ & _ & _ & _ & [[E _]|(Hfull & v & tv & Hv & E & Hmin)]).
  - exists None. split; [|done]. intros id' t Hne Ht He _. rewrite lookup_insert_ne by done. rewrite E.
    by apply map_lookup_filter_Some.
  - exists (Some v). split.
    + intros id' t Hne Ht He Hnv. rewrite lookup_insert_ne by done. rewrite E, lookup_delete_ne by congruence.
      by apply map_lookup_filter_Some.
    + intros v' [= <-]. split; [done|]. exists tv. split; [by apply map_lookup_filter_Some in Hv as [? _]|].
      intros id' t Hne. rewrite lookup_insert_ne by done. rewrite E. intros [_ Ht]%lookup_delete_Some. by eapply Hmin.
Qed.

Definition demo_full_store : Store :=
  mkStore {[ "a"%string := mkSession "a" "x" 1 5; "b"%string := mkSession "b" "y" 2 3 ]} 2 100 1000.

Lemma demo_full_store_ok : store_ok demo_full_store.
Proof.
  split; [done|vm_compute; discriminate|]. intros id s Hs ->. vm_compute in Hs. done.
Qed.

Lemma Create_evicts_lru_witness :
  ∃ s rand' st', Store_Create map_to_list 10 (demo_rand 7) demo_full_store = (Some s, rand', st') ∧
  s_CreatedAt s = 10 ∧ s_LastActiveAt s = 10 ∧ st_sessions st' !! s_ID s = Some s ∧
  (∀ id t, id ≠ s_ID s → st_sessions st' !! id = Some t → st_sessions demo_full_store !! id = Some t ∧ expired demo_full_store 10 t = false) ∧
  ∃ victim : option string,
    (∀ id t, id ≠ s_ID s → st_sessions demo_full_store !! id = Some t → expired demo_full_store 10 t = false → Some id ≠ victim →
       st_sessions st' !! id = Some t) ∧
    (∀ v, victim = Some v →
       st_maxSessions demo_full_store ≤
         Z.of_nat (size (filter (λ e : string * Session, expired demo_full_store 10 e.2 = false) (st_sessions demo_full_store))) ∧
       ∃ tv, st_sessions demo_full_store !! v = Some tv ∧
         ∀ id t, id ≠ s_ID s → st_sessions st' !! id = Some t → s_LastActiveAt tv ≤ s_LastActiveAt t).
Proof.
  do 3 eexists. split; [vm_compute; reflexivity|].
  eapply (Create_evicts_lru map_to_list 10 (demo_rand 7) demo_full_store); [done|apply demo_full_store_ok|vm_compute; reflexivity].
Defined.

(** ** The lockout *)

Section login.
Context (iter : gmap string rateLimitEntry → list (string * rateLimitEntry)).

(** Failures of one address at the given times. *)
Definition fail_all (ip : string) (ts : list Z) (l : LoginRateLimiter) : LoginRateLimiter :=
  foldl (λ l t, Login_RecordFailure iter t ip l) l ts.

(** Two failures are needed at least: the first one only opens the entry. *)
Definition locks (l : LoginRateLimiter) (n : Z) : bool := (2 <=? n) && (ll_maxAttempts l <=? n).

(** [n] failures so far, the first at [first] and the last at [last]. *)
Definition failing (l l' : LoginRateLimiter) (ip : string) (n first last : Z) : Prop :=
  ll_failures l' !! ip = Some (mkEntry n first last (if locks l n then last + ll_lockoutDuration l else zeroTime)) ∧
  Z.of_nat (size (ll_failures l')) < ll_maxTrackedIPs l ∧
  ll_maxTrackedIPs l' = ll_maxTrackedIPs l ∧ ll_maxAttempts l' = ll_maxAttempts l ∧
  ll_window l' = ll_window l ∧ ll_lockoutDuration l' = ll_lockoutDuration l.

Lemma makeRoom_small now l :
  Z.of_nat (size (ll_failures l)) < ll_maxTrackedIPs l → Login_makeRoom iter now l = l.
Proof. intros H. unfold Login_makeRoom. by rewrite (proj2 (Z.leb_gt _ _)). Qed.

Lemma failing_first l ip t :
  ip ≠ ""%string → ll_failures l !! ip = None → Z.of_nat (size (ll_failures l)) + 1 < ll_maxTrackedIPs l →
  failing l (Login_RecordFailure iter t ip l) ip 1 t t.
Proof.
  intros Hip Hn Hsz. unfold Login_RecordFailure. rewrite bool_decide_false by done. rewrite makeRoom_small by lia.
  rewrite Hn. split_and!; simpl; try done; [by rewrite lookup_insert_eq|]. rewrite map_size_insert_None by done. lia.
Qed.

Lemma failing_next l l' ip n first last t :
  ip ≠ ""%string → failing l l' ip n first last → 1 ≤ n < maxInt64 → first ≤ t → t - first ≤ ll_window l ≤ maxInt64 →
  failing l (Login_RecordFailure iter t ip l') ip (n + 1) first t.
Proof.
  intros Hip (He & Hsz & C1 & C2 & C3 & C4) Hn Hf Hw. unfold Login_RecordFailure. rewrite bool_decide_false by done.
  rewrite makeRoom_small by lia. rewrite He. cbn [re_firstFailed re_count re_lockedUntil]. unfold Sub.
  rewrite (proj2 (Z.ltb_ge _ _)) by (rewrite C3; lia64). rewrite add64_id by lia64.
  split_and!; simpl; try done.
  - rewrite lookup_insert_eq. do 2 f_equal. unfold locks. rewrite C2, C4.
    rewrite (proj2 (Z.leb_le 2 (n + 1))) by lia. simpl. destruct (Z.leb_spec (ll_maxAttempts l) (n + 1)); [done|].
    rewrite (proj2 (Z.leb_gt (ll_maxAttempts l) n)) by lia. by rewrite andb_false_r.
  - by rewrite map_size_insert_Some.
Qed.

Lemma failing_all l l' ip n first last ts :
  ip ≠ ""%string → failing l l' ip n first last → 1 ≤ n → n + Z.of_nat (length ts) ≤ maxInt64 →
  Forall (λ t, first ≤ t ∧ t - first ≤ ll_window l) ts → ll_window l ≤ maxInt64 →
  failing l (fail_all ip ts l') ip (n + Z.of_nat (length ts)) first (List.last ts last).
Proof.
  intros Hip. revert l' n last. induction ts as [|t ts IH]; intros l' n last Hf Hn Hlen Hts Hw.
  { simpl. by rewrite Z.add_0_r. }
  inversion Hts as [|?? [H1 H2] H3]; subst. rewrite length_cons in Hlen.
  assert (Hf' : failing l (Login_RecordFailure iter t ip l') ip (n + 1) first t) by (apply (failing_next l l' ip n first last t); (done || lia)).
  specialize (IH _ _ _ Hf' ltac:(lia) ltac:(lia) H3 Hw).
  replace (n + Z.of_nat (length (t :: ts))) with (n + 1 + Z.of_nat (length ts)) by (rewrite length_cons; lia).
  replace (List.last (t :: ts) last) with (List.last ts t); [exact IH|].
  clear. destruct ts as [|u ts]; [done|]. simpl. revert u. induction ts; intros u; simpl; [done|]. apply IHts.
Qed.

End login.

(** Repeated failures lock an address out, and only they do.  For an address
    without an entry, with room in the table, failures within one window: as soon
    as there are [maxAttempts] of them (and two at least, since the first only
    opens the entry) every login is refused from the last failure until the lockout
    has passed; with fewer, every later login is allowed. *)
Theorem login_lockout_exact (iter : gmap string rateLimitEntry → list (string * rateLimitEntry)) l ip first rest now :
  ip ≠ ""%string → ll_failures l !! ip = None → Z.of_nat (size (ll_failures l)) + 1 < ll_maxTrackedIPs l →
  Forall (λ t, first ≤ t ∧ t - first ≤ ll_window l) rest → ll_window l ≤ maxInt64 →
  Z.of_nat (length (first :: rest)) ≤ maxInt64 → zeroTime ≤ now →
  let n := Z.of_nat (length (first :: rest)) in
  let l' := fail_all iter ip (first :: rest) l in
  (Login_Allow now ip l').1 =
  negb ((2 <=? n) && (ll_maxAttempts l <=? n) && (now <? List.last rest first + ll_lockoutDuration l)).
Proof.
  intros Hip Hn Hsz Hts Hw Hlen Hnow n l'.
  assert (Hf : failing l l' ip n first (List.last rest first)).
  { unfold n. rewrite length_cons, Nat2Z.inj_succ, <-Z.add_1_l.
    apply (failing_all iter l (Login_RecordFailure iter first ip l) ip 1 first first rest); try done.
    - by apply failing_first.
    - rewrite length_cons in Hlen. lia. }
  destruct Hf as (He & _ & _ & _ & C3 & _). unfold Login_Allow. rewrite bool_decide_false by done. rewrite He.
  cbn [re_lockedUntil re_firstFailed]. unfold locks, Before.
  destruct ((2 <=? n) && (ll_maxAttempts l <=? n)); simpl.
  - destruct (Z.ltb_spec now (List.last rest first + ll_lockoutDuration l)); simpl; [done|]. destruct (_ && _); done.
  - rewrite (proj2 (Z.ltb_ge _ _)) by done. destruct (_ && _); done.
Qed.

Definition demo_login : LoginRateLimiter := NewLoginRateLimiter 0 3 100 50.

Lemma login_lockout_exact_witness :
  (Login_Allow 40 "1.2.3.4" (fail_all map_to_list "1.2.3.4" [10; 20; 30] demo_login)).1 = false.
Proof.
  apply (login_lockout_exact map_to_list demo_login "1.2.3.4" 10 [20; 30] 40); try done.
  repeat constructor; vm_compute; discriminate.
Defined.

(** The address table stays bounded, whatever the iteration order. *)
Lemma RecordFailure_bounded iter now ip l :
  (∀ m, iter m ≡ₚ map_to_list m) → (∀ a e, ll_failures l !! a = Some e → a ≠ ""%string) → 0 < ll_maxTrackedIPs l →
  Z.of_nat (size (ll_failures l)) ≤ ll_maxTrackedIPs l →
  Z.of_nat (size (ll_failures (Login_RecordFailure iter now ip l))) ≤ ll_maxTrackedIPs l.
Proof.
  intros Hiter Hids Hmax Hsz. unfold Login_RecordFailure. destruct (bool_decide _); [done|].
  assert (Hroom : Z.of_nat (size (ll_failures (Login_makeRoom iter now l))) < ll_maxTrackedIPs l).
  { unfold Login_makeRoom. destruct (Z.leb_spec (ll_maxTrackedIPs l) (Z.of_nat (size (ll_failures l)))); [|lia].
    set (lp := Login_purgeExpiredLocked now l). change (ll_maxTrackedIPs lp) with (ll_maxTrackedIPs l).
    pose proof (map_size_filter (λ e : string * rateLimitEntry, entry_stale l now e.2 = false) (ll_failures l)) as Hp.
    change (size (ll_failures lp) ≤ size (ll_failures l))%nat in Hp.
    destruct (Z.leb_spec (ll_maxTrackedIPs l) (Z.of_nat (size (ll_failures lp)))); [|lia].
    assert (Hne : ll_failures lp ≠ ∅) by (intros E; rewrite E, map_size_empty in *; lia).
    destruct (oldest_spec re_lastFailed _ _ (Hiter (ll_failures lp)) Hne) as (v & e & E & Hv & _).
    unfold Login_evictOldestLocked. rewrite E. rewrite bool_decide_false.
    - cbn [ll_failures with_failures]. rewrite map_size_delete_Some by (by eexists). lia.
    - apply (Hids v e). by apply map_lookup_filter_Some in Hv as [? _]. }
  repeat case_match; simpl; rewrite map_size_insert; destruct (_ !! ip); simpl; lia.
Qed.
