(* ===== verification/GatewayKey.v ===== *)
(** * Gateway keys ([internal/auth/key.go])

    A key is a namespace followed by the unpadded URL base64 of 32 random bytes.
    [encoding/base64] is modelled as the code uses it; HMAC-SHA256 is the argument
    [hmac], and the random source is the list of the bytes it will return. *)

From Stdlib Require Import Ascii ZArith Lia ZifyBool.
From stdpp Require Import prelude strings list.
From S2P Require Import Prelude Text.
Local Open Scope Z_scope.

(** ** [base64.RawURLEncoding] *)

Definition alphabet : bytes := str "ABCDEFGHIJKLMNOPQRSTUVWXYZabcdefghijklmnopqrstuvwxyz0123456789-_".

Definition enc6 (z : Z) : ascii := default "A"%char (alphabet !! Z.to_nat z).
Definition dec6 (c : ascii) : option Z := Z.of_nat <$> IndexByte alphabet c.

Fixpoint EncodeToString (s : bytes) : bytes :=
  match s with
  | a :: b :: c :: rest =>
      let n := code a * 65536 + code b * 256 + code c in
      enc6 (n / 262144) :: enc6 (n / 4096 mod 64) :: enc6 (n / 64 mod 64) :: enc6 (n mod 64) :: EncodeToString rest
  | [a; b] =>
      let n := code a * 65536 + code b * 256 in
      [enc6 (n / 262144); enc6 (n / 4096 mod 64); enc6 (n / 64 mod 64)]
  | [a] => let n := code a * 65536 in [enc6 (n / 262144); enc6 (n / 4096 mod 64)]
  | [] => []
  end.

(** The bytes of a sequence of sextets; the unused bits of the last one are not
    checked, a single left-over sextet is an error. *)
Fixpoint join_sextets (l : list Z) : option bytes :=
  match l with
  | w :: x :: y :: z :: rest =>
      let n := w * 262144 + x * 4096 + y * 64 + z in
      (λ t, chr (n / 65536) :: chr (n / 256 mod 256) :: chr (n mod 256) :: t) <$> join_sextets rest
  | [w; x; y] => let n := w * 262144 + x * 4096 + y * 64 in Some [chr (n / 65536); chr (n / 256 mod 256)]
  | [w; x] => let n := w * 262144 + x * 4096 in Some [chr (n / 65536)]
  | [w] => None
  | [] => Some []
  end.

(** Line breaks are skipped. *)
Definition DecodeString (s : bytes) : option bytes :=
  sextets ← mapM dec6 (filter (λ c, c ≠ "010"%char ∧ c ≠ "013"%char) s); join_sextets sextets.

(** ** Keys *)

Definition GatewayKeyNamespace : bytes := str "sk-gw-".
Definition GatewayKeyRandomBytes : nat := 32.
Definition GatewayKeyDisplayPrefixLength : nat := 8.
Definition encodedRandomLength : nat := 43.
Definition keyLength : nat := 49.
Definition prefixLength : nat := 14.

Inductive key_error := ErrInvalidGatewayKey | ErrInvalidPepper | ErrRandomUnavailable.

Record GeneratedGatewayKey := mkGenerated { gk_RawKey : bytes; gk_DisplayPrefix : bytes; gk_Digest : bytes }.

Definition ParseGatewayKey (rawKey : bytes) : result key_error bytes :=
  if negb (length rawKey =? keyLength)%nat || (length rawKey <? prefixLength)%nat
     || negb (bool_decide (take (length GatewayKeyNamespace) rawKey = GatewayKeyNamespace))
  then Err ErrInvalidGatewayKey
  else
    let encoded := drop (length GatewayKeyNamespace) rawKey in
    match DecodeString encoded with
    | None => Err ErrInvalidGatewayKey
    | Some material =>
        if negb (length material =? GatewayKeyRandomBytes)%nat || negb (bool_decide (EncodeToString material = encoded))
        then Err ErrInvalidGatewayKey
        else Ok (take prefixLength rawKey)
    end.

Section keys.
Context (hmac : bytes → bytes → bytes).

Definition digestKey (pepper rawKey : bytes) : bytes := hmac pepper rawKey.

(** [None] is a generator without a random source. *)
Definition Generate (random : option bytes) (pepper : bytes) : result key_error GeneratedGatewayKey :=
  if (length pepper =? 0)%nat then Err ErrInvalidPepper
  else match random with
       | None => Err ErrRandomUnavailable
       | Some random =>
           if (length random <? GatewayKeyRandomBytes)%nat then Err ErrRandomUnavailable
           else
             let rawKey := GatewayKeyNamespace ++ EncodeToString (take GatewayKeyRandomBytes random) in
             Ok (mkGenerated rawKey (take prefixLength rawKey) (digestKey pepper rawKey))
       end.

Definition FingerprintGatewayKey (pepper rawKey : bytes) : result key_error bytes :=
  let? _ := ParseGatewayKey rawKey in
  if (length pepper =? 0)%nat then Err ErrInvalidPepper else Ok (digestKey pepper rawKey).

Definition sha256_Size : nat := 32.

Definition VerifyGatewayKey (pepper rawKey expectedDigest : bytes) : bool :=
  if negb (length expectedDigest =? sha256_Size)%nat then false
  else match FingerprintGatewayKey pepper rawKey with
       | Ok digest => bool_decide (digest = expectedDigest)
       | Err _ => false
       end.

End keys.

(** ** Base64 round trip *)

Section base64.

Lemma dec6_enc6 z : 0 ≤ z < 64 → dec6 (enc6 z) = Some z.
Proof.
  intros Hz.
  assert (H : forallb (λ n, bool_decide (dec6 (enc6 (Z.of_nat n)) = Some (Z.of_nat n))) (seq 0 64) = true)
    by (vm_compute; reflexivity).
  rewrite forallb_forall in H. specialize (H (Z.to_nat z)). rewrite bool_decide_eq_true, Z2Nat.id in H by lia.
  apply H. apply in_seq. lia.
Qed.

Lemma enc6_plain z : 0 ≤ z < 64 → enc6 z ≠ "010"%char ∧ enc6 z ≠ "013"%char.
Proof.
  intros Hz.
  assert (H : forallb (λ n, bool_decide (enc6 (Z.of_nat n) ≠ "010"%char ∧ enc6 (Z.of_nat n) ≠ "013"%char)) (seq 0 64) = true)
    by (vm_compute; reflexivity).
  rewrite forallb_forall in H. specialize (H (Z.to_nat z)). rewrite bool_decide_eq_true, Z2Nat.id in H by lia.
  apply H. apply in_seq. lia.
Qed.

(** The sextets the encoder writes. *)
Fixpoint sextets_of (s : bytes) : list Z :=
  match s with
  | a :: b :: c :: rest =>
      let n := code a * 65536 + code b * 256 + code c in
      n / 262144 :: n / 4096 mod 64 :: n / 64 mod 64 :: n mod 64 :: sextets_of rest
  | [a; b] => let n := code a * 65536 + code b * 256 in [n / 262144; n / 4096 mod 64; n / 64 mod 64]
  | [a] => let n := code a * 65536 in [n / 262144; n / 4096 mod 64]
  | [] => []
  end.

(** Induction over groups of three bytes. *)
Lemma triple_ind (P : bytes → Prop) :
  P [] → (∀ a, P [a]) → (∀ a b, P [a; b]) → (∀ a b c rest, P rest → P (a :: b :: c :: rest)) → ∀ s, P s.
Proof.
  intros H0 H1 H2 H3 s. enough (Hn : ∀ n s, (length s ≤ n)%nat → P s) by (by apply (Hn (length s))).
  clear s. induction n as [|n IH]; intros [|a [|b [|c rest]]] Hl; simpl in Hl; auto; try lia.
  apply H3, IH. lia.
Qed.

Lemma EncodeToString_sextets s : EncodeToString s = map enc6 (sextets_of s).
Proof. induction s as [| | |a b c rest IH] using triple_ind; simpl; congruence. Qed.

Lemma sextets_range s : Forall (λ z, 0 ≤ z < 64) (sextets_of s).
Proof.
  induction s as [|a|a b|a b c rest IH] using triple_ind; cbn [sextets_of];
    repeat match goal with c : ascii |- _ => lazymatch goal with H : 0 <= code c < 256 |- _ => fail | _ => pose proof (code_range c) end end;
    repeat constructor; try (apply Z.mod_pos_bound; lia); try done; div_lia.
Qed.

Lemma chr_eq z c : z = code c → chr z = c.
Proof. intros ->. apply chr_code. Qed.

(** Four sextets are three bytes. *)
Lemma sextets_sum n :
  0 ≤ n < 16777216 → n / 262144 * 262144 + n / 4096 mod 64 * 4096 + n / 64 mod 64 * 64 + n mod 64 = n.
Proof. intros Hn. div_lia. Qed.

Lemma join_sextets_of s : join_sextets (sextets_of s) = Some s.
Proof.
  induction s as [|a|a b|a b c rest IH] using triple_ind; cbn [sextets_of join_sextets]; [done|..].
  - pose proof (code_range a). do 2 f_equal. apply chr_eq. div_lia.
  - pose proof (code_range a). pose proof (code_range b).
    set (n := code a * 65536 + code b * 256).
    replace (n / 262144 * 262144 + n / 4096 mod 64 * 4096 + n / 64 mod 64 * 64) with n
      by (pose proof (sextets_sum n ltac:(unfold n; lia)); assert (n mod 64 = 0) by (unfold n; div_lia); lia).
    do 2 f_equal; [|f_equal]; apply chr_eq; unfold n; div_lia.
  - pose proof (code_range a). pose proof (code_range b). pose proof (code_range c).
    rewrite IH. rewrite sextets_sum by lia. simpl. do 2 f_equal; [|f_equal; [|f_equal]]; apply chr_eq; div_lia.
Qed.

Lemma mapM_dec6 l : Forall (λ z, 0 ≤ z < 64) l → mapM dec6 (map enc6 l) = Some l.
Proof. induction 1 as [|z l Hz _ IH]; [done|]. cbn [map mapM]. by rewrite dec6_enc6, IH. Qed.

Lemma filter_enc6 l :
  Forall (λ z, 0 ≤ z < 64) l → filter (λ c, c ≠ "010"%char ∧ c ≠ "013"%char) (map enc6 l) = map enc6 l.
Proof.
  induction 1 as [|z l Hz _ IH]; [done|]. cbn [map]. rewrite filter_cons_True by (by apply enc6_plain). by rewrite IH.
Qed.

Lemma DecodeString_Encode s : DecodeString (EncodeToString s) = Some s.
Proof.
  unfold DecodeString. rewrite EncodeToString_sextets. rewrite filter_enc6, mapM_dec6 by apply sextets_range.
  apply join_sextets_of.
Qed.

Lemma Encode_length s : length s = GatewayKeyRandomBytes → length (EncodeToString s) = encodedRandomLength.
Proof. intros H. do 33 (destruct s as [|? s]; [try done|]); done. Qed.

End base64.

(** The texts the parser accepts. *)
Lemma ParseGatewayKey_iff rawKey p :
  ParseGatewayKey rawKey = Ok p ↔
  p = take prefixLength rawKey ∧
  ∃ material, length material = GatewayKeyRandomBytes ∧ rawKey = GatewayKeyNamespace ++ EncodeToString material.
Proof.
  unfold ParseGatewayKey. split.
  - destruct (_ || negb (bool_decide _)) eqn:E; [done|]. rewrite !orb_false_iff in E. destruct E as [_ E].
    apply negb_false_iff, bool_decide_eq_true in E.
    destruct (DecodeString _) as [m|]; [|done]. destruct (_ || _) eqn:E2; [done|]. intros [= <-].
    rewrite orb_false_iff in E2. destruct E2 as [E2 E3]. split; [done|]. exists m. split.
    + by apply negb_false_iff, Nat.eqb_eq in E2.
    + apply negb_false_iff, bool_decide_eq_true in E3. rewrite E3, <-E at 1. by rewrite take_drop.
  - intros [-> (m & Hm & ->)]. pose proof (Encode_length m Hm) as Hl. rewrite length_app, Hl.
    rewrite take_app_length, drop_app_length. rewrite bool_decide_true by done.
    change (length GatewayKeyNamespace + encodedRandomLength)%nat with 49%nat. simpl negb. cbn [orb Nat.eqb Nat.ltb Nat.leb].
    rewrite DecodeString_Encode. rewrite Hm. rewrite bool_decide_true by done. done.
Qed.

Lemma Generate_spec hmac random pepper k :
  Generate hmac random pepper = Ok k →
  pepper ≠ [] ∧ ∃ material, length material = GatewayKeyRandomBytes ∧
  gk_RawKey k = GatewayKeyNamespace ++ EncodeToString material ∧
  gk_DisplayPrefix k = take prefixLength (gk_RawKey k) ∧ gk_Digest k = digestKey hmac pepper (gk_RawKey k).
Proof.
  unfold Generate. destruct (length pepper =? 0)%nat eqn:Ep; [done|]. apply Nat.eqb_neq in Ep.
  destruct random as [r|]; [|done]. destruct (Nat.ltb_spec (length r) GatewayKeyRandomBytes); [done|]. cbv zeta.
  intros H'. assert (Hr : ∀ x y : GeneratedGatewayKey, Ok (E := key_error) x = Ok y → y = x) by congruence.
  apply Hr in H' as ->. split; [by intros ->|]. exists (take GatewayKeyRandomBytes r).
  split; [rewrite length_take; lia|]. done.
Qed.

(** The accepted keys are exactly the issued ones.  [ParseGatewayKey] accepts a
    text if and only if it is the namespace followed by the encoding of 32 bytes,
    and then returns its first 14 bytes; every key [Generate] issues is accepted,
    its fingerprint is the stored digest, and [VerifyGatewayKey] recognises it
    (for a digest function of 32 bytes, as HMAC-SHA256 is). *)
Theorem gateway_keys_roundtrip (hmac : bytes → bytes → bytes) :
  (∀ pepper key, length (hmac pepper key) = sha256_Size) →
  (∀ rawKey p, ParseGatewayKey rawKey = Ok p ↔
     p = take prefixLength rawKey ∧
     ∃ material, length material = GatewayKeyRandomBytes ∧ rawKey = GatewayKeyNamespace ++ EncodeToString material) ∧
  (∀ random pepper k, Generate hmac random pepper = Ok k →
     ParseGatewayKey (gk_RawKey k) = Ok (gk_DisplayPrefix k) ∧
     FingerprintGatewayKey hmac pepper (gk_RawKey k) = Ok (gk_Digest k) ∧
     VerifyGatewayKey hmac pepper (gk_RawKey k) (gk_Digest k) = true).
Proof.
  intros Hmac. split; [exact ParseGatewayKey_iff|]. intros random pepper k H. apply Generate_spec in H as (Hp & m & Hm & Hr & Hd & Hg).
  assert (Hok : ParseGatewayKey (gk_RawKey k) = Ok (gk_DisplayPrefix k)) by (apply ParseGatewayKey_iff; eauto).
  assert (Hfp : FingerprintGatewayKey hmac pepper (gk_RawKey k) = Ok (gk_Digest k)).
  { unfold FingerprintGatewayKey. rewrite Hok, Hg. simpl. by destruct pepper. }
  split_and!; [done..|]. unfold VerifyGatewayKey. rewrite Hfp. rewrite Hg at 1. unfold digestKey. rewrite Hmac. simpl.
  by rewrite bool_decide_true.
Qed.

Definition demo_hmac (pepper key : bytes) : bytes := take 32 (drop 10 key ++ replicate 32 "0"%char).

Lemma demo_hmac_length pepper key : length (demo_hmac pepper key) = sha256_Size.
Proof. unfold demo_hmac. rewrite length_take, length_app, length_replicate. unfold sha256_Size. lia. Qed.

Lemma gateway_keys_roundtrip_witness :
  (∃ k, Generate demo_hmac (Some (replicate 40 "x"%char)) (str "pepper") = Ok k) ∧
  (∀ rawKey p, ParseGatewayKey rawKey = Ok p ↔
     p = take prefixLength rawKey ∧
     ∃ material, length material = GatewayKeyRandomBytes ∧ rawKey = GatewayKeyNamespace ++ EncodeToString material) ∧
  (∀ random pepper k, Generate demo_hmac random pepper = Ok k →
     ParseGatewayKey (gk_RawKey k) = Ok (gk_DisplayPrefix k) ∧
     FingerprintGatewayKey demo_hmac pepper (gk_RawKey k) = Ok (gk_Digest k) ∧
     VerifyGatewayKey demo_hmac pepper (gk_RawKey k) (gk_Digest k) = true).
Proof. split; [eexists; reflexivity|]. apply (gateway_keys_roundtrip demo_hmac demo_hmac_length). Defined.
