(* ===== verification/Json.v ===== *)
(** * JSON as Go's [encoding/json] reads it

    The policy compiler, the input estimator and the usage observers decode
    JSON with [json.Unmarshal], [json.Decoder] and [json.RawMessage].  A raw
    message is the text of a value; reading a text gives its outermost shape,
    with the texts of the members or elements, and the code reads those in
    turn.  The grammar, the nesting limit, the unquoting of strings (surrogate
    pairs, invalid UTF-8), the rules for [null] and the field matching of
    structs are those of the package. *)

From Stdlib Require Import Ascii ZArith Lia ZifyBool.
From stdpp Require Import prelude strings list.
From S2P Require Import Prelude Text Utf8.
Local Open Scope Z_scope.

(** ** The scanner *)

Definition quote_char : ascii := "034"%char.
Definition backslash : ascii := "092"%char.

(** [isSpace] of the scanner. *)
Definition json_space (c : ascii) : bool :=
  (code c =? 32) || (code c =? 9) || (code c =? 10) || (code c =? 13).

Fixpoint skip_ws (s : bytes) : bytes :=
  match s with
  | c :: s' => if json_space c then skip_ws s' else s
  | [] => []
  end.

Definition is_hex (c : ascii) : bool :=
  is_digit c || ((97 <=? code c) && (code c <=? 102)) || ((65 <=? code c) && (code c <=? 70)).

Definition hex_value (c : ascii) : Z :=
  if is_digit c then code c - 48 else if 97 <=? code c then code c - 87 else code c - 55.

Definition simple_escape (c : ascii) : bool := bool_decide (c ∈ [quote_char; backslash; "/"; "b"; "f"; "n"; "r"; "t"]%char).

(** The text of a string after its opening quote: the content (escapes
    included) and what follows the closing quote. *)
Fixpoint scan_string (s : bytes) : option (bytes * bytes) :=
  match s with
  | [] => None
  | c :: s1 =>
      if byte_eqb c quote_char then Some ([], s1)
      else if byte_eqb c backslash then
        match s1 with
        | [] => None
        | e :: s2 =>
            if simple_escape e then
              match scan_string s2 with Some (x, r) => Some (c :: e :: x, r) | None => None end
            else if byte_eqb e "u" then
              match s2 with
              | h1 :: h2 :: h3 :: h4 :: s3 =>
                  if forallb is_hex [h1; h2; h3; h4] then
                    match scan_string s3 with
                    | Some (x, r) => Some (c :: e :: h1 :: h2 :: h3 :: h4 :: x, r)
                    | None => None
                    end
                  else None
              | _ => None
              end
            else None
        end
      else if code c <? 32 then None
      else match scan_string s1 with Some (x, r) => Some (c :: x, r) | None => None end
  end.

Fixpoint skip_digits (s : bytes) : bytes :=
  match s with
  | c :: s' => if is_digit c then skip_digits s' else s
  | [] => []
  end.

(** At least one digit. *)
Definition digits1 (s : bytes) : option bytes :=
  match s with
  | c :: s' => if is_digit c then Some (skip_digits s') else None
  | [] => None
  end.

Definition scan_fraction (s : bytes) : option bytes :=
  match s with
  | c :: s' => if byte_eqb c dot then digits1 s' else Some s
  | [] => Some s
  end.

Definition scan_exponent (s : bytes) : option bytes :=
  match s with
  | c :: s' =>
      if byte_eqb c "e" || byte_eqb c "E" then
        match s' with
        | g :: s'' => if byte_eqb g plus_char || byte_eqb g minus_char then digits1 s'' else digits1 s'
        | [] => None
        end
      else Some s
  | [] => Some s
  end.

Definition scan_integer (s : bytes) : option bytes :=
  match s with
  | c :: s' => if byte_eqb c zero_char then Some s' else if is_digit c then Some (skip_digits s') else None
  | [] => None
  end.

(** What follows a number literal. *)
Definition scan_number (s : bytes) : option bytes :=
  let s1 := match s with c :: s' => if byte_eqb c minus_char then s' else s | [] => s end in
  s2 ← scan_integer s1; s3 ← scan_fraction s2; scan_exponent s3.

Fixpoint strip_prefix (p s : bytes) : option bytes :=
  match p, s with
  | [], _ => Some s
  | c :: p', x :: s' => if byte_eqb c x then strip_prefix p' s' else None
  | _ :: _, [] => None
  end.

(** The outermost shape of a value: [SString] and the keys of [SObject] hold
    the quoted content, [SNumber] the literal, members and elements their text. *)
Inductive shape :=
| SNull
| SBool (b : bool)
| SNumber (lit : bytes)
| SString (content : bytes)
| SArray (elems : list bytes)
| SObject (members : list (bytes * bytes)).

#[export] Instance shape_eq_dec : EqDecision shape.
Proof. solve_decision. Defined.

(** The text between two positions. *)
Definition consumed (s r : bytes) : bytes := take (length s - length r) s.

Definition scan_literal (s : bytes) : option (shape * bytes) :=
  match strip_prefix (str "null") s with
  | Some r => Some (SNull, r)
  | None =>
      match strip_prefix (str "true") s with
      | Some r => Some (SBool true, r)
      | None =>
          match strip_prefix (str "false") s with
          | Some r => Some (SBool false, r)
          | None => r ← scan_number s; Some (SNumber (consumed s r), r)
          end
      end
  end.

(** [n] is fuel, [d] the nesting that is still allowed. *)
Fixpoint value (n d : nat) (s : bytes) : option (shape * bytes) :=
  match n with
  | O => None
  | S n =>
      match s with
      | [] => None
      | c :: s1 =>
          if byte_eqb c "{" then
            match d with
            | O => None
            | S d =>
                match skip_ws s1 with
                | [] => None
                | c2 :: s2 =>
                    if byte_eqb c2 "}" then Some (SObject [], s2)
                    else match members n d (c2 :: s2) with Some (ms, r) => Some (SObject ms, r) | None => None end
                end
            end
          else if byte_eqb c "[" then
            match d with
            | O => None
            | S d =>
                match skip_ws s1 with
                | [] => None
                | c2 :: s2 =>
                    if byte_eqb c2 "]" then Some (SArray [], s2)
                    else match elements n d (c2 :: s2) with Some (l, r) => Some (SArray l, r) | None => None end
                end
            end
          else if byte_eqb c quote_char then
            match scan_string s1 with Some (x, r) => Some (SString x, r) | None => None end
          else scan_literal s
      end
  end
with members (n d : nat) (s : bytes) : option (list (bytes * bytes) * bytes) :=
  match n with
  | O => None
  | S n =>
      match s with
      | [] => None
      | c :: s1 =>
          if negb (byte_eqb c quote_char) then None
          else
            match scan_string s1 with
            | None => None
            | Some (key, s2) =>
                match skip_ws s2 with
                | [] => None
                | c3 :: s3 =>
                    if negb (byte_eqb c3 ":") then None
                    else
                      let s4 := skip_ws s3 in
                      match value n d s4 with
                      | None => None
                      | Some (_, s5) =>
                          match skip_ws s5 with
                          | [] => None
                          | c6 :: s6 =>
                              if byte_eqb c6 "," then
                                match members n d (skip_ws s6) with
                                | Some (ms, r) => Some ((key, consumed s4 s5) :: ms, r)
                                | None => None
                                end
                              else if byte_eqb c6 "}" then Some ([(key, consumed s4 s5)], s6)
                              else None
                          end
                      end
                end
            end
      end
  end
with elements (n d : nat) (s : bytes) : option (list bytes * bytes) :=
  match n with
  | O => None
  | S n =>
      match value n d s with
      | None => None
      | Some (_, s1) =>
          match skip_ws s1 with
          | [] => None
          | c2 :: s2 =>
              if byte_eqb c2 "," then
                match elements n d (skip_ws s2) with
                | Some (l, r) => Some (consumed s s1 :: l, r)
                | None => None
                end
              else if byte_eqb c2 "]" then Some ([consumed s s1], s2)
              else None
          end
      end
  end.

(** One value with nothing but white space around it. *)
Definition parse_within (d : nat) (s : bytes) : option shape :=
  match value (S (2 * length s)) d (skip_ws s) with
  | Some (v, r) => if bool_decide (skip_ws r = []) then Some v else None
  | None => None
  end.

(** [maxNestingDepth] of the scanner, and the check every [Unmarshal] starts with. *)
Definition maxNestingDepth : nat := Z.to_nat 10000.
Definition parse (s : bytes) : option shape := parse_within maxNestingDepth s.

(** ** Strings *)

(** [getu4]: the code unit of an escape [\uXXXX]. *)
Definition getu4 (s : bytes) : option Z :=
  match s with
  | b :: u :: h1 :: h2 :: h3 :: h4 :: _ =>
      if byte_eqb b backslash && byte_eqb u "u" && forallb is_hex [h1; h2; h3; h4]
      then Some (4096 * hex_value h1 + 256 * hex_value h2 + 16 * hex_value h3 + hex_value h4) else None
  | _ => None
  end.

Definition is_surrogate (r : Z) : bool := (55296 <=? r) && (r <? 57344).

(** [utf16.DecodeRune]; [None] for a pair that is not a surrogate pair. *)
Definition surrogate_pair (r1 r2 : Z) : option Z :=
  if (55296 <=? r1) && (r1 <? 56320) && (56320 <=? r2) && (r2 <? 57344)
  then Some ((r1 - 55296) * 1024 + (r2 - 56320) + 65536) else None.

Definition escape_char (e : ascii) : ascii :=
  if byte_eqb e "b" then chr 8 else if byte_eqb e "f" then chr 12 else if byte_eqb e "n" then chr 10
  else if byte_eqb e "r" then chr 13 else if byte_eqb e "t" then chr 9 else e.

(** [unquoteBytes] on a scanned content. *)
Fixpoint unquote_loop (n : nat) (s : bytes) : bytes :=
  match n, s with
  | S n, c :: s1 =>
      if byte_eqb c backslash then
        match s1 with
        | [] => []
        | e :: s2 =>
            if byte_eqb e "u" then
              match getu4 s with
              | None => []
              | Some r =>
                  let s3 := drop 6 s in
                  if is_surrogate r then
                    match getu4 s3 ≫= surrogate_pair r with
                    | Some p => EncodeRune p ++ unquote_loop n (drop 6 s3)
                    | None => EncodeRune RuneError ++ unquote_loop n s3
                    end
                  else EncodeRune r ++ unquote_loop n s3
              end
            else escape_char e :: unquote_loop n s2
        end
      else let '(r, w, _) := DecodeRune s in EncodeRune r ++ unquote_loop n (drop w s)
  | _, _ => []
  end.

Definition unquote (s : bytes) : bytes := unquote_loop (length s) s.

(** ** [bytes.TrimSpace]

    White space in the sense of Unicode, from both ends. *)

Fixpoint trim_space_left (n : nat) (s : bytes) : bytes :=
  match n, s with
  | S n, _ :: _ => let '(r, w, _) := DecodeRune s in if is_space r then trim_space_left n (drop w s) else s
  | _, _ => s
  end.

(** The width of the rune of white space that ends the text, if it does. *)
Definition last_space (s : bytes) : option nat :=
  list_find (λ w, (w ≤ length s)%nat ∧
    let '(r, w', ok) := DecodeRune (drop (length s - w) s) in ok = true ∧ w' = w ∧ is_space r = true) [1; 2; 3]%nat
  ≫= λ p, Some p.2.

Fixpoint trim_space_right (n : nat) (s : bytes) : bytes :=
  match n with
  | O => s
  | S n => match last_space s with Some w => trim_space_right n (take (length s - w) s) | None => s end
  end.

Definition TrimSpace (s : bytes) : bytes :=
  let s := trim_space_left (length s) s in trim_space_right (length s) s.

(** [bytes.Equal(bytes.TrimSpace(raw), "null")]. *)
Definition isJSONNull (raw : bytes) : bool := bool_decide (TrimSpace raw = str "null").

(** ** [Unmarshal] by target type

    [None] is an error.  [null] leaves a string, a number or a boolean as it
    was and empties a slice, a map or a pointer. *)

Definition Unmarshal_string (prev raw : bytes) : option bytes :=
  match parse raw with
  | Some (SString content) => Some (unquote content)
  | Some SNull => Some prev
  | _ => None
  end.

Definition Unmarshal_int64 (prev : Z) (raw : bytes) : option Z :=
  match parse raw with
  | Some (SNumber lit) => match ParseInt lit with Ok v => Some v | Err _ => None end
  | Some SNull => Some prev
  | _ => None
  end.

Definition Unmarshal_bool (prev : bool) (raw : bytes) : option bool :=
  match parse raw with
  | Some (SBool b) => Some b
  | Some SNull => Some prev
  | _ => None
  end.

(** A pointer to a type: [null] makes it nil, a value is decoded into the
    variable it points to, a new one when it was nil. *)
Definition Unmarshal_pointer {A} (decode : A → bytes → option A) (zero : A) (prev : option A) (raw : bytes)
    : option (option A) :=
  match parse raw with
  | Some SNull => Some None
  | Some _ => Some <$> decode (default zero prev) raw
  | None => None
  end.

(** [map[string]json.RawMessage] and [[]json.RawMessage] into a nil variable;
    the inner [None] is nil. *)
Definition Unmarshal_map (raw : bytes) : option (option (list (bytes * bytes))) :=
  match parse raw with
  | Some (SObject ms) => Some (Some (map (λ m, (unquote m.1, m.2)) ms))
  | Some SNull => Some None
  | _ => None
  end.

Definition Unmarshal_raws (raw : bytes) : option (option (list bytes)) :=
  match parse raw with
  | Some (SArray l) => Some (Some l)
  | Some SNull => Some None
  | _ => None
  end.

(** Lookup in a decoded map: the last of several equal members counts. *)
Fixpoint field {A} (k : bytes) (ms : list (bytes * A)) : option A :=
  match ms with
  | [] => None
  | (k', v) :: ms' => match field k ms' with Some w => Some w | None => if bool_decide (k' = k) then Some v else None end
  end.

(** A slice that is decoded more than once keeps its array: an element starts
    from what the array holds.  The pair is the elements and what the array
    holds beyond them. *)
Definition slice (A : Type) : Type := list A * list A.

Fixpoint decode_elems {A} (decode : A → bytes → option A) (zero : A) (backing : list A) (raws : list bytes)
    : option (list A) :=
  match raws with
  | [] => Some []
  | raw :: raws' =>
      match decode (default zero (head backing)) raw, decode_elems decode zero (tail backing) raws' with
      | Some x, Some xs => Some (x :: xs)
      | _, _ => None
      end
  end.

Definition Unmarshal_slice {A} (decode : A → bytes → option A) (zero : A) (prev : slice A) (raw : bytes)
    : option (slice A) :=
  match parse raw with
  | Some SNull => Some ([], [])
  | Some (SArray []) => Some ([], [])
  | Some (SArray raws) =>
      match decode_elems decode zero (prev.1 ++ prev.2) raws with
      | Some xs => Some (xs, drop (length xs) (prev.1 ++ prev.2))
      | None => None
      end
  | _ => None
  end.

(** Field matching of structs: the exact name first, then the name folded.
    The folding of letters other than the two that fold to an ASCII letter
    does not matter, since the field names are ASCII. *)
Definition foldRune (r : Z) : Z :=
  if (97 <=? r) && (r <=? 122) then r - 32 else if r =? 8490 then 75 else if r =? 383 then 83 else r.

Definition foldName (name : bytes) : list Z := map foldRune (runes name).

Definition struct_field (names : list bytes) (key : bytes) : option bytes :=
  if bool_decide (key ∈ names) then Some key
  else list_find (λ name, foldName name = foldName key) names ≫= λ p, Some p.2.

(** An object into a struct with [DisallowUnknownFields]: each member in turn,
    by the field its key names. *)
Fixpoint decode_members {A} (names : list bytes) (set : bytes → bytes → A → option A) (ms : list (bytes * bytes)) (x : A)
    : option A :=
  match ms with
  | [] => Some x
  | (k, raw) :: ms' => name ← struct_field names k; x' ← set name raw x; decode_members names set ms' x'
  end.

Definition Unmarshal_struct {A} (names : list bytes) (set : bytes → bytes → A → option A) (prev : A) (raw : bytes)
    : option A :=
  match parse raw with
  | Some (SObject ms) => decode_members names set (map (λ m, (unquote m.1, m.2)) ms) prev
  | Some SNull => Some prev
  | _ => None
  end.

(** ** Lemmas: the scanner consumes its input and its fuel is enough *)

Lemma skip_ws_split s : ∃ w, s = w ++ skip_ws s ∧ forallb json_space w = true.
Proof.
  induction s as [|c s (w & E & Hw)]; [by exists []|]. simpl. destruct (json_space c) eqn:Hc.
  - exists (c :: w). simpl. rewrite Hc, Hw. split; [by f_equal|done].
  - by exists [].
Qed.

Lemma skip_ws_length s : (length (skip_ws s) ≤ length s)%nat.
Proof. destruct (skip_ws_split s) as (w & E & _). rewrite E at 2. rewrite length_app. lia. Qed.

Lemma skip_ws_app w s : forallb json_space w = true → skip_ws (w ++ s) = skip_ws s.
Proof. induction w as [|c w IH]; simpl; [done|]. intros [-> ?]%andb_true_iff. auto. Qed.

Lemma skip_ws_idem s : skip_ws (skip_ws s) = skip_ws s.
Proof. induction s as [|c s IH]; simpl; [done|]. destruct (json_space c) eqn:E; [done|]. simpl. by rewrite E. Qed.

(** [rest_of r s]: [r] is a proper suffix of [s]. *)
Definition rest_of (r s : bytes) : Prop := r `suffix_of` s ∧ (length r < length s)%nat.

Lemma rest_of_cons c s : rest_of s (c :: s).
Proof. split; [by apply suffix_cons_r|simpl; lia]. Qed.

Lemma rest_of_trans r s t : rest_of r s → rest_of s t → rest_of r t.
Proof. intros [??] [??]. split; [by etrans|lia]. Qed.

Lemma rest_of_skip r s : rest_of r (skip_ws s) → rest_of r s.
Proof.
  intros [H1 H2]. destruct (skip_ws_split s) as (w & E & _). split.
  - etrans; [exact H1|]. rewrite E at 2. by apply suffix_app_r.
  - pose proof (skip_ws_length s). lia.
Qed.

Lemma rest_of_skip_l r s : rest_of r s → rest_of (skip_ws r) s.
Proof.
  intros [H1 H2]. split; [|pose proof (skip_ws_length r); lia].
  etrans; [|exact H1]. destruct (skip_ws_split r) as (w & E & _). rewrite E at 2. by apply suffix_app_r.
Qed.

Lemma rest_of_length r s : rest_of r s → (length r < length s)%nat.
Proof. by intros [_ ?]. Qed.

Lemma consumed_app p r : consumed (p ++ r) r = p.
Proof. unfold consumed. rewrite length_app. replace (length p + length r - length r)%nat with (length p) by lia. by rewrite take_app_length. Qed.

Create HintDb json.
#[export] Hint Resolve rest_of_cons rest_of_skip rest_of_skip_l : json.

Lemma scan_string_shape n s x r : (length s ≤ n)%nat → scan_string s = Some (x, r) → s = x ++ quote_char :: r.
Proof.
  revert s x r. induction n as [|n IH]; intros s x r Hn H; (destruct s as [|c s]; [done|]); simpl in Hn; [lia|].
  cbn [scan_string] in H. unfold byte_eqb in *. destruct (bool_decide_reflect (c = quote_char)); [by simplify_eq|].
  destruct (bool_decide (c = backslash)).
  - destruct s as [|e s2]; [done|]. simpl in Hn. destruct (simple_escape e).
    + destruct (scan_string s2) as [[y r']|] eqn:E; [|done]. simplify_eq. apply IH in E; [|lia]. by subst.
    + destruct (bool_decide (e = _)); [|done]. destruct s2 as [|h1 [|h2 [|h3 [|h4 s3]]]]; try done. simpl in Hn.
      destruct (forallb _ _); [|done]. destruct (scan_string s3) as [[y r']|] eqn:E; [|done]. simplify_eq.
      apply IH in E; [|lia]. by subst.
  - destruct (_ <? _); [done|]. destruct (scan_string s) as [[y r']|] eqn:E; [|done]. simplify_eq.
    apply IH in E; [|lia]. by subst.
Qed.

Lemma scan_string_rest s x r : scan_string s = Some (x, r) → rest_of r s.
Proof.
  intros H. apply (scan_string_shape (length s)) in H as ->; [|lia]. split.
  - exists (x ++ [quote_char]). by rewrite <-app_assoc.
  - rewrite length_app. simpl. lia.
Qed.

Lemma skip_digits_suffix s : skip_digits s `suffix_of` s.
Proof. induction s as [|c s IH]; simpl; [done|]. destruct (is_digit c); [by apply suffix_cons_r|done]. Qed.

Lemma suffix_rest c r s : r `suffix_of` s → rest_of r (c :: s).
Proof. intros H. split; [by apply suffix_cons_r|]. apply suffix_length in H. simpl. lia. Qed.

Lemma digits1_rest s r : digits1 s = Some r → rest_of r s.
Proof.
  destruct s as [|c s]; simpl; [done|]. destruct (is_digit c); [|done]. intros [= <-].
  apply suffix_rest, skip_digits_suffix.
Qed.

Lemma scan_integer_rest s r : scan_integer s = Some r → rest_of r s.
Proof.
  destruct s as [|c s]; simpl; [done|]. destruct (byte_eqb _ _); [intros [= <-]; apply rest_of_cons|].
  destruct (is_digit c); [|done]. intros [= <-]. apply suffix_rest, skip_digits_suffix.
Qed.

Lemma scan_fraction_suffix s r : scan_fraction s = Some r → r `suffix_of` s.
Proof.
  destruct s as [|c s]; simpl; [by intros [= <-]|]. destruct (byte_eqb _ _); [|by intros [= <-]].
  intros [? _]%digits1_rest. by apply suffix_cons_r.
Qed.

Lemma scan_exponent_suffix s r : scan_exponent s = Some r → r `suffix_of` s.
Proof.
  destruct s as [|c s]; simpl; [by intros [= <-]|]. destruct (_ || _); [|by intros [= <-]].
  destruct s as [|g s]; [done|]. destruct (_ || _); intros [? _]%digits1_rest;
    [by do 2 apply suffix_cons_r|by apply suffix_cons_r].
Qed.

Lemma scan_number_rest s r : scan_number s = Some r → rest_of r s.
Proof.
  unfold scan_number. intros H. apply bind_Some in H as (s2 & H1%scan_integer_rest & H).
  apply bind_Some in H as (s3 & H2%scan_fraction_suffix & H3%scan_exponent_suffix).
  assert (rest_of r (match s with c :: s' => if byte_eqb c minus_char then s' else s | [] => s end)) as [Ha Hb].
  { destruct H1 as [H1 ?]. apply suffix_length in H2 as ?, H3 as ?. split; [|lia].
    etrans; [exact H3|]. by etrans. }
  destruct s as [|c s]; [done|]. destruct (byte_eqb _ _); [|done]. split; [by apply suffix_cons_r|simpl; lia].
Qed.

Lemma strip_prefix_Some p s r : strip_prefix p s = Some r ↔ s = p ++ r.
Proof.
  revert s. induction p as [|c p IH]; intros [|x s]; simpl; unfold byte_eqb; try naive_solver.
  case_bool_decide; subst; [rewrite IH|]; naive_solver.
Qed.

Lemma strip_prefix_rest p s r : strip_prefix p s = Some r → p ≠ [] → rest_of r s.
Proof.
  intros ->%strip_prefix_Some Hp. split; [by apply suffix_app_r|]. rewrite length_app. destruct p; simpl; [done|lia].
Qed.

Lemma scan_literal_rest s v r : scan_literal s = Some (v, r) → rest_of r s.
Proof.
  unfold scan_literal. destruct (strip_prefix (str "null") s) eqn:E1; [intros [= _ <-]; by eapply (strip_prefix_rest _ _ _ E1)|].
  destruct (strip_prefix (str "true") s) eqn:E2; [intros [= _ <-]; by eapply (strip_prefix_rest _ _ _ E2)|].
  destruct (strip_prefix (str "false") s) eqn:E3; [intros [= _ <-]; by eapply (strip_prefix_rest _ _ _ E3)|].
  intros (r' & H%scan_number_rest & [= _ <-])%bind_Some. done.
Qed.

#[export] Hint Resolve scan_string_rest scan_literal_rest : json.

(** Splits the success of a scan into its parts. *)
Ltac scan_inv :=
  repeat match goal with
  | H : None = Some _ |- _ => discriminate H
  | H : Some _ = Some _ |- _ => injection H as ?; subst
  | H : context [if ?b then _ else _] |- _ => destruct b eqn:?
  | H : match ?x with _ => _ end = Some _ |- _ => destruct x eqn:?
  | H : (let '(_, _) := ?p in _) = Some _ |- _ => destruct p eqn:?
  end.


Lemma skip_ws_cons s c r : skip_ws s = c :: r → rest_of r s.
Proof. intros E. apply rest_of_skip. rewrite E. apply rest_of_cons. Qed.

Lemma scan_rest n :
  (∀ d s v r, value n d s = Some (v, r) → rest_of r s) ∧
  (∀ d s ms r, members n d s = Some (ms, r) → rest_of r s) ∧
  (∀ d s l r, elements n d s = Some (l, r) → rest_of r s).
Proof.
  induction n as [|n (IHv & IHm & IHe)]; [done|].
  split_and!; intros d s x r H; cbn [value members elements] in H; scan_inv;
  repeat match goal with
  | E : scan_string _ = Some _ |- _ => apply scan_string_rest in E
  | E : scan_literal _ = Some _ |- _ => apply scan_literal_rest in E
  | E : value _ _ _ = Some _ |- _ => apply IHv in E
  | E : members _ _ _ = Some _ |- _ => apply IHm in E
  | E : elements _ _ _ = Some _ |- _ => apply IHe in E
  | E : rest_of _ (skip_ws _) |- _ => apply rest_of_skip in E
  | E : skip_ws ?s = ?c :: ?r, H : rest_of ?q (?c :: ?r) |- _ => rewrite <-E in H; apply rest_of_skip in H; clear E
  | E : skip_ws _ = _ :: _ |- _ => apply skip_ws_cons in E
  end; eauto 8 using rest_of_trans, rest_of_cons.
Qed.

Lemma value_rest n d s v r : value n d s = Some (v, r) → rest_of r s.
Proof. apply scan_rest. Qed.

(** Enough fuel is more than twice the length of the text. *)
Lemma scan_fuel n :
  (∀ m d s, (2 * length s < n)%nat → (2 * length s < m)%nat → value n d s = value m d s) ∧
  (∀ m d s, (2 * length s < n)%nat → (2 * length s < m)%nat → members n d s = members m d s) ∧
  (∀ m d s, (S (2 * length s) < n)%nat → (S (2 * length s) < m)%nat → elements n d s = elements m d s).
Proof.
  induction n as [|n (IHv & IHm & IHe)]; (split_and!; intros m d s Hn Hm); try lia;
    (destruct m as [|m]; [lia|]); cbn [value members elements].
  - destruct s as [|c s1]; [done|]. destruct d as [|d]; [done|].
    destruct (skip_ws s1) as [|c2 s2] eqn:E; [done|]. apply skip_ws_cons, rest_of_length in E. simpl in *.
    by rewrite (IHm m), (IHe m) by (simpl; lia).
  - destruct s as [|c s1]; [done|]. destruct (negb _); [done|].
    destruct (scan_string s1) as [[k s2]|] eqn:E1; [|done]. apply scan_string_rest, rest_of_length in E1.
    destruct (skip_ws s2) as [|c3 s3] eqn:E2; [done|]. apply skip_ws_cons, rest_of_length in E2.
    pose proof (skip_ws_length s3). simpl in *. destruct (negb _); [done|]. rewrite (IHv m) by lia.
    destruct (value m d (skip_ws s3)) as [[v s5]|] eqn:E3; [|done]. apply value_rest, rest_of_length in E3.
    destruct (skip_ws s5) as [|c6 s6] eqn:E4; [done|]. apply skip_ws_cons, rest_of_length in E4.
    pose proof (skip_ws_length s6). by rewrite (IHm m) by lia.
  - rewrite (IHv m) by lia. destruct (value m d s) as [[v s1]|] eqn:E1; [|done]. apply value_rest, rest_of_length in E1.
    destruct (skip_ws s1) as [|c2 s2] eqn:E2; [done|]. apply skip_ws_cons, rest_of_length in E2.
    pose proof (skip_ws_length s2). by rewrite (IHe m) by lia.
Qed.

Lemma value_fuel n m d s : (2 * length s < n)%nat → (2 * length s < m)%nat → value n d s = value m d s.
Proof. apply scan_fuel. Qed.

(** ** Printing and reading back

    A document as a tree of literals, string contents and members, in order. *)

#[local] Unset Elimination Schemes.
Inductive json :=
| JNull
| JBool (b : bool)
| JNumber (lit : bytes)
| JString (content : bytes)
| JArray (l : list json)
| JObject (ms : list (bytes * json)).
#[local] Set Elimination Schemes.

Lemma json_ind (P : json → Prop) :
  P JNull → (∀ b, P (JBool b)) → (∀ lit, P (JNumber lit)) → (∀ c, P (JString c)) →
  (∀ l, Forall P l → P (JArray l)) → (∀ ms, Forall (λ m, P m.2) ms → P (JObject ms)) → ∀ j, P j.
Proof.
  intros H1 H2 H3 H4 H5 H6. fix IH 1.
  intros [|b|lit|c|l|ms]; [exact H1|apply H2|apply H3|apply H4|apply H5|apply H6].
  - induction l as [|j l IHl]; constructor; [apply IH|exact IHl].
  - induction ms as [|[k v] ms IHms]; constructor; [apply IH|exact IHms].
Qed.

(** A comma between the texts. *)
Fixpoint joined (l : list bytes) : bytes :=
  match l with
  | [] => []
  | [x] => x
  | x :: l' => x ++ ","%char :: joined l'
  end.

Lemma joined_cons x y l : joined (x :: y :: l) = x ++ ","%char :: joined (y :: l).
Proof. done. Qed.

Definition print_member (m : bytes * bytes) : bytes :=
  quote_char :: m.1 ++ quote_char :: ":"%char :: m.2.

Fixpoint print (j : json) : bytes :=
  match j with
  | JNull => str "null"
  | JBool true => str "true"
  | JBool false => str "false"
  | JNumber lit => lit
  | JString c => quote_char :: c ++ [quote_char]
  | JArray l => "["%char :: joined (map print l) ++ ["]"%char]
  | JObject ms => "{"%char :: joined (map (λ m, print_member (m.1, print m.2)) ms) ++ ["}"%char]
  end.

Definition shape_of (j : json) : shape :=
  match j with
  | JNull => SNull
  | JBool b => SBool b
  | JNumber lit => SNumber lit
  | JString c => SString c
  | JArray l => SArray (map print l)
  | JObject ms => SObject (map (λ m, (m.1, print m.2)) ms)
  end.

(** Contents and literals that the grammar allows. *)
Definition content_ok (c : bytes) : bool := bool_decide (scan_string (c ++ [quote_char]) = Some (c, [])).
Definition number_ok (lit : bytes) : bool := bool_decide (scan_number lit = Some []).

(** Well-formed and at most [d] levels of nesting. *)
Fixpoint json_ok (d : nat) (j : json) {struct j} : bool :=
  match j with
  | JNull | JBool _ => true
  | JNumber lit => number_ok lit
  | JString c => content_ok c
  | JArray l => match d with O => false | S d => forallb (json_ok d) l end
  | JObject ms => match d with O => false | S d => forallb (λ m, content_ok m.1 && json_ok d m.2) ms end
  end.

(** What may follow a number. *)
Definition stops (r : bytes) : bool :=
  match r with
  | c :: _ => negb (is_digit c || byte_eqb c dot || byte_eqb c "e" || byte_eqb c "E")
  | [] => true
  end.

Lemma scan_string_app n s x t r : (length s ≤ n)%nat → scan_string s = Some (x, t) → scan_string (s ++ r) = Some (x, t ++ r).
Proof.
  revert s x t. induction n as [|n IH]; intros s x t Hn H; (destruct s as [|c s]; [done|]); simpl in Hn; [lia|].
  cbn [scan_string app] in *. destruct (byte_eqb c quote_char); [by simplify_eq|]. destruct (byte_eqb c backslash).
  - destruct s as [|e s2]; [done|]. simpl in Hn. cbn [app]. destruct (simple_escape e).
    + destruct (scan_string s2) as [[y t']|] eqn:E; [|done]. simplify_eq. apply IH in E as ->; [done|lia].
    + destruct (byte_eqb e _); [|done]. destruct s2 as [|h1 [|h2 [|h3 [|h4 s3]]]]; try done. simpl in Hn. cbn [app].
      destruct (forallb _ _); [|done]. destruct (scan_string s3) as [[y t']|] eqn:E; [|done]. simplify_eq.
      apply IH in E as ->; [done|lia].
  - destruct (_ <? _); [done|]. destruct (scan_string s) as [[y t']|] eqn:E; [|done]. simplify_eq.
    apply IH in E as ->; [done|lia].
Qed.

Lemma scan_content c r : content_ok c = true → scan_string (c ++ quote_char :: r) = Some (c, r).
Proof.
  intros H%bool_decide_eq_true. apply (scan_string_app _ _ _ _ r (Nat.le_refl _)) in H. by rewrite <-app_assoc in H.
Qed.

Section numbers.
Context (r : bytes) (Hr : stops r = true).

Lemma skip_digits_app s : skip_digits (s ++ r) = skip_digits s ++ r.
Proof.
  induction s as [|c s IH]; simpl.
  - destruct r as [|c r']; [done|]. simpl in *. destruct (is_digit c); [done|done].
  - by destruct (is_digit c).
Qed.

Lemma digits1_app s t : digits1 s = Some t → digits1 (s ++ r) = Some (t ++ r).
Proof. destruct s as [|c s]; simpl; [done|]. destruct (is_digit c); [|done]. intros [= <-]. by rewrite skip_digits_app. Qed.

Lemma scan_integer_app s t : scan_integer s = Some t → scan_integer (s ++ r) = Some (t ++ r).
Proof.
  destruct s as [|c s]; simpl; [done|]. destruct (byte_eqb _ _); [by intros [= <-]|]. destruct (is_digit c); [|done].
  intros [= <-]. by rewrite skip_digits_app.
Qed.

Lemma scan_fraction_app s t : scan_fraction s = Some t → scan_fraction (s ++ r) = Some (t ++ r).
Proof.
  destruct s as [|c s]; simpl.
  - intros [= <-]. destruct r as [|c r']; [done|]. simpl in *. destruct (byte_eqb c dot); [|done]. by rewrite orb_true_r in Hr.
  - destruct (byte_eqb _ _); [apply digits1_app|by intros [= <-]].
Qed.

Lemma scan_exponent_app s t : scan_exponent s = Some t → scan_exponent (s ++ r) = Some (t ++ r).
Proof.
  destruct s as [|c s]; simpl.
  - intros [= <-]. destruct r as [|c r']; [done|]. simpl in *.
    destruct (byte_eqb c "e"), (byte_eqb c "E"); rewrite ?orb_true_r in Hr; done.
  - destruct (_ || _); [|by intros [= <-]]. destruct s as [|g s]; [done|]. cbn [app].
    destruct (_ || _); [apply digits1_app|apply (digits1_app (g :: s))].
Qed.

Lemma scan_number_app s t : scan_number s = Some t → scan_number (s ++ r) = Some (t ++ r).
Proof.
  unfold scan_number. intros (s2 & H1 & (s3 & H2 & H3)%bind_Some)%bind_Some.
  assert (match s ++ r with c :: s' => if byte_eqb c minus_char then s' else s ++ r | [] => s ++ r end =
    match s with c :: s' => if byte_eqb c minus_char then s' else s | [] => s end ++ r) as ->.
  { destruct s as [|c s]; [done|]. simpl. by destruct (byte_eqb _ _). }
  rewrite (scan_integer_app _ _ H1). simpl. rewrite (scan_fraction_app _ _ H2). simpl. by apply scan_exponent_app.
Qed.

End numbers.

(** The first byte of a number, and of any printed value. *)
Lemma number_head lit : number_ok lit = true → ∃ c s, lit = c :: s ∧ (is_digit c = true ∨ c = minus_char).
Proof.
  intros H%bool_decide_eq_true. unfold scan_number in H. destruct lit as [|c s]; [done|]. exists c, s. split; [done|].
  unfold byte_eqb in H. case_bool_decide; [by right|]. left. apply bind_Some in H as (s2 & H & _). simpl in H.
  unfold byte_eqb in H. case_bool_decide; [by subst|]. by destruct (is_digit c).
Qed.

Definition starts_value (c : ascii) : bool :=
  negb (json_space c) && negb (byte_eqb c "]") && negb (byte_eqb c "}").

Lemma digit_starts c : is_digit c = true ∨ c = minus_char → starts_value c = true.
Proof.
  intros [H| ->]; [|done]. unfold is_digit in H. unfold starts_value, json_space, byte_eqb.
  rewrite !bool_decide_false by (intros ->; done). lia.
Qed.

Lemma print_head d j : json_ok d j = true → ∃ c s, print j = c :: s ∧ starts_value c = true.
Proof.
  destruct j as [|[]|lit|c|l|ms]; simpl; try (intros _; by eexists _, _).
  intros (c & s & -> & Hc)%number_head. exists c, s. eauto using digit_starts.
Qed.

Lemma starts_skip c s r : starts_value c = true → skip_ws ((c :: s) ++ r) = (c :: s) ++ r.
Proof. unfold starts_value. simpl. by destruct (json_space c). Qed.

Lemma skip_print d j r : json_ok d j = true → skip_ws (print j ++ r) = print j ++ r.
Proof. intros (c & s & -> & H)%print_head. by apply starts_skip. Qed.

Lemma scan_literal_number lit r :
  number_ok lit = true → stops r = true → scan_literal (lit ++ r) = Some (SNumber lit, r).
Proof.
  intros H Hr. destruct (number_head _ H) as (c & s & E & Hc). apply bool_decide_eq_true in H.
  assert (∀ x p, is_digit x || byte_eqb x minus_char = false → strip_prefix (x :: p) (lit ++ r) = None) as Hno.
  { intros x p Hx. rewrite E. simpl. unfold byte_eqb at 1. destruct (bool_decide_reflect (x = c)); [|done]. subst x.
    destruct Hc as [Hc| ->]; [by rewrite Hc in Hx|done]. }
  unfold scan_literal. change (str "null") with ("n"%char :: str "ull"). change (str "true") with ("t"%char :: str "rue").
  change (str "false") with ("f"%char :: str "alse"). rewrite !Hno by done.
  rewrite (scan_number_app r Hr _ _ H). simpl. by rewrite consumed_app.
Qed.

Lemma stops_comma r : stops (","%char :: r) = true. Proof. done. Qed.
Lemma stops_bracket r : stops ("]"%char :: r) = true. Proof. done. Qed.
Lemma stops_brace r : stops ("}"%char :: r) = true. Proof. done. Qed.

Lemma skip_joined x l r :
  (∃ c s, x = c :: s ∧ starts_value c = true) → skip_ws (joined (x :: l) ++ r) = joined (x :: l) ++ r.
Proof. intros (c & s & -> & H). destruct l; simpl; unfold starts_value in H; by destruct (json_space c). Qed.

(** A value reads back, with what follows it left over. *)
Definition reads (j : json) : Prop := ∀ n d r,
  json_ok d j = true → stops r = true → (2 * length (print j ++ r) < n)%nat →
  value n d (print j ++ r) = Some (shape_of j, r).

Lemma elements_print l : Forall reads l → l ≠ [] → ∀ n d r,
  forallb (json_ok d) l = true → (S (2 * length (joined (map print l) ++ "]"%char :: r)) < n)%nat →
  elements n d (joined (map print l) ++ "]"%char :: r) = Some (map print l, r).
Proof.
  induction 1 as [|j l Hj Hl IH]; [done|]. intros _ n d r [Hok Hoks]%andb_true_iff Hn.
  destruct n as [|n]; [lia|]. cbn [map] in *. destruct l as [|j' l].
  - cbn [joined map elements] in *. rewrite Hj by (done || lia). cbn. by rewrite consumed_app.
  - change (joined (print j :: map print (j' :: l))) with (print j ++ ","%char :: joined (map print (j' :: l))) in *.
    rewrite <-app_assoc in *. cbn [app] in *. cbn [elements]. rewrite Hj by (done || lia).
    cbn [skip_ws]. change (json_space ",") with false. cbn iota beta. change (byte_eqb "," ",") with true. cbn iota beta.
    pose proof Hoks as [Hj' _]%andb_true_iff. apply print_head in Hj'.
    rewrite (skip_joined (print j') (map print l)) by done.
    rewrite IH by (done || (rewrite length_app in Hn; simpl in *; lia)). by rewrite consumed_app.
Qed.

Lemma members_print (ms : list (bytes * json)) : Forall (λ m, reads m.2) ms → ms ≠ [] → ∀ n d r,
  let texts := map (λ m, print_member (m.1, print m.2)) ms in
  forallb (λ m, content_ok m.1 && json_ok d m.2) ms = true → (2 * length (joined texts ++ "}"%char :: r) < n)%nat →
  members n d (joined texts ++ "}"%char :: r) = Some (map (λ m, (m.1, print m.2)) ms, r).
Proof.
  induction 1 as [|[k j] ms Hj Hms IH]; [done|]. intros _ n d r texts [Hok Hoks]%andb_true_iff Hn.
  destruct n as [|n]; [lia|]. simpl in Hok, Hj. apply andb_true_iff in Hok as [Hk Hok]. subst texts.
  assert (∀ t r', stops (t :: r') = true → (2 * length (print_member (k, print j) ++ t :: r') < S n)%nat →
    members (S n) d (print_member (k, print j) ++ t :: r') =
    match skip_ws (t :: r') with
    | [] => None
    | c6 :: s6 =>
        if byte_eqb c6 "," then
          match members n d (skip_ws s6) with Some (ms, r) => Some ((k, print j) :: ms, r) | None => None end
        else if byte_eqb c6 "}" then Some ([(k, print j)], s6) else None
    end) as Hstep.
  { intros t r' Ht Hlen. unfold print_member in *. cbn [fst snd app] in *. rewrite <-app_assoc in *. cbn [app] in *.
    cbn [members]. change (byte_eqb quote_char quote_char) with true. cbn iota beta delta [negb].
    rewrite scan_content by done. cbn [skip_ws]. change (json_space ":") with false. cbn iota beta.
    change (byte_eqb ":" ":") with true. cbn iota beta delta [negb]. rewrite (skip_print d) by done.
    cbn [length] in Hlen. rewrite length_app in Hlen. cbn [length] in Hlen. rewrite Hj by (done || lia). by rewrite consumed_app. }
  cbn [map fst snd] in *. destruct ms as [|[k' j'] ms].
  - cbn [joined map] in *. by rewrite Hstep by (done || lia).
  - cbn [map fst snd] in *.
    rewrite joined_cons in *.
    rewrite <-app_assoc in *. cbn [app] in *. rewrite Hstep by (done || lia).
    cbn [skip_ws]. change (json_space ",") with false. cbn iota beta. change (byte_eqb "," ",") with true. cbn iota beta.
    rewrite skip_joined by (by eexists _, _). rewrite length_app in Hn. simpl in Hn.
    by rewrite IH by (done || (simpl; lia)).
Qed.

Lemma digit_opens c : is_digit c = true ∨ c = minus_char →
  byte_eqb c "{" = false ∧ byte_eqb c "[" = false ∧ byte_eqb c quote_char = false.
Proof.
  intros [H| ->]; [|done]. unfold byte_eqb. by rewrite !bool_decide_false by (intros ->; done).
Qed.

Lemma joined_head x l r :
  (∃ c s, x = c :: s ∧ starts_value c = true) → ∃ c s, joined (x :: l) ++ r = c :: s ∧ starts_value c = true.
Proof. intros (c & s & -> & H). destruct l; simpl; eauto. Qed.

Lemma reads_all j : reads j.
Proof.
  induction j as [|[]|lit|c|l IH|ms IH] using json_ind; intros n d r Hok Hr Hn; (destruct n as [|n]; [lia|]); try done.
  - destruct (number_head _ Hok) as (c & s & E & (H1 & H2 & H3)%digit_opens). cbn [print] in *.
    transitivity (scan_literal (lit ++ r)); [|by apply scan_literal_number]. rewrite E. cbn [app value].
    by rewrite H1, H2, H3.
  - cbn [print app value]. rewrite <-app_assoc. cbn [app]. by rewrite scan_content.
  - cbn [print app json_ok] in *. destruct d as [|d]; [done|]. rewrite <-app_assoc in *. cbn [app length] in *.
    destruct l as [|j l]; [done|]. pose proof Hok as [Hj _]%andb_true_iff. apply print_head in Hj. cbn [value map] in *.
    change (byte_eqb "[" "{") with false. change (byte_eqb "[" "[") with true. cbn iota.
    rewrite skip_joined by done. destruct (joined_head _ (map print l) ("]"%char :: r) Hj) as (c & s & E & Hc).
    rewrite E. destruct (byte_eqb c "]") eqn:Eb; [unfold starts_value in Hc; rewrite Eb in Hc; by destruct (json_space c)|].
    rewrite <-E. change (print j :: map print l) with (map print (j :: l)) in *. by rewrite elements_print by (done || lia).
  - cbn [print app json_ok] in *. destruct d as [|d]; [done|]. rewrite <-app_assoc in *. cbn [app length] in *.
    destruct ms as [|[k j] ms]; [done|]. cbn [value map] in *.
    change (byte_eqb "{" "{") with true. cbn iota. rewrite skip_joined by (by eexists _, _).
    destruct (joined_head (print_member (k, print j)) (map (λ m, print_member (m.1, print m.2)) ms) ("}"%char :: r))
      as (c & s & E & Hc); [by eexists _, _|]. cbn [fst snd] in *.
    rewrite E. destruct (byte_eqb c "}") eqn:Eb.
    { unfold starts_value in Hc. rewrite Eb in Hc. by rewrite andb_false_r in Hc. }
    rewrite <-E. pose proof (members_print ((k, j) :: ms) IH) as Hm. cbn [map fst snd] in Hm.
    by rewrite Hm by (done || lia).
Qed.

(** Reading a printed document gives its shape, whatever white space surrounds it. *)
Theorem parse_print d j w1 w2 :
  json_ok d j = true → forallb json_space w1 = true → forallb json_space w2 = true →
  parse_within d (w1 ++ print j ++ w2) = Some (shape_of j).
Proof.
  intros Hok H1 H2. unfold parse_within. rewrite skip_ws_app by done.
  destruct (print_head _ _ Hok) as (c & s & E & Hc).
  assert (stops w2 = true) as Hs.
  { destruct w2 as [|x w2]; [done|]. simpl in *. apply andb_true_iff in H2 as [H2 _].
    unfold json_space, is_digit, byte_eqb in *. rewrite !bool_decide_false by (intros ->; done). lia. }
  rewrite (skip_print d) by done. rewrite reads_all; [|done..|rewrite !length_app; lia].
  rewrite bool_decide_true; [done|]. rewrite <-(app_nil_r w2). by rewrite skip_ws_app.
Qed.

(** ** What decoding preserves *)

Lemma decode_elems_Forall {A} (P : A → Prop) decode zero backing raws xs :
  P zero → (∀ x raw y, P x → decode x raw = Some y → P y) → Forall P backing →
  decode_elems decode zero backing raws = Some xs → Forall P xs.
Proof.
  intros Hz Hd. revert backing xs. induction raws as [|raw raws IH]; intros backing xs Hb; simpl; [by intros [= <-]|].
  destruct (decode _ raw) as [y|] eqn:E; [|done]. destruct (decode_elems _ _ _ raws) as [ys|] eqn:E2; [|done]. intros [= <-].
  constructor.
  - eapply Hd, E. destruct backing; [done|]. by inv Hb.
  - eapply IH, E2. destruct backing; [done|]. by inv Hb.
Qed.

Lemma Unmarshal_slice_Forall {A} (P : A → Prop) decode zero prev raw next :
  P zero → (∀ x raw y, P x → decode x raw = Some y → P y) → Forall P (prev.1 ++ prev.2) →
  Unmarshal_slice decode zero prev raw = Some next → Forall P (next.1 ++ next.2).
Proof.
  intros Hz Hd Hp. unfold Unmarshal_slice. destruct (parse raw) as [[| | | |[|x l]|]|]; try done; try (by intros [= <-]; constructor).
  destruct (decode_elems _ _ _ _) as [xs|] eqn:E; [|done]. intros [= <-]. simpl. apply Forall_app. split.
  - by eapply decode_elems_Forall.
  - by apply Forall_drop.
Qed.

Lemma Unmarshal_struct_inv {A} (P : A → Prop) names set prev raw next :
  (∀ name raw x y, P x → set name raw x = Some y → P y) → P prev →
  Unmarshal_struct names set prev raw = Some next → P next.
Proof.
  intros Hs Hp. unfold Unmarshal_struct. destruct (parse raw) as [[| | | | |ms]|]; try done; [by intros [= <-]|].
  generalize (map (λ m, (unquote m.1, m.2)) ms). intros l. revert prev Hp.
  induction l as [|[k r] l IH]; intros prev Hp; simpl; [by intros [= <-]|].
  intros (name & _ & (x & Hx & H)%bind_Some)%bind_Some. eapply IH, H. by eapply Hs.
Qed.

Lemma ParseInt_range lit v : ParseInt lit = Ok v → int64 v.
Proof.
  unfold ParseInt. destruct (match lit with [] => _ | _ => _ end) as [neg body].
  destruct (_ || _); [done|]. destruct ((_ <? minInt64) || _) eqn:E; [done|]. intros [= <-]. lia64.
Qed.

Lemma Unmarshal_int64_range prev raw v : int64 prev → Unmarshal_int64 prev raw = Some v → int64 v.
Proof.
  unfold Unmarshal_int64. intros Hp. destruct (parse raw) as [[| |lit| | |]|]; try done; [by intros [= <-]|].
  destruct (ParseInt lit) as [v'|] eqn:E; [|done]. intros [= <-]. by eapply ParseInt_range.
Qed.

(** ** Members and elements are shorter than the whole *)

Definition parts (v : shape) : list bytes :=
  match v with SArray l => l | SObject ms => map snd ms | _ => [] end.

Lemma consumed_length s r : (length (consumed s r) ≤ length s - length r)%nat.
Proof. unfold consumed. rewrite length_take. lia. Qed.

Lemma scan_parts n :
  (∀ d s v r, value n d s = Some (v, r) → Forall (λ x, length x < length s)%nat (parts v)) ∧
  (∀ d s ms r, members n d s = Some (ms, r) → Forall (λ m, length m.2 < length s)%nat ms) ∧
  (∀ d s l r, elements n d s = Some (l, r) → Forall (λ x, length x ≤ length s)%nat l).
Proof.
  induction n as [|n (IHv & IHm & IHe)]; [done|]. split_and!; intros d s x r H; cbn [value members elements] in H.
  - scan_inv; try done.
    3: { unfold scan_literal in *. scan_inv; try done. by apply bind_Some in H as (? & _ & [= <- <-]). }
    all: match goal with E : skip_ws _ = _ :: _ |- _ => pose proof (skip_ws_cons _ _ _ E) as ?%rest_of_length end.
    + match goal with E : members _ _ _ = Some _ |- _ => apply IHm in E end. simpl in *.
      apply Forall_fmap. eapply Forall_impl; [eassumption|]. simpl. lia.
    + match goal with E : elements _ _ _ = Some _ |- _ => apply IHe in E end. simpl in *.
      eapply Forall_impl; [eassumption|]. simpl. lia.
  - destruct s as [|c s1]; [done|]. destruct (negb _); [done|].
    destruct (scan_string s1) as [[k s2]|] eqn:E1; [|done]. apply scan_string_rest, rest_of_length in E1.
    destruct (skip_ws s2) as [|c3 s3] eqn:E2; [done|]. apply skip_ws_cons, rest_of_length in E2.
    pose proof (skip_ws_length s3). destruct (negb _); [done|].
    destruct (value n d (skip_ws s3)) as [[v s5]|] eqn:E3; [|done]. apply value_rest, rest_of_length in E3.
    pose proof (consumed_length (skip_ws s3) s5).
    destruct (skip_ws s5) as [|c6 s6] eqn:E4; [done|]. apply skip_ws_cons, rest_of_length in E4.
    pose proof (skip_ws_length s6). destruct (byte_eqb c6 ",").
    + destruct (members n d _) as [[ms r']|] eqn:E5; [|done]. injection H as <- <-. apply IHm in E5.
      constructor; simpl; [lia|]. eapply Forall_impl; [exact E5|]. simpl. lia.
    + destruct (byte_eqb c6 "}"); [|done]. injection H as <- <-. constructor; simpl; [lia|done].
  - destruct (value n d s) as [[v s1]|] eqn:E1; [|done]. apply value_rest, rest_of_length in E1.
    pose proof (consumed_length s s1).
    destruct (skip_ws s1) as [|c2 s2] eqn:E2; [done|]. apply skip_ws_cons, rest_of_length in E2.
    pose proof (skip_ws_length s2). destruct (byte_eqb c2 ",").
    + destruct (elements n d _) as [[l r']|] eqn:E3; [|done]. injection H as <- <-. apply IHe in E3.
      constructor; simpl; [lia|]. eapply Forall_impl; [exact E3|]. simpl. lia.
    + destruct (byte_eqb c2 "]"); [|done]. injection H as <- <-. constructor; simpl; [lia|done].
Qed.

Lemma parse_within_parts d s v : parse_within d s = Some v → Forall (λ x, length x < length s)%nat (parts v).
Proof.
  unfold parse_within. destruct (value _ _ _) as [[v' r]|] eqn:E; [|done]. destruct (bool_decide _); [|done]. intros [= <-].
  apply scan_parts in E. pose proof (skip_ws_length s). eapply Forall_impl; [exact E|]. simpl. lia.
Qed.

(** ** Sizes: the parts fit into the text *)

Definition total_length (l : list bytes) : nat := sum_list_with (λ x, S (length x)) l.

Definition size (v : shape) : nat :=
  match v with SString c => length c | _ => total_length (parts v) end.

Lemma scan_size n :
  (∀ d s v r, value n d s = Some (v, r) → (size v + length r < length s)%nat) ∧
  (∀ d s ms r, members n d s = Some (ms, r) → (total_length (map snd ms) + length r ≤ length s)%nat) ∧
  (∀ d s l r, elements n d s = Some (l, r) → (total_length l + length r ≤ length s)%nat).
Proof.
  induction n as [|n (IHv & IHm & IHe)]; [done|]. split_and!; intros d s x r H; cbn [value members elements] in H.
  - destruct s as [|c s1]; [done|].
    assert (∀ v, parts v = [] → rest_of r (c :: s1) → match v with SString _ => False | _ => True end →
      (size v + length r < length (c :: s1))%nat) as Hflat.
    { intros [] Hp [_ ?] ?; simpl in *; rewrite ?Hp; simpl; try done; lia. }
    destruct (byte_eqb c "{"); [|destruct (byte_eqb c "["); [|destruct (byte_eqb c quote_char)]].
    + destruct d as [|d]; [done|]. destruct (skip_ws s1) as [|c2 s2] eqn:E; [done|]. pose proof (skip_ws_length s1).
      rewrite E in *. simpl in *. destruct (byte_eqb c2 "}"); [simplify_eq; simpl; lia|].
      destruct (members n d (c2 :: s2)) as [[ms r']|] eqn:Em; [|done]. simplify_eq. apply IHm in Em. simpl in *. lia.
    + destruct d as [|d]; [done|]. destruct (skip_ws s1) as [|c2 s2] eqn:E; [done|]. pose proof (skip_ws_length s1).
      rewrite E in *. simpl in *. destruct (byte_eqb c2 "]"); [simplify_eq; simpl; lia|].
      destruct (elements n d (c2 :: s2)) as [[l r']|] eqn:Em; [|done]. simplify_eq. apply IHe in Em. simpl in *. lia.
    + destruct (scan_string s1) as [[y r']|] eqn:Es; [|done]. simplify_eq. apply (scan_string_shape (length s1)) in Es as ->; [|lia].
      simpl. rewrite length_app. simpl. lia.
    + pose proof (scan_literal_rest _ _ _ H) as Hr. unfold scan_literal in H. scan_inv; try (by apply Hflat).
      apply bind_Some in H as (? & _ & [= <- <-]). by apply Hflat.
  - destruct s as [|c s1]; [done|]. destruct (negb _); [done|].
    destruct (scan_string s1) as [[k s2]|] eqn:E1; [|done]. apply scan_string_rest, rest_of_length in E1.
    destruct (skip_ws s2) as [|c3 s3] eqn:E2; [done|]. apply skip_ws_cons, rest_of_length in E2.
    pose proof (skip_ws_length s3). destruct (negb _); [done|].
    destruct (value n d (skip_ws s3)) as [[v s5]|] eqn:E3; [|done]. apply value_rest, rest_of_length in E3.
    pose proof (consumed_length (skip_ws s3) s5).
    destruct (skip_ws s5) as [|c6 s6] eqn:E4; [done|]. apply skip_ws_cons, rest_of_length in E4.
    pose proof (skip_ws_length s6). destruct (byte_eqb c6 ",").
    + destruct (members n d _) as [[ms r']|] eqn:E5; [|done]. simplify_eq. apply IHm in E5. simpl. unfold total_length in *. lia.
    + destruct (byte_eqb c6 "}"); [|done]. simplify_eq. simpl. lia.
  - destruct (value n d s) as [[v s1]|] eqn:E1; [|done]. apply value_rest, rest_of_length in E1.
    pose proof (consumed_length s s1).
    destruct (skip_ws s1) as [|c2 s2] eqn:E2; [done|]. apply skip_ws_cons, rest_of_length in E2.
    pose proof (skip_ws_length s2). destruct (byte_eqb c2 ",").
    + destruct (elements n d _) as [[l r']|] eqn:E3; [|done]. simplify_eq. apply IHe in E3. simpl. unfold total_length in *. lia.
    + destruct (byte_eqb c2 "]"); [|done]. simplify_eq. simpl. lia.
Qed.

Lemma parse_size s v : parse s = Some v → (size v < length s)%nat.
Proof.
  unfold parse, parse_within. destruct (value _ _ _) as [[v' r]|] eqn:E; [|done]. destruct (bool_decide _); [|done].
  intros [= <-]. apply scan_size in E. pose proof (skip_ws_length s). lia.
Qed.

(** Unquoting at most triples a content: a byte that is not UTF-8 becomes
    three. *)
Lemma DecodeRune_invalid c s r w : DecodeRune (c :: s) = (r, w, false) → r = RuneError ∧ w = 1%nat.
Proof. cbn [DecodeRune]. intros H. repeat (case_match; try discriminate H); by injection H as <- <-. Qed.

Lemma DecodeRune_encoded c s r w ok :
  DecodeRune (c :: s) = (r, w, ok) → (w ≤ length (c :: s))%nat ∧ (length (EncodeRune r) ≤ 3 * w)%nat.
Proof.
  intros H. destruct ok.
  - apply DecodeRune_valid in H as (_ & E & ->). split; [|lia]. apply (f_equal length) in E. rewrite length_app in E. lia.
  - apply DecodeRune_invalid in H as [-> ->]. split; [simpl; lia|done].
Qed.

Lemma unquote_loop_length n s : (length (unquote_loop n s) ≤ 3 * length s)%nat.
Proof.
  revert s. induction n as [|n IH]; intros s; [simpl; lia|]. destruct s as [|c s1]; [simpl; lia|]. cbn [unquote_loop].
  destruct (byte_eqb c backslash).
  - destruct s1 as [|e s2]; [simpl; lia|]. destruct (byte_eqb e "u").
    + destruct (getu4 (c :: e :: s2)) as [r|] eqn:E; [|simpl; lia].
      assert (∃ h1 h2 h3 h4 s3, s2 = h1 :: h2 :: h3 :: h4 :: s3) as (h1 & h2 & h3 & h4 & s3 & ->).
      { destruct s2 as [|h1 [|h2 [|h3 [|h4 s3]]]]; try done. by eexists _, _, _, _, _. }
      cbn [drop]. assert (∀ q t, (length t ≤ length s3)%nat →
        (length (EncodeRune q ++ unquote_loop n t) ≤ 3 * length (c :: e :: h1 :: h2 :: h3 :: h4 :: s3))%nat) as Hq.
      { intros q t Ht. rewrite length_app. pose proof (EncodeRune_length q). specialize (IH t). simpl. lia. }
      destruct (is_surrogate r); [destruct (mbind _ _)|]; apply Hq; rewrite ?length_drop; lia.
    + simpl. specialize (IH s2). lia.
  - destruct (DecodeRune (c :: s1)) as [[r w] ok] eqn:E. apply DecodeRune_encoded in E as [Hw Hl].
    rewrite length_app. specialize (IH (drop w (c :: s1))). rewrite length_drop in IH. lia.
Qed.

Lemma unquote_length s : (length (unquote s) ≤ 3 * length s)%nat.
Proof. apply unquote_loop_length. Qed.

Lemma trim_space_left_length n s : (length (trim_space_left n s) ≤ length s)%nat.
Proof.
  revert s. induction n as [|n IH]; intros s; [done|]. destruct s as [|c s]; [done|]. cbn [trim_space_left].
  destruct (DecodeRune (c :: s)) as [[r w] ok]. destruct (is_space r); [|done].
  specialize (IH (drop w (c :: s))). rewrite length_drop in IH. lia.
Qed.

Lemma trim_space_right_length n s : (length (trim_space_right n s) ≤ length s)%nat.
Proof.
  revert s. induction n as [|n IH]; intros s; [done|]. cbn [trim_space_right]. destruct (last_space s) as [w|]; [|done].
  specialize (IH (take (length s - w) s)). rewrite length_take in IH. lia.
Qed.

Lemma TrimSpace_length s : (length (TrimSpace s) ≤ length s)%nat.
Proof.
  unfold TrimSpace. etrans; [apply trim_space_right_length|]. apply trim_space_left_length.
Qed.

(** ** Fields of a decoded map *)

Lemma field_elem {A} k (ms : list (bytes * A)) v : field k ms = Some v → (k, v) ∈ ms.
Proof.
  induction ms as [|[k' w] ms IH]; simpl; [done|]. destruct (field k ms); [intros [= ->]; set_solver|].
  case_bool_decide; [|done]. intros [= ->]. set_solver.
Qed.

(** Distinct fields take no more room than all members together. *)
Definition field_lengths (ks : list bytes) (ms : list (bytes * bytes)) : nat :=
  sum_list_with (λ k, match field k ms with Some raw => S (length raw) | None => 0%nat end) ks.

Lemma field_lengths_le ks ms : NoDup ks → (field_lengths ks ms ≤ total_length (map snd ms))%nat.
Proof.
  revert ks. induction ms as [|[k v] ms IH]; intros ks Hk.
  - unfold field_lengths. induction ks; [done|]. inv Hk. simpl. auto.
  - assert (field_lengths ks ((k, v) :: ms) ≤ S (length v) + field_lengths ks ms)%nat; [|specialize (IH ks Hk); simpl; unfold total_length in *; lia].
    clear IH. unfold field_lengths. induction Hk as [|k' ks Hn Hk IHk]; [simpl; lia|]. simpl in *.
    destruct (field k' ms) as [w|]; [lia|]. case_bool_decide as E; [|lia]. subst k'.
    assert (sum_list_with (λ k0, match (match field k0 ms with Some w => Some w | None => if bool_decide (k = k0) then Some v else None end)
      with Some raw => S (length raw) | None => 0%nat end) ks = sum_list_with (λ k0, match field k0 ms with Some raw => S (length raw) | None => 0%nat end) ks)%nat as ->; [|lia].
    clear IHk Hk. induction ks as [|k0 ks IH]; [done|]. simpl. rewrite not_elem_of_cons in Hn. destruct Hn as [H1 H2].
    rewrite IH by done. destruct (field k0 ms); [done|]. by rewrite bool_decide_false.
Qed.

(** ** Plain texts *)

(** Printable ASCII without the quote and the backslash. *)
Definition plain_char (c : ascii) : bool :=
  (32 <=? code c) && (code c <? 127) && negb (byte_eqb c quote_char) && negb (byte_eqb c backslash).
Definition plain (s : bytes) : bool := forallb plain_char s.

Lemma plain_content c : plain c = true → content_ok c = true.
Proof.
  intros H. apply bool_decide_eq_true. induction c as [|x c IH]; [done|]. simpl in H. apply andb_true_iff in H as [Hx Hc].
  unfold plain_char in Hx. rewrite !andb_true_iff, !negb_true_iff in Hx. destruct Hx as [[[H1 H2] H3] H4].
  cbn [app scan_string]. rewrite H3, H4, (IH Hc). by destruct (Z.ltb_spec (code x) 32); [lia|].
Qed.

Lemma EncodeRune_ascii c : code c < 128 → EncodeRune (code c) = [c].
Proof.
  intros H. pose proof (code_range c). unfold EncodeRune.
  assert (valid_rune (code c) = true) as -> by (apply valid_rune_spec; lia).
  destruct (Z.ltb_spec (code c) 128); [|lia]. by rewrite chr_code.
Qed.

Lemma plain_unquote c : plain c = true → unquote c = c.
Proof.
  unfold unquote. induction c as [|x c IH]; [done|]. intros H. simpl in H. apply andb_true_iff in H as [Hx Hc].
  unfold plain_char in Hx. rewrite !andb_true_iff, !negb_true_iff in Hx. destruct Hx as [[[H1 H2] H3] H4].
  cbn [length unquote_loop]. rewrite H4. cbn [DecodeRune]. destruct (Z.ltb_spec (code x) 128); [|lia].
  rewrite EncodeRune_ascii by done. cbn [app drop].
  by rewrite drop_0, IH.
Qed.

(** A text that starts and ends with visible ASCII is trimmed already. *)
Definition visible (c : ascii) : Prop := 32 < code c < 128.

Lemma visible_not_space c : visible c → is_space (code c) = false.
Proof. unfold visible, is_space. lia. Qed.

Lemma DecodeRune_last s c : visible c → (length s ≤ 2)%nat →
  ¬ (let '(r, w, ok) := DecodeRune (s ++ [c]) in ok = true ∧ w = length (s ++ [c]) ∧ is_space r = true).
Proof.
  intros Hc Hl. pose proof Hc as Hs%visible_not_space. unfold visible in Hc.
  destruct s as [|x [|y [|z s]]]; cbn [app DecodeRune length] in *; [| | |simpl in Hl; lia].
  - destruct (Z.ltb_spec (code c) 128); [|lia]. intros (_ & _ & E). congruence.
  - destruct (code x <? 128); [by intros (_ & ? & _)|]. destruct (_ || _); [by intros (? & _)|].
    assert ((code c <? second_lo (code x)) = true) as Es.
    { unfold second_lo. destruct (_ =? 224); [|destruct (_ =? 240)]; lia. }
    rewrite Es. by intros (? & _).
  - destruct (code x <? 128); [by intros (_ & ? & _)|]. destruct (_ || _); [by intros (? & _)|].
    destruct (_ || _); [by intros (? & _)|]. destruct (code x <? 224); [by intros (_ & ? & _)|].
    assert (continuation (code c) = false) as -> by (unfold continuation; lia). by intros (? & _).
Qed.

Lemma TrimSpace_visible c1 s c2 : visible c1 → visible c2 → TrimSpace (c1 :: s ++ [c2]) = c1 :: s ++ [c2].
Proof.
  intros H1 H2. unfold TrimSpace. assert (trim_space_left (length (c1 :: s ++ [c2])) (c1 :: s ++ [c2]) = c1 :: s ++ [c2]) as ->.
  { cbn [length trim_space_left DecodeRune]. pose proof (visible_not_space _ H1) as E. unfold visible in H1.
    destruct (Z.ltb_spec (code c1) 128); [|lia]. by rewrite E. }
  rewrite app_comm_cons. assert (last_space ((c1 :: s) ++ [c2]) = None) as Hn.
  { unfold last_space. apply bind_None. left. apply list_find_None, Forall_forall. intros w Hw [Hle H].
    apply list_elem_of_In in Hw. simpl in Hw. destruct w as [|w]; [lia|]. assert (w ≤ 2)%nat by lia.
    rewrite length_app in *. simpl length in *.
    replace (S (length s) + 1 - S w)%nat with (length (c1 :: s) - w)%nat in H by (simpl; lia).
    rewrite drop_app_le in H by (simpl; lia).
    apply (DecodeRune_last (drop (length (c1 :: s) - w) (c1 :: s)) c2 H2); [rewrite length_drop; simpl; lia|].
    destruct (DecodeRune _) as [[r w'] ok]. destruct H as (? & -> & ?). split_and!; [done| |done].
    rewrite length_app, length_drop. simpl. lia. }
  destruct (length _) as [|n]; [done|]. cbn [trim_space_right]. by rewrite Hn.
Qed.

Lemma print_object_trim ms : TrimSpace (print (JObject ms)) = print (JObject ms).
Proof. by apply TrimSpace_visible. Qed.

Lemma print_string_not_null c : isJSONNull (print (JString c)) = false.
Proof. apply bool_decide_false. simpl. by rewrite TrimSpace_visible. Qed.

Lemma parse_printed j : json_ok maxNestingDepth j = true → parse (print j) = Some (shape_of j).
Proof.
  intros H. pose proof (parse_print maxNestingDepth j [] [] H eq_refl eq_refl) as E. by rewrite app_nil_r in E.
Qed.

Lemma trim_space_right_take n s : ∃ k, trim_space_right n s = take k s.
Proof.
  revert s. induction n as [|n IH]; intros s; [exists (length s); by rewrite take_ge|]. cbn [trim_space_right].
  destruct (last_space s) as [w|]; [|exists (length s); by rewrite take_ge].
  destruct (IH (take (length s - w) s)) as [k ->]. rewrite take_take. eauto.
Qed.

(** Only [null] prints as [null]. *)
Definition is_null (j : json) : bool := match j with JNull => true | _ => false end.

Lemma print_null j d : json_ok d j = true → isJSONNull (print j) = is_null j.
Proof.
  destruct j as [|[]|lit|c|l|ms]; intros H; try done.
  - apply bool_decide_false. intros E. simpl in *. destruct (number_head _ H) as (c & s & -> & Hc).
    assert (visible c) as Hv by (unfold visible; destruct Hc as [Hc| ->]; [unfold is_digit in Hc; lia|by split]).
    unfold TrimSpace in E. assert (trim_space_left (length (c :: s)) (c :: s) = c :: s) as E2.
    { cbn [length trim_space_left DecodeRune]. pose proof (visible_not_space _ Hv) as En. unfold visible in Hv.
      destruct (Z.ltb_spec (code c) 128); [|lia]. by rewrite En. }
    rewrite E2 in E. destruct (trim_space_right_take (length (c :: s)) (c :: s)) as [k Ek]. rewrite Ek in E.
    destruct k as [|k]; [done|]. injection E as -> _. destruct Hc as [Hc|Hc]; [by vm_compute in Hc|done].
  - apply print_string_not_null.
  - apply bool_decide_false. cbn [print]. by rewrite TrimSpace_visible.
  - apply bool_decide_false. cbn [print]. by rewrite TrimSpace_visible.
Qed.

Lemma json_ok_mono j : ∀ d d', (d ≤ d')%nat → json_ok d j = true → json_ok d' j = true.
Proof.
  induction j as [|b|lit|c|l IH|ms IH] using json_ind; intros d d' Hd; try done; simpl; destruct d as [|d]; try done;
    (destruct d' as [|d']; [lia|]); intros H.
  - rewrite forallb_forall in *. intros x Hx. rewrite Forall_forall in IH.
    apply (IH x) with d; [by apply list_elem_of_In|lia|by apply H].
  - rewrite forallb_forall in *. intros x Hx. specialize (H x Hx). apply andb_true_iff in H as [-> H]. simpl.
    rewrite Forall_forall in IH. apply (IH x) with d; [by apply list_elem_of_In|lia|done].
Qed.

Lemma field_map {A B} (f : A → B) k (ms : list (bytes * A)) :
  field k (map (λ m, (m.1, f m.2)) ms) = f <$> field k ms.
Proof.
  induction ms as [|[k' v] ms IH]; [done|]. simpl. rewrite IH. destruct (field k ms); simpl; [done|]. by case_bool_decide.
Qed.

(** With distinct keys the order of the members does not matter. *)
Lemma field_NoDup {A} k v (ms : list (bytes * A)) : NoDup (map fst ms) → (k, v) ∈ ms → field k ms = Some v.
Proof.
  induction ms as [|[k' w] ms IH]; intros Hn Hin; [by apply not_elem_of_nil in Hin|]. simpl in Hn. apply NoDup_cons in Hn as [H1 H2].
  simpl. apply elem_of_cons in Hin as [[= <- <-]|Hin].
  - destruct (field k ms) as [x|] eqn:E; [|by rewrite bool_decide_true]. apply field_elem in E. destruct H1.
    apply list_elem_of_fmap. by exists (k, x).
  - by rewrite IH.
Qed.

Lemma field_Permutation {A} k (ms ms' : list (bytes * A)) : NoDup (map fst ms) → ms ≡ₚ ms' → field k ms = field k ms'.
Proof.
  intros Hn Hp. assert (NoDup (map fst ms')) as Hn' by (by rewrite <-Hp).
  destruct (field k ms) as [v|] eqn:E.
  - symmetry. apply field_NoDup; [done|]. rewrite <-Hp. by apply field_elem.
  - destruct (field k ms') as [v|] eqn:E'; [|done]. apply field_elem in E'. rewrite <-Hp in E'.
    by rewrite (field_NoDup _ _ _ Hn E') in E.
Qed.
