(* ===== verification/Duration.v ===== *)
(** * [time.ParseDuration]

    Policies and settings give window lengths as texts such as [1h30m].  The
    parser of package [time], with its overflow checks on [uint64]; the value
    of a fraction goes through [float64], which is computed with the
    specification floats of the standard library. *)

From Stdlib Require Import Ascii ZArith Lia ZifyBool SpecFloat.
From stdpp Require Import prelude strings list.
From S2P Require Import Prelude Text.
Local Open Scope Z_scope.

(** ** [float64] *)

Definition float_of_Z (n : Z) : spec_float := binary_normalize 53 1024 n 0 false.
Definition float_mul : spec_float → spec_float → spec_float := SFmul 53 1024.
Definition float_div : spec_float → spec_float → spec_float := SFdiv 53 1024.

(** Conversion to an integer truncates. *)
Definition float_trunc (f : spec_float) : Z :=
  match f with
  | S754_finite s m e => let v := Z.shiftl (Zpos m) e in if s then - v else v
  | _ => 0
  end.

(** ** The parser *)

Definition two63 : Z := 9223372036854775808.

(** [leadingInt]: the digits at the start; [None] when they exceed 2^63. *)
Fixpoint leadingInt (x : Z) (s : bytes) : option (Z * bytes) :=
  match s with
  | c :: s' =>
      if negb (is_digit c) then Some (x, s)
      else if two63 / 10 <? x then None
      else
        let x := x * 10 + digit_value c in
        if two63 <? x then None else leadingInt x s'
  | [] => Some (x, s)
  end.

(** [leadingFraction]: digits that do not fit are read and dropped. *)
Fixpoint leadingFraction (x : Z) (scale : spec_float) (overflow : bool) (s : bytes) : Z * spec_float * bytes :=
  match s with
  | c :: s' =>
      if negb (is_digit c) then (x, scale, s)
      else if overflow then leadingFraction x scale true s'
      else if maxInt64 / 10 <? x then leadingFraction x scale true s'
      else
        let y := x * 10 + digit_value c in
        if two63 <? y then leadingFraction x scale true s'
        else leadingFraction y (float_mul scale (float_of_Z 10)) false s'
  | [] => (x, scale, s)
  end.

(** The unit ends at the next digit or period. *)
Fixpoint span_unit (s : bytes) : bytes * bytes :=
  match s with
  | c :: s' => if byte_eqb c dot || is_digit c then ([], s) else let '(u, r) := span_unit s' in (c :: u, r)
  | [] => ([], [])
  end.

Definition unitMap (u : bytes) : option Z :=
  if bool_decide (u = str "ns") then Some 1
  else if bool_decide (u = str "us") then Some 1000
  else if bool_decide (u = [chr 194; chr 181; "s"%char]) then Some 1000
  else if bool_decide (u = [chr 206; chr 188; "s"%char]) then Some 1000
  else if bool_decide (u = str "ms") then Some 1000000
  else if bool_decide (u = str "s") then Some 1000000000
  else if bool_decide (u = str "m") then Some 60000000000
  else if bool_decide (u = str "h") then Some 3600000000000
  else None.

(** One number with its unit, and what is left. *)
Definition duration_term (s : bytes) : option (Z * bytes) :=
  match s with
  | [] => None
  | c :: _ =>
      if negb (byte_eqb c dot || is_digit c) then None
      else
        match leadingInt 0 s with
        | None => None
        | Some (v, s1) =>
            let pre := negb (length s =? length s1)%nat in
            let '(f, scale, s2, post) :=
              match s1 with
              | c1 :: s1' =>
                  if byte_eqb c1 dot then
                    let '(f, scale, r) := leadingFraction 0 (float_of_Z 1) false s1' in
                    (f, scale, r, negb (length s1' =? length r)%nat)
                  else (0, float_of_Z 1, s1, false)
              | [] => (0, float_of_Z 1, s1, false)
              end in
            if negb pre && negb post then None
            else
              let '(u, s3) := span_unit s2 in
              if bool_decide (u = []) then None
              else
                match unitMap u with
                | None => None
                | Some unit =>
                    if two63 / unit <? v then None
                    else
                      let v := v * unit in
                      if 0 <? f then
                        let v := v + float_trunc (float_mul (float_of_Z f) (float_div (float_of_Z unit) scale)) in
                        if two63 <? v then None else Some (v, s3)
                      else Some (v, s3)
                end
        end
  end.

Fixpoint duration_terms (n : nat) (d : Z) (s : bytes) : option Z :=
  match s with
  | [] => Some d
  | _ :: _ =>
      match n with
      | O => None
      | S n =>
          match duration_term s with
          | None => None
          | Some (v, r) => let d := wrapU64 (d + v) in if two63 <? d then None else duration_terms n d r
          end
      end
  end.

Definition ParseDuration (s0 : bytes) : option Z :=
  let '(neg, s) :=
    match s0 with
    | c :: s' => if byte_eqb c minus_char || byte_eqb c plus_char then (byte_eqb c minus_char, s') else (false, s0)
    | [] => (false, s0)
    end in
  if bool_decide (s = [zero_char]) then Some 0
  else if bool_decide (s = []) then None
  else
    match duration_terms (length s) 0 s with
    | None => None
    | Some d =>
        if neg : bool then Some (wrap64 (- d))
        else if maxInt64 <? d then None
        else Some d
    end.

(** ** Lemmas *)

Lemma leadingInt_suffix s : ∀ x v r, leadingInt x s = Some (v, r) → r `suffix_of` s.
Proof.
  induction s as [|c s IH]; intros x v r; simpl; [by intros [= _ <-]|].
  destruct (negb _); [by intros [= _ <-]|]. destruct (_ <? x); [done|]. destruct (_ <? _); [done|].
  intros H%IH. by apply suffix_cons_r.
Qed.

Lemma leadingFraction_suffix s : ∀ x f o y g r, leadingFraction x f o s = (y, g, r) → r `suffix_of` s.
Proof.
  induction s as [|c s IH]; intros x f o y g r; simpl; [by intros [= _ _ <-]|].
  destruct (negb _); [by intros [= _ _ <-]|]. destruct o; [|destruct (_ <? x); [|destruct (_ <? _)]];
    intros H%IH; by apply suffix_cons_r.
Qed.

Lemma span_unit_app s u r : span_unit s = (u, r) → s = u ++ r.
Proof.
  revert u r. induction s as [|c s IH]; intros u r; simpl; [by intros [= <- <-]|].
  destruct (_ || _); [by intros [= <- <-]|]. destruct (span_unit s) as [u' r']. intros [= <- <-]. simpl. f_equal. by apply IH.
Qed.

(** Every term consumes at least its unit, so the fuel is enough. *)
Lemma duration_term_shorter s v r : duration_term s = Some (v, r) → (length r < length s)%nat.
Proof.
  unfold duration_term. destruct s as [|c s]; [done|]. destruct (negb _); [done|].
  destruct (leadingInt 0 (c :: s)) as [[v0 s1]|] eqn:E1; [|done]. apply leadingInt_suffix, suffix_length in E1.
  destruct (match s1 with [] => _ | _ => _ end) as [[[f scale] s2] post] eqn:E2.
  assert (length s2 ≤ length s1)%nat.
  { destruct s1 as [|c1 s1]; [by simplify_eq|]. destruct (byte_eqb c1 dot); [|by simplify_eq].
    destruct (leadingFraction _ _ _ s1) as [[f' g'] r'] eqn:E3. apply leadingFraction_suffix, suffix_length in E3.
    simplify_eq. simpl. lia. }
  destruct (negb _ && negb _); [done|]. destruct (span_unit s2) as [u s3] eqn:E4. apply span_unit_app in E4.
  case_bool_decide; [done|]. subst s2. rewrite length_app in *.
  assert (length u ≠ 0)%nat by (by destruct u). intros Hr. assert (s3 = r) as <-; [|lia].
  destruct (unitMap u); [|done]. destruct (_ <? v0); [done|]. destruct (0 <? f); [destruct (_ <? _)|]; congruence.
Qed.

Lemma duration_terms_fuel n m d s : (length s ≤ n)%nat → (length s ≤ m)%nat → duration_terms n d s = duration_terms m d s.
Proof.
  revert m d s. induction n as [|n IH]; intros m d s Hn Hm; (destruct s as [|c s]; [by destruct m|]); [simpl in *; lia|].
  destruct m as [|m]; [simpl in *; lia|]. cbn [duration_terms].
  destruct (duration_term (c :: s)) as [[v r]|] eqn:E; [|done].
  apply duration_term_shorter in E. simpl in *. destruct (_ <? _); [done|]. apply IH; lia.
Qed.

Lemma digit_not_dot c : is_digit c = true → byte_eqb c dot = false.
Proof. intros H. unfold byte_eqb. by rewrite bool_decide_false by (intros ->; done). Qed.

Lemma leadingInt_digits s : ∀ x r, forallb is_digit s = true → 0 <= x →
  match r with c :: _ => is_digit c = false | [] => True end →
  x * 10 ^ Z.of_nat (length s) + digits_value s <= maxInt64 →
  leadingInt x (s ++ r) = Some (x * 10 ^ Z.of_nat (length s) + digits_value s, r).
Proof.
  induction s as [|c s IH]; intros x r Hd Hx Hr Hm.
  - change (digits_value []) with 0 in *. rewrite Z.mul_1_r, Z.add_0_r. destruct r as [|c r]; [done|]. simpl. by rewrite Hr.
  - simpl in Hd. apply andb_true_iff in Hd as [Hc Hd]. pose proof (is_digit_value _ Hc).
    assert (digits_value (c :: s) = digit_value c * 10 ^ Z.of_nat (length s) + digits_value s) as E.
    { unfold digits_value at 1. simpl. rewrite digits_value_foldl. lia. }
    pose proof (digits_value_bound s Hd) as Hb. simpl length in *.
    rewrite Nat2Z.inj_succ, Z.pow_succ_r, E in * by lia. assert (1 <= 10 ^ Z.of_nat (length s)) by lia.
    assert (x * 10 + digit_value c <= maxInt64) by (unfold maxInt64 in *; nia).
    simpl. rewrite Hc. simpl. rewrite (proj2 (Z.ltb_ge _ _)) by (unfold maxInt64, two63 in *; div_lia).
    rewrite (proj2 (Z.ltb_ge _ _)) by (unfold maxInt64, two63 in *; lia).
    rewrite IH; [f_equal; f_equal; lia|done|lia|done|lia].
Qed.

Lemma unitMap_spec u unit : unitMap u = Some unit →
  0 < unit ∧ span_unit u = (u, []) ∧ ∃ c u', u = c :: u' ∧ is_digit c = false ∧ byte_eqb c dot = false.
Proof.
  unfold unitMap. intros H.
  repeat match goal with
  | H : (if bool_decide (?x = ?y) then _ else _) = _ |- _ =>
      destruct (bool_decide_reflect (x = y)) as [-> |];
        [injection H as <-; split_and!; [lia|done|by eexists _, _]|]
  end. done.
Qed.

Lemma duration_term_units u unit n :
  unitMap u = Some unit → 0 <= n → n * unit <= maxInt64 → duration_term (FormatInt n ++ u) = Some (n * unit, []).
Proof.
  intros Hu Hn Hm. destruct (unitMap_spec u unit Hu) as (Hunit & Hspan & c & u' & E & Hc & Hdot).
  destruct (FormatInt_spec n) as (Hd & Hv & Hne & _); [nia|].
  destruct (FormatInt n) as [|c0 ds] eqn:Ef; [done|]. unfold duration_term. cbn [app].
  assert (is_digit c0 = true) as Hc0 by (simpl in Hd; by apply andb_true_iff in Hd as [? _]).
  rewrite Hc0, orb_true_r. cbn [negb]. rewrite app_comm_cons.
  rewrite leadingInt_digits; [|done|lia|by rewrite E|rewrite Hv; nia]. rewrite Hv, Z.mul_0_l, Z.add_0_l.
  rewrite length_app. replace (length (c0 :: ds) + length u =? length u)%nat with false by (symmetry; apply Nat.eqb_neq; simpl; lia).
  destruct (match u with [] => _ | _ => _ end) as [[[f scale] s2] post] eqn:E2.
  assert (f = 0 ∧ s2 = u) as [-> ->].
  { rewrite E, Hdot in E2. rewrite <-E in E2. by simplify_eq. }
  cbn [negb andb]. rewrite Hspan, bool_decide_false by (by rewrite E). rewrite Hu.
  rewrite (proj2 (Z.ltb_ge _ _)); [done|]. apply Z.div_le_lower_bound; unfold two63, maxInt64 in *; lia.
Qed.

(** A count with any unit, as administration writes window lengths, is read
    back exactly. *)
Theorem ParseDuration_units u unit n :
  unitMap u = Some unit → 0 <= n → n * unit <= maxInt64 → ParseDuration (FormatInt n ++ u) = Some (n * unit).
Proof.
  intros Hu Hn Hm. pose proof (duration_term_units u unit n Hu Hn Hm) as Ht.
  destruct (unitMap_spec u unit Hu) as (Hunit & _ & c & u' & E & _ & _).
  destruct (FormatInt_spec n) as (Hd & _ & Hne & _); [nia|].
  destruct (FormatInt n) as [|c0 ds]; [done|].
  assert (is_digit c0 = true) as Hc0 by (simpl in Hd; by apply andb_true_iff in Hd as [? _]).
  destruct (is_digit_not_sign _ Hc0) as (H1 & H2 & _). unfold ParseDuration. cbn [app]. rewrite H1, H2. cbn [orb].
  rewrite bool_decide_false by (rewrite E; by destruct ds). rewrite bool_decide_false by done.
  cbn [length duration_terms]. cbn [app] in Ht. rewrite Ht. cbn iota beta.
  unfold wrapU64. rewrite Z.add_0_l, Z.mod_small by (unfold maxInt64 in *; nia).
  rewrite (proj2 (Z.ltb_ge _ _)) by (unfold two63, maxInt64 in *; lia).
  destruct (length (ds ++ u)); cbn [duration_terms]; by rewrite (proj2 (Z.ltb_ge maxInt64 _)) by lia.
Qed.
