(* ===== verification/Policy.v ===== *)
(** * Compiled key policies ([internal/auth/policy.go])

    A stored policy is a JSON document.  The compiler rejects duplicate and
    unknown members and null values, compiles the model patterns, normalizes
    the windows and reads the budgets; the gateway then only evaluates the
    compiled value.  The documents are read with the functions of [Json]. *)

From Stdlib Require Import Ascii ZArith Lia ZifyBool.
From stdpp Require Import prelude strings list.
From S2P Require Import Prelude Text Utf8 Money ModelMatch Windows BudgetLimiter Json Duration.
Local Open Scope Z_scope.

Inductive policy_error := ErrInvalidPolicy.

Definition TokenMode : Type := bytes.
Definition TokenModeUsageOnly : TokenMode := str "usage_only".
Definition TokenModeEstimate : TokenMode := str "estimate".

Definition valid_mode (mode : TokenMode) : bool :=
  bool_decide (mode = TokenModeUsageOnly) || bool_decide (mode = TokenModeEstimate).

(** ** The document *)

Record windowDocument := mkWindowDocument { wd_Amount : Z; wd_Duration : bytes }.

Record policyDocument := mkDocument {
  AllowedModels : slice bytes; DeniedModels : slice bytes;
  RequestWindows : slice windowDocument; TokenWindows : slice windowDocument;
  BudgetLimits : bytes; Doc_TokenMode : option TokenMode; Doc_MaxConcurrency : option Z;
  Doc_LogRequestBody : option bool; Doc_LogResponseBody : option bool }.

Definition emptyDocument : policyDocument := mkDocument ([], []) ([], []) ([], []) ([], []) [] None None None None.

Definition window_names : list bytes := [str "amount"; str "duration"].

Definition set_window (name raw : bytes) (w : windowDocument) : option windowDocument :=
  if bool_decide (name = str "amount") then
    match Unmarshal_int64 (wd_Amount w) raw with Some a => Some (mkWindowDocument a (wd_Duration w)) | None => None end
  else
    match Unmarshal_string (wd_Duration w) raw with Some d => Some (mkWindowDocument (wd_Amount w) d) | None => None end.

Definition decode_window : windowDocument → bytes → option windowDocument := Unmarshal_struct window_names set_window.
Definition zeroWindow : windowDocument := mkWindowDocument 0 [].

Definition policy_names : list bytes :=
  [str "allowed_models"; str "denied_models"; str "request_windows"; str "token_windows"; str "budget_limits";
   str "token_mode"; str "max_concurrent_requests"; str "log_request_body"; str "log_response_body"].

(** One member of the document into its field. *)
Definition set_member (name raw : bytes) (d : policyDocument) : option policyDocument :=
  let '(mkDocument a n r t b m c q p) := d in
  if bool_decide (name = str "allowed_models") then
    a ← Unmarshal_slice Unmarshal_string [] a raw; Some (mkDocument a n r t b m c q p)
  else if bool_decide (name = str "denied_models") then
    n ← Unmarshal_slice Unmarshal_string [] n raw; Some (mkDocument a n r t b m c q p)
  else if bool_decide (name = str "request_windows") then
    r ← Unmarshal_slice decode_window zeroWindow r raw; Some (mkDocument a n r t b m c q p)
  else if bool_decide (name = str "token_windows") then
    t ← Unmarshal_slice decode_window zeroWindow t raw; Some (mkDocument a n r t b m c q p)
  else if bool_decide (name = str "budget_limits") then Some (mkDocument a n r t raw m c q p)
  else if bool_decide (name = str "token_mode") then
    m ← Unmarshal_pointer Unmarshal_string [] m raw; Some (mkDocument a n r t b m c q p)
  else if bool_decide (name = str "max_concurrent_requests") then
    c ← Unmarshal_pointer Unmarshal_int64 0 c raw; Some (mkDocument a n r t b m c q p)
  else if bool_decide (name = str "log_request_body") then
    q ← Unmarshal_pointer Unmarshal_bool false q raw; Some (mkDocument a n r t b m c q p)
  else
    p ← Unmarshal_pointer Unmarshal_bool false p raw; Some (mkDocument a n r t b m c q p).

(** ** Duplicate members

    [decoder.Token] reads a number as a [float64] and fails when it is out of
    range: when it rounds to 2^1024 or more.  The exponent stops growing at
    five digits, as in [strconv]. *)

Definition exponent_value (s : bytes) : Z := foldl (λ e c, if e <? 10000 then e * 10 + digit_value c else e) 0 s.

Definition split_number (lit : bytes) : bytes * bytes * Z :=
  let lit := match lit with c :: s => if byte_eqb c minus_char then s else lit | [] => lit end in
  let rest := skip_digits lit in
  let int := consumed lit rest in
  let '(frac, rest) :=
    match rest with
    | c :: s => if byte_eqb c dot then (consumed s (skip_digits s), skip_digits s) else ([], rest)
    | [] => ([], rest)
    end in
  let e :=
    match rest with
    | _ :: c :: s =>
        if byte_eqb c minus_char then - exponent_value s
        else if byte_eqb c plus_char then exponent_value s else exponent_value (c :: s)
    | _ => 0
    end in
  (int, frac, e).

Definition float_in_range (lit : bytes) : bool :=
  let '(int, frac, e) := split_number lit in
  let m := digits_value (int ++ frac) in
  let e := e - Z.of_nat (length frac) in
  if m =? 0 then true
  else if 400 <? e then false
  else if 0 <=? e then m * 10 ^ e <? 2 ^ 1024 - 2 ^ 970
  else m <? (2 ^ 1024 - 2 ^ 970) * 10 ^ (- e).

(** [scanJSONValue] with the end-of-input check of [rejectDuplicateJSONKeys]. *)
Fixpoint scanJSONValue (n : nat) (raw : bytes) : bool :=
  match n with
  | O => false
  | S n =>
      match parse_within (length raw) raw with
      | Some (SObject ms) => bool_decide (NoDup (map (λ m, unquote m.1) ms)) && forallb (λ m, scanJSONValue n m.2) ms
      | Some (SArray l) => forallb (scanJSONValue n) l
      | Some (SNumber lit) => float_in_range lit
      | Some _ => true
      | None => false
      end
  end.

Definition rejectDuplicateJSONKeys (data : bytes) : bool := scanJSONValue (S (length data)) data.

(** ** Budgets *)

Record budgets := mkBudgets {
  bg_total : Money; bg_totalPresent : bool; bg_day : Money; bg_dayPresent : bool; bg_month : Money; bg_monthPresent : bool }.

Definition noBudgets : budgets := mkBudgets UnknownMoney false UnknownMoney false UnknownMoney false.

Definition period_total : bytes := str "total".
Definition period_day : bytes := str "day".
Definition period_month : bytes := str "month".

Definition parseBudgetMicros (raw : bytes) : result policy_error Z :=
  let value := TrimSpace raw in
  if bool_decide (value = []) || ((1 <? Z.of_nat (length value)) && bool_decide (head value = Some zero_char)) then Err ErrInvalidPolicy
  else if negb (forallb is_digit value) then Err ErrInvalidPolicy
  else match ParseInt value with Ok parsed => Ok parsed | Err _ => Err ErrInvalidPolicy end.

Definition set_budget (period : bytes) (v : Money) (b : budgets) : budgets :=
  if bool_decide (period = period_total) then mkBudgets v true (bg_day b) (bg_dayPresent b) (bg_month b) (bg_monthPresent b)
  else if bool_decide (period = period_day) then mkBudgets (bg_total b) (bg_totalPresent b) v true (bg_month b) (bg_monthPresent b)
  else mkBudgets (bg_total b) (bg_totalPresent b) (bg_day b) (bg_dayPresent b) v true.

(** One entry: its period and its amount. *)
Definition parse_entry (seen : list bytes) (entry : bytes) : result policy_error (bytes * Money) :=
  let object := TrimSpace entry in
  if negb (bool_decide (head object = Some "{"%char)) then Err ErrInvalidPolicy
  else if negb (rejectDuplicateJSONKeys object) then Err ErrInvalidPolicy
  else
    match Unmarshal_map object with
    | None => Err ErrInvalidPolicy
    | Some fields =>
        let fields := default [] fields in
        if negb (forallb (λ m, bool_decide (m.1 = str "amount_micros") || bool_decide (m.1 = str "period")) fields)
        then Err ErrInvalidPolicy
        else
          match field (str "amount_micros") fields, field (str "period") fields with
          | Some amountRaw, Some periodRaw =>
              if isJSONNull amountRaw || isJSONNull periodRaw then Err ErrInvalidPolicy
              else
                match Unmarshal_string [] periodRaw with
                | None => Err ErrInvalidPolicy
                | Some period =>
                    if negb (bool_decide (period ∈ [period_total; period_day; period_month])) then Err ErrInvalidPolicy
                    else if bool_decide (period ∈ seen) then Err ErrInvalidPolicy
                    else
                      let? micros := parseBudgetMicros amountRaw in
                      match NewMoneyMicros micros with
                      | Err _ => Err ErrInvalidPolicy
                      | Ok v => if micros =? 0 then Err ErrInvalidPolicy else Ok (period, v)
                      end
                end
          | _, _ => Err ErrInvalidPolicy
          end
    end.

Fixpoint parse_entries (seen : list bytes) (entries : list bytes) (b : budgets) : result policy_error budgets :=
  match entries with
  | [] => Ok b
  | entry :: entries' =>
      let? pv := parse_entry seen entry in
      parse_entries (pv.1 :: seen) entries' (set_budget pv.1 pv.2 b)
  end.

Definition parseBudgetLimits (raw : bytes) : result policy_error budgets :=
  let trimmed := TrimSpace raw in
  if bool_decide (trimmed = []) || bool_decide (trimmed = str "null") || negb (bool_decide (head trimmed = Some "["%char))
  then Err ErrInvalidPolicy
  else
    match Unmarshal_raws trimmed with
    | Some (Some entries) => parse_entries [] entries noBudgets
    | _ => Err ErrInvalidPolicy
    end.

(** ** The compiler *)

Record EffectivePolicy := mkEffective {
  allowedModels : list Pattern; deniedModels : list Pattern;
  requestWindows : list windowKey; tokenWindows : list windowKey;
  tokenMode : TokenMode; tokenModeSet : bool; maxConcurrency : Z;
  policyBudgets : budgets; logRequestBody : bool; logResponseBody : bool }.

Fixpoint compile_patterns (seen patterns : list bytes) : result policy_error (list Pattern) :=
  match patterns with
  | [] => Ok []
  | pattern :: patterns' =>
      if TrimSpace_empty pattern then Err ErrInvalidPolicy
      else if bool_decide (pattern ∈ seen) then Err ErrInvalidPolicy
      else
        match Compile pattern with
        | Err _ => Err ErrInvalidPolicy
        | Ok compiled => let? rest := compile_patterns (pattern :: seen) patterns' in Ok (compiled :: rest)
        end
  end.

Fixpoint compile_windows (seen : list windowKey) (windows : list windowDocument) : result policy_error (list windowKey) :=
  match windows with
  | [] => Ok []
  | w :: windows' =>
      if (wd_Amount w <=? 0) || bool_decide (wd_Duration w = []) then Err ErrInvalidPolicy
      else
        match ParseDuration (wd_Duration w) with
        | None => Err ErrInvalidPolicy
        | Some d =>
            if (d <=? 0) || negb (Z.rem d second =? 0) then Err ErrInvalidPolicy
            else
              let normalized := mkWindow (wd_Amount w) d in
              if bool_decide (normalized ∈ seen) then Err ErrInvalidPolicy
              else let? rest := compile_windows (normalized :: seen) windows' in Ok (normalized :: rest)
        end
  end.

(** From the decoded document to the policy. *)
Definition compile_document (defaultMode : TokenMode) (document : policyDocument) : result policy_error EffectivePolicy :=
  let? allowed := compile_patterns [] (AllowedModels document).1 in
  let? denied := compile_patterns [] (DeniedModels document).1 in
  let? requests := compile_windows [] (RequestWindows document).1 in
  let? tokens := compile_windows [] (TokenWindows document).1 in
  let? limits := (if bool_decide (BudgetLimits document = []) then Ok noBudgets else parseBudgetLimits (BudgetLimits document)) in
  let? mode :=
    match Doc_TokenMode document with
    | Some m => if valid_mode m then Ok (m, true) else Err ErrInvalidPolicy
    | None => Ok (defaultMode, false)
    end in
  let? concurrency :=
    match Doc_MaxConcurrency document with
    | Some c => if c <? 0 then Err ErrInvalidPolicy else Ok c
    | None => Ok 0
    end in
  Ok (mkEffective allowed denied requests tokens mode.1 mode.2 concurrency limits
    (default false (Doc_LogRequestBody document)) (default false (Doc_LogResponseBody document))).

Definition null_member (fields : list (bytes * bytes)) (name : bytes) : bool :=
  match field name fields with Some v => isJSONNull v | None => false end.

Definition unrestricted (mode : TokenMode) : EffectivePolicy :=
  mkEffective [] [] [] [] mode false 0 noBudgets false false.

Definition parsePolicy (data0 : bytes) (defaultMode : TokenMode) : result policy_error EffectivePolicy :=
  if negb (valid_mode defaultMode) then Err ErrInvalidPolicy
  else
    let data := TrimSpace data0 in
    match data with
    | [] => Ok (unrestricted defaultMode)
    | c :: _ =>
        if negb (byte_eqb c "{") then Err ErrInvalidPolicy
        else if negb (rejectDuplicateJSONKeys data) then Err ErrInvalidPolicy
        else
          match Unmarshal_map data with
          | None => Err ErrInvalidPolicy
          | Some fields =>
              if existsb (null_member (default [] fields)) policy_names then Err ErrInvalidPolicy
              else
                match Unmarshal_struct policy_names set_member emptyDocument data with
                | None => Err ErrInvalidPolicy
                | Some document => compile_document defaultMode document
                end
          end
    end.

Definition ParsePolicy (data : bytes) : result policy_error EffectivePolicy := parsePolicy data TokenModeEstimate.
Definition ParsePolicyWithTokenMode (data : bytes) (mode : TokenMode) : result policy_error EffectivePolicy := parsePolicy data mode.

(** ** Use of a policy *)

Definition modelPatternStrings (patterns : list Pattern) : list bytes := map source patterns.
Definition Policy_AllowedModels (p : EffectivePolicy) : list bytes := modelPatternStrings (allowedModels p).
Definition Policy_DeniedModels (p : EffectivePolicy) : list bytes := modelPatternStrings (deniedModels p).
Definition Policy_RequestWindows (p : EffectivePolicy) : list windowKey := requestWindows p.
Definition Policy_TokenWindows (p : EffectivePolicy) : list windowKey := tokenWindows p.
Definition Policy_TokenModeOverride (p : EffectivePolicy) : TokenMode * bool := (tokenMode p, tokenModeSet p).
Definition Policy_TotalBudget (p : EffectivePolicy) : Money * bool := (bg_total (policyBudgets p), bg_totalPresent (policyBudgets p)).
Definition Policy_DailyBudget (p : EffectivePolicy) : Money * bool := (bg_day (policyBudgets p), bg_dayPresent (policyBudgets p)).
Definition Policy_MonthlyBudget (p : EffectivePolicy) : Money * bool := (bg_month (policyBudgets p), bg_monthPresent (policyBudgets p)).

Definition Policy_BudgetLimits (p : EffectivePolicy) : list (bytes * Money) :=
  let '(total, totalSet) := Policy_TotalBudget p in
  let '(day, daySet) := Policy_DailyBudget p in
  let '(month, monthSet) := Policy_MonthlyBudget p in
  (if totalSet then [(period_total, total)] else []) ++ (if daySet then [(period_day, day)] else []) ++
  (if monthSet then [(period_month, month)] else []).

Definition Policy_AllowsModel (p : EffectivePolicy) (model : bytes) : bool :=
  if existsb (λ pattern, Pattern_Matches pattern model) (deniedModels p) then false
  else if bool_decide (allowedModels p = []) then true
  else existsb (λ pattern, Pattern_Matches pattern model) (allowedModels p).

(** [budgetPolicy] of the server: the policy as the budget limiter takes it. *)
Definition budgetPolicy (p : EffectivePolicy) : BudgetPolicy :=
  let '(total, totalSet) := Policy_TotalBudget p in
  let '(day, daySet) := Policy_DailyBudget p in
  let '(month, monthSet) := Policy_MonthlyBudget p in
  mkPolicy total totalSet day daySet month monthSet.

(** ** Lemmas *)

(** The nesting of a text is less than its length, so the fuel is enough. *)
Lemma scanJSONValue_fuel n m raw :
  (length raw < n)%nat → (length raw < m)%nat → scanJSONValue n raw = scanJSONValue m raw.
Proof.
  revert m raw. induction n as [|n IH]; intros m raw Hn Hm; [lia|]. destruct m as [|m]; [lia|]. simpl.
  destruct (parse_within (length raw) raw) as [v|] eqn:E; [|done]. apply parse_within_parts in E.
  assert (∀ x, x ∈ parts v → scanJSONValue n x = scanJSONValue m x) as Hx.
  { intros x Hx. rewrite Forall_forall in E. apply E in Hx. apply IH; lia. }
  destruct v as [| | | |l|ms]; try done; simpl in Hx.
  - clear E. induction l as [|x l IHl]; [done|]. simpl. rewrite Hx, IHl by set_solver. done.
  - f_equal. clear E. induction ms as [|[k x] ms IHm]; [done|]. simpl. rewrite Hx, IHm by set_solver. done.
Qed.

Lemma ParseDuration_range s d : ParseDuration s = Some d → d <= maxInt64.
Proof.
  unfold ParseDuration. destruct (match s with [] => _ | _ => _ end) as [neg s'].
  destruct (bool_decide _); [intros [= <-]; lia64|]. destruct (bool_decide _); [done|].
  destruct (duration_terms _ _ _) as [x|]; [|done]. destruct neg.
  - intros [= <-]. pose proof (wrap64_range (- x)). lia64.
  - destruct (Z.ltb_spec maxInt64 x); [done|]. by intros [= <-].
Qed.

(** A window the compiler accepts: positive, whole seconds. *)
Definition window_compiled (w : windowKey) : Prop := window_wf w ∧ Z.rem (duration w) second = 0.

Lemma compile_windows_ok windows : ∀ seen out,
  Forall (λ w, int64 (wd_Amount w)) windows → compile_windows seen windows = Ok out →
  Forall window_compiled out ∧ NoDup out ∧ (∀ w, w ∈ out → w ∉ seen) ∧
  map amount out = map wd_Amount windows ∧
  Forall2 (λ w k, ParseDuration (wd_Duration w) = Some (duration k)) windows out.
Proof.
  induction windows as [|w ws IH]; intros seen out Hi H; simpl in H.
  - simplify_eq. split_and!; [done|constructor|set_solver|done|done].
  - apply Forall_cons in Hi as [Hw Hi]. destruct ((wd_Amount w <=? 0) || _) eqn:E1; [done|]. apply orb_false_iff in E1 as [E1 _].
    destruct (ParseDuration (wd_Duration w)) as [d|] eqn:Ed; [|done]. pose proof (ParseDuration_range _ _ Ed).
    destruct ((d <=? 0) || _) eqn:E2; [done|]. apply orb_false_iff in E2 as [E2 E3%negb_false_iff%Z.eqb_eq].
    destruct (bool_decide_reflect (mkWindow (wd_Amount w) d ∈ seen)); [done|].
    apply result_bind_Ok in H as (rest & Hrest & [= <-]). apply IH in Hrest as (F & N & D & A & F2); [|done].
    split_and!; simpl.
    + constructor; [|done]. split; [|done]. split; simpl; lia64.
    + constructor; [|done]. intros Hin. apply D in Hin. set_solver.
    + intros x [-> |Hx]%elem_of_cons; [done|]. apply D in Hx. set_solver.
    + by rewrite A.
    + by constructor.
Qed.

(** A pattern the compiler accepts: the compiled form of a text that is not blank. *)
Definition pattern_compiled (p : Pattern) : Prop := Compile (source p) = Ok p ∧ TrimSpace_empty (source p) = false.

Lemma compile_patterns_ok patterns : ∀ seen out,
  compile_patterns seen patterns = Ok out →
  modelPatternStrings out = patterns ∧ Forall pattern_compiled out ∧ NoDup patterns ∧ (∀ p, p ∈ patterns → p ∉ seen).
Proof.
  induction patterns as [|p ps IH]; intros seen out H; simpl in H.
  - simplify_eq. split_and!; [done|done|constructor|set_solver].
  - destruct (TrimSpace_empty p) eqn:Et; [done|]. destruct (bool_decide_reflect (p ∈ seen)); [done|].
    destruct (Compile p) as [c|] eqn:Ec; [|done]. apply result_bind_Ok in H as (rest & Hrest & [= <-]).
    apply IH in Hrest as (E & F & N & D). destruct (Compile_wf _ _ Ec) as [_ Es]. split_and!; simpl.
    + by rewrite Es, E.
    + constructor; [|done]. unfold pattern_compiled. by rewrite Es.
    + constructor; [|done]. intros Hin. apply D in Hin. set_solver.
    + intros x [-> |Hx]%elem_of_cons; [done|]. apply D in Hx. set_solver.
Qed.

(** A budget is present exactly when it is a known positive amount. *)
Definition budget_compiled (m : Money) (present : bool) : Prop :=
  if present then known m = true ∧ 0 < micros m <= maxInt64 else m = UnknownMoney.

Definition budgets_compiled (b : budgets) : Prop :=
  budget_compiled (bg_total b) (bg_totalPresent b) ∧ budget_compiled (bg_day b) (bg_dayPresent b) ∧
  budget_compiled (bg_month b) (bg_monthPresent b).

Lemma parseBudgetMicros_range raw m : parseBudgetMicros raw = Ok m → 0 <= m <= maxInt64.
Proof.
  unfold parseBudgetMicros. destruct (bool_decide_reflect (TrimSpace raw = [])); [done|].
  destruct (_ || _); [done|]. destruct (forallb is_digit (TrimSpace raw)) eqn:Hd; [|done]. simpl.
  rewrite ParseInt_digits by done. pose proof (digits_value_bound _ Hd).
  destruct (Z.ltb_spec maxInt64 (digits_value (TrimSpace raw))); [done|]. intros [= <-]. lia.
Qed.

Lemma parse_entry_ok seen entry pv : parse_entry seen entry = Ok pv → budget_compiled pv.2 true.
Proof.
  unfold parse_entry. intros H. repeat (case_match; try discriminate).
  apply result_bind_Ok in H as (m & Hm%parseBudgetMicros_range & H). unfold NewMoneyMicros in H.
  destruct (m <? 0); [done|]. destruct (Z.eqb_spec m 0); [done|]. injection H as <-. simpl. split; [done|]. simpl. lia.
Qed.

Lemma parse_entries_ok entries : ∀ seen b b',
  budgets_compiled b → parse_entries seen entries b = Ok b' → budgets_compiled b'.
Proof.
  induction entries as [|e es IH]; intros seen b b' Hb H; simpl in H; [by simplify_eq|].
  apply result_bind_Ok in H as ([p v] & Hv%parse_entry_ok & H). eapply IH, H.
  unfold set_budget. destruct Hb as (? & ? & ?). by repeat case_match.
Qed.

Lemma parseBudgetLimits_ok raw b : parseBudgetLimits raw = Ok b → budgets_compiled b.
Proof.
  unfold parseBudgetLimits. intros H. repeat (case_match; try discriminate). by eapply parse_entries_ok, H.
Qed.

(** Amounts of the decoded windows are machine integers. *)
Definition document_ok (d : policyDocument) : Prop :=
  Forall (λ w, int64 (wd_Amount w)) ((RequestWindows d).1 ++ (RequestWindows d).2) ∧
  Forall (λ w, int64 (wd_Amount w)) ((TokenWindows d).1 ++ (TokenWindows d).2).

Lemma decode_window_ok w raw w' : int64 (wd_Amount w) → decode_window w raw = Some w' → int64 (wd_Amount w').
Proof.
  apply (Unmarshal_struct_inv (λ w, int64 (wd_Amount w))). intros name r x y Hx. unfold set_window.
  destruct (bool_decide _).
  - destruct (Unmarshal_int64 _ r) eqn:E; [|done]. intros [= <-]. by eapply Unmarshal_int64_range.
  - destruct (Unmarshal_string _ r); [|done]. by intros [= <-].
Qed.

Lemma set_member_ok name raw d d' : document_ok d → set_member name raw d = Some d' → document_ok d'.
Proof.
  unfold set_member. destruct d as [a n r t b m c q p]. intros [Hr Ht] H. simpl in *.
  repeat (destruct (bool_decide (name = _)); [first [apply bind_Some in H as (? & E & H)|idtac]; injection H as <-; split; try done;
    by eapply (Unmarshal_slice_Forall (λ w, int64 (wd_Amount w))), E; [|exact decode_window_ok|]; simpl|]).
  apply bind_Some in H as (? & E & H). by injection H as <-.
Qed.

(** What every compiled policy satisfies. *)
Record policy_wf (p : EffectivePolicy) : Prop := {
  wf_patterns : Forall pattern_compiled (allowedModels p ++ deniedModels p);
  wf_allowed : NoDup (Policy_AllowedModels p);
  wf_denied : NoDup (Policy_DeniedModels p);
  wf_requests : Forall window_compiled (requestWindows p) ∧ NoDup (requestWindows p);
  wf_tokens : Forall window_compiled (tokenWindows p) ∧ NoDup (tokenWindows p);
  wf_mode : valid_mode (tokenMode p) = true;
  wf_concurrency : 0 <= maxConcurrency p;
  wf_budgets : budgets_compiled (policyBudgets p) }.

Lemma compile_document_wf mode d p :
  valid_mode mode = true → document_ok d → compile_document mode d = Ok p → policy_wf p.
Proof.
  intros Hm [[Hr _]%Forall_app [Ht _]%Forall_app] H. unfold compile_document in H.
  repeat match goal with H : result_bind _ _ = Ok _ |- _ => apply result_bind_Ok in H as (? & ? & H) end. simplify_eq.
  repeat match goal with H : compile_patterns _ _ = Ok _ |- _ => apply compile_patterns_ok in H as (? & ? & ? & _) end.
  repeat match goal with H : compile_windows _ _ = Ok _ |- _ => apply compile_windows_ok in H as (? & ? & _ & _); [|done] end.
  split; simpl; unfold Policy_AllowedModels, Policy_DeniedModels; simpl; try done.
  - by apply Forall_app.
  - congruence.
  - congruence.
  - destruct (Doc_TokenMode d) as [m|]; [|by simplify_eq]. destruct (valid_mode m) eqn:E; by simplify_eq.
  - destruct (Doc_MaxConcurrency d) as [c|]; [|by simplify_eq]. destruct (Z.ltb_spec c 0); by simplify_eq.
  - destruct (bool_decide _); [by simplify_eq|]. by eapply parseBudgetLimits_ok.
Qed.

Lemma parsePolicy_wf data mode p : parsePolicy data mode = Ok p → policy_wf p.
Proof.
  unfold parsePolicy. destruct (valid_mode mode) eqn:Hm; [|done]. simpl. destruct (TrimSpace data) as [|c s].
  - intros [= <-]. split; simpl; try done; by (split; [done|constructor]) || constructor.
  - intros H. repeat (case_match; try discriminate). eapply compile_document_wf; [done| |exact H].
    eapply (Unmarshal_struct_inv document_ok); [exact set_member_ok| |eassumption]. by split; constructor.
Qed.

Lemma policy_wf_windows ws : Forall window_compiled ws ∧ NoDup ws → windows_ok ws.
Proof. intros [F N]. split; [|done]. eapply Forall_impl; [exact F|]. by intros ? [? _]. Qed.

Lemma budget_compiled_valid m b : budget_compiled m b → Bool.eqb b (validKnownMoney m) = true.
Proof.
  unfold budget_compiled, validKnownMoney, Money_Micros. destruct b; [intros [-> ?]|intros ->]; simpl; [|done].
  destruct (Z.leb_spec 0 (micros m)); [done|lia].
Qed.

(** C38: Every accepted document compiles to a well-formed policy, and the
    limiters accept it: patterns are compiled, not blank and distinct; windows
    are positive, whole seconds and distinct, so that neither limiter rejects
    the list and both keep all of it; a budget is set exactly when it is a
    known positive amount, so that the budget limiter takes the policy as valid. *)
Theorem policy_compiled_ok data mode p :
  parsePolicy data mode = Ok p →
  policy_wf p ∧
  (∃ ws, normalizeTokenWindows (Policy_TokenWindows p) = (ws, true) ∧ ws ≡ₚ Policy_TokenWindows p) ∧
  normalizeWindows (Policy_RequestWindows p) ≡ₚ Policy_RequestWindows p ∧
  validPolicy (budgetPolicy p) = true.
Proof.
  intros Hwf%parsePolicy_wf. split; [done|]. split_and!.
  - destruct (normalizeTokenWindows_ok (tokenWindows p)) as (ws & ? & ? & _); [apply policy_wf_windows, Hwf|eauto].
  - apply normalizeWindows_ok, policy_wf_windows, Hwf.
  - destruct (wf_budgets _ Hwf) as (H1 & H2 & H3). unfold validPolicy, budgetPolicy. simpl.
    by rewrite !budget_compiled_valid.
Qed.

(** A document with apostrophes for the quotes. *)
Definition text (s : string) : bytes := map (λ c, if byte_eqb c "'" then quote_char else c) (str s).

Definition demo_policy : bytes :=
  text " {'allowed_models': ['gpt-*', 'o1'], 'denied_models': ['gpt-4*'], 'request_windows': [{'amount': 10, 'duration': '1m'}], 'token_windows': [{'amount': 5000, 'duration': '1h30m'}], 'budget_limits': [{'amount_micros': 500, 'period': 'day'}], 'max_concurrent_requests': 3}".

Definition demo_compiled : EffectivePolicy :=
  match ParsePolicy demo_policy with Ok p => p | Err _ => unrestricted TokenModeEstimate end.

Lemma policy_compiled_ok_witness :
  ParsePolicy demo_policy = Ok demo_compiled ∧
  policy_wf demo_compiled ∧
  (∃ ws, normalizeTokenWindows (Policy_TokenWindows demo_compiled) = (ws, true) ∧ ws ≡ₚ Policy_TokenWindows demo_compiled) ∧
  normalizeWindows (Policy_RequestWindows demo_compiled) ≡ₚ Policy_RequestWindows demo_compiled ∧
  validPolicy (budgetPolicy demo_compiled) = true.
Proof.
  assert (ParsePolicy demo_policy = Ok demo_compiled) as H by (vm_compute; reflexivity).
  split; [exact H|]. exact (policy_compiled_ok demo_policy TokenModeEstimate demo_compiled H).
Defined.

(** A model is allowed exactly when no denied pattern matches it and the
    allow list is empty or has a pattern that matches it, in the sense of the
    declarative glob relation: a denial always wins. *)
Theorem AllowsModel_spec p model :
  Policy_AllowsModel p model = true ↔
  (∀ q, q ∈ deniedModels p → ¬ glob_match (tokens q) (runes model)) ∧
  (allowedModels p = [] ∨ ∃ q, q ∈ allowedModels p ∧ glob_match (tokens q) (runes model)).
Proof.
  assert (∀ l, existsb (λ q, Pattern_Matches q model) l = true ↔ ∃ q, q ∈ l ∧ glob_match (tokens q) (runes model)) as Hex.
  { intros l. rewrite existsb_exists. setoid_rewrite list_elem_of_In. unfold Pattern_Matches.
    by setoid_rewrite Matches_runes_spec. }
  unfold Policy_AllowsModel. destruct (existsb _ (deniedModels p)) eqn:Hd.
  - apply Hex in Hd as (q & Hq & Hm). split; [done|]. intros [Hn _]. by destruct (Hn q).
  - assert (∀ q, q ∈ deniedModels p → ¬ glob_match (tokens q) (runes model)) as Hn.
    { intros q Hq Hm. apply not_true_iff_false in Hd. apply Hd, Hex. eauto. }
    destruct (bool_decide_reflect (allowedModels p = [])) as [E|E]; [by split; eauto|]. rewrite Hex. naive_solver.
Qed.

(** The duplicate check compares exact names while the decoder ignores
    case, so a member that differs only in case from an earlier one replaces
    it: a later null drops the deny list, and the compiled policy allows the
    model that the document denies. *)
Theorem policy_case_variant_drops_denial :
  ∃ p, ParsePolicy (text "{'denied_models':['secret'],'Denied_Models':null}") = Ok p ∧
    Policy_AllowsModel p (str "secret") = true ∧
  ∃ p', ParsePolicy (text "{'denied_models':['secret']}") = Ok p' ∧ Policy_AllowsModel p' (str "secret") = false ∧
  ParsePolicy (text "{'denied_models':['secret'],'denied_models':null}") = Err ErrInvalidPolicy.
Proof.
  eexists. split; [vm_compute; reflexivity|]. split; [vm_compute; reflexivity|].
  eexists. split_and!; vm_compute; reflexivity.
Qed.
