(* ===== verification/Auth.v ===== *)
(** * Authentication snapshots ([internal/auth/snapshot.go])

    The authenticator publishes an immutable snapshot of the stored keys,
    indexed by display prefix, and checks presented keys against it without
    storage.  The digest function (HMAC-SHA256 with the pepper) is a parameter;
    [clk i] is what the clock answers when candidate [i] is tested for expiry. *)

From Stdlib Require Import Ascii ZArith Lia ZifyBool.
From stdpp Require Import prelude gmap strings list.
From S2P Require Import Prelude Text Utf8 Windows Json Policy GatewayKey.
Local Open Scope Z_scope.

#[export] Instance ascii_countable : Countable ascii.
Proof. refine (inj_countable' N_of_ascii ascii_of_N _). apply ascii_N_embedding. Defined.

Inductive auth_error :=
| ErrAuthPepper | ErrAuthPolicy | ErrInvalidRecord
| ErrInvalidCredential | ErrDisabledCredential | ErrExpiredCredential.

#[export] Instance auth_error_eq_dec : EqDecision auth_error.
Proof. solve_decision. Defined.

Record Record_ := mkRecord {
  r_ID : bytes; r_Name : bytes; r_DisplayPrefix : bytes; r_Prefix : bytes; r_Digest : bytes; r_KeyHash : bytes;
  r_Enabled : bool; r_ExpiresAt : option Z; r_PolicyJSON : bytes; r_Policy : bytes }.

Record Principal := mkPrincipal {
  p_ID : bytes; p_Name : bytes; p_DisplayPrefix : bytes; p_PolicyJSON : bytes; p_Policy : EffectivePolicy }.

Record snapshotRecord := mkSnapshotRecord {
  sr_id : bytes; sr_name : bytes; sr_digest : bytes; sr_enabled : bool; sr_expiresAt : option Z;
  sr_policyJSON : bytes; sr_policy : EffectivePolicy }.

Definition Snapshot : Type := gmap bytes (list snapshotRecord).
Definition emptySnapshot : Snapshot := ∅.

Record Authenticator := mkAuthenticator { au_pepper : bytes; au_tokenMode : TokenMode; au_state : Snapshot }.

Definition NewAuthenticator (pepper : bytes) (tokenModes : list TokenMode) : result auth_error Authenticator :=
  if bool_decide (pepper = []) then Err ErrAuthPepper
  else
    match tokenModes with
    | [] => Ok (mkAuthenticator pepper TokenModeEstimate emptySnapshot)
    | [mode] => if valid_mode mode then Ok (mkAuthenticator pepper mode emptySnapshot) else Err ErrAuthPolicy
    | _ => Err ErrAuthPolicy
    end.

(** ** Building a snapshot *)

Definition prefix_rune (r : Z) : bool :=
  ((65 <=? r) && (r <=? 90)) || ((97 <=? r) && (r <=? 122)) || ((48 <=? r) && (r <=? 57)) || (r =? 45) || (r =? 95).

Definition validDisplayPrefix (prefix : bytes) : bool :=
  if negb (length prefix =? prefixLength)%nat || negb (bool_decide (take (length GatewayKeyNamespace) prefix = GatewayKeyNamespace))
  then false
  else forallb prefix_rune (runes (drop (length GatewayKeyNamespace) prefix)).

(** A field with its compatibility spelling: the first unless it is empty;
    when both are set they must agree. *)
Definition either (first second : bytes) : option bytes :=
  if bool_decide (first = []) then Some second
  else if negb (bool_decide (second = [])) && negb (bool_decide (second = first)) then None
  else Some first.

(** One stored record: its prefix and the candidate. *)
Definition snapshot_record (mode : TokenMode) (record : Record_) : result auth_error (bytes * snapshotRecord) :=
  match either (r_DisplayPrefix record) (r_Prefix record) with
  | None => Err ErrInvalidRecord
  | Some prefix =>
      match either (r_Digest record) (r_KeyHash record) with
      | None => Err ErrInvalidRecord
      | Some digest =>
          if negb (validDisplayPrefix prefix) || TrimSpace_empty (r_ID record) || negb (length digest =? sha256_Size)%nat
          then Err ErrInvalidRecord
          else
            match either (r_PolicyJSON record) (r_Policy record) with
            | None => Err ErrInvalidRecord
            | Some policy =>
                match ParsePolicyWithTokenMode policy mode with
                | Err _ => Err ErrAuthPolicy
                | Ok effective =>
                    Ok (prefix, mkSnapshotRecord (r_ID record) (r_Name record) digest (r_Enabled record)
                                  (r_ExpiresAt record) policy effective)
                end
            end
      end
  end.

Definition candidates (s : Snapshot) (prefix : bytes) : list snapshotRecord := default [] (s !! prefix).

Fixpoint buildLoop (records : list Record_) (mode : TokenMode) (next : Snapshot) : result auth_error Snapshot :=
  match records with
  | [] => Ok next
  | record :: records' =>
      let? pc := snapshot_record mode record in
      buildLoop records' mode (<[pc.1 := candidates next pc.1 ++ [pc.2]]> next)
  end.

Definition buildSnapshot (records : list Record_) (mode : TokenMode) : result auth_error Snapshot :=
  buildLoop records mode emptySnapshot.

Definition Prepare (a : Authenticator) (records : list Record_) : result auth_error Snapshot :=
  if bool_decide (au_pepper a = []) then Err ErrAuthPepper else buildSnapshot records (au_tokenMode a).

Definition Publish (s : Snapshot) (a : Authenticator) : Authenticator := mkAuthenticator (au_pepper a) (au_tokenMode a) s.

Definition Load (records : list Record_) (a : Authenticator) : option auth_error * Authenticator :=
  if bool_decide (au_pepper a = []) then (Some ErrAuthPepper, a)
  else match Prepare a records with
       | Err e => (Some e, a)
       | Ok next => (None, Publish next a)
       end.

(** ** Authentication *)

Definition principalFor (candidate : snapshotRecord) (prefix : bytes) : Principal :=
  mkPrincipal (sr_id candidate) (sr_name candidate) prefix (sr_policyJSON candidate) (sr_policy candidate).

(** [!now.Before(expiresAt)] for a candidate that expires. *)
Definition expired_at (now : Z) (candidate : snapshotRecord) : bool :=
  match sr_expiresAt candidate with Some t => negb (Before now t) | None => false end.

Fixpoint authLoop (clk : nat → Z) (i : nat) (digest prefix : bytes) (disabled expired : bool) (cs : list snapshotRecord)
    : result auth_error Principal :=
  match cs with
  | [] =>
      if disabled then Err ErrDisabledCredential
      else if expired then Err ErrExpiredCredential
      else Err ErrInvalidCredential
  | c :: cs' =>
      if negb (bool_decide (digest = sr_digest c)) then authLoop clk (S i) digest prefix disabled expired cs'
      else if negb (sr_enabled c) then authLoop clk (S i) digest prefix true expired cs'
      else if expired_at (clk i) c then authLoop clk (S i) digest prefix disabled true cs'
      else Ok (principalFor c prefix)
  end.

Section authenticate.
Context (hmac : bytes → bytes → bytes).

Definition authenticateSnapshot (clk : nat → Z) (pepper : bytes) (current : Snapshot) (rawKey : bytes)
    : result auth_error Principal :=
  match ParseGatewayKey rawKey with
  | Err _ => Err ErrInvalidCredential
  | Ok prefix =>
      match candidates current prefix with
      | [] => Err ErrInvalidCredential
      | cs => authLoop clk 0 (digestKey hmac pepper rawKey) prefix false false cs
      end
  end.

Definition Authenticate (clk : nat → Z) (a : Authenticator) (rawKey : bytes) : result auth_error Principal :=
  if bool_decide (au_pepper a = []) then Err ErrInvalidCredential
  else authenticateSnapshot clk (au_pepper a) (au_state a) rawKey.

End authenticate.

(** ** Lemmas *)

Section loop.
Context (clk : nat → Z) (digest prefix : bytes).

(** A candidate that lets the key in, when it is tested at its position. *)
Definition usable (i : nat) (c : snapshotRecord) : Prop :=
  digest = sr_digest c ∧ sr_enabled c = true ∧ expired_at (clk i) c = false.

Definition matches_digest (c : snapshotRecord) : bool := bool_decide (digest = sr_digest c).

Definition auth_refusal (disabled expired : bool) (cs : list snapshotRecord) : auth_error :=
  if disabled || existsb (λ c, matches_digest c && negb (sr_enabled c)) cs then ErrDisabledCredential
  else if expired || existsb matches_digest cs then ErrExpiredCredential
  else ErrInvalidCredential.

Lemma auth_refusal_cons disabled expired c cs :
  auth_refusal disabled expired (c :: cs) =
  auth_refusal (disabled || (matches_digest c && negb (sr_enabled c))) (expired || matches_digest c) cs.
Proof. unfold auth_refusal. simpl. by rewrite !orb_assoc. Qed.

Lemma authLoop_spec k disabled expired cs :
  match authLoop clk k digest prefix disabled expired cs with
  | Ok p => ∃ i c, cs !! i = Some c ∧ usable (k + i) c ∧
      (∀ j c', (j < i)%nat → cs !! j = Some c' → ¬ usable (k + j) c') ∧ p = principalFor c prefix
  | Err e => (∀ j c', cs !! j = Some c' → ¬ usable (k + j) c') ∧ e = auth_refusal disabled expired cs
  end.
Proof.
  revert k disabled expired. induction cs as [|c cs IH]; intros k disabled expired; simpl.
  - unfold auth_refusal. simpl. rewrite !orb_false_r. by destruct disabled, expired.
  - assert (∀ dis ex, ¬ usable k c → auth_refusal dis ex cs = auth_refusal disabled expired (c :: cs) →
      match authLoop clk (S k) digest prefix dis ex cs with
      | Ok p => ∃ i c0, (c :: cs) !! i = Some c0 ∧ usable (k + i) c0 ∧
          (∀ j c', (j < i)%nat → (c :: cs) !! j = Some c' → ¬ usable (k + j) c') ∧ p = principalFor c0 prefix
      | Err e => (∀ j c', (c :: cs) !! j = Some c' → ¬ usable (k + j) c') ∧ e = auth_refusal disabled expired (c :: cs)
      end) as Hnext.
    { intros dis ex Hc Er. specialize (IH (S k) dis ex). destruct (authLoop _ _ _ _ _ _ _) as [p|e].
      - destruct IH as (i & c0 & Hi & Hu & Hb & ->). exists (S i), c0. rewrite Nat.add_succ_r. split_and!; try done.
        intros [|j] c' Hj E; simpl in E; [simplify_eq; by rewrite Nat.add_0_r|]. rewrite Nat.add_succ_r. apply (Hb j); [lia|done].
      - destruct IH as [Hb ->]. split; [|done]. intros [|j] c' E; simpl in E; [simplify_eq; by rewrite Nat.add_0_r|].
        rewrite Nat.add_succ_r. by apply (Hb j). }
    destruct (bool_decide_reflect (digest = sr_digest c)) as [Ed|Ed]; simpl.
    + destruct (sr_enabled c) eqn:Ee; simpl.
      * destruct (expired_at (clk k) c) eqn:Ex.
        { apply Hnext; [unfold usable; naive_solver congruence|]. rewrite auth_refusal_cons, Ee.
          unfold matches_digest. by rewrite bool_decide_true, orb_false_r, orb_true_r. }
        exists 0%nat, c. rewrite Nat.add_0_r. split_and!; try done. intros j ? ?. lia.
      * apply Hnext; [unfold usable; naive_solver congruence|]. rewrite auth_refusal_cons, Ee.
        unfold matches_digest at 1 2. rewrite bool_decide_true by done. unfold auth_refusal. by rewrite !orb_true_r.
    + apply Hnext; [unfold usable; naive_solver congruence|]. rewrite auth_refusal_cons.
      unfold matches_digest at 1 2. rewrite bool_decide_false by done. by rewrite !orb_false_r.
Qed.

End loop.

Lemma candidates_insert s p q l : candidates (<[p := l]> s) q = if bool_decide (p = q) then l else candidates s q.
Proof.
  unfold candidates, Snapshot in *. case_bool_decide; subst;
    [by rewrite (lookup_insert_eq (M := gmap bytes))|by rewrite (lookup_insert_ne (M := gmap bytes))].
Qed.

Lemma buildLoop_spec mode records : ∀ next,
  match buildLoop records mode next with
  | Ok s => ∃ pcs, Forall2 (λ r pc, snapshot_record mode r = Ok pc) records pcs ∧
      ∀ prefix, candidates s prefix = candidates next prefix ++ map snd (filter (λ pc, pc.1 = prefix) pcs)
  | Err e => ∃ r, r ∈ records ∧ snapshot_record mode r = Err e
  end.
Proof.
  induction records as [|r records IH]; intros next; simpl.
  - exists []. split; [done|]. intros. by rewrite app_nil_r.
  - destruct (snapshot_record mode r) as [[p c]|e] eqn:E; simpl; [|exists r; split; [set_solver|done]].
    specialize (IH (<[p := candidates next p ++ [c]]> next)). destruct (buildLoop _ _ _) as [s|e].
    + destruct IH as (pcs & F & H). exists ((p, c) :: pcs). split; [by constructor|]. intros q. rewrite H, candidates_insert.
      case_bool_decide as Ep; subst.
      * rewrite filter_cons_True by done. simpl. by rewrite <-app_assoc.
      * by rewrite filter_cons_False.
    + destruct IH as (r' & ? & ?). exists r'. split; [set_solver|done].
Qed.

(** The prefix and the digest a stored record stands for. *)
Definition record_prefix (r : Record_) : bytes := if bool_decide (r_DisplayPrefix r = []) then r_Prefix r else r_DisplayPrefix r.
Definition record_digest (r : Record_) : bytes := if bool_decide (r_Digest r = []) then r_KeyHash r else r_Digest r.
Definition record_policy (r : Record_) : bytes := if bool_decide (r_PolicyJSON r = []) then r_Policy r else r_PolicyJSON r.

Lemma either_Some a b x : either a b = Some x → x = (if bool_decide (a = []) then b else a).
Proof. unfold either. destruct (bool_decide (a = [])); [congruence|]. destruct (_ && _); congruence. Qed.

Lemma snapshot_record_spec mode r p c :
  snapshot_record mode r = Ok (p, c) →
  p = record_prefix r ∧ validDisplayPrefix p = true ∧
  ∃ policy, ParsePolicyWithTokenMode (record_policy r) mode = Ok policy ∧
  c = mkSnapshotRecord (r_ID r) (r_Name r) (record_digest r) (r_Enabled r) (r_ExpiresAt r) (record_policy r) policy ∧
  length (record_digest r) = sha256_Size.
Proof.
  unfold snapshot_record. destruct (either (r_DisplayPrefix r) _) as [x|] eqn:E1; [|done].
  destruct (either (r_Digest r) _) as [y|] eqn:E2; [|done]. destruct (_ || _) eqn:E3; [done|].
  rewrite !orb_false_iff, !negb_false_iff, Nat.eqb_eq in E3. destruct E3 as [[Hv _] Hl].
  destruct (either (r_PolicyJSON r) _) as [z|] eqn:E4; [|done].
  apply either_Some in E1, E2, E4. subst.
  destruct (ParsePolicyWithTokenMode _ mode) as [policy|] eqn:E5; [|done]. intros [= <- <-].
  split; [done|]. split; [done|]. by exists policy.
Qed.

(** What [Load] did: a complete replacement, or nothing. *)
Lemma Load_spec records a e a' :
  Load records a = (e, a') →
  match e with
  | Some _ => a' = a
  | None => au_pepper a ≠ [] ∧ au_pepper a' = au_pepper a ∧
      ∃ pcs, Forall2 (λ r pc, snapshot_record (au_tokenMode a) r = Ok pc) records pcs ∧
        ∀ prefix, candidates (au_state a') prefix = map snd (filter (λ pc, pc.1 = prefix) pcs)
  end.
Proof.
  unfold Load, Prepare. destruct (bool_decide_reflect (au_pepper a = [])); [by intros [= <- <-]|].
  pose proof (buildLoop_spec (au_tokenMode a) records emptySnapshot) as H. unfold buildSnapshot.
  destruct (buildLoop _ _ _) as [s|x]; [|by intros [= <- <-]]. intros [= <- <-]. split; [done|]. split; [done|].
  destruct H as (pcs & F & H). exists pcs. split; [done|]. intros prefix. simpl. by rewrite H.
Qed.

(** Authentication is exact.  A key is let in exactly by the first candidate
    under its prefix that has its digest, is enabled and has not expired, with
    that candidate's identity and policy; otherwise a candidate with its digest
    that is disabled makes the refusal [ErrDisabledCredential], else one with its
    digest (then expired) makes it [ErrExpiredCredential], and a text that is no
    key or whose digest is not stored is refused as [ErrInvalidCredential]. *)
Theorem Authenticate_exact hmac clk a rawKey :
  au_pepper a ≠ [] →
  let cs := candidates (au_state a) (take prefixLength rawKey) in
  let digest := hmac (au_pepper a) rawKey in
  match Authenticate hmac clk a rawKey with
  | Ok p =>
      is_ok (ParseGatewayKey rawKey) = true ∧
      ∃ i c, cs !! i = Some c ∧ usable clk digest i c ∧
        (∀ j c', (j < i)%nat → cs !! j = Some c' → ¬ usable clk digest j c') ∧
        p = principalFor c (take prefixLength rawKey)
  | Err e =>
      (is_ok (ParseGatewayKey rawKey) = true → ∀ j c, cs !! j = Some c → ¬ usable clk digest j c) ∧
      match e with
      | ErrDisabledCredential =>
          is_ok (ParseGatewayKey rawKey) = true ∧ ∃ c, c ∈ cs ∧ sr_digest c = digest ∧ sr_enabled c = false
      | ErrExpiredCredential =>
          is_ok (ParseGatewayKey rawKey) = true ∧ (∀ c, c ∈ cs → sr_digest c = digest → sr_enabled c = true) ∧
          ∃ i c, cs !! i = Some c ∧ sr_digest c = digest ∧ expired_at (clk i) c = true
      | ErrInvalidCredential =>
          is_ok (ParseGatewayKey rawKey) = false ∨ ∀ c, c ∈ cs → sr_digest c ≠ digest
      | _ => False
      end
  end.
Proof.
  intros Hp cs digest. unfold Authenticate. rewrite bool_decide_false by done. unfold authenticateSnapshot.
  destruct (ParseGatewayKey rawKey) as [prefix|] eqn:E; [|split; [done|by left]].
  apply ParseGatewayKey_iff in E as [-> _]. fold cs. unfold digestKey. fold digest.
  destruct cs as [|c0 cs'] eqn:Ecs; [split; [done|right; set_solver]|]. rewrite <-Ecs in *. clear c0 cs' Ecs.
  pose proof (authLoop_spec clk digest (take prefixLength rawKey) 0 false false cs) as H.
  destruct (authLoop _ _ _ _ _ _ cs) as [p|e]; [by split|]. destruct H as [Hn ->]. simpl in Hn.
  split; [done|]. unfold auth_refusal. cbn [orb].
  destruct (existsb (λ c, matches_digest digest c && negb (sr_enabled c)) cs) eqn:Ed.
  { apply existsb_exists in Ed as (c & Hc%list_elem_of_In & [H1%bool_decide_eq_true H2%negb_true_iff]%andb_true_iff).
    split; [done|]. by exists c. }
  destruct (existsb (matches_digest digest) cs) eqn:Em.
  - apply existsb_exists in Em as (c & Hc%list_elem_of_In & Hm%bool_decide_eq_true).
    assert (∀ c', c' ∈ cs → sr_digest c' = digest → sr_enabled c' = true) as Hen.
    { intros c' Hin Hd. destruct (sr_enabled c') eqn:Ee; [done|]. apply not_true_iff_false in Ed. exfalso. apply Ed, existsb_exists.
      exists c'. split; [by apply list_elem_of_In|]. unfold matches_digest. by rewrite Ee, bool_decide_true. }
    split; [done|]. split; [done|]. apply list_elem_of_lookup in Hc as [i Hi]. exists i, c. split_and!; try done.
    destruct (expired_at (clk i) c) eqn:Ex; [done|]. exfalso. apply (Hn i c Hi). split_and!; [done| |done].
    apply Hen; [|done]. by eapply list_elem_of_lookup_2.
  - right. intros c Hc Hd. apply not_true_iff_false in Em. apply Em, existsb_exists.
    exists c. split; [by apply list_elem_of_In|]. by apply bool_decide_eq_true.
Qed.

Definition witness_pepper : bytes := str "pepper".
Definition witness_authenticator : Authenticator := mkAuthenticator witness_pepper TokenModeEstimate emptySnapshot.

Definition witness_key : GeneratedGatewayKey :=
  match Generate demo_hmac (Some (replicate 40 "x"%char)) witness_pepper with Ok k => k | Err _ => mkGenerated [] [] [] end.

Definition witness_record (enabled : bool) (expires : option Z) : Record_ :=
  mkRecord (str "key-1") (str "team") (gk_DisplayPrefix witness_key) [] (gk_Digest witness_key) [] enabled expires
    demo_policy [].

Definition witness_loaded (enabled : bool) (expires : option Z) : Authenticator :=
  (Load [witness_record enabled expires] witness_authenticator).2.

Lemma Authenticate_exact_witness :
  let a := witness_loaded true (Some 100) in
  let rawKey := gk_RawKey witness_key in
  let cs := candidates (au_state a) (take prefixLength rawKey) in
  let digest := demo_hmac (au_pepper a) rawKey in
  ∃ p, Authenticate demo_hmac (λ _, 50) a rawKey = Ok p ∧
  ∃ i c, cs !! i = Some c ∧ usable (λ _, 50) digest i c ∧ p = principalFor c (take prefixLength rawKey).
Proof.
  intros a rawKey cs digest.
  pose proof (Authenticate_exact demo_hmac (λ _, 50) a rawKey ltac:(discriminate)) as H. cbv zeta in H.
  destruct (Authenticate demo_hmac (λ _, 50) a rawKey) as [p|e] eqn:E; [|vm_compute in E; discriminate E].
  destruct H as (_ & i & c & H1 & H2 & _ & H3). exists p. split; [reflexivity|]. exists i, c. split_and!; assumption.
Defined.

(** ** Issued keys *)

Lemma authLoop_skip now digest prefix disabled expired l1 l2 k :
  Forall (λ c, sr_digest c ≠ digest) l1 →
  authLoop (λ _, now) k digest prefix disabled expired (l1 ++ l2) =
  authLoop (λ _, now) (k + length l1) digest prefix disabled expired l2.
Proof.
  intros H. revert k. induction H as [|c l Hc _ IH]; intros k; simpl; [by rewrite Nat.add_0_r|].
  rewrite bool_decide_false by done. simpl. by rewrite IH, Nat.add_succ_r.
Qed.

Lemma Load_candidates records a a' :
  Load records a = (None, a') → ∀ prefix c, c ∈ candidates (au_state a') prefix →
  ∃ r, r ∈ records ∧ sr_digest c = record_digest r.
Proof.
  intros (_ & _ & pcs & F & Hc)%Load_spec prefix c. rewrite Hc. intros ([p c'] & -> & [_ Hin]%list_elem_of_filter)%list_elem_of_fmap.
  apply list_elem_of_lookup in Hin as [i Hi]. destruct (Forall2_lookup_r _ _ _ _ _ F Hi) as (r & Hr & E).
  apply snapshot_record_spec in E as (_ & _ & policy & _ & -> & _). exists r. split; [by eapply list_elem_of_lookup_2|done].
Qed.

(** The candidates of the prefix, around the one of record [i]. *)
Lemma Load_split records a a' i r :
  Load records a = (None, a') → records !! i = Some r →
  ∃ policy l1 l2, ParsePolicyWithTokenMode (record_policy r) (au_tokenMode a) = Ok policy ∧
  candidates (au_state a') (record_prefix r) =
    l1 ++ mkSnapshotRecord (r_ID r) (r_Name r) (record_digest r) (r_Enabled r) (r_ExpiresAt r) (record_policy r) policy :: l2 ∧
  Forall (λ c, ∃ j r', records !! j = Some r' ∧ j ≠ i ∧ sr_digest c = record_digest r') (l1 ++ l2).
Proof.
  intros (_ & _ & pcs & F & Hc)%Load_spec Hr. destruct (Forall2_lookup_l _ _ _ _ _ F Hr) as ([p c] & Hi & E).
  pose proof E as (-> & _ & policy & Hp & -> & _)%snapshot_record_spec.
  exists policy. rewrite Hc. pose proof (take_drop_middle _ _ _ Hi) as Es.
  rewrite <-Es, filter_app, filter_cons_True by done. clear Es.
  rewrite map_app. eexists _, _. split; [done|]. split; [done|].
  assert (∀ j pc, pcs !! j = Some pc → j ≠ i → ∃ j r', records !! j = Some r' ∧ j ≠ i ∧ sr_digest pc.2 = record_digest r') as Hj.
  { intros j [q c'] Hj Hne. destruct (Forall2_lookup_r _ _ _ _ _ F Hj) as (r' & Hr' & E').
    apply snapshot_record_spec in E' as (_ & _ & ? & _ & -> & _). by exists j, r'. }
  apply Forall_app. split; apply Forall_fmap, Forall_forall; intros pc [_ (j & Hlt)%list_elem_of_lookup]%list_elem_of_filter.
  - apply lookup_take_Some in Hlt as [Hlt ?]. apply (Hj j); [done|lia].
  - rewrite lookup_drop in Hlt. apply (Hj (S i + j)%nat); [done|lia].
Qed.

(** A generated key authenticates exactly as its stored record says.  After
    a snapshot with its record is loaded, the key is refused as disabled or
    expired, or let in with the record's identity, name and compiled policy; a
    key whose digest no loaded record has (never stored, or deleted since) is
    refused as invalid. *)
Theorem issued_key_authenticates hmac random k records a a' now :
  Generate hmac random (au_pepper a) = Ok k → Load records a = (None, a') →
  (∀ i r, records !! i = Some r → record_prefix r = gk_DisplayPrefix k → record_digest r = gk_Digest k →
     (∀ j r', records !! j = Some r' → record_digest r' = gk_Digest k → j = i) →
     ∃ policy, ParsePolicyWithTokenMode (record_policy r) (au_tokenMode a) = Ok policy ∧
     Authenticate hmac (λ _, now) a' (gk_RawKey k) =
       if negb (r_Enabled r) then Err ErrDisabledCredential
       else if (match r_ExpiresAt r with Some t => t <=? now | None => false end) then Err ErrExpiredCredential
       else Ok (mkPrincipal (r_ID r) (r_Name r) (gk_DisplayPrefix k) (record_policy r) policy)) ∧
  ((∀ r, r ∈ records → record_digest r ≠ gk_Digest k) →
     Authenticate hmac (λ _, now) a' (gk_RawKey k) = Err ErrInvalidCredential).
Proof.
  intros (Hp & m & Hm & Hraw & Hpre & Hdig)%Generate_spec HL.
  assert (ParseGatewayKey (gk_RawKey k) = Ok (gk_DisplayPrefix k)) as Hparse by (apply ParseGatewayKey_iff; eauto).
  pose proof HL as (_ & Hp' & _)%Load_spec. unfold Authenticate, authenticateSnapshot.
  rewrite Hp', bool_decide_false by done. rewrite Hparse. unfold digestKey in Hdig |- *. rewrite <-Hdig. split.
  - intros i r Hr Hrp Hrd Huniq. destruct (Load_split _ _ _ _ _ HL Hr) as (policy & l1 & l2 & Hpol & Hc & Hrest).
    exists policy. split; [done|]. rewrite <-Hrp, Hc.
    assert (Forall (λ c, sr_digest c ≠ gk_Digest k) (l1 ++ l2)) as [H1 H2]%Forall_app.
    { eapply Forall_impl; [exact Hrest|]. intros c (j & r' & Hj & Hne & ->) E. by apply Hne, (Huniq j r'). }
    match goal with |- match ?cs with _ => _ end = _ =>
      transitivity (authLoop (λ _, now) 0 (gk_Digest k) (record_prefix r) false false cs); [by destruct l1|] end.
    rewrite authLoop_skip by done. simpl. rewrite Hrd, bool_decide_true by done. cbn [negb].
    assert (∀ d e n, authLoop (λ _, now) n (gk_Digest k) (record_prefix r) d e l2 =
      authLoop (λ _, now) (n + length l2) (gk_Digest k) (record_prefix r) d e []) as Hl2.
    { intros d e n. by rewrite <-(authLoop_skip now _ _ _ _ l2 []), app_nil_r. }
    rewrite !Hl2. destruct (r_Enabled r); simpl; [|done]. unfold expired_at, Before. simpl.
    destruct (r_ExpiresAt r) as [t|]; [|done]. by rewrite Z.ltb_antisym, negb_involutive; destruct (t <=? now).
  - intros Hno. destruct (candidates (au_state a') (gk_DisplayPrefix k)) as [|c cs] eqn:Ec; [done|].
    rewrite <-(app_nil_r (c :: cs)), authLoop_skip; [done|]. apply Forall_forall. intros c' Hc'. rewrite <-Ec in Hc'.
    destruct (Load_candidates _ _ _ HL _ _ Hc') as (r & Hr & ->). by apply Hno.
Qed.

Lemma issued_key_authenticates_witness :
  Authenticate demo_hmac (λ _, 50) (witness_loaded true (Some 100)) (gk_RawKey witness_key) =
    Ok (mkPrincipal (str "key-1") (str "team") (gk_DisplayPrefix witness_key) demo_policy demo_compiled) ∧
  Authenticate demo_hmac (λ _, 100) (witness_loaded true (Some 100)) (gk_RawKey witness_key) = Err ErrExpiredCredential.
Proof.
  assert (Generate demo_hmac (Some (replicate 40 "x"%char)) (au_pepper witness_authenticator) = Ok witness_key) as HG by (vm_compute; reflexivity).
  assert (Load [witness_record true (Some 100)] witness_authenticator = (None, witness_loaded true (Some 100))) as HL by (vm_compute; reflexivity).
  assert (∀ j r', [witness_record true (Some 100)] !! j = Some r' → record_digest r' = gk_Digest witness_key → j = 0%nat) as Hu.
  { intros [|j] r' Hj _; [reflexivity|destruct j; discriminate Hj]. }
  split.
  - destruct (issued_key_authenticates demo_hmac _ _ _ _ _ 50 HG HL) as [H _].
    destruct (H 0%nat _ eq_refl eq_refl eq_refl Hu) as (policy & Hp & ->).
    assert (policy = demo_compiled) as ->; [|reflexivity].
    change (record_policy (witness_record true (Some 100))) with demo_policy in Hp.
    change (ParsePolicyWithTokenMode demo_policy (au_tokenMode witness_authenticator)) with (ParsePolicy demo_policy) in Hp.
    unfold demo_compiled. rewrite Hp. reflexivity.
  - destruct (issued_key_authenticates demo_hmac _ _ _ _ _ 100 HG HL) as [H _].
    destruct (H 0%nat _ eq_refl eq_refl eq_refl Hu) as (policy & _ & ->). reflexivity.
Defined.
