(* ===== verification/Estimator.v ===== *)
(** * The input token estimator ([internal/accounting/estimator.go])

    Before a request is forwarded its input tokens are estimated from the JSON
    body: one token per byte of text, four per message, eight per tool.  The
    body is read with the functions of [Json]; fields that are not understood
    make the estimate unknown, and the configured fallback is used. *)

From Stdlib Require Import Ascii ZArith Lia ZifyBool.
From stdpp Require Import prelude strings list.
From S2P Require Import Prelude Text Utf8 Usage Reservation Json.
Local Open Scope Z_scope.

Inductive estimate_error := ErrEstimateMalformed | ErrEstimateOverflow | ErrEstimateFallback.

(** A value with [estimateKnown], or [estimateUnsupported]. *)
Inductive estimate := Known (v : Z) | Unsupported.

Definition ApproximateEstimatorDefaultFallback : Z := 4 * 1024.
Definition approximateBytesPerToken : Z := 1.
Definition messageFrameTokens : Z := 4.
Definition toolFrameTokens : Z := 8.

(** ** Texts *)

Definition addEstimate (left right : Z) : result estimate_error Z :=
  if (left <? 0) || (right <? 0) || (sub64 maxInt64 right <? left) then Err ErrEstimateOverflow
  else Ok (add64 left right).

Definition estimateText (text : bytes) : result estimate_error Z :=
  if (length text =? 0)%nat then Ok 0
  else
    let bytesCount := Z.of_nat (length text) in
    if maxInt64 - (approximateBytesPerToken - 1) <? bytesCount then Err ErrEstimateOverflow
    else Ok (Z.quot (bytesCount + approximateBytesPerToken - 1) approximateBytesPerToken).

Definition estimateJSONFragment (raw : bytes) : result estimate_error Z :=
  if (length raw =? 0)%nat then Err ErrEstimateMalformed
  else
    let bytesCount := Z.of_nat (length raw) in
    if maxInt64 - (approximateBytesPerToken - 1) <? bytesCount then Err ErrEstimateOverflow
    else Ok (Z.quot (bytesCount + approximateBytesPerToken - 1) approximateBytesPerToken).

Definition decodeString (raw : bytes) : result estimate_error bytes :=
  if isJSONNull raw then Err ErrEstimateMalformed
  else match Unmarshal_string [] raw with Some text => Ok text | None => Err ErrEstimateMalformed end.

Definition estimateStringField (raw : bytes) : result estimate_error Z :=
  match decodeString raw with
  | Err _ => Err ErrEstimateMalformed
  | Ok text => estimateText text
  end.

Definition decodeObject (raw : bytes) : result estimate_error (list (bytes * bytes)) :=
  let trimmed := TrimSpace raw in
  if negb (bool_decide (head trimmed = Some "{"%char)) then Err ErrEstimateMalformed
  else match Unmarshal_map trimmed with Some (Some object) => Ok object | _ => Err ErrEstimateMalformed end.

(** The optional string fields of an object, one after the other; an error of
    a field is reported as malformed. *)
Fixpoint add_fields (names : list bytes) (object : list (bytes * bytes)) (total : Z) : result estimate_error Z :=
  match names with
  | [] => Ok total
  | name :: names' =>
      match field name object with
      | None => add_fields names' object total
      | Some raw =>
          match estimateStringField raw with
          | Err _ => Err ErrEstimateMalformed
          | Ok v => let? total := addEstimate total v in add_fields names' object total
          end
      end
  end.

(** The loops over raw elements stop at the first error and at the first
    element that is not supported. *)
Fixpoint sum_estimates (f : bytes → result estimate_error estimate) (raws : list bytes) (total : Z) : result estimate_error estimate :=
  match raws with
  | [] => Ok (Known total)
  | raw :: raws' =>
      let? e := f raw in
      match e with
      | Unsupported => Ok Unsupported
      | Known v => let? total := addEstimate total v in sum_estimates f raws' total
      end
  end.

(** ** Messages *)

Definition estimate_part (rawPart : bytes) : result estimate_error estimate :=
  let? part := decodeObject rawPart in
  match field (str "type") part with
  | None => Ok Unsupported
  | Some typeName =>
      match decodeString typeName with
      | Err _ => Err ErrEstimateMalformed
      | Ok kind =>
          if negb (bool_decide (kind = str "text")) && negb (bool_decide (kind = str "input_text")) && negb (bool_decide (kind = str "output_text"))
          then Ok Unsupported
          else
            match field (str "text") part with
            | None => Err ErrEstimateMalformed
            | Some value =>
                match estimateStringField value with
                | Err _ => Err ErrEstimateMalformed
                | Ok v => Ok (Known v)
                end
            end
      end
  end.

Definition estimateContent (raw : bytes) : result estimate_error estimate :=
  if isJSONNull raw then Err ErrEstimateMalformed
  else
    match Unmarshal_string [] raw with
    | Some text => let? v := estimateText text in Ok (Known v)
    | None =>
        match Unmarshal_raws raw with
        | Some (Some parts) => sum_estimates estimate_part parts 0
        | _ => Err ErrEstimateMalformed
        end
    end.

Definition estimateMessage (message : list (bytes * bytes)) : result estimate_error estimate :=
  let? total := add_fields [str "role"; str "name"] message messageFrameTokens in
  match field (str "content") message with
  | None => Ok (Known total)
  | Some raw =>
      let? e := estimateContent raw in
      match e with
      | Unsupported => Ok Unsupported
      | Known v => let? total := addEstimate total v in Ok (Known total)
      end
  end.

Definition estimateMessages (raw : bytes) : result estimate_error estimate :=
  match Unmarshal_raws raw with
  | Some (Some messages) => sum_estimates (λ rawMessage, let? message := decodeObject rawMessage in estimateMessage message) messages 0
  | _ => Err ErrEstimateMalformed
  end.

(** ** The Responses input *)

Definition estimate_item (rawItem : bytes) : result estimate_error estimate :=
  let? item := decodeObject rawItem in
  let? kind :=
    match field (str "type") item with
    | None => Ok (str "message")
    | Some rawType => match decodeString rawType with Ok k => Ok k | Err _ => Err ErrEstimateMalformed end
    end in
  if bool_decide (kind = str "message") then estimateMessage item
  else if bool_decide (kind = str "input_text") || bool_decide (kind = str "text") then
    match field (str "text") item with
    | None => Err ErrEstimateMalformed
    | Some rawText =>
        match estimateStringField rawText with
        | Err _ => Err ErrEstimateMalformed
        | Ok v => Ok (Known v)
        end
    end
  else Ok Unsupported.

Definition estimateResponsesInput (raw : bytes) : result estimate_error estimate :=
  if isJSONNull raw then Err ErrEstimateMalformed
  else
    match Unmarshal_string [] raw with
    | Some text => let? v := estimateText text in Ok (Known v)
    | None =>
        match Unmarshal_raws raw with
        | Some (Some items) => sum_estimates estimate_item items 0
        | _ => Err ErrEstimateMalformed
        end
    end.

(** ** Tools *)

Definition estimate_tool (rawTool : bytes) : result estimate_error estimate :=
  let? tool := decodeObject rawTool in
  let? supported :=
    match field (str "type") tool with
    | None => Ok true
    | Some rawType =>
        match decodeString rawType with
        | Err _ => Err ErrEstimateMalformed
        | Ok typeName => Ok (bool_decide (typeName = str "function"))
        end
    end in
  if negb supported then Ok Unsupported
  else
    let? function :=
      match field (str "function") tool with
      | None => Ok tool
      | Some functionRaw => match decodeObject functionRaw with Ok f => Ok f | Err _ => Err ErrEstimateMalformed end
      end in
    match field (str "name") function with
    | None => Err ErrEstimateMalformed
    | Some _ =>
        let? value := add_fields [str "name"; str "description"] function toolFrameTokens in
        match field (str "parameters") function with
        | None => Ok (Known value)
        | Some schema =>
            if isJSONNull schema then Err ErrEstimateMalformed
            else
              let? schemaValue := estimateJSONFragment schema in
              let? value := addEstimate value schemaValue in Ok (Known value)
        end
    end.

Definition estimateTools (raw : bytes) : result estimate_error estimate :=
  match Unmarshal_raws raw with
  | Some (Some tools) => sum_estimates estimate_tool tools 0
  | _ => Err ErrEstimateMalformed
  end.

(** ** The request *)

(** One root field: its estimate is added, or the whole estimate becomes unknown. *)
Definition root_field (name : bytes) (f : bytes → result estimate_error estimate) (root : list (bytes * bytes)) (acc : Z * bool)
    : result estimate_error (Z * bool) :=
  match field name root with
  | None => Ok acc
  | Some raw =>
      let? e := f raw in
      match e with
      | Unsupported => Ok (acc.1, true)
      | Known v => let? total := addEstimate acc.1 v in Ok (total, acc.2)
      end
  end.

Definition estimate_root (root : list (bytes * bytes)) : result estimate_error (Z * bool) :=
  let? acc := root_field (str "messages") estimateMessages root (0, false) in
  let? acc := root_field (str "input") estimateResponsesInput root acc in
  let? acc := root_field (str "instructions") (λ raw, let? v := estimateStringField raw in Ok (Known v)) root acc in
  root_field (str "tools") estimateTools root acc.

Definition NewApproximateEstimator (fallback : list Z) : Z :=
  match fallback with
  | f :: _ => if 0 <? f then f else ApproximateEstimatorDefaultFallback
  | [] => ApproximateEstimatorDefaultFallback
  end.

(** The estimator is its fallback. *)
Definition EstimateInputTokens (fallback0 : Z) (requestBytes : bytes) : InputTokens * Z * option estimate_error :=
  let fallback := if fallback0 <=? 0 then ApproximateEstimatorDefaultFallback else fallback0 in
  match NewInputTokens fallback with
  | Err _ => (UnknownInputTokens, EstimateQualityUnknown, Some ErrEstimateFallback)
  | Ok fallbackTokens =>
      match decodeObject requestBytes with
      | Err e => (fallbackTokens, EstimateQualityUnknown, Some e)
      | Ok root =>
          match estimate_root root with
          | Err e => (fallbackTokens, EstimateQualityUnknown, Some e)
          | Ok (total, unknown) =>
              if unknown then (fallbackTokens, EstimateQualityUnknown, None)
              else
                match NewInputTokens total with
                | Err _ => (UnknownInputTokens, EstimateQualityUnknown, Some ErrEstimateFallback)
                | Ok result => (result, EstimateQualityKnown, None)
                end
          end
      end
  end.

Definition UsageOnlyEstimator_EstimateInputTokens (_ : bytes) : InputTokens * Z * option estimate_error :=
  (UnknownInputTokens, EstimateQualityUnknown, None).

(** ** Bounds

    The estimate of a part of the body is at most eight times its length, so
    the only errors on bodies of a realistic size are malformed fields. *)

#[local] Arguments str : simpl never.

Definition within (bound : Z) (r : result estimate_error Z) : Prop :=
  match r with Ok v => 0 <= v <= bound | Err e => e = ErrEstimateMalformed end.

Definition estimate_within (bound : Z) (r : result estimate_error estimate) : Prop :=
  match r with Ok (Known v) => 0 <= v <= bound | Ok Unsupported => True | Err e => e = ErrEstimateMalformed end.

Abbreviation len s := (Z.of_nat (length s)).

Lemma addEstimate_ok a b : 0 <= a → 0 <= b → a + b <= maxInt64 → addEstimate a b = Ok (a + b).
Proof.
  intros. unfold addEstimate. rewrite sub64_id by lia64.
  destruct (Z.ltb_spec a 0), (Z.ltb_spec b 0), (Z.ltb_spec (maxInt64 - b) a); try lia. simpl. by rewrite add64_id by lia64.
Qed.

Lemma estimateText_ok text : len text <= maxInt64 → estimateText text = Ok (len text).
Proof.
  intros H. unfold estimateText. destruct (length text =? 0)%nat eqn:E; [apply Nat.eqb_eq in E; by rewrite E|].
  change (maxInt64 - (approximateBytesPerToken - 1)) with maxInt64. rewrite (proj2 (Z.ltb_ge _ _)) by done.
  unfold approximateBytesPerToken. rewrite Z.quot_1_r. f_equal. lia.
Qed.

Lemma estimateText_length text v : estimateText text = Ok v → v = len text.
Proof.
  unfold estimateText. destruct (length text =? 0)%nat eqn:E; [apply Nat.eqb_eq in E; rewrite E; by intros [= <-]|].
  destruct (_ <? _); [done|]. unfold approximateBytesPerToken. rewrite Z.quot_1_r. intros [= <-]. lia.
Qed.

Lemma Unmarshal_string_length raw text : Unmarshal_string [] raw = Some text → len text <= 3 * len raw.
Proof.
  unfold Unmarshal_string. destruct (parse raw) as [[| | |c| |]|] eqn:E; try done; [intros [= <-]; simpl; lia|].
  intros [= <-]. apply parse_size in E. pose proof (unquote_length c). simpl in E. lia.
Qed.

Lemma estimateStringField_within raw : 3 * len raw <= maxInt64 → within (3 * len raw) (estimateStringField raw).
Proof.
  intros H. unfold estimateStringField, decodeString. destruct (isJSONNull raw); [done|].
  destruct (Unmarshal_string [] raw) as [text|] eqn:E; [|done]. apply Unmarshal_string_length in E.
  rewrite estimateText_ok by lia. simpl. lia.
Qed.

Lemma decodeObject_size raw object :
  decodeObject raw = Ok object → Z.of_nat (total_length (map snd object)) < len raw.
Proof.
  unfold decodeObject. destruct (negb _); [done|]. unfold Unmarshal_map.
  destruct (parse (TrimSpace raw)) as [[| | | | |ms]|] eqn:E; try done. intros [= <-]. apply parse_size in E. simpl in E.
  rewrite map_map. rewrite (map_ext _ snd) by done. pose proof (TrimSpace_length raw). lia.
Qed.

Lemma decodeObject_error raw e : decodeObject raw = Err e → e = ErrEstimateMalformed.
Proof. unfold decodeObject. destruct (negb _); [congruence|]. destruct (Unmarshal_map _) as [[]|]; congruence. Qed.

Lemma decodeString_error raw e : decodeString raw = Err e → e = ErrEstimateMalformed.
Proof. unfold decodeString. destruct (isJSONNull raw); [congruence|]. destruct (Unmarshal_string _ _); congruence. Qed.

Lemma add_fields_within names object total :
  0 <= total → total + 3 * Z.of_nat (field_lengths names object) <= maxInt64 →
  within (total + 3 * Z.of_nat (field_lengths names object)) (add_fields names object total).
Proof.
  revert total. induction names as [|name names IH]; intros total Ht Hm; unfold field_lengths in *; simpl in *; [lia|].
  revert Hm. destruct (field name object) as [raw|]; intros Hm; [|apply IH; lia].
  pose proof (estimateStringField_within raw ltac:(lia)) as H. destruct (estimateStringField raw) as [v|e]; [|done]. simpl in H.
  rewrite addEstimate_ok by lia. simpl. specialize (IH (total + v) ltac:(lia) ltac:(lia)).
  destruct (add_fields _ _ _); simpl in *; lia || done.
Qed.

Lemma estimate_within_mono a b r : a <= b → estimate_within a r → estimate_within b r.
Proof. destruct r as [[v|]|]; simpl; [lia|done|done]. Qed.

Lemma sum_estimates_within f raws total :
  (∀ raw, raw ∈ raws → 8 * len raw <= maxInt64 → estimate_within (8 * len raw) (f raw)) →
  0 <= total → total + 8 * Z.of_nat (total_length raws) <= maxInt64 →
  estimate_within (total + 8 * Z.of_nat (total_length raws)) (sum_estimates f raws total).
Proof.
  revert total. induction raws as [|raw raws IH]; intros total Hf Ht Hm; unfold total_length in *; simpl in *; [lia|].
  pose proof (Hf raw ltac:(set_solver) ltac:(lia)) as H. destruct (f raw) as [[v|]|e]; [|done|done]. simpl in H |- *.
  rewrite addEstimate_ok by lia. simpl. eapply estimate_within_mono, IH; [lia|set_solver|lia|lia].
Qed.

Lemma field_lengths_object names raw object :
  NoDup names → decodeObject raw = Ok object → Z.of_nat (field_lengths names object) < len raw.
Proof. intros Hn H%decodeObject_size. pose proof (field_lengths_le names object Hn). lia. Qed.

Lemma estimate_part_within raw : 8 * len raw <= maxInt64 → estimate_within (8 * len raw) (estimate_part raw).
Proof.
  intros Hm. unfold estimate_part. destruct (decodeObject raw) as [part|e] eqn:E; [|by apply decodeObject_error in E].
  cbn [result_bind]. pose proof (field_lengths_object [str "text"] raw part ltac:(by apply (bool_decide_unpack _)) E) as Hl.
  unfold field_lengths in Hl. simpl in Hl.
  destruct (field (str "type") part) as [t|]; [|done]. destruct (decodeString t) as [kind|]; [|done].
  destruct (_ && _); [done|]. destruct (field (str "text") part) as [v|]; [|done].
  pose proof (estimateStringField_within v ltac:(lia)) as H. destruct (estimateStringField v); [|done]. simpl in *. lia.
Qed.

Lemma Unmarshal_raws_size raw l : Unmarshal_raws raw = Some (Some l) → Z.of_nat (total_length l) < len raw.
Proof.
  unfold Unmarshal_raws. destruct (parse raw) as [[| | | |l'|]|] eqn:E; try done. intros [= <-]. apply parse_size in E. simpl in E. lia.
Qed.

Lemma raws_within f raw :
  8 * len raw <= maxInt64 → (∀ x, 8 * len x <= maxInt64 → estimate_within (8 * len x) (f x)) →
  estimate_within (8 * len raw)
    (match Unmarshal_raws raw with Some (Some l) => sum_estimates f l 0 | _ => Err ErrEstimateMalformed end).
Proof.
  intros Hm Hf. destruct (Unmarshal_raws raw) as [[l|]|] eqn:E; [|done|done]. apply Unmarshal_raws_size in E.
  eapply estimate_within_mono, sum_estimates_within; [|eauto|lia|]; lia.
Qed.

Lemma text_or_raws_within f raw :
  8 * len raw <= maxInt64 → (∀ x, 8 * len x <= maxInt64 → estimate_within (8 * len x) (f x)) →
  estimate_within (8 * len raw)
    (if isJSONNull raw then Err ErrEstimateMalformed
     else match Unmarshal_string [] raw with
          | Some text => let? v := estimateText text in Ok (Known v)
          | None => match Unmarshal_raws raw with Some (Some l) => sum_estimates f l 0 | _ => Err ErrEstimateMalformed end
          end).
Proof.
  intros Hm Hf. destruct (isJSONNull raw); [done|]. destruct (Unmarshal_string [] raw) as [text|] eqn:E; [|by apply raws_within].
  apply Unmarshal_string_length in E. rewrite estimateText_ok by lia. simpl. lia.
Qed.

Lemma estimateContent_within raw : 8 * len raw <= maxInt64 → estimate_within (8 * len raw) (estimateContent raw).
Proof. intros Hm. apply text_or_raws_within; [done|exact estimate_part_within]. Qed.

Lemma estimateMessage_within message bound :
  8 * (Z.of_nat (total_length (map snd message)) + 1) <= bound → bound <= maxInt64 →
  estimate_within bound (estimateMessage message).
Proof.
  intros Hb Hm. unfold estimateMessage.
  pose proof (field_lengths_le [str "role"; str "name"; str "content"] message ltac:(by apply (bool_decide_unpack _))) as Hl.
  pose proof (add_fields_within [str "role"; str "name"] message messageFrameTokens) as H.
  unfold field_lengths, messageFrameTokens in *. cbn [sum_list_with] in Hl, H. rewrite !Nat.add_0_r in *.
  specialize (H ltac:(lia) ltac:(lia)). destruct (add_fields _ _ _) as [total|]; [|done]. simpl in *.
  destruct (field (str "content") message) as [raw|]; [|simpl; lia].
  pose proof (estimateContent_within raw ltac:(lia)) as Hc. destruct (estimateContent raw) as [[v|]|]; [|done|done].
  simpl in *. rewrite addEstimate_ok by lia. simpl. lia.
Qed.

Lemma estimate_item_within raw : 8 * len raw <= maxInt64 → estimate_within (8 * len raw) (estimate_item raw).
Proof.
  intros Hm. unfold estimate_item. destruct (decodeObject raw) as [item|e] eqn:E; [|by apply decodeObject_error in E].
  cbn [result_bind]. pose proof (decodeObject_size _ _ E) as Hs.
  pose proof (field_lengths_object [str "text"] raw item ltac:(by apply (bool_decide_unpack _)) E) as Hl.
  unfold field_lengths in Hl. cbn [sum_list_with] in Hl.
  set (kind := match field (str "type") item with None => _ | Some _ => _ end).
  assert (∀ e, kind = Err e → e = ErrEstimateMalformed) as Hk.
  { intros e. unfold kind. destruct (field (str "type") item) as [x|]; [destruct (decodeString x)|]; congruence. }
  destruct kind as [k|e]; [|by apply Hk]. cbn [result_bind]. destruct (bool_decide _); [apply estimateMessage_within; lia|].
  destruct (_ || _); [|done]. destruct (field (str "text") item) as [v|]; [|done].
  pose proof (estimateStringField_within v ltac:(lia)) as H. destruct (estimateStringField v); [|done]. simpl in *. lia.
Qed.

Lemma estimateJSONFragment_within raw : len raw <= maxInt64 → within (len raw) (estimateJSONFragment raw).
Proof.
  intros H. unfold estimateJSONFragment. destruct (_ =? _)%nat; [done|].
  change (maxInt64 - (approximateBytesPerToken - 1)) with maxInt64. rewrite (proj2 (Z.ltb_ge _ _)) by done.
  unfold approximateBytesPerToken. rewrite Z.quot_1_r. simpl. lia.
Qed.

Lemma estimate_function_within function bound :
  8 * (Z.of_nat (total_length (map snd function)) + 1) <= bound → bound <= maxInt64 →
  estimate_within bound
    (match field (str "name") function with
     | None => Err ErrEstimateMalformed
     | Some _ =>
         let? value := add_fields [str "name"; str "description"] function toolFrameTokens in
         match field (str "parameters") function with
         | None => Ok (Known value)
         | Some schema =>
             if isJSONNull schema then Err ErrEstimateMalformed
             else let? schemaValue := estimateJSONFragment schema in
                  let? value := addEstimate value schemaValue in Ok (Known value)
         end
     end).
Proof.
  intros Hb Hm.
  pose proof (field_lengths_le [str "name"; str "description"; str "parameters"] function ltac:(by apply (bool_decide_unpack _))) as Hl.
  pose proof (add_fields_within [str "name"; str "description"] function toolFrameTokens) as H.
  unfold field_lengths, toolFrameTokens in *. cbn [sum_list_with] in Hl, H. rewrite !Nat.add_0_r in *.
  specialize (H ltac:(lia) ltac:(lia)). destruct (field (str "name") function); [|done].
  destruct (add_fields _ _ _) as [total|]; [|done]. simpl in *.
  destruct (field (str "parameters") function) as [raw|]; [|simpl; lia]. destruct (isJSONNull raw); [done|].
  pose proof (estimateJSONFragment_within raw ltac:(lia)) as Hc. destruct (estimateJSONFragment raw) as [v|]; [|done].
  simpl in *. rewrite addEstimate_ok by lia. simpl. lia.
Qed.

Lemma estimate_tool_within raw : 8 * len raw <= maxInt64 → estimate_within (8 * len raw) (estimate_tool raw).
Proof.
  intros Hm. unfold estimate_tool. destruct (decodeObject raw) as [tool|e] eqn:E; [|by apply decodeObject_error in E].
  cbn [result_bind]. pose proof (decodeObject_size _ _ E) as Hs.
  set (supported := match field (str "type") tool with None => _ | Some _ => _ end).
  assert (∀ e, supported = Err e → e = ErrEstimateMalformed) as Hk.
  { intros e. unfold supported. destruct (field (str "type") tool) as [x|]; [destruct (decodeString x)|]; congruence. }
  destruct supported as [b|e]; [|by apply Hk]. cbn [result_bind]. destruct (negb b); [done|].
  pose proof (field_lengths_object [str "function"] raw tool ltac:(by apply (bool_decide_unpack _)) E) as Hl.
  unfold field_lengths in Hl. cbn [sum_list_with] in Hl.
  destruct (field (str "function") tool) as [f|]; [|cbn [result_bind]; apply estimate_function_within; lia].
  destruct (decodeObject f) as [function|e] eqn:Ef; [|done]. apply decodeObject_size in Ef.
  cbn [result_bind]. apply estimate_function_within; lia.
Qed.

Lemma root_field_within name f root acc rest :
  (∀ x, 8 * len x <= maxInt64 → estimate_within (8 * len x) (f x)) →
  0 <= acc.1 → 8 * Z.of_nat (field_lengths [name] root) <= rest → acc.1 + rest <= maxInt64 →
  match root_field name f root acc with
  | Ok acc' => 0 <= acc'.1 <= acc.1 + 8 * Z.of_nat (field_lengths [name] root)
  | Err e => e = ErrEstimateMalformed
  end.
Proof.
  intros Hf Ha Hr Hm. unfold root_field, field_lengths in *. cbn [sum_list_with] in *. rewrite !Nat.add_0_r in *.
  destruct (field name root) as [raw|]; [|lia].
  pose proof (Hf raw ltac:(lia)) as H. destruct (f raw) as [[v|]|]; [|simpl; lia|done]. simpl in *.
  rewrite addEstimate_ok by lia. simpl. lia.
Qed.

Lemma estimateMessages_within raw : 8 * len raw <= maxInt64 → estimate_within (8 * len raw) (estimateMessages raw).
Proof.
  intros Hm. apply raws_within; [done|]. intros x Hx. destruct (decodeObject x) as [m|e] eqn:E; [|by apply decodeObject_error in E].
  cbn [result_bind]. apply decodeObject_size in E. apply estimateMessage_within; lia.
Qed.

Lemma estimateResponsesInput_within raw : 8 * len raw <= maxInt64 → estimate_within (8 * len raw) (estimateResponsesInput raw).
Proof. intros Hm. apply text_or_raws_within; [done|exact estimate_item_within]. Qed.

Lemma instructions_within raw :
  8 * len raw <= maxInt64 → estimate_within (8 * len raw) (let? v := estimateStringField raw in Ok (Known v)).
Proof.
  intros Hm. pose proof (estimateStringField_within raw ltac:(lia)) as H. destruct (estimateStringField raw); simpl in *; [lia|done].
Qed.

Lemma estimateTools_within raw : 8 * len raw <= maxInt64 → estimate_within (8 * len raw) (estimateTools raw).
Proof. intros Hm. apply raws_within; [done|exact estimate_tool_within]. Qed.

Lemma estimate_root_within root bound :
  8 * Z.of_nat (total_length (map snd root)) <= bound → bound <= maxInt64 →
  match estimate_root root with
  | Ok acc => 0 <= acc.1 <= bound
  | Err e => e = ErrEstimateMalformed
  end.
Proof.
  intros Hb Hm. set (n1 := str "messages"). set (n2 := str "input"). set (n3 := str "instructions"). set (n4 := str "tools").
  pose proof (field_lengths_le [n1; n2; n3; n4] root ltac:(by apply (bool_decide_unpack _))) as Hl.
  assert (field_lengths [n1] root + field_lengths [n2] root + field_lengths [n3] root +
    field_lengths [n4] root ≤ total_length (map snd root))%nat as Hsum.
  { unfold field_lengths in *. cbn [sum_list_with] in *. lia. }
  clear Hl. unfold estimate_root. fold n1 n2 n3 n4.
  pose proof (root_field_within n1 _ root (0, false) bound estimateMessages_within ltac:(done) ltac:(lia) ltac:(simpl; lia)) as H1.
  destruct (root_field n1 _ root (0, false)) as [a1|]; [|done]. cbn [result_bind fst] in *.
  pose proof (root_field_within n2 _ root a1 (bound - 8 * Z.of_nat (field_lengths [n1] root))
    estimateResponsesInput_within ltac:(lia) ltac:(lia) ltac:(lia)) as H2.
  destruct (root_field n2 _ root a1) as [a2|]; [|done]. cbn [result_bind] in *.
  pose proof (root_field_within n3 _ root a2 (bound - 8 * Z.of_nat (field_lengths [n1] root) - 8 * Z.of_nat (field_lengths [n2] root))
    instructions_within ltac:(lia) ltac:(lia) ltac:(lia)) as H3.
  destruct (root_field n3 _ root a2) as [a3|]; [|done]. cbn [result_bind] in *.
  pose proof (root_field_within n4 _ root a3 (bound - 8 * Z.of_nat (field_lengths [n1] root) - 8 * Z.of_nat (field_lengths [n2] root) -
    8 * Z.of_nat (field_lengths [n3] root)) estimateTools_within ltac:(lia) ltac:(lia) ltac:(lia)) as H4.
  destruct (root_field n4 _ root a3) as [a4|]; [|done]. lia.
Qed.

(** The estimator is total and bounded.  For every body of up to 2^60 bytes,
    valid JSON or not, it returns a known count with the fallback as the count
    of an unknown estimate; a known estimate comes without an error and is at
    most eight tokens per byte of the body; and the only error is the one for
    malformed input, never an overflow. *)
Theorem EstimateInputTokens_bounded fallback body tokens quality err :
  fallback <= maxInt64 → 8 * Z.of_nat (length body) <= maxInt64 →
  EstimateInputTokens fallback body = (tokens, quality, err) →
  InputTokens_Known tokens = true ∧ (err = None ∨ err = Some ErrEstimateMalformed) ∧
  (if EstimateQuality_Known quality
   then err = None ∧ 0 <= InputTokens_Int64 tokens <= 8 * Z.of_nat (length body)
   else quality = EstimateQualityUnknown ∧
        InputTokens_Int64 tokens = (if fallback <=? 0 then ApproximateEstimatorDefaultFallback else fallback)).
Proof.
  intros Hf Hb H. unfold EstimateInputTokens in H. set (fb := if fallback <=? 0 then _ else _) in *.
  assert (0 < fb) as Hpos by (unfold fb, ApproximateEstimatorDefaultFallback; destruct (Z.leb_spec fallback 0); lia).
  unfold NewInputTokens, NewTokenCount in H. rewrite (proj2 (Z.ltb_ge fb 0)) in H by lia. cbn [result_bind] in H.
  destruct (decodeObject body) as [root|e] eqn:E.
  - apply decodeObject_size in E. pose proof (estimate_root_within root (8 * len body) ltac:(lia) Hb) as Hr.
    destruct (estimate_root root) as [[total unknown]|e]; simpl in Hr.
    + destruct unknown; [by simplify_eq/=; eauto|]. rewrite (proj2 (Z.ltb_ge total 0)) in H by lia. cbn [result_bind] in H.
      simplify_eq. simpl. eauto.
    + simplify_eq. simpl. eauto.
  - apply decodeObject_error in E as ->. simplify_eq. simpl. eauto.
Qed.

Definition demo_body : bytes :=
  map (λ c, if byte_eqb c "'" then quote_char else c)
    (str "{'model':'gpt','messages':[{'role':'user','content':'hello'}],'tools':[{'type':'function','function':{'name':'f','parameters':{}}}]}").

Lemma EstimateInputTokens_bounded_witness :
  ∃ tokens, EstimateInputTokens 0 demo_body = (tokens, EstimateQualityKnown, None) ∧
  InputTokens_Known tokens = true ∧ InputTokens_Int64 tokens = 24 ∧
  0 <= InputTokens_Int64 tokens <= 8 * Z.of_nat (length demo_body).
Proof.
  eexists. split; [vm_compute; reflexivity|].
  destruct (EstimateInputTokens_bounded 0 demo_body (mkInput (mkTokenCount 24 true)) EstimateQualityKnown None) as (H1 & _ & _ & H2);
    [vm_compute; discriminate|vm_compute; discriminate|vm_compute; reflexivity|].
  split_and!; [exact H1|reflexivity|apply H2|apply H2].
Defined.

(** ** Chat requests

    The printed form of a request with the given messages. *)

Definition message_json (m : bytes * bytes) : json :=
  JObject [(str "role", JString m.1); (str "content", JString m.2)].

Definition chat_json (model : bytes) (messages : list (bytes * bytes)) : json :=
  JObject [(str "model", JString model); (str "messages", JArray (map message_json messages))].

Definition message_cost (m : bytes * bytes) : Z := 4 + len m.1 + len m.2.
Definition chat_cost (messages : list (bytes * bytes)) : Z := foldr (λ m n, message_cost m + n) 0 messages.

Definition plain_message (m : bytes * bytes) : bool := plain m.1 && plain m.2.

Lemma estimateStringField_print c : plain c = true → len c <= maxInt64 → estimateStringField (print (JString c)) = Ok (len c).
Proof.
  intros Hc Hm. unfold estimateStringField, decodeString. rewrite print_string_not_null. unfold Unmarshal_string.
  rewrite parse_printed by (by apply plain_content). cbn [shape_of]. rewrite plain_unquote by done. by apply estimateText_ok.
Qed.

Lemma decodeObject_print ms :
  json_ok maxNestingDepth (JObject ms) = true → Forall (λ m, plain m.1 = true) ms →
  decodeObject (print (JObject ms)) = Ok (map (λ m, (m.1, print m.2)) ms).
Proof.
  intros Hok Hp. unfold decodeObject. rewrite print_object_trim, bool_decide_true by done. cbn [negb].
  unfold Unmarshal_map. rewrite parse_printed by done. cbn [shape_of]. f_equal. rewrite map_map.
  apply map_ext_Forall. eapply Forall_impl; [exact Hp|]. intros [k v] Hk. simpl in *. by rewrite plain_unquote.
Qed.

Lemma message_json_ok d m : plain_message m = true → (2 ≤ d)%nat → json_ok d (message_json m) = true.
Proof.
  intros [H1 H2]%andb_true_iff Hd. destruct d as [|d]; [lia|]. simpl.
  by rewrite !plain_content by done.
Qed.

Lemma estimateMessage_print m :
  plain_message m = true → message_cost m <= maxInt64 →
  estimateMessage [(str "role", print (JString m.1)); (str "content", print (JString m.2))] = Ok (Known (message_cost m)).
Proof.
  intros [H1 H2]%andb_true_iff Hm. unfold message_cost in *. unfold estimateMessage. cbn [add_fields].
  set (object := [(str "role", _); _]).
  assert (field (str "role") object = Some (print (JString m.1))) as -> by done.
  assert (field (str "name") object = None) as -> by done.
  assert (field (str "content") object = Some (print (JString m.2))) as -> by done.
  rewrite estimateStringField_print by (done || lia). unfold messageFrameTokens. rewrite addEstimate_ok by lia. cbn [result_bind].
  unfold estimateContent. rewrite print_string_not_null. unfold Unmarshal_string. rewrite parse_printed by (by apply plain_content).
  cbn [shape_of]. rewrite plain_unquote by done. rewrite estimateText_ok by lia. cbn [result_bind].
  by rewrite addEstimate_ok by lia.
Qed.

Lemma chat_cost_nonneg messages : 0 <= chat_cost messages.
Proof. induction messages as [|m ms IH]; [done|]. simpl. unfold message_cost. lia. Qed.

Lemma sum_messages messages total :
  forallb plain_message messages = true → 0 <= total → total + chat_cost messages <= maxInt64 →
  sum_estimates (λ rawMessage, let? message := decodeObject rawMessage in estimateMessage message)
    (map print (map message_json messages)) total = Ok (Known (total + chat_cost messages)).
Proof.
  revert total. induction messages as [|m ms IH]; intros total Hp Ht Hm; cbn [map chat_cost foldr] in *.
  - simpl. by rewrite Z.add_0_r.
  - simpl in Hp. apply andb_true_iff in Hp as [H1 H2]. fold (chat_cost ms) in *. pose proof (chat_cost_nonneg ms).
    assert (0 <= message_cost m) by (unfold message_cost; lia). cbn [sum_estimates]. unfold message_json at 1.
    rewrite decodeObject_print; [|by apply message_json_ok; [|unfold maxNestingDepth; lia]|by repeat constructor].
    cbn [map fst snd result_bind]. rewrite estimateMessage_print by (done || lia). cbn [result_bind].
    rewrite addEstimate_ok by lia. cbn [result_bind]. rewrite IH by (done || lia). do 2 f_equal. lia.
Qed.

Lemma chat_json_ok model messages :
  plain model = true → forallb plain_message messages = true →
  json_ok maxNestingDepth (JArray (map message_json messages)) = true ∧ json_ok maxNestingDepth (chat_json model messages) = true.
Proof.
  intros Hmodel Hp. assert (∀ d, (2 ≤ d)%nat → forallb (json_ok d) (map message_json messages) = true) as H.
  { intros d Hd. induction messages as [|m ms IH]; [done|]. cbn [map forallb] in *. apply andb_true_iff in Hp as [? ?].
    by rewrite message_json_ok, IH. }
  assert (∃ d, maxNestingDepth = S (S (S (S d)))) as [d ->] by (exists (Z.to_nat 9996); unfold maxNestingDepth; lia).
  unfold chat_json. cbn [json_ok forallb fst snd]. rewrite !plain_content by done. rewrite !H by lia. done.
Qed.

(** On a chat request the estimate is exact: for messages of plain text it
    is four tokens for each message and one for each byte of its role and its
    content, with quality known and no error. *)
Theorem chat_estimate_exact fallback model messages :
  0 < fallback → plain model = true → forallb plain_message messages = true → chat_cost messages <= maxInt64 →
  EstimateInputTokens fallback (print (chat_json model messages)) =
    (mkInput (mkTokenCount (chat_cost messages) true), EstimateQualityKnown, None).
Proof.
  intros Hf Hmodel Hp Hm. unfold EstimateInputTokens. rewrite (proj2 (Z.leb_gt fallback 0)) by done.
  unfold NewInputTokens, NewTokenCount. rewrite (proj2 (Z.ltb_ge fallback 0)) by lia. cbn [result_bind].
  destruct (chat_json_ok model messages) as [Ha Ho]; [done..|].
  unfold chat_json in *. rewrite decodeObject_print by (done || by repeat constructor). cbn [map fst snd].
  unfold estimate_root, root_field. set (root := [(str "model", _); _]).
  assert (field (str "messages") root = Some (print (JArray (map message_json messages)))) as -> by done.
  assert (field (str "input") root = None) as -> by done.
  assert (field (str "instructions") root = None) as -> by done.
  assert (field (str "tools") root = None) as -> by done.
  unfold estimateMessages, Unmarshal_raws. rewrite parse_printed by done. cbn [shape_of].
  pose proof (chat_cost_nonneg messages). rewrite sum_messages by (done || lia). cbn [result_bind fst snd].
  rewrite addEstimate_ok by (simpl; lia). cbn [result_bind fst snd].
  by rewrite (proj2 (Z.ltb_ge _ 0)) by lia.
Qed.

Lemma chat_estimate_exact_witness :
  EstimateInputTokens 100 (print (chat_json (str "gpt") [(str "system", str "be brief"); (str "user", str "hi")])) =
    (mkInput (mkTokenCount 28 true), EstimateQualityKnown, None).
Proof. exact (chat_estimate_exact 100 (str "gpt") [(str "system", str "be brief"); (str "user", str "hi")] eq_refl eq_refl eq_refl ltac:(vm_compute; discriminate)). Defined.
