(* ===== verification/UsageJson.v ===== *)
(** * Usage in JSON responses ([internal/protocol/openai/json_usage.go])

    The usage object of a complete response: known members are read strictly
    (no duplicates, no null counts, non-negative integers), the chat names
    take precedence over the Responses names, and everything else is ignored. *)

From Stdlib Require Import Ascii ZArith Lia ZifyBool.
From stdpp Require Import prelude strings list.
From S2P Require Import Prelude Text Usage Json.
Local Open Scope Z_scope.

Inductive usage_json_error := ErrMalformedJSON | ErrInvalidJSONUsage.

Record JSONUsageResult := mkUsageResult { ur_Usage : Usage; ur_Observed : bool }.

Definition emptyUsage : Usage :=
  mkUsage UnknownInputTokens UnknownOutputTokens UnknownTotalTokens UnknownCachedInputTokens UnknownReasoningOutputTokens TotalAbsent.
Definition notObserved : JSONUsageResult := mkUsageResult emptyUsage false.

(** ** Strict objects

    [scanKnownObjectMembers]: the members are read one after the other, so a
    duplicate of a known name is reported even when the text is malformed
    further on.  A member whose value is read has its own nesting limit. *)

Inductive scan_error := Malformed | DuplicateKnown.

Fixpoint scan_members (n : nat) (known seen : list bytes) (s : bytes) : result scan_error (list (bytes * bytes)) :=
  match n with
  | O => Err Malformed
  | S n =>
      match s with
      | [] => Err Malformed
      | c :: s1 =>
          if negb (byte_eqb c quote_char) then Err Malformed
          else
            match scan_string s1 with
            | None => Err Malformed
            | Some (content, s2) =>
                let key := unquote content in
                match skip_ws s2 with
                | [] => Err Malformed
                | c3 :: s3 =>
                    if negb (byte_eqb c3 ":") then Err Malformed
                    else
                      let s4 := skip_ws s3 in
                      match value (S (2 * length s4)) maxNestingDepth s4 with
                      | None => Err Malformed
                      | Some (_, s5) =>
                          if bool_decide (key ∈ known) && bool_decide (key ∈ seen) then Err DuplicateKnown
                          else
                            match skip_ws s5 with
                            | [] => Err Malformed
                            | c6 :: s6 =>
                                if byte_eqb c6 "," then
                                  let? rest := scan_members n known (if bool_decide (key ∈ known) then key :: seen else seen) (skip_ws s6) in
                                  Ok ((key, consumed s4 s5) :: rest)
                                else if byte_eqb c6 "}" then
                                  if bool_decide (skip_ws s6 = []) then Ok [(key, consumed s4 s5)] else Err Malformed
                                else Err Malformed
                            end
                      end
                end
            end
      end
  end.

Definition scanKnownObjectMembers (raw : bytes) (known : list bytes) : result scan_error (list (bytes * bytes)) :=
  match skip_ws raw with
  | [] => Err Malformed
  | c :: s =>
      if negb (byte_eqb c "{") then Err Malformed
      else
        match skip_ws s with
        | [] => Err Malformed
        | c2 :: s2 =>
            if byte_eqb c2 "}" then if bool_decide (skip_ws s2 = []) then Ok [] else Err Malformed
            else scan_members (length raw) known [] (c2 :: s2)
        end
  end.

(** ** Counts *)

Definition knownUsageFields : list bytes :=
  [str "prompt_tokens"; str "completion_tokens"; str "input_tokens"; str "output_tokens"; str "total_tokens";
   str "prompt_tokens_details"; str "completion_tokens_details"; str "input_tokens_details"; str "output_tokens_details"].
Definition knownDetailFields : list bytes := [str "cached_tokens"; str "reasoning_tokens"].

(** An absent member has an empty raw message. *)
Definition member (name : bytes) (ms : list (bytes * bytes)) : bytes := default [] (field name ms).

Definition decodeKnownCount (raw : bytes) : result usage_json_error (option Z) :=
  if (length raw =? 0)%nat then Ok None
  else if isJSONNull raw then Err ErrInvalidJSONUsage
  else
    match Unmarshal_int64 0 raw with
    | Some value => if value <? 0 then Err ErrInvalidJSONUsage else Ok (Some value)
    | None => Err ErrInvalidJSONUsage
    end.

(** [decodeCachedDetails] and [decodeReasoningDetails] differ in the member they read. *)
Definition decodeDetails (name raw : bytes) : result usage_json_error (option Z) :=
  if (length raw =? 0)%nat || isJSONNull raw then Ok None
  else
    match scanKnownObjectMembers raw knownDetailFields with
    | Err _ => Err ErrInvalidJSONUsage
    | Ok fields => decodeKnownCount (member name fields)
    end.

(** ** The usage object *)

Definition first_present {A} (canonical alias : option A) : option A :=
  match canonical with Some _ => canonical | None => alias end.

Definition parseJSONUsageObject (raw : bytes) : result usage_json_error JSONUsageResult :=
  if (length raw =? 0)%nat || isJSONNull raw then Ok notObserved
  else
    match scanKnownObjectMembers raw knownUsageFields with
    | Err _ => Err ErrInvalidJSONUsage
    | Ok fields =>
        let? prompt := decodeKnownCount (member (str "prompt_tokens") fields) in
        let? input := decodeKnownCount (member (str "input_tokens") fields) in
        let? completion := decodeKnownCount (member (str "completion_tokens") fields) in
        let? output := decodeKnownCount (member (str "output_tokens") fields) in
        let? total := decodeKnownCount (member (str "total_tokens") fields) in
        let? promptCached := decodeDetails (str "cached_tokens") (member (str "prompt_tokens_details") fields) in
        let? inputCached := decodeDetails (str "cached_tokens") (member (str "input_tokens_details") fields) in
        let cached := if (length (member (str "prompt_tokens_details") fields) =? 0)%nat then inputCached else promptCached in
        let? completionReasoning := decodeDetails (str "reasoning_tokens") (member (str "completion_tokens_details") fields) in
        let? outputReasoning := decodeDetails (str "reasoning_tokens") (member (str "output_tokens_details") fields) in
        let reasoning := if (length (member (str "completion_tokens_details") fields) =? 0)%nat then outputReasoning else completionReasoning in
        let prompt := first_present prompt input in
        let completion := first_present completion output in
        if negb (bool_decide (is_Some prompt) || bool_decide (is_Some completion) || bool_decide (is_Some total)
                 || bool_decide (is_Some cached) || bool_decide (is_Some reasoning))
        then Ok notObserved
        else
          match NewUsage (mkUsageInput prompt completion total cached reasoning) with
          | Err _ => Err ErrInvalidJSONUsage
          | Ok usage => Ok (mkUsageResult usage true)
          end
    end.

Definition ParseJSONUsage (data : bytes) : result usage_json_error JSONUsageResult :=
  if negb (bool_decide (head (TrimSpace data) = Some "{"%char)) then Err ErrMalformedJSON
  else
    match scanKnownObjectMembers data [str "usage"] with
    | Err DuplicateKnown => Err ErrInvalidJSONUsage
    | Err Malformed => Err ErrMalformedJSON
    | Ok root => parseJSONUsageObject (member (str "usage") root)
    end.

(** ** Lemmas *)

#[local] Opaque maxNestingDepth.

(** Every member takes a byte, so the fuel is enough. *)
Lemma scan_members_fuel n m known seen s :
  (length s < n)%nat → (length s < m)%nat → scan_members n known seen s = scan_members m known seen s.
Proof.
  revert m seen s. induction n as [|n IH]; intros m seen s Hn Hm; [lia|]. destruct m as [|m]; [lia|]. cbn [scan_members].
  destruct s as [|c s1]; [done|]. destruct (negb _); [done|].
  destruct (scan_string s1) as [[k s2]|] eqn:E1; [|done]. apply scan_string_rest, rest_of_length in E1.
  destruct (skip_ws s2) as [|c3 s3] eqn:E2; [done|]. apply skip_ws_cons, rest_of_length in E2.
  pose proof (skip_ws_length s3). destruct (negb _); [done|].
  destruct (value _ _ (skip_ws s3)) as [[v s5]|] eqn:E3; [|done]. apply value_rest, rest_of_length in E3.
  destruct (_ && _); [done|]. destruct (skip_ws s5) as [|c6 s6] eqn:E4; [done|]. apply skip_ws_cons, rest_of_length in E4.
  pose proof (skip_ws_length s6). simpl in *. by rewrite (IH m) by lia.
Qed.

Definition tree_ok (ms : list (bytes * json)) : bool := forallb (λ m, content_ok m.1 && json_ok maxNestingDepth m.2) ms.

Definition decoded (ms : list (bytes * json)) : list (bytes * bytes) := map (λ m, (unquote m.1, print m.2)) ms.

Lemma scan_members_print known w ms : forallb json_space w = true → ms ≠ [] → ∀ n seen,
  let texts := map (λ m, print_member (m.1, print m.2)) ms in
  tree_ok ms = true → NoDup (map fst (decoded ms)) → (∀ k, k ∈ map fst (decoded ms) → k ∉ seen) → (length ms ≤ n)%nat →
  scan_members n known seen (joined texts ++ "}"%char :: w) = Ok (decoded ms).
Proof.
  intros Hw. assert (skip_ws w = []) as Hw0 by (rewrite <-(app_nil_r w); by rewrite skip_ws_app).
  induction ms as [|[k j] ms IH]; [done|]. intros _ n seen texts Hok Hnd Hseen Hn. subst texts.
  unfold tree_ok in Hok. cbn [forallb fst snd] in Hok. apply andb_true_iff in Hok as [[Hk Hj]%andb_true_iff Hoks].
  destruct n as [|n]; [simpl in Hn; lia|].
  assert (unquote k ∉ seen) as Hk0 by (apply Hseen; left).
  assert (∀ t r', stops (t :: r') = true →
    scan_members (S n) known seen (print_member (k, print j) ++ t :: r') =
    match skip_ws (t :: r') with
    | [] => Err Malformed
    | c6 :: s6 =>
        if byte_eqb c6 "," then
          let? rest := scan_members n known (if bool_decide (unquote k ∈ known) then unquote k :: seen else seen) (skip_ws s6) in
          Ok ((unquote k, print j) :: rest)
        else if byte_eqb c6 "}" then
          if bool_decide (skip_ws s6 = []) then Ok [(unquote k, print j)] else Err Malformed
        else Err Malformed
    end) as Hstep.
  { intros t r' Ht. unfold print_member. cbn [fst snd app]. rewrite <-app_assoc. cbn [app]. cbn [scan_members].
    change (byte_eqb quote_char quote_char) with true. cbn iota beta delta [negb]. rewrite scan_content by done.
    cbn [skip_ws]. change (json_space ":") with false. cbn iota beta. change (byte_eqb ":" ":") with true.
    cbn iota beta delta [negb]. rewrite (skip_print maxNestingDepth j _ Hj).
    rewrite (reads_all j _ maxNestingDepth _ Hj Ht) by lia. rewrite (bool_decide_false (unquote k ∈ seen)) by done. rewrite andb_false_r.
    by rewrite consumed_app. }
  cbn [map fst snd] in *. destruct ms as [|[k' j'] ms].
  - cbn [joined map]. rewrite Hstep by done. cbn [skip_ws]. change (json_space "}") with false. cbn iota beta.
    change (byte_eqb "}" ",") with false. change (byte_eqb "}" "}") with true. cbn iota beta. by rewrite Hw0, bool_decide_true.
  - cbn [map fst snd]. rewrite joined_cons, <-app_assoc. cbn [app]. rewrite Hstep by done.
    cbn [skip_ws]. change (json_space ",") with false. cbn iota beta. change (byte_eqb "," ",") with true. cbn iota beta.
    rewrite skip_joined by (by eexists _, _). unfold decoded in *. cbn [map fst snd] in *. apply NoDup_cons in Hnd as [Hnin Hnd].
    rewrite IH; [done|done|done|done| |simpl in *; lia].
    intros q Hq. assert (q ∉ seen) by (apply Hseen; by right).
    destruct (bool_decide (unquote k ∈ known)); [|done]. set_solver.
Qed.

Lemma scan_print known w1 w2 ms :
  forallb json_space w1 = true → forallb json_space w2 = true → tree_ok ms = true → NoDup (map fst (decoded ms)) →
  scanKnownObjectMembers (w1 ++ print (JObject ms) ++ w2) known = Ok (decoded ms).
Proof.
  intros H1 H2 Hok Hnd. unfold scanKnownObjectMembers. rewrite skip_ws_app by done. cbn [print app skip_ws].
  change (json_space "{") with false. cbn iota beta. change (byte_eqb "{" "{") with true. cbn iota beta delta [negb].
  rewrite <-app_assoc. cbn [app]. destruct ms as [|[k j] ms].
  - cbn [map joined app skip_ws]. change (json_space "}") with false. cbn iota beta. change (byte_eqb "}" "}") with true. cbn iota beta.
    rewrite <-(app_nil_r w2), skip_ws_app by done. done.
  - cbn [map fst snd]. rewrite skip_joined by (by eexists _, _).
    destruct (joined_head (print_member (k, print j)) (map (λ m, print_member (m.1, print m.2)) ms) ("}"%char :: w2))
      as (c & s & E & Hc); [by eexists _, _|]. rewrite E. destruct (byte_eqb c "}") eqn:Eb.
    { unfold starts_value in Hc. rewrite Eb in Hc. by rewrite andb_false_r in Hc. }
    rewrite <-E. pose proof (scan_members_print known w2 ((k, j) :: ms) H2 ltac:(done)) as Hm. cbn [map fst snd] in Hm.
    apply Hm; [done|done|set_solver|].
    rewrite !length_app. simpl. assert (length ms ≤ length (joined (print_member (k, print j) :: map (λ m, print_member (m.1, print m.2)) ms)))%nat; [|simpl in *; rewrite ?length_app in *; simpl; lia].
    clear. revert k j. induction ms as [|[k' j'] ms IH]; intros k j; [simpl; lia|]. cbn [map fst snd]. rewrite joined_cons, length_app.
    cbn [length]. specialize (IH k' j'). lia.
Qed.

(** ** The reference: usage of a response tree *)

Definition tree_field (k : bytes) (ms : list (bytes * json)) : option json := field k (map (λ m, (unquote m.1, m.2)) ms).

Definition tree_count (o : option json) : result usage_json_error (option Z) :=
  match o with
  | None => Ok None
  | Some (JNumber lit) =>
      match ParseInt lit with
      | Ok v => if v <? 0 then Err ErrInvalidJSONUsage else Ok (Some v)
      | Err _ => Err ErrInvalidJSONUsage
      end
  | Some _ => Err ErrInvalidJSONUsage
  end.

Definition tree_details (name : bytes) (o : option json) : result usage_json_error (option Z) :=
  match o with
  | None | Some JNull => Ok None
  | Some (JObject ms) => tree_count (tree_field name ms)
  | Some _ => Err ErrInvalidJSONUsage
  end.

(** The canonical details, when the member is there at all, else the alias's. *)
Definition preferred (canonical : option json) (cv av : option Z) : option Z :=
  match canonical with Some _ => cv | None => av end.

#[export] Instance UsageInput_eq_dec : EqDecision UsageInput.
Proof. solve_decision. Defined.

Definition tree_usage (o : option json) : result usage_json_error JSONUsageResult :=
  match o with
  | None | Some JNull => Ok notObserved
  | Some (JObject ms) =>
      let f name := tree_field (str name) ms in
      let? prompt := tree_count (f "prompt_tokens") in
      let? input := tree_count (f "input_tokens") in
      let? completion := tree_count (f "completion_tokens") in
      let? output := tree_count (f "output_tokens") in
      let? total := tree_count (f "total_tokens") in
      let? promptCached := tree_details (str "cached_tokens") (f "prompt_tokens_details") in
      let? inputCached := tree_details (str "cached_tokens") (f "input_tokens_details") in
      let? completionReasoning := tree_details (str "reasoning_tokens") (f "completion_tokens_details") in
      let? outputReasoning := tree_details (str "reasoning_tokens") (f "output_tokens_details") in
      let counts := mkUsageInput (first_present prompt input) (first_present completion output) total
        (preferred (f "prompt_tokens_details") promptCached inputCached)
        (preferred (f "completion_tokens_details") completionReasoning outputReasoning) in
      if bool_decide (counts = mkUsageInput None None None None None) then Ok notObserved
      else
        match NewUsage counts with
        | Err _ => Err ErrInvalidJSONUsage
        | Ok usage => Ok (mkUsageResult usage true)
        end
  | Some _ => Err ErrInvalidJSONUsage
  end.

(** Distinct member names in every object. *)
Fixpoint distinct_keys (j : json) : bool :=
  match j with
  | JArray l => forallb distinct_keys l
  | JObject ms => bool_decide (NoDup (map (λ m, unquote m.1) ms)) && forallb (λ m, distinct_keys m.2) ms
  | _ => true
  end.

(** What the lemmas need of a member: well formed, distinct names. *)
Definition good (j : json) : Prop := json_ok maxNestingDepth j = true ∧ distinct_keys j = true.

Lemma good_object ms : good (JObject ms) → tree_ok ms = true ∧ NoDup (map fst (decoded ms)) ∧ Forall (λ m, good m.2) ms.
Proof.
  intros [Hok Hd]. cbn [json_ok distinct_keys] in *. apply andb_true_iff in Hd as [Hn%bool_decide_eq_true Hd].
  destruct maxNestingDepth as [|d] eqn:Ed; [done|].
  assert (∀ m, m ∈ ms → content_ok m.1 = true ∧ json_ok maxNestingDepth m.2 = true) as Hm.
  { intros m Hin%list_elem_of_In. rewrite forallb_forall in Hok. apply Hok, andb_true_iff in Hin as [? ?].
    split; [done|]. apply (json_ok_mono _ d); [lia|done]. }
  split_and!.
  - apply forallb_forall. intros m Hin%list_elem_of_In. apply Hm in Hin as [-> ->]. done.
  - unfold decoded. by rewrite map_map.
  - apply Forall_forall. intros m Hin. split; [by apply Hm|]. rewrite forallb_forall in Hd. by apply Hd, list_elem_of_In.
Qed.

Lemma member_tree k ms : member k (decoded ms) = match tree_field k ms with Some j => print j | None => [] end.
Proof.
  unfold member, decoded, tree_field. rewrite <-(map_map (λ m, (unquote m.1, m.2)) (λ m, (m.1, print m.2))).
  rewrite field_map. by destruct (field k _).
Qed.

Lemma tree_field_good k ms j : Forall (λ m, good m.2) ms → tree_field k ms = Some j → good j.
Proof.
  intros H E. apply field_elem, list_elem_of_fmap in E as ([k' j'] & [= -> ->] & Hin). rewrite Forall_forall in H. exact (H _ Hin).
Qed.

Lemma print_nonempty j : good j → (length (print j) =? 0)%nat = false.
Proof. intros [H _]. by destruct (print_head _ _ H) as (c & s & -> & _). Qed.

Lemma decodeKnownCount_tree k ms : Forall (λ m, good m.2) ms → decodeKnownCount (member k (decoded ms)) = tree_count (tree_field k ms).
Proof.
  intros Hg. rewrite member_tree. destruct (tree_field k ms) as [j|] eqn:E; [|done]. apply (tree_field_good _ _ _ Hg) in E.
  unfold decodeKnownCount. rewrite print_nonempty by done. destruct E as [Hok _]. rewrite (print_null _ _ Hok).
  unfold Unmarshal_int64. rewrite (parse_printed _ Hok). destruct j; try done. simpl. by destruct (ParseInt lit).
Qed.

Lemma scan_not_object j known : json_ok maxNestingDepth j = true → (∀ ms, j ≠ JObject ms) →
  scanKnownObjectMembers (print j) known = Err Malformed.
Proof.
  intros Hok Hn. unfold scanKnownObjectMembers. destruct (print_head _ _ Hok) as (c & s & E & Hc).
  assert (skip_ws (print j) = c :: s) as ->. { rewrite E. unfold starts_value in Hc. simpl. by destruct (json_space c). }
  destruct (byte_eqb c "{") eqn:Eb; [|done]. exfalso. apply bool_decide_eq_true in Eb as ->.
  destruct j as [|[]|lit|c|l|ms]; try done; [|by eapply Hn]. simpl in *.
  destruct (number_head _ Hok) as (c' & s' & E' & Hd). rewrite E' in E. injection E as -> _. by destruct Hd.
Qed.

Lemma decodeDetails_tree name k ms :
  Forall (λ m, good m.2) ms → decodeDetails name (member k (decoded ms)) = tree_details name (tree_field k ms).
Proof.
  intros Hg. rewrite member_tree. destruct (tree_field k ms) as [j|] eqn:E; [|done]. apply (tree_field_good _ _ _ Hg) in E.
  unfold decodeDetails. rewrite print_nonempty by done. pose proof E as [Hok _]. rewrite (print_null _ _ Hok). cbn [orb].
  destruct j as [|b|lit|c|l|ds]; cbn [is_null tree_details]; [done|by rewrite scan_not_object..|].
  destruct (good_object _ E) as (Ht & Hn & Hf). pose proof (scan_print knownDetailFields [] [] ds eq_refl eq_refl Ht Hn) as Es.
  rewrite app_nil_r in Es. cbn [app] in Es. rewrite Es. by apply decodeKnownCount_tree.
Qed.

Lemma preferred_spec k ms cv av : Forall (λ m, good m.2) ms →
  (if (length (member k (decoded ms)) =? 0)%nat then av else cv) = preferred (tree_field k ms) cv av.
Proof.
  intros Hg. rewrite member_tree. destruct (tree_field k ms) as [j|] eqn:E; [|done]. apply (tree_field_good _ _ _ Hg) in E.
  by rewrite print_nonempty.
Qed.

Lemma unobserved_spec (a b c d e : option Z) :
  negb (bool_decide (is_Some a) || bool_decide (is_Some b) || bool_decide (is_Some c) || bool_decide (is_Some d) || bool_decide (is_Some e)) =
  bool_decide (mkUsageInput a b c d e = mkUsageInput None None None None None).
Proof. by destruct a, b, c, d, e. Qed.

Lemma parseJSONUsageObject_reads o : (∀ j, o = Some j → good j) →
  parseJSONUsageObject (match o with Some j => print j | None => [] end) = tree_usage o.
Proof.
  intros Hg. destruct o as [j|]; [|done]. specialize (Hg j eq_refl).
  unfold parseJSONUsageObject. rewrite print_nonempty by done. pose proof Hg as [Hok _]. rewrite (print_null _ _ Hok). cbn [orb].
  destruct j as [|b|lit|c|l|ms]; cbn [is_null tree_usage]; [done|by rewrite scan_not_object..|].
  destruct (good_object _ Hg) as (Ht' & Hn' & Hf). pose proof (scan_print knownUsageFields [] [] ms eq_refl eq_refl Ht' Hn') as Es'.
  rewrite app_nil_r in Es'. cbn [app] in Es'. rewrite Es'. rewrite !decodeKnownCount_tree, !decodeDetails_tree by done.
  repeat match goal with |- result_bind ?x _ = _ => destruct x; [cbn [result_bind]|done] end.
  by rewrite !preferred_spec, unobserved_spec by done.
Qed.

Lemma ParseJSONUsage_reads root :
  tree_ok root = true → distinct_keys (JObject root) = true →
  ParseJSONUsage (print (JObject root)) = tree_usage (tree_field (str "usage") root).
Proof.
  intros Ht Hd. cbn [distinct_keys] in Hd. apply andb_true_iff in Hd as [Hn%bool_decide_eq_true Hd].
  assert (Forall (λ m, good m.2) root) as Hg.
  { apply Forall_forall. intros m Hin%list_elem_of_In. unfold tree_ok in Ht. rewrite forallb_forall in Ht, Hd.
    split; [|by apply Hd]. by apply Ht, andb_true_iff in Hin as [_ ?]. }
  unfold ParseJSONUsage. rewrite print_object_trim, bool_decide_true by done. cbn [negb].
  pose proof (scan_print [str "usage"] [] [] root eq_refl eq_refl Ht) as Es. rewrite app_nil_r in Es. cbn [app] in Es.
  rewrite Es by (unfold decoded; by rewrite map_map). rewrite member_tree. apply parseJSONUsageObject_reads.
  intros j E. by apply (tree_field_good _ _ _ Hg) in E.
Qed.

(** The text parser computes the usage of the response tree.  For every
    response with distinct member names, in any spelling and order, reading its
    text gives what the tree says: [prompt_tokens] before [input_tokens] and
    [completion_tokens] before [output_tokens], but a malformed alias is an
    error; null or absent usage is not observed; the details of the canonical
    member, when it is there, before those of the alias; counts are
    non-negative integers or the usage is invalid. *)
Theorem ParseJSONUsage_spec root :
  tree_ok root = true → distinct_keys (JObject root) = true →
  ParseJSONUsage (print (JObject root)) = tree_usage (tree_field (str "usage") root).
Proof. apply ParseJSONUsage_reads. Qed.

Definition demo_usage_tree (flip : bool) : list (bytes * json) :=
  let ms := [(str "prompt_tokens", JNumber (str "12")); (str "input_tokens", JNumber (str "9"));
             (str "completion_tokens", JNumber (str "30"));
             (str "prompt_tokens_details", JObject [(str "cached_tokens", JNumber (str "4"))])] in
  [(str "id", JString (str "r1")); (str "usage", JObject (if flip then reverse ms else ms))].

Lemma ParseJSONUsage_spec_witness :
  ∃ usage, ParseJSONUsage (print (JObject (demo_usage_tree true))) = Ok (mkUsageResult usage true) ∧
  NewUsage (mkUsageInput (Some 12) (Some 30) None (Some 4) None) = Ok usage.
Proof.
  rewrite (ParseJSONUsage_spec (demo_usage_tree true)) by (vm_compute; reflexivity).
  eexists. split; vm_compute; reflexivity.
Defined.

(** The result does not depend on the order of the members: two usage
    objects with the same members, in any order, give the same result. *)
Theorem ParseJSONUsage_order ms ms' :
  json_ok maxNestingDepth (JObject ms) = true → distinct_keys (JObject ms) = true → ms ≡ₚ ms' →
  ParseJSONUsage (print (JObject [(str "usage", JObject ms)])) = ParseJSONUsage (print (JObject [(str "usage", JObject ms')])).
Proof.
  intros Hok Hd Hp. assert (json_ok maxNestingDepth (JObject ms') = true ∧ distinct_keys (JObject ms') = true) as [Hok' Hd'].
  { cbn [json_ok distinct_keys] in *. destruct maxNestingDepth; [done|]. split.
    - rewrite forallb_forall in *. intros m Hm%list_elem_of_In. apply Hok, list_elem_of_In. by rewrite Hp.
    - apply andb_true_iff in Hd as [Hn%bool_decide_eq_true Hd]. apply andb_true_iff. split; [apply bool_decide_eq_true; by rewrite <-Hp|].
      rewrite forallb_forall in *. intros m Hm%list_elem_of_In. apply Hd, list_elem_of_In. by rewrite Hp. }
  assert (∀ ms, json_ok maxNestingDepth (JObject ms) = true → distinct_keys (JObject ms) = true →
    ParseJSONUsage (print (JObject [(str "usage", JObject ms)])) = tree_usage (Some (JObject ms))) as Hspec.
  { clear. intros ms Hok Hd. rewrite ParseJSONUsage_reads; [done|..].
    - unfold tree_ok. cbn [forallb fst snd]. rewrite Hok. by rewrite (plain_content (str "usage")).
    - cbn [distinct_keys map forallb fst snd]. cbn [distinct_keys] in Hd. rewrite Hd. by rewrite bool_decide_true by apply NoDup_singleton. }
  rewrite !Hspec by done. cbn [tree_usage].
  assert (∀ k, tree_field k ms = tree_field k ms') as Hf.
  { intros k. apply field_Permutation; [|by rewrite Hp]. cbn [distinct_keys] in Hd. apply andb_true_iff in Hd as [Hn%bool_decide_eq_true _].
    by rewrite map_map. }
  by rewrite !Hf.
Qed.

Lemma ParseJSONUsage_order_witness :
  let usage flip := match tree_field (str "usage") (demo_usage_tree flip) with Some (JObject ms) => ms | _ => [] end in
  ParseJSONUsage (print (JObject [(str "usage", JObject (usage false))])) =
  ParseJSONUsage (print (JObject [(str "usage", JObject (usage true))])).
Proof.
  intros usage. apply (ParseJSONUsage_order (usage false) (usage true)); [vm_compute; reflexivity..|].
  vm_compute. symmetry. apply (reverse_Permutation [_; _; _; _]).
Defined.
