(* ===== verification/JsonCodec.v ===== *)
(** * Decoding into structs and encoding, as [encoding/json] does them

    [json.Unmarshal] into a struct skips the members it does not know; the
    streaming code keeps most fields as [json.RawMessage].  [json.Marshal]
    writes strings with the HTML-safe escapes.  The lemmas read back what is
    written. *)

From Stdlib Require Import Ascii ZArith Lia ZifyBool.
From stdpp Require Import prelude strings list.
From S2P Require Import Prelude Text Utf8 Json.
Local Open Scope Z_scope.

#[local] Arguments str : simpl never.

(** ** Structs *)

(** The members that a struct with the given field names takes, under the name
    of their field, in order; [null] sets nothing. *)
Definition known_members (names : list bytes) (ms : list (bytes * bytes)) : list (bytes * bytes) :=
  omap (λ m, (λ name, (name, m.2)) <$> struct_field names (unquote m.1)) ms.

Definition Unmarshal_fields (names : list bytes) (raw : bytes) : option (list (bytes * bytes)) :=
  match parse raw with
  | Some (SObject ms) => Some (known_members names ms)
  | Some SNull => Some []
  | _ => None
  end.

(** A field of type [json.RawMessage]: empty when no member set it, else the
    text of the last that did ([null] included). *)
Definition raw_field (name : bytes) (fields : list (bytes * bytes)) : bytes := default [] (field name fields).

(** Typed fields: each known member in turn updates the struct. *)
Fixpoint set_fields {A} (set : bytes → bytes → A → option A) (fields : list (bytes * bytes)) (x : A) : option A :=
  match fields with
  | [] => Some x
  | (name, raw) :: fields' => x' ← set name raw x; set_fields set fields' x'
  end.

Definition Unmarshal_known {A} (names : list bytes) (set : bytes → bytes → A → option A) (prev : A) (raw : bytes)
    : option A :=
  fields ← Unmarshal_fields names raw; set_fields set fields prev.

Lemma known_members_cons names k raw ms :
  known_members names ((k, raw) :: ms) =
  match struct_field names (unquote k) with Some name => (name, raw) :: known_members names ms | None => known_members names ms end.
Proof. unfold known_members. simpl. by destruct (struct_field names (unquote k)). Qed.

(** The members of a printed object whose names are exactly known fields. *)
Lemma known_members_exact names (ms : list (bytes * json)) :
  Forall (λ m, plain m.1 = true ∧ m.1 ∈ names) ms →
  known_members names (map (λ m, (m.1, print m.2)) ms) = map (λ m, (m.1, print m.2)) ms.
Proof.
  induction 1 as [|[k j] ms [Hp Hk] _ IH]; [done|]. cbn [map fst snd] in *. rewrite known_members_cons.
  rewrite plain_unquote by done. unfold struct_field. rewrite bool_decide_true by done. by rewrite IH.
Qed.

(** ** Strings

    [appendString] with HTML escaping. *)

Definition hex_digit (d : Z) : ascii := if d <? 10 then chr (48 + d) else chr (87 + d).

Definition html_safe (b : Z) : bool :=
  (32 <=? b) && (b <? 128) && negb (b =? 34) && negb (b =? 92) && negb (b =? 60) && negb (b =? 62) && negb (b =? 38).

Definition escape_byte (c : ascii) : bytes :=
  let b := code c in
  if html_safe b then [c]
  else if (b =? 92) || (b =? 34) then [backslash; c]
  else if b =? 8 then [backslash; "b"%char]
  else if b =? 12 then [backslash; "f"%char]
  else if b =? 10 then [backslash; "n"%char]
  else if b =? 13 then [backslash; "r"%char]
  else if b =? 9 then [backslash; "t"%char]
  else [backslash; "u"%char; "0"%char; "0"%char; hex_digit (b / 16); hex_digit (b mod 16)].

Fixpoint escape_loop (fuel : nat) (s : bytes) : bytes :=
  match fuel, s with
  | S fuel, c :: s1 =>
      if code c <? 128 then escape_byte c ++ escape_loop fuel s1
      else
        let '(r, w, ok) := DecodeRune s in
        if negb ok then backslash :: str "ufffd" ++ escape_loop fuel (drop w s)
        else if (r =? 8232) || (r =? 8233)
          then backslash :: str "u202" ++ [hex_digit (r mod 16)] ++ escape_loop fuel (drop w s)
        else take w s ++ escape_loop fuel (drop w s)
  | _, _ => []
  end.

Definition escape (s : bytes) : bytes := escape_loop (length s) s.

(** ** Reading back what is written *)

(** A piece of content that the scanner takes whole and that unquotes to [t]. *)
Definition piece (p t : bytes) : Prop :=
  (1 ≤ length p)%nat ∧
  (∀ s, scan_string (p ++ s) = '(x, r) ← scan_string s; Some (p ++ x, r)) ∧
  (∀ n s, (length (p ++ s) ≤ n)%nat → ∃ n', (length s ≤ n')%nat ∧ unquote_loop n (p ++ s) = t ++ unquote_loop n' s).

Lemma unquote_loop_fuel n m s : (length s ≤ n)%nat → (length s ≤ m)%nat → unquote_loop n s = unquote_loop m s.
Proof.
  revert m s. induction n as [|n IH]; intros m s Hn Hm.
  { destruct s; [by destruct m|simpl in Hn; lia]. }
  destruct s as [|c s1]; [by destruct m|]. destruct m as [|m]; [simpl in Hm; lia|]. simpl in Hn, Hm. cbn [unquote_loop].
  destruct (byte_eqb c backslash).
  - destruct s1 as [|e s2]; [done|]. destruct (byte_eqb e "u").
    + destruct (getu4 _) as [r|]; [|done]. destruct (is_surrogate r).
      * destruct (mbind _ _); f_equal; apply IH; rewrite ?length_drop; simpl in *; lia.
      * f_equal. apply IH; rewrite ?length_drop; simpl in *; lia.
    + f_equal. apply IH; simpl in *; lia.
  - destruct (DecodeRune (c :: s1)) as [[r w] ok] eqn:E. pose proof (DecodeRune_width _ _ _ _ _ E). f_equal.
    apply IH; rewrite length_drop; simpl; lia.
Qed.

Lemma pieces_read p t s c :
  piece p t → scan_string (s ++ [quote_char]) = Some (s, []) → unquote s = c →
  scan_string ((p ++ s) ++ [quote_char]) = Some (p ++ s, []) ∧ unquote (p ++ s) = t ++ c.
Proof.
  intros (_ & Hs & Hu) H1 H2. rewrite <-app_assoc, Hs, H1. split; [done|]. unfold unquote in *.
  destruct (Hu (length (p ++ s)) s (Nat.le_refl _)) as (n' & Hn & ->). f_equal. rewrite <-H2. by apply unquote_loop_fuel.
Qed.

Lemma piece_safe c : 32 <= code c < 128 → c ≠ quote_char → c ≠ backslash → piece [c] [c].
Proof.
  intros H Hq Hb. split_and!; [simpl; lia|..].
  - intros s. cbn [app scan_string]. unfold byte_eqb. rewrite !bool_decide_false by done.
    destruct (Z.ltb_spec (code c) 32); [lia|]. by destruct (scan_string s) as [[x r]|].
  - intros n s Hn. destruct n as [|n]; [simpl in Hn; lia|]. exists n. simpl in Hn. split; [lia|]. cbn [app unquote_loop].
    unfold byte_eqb. rewrite bool_decide_false by done. cbn [DecodeRune]. destruct (Z.ltb_spec (code c) 128); [|lia].
    rewrite EncodeRune_ascii by lia. cbn [app drop]. by rewrite drop_0.
Qed.

Lemma piece_simple e : simple_escape e = true → piece [backslash; e] [escape_char e].
Proof.
  intros He. assert (byte_eqb e "u" = false) as Hu.
  { apply bool_decide_false. intros ->. by vm_compute in He. }
  split_and!; [simpl; lia|..].
  - intros s. cbn [app scan_string]. rewrite He. change (byte_eqb backslash quote_char) with false.
    change (byte_eqb backslash backslash) with true. cbn iota. by destruct (scan_string s) as [[x r]|].
  - intros n s Hn. destruct n as [|n]; [simpl in Hn; lia|]. exists n. simpl in Hn. split; [lia|]. cbn [app unquote_loop].
    change (byte_eqb backslash backslash) with true. cbn iota. by rewrite Hu.
Qed.

Lemma piece_u4 h1 h2 h3 h4 r :
  forallb is_hex [h1; h2; h3; h4] = true → 4096 * hex_value h1 + 256 * hex_value h2 + 16 * hex_value h3 + hex_value h4 = r →
  is_surrogate r = false → piece [backslash; "u"%char; h1; h2; h3; h4] (EncodeRune r).
Proof.
  intros Hh Hr Hs. split_and!; [simpl; lia|..].
  - intros s. cbn [app scan_string]. change (byte_eqb backslash quote_char) with false.
    change (byte_eqb backslash backslash) with true. change (simple_escape "u") with false. change (byte_eqb "u" "u") with true.
    cbn iota. rewrite Hh. by destruct (scan_string s) as [[x q]|].
  - intros n s Hn. destruct n as [|n]; [simpl in Hn; lia|]. exists n. simpl in Hn. split; [lia|]. cbn [app unquote_loop].
    change (byte_eqb backslash backslash) with true. change (byte_eqb "u" "u") with true. cbn iota. unfold getu4.
    change (byte_eqb backslash backslash) with true. change (byte_eqb "u" "u") with true. rewrite Hh. cbn [andb]. cbn iota.
    rewrite Hr, Hs. cbn [drop]. done.
Qed.

Lemma hex_digit_spec d : 0 <= d < 16 → is_hex (hex_digit d) = true ∧ hex_value (hex_digit d) = d.
Proof.
  intros H. unfold hex_digit, is_hex, hex_value, is_digit.
  destruct (Z.ltb_spec d 10); rewrite !code_chr by lia.
  - destruct (Z.leb_spec 48 (48 + d)); [|lia]. destruct (Z.leb_spec (48 + d) 57); [|lia]. simpl. lia.
  - destruct (Z.leb_spec (87 + d) 57); [lia|]. rewrite andb_false_r. destruct (Z.leb_spec 97 (87 + d)); [|lia]. lia.
Qed.

Lemma code_eq c z : 0 <= z < 256 → code c = z → c = chr z.
Proof. intros _ <-. by rewrite chr_code. Qed.

Lemma piece_byte c : code c < 128 → piece (escape_byte c) [c].
Proof.
  intros H. pose proof (code_range c). unfold escape_byte.
  assert (∀ z p, 0 <= z < 256 → code c = z → piece p [chr z] → piece p [c]) as Hz.
  { intros z p Hr E Hp. by rewrite (code_eq c z Hr E). }
  destruct (html_safe (code c)) eqn:Es.
  { unfold html_safe in Es. apply piece_safe; [lia|..]; intros ->; by vm_compute in Es. }
  destruct ((code c =? 92) || (code c =? 34)) eqn:E1.
  { assert (code c = 92 ∨ code c = 34) as [E|E] by lia; apply code_eq in E as ->; try lia;
      [apply (piece_simple backslash eq_refl)|apply (piece_simple quote_char eq_refl)]. }
  destruct (Z.eqb_spec (code c) 8) as [E|]; [by apply (Hz 8 _ ltac:(lia) E), (piece_simple "b" eq_refl)|].
  destruct (Z.eqb_spec (code c) 12) as [E|]; [by apply (Hz 12 _ ltac:(lia) E), (piece_simple "f" eq_refl)|].
  destruct (Z.eqb_spec (code c) 10) as [E|]; [by apply (Hz 10 _ ltac:(lia) E), (piece_simple "n" eq_refl)|].
  destruct (Z.eqb_spec (code c) 13) as [E|]; [by apply (Hz 13 _ ltac:(lia) E), (piece_simple "r" eq_refl)|].
  destruct (Z.eqb_spec (code c) 9) as [E|]; [by apply (Hz 9 _ ltac:(lia) E), (piece_simple "t" eq_refl)|].
  rewrite <-(EncodeRune_ascii c) by done.
  destruct (hex_digit_spec (code c / 16)) as [Hd1 Hd2]; [div_lia|]. destruct (hex_digit_spec (code c mod 16)) as [Hm1 Hm2]; [div_lia|].
  apply piece_u4.
  - cbn [forallb]. by rewrite Hd1, Hm1.
  - rewrite Hd2, Hm2. change (hex_value "0") with 0. div_lia.
  - unfold is_surrogate. lia.
Qed.

Lemma scan_high p s : Forall (λ c, 128 <= code c) p → scan_string (p ++ s) = '(x, r) ← scan_string s; Some (p ++ x, r).
Proof.
  induction 1 as [|c p Hc _ IH]; [cbn [app]; by destruct (scan_string s) as [[??]|]|]. cbn [app scan_string]. unfold byte_eqb.
  rewrite !bool_decide_false by (intros ->; by apply Hc). destruct (Z.ltb_spec (code c) 32); [lia|].
  rewrite IH. by destruct (scan_string s) as [[x r]|].
Qed.

Lemma EncodeRune_high r : 128 <= r → Forall (λ c, 128 <= code c) (EncodeRune r).
Proof.
  intros Hr. unfold EncodeRune. set (q := if valid_rune r then r else RuneError).
  assert (128 <= q <= 1114111) as Hq.
  { subst q. destruct (valid_rune r) eqn:E; [apply valid_rune_spec in E; lia|unfold RuneError; lia]. }
  clearbody q. destruct (Z.ltb_spec q 128); [lia|]. destruct (Z.ltb_spec q 2048); [|destruct (Z.ltb_spec q 65536)];
    repeat constructor; rewrite code_chr; div_lia.
Qed.

Lemma piece_rune r : valid_rune r = true → 128 <= r → piece (EncodeRune r) (EncodeRune r).
Proof.
  intros Hv Hr. pose proof (EncodeRune_length r). pose proof (EncodeRune_high r Hr) as Hh. split_and!; [lia|..].
  - intros s. by apply scan_high.
  - intros n s Hn. rewrite length_app in Hn. destruct n as [|n]; [lia|]. exists n. split; [lia|].
    pose proof (DecodeRune_EncodeRune r s Hv) as Hd. destruct (EncodeRune r) as [|c p] eqn:E; [simpl in *; lia|].
    inv Hh. cbn [app unquote_loop] in *. unfold byte_eqb at 1. rewrite bool_decide_false by (intros ->; done).
    rewrite Hd, E. f_equal. change (c :: p ++ s) with ((c :: p) ++ s). by rewrite drop_app_length.
Qed.

(** Every text is written as a content that reads back as its runes: a byte
    that is not UTF-8 becomes U+FFFD. *)
Lemma escape_reads fuel s : (length s ≤ fuel)%nat →
  scan_string (escape_loop fuel s ++ [quote_char]) = Some (escape_loop fuel s, []) ∧
  unquote (escape_loop fuel s) = encode (runes_fuel fuel s).
Proof.
  revert s. induction fuel as [|fuel IH]; intros s Hf; [by destruct s; [|simpl in Hf; lia]|].
  destruct s as [|c s1]; [done|]. cbn [escape_loop runes_fuel]. simpl in Hf.
  destruct (DecodeRune (c :: s1)) as [[r w] ok] eqn:D. unfold encode. cbn [map concat].
  destruct (IH (drop w (c :: s1))) as [IH1 IH2].
  { pose proof (DecodeRune_width _ _ _ _ _ D). rewrite length_drop. simpl. lia. }
  assert (code c < 128 → EncodeRune r = [c] ∧ w = 1%nat) as Hascii.
  { intros H. cbn [DecodeRune] in D. destruct (Z.ltb_spec (code c) 128); [|lia]. injection D as <- <- _. by rewrite EncodeRune_ascii. }
  destruct (Z.ltb_spec (code c) 128) as [Hc|Hc].
  { destruct (Hascii Hc) as [-> ->]. rewrite skipn_cons, drop_0 in *. by apply pieces_read; [apply piece_byte|..]. }
  destruct ok; cbn [negb].
  - destruct (DecodeRune_valid _ _ _ D) as (Hv & E & Hw).
    assert (take w (c :: s1) = EncodeRune r) as Ht.
    { rewrite E at 1. by rewrite Hw, take_app_length. }
    assert (128 <= r) as Hr.
    { destruct (Z.ltb_spec r 128); [|lia]. assert (∃ q, code q = r) as [q <-].
      { exists (chr r). apply code_chr. apply valid_rune_spec in Hv. lia. }
      rewrite EncodeRune_ascii in E by lia. injection E as -> _. lia. }
    destruct ((r =? 8232) || (r =? 8233)) eqn:El; [|rewrite Ht; by apply pieces_read; [apply piece_rune|..]].
    change (backslash :: str "u202" ++ [hex_digit (r mod 16)] ++ escape_loop fuel (drop w (c :: s1)))
      with ([backslash; "u"; "2"; "0"; "2"; hex_digit (r mod 16)]%char ++ escape_loop fuel (drop w (c :: s1))).
    apply pieces_read; [|done..]. assert (r = 8232 ∨ r = 8233) as [-> | ->] by lia; by apply piece_u4.
  - change (backslash :: str "ufffd" ++ escape_loop fuel (drop w (c :: s1)))
      with ([backslash; "u"; "f"; "f"; "f"; "d"]%char ++ escape_loop fuel (drop w (c :: s1))).
    apply DecodeRune_invalid in D as [-> ->]. apply pieces_read; [by apply piece_u4|done..].
Qed.

Lemma escape_content s : content_ok (escape s) = true.
Proof. apply bool_decide_eq_true, (escape_reads (length s) s). lia. Qed.

Lemma unquote_escape_runes s : unquote (escape s) = encode (runes s).
Proof. apply (escape_reads (length s) s). lia. Qed.

Lemma unquote_escape s : ValidString s = true → unquote (escape s) = s.
Proof. intros H. by rewrite unquote_escape_runes, encode_runes. Qed.

(** ** Numbers *)

Lemma skip_digits_all s : forallb is_digit s = true → skip_digits s = [].
Proof. induction s as [|c s IH]; simpl; [done|]. by intros [-> ?]%andb_true_iff; auto. Qed.

Lemma format_digits_literal n : 0 <= n <= - minInt64 →
  ∃ ds, format_digits 20 n [] = ds ∧ forallb is_digit ds = true ∧ digits_value ds = n ∧ ds ≠ [] ∧ scan_integer ds = Some [].
Proof.
  intros Hn. destruct (format_digits_spec 20 n []) as (ds & -> & D & V & N0 & N1 & L); [unfold minInt64 in *; lia|].
  rewrite app_nil_r. exists ds. assert (ds ≠ []) as Hne by (destruct (decide (n = 0)); [apply N0; [done|lia]|apply N1; lia]).
  split_and!; try done. destruct ds as [|c ds]; [done|]. cbn [scan_integer]. simpl in D. apply andb_true_iff in D as [Dc D].
  unfold byte_eqb. destruct (bool_decide_reflect (c = zero_char)) as [->|]; [|by rewrite Dc, skip_digits_all].
  f_equal. destruct ds as [|d ds]; [done|]. exfalso. specialize (L (length (d :: ds))). simpl length in L.
  change (zero_char :: d :: ds) with ([zero_char] ++ d :: ds) in V. rewrite digits_value_app in V.
  change (digits_value [zero_char]) with 0 in V. pose proof (digits_value_bound _ D). simpl length in *. lia.
Qed.

(** An [int64] is written as a literal that reads back. *)
Lemma FormatInt_reads n : int64 n → number_ok (FormatInt n) = true ∧ ParseInt (FormatInt n) = Ok n.
Proof.
  intros Hn. unfold FormatInt. destruct (Z.ltb_spec n 0) as [Hneg|Hpos].
  - destruct (format_digits_literal (- n)) as (ds & -> & D & V & Hne & Hs); [lia64|]. split.
    + apply bool_decide_eq_true. unfold scan_number. change (byte_eqb minus_char minus_char) with true. cbn iota. by rewrite Hs.
    + unfold ParseInt. change (byte_eqb minus_char minus_char) with true. cbn iota. rewrite bool_decide_false, D by done.
      cbn [negb orb]. rewrite V, Z.opp_involutive. by rewrite (proj2 (orb_false_iff _ _)) by (split; lia64).
  - destruct (format_digits_literal n) as (ds & -> & D & V & Hne & Hs); [lia64|]. split.
    + apply bool_decide_eq_true. unfold scan_number. destruct ds as [|c ds]; [done|]. pose proof D as D'. simpl in D'.
      apply andb_true_iff in D' as [Dc _]. apply is_digit_not_sign in Dc as [-> _]. by rewrite Hs.
    + rewrite ParseInt_digits by done. rewrite V. by destruct (Z.ltb_spec maxInt64 n); [lia64|].
Qed.
