(* ===== verification/ChatObserver.v ===== *)
(** * The streaming observer ([internal/protocol/openai/observer.go])

    One complete server-sent event at a time: the chunk is decoded leniently
    (a part of the wrong type is dropped), its usage strictly, and the choices,
    the envelope metadata and the merged usage are recorded. *)

From Stdlib Require Import Ascii ZArith Lia ZifyBool.
From stdpp Require Import prelude strings list gmap.
From S2P Require Import Prelude Text Utf8 Usage SSEParser Json JsonCodec UsageJson.
Local Open Scope Z_scope.

#[local] Arguments str : simpl never.
#[local] Opaque maxNestingDepth.

Lemma omap_step {A B} (f : A → option B) x l :
  omap f (x :: l) = match f x with Some y => y :: omap f l | None => omap f l end.
Proof. done. Qed.

(** ** Data *)

Inductive observe_error := ErrMalformedStreamChunk | ErrInvalidUsage.

(** The pointer-shaped projection beside the canonical value. *)
Record UsageObservation := mkUsageObservation {
  uo_Usage : Usage;
  uo_InputTokens : option Z;
  uo_OutputTokens : option Z;
  uo_TotalTokens : option Z;
}.

Record ToolCallFunctionObservation := mkFunctionObservation { tf_Name : bytes; tf_Arguments : bytes }.

Record ToolCallObservation := mkToolCallObservation {
  tc_Index : Z;
  tc_ID : bytes;
  tc_Type : bytes;
  tc_Function : ToolCallFunctionObservation;
}.

(** A nil slice and an empty one are not told apart. *)
Record DeltaObservation := mkDelta {
  do_Role : option bytes;
  do_Content : option bytes;
  do_ToolCalls : list ToolCallObservation;
}.

Record ChoiceObservation := mkChoiceObservation {
  co_Index : Z;
  co_Delta : DeltaObservation;
  co_FinishReason : option bytes;
  co_FinishReasonPresent : bool;
}.

Record ObserverState := mkObserverState {
  os_EventsObserved : Z;
  os_DoneObserved : bool;
  os_Choices : list ChoiceObservation;
  os_LatestFinishReasons : gmap Z bytes;
  os_Usage : UsageObservation;
}.

Record ResponseMetadata := mkMetadata { md_ID : bytes; md_Model : bytes; md_Created : option Z }.

Record Observer := mkObserver { ob_state : ObserverState; ob_metadata : ResponseMetadata }.

Definition noUsageObservation : UsageObservation := mkUsageObservation emptyUsage None None None.
Definition emptyMetadata : ResponseMetadata := mkMetadata [] [] None.
Definition emptyDelta : DeltaObservation := mkDelta None None [].

Definition NewObserver : Observer := mkObserver (mkObserverState 0 false [] ∅ noUsageObservation) emptyMetadata.

(** ** Raw structs *)

Record streamChunk := mkChunk {
  ch_ID : bytes; ch_Object : bytes; ch_Created : bytes; ch_Model : bytes; ch_Choices : bytes; ch_Usage : bytes }.
Record streamChoice := mkStreamChoice { sc_Index : bytes; sc_Delta : bytes; sc_Message : bytes; sc_FinishReason : bytes }.
Record streamDelta := mkStreamDelta { sd_Role : bytes; sd_Content : bytes; sd_ToolCalls : bytes }.
Record streamToolCall := mkStreamToolCall { st_Index : bytes; st_ID : bytes; st_Type : bytes; st_Function : bytes }.
Record streamToolCallFunction := mkStreamFunction { sf_Name : bytes; sf_Arguments : bytes }.
Record responseCompletionEnvelope := mkCompletionEnvelope { ce_Response : bytes }.
Record responseUsageEnvelope := mkUsageEnvelope { ue_Usage : bytes }.

Definition streamChunk_fields : list bytes := [str "id"; str "object"; str "created"; str "model"; str "choices"; str "usage"].
Definition streamChoice_fields : list bytes := [str "index"; str "delta"; str "message"; str "finish_reason"].
Definition streamDelta_fields : list bytes := [str "role"; str "content"; str "tool_calls"].
Definition streamToolCall_fields : list bytes := [str "index"; str "id"; str "type"; str "function"].
Definition streamToolCallFunction_fields : list bytes := [str "name"; str "arguments"].

Definition Unmarshal_streamChunk (raw : bytes) : option streamChunk :=
  fs ← Unmarshal_fields streamChunk_fields raw;
  Some (mkChunk (raw_field (str "id") fs) (raw_field (str "object") fs) (raw_field (str "created") fs)
          (raw_field (str "model") fs) (raw_field (str "choices") fs) (raw_field (str "usage") fs)).

Definition Unmarshal_streamChoice (raw : bytes) : option streamChoice :=
  fs ← Unmarshal_fields streamChoice_fields raw;
  Some (mkStreamChoice (raw_field (str "index") fs) (raw_field (str "delta") fs) (raw_field (str "message") fs)
          (raw_field (str "finish_reason") fs)).

Definition Unmarshal_streamDelta (raw : bytes) : option streamDelta :=
  fs ← Unmarshal_fields streamDelta_fields raw;
  Some (mkStreamDelta (raw_field (str "role") fs) (raw_field (str "content") fs) (raw_field (str "tool_calls") fs)).

Definition Unmarshal_streamToolCall (raw : bytes) : option streamToolCall :=
  fs ← Unmarshal_fields streamToolCall_fields raw;
  Some (mkStreamToolCall (raw_field (str "index") fs) (raw_field (str "id") fs) (raw_field (str "type") fs)
          (raw_field (str "function") fs)).

Definition Unmarshal_streamToolCallFunction (raw : bytes) : option streamToolCallFunction :=
  fs ← Unmarshal_fields streamToolCallFunction_fields raw;
  Some (mkStreamFunction (raw_field (str "name") fs) (raw_field (str "arguments") fs)).

Definition Unmarshal_completionEnvelope (raw : bytes) : option responseCompletionEnvelope :=
  fs ← Unmarshal_fields [str "response"] raw; Some (mkCompletionEnvelope (raw_field (str "response") fs)).
Definition Unmarshal_usageEnvelope (raw : bytes) : option responseUsageEnvelope :=
  fs ← Unmarshal_fields [str "usage"] raw; Some (mkUsageEnvelope (raw_field (str "usage") fs)).

(** ** Lenient values: what has the wrong type is as if absent *)

(** The guard [len(raw) == 0 || bytes.Equal(bytes.TrimSpace(raw), "null")]. *)
Definition absent (raw : bytes) : bool := (length raw =? 0)%nat || isJSONNull raw.

Definition decodeInt (raw : bytes) : Z :=
  if absent raw then 0 else default 0 (Unmarshal_int64 0 raw).

Definition decodeStringPointer (raw : bytes) : option bytes :=
  if absent raw then None else Unmarshal_string [] raw.

Definition decodeString (raw : bytes) : bytes := default [] (decodeStringPointer raw).

Definition decodeToolCall (rawCall : bytes) : option ToolCallObservation :=
  call ← Unmarshal_streamToolCall rawCall;
  Some (mkToolCallObservation (decodeInt (st_Index call)) (decodeString (st_ID call)) (decodeString (st_Type call))
    (if absent (st_Function call) then mkFunctionObservation [] []
     else
       match Unmarshal_streamToolCallFunction (st_Function call) with
       | Some function => mkFunctionObservation (decodeString (sf_Name function)) (decodeString (sf_Arguments function))
       | None => mkFunctionObservation [] []
       end)).

Definition decodeToolCalls (raw : bytes) : list ToolCallObservation :=
  if absent raw then []
  else
    match Unmarshal_raws raw with
    | Some calls => omap decodeToolCall (default [] calls)
    | None => []
    end.

Definition decodeDelta (raw : bytes) : DeltaObservation :=
  if absent raw then emptyDelta
  else
    match Unmarshal_streamDelta raw with
    | Some delta => mkDelta (decodeStringPointer (sd_Role delta)) (decodeStringPointer (sd_Content delta))
                      (decodeToolCalls (sd_ToolCalls delta))
    | None => emptyDelta
    end.

(** ** Choices *)

(** One element of [choices]; a choice without a delta is taken from its message. *)
Definition decodeChoice (rawChoice : bytes) : option ChoiceObservation :=
  choice ← Unmarshal_streamChoice rawChoice;
  let delta := if (length (sc_Delta choice) =? 0)%nat then decodeDelta (sc_Message choice) else decodeDelta (sc_Delta choice) in
  let present := negb (length (sc_FinishReason choice) =? 0)%nat in
  Some (mkChoiceObservation (decodeInt (sc_Index choice)) delta
    (if present then decodeStringPointer (sc_FinishReason choice) else None) present).

Definition addChoice (state : ObserverState) (observation : ChoiceObservation) : ObserverState :=
  mkObserverState (os_EventsObserved state) (os_DoneObserved state) (os_Choices state ++ [observation])
    (match co_FinishReason observation with
     | Some reason => <[co_Index observation := reason]> (os_LatestFinishReasons state)
     | None => os_LatestFinishReasons state
     end)
    (os_Usage state).

Definition observeChoices (raw : bytes) (state : ObserverState) : ObserverState :=
  if absent raw then state
  else
    match Unmarshal_raws raw with
    | None => state
    | Some choices => foldl addChoice state (omap decodeChoice (default [] choices))
    end.

(** ** Usage *)

Definition optionalInt64 (value : Z) (known : bool) : option Z := if known then Some value else None.

(** The five components with their types erased. *)
Definition TotalWasObserved (u : Usage) : bool := bool_decide (usage_totalSource u = TotalObserved).
Definition value_of (c : TokenCount) : option Z := optionalInt64 (tc_value c) (tc_known c).

(** Later known values replace earlier ones. *)
Definition latest (current update : option Z) : option Z := match update with Some _ => update | None => current end.

Definition mergeCanonicalUsage (current update : Usage) : result count_error Usage :=
  let input := latest (value_of (input_count (usage_input current))) (value_of (input_count (usage_input update))) in
  let output := latest (value_of (output_count (usage_output current))) (value_of (output_count (usage_output update))) in
  let updated := if TotalWasObserved update then value_of (total_count (usage_total update)) else None in
  let total :=
    match updated with
    | Some _ => updated
    | None => if TotalWasObserved current then value_of (total_count (usage_total current)) else None
    end in
  let cached := latest (value_of (cached_input_count (usage_cachedInput current))) (value_of (cached_input_count (usage_cachedInput update))) in
  let reasoning :=
    latest (value_of (reasoning_output_count (usage_reasoningOutput current))) (value_of (reasoning_output_count (usage_reasoningOutput update))) in
  NewUsage (mkUsageInput input output total cached reasoning).

(** [meaningfulUsage] and [usageObservationKnown]: some component is known. *)
Definition usageKnown (u : Usage) : bool :=
  tc_known (input_count (usage_input u)) || tc_known (output_count (usage_output u)) || tc_known (total_count (usage_total u))
  || tc_known (cached_input_count (usage_cachedInput u)) || tc_known (reasoning_output_count (usage_reasoningOutput u)).

Definition mergeUsageObservation (current update : UsageObservation) : UsageObservation :=
  mkUsageObservation
    (if usageKnown (uo_Usage update) then
       match mergeCanonicalUsage (uo_Usage current) (uo_Usage update) with Ok canonical => canonical | Err _ => uo_Usage current end
     else uo_Usage current)
    (latest (uo_InputTokens current) (uo_InputTokens update))
    (latest (uo_OutputTokens current) (uo_OutputTokens update))
    (latest (uo_TotalTokens current) (uo_TotalTokens update)).

Definition usageObservationFromCanonical (usage : Usage) : UsageObservation :=
  mkUsageObservation usage (value_of (input_count (usage_input usage))) (value_of (output_count (usage_output usage)))
    (if TotalWasObserved usage then value_of (total_count (usage_total usage)) else None).

Definition isResponsesCompletionEvent (event : SSEEvent) (data : bytes) : bool :=
  if bool_decide (se_Event event = str "response.completed") then true
  else
    match Unmarshal_fields [str "type"] data with
    | None => false
    | Some fs => bool_decide (Unmarshal_string [] (raw_field (str "type") fs) = Some (str "response.completed"))
    end.

Definition usage_result {A} (r : result usage_json_error A) : result observe_error A :=
  match r with Ok a => Ok a | Err _ => Err ErrInvalidUsage end.

(** [None] is usage that was not observed. *)
Definition observeEventUsage (event : SSEEvent) (data root : bytes) : result observe_error (option Usage) :=
  let? rootResult := usage_result (parseJSONUsageObject root) in
  let observed := if ur_Observed rootResult then Some (ur_Usage rootResult) else None in
  if negb (isResponsesCompletionEvent event data) then Ok observed
  else
    match scanKnownObjectMembers data [str "response"] with
    | Err _ => Err ErrInvalidUsage
    | Ok _ =>
        match Unmarshal_completionEnvelope data with
        | None => Err ErrInvalidUsage
        | Some envelope =>
            if absent (ce_Response envelope) then Ok observed
            else
              match scanKnownObjectMembers (ce_Response envelope) [str "usage"] with
              | Err _ => Err ErrInvalidUsage
              | Ok _ =>
                  match Unmarshal_usageEnvelope (ce_Response envelope) with
                  | None => Err ErrInvalidUsage
                  | Some response =>
                      let? responseResult := usage_result (parseJSONUsageObject (ue_Usage response)) in
                      if ur_Observed responseResult then
                        match observed with
                        | Some usage =>
                            match mergeCanonicalUsage usage (ur_Usage responseResult) with
                            | Ok merged => Ok (Some merged)
                            | Err _ => Err ErrInvalidUsage
                            end
                        | None => Ok (Some (ur_Usage responseResult))
                        end
                      else Ok observed
                  end
              end
        end
    end.

(** ** Metadata: the first non-empty value of each field *)

Definition first_string (current raw : bytes) : bytes :=
  if bool_decide (current = []) then default [] (Unmarshal_string [] raw) else current.

Definition observeMetadata (chunk : streamChunk) (metadata : ResponseMetadata) : ResponseMetadata :=
  mkMetadata (first_string (md_ID metadata) (ch_ID chunk)) (first_string (md_Model metadata) (ch_Model chunk))
    (match md_Created metadata with
     | Some created => Some created
     | None =>
         if (length (ch_Created chunk) =? 0)%nat then None
         else
           let value := TrimSpace (ch_Created chunk) in
           if bool_decide (value = str "null") then None else Unmarshal_int64 0 value
     end).

(** ** One event *)

Definition done_data : bytes := str "[DONE]".

(** The observer after a chunk whose usage, if it had any, merged to [canonical]. *)
Definition record_chunk (chunk : streamChunk) (canonical : option Usage) (observer : Observer) : Observer :=
  let s := ob_state observer in
  let s := mkObserverState (add64 (os_EventsObserved s) 1) (os_DoneObserved s) (os_Choices s) (os_LatestFinishReasons s) (os_Usage s) in
  let s := observeChoices (ch_Choices chunk) s in
  let s :=
    match canonical with
    | Some usage => mkObserverState (os_EventsObserved s) (os_DoneObserved s) (os_Choices s) (os_LatestFinishReasons s)
                      (usageObservationFromCanonical usage)
    | None => s
    end in
  mkObserver s (observeMetadata chunk (ob_metadata observer)).

(** An error leaves the observer as it was. *)
Definition Observer_Observe (event : SSEEvent) (observer : Observer) : result observe_error Observer :=
  if bool_decide (se_Data event = done_data) then
    let s := ob_state observer in
    Ok (mkObserver (mkObserverState (os_EventsObserved s) true (os_Choices s) (os_LatestFinishReasons s) (os_Usage s))
          (ob_metadata observer))
  else
    let data := TrimSpace (se_Data event) in
    if negb (bool_decide (head data = Some "{"%char)) then Err ErrMalformedStreamChunk
    else
      match scanKnownObjectMembers data [str "usage"] with
      | Err DuplicateKnown => Err ErrInvalidUsage
      | Err Malformed => Err ErrMalformedStreamChunk
      | Ok _ =>
          match Unmarshal_streamChunk data with
          | None => Err ErrMalformedStreamChunk
          | Some chunk =>
              let? observed := observeEventUsage event data (ch_Usage chunk) in
              match observed with
              | None => Ok (record_chunk chunk None observer)
              | Some usage =>
                  match mergeCanonicalUsage (uo_Usage (os_Usage (ob_state observer))) usage with
                  | Err _ => Err ErrInvalidUsage
                  | Ok canonical => Ok (record_chunk chunk (Some canonical) observer)
                  end
              end
          end
      end.

(** ** Merging usage is merging the counts it was made from *)

Definition inputs_of (u : Usage) : UsageInput :=
  mkUsageInput (value_of (input_count (usage_input u))) (value_of (output_count (usage_output u)))
    (if TotalWasObserved u then value_of (total_count (usage_total u)) else None)
    (value_of (cached_input_count (usage_cachedInput u))) (value_of (reasoning_output_count (usage_reasoningOutput u))).

Definition latest_inputs (a b : UsageInput) : UsageInput :=
  mkUsageInput (latest (ui_Input a) (ui_Input b)) (latest (ui_Output a) (ui_Output b)) (latest (ui_Total a) (ui_Total b))
    (latest (ui_CachedInput a) (ui_CachedInput b)) (latest (ui_ReasoningOutput a) (ui_ReasoningOutput b)).

Lemma mergeCanonicalUsage_inputs current update :
  mergeCanonicalUsage current update = NewUsage (latest_inputs (inputs_of current) (inputs_of update)).
Proof. unfold mergeCanonicalUsage, latest_inputs, latest, inputs_of. simpl. done. Qed.

Lemma NewTokenCount_value v x : NewTokenCount v = Ok x → value_of x = Some v.
Proof. unfold NewTokenCount. destruct (v <? 0); [done|]. by intros [= <-]. Qed.

Lemma NewUsage_inputs input u : NewUsage input = Ok u → inputs_of u = input.
Proof.
  destruct input as [i o t c r]. unfold NewUsage. cbn [ui_Input ui_Output ui_Total ui_CachedInput ui_ReasoningOutput].
  intros (xi & Ei & (xo & Eo & (xc & Ec & (xr & Er & H)%result_bind_Ok)%result_bind_Ok)%result_bind_Ok)%result_bind_Ok.
  assert (value_of (input_count xi) = i) as Hi.
  { destruct i; simpl in Ei; [apply result_bind_Ok in Ei as (x & Ex%NewTokenCount_value & [= <-])|injection Ei as <-]; done. }
  assert (value_of (output_count xo) = o) as Ho.
  { destruct o; simpl in Eo; [apply result_bind_Ok in Eo as (x & Ex%NewTokenCount_value & [= <-])|injection Eo as <-]; done. }
  assert (value_of (cached_input_count xc) = c) as Hc.
  { destruct c; simpl in Ec; [apply result_bind_Ok in Ec as (x & Ex%NewTokenCount_value & [= <-])|injection Ec as <-]; done. }
  assert (value_of (reasoning_output_count xr) = r) as Hr.
  { destruct r; simpl in Er; [apply result_bind_Ok in Er as (x & Ex%NewTokenCount_value & [= <-])|injection Er as <-]; done. }
  unfold inputs_of. destruct t as [t|].
  - apply result_bind_Ok in H as (xt & Et & [= <-]). unfold NewTotalTokens in Et.
    apply result_bind_Ok in Et as (x & Ex%NewTokenCount_value & [= <-]). cbn. by rewrite Hi, Ho, Hc, Hr, Ex.
  - destruct (_ && _); [apply result_bind_Ok in H as (x & _ & [= <-])|injection H as <-]; cbn; by rewrite Hi, Ho, Hc, Hr.
Qed.

(** A usage merged into an empty one is itself. *)
Lemma merge_empty input u : NewUsage input = Ok u → mergeCanonicalUsage emptyUsage u = Ok u.
Proof.
  intros H. rewrite mergeCanonicalUsage_inputs, (NewUsage_inputs _ _ H). rewrite <-H. f_equal. destruct input as [[] [] [] [] []]; done.
Qed.

(** The duplicate check compares exact names, the decoder does not: a later
    member that differs in case replaces the usage of the chunk. *)
Example observe_usage_case_variant :
  let usage n := JObject [(str "prompt_tokens", JNumber (str n))] in
  (λ o, uo_InputTokens (os_Usage (ob_state o))) <$>
    (match Observer_Observe (mkEvent [] (print (JObject [(str "usage", usage "900"%string); (str "Usage", usage "1"%string)]))) NewObserver with
     | Ok o => Some o | Err _ => None end) = Some (Some 1) ∧
  Observer_Observe (mkEvent [] (print (JObject [(str "usage", usage "900"%string); (str "usage", usage "1"%string)]))) NewObserver = Err ErrInvalidUsage.
Proof. split; vm_compute; reflexivity. Qed.
