(* ===== verification/ChatAccumulator.v ===== *)
(** * The chat accumulator ([internal/protocol/openai/accumulator.go])

    Collects observed choices by their index, with a limit on the bytes of
    content and arguments.  [Accumulate] works on a copy and either installs it
    or becomes terminal. *)

From Stdlib Require Import Ascii ZArith Lia ZifyBool.
From stdpp Require Import prelude strings list gmap.
From S2P Require Import Prelude Text Usage ChatObserver.
Local Open Scope Z_scope.

(** ** Data *)

Inductive accumulator_error := ErrInvalidAccumulatorLimit | ErrAccumulatorOverflow.

Record AccumulatedMessage := mkMessage { am_Role : bytes; am_Content : bytes }.
Record AccumulatedFunction := mkFunction { af_Name : bytes; af_Arguments : bytes }.
Record AccumulatedToolCall := mkToolCall { at_Index : Z; at_ID : bytes; at_Type : bytes; at_Function : AccumulatedFunction }.
Record AccumulatedChoice := mkChoice {
  ac_Index : Z;
  ac_Message : AccumulatedMessage;
  ac_ToolCalls : list AccumulatedToolCall;
  ac_FinishReason : option bytes;
  ac_FinishReasonPresent : bool;
}.

Record ChatAccumulator := mkAccumulator {
  maxPayloadBytes : Z;
  payloadBytes : Z;
  metadata : ResponseMetadata;
  usage : UsageObservation;
  choices : gmap Z AccumulatedChoice;
  choiceOrder : list Z;
  terminal : bool;
}.

(** A snapshot; the keyed copy of the choices is the map itself. *)
Record AccumulatorState := mkAccumulatorState {
  as_Metadata : ResponseMetadata;
  as_Choices : list AccumulatedChoice;
  as_ChoicesByIndex : gmap Z AccumulatedChoice;
  as_Usage : UsageObservation;
  as_PayloadBytes : Z;
  as_Terminal : bool;
}.

(** What [Accumulate] reads of an observation result. *)
Record Observed := mkObserved { or_Choices : list ChoiceObservation; or_Usage : UsageObservation; or_Metadata : ResponseMetadata }.

Definition NewChatAccumulator (max : Z) : result accumulator_error ChatAccumulator :=
  if max <=? 0 then Err ErrInvalidAccumulatorLimit
  else Ok (mkAccumulator max 0 emptyMetadata noUsageObservation ∅ [] false).

(** ** Operations *)

Definition keep_first (current update : bytes) : bytes := if bool_decide (current = []) then update else current.

Definition mergeMetadata (current update : ResponseMetadata) : ResponseMetadata :=
  mkMetadata (keep_first (md_ID current) (md_ID update)) (keep_first (md_Model current) (md_Model update))
    (match md_Created current with Some created => Some created | None => md_Created update end).

Definition mergeUsage (current update : UsageObservation) : UsageObservation := mergeUsageObservation current update.

(** The payload count after a fragment. *)
Definition addPayload (max payload : Z) (fragment : bytes) : result accumulator_error Z :=
  if sub64 max payload <? Z.of_nat (length fragment) then Err ErrAccumulatorOverflow
  else Ok (add64 payload (Z.of_nat (length fragment))).

(** The calls, extended when the index is new, and the position of its call. *)
Definition toolCall (calls : list AccumulatedToolCall) (index : Z) : list AccumulatedToolCall * nat :=
  match list_find (λ call, at_Index call = index) calls with
  | Some (position, _) => (calls, position)
  | None => (calls ++ [mkToolCall index [] [] (mkFunction [] [])], length calls)
  end.

Definition fillToolCall (observation : ToolCallObservation) (call : AccumulatedToolCall) : AccumulatedToolCall :=
  mkToolCall (at_Index call) (keep_first (at_ID call) (tc_ID observation)) (keep_first (at_Type call) (tc_Type observation))
    (mkFunction (keep_first (af_Name (at_Function call)) (tf_Name (tc_Function observation))) (af_Arguments (at_Function call))).

Definition appendArguments (fragment : bytes) (call : AccumulatedToolCall) : AccumulatedToolCall :=
  mkToolCall (at_Index call) (at_ID call) (at_Type call)
    (mkFunction (af_Name (at_Function call)) (af_Arguments (at_Function call) ++ fragment)).

Definition applyToolCall (max : Z) (state : list AccumulatedToolCall * Z) (observation : ToolCallObservation)
    : result accumulator_error (list AccumulatedToolCall * Z) :=
  let '(calls, payload) := state in
  let '(calls, position) := toolCall calls (tc_Index observation) in
  let calls := alter (fillToolCall observation) position calls in
  let arguments := tf_Arguments (tc_Function observation) in
  if bool_decide (arguments = []) then Ok (calls, payload)
  else
    let? payload := addPayload max payload arguments in
    Ok (alter (appendArguments arguments) position calls, payload).

Fixpoint applyToolCalls (max : Z) (state : list AccumulatedToolCall * Z) (observations : list ToolCallObservation)
    : result accumulator_error (list AccumulatedToolCall * Z) :=
  match observations with
  | [] => Ok state
  | observation :: rest => let? state := applyToolCall max state observation in applyToolCalls max state rest
  end.

Definition newChoice (index : Z) : AccumulatedChoice := mkChoice index (mkMessage [] []) [] None false.

(** The choice and the payload count after one observation. *)
Definition applyToChoice (max payload : Z) (observation : ChoiceObservation) (choice : AccumulatedChoice)
    : result accumulator_error (AccumulatedChoice * Z) :=
  let delta := co_Delta observation in
  let role := match do_Role delta with Some role => keep_first (am_Role (ac_Message choice)) role | None => am_Role (ac_Message choice) end in
  let? payload := match do_Content delta with Some content => addPayload max payload content | None => Ok payload end in
  let content := am_Content (ac_Message choice) ++ default [] (do_Content delta) in
  let? tools := applyToolCalls max (ac_ToolCalls choice, payload) (do_ToolCalls delta) in
  Ok (mkChoice (ac_Index choice) (mkMessage role content) tools.1
        (match co_FinishReason observation with Some reason => Some reason | None => ac_FinishReason choice end)
        (ac_FinishReasonPresent choice || co_FinishReasonPresent observation), tools.2).

Definition applyChoiceObservation (accumulator : ChatAccumulator) (observation : ChoiceObservation)
    : result accumulator_error ChatAccumulator :=
  let index := co_Index observation in
  let '(choice, order) :=
    match choices accumulator !! index with
    | Some choice => (choice, choiceOrder accumulator)
    | None => (newChoice index, choiceOrder accumulator ++ [index])
    end in
  let? next := applyToChoice (maxPayloadBytes accumulator) (payloadBytes accumulator) observation choice in
  Ok (mkAccumulator (maxPayloadBytes accumulator) next.2 (metadata accumulator) (usage accumulator)
        (<[index := next.1]> (choices accumulator)) order (terminal accumulator)).

Fixpoint applyChoiceObservations (accumulator : ChatAccumulator) (observations : list ChoiceObservation)
    : result accumulator_error ChatAccumulator :=
  match observations with
  | [] => Ok accumulator
  | observation :: rest => let? accumulator := applyChoiceObservation accumulator observation in applyChoiceObservations accumulator rest
  end.

Definition set_terminal (accumulator : ChatAccumulator) : ChatAccumulator :=
  mkAccumulator (maxPayloadBytes accumulator) (payloadBytes accumulator) (metadata accumulator) (usage accumulator)
    (choices accumulator) (choiceOrder accumulator) true.

(** The copy with the envelope merged, before the choices. *)
Definition working_copy (accumulator : ChatAccumulator) (observed : Observed) : ChatAccumulator :=
  mkAccumulator (maxPayloadBytes accumulator) (payloadBytes accumulator)
    (mergeMetadata (metadata accumulator) (or_Metadata observed)) (mergeUsage (usage accumulator) (or_Usage observed))
    (choices accumulator) (choiceOrder accumulator) (terminal accumulator).

Definition Accumulate (observed : Observed) (accumulator : ChatAccumulator) : option accumulator_error * ChatAccumulator :=
  if terminal accumulator then (Some ErrAccumulatorOverflow, accumulator)
  else
    match applyChoiceObservations (working_copy accumulator observed) (or_Choices observed) with
    | Err _ => (Some ErrAccumulatorOverflow, set_terminal accumulator)
    | Ok working => (None, working)
    end.

(** The choices in the order in which their indices were first observed; an
    index of the order without a choice would be a nil pointer, which [holds]
    below excludes. *)
Definition snapshot (accumulator : ChatAccumulator) : AccumulatorState :=
  mkAccumulatorState (metadata accumulator) (omap (λ index, choices accumulator !! index) (choiceOrder accumulator))
    (choices accumulator) (usage accumulator) (payloadBytes accumulator) (terminal accumulator).

(** ** Sums *)

Abbreviation lenZ l := (Z.of_nat (length l)).
Definition sumZ {A} (f : A → Z) (l : list A) : Z := foldr (λ x n, f x + n) 0 l.

Lemma sumZ_app {A} (f : A → Z) l1 l2 : sumZ f (l1 ++ l2) = sumZ f l1 + sumZ f l2.
Proof. induction l1; simpl; lia. Qed.

Lemma sumZ_nonneg {A} (f : A → Z) l : (∀ x, 0 ≤ f x) → 0 ≤ sumZ f l.
Proof. intros H. induction l as [|x l IH]; [done|]. specialize (H x). unfold sumZ in *. simpl. lia. Qed.

(** ** The reference: what a list of observations adds up to *)

(** The distinct values in the order of their first occurrence. *)
Definition firsts (l : list Z) : list Z := foldl (λ acc x, if bool_decide (x ∈ acc) then acc else acc ++ [x]) [] l.

Definition first_nonempty (l : list bytes) : bytes := default [] (head (filter (λ s, s ≠ []) l)).
Definition last_some {A} (l : list (option A)) : option A := last (omap id l).

Definition call_ref (observations : list ToolCallObservation) (index : Z) : AccumulatedToolCall :=
  let mine := filter (λ o, tc_Index o = index) observations in
  mkToolCall index (first_nonempty (map tc_ID mine)) (first_nonempty (map tc_Type mine))
    (mkFunction (first_nonempty (map (λ o, tf_Name (tc_Function o)) mine)) (concat (map (λ o, tf_Arguments (tc_Function o)) mine))).

Definition calls_ref (observations : list ToolCallObservation) : list AccumulatedToolCall :=
  map (call_ref observations) (firsts (map tc_Index observations)).

Definition choice_ref (observations : list ChoiceObservation) (index : Z) : AccumulatedChoice :=
  let mine := filter (λ o, co_Index o = index) observations in
  mkChoice index
    (mkMessage (first_nonempty (omap (λ o, do_Role (co_Delta o)) mine)) (concat (omap (λ o, do_Content (co_Delta o)) mine)))
    (calls_ref (concat (map (λ o, do_ToolCalls (co_Delta o)) mine)))
    (last_some (map co_FinishReason mine)) (existsb co_FinishReasonPresent mine).

Definition tool_size (o : ToolCallObservation) : Z := lenZ (tf_Arguments (tc_Function o)).
Definition observation_size (o : ChoiceObservation) : Z :=
  lenZ (default [] (do_Content (co_Delta o))) + sumZ tool_size (do_ToolCalls (co_Delta o)).

Section reference.

Lemma firsts_snoc l x : firsts (l ++ [x]) = if bool_decide (x ∈ firsts l) then firsts l else firsts l ++ [x].
Proof. unfold firsts. by rewrite foldl_snoc. Qed.

Lemma elem_of_firsts l x : x ∈ firsts l ↔ x ∈ l.
Proof.
  induction l as [|y l IH] using rev_ind; [done|]. rewrite firsts_snoc. destruct (bool_decide_reflect (y ∈ firsts l)); set_solver.
Qed.

Lemma NoDup_firsts l : NoDup (firsts l).
Proof.
  induction l as [|y l IH] using rev_ind; [apply NoDup_nil_2|]. rewrite firsts_snoc.
  destruct (bool_decide_reflect (y ∈ firsts l)); [done|]. apply NoDup_app. split_and!; [done| |by apply NoDup_singleton].
  by intros z Hz ->%list_elem_of_singleton.
Qed.

Lemma first_nonempty_snoc l s : first_nonempty (l ++ [s]) = keep_first (first_nonempty l) s.
Proof.
  unfold first_nonempty, keep_first. rewrite filter_app. destruct (filter (λ s, s ≠ []) l) as [|x xs] eqn:E.
  - simpl. rewrite filter_cons. destruct (decide (s ≠ [])) as [|Hs%dec_stable]; [done|]. by subst.
  - simpl. rewrite bool_decide_false; [done|]. assert (x ∈ filter (λ s, s ≠ []) l) as Hx by (rewrite E; by left).
    by apply list_elem_of_filter in Hx as [? _].
Qed.

Lemma last_some_snoc {A} (l : list (option A)) o :
  last_some (l ++ [o]) = match o with Some x => Some x | None => last_some l end.
Proof.
  unfold last_some. rewrite omap_app. destruct o; simpl; [by rewrite last_snoc|by rewrite app_nil_r].
Qed.

Lemma filter_snoc {A} (P : A → Prop) `{∀ x, Decision (P x)} l x :
  filter P (l ++ [x]) = if decide (P x) then filter P l ++ [x] else filter P l.
Proof. rewrite filter_app, filter_cons, filter_nil. destruct (decide (P x)); [done|by rewrite app_nil_r]. Qed.

(** Updating one position of an indexed list is updating the function. *)
Lemma alter_indexed {A B} (f f' : A → B) (g : B → B) F i t :
  NoDup F → F !! i = Some t → (∀ x, x ≠ t → f x = f' x) → g (f t) = f' t → alter g i (map f F) = map f' F.
Proof.
  intros Hn Hi Ho Hg. apply list_eq. intros j. destruct (decide (i = j)) as [<-|Hij].
  - rewrite list_lookup_alter_eq, !list_lookup_fmap, Hi. simpl. by rewrite Hg.
  - rewrite list_lookup_alter_ne, !list_lookup_fmap by done. destruct (F !! j) as [x|] eqn:E; [|done]. simpl. rewrite Ho; [done|].
    intros ->. apply Hij. by eapply NoDup_lookup.
Qed.

Lemma addPayload_exact max payload fragment : 0 ≤ payload ≤ max → max ≤ maxInt64 →
  addPayload max payload fragment =
  if payload + lenZ fragment <=? max then Ok (payload + lenZ fragment) else Err ErrAccumulatorOverflow.
Proof.
  intros H1 H2. unfold addPayload. rewrite sub64_id by lia64.
  destruct (Z.ltb_spec (max - payload) (lenZ fragment)), (Z.leb_spec (payload + lenZ fragment) max); try lia; [done|].
  by rewrite add64_id by lia64.
Qed.

Lemma call_ref_other os o x : x ≠ tc_Index o → call_ref os x = call_ref (os ++ [o]) x.
Proof. intros Hx. unfold call_ref. rewrite filter_snoc. by destruct (decide (tc_Index o = x)). Qed.

Lemma call_ref_snoc os o :
  call_ref (os ++ [o]) (tc_Index o) =
  appendArguments (tf_Arguments (tc_Function o)) (fillToolCall o (call_ref os (tc_Index o))).
Proof.
  unfold call_ref, appendArguments, fillToolCall. rewrite filter_snoc. destruct (decide (tc_Index o = tc_Index o)); [|done].
  rewrite !map_app, concat_app. cbn [map concat]. rewrite !first_nonempty_snoc, app_nil_r. done.
Qed.

Lemma toolCall_ref os o :
  let F := firsts (map tc_Index (os ++ [o])) in
  ∃ position, toolCall (calls_ref os) (tc_Index o) = (map (call_ref os) F, position) ∧ F !! position = Some (tc_Index o).
Proof.
  intros F. subst F. rewrite map_app. cbn [map]. rewrite firsts_snoc. unfold toolCall, calls_ref.
  set (F := firsts (map tc_Index os)). destruct (list_find _ _) as [[i x]|] eqn:E.
  - apply list_find_Some in E as (E & Hx & _). rewrite list_lookup_fmap in E. apply fmap_Some in E as (t & Ht & ->). cbn in Hx. subst t.
    exists i. rewrite bool_decide_true by (by eapply list_elem_of_lookup_2). done.
  - apply list_find_None in E. assert (tc_Index o ∉ F) as Hn.
    { intros Hin. rewrite Forall_forall in E. eapply (E (call_ref os (tc_Index o))); [|done]. apply list_elem_of_fmap. eauto. }
    exists (length F). rewrite bool_decide_false by done. rewrite length_map, map_app. split.
    + do 2 f_equal. cbn [map]. f_equal. unfold call_ref. assert (filter (λ o0, tc_Index o0 = tc_Index o) os = []) as ->; [|done].
      destruct (filter _ os) as [|y ys] eqn:Ef; [done|]. exfalso. assert (y ∈ filter (λ o0, tc_Index o0 = tc_Index o) os) as Hy by (rewrite Ef; by left).
      apply list_elem_of_filter in Hy as [Hy Hin]. apply Hn, elem_of_firsts, list_elem_of_fmap. eauto.
    + rewrite lookup_app_r, Nat.sub_diag by done. done.
Qed.

Lemma applyToolCall_ref max payload os o : 0 ≤ payload ≤ max → max ≤ maxInt64 →
  applyToolCall max (calls_ref os, payload) o =
  if payload + tool_size o <=? max then Ok (calls_ref (os ++ [o]), payload + tool_size o) else Err ErrAccumulatorOverflow.
Proof.
  intros H1 H2. unfold applyToolCall. destruct (toolCall_ref os o) as (i & -> & Hi). unfold tool_size.
  set (F := firsts _) in *. pose proof (NoDup_firsts (map tc_Index (os ++ [o]))) as Hn. fold F in Hn.
  assert (alter (appendArguments (tf_Arguments (tc_Function o))) i (alter (fillToolCall o) i (map (call_ref os) F)) = calls_ref (os ++ [o])) as E.
  { rewrite (alter_indexed (call_ref os) (λ x, if bool_decide (x = tc_Index o) then fillToolCall o (call_ref os x) else call_ref os x) _ F i _ Hn Hi).
    - apply (alter_indexed _ _ _ F i _ Hn Hi); [|by rewrite bool_decide_true, call_ref_snoc].
      intros x Hx. rewrite bool_decide_false by done. by apply call_ref_other.
    - intros x Hx. by rewrite bool_decide_false.
    - by rewrite bool_decide_true. }
  destruct (bool_decide_reflect (tf_Arguments (tc_Function o) = [])) as [E0|].
  - rewrite E0 in *. simpl (length _). rewrite Z.add_0_r. destruct (Z.leb_spec payload max); [|lia]. do 2 f_equal. rewrite <-E.
    apply list_eq. intros j. destruct (decide (i = j)) as [<-|].
    + rewrite !list_lookup_alter_eq. destruct (map _ F !! i) as [[? ? ? []]|]; [|done]. simpl.
      unfold appendArguments, fillToolCall. simpl. by rewrite app_nil_r.
    + by rewrite !list_lookup_alter_ne.
  - rewrite addPayload_exact by done. destruct (_ <=? _); [|done]. cbn [result_bind]. by rewrite E.
Qed.

Lemma applyToolCalls_ref max ts : ∀ payload os, 0 ≤ payload ≤ max → max ≤ maxInt64 →
  applyToolCalls max (calls_ref os, payload) ts =
  if payload + sumZ tool_size ts <=? max then Ok (calls_ref (os ++ ts), payload + sumZ tool_size ts) else Err ErrAccumulatorOverflow.
Proof.
  induction ts as [|t ts IH]; intros payload os H1 H2; cbn [applyToolCalls].
  - cbn. rewrite Z.add_0_r, app_nil_r. by destruct (Z.leb_spec payload max); [|lia].
  - rewrite applyToolCall_ref by done. change (sumZ tool_size (t :: ts)) with (tool_size t + sumZ tool_size ts).
    assert (0 ≤ tool_size t ∧ 0 ≤ sumZ tool_size ts) as [Ht Hts].
    { unfold tool_size. split; [lia|]. apply sumZ_nonneg. lia. }
    destruct (Z.leb_spec (payload + tool_size t) max); cbn [result_bind].
    + rewrite IH by lia. rewrite <-app_assoc, Z.add_assoc. done.
    + destruct (Z.leb_spec (payload + (tool_size t + sumZ tool_size ts)) max); [lia|done].
Qed.

Lemma choice_ref_other os o x : x ≠ co_Index o → choice_ref os x = choice_ref (os ++ [o]) x.
Proof. intros Hx. unfold choice_ref. rewrite filter_snoc. by destruct (decide (co_Index o = x)). Qed.

Lemma choice_ref_new os index : index ∉ map co_Index os → choice_ref os index = newChoice index.
Proof.
  intros Hn. unfold choice_ref. assert (filter (λ o, co_Index o = index) os = []) as ->; [|done].
  destruct (filter _ os) as [|y ys] eqn:Ef; [done|]. exfalso.
  assert (y ∈ filter (λ o, co_Index o = index) os) as Hy by (rewrite Ef; by left).
  apply list_elem_of_filter in Hy as [Hy Hin]. apply Hn, list_elem_of_fmap. eauto.
Qed.

Lemma tool_size_nonneg o : 0 ≤ tool_size o.
Proof. unfold tool_size. lia. Qed.

Lemma observation_size_nonneg o : 0 ≤ observation_size o.
Proof. unfold observation_size. pose proof (sumZ_nonneg tool_size (do_ToolCalls (co_Delta o)) tool_size_nonneg). lia. Qed.

Lemma applyToChoice_ref max payload os o : 0 ≤ payload ≤ max → max ≤ maxInt64 →
  applyToChoice max payload o (choice_ref os (co_Index o)) =
  if payload + observation_size o <=? max then Ok (choice_ref (os ++ [o]) (co_Index o), payload + observation_size o)
  else Err ErrAccumulatorOverflow.
Proof.
  intros H1 H2. unfold applyToChoice. pose proof (sumZ_nonneg tool_size (do_ToolCalls (co_Delta o)) tool_size_nonneg) as Hs.
  assert (match do_Content (co_Delta o) with Some content => addPayload max payload content | None => Ok payload end =
    if payload + lenZ (default [] (do_Content (co_Delta o))) <=? max then Ok (payload + lenZ (default [] (do_Content (co_Delta o))))
    else Err ErrAccumulatorOverflow) as ->.
  { destruct (do_Content (co_Delta o)); [by apply addPayload_exact|]. simpl. rewrite Z.add_0_r. by destruct (Z.leb_spec payload max); [|lia]. }
  unfold observation_size. set (c := lenZ (default [] (do_Content (co_Delta o)))) in *. assert (0 ≤ c) by (unfold c; lia).
  destruct (Z.leb_spec (payload + c) max); cbn [result_bind].
  2: { by destruct (Z.leb_spec (payload + (c + sumZ tool_size (do_ToolCalls (co_Delta o)))) max); [lia|]. }
  assert (ac_ToolCalls (choice_ref os (co_Index o)) =
    calls_ref (concat (map (λ o0, do_ToolCalls (co_Delta o0)) (filter (λ o0, co_Index o0 = co_Index o) os)))) as -> by done.
  rewrite applyToolCalls_ref by lia. rewrite Z.add_assoc. destruct (_ <=? _); [|done]. cbn [result_bind fst snd]. do 2 f_equal.
  unfold choice_ref. rewrite filter_snoc. destruct (decide (co_Index o = co_Index o)); [|done].
  rewrite !map_app, concat_app, !omap_app. cbn [map]. rewrite last_some_snoc, existsb_app. cbn.
  f_equal; [f_equal|by rewrite app_nil_r|by rewrite orb_false_r].
  - destruct (do_Role (co_Delta o)); [by rewrite first_nonempty_snoc|by rewrite app_nil_r].
  - destruct (do_Content (co_Delta o)); rewrite concat_app; simpl; by rewrite ?app_nil_r.
Qed.

(** The accumulator holds exactly what the observations add up to. *)
Definition holds (os : list ChoiceObservation) (a : ChatAccumulator) : Prop :=
  choiceOrder a = firsts (map co_Index os) ∧
  (∀ index, choices a !! index = if bool_decide (index ∈ map co_Index os) then Some (choice_ref os index) else None) ∧
  payloadBytes a = sumZ observation_size os.

Lemma applyChoiceObservation_ref os o a :
  0 ≤ payloadBytes a ≤ maxPayloadBytes a → maxPayloadBytes a ≤ maxInt64 → holds os a →
  if payloadBytes a + observation_size o <=? maxPayloadBytes a
  then ∃ a', applyChoiceObservation a o = Ok a' ∧ holds (os ++ [o]) a' ∧ payloadBytes a' = payloadBytes a + observation_size o ∧
         maxPayloadBytes a' = maxPayloadBytes a ∧ terminal a' = terminal a ∧ metadata a' = metadata a ∧ usage a' = usage a
  else applyChoiceObservation a o = Err ErrAccumulatorOverflow.
Proof.
  intros H1 H2 (Ho & Hc & Hp). unfold applyChoiceObservation.
  assert ((match choices a !! co_Index o with Some choice => (choice, choiceOrder a) | None => (newChoice (co_Index o), choiceOrder a ++ [co_Index o]) end) =
    (choice_ref os (co_Index o), firsts (map co_Index (os ++ [o])))) as ->.
  { rewrite Hc, map_app, Ho. cbn [map]. rewrite firsts_snoc. destruct (bool_decide_reflect (co_Index o ∈ map co_Index os)) as [Hin|Hn].
    - by rewrite bool_decide_true by (by apply elem_of_firsts).
    - rewrite bool_decide_false by (by rewrite elem_of_firsts). by rewrite choice_ref_new. }
  rewrite applyToChoice_ref by done. destruct (_ <=? _); [|done]. cbn [result_bind fst snd]. eexists. split; [done|].
  split; [split_and!; cbn [choices choiceOrder payloadBytes]; [done|..]|done].
  - intros index. destruct (decide (co_Index o = index)) as [<-|Hne].
    + rewrite lookup_insert_eq, bool_decide_true; [done|]. rewrite map_app. set_solver.
    + rewrite lookup_insert_ne, Hc by done. rewrite (choice_ref_other os o index) by done.
      erewrite bool_decide_ext; [done|]. rewrite map_app. set_solver.
  - rewrite sumZ_app, Hp. unfold sumZ. simpl. lia.
Qed.

Lemma applyChoiceObservations_ref new : ∀ os a,
  0 ≤ payloadBytes a ≤ maxPayloadBytes a → maxPayloadBytes a ≤ maxInt64 → holds os a →
  if payloadBytes a + sumZ observation_size new <=? maxPayloadBytes a
  then ∃ a', applyChoiceObservations a new = Ok a' ∧ holds (os ++ new) a' ∧ payloadBytes a' = payloadBytes a + sumZ observation_size new ∧
         maxPayloadBytes a' = maxPayloadBytes a ∧ terminal a' = terminal a ∧ metadata a' = metadata a ∧ usage a' = usage a
  else applyChoiceObservations a new = Err ErrAccumulatorOverflow.
Proof.
  induction new as [|o new IH]; intros os a H1 H2 Hh; cbn [applyChoiceObservations].
  - cbn. rewrite Z.add_0_r. destruct (Z.leb_spec (payloadBytes a) (maxPayloadBytes a)); [|lia]. exists a. by rewrite app_nil_r.
  - change (sumZ observation_size (o :: new)) with (observation_size o + sumZ observation_size new).
    pose proof (observation_size_nonneg o). pose proof (sumZ_nonneg observation_size new observation_size_nonneg).
    pose proof (applyChoiceObservation_ref os o a H1 H2 Hh) as Hs.
    destruct (Z.leb_spec (payloadBytes a + observation_size o) (maxPayloadBytes a)) as [Hle|Hgt].
    + destruct Hs as (a1 & -> & Hh1 & Hp1 & Hm1 & Ht1 & Hmd1 & Hu1). cbn [result_bind].
      specialize (IH _ a1 ltac:(lia) ltac:(lia) Hh1). rewrite Hp1, Hm1, <-Z.add_assoc in IH. destruct (_ <=? _); [|done].
      destruct IH as (a2 & -> & Hh2 & ? & ? & ? & ? & ?). exists a2. rewrite <-app_assoc in Hh2.
      split_and!; (done || congruence || lia).
    + rewrite Hs. by destruct (Z.leb_spec (payloadBytes a + (observation_size o + sumZ observation_size new)) (maxPayloadBytes a)); [lia|].
Qed.

End reference.

(** ** Any sequence of calls *)

Definition accumulate_all (rs : list Observed) (a : ChatAccumulator) : ChatAccumulator := foldl (λ a r, (Accumulate r a).2) a rs.

Definition all_choices (rs : list Observed) : list ChoiceObservation := concat (map or_Choices rs).

Lemma accumulate_all_snoc rs r a : accumulate_all (rs ++ [r]) a = (Accumulate r (accumulate_all rs a)).2.
Proof. unfold accumulate_all. by rewrite foldl_snoc. Qed.

Lemma accumulate_all_app rs1 rs2 a : accumulate_all (rs1 ++ rs2) a = accumulate_all rs2 (accumulate_all rs1 a).
Proof. unfold accumulate_all. by rewrite foldl_app. Qed.

Lemma all_choices_snoc rs r : all_choices (rs ++ [r]) = all_choices rs ++ or_Choices r.
Proof. unfold all_choices. rewrite map_app, concat_app. cbn. by rewrite app_nil_r. Qed.

Section calls.
Context (max : Z) (Hmax : 0 < max ≤ maxInt64).

Definition fresh : ChatAccumulator := mkAccumulator max 0 emptyMetadata noUsageObservation ∅ [] false.

Definition total (rs : list Observed) : Z := sumZ observation_size (all_choices rs).

Lemma total_mono rs r : total rs ≤ total (rs ++ [r]).
Proof.
  unfold total. rewrite all_choices_snoc, sumZ_app. pose proof (sumZ_nonneg _ (or_Choices r) observation_size_nonneg). lia.
Qed.

(** While the total fits, every call succeeds and the accumulator holds the
    observations and the merged envelope. *)
Lemma accumulate_fits rs : total rs ≤ max →
  let a := accumulate_all rs fresh in
  holds (all_choices rs) a ∧ payloadBytes a = total rs ∧ maxPayloadBytes a = max ∧ terminal a = false ∧
  metadata a = foldl mergeMetadata emptyMetadata (map or_Metadata rs) ∧ usage a = foldl mergeUsage noUsageObservation (map or_Usage rs).
Proof.
  induction rs as [|r rs IH] using rev_ind; intros Ht.
  { cbn. split_and!; done. }
  pose proof (total_mono rs r). destruct IH as ((Ho & Hc & Hp) & Hpay & Hm & Hterm & Hmd & Hu); [lia|]. cbn zeta.
  rewrite accumulate_all_snoc, all_choices_snoc, !map_app, !foldl_app. cbn [map foldl]. rewrite <-Hmd, <-Hu.
  set (a := accumulate_all rs fresh) in *. unfold Accumulate. rewrite Hterm. cbn iota.
  assert (0 ≤ payloadBytes a) by (rewrite Hpay; apply sumZ_nonneg, observation_size_nonneg).
  pose proof (applyChoiceObservations_ref (or_Choices r) (all_choices rs) (working_copy a r)) as Hs. cbn [payloadBytes maxPayloadBytes working_copy] in Hs.
  specialize (Hs ltac:(lia) ltac:(lia) (conj Ho (conj Hc Hp))).
  assert (payloadBytes a + sumZ observation_size (or_Choices r) = total (rs ++ [r])) as E.
  { rewrite Hpay. unfold total. by rewrite all_choices_snoc, sumZ_app. }
  rewrite E in Hs. destruct (Z.leb_spec (total (rs ++ [r])) (maxPayloadBytes a)); [|lia].
  destruct Hs as (a' & -> & Hh & Hp' & Hm' & Ht' & Hmd' & Hu'). cbn [snd].
  split_and!; [done|by rewrite Hp'|by rewrite Hm'|by rewrite Ht'|by rewrite Hmd'|by rewrite Hu'].
Qed.

(** A call that does not fit changes nothing but the terminal mark. *)
Lemma Accumulate_overflow rs r : total rs ≤ max → max < total (rs ++ [r]) →
  Accumulate r (accumulate_all rs fresh) = (Some ErrAccumulatorOverflow, set_terminal (accumulate_all rs fresh)).
Proof.
  intros Ht Hover. destruct (accumulate_fits rs Ht) as ((Ho & Hc & Hp) & Hpay & Hm & Hterm & _). cbn zeta in *.
  set (a := accumulate_all rs fresh) in *. unfold Accumulate. rewrite Hterm. cbn iota.
  assert (0 ≤ payloadBytes a) by (rewrite Hpay; apply sumZ_nonneg, observation_size_nonneg).
  pose proof (applyChoiceObservations_ref (or_Choices r) (all_choices rs) (working_copy a r)) as Hs. cbn [payloadBytes maxPayloadBytes working_copy] in Hs.
  specialize (Hs ltac:(lia) ltac:(lia) (conj Ho (conj Hc Hp))).
  assert (payloadBytes a + sumZ observation_size (or_Choices r) = total (rs ++ [r])) as E.
  { rewrite Hpay. unfold total. by rewrite all_choices_snoc, sumZ_app. }
  rewrite E in Hs. destruct (Z.leb_spec (total (rs ++ [r])) (maxPayloadBytes a)); [lia|]. by rewrite Hs.
Qed.

Lemma accumulate_terminal rs a : terminal a = true → accumulate_all rs a = a.
Proof.
  intros Ht. induction rs as [|r rs IH] using rev_ind; [done|]. rewrite accumulate_all_snoc, IH. unfold Accumulate. by rewrite Ht.
Qed.

Lemma holds_snapshot os a : holds os a → as_Choices (snapshot a) = map (choice_ref os) (firsts (map co_Index os)).
Proof.
  intros (Ho & Hc & _). unfold snapshot. cbn [as_Choices]. rewrite Ho.
  assert (∀ F, (∀ x, x ∈ F → x ∈ map co_Index os) → omap (λ i, choices a !! i) F = map (choice_ref os) F) as H.
  { induction F as [|x F IH]; intros HF; [done|]. rewrite omap_step, Hc, bool_decide_true by (apply HF; by left). cbn [map].
    rewrite IH; [done|]. intros y Hy. apply HF. by right. }
  apply H. intros x. by rewrite elem_of_firsts.
Qed.

End calls.

(** The accumulator adds up exactly what it was given, or stops.  As long
    as the contents and arguments of all calls fit the limit, every call
    succeeds and the snapshot lists the choices in the order of their first
    observation, each with its first non-empty role, the concatenation of its
    contents, its tool calls in first-seen order with concatenated arguments
    and first non-empty identifiers, its last finish reason, and the envelope
    merged in order.  The first call that does not fit reports the overflow,
    applies nothing of itself, and every later call changes nothing. *)
Theorem Accumulate_exact max a0 rs :
  max ≤ maxInt64 → NewChatAccumulator max = Ok a0 →
  (total rs ≤ max →
    let s := snapshot (accumulate_all rs a0) in
    let os := all_choices rs in
    as_Choices s = map (choice_ref os) (firsts (map co_Index os)) ∧ as_PayloadBytes s = total rs ∧ as_Terminal s = false ∧
    as_Metadata s = foldl mergeMetadata emptyMetadata (map or_Metadata rs) ∧
    as_Usage s = foldl mergeUsage noUsageObservation (map or_Usage rs)) ∧
  (∀ r later, total rs ≤ max → max < total (rs ++ [r]) →
    Accumulate r (accumulate_all rs a0) = (Some ErrAccumulatorOverflow, set_terminal (accumulate_all rs a0)) ∧
    accumulate_all (rs ++ r :: later) a0 = set_terminal (accumulate_all rs a0)).
Proof.
  intros Hm H0. unfold NewChatAccumulator in H0. destruct (Z.leb_spec max 0); [done|]. injection H0 as <-. split.
  - intros Ht. destruct (accumulate_fits max ltac:(lia) rs Ht) as (Hh & Hp & _ & Hterm & Hmd & Hu).
    split_and!; [by apply holds_snapshot|done..].
  - intros r later Ht Hover. pose proof (Accumulate_overflow max ltac:(lia) rs r Ht Hover) as E. split; [done|].
    unfold fresh in E. rewrite accumulate_all_app. cbn [accumulate_all foldl]. rewrite E. by apply accumulate_terminal.
Qed.

Definition demo_choice (index : Z) (content : string) : ChoiceObservation :=
  mkChoiceObservation index (mkDelta None (Some (str content)) []) None false.

Lemma Accumulate_exact_witness :
  ∃ a0, NewChatAccumulator 8 = Ok a0 ∧
  let rs := [mkObserved [demo_choice 1 "ab"; demo_choice 0 "x"] noUsageObservation emptyMetadata; mkObserved [demo_choice 1 "cd"] noUsageObservation emptyMetadata] in
  map (λ c, (ac_Index c, am_Content (ac_Message c))) (as_Choices (snapshot (accumulate_all rs a0))) = [(1, str "abcd"); (0, str "x")] ∧
  accumulate_all (rs ++ [mkObserved [demo_choice 0 "toolong"] noUsageObservation emptyMetadata]) a0 = set_terminal (accumulate_all rs a0).
Proof.
  eexists. split; [reflexivity|]. intros rs. destruct (Accumulate_exact 8 _ rs ltac:(by vm_compute) eq_refl) as [H1 H2]. split.
  - destruct H1 as [-> _]; [by vm_compute|]. by vm_compute.
  - by destruct (H2 (mkObserved [demo_choice 0 "toolong"] noUsageObservation emptyMetadata) []) as [_ ->]; [by vm_compute..|].
Defined.
