(* ===== verification/ChatRender.v ===== *)
(** * Rendering a chat completion ([internal/protocol/openai/renderer.go])

    The snapshot of an accumulator as one JSON document.  [json.Marshal] of the
    response structs is the printed tree of their fields in order, with
    [omitempty] fields left out and strings escaped. *)

From Stdlib Require Import Ascii ZArith Lia ZifyBool.
From stdpp Require Import prelude strings list gmap.
From S2P Require Import Prelude Text Utf8 Usage SSEParser Json JsonCodec UsageJson ChatObserver ChatAccumulator.
Local Open Scope Z_scope.

#[local] Arguments str : simpl never.
#[local] Opaque maxNestingDepth.

(** ** The renderer *)

Inductive render_error := ErrInvalidAccumulatorState.

Definition JText (s : bytes) : json := JString (escape s).
Definition JInt (n : Z) : json := JNumber (FormatInt n).

(** [omitempty] for strings and for pointers. *)
Definition omit_empty (key s : bytes) : list (bytes * json) := if bool_decide (s = []) then [] else [(key, JText s)].
Definition omit_nil (key : bytes) (n : option Z) : list (bytes * json) := match n with Some v => [(key, JInt v)] | None => [] end.

Definition hasMeaningfulChoice (choices : list AccumulatedChoice) : bool :=
  existsb (λ choice, negb (bool_decide (am_Role (ac_Message choice) = [])) || negb (bool_decide (am_Content (ac_Message choice) = []))
    || negb (length (ac_ToolCalls choice) =? 0)%nat || bool_decide (is_Some (ac_FinishReason choice)) || ac_FinishReasonPresent choice) choices.

Definition renderToolCall (call : AccumulatedToolCall) : json :=
  JObject ([(str "index", JInt (at_Index call))] ++ omit_empty (str "id") (at_ID call) ++ omit_empty (str "type") (at_Type call) ++
    [(str "function", JObject (omit_empty (str "name") (af_Name (at_Function call)) ++ omit_empty (str "arguments") (af_Arguments (at_Function call))))]).

Definition renderToolCalls (calls : list AccumulatedToolCall) : list (bytes * json) :=
  if (length calls =? 0)%nat then [] else [(str "tool_calls", JArray (map renderToolCall calls))].

Definition renderMessage (choice : AccumulatedChoice) : json :=
  JObject ([(str "role", JText (am_Role (ac_Message choice))); (str "content", JText (am_Content (ac_Message choice)))] ++
    renderToolCalls (ac_ToolCalls choice)).

Definition renderChoice (choice : AccumulatedChoice) : json :=
  JObject [(str "index", JInt (ac_Index choice)); (str "message", renderMessage choice);
           (str "finish_reason", match ac_FinishReason choice with Some reason => JText reason | None => JNull end)].

Definition renderUsage (usage : UsageObservation) : option json :=
  match uo_InputTokens usage, uo_OutputTokens usage, uo_TotalTokens usage with
  | None, None, None => None
  | input, output, total =>
      Some (JObject (omit_nil (str "prompt_tokens") input ++ omit_nil (str "completion_tokens") output ++ omit_nil (str "total_tokens") total))
  end.

Definition renderResponse (state : AccumulatorState) : json :=
  JObject ([(str "id", JText (md_ID (as_Metadata state))); (str "object", JText (str "chat.completion"));
            (str "created", JInt (default 0 (md_Created (as_Metadata state)))); (str "model", JText (md_Model (as_Metadata state)));
            (str "choices", JArray (map renderChoice (as_Choices state)))] ++
           match renderUsage (as_Usage state) with Some usage => [(str "usage", usage)] | None => [] end).

Definition RenderChatCompletion (state : AccumulatorState) : result render_error bytes :=
  if negb (hasMeaningfulChoice (as_Choices state)) then Err ErrInvalidAccumulatorState
  else Ok (print (renderResponse state)).

(** [Render] of an accumulator, [None] being a nil one. *)
Definition ChatAccumulator_Render (accumulator : option ChatAccumulator) : result render_error bytes :=
  match accumulator with
  | None => Err ErrInvalidAccumulatorState
  | Some a => RenderChatCompletion (snapshot a)
  end.

(** ** Reading printed objects *)

Definition rawed (ms : list (bytes * json)) : list (bytes * bytes) := map (λ m, (m.1, print m.2)) ms.

Lemma Unmarshal_fields_print names ms :
  json_ok maxNestingDepth (JObject ms) = true → Forall (λ m, plain m.1 = true ∧ m.1 ∈ names) ms →
  Unmarshal_fields names (print (JObject ms)) = Some (rawed ms).
Proof.
  intros Hok Hf. unfold Unmarshal_fields. rewrite parse_printed by done. cbn [shape_of]. by rewrite known_members_exact.
Qed.

Lemma raw_field_print k ms : raw_field k (rawed ms) = match field k ms with Some j => print j | None => [] end.
Proof. unfold raw_field, rawed. rewrite field_map. by destruct (field k ms). Qed.

Lemma field_app {A} k (ms1 ms2 : list (bytes * A)) :
  field k (ms1 ++ ms2) = match field k ms2 with Some v => Some v | None => field k ms1 end.
Proof.
  induction ms1 as [|[k' v] ms1 IH]; simpl; [by destruct (field k ms2)|]. rewrite IH. by destruct (field k ms2).
Qed.

Lemma field_omit_empty k key s :
  field k (omit_empty key s) = if bool_decide (key = k) && negb (bool_decide (s = [])) then Some (JText s) else None.
Proof. unfold omit_empty. case_bool_decide; simpl; by case_bool_decide. Qed.

Lemma absent_print d j : json_ok d j = true → absent (print j) = is_null j.
Proof.
  intros H. unfold absent. rewrite (print_null _ _ H). destruct (print_head _ _ H) as (c & s & -> & _). done.
Qed.

Lemma JText_ok d s : json_ok d (JText s) = true.
Proof. apply escape_content. Qed.

Lemma JInt_ok d n : int64 n → json_ok d (JInt n) = true.
Proof. apply FormatInt_reads. Qed.

Lemma decodeStringPointer_print s : ValidString s = true → decodeStringPointer (print (JText s)) = Some s.
Proof.
  intros H. unfold decodeStringPointer. rewrite (absent_print maxNestingDepth) by apply JText_ok. cbn [is_null JText].
  unfold Unmarshal_string. rewrite parse_printed by apply JText_ok. cbn [shape_of JText]. by rewrite unquote_escape.
Qed.

Lemma decodeString_print s : ValidString s = true → decodeString (print (JText s)) = s.
Proof. intros H. unfold decodeString. by rewrite decodeStringPointer_print. Qed.

Lemma decodeInt_print n : int64 n → decodeInt (print (JInt n)) = n.
Proof.
  intros H. unfold decodeInt. rewrite (absent_print maxNestingDepth) by (by apply JInt_ok). cbn [is_null JInt].
  unfold Unmarshal_int64. rewrite parse_printed by (by apply JInt_ok). cbn [shape_of JInt]. by rewrite (proj2 (FormatInt_reads n H)).
Qed.

(** An omitted empty string reads back as the empty string. *)
Lemma decodeString_omitted k ms s : ValidString s = true →
  field k ms = (if bool_decide (s = []) then None else Some (JText s)) → decodeString (raw_field k (rawed ms)) = s.
Proof.
  intros Hv E. rewrite raw_field_print, E. case_bool_decide; [by subst|]. by apply decodeString_print.
Qed.

Lemma depth_enough : (10 ≤ maxNestingDepth)%nat.
Proof. apply Nat.leb_le. vm_compute. reflexivity. Qed.

Lemma ok_within d j : (d ≤ 10)%nat → json_ok d j = true → json_ok maxNestingDepth j = true.
Proof. intros Hd. apply json_ok_mono. pose proof depth_enough. lia. Qed.

(** ** What the texts and numbers of a snapshot must be to be rendered exactly *)

Definition call_text (call : AccumulatedToolCall) : Prop :=
  int64 (at_Index call) ∧ ValidString (at_ID call) = true ∧ ValidString (at_Type call) = true ∧
  ValidString (af_Name (at_Function call)) = true ∧ ValidString (af_Arguments (at_Function call)) = true.

Definition choice_text (choice : AccumulatedChoice) : Prop :=
  int64 (ac_Index choice) ∧ ValidString (am_Role (ac_Message choice)) = true ∧ ValidString (am_Content (ac_Message choice)) = true ∧
  Forall call_text (ac_ToolCalls choice) ∧ (∀ reason, ac_FinishReason choice = Some reason → ValidString reason = true).

Definition count_text (n : option Z) : Prop := ∀ v, n = Some v → 0 ≤ v ≤ maxInt64.

Definition state_text (s : AccumulatorState) : Prop :=
  ValidString (md_ID (as_Metadata s)) = true ∧ ValidString (md_Model (as_Metadata s)) = true ∧
  int64 (default 0 (md_Created (as_Metadata s))) ∧ Forall choice_text (as_Choices s) ∧
  count_text (uo_InputTokens (as_Usage s)) ∧ count_text (uo_OutputTokens (as_Usage s)) ∧ count_text (uo_TotalTokens (as_Usage s)).

(** ** Tool calls *)

Lemma omit_empty_keys key s (names : list bytes) : plain key = true → key ∈ names → Forall (λ m : bytes * json, plain m.1 = true ∧ m.1 ∈ names) (omit_empty key s).
Proof. intros. unfold omit_empty. case_bool_decide; [constructor|]. by repeat constructor. Qed.

Lemma omit_empty_ok d key s : plain key = true → forallb (λ m, content_ok m.1 && json_ok d m.2) (omit_empty key s) = true.
Proof.
  intros Hk. unfold omit_empty. case_bool_decide; [done|]. cbn [forallb fst snd]. by rewrite plain_content, JText_ok.
Qed.

(** The keys of a concrete list of members are known fields. *)
Ltac known_key := first [reflexivity | refine (proj1 (bool_decide_eq_true _) _); vm_compute; reflexivity].
Ltac known_keys :=
  repeat match goal with |- Forall _ (_ ++ _) => apply Forall_app; split end;
  first [apply omit_empty_keys; known_key | repeat (apply Forall_cons; split; [split; known_key|]); apply Forall_nil_2].

#[local] Hint Resolve JText_ok JInt_ok plain_content omit_empty_ok : json.

Definition tool_observation (call : AccumulatedToolCall) : ToolCallObservation :=
  mkToolCallObservation (at_Index call) (at_ID call) (at_Type call)
    (mkFunctionObservation (af_Name (at_Function call)) (af_Arguments (at_Function call))).

Lemma function_ok d call :
  json_ok (S d) (JObject (omit_empty (str "name") (af_Name (at_Function call)) ++ omit_empty (str "arguments") (af_Arguments (at_Function call)))) = true.
Proof. cbn [json_ok]. by rewrite forallb_app, !omit_empty_ok. Qed.

Lemma renderToolCall_ok d call : int64 (at_Index call) → json_ok (S (S d)) (renderToolCall call) = true.
Proof.
  intros Hi. unfold renderToolCall. set (f := JObject (omit_empty (str "name") _ ++ _)).
  assert (json_ok (S d) f = true) as Hf by apply function_ok. clearbody f.
  cbn [json_ok app forallb fst snd]. rewrite !forallb_app, !omit_empty_ok by done. cbn [forallb fst snd].
  by rewrite Hf, JInt_ok, !plain_content.
Qed.

Lemma decodeToolCall_print call : call_text call → decodeToolCall (print (renderToolCall call)) = Some (tool_observation call).
Proof.
  intros (Hi & Hid & Ht & Hn & Ha). unfold decodeToolCall, Unmarshal_streamToolCall.
  pose proof (function_ok 0 call) as Hf. pose proof (renderToolCall_ok 0 call Hi) as Hok. unfold renderToolCall in *.
  set (f := omit_empty (str "name") _ ++ _) in *.
  set (ms := [(str "index", JInt (at_Index call))] ++ _) in *.
  rewrite Unmarshal_fields_print; [|apply (ok_within 2); [lia|done]|].
  2: { unfold ms, streamToolCall_fields. known_keys. }
  cbn [mbind option_bind st_Index st_ID st_Type st_Function].
  assert (raw_field (str "index") (rawed ms) = print (JInt (at_Index call))) as ->.
  { rewrite raw_field_print. unfold ms. rewrite !field_app, !field_omit_empty. done. }
  assert (raw_field (str "function") (rawed ms) = print (JObject f)) as ->.
  { rewrite raw_field_print. unfold ms. rewrite !field_app, !field_omit_empty. done. }
  rewrite decodeInt_print by done.
  rewrite (decodeString_omitted (str "id") ms (at_ID call)), (decodeString_omitted (str "type") ms (at_Type call)); [|done| |done|].
  2,3: unfold ms; rewrite !field_app, !field_omit_empty;
    by destruct (bool_decide (at_ID call = [])), (bool_decide (at_Type call = [])).
  rewrite (absent_print 1) by done. cbn [is_null]. unfold Unmarshal_streamToolCallFunction.
  rewrite Unmarshal_fields_print; [|apply (ok_within 1); [lia|done]|].
  2: { unfold f, streamToolCallFunction_fields. known_keys. }
  cbn [mbind option_bind sf_Name sf_Arguments].
  rewrite (decodeString_omitted (str "name") f (af_Name (at_Function call))), (decodeString_omitted (str "arguments") f (af_Arguments (at_Function call)));
    [done|done| |done|]; unfold f; rewrite !field_app, !field_omit_empty;
    by destruct (bool_decide (af_Name (at_Function call) = [])), (bool_decide (af_Arguments (at_Function call) = [])).
Qed.

(** ** Choices *)

Lemma omap_map_some {A B C} (f : B → option C) (g : A → B) (h : A → C) l :
  Forall (λ x, f (g x) = Some (h x)) l → omap f (map g l) = map h l.
Proof. induction 1 as [|x l E _ IH]; [done|]. cbn [map]. by rewrite omap_step, E, IH. Qed.

Lemma forallb_map_ok {A} (f : A → json) d l : Forall (λ x, json_ok d (f x) = true) l → forallb (json_ok d) (map f l) = true.
Proof. induction 1 as [|x l E _ IH]; [done|]. cbn [map forallb]. by rewrite E. Qed.

Lemma Unmarshal_raws_print {A} (f : A → json) d l :
  (d < 10)%nat → Forall (λ x, json_ok d (f x) = true) l →
  absent (print (JArray (map f l))) = false ∧ Unmarshal_raws (print (JArray (map f l))) = Some (Some (map (λ x, print (f x)) l)).
Proof.
  intros Hd Hf. assert (json_ok (S d) (JArray (map f l)) = true) as Hok by (cbn [json_ok]; by apply forallb_map_ok). split.
  - by rewrite (absent_print (S d)).
  - unfold Unmarshal_raws. rewrite parse_printed by (apply (ok_within (S d)); [lia|done]). cbn [shape_of]. by rewrite map_map.
Qed.

Lemma decodeToolCalls_print calls : Forall call_text calls →
  decodeToolCalls (print (JArray (map renderToolCall calls))) = map tool_observation calls.
Proof.
  intros Hc. destruct (Unmarshal_raws_print renderToolCall 2 calls) as [H1 H2]; [lia| |].
  { eapply Forall_impl; [exact Hc|]. intros call [Hi _]. by apply renderToolCall_ok. }
  unfold decodeToolCalls. rewrite H1, H2. cbn [default]. apply omap_map_some.
  eapply Forall_impl; [exact Hc|]. intros call. apply decodeToolCall_print.
Qed.

Lemma renderMessage_ok d choice : choice_text choice → json_ok (S (S (S (S d)))) (renderMessage choice) = true.
Proof.
  intros (_ & _ & _ & Hc & _). unfold renderMessage, renderToolCalls. destruct (_ =? _)%nat; cbn [app json_ok forallb fst snd].
  - by rewrite !JText_ok, !plain_content.
  - rewrite !JText_ok, !plain_content by done. cbn [andb]. rewrite forallb_map_ok; [done|].
    eapply Forall_impl; [exact Hc|]. intros call [Hi _]. by apply renderToolCall_ok.
Qed.

Lemma decodeDelta_message choice : choice_text choice →
  decodeDelta (print (renderMessage choice)) =
  mkDelta (Some (am_Role (ac_Message choice))) (Some (am_Content (ac_Message choice))) (map tool_observation (ac_ToolCalls choice)).
Proof.
  intros Ht. pose proof (renderMessage_ok 0 choice Ht) as Hok. destruct Ht as (_ & Hr & Hc & Hcalls & _). unfold decodeDelta.
  rewrite (absent_print 4) by done. unfold renderMessage in *. set (ms := [_; _] ++ _) in *. cbn [is_null].
  unfold Unmarshal_streamDelta. rewrite Unmarshal_fields_print; [|apply (ok_within 4); [lia|done]|].
  2: { unfold ms, streamDelta_fields, renderToolCalls. destruct (_ =? _)%nat; known_keys. }
  cbn [mbind option_bind sd_Role sd_Content sd_ToolCalls]. rewrite !raw_field_print. unfold ms.
  assert (∀ k, field k (renderToolCalls (ac_ToolCalls choice)) = if bool_decide (str "tool_calls" = k) && negb (length (ac_ToolCalls choice) =? 0)%nat
    then Some (JArray (map renderToolCall (ac_ToolCalls choice))) else None) as Hf.
  { intros k. unfold renderToolCalls. destruct (_ =? _)%nat; cbn [field]; [by rewrite andb_false_r|]. by rewrite andb_true_r. }
  rewrite !field_app, !Hf. change (bool_decide (str "tool_calls" = str "role")) with false.
  change (bool_decide (str "tool_calls" = str "content")) with false. change (bool_decide (str "tool_calls" = str "tool_calls")) with true.
  change (field (str "role") [(str "role", JText (am_Role (ac_Message choice))); (str "content", JText (am_Content (ac_Message choice)))])
    with (Some (JText (am_Role (ac_Message choice)))).
  change (field (str "content") [(str "role", JText (am_Role (ac_Message choice))); (str "content", JText (am_Content (ac_Message choice)))])
    with (Some (JText (am_Content (ac_Message choice)))).
  change (field (str "tool_calls") [(str "role", JText (am_Role (ac_Message choice))); (str "content", JText (am_Content (ac_Message choice)))])
    with (@None json). cbn [andb]. rewrite !decodeStringPointer_print by done. f_equal.
  destruct (ac_ToolCalls choice) as [|c cs] eqn:E; [done|]. cbn [length Nat.eqb negb]. by apply decodeToolCalls_print.
Qed.

Definition choice_observation (choice : AccumulatedChoice) : ChoiceObservation :=
  mkChoiceObservation (ac_Index choice)
    (mkDelta (Some (am_Role (ac_Message choice))) (Some (am_Content (ac_Message choice))) (map tool_observation (ac_ToolCalls choice)))
    (ac_FinishReason choice) true.

Lemma finish_ok d choice : json_ok d (match ac_FinishReason choice with Some reason => JText reason | None => JNull end) = true.
Proof. destruct (ac_FinishReason choice); [apply JText_ok|done]. Qed.

Lemma renderChoice_ok choice : choice_text choice → json_ok 5 (renderChoice choice) = true.
Proof.
  intros Ht. pose proof (renderMessage_ok 0 choice Ht) as Hm. destruct Ht as (Hi & _). unfold renderChoice.
  cbn [json_ok forallb fst snd]. by rewrite Hm, finish_ok, JInt_ok, !plain_content.
Qed.

Lemma decodeChoice_print choice : choice_text choice → decodeChoice (print (renderChoice choice)) = Some (choice_observation choice).
Proof.
  intros Ht. pose proof (renderChoice_ok choice Ht) as Hok. pose proof (decodeDelta_message choice Ht) as Hd.
  pose proof (renderMessage_ok 0 choice Ht) as Hm. destruct Ht as (Hi & _ & _ & _ & Hr). unfold decodeChoice, Unmarshal_streamChoice, renderChoice in *.
  rewrite Unmarshal_fields_print; [|apply (ok_within 5); [lia|done]|unfold streamChoice_fields; known_keys].
  cbn [mbind option_bind sc_Index sc_Delta sc_Message sc_FinishReason]. rewrite !raw_field_print.
  set (fin := match ac_FinishReason choice with Some reason => JText reason | None => JNull end) in *.
  change (field (str "index") _) with (Some (JInt (ac_Index choice))). change (field (str "message") _) with (Some (renderMessage choice)).
  change (field (str "delta") _) with (@None json). change (field (str "finish_reason") _) with (Some fin).
  cbn [length Nat.eqb]. rewrite decodeInt_print, Hd by done.
  destruct (print_head 0 fin (finish_ok 0 choice)) as (c & s & E & _). rewrite E. cbn [length Nat.eqb negb]. rewrite <-E.
  unfold choice_observation. do 2 f_equal. unfold fin. destruct (ac_FinishReason choice) as [reason|]; [|done].
  by apply decodeStringPointer_print, Hr.
Qed.

(** ** Usage *)

Lemma merge_FromCanonical input u : NewUsage input = Ok u →
  usageObservationFromCanonical u = mkUsageObservation u (ui_Input input) (ui_Output input) (ui_Total input).
Proof. intros H%NewUsage_inputs. subst input. done. Qed.

Definition usage_input_of (usage : UsageObservation) : UsageInput :=
  mkUsageInput (uo_InputTokens usage) (uo_OutputTokens usage) (uo_TotalTokens usage) None None.

Definition some_count (usage : UsageObservation) : bool :=
  negb (bool_decide (usage_input_of usage = mkUsageInput None None None None None)).

Definition usage_members (usage : UsageObservation) : list (bytes * json) :=
  omit_nil (str "prompt_tokens") (uo_InputTokens usage) ++ omit_nil (str "completion_tokens") (uo_OutputTokens usage)
  ++ omit_nil (str "total_tokens") (uo_TotalTokens usage).

Lemma renderUsage_members usage : renderUsage usage = if some_count usage then Some (JObject (usage_members usage)) else None.
Proof. destruct usage as [u [] [] []]; done. Qed.

Lemma usage_members_ok usage : count_text (uo_InputTokens usage) → count_text (uo_OutputTokens usage) → count_text (uo_TotalTokens usage) →
  json_ok 1 (JObject (usage_members usage)) = true ∧ distinct_keys (JObject (usage_members usage)) = true.
Proof.
  intros Hi Ho Ht. assert (∀ key n, plain key = true → count_text n → forallb (λ m, content_ok m.1 && json_ok 0 m.2) (omit_nil key n) = true) as H.
  { intros key [v|] Hk Hn; [|done]. cbn [omit_nil forallb fst snd]. specialize (Hn v eq_refl). rewrite JInt_ok by lia64. by rewrite plain_content. }
  split.
  - unfold usage_members. cbn [json_ok]. by rewrite !forallb_app, !H.
  - clear. unfold usage_members. destruct usage as [u [a|] [b|] [c|]]; done.
Qed.

Lemma tree_count_field key ms n : count_text n →
  tree_field key ms = JInt <$> n → tree_count (tree_field key ms) = Ok n.
Proof.
  intros Hn ->. destruct n as [v|]; [|done]. specialize (Hn v eq_refl). cbn. rewrite (proj2 (FormatInt_reads v ltac:(lia64))).
  by destruct (Z.ltb_spec v 0); [lia|].
Qed.

(** The rendered usage reads back as the usage of its counts. *)
Lemma tree_usage_members usage u :
  count_text (uo_InputTokens usage) → count_text (uo_OutputTokens usage) → count_text (uo_TotalTokens usage) →
  some_count usage = true → NewUsage (usage_input_of usage) = Ok u →
  tree_usage (Some (JObject (usage_members usage))) = Ok (mkUsageResult u true).
Proof.
  intros Hi Ho Ht Hs Hu. unfold tree_usage.
  assert (tree_field (str "prompt_tokens") (usage_members usage) = JInt <$> uo_InputTokens usage) as E1 by (by destruct usage as [? [] [] []]).
  assert (tree_field (str "completion_tokens") (usage_members usage) = JInt <$> uo_OutputTokens usage) as E2 by (by destruct usage as [? [] [] []]).
  assert (tree_field (str "total_tokens") (usage_members usage) = JInt <$> uo_TotalTokens usage) as E3 by (by destruct usage as [? [] [] []]).
  assert (∀ k, k ∈ [str "input_tokens"; str "output_tokens"; str "prompt_tokens_details"; str "input_tokens_details"; str "completion_tokens_details";
    str "output_tokens_details"] → tree_field k (usage_members usage) = None) as En.
  { intros k Hk. destruct usage as [? [] [] []]; repeat (apply elem_of_cons in Hk as [->|Hk]; [done|]); by apply not_elem_of_nil in Hk. }
  rewrite (tree_count_field _ _ _ Hi E1), (tree_count_field _ _ _ Ho E2), (tree_count_field _ _ _ Ht E3).
  rewrite !En by (refine (proj1 (bool_decide_eq_true _) _); vm_compute; reflexivity). cbn [result_bind tree_count tree_details preferred].
  assert (∀ x : option Z, first_present x None = x) as Hfp by (by intros []). rewrite !Hfp. cbn zeta.
  fold (usage_input_of usage). unfold some_count in Hs. apply negb_true_iff, bool_decide_eq_false in Hs.
  rewrite bool_decide_false by done. by rewrite Hu.
Qed.

(** ** Observing a printed chunk *)

(** A chunk with known, distinct members. *)
Definition chunk_ok (ms : list (bytes * json)) : Prop :=
  json_ok maxNestingDepth (JObject ms) = true ∧ Forall (λ m, plain m.1 = true ∧ m.1 ∈ streamChunk_fields) ms ∧
  NoDup (map fst ms) ∧ (∀ j, field (str "usage") ms = Some j → distinct_keys j = true).

Definition raw_of (k : string) (ms : list (bytes * json)) : bytes := match field (str k) ms with Some j => print j | None => [] end.

Definition chunk_of (ms : list (bytes * json)) : streamChunk :=
  mkChunk (raw_of "id" ms) (raw_of "object" ms) (raw_of "created" ms) (raw_of "model" ms) (raw_of "choices" ms) (raw_of "usage" ms).

Lemma json_ok_members ms : json_ok maxNestingDepth (JObject ms) = true → tree_ok ms = true.
Proof.
  cbn [json_ok]. destruct maxNestingDepth as [|d] eqn:Ed; [done|]. intros H. unfold tree_ok. rewrite forallb_forall in *.
  intros m Hm. apply H, andb_true_iff in Hm as [-> Hm]. cbn [andb]. apply (json_ok_mono _ d); [lia|done].
Qed.

Lemma plain_decoded ms : Forall (λ m, plain m.1 = true) ms → decoded ms = rawed ms.
Proof.
  unfold decoded, rawed. induction 1 as [|[k j] ms Hk _ IH]; [done|]. cbn [map fst snd] in *. by rewrite plain_unquote, IH.
Qed.

Lemma no_type_field ms : Forall (λ m, plain m.1 = true ∧ m.1 ∈ streamChunk_fields) ms →
  known_members [str "type"] (rawed ms) = [].
Proof.
  induction 1 as [|[k j] ms [Hp Hk] _ IH]; [done|]. unfold rawed in *. cbn [map fst snd] in *. rewrite known_members_cons, plain_unquote by done.
  assert (struct_field [str "type"] k = None) as ->; [|done].
  unfold streamChunk_fields in Hk. repeat (apply elem_of_cons in Hk as [->|Hk]; [by vm_compute|]). by apply not_elem_of_nil in Hk.
Qed.

Lemma Observe_printed name ms o : chunk_ok ms → name ≠ str "response.completed" →
  Observer_Observe (mkEvent name (print (JObject ms))) o =
  match tree_usage (field (str "usage") ms) with
  | Err _ => Err ErrInvalidUsage
  | Ok r =>
      if ur_Observed r then
        match mergeCanonicalUsage (uo_Usage (os_Usage (ob_state o))) (ur_Usage r) with
        | Err _ => Err ErrInvalidUsage
        | Ok canonical => Ok (record_chunk (chunk_of ms) (Some canonical) o)
        end
      else Ok (record_chunk (chunk_of ms) None o)
  end.
Proof.
  intros (Hok & Hkeys & Hnd & Hu) Hname. unfold Observer_Observe. cbn [se_Data se_Event].
  rewrite bool_decide_false by (cbn [print]; done). rewrite print_object_trim, bool_decide_true by done. cbn [negb].
  assert (Forall (λ m, plain m.1 = true) ms) as Hplain by (eapply Forall_impl; [exact Hkeys|]; by intros ? []).
  pose proof (scan_print [str "usage"] [] [] ms eq_refl eq_refl (json_ok_members _ Hok)) as Es. rewrite app_nil_r in Es. cbn [app] in Es.
  rewrite Es by (rewrite plain_decoded by done; unfold rawed; by rewrite map_map). unfold Unmarshal_streamChunk.
  rewrite Unmarshal_fields_print by done. cbn [mbind option_bind]. rewrite !raw_field_print.
  unfold observeEventUsage. cbn [ch_Usage]. rewrite parseJSONUsageObject_reads.
  2: { intros j Hj. split; [|by apply Hu]. apply field_elem in Hj. pose proof (json_ok_members _ Hok) as Ht. unfold tree_ok in Ht.
    rewrite forallb_forall in Ht. apply list_elem_of_In, Ht, andb_true_iff in Hj as [_ ?]. done. }
  assert (isResponsesCompletionEvent (mkEvent name (print (JObject ms))) (print (JObject ms)) = false) as ->.
  { unfold isResponsesCompletionEvent. cbn [se_Event]. rewrite bool_decide_false by done. unfold Unmarshal_fields.
    rewrite parse_printed by done. cbn [shape_of]. pose proof (no_type_field ms Hkeys) as E. unfold rawed in E. by rewrite E. }
  destruct (tree_usage _) as [r|]; [|done]. cbn [usage_result result_bind negb]. by destruct (ur_Observed r).
Qed.

Lemma addChoices_state l s :
  os_Choices (foldl addChoice s l) = os_Choices s ++ l ∧ os_Usage (foldl addChoice s l) = os_Usage s ∧
  os_EventsObserved (foldl addChoice s l) = os_EventsObserved s ∧ os_DoneObserved (foldl addChoice s l) = os_DoneObserved s.
Proof.
  revert s. induction l as [|c l IH]; intros s; cbn [foldl]; [by rewrite app_nil_r|].
  destruct (IH (addChoice s c)) as (-> & -> & -> & ->). cbn [addChoice os_Choices os_Usage os_EventsObserved os_DoneObserved].
  by rewrite <-app_assoc.
Qed.

Definition response_members (s : AccumulatorState) : list (bytes * json) :=
  [(str "id", JText (md_ID (as_Metadata s))); (str "object", JText (str "chat.completion"));
   (str "created", JInt (default 0 (md_Created (as_Metadata s)))); (str "model", JText (md_Model (as_Metadata s)));
   (str "choices", JArray (map renderChoice (as_Choices s)))] ++
  (if some_count (as_Usage s) then [(str "usage", JObject (usage_members (as_Usage s)))] else []).

Lemma renderResponse_members s : renderResponse s = JObject (response_members s).
Proof. unfold renderResponse, response_members. rewrite renderUsage_members. by destruct (some_count _). Qed.

Lemma response_ok s : state_text s → json_ok 7 (JObject (response_members s)) = true.
Proof.
  intros (_ & _ & Hc & Hch & Hi & Ho & Ht). unfold response_members. cbn [json_ok]. rewrite forallb_app.
  cbn [forallb fst snd]. rewrite !plain_content, !JText_ok, JInt_ok by done. cbn [json_ok]. rewrite forallb_map_ok.
  2: { eapply Forall_impl; [exact Hch|]. intros c Hc'. by apply renderChoice_ok. }
  cbn [andb]. destruct (some_count _); [|done]. cbn [forallb fst snd]. rewrite plain_content by done.
  rewrite (json_ok_mono _ 1 6); [done|lia|]. by apply usage_members_ok.
Qed.

Lemma response_chunk_ok s : state_text s → chunk_ok (response_members s).
Proof.
  intros Hs. pose proof (response_ok s Hs) as Hok. destruct Hs as (_ & _ & _ & _ & Hi & Ho & Ht). split_and!.
  - apply (ok_within 7); [lia|done].
  - unfold response_members, streamChunk_fields. destruct (some_count _); known_keys.
  - unfold response_members. destruct (some_count _); refine (proj1 (bool_decide_eq_true _) _); vm_compute; reflexivity.
  - intros j. unfold response_members. rewrite field_app. destruct (some_count _); [|done]. intros [= <-]. by apply usage_members_ok.
Qed.

Lemma first_string_print s : ValidString s = true → first_string [] (print (JText s)) = s.
Proof.
  intros H. unfold first_string. rewrite bool_decide_true by done. unfold Unmarshal_string. rewrite parse_printed by apply JText_ok.
  cbn [shape_of JText default]. by rewrite unquote_escape.
Qed.

(** A number of visible characters is its own trimmed text. *)
Lemma TrimSpace_number n : int64 n → TrimSpace (FormatInt n) = FormatInt n.
Proof.
  intros Hn. assert (Forall visible (FormatInt n) ∧ FormatInt n ≠ []) as [Hv Hne].
  { unfold FormatInt. assert (∀ ds, forallb is_digit ds = true → Forall visible ds) as Hd.
    { intros ds H. apply Forall_forall. intros c Hc%list_elem_of_In. rewrite forallb_forall in H. apply H in Hc.
      unfold is_digit in Hc. unfold visible. lia. }
    destruct (Z.ltb_spec n 0).
    - destruct (format_digits_literal (- n)) as (ds & -> & D & _ & Hne & _); [lia64|]. split; [|done].
      constructor; [split; reflexivity|auto].
    - destruct (format_digits_literal n) as (ds & -> & D & _ & Hne & _); [lia64|]. auto. }
  destruct (FormatInt n) as [|c s]; [done|]. inv Hv. destruct s as [|d s] using rev_ind.
  - unfold TrimSpace. pose proof (visible_not_space c) as Hs. unfold visible in *. cbn [length trim_space_left DecodeRune].
    destruct (Z.ltb_spec (code c) 128); [|lia]. rewrite Hs by done. cbn [length trim_space_right].
    assert (last_space [c] = None) as ->; [|done]. unfold last_space. apply bind_None. left. apply list_find_None, Forall_forall.
    intros w Hw [Hle H']. simpl in Hle. assert (w = 1)%nat as -> by (apply list_elem_of_In in Hw; simpl in Hw; lia).
    eapply (DecodeRune_last [] c); [done|simpl; lia|exact H'].
  - apply TrimSpace_visible; [done|]. match goal with H : Forall visible (s ++ [d]) |- _ => apply Forall_app in H as [_ H]; by inv H end.
Qed.

(** The metadata of a rendered response. *)
Lemma observeMetadata_rendered s : state_text s →
  observeMetadata (chunk_of (response_members s)) emptyMetadata =
  mkMetadata (md_ID (as_Metadata s)) (md_Model (as_Metadata s)) (Some (default 0 (md_Created (as_Metadata s)))).
Proof.
  intros (Hid & Hm & Hc & _). unfold observeMetadata, emptyMetadata, chunk_of, raw_of.
  cbn [md_ID md_Model md_Created ch_ID ch_Model ch_Created].
  assert (∀ k, k ∈ [str "id"; str "model"; str "created"] → field k (response_members s) = field k (take 5 (response_members s))) as Hf.
  { intros k Hk. unfold response_members. cbn [take app]. change (?a :: ?b :: ?c :: ?d :: ?e :: ?t) with ([a; b; c; d; e] ++ t) at 1.
    rewrite field_app. destruct (some_count _); [|done].
    repeat (apply elem_of_cons in Hk as [->|Hk]; [done|]). by apply not_elem_of_nil in Hk. }
  rewrite !Hf by (refine (proj1 (bool_decide_eq_true _) _); vm_compute; reflexivity). unfold response_members. cbn [app take].
  change (field (str "id") _) with (Some (JText (md_ID (as_Metadata s)))).
  change (field (str "model") _) with (Some (JText (md_Model (as_Metadata s)))).
  change (field (str "created") _) with (Some (JInt (default 0 (md_Created (as_Metadata s))))). cbn iota.
  rewrite !first_string_print by done. f_equal. set (n := default 0 _) in *.
  destruct (print_head 0 (JInt n) (JInt_ok 0 n Hc)) as (c & t & E & _). rewrite E. cbn [length Nat.eqb]. rewrite <-E.
  cbn [print JInt]. rewrite TrimSpace_number by done. pose proof (print_null (JInt n) 0 (JInt_ok 0 n Hc)) as Hnull. cbn [print JInt is_null] in Hnull.
  unfold isJSONNull in Hnull. rewrite TrimSpace_number in Hnull by done. rewrite Hnull. unfold Unmarshal_int64.
  change (FormatInt n) with (print (JInt n)). rewrite parse_printed by (by apply JInt_ok). cbn [shape_of JInt].
  by rewrite (proj2 (FormatInt_reads n Hc)).
Qed.

(** ** The rendered response, observed and accumulated again *)

Definition rendered_metadata (s : AccumulatorState) : ResponseMetadata :=
  mkMetadata (md_ID (as_Metadata s)) (md_Model (as_Metadata s)) (Some (default 0 (md_Created (as_Metadata s)))).

Definition rendered_usage (s : AccumulatorState) (u : Usage) : UsageObservation :=
  if some_count (as_Usage s)
  then mkUsageObservation u (uo_InputTokens (as_Usage s)) (uo_OutputTokens (as_Usage s)) (uo_TotalTokens (as_Usage s))
  else noUsageObservation.

Lemma observe_rendered name s u :
  state_text s → name ≠ str "response.completed" → NewUsage (usage_input_of (as_Usage s)) = Ok u →
  ∃ o, Observer_Observe (mkEvent name (print (renderResponse s))) NewObserver = Ok o ∧
    os_Choices (ob_state o) = map choice_observation (as_Choices s) ∧ os_Usage (ob_state o) = rendered_usage s u ∧
    os_EventsObserved (ob_state o) = 1 ∧ ob_metadata o = rendered_metadata s.
Proof.
  intros Hs Hname Hu. rewrite renderResponse_members, Observe_printed by (done || by apply response_chunk_ok).
  pose proof (observeMetadata_rendered s Hs) as Hmd. destruct Hs as (_ & _ & _ & Hch & Hi & Ho & Ht).
  assert (∀ canonical, let o := record_chunk (chunk_of (response_members s)) canonical NewObserver in
    os_Choices (ob_state o) = map choice_observation (as_Choices s) ∧
    os_Usage (ob_state o) = match canonical with Some usage => usageObservationFromCanonical usage | None => noUsageObservation end ∧
    os_EventsObserved (ob_state o) = 1 ∧ ob_metadata o = rendered_metadata s) as Hrec.
  { intros canonical. unfold record_chunk. cbn [ob_state ob_metadata NewObserver]. rewrite Hmd.
    assert (raw_of "choices" (response_members s) = print (JArray (map renderChoice (as_Choices s)))) as Ec.
    { unfold raw_of, response_members. rewrite field_app. by destruct (some_count _). }
    cbn [ch_Choices chunk_of]. rewrite Ec. unfold observeChoices.
    destruct (Unmarshal_raws_print renderChoice 5 (as_Choices s)) as [-> ->]; [lia| |].
    { eapply Forall_impl; [exact Hch|]. intros c. apply renderChoice_ok. }
    change (default [] (Some ?l)) with l. rewrite (omap_map_some _ _ choice_observation).
    2: { eapply Forall_impl; [exact Hch|]. intros c. apply decodeChoice_print. }
    destruct (addChoices_state (map choice_observation (as_Choices s)) (mkObserverState (add64 0 1) false [] ∅ noUsageObservation)) as (E1 & E2 & E3 & _).
    cbn [os_EventsObserved os_DoneObserved os_Choices os_LatestFinishReasons os_Usage] in *.
    destruct canonical; cbn [os_EventsObserved os_DoneObserved os_Choices os_LatestFinishReasons os_Usage]; by rewrite ?E1, ?E2, ?E3. }
  assert (field (str "usage") (response_members s) = if some_count (as_Usage s) then Some (JObject (usage_members (as_Usage s))) else None) as ->.
  { unfold response_members. rewrite field_app. by destruct (some_count _). }
  unfold rendered_usage. destruct (some_count (as_Usage s)) eqn:Es.
  - rewrite (tree_usage_members _ u) by done. cbn [ur_Observed ur_Usage]. change (uo_Usage _) with emptyUsage. rewrite (merge_empty _ _ Hu).
    eexists. split; [done|]. destruct (Hrec (Some u)) as (-> & -> & -> & ->). by rewrite (merge_FromCanonical _ _ Hu).
  - eexists. split; [done|]. apply (Hrec None).
Qed.

Lemma filter_singleton {A} (f : A → Z) l x : NoDup (map f l) → x ∈ l → filter (λ y, f y = f x) l = [x].
Proof.
  induction l as [|y l IH]; [by intros _ ?%not_elem_of_nil|]. cbn [map]. intros [Hn Hnd]%NoDup_cons Hin. rewrite filter_cons.
  assert (∀ z, z ∉ map f l → filter (λ y, f y = z) l = []) as Hnone.
  { clear. intros z Hz. induction l as [|y l IH]; [done|]. cbn [map] in Hz. apply not_elem_of_cons in Hz as [? ?]. rewrite filter_cons.
    destruct (decide (f y = z)); [congruence|auto]. }
  apply elem_of_cons in Hin as [->|Hin].
  - destruct (decide (f y = f y)); [|done]. by rewrite Hnone.
  - destruct (decide (f y = f x)) as [E|]; [|by apply IH]. destruct Hn. rewrite E. apply list_elem_of_fmap. eauto.
Qed.

Lemma firsts_NoDup l : NoDup l → firsts l = l.
Proof.
  induction l as [|x l IH] using rev_ind; [done|]. intros (Hn & Hd & _)%NoDup_app. rewrite firsts_snoc, IH by done.
  rewrite bool_decide_false; [done|]. intros Hx. apply (Hd _ Hx). by left.
Qed.

Lemma first_nonempty_one s : first_nonempty [s] = s.
Proof. by destruct s. Qed.

Lemma calls_ref_observed calls : NoDup (map at_Index calls) → calls_ref (map tool_observation calls) = calls.
Proof.
  intros Hn. unfold calls_ref. rewrite map_map. cbn [tool_observation tc_Index].
  change (map (λ x, at_Index x) calls) with (map at_Index calls). rewrite firsts_NoDup, map_map by done.
  transitivity (map id calls); [|apply map_id]. apply map_ext_in. intros c Hc%list_elem_of_In. unfold call_ref.
  rewrite (filter_singleton tc_Index _ (tool_observation c)).
  - cbn. rewrite !first_nonempty_one, app_nil_r. by destruct c as [? ? ? []].
  - rewrite map_map. done.
  - apply list_elem_of_fmap. eauto.
Qed.

(** The finish reason of a rendered choice is always present, perhaps null. *)
Definition with_reason_present (c : AccumulatedChoice) : AccumulatedChoice :=
  mkChoice (ac_Index c) (ac_Message c) (ac_ToolCalls c) (ac_FinishReason c) true.

Definition distinct_indices (cs : list AccumulatedChoice) : Prop :=
  NoDup (map ac_Index cs) ∧ Forall (λ c, NoDup (map at_Index (ac_ToolCalls c))) cs.

Lemma choices_ref_observed cs : distinct_indices cs →
  let os := map choice_observation cs in map (choice_ref os) (firsts (map co_Index os)) = map with_reason_present cs.
Proof.
  intros [Hn Ht] os. subst os. rewrite map_map. change (map (λ x, co_Index (choice_observation x)) cs) with (map ac_Index cs).
  rewrite firsts_NoDup, map_map by done. apply map_ext_in. intros c Hc%list_elem_of_In. unfold choice_ref.
  rewrite (filter_singleton co_Index _ (choice_observation c)); [|by rewrite map_map|apply list_elem_of_fmap; eauto].
  rewrite Forall_forall in Ht. rewrite !omap_step.
  cbn [map concat existsb choice_observation co_Delta do_Role do_Content do_ToolCalls co_FinishReason co_FinishReasonPresent omap list_omap].
  rewrite first_nonempty_one, !app_nil_r, calls_ref_observed by (by apply Ht).
  unfold with_reason_present. destruct c as [i [] ? fr ?]. cbn. by destruct fr.
Qed.

Lemma renderResponse_again s metadata usage by_index payload terminal :
  md_ID metadata = md_ID (as_Metadata s) → md_Model metadata = md_Model (as_Metadata s) →
  default 0 (md_Created metadata) = default 0 (md_Created (as_Metadata s)) → renderUsage usage = renderUsage (as_Usage s) →
  renderResponse (mkAccumulatorState metadata (map with_reason_present (as_Choices s)) by_index usage payload terminal) = renderResponse s.
Proof.
  intros E1 E2 E3 E4. unfold renderResponse. cbn [as_Metadata as_Choices as_Usage]. rewrite E1, E2, E3, E4, map_map. done.
Qed.

Lemma meaningful_again cs : hasMeaningfulChoice cs = true → hasMeaningfulChoice (map with_reason_present cs) = true.
Proof. destruct cs as [|c cs]; [done|]. intros _. cbn. by rewrite !orb_true_r. Qed.

(** The accumulator after one observation of a rendered response. *)
Lemma accumulate_rendered max s u o :
  0 < max ≤ maxInt64 → distinct_indices (as_Choices s) → sumZ observation_size (map choice_observation (as_Choices s)) ≤ max →
  hasMeaningfulChoice (as_Choices s) = true →
  os_Choices (ob_state o) = map choice_observation (as_Choices s) → os_Usage (ob_state o) = rendered_usage s u → ob_metadata o = rendered_metadata s →
  let '(err, a) := Accumulate (mkObserved (os_Choices (ob_state o)) (os_Usage (ob_state o)) (ob_metadata o)) (fresh max) in
  err = None ∧ as_Choices (snapshot a) = map with_reason_present (as_Choices s) ∧ RenderChatCompletion (snapshot a) = Ok (print (renderResponse s)).
Proof.
  intros Hmax Hd Hsize Hmean E1 E2 E3. rewrite E1, E2, E3. set (r := mkObserved _ _ _).
  assert (total [r] = sumZ observation_size (map choice_observation (as_Choices s))) as Ht by (unfold total, all_choices; cbn; by rewrite app_nil_r).
  pose proof (accumulate_fits max Hmax [r] ltac:(lia)) as (Hh & _ & _ & _ & Hmd & Hu).
  assert (all_choices [r] = map choice_observation (as_Choices s)) as Ha by (unfold all_choices; cbn; by rewrite app_nil_r).
  rewrite Ha in Hh. apply holds_snapshot in Hh. rewrite choices_ref_observed in Hh by done. cbn [accumulate_all foldl] in *.
  destruct (Accumulate r (fresh max)) as [err a] eqn:E. cbn [snd] in *. split_and!; [|done|].
  - unfold Accumulate in E. cbn [terminal fresh] in E. destruct (applyChoiceObservations _ _) eqn:Ea; [by injection E as <- _|].
    injection E as _ <-. cbn in Hh. by destruct (as_Choices s).
  - unfold RenderChatCompletion. rewrite Hh, meaningful_again by done. cbn [negb]. do 2 f_equal. unfold snapshot in *. cbn [as_Choices] in Hh. rewrite Hh, Hmd, Hu.
    cbn [map foldl or_Metadata or_Usage r]. apply renderResponse_again; [done..|]. unfold rendered_usage, mergeUsage. rewrite !renderUsage_members.
    destruct (some_count (as_Usage s)) eqn:Es; [|done].
    assert (∀ x, latest None x = x) as Hl by (by intros []). unfold mergeUsageObservation, some_count, usage_input_of, usage_members in *.
    cbn [uo_InputTokens uo_OutputTokens uo_TotalTokens noUsageObservation]. rewrite !Hl. by rewrite Es.
Qed.

(** C35: Rendering loses nothing that the gateway reads.  For every snapshot
    with valid UTF-8 texts, 64-bit numbers and distinct indices, the rendered
    body is accepted as one chunk by a new observer; its choices (roles,
    contents, tool calls with their identifiers and arguments, finish
    reasons), metadata and counts are those of the snapshot, and a new
    accumulator that takes them holds the same choices and renders the same
    bytes again. *)
Theorem render_roundtrip max s body u a0 :
  RenderChatCompletion s = Ok body → state_text s → distinct_indices (as_Choices s) →
  NewUsage (usage_input_of (as_Usage s)) = Ok u → NewChatAccumulator max = Ok a0 → max ≤ maxInt64 →
  sumZ observation_size (map choice_observation (as_Choices s)) ≤ max →
  ∃ o, Observer_Observe (mkEvent [] body) NewObserver = Ok o ∧
    os_Choices (ob_state o) = map choice_observation (as_Choices s) ∧ os_Usage (ob_state o) = rendered_usage s u ∧
    ob_metadata o = rendered_metadata s ∧
    let '(err, a) := Accumulate (mkObserved (os_Choices (ob_state o)) (os_Usage (ob_state o)) (ob_metadata o)) a0 in
    err = None ∧ as_Choices (snapshot a) = map with_reason_present (as_Choices s) ∧ RenderChatCompletion (snapshot a) = Ok body.
Proof.
  intros Hr Hs Hd Hu Ha Hm Hsize. unfold RenderChatCompletion in Hr. destruct (hasMeaningfulChoice (as_Choices s)) eqn:Hmean; [|done].
  cbn [negb] in Hr. injection Hr as <-. unfold NewChatAccumulator in Ha. destruct (Z.leb_spec max 0); [done|]. injection Ha as <-.
  destruct (observe_rendered [] s u Hs ltac:(done) Hu) as (o & Ho & E1 & E2 & _ & E3). exists o. split_and!; try done.
  by apply (accumulate_rendered max s u o).
Qed.

Definition demo_state : AccumulatorState :=
  mkAccumulatorState (mkMetadata (str "c1") (str "m") None)
    [mkChoice 0 (mkMessage (str "assistant") (chr 34 :: chr 10 :: str "<b>")) [] (Some (str "stop")) true;
     mkChoice 2 (mkMessage [] []) [mkToolCall 1 (str "t") (str "function") (mkFunction (str "f") (str "{}"))] None false]
    ∅ (mkUsageObservation emptyUsage (Some 3) (Some 4) None) 7 false.

Lemma render_roundtrip_witness :
  ∃ body u a0, RenderChatCompletion demo_state = Ok body ∧ NewUsage (usage_input_of (as_Usage demo_state)) = Ok u ∧
  NewChatAccumulator 64 = Ok a0 ∧
  ∃ o, Observer_Observe (mkEvent [] body) NewObserver = Ok o ∧ os_Choices (ob_state o) = map choice_observation (as_Choices demo_state).
Proof.
  do 3 eexists. do 3 (split; [reflexivity|]).
  edestruct (render_roundtrip 64 demo_state) as (o & H1 & H2 & _); [reflexivity| | |reflexivity|reflexivity|by vm_compute|by vm_compute|by exists o].
  - split; [reflexivity|]. split; [reflexivity|]. split; [split; by vm_compute|].
    split; [|split_and!; intros v; cbn; [intros [= <-]; by split..|done]].
    repeat (apply Forall_cons; split); [..|apply Forall_nil_2]; split_and!; try match goal with |- int64 _ => split; by vm_compute | |- _ = true => reflexivity end.
    + apply Forall_nil_2.
    + by intros r [= <-].
    + apply Forall_cons. split; [split_and!; match goal with |- int64 _ => split; by vm_compute | |- _ = true => reflexivity end|apply Forall_nil_2].
    + done.
  - split; [|repeat constructor; cbn; set_solver]. refine (proj1 (bool_decide_eq_true _) _). by vm_compute.
Defined.
