(* ===== verification/ChatStream.v ===== *)
(** * Stream drivers ([internal/protocol/openai/aggregation.go] and [observation.go])

    Two loops over the events of a stream: the aggregation, which stops at
    [[DONE]], at the end or at the first error and renders one response, and
    the observation, which collects what it can and goes on.  The callbacks
    that read the clock are functions of the number of the call; a zero
    [time.Time] is [None].  Every successful [Next] consumes input, so one
    iteration more than the length of the input is enough fuel. *)

From Stdlib Require Import Ascii ZArith Lia ZifyBool.
From stdpp Require Import prelude strings list gmap.
From S2P Require Import Prelude Text Utf8 Usage SSEParser Json JsonCodec UsageJson ChatObserver ChatAccumulator ChatRender.
Local Open Scope Z_scope.

#[local] Arguments str : simpl never.
#[local] Opaque maxNestingDepth.

(** ** Meaningful events *)

Definition meaningfulUsage (usage : UsageObservation) : bool := usageKnown (uo_Usage usage).

Definition nonempty (s : option bytes) : bool := match s with Some (_ :: _) => true | _ => false end.

Definition meaningfulObservation (state : ObserverState) (previousChoices : nat) (previousUsageKnown : bool) : bool :=
  (meaningfulUsage (os_Usage state) && negb previousUsageKnown)
  || existsb (λ choice, co_FinishReasonPresent choice || bool_decide (is_Some (co_FinishReason choice))
       || nonempty (do_Content (co_Delta choice)) || negb (length (do_ToolCalls (co_Delta choice)) =? 0)%nat)
     (drop previousChoices (os_Choices state)).

Record meaningfulDelta := mkMeaningfulDelta {
  me_Content : option bytes; me_Reasoning : option bytes; me_ReasoningContent : option bytes; me_ToolCalls : bytes }.
Record meaningfulChoice := mkMeaningfulChoice { me_Delta : meaningfulDelta; me_FinishReason : bytes }.
Record meaningfulChunk := mkMeaningfulChunk { me_Choices : slice meaningfulChoice; me_Usage : bytes; me_Response : bytes }.

Definition set_meaningfulDelta (name raw : bytes) (d : meaningfulDelta) : option meaningfulDelta :=
  if bool_decide (name = str "content") then
    p ← Unmarshal_pointer Unmarshal_string [] (me_Content d) raw; Some (mkMeaningfulDelta p (me_Reasoning d) (me_ReasoningContent d) (me_ToolCalls d))
  else if bool_decide (name = str "reasoning") then
    p ← Unmarshal_pointer Unmarshal_string [] (me_Reasoning d) raw; Some (mkMeaningfulDelta (me_Content d) p (me_ReasoningContent d) (me_ToolCalls d))
  else if bool_decide (name = str "reasoning_content") then
    p ← Unmarshal_pointer Unmarshal_string [] (me_ReasoningContent d) raw; Some (mkMeaningfulDelta (me_Content d) (me_Reasoning d) p (me_ToolCalls d))
  else Some (mkMeaningfulDelta (me_Content d) (me_Reasoning d) (me_ReasoningContent d) raw).

Definition meaningfulDelta_fields : list bytes := [str "content"; str "reasoning"; str "reasoning_content"; str "tool_calls"].

Definition set_meaningfulChoice (name raw : bytes) (c : meaningfulChoice) : option meaningfulChoice :=
  if bool_decide (name = str "delta") then
    d ← Unmarshal_known meaningfulDelta_fields set_meaningfulDelta (me_Delta c) raw; Some (mkMeaningfulChoice d (me_FinishReason c))
  else Some (mkMeaningfulChoice (me_Delta c) raw).

Definition zeroMeaningfulChoice : meaningfulChoice := mkMeaningfulChoice (mkMeaningfulDelta None None None []) [].

Definition set_meaningfulChunk (name raw : bytes) (c : meaningfulChunk) : option meaningfulChunk :=
  if bool_decide (name = str "choices") then
    l ← Unmarshal_slice (Unmarshal_known [str "delta"; str "finish_reason"] set_meaningfulChoice) zeroMeaningfulChoice (me_Choices c) raw;
    Some (mkMeaningfulChunk l (me_Usage c) (me_Response c))
  else if bool_decide (name = str "usage") then Some (mkMeaningfulChunk (me_Choices c) raw (me_Response c))
  else Some (mkMeaningfulChunk (me_Choices c) (me_Usage c) raw).

Definition Unmarshal_meaningfulChunk (raw : bytes) : option meaningfulChunk :=
  Unmarshal_known [str "choices"; str "usage"; str "response"] set_meaningfulChunk (mkMeaningfulChunk ([], []) [] []) raw.

Definition jsonUsageMeaningful (raw : bytes) : bool :=
  match parseJSONUsageObject raw with Ok parsed => ur_Observed parsed | Err _ => false end.

Definition nonEmptyJSONArray (raw : bytes) : bool :=
  if (length (TrimSpace raw) =? 0)%nat then false
  else match Unmarshal_raws raw with Some (Some values) => negb (length values =? 0)%nat | _ => false end.

(** The nested usage of a Responses envelope. *)
Definition responseUsageMeaningful (raw : bytes) : bool :=
  match Unmarshal_map raw with
  | Some (Some nested) => match field (str "usage") nested with Some usage => jsonUsageMeaningful usage | None => false end
  | _ => false
  end.

Definition meaningfulEvent (event : SSEEvent) (state : ObserverState) (previousChoices : nat) (previousUsageKnown : bool) : bool :=
  meaningfulObservation state previousChoices previousUsageKnown
  || match Unmarshal_meaningfulChunk (se_Data event) with
     | None => false
     | Some chunk =>
         jsonUsageMeaningful (me_Usage chunk)
         || (negb (bool_decide (me_Response chunk = [])) && responseUsageMeaningful (me_Response chunk))
         || existsb (λ choice,
              negb (bool_decide (me_FinishReason choice = [])) || nonempty (me_Content (me_Delta choice))
              || nonempty (me_Reasoning (me_Delta choice)) || nonempty (me_ReasoningContent (me_Delta choice))
              || nonEmptyJSONArray (me_ToolCalls (me_Delta choice))) (me_Choices chunk).1
     end.

(** ** Aggregation *)

Inductive aggregation_error :=
| ErrInvalidAggregationLimit
| ErrInvalidReader
| ErrEmptyStream
| ErrStreamIncomplete
| AggregationRead (e : read_error)
| AggregationObserve (e : observe_error)
| AggregationAccumulate (e : accumulator_error)
| AggregationRender (e : render_error).

Record AggregationResult := mkAggregationResult {
  ag_JSON : bytes; ag_Usage : Usage; ag_Observed : bool; ag_Done : bool; ag_LastMeaningfulAt : option Z }.

Definition emptyAggregation : AggregationResult := mkAggregationResult [] emptyUsage false false None.

Definition partialAggregationResult (accumulator : ChatAccumulator) : AggregationResult :=
  let usage := as_Usage (snapshot accumulator) in
  mkAggregationResult [] (uo_Usage usage) (usageKnown (uo_Usage usage)) false None.

Definition aggregationResultWithTiming (accumulator : ChatAccumulator) (done : bool) (at_ : option Z) : result render_error AggregationResult :=
  let state := snapshot accumulator in
  let? body := RenderChatCompletion state in
  Ok (mkAggregationResult body (uo_Usage (as_Usage state)) (usageKnown (uo_Usage (as_Usage state))) done at_).

(** The variables of the loop; [calls] counts the readings of the clock. *)
Record aggregation := mkAggregation {
  g_reader : Reader;
  g_accumulator : ChatAccumulator;
  g_observer : Observer;
  g_lastMeaningfulAt : option Z;
  g_timingInvalid : bool;
  g_previousUsageKnown : bool;
  g_events : Z;
  g_calls : nat;
}.

Abbreviation outcome := (AggregationResult * option aggregation_error)%type.

Definition valid_timing (g : aggregation) : option Z := if g_timingInvalid g then None else g_lastMeaningfulAt g.

(** Reading the clock after a meaningful event. *)
Definition record_timing (clock : option (nat → option Z)) (event : SSEEvent) (previousChoices : nat) (g : aggregation) : option Z * bool * nat :=
  match clock with
  | Some now =>
      if meaningfulEvent event (ob_state (g_observer g)) previousChoices (g_previousUsageKnown g) then
        match now (g_calls g) with
        | None => (g_lastMeaningfulAt g, g_timingInvalid g, S (g_calls g))
        | Some t =>
            match g_lastMeaningfulAt g with
            | Some before => if t <? before then (g_lastMeaningfulAt g, true, S (g_calls g))
                             else (if g_timingInvalid g then g_lastMeaningfulAt g else Some t, g_timingInvalid g, S (g_calls g))
            | None => (if g_timingInvalid g then g_lastMeaningfulAt g else Some t, g_timingInvalid g, S (g_calls g))
            end
        end
      else (g_lastMeaningfulAt g, g_timingInvalid g, g_calls g)
  | None => (g_lastMeaningfulAt g, g_timingInvalid g, g_calls g)
  end.

(** What follows an event that is not [[DONE]]. *)
Definition aggregate_event (clock : option (nat → option Z)) (event : SSEEvent) (g : aggregation) : outcome + aggregation :=
  let previousChoices := length (os_Choices (ob_state (g_observer g))) in
  match Observer_Observe event (g_observer g) with
  | Err e => inl (partialAggregationResult (g_accumulator g), Some (AggregationObserve e))
  | Ok observer =>
      let fullState := ob_state observer in
      let observed := mkObserved (drop previousChoices (os_Choices fullState)) (os_Usage fullState) (ob_metadata observer) in
      let '(err, accumulator) := Accumulate observed (g_accumulator g) in
      match err with
      | Some e => inl (partialAggregationResult accumulator, Some (AggregationAccumulate e))
      | None =>
          let g := mkAggregation (g_reader g) accumulator observer (g_lastMeaningfulAt g) (g_timingInvalid g)
                     (g_previousUsageKnown g) (add64 (g_events g) 1) (g_calls g) in
          let '(at_, invalid, calls) := record_timing clock event previousChoices g in
          inr (mkAggregation (g_reader g) accumulator observer at_ invalid (meaningfulUsage (os_Usage fullState)) (g_events g) calls)
      end
  end.

Definition with_reader (r : Reader) (g : aggregation) : aggregation :=
  mkAggregation r (g_accumulator g) (g_observer g) (g_lastMeaningfulAt g) (g_timingInvalid g) (g_previousUsageKnown g) (g_events g) (g_calls g).

(** What follows an error of the reader. *)
Definition aggregate_end (e : read_error) (g : aggregation) : outcome :=
  match e with
  | EOF =>
      if g_events g =? 0 then (emptyAggregation, Some ErrEmptyStream)
      else
        match aggregationResultWithTiming (g_accumulator g) false (valid_timing g) with
        | Ok res => (res, None)
        | Err e => (emptyAggregation, Some (AggregationRender e))
        end
  | ErrEventIncomplete => (partialAggregationResult (g_accumulator g), Some ErrStreamIncomplete)
  | _ => (partialAggregationResult (g_accumulator g), Some (AggregationRead e))
  end.

(** What follows [[DONE]]: the reader is not called again. *)
Definition aggregate_done (g : aggregation) : outcome :=
  if g_events g =? 0 then (emptyAggregation, Some (AggregationRender ErrInvalidAccumulatorState))
  else
    match aggregationResultWithTiming (g_accumulator g) true (valid_timing g) with
    | Ok res => (res, None)
    | Err e => (partialAggregationResult (g_accumulator g), Some (AggregationRender e))
    end.

(** The loop; the outer [None] would be running out of fuel. *)
Fixpoint aggregate_loop (clock : option (nat → option Z)) (fuel : nat) (g : aggregation) : option outcome :=
  match fuel with
  | O => None
  | S fuel =>
      match Reader_Next (g_reader g) with
      | None => None
      | Some (Err e, r) => Some (aggregate_end e (with_reader r g))
      | Some (Ok event, r) =>
          let g := with_reader r g in
          if bool_decide (se_Data event = done_data) then Some (aggregate_done g)
          else
            match aggregate_event clock event g with
            | inl out => Some out
            | inr g => aggregate_loop clock fuel g
            end
      end
  end.

Definition aggregateSSEToJSONWithTiming (source : option (bytes * source_end)) (maxEventSize maxPayload : Z) (clock : option (nat → option Z))
    : option outcome :=
  if (maxEventSize <=? 0) || (maxPayload <=? 0) then Some (emptyAggregation, Some ErrInvalidAggregationLimit)
  else
    match NewReader source maxEventSize with
    | None => Some (emptyAggregation, Some ErrInvalidReader)
    | Some reader =>
        match NewChatAccumulator maxPayload with
        | Err e => Some (emptyAggregation, Some (AggregationAccumulate e))
        | Ok accumulator =>
            aggregate_loop clock (S (length (input reader))) (mkAggregation reader accumulator NewObserver None false false 0 0)
        end
    end.

Definition AggregateSSEToJSONWithResult source maxEventSize maxPayload := aggregateSSEToJSONWithTiming source maxEventSize maxPayload None.
Definition AggregateSSEToJSON source maxEventSize maxPayload : option (bytes * option aggregation_error) :=
  (λ out, (ag_JSON out.1, out.2)) <$> AggregateSSEToJSONWithResult source maxEventSize maxPayload.
Definition AggregateSSEToJSONWithTermination source maxEventSize maxPayload : option (bytes * bool * option aggregation_error) :=
  (λ out, (ag_JSON out.1, ag_Done out.1, out.2)) <$> AggregateSSEToJSONWithResult source maxEventSize maxPayload.

(** ** Observation *)

Record ObservationResult := mkObservationResult {
  obs_State : ObserverState;
  obs_Metadata : ResponseMetadata;
  obs_Errors : list observe_error;
  obs_LastMeaningfulOffset : Z;
  obs_LastMeaningfulAt : option Z;
}.

(** The variables of the loop. *)
Record observation := mkObservation {
  v_reader : Reader;
  v_observer : Observer;
  v_errors : list observe_error;
  v_offset : Z;
  v_at : option Z;
  v_calls : nat;
}.

Definition observe_event (clock : option (nat → Z → option Z)) (event : SSEEvent) (v : observation) : observation :=
  if os_DoneObserved (ob_state (v_observer v)) then
    (* only the framing of what follows [DONE] is checked *)
    match Observer_Observe event NewObserver with
    | Err e => mkObservation (v_reader v) (v_observer v) (v_errors v ++ [e]) (v_offset v) (v_at v) (v_calls v)
    | Ok _ => v
    end
  else
    let previousChoices := length (os_Choices (ob_state (v_observer v))) in
    let previousUsageKnown := meaningfulUsage (os_Usage (ob_state (v_observer v))) in
    match Observer_Observe event (v_observer v) with
    | Err e => mkObservation (v_reader v) (v_observer v) (v_errors v ++ [e]) (v_offset v) (v_at v) (v_calls v)
    | Ok observer =>
        if negb (bool_decide (se_Data event = done_data)) && meaningfulEvent event (ob_state observer) previousChoices previousUsageKnown then
          let off := Reader_LastEventEndOffset (v_reader v) in
          match clock with
          | Some now => mkObservation (v_reader v) observer (v_errors v) off (now (v_calls v) off) (S (v_calls v))
          | None => mkObservation (v_reader v) observer (v_errors v) off (v_at v) (v_calls v)
          end
        else mkObservation (v_reader v) observer (v_errors v) (v_offset v) (v_at v) (v_calls v)
    end.

Definition normalizeObservationEOF (e : read_error) : option read_error := match e with EOF => None | _ => Some e end.

Definition observation_result (v : observation) : ObservationResult :=
  mkObservationResult (ob_state (v_observer v)) (ob_metadata (v_observer v)) (v_errors v) (v_offset v) (v_at v).

Definition with_observation_reader (r : Reader) (v : observation) : observation :=
  mkObservation r (v_observer v) (v_errors v) (v_offset v) (v_at v) (v_calls v).

Fixpoint observe_loop (clock : option (nat → Z → option Z)) (fuel : nat) (v : observation) : option (ObservationResult * option read_error) :=
  match fuel with
  | O => None
  | S fuel =>
      match Reader_Next (v_reader v) with
      | None => None
      | Some (Err e, r) => Some (observation_result v, normalizeObservationEOF e)
      | Some (Ok event, r) => observe_loop clock fuel (observe_event clock event (with_observation_reader r v))
      end
  end.

(** The inner [None] is the construction error of the reader. *)
Definition ObserveStreamWithTiming (source : option (bytes * source_end)) (maxEventSize : Z) (clock : option (nat → Z → option Z))
    : option (option (ObservationResult * option read_error)) :=
  match NewReader source maxEventSize with
  | None => Some None
  | Some reader => Some <$> observe_loop clock (S (length (input reader))) (mkObservation reader NewObserver [] 0 None 0)
  end.

Definition ObserveStream source maxEventSize := ObserveStreamWithTiming source maxEventSize None.

(** ** The loops over the events of the stream *)

(** Aggregation and observation of a list of events that ends with an error of the reader. *)
Fixpoint aggregate_list (clock : option (nat → option Z)) (events : list SSEEvent) (e : read_error) (g : aggregation) : outcome :=
  match events with
  | [] => aggregate_end e g
  | event :: events =>
      if bool_decide (se_Data event = done_data) then aggregate_done g
      else match aggregate_event clock event g with inl out => out | inr g => aggregate_list clock events e g end
  end.

Section loops.

Lemma Reader_Next_step r : reader_ok r →
  ∃ res r', Reader_Next r = Some (res, r') ∧ reader_ok r' ∧ (is_ok res = true → (length (input r') < length (input r))%nat).
Proof.
  intros Hok. unfold Reader_Next. destruct (terminalErr r) as [e|] eqn:Ht; [by exists (Err e), r|].
  destruct (Next_loop_ok (S (length (input r))) r Hok Ht) as (res & r' & E & Hok' & (p & Hp & Ho & _) & Hn); [lia|].
  exists res, r'. split_and!; [done..|]. destruct res as [ev|e]; [|done]. intros _. destruct Hn as (_ & _ & Hlt & _).
  apply (f_equal length) in Hp. rewrite length_app in Hp. lia.
Qed.

(** Reading to the end terminates, whatever the limit. *)
Lemma read_to_end_total n r : reader_ok r → (length (input r) < n)%nat → ∃ evs e, read_to_end n r = Some (evs, e).
Proof.
  revert r. induction n as [|n IH]; intros r Hok Hn; [lia|]. cbn [read_to_end].
  destruct (Reader_Next_step r Hok) as ([ev|e] & r' & -> & Hok' & Hlt); [|by eexists _, _].
  destruct (IH r' Hok') as (evs & e & ->); [specialize (Hlt eq_refl); lia|]. by eexists _, _.
Qed.

Lemma aggregate_event_reader clock event r g :
  aggregate_event clock event (with_reader r g) =
  match aggregate_event clock event g with inl out => inl out | inr g' => inr (with_reader r g') end.
Proof.
  destruct g as [r0 a o l ti pu n k]. unfold aggregate_event, with_reader.
  cbn [g_observer g_accumulator g_reader g_calls g_timingInvalid g_previousUsageKnown g_lastMeaningfulAt g_events].
  destruct (Observer_Observe _ _); [|done].
  destruct (Accumulate _ _) as [[]?]; [done|]. unfold record_timing. cbn [g_observer g_calls g_timingInvalid g_previousUsageKnown g_lastMeaningfulAt g_events g_reader].
  destruct clock as [now|]; [|done]. destruct (meaningfulEvent _ _ _ _); [|done]. destruct (now _); [|done].
  destruct l; [|done]. by destruct (_ <? _).
Qed.

Lemma aggregate_list_reader clock events e r g : aggregate_list clock events e (with_reader r g) = aggregate_list clock events e g.
Proof.
  revert g. induction events as [|ev events IH]; intros g; cbn [aggregate_list]; [done|].
  destruct (bool_decide _); [done|]. rewrite aggregate_event_reader. by destruct (aggregate_event clock ev g).
Qed.

Lemma aggregate_loop_list clock n g evs e :
  read_to_end n (g_reader g) = Some (evs, e) → aggregate_loop clock n g = Some (aggregate_list clock evs e g).
Proof.
  revert g evs. induction n as [|n IH]; intros g evs; [done|]. cbn [read_to_end aggregate_loop].
  destruct (Reader_Next (g_reader g)) as [[[ev|err] r']|]; [| |done].
  - destruct (read_to_end n r') as [[evs' e']|] eqn:E; [|done]. intros [= <- <-]. cbn [aggregate_list].
    destruct (bool_decide _); [done|]. rewrite aggregate_event_reader. destruct (aggregate_event clock ev g) as [out|g']; [done|].
    rewrite (IH (with_reader r' g') evs') by done. by rewrite aggregate_list_reader.
  - intros [= <- <-]. done.
Qed.

Definition start (reader : Reader) (maxPayload : Z) : aggregation := mkAggregation reader (fresh maxPayload) NewObserver None false false 0 0.

Lemma aggregate_start source maxEvent maxPayload clock reader :
  NewReader source maxEvent = Some reader → 0 < maxPayload →
  aggregateSSEToJSONWithTiming source maxEvent maxPayload clock = aggregate_loop clock (S (length (input reader))) (start reader maxPayload).
Proof.
  intros Hr Hp. unfold aggregateSSEToJSONWithTiming. rewrite Hr. destruct (Z.leb_spec maxEvent 0) as [H|].
  { unfold NewReader in Hr. destruct source as [[]|]; [|done]. by destruct (Z.leb_spec maxEvent 0); [|lia]. }
  unfold NewChatAccumulator. by destruct (Z.leb_spec maxPayload 0); [lia|].
Qed.

End loops.

(** Aggregation always returns, and it is a fold over the events of the
    stream.  For every input, positive limits and clock, the loop ends within
    its fuel with the outcome of handling the events one by one until
    [[DONE]], an observer or overflow error, or the reader's final error; and
    when the input fits the event limit those events are the ones the
    line-based reference definition of the stream gives. *)
Theorem aggregate_is_fold s e maxEvent maxPayload clock reader :
  NewReader (Some (s, e)) maxEvent = Some reader → 0 < maxPayload → maxEvent ≤ maxInt64 → lenZ s ≤ maxInt64 →
  ∃ events err, read_to_end (S (length s)) reader = Some (events, err) ∧
    aggregateSSEToJSONWithTiming (Some (s, e)) maxEvent maxPayload clock = Some (aggregate_list clock events err (start reader maxPayload)) ∧
    (lenZ s ≤ maxEvent → events = stream_events s ∧ err = stream_error s e).
Proof.
  intros Hr Hp Hm Hl. assert (input reader = s) as Hs.
  { unfold NewReader in Hr. destruct (maxEvent <=? 0); [done|]. by injection Hr as <-. }
  destruct (read_to_end_total (S (length s)) reader) as (events & err & E); [by eapply NewReader_ok|rewrite Hs; lia|].
  exists events, err. split_and!; [done| |].
  - rewrite (aggregate_start _ _ _ _ _ Hr) by done. rewrite Hs. by apply aggregate_loop_list.
  - intros Hfit. unfold NewReader in Hr. destruct (Z.leb_spec maxEvent 0); [done|]. injection Hr as <-.
    destruct (stream_lines s) as [ls rest] eqn:El.
    rewrite (read_to_end_ref _ _ ls rest) in E; [|simpl; lia|by apply tracks_nil|unfold fits; simpl; lia|done].
    injection E as <- <-. unfold stream_events, stream_error, stream_frames. by rewrite El.
Qed.

Definition demo_sse : bytes :=
  concat (map SSEParser.encode
    [mkEvent [] (print (JObject [(str "id", JText (str "c1")); (str "choices", JArray [JObject [(str "delta", JObject [(str "content", JText (str "Hi"))])]])]));
     mkEvent [] done_data]) ++ str "data: late".

Lemma aggregate_is_fold_witness :
  ∃ reader, NewReader (Some (demo_sse, SourceEOF)) 400 = Some reader ∧
  ∃ body, AggregateSSEToJSON (Some (demo_sse, SourceEOF)) 400 100 = Some (body, None) ∧ (0 < length body)%nat.
Proof.
  eexists. split; [reflexivity|].
  destruct (aggregate_is_fold demo_sse SourceEOF 400 100 None _ eq_refl) as (events & err & _ & E & Hs); [by vm_compute..|].
  destruct Hs as [-> ->]; [by vm_compute|]. unfold AggregateSSEToJSON, AggregateSSEToJSONWithResult. rewrite E.
  eexists. split; [vm_compute; reflexivity|]. vm_compute. lia.
Defined.

(** ** Observation, as a fold *)

(** The observer after the events up to [[DONE]]; an event that fails is skipped. *)
Fixpoint observe_until_done (events : list SSEEvent) (o : Observer) : Observer :=
  match events with
  | [] => o
  | event :: events =>
      match Observer_Observe event o with
      | Ok o' => if bool_decide (se_Data event = done_data) then o' else observe_until_done events o'
      | Err _ => observe_until_done events o
      end
  end.

(** The errors: of the observer before [[DONE]], of a new one for each event after it. *)
Definition observe_error_of (event : SSEEvent) (o : Observer) : list observe_error :=
  match Observer_Observe event o with Ok _ => [] | Err e => [e] end.

Fixpoint observe_errors (events : list SSEEvent) (o : Observer) : list observe_error :=
  match events with
  | [] => []
  | event :: rest =>
      observe_error_of event o ++
      (if bool_decide (se_Data event = done_data) then concat (map (λ ev, observe_error_of ev NewObserver) rest)
       else match Observer_Observe event o with Ok o' => observe_errors rest o' | Err _ => observe_errors rest o end)
  end.

Section observation.

Lemma Observe_done event o o' : Observer_Observe event o = Ok o' →
  os_DoneObserved (ob_state o') = os_DoneObserved (ob_state o) || bool_decide (se_Data event = done_data).
Proof.
  unfold Observer_Observe. destruct (bool_decide (se_Data event = done_data)); [intros [= <-]; by rewrite orb_true_r|]. rewrite orb_false_r.
  destruct (negb _); [done|]. destruct (scanKnownObjectMembers _ _) as [|[]]; [|done..]. destruct (Unmarshal_streamChunk _) as [chunk|]; [|done].
  intros (observed & _ & H)%result_bind_Ok.
  assert (∀ c, os_DoneObserved (ob_state (record_chunk chunk c o)) = os_DoneObserved (ob_state o)) as Hr.
  { intros c. unfold record_chunk. cbn [ob_state].
    assert (∀ s, os_DoneObserved (observeChoices (ch_Choices chunk) s) = os_DoneObserved s) as Hc.
    { intros s. unfold observeChoices. destruct (absent _); [done|]. destruct (Unmarshal_raws _); [|done]. apply addChoices_state. }
    destruct c; cbn [os_DoneObserved]; by rewrite Hc. }
  destruct observed as [usage|]; [|injection H as <-; apply Hr]. destruct (mergeCanonicalUsage _ _); [|done]. injection H as <-. apply Hr.
Qed.

Lemma observe_after_done clock n v evs e :
  read_to_end n (v_reader v) = Some (evs, e) → os_DoneObserved (ob_state (v_observer v)) = true →
  observe_loop clock n v = Some (mkObservationResult (ob_state (v_observer v)) (ob_metadata (v_observer v))
    (v_errors v ++ concat (map (λ ev, observe_error_of ev NewObserver) evs)) (v_offset v) (v_at v), normalizeObservationEOF e).
Proof.
  revert v evs. induction n as [|n IH]; intros v evs; [done|]. cbn [read_to_end observe_loop].
  destruct (Reader_Next (v_reader v)) as [[[ev|err] r']|]; [| |done].
  - destruct (read_to_end n r') as [[evs' e']|] eqn:E; [|done]. intros [= <- <-] Hd. unfold observe_event.
    cbn [with_observation_reader v_observer v_errors v_reader v_offset v_at v_calls]. rewrite Hd. cbn [map concat]. unfold observe_error_of at 1.
    destruct (Observer_Observe ev NewObserver); rewrite (IH _ evs') by done; cbn [with_observation_reader v_observer v_errors v_offset v_at]; [done|].
    by rewrite <-app_assoc.
  - intros [= <- <-] _. cbn [map concat]. rewrite app_nil_r. done.
Qed.

Lemma observe_loop_fold clock n v evs e :
  read_to_end n (v_reader v) = Some (evs, e) → os_DoneObserved (ob_state (v_observer v)) = false →
  ∃ res, observe_loop clock n v = Some (res, normalizeObservationEOF e) ∧
    obs_State res = ob_state (observe_until_done evs (v_observer v)) ∧ obs_Metadata res = ob_metadata (observe_until_done evs (v_observer v)) ∧
    obs_Errors res = v_errors v ++ observe_errors evs (v_observer v).
Proof.
  revert v evs. induction n as [|n IH]; intros v evs; [done|]. cbn [read_to_end observe_loop].
  destruct (Reader_Next (v_reader v)) as [[[ev|err] r']|]; [| |done].
  - destruct (read_to_end n r') as [[evs' e']|] eqn:E; [|done]. intros [= <- <-] Hd. unfold observe_event.
    cbn [with_observation_reader v_observer v_errors v_reader v_offset v_at v_calls]. rewrite Hd. cbn [observe_until_done observe_errors].
    unfold observe_error_of at 1. destruct (Observer_Observe ev (v_observer v)) as [o'|err] eqn:Eo.
    + pose proof (Observe_done _ _ _ Eo) as Hd'. rewrite Hd in Hd'. cbn [orb] in Hd'. cbn [app].
      match goal with |- ∃ res, observe_loop _ _ ?v' = _ ∧ _ => set (v2 := v') end.
      assert (v_reader v2 = r' ∧ v_observer v2 = o' ∧ v_errors v2 = v_errors v) as (H1 & H2 & H3).
      { subst v2. destruct (_ && _); [destruct clock|]; done. }
      destruct (bool_decide (se_Data ev = done_data)).
      * rewrite (observe_after_done clock n v2 evs' e') by (by rewrite ?H1, ?H2). eexists. split; [done|]. by rewrite H2, H3.
      * destruct (IH v2 evs') as (res & -> & E1 & E2 & E3); [by rewrite ?H1, ?H2..|]. eexists. split; [done|]. by rewrite E1, E2, E3, H2, H3.
    + assert (bool_decide (se_Data ev = done_data) = false) as ->.
      { unfold Observer_Observe in Eo. by destruct (bool_decide _). }
      destruct (IH (mkObservation r' (v_observer v) (v_errors v ++ [err]) (v_offset v) (v_at v) (v_calls v)) evs') as (res & -> & E1 & E2 & E3); [done..|].
      eexists. split; [done|]. cbn [v_observer v_errors] in *. by rewrite E1, E2, E3, <-app_assoc.
  - intros [= <- <-] _. eexists. split; [done|]. cbn. by rewrite app_nil_r.
Qed.

End observation.

(** The observation loop is a fold over the events the reader returns. *)
Lemma observe_stream_folds s e maxEvent clock reader :
  NewReader (Some (s, e)) maxEvent = Some reader → maxEvent ≤ maxInt64 → lenZ s ≤ maxInt64 →
  ∃ events err res, read_to_end (S (length s)) reader = Some (events, err) ∧
    ObserveStreamWithTiming (Some (s, e)) maxEvent clock = Some (Some (res, normalizeObservationEOF err)) ∧
    obs_State res = ob_state (observe_until_done events NewObserver) ∧ obs_Metadata res = ob_metadata (observe_until_done events NewObserver) ∧
    obs_Errors res = observe_errors events NewObserver.
Proof.
  intros Hr Hm Hl. assert (input reader = s) as Hs.
  { unfold NewReader in Hr. destruct (maxEvent <=? 0); [done|]. by injection Hr as <-. }
  destruct (read_to_end_total (S (length s)) reader) as (events & err & E); [by eapply NewReader_ok|rewrite Hs; lia|].
  destruct (observe_loop_fold clock _ (mkObservation reader NewObserver [] 0 None 0) _ _ E eq_refl) as (res & Eo & H1 & H2 & H3).
  exists events, err, res. split_and!; try done. unfold ObserveStreamWithTiming. by rewrite Hr, Hs, Eo.
Qed.

(** C36: Passive observation never stops early and never looks past
    [[DONE]].  For every input and clock, [ObserveStream] returns; the state
    and the metadata are those of handing the events in order to one observer,
    skipping the events that fail, up to [[DONE]]; later events contribute only
    errors; the reported errors are exactly those of the failing events in
    order, and the returned error is the reader's, nil at a clean end. *)
Theorem observe_stream_fold s e maxEvent clock reader :
  NewReader (Some (s, e)) maxEvent = Some reader → maxEvent ≤ maxInt64 → lenZ s ≤ maxInt64 →
  ∃ events err res, read_to_end (S (length s)) reader = Some (events, err) ∧
    ObserveStreamWithTiming (Some (s, e)) maxEvent clock = Some (Some (res, normalizeObservationEOF err)) ∧
    obs_State res = ob_state (observe_until_done events NewObserver) ∧ obs_Metadata res = ob_metadata (observe_until_done events NewObserver) ∧
    obs_Errors res = observe_errors events NewObserver.
Proof. apply observe_stream_folds. Qed.

Lemma observe_stream_fold_witness :
  ∃ reader events err res, NewReader (Some (demo_sse, SourceEOF)) 400 = Some reader ∧
  read_to_end (S (length demo_sse)) reader = Some (events, err) ∧
  ObserveStream (Some (demo_sse, SourceEOF)) 400 = Some (Some (res, normalizeObservationEOF err)) ∧
  obs_Errors res = observe_errors events NewObserver.
Proof.
  eexists. destruct (observe_stream_fold demo_sse SourceEOF 400 None _ eq_refl) as (events & err & res & H1 & H2 & _ & _ & H3); [by vm_compute..|].
  exists events, err, res. split_and!; [reflexivity|done..].
Defined.
