(* ===== verification/ChatDelivery.v ===== *)
(** * Converting a streamed chat completion, end to end

    The event reader, the observer, the accumulator and the renderer together:
    a stream of printed delta chunks, framed as server-sent events and ended by
    [[DONE]], becomes the one response whose choices are the concatenation of
    the deltas. *)

From Stdlib Require Import Ascii ZArith Lia ZifyBool.
From stdpp Require Import prelude strings list gmap.
From S2P Require Import Prelude Text Utf8 Usage SSEParser Json JsonCodec UsageJson ChatObserver ChatAccumulator ChatRender ChatStream.
Local Open Scope Z_scope.

#[local] Arguments str : simpl never.
#[local] Opaque maxNestingDepth.

(** ** Printed documents have no control characters *)

Section printable.

Definition printable (s : bytes) : Prop := Forall (λ c, 32 <= code c) s.

Lemma hex_printable c : is_hex c = true → 32 <= code c.
Proof. unfold is_hex, is_digit. lia. Qed.

Lemma scan_string_printable n s x r : (length s ≤ n)%nat → scan_string s = Some (x, r) → printable x.
Proof.
  revert s x r. induction n as [|n IH]; intros s x r Hn H; (destruct s as [|c s]; [done|]); simpl in Hn; [lia|].
  cbn [scan_string] in H. destruct (byte_eqb c quote_char); [injection H as <- _; constructor|].
  unfold byte_eqb in H at 1. destruct (bool_decide_reflect (c = backslash)) as [->|].
  - destruct s as [|e s2]; [done|]. simpl in Hn. destruct (simple_escape e) eqn:He.
    + destruct (scan_string s2) as [[y t]|] eqn:E; [|done]. injection H as <- _. apply IH in E; [|lia].
      constructor; [by vm_compute|constructor; [|done]]. apply bool_decide_eq_true in He.
      repeat (apply elem_of_cons in He as [->|He]; [by vm_compute|]). by apply not_elem_of_nil in He.
    + unfold byte_eqb in H. destruct (bool_decide_reflect (e = "u"%char)) as [->|]; [|done].
      destruct s2 as [|h1 [|h2 [|h3 [|h4 s3]]]]; try done. simpl in Hn. destruct (forallb _ _) eqn:Hh; [|done].
      destruct (scan_string s3) as [[y t]|] eqn:E; [|done]. injection H as <- _. apply IH in E; [|lia].
      cbn [forallb] in Hh. rewrite !andb_true_iff in Hh. destruct Hh as (H1 & H2 & H3 & H4 & _).
      repeat (constructor; [first [by apply hex_printable|by vm_compute]|]). done.
  - destruct (Z.ltb_spec (code c) 32); [done|]. destruct (scan_string s) as [[y t]|] eqn:E; [|done]. injection H as <- _.
    constructor; [done|]. apply IH in E; [done|lia].
Qed.

Lemma content_printable c : content_ok c = true → printable c.
Proof. intros H%bool_decide_eq_true. by eapply scan_string_printable. Qed.

Lemma FormatInt_printable n : int64 n → printable (FormatInt n).
Proof.
  intros Hn. unfold FormatInt. assert (∀ ds, forallb is_digit ds = true → printable ds) as Hd.
  { intros ds H. apply Forall_forall. intros c Hc%list_elem_of_In. rewrite forallb_forall in H. apply H in Hc. unfold is_digit in Hc. lia. }
  destruct (Z.ltb_spec n 0).
  - destruct (format_digits_literal (- n)) as (ds & -> & D & _); [lia64|]. constructor; [by vm_compute|by apply Hd].
  - destruct (format_digits_literal n) as (ds & -> & D & _); [lia64|]. by apply Hd.
Qed.

(** Numbers of a tree are printable; contents are, when they are well formed. *)
Fixpoint numbers_printable (j : json) : Prop :=
  match j with
  | JNumber lit => printable lit
  | JArray l => foldr (λ x P, numbers_printable x ∧ P) True l
  | JObject ms => foldr (λ m P, numbers_printable m.2 ∧ P) True ms
  | _ => True
  end.

Lemma joined_printable l : Forall printable l → printable (joined l).
Proof.
  induction 1 as [|x l Hx Hl IH]; [constructor|]. destruct l as [|y l]; [done|]. rewrite joined_cons. apply Forall_app. split; [done|].
  constructor; [by vm_compute|done].
Qed.

Lemma print_printable j : ∀ d, json_ok d j = true → numbers_printable j → printable (print j).
Proof.
  induction j as [|[]|lit|c|l IH|ms IH] using json_ind; intros d Hok Hn; try (repeat constructor; by vm_compute).
  - cbn [print]. constructor; [by vm_compute|]. apply Forall_app. split; [by apply content_printable|repeat constructor; by vm_compute].
  - cbn [print json_ok numbers_printable] in *. destruct d as [|d]; [done|]. constructor; [by vm_compute|].
    apply Forall_app. split; [|repeat constructor; by vm_compute]. apply joined_printable.
    induction IH as [|x l Hx _ IHl]; [constructor|]. cbn [forallb foldr map] in *. apply andb_true_iff in Hok as [? ?]. destruct Hn.
    constructor; [by eapply Hx|auto].
  - cbn [print json_ok numbers_printable] in *. destruct d as [|d]; [done|]. constructor; [by vm_compute|].
    apply Forall_app. split; [|repeat constructor; by vm_compute]. apply joined_printable.
    induction IH as [|[k x] ms Hx _ IHl]; [constructor|]. cbn [forallb foldr map fst snd] in *.
    apply andb_true_iff in Hok as [[Hk ?]%andb_true_iff ?]. destruct Hn. constructor; [|auto]. unfold print_member. cbn [fst snd].
    constructor; [by vm_compute|]. apply Forall_app. split; [by apply content_printable|].
    constructor; [by vm_compute|]. constructor; [by vm_compute|]. by eapply Hx.
Qed.

Lemma printable_encodable name data : LF ∉ name → CR ∉ name → printable data → encodable (mkEvent name data).
Proof.
  intros H1 H2 Hp. split_and!; [done..|]. cbn. intros Hin. unfold printable in Hp. rewrite Forall_forall in Hp. apply Hp in Hin. by vm_compute in Hin.
Qed.

End printable.

(** ** Delta chunks *)

Record delta := mkDeltaChoice {
  dl_Index : Z;
  dl_Role : option bytes;
  dl_Content : option bytes;
  dl_ToolCalls : list AccumulatedToolCall;
  dl_FinishReason : option bytes;
}.

Definition omit_none (key : bytes) (s : option bytes) : list (bytes * json) := match s with Some x => [(key, JText x)] | None => [] end.

Definition delta_members (d : delta) : list (bytes * json) :=
  omit_none (str "role") (dl_Role d) ++ omit_none (str "content") (dl_Content d) ++ renderToolCalls (dl_ToolCalls d).

Definition delta_tree (d : delta) : json :=
  JObject [(str "index", JInt (dl_Index d)); (str "delta", JObject (delta_members d));
           (str "finish_reason", match dl_FinishReason d with Some reason => JText reason | None => JNull end)].

Definition delta_observation (d : delta) : ChoiceObservation :=
  mkChoiceObservation (dl_Index d) (mkDelta (dl_Role d) (dl_Content d) (map tool_observation (dl_ToolCalls d))) (dl_FinishReason d) true.

Definition optional_text (s : option bytes) : Prop := ∀ x, s = Some x → ValidString x = true.

Definition delta_text (d : delta) : Prop :=
  int64 (dl_Index d) ∧ optional_text (dl_Role d) ∧ optional_text (dl_Content d) ∧ Forall call_text (dl_ToolCalls d) ∧ optional_text (dl_FinishReason d).

Section chunks.

Lemma delta_members_ok d : Forall call_text (dl_ToolCalls d) → json_ok 4 (JObject (delta_members d)) = true.
Proof.
  intros Hc. unfold delta_members, renderToolCalls. cbn [json_ok]. rewrite !forallb_app.
  assert (∀ key s, plain key = true → forallb (λ m, content_ok m.1 && json_ok 3 m.2) (omit_none key s) = true) as Ho.
  { intros key [s|] Hk; [|done]. cbn [omit_none forallb fst snd]. by rewrite plain_content, JText_ok. }
  rewrite !Ho by done. cbn [andb]. destruct (_ =? _)%nat; [done|]. cbn [forallb fst snd json_ok]. rewrite plain_content by done. cbn [andb].
  rewrite forallb_map_ok; [done|]. eapply Forall_impl; [exact Hc|]. intros call [Hi _]. by apply renderToolCall_ok.
Qed.

Lemma field_omit_none k key s : field k (omit_none key s) = if bool_decide (key = k) then JText <$> s else None.
Proof. destruct s; cbn [omit_none field fmap option_fmap option_map]; by case_bool_decide. Qed.

Lemma field_toolCalls k calls : field k (renderToolCalls calls) =
  if bool_decide (str "tool_calls" = k) && negb (length calls =? 0)%nat then Some (JArray (map renderToolCall calls)) else None.
Proof. unfold renderToolCalls. destruct (_ =? _)%nat; cbn [field]; [by rewrite andb_false_r|]. by rewrite andb_true_r. Qed.

Lemma decodeStringPointer_optional s : optional_text s →
  decodeStringPointer (match JText <$> s with Some j => print j | None => [] end) = s.
Proof. intros H. destruct s as [x|]; [|done]. cbn. by apply decodeStringPointer_print, H. Qed.

Lemma decodeDelta_members d : delta_text d →
  decodeDelta (print (JObject (delta_members d))) = mkDelta (dl_Role d) (dl_Content d) (map tool_observation (dl_ToolCalls d)).
Proof.
  intros (_ & Hr & Hc & Hcalls & _). pose proof (delta_members_ok d Hcalls) as Hok. unfold decodeDelta.
  rewrite (absent_print 4) by done. cbn [is_null]. unfold Unmarshal_streamDelta.
  rewrite Unmarshal_fields_print; [|apply (ok_within 4); [lia|done]|].
  2: { unfold delta_members, streamDelta_fields, renderToolCalls, omit_none.
    destruct (dl_Role d), (dl_Content d), (_ =? _)%nat; cbn [app]; known_keys. }
  cbn [mbind option_bind sd_Role sd_Content sd_ToolCalls]. rewrite !raw_field_print. unfold delta_members.
  rewrite !field_app, !field_toolCalls, !field_omit_none.
  change (bool_decide (str "tool_calls" = str "role")) with false. change (bool_decide (str "content" = str "role")) with false.
  change (bool_decide (str "tool_calls" = str "content")) with false. change (bool_decide (str "role" = str "content")) with false.
  change (bool_decide (str "role" = str "tool_calls")) with false. change (bool_decide (str "content" = str "tool_calls")) with false.
  rewrite !bool_decide_true by done. cbn [andb].
  assert (∀ (o : option json), match o with Some v => Some v | None => None end = o) as -> by (by intros []).
  rewrite !decodeStringPointer_optional by done. f_equal.
  destruct (dl_ToolCalls d) as [|c cs] eqn:E; [done|]. cbn [length Nat.eqb negb]. by apply decodeToolCalls_print.
Qed.

Lemma delta_tree_ok d : delta_text d → json_ok 5 (delta_tree d) = true.
Proof.
  intros (Hi & _ & _ & Hc & _). unfold delta_tree. pose proof (delta_members_ok d Hc) as Hm. set (m := JObject (delta_members d)) in *. clearbody m.
  cbn [json_ok forallb fst snd]. rewrite Hm, JInt_ok, !plain_content by done. cbn [andb]. destruct (dl_FinishReason d); [by rewrite JText_ok|done].
Qed.

Lemma decodeChoice_delta d : delta_text d → decodeChoice (print (delta_tree d)) = Some (delta_observation d).
Proof.
  intros Ht. pose proof (delta_tree_ok d Ht) as Hok. pose proof (decodeDelta_members d Ht) as Hd. destruct Ht as (Hi & _ & _ & _ & Hr).
  unfold decodeChoice, Unmarshal_streamChoice, delta_tree in *. set (m := JObject (delta_members d)) in *.
  assert (∃ c s, print m = c :: s) as (mc & ms & Em) by (by eexists _, _).
  set (fin := match dl_FinishReason d with Some reason => JText reason | None => JNull end) in *.
  assert (json_ok 0 fin = true) as Hf by (subst fin; destruct (dl_FinishReason d); [apply JText_ok|done]).
  rewrite Unmarshal_fields_print; [|apply (ok_within 5); [lia|done]|unfold streamChoice_fields; known_keys].
  cbn [mbind option_bind sc_Index sc_Delta sc_Message sc_FinishReason]. rewrite !raw_field_print.
  change (field (str "index") _) with (Some (JInt (dl_Index d))). change (field (str "message") _) with (@None json).
  change (field (str "delta") _) with (Some m). change (field (str "finish_reason") _) with (Some fin).
  cbn iota. rewrite Em. cbn [length Nat.eqb]. rewrite <-Em, decodeInt_print, Hd by done.
  destruct (print_head 0 fin Hf) as (c & s & E & _). rewrite E. cbn [length Nat.eqb negb]. rewrite <-E.
  unfold delta_observation. do 2 f_equal. unfold fin. destruct (dl_FinishReason d) as [reason|]; [|done].
  by apply decodeStringPointer_print, Hr.
Qed.

End chunks.

(** ** The stream *)

Section stream.
Context (id model : bytes) (created : Z).
Context (Hid : ValidString id = true) (Hmodel : ValidString model = true) (Hcreated : int64 created).

Definition chunk_members (ds : list delta) : list (bytes * json) :=
  [(str "id", JText id); (str "object", JText (str "chat.completion.chunk")); (str "created", JInt created);
   (str "model", JText model); (str "choices", JArray (map delta_tree ds))].

Definition chunk_event (ds : list delta) : SSEEvent := mkEvent [] (print (JObject (chunk_members ds))).

Definition chunk_metadata : ResponseMetadata := mkMetadata id model (Some created).

Lemma chunk_json_ok ds : Forall delta_text ds → json_ok 7 (JObject (chunk_members ds)) = true.
Proof.
  intros Hd. unfold chunk_members. cbn [json_ok forallb fst snd]. rewrite !plain_content, !JText_ok, JInt_ok by done. cbn [andb json_ok].
  rewrite forallb_map_ok; [done|]. eapply Forall_impl; [exact Hd|]. intros d H. by apply delta_tree_ok.
Qed.

Lemma chunk_members_ok ds : Forall delta_text ds → chunk_ok (chunk_members ds).
Proof.
  intros Hd. split_and!.
  - apply (ok_within 7); [lia|by apply chunk_json_ok].
  - unfold chunk_members, streamChunk_fields. known_keys.
  - refine (proj1 (bool_decide_eq_true _) _). vm_compute. reflexivity.
  - done.
Qed.

Lemma observeMetadata_chunk ds md : md = emptyMetadata ∨ md = chunk_metadata →
  observeMetadata (chunk_of (chunk_members ds)) md = chunk_metadata.
Proof.
  intros Hmd. unfold observeMetadata, chunk_of, raw_of, chunk_members. cbn [ch_ID ch_Model ch_Created].
  change (field (str "id") _) with (Some (JText id)). change (field (str "model") _) with (Some (JText model)).
  change (field (str "created") _) with (Some (JInt created)). cbn iota.
  assert (∀ cur s, ValidString s = true → cur = [] ∨ cur = s → first_string cur (print (JText s)) = s) as Hf.
  { intros cur s Hs [->| ->]; [by apply first_string_print|]. unfold first_string. case_bool_decide; [|done]. subst.
    pose proof (first_string_print [] Hs) as E. unfold first_string in E. by rewrite bool_decide_true in E. }
  rewrite !Hf by (done || destruct Hmd as [->| ->]; auto). unfold chunk_metadata. f_equal. destruct Hmd as [->| ->]; [|done]. cbn [md_Created emptyMetadata].
  destruct (print_head 0 (JInt created) (JInt_ok 0 created Hcreated)) as (c & t & E & _). rewrite E. cbn [length Nat.eqb]. rewrite <-E.
  cbn [print JInt]. rewrite TrimSpace_number by done.
  pose proof (print_null (JInt created) 0 (JInt_ok 0 created Hcreated)) as Hnull. cbn [print JInt is_null] in Hnull.
  unfold isJSONNull in Hnull. rewrite TrimSpace_number in Hnull by done. rewrite Hnull. unfold Unmarshal_int64.
  change (FormatInt created) with (print (JInt created)). rewrite parse_printed by (by apply JInt_ok). cbn [shape_of JInt].
  by rewrite (proj2 (FormatInt_reads created Hcreated)).
Qed.

(** One chunk appends its deltas to the observer. *)
Lemma observe_chunk ds o : Forall delta_text ds → (ob_metadata o = emptyMetadata ∨ ob_metadata o = chunk_metadata) →
  ∃ o', Observer_Observe (chunk_event ds) o = Ok o' ∧ os_Choices (ob_state o') = os_Choices (ob_state o) ++ map delta_observation ds ∧
    os_Usage (ob_state o') = os_Usage (ob_state o) ∧ ob_metadata o' = chunk_metadata.
Proof.
  intros Hd Hmd. unfold chunk_event. rewrite Observe_printed by (done || by apply chunk_members_ok).
  change (field (str "usage") (chunk_members ds)) with (@None json). cbn [tree_usage notObserved ur_Observed]. eexists. split; [done|].
  unfold record_chunk. cbn [ob_state ob_metadata]. rewrite observeMetadata_chunk by done.
  change (ch_Choices (chunk_of (chunk_members ds))) with (print (JArray (map delta_tree ds))). unfold observeChoices.
  destruct (Unmarshal_raws_print delta_tree 5 ds) as [-> ->]; [lia| |].
  { eapply Forall_impl; [exact Hd|]. intros d. apply delta_tree_ok. }
  change (default [] (Some ?l)) with l. rewrite (omap_map_some _ _ delta_observation).
  2: { eapply Forall_impl; [exact Hd|]. intros d. apply decodeChoice_delta. }
  match goal with |- context [foldl addChoice ?s ?l] => destruct (addChoices_state l s) as (-> & -> & _) end. done.
Qed.

Definition chunk_observed (ds : list delta) : Observed := mkObserved (map delta_observation ds) noUsageObservation chunk_metadata.

Definition stream_choices (chunks : list (list delta)) : list ChoiceObservation := map delta_observation (concat chunks).

Lemma all_choices_chunks chunks : all_choices (map chunk_observed chunks) = stream_choices chunks.
Proof.
  unfold all_choices, stream_choices. rewrite map_map. cbn. induction chunks as [|ds chunks IH]; [done|]. cbn [map concat]. by rewrite IH, map_app.
Qed.

Definition at_start (done : list (list delta)) (md : ResponseMetadata) : Prop := md = if bool_decide (done = []) then emptyMetadata else chunk_metadata.

(** The loop after the chunks [done]. *)
Definition loop_state (max : Z) (done : list (list delta)) (g : aggregation) : Prop :=
  g_accumulator g = accumulate_all (map chunk_observed done) (fresh max) ∧
  os_Choices (ob_state (g_observer g)) = stream_choices done ∧ os_Usage (ob_state (g_observer g)) = noUsageObservation ∧
  at_start done (ob_metadata (g_observer g)) ∧ g_events g = Z.of_nat (length done) ∧
  g_timingInvalid g = false ∧ g_lastMeaningfulAt g = None.

Lemma stream_choices_snoc done ds : stream_choices (done ++ [ds]) = stream_choices done ++ map delta_observation ds.
Proof. unfold stream_choices. rewrite concat_app, map_app. cbn. by rewrite app_nil_r. Qed.

Lemma Accumulate_no_error r a : terminal (Accumulate r a).2 = false → (Accumulate r a).1 = None.
Proof. unfold Accumulate. destruct (terminal a) eqn:E; [cbn; congruence|]. by destruct (applyChoiceObservations _ _). Qed.

Lemma loop_step max done ds g :
  0 < max ≤ maxInt64 → sumZ observation_size (stream_choices (done ++ [ds])) ≤ max → Forall delta_text ds →
  lenZ done + 1 ≤ maxInt64 → loop_state max done g →
  ∃ g', aggregate_event None (chunk_event ds) g = inr g' ∧ loop_state max (done ++ [ds]) g'.
Proof.
  intros Hmax Hfit Hd Hlen (Ha & Hc & Hu & Hmd & He & Ht & Hl). unfold aggregate_event.
  destruct (observe_chunk ds (g_observer g) Hd) as (o' & -> & Hc' & Hu' & Hmd').
  { unfold at_start in Hmd. case_bool_decide; auto. }
  rewrite Hc', Hu', Hu, drop_app_length, Hmd', Ha. fold (chunk_observed ds).
  pose proof (accumulate_fits max Hmax (map chunk_observed (done ++ [ds]))) as Hf. unfold total in Hf. rewrite all_choices_chunks in Hf.
  destruct (Hf Hfit) as (_ & _ & _ & Hterm & _). rewrite map_app in Hterm. cbn [map] in Hterm. rewrite accumulate_all_snoc in Hterm.
  pose proof (Accumulate_no_error _ _ Hterm) as Herr.
  destruct (Accumulate (chunk_observed ds) (accumulate_all (map chunk_observed done) (fresh max))) as [err a'] eqn:Ea. cbn [fst] in Herr. subst err.
  eexists. split; [done|]. unfold loop_state, record_timing.
  cbn [g_accumulator g_observer g_events g_timingInvalid g_lastMeaningfulAt]. split_and!; try done.
  - rewrite map_app. cbn [map]. by rewrite accumulate_all_snoc, Ea.
  - by rewrite Hc', Hc, stream_choices_snoc.
  - by rewrite Hu', Hu.
  - unfold at_start. rewrite Hmd', bool_decide_false; [done|]. by destruct done.
  - rewrite He, length_app, add64_id by lia64. simpl. lia.
Qed.

Lemma aggregate_chunks max chunks : ∀ done rest e g,
  0 < max ≤ maxInt64 → sumZ observation_size (stream_choices (done ++ chunks)) ≤ max → Forall (Forall delta_text) chunks →
  lenZ (done ++ chunks) ≤ maxInt64 → loop_state max done g →
  ∃ g', aggregate_list None (map chunk_event chunks ++ rest) e g = aggregate_list None rest e g' ∧ loop_state max (done ++ chunks) g'.
Proof.
  induction chunks as [|ds chunks IH]; intros done rest e g Hmax Hfit Hd Hlen Hg.
  - exists g. by rewrite app_nil_r.
  - inv Hd. assert (done ++ ds :: chunks = (done ++ [ds]) ++ chunks) as E by (by rewrite <-app_assoc). rewrite E in Hfit, Hlen.
    destruct (loop_step max done ds g) as (g1 & E1 & Hg1); [done| |done|rewrite !length_app in Hlen; simpl in Hlen; lia|done|].
    { unfold stream_choices in *. rewrite concat_app, map_app, sumZ_app in Hfit.
      pose proof (sumZ_nonneg observation_size (map delta_observation (concat chunks)) observation_size_nonneg). lia. }
    destruct (IH (done ++ [ds]) rest e g1) as (g' & E2 & Hg'); [done..|]. exists g'. rewrite E. split; [|done].
    cbn [map app aggregate_list]. rewrite bool_decide_false by done. by rewrite E1.
Qed.

Lemma read_events_prefix k : ∀ n r evs e l r',
  read_to_end n r = Some (evs, e) → read_events k r = Some (l, r') → ∃ more, evs = map fst l ++ more.
Proof.
  induction k as [|k IH]; intros n r evs e l r' Hn Hk; cbn [read_events] in Hk; [injection Hk as <- _; by exists evs|].
  destruct n as [|n]; [done|]. cbn [read_to_end] in Hn. destruct (Reader_Next r) as [[[ev|err] r1]|]; [|done..].
  destruct (read_to_end n r1) as [[evs1 e1]|] eqn:E1; [|done]. destruct (read_events k r1) as [[l1 r2]|] eqn:E2; [|done].
  injection Hn as <- <-. injection Hk as <- <-. destruct (IH _ _ _ _ _ _ E1 E2) as [more ->]. by exists more.
Qed.

Lemma zip_fst {A B} (l : list A) (k : list B) : length l = length k → map fst (zip l k) = l.
Proof. revert k. induction l as [|x l IH]; intros [|y k] H; try done. cbn. f_equal. apply IH. by injection H. Qed.

Lemma end_offsets_length off evs : length (end_offsets off evs) = length evs.
Proof. revert off. induction evs as [|ev evs IH]; intros off; [done|]. cbn. by rewrite IH. Qed.

Lemma metadata_chunks chunks : chunks ≠ [] → foldl mergeMetadata emptyMetadata (map or_Metadata (map chunk_observed chunks)) = chunk_metadata.
Proof.
  assert (∀ md, md = emptyMetadata ∨ md = chunk_metadata → mergeMetadata md chunk_metadata = chunk_metadata) as Hm.
  { intros md [->| ->]; unfold mergeMetadata, chunk_metadata, keep_first; cbn; [done|]. f_equal; by case_bool_decide. }
  destruct chunks as [|ds chunks] using rev_ind; [done|]. intros _. rewrite !map_app, foldl_app. cbn. apply Hm. clear.
  induction chunks as [|ds chunks IH] using rev_ind; [by left|]. right. rewrite !map_app, foldl_app. cbn.
  destruct IH as [->| ->]; unfold mergeMetadata, chunk_metadata, keep_first; cbn; [done|]. f_equal; by case_bool_decide.
Qed.

Lemma usage_chunks chunks : foldl mergeUsage noUsageObservation (map or_Usage (map chunk_observed chunks)) = noUsageObservation.
Proof. induction chunks as [|ds chunks IH]; done. Qed.

Lemma meaningful_stream chunks : concat chunks ≠ [] →
  hasMeaningfulChoice (map (choice_ref (stream_choices chunks)) (firsts (map co_Index (stream_choices chunks)))) = true.
Proof.
  unfold stream_choices. destruct (concat chunks) as [|d ds]; [done|]. intros _. set (os := map delta_observation (d :: ds)).
  unfold hasMeaningfulChoice. apply existsb_exists. exists (choice_ref os (dl_Index d)). split.
  - apply list_elem_of_In, list_elem_of_fmap. exists (dl_Index d). split; [done|]. apply elem_of_firsts. by left.
  - assert (ac_FinishReasonPresent (choice_ref os (dl_Index d)) = true) as ->; [|by rewrite orb_true_r].
    cbn [choice_ref ac_FinishReasonPresent]. apply existsb_exists. exists (delta_observation d). split; [|done].
    apply list_elem_of_In, list_elem_of_filter. split; [done|by left].
Qed.

Definition completion (choices : list AccumulatedChoice) : bytes :=
  print (renderResponse (mkAccumulatorState chunk_metadata choices ∅ noUsageObservation 0 false)).

Lemma aggregate_done_chunks max chunks g :
  0 < max ≤ maxInt64 → sumZ observation_size (stream_choices chunks) ≤ max → concat chunks ≠ [] → loop_state max chunks g →
  aggregate_done g =
  (mkAggregationResult (completion (map (choice_ref (stream_choices chunks)) (firsts (map co_Index (stream_choices chunks))))) emptyUsage false true None, None).
Proof.
  intros Hmax Hfit Hne (Ha & _ & _ & _ & He & Ht & Hl). unfold aggregate_done. rewrite He.
  assert (chunks ≠ []) as Hc by (by destruct chunks). destruct (Z.eqb_spec (lenZ chunks) 0); [destruct chunks; [done|simpl in *; lia]|].
  unfold valid_timing. rewrite Ht, Hl, Ha. unfold aggregationResultWithTiming, RenderChatCompletion.
  pose proof (accumulate_fits max Hmax (map chunk_observed chunks)) as Hf. unfold total in Hf. rewrite all_choices_chunks in Hf.
  destruct (Hf Hfit) as (Hh%holds_snapshot & _ & _ & _ & Hmd & Hu). rewrite metadata_chunks in Hmd by done. rewrite usage_chunks in Hu.
  unfold snapshot in *. cbn [as_Choices as_Usage] in *. rewrite Hh, Hmd, Hu, meaningful_stream by done. done.
Qed.

(** The bytes of a streamed completion. *)
Definition chat_stream (chunks : list (list delta)) : bytes :=
  concat (map SSEParser.encode (map chunk_event chunks ++ [mkEvent [] done_data])).

Lemma chunk_encodable ds : Forall delta_text ds → encodable (chunk_event ds).
Proof.
  intros Hd. apply printable_encodable; [set_solver|set_solver|]. apply (print_printable _ 7); [by apply chunk_json_ok|].
  assert (∀ n, int64 n → numbers_printable (JInt n)) as Hi by (intros n H; by apply FormatInt_printable).
  cbn [numbers_printable chunk_members foldr snd]. split_and!; try done; [by apply Hi|].
  induction Hd as [|d ds Hd _ IH]; [done|]. cbn [map foldr]. split; [|done]. destruct Hd as (Hdi & _ & _ & Hdc & _).
  cbn [delta_tree numbers_printable foldr snd]. split_and!; [by apply Hi| |by destruct (dl_FinishReason d)|done].
  unfold delta_members, omit_none, renderToolCalls. rewrite !foldr_app.
  assert (foldr (λ m P, numbers_printable m.2 ∧ P) True
    (if (length (dl_ToolCalls d) =? 0)%nat then [] else [(str "tool_calls", JArray (map renderToolCall (dl_ToolCalls d)))])) as Hcalls.
  { destruct (_ =? _)%nat; [done|]. cbn [foldr snd numbers_printable]. split; [|done].
    induction Hdc as [|c cs Hc _ IHc]; [done|]. cbn [map foldr]. split; [|done]. destruct Hc as (Hci & _).
    unfold renderToolCall, omit_empty. cbn [app numbers_printable foldr snd]. split; [by apply Hi|].
    destruct (bool_decide (at_ID c = [])), (bool_decide (at_Type c = [])), (bool_decide (af_Name (at_Function c) = [])),
      (bool_decide (af_Arguments (at_Function c) = [])); done. }
  destruct (dl_Role d), (dl_Content d); cbn [foldr snd]; done.
Qed.

Lemma aggregate_chat max maxEvent chunks tail e :
  0 < max ≤ maxInt64 → 0 < maxEvent ≤ maxInt64 → Forall (Forall delta_text) chunks → concat chunks ≠ [] →
  Forall (λ ev, lenZ (SSEParser.encode ev) ≤ maxEvent) (map chunk_event chunks ++ [mkEvent [] done_data]) →
  lenZ (chat_stream chunks ++ tail) ≤ maxInt64 → sumZ observation_size (stream_choices chunks) ≤ max →
  AggregateSSEToJSONWithResult (Some (chat_stream chunks ++ tail, e)) maxEvent max =
  Some (mkAggregationResult (completion (map (choice_ref (stream_choices chunks)) (firsts (map co_Index (stream_choices chunks))))) emptyUsage false true None, None).
Proof.
  intros Hmax Hev Hd Hne Hsz Hlen Hfit.
  set (r := mkReader (chat_stream chunks ++ tail) e maxEvent 0 [] [] false false [] None 0 0).
  assert (NewReader (Some (chat_stream chunks ++ tail, e)) maxEvent = Some r) as Hr by (unfold NewReader; by destruct (Z.leb_spec maxEvent 0); [lia|]).
  unfold AggregateSSEToJSONWithResult. rewrite (aggregate_start _ _ _ _ _ Hr) by lia.
  destruct (read_to_end_total (S (length (input r))) r) as (evs & err & Erd); [eapply NewReader_ok; [exact Hr|lia|done]|lia|].
  rewrite (aggregate_loop_list _ _ (start r max) evs err Erd).
  destruct (read_encoded (map chunk_event chunks ++ [mkEvent [] done_data]) tail r) as (r' & Ere & _).
  { apply Forall_app. split; [|repeat constructor; cbn; try (vm_compute; set_solver); apply bool_decide_eq_false; by vm_compute].
    apply Forall_fmap. eapply Forall_impl; [exact Hd|]. intros ds. apply chunk_encodable. }
  { exact Hsz. } { done. } { by apply tracks_nil. } { done. } { done. } { simpl. lia. }
  { cbn [offset r]. rewrite length_app in Hlen. unfold chat_stream in Hlen. lia. }
  destruct (read_events_prefix _ _ _ _ _ _ _ Erd Ere) as [more ->]. rewrite zip_fst by (by rewrite end_offsets_length).
  rewrite <-app_assoc.
  destruct (aggregate_chunks max chunks [] ([mkEvent [] done_data] ++ more) err (start r max)) as (g' & -> & Hg'); [done..| | |].
  { assert (length chunks ≤ length (chat_stream chunks))%nat as Hl.
    { unfold chat_stream. rewrite map_app, concat_app, length_app. clear. induction chunks as [|ds chunks IH]; [simpl; lia|].
      cbn [map concat]. rewrite !length_app in *. unfold SSEParser.encode at 1, frame_bytes. rewrite length_app. simpl in *. lia. }
    rewrite length_app in Hlen. cbn [app]. lia. }
  { unfold loop_state, at_start. by rewrite bool_decide_true. }
  cbn [app aggregate_list]. rewrite bool_decide_true by done. cbn [app] in Hg'. by rewrite (aggregate_done_chunks max chunks).
Qed.

End stream.

(** C34: A streamed chat completion becomes the response it spells out.  Take any
    chunks of deltas (valid UTF-8 roles, contents, tool-call fragments and
    finish reasons, any interleaving of choice indices), printed as JSON, framed
    as server-sent events and followed by [[DONE]] and by anything else.  If
    each frame fits the event limit and the contents and arguments fit the
    payload limit, the conversion succeeds, stops at [[DONE]], and its body is the
    rendering of the choices in first-seen order, each the concatenation of its
    own deltas, under the metadata of the chunks. *)
Theorem aggregate_chat_stream id model created max maxEvent chunks tail e :
  ValidString id = true → ValidString model = true → int64 created →
  0 < max ≤ maxInt64 → 0 < maxEvent ≤ maxInt64 → Forall (Forall delta_text) chunks → concat chunks ≠ [] →
  Forall (λ ev, lenZ (SSEParser.encode ev) ≤ maxEvent) (map (chunk_event id model created) chunks ++ [mkEvent [] done_data]) →
  lenZ (chat_stream id model created chunks ++ tail) ≤ maxInt64 → sumZ observation_size (stream_choices chunks) ≤ max →
  let os := stream_choices chunks in
  AggregateSSEToJSONWithTermination (Some (chat_stream id model created chunks ++ tail, e)) maxEvent max =
  Some (completion id model created (map (choice_ref os) (firsts (map co_Index os))), true, None).
Proof.
  intros Hid Hm Hc Hmax Hev Hd Hne Hsz Hlen Hfit os. unfold AggregateSSEToJSONWithTermination.
  by rewrite (aggregate_chat id model created Hid Hm Hc max maxEvent chunks tail e Hmax Hev Hd Hne Hsz Hlen Hfit).
Qed.

Definition demo_chunks : list (list delta) :=
  [[mkDeltaChoice 0 (Some (str "assistant")) (Some []) [] None]; [mkDeltaChoice 0 None (Some (str "Hel")) [] None; mkDeltaChoice 1 None (Some (str "x")) [] None];
   [mkDeltaChoice 0 None (Some (str "lo")) [] (Some (str "stop"))]].

Lemma aggregate_chat_stream_witness :
  ∃ body, AggregateSSEToJSONWithTermination (Some (chat_stream (str "c1") (str "m") 7 demo_chunks ++ str "data: late", SourceFailed)) 500 100 = Some (body, true, None) ∧
  body = print (renderResponse (mkAccumulatorState (mkMetadata (str "c1") (str "m") (Some 7))
    [mkChoice 0 (mkMessage (str "assistant") (str "Hello")) [] (Some (str "stop")) true; mkChoice 1 (mkMessage [] (str "x")) [] None true] ∅ noUsageObservation 0 false)).
Proof.
  eexists. split.
  - apply (aggregate_chat_stream (str "c1") (str "m") 7 100 500 demo_chunks); [reflexivity|reflexivity|split; by vm_compute..| |done| | |].
    + repeat apply Forall_cons_2; try apply Forall_nil_2; split_and!;
        first [split; by vm_compute|intros x [= <-]; reflexivity|done|apply Forall_nil_2].
    + repeat apply Forall_cons_2; try apply Forall_nil_2; by vm_compute.
    + by vm_compute.
    + by vm_compute.
  - vm_compute. reflexivity.
Defined.
