(* ===== verification/RequestBody.v ===== *)
(** * Request inspection ([internal/protocol/openai/request.go] and [body.go])

    The few request fields the gateway reads, and the bounded inspection of a
    body that must be forwarded unchanged.  A reader is the bytes it will give
    and how it ends; its error is returned by a call of its own. *)

From Stdlib Require Import Ascii ZArith Lia ZifyBool.
From stdpp Require Import prelude strings list.
From S2P Require Import Prelude Text SSEParser Json JsonCodec ChatRender.
Local Open Scope Z_scope.

#[local] Arguments str : simpl never.
#[local] Opaque maxNestingDepth.

(** ** Metadata *)

(** [ErrInvalidMetadataField] names the field. *)
Inductive request_error := ErrMalformedRequest | ErrInvalidMetadataField (name : bytes).

#[export] Instance request_error_eq_dec : EqDecision request_error.
Proof. solve_decision. Defined.

Record RequestMetadata := mkRequestMetadata {
  rm_Model : bytes;
  rm_Stream : option bool;
  rm_MaxTokens : option Z;
  rm_MaxCompletionTokens : option Z;
  rm_MaxOutputTokens : option Z;
}.

Definition request_fields : list bytes :=
  [str "model"; str "stream"; str "max_tokens"; str "max_completion_tokens"; str "max_output_tokens"].

Record requestMetadataJSON := mkRequestJSON {
  rj_Model : bytes; rj_Stream : bytes; rj_MaxTokens : bytes; rj_MaxCompletionTokens : bytes; rj_MaxOutputTokens : bytes }.

Definition Unmarshal_request (raw : bytes) : option requestMetadataJSON :=
  fs ← Unmarshal_fields request_fields raw;
  Some (mkRequestJSON (raw_field (str "model") fs) (raw_field (str "stream") fs) (raw_field (str "max_tokens") fs)
          (raw_field (str "max_completion_tokens") fs) (raw_field (str "max_output_tokens") fs)).

(** An absent field leaves the destination, null is refused. *)
Definition decodeMetadataField {A} (decode : A → bytes → option A) (raw name : bytes) (destination : A) : result request_error A :=
  if (length raw =? 0)%nat then Ok destination
  else if isJSONNull raw then Err (ErrInvalidMetadataField name)
  else match decode destination raw with Some x => Ok x | None => Err (ErrInvalidMetadataField name) end.

Definition ParseRequestMetadata (data : bytes) : result request_error RequestMetadata :=
  if negb (bool_decide (head (TrimSpace data) = Some "{"%char)) then Err ErrMalformedRequest
  else
    match Unmarshal_request data with
    | None => Err ErrMalformedRequest
    | Some fields =>
        let? model := decodeMetadataField Unmarshal_string (rj_Model fields) (str "model") [] in
        let? stream := decodeMetadataField (Unmarshal_pointer Unmarshal_bool false) (rj_Stream fields) (str "stream") None in
        let int64 := Unmarshal_pointer Unmarshal_int64 0 in
        let? maxTokens := decodeMetadataField int64 (rj_MaxTokens fields) (str "max_tokens") None in
        let? maxCompletion := decodeMetadataField int64 (rj_MaxCompletionTokens fields) (str "max_completion_tokens") None in
        let? maxOutput := decodeMetadataField int64 (rj_MaxOutputTokens fields) (str "max_output_tokens") None in
        Ok (mkRequestMetadata model stream maxTokens maxCompletion maxOutput)
    end.

(** ** Body inspection *)

#[export] Instance source_end_eq_dec : EqDecision source_end.
Proof. solve_decision. Defined.

Definition reader : Type := bytes * source_end.

Inductive body_error := ErrInvalidRequestBodyLimit | ErrReadRequestBody.

(** [inspected] is nil when [None]; the replacement is nil only with the limit error. *)
Record inspection := mkInspection {
  in_inspected : option bytes;
  in_replacement : option reader;
  in_available : bool;
  in_err : option body_error;
}.

(** [io.ReadAll(io.LimitReader(body, n))]: what was read, whether the body's own
    error was met, and what the body has left. *)
Definition read_limited (body : reader) (n : Z) : bytes * bool * reader :=
  let '(s, e) := body in
  let consumed := take (Z.to_nat n) s in
  (consumed, (lenZ s <? n) && bool_decide (e = SourceFailed), (drop (Z.to_nat n) s, e)).

Definition InspectRequestBody (body : option reader) (limit : Z) : inspection :=
  if limit <=? 0 then mkInspection None None false (Some ErrInvalidRequestBodyLimit)
  else
    match body with
    | None => mkInspection (Some []) (Some ([], SourceEOF)) true None
    | Some body =>
        let readLimit := if limit <? maxInt64 then add64 limit 1 else limit in
        let '(consumed, failed, rest) := read_limited body readLimit in
        let replacement := (consumed ++ rest.1, rest.2) in
        if failed : bool then mkInspection None (Some replacement) false (Some ErrReadRequestBody)
        else if limit <? lenZ consumed then mkInspection None (Some replacement) false None
        else mkInspection (Some consumed) (Some (consumed, SourceEOF)) true None
    end.

(** C37: A request body survives inspection byte for byte.  Whatever the body and
    however it ends, the replacement gives exactly the bytes of the original
    and ends as it does; the body is available exactly when it ends cleanly
    within the limit, and then the inspected bytes are the whole body; a
    longer body is not available and not an error, and the body's own error is
    reported exactly when it comes within the limit. *)
Theorem InspectRequestBody_exact s e limit :
  0 < limit < maxInt64 →
  let i := InspectRequestBody (Some (s, e)) limit in
  in_replacement i = Some (s, e) ∧
  (in_available i = true ↔ lenZ s ≤ limit ∧ e = SourceEOF) ∧
  in_inspected i = (if in_available i then Some s else None) ∧
  (in_err i = Some ErrReadRequestBody ↔ lenZ s ≤ limit ∧ e = SourceFailed) ∧ in_err i ≠ Some ErrInvalidRequestBodyLimit.
Proof.
  intros Hl i. subst i. unfold InspectRequestBody, read_limited. destruct (Z.leb_spec limit 0); [lia|].
  destruct (Z.ltb_spec limit maxInt64); [|lia]. rewrite add64_id by lia64.
  destruct (Z.ltb_spec (lenZ s) (limit + 1)) as [Hs|Hs]; cbn [andb fst snd].
  - rewrite take_ge, drop_ge by lia. rewrite app_nil_r. destruct e; cbn; [|naive_solver lia].
    destruct (Z.ltb_spec limit (lenZ s)); [lia|]. cbn. naive_solver lia.
  - rewrite take_drop. destruct (Z.ltb_spec limit (lenZ (take (Z.to_nat (limit + 1)) s))) as [|Hn].
    + cbn. naive_solver lia.
    + rewrite length_take in Hn. lia.
Qed.

Lemma InspectRequestBody_exact_witness :
  let i := InspectRequestBody (Some (str "hello", SourceFailed)) 4 in
  in_replacement i = Some (str "hello", SourceFailed) ∧ in_available i = false ∧ in_err i = None.
Proof.
  destruct (InspectRequestBody_exact (str "hello") SourceFailed 4 ltac:(by split)) as (H & _). cbn zeta in *. split; [exact H|]. by vm_compute.
Defined.

(** ** Metadata of a request tree *)

(** The members under the names of the fields they set. *)
Definition known_tree (names : list bytes) (ms : list (bytes * json)) : list (bytes * json) :=
  omap (λ m, (λ name, (name, m.2)) <$> struct_field names (unquote m.1)) ms.

Lemma known_tree_print names ms : known_members names (rawed ms) = rawed (known_tree names ms).
Proof.
  induction ms as [|[k j] ms IH]; [done|]. unfold rawed in *. cbn [map fst snd]. rewrite known_members_cons, IH. unfold known_tree.
  simpl. by destruct (struct_field names (unquote k)).
Qed.

Definition tree_request (ms : list (bytes * json)) : result request_error RequestMetadata :=
  let f k := field (str k) (known_tree request_fields ms) in
  let text k := match f k with None => Ok [] | Some (JString c) => Ok (unquote c) | Some _ => Err (ErrInvalidMetadataField (str k)) end in
  let flag k := match f k with None => Ok None | Some (JBool b) => Ok (Some b) | Some _ => Err (ErrInvalidMetadataField (str k)) end in
  let number k :=
    match f k with
    | None => Ok None
    | Some (JNumber lit) => match ParseInt lit with Ok v => Ok (Some v) | Err _ => Err (ErrInvalidMetadataField (str k)) end
    | Some _ => Err (ErrInvalidMetadataField (str k))
    end in
  let? model := text "model"%string in
  let? stream := flag "stream"%string in
  let? maxTokens := number "max_tokens"%string in
  let? maxCompletion := number "max_completion_tokens"%string in
  let? maxOutput := number "max_output_tokens"%string in
  Ok (mkRequestMetadata model stream maxTokens maxCompletion maxOutput).

Lemma decodeMetadataField_tree {A} (decode : A → bytes → option A) (o : option json) name destination :
  (∀ j, o = Some j → json_ok maxNestingDepth j = true) →
  decodeMetadataField decode (match o with Some j => print j | None => [] end) name destination =
  match o with
  | None => Ok destination
  | Some JNull => Err (ErrInvalidMetadataField name)
  | Some j => match decode destination (print j) with Some x => Ok x | None => Err (ErrInvalidMetadataField name) end
  end.
Proof.
  intros H. unfold decodeMetadataField. destruct o as [j|]; [|done]. specialize (H j eq_refl). pose proof (print_null _ _ H) as Hn.
  destruct (print_head _ _ H) as (c & s & E & _). rewrite E in *. cbn [length Nat.eqb]. rewrite Hn. by destruct j.
Qed.

(** The fields a request is read for are those of its tree: members that no
    field takes are ignored, the last member that sets a field counts, also
    when its name differs in case, and an explicit null or a value of another
    type is refused by the name of the first such field. *)
Theorem ParseRequestMetadata_tree ms :
  json_ok maxNestingDepth (JObject ms) = true → ParseRequestMetadata (print (JObject ms)) = tree_request ms.
Proof.
  intros Hok. unfold ParseRequestMetadata. rewrite print_object_trim, bool_decide_true by done. cbn [negb].
  unfold Unmarshal_request, Unmarshal_fields. rewrite parse_printed by done. cbn [shape_of]. fold (rawed ms). rewrite known_tree_print.
  cbn [mbind option_bind rj_Model rj_Stream rj_MaxTokens rj_MaxCompletionTokens rj_MaxOutputTokens]. rewrite !raw_field_print.
  assert (∀ k j, field k (known_tree request_fields ms) = Some j → json_ok maxNestingDepth j = true) as Hf.
  { intros k j Hj%field_elem. unfold known_tree in Hj. apply list_elem_of_omap in Hj as ([k' j'] & Hin & Hj). cbn [fst snd] in Hj.
    apply fmap_Some in Hj as (name & _ & [= -> ->]). apply json_ok_members in Hok. unfold UsageJson.tree_ok in Hok. rewrite forallb_forall in Hok.
    by apply list_elem_of_In, Hok, andb_true_iff in Hin as [_ ?]. }
  rewrite !decodeMetadataField_tree by (intros j; apply Hf). unfold tree_request.
  assert (∀ A (x x' : result request_error A) B (k k' : A → result request_error B), x = x' → (∀ a, k a = k' a) → result_bind x k = result_bind x' k') as Hb.
  { intros A x x' B k k' -> Hk. by destruct x'; cbn. }
  assert (∀ k, match field (str k) (known_tree request_fields ms) with None => Ok None | Some JNull => Err (ErrInvalidMetadataField (str k))
    | Some j => match Unmarshal_pointer Unmarshal_int64 0 None (print j) with Some x => Ok x | None => Err (ErrInvalidMetadataField (str k)) end end =
    match field (str k) (known_tree request_fields ms) with None => Ok None
    | Some (JNumber lit) => match ParseInt lit with Ok v => Ok (Some v) | Err _ => Err (ErrInvalidMetadataField (str k)) end
    | Some _ => Err (ErrInvalidMetadataField (str k)) end) as Hnum.
  { intros k. destruct (field (str k) _) as [j|] eqn:E; [|done]. apply Hf in E. unfold Unmarshal_pointer, Unmarshal_int64.
    rewrite parse_printed by done. destruct j; try done. cbn [shape_of]. by destruct (ParseInt lit). }
  repeat (apply Hb; [|intros ?]); try apply Hnum; [| |done].
  - destruct (field (str "model") _) as [j|] eqn:E; [|done]. apply Hf in E. unfold Unmarshal_string. rewrite parse_printed by done. by destruct j.
  - destruct (field (str "stream") _) as [j|] eqn:E; [|done]. apply Hf in E. unfold Unmarshal_pointer, Unmarshal_bool. rewrite parse_printed by done. by destruct j.
Qed.
