(* ===== verification/BodyRecorder.v ===== *)
(** * Body capture ([internal/observability/body.go])

    A recorder keeps a prefix of what it observes, counts all of it, and is
    frozen by its first snapshot.  A slice is its bytes; a nil slice and an
    empty one differ in [BodySnapshot.Bytes] only, where [None] is nil. *)

From Stdlib Require Import Ascii ZArith Lia ZifyBool.
From stdpp Require Import prelude strings list.
From S2P Require Import Prelude Text.
Local Open Scope Z_scope.

Abbreviation lenZ l := (Z.of_nat (length l)).

(** ** Data *)

Definition BodyKind : Type := bytes.
Definition BodyKindClientRequest : BodyKind := str "client_request".
Definition BodyKindUpstreamRequest : BodyKind := str "upstream_request".
Definition BodyKindResponse : BodyKind := str "response".

Definition validBodyKind (kind : BodyKind) : bool :=
  bool_decide (kind = BodyKindClientRequest) || bool_decide (kind = BodyKindUpstreamRequest) || bool_decide (kind = BodyKindResponse).

Inductive body_error := ErrInvalidBodyKind | ErrBodyBound | ErrInvalidObservedCount | ErrOriginalSizeOverflow | ErrFinalized.

#[export] Instance body_error_eq_dec : EqDecision body_error.
Proof. solve_decision. Defined.

Record BodySnapshot := mkSnapshot {
  bs_Kind : BodyKind;
  bs_Bytes : option bytes;
  bs_OriginalSize : Z;
  bs_Truncated : bool;
  bs_Captured : bool;
}.

Definition emptySnapshot : BodySnapshot := mkSnapshot [] None 0 false false.

Record BodyRecorder := mkRecorder {
  kind : BodyKind;
  maxBytes : Z;
  retained : bytes;
  original : Z;
  captured : bool;
  finalized : bool;
  frozen : option BodySnapshot;
}.

(** ** Operations *)

Definition maxInt : Z := maxInt64.

Definition NewBodyRecorder (kind : BodyKind) (max : Z) : result body_error BodyRecorder :=
  if negb (validBodyKind kind) then Err ErrInvalidBodyKind
  else if max <? 0 then Err ErrBodyBound
  else if maxInt <? max then Err ErrBodyBound
  else Ok (mkRecorder kind max [] 0 false false None).

(** [writeObserved]; an error changes nothing. *)
Definition writeObserved (p : bytes) (accepted : Z) (r : BodyRecorder) : result body_error BodyRecorder :=
  if finalized r then Err ErrFinalized
  else if (accepted <? 0) || (lenZ p <? accepted) then Err ErrInvalidObservedCount
  else if sub64 maxInt64 (original r) <? accepted then Err ErrOriginalSizeOverflow
  else
    let size := add64 (original r) accepted in
    if (maxBytes r <=? lenZ (retained r)) || (accepted =? 0)
    then Ok (mkRecorder (kind r) (maxBytes r) (retained r) size true (finalized r) (frozen r))
    else
      let remaining := maxBytes r - lenZ (retained r) in
      let remaining := if accepted <? remaining then accepted else remaining in
      Ok (mkRecorder (kind r) (maxBytes r) (retained r ++ take (Z.to_nat remaining) p) size true (finalized r) (frozen r)).

(** A nil recorder is [None]. *)
Definition WriteObserved (p : bytes) (accepted : Z) (r : option BodyRecorder) : option body_error * option BodyRecorder :=
  match r with
  | None => (Some ErrFinalized, None)
  | Some r => match writeObserved p accepted r with Ok r' => (None, Some r') | Err e => (Some e, Some r) end
  end.

Definition BodyRecorder_Write (p : bytes) (r : option BodyRecorder) : Z * option body_error * option BodyRecorder :=
  let '(err, r') := WriteObserved p (lenZ p) r in
  match err with None => (lenZ p, None, r') | Some e => (0, Some e, r') end.

Definition freeze (finalize : bool) (r : BodyRecorder) : BodyRecorder :=
  if finalized r then r
  else
    let captured := finalize || captured r in
    let snapshot := mkSnapshot (kind r) (if maxBytes r =? 0 then None else Some (retained r)) (original r)
                      (lenZ (retained r) <? original r) captured in
    mkRecorder (kind r) (maxBytes r) (retained r) (original r) captured true (Some snapshot).

(** The copy of a frozen capture: an empty one is nil unless it was captured
    into a backing array.  A recorder that is not frozen is never copied. *)
Definition snapshot (r : BodyRecorder) : BodySnapshot :=
  match frozen r with
  | Some s =>
      match bs_Bytes s with
      | Some (_ :: _) | None => s
      | Some [] => mkSnapshot (bs_Kind s) (if bs_Captured s then Some [] else None) (bs_OriginalSize s) (bs_Truncated s) (bs_Captured s)
      end
  | None =>
      mkSnapshot (kind r)
        (match retained r with
         | _ :: _ => Some (retained r)
         | [] => if negb (maxBytes r =? 0) && captured r then Some [] else None
         end) (original r) (lenZ (retained r) <? original r) (captured r)
  end.

Definition BodyRecorder_Snapshot (r : option BodyRecorder) : BodySnapshot * option BodyRecorder :=
  match r with None => (emptySnapshot, None) | Some r => let r := freeze false r in (snapshot r, Some r) end.

Definition BodyRecorder_Finalize (r : option BodyRecorder) : BodySnapshot * option BodyRecorder :=
  match r with None => (emptySnapshot, None) | Some r => let r := freeze true r in (snapshot r, Some r) end.

Definition FinalizeForHandoff (r : option BodyRecorder) : option BodyRecorder := freeze true <$> r.

(** ** The reference: what was observed before the first snapshot *)

Inductive operation := OpWrite (p : bytes) (accepted : Z) | OpSnapshot | OpFinalize | OpHandoff.

Definition perform (op : operation) (r : option BodyRecorder) : option BodyRecorder :=
  match op with
  | OpWrite p n => (WriteObserved p n r).2
  | OpSnapshot => (BodyRecorder_Snapshot r).2
  | OpFinalize => (BodyRecorder_Finalize r).2
  | OpHandoff => FinalizeForHandoff r
  end.

Definition perform_all (ops : list operation) (r : option BodyRecorder) : option BodyRecorder := foldl (λ r op, perform op r) r ops.

(** The observed bytes, whether anything was observed, and the ending. *)
Record observed := mkObserved { ob_bytes : bytes; ob_any : bool; ob_ended : bool }.

Definition observe (op : operation) (o : observed) : observed :=
  if ob_ended o then o
  else
    match op with
    | OpWrite p n =>
        if (n <? 0) || (lenZ p <? n) || (maxInt64 - lenZ (ob_bytes o) <? n) then o
        else mkObserved (ob_bytes o ++ take (Z.to_nat n) p) true false
    | OpSnapshot => mkObserved (ob_bytes o) (ob_any o) true
    | OpFinalize | OpHandoff => mkObserved (ob_bytes o) true true
    end.

Definition observe_all (ops : list operation) : observed := foldl (λ o op, observe op o) (mkObserved [] false false) ops.

(** The snapshot the observations determine. *)
Definition capture (kind : BodyKind) (max : Z) (o : observed) : BodySnapshot :=
  let prefix := take (Z.to_nat max) (ob_bytes o) in
  mkSnapshot kind (if bool_decide (prefix = []) then if (0 <? max) && ob_any o then Some [] else None else Some prefix)
    (lenZ (ob_bytes o)) (lenZ prefix <? lenZ (ob_bytes o)) (ob_any o).

Section recorder.
Context (k : BodyKind) (max : Z) (Hmax : 0 ≤ max ≤ maxInt64).

(** The recorder holds the prefix and the size of what was observed. *)
Definition records (o : observed) (r : BodyRecorder) : Prop :=
  kind r = k ∧ maxBytes r = max ∧ retained r = take (Z.to_nat max) (ob_bytes o) ∧ original r = lenZ (ob_bytes o) ∧
  captured r = ob_any o ∧ finalized r = ob_ended o ∧ lenZ (ob_bytes o) ≤ maxInt64 ∧
  frozen r = (if ob_ended o then Some (mkSnapshot k (if max =? 0 then None else Some (retained r)) (original r) (lenZ (retained r) <? original r) (captured r)) else None).

Lemma records_write p n o r : records o r →
  records (observe (OpWrite p n) o) (match writeObserved p n r with Ok r' => r' | Err _ => r end).
Proof.
  intros (H1 & H2 & H3 & H4 & H5 & H6 & H7 & H8). unfold writeObserved, observe. rewrite H6.
  destruct (ob_ended o) eqn:Ee; [split_and!; (done || by rewrite Ee)|]. rewrite H4, sub64_id by lia64.
  destruct ((n <? 0) || (lenZ p <? n)) eqn:E1; cbn [orb]; [split_and!; (done || by rewrite Ee)|].
  destruct (Z.ltb_spec (maxInt64 - lenZ (ob_bytes o)) n); cbn [orb]; [split_and!; (done || by rewrite Ee)|].
  assert (0 ≤ n ≤ lenZ p) as Hn by lia. rewrite add64_id by lia64.
  assert (lenZ (ob_bytes o ++ take (Z.to_nat n) p) = lenZ (ob_bytes o) + n) as Hlen by (rewrite length_app, length_take; lia).
  rewrite H2, H3, length_take.
  assert (∀ x, x = take (Z.to_nat max) (ob_bytes o ++ take (Z.to_nat n) p) →
    records (mkObserved (ob_bytes o ++ take (Z.to_nat n) p) true false) (mkRecorder (kind r) max x (lenZ (ob_bytes o) + n) true false (frozen r))) as Hr.
  { intros x Hx. unfold records. cbn [kind maxBytes retained original captured finalized frozen ob_bytes ob_any ob_ended]. rewrite Hlen, H8. split_and!; (done || lia). }
  destruct ((max <=? Z.of_nat (Z.to_nat max `min` length (ob_bytes o))) || (n =? 0)) eqn:E2; apply Hr.
  - assert (n = 0 ∨ (Z.to_nat max ≤ length (ob_bytes o))%nat) as [->|Hle] by lia.
    + by rewrite take_0, app_nil_r.
    + by rewrite take_app_le.
  - assert (length (ob_bytes o) < Z.to_nat max)%nat as Hlt by lia. rewrite (take_ge (ob_bytes o)) by lia.
    rewrite take_app_ge, take_take by lia. do 2 f_equal. destruct (Z.ltb_spec n (max - Z.of_nat (Z.to_nat max `min` length (ob_bytes o)))); lia.
Qed.

Lemma records_freeze b o r : records o r →
  records (if ob_ended o then o else mkObserved (ob_bytes o) (b || ob_any o) true) (freeze b r).
Proof.
  intros (H1 & H2 & H3 & H4 & H5 & H6 & H7 & H8). unfold freeze. rewrite H6. destruct (ob_ended o) eqn:Ee.
  - split_and!; try done; by rewrite ?Ee.
  - split_and!; cbn; try done; by rewrite ?H1, ?H2, ?H5.
Qed.

Lemma records_perform op o r : records o r → ∃ r', perform op (Some r) = Some r' ∧ records (observe op o) r'.
Proof.
  intros Hr. destruct op as [p n| | |]; cbn [perform WriteObserved BodyRecorder_Snapshot BodyRecorder_Finalize FinalizeForHandoff fmap option_fmap option_map snd].
  - pose proof (records_write p n o r Hr) as H. destruct (writeObserved p n r); eexists; (split; [done|exact H]).
  - eexists. split; [done|]. apply (records_freeze false) in Hr. unfold observe. by destruct (ob_ended o).
  - eexists. split; [done|]. apply (records_freeze true) in Hr. unfold observe. by destruct (ob_ended o).
  - eexists. split; [done|]. apply (records_freeze true) in Hr. unfold observe. by destruct (ob_ended o).
Qed.

Lemma records_all ops : ∃ r, perform_all ops (Some (mkRecorder k max [] 0 false false None)) = Some r ∧ records (observe_all ops) r.
Proof.
  unfold perform_all, observe_all. induction ops as [|op ops (r & E & Hr)] using rev_ind.
  - eexists. split; [done|]. split_and!; cbn; try done. by rewrite take_nil.
  - rewrite !foldl_snoc, E. by apply records_perform.
Qed.

Lemma snapshot_records o r : records o r → ob_ended o = true → snapshot r = capture k max o.
Proof.
  intros (H1 & H2 & H3 & H4 & H5 & _ & _ & H8) He. unfold snapshot, capture. rewrite H8, He. cbn [bs_Bytes]. rewrite H3, H4, H5.
  destruct (Z.eqb_spec max 0) as [->|Hne].
  - cbn. done.
  - destruct (take (Z.to_nat max) (ob_bytes o)); cbn; [|done]. by rewrite (proj2 (Z.ltb_lt 0 max)) by lia.
Qed.

End recorder.

(** A capture is the bounded prefix of what was observed before the first
    snapshot.  For every kind, bound and sequence of writes, snapshots,
    finalizations and hand-offs, the snapshot taken at the end (and every later
    one) holds exactly the first [max] bytes of the bytes accepted before the
    recorder was frozen, their total size, and the truncation mark exactly when
    bytes are missing; rejected writes count for nothing, and a write after the
    freeze is refused and changes nothing. *)
Theorem recorder_captures_prefix k max r0 ops :
  NewBodyRecorder k max = Ok r0 →
  let r := perform_all ops (Some r0) in
  let o := observe_all (ops ++ [OpSnapshot]) in
  (BodyRecorder_Snapshot r).1 = capture k max o ∧
  (∀ later, (BodyRecorder_Snapshot (perform_all later (BodyRecorder_Snapshot r).2)).1 = capture k max o) ∧
  (∀ p n, (WriteObserved p n (BodyRecorder_Snapshot r).2).1 = Some ErrFinalized).
Proof.
  unfold NewBodyRecorder. destruct (negb _); [done|]. destruct (Z.ltb_spec max 0); [done|]. destruct (Z.ltb_spec maxInt max); [done|].
  intros [= <-]. cbn zeta. unfold maxInt in *. assert (0 ≤ max ≤ maxInt64) as Hmax by lia.
  destruct (records_all k max ops) as (r & -> & Hr). unfold observe_all. rewrite foldl_snoc. fold (observe_all ops).
  destruct (records_perform k max OpSnapshot _ _ Hr) as (r' & E & Hr'). cbn [perform BodyRecorder_Snapshot snd] in E. injection E as E.
  set (o := observe OpSnapshot (observe_all ops)) in *.
  assert (ob_ended o = true) as He by (unfold o, observe; by destruct (ob_ended (observe_all ops)) eqn:?).
  cbn [BodyRecorder_Snapshot fst snd]. rewrite E. assert (snapshot r' = capture k max o) as Hs by (by apply (snapshot_records k max Hmax)).
  split_and!; [done| |].
  - intros later. assert (∃ r2, perform_all later (Some r') = Some r2 ∧ records k max o r2) as (r2 & -> & Hr2).
    { induction later as [|op later (r2 & E2 & Hr2)] using rev_ind; [by exists r'|]. unfold perform_all in *. rewrite foldl_snoc, E2.
      destruct (records_perform k max op _ _ Hr2) as (r3 & E3 & Hr3). exists r3. split; [done|]. unfold observe in Hr3. by rewrite He in Hr3. }
    destruct (records_perform k max OpSnapshot _ _ Hr2) as (r3 & E3 & Hr3). cbn [perform BodyRecorder_Snapshot fst snd] in *. injection E3 as ->.
    unfold observe in Hr3. rewrite He in Hr3. by apply (snapshot_records k max Hmax).
  - intros p n. cbn [WriteObserved fst]. unfold writeObserved. destruct Hr' as (_ & _ & _ & _ & _ & -> & _). by rewrite He.
Qed.

Lemma recorder_captures_prefix_witness :
  ∃ r0, NewBodyRecorder BodyKindResponse 4 = Ok r0 ∧
  (BodyRecorder_Snapshot (perform_all [OpWrite (str "abc") 3; OpWrite (str "xyz") 2; OpWrite (str "q") 5] (Some r0))).1 =
  mkSnapshot BodyKindResponse (Some (str "abcx")) 5 true true.
Proof.
  eexists. split; [reflexivity|].
  destruct (recorder_captures_prefix BodyKindResponse 4 _ [OpWrite (str "abc") 3; OpWrite (str "xyz") 2; OpWrite (str "q") 5] eq_refl) as [-> _].
  vm_compute. reflexivity.
Defined.
