(* ===== verification/CompletionRecord.v ===== *)
(** * The canonical completion record ([internal/httpserver/completion_record.go])

    The bounded facts kept of one request, with the validation that builds a
    record and the JSON it prints.  Enumerations of type [uint8] are integers,
    since the code checks their range; the modes of a response and the outcome
    of a request are strings.  A record has the fields of its input and two
    deprecated scalars. *)

From Stdlib Require Import Ascii ZArith Lia ZifyBool.
From stdpp Require Import prelude strings list.
From S2P Require Import Prelude Text Utf8 Money Usage Json JsonCodec ChatRender.
Local Open Scope Z_scope.

#[local] Arguments str : simpl never.

(** ** Routes *)

Definition RouteClass : Type := Z.
Definition RouteClassUnknown : RouteClass := 0.
Definition RouteClassModels : RouteClass := 1.
Definition RouteClassChatCompletions : RouteClass := 2.
Definition RouteClassResponses : RouteClass := 3.
Definition RouteClassGeneric : RouteClass := 4.
Definition RouteClassHealth : RouteClass := 5.
Definition RouteClassAdmin : RouteClass := 6.

Definition HasPrefix (s p : bytes) : bool := bool_decide (strip_prefix p s ≠ None).

Definition ClassifyRoute (method path : bytes) : RouteClass :=
  if bool_decide (method = str "GET") && bool_decide (path = str "/health") then RouteClassHealth
  else if bool_decide (method = str "GET") && bool_decide (path = str "/v1/models") then RouteClassModels
  else if bool_decide (method = str "POST") && bool_decide (path = str "/v1/chat/completions") then RouteClassChatCompletions
  else if bool_decide (method = str "POST") && bool_decide (path = str "/v1/responses") then RouteClassResponses
  else if HasPrefix path (str "/v1/") then RouteClassGeneric
  else if bool_decide (path = str "/admin") || HasPrefix path (str "/admin/") then RouteClassAdmin
  else RouteClassUnknown.

Definition RouteClass_String (route : RouteClass) : bytes :=
  if route =? RouteClassModels then str "models"
  else if route =? RouteClassChatCompletions then str "chat_completions"
  else if route =? RouteClassResponses then str "responses"
  else if route =? RouteClassGeneric then str "generic"
  else if route =? RouteClassHealth then str "health"
  else if route =? RouteClassAdmin then str "admin"
  else str "unknown".

(** ** Modes, outcomes and error codes *)

Definition RequestMode : Type := Z.
Definition RequestModeUnknown : RequestMode := 0.
Definition RequestModeJSON : RequestMode := 1.
Definition RequestModeSSE : RequestMode := 2.

Definition RequestMode_String (mode : RequestMode) : bytes :=
  if mode =? RequestModeJSON then str "json" else if mode =? RequestModeSSE then str "sse" else str "unknown".

Definition ResponseMode : Type := bytes.
Definition ResponseModeUnknown : ResponseMode := [].
Definition ResponseModeOpaque : ResponseMode := str "opaque".
Definition ResponseModeJSON : ResponseMode := str "json".
Definition ResponseModeSSE : ResponseMode := str "sse".

Definition TerminalOutcome : Type := bytes.
Definition TerminalOutcomeUnknown : TerminalOutcome := str "unknown".
Definition TerminalOutcomePreUpstream : TerminalOutcome := str "pre_upstream".
Definition TerminalOutcomeUpstreamError : TerminalOutcome := str "upstream_error".
Definition TerminalOutcomeResponseError : TerminalOutcome := str "response_error".
Definition TerminalOutcomeComplete : TerminalOutcome := str "complete".
Definition TerminalOutcomeCustomDispatch : TerminalOutcome := str "custom_dispatch".
Definition TerminalOutcomeCancelled : TerminalOutcome := str "cancelled".

Record TerminalMetadata := mkTerminal { Outcome : TerminalOutcome; UpstreamStarted : bool }.

Definition SafeErrorCode : Type := Z.
Definition ErrorCodeUnknown : SafeErrorCode := 0.
Definition ErrorCodeCancellation : SafeErrorCode := 14.
Definition ErrorCodeConflict : SafeErrorCode := 18.

Definition error_names : list bytes :=
  [str "unknown"; str "invalid_api_key"; str "key_disabled"; str "key_expired"; str "invalid_request"; str "model_not_allowed";
   str "request_limit_exceeded"; str "concurrency_limit_exceeded"; str "token_limit_exceeded"; str "budget_exceeded";
   str "upstream_connection_error"; str "upstream_timeout"; str "response_transport_error"; str "conversion_error";
   str "cancelled"; str "unsupported_response"; str "gateway_internal_error"; str "not_found"; str "conflict"].

Definition SafeErrorCode_String (code : SafeErrorCode) : bytes :=
  if Z.of_nat (length error_names) <=? code then str "unknown" else default [] (error_names !! Z.to_nat code).

(** ** Optional scalars *)

Record optional := mkOptional { o_value : Z; o_known : bool }.
Definition unknown : optional := mkOptional 0 false.

#[export] Instance optional_eq_dec : EqDecision optional.
Proof. solve_decision. Defined.

Definition OptionalStatus : Type := optional.
Definition ByteCount : Type := optional.
Definition UnixMicros : Type := optional.
Definition DurationMicros : Type := optional.

(** The errors of the constructors and of the validation. *)
Inductive completion_error :=
| ErrStatus | ErrRequestID | ErrNegativeBytes | ErrTimestampOverflow | ErrDurationMicros | ErrNegativeDuration
| ErrConflictingRoutes | ErrConflictingUpstreamModes | ErrConflictingErrorCodes
| ErrKeyIdentity | ErrRequestText | ErrEnum | ErrDeliveredWithoutUpstream | ErrSSEDelivery | ErrOpaqueDelivery | ErrOpaqueUpstream
| ErrRequestedMode | ErrTerminalOrCode | ErrPreUpstreamStarted | ErrPostUpstreamNotStarted | ErrFinishBeforeStart.

Definition NewStatus (status : Z) : result completion_error OptionalStatus :=
  if (status <? 0) || (999 <? status) then Err ErrStatus else Ok (mkOptional status true).

Definition NewByteCount (value : Z) : result completion_error ByteCount :=
  if value <? 0 then Err ErrNegativeBytes else Ok (mkOptional value true).

Definition NewUnixMicros (at_ : Z) : result completion_error UnixMicros :=
  let seconds := Unix at_ in
  let nanos := Z.quot (Nanosecond at_) 1000 in
  let maxSeconds := Z.quot maxInt64 1000000 in
  let minSeconds := Z.quot minInt64 1000000 in
  if (maxSeconds <? seconds) || (seconds =? maxSeconds) && (Z.rem maxInt64 1000000 <? nanos) ||
     (seconds <? minSeconds) || (seconds =? minSeconds) && (nanos <? Z.rem minInt64 1000000)
  then Err ErrTimestampOverflow
  else Ok (mkOptional (add64 (mul64 seconds 1000000) nanos) true).

(** [time.Unix(sec, nsec)] with the normalisation of [nsec]. *)
Definition time_Unix (sec nsec : Z) : Z := sec * second + nsec.

Definition UnixMicros_Time (stamp : UnixMicros) : option Z :=
  if o_known stamp then Some (time_Unix (Z.quot (o_value stamp) 1000000) (Z.rem (o_value stamp) 1000000 * 1000)) else None.

Definition Microsecond : Z := 1000.

Definition NewDurationMicros (duration : Z) : result completion_error DurationMicros :=
  if (duration <? 0) || negb (Z.rem duration Microsecond =? 0) then Err ErrDurationMicros
  else Ok (mkOptional (Z.quot duration Microsecond) true).

Definition NewDurationMicrosValue (value : Z) : result completion_error DurationMicros :=
  if value <? 0 then Err ErrNegativeDuration else Ok (mkOptional value true).

Definition DurationMicros_Duration (duration : DurationMicros) : option Z :=
  if negb (o_known duration) || (Z.quot maxInt64 Microsecond <? o_value duration) then None
  else Some (mul64 (o_value duration) Microsecond).

(** ** The record *)

Record CompletionTiming := mkTiming {
  StartedAt : UnixMicros;
  UpstreamStartedAt : UnixMicros;
  UpstreamHeadersAt : UnixMicros;
  FirstByteAt : UnixMicros;
  FinishedAt : UnixMicros;
  Total : DurationMicros;
  TimeToUpstreamHeaders : DurationMicros;
  TimeToFirstByte : DurationMicros;
  StreamCloseDelay : DurationMicros;
}.

Record CompletionRecordInput := mkRecordInput {
  ci_RequestID : bytes;
  ci_KeyID : bytes;
  ci_KeyName : bytes;
  ci_Method : bytes;
  ci_Path : bytes;
  ci_Route : Z;
  ci_RouteClass : Z;
  ci_Model : bytes;
  ci_RequestedMode : Z;
  ci_UpstreamMode : ResponseMode;
  ci_ActualUpstreamMode : ResponseMode;
  ci_DeliveredMode : ResponseMode;
  ci_DownstreamStatus : OptionalStatus;
  ci_UpstreamStatus : OptionalStatus;
  ci_Terminal : TerminalMetadata;
  ci_ErrorCode : Z;
  ci_SafeErrorCode : Z;
  ci_ClientBytes : ByteCount;
  ci_UpstreamBytes : ByteCount;
  ci_DeliveredBytes : ByteCount;
  ci_Usage : Usage.Usage;
  ci_Cost : Money;
  ci_Timing : CompletionTiming;
}.

Record CompletionRecord := mkCompletionRecord {
  rec_fields : CompletionRecordInput;
  rec_Status : Z;
  rec_Duration : Z;
}.

(** The assignments to fields. *)
Definition with_auth (keyID keyName : bytes) (i : CompletionRecordInput) : CompletionRecordInput :=
  mkRecordInput
    (ci_RequestID i) keyID keyName (ci_Method i) (ci_Path i) (ci_Route i) (ci_RouteClass i) (ci_Model i)
    (ci_RequestedMode i) (ci_UpstreamMode i) (ci_ActualUpstreamMode i) (ci_DeliveredMode i) (ci_DownstreamStatus i)
    (ci_UpstreamStatus i) (ci_Terminal i) (ci_ErrorCode i) (ci_SafeErrorCode i) (ci_ClientBytes i)
    (ci_UpstreamBytes i) (ci_DeliveredBytes i) (ci_Usage i) (ci_Cost i) (ci_Timing i).

Definition with_request (method path : bytes) (route : Z) (model : bytes) (requestedMode : Z) (i : CompletionRecordInput) : CompletionRecordInput :=
  mkRecordInput
    (ci_RequestID i) (ci_KeyID i) (ci_KeyName i) method path route (ci_RouteClass i) model requestedMode
    (ci_UpstreamMode i) (ci_ActualUpstreamMode i) (ci_DeliveredMode i) (ci_DownstreamStatus i) (ci_UpstreamStatus i)
    (ci_Terminal i) (ci_ErrorCode i) (ci_SafeErrorCode i) (ci_ClientBytes i) (ci_UpstreamBytes i)
    (ci_DeliveredBytes i) (ci_Usage i) (ci_Cost i) (ci_Timing i).

Definition with_route (route : Z) (i : CompletionRecordInput) : CompletionRecordInput :=
  mkRecordInput
    (ci_RequestID i) (ci_KeyID i) (ci_KeyName i) (ci_Method i) (ci_Path i) route (ci_RouteClass i) (ci_Model i)
    (ci_RequestedMode i) (ci_UpstreamMode i) (ci_ActualUpstreamMode i) (ci_DeliveredMode i) (ci_DownstreamStatus i)
    (ci_UpstreamStatus i) (ci_Terminal i) (ci_ErrorCode i) (ci_SafeErrorCode i) (ci_ClientBytes i)
    (ci_UpstreamBytes i) (ci_DeliveredBytes i) (ci_Usage i) (ci_Cost i) (ci_Timing i).

Definition with_modes (upstream actual delivered : ResponseMode) (i : CompletionRecordInput) : CompletionRecordInput :=
  mkRecordInput
    (ci_RequestID i) (ci_KeyID i) (ci_KeyName i) (ci_Method i) (ci_Path i) (ci_Route i) (ci_RouteClass i) (ci_Model i)
    (ci_RequestedMode i) upstream actual delivered (ci_DownstreamStatus i) (ci_UpstreamStatus i) (ci_Terminal i)
    (ci_ErrorCode i) (ci_SafeErrorCode i) (ci_ClientBytes i) (ci_UpstreamBytes i) (ci_DeliveredBytes i) (ci_Usage i)
    (ci_Cost i) (ci_Timing i).

Definition with_downstream (status : OptionalStatus) (i : CompletionRecordInput) : CompletionRecordInput :=
  mkRecordInput
    (ci_RequestID i) (ci_KeyID i) (ci_KeyName i) (ci_Method i) (ci_Path i) (ci_Route i) (ci_RouteClass i) (ci_Model i)
    (ci_RequestedMode i) (ci_UpstreamMode i) (ci_ActualUpstreamMode i) (ci_DeliveredMode i) status
    (ci_UpstreamStatus i) (ci_Terminal i) (ci_ErrorCode i) (ci_SafeErrorCode i) (ci_ClientBytes i)
    (ci_UpstreamBytes i) (ci_DeliveredBytes i) (ci_Usage i) (ci_Cost i) (ci_Timing i).

Definition with_upstream_status (status : OptionalStatus) (i : CompletionRecordInput) : CompletionRecordInput :=
  mkRecordInput
    (ci_RequestID i) (ci_KeyID i) (ci_KeyName i) (ci_Method i) (ci_Path i) (ci_Route i) (ci_RouteClass i) (ci_Model i)
    (ci_RequestedMode i) (ci_UpstreamMode i) (ci_ActualUpstreamMode i) (ci_DeliveredMode i) (ci_DownstreamStatus i)
    status (ci_Terminal i) (ci_ErrorCode i) (ci_SafeErrorCode i) (ci_ClientBytes i) (ci_UpstreamBytes i)
    (ci_DeliveredBytes i) (ci_Usage i) (ci_Cost i) (ci_Timing i).

Definition with_terminal (terminal : TerminalMetadata) (i : CompletionRecordInput) : CompletionRecordInput :=
  mkRecordInput
    (ci_RequestID i) (ci_KeyID i) (ci_KeyName i) (ci_Method i) (ci_Path i) (ci_Route i) (ci_RouteClass i) (ci_Model i)
    (ci_RequestedMode i) (ci_UpstreamMode i) (ci_ActualUpstreamMode i) (ci_DeliveredMode i) (ci_DownstreamStatus i)
    (ci_UpstreamStatus i) terminal (ci_ErrorCode i) (ci_SafeErrorCode i) (ci_ClientBytes i) (ci_UpstreamBytes i)
    (ci_DeliveredBytes i) (ci_Usage i) (ci_Cost i) (ci_Timing i).

Definition with_codes (code safe : Z) (i : CompletionRecordInput) : CompletionRecordInput :=
  mkRecordInput
    (ci_RequestID i) (ci_KeyID i) (ci_KeyName i) (ci_Method i) (ci_Path i) (ci_Route i) (ci_RouteClass i) (ci_Model i)
    (ci_RequestedMode i) (ci_UpstreamMode i) (ci_ActualUpstreamMode i) (ci_DeliveredMode i) (ci_DownstreamStatus i)
    (ci_UpstreamStatus i) (ci_Terminal i) code safe (ci_ClientBytes i) (ci_UpstreamBytes i) (ci_DeliveredBytes i)
    (ci_Usage i) (ci_Cost i) (ci_Timing i).

Definition with_counts (client upstream delivered : ByteCount) (i : CompletionRecordInput) : CompletionRecordInput :=
  mkRecordInput
    (ci_RequestID i) (ci_KeyID i) (ci_KeyName i) (ci_Method i) (ci_Path i) (ci_Route i) (ci_RouteClass i) (ci_Model i)
    (ci_RequestedMode i) (ci_UpstreamMode i) (ci_ActualUpstreamMode i) (ci_DeliveredMode i) (ci_DownstreamStatus i)
    (ci_UpstreamStatus i) (ci_Terminal i) (ci_ErrorCode i) (ci_SafeErrorCode i) client upstream delivered (ci_Usage i)
    (ci_Cost i) (ci_Timing i).

Definition with_usage (usage : Usage.Usage) (i : CompletionRecordInput) : CompletionRecordInput :=
  mkRecordInput
    (ci_RequestID i) (ci_KeyID i) (ci_KeyName i) (ci_Method i) (ci_Path i) (ci_Route i) (ci_RouteClass i) (ci_Model i)
    (ci_RequestedMode i) (ci_UpstreamMode i) (ci_ActualUpstreamMode i) (ci_DeliveredMode i) (ci_DownstreamStatus i)
    (ci_UpstreamStatus i) (ci_Terminal i) (ci_ErrorCode i) (ci_SafeErrorCode i) (ci_ClientBytes i)
    (ci_UpstreamBytes i) (ci_DeliveredBytes i) usage (ci_Cost i) (ci_Timing i).

Definition with_cost (cost : Money) (i : CompletionRecordInput) : CompletionRecordInput :=
  mkRecordInput
    (ci_RequestID i) (ci_KeyID i) (ci_KeyName i) (ci_Method i) (ci_Path i) (ci_Route i) (ci_RouteClass i) (ci_Model i)
    (ci_RequestedMode i) (ci_UpstreamMode i) (ci_ActualUpstreamMode i) (ci_DeliveredMode i) (ci_DownstreamStatus i)
    (ci_UpstreamStatus i) (ci_Terminal i) (ci_ErrorCode i) (ci_SafeErrorCode i) (ci_ClientBytes i)
    (ci_UpstreamBytes i) (ci_DeliveredBytes i) (ci_Usage i) cost (ci_Timing i).

Definition with_timing (timing : CompletionTiming) (i : CompletionRecordInput) : CompletionRecordInput :=
  mkRecordInput
    (ci_RequestID i) (ci_KeyID i) (ci_KeyName i) (ci_Method i) (ci_Path i) (ci_Route i) (ci_RouteClass i) (ci_Model i)
    (ci_RequestedMode i) (ci_UpstreamMode i) (ci_ActualUpstreamMode i) (ci_DeliveredMode i) (ci_DownstreamStatus i)
    (ci_UpstreamStatus i) (ci_Terminal i) (ci_ErrorCode i) (ci_SafeErrorCode i) (ci_ClientBytes i)
    (ci_UpstreamBytes i) (ci_DeliveredBytes i) (ci_Usage i) (ci_Cost i) timing.

(** ** Validation *)

(** [hex.Decode] succeeds and [strings.ToLower] is the identity. *)
Definition lower_byte (c : ascii) : ascii := if (65 <=? code c) && (code c <=? 90) then chr (code c + 32) else c.

Definition validRequestID (id : bytes) : bool :=
  if negb (Nat.eqb (length id) 32) then false
  else forallb is_hex id && bool_decide (map lower_byte id = id).

Definition safeRequestID (id : bytes) : bytes := if validRequestID id then id else str "<invalid>".

Definition NewRequestID (value : bytes) : result completion_error bytes :=
  if negb (validRequestID value) then Err ErrRequestID else Ok value.

(** [unicode.IsControl]: the category Cc. *)
Definition IsControl (r : Z) : bool := (0 <=? r) && (r <? 32) || (127 <=? r) && (r <? 160).

Definition validBoundedText (value : bytes) (max : Z) : bool :=
  if negb (ValidString value) || (max <? RuneCountInString value) then false
  else forallb (λ r, negb (IsControl r)) (runes value).

Definition validErrorCode (code : SafeErrorCode) : bool := code <=? ErrorCodeConflict.

Definition validTerminalOutcome (outcome : TerminalOutcome) : bool :=
  bool_decide (outcome ∈ [TerminalOutcomeUnknown; TerminalOutcomePreUpstream; TerminalOutcomeUpstreamError; TerminalOutcomeResponseError;
    TerminalOutcomeComplete; TerminalOutcomeCustomDispatch; TerminalOutcomeCancelled]).

Fixpoint validateStatuses (statuses : list OptionalStatus) : option completion_error :=
  match statuses with
  | [] => None
  | status :: rest =>
      if o_known status && ((o_value status <? 0) || (999 <? o_value status)) then Some ErrStatus else validateStatuses rest
  end.

Fixpoint nonnegative (e : completion_error) (values : list optional) : option completion_error :=
  match values with
  | [] => None
  | v :: rest => if o_known v && (o_value v <? 0) then Some e else nonnegative e rest
  end.

Definition validateTiming (timing : CompletionTiming) : option completion_error :=
  match nonnegative ErrNegativeDuration [Total timing; TimeToFirstByte timing; StreamCloseDelay timing] with
  | Some e => Some e
  | None =>
      if o_known (StartedAt timing) && o_known (FinishedAt timing) && (o_value (FinishedAt timing) <? o_value (StartedAt timing))
      then Some ErrFinishBeforeStart else None
  end.

Definition same (a b : bytes) : bool := bool_decide (a = b).

Definition validateCompletionInput (i : CompletionRecordInput) : option completion_error :=
  let upstream := ci_UpstreamMode i in
  let delivered := ci_DeliveredMode i in
  let requested := ci_RequestedMode i in
  let outcome := Outcome (ci_Terminal i) in
  if negb (validRequestID (ci_RequestID i)) then Some ErrRequestID
  else if negb (same (ci_KeyID i) []) && negb (validBoundedText (ci_KeyID i) 256) ||
          negb (same (ci_KeyName i) []) && negb (validBoundedText (ci_KeyName i) 256) then Some ErrKeyIdentity
  else if negb (validBoundedText (ci_Method i) 32) || negb (validBoundedText (ci_Path i) 2048) || negb (validBoundedText (ci_Model i) 512)
       then Some ErrRequestText
  else if (RouteClassAdmin <? ci_Route i) || (RequestModeSSE <? requested) ||
          negb (same upstream ResponseModeUnknown) && negb (same upstream ResponseModeJSON) &&
          negb (same upstream ResponseModeOpaque) && negb (same upstream ResponseModeSSE) ||
          negb (same delivered ResponseModeUnknown) && negb (same delivered ResponseModeJSON) &&
          negb (same delivered ResponseModeOpaque) && negb (same delivered ResponseModeSSE) then Some ErrEnum
  else if same upstream ResponseModeUnknown && negb (same delivered ResponseModeUnknown) && negb (same delivered ResponseModeOpaque)
       then Some ErrDeliveredWithoutUpstream
  else if same delivered ResponseModeSSE && negb (same upstream ResponseModeSSE) then Some ErrSSEDelivery
  else if same delivered ResponseModeOpaque && negb (same upstream ResponseModeOpaque) && negb (same upstream ResponseModeUnknown)
       then Some ErrOpaqueDelivery
  else if same upstream ResponseModeOpaque && negb (same delivered ResponseModeOpaque) && negb (same delivered ResponseModeUnknown)
       then Some ErrOpaqueUpstream
  else if (requested =? RequestModeJSON) && same delivered ResponseModeSSE || (requested =? RequestModeSSE) && same delivered ResponseModeJSON
       then Some ErrRequestedMode
  else if negb (validErrorCode (ci_ErrorCode i)) || negb (validTerminalOutcome outcome) then Some ErrTerminalOrCode
  else if same outcome TerminalOutcomePreUpstream && UpstreamStarted (ci_Terminal i) then Some ErrPreUpstreamStarted
  else if negb (same outcome TerminalOutcomeUnknown) && negb (same outcome TerminalOutcomePreUpstream) && negb (UpstreamStarted (ci_Terminal i))
       then Some ErrPostUpstreamNotStarted
  else
    match validateStatuses [ci_DownstreamStatus i; ci_UpstreamStatus i] with
    | Some e => Some e
    | None =>
        match nonnegative ErrNegativeBytes [ci_ClientBytes i; ci_UpstreamBytes i; ci_DeliveredBytes i] with
        | Some e => Some e
        | None => validateTiming (ci_Timing i)
        end
    end.

(** The two spellings of a fact conflict. *)
Definition conflict (a b : Z) : bool := negb (a =? 0) && negb (b =? 0) && negb (a =? b).
Definition mode_conflict (a b : ResponseMode) : bool := negb (same a ResponseModeUnknown) && negb (same b ResponseModeUnknown) && negb (same a b).

Definition normalizeCompletionInput (i : CompletionRecordInput) : CompletionRecordInput :=
  if conflict (ci_Route i) (ci_RouteClass i) then i
  else
    let i := if ci_Route i =? RouteClassUnknown then with_route (ci_RouteClass i) i else i in
    if mode_conflict (ci_UpstreamMode i) (ci_ActualUpstreamMode i) then i
    else
      let i := if same (ci_UpstreamMode i) ResponseModeUnknown
               then with_modes (ci_ActualUpstreamMode i) (ci_ActualUpstreamMode i) (ci_DeliveredMode i) i else i in
      if conflict (ci_ErrorCode i) (ci_SafeErrorCode i) then i
      else if ci_ErrorCode i =? ErrorCodeUnknown then with_codes (ci_SafeErrorCode i) (ci_SafeErrorCode i) i else i.

Definition NewCompletionRecord (input : CompletionRecordInput) : result completion_error CompletionRecord :=
  if conflict (ci_Route input) (ci_RouteClass input) then Err ErrConflictingRoutes
  else if mode_conflict (ci_UpstreamMode input) (ci_ActualUpstreamMode input) then Err ErrConflictingUpstreamModes
  else if conflict (ci_ErrorCode input) (ci_SafeErrorCode input) then Err ErrConflictingErrorCodes
  else
    let i := normalizeCompletionInput input in
    match validateCompletionInput i with
    | Some e => Err e
    | None =>
        Ok (mkCompletionRecord
              (mkRecordInput (ci_RequestID i) (ci_KeyID i) (ci_KeyName i) (ci_Method i) (ci_Path i) (ci_Route i) (ci_Route i) (ci_Model i)
                 (ci_RequestedMode i) (ci_UpstreamMode i) (ci_UpstreamMode i) (ci_DeliveredMode i) (ci_DownstreamStatus i)
                 (ci_UpstreamStatus i) (ci_Terminal i) (ci_ErrorCode i) (ci_ErrorCode i) (ci_ClientBytes i) (ci_UpstreamBytes i)
                 (ci_DeliveredBytes i) (ci_Usage i) (ci_Cost i) (ci_Timing i)) 0 0)
    end.

Definition record_input (record : CompletionRecord) : CompletionRecordInput := rec_fields record.
Definition CompletionRecord_Snapshot (record : CompletionRecord) : result completion_error CompletionRecord := NewCompletionRecord (record_input record).
Definition CompletionRecord_Validate (record : CompletionRecord) : option completion_error := validateCompletionInput (record_input record).

Definition CompletionRecord_String (record : CompletionRecord) : bytes :=
  str "completion request_id=" ++ safeRequestID (ci_RequestID (rec_fields record)) ++
  str " route=" ++ RouteClass_String (ci_Route (rec_fields record)) ++
  str " outcome=" ++ Outcome (ci_Terminal (rec_fields record)).

(** ** JSON *)

Definition optional_json (v : optional) : json := if o_known v then JInt (o_value v) else JNull.
Definition count_json (c : TokenCount) : json := if tc_known c then JInt (tc_value c) else JNull.
Definition mode_json (mode : ResponseMode) : json := if same mode ResponseModeUnknown then JNull else JText mode.

Definition timing_json (t : CompletionTiming) : json :=
  JObject
    [(str "started_at", optional_json (StartedAt t)); (str "upstream_started_at", optional_json (UpstreamStartedAt t));
     (str "upstream_headers_at", optional_json (UpstreamHeadersAt t)); (str "first_byte_at", optional_json (FirstByteAt t));
     (str "finished_at", optional_json (FinishedAt t)); (str "total_micros", optional_json (Total t));
     (str "time_to_upstream_headers_micros", optional_json (TimeToUpstreamHeaders t));
     (str "time_to_first_byte_micros", optional_json (TimeToFirstByte t));
     (str "stream_close_delay_micros", optional_json (StreamCloseDelay t))].

Definition terminal_json (t : TerminalMetadata) : json :=
  JObject [(str "Outcome", JText (Outcome t)); (str "UpstreamStarted", JBool (UpstreamStarted t))].

Definition usage_json (u : Usage.Usage) : json :=
  JObject
    [(str "input", count_json (input_count (usage_input u))); (str "output", count_json (output_count (usage_output u)));
     (str "total", count_json (total_count (usage_total u))); (str "cached_input", count_json (cached_input_count (usage_cachedInput u)));
     (str "reasoning_output", count_json (reasoning_output_count (usage_reasoningOutput u)))].

Definition record_json (record : CompletionRecord) : json :=
  let i := rec_fields record in
  JObject
    ((str "request_id", JText (safeRequestID (ci_RequestID i))) ::
     omit_empty (str "key_id") (ci_KeyID i) ++ omit_empty (str "key_name") (ci_KeyName i) ++
     (str "method", JText (ci_Method i)) :: omit_empty (str "path") (ci_Path i) ++
     (str "route", JText (RouteClass_String (ci_Route i))) :: omit_empty (str "model") (ci_Model i) ++
     [(str "requested_mode", if ci_RequestedMode i =? RequestModeUnknown then JNull else JText (RequestMode_String (ci_RequestedMode i)));
      (str "upstream_mode", mode_json (ci_UpstreamMode i)); (str "delivered_mode", mode_json (ci_DeliveredMode i));
      (str "downstream_status", optional_json (ci_DownstreamStatus i)); (str "upstream_status", optional_json (ci_UpstreamStatus i));
      (str "terminal", terminal_json (ci_Terminal i)); (str "error_code", JText (SafeErrorCode_String (ci_ErrorCode i)));
      (str "client_bytes", optional_json (ci_ClientBytes i)); (str "upstream_bytes", optional_json (ci_UpstreamBytes i));
      (str "delivered_bytes", optional_json (ci_DeliveredBytes i)); (str "usage", usage_json (ci_Usage i));
      (str "cost", if Money_Known (ci_Cost i) then JText (Money_String (ci_Cost i)) else JNull);
      (str "timing", timing_json (ci_Timing i))]).

Definition CompletionRecord_MarshalJSON (record : CompletionRecord) : bytes := print (record_json record).

(** ** The reference: what a record may hold *)

Definition response_modes : list ResponseMode := [ResponseModeUnknown; ResponseModeJSON; ResponseModeOpaque; ResponseModeSSE].

(** The representations of upstream and the ones that may be delivered. *)
Definition delivery_table : list (ResponseMode * ResponseMode) :=
  [(ResponseModeUnknown, ResponseModeUnknown); (ResponseModeUnknown, ResponseModeOpaque);
   (ResponseModeJSON, ResponseModeUnknown); (ResponseModeJSON, ResponseModeJSON);
   (ResponseModeSSE, ResponseModeUnknown); (ResponseModeSSE, ResponseModeSSE); (ResponseModeSSE, ResponseModeJSON);
   (ResponseModeOpaque, ResponseModeUnknown); (ResponseModeOpaque, ResponseModeOpaque)].

(** The delivered representation is not the other one of the requested. *)
Definition requested_delivery (requested : RequestMode) (delivered : ResponseMode) : Prop :=
  (requested, delivered) ∉ [(RequestModeJSON, ResponseModeSSE); (RequestModeSSE, ResponseModeJSON)].

Definition modes_consistent (i : CompletionRecordInput) : Prop :=
  (ci_UpstreamMode i, ci_DeliveredMode i) ∈ delivery_table ∧ requested_delivery (ci_RequestedMode i) (ci_DeliveredMode i).

(** The outcomes with the upstream state they are about. *)
Definition outcome_table : list (TerminalOutcome * bool) :=
  [(TerminalOutcomeUnknown, false); (TerminalOutcomeUnknown, true); (TerminalOutcomePreUpstream, false);
   (TerminalOutcomeUpstreamError, true); (TerminalOutcomeResponseError, true); (TerminalOutcomeComplete, true);
   (TerminalOutcomeCustomDispatch, true); (TerminalOutcomeCancelled, true)].

Definition terminal_consistent (t : TerminalMetadata) : Prop := (Outcome t, UpstreamStarted t) ∈ outcome_table.

Definition request_id (id : bytes) : Prop := length id = 32%nat ∧ Forall (λ c, c ∈ str "0123456789abcdef") id.
Definition optional_text (s : bytes) (max : Z) : Prop := s = [] ∨ validBoundedText s max = true.
Definition known_within (lo hi : Z) (v : optional) : Prop := o_known v = true → lo ≤ o_value v ≤ hi.
Definition known_nonneg (v : optional) : Prop := o_known v = true → 0 ≤ o_value v.

(** The facts that do not depend on modes and outcome. *)
Record scalars_ok (i : CompletionRecordInput) : Prop := {
  so_id : request_id (ci_RequestID i);
  so_key : optional_text (ci_KeyID i) 256 ∧ optional_text (ci_KeyName i) 256;
  so_text : validBoundedText (ci_Method i) 32 = true ∧ validBoundedText (ci_Path i) 2048 = true ∧ validBoundedText (ci_Model i) 512 = true;
  so_route : ci_Route i ≤ RouteClassAdmin;
  so_requested : ci_RequestedMode i ≤ RequestModeSSE;
  so_code : ci_ErrorCode i ≤ ErrorCodeConflict;
  so_status : known_within 0 999 (ci_DownstreamStatus i) ∧ known_within 0 999 (ci_UpstreamStatus i);
  so_bytes : known_nonneg (ci_ClientBytes i) ∧ known_nonneg (ci_UpstreamBytes i) ∧ known_nonneg (ci_DeliveredBytes i);
  so_durations : known_nonneg (Total (ci_Timing i)) ∧ known_nonneg (TimeToFirstByte (ci_Timing i)) ∧ known_nonneg (StreamCloseDelay (ci_Timing i));
  so_finish : o_known (StartedAt (ci_Timing i)) = true → o_known (FinishedAt (ci_Timing i)) = true →
    o_value (StartedAt (ci_Timing i)) ≤ o_value (FinishedAt (ci_Timing i));
}.

Definition record_facts (i : CompletionRecordInput) : Prop := scalars_ok i ∧ modes_consistent i ∧ terminal_consistent (ci_Terminal i).

(** The one spelling of the facts that have two. *)
Definition merged (i : CompletionRecordInput) : CompletionRecordInput :=
  let route := if ci_Route i =? 0 then ci_RouteClass i else ci_Route i in
  let mode := if same (ci_UpstreamMode i) [] then ci_ActualUpstreamMode i else ci_UpstreamMode i in
  let code := if ci_ErrorCode i =? 0 then ci_SafeErrorCode i else ci_ErrorCode i in
  mkRecordInput (ci_RequestID i) (ci_KeyID i) (ci_KeyName i) (ci_Method i) (ci_Path i) route route (ci_Model i)
    (ci_RequestedMode i) mode mode (ci_DeliveredMode i) (ci_DownstreamStatus i) (ci_UpstreamStatus i) (ci_Terminal i) code code
    (ci_ClientBytes i) (ci_UpstreamBytes i) (ci_DeliveredBytes i) (ci_Usage i) (ci_Cost i) (ci_Timing i).

Definition spellings_agree (i : CompletionRecordInput) : Prop :=
  (ci_Route i = 0 ∨ ci_RouteClass i = 0 ∨ ci_Route i = ci_RouteClass i) ∧
  (ci_UpstreamMode i = [] ∨ ci_ActualUpstreamMode i = [] ∨ ci_UpstreamMode i = ci_ActualUpstreamMode i) ∧
  (ci_ErrorCode i = 0 ∨ ci_SafeErrorCode i = 0 ∨ ci_ErrorCode i = ci_SafeErrorCode i).

(** ** Validation is exact *)

Lemma if_none {E} (b : bool) (e : E) k : (if b then Some e else k) = None ↔ b = false ∧ k = None.
Proof. destruct b; naive_solver. Qed.

Lemma match_none {E} (a k : option E) : match a with Some e => Some e | None => k end = None ↔ a = None ∧ k = None.
Proof. destruct a; naive_solver. Qed.

Lemma known_nonneg_spec v : o_known v && (o_value v <? 0) = false ↔ known_nonneg v.
Proof. unfold known_nonneg. destruct (o_known v); cbn; lia. Qed.

Lemma known_within_spec v : o_known v && ((o_value v <? 0) || (999 <? o_value v)) = false ↔ known_within 0 999 v.
Proof. unfold known_within. destruct (o_known v); cbn; lia. Qed.

Lemma hex_lower_table : forallb (λ n, let c := ascii_of_nat n in
  Bool.eqb (is_hex c && bool_decide (lower_byte c = c)) (bool_decide (c ∈ str "0123456789abcdef"))) (seq 0 256) = true.
Proof. vm_compute. reflexivity. Qed.

Lemma hex_lower c : is_hex c = true ∧ lower_byte c = c ↔ c ∈ str "0123456789abcdef".
Proof.
  pose proof (proj1 (forallb_forall _ _) hex_lower_table (nat_of_ascii c)) as H. cbv beta zeta in H.
  rewrite ascii_nat_embedding in H. specialize (H ltac:(apply in_seq; pose proof (nat_ascii_bounded c); lia)).
  apply Bool.eqb_prop in H. rewrite <- (bool_decide_eq_true (c ∈ _)), <- H, andb_true_iff, bool_decide_eq_true. done.
Qed.

Lemma validRequestID_exact id : validRequestID id = true ↔ request_id id.
Proof.
  unfold validRequestID, request_id. destruct (Nat.eqb_spec (length id) 32) as [E|E]; cbn [negb]; [|by split; [done|intros []]].
  rewrite E. rewrite andb_true_iff, bool_decide_eq_true. split.
  - intros [H1 H2]. split; [done|]. clear E. induction id as [|c id IH]; [constructor|]. cbn in H1, H2.
    apply andb_true_iff in H1 as [H1 H1']. injection H2 as H2 H2'. constructor; [by apply hex_lower|by apply IH].
  - intros [_ H]. clear E. induction H as [|c id Hc _ [IH1 IH2]]; [done|]. apply hex_lower in Hc as [H1 H2]. cbn. rewrite H1, IH1, H2, IH2. done.
Qed.

(** The conditions on the modes, as the validation evaluates them. *)
Definition modes_rejected (u d : ResponseMode) : bool :=
  same u ResponseModeUnknown && negb (same d ResponseModeUnknown) && negb (same d ResponseModeOpaque) ||
  same d ResponseModeSSE && negb (same u ResponseModeSSE) ||
  same d ResponseModeOpaque && negb (same u ResponseModeOpaque) && negb (same u ResponseModeUnknown) ||
  same u ResponseModeOpaque && negb (same d ResponseModeOpaque) && negb (same d ResponseModeUnknown).

Definition mode_unlisted (m : ResponseMode) : bool :=
  negb (same m ResponseModeUnknown) && negb (same m ResponseModeJSON) && negb (same m ResponseModeOpaque) && negb (same m ResponseModeSSE).

Lemma mode_unlisted_spec m : mode_unlisted m = false ↔ m ∈ response_modes.
Proof.
  unfold mode_unlisted, response_modes, same. rewrite !elem_of_cons, elem_of_nil.
  rewrite !andb_false_iff, !negb_false_iff, !bool_decide_eq_true. naive_solver.
Qed.

Lemma delivery_checked : forallb (λ u, forallb (λ d, Bool.eqb (negb (modes_rejected u d)) (bool_decide ((u, d) ∈ delivery_table))) response_modes)
  response_modes = true.
Proof. vm_compute. reflexivity. Qed.

Lemma delivery_listed : forallb (λ p, bool_decide (p.1 ∈ response_modes ∧ p.2 ∈ response_modes)) delivery_table = true.
Proof. vm_compute. reflexivity. Qed.

Lemma delivery_table_spec u d :
  (u, d) ∈ delivery_table ↔ mode_unlisted u = false ∧ mode_unlisted d = false ∧ modes_rejected u d = false.
Proof.
  rewrite !mode_unlisted_spec. split.
  - intros H. pose proof (proj1 (forallb_forall _ _) delivery_listed _ (proj1 (list_elem_of_In _ _) H)) as Hl.
    apply bool_decide_eq_true in Hl as [Hu Hd]. split_and!; try done.
    pose proof (proj1 (forallb_forall _ _) delivery_checked _ (proj1 (list_elem_of_In _ _) Hu)) as Hc. cbv beta in Hc.
    apply (proj1 (forallb_forall _ _)) with (x := d) in Hc; [|by apply list_elem_of_In]. apply Bool.eqb_prop in Hc.
    rewrite (proj2 (bool_decide_eq_true _) H) in Hc. by apply negb_true_iff.
  - intros (Hu & Hd & Hr).
    pose proof (proj1 (forallb_forall _ _) delivery_checked _ (proj1 (list_elem_of_In _ _) Hu)) as Hc. cbv beta in Hc.
    apply (proj1 (forallb_forall _ _)) with (x := d) in Hc; [|by apply list_elem_of_In]. apply Bool.eqb_prop in Hc.
    rewrite Hr in Hc. symmetry in Hc. by apply bool_decide_eq_true in Hc.
Qed.

(** The conditions on the outcome. *)
Definition terminal_rejected (o : TerminalOutcome) (started : bool) : bool :=
  same o TerminalOutcomePreUpstream && started ||
  negb (same o TerminalOutcomeUnknown) && negb (same o TerminalOutcomePreUpstream) && negb started.

Lemma outcome_table_spec o b : (o, b) ∈ outcome_table ↔ validTerminalOutcome o = true ∧ terminal_rejected o b = false.
Proof.
  assert (forallb (λ p, validTerminalOutcome p.1 && negb (terminal_rejected p.1 p.2)) outcome_table = true) as H1 by (vm_compute; reflexivity).
  assert (forallb (λ o, forallb (λ b, terminal_rejected o b || bool_decide ((o, b) ∈ outcome_table)) [true; false])
    (outcome_table.*1) = true) as H2 by (vm_compute; reflexivity).
  split.
  - intros H. pose proof (proj1 (forallb_forall _ _) H1 _ (proj1 (list_elem_of_In _ _) H)) as Hl. cbn in Hl.
    apply andb_true_iff in Hl as [? ?%negb_true_iff]. done.
  - intros [Hv Hr]. apply bool_decide_eq_true in Hv.
    assert (In o (outcome_table.*1)) as Hin.
    { apply list_elem_of_In. revert Hv. unfold outcome_table. cbn [fmap list_fmap fst]. rewrite !elem_of_cons, elem_of_nil. naive_solver. }
    pose proof (proj1 (forallb_forall _ _) H2 _ Hin) as Hl. cbv beta in Hl.
    apply (proj1 (forallb_forall _ _)) with (x := b) in Hl; [|destruct b; cbn; tauto]. rewrite Hr in Hl. by apply bool_decide_eq_true in Hl.
Qed.

Lemma requested_delivery_spec r d :
  (r =? RequestModeJSON) && same d ResponseModeSSE || (r =? RequestModeSSE) && same d ResponseModeJSON = false ↔ requested_delivery r d.
Proof.
  unfold requested_delivery, same. rewrite !not_elem_of_cons, orb_false_iff, !andb_false_iff, !bool_decide_eq_false.
  rewrite !Z.eqb_neq. pose proof (not_elem_of_nil (r, d)).
  destruct (decide (r = RequestModeJSON)), (decide (r = RequestModeSSE)), (decide (d = ResponseModeSSE)), (decide (d = ResponseModeJSON)); naive_solver congruence.
Qed.

Lemma optional_text_spec s n : negb (same s []) && negb (validBoundedText s n) = false ↔ optional_text s n.
Proof. unfold optional_text, same. rewrite andb_false_iff, !negb_false_iff, bool_decide_eq_true. done. Qed.

Lemma validateStatuses_spec l : validateStatuses l = None ↔ Forall (known_within 0 999) l.
Proof. induction l as [|v l IH]; cbn; [done|]. by rewrite if_none, IH, known_within_spec, Forall_cons. Qed.

Lemma nonnegative_spec e l : nonnegative e l = None ↔ Forall known_nonneg l.
Proof. induction l as [|v l IH]; cbn; [done|]. by rewrite if_none, IH, known_nonneg_spec, Forall_cons. Qed.

Lemma validateTiming_spec t : validateTiming t = None ↔
  (known_nonneg (Total t) ∧ known_nonneg (TimeToFirstByte t) ∧ known_nonneg (StreamCloseDelay t)) ∧
  (o_known (StartedAt t) = true → o_known (FinishedAt t) = true → o_value (StartedAt t) ≤ o_value (FinishedAt t)).
Proof.
  unfold validateTiming. rewrite match_none, if_none, nonnegative_spec, !Forall_cons, Forall_nil.
  destruct (o_known (StartedAt t)), (o_known (FinishedAt t)); cbn [andb]; try rewrite Z.ltb_ge; naive_solver.
Qed.

Lemma validate_facts i : validateCompletionInput i = None ↔ record_facts i.
Proof.
  unfold validateCompletionInput. cbv zeta.
  fold (mode_unlisted (ci_UpstreamMode i)). fold (mode_unlisted (ci_DeliveredMode i)).
  rewrite !if_none, !match_none, validateTiming_spec, validateStatuses_spec, nonnegative_spec, !Forall_cons, !Forall_nil, requested_delivery_spec.
  unfold record_facts, modes_consistent, terminal_consistent. rewrite delivery_table_spec, outcome_table_spec.
  unfold modes_rejected, terminal_rejected, validErrorCode.
  rewrite !orb_false_iff, !optional_text_spec, !negb_false_iff, !Z.ltb_ge, Z.leb_le, validRequestID_exact.
  split; [intros; destruct_and!; split_and!; try done; constructor; done|].
  intros ([] & ? & ?). destruct_and!. split_and!; done.
Qed.

(** ** Construction is exact *)

Lemma conflict_spec a b : conflict a b = false ↔ a = 0 ∨ b = 0 ∨ a = b.
Proof. unfold conflict. lia. Qed.

Lemma mode_conflict_spec a b : mode_conflict a b = false ↔ a = [] ∨ b = [] ∨ a = b.
Proof. unfold mode_conflict, same. rewrite !andb_false_iff, !negb_false_iff, !bool_decide_eq_true. unfold ResponseModeUnknown. tauto. Qed.

Lemma normalize_merged i : spellings_agree i →
  let n := normalizeCompletionInput i in
  mkRecordInput (ci_RequestID n) (ci_KeyID n) (ci_KeyName n) (ci_Method n) (ci_Path n) (ci_Route n) (ci_Route n) (ci_Model n)
    (ci_RequestedMode n) (ci_UpstreamMode n) (ci_UpstreamMode n) (ci_DeliveredMode n) (ci_DownstreamStatus n)
    (ci_UpstreamStatus n) (ci_Terminal n) (ci_ErrorCode n) (ci_ErrorCode n) (ci_ClientBytes n) (ci_UpstreamBytes n)
    (ci_DeliveredBytes n) (ci_Usage n) (ci_Cost n) (ci_Timing n) = merged i ∧
  (validateCompletionInput n = None ↔ record_facts (merged i)).
Proof.
  intros (H1 & H2 & H3). cbv zeta. rewrite <- (validate_facts (merged i)). destruct i. cbn in H1, H2, H3.
  unfold normalizeCompletionInput, merged, RouteClassUnknown, ErrorCodeUnknown, ResponseModeUnknown.
  cbn [ci_Route ci_RouteClass ci_UpstreamMode ci_ActualUpstreamMode ci_ErrorCode ci_SafeErrorCode].
  rewrite (proj2 (conflict_spec _ _) H1). destruct (ci_Route0 =? 0); cbn;
    rewrite (proj2 (mode_conflict_spec _ _) H2); destruct (same ci_UpstreamMode0 []); cbn;
    rewrite (proj2 (conflict_spec _ _) H3); destruct (ci_ErrorCode0 =? 0); done.
Qed.

Lemma NewCompletionRecord_spec i r : NewCompletionRecord i = Ok r ↔
  spellings_agree i ∧ record_facts (merged i) ∧ r = mkCompletionRecord (merged i) 0 0.
Proof.
  unfold NewCompletionRecord. destruct (conflict (ci_Route i) (ci_RouteClass i)) eqn:E1.
  { split; [done|]. intros [(H & _) _]. apply conflict_spec in H. congruence. }
  destruct (mode_conflict (ci_UpstreamMode i) (ci_ActualUpstreamMode i)) eqn:E2.
  { split; [done|]. intros [(_ & H & _) _]. apply mode_conflict_spec in H. congruence. }
  destruct (conflict (ci_ErrorCode i) (ci_SafeErrorCode i)) eqn:E3.
  { split; [done|]. intros [(_ & _ & H) _]. apply conflict_spec in H. congruence. }
  apply conflict_spec in E1. apply mode_conflict_spec in E2. apply conflict_spec in E3.
  destruct (normalize_merged i) as [Hm Hv]; [done|]. cbv zeta in *. rewrite <- Hv, <- Hm.
  destruct (validateCompletionInput (normalizeCompletionInput i)).
  - split; [done|]. intros (_ & ? & _). done.
  - split; [intros [= <-]; done|]. intros (_ & _ & ->). done.
Qed.

Lemma merged_merged i : merged (merged i) = merged i.
Proof.
  unfold merged. cbn [ci_Route ci_RouteClass ci_UpstreamMode ci_ActualUpstreamMode ci_ErrorCode ci_SafeErrorCode ci_RequestID ci_KeyID ci_KeyName
    ci_Method ci_Path ci_Model ci_RequestedMode ci_DeliveredMode ci_DownstreamStatus ci_UpstreamStatus ci_Terminal ci_ClientBytes ci_UpstreamBytes
    ci_DeliveredBytes ci_Usage ci_Cost ci_Timing].
  f_equal; repeat (case_match || case_bool_decide); done.
Qed.

Lemma merged_agrees i : spellings_agree (merged i).
Proof. unfold spellings_agree, merged. cbn. tauto. Qed.

(** A record is built exactly from consistent facts, and building it again
    changes nothing.  The construction succeeds precisely when the two
    spellings of route, upstream mode and error code do not disagree and the
    merged facts are admissible: a 32-digit lower-case hexadecimal identifier,
    bounded texts, statuses from 0 to 999, non-negative counts and durations, a
    finish not before the start, a delivered representation that the table
    allows for the upstream one and that is not the opposite of the requested
    one, and an outcome that fits whether upstream was started.  The record is
    those facts, it validates, and its snapshot is itself. *)
Theorem NewCompletionRecord_exact i r :
  (NewCompletionRecord i = Ok r ↔ spellings_agree i ∧ record_facts (merged i) ∧ r = mkCompletionRecord (merged i) 0 0) ∧
  (NewCompletionRecord i = Ok r → CompletionRecord_Snapshot r = Ok r ∧ CompletionRecord_Validate r = None).
Proof.
  split; [apply NewCompletionRecord_spec|]. intros (_ & Hf & ->)%NewCompletionRecord_spec.
  unfold CompletionRecord_Snapshot, CompletionRecord_Validate, record_input. cbn [rec_fields].
  rewrite NewCompletionRecord_spec, validate_facts, merged_merged. split; [split; [apply merged_agrees|done]|done].
Qed.

Definition demo_input : CompletionRecordInput :=
  mkRecordInput (str "0123456789abcdef0123456789abcdef") (str "key-1") (str "team") (str "POST") (str "/v1/chat/completions")
    RouteClassUnknown RouteClassChatCompletions (str "gpt") RequestModeJSON ResponseModeSSE ResponseModeUnknown ResponseModeJSON
    (mkOptional 200 true) (mkOptional 200 true) (mkTerminal TerminalOutcomeComplete true) ErrorCodeUnknown ErrorCodeUnknown
    (mkOptional 12 true) unknown (mkOptional 0 true) (mkUsage UnknownInputTokens UnknownOutputTokens UnknownTotalTokens UnknownCachedInputTokens
      UnknownReasoningOutputTokens TotalAbsent) UnknownMoney
    (mkTiming (mkOptional 5 true) unknown unknown unknown (mkOptional 9 true) (mkOptional 4 true) unknown unknown unknown).

Lemma NewCompletionRecord_exact_witness : ∃ r, NewCompletionRecord demo_input = Ok r ∧ CompletionRecord_Snapshot r = Ok r.
Proof.
  eexists. split; [vm_compute; reflexivity|]. apply (NewCompletionRecord_exact demo_input). vm_compute. reflexivity.
Defined.

(** ** Timestamps *)

(** The microsecond of an instant; an accepted one is exact, and its instant is
    the accepted one cut to microseconds. *)
Lemma NewUnixMicros_spec t s : NewUnixMicros t = Ok s →
  s = mkOptional (t / 1000) true ∧ int64 (t / 1000) ∧ UnixMicros_Time s = Some (t / 1000 * 1000).
Proof.
  unfold NewUnixMicros. cbv zeta. unfold Unix, Nanosecond, second.
  assert (t / 1000 = (t / 1000000000) * 1000000 + Z.quot (t mod 1000000000) 1000) as Hm by div_lia.
  assert (0 ≤ Z.quot (t mod 1000000000) 1000 < 1000000) as Hn by div_lia.
  change (Z.quot maxInt64 1000000) with 9223372036854. change (Z.rem maxInt64 1000000) with 775807.
  change (Z.quot minInt64 1000000) with (-9223372036854). change (Z.rem minInt64 1000000) with (-775808).
  set (sec := t / 1000000000) in *. set (us := Z.quot _ _) in *. clearbody us.
  destruct (_ || _) eqn:E; [done|]. intros [= <-].
  assert (int64 (t / 1000)) as Hr by lia64. rewrite (mul64_id sec) by lia64. rewrite add64_id by lia64.
  rewrite <- Hm. split_and!; [done|done|]. unfold UnixMicros_Time, time_Unix, second. cbn [o_known o_value]. f_equal. div_lia.
Qed.
