(* ===== verification/Trace.v ===== *)
(** * The trace of one request ([internal/httpserver/trace.go])

    The facts a request collects until its record is frozen.  Every operation
    runs under the lock of the trace, so a sequence of operations is any
    interleaving of the goroutines that share it.  An operation that reads the
    clock takes the pair of its wall and monotonic readings as an argument.
    The fields guarded by [mu], [enrichmentMu] and [bodyMu] are three records;
    the constructors of counts and statuses keep their arguments. *)

From Stdlib Require Import Ascii ZArith Lia ZifyBool.
From stdpp Require Import prelude strings list.
From S2P Require Import Prelude Text Utf8 Money Usage Json JsonCodec ChatRender BodyRecorder CompletionRecord.
Local Open Scope Z_scope.

#[local] Arguments str : simpl never.

(** ** State *)

Record TraceState := mkTrace {
  input : CompletionRecordInput;
  startedMono : Z;
  upstreamMono : Z;
  lastMono : Z;
  lastWall : Z;
  started : bool;
  upstream : bool;
  upstreamBoundarySet : bool;
  headers : bool;
  firstByte : bool;
  finished : bool;
  finishedMono : Z;
  terminalSet : bool;
  authSet : bool;
  metadataSet : bool;
  routeSet : bool;
  usageSet : bool;
  costSet : bool;
  errorSet : bool;
  base : option CompletionRecord;
  baseInvalid : bool;
  baseFrozen : bool;
}.

(** The assignments to fields. *)
Definition set_input (i : CompletionRecordInput) (s : TraceState) : TraceState :=
  mkTrace
    i (startedMono s) (upstreamMono s) (lastMono s) (lastWall s) (started s) (upstream s) (upstreamBoundarySet s)
    (headers s) (firstByte s) (finished s) (finishedMono s) (terminalSet s) (authSet s) (metadataSet s) (routeSet s)
    (usageSet s) (costSet s) (errorSet s) (base s) (baseInvalid s) (baseFrozen s).

Definition set_last (wall mono : Z) (s : TraceState) : TraceState :=
  mkTrace
    (input s) (startedMono s) (upstreamMono s) mono wall (started s) (upstream s) (upstreamBoundarySet s) (headers s)
    (firstByte s) (finished s) (finishedMono s) (terminalSet s) (authSet s) (metadataSet s) (routeSet s) (usageSet s)
    (costSet s) (errorSet s) (base s) (baseInvalid s) (baseFrozen s).

Definition mark_upstream (s : TraceState) : TraceState :=
  mkTrace
    (input s) (startedMono s) (upstreamMono s) (lastMono s) (lastWall s) (started s) true (upstreamBoundarySet s)
    (headers s) (firstByte s) (finished s) (finishedMono s) (terminalSet s) (authSet s) (metadataSet s) (routeSet s)
    (usageSet s) (costSet s) (errorSet s) (base s) (baseInvalid s) (baseFrozen s).

Definition mark_boundary (mono : Z) (s : TraceState) : TraceState :=
  mkTrace
    (input s) (startedMono s) mono (lastMono s) (lastWall s) (started s) true true (headers s) (firstByte s)
    (finished s) (finishedMono s) (terminalSet s) (authSet s) (metadataSet s) (routeSet s) (usageSet s) (costSet s)
    (errorSet s) (base s) (baseInvalid s) (baseFrozen s).

Definition mark_headers (s : TraceState) : TraceState :=
  mkTrace
    (input s) (startedMono s) (upstreamMono s) (lastMono s) (lastWall s) (started s) true (upstreamBoundarySet s) true
    (firstByte s) (finished s) (finishedMono s) (terminalSet s) (authSet s) (metadataSet s) (routeSet s) (usageSet s)
    (costSet s) (errorSet s) (base s) (baseInvalid s) (baseFrozen s).

Definition mark_firstByte (s : TraceState) : TraceState :=
  mkTrace
    (input s) (startedMono s) (upstreamMono s) (lastMono s) (lastWall s) (started s) (upstream s)
    (upstreamBoundarySet s) (headers s) true (finished s) (finishedMono s) (terminalSet s) (authSet s) (metadataSet s)
    (routeSet s) (usageSet s) (costSet s) (errorSet s) (base s) (baseInvalid s) (baseFrozen s).

Definition mark_finished (mono : Z) (s : TraceState) : TraceState :=
  mkTrace
    (input s) (startedMono s) (upstreamMono s) (lastMono s) (lastWall s) (started s) (upstream s)
    (upstreamBoundarySet s) (headers s) (firstByte s) true mono (terminalSet s) (authSet s) (metadataSet s)
    (routeSet s) (usageSet s) (costSet s) (errorSet s) (base s) (baseInvalid s) (baseFrozen s).

Definition mark_terminal (s : TraceState) : TraceState :=
  mkTrace
    (input s) (startedMono s) (upstreamMono s) (lastMono s) (lastWall s) (started s) (upstream s)
    (upstreamBoundarySet s) (headers s) (firstByte s) (finished s) (finishedMono s) true (authSet s) (metadataSet s)
    (routeSet s) (usageSet s) (costSet s) (errorSet s) (base s) (baseInvalid s) (baseFrozen s).

Definition mark_auth (s : TraceState) : TraceState :=
  mkTrace
    (input s) (startedMono s) (upstreamMono s) (lastMono s) (lastWall s) (started s) (upstream s)
    (upstreamBoundarySet s) (headers s) (firstByte s) (finished s) (finishedMono s) (terminalSet s) true
    (metadataSet s) (routeSet s) (usageSet s) (costSet s) (errorSet s) (base s) (baseInvalid s) (baseFrozen s).

Definition mark_metadata (s : TraceState) : TraceState :=
  mkTrace
    (input s) (startedMono s) (upstreamMono s) (lastMono s) (lastWall s) (started s) (upstream s)
    (upstreamBoundarySet s) (headers s) (firstByte s) (finished s) (finishedMono s) (terminalSet s) (authSet s) true
    true (usageSet s) (costSet s) (errorSet s) (base s) (baseInvalid s) (baseFrozen s).

Definition mark_route (s : TraceState) : TraceState :=
  mkTrace
    (input s) (startedMono s) (upstreamMono s) (lastMono s) (lastWall s) (started s) (upstream s)
    (upstreamBoundarySet s) (headers s) (firstByte s) (finished s) (finishedMono s) (terminalSet s) (authSet s)
    (metadataSet s) true (usageSet s) (costSet s) (errorSet s) (base s) (baseInvalid s) (baseFrozen s).

Definition mark_usage (s : TraceState) : TraceState :=
  mkTrace
    (input s) (startedMono s) (upstreamMono s) (lastMono s) (lastWall s) (started s) (upstream s)
    (upstreamBoundarySet s) (headers s) (firstByte s) (finished s) (finishedMono s) (terminalSet s) (authSet s)
    (metadataSet s) (routeSet s) true (costSet s) (errorSet s) (base s) (baseInvalid s) (baseFrozen s).

Definition mark_cost (s : TraceState) : TraceState :=
  mkTrace
    (input s) (startedMono s) (upstreamMono s) (lastMono s) (lastWall s) (started s) (upstream s)
    (upstreamBoundarySet s) (headers s) (firstByte s) (finished s) (finishedMono s) (terminalSet s) (authSet s)
    (metadataSet s) (routeSet s) (usageSet s) true (errorSet s) (base s) (baseInvalid s) (baseFrozen s).

Definition mark_error (s : TraceState) : TraceState :=
  mkTrace
    (input s) (startedMono s) (upstreamMono s) (lastMono s) (lastWall s) (started s) (upstream s)
    (upstreamBoundarySet s) (headers s) (firstByte s) (finished s) (finishedMono s) (terminalSet s) (authSet s)
    (metadataSet s) (routeSet s) (usageSet s) (costSet s) true (base s) (baseInvalid s) (baseFrozen s).

Definition set_base (record : option CompletionRecord) (invalid : bool) (s : TraceState) : TraceState :=
  mkTrace
    (input s) (startedMono s) (upstreamMono s) (lastMono s) (lastWall s) (started s) (upstream s)
    (upstreamBoundarySet s) (headers s) (firstByte s) (finished s) (finishedMono s) (terminalSet s) (authSet s)
    (metadataSet s) (routeSet s) (usageSet s) (costSet s) (errorSet s) record invalid true.

Record RequestTraceEnrichment := mkEnrichment { en_Usage : Usage.Usage; en_Cost : Money; en_Timing : CompletionTiming }.

Record EnrichmentState := mkEnrichmentState {
  enrichment : RequestTraceEnrichment;
  enrichmentUsage : bool;
  enrichmentCost : bool;
  enrichmentSnap : RequestTraceEnrichment;
  enrichmentFrozen : bool;
}.

Record BodyState := mkBodyState {
  clientBody : BodySnapshot;
  upstreamBody : BodySnapshot;
  responseBody : BodySnapshot;
  clientBodyRecorder : option BodyRecorder;
  upstreamBodyRecorder : option BodyRecorder;
  responseBodyRecorder : option BodyRecorder;
  bodySnapshotsSet : bool;
  responseBodySet : bool;
}.

(** The zero values of the structs. *)
Definition zeroUsage : Usage.Usage :=
  mkUsage UnknownInputTokens UnknownOutputTokens UnknownTotalTokens UnknownCachedInputTokens UnknownReasoningOutputTokens TotalAbsent.
Definition zeroTiming : CompletionTiming := mkTiming unknown unknown unknown unknown unknown unknown unknown unknown unknown.
Definition zeroInput : CompletionRecordInput :=
  mkRecordInput [] [] [] [] [] 0 0 [] 0 [] [] [] unknown unknown (mkTerminal [] false) 0 0 unknown unknown unknown zeroUsage UnknownMoney zeroTiming.
Definition zeroEnrichment : RequestTraceEnrichment := mkEnrichment zeroUsage UnknownMoney zeroTiming.

Record RequestTraceState := mkState { core : TraceState; extra : EnrichmentState; bodies : BodyState; completion : option nat }.

Definition with_core (c : TraceState) (s : RequestTraceState) : RequestTraceState := mkState c (extra s) (bodies s) (completion s).
Definition with_extra (e : EnrichmentState) (s : RequestTraceState) : RequestTraceState := mkState (core s) e (bodies s) (completion s).
Definition with_bodies (b : BodyState) (s : RequestTraceState) : RequestTraceState := mkState (core s) (extra s) b (completion s).

(** ** Clock *)

Definition wallStamp (at_ : Z) : UnixMicros := match NewUnixMicros at_ with Ok stamp => stamp | Err _ => unknown end.

(** The raw readings, clamped to the previous ones. *)
Definition reading (clock : Z * Z) (s : TraceState) : Z * Z * TraceState :=
  let '(wall, mono) := clock in
  let wall := if negb (IsZero (lastWall s)) && Before wall (lastWall s) then lastWall s else wall in
  let mono := if negb (IsZero (lastMono s)) && Before mono (lastMono s) then lastMono s else mono in
  (wall, mono, set_last wall mono s).

Definition durationMicros (from to : Z) : DurationMicros :=
  if IsZero from || Before to from then unknown
  else
    let delta := Sub to from in
    if delta <? 0 then unknown
    else
      let micros := Z.quot delta Microsecond in
      if micros <? 0 then match NewDurationMicrosValue maxInt64 with Ok v => v | Err _ => unknown end
      else match NewDurationMicrosValue micros with Ok v => v | Err _ => unknown end.

Definition validTraceText (value : bytes) (max : Z) : bool := validBoundedText value max.

Definition NewRequestTraceState (id : bytes) (clock : Z * Z) : option RequestTraceState :=
  match NewRequestID id with
  | Err _ => None
  | Ok _ =>
      let '(wall, mono) := clock in
      let timing := mkTiming (wallStamp wall) unknown unknown unknown unknown unknown unknown unknown unknown in
      let i := mkRecordInput id [] [] [] [] 0 0 [] 0 [] [] [] unknown unknown (mkTerminal [] false) 0 0 unknown unknown unknown
                 zeroUsage UnknownMoney timing in
      Some (mkState
              (mkTrace i mono zeroTime mono wall true false false false false false zeroTime false false false false false false false
                 None false false)
              (mkEnrichmentState zeroEnrichment false false zeroEnrichment false)
              (mkBodyState emptySnapshot emptySnapshot emptySnapshot None None None false false) None)
  end.

(** ** Setters of the base *)

Definition SetAuthentication (keyID keyName : bytes) (s : TraceState) : bool * TraceState :=
  if negb (validTraceText keyID 256) || negb (validTraceText keyName 256) then (false, s)
  else if baseFrozen s || authSet s then (false, s)
  else (true, mark_auth (set_input (with_auth keyID keyName (input s)) s)).

Definition SetRequestMetadataPath (method path : bytes) (route : RouteClass) (model : bytes) (requestedMode : RequestMode) (s : TraceState)
  : bool * TraceState :=
  let i := input s in
  if negb (validTraceText method 32) || negb (validTraceText path 2048) || (RouteClassAdmin <? route) || (RequestModeSSE <? requestedMode)
  then (false, s)
  else if negb (validTraceText model 512) then (false, s)
  else if baseFrozen s || metadataSet s && (negb (same (ci_Model i) []) || negb (ci_RequestedMode i =? RequestModeUnknown)) then (false, s)
  else if routeSet s && (negb (same (ci_Method i) method) || negb (ci_Route i =? route)) then (false, s)
  else (true, mark_metadata (set_input (with_request method (if same path [] then ci_Path i else path) route model requestedMode i) s)).

Definition SetRequestMetadata (method : bytes) (route : RouteClass) (model : bytes) (requestedMode : RequestMode) : TraceState → bool * TraceState :=
  SetRequestMetadataPath method [] route model requestedMode.

Definition SetRouteMetadata (method path : bytes) (route : RouteClass) (s : TraceState) : bool * TraceState :=
  let i := input s in
  if negb (validTraceText method 32) || negb (validTraceText path 2048) || (RouteClassAdmin <? route) then (false, s)
  else if baseFrozen s || routeSet s then (false, s)
  else (true, mark_route (set_input (with_request method path route (ci_Model i) (ci_RequestedMode i) i) s)).

(** [Terminal.UpstreamStarted = true]. *)
Definition start_terminal (i : CompletionRecordInput) : CompletionRecordInput := with_terminal (mkTerminal (Outcome (ci_Terminal i)) true) i.

(** A variadic flag: absent or [true]. *)
Definition declined (flag : list bool) : bool := match flag with b :: _ => negb b | [] => false end.

Definition SetUpstreamStart (started : list bool) (clock : Z * Z) (s : TraceState) : bool * TraceState :=
  if declined started then (false, s)
  else if baseFrozen s || upstream s then (false, s)
  else
    let '(wall, mono, s) := reading clock s in
    let t := ci_Timing (input s) in
    let t' := mkTiming (StartedAt t) (wallStamp wall) (UpstreamHeadersAt t) (FirstByteAt t) (FinishedAt t) (Total t)
                (TimeToUpstreamHeaders t) (TimeToFirstByte t) (StreamCloseDelay t) in
    (true, mark_boundary mono (set_input (with_timing t' (start_terminal (input s))) s)).

Definition SetUpstreamHeadersStatus (status : OptionalStatus) (clock : Z * Z) (s : TraceState) : bool * TraceState :=
  if negb (o_known status) then (false, s)
  else if baseFrozen s || headers s then (false, s)
  else
    let '(wall, mono, s) := reading clock s in
    let t := ci_Timing (input s) in
    let t' := mkTiming (StartedAt t) (UpstreamStartedAt t) (wallStamp wall) (FirstByteAt t) (FinishedAt t) (Total t)
                (if upstreamBoundarySet s then durationMicros (upstreamMono s) mono else TimeToUpstreamHeaders t)
                (TimeToFirstByte t) (StreamCloseDelay t) in
    (true, mark_headers (set_input (with_timing t' (with_upstream_status status (start_terminal (input s)))) s)).

Definition SetUpstreamHeaders (status : Z) (clock : Z * Z) (s : TraceState) : bool * TraceState :=
  match NewStatus status with Err _ => (false, s) | Ok v => SetUpstreamHeadersStatus v clock s end.

Definition SetDownstreamStatus (status : Z) (s : TraceState) : bool * TraceState :=
  match NewStatus status with
  | Err _ => (false, s)
  | Ok v => if baseFrozen s || o_known (ci_DownstreamStatus (input s)) then (false, s) else (true, set_input (with_downstream v (input s)) s)
  end.

Definition SetByteCounts (client upstream delivered : ByteCount) (s : TraceState) : bool * TraceState :=
  let i := input s in
  if negb (o_known client) && negb (o_known upstream) && negb (o_known delivered) then (false, s)
  else if baseFrozen s || o_known (ci_ClientBytes i) || o_known (ci_UpstreamBytes i) || o_known (ci_DeliveredBytes i) then (false, s)
  else (true, set_input (with_counts client upstream delivered i) s).

(** [setByteCount] on the field that [get] reads and [put] writes. *)
Definition setByteCount (get : CompletionRecordInput → ByteCount) (put : ByteCount → CompletionRecordInput → CompletionRecordInput)
  (count : ByteCount) (s : TraceState) : bool * TraceState :=
  if negb (o_known count) then (false, s)
  else if baseFrozen s || o_known (get (input s)) then (false, s)
  else (true, set_input (put count (input s)) s).

Definition SetClientBytes : ByteCount → TraceState → bool * TraceState :=
  setByteCount ci_ClientBytes (λ c i, with_counts c (ci_UpstreamBytes i) (ci_DeliveredBytes i) i).
Definition SetUpstreamBytes : ByteCount → TraceState → bool * TraceState :=
  setByteCount ci_UpstreamBytes (λ c i, with_counts (ci_ClientBytes i) c (ci_DeliveredBytes i) i).
Definition SetDeliveredBytes : ByteCount → TraceState → bool * TraceState :=
  setByteCount ci_DeliveredBytes (λ c i, with_counts (ci_ClientBytes i) (ci_UpstreamBytes i) c i).

Definition validResponseMode (mode : ResponseMode) : bool :=
  same mode ResponseModeUnknown || same mode ResponseModeJSON || same mode ResponseModeOpaque || same mode ResponseModeSSE.

Definition SetResponseMode (upstream delivered : ResponseMode) (s : TraceState) : bool * TraceState :=
  if same upstream ResponseModeUnknown || same delivered ResponseModeUnknown || negb (validResponseMode upstream) || negb (validResponseMode delivered)
  then (false, s)
  else if baseFrozen s || negb (same (ci_UpstreamMode (input s)) ResponseModeUnknown) || negb (same (ci_DeliveredMode (input s)) ResponseModeUnknown)
  then (false, s)
  else (true, mark_upstream (set_input (start_terminal (with_modes upstream upstream delivered (input s))) s)).

Definition SetUpstreamResponseMode (mode : ResponseMode) (s : TraceState) : bool * TraceState :=
  if same mode ResponseModeUnknown || negb (validResponseMode mode) then (false, s)
  else if baseFrozen s || negb (same (ci_UpstreamMode (input s)) ResponseModeUnknown) then (false, s)
  else (true, mark_upstream (set_input (start_terminal (with_modes mode mode (ci_DeliveredMode (input s)) (input s))) s)).

Definition SetDeliveredMode (mode : ResponseMode) (s : TraceState) : bool * TraceState :=
  if same mode ResponseModeUnknown || negb (validResponseMode mode) then (false, s)
  else if baseFrozen s || negb (same (ci_DeliveredMode (input s)) ResponseModeUnknown) then (false, s)
  else (true, set_input (with_modes (ci_UpstreamMode (input s)) (ci_ActualUpstreamMode (input s)) mode (input s)) s).

(** The first-byte milestone. *)
Definition first_byte (clock : Z * Z) (s : TraceState) : TraceState :=
  let '(wall, mono, s) := reading clock s in
  let t := ci_Timing (input s) in
  let t' := mkTiming (StartedAt t) (UpstreamStartedAt t) (UpstreamHeadersAt t) (wallStamp wall) (FinishedAt t) (Total t)
              (TimeToUpstreamHeaders t) (durationMicros (startedMono s) mono) (StreamCloseDelay t) in
  mark_firstByte (set_input (with_timing t' (input s)) s).

Definition SetFirstDownstreamByte (written : list bool) (clock : Z * Z) (s : TraceState) : bool * TraceState :=
  if declined written then (false, s)
  else if baseFrozen s || firstByte s then (false, s) else (true, first_byte clock s).

Definition recordDownstreamWrite (written : Z) (successful countZero : bool) (clock : Z * Z) (s : TraceState) : bool * TraceState :=
  if (written <? 0) || (written =? 0) && negb countZero then (false, s)
  else if baseFrozen s then (false, s)
  else
    let delivered := ci_DeliveredBytes (input s) in
    let current := if o_known delivered then o_value delivered else 0 in
    if sub64 maxInt64 current <? written then (false, s)
    else
      match NewByteCount (add64 current written) with
      | Err _ => (false, s)
      | Ok count =>
          let s := set_input (with_counts (ci_ClientBytes (input s)) (ci_UpstreamBytes (input s)) count (input s)) s in
          (true, if successful && (0 <? written) && negb (firstByte s) then first_byte clock s else s)
      end.

Definition SetErrorCode (code : SafeErrorCode) (s : TraceState) : bool * TraceState :=
  if (code =? ErrorCodeUnknown) || negb (validErrorCode code) then (false, s)
  else if baseFrozen s || errorSet s then (false, s)
  else (true, mark_error (set_input (with_codes code code (input s)) s)).

Definition cancelled_codes (s : TraceState) : TraceState :=
  mark_error (set_input (with_codes ErrorCodeCancellation ErrorCodeCancellation (input s)) s).

Definition setCancellation (s : TraceState) : bool * TraceState :=
  if baseFrozen s || negb (upstream s) then (false, s)
  else
    let s := cancelled_codes s in
    (true, mark_terminal (set_input (with_terminal (mkTerminal TerminalOutcomeCancelled true) (input s)) s)).

Definition SetTerminalMetadata (metadata : TerminalMetadata) (s : TraceState) : bool * TraceState :=
  let outcome := Outcome metadata in
  if negb (validTerminalOutcome outcome) then (false, s)
  else if baseFrozen s || terminalSet s || negb (Bool.eqb (UpstreamStarted metadata) (upstream s)) ||
          same outcome TerminalOutcomePreUpstream && upstream s ||
          negb (same outcome TerminalOutcomeUnknown) && negb (same outcome TerminalOutcomePreUpstream) && negb (upstream s)
  then (false, s)
  else
    let s := if same outcome TerminalOutcomeCancelled then cancelled_codes s else s in
    (true, mark_terminal (set_input (with_terminal metadata (input s)) s)).

Definition SetTerminalOutcome (outcome : TerminalOutcome) (s : TraceState) : bool * TraceState :=
  if negb (validTerminalOutcome outcome) || baseFrozen s || terminalSet s then (false, s)
  else
    let started := upstream s in
    let s := if same outcome TerminalOutcomeCancelled then cancelled_codes s else s in
    (true, mark_terminal (set_input (with_terminal (mkTerminal outcome started) (input s)) s)).

(** ** Freezing *)

Definition completeLocked (clock : Z * Z) (s : TraceState) : TraceState :=
  if finished s then s
  else
    let '(wall, mono, s) := reading clock s in
    let s := mark_finished mono s in
    let t := ci_Timing (input s) in
    let t' := mkTiming (StartedAt t) (UpstreamStartedAt t) (UpstreamHeadersAt t) (FirstByteAt t) (wallStamp wall)
                (durationMicros (startedMono s) mono) (TimeToUpstreamHeaders t) (TimeToFirstByte t) (StreamCloseDelay t) in
    let s := set_input (with_timing t' (input s)) s in
    if terminalSet s then s
    else
      let outcome := if upstream s then TerminalOutcomeComplete else TerminalOutcomePreUpstream in
      mark_terminal (set_input (with_terminal (mkTerminal outcome (upstream s)) (input s)) s).

Inductive trace_error := errInvalidTraceRecord.

Definition frozen_base (s : TraceState) : result trace_error CompletionRecord :=
  match base s with Some record => if baseInvalid s then Err errInvalidTraceRecord else Ok record | None => Err errInvalidTraceRecord end.

Definition freeze_core (clock : Z * Z) (s : TraceState) : TraceState :=
  if baseFrozen s then s
  else
    let s := completeLocked clock s in
    match NewCompletionRecord (input s) with
    | Ok record => set_base (Some record) false s
    | Err _ => set_base None true s
    end.

Definition FreezeBase (clock : Z * Z) (s : TraceState) : result trace_error CompletionRecord * TraceState :=
  let s := freeze_core clock s in (frozen_base s, s).

(** ** Usage, cost and enrichment *)

Definition setUsageLocked (usage : Usage.Usage) (s : TraceState) : bool * TraceState :=
  if usageSet s then (false, s) else (true, mark_usage (set_input (with_usage usage (input s)) s)).

Definition SetUsage (usage : Usage.Usage) (s : RequestTraceState) : bool * RequestTraceState :=
  if negb (baseFrozen (core s)) then let '(ok, c) := setUsageLocked usage (core s) in (ok, with_core c s)
  else
    let e := extra s in
    if enrichmentFrozen e || enrichmentUsage e then (false, s)
    else (true, with_extra (mkEnrichmentState (mkEnrichment usage (en_Cost (enrichment e)) (en_Timing (enrichment e))) true (enrichmentCost e)
                              (enrichmentSnap e) (enrichmentFrozen e)) s).

Definition SetCost (cost : Money) (s : RequestTraceState) : bool * RequestTraceState :=
  let c := core s in
  if negb (baseFrozen c) then
    if costSet c then (false, s) else (true, with_core (mark_cost (set_input (with_cost cost (input c)) c)) s)
  else
    let e := extra s in
    if enrichmentFrozen e || enrichmentCost e then (false, s)
    else (true, with_extra (mkEnrichmentState (mkEnrichment (en_Usage (enrichment e)) cost (en_Timing (enrichment e))) (enrichmentUsage e) true
                              (enrichmentSnap e) (enrichmentFrozen e)) s).

Definition SetUsageCost (usage : Usage.Usage) (cost : Money) (s : RequestTraceState) : bool * RequestTraceState :=
  let '(usageSet, s) := SetUsage usage s in
  let '(costSet, s) := SetCost cost s in
  (usageSet || costSet, s).

Definition freeze_extra (e : EnrichmentState) : EnrichmentState :=
  if enrichmentFrozen e then e else mkEnrichmentState (enrichment e) (enrichmentUsage e) (enrichmentCost e) (enrichment e) true.

Definition FreezeEnrichment (s : RequestTraceState) : RequestTraceEnrichment * RequestTraceState :=
  let e := freeze_extra (extra s) in (enrichmentSnap e, with_extra e s).

Definition SetTimingEnrichment (timing : CompletionTiming) (s : RequestTraceState) : bool * RequestTraceState :=
  let e := extra s in
  if negb (o_known (StreamCloseDelay timing)) then (false, s)
  else if enrichmentFrozen e || o_known (StreamCloseDelay (en_Timing (enrichment e))) then (false, s)
  else
    let t := en_Timing (enrichment e) in
    let t' := mkTiming (StartedAt t) (UpstreamStartedAt t) (UpstreamHeadersAt t) (FirstByteAt t) (FinishedAt t) (Total t)
                (TimeToUpstreamHeaders t) (TimeToFirstByte t) (StreamCloseDelay timing) in
    (true, with_extra (mkEnrichmentState (mkEnrichment (en_Usage (enrichment e)) (en_Cost (enrichment e)) t') (enrichmentUsage e) (enrichmentCost e)
                         (enrichmentSnap e) (enrichmentFrozen e)) s).

Definition usage_known (u : Usage.Usage) : bool :=
  tc_known (input_count (usage_input u)) || tc_known (output_count (usage_output u)) || tc_known (total_count (usage_total u)) ||
  tc_known (cached_input_count (usage_cachedInput u)) || tc_known (reasoning_output_count (usage_reasoningOutput u)).

Definition enrich (i : CompletionRecordInput) (e : RequestTraceEnrichment) : CompletionRecordInput :=
  let i := if usage_known (en_Usage e) then with_usage (en_Usage e) i else i in
  let i := if Money_Known (en_Cost e) then with_cost (en_Cost e) i else i in
  let t := ci_Timing i in
  if o_known (StreamCloseDelay (en_Timing e))
  then with_timing (mkTiming (StartedAt t) (UpstreamStartedAt t) (UpstreamHeadersAt t) (FirstByteAt t) (FinishedAt t) (Total t)
                      (TimeToUpstreamHeaders t) (TimeToFirstByte t) (StreamCloseDelay (en_Timing e))) i
  else i.

Definition MergeRequestTraceEnrichment (base : CompletionRecord) (e : RequestTraceEnrichment) : result completion_error CompletionRecord :=
  NewCompletionRecord (enrich (record_input base) e).

(** The error of the merge is the caller's error as well. *)
Definition Final (clock : Z * Z) (s : RequestTraceState) : option CompletionRecord * RequestTraceState :=
  let '(base, c) := FreezeBase clock (core s) in
  let s := with_core c s in
  match base with
  | Err _ => (None, s)
  | Ok base =>
      let '(e, s) := FreezeEnrichment s in
      (match MergeRequestTraceEnrichment base e with Ok record => Some record | Err _ => None end, s)
  end.

Definition setCompletionOwnership (ownership : nat) (s : RequestTraceState) : RequestTraceState :=
  match completion s with None => mkState (core s) (extra s) (bodies s) (Some ownership) | Some _ => s end.

(** ** Body captures *)

Definition SetRequestBodySnapshots (client upstream : BodySnapshot) (b : BodyState) : bool * BodyState :=
  if bodySnapshotsSet b then (false, b)
  else (true, mkBodyState client upstream (responseBody b) (clientBodyRecorder b) (upstreamBodyRecorder b) (responseBodyRecorder b) true
                (responseBodySet b)).

Definition SetRequestBodyRecorders (client upstream : option BodyRecorder) (b : BodyState) : bool * BodyState :=
  if bodySnapshotsSet b then (false, b)
  else (true, mkBodyState (clientBody b) (upstreamBody b) (responseBody b) client upstream (responseBodyRecorder b) true (responseBodySet b)).

(** [append([]byte(nil), bytes...)] of an empty slice is nil. *)
Definition copyBodySnapshot (s : BodySnapshot) : BodySnapshot :=
  mkSnapshot (bs_Kind s) (match bs_Bytes s with Some [] => None | b => b end) (bs_OriginalSize s) (bs_Truncated s) (bs_Captured s).

Definition RequestBodySnapshots (b : BodyState) : option (BodySnapshot * BodySnapshot) * BodyState :=
  if negb (bodySnapshotsSet b) then (None, b)
  else
    match clientBodyRecorder b, upstreamBodyRecorder b with
    | None, None => (Some (copyBodySnapshot (clientBody b), copyBodySnapshot (upstreamBody b)), b)
    | client, upstream =>
        let '(c, client) := BodyRecorder_Snapshot client in
        let '(u, upstream) := BodyRecorder_Snapshot upstream in
        (Some (c, u), mkBodyState (clientBody b) (upstreamBody b) (responseBody b) client upstream (responseBodyRecorder b) true (responseBodySet b))
    end.

Definition SetResponseBodySnapshot (snapshot : BodySnapshot) (b : BodyState) : bool * BodyState :=
  if responseBodySet b then (false, b)
  else (true, mkBodyState (clientBody b) (upstreamBody b) (copyBodySnapshot snapshot) (clientBodyRecorder b) (upstreamBodyRecorder b)
                (responseBodyRecorder b) (bodySnapshotsSet b) true).

Definition SetResponseBodyRecorder (recorder : option BodyRecorder) (b : BodyState) : bool * BodyState :=
  if responseBodySet b then (false, b)
  else (true, mkBodyState (clientBody b) (upstreamBody b) (responseBody b) (clientBodyRecorder b) (upstreamBodyRecorder b) recorder
                (bodySnapshotsSet b) true).

Definition ResponseBodySnapshot (b : BodyState) : option BodySnapshot * BodyState :=
  if negb (responseBodySet b) then (None, b)
  else
    match responseBodyRecorder b with
    | Some _ =>
        let '(snapshot, recorder) := BodyRecorder_Snapshot (responseBodyRecorder b) in
        (Some snapshot, mkBodyState (clientBody b) (upstreamBody b) (responseBody b) (clientBodyRecorder b) (upstreamBodyRecorder b) recorder
                          (bodySnapshotsSet b) true)
    | None => (Some (copyBodySnapshot (responseBody b)), b)
    end.

Definition requestBodyRecordersForHandoff (b : BodyState) : option BodyRecorder * option BodyRecorder :=
  if negb (bodySnapshotsSet b) then (None, None) else (clientBodyRecorder b, upstreamBodyRecorder b).

Definition responseBodyRecorderForHandoff (b : BodyState) : option BodyRecorder :=
  if negb (responseBodySet b) then None else responseBodyRecorder b.

(** ** Sequences of operations *)

Inductive base_op :=
| OpAuthentication (keyID keyName : bytes)
| OpRequestMetadata (method path : bytes) (route : RouteClass) (model : bytes) (mode : RequestMode)
| OpRouteMetadata (method path : bytes) (route : RouteClass)
| OpUpstreamStart (started : list bool)
| OpUpstreamHeaders (status : Z)
| OpUpstreamHeadersStatus (status : OptionalStatus)
| OpDownstreamStatus (status : Z)
| OpByteCounts (client upstream delivered : ByteCount)
| OpClientBytes (count : ByteCount)
| OpUpstreamBytes (count : ByteCount)
| OpDeliveredBytes (count : ByteCount)
| OpResponseMode (upstream delivered : ResponseMode)
| OpUpstreamResponseMode (mode : ResponseMode)
| OpDeliveredMode (mode : ResponseMode)
| OpFirstByte (written : list bool)
| OpWrite (written : Z) (successful countZero : bool)
| OpErrorCode (code : SafeErrorCode)
| OpCancellation
| OpTerminalMetadata (metadata : TerminalMetadata)
| OpTerminalOutcome (outcome : TerminalOutcome).

Definition perform_base (op : base_op) (clock : Z * Z) (s : TraceState) : bool * TraceState :=
  match op with
  | OpAuthentication i n => SetAuthentication i n s
  | OpRequestMetadata m p r model mode => SetRequestMetadataPath m p r model mode s
  | OpRouteMetadata m p r => SetRouteMetadata m p r s
  | OpUpstreamStart f => SetUpstreamStart f clock s
  | OpUpstreamHeaders z => SetUpstreamHeaders z clock s
  | OpUpstreamHeadersStatus z => SetUpstreamHeadersStatus z clock s
  | OpDownstreamStatus z => SetDownstreamStatus z s
  | OpByteCounts c u d => SetByteCounts c u d s
  | OpClientBytes c => SetClientBytes c s
  | OpUpstreamBytes c => SetUpstreamBytes c s
  | OpDeliveredBytes c => SetDeliveredBytes c s
  | OpResponseMode u d => SetResponseMode u d s
  | OpUpstreamResponseMode m => SetUpstreamResponseMode m s
  | OpDeliveredMode m => SetDeliveredMode m s
  | OpFirstByte f => SetFirstDownstreamByte f clock s
  | OpWrite n b z => recordDownstreamWrite n b z clock s
  | OpErrorCode c => SetErrorCode c s
  | OpCancellation => setCancellation s
  | OpTerminalMetadata m => SetTerminalMetadata m s
  | OpTerminalOutcome o => SetTerminalOutcome o s
  end.

Inductive body_op :=
| OpRequestSnapshots (client upstream : BodySnapshot) | OpRequestRecorders (client upstream : option BodyRecorder)
| OpResponseSnapshot (snapshot : BodySnapshot) | OpResponseRecorder (recorder : option BodyRecorder)
| OpReadRequest | OpReadResponse.

Definition perform_body (op : body_op) (b : BodyState) : BodyState :=
  match op with
  | OpRequestSnapshots c u => (SetRequestBodySnapshots c u b).2
  | OpRequestRecorders c u => (SetRequestBodyRecorders c u b).2
  | OpResponseSnapshot r => (SetResponseBodySnapshot r b).2
  | OpResponseRecorder r => (SetResponseBodyRecorder r b).2
  | OpReadRequest => (RequestBodySnapshots b).2
  | OpReadResponse => (ResponseBodySnapshot b).2
  end.

Inductive trace_op :=
| OpBase (op : base_op) | OpBody (op : body_op)
| OpUsage (usage : Usage.Usage) | OpCost (cost : Money) | OpTiming (timing : CompletionTiming)
| OpOwnership (ownership : nat) | OpFreeze | OpFreezeEnrichment | OpFinal.

Definition perform_op (op : trace_op) (clock : Z * Z) (s : RequestTraceState) : RequestTraceState :=
  match op with
  | OpBase op => with_core (perform_base op clock (core s)).2 s
  | OpBody op => with_bodies (perform_body op (bodies s)) s
  | OpUsage u => (SetUsage u s).2
  | OpCost c => (SetCost c s).2
  | OpTiming t => (SetTimingEnrichment t s).2
  | OpOwnership o => setCompletionOwnership o s
  | OpFreeze => with_core (FreezeBase clock (core s)).2 s
  | OpFreezeEnrichment => (FreezeEnrichment s).2
  | OpFinal => (Final clock s).2
  end.

Definition run_trace (ops : list (trace_op * (Z * Z))) (s : RequestTraceState) : RequestTraceState :=
  foldl (λ s o, perform_op o.1 o.2 s) s ops.

(** Arguments as their constructors make them, and a clock not before the year 1. *)
Definition base_op_ok (op : base_op) : Prop :=
  match op with
  | OpUpstreamHeadersStatus v => known_within 0 999 v
  | OpByteCounts c u d => known_nonneg c ∧ known_nonneg u ∧ known_nonneg d
  | OpClientBytes c | OpUpstreamBytes c | OpDeliveredBytes c => known_nonneg c
  | _ => True
  end.

Definition op_ok (o : trace_op * (Z * Z)) : Prop :=
  zeroTime ≤ o.2.1 ∧
  match o.1 with
  | OpBase op => base_op_ok op
  | OpTiming t => known_nonneg (StreamCloseDelay t)
  | _ => True
  end.

(** ** The invariant of the base *)

Record core_ok (s : TraceState) : Prop := {
  ck_scalars : scalars_ok (input s);
  ck_spellings : ci_RouteClass (input s) = 0 ∧ ci_ActualUpstreamMode (input s) = ci_UpstreamMode (input s) ∧
    ci_SafeErrorCode (input s) = ci_ErrorCode (input s);
  ck_clock : zeroTime ≤ lastWall s ∧
    (o_known (StartedAt (ci_Timing (input s))) = true → o_value (StartedAt (ci_Timing (input s))) ≤ lastWall s / 1000);
  ck_frozen : baseFrozen s = true →
    frozen_base s = match NewCompletionRecord (input s) with Ok r => Ok r | Err _ => Err errInvalidTraceRecord end;
}.

Lemma scalars_auth k n i : scalars_ok i → validBoundedText k 256 = true → validBoundedText n 256 = true → scalars_ok (with_auth k n i).
Proof. intros [] ? ?. constructor; try done. split; by right. Qed.

Lemma scalars_request m p r model mode i : scalars_ok i → validBoundedText m 32 = true → validBoundedText p 2048 = true →
  validBoundedText model 512 = true → r ≤ RouteClassAdmin → mode ≤ RequestModeSSE → scalars_ok (with_request m p r model mode i).
Proof. intros [] ? ? ? ? ?. by constructor. Qed.

Lemma scalars_modes u a d i : scalars_ok i → scalars_ok (with_modes u a d i).
Proof. intros []. by constructor. Qed.

Lemma scalars_downstream v i : scalars_ok i → known_within 0 999 v → scalars_ok (with_downstream v i).
Proof. intros [] ?. constructor; try done. cbn. tauto. Qed.

Lemma scalars_upstream v i : scalars_ok i → known_within 0 999 v → scalars_ok (with_upstream_status v i).
Proof. intros [] ?. constructor; try done. cbn. tauto. Qed.

Lemma scalars_terminal t i : scalars_ok i → scalars_ok (with_terminal t i).
Proof. intros []. by constructor. Qed.

Lemma scalars_codes c i : scalars_ok i → c ≤ ErrorCodeConflict → scalars_ok (with_codes c c i).
Proof. intros [] ?. by constructor. Qed.

Lemma scalars_counts c u d i : scalars_ok i → known_nonneg c → known_nonneg u → known_nonneg d → scalars_ok (with_counts c u d i).
Proof. intros [] ? ? ?. by constructor. Qed.

Lemma scalars_usage u i : scalars_ok i → scalars_ok (with_usage u i).
Proof. intros []. by constructor. Qed.

Lemma scalars_cost c i : scalars_ok i → scalars_ok (with_cost c i).
Proof. intros []. by constructor. Qed.

(** A timing with the same boundaries and other durations. *)
Lemma scalars_timing t i : scalars_ok i → known_nonneg (Total t) → known_nonneg (TimeToFirstByte t) → known_nonneg (StreamCloseDelay t) →
  StartedAt t = StartedAt (ci_Timing i) → FinishedAt t = FinishedAt (ci_Timing i) → scalars_ok (with_timing t i).
Proof. intros [] ? ? ? E1 E2. constructor; try done. cbn [with_timing ci_Timing]. by rewrite E1, E2. Qed.

Lemma durationMicros_nonneg a b : known_nonneg (durationMicros a b).
Proof.
  unfold durationMicros, known_nonneg, NewDurationMicrosValue. destruct (_ || _); [done|]. destruct (Sub b a <? 0) eqn:E1; [done|].
  destruct (Z.quot (Sub b a) Microsecond <? 0) eqn:E2; cbn; intros; [lia64|lia].
Qed.

Lemma NewStatus_within z v : NewStatus z = Ok v → known_within 0 999 v.
Proof. unfold NewStatus. destruct (_ || _) eqn:E; [done|]. intros [= <-] _. cbn. lia. Qed.

(** Updating the facts of a trace that is not frozen. *)
Lemma core_ok_update s s' : core_ok s → baseFrozen s' = false → scalars_ok (input s') →
  ci_RouteClass (input s') = 0 ∧ ci_ActualUpstreamMode (input s') = ci_UpstreamMode (input s') ∧ ci_SafeErrorCode (input s') = ci_ErrorCode (input s') →
  lastWall s ≤ lastWall s' → StartedAt (ci_Timing (input s')) = StartedAt (ci_Timing (input s)) → core_ok s'.
Proof.
  intros [_ _ [Hz Hs] _] Hf Hsc Hsp Hl Est. constructor; [done|done| |by rewrite Hf].
  split; [lia|]. rewrite Est. intros Hk. specialize (Hs Hk). pose proof (Z.div_le_mono (lastWall s) (lastWall s') 1000). lia.
Qed.

Lemma reading_spec clock s : zeroTime ≤ clock.1 → zeroTime ≤ lastWall s →
  ∃ w m, reading clock s = (w, m, set_last w m s) ∧ lastWall s ≤ w.
Proof.
  destruct clock as [w0 m0]. cbn. intros. eexists _, _. split; [done|]. unfold IsZero, Before.
  destruct (negb _ && _) eqn:E; lia.
Qed.

(** Passes the guards of a setter, keeping what they establish. *)
Ltac guards H :=
  repeat match goal with
  | |- context [if ?b then (false, ?s) else _] => let E := fresh "G" in destruct b eqn:E; [exact H|]
  end;
  repeat match goal with
  | E : _ || _ = false |- _ => apply orb_false_iff in E as [? ?]
  | E : negb _ = false |- _ => apply negb_false_iff in E
  end.

Ltac update H :=
  apply (core_ok_update _ _ H); cbn [snd];
  [done | | (split_and!; (done || apply (ck_spellings _ H))) | try reflexivity | try reflexivity].

Lemma first_byte_ok clock s : core_ok s → baseFrozen s = false → zeroTime ≤ clock.1 → core_ok (first_byte clock s).
Proof.
  intros H Hf Hc. unfold first_byte. destruct (reading_spec clock s Hc) as (w & m & -> & Hw); [apply H|].
  update H; [|done]. apply scalars_timing; try done; try apply durationMicros_nonneg; try apply (so_durations _ (ck_scalars _ H)). exact (ck_scalars _ H).
Qed.

Lemma cancelled_codes_ok s : core_ok s → baseFrozen s = false → core_ok (cancelled_codes s).
Proof. intros H Hf. update H. apply scalars_codes; [apply H|done]. Qed.

Lemma terminal_ok t s : core_ok s → baseFrozen s = false → core_ok (mark_terminal (set_input (with_terminal t (input s)) s)).
Proof. intros H Hf. update H. apply scalars_terminal, H. Qed.

Lemma headers_ok v clock s : core_ok s → zeroTime ≤ clock.1 → known_within 0 999 v → core_ok (SetUpstreamHeadersStatus v clock s).2.
Proof.
  intros H Hc Hv. unfold SetUpstreamHeadersStatus. guards H. destruct (reading_spec clock s Hc) as (w & m & -> & Hw); [apply H|].
  update H; [|done]. apply scalars_timing; try done; try apply (so_durations _ (ck_scalars _ H)).
  apply scalars_upstream; [apply scalars_terminal, (ck_scalars _ H)|done].
Qed.

Lemma count_ok get put c s : core_ok s → (∀ i, scalars_ok i → scalars_ok (put c i)) →
  (∀ i, ci_RouteClass (put c i) = ci_RouteClass i ∧ ci_ActualUpstreamMode (put c i) = ci_ActualUpstreamMode i ∧
    ci_UpstreamMode (put c i) = ci_UpstreamMode i ∧ ci_SafeErrorCode (put c i) = ci_SafeErrorCode i ∧ ci_ErrorCode (put c i) = ci_ErrorCode i ∧
    ci_Timing (put c i) = ci_Timing i) →
  core_ok (setByteCount get put c s).2.
Proof.
  intros H Hp Hq. unfold setByteCount. guards H. destruct (Hq (input s)) as (E1 & E2 & E3 & E4 & E5 & E6).
  apply (core_ok_update _ _ H); cbn [snd set_input input]; [done|apply Hp, H| |done|by rewrite E6].
  rewrite E1, E2, E3, E4, E5. apply H.
Qed.

Lemma perform_base_ok op clock s : core_ok s → zeroTime ≤ clock.1 → base_op_ok op → core_ok (perform_base op clock s).2.
Proof.
  intros H Hc Hop. pose proof (ck_scalars _ H) as Hs. destruct op; cbn [perform_base base_op_ok] in *.
  - unfold SetAuthentication. guards H. update H. by apply scalars_auth.
  - unfold SetRequestMetadataPath. guards H. update H. apply scalars_request; try done; try lia.
    destruct (same path []); [apply Hs|done].
  - unfold SetRouteMetadata. guards H. update H. apply scalars_request; try done; try lia; apply Hs.
  - unfold SetUpstreamStart. guards H. destruct (reading_spec clock s Hc) as (w & m & -> & Hw); [apply H|].
    update H; [|done]. apply scalars_timing; try done; try apply (so_durations _ Hs). by apply scalars_terminal.
  - unfold SetUpstreamHeaders. destruct (NewStatus status) as [v|] eqn:E; [|exact H]. by apply headers_ok, (NewStatus_within status).
  - by apply headers_ok.
  - unfold SetDownstreamStatus. destruct (NewStatus status) as [v|] eqn:E; [|exact H]. apply NewStatus_within in E. guards H. update H. by apply scalars_downstream.
  - unfold SetByteCounts. guards H. update H. apply scalars_counts; tauto.
  - apply count_ok; try done. intros i Hi. apply scalars_counts; try done; apply Hi.
  - apply count_ok; try done. intros i Hi. apply scalars_counts; try done; apply Hi.
  - apply count_ok; try done. intros i Hi. apply scalars_counts; try done; apply Hi.
  - unfold SetResponseMode. guards H. update H. by apply scalars_terminal, scalars_modes.
  - unfold SetUpstreamResponseMode. guards H. update H. by apply scalars_terminal, scalars_modes.
  - unfold SetDeliveredMode. guards H. update H. by apply scalars_modes.
  - unfold SetFirstDownstreamByte. guards H. by apply first_byte_ok.
  - unfold recordDownstreamWrite. guards H. destruct (NewByteCount _) as [c|] eqn:E; [|exact H].
    assert (core_ok (set_input (with_counts (ci_ClientBytes (input s)) (ci_UpstreamBytes (input s)) c (input s)) s)) as H'.
    { update H. apply scalars_counts; try done; try apply Hs. revert E. unfold NewByteCount.
      destruct (add64 _ _ <? 0) eqn:En; [done|]. intros [= <-] _. cbn. lia. }
    cbn [snd]. destruct (_ && _ && _); [by apply first_byte_ok|done].
  - unfold SetErrorCode, validErrorCode in *. guards H. update H. apply scalars_codes; [done|lia].
  - unfold setCancellation. guards H. apply terminal_ok; [by apply cancelled_codes_ok|done].
  - unfold SetTerminalMetadata. guards H. apply terminal_ok; destruct (same (Outcome metadata) TerminalOutcomeCancelled); try done.
    by apply cancelled_codes_ok.
  - unfold SetTerminalOutcome. guards H. apply terminal_ok; destruct (same outcome TerminalOutcomeCancelled); try done.
    by apply cancelled_codes_ok.
Qed.

(** ** Freezing *)

Lemma wallStamp_spec t : o_known (wallStamp t) = true → o_value (wallStamp t) = t / 1000.
Proof. unfold wallStamp. destruct (NewUnixMicros t) as [v|] eqn:E; [|done]. by destruct (NewUnixMicros_spec t v E) as (-> & _). Qed.

Lemma completeLocked_ok clock s : core_ok s → baseFrozen s = false → zeroTime ≤ clock.1 →
  core_ok (completeLocked clock s) ∧ baseFrozen (completeLocked clock s) = false.
Proof.
  intros H Hf Hc. unfold completeLocked. destruct (finished s); [done|].
  destruct (reading_spec clock s Hc) as (w & m & -> & Hw); [apply H|]. cbv zeta.
  match goal with |- context [terminalSet ?s2] => set (s1 := s2) end.
  assert (core_ok s1) as H1.
  { update H; [|done]. destruct (ck_scalars _ H), (ck_clock _ H) as [_ Hs]. constructor; try done.
    - cbn [set_input with_timing mark_finished input ci_Timing Total TimeToFirstByte StreamCloseDelay]. split_and!; try apply so_durations. apply durationMicros_nonneg.
    - intros Hk Hk2. cbn in *. rewrite (wallStamp_spec _ Hk2). specialize (Hs Hk). pose proof (Z.div_le_mono (lastWall s) w 1000). lia. }
  assert (baseFrozen s1 = false) as Hf1 by done. clearbody s1. destruct (terminalSet s1); [done|]. split; [by apply terminal_ok|done].
Qed.

Lemma freeze_core_ok clock s : core_ok s → zeroTime ≤ clock.1 → core_ok (freeze_core clock s) ∧ baseFrozen (freeze_core clock s) = true.
Proof.
  intros H Hc. unfold freeze_core. destruct (baseFrozen s) eqn:Hf; [done|]. destruct (completeLocked_ok clock s H Hf Hc) as [H1 _].
  destruct (completeLocked clock s) as []. destruct H1. cbn in *.
  destruct (NewCompletionRecord _) eqn:E; (split; [|done]); constructor; try done; intros _; cbn; by rewrite E.
Qed.

(** The facts of an open trace make a record exactly when modes and outcome fit. *)
Lemma core_record s : core_ok s →
  (∀ r, NewCompletionRecord (input s) = Ok r ↔
    modes_consistent (input s) ∧ terminal_consistent (ci_Terminal (input s)) ∧ r = mkCompletionRecord (merged (input s)) 0 0).
Proof.
  intros [Hs (E1 & E2 & E3) _ _] r. rewrite NewCompletionRecord_spec.
  assert (merged (input s) = mkRecordInput (ci_RequestID (input s)) (ci_KeyID (input s)) (ci_KeyName (input s)) (ci_Method (input s)) (ci_Path (input s))
    (ci_Route (input s)) (ci_Route (input s)) (ci_Model (input s)) (ci_RequestedMode (input s)) (ci_UpstreamMode (input s)) (ci_UpstreamMode (input s))
    (ci_DeliveredMode (input s)) (ci_DownstreamStatus (input s)) (ci_UpstreamStatus (input s)) (ci_Terminal (input s)) (ci_ErrorCode (input s))
    (ci_ErrorCode (input s)) (ci_ClientBytes (input s)) (ci_UpstreamBytes (input s)) (ci_DeliveredBytes (input s)) (ci_Usage (input s))
    (ci_Cost (input s)) (ci_Timing (input s))) as Em.
  { unfold merged. rewrite E1, E2, E3. destruct (Z.eqb_spec (ci_Route (input s)) 0) as [->|], (same _ _), (ci_ErrorCode (input s) =? 0); done. }
  rewrite Em. unfold record_facts, spellings_agree. split.
  - intros (_ & (_ & ? & ?) & ->). done.
  - intros (? & ? & ->). split_and!; try done; try tauto; [by right; right|by right; right|].
    destruct Hs. by constructor.
Qed.

(** ** The whole trace *)

Definition delay_ok (e : RequestTraceEnrichment) : Prop := known_nonneg (StreamCloseDelay (en_Timing e)).

Definition trace_ok (s : RequestTraceState) : Prop :=
  core_ok (core s) ∧ delay_ok (enrichment (extra s)) ∧ delay_ok (enrichmentSnap (extra s)).

Lemma new_trace_ok id clock s : NewRequestTraceState id clock = Some s → zeroTime ≤ clock.1 → trace_ok s ∧ baseFrozen (core s) = false.
Proof.
  unfold NewRequestTraceState, NewRequestID. destruct (validRequestID id) eqn:E; [|done]. destruct clock as [w m]. cbn [negb]. intros [= <-] Hw.
  split; [|done]. split; [|done]. constructor; [|done| |done].
  - apply validRequestID_exact in E. constructor; cbn; try done. split; by left.
  - cbn in *. split; [done|]. intros Hk. by rewrite (wallStamp_spec _ Hk).
Qed.

Lemma perform_op_ok o s : op_ok o → trace_ok s → trace_ok (perform_op o.1 o.2 s).
Proof.
  destruct o as [op clock]. intros [Hc Hop] (H & He & Hs). cbn [fst snd] in *.
  assert (trace_ok s) as Ht by done.
  destruct op as [op|op|u|c|t|n| | |]; cbn [perform_op].
  - split; [by apply perform_base_ok|done].
  - done.
  - unfold SetUsage, setUsageLocked. destruct (baseFrozen (core s)) eqn:Hf; cbn [negb].
    + destruct (_ || _); done.
    + destruct (usageSet _); cbn [snd]; [done|]. split; [|done]. update H. apply scalars_usage, H.
  - unfold SetCost. destruct (baseFrozen (core s)) eqn:Hf; cbn [negb].
    + destruct (_ || _); done.
    + destruct (costSet _); [done|]. split; [|done]. update H. apply scalars_cost, H.
  - unfold SetTimingEnrichment. destruct (negb _); [done|]. destruct (_ || _); done.
  - unfold setCompletionOwnership. by destruct (completion s).
  - split; [by apply freeze_core_ok|done].
  - unfold FreezeEnrichment, freeze_extra. destruct (enrichmentFrozen (extra s)); done.
  - unfold Final, FreezeBase, FreezeEnrichment, freeze_extra. destruct (freeze_core_ok clock (core s) H Hc) as [Hfc _].
    destruct (frozen_base _); [|done]. cbn. destruct (enrichmentFrozen (extra s)); done.
Qed.

Lemma run_trace_ok ops s : Forall op_ok ops → trace_ok s → trace_ok (run_trace ops s).
Proof.
  intros Hops. revert s. unfold run_trace. induction Hops as [|o ops Ho _ IH]; intros s Hs; [done|]. cbn [foldl]. by apply IH, perform_op_ok.
Qed.

(** A frozen base refuses every setter. *)
Lemma perform_base_frozen op clock s : baseFrozen s = true → (perform_base op clock s).2 = s.
Proof.
  intros Hf. destruct op; cbn [perform_base];
    unfold SetAuthentication, SetRequestMetadataPath, SetRouteMetadata, SetUpstreamStart, SetUpstreamHeaders, SetUpstreamHeadersStatus,
      SetDownstreamStatus, SetByteCounts, SetClientBytes, SetUpstreamBytes, SetDeliveredBytes, setByteCount, SetResponseMode, SetUpstreamResponseMode,
      SetDeliveredMode, SetFirstDownstreamByte, recordDownstreamWrite, SetErrorCode, setCancellation, SetTerminalMetadata, SetTerminalOutcome;
    rewrite ?Hf, ?orb_true_r; cbn [orb]; repeat case_match; done.
Qed.

Lemma perform_op_frozen o s : baseFrozen (core s) = true → core (perform_op o.1 o.2 s) = core s.
Proof.
  destruct o as [op clock]. intros Hf. destruct op; cbn [perform_op fst snd].
  - cbn. by rewrite perform_base_frozen.
  - done.
  - unfold SetUsage. rewrite Hf. cbn [negb]. by destruct (_ || _).
  - unfold SetCost. rewrite Hf. cbn [negb]. by destruct (_ || _).
  - unfold SetTimingEnrichment. destruct (negb _); [done|]. by destruct (_ || _).
  - unfold setCompletionOwnership. by destruct (completion s).
  - cbn. unfold freeze_core. by rewrite Hf.
  - done.
  - unfold Final, FreezeBase, freeze_core. rewrite Hf. by destruct (frozen_base _).
Qed.

Lemma run_trace_frozen ops s : baseFrozen (core s) = true → core (run_trace ops s) = core s.
Proof.
  revert s. unfold run_trace. induction ops as [|o ops IH]; intros s Hf; [done|]. cbn [foldl].
  rewrite IH; rewrite perform_op_frozen by done; done.
Qed.

(** A frozen enrichment keeps its snapshot. *)
Lemma perform_op_enriched o s : baseFrozen (core s) = true → enrichmentFrozen (extra s) = true → extra (perform_op o.1 o.2 s) = extra s.
Proof.
  destruct o as [op clock]. intros Hf He. destruct op; cbn [perform_op fst snd]; try done.
  - unfold SetUsage. rewrite Hf, He. done.
  - unfold SetCost. rewrite Hf, He. done.
  - unfold SetTimingEnrichment. destruct (negb _); [done|]. by rewrite He.
  - unfold setCompletionOwnership. by destruct (completion s).
  - unfold FreezeEnrichment, freeze_extra. by rewrite He.
  - unfold Final, FreezeBase, freeze_core, FreezeEnrichment, freeze_extra. rewrite Hf. destruct (frozen_base _); [|done]. cbn. by rewrite He.
Qed.

Lemma run_trace_enriched ops s : baseFrozen (core s) = true → enrichmentFrozen (extra s) = true → extra (run_trace ops s) = extra s.
Proof.
  revert s. unfold run_trace. induction ops as [|o ops IH]; intros s Hf He; [done|]. cbn [foldl].
  rewrite IH; rewrite ?perform_op_frozen, ?perform_op_enriched by done; done.
Qed.

Lemma merged_fixed j : merged j = j ↔
  ci_RouteClass j = ci_Route j ∧ ci_ActualUpstreamMode j = ci_UpstreamMode j ∧ ci_SafeErrorCode j = ci_ErrorCode j.
Proof.
  split; [intros <-; done|]. destruct j. cbn. intros (-> & -> & ->). unfold merged. cbn. f_equal; by case_match.
Qed.

(** Enriching a record gives a record. *)
Lemma merge_enrichment i e : record_facts (merged i) → delay_ok e →
  MergeRequestTraceEnrichment (mkCompletionRecord (merged i) 0 0) e = Ok (mkCompletionRecord (enrich (merged i) e) 0 0).
Proof.
  intros (Hs & Hm & Ht) He. unfold MergeRequestTraceEnrichment, record_input. cbn [rec_fields]. apply NewCompletionRecord_spec.
  pose proof (merged_agrees i) as Ha. pose proof (merged_merged i) as Hmm. set (j := merged i) in *.
  assert (∀ j', scalars_ok j' → modes_consistent j' → terminal_consistent (ci_Terminal j') → spellings_agree j' → merged j' = j' →
    spellings_agree j' ∧ record_facts (merged j') ∧ mkCompletionRecord j' 0 0 = mkCompletionRecord (merged j') 0 0) as Hj.
  { intros j' ? ? ? ? ->. split_and!; done. }
  clearbody j. apply Hj; clear Hj; unfold enrich; cbv zeta;
    destruct (usage_known (en_Usage e)), (Money_Known (en_Cost e)), (o_known (StreamCloseDelay (en_Timing e))); try done;
    try (repeat (apply scalars_timing || apply scalars_cost || apply scalars_usage); try done; apply Hs);
    apply merged_fixed; apply merged_fixed in Hmm; done.
Qed.

(** Freezing a frozen base only reads it. *)
Lemma FreezeBase_frozen clock s : baseFrozen s = true → FreezeBase clock s = (frozen_base s, s).
Proof. intros H. unfold FreezeBase, freeze_core. by rewrite H. Qed.

Lemma freeze_core_frozen clock s : baseFrozen (freeze_core clock s) = true.
Proof. unfold freeze_core. destruct (baseFrozen s) eqn:E; [done|]. by destruct (NewCompletionRecord _). Qed.

(** The final record is returned again after any operations. *)
Lemma Final_again clock s ops clock' : (Final clock' (run_trace ops (Final clock s).2)).1 = (Final clock s).1.
Proof.
  unfold Final at 2 3. unfold FreezeBase. cbv zeta. set (c := freeze_core clock (core s)).
  assert (baseFrozen c = true) as Hc by apply freeze_core_frozen.
  destruct (frozen_base c) as [b|] eqn:Eb.
  - cbn [FreezeEnrichment fst snd]. set (t := with_extra _ _).
    assert (enrichmentFrozen (extra t) = true) as He by (cbn; unfold freeze_extra; by destruct (enrichmentFrozen (extra s)) eqn:?).
    unfold Final. rewrite run_trace_frozen by done. rewrite FreezeBase_frozen by done. change (core t) with c. rewrite Eb.
    cbn. rewrite run_trace_enriched by done. unfold freeze_extra at 1. rewrite He. done.
  - cbn [fst snd]. unfold Final. rewrite run_trace_frozen by done. rewrite FreezeBase_frozen by done. cbn. by rewrite Eb.
Qed.

(** ** Theorems *)

(** C32: A trace makes a record exactly when its modes and its outcome fit.
    After any sequence of operations on a new trace, with any clock, freezing
    the base gives the record of the collected facts when the delivered
    representation is one the upstream and the requested ones allow and the
    outcome matches whether upstream was started, and the error of an invalid
    record otherwise: no other fact a setter accepts can make it invalid.  In
    particular a streaming request whose answer is delivered as JSON has no
    record. *)
Theorem FreezeBase_exact id clock0 s0 ops clock :
  NewRequestTraceState id clock0 = Some s0 → zeroTime ≤ clock0.1 → Forall op_ok ops → zeroTime ≤ clock.1 →
  let '(result, s) := FreezeBase clock (core (run_trace ops s0)) in
  let facts := input s in
  match result with
  | Ok r => modes_consistent facts ∧ terminal_consistent (ci_Terminal facts) ∧ r = mkCompletionRecord (merged facts) 0 0
  | Err _ => ¬ (modes_consistent facts ∧ terminal_consistent (ci_Terminal facts))
  end.
Proof.
  intros Hn H0 Hops Hc. destruct (new_trace_ok _ _ _ Hn H0) as [Hs0 _]. destruct (run_trace_ok ops s0 Hops Hs0) as [H _].
  destruct (freeze_core_ok clock _ H Hc) as [Hf Hfz]. unfold FreezeBase. cbv zeta. set (s := freeze_core clock _) in *. clearbody s.
  rewrite (ck_frozen _ Hf Hfz). pose proof (core_record s Hf) as Hr. destruct (NewCompletionRecord (input s)) as [r|e].
  - by apply Hr.
  - intros [Hm Ht]. discriminate (proj2 (Hr _) (conj Hm (conj Ht eq_refl))).
Qed.

(** A frozen trace never changes its mind.  Once the base of a trace has
    been frozen, every later freeze returns the same result whatever operations
    come between; an invalid base has no final record, and a valid one has a
    final record that differs from the base in usage, cost and close delay
    only, and that every later call returns again. *)
Theorem trace_final_stable id clock0 s0 ops clock later clock1 :
  NewRequestTraceState id clock0 = Some s0 → zeroTime ≤ clock0.1 → Forall op_ok ops → zeroTime ≤ clock.1 → Forall op_ok later →
  let s := run_trace ops s0 in
  let '(result, c) := FreezeBase clock (core s) in
  let s' := run_trace later (with_core c s) in
  (FreezeBase clock1 (core s')).1 = result ∧
  match result with
  | Err _ => (Final clock1 s').1 = None
  | Ok base =>
      ∃ e, (Final clock1 s').1 = Some (mkCompletionRecord (enrich (rec_fields base) e) 0 0) ∧
      ∀ more clock2, (Final clock2 (run_trace more (Final clock1 s').2)).1 = (Final clock1 s').1
  end.
Proof.
  intros Hn H0 Hops Hc Hlater. destruct (new_trace_ok _ _ _ Hn H0) as [Hs0 _]. pose proof (run_trace_ok ops s0 Hops Hs0) as (H & He & Hsn). cbv zeta.
  destruct (freeze_core_ok clock _ H Hc) as [Hf Hfz]. unfold FreezeBase at 1. cbv zeta. set (c := freeze_core clock _) in *.
  set (s := with_core c (run_trace ops s0)). assert (trace_ok s) as Hs by done. set (s' := run_trace later s).
  pose proof (run_trace_ok later s Hlater Hs) as (_ & He' & Hsn'). pose proof (run_trace_frozen later s Hfz) as Ec. fold s' in Ec, He', Hsn'.
  assert (baseFrozen (core s') = true) as Hfz' by (rewrite Ec; done). assert (frozen_base (core s') = frozen_base c) as Eb by (rewrite Ec; done).
  rewrite FreezeBase_frozen by done. split; [done|]. rewrite <- Eb.
  assert (Final clock1 s' = match frozen_base (core s') with
    | Err _ => (None, with_core (core s') s')
    | Ok b => (match MergeRequestTraceEnrichment b (enrichmentSnap (freeze_extra (extra s'))) with Ok r => Some r | Err _ => None end,
               with_extra (freeze_extra (extra s')) (with_core (core s') s')) end) as EF by (unfold Final; by rewrite FreezeBase_frozen).
  destruct (frozen_base (core s')) as [b|] eqn:Efb; [|by rewrite EF].
  set (e := enrichmentSnap (freeze_extra (extra s'))) in *. exists e. split; [|intros; apply Final_again].
  assert (delay_ok e) as Hde by (unfold e, freeze_extra; by destruct (enrichmentFrozen (extra s'))).
  rewrite EF. cbn [fst]. rewrite (ck_frozen _ Hf Hfz) in Eb. destruct (NewCompletionRecord (input c)) as [r|] eqn:En; [|done].
  apply NewCompletionRecord_spec in En as (_ & Hfacts & ->). injection Eb as ->. by rewrite merge_enrichment.
Qed.

Definition demo_id : bytes := str "0123456789abcdef0123456789abcdef".

(** The setters a proxied chat request goes through: requested mode, upstream
    start and headers, actual and delivered representation, outcome. *)
Definition demo_ops (requested : RequestMode) (mode : ResponseMode) : list (trace_op * (Z * Z)) :=
  [(OpBase (OpRouteMetadata (str "POST") (str "/v1/chat/completions") RouteClassChatCompletions), (20, 20));
   (OpBase (OpRequestMetadata (str "POST") (str "/v1/chat/completions") RouteClassChatCompletions (str "gpt") requested), (20, 20));
   (OpBase (OpUpstreamStart []), (30, 30)); (OpBase (OpUpstreamHeaders 429), (5, 5));
   (OpBase (OpUpstreamResponseMode mode), (40, 40)); (OpBase (OpDeliveredMode mode), (40, 40));
   (OpBase (OpWrite 7 true true), (50, 50)); (OpBase (OpTerminalMetadata (mkTerminal TerminalOutcomeComplete true)), (60, 60))].

Lemma demo_ops_ok r m : Forall op_ok (demo_ops r m).
Proof. repeat constructor; vm_compute; discriminate. Qed.

Lemma FreezeBase_exact_witness : ∃ s0, NewRequestTraceState demo_id (10, 10) = Some s0 ∧
  is_ok (FreezeBase (70, 70) (core (run_trace (demo_ops RequestModeSSE ResponseModeSSE) s0))).1 = true ∧
  is_ok (FreezeBase (70, 70) (core (run_trace (demo_ops RequestModeSSE ResponseModeJSON) s0))).1 = false ∧
  modes_consistent (input (FreezeBase (70, 70) (core (run_trace (demo_ops RequestModeSSE ResponseModeSSE) s0))).2).
Proof.
  eexists. split; [vm_compute; reflexivity|]. split; [vm_compute; reflexivity|]. split; [vm_compute; reflexivity|].
  pose proof (FreezeBase_exact demo_id (10, 10) _ (demo_ops RequestModeSSE ResponseModeSSE) (70, 70) ltac:(vm_compute; reflexivity)
    ltac:(vm_compute; discriminate) (demo_ops_ok _ _) ltac:(vm_compute; discriminate)) as H.
  match type of H with (let '(_, _) := ?x in _) => destruct x as [[r|] s] eqn:E end.
  - cbn [fst snd]. apply H.
  - exfalso. vm_compute in E. discriminate E.
Defined.

Lemma trace_final_stable_witness : ∃ s0, NewRequestTraceState demo_id (10, 10) = Some s0 ∧
  (Final (90, 90) (run_trace [(OpBase OpCancellation, (80, 80))]
    (with_core (FreezeBase (70, 70) (core (run_trace (demo_ops RequestModeSSE ResponseModeJSON) s0))).2
       (run_trace (demo_ops RequestModeSSE ResponseModeJSON) s0)))).1 = None.
Proof.
  eexists. split; [vm_compute; reflexivity|].
  pose proof (trace_final_stable demo_id (10, 10) _ (demo_ops RequestModeSSE ResponseModeJSON) (70, 70) [(OpBase OpCancellation, (80, 80))] (90, 90)
    ltac:(vm_compute; reflexivity) ltac:(vm_compute; discriminate) (demo_ops_ok _ _) ltac:(vm_compute; discriminate)
    ltac:(repeat constructor; vm_compute; discriminate)) as H.
  cbv zeta in H. match type of H with (let '(_, _) := ?x in _) => destruct x as [[r|] c] eqn:E end.
  - exfalso. vm_compute in E. discriminate E.
  - cbn [snd]. apply H.
Defined.
