(* ===== verification/InputSecurity.v ===== *)
(** * Validators of values that cross a boundary ([internal/security/input.go])

    [net/url] is a parameter: the parsed form has the parts the code reads. *)

From Stdlib Require Import Ascii ZArith Lia ZifyBool.
From stdpp Require Import prelude strings list.
From S2P Require Import Prelude Text Utf8 Json GatewayKey CompletionRecord.
Local Open Scope Z_scope.

#[local] Arguments str : simpl never.

Definition MaxIdentifierBytes : nat := 256.
Definition MaxCursorBytes : nat := 1024.

Definition in_range (lo hi : ascii) (c : ascii) : bool := (code lo <=? code c) && (code c <=? code hi).

(** [a-zA-Z0-9_-] *)
Definition identity_char (c : ascii) : bool :=
  in_range "a" "z" c || in_range "A" "Z" c || in_range "0" "9" c || byte_eqb c "-" || byte_eqb c "_".

Fixpoint identifier_loop (index : nat) (s : bytes) : bool :=
  match s with
  | [] => true
  | c :: rest =>
      if identity_char c then
        if Nat.eqb index 0 && (byte_eqb c "-" || byte_eqb c "_") then false else identifier_loop (S index) rest
      else false
  end.

Definition ValidateIdentifier (value : bytes) : bool :=
  if same value [] || (MaxIdentifierBytes <? length value)%nat then false else identifier_loop 0 value.

Definition ValidateRequestID (value : bytes) : bool := (32 <=? length value)%nat && ValidateIdentifier value.

Fixpoint ValidateKind (value : bytes) (allowed : list bytes) : bool :=
  match allowed with [] => false | candidate :: rest => if same value candidate then true else ValidateKind value rest end.

Definition ValidateCursorSyntax (value : bytes) : bool :=
  if same value [] || (MaxCursorBytes <? length value)%nat then same value []
  else if existsb (λ r, is_space r || IsControl r) (runes value) then false
  else if Nat.eqb (length value mod 4) 1 then false
  else if negb (forallb identity_char value) then false
  else match DecodeString value with Some decoded => same (EncodeToString decoded) value | None => false end.

(** ** The upstream URL *)

Record URL := mkURL {
  u_Scheme : bytes; u_Opaque : bytes; u_Host : bytes; u_Hostname : bytes; u_User : option bytes; u_Fragment : bytes;
}.

Section url.
Context (url_Parse : bytes → option URL).

Inductive url_error := ErrEmptyOrPadded | ErrNotAbsolute | ErrScheme | ErrHost | ErrCredentials | ErrFragment.

(** [IsAbs] is a non-empty scheme. *)
Definition ValidateUpstreamURL (value : bytes) : result url_error URL :=
  if same value [] || negb (same (TrimSpace value) value) then Err ErrEmptyOrPadded
  else
    match url_Parse value with
    | None => Err ErrNotAbsolute
    | Some u =>
        if same (u_Scheme u) [] || negb (same (u_Opaque u) []) then Err ErrNotAbsolute
        else if negb (same (u_Scheme u) (str "http")) && negb (same (u_Scheme u) (str "https")) then Err ErrScheme
        else if same (u_Host u) [] || same (u_Hostname u) [] then Err ErrHost
        else match u_User u with
             | Some _ => Err ErrCredentials
             | None => if negb (same (u_Fragment u) []) then Err ErrFragment else Ok u
             end
    end.
End url.

(** ** What they accept *)

Lemma same_spec a b : same a b = true ↔ a = b.
Proof. apply bool_decide_eq_true. Qed.

Lemma ValidateKind_spec value allowed : ValidateKind value allowed = true ↔ value ∈ allowed.
Proof.
  induction allowed as [|a allowed IH]; cbn; [by rewrite elem_of_nil|]. rewrite elem_of_cons.
  destruct (same value a) eqn:E; [apply same_spec in E; tauto|]. rewrite IH.
  assert (value ≠ a) by (intros ->; unfold same in E; rewrite bool_decide_true in E; done). tauto.
Qed.

Lemma identifier_loop_spec n s : (0 < n)%nat → identifier_loop n s = forallb identity_char s.
Proof.
  revert n. induction s as [|c s IH]; intros n Hn; [done|]. cbn [identifier_loop forallb].
  destruct (identity_char c); [|done]. rewrite (proj2 (Nat.eqb_neq n 0)) by lia. cbn. apply IH. lia.
Qed.

(** The generated request identifiers are safe lookup keys. *)
Lemma identity_char_table : forallb (λ n, let c := ascii_of_nat n in
  implb (bool_decide (c ∈ str "0123456789abcdef")) (identity_char c && negb (byte_eqb c "-" || byte_eqb c "_")) &&
  implb (bool_decide (c ∈ alphabet)) (identity_char c) && implb (identity_char c) (bool_decide (c ∈ alphabet) && negb (is_space (code c) || IsControl (code c)) && (code c <? 128))) (seq 0 256) = true.
Proof. vm_compute. reflexivity. Qed.

Lemma identity_char_facts c :
  (c ∈ str "0123456789abcdef" → identity_char c = true ∧ byte_eqb c "-" || byte_eqb c "_" = false) ∧
  (c ∈ alphabet ↔ identity_char c = true) ∧
  (identity_char c = true → is_space (code c) || IsControl (code c) = false ∧ code c < 128).
Proof.
  pose proof (proj1 (forallb_forall _ _) identity_char_table (nat_of_ascii c)) as H. cbv beta zeta in H.
  rewrite ascii_nat_embedding in H. specialize (H ltac:(apply in_seq; pose proof (nat_ascii_bounded c); lia)).
  apply andb_true_iff in H as [[H1 H2]%andb_true_iff H3].
  rewrite implb_true_iff in H1, H2, H3. rewrite bool_decide_eq_true in H1, H2.
  split_and!.
  - intros Hc. specialize (H1 Hc). apply andb_true_iff in H1 as [? ?%negb_true_iff]. done.
  - split; [done|]. intros Hc. specialize (H3 Hc). apply andb_true_iff in H3 as [[H3 _]%andb_true_iff _]. by apply bool_decide_eq_true in H3.
  - intros Hc. specialize (H3 Hc). apply andb_true_iff in H3 as [[_ H3]%andb_true_iff H4]. apply negb_true_iff in H3. split; [done|lia].
Qed.

Lemma request_id_identifier id : request_id id → ValidateRequestID id = true.
Proof.
  intros [Hl Hf]. unfold ValidateRequestID, ValidateIdentifier. rewrite Hl. cbn [Nat.leb andb].
  destruct id as [|c id]; [done|]. cbn [same]. change (same (c :: id) []) with false.
  change (MaxIdentifierBytes <? 32)%nat with false. cbn [orb identifier_loop].
  inversion Hf as [|? ? Hc Hid]; subst. destruct (proj1 (identity_char_facts c) Hc) as [-> ->]. cbn [Nat.eqb andb].
  rewrite identifier_loop_spec by lia. apply forallb_forall. intros x Hx. rewrite Forall_forall in Hid.
  apply (proj1 (identity_char_facts x)), Hid. by apply list_elem_of_In.
Qed.

Lemma runes_ascii s : Forall (λ c, code c < 128) s → runes s = map code s.
Proof.
  intros H. unfold runes. induction H as [|c s Hc _ IH]; [done|]. cbn [length runes_fuel]. unfold DecodeRune. cbv zeta.
  rewrite (proj2 (Z.ltb_lt _ _) Hc). cbn [drop map]. f_equal. apply IH.
Qed.

Lemma enc6_identity z : 0 ≤ z < 64 → identity_char (enc6 z) = true.
Proof.
  intros Hz. apply (identity_char_facts (enc6 z)). unfold enc6.
  destruct (lookup_lt_is_Some_2 alphabet (Z.to_nat z)) as [c Hc]; [change (length alphabet) with 64%nat; lia|].
  rewrite Hc. cbn. by apply list_elem_of_lookup_2 in Hc.
Qed.

Lemma Encode_identity d : Forall (λ c, identity_char c = true) (EncodeToString d).
Proof.
  rewrite EncodeToString_sextets, Forall_fmap. eapply Forall_impl; [apply sextets_range|]. intros z Hz. by apply enc6_identity.
Qed.

Lemma Encode_mod4 d : (length (EncodeToString d) mod 4 ≠ 1)%nat.
Proof.
  induction d as [|a|a b|a b c rest IH] using triple_ind; cbn [EncodeToString length]; try (cbn; lia).
  change (S (S (S (S (length (EncodeToString rest)))))) with (4 + length (EncodeToString rest))%nat.
  rewrite (Nat.add_comm 4), Nat.Div0.add_mod. change (4 mod 4)%nat with 0%nat. rewrite Nat.add_0_r, Nat.Div0.mod_mod. done.
Qed.

(** A cursor passes the lexical check exactly when it is empty or the
    canonical URL-safe base64 text, of at most 1024 characters, of some bytes;
    no other spelling of the same bytes passes. *)
Theorem ValidateCursorSyntax_exact value :
  ValidateCursorSyntax value = true ↔
  value = [] ∨ (length value ≤ MaxCursorBytes)%nat ∧ ∃ payload, value = EncodeToString payload.
Proof.
  unfold ValidateCursorSyntax. destruct (same value []) eqn:E0; cbn [orb]; [apply same_spec in E0; tauto|].
  destruct (Nat.ltb_spec MaxCursorBytes (length value)) as [Hl|Hl]; cbn [orb].
  { split; [done|]. intros [->|[? _]]; [done|lia]. }
  split.
  - destruct (existsb _ _); [done|]. destruct (Nat.eqb _ 1); [done|]. destruct (negb _); [done|].
    destruct (DecodeString value) as [d|]; [|done]. intros Hs%same_spec. right. split; [done|]. by exists d.
  - intros [->|(_ & d & ->)]; [done|].
    pose proof (Encode_identity d) as Hi. rewrite Forall_forall in Hi.
    assert (existsb (λ r, is_space r || IsControl r) (runes (EncodeToString d)) = false) as ->.
    { apply not_true_is_false. intros (r & Hr & Hb)%existsb_exists. rewrite runes_ascii in Hr.
      2:{ apply Forall_forall. intros c Hc. by apply identity_char_facts, Hi. }
      apply in_map_iff in Hr as (c & <- & Hc). apply list_elem_of_In, Hi, identity_char_facts in Hc as [Hc _]. congruence. }
    rewrite (proj2 (Nat.eqb_neq _ _) (Encode_mod4 d)).
    assert (forallb identity_char (EncodeToString d) = true) as ->.
    { apply forallb_forall. intros c Hc. apply Hi. by apply list_elem_of_In. }
    cbn [negb]. rewrite DecodeString_Encode. by apply same_spec.
Qed.
