(* ===== verification/HistoryStore.v ===== *)
(** * What the request history accepts ([internal/storage/request_history.go])

    The storage projection of a completion record, the validation of a record
    and of its bodies before anything is written, and the arguments of a
    retention pass.  The SQL statements are not modelled. *)

From Stdlib Require Import Ascii ZArith Lia ZifyBool.
From stdpp Require Import prelude strings list.
From S2P Require Import Prelude Text Utf8 Money Usage Json BodyRecorder CompletionRecord InputSecurity.
Local Open Scope Z_scope.

#[local] Arguments str : simpl never.

Definition OptionalInt64 : Type := optional.
Definition KnownInt64 (value : Z) : OptionalInt64 := mkOptional value true.

Record HistoryRecord := mkHistory {
  h_RequestID : bytes; h_APIKeyID : bytes; h_KeyID : bytes; h_KeyName : bytes; h_Method : bytes; h_Path : bytes; h_Route : bytes; h_Model : bytes;
  h_RequestedMode : bytes; h_UpstreamMode : bytes; h_DeliveredMode : bytes;
  h_DownstreamStatus : OptionalInt64; h_UpstreamStatus : OptionalInt64;
  h_TerminalOutcome : bytes; h_UpstreamStarted : bool; h_ErrorCode : bytes;
  h_ClientBytes : OptionalInt64; h_UpstreamBytes : OptionalInt64; h_DeliveredBytes : OptionalInt64;
  h_InputTokens : OptionalInt64; h_OutputTokens : OptionalInt64; h_TotalTokens : OptionalInt64;
  h_CachedInputTokens : OptionalInt64; h_ReasoningOutputTokens : OptionalInt64; h_CostMicros : OptionalInt64;
  h_StartedAt : OptionalInt64; h_UpstreamStartedAt : OptionalInt64; h_UpstreamHeadersAt : OptionalInt64;
  h_FirstByteAt : OptionalInt64; h_FinishedAt : OptionalInt64;
  h_TotalMicros : OptionalInt64; h_TimeToUpstreamHeadersMicros : OptionalInt64; h_TimeToFirstByteMicros : OptionalInt64;
  h_StreamCloseDelayMicros : OptionalInt64;
}.

Inductive history_error := ErrHistoryInvalidRecord | ErrHistoryInvalidBody | ErrHistoryInvalidKey | ErrHistoryInvalidCutoff | ErrHistoryInvalidLimit.

(** ** The projection ([historyRecord] of [history_worker.go]) *)

Definition textMode (mode : bytes) : bytes := if same mode (str "unknown") then [] else mode.
Definition optional_int (v : optional) : OptionalInt64 := if o_known v then KnownInt64 (o_value v) else unknown.
Definition optional_count_int (c : TokenCount) : OptionalInt64 := if tc_known c then KnownInt64 (tc_value c) else unknown.
Definition optionalMoney (m : Money) : OptionalInt64 := let '(v, known) := Money_Micros m in if known then KnownInt64 v else unknown.

Definition historyRecord (record : CompletionRecord) : HistoryRecord :=
  let i := rec_fields record in
  let u := ci_Usage i in
  let t := ci_Timing i in
  mkHistory (ci_RequestID i) (ci_KeyID i) [] (ci_KeyName i) (ci_Method i) (ci_Path i) (textMode (RouteClass_String (ci_Route i))) (ci_Model i)
    (textMode (RequestMode_String (ci_RequestedMode i))) (textMode (ci_UpstreamMode i)) (textMode (ci_DeliveredMode i))
    (optional_int (ci_DownstreamStatus i)) (optional_int (ci_UpstreamStatus i))
    (textMode (Outcome (ci_Terminal i))) (UpstreamStarted (ci_Terminal i)) (textMode (SafeErrorCode_String (ci_ErrorCode i)))
    (optional_int (ci_ClientBytes i)) (optional_int (ci_UpstreamBytes i)) (optional_int (ci_DeliveredBytes i))
    (optional_count_int (input_count (usage_input u))) (optional_count_int (output_count (usage_output u)))
    (optional_count_int (total_count (usage_total u))) (optional_count_int (cached_input_count (usage_cachedInput u)))
    (optional_count_int (reasoning_output_count (usage_reasoningOutput u))) (optionalMoney (ci_Cost i))
    (optional_int (StartedAt t)) (optional_int (UpstreamStartedAt t)) (optional_int (UpstreamHeadersAt t)) (optional_int (FirstByteAt t))
    (optional_int (FinishedAt t)) (optional_int (Total t)) (optional_int (TimeToUpstreamHeaders t)) (optional_int (TimeToFirstByte t))
    (optional_int (StreamCloseDelay t)).

(** ** Validation *)

Definition validHistoryText (value : bytes) (max : Z) (emptyOK : bool) : bool :=
  if same value [] then emptyOK
  else if negb (ValidString value) || (max <? RuneCountInString value) || TrimSpace_empty value then false
  else forallb (λ r, negb (IsControl r)) (runes value).

Fixpoint oneOf (value : bytes) (choices : list bytes) : bool :=
  match choices with [] => false | choice :: rest => if same value choice then true else oneOf value rest end.

Definition normalizeHistoryRecord (r : HistoryRecord) : HistoryRecord :=
  let api := if same (h_APIKeyID r) [] then h_KeyID r else h_APIKeyID r in
  let key := if same (h_KeyID r) [] then api else h_KeyID r in
  mkHistory (h_RequestID r) api key (h_KeyName r) (h_Method r) (h_Path r) (h_Route r) (h_Model r) (h_RequestedMode r) (h_UpstreamMode r)
    (h_DeliveredMode r) (h_DownstreamStatus r) (h_UpstreamStatus r) (h_TerminalOutcome r) (h_UpstreamStarted r) (h_ErrorCode r) (h_ClientBytes r)
    (h_UpstreamBytes r) (h_DeliveredBytes r) (h_InputTokens r) (h_OutputTokens r) (h_TotalTokens r) (h_CachedInputTokens r)
    (h_ReasoningOutputTokens r) (h_CostMicros r) (h_StartedAt r) (h_UpstreamStartedAt r) (h_UpstreamHeadersAt r) (h_FirstByteAt r) (h_FinishedAt r)
    (h_TotalMicros r) (h_TimeToUpstreamHeadersMicros r) (h_TimeToFirstByteMicros r) (h_StreamCloseDelayMicros r).

Definition route_choices : list bytes := [[]; str "models"; str "chat_completions"; str "responses"; str "generic"; str "health"; str "admin"].
Definition mode_choices : list bytes := [[]; str "json"; str "opaque"; str "sse"].
Definition outcome_choices : list bytes :=
  [[]; str "pre_upstream"; str "upstream_error"; str "response_error"; str "complete"; str "custom_dispatch"; str "cancelled"].
Definition error_choices : list bytes :=
  [[]; str "invalid_api_key"; str "key_disabled"; str "key_expired"; str "invalid_request"; str "model_not_allowed"; str "request_limit_exceeded";
   str "concurrency_limit_exceeded"; str "token_limit_exceeded"; str "budget_exceeded"; str "upstream_connection_error"; str "upstream_timeout";
   str "response_transport_error"; str "conversion_error"; str "cancelled"; str "unsupported_response"; str "gateway_internal_error"; str "not_found";
   str "conflict"].

(** The condition on the three modes. *)
Definition modes_conflict (requested upstream delivered : bytes) : bool :=
  same upstream [] && negb (same delivered []) && negb (same delivered (str "opaque")) ||
  same delivered (str "sse") && negb (same upstream (str "sse")) ||
  same upstream (str "opaque") && negb (same delivered []) && negb (same delivered (str "opaque")) ||
  same delivered (str "opaque") && negb (same upstream []) && negb (same upstream (str "opaque")) ||
  same requested (str "json") && same delivered (str "sse") || same requested (str "sse") && same delivered (str "json").

Definition outcome_conflict (outcome : bytes) (started : bool) : bool :=
  same outcome (str "pre_upstream") && started || negb (same outcome []) && negb (same outcome (str "pre_upstream")) && negb started.

Definition validateHistoryRecord (r : HistoryRecord) : option history_error :=
  if negb (same (h_APIKeyID r) []) && negb (same (h_KeyID r) []) && negb (same (h_APIKeyID r) (h_KeyID r)) then Some ErrHistoryInvalidKey
  else
    let api := if same (h_APIKeyID r) [] then h_KeyID r else h_APIKeyID r in
    if negb (ValidateRequestID (h_RequestID r)) || negb (validHistoryText api 256 true) || negb (validHistoryText (h_KeyName r) 256 true) ||
       negb (validHistoryText (h_Method r) 32 true) || negb (validHistoryText (h_Path r) 2048 true) || negb (validHistoryText (h_Model r) 512 true)
    then Some ErrHistoryInvalidRecord
    else if same api [] && negb (same (h_KeyName r) []) then Some ErrHistoryInvalidKey
    else if negb (oneOf (h_Route r) route_choices) || negb (oneOf (h_RequestedMode r) [[]; str "json"; str "sse"]) ||
            negb (oneOf (h_UpstreamMode r) mode_choices) || negb (oneOf (h_DeliveredMode r) mode_choices) ||
            negb (oneOf (h_TerminalOutcome r) outcome_choices) || negb (oneOf (h_ErrorCode r) error_choices)
    then Some ErrHistoryInvalidRecord
    else if modes_conflict (h_RequestedMode r) (h_UpstreamMode r) (h_DeliveredMode r) then Some ErrHistoryInvalidRecord
    else if outcome_conflict (h_TerminalOutcome r) (h_UpstreamStarted r) then Some ErrHistoryInvalidRecord
    else if existsb (λ v, o_known v && ((o_value v <? 0) || (999 <? o_value v))) [h_DownstreamStatus r; h_UpstreamStatus r]
    then Some ErrHistoryInvalidRecord
    else if existsb (λ v, o_known v && (o_value v <? 0))
              [h_ClientBytes r; h_UpstreamBytes r; h_DeliveredBytes r; h_InputTokens r; h_OutputTokens r; h_TotalTokens r; h_CachedInputTokens r;
               h_ReasoningOutputTokens r; h_CostMicros r; h_TotalMicros r; h_TimeToUpstreamHeadersMicros r; h_TimeToFirstByteMicros r;
               h_StreamCloseDelayMicros r]
    then Some ErrHistoryInvalidRecord
    else if o_known (h_StartedAt r) && o_known (h_FinishedAt r) && (o_value (h_FinishedAt r) <? o_value (h_StartedAt r))
    then Some ErrHistoryInvalidRecord
    else None.

Definition RequestBodySchemaSafetyMaxBytes : Z := 1 * 1024 * 1024.

Definition body_length (b : BodySnapshot) : Z := match bs_Bytes b with Some l => Z.of_nat (length l) | None => 0 end.

(** The loop over the bodies, with the kinds seen. *)
Fixpoint validate_bodies (seen : list BodyKind) (l : list BodySnapshot) : result history_error (list BodySnapshot) :=
  match l with
  | [] => Ok []
  | body :: rest =>
      if negb (validBodyKind (bs_Kind body)) then Err ErrHistoryInvalidBody
      else if negb (bs_Captured body) then validate_bodies seen rest
      else if bool_decide (bs_Kind body ∈ seen) || negb (bs_Captured body) || (bs_OriginalSize body <? 0) || (bs_OriginalSize body <? body_length body) ||
              (RequestBodySchemaSafetyMaxBytes <? body_length body) ||
              negb (Bool.eqb (bs_Truncated body) (body_length body <? bs_OriginalSize body)) then Err ErrHistoryInvalidBody
      else
        let? valid := validate_bodies (bs_Kind body :: seen) rest in
        Ok (mkSnapshot (bs_Kind body) (match bs_Bytes body with Some [] => None | b => b end) (bs_OriginalSize body) (bs_Truncated body)
              (bs_Captured body) :: valid)
  end.

Definition validateHistoryBodies (bodies : list BodySnapshot) : result history_error (list BodySnapshot) := validate_bodies [] bodies.

(** The context is live. *)
Definition validateRetentionArgs (cutoff maxRows : Z) : option history_error :=
  if IsZero cutoff || negb (Z.rem (Nanosecond cutoff) 1000 =? 0) then Some ErrHistoryInvalidCutoff
  else if maxRows <=? 0 then Some ErrHistoryInvalidLimit
  else None.

(** ** The contract between record and history *)

Lemma oneOf_spec v l : oneOf v l = true ↔ v ∈ l.
Proof. rewrite <- ValidateKind_spec. induction l as [|a l IH]; [done|]. cbn. by destruct (same v a). Qed.

Definition not_blank (s : bytes) : Prop := s = [] ∨ TrimSpace_empty s = false.

Lemma history_text s n : optional_text s n → validHistoryText s n true = true ↔ not_blank s.
Proof.
  intros H. unfold validHistoryText, not_blank. destruct (same s []) eqn:E; [apply same_spec in E; tauto|].
  assert (s ≠ []) as Hne by (intros ->; discriminate E). destruct H as [|H]; [done|]. unfold validBoundedText in H.
  destruct (negb (ValidString s) || (n <? RuneCountInString s)) eqn:E2; [done|]. cbn [orb].
  destruct (TrimSpace_empty s); [naive_solver|]. tauto.
Qed.

Lemma route_listed r : oneOf (textMode (RouteClass_String r)) route_choices = true.
Proof. unfold RouteClass_String. repeat destruct (r =? _); vm_compute; reflexivity. Qed.

Lemma requested_listed m : oneOf (textMode (RequestMode_String m)) [[]; str "json"; str "sse"] = true.
Proof. unfold RequestMode_String. repeat destruct (m =? _); vm_compute; reflexivity. Qed.

Lemma error_listed c : oneOf (textMode (SafeErrorCode_String c)) error_choices = true.
Proof.
  unfold SafeErrorCode_String. destruct (_ <=? c); [vm_compute; reflexivity|].
  destruct (error_names !! Z.to_nat c) as [n|] eqn:E; [|vm_compute; reflexivity]. cbn [default].
  assert (forallb (λ n, oneOf (textMode n) error_choices) error_names = true) as H by (vm_compute; reflexivity).
  apply (proj1 (forallb_forall _ _) H). by apply list_elem_of_In, (list_elem_of_lookup_2 _ (Z.to_nat c)).
Qed.

Lemma delivery_stored u d : (u, d) ∈ delivery_table →
  textMode u = u ∧ textMode d = d ∧ oneOf u mode_choices = true ∧ oneOf d mode_choices = true ∧ modes_conflict [] u d = false.
Proof.
  intros H. assert (forallb (λ p, same (textMode p.1) p.1 && same (textMode p.2) p.2 && oneOf p.1 mode_choices && oneOf p.2 mode_choices &&
    negb (modes_conflict [] p.1 p.2)) delivery_table = true) as Ht by (vm_compute; reflexivity).
  apply list_elem_of_In in H. apply (proj1 (forallb_forall _ _) Ht) in H. cbn [fst snd] in H.
  rewrite !andb_true_iff, !same_spec, negb_true_iff in H. tauto.
Qed.

Lemma requested_stored m u d : requested_delivery m d → modes_conflict [] u d = false → modes_conflict (textMode (RequestMode_String m)) u d = false.
Proof.
  intros Hr Hc. apply requested_delivery_spec in Hr. unfold ResponseModeSSE, ResponseModeJSON in Hr. unfold modes_conflict in *. cbn [same] in Hc.
  rewrite !orb_false_iff in Hc |- *. split_and!; try tauto; unfold RequestMode_String.
  - destruct (m =? RequestModeJSON); cbn [andb orb] in Hr; [|destruct (m =? RequestModeSSE); done].
    apply orb_false_iff in Hr as [-> _]. apply andb_false_r.
  - destruct (m =? RequestModeJSON); [done|]. destruct (m =? RequestModeSSE); [|done]. cbn [andb orb] in Hr.
    rewrite Hr. apply andb_false_r.
Qed.

Lemma outcome_stored t : terminal_consistent t →
  oneOf (textMode (Outcome t)) outcome_choices = true ∧ outcome_conflict (textMode (Outcome t)) (UpstreamStarted t) = false.
Proof.
  intros H. assert (forallb (λ p, oneOf (textMode p.1) outcome_choices && negb (outcome_conflict (textMode p.1) p.2)) outcome_table = true) as Ht
    by (vm_compute; reflexivity).
  apply list_elem_of_In in H. apply (proj1 (forallb_forall _ _) Ht) in H. cbn [fst snd] in H. by rewrite andb_true_iff, negb_true_iff in H.
Qed.

Lemma optional_int_id v : o_known (optional_int v) = o_known v ∧ (o_known v = true → o_value (optional_int v) = o_value v).
Proof. unfold optional_int. by destruct (o_known v). Qed.

Lemma optional_int_nonneg v : o_known (optional_int v) && (o_value (optional_int v) <? 0) = false ↔ known_nonneg v.
Proof. unfold optional_int, known_nonneg. destruct (o_known v); cbn; lia. Qed.

Lemma optional_int_within v : o_known (optional_int v) && ((o_value (optional_int v) <? 0) || (999 <? o_value (optional_int v))) = false ↔ known_within 0 999 v.
Proof. unfold optional_int, known_within. destruct (o_known v); cbn; lia. Qed.

Definition count_nonneg (c : TokenCount) : Prop := tc_known c = true → 0 ≤ tc_value c.
Definition money_nonneg (m : Money) : Prop := Money.known m = true → 0 ≤ micros m.

Lemma count_int_nonneg c : o_known (optional_count_int c) && (o_value (optional_count_int c) <? 0) = false ↔ count_nonneg c.
Proof. unfold optional_count_int, count_nonneg. destruct (tc_known c); cbn; lia. Qed.

Lemma money_int_nonneg m : o_known (optionalMoney m) && (o_value (optionalMoney m) <? 0) = false ↔ money_nonneg m.
Proof. unfold optionalMoney, money_nonneg, Money_Micros. destruct (Money.known m); cbn; lia. Qed.

(** What the history asks of a record besides the record's own validation. *)
Record storable (i : CompletionRecordInput) : Prop := {
  st_texts : not_blank (ci_KeyID i) ∧ not_blank (ci_KeyName i) ∧ not_blank (ci_Method i) ∧ not_blank (ci_Path i) ∧ not_blank (ci_Model i);
  st_identity : ci_KeyID i = [] → ci_KeyName i = [];
  st_headers : known_nonneg (TimeToUpstreamHeaders (ci_Timing i));
  st_usage : count_nonneg (input_count (usage_input (ci_Usage i))) ∧ count_nonneg (output_count (usage_output (ci_Usage i))) ∧
    count_nonneg (total_count (usage_total (ci_Usage i))) ∧ count_nonneg (cached_input_count (usage_cachedInput (ci_Usage i))) ∧
    count_nonneg (reasoning_output_count (usage_reasoningOutput (ci_Usage i)));
  st_cost : money_nonneg (ci_Cost i);
}.

Lemma existsb_cons {A} (f : A → bool) x l : existsb f (x :: l) = f x || existsb f l.
Proof. done. Qed.

Lemma identity_spec (a b : bytes) : same a [] && negb (same b []) = false ↔ (a = [] → b = []).
Proof. rewrite andb_false_iff, negb_false_iff, same_spec. rewrite <- not_true_iff_false, same_spec. destruct (decide (a = [])); tauto. Qed.

Lemma finish_stored a b : o_known (optional_int a) && o_known (optional_int b) && (o_value (optional_int b) <? o_value (optional_int a)) = false ↔
  (o_known a = true → o_known b = true → o_value a ≤ o_value b).
Proof. unfold optional_int. destruct (o_known a), (o_known b); cbn; try tauto; lia. Qed.

Lemma key_agrees a : negb (same a []) && negb (same a []) && negb (same a a) = false.
Proof. unfold same at 3. rewrite (bool_decide_true (a = a)) by done. apply andb_false_r. Qed.

(** C33: The history stores every record, except for five facts only it checks.
    For every record that the completion record's validation accepts, the
    history's own validation of its projection accepts it exactly when no text
    consists of white space only, a key name comes with a key identifier, and
    the time to the upstream headers, the token counts and the cost are not
    negative: the mode, outcome, status, code and route vocabularies of the two
    layers agree. *)
Theorem history_accepts_records i r :
  NewCompletionRecord i = Ok r →
  validateHistoryRecord (normalizeHistoryRecord (historyRecord r)) = None ↔ storable (rec_fields r).
Proof.
  intros (_ & (Hs & Hm & Ht) & ->)%NewCompletionRecord_spec. cbn [rec_fields]. generalize dependent (merged i). clear i. intros i Hs [Hd Hr] Ht.
  destruct (delivery_stored _ _ Hd) as (Eu & Ed & Hu1 & Hd1 & Hc). destruct (outcome_stored _ Ht) as [Ho1 Ho2].
  pose proof (request_id_identifier _ (so_id _ Hs)) as Hid.
  unfold validateHistoryRecord, normalizeHistoryRecord, historyRecord. cbv zeta. cbn [rec_fields h_RequestID h_APIKeyID h_KeyID h_KeyName h_Method h_Path h_Route
    h_Model h_RequestedMode h_UpstreamMode h_DeliveredMode h_DownstreamStatus h_UpstreamStatus h_TerminalOutcome h_UpstreamStarted h_ErrorCode
    h_ClientBytes h_UpstreamBytes h_DeliveredBytes h_InputTokens h_OutputTokens h_TotalTokens h_CachedInputTokens h_ReasoningOutputTokens h_CostMicros
    h_StartedAt h_UpstreamStartedAt h_UpstreamHeadersAt h_FirstByteAt h_FinishedAt h_TotalMicros h_TimeToUpstreamHeadersMicros h_TimeToFirstByteMicros
    h_StreamCloseDelayMicros].
  rewrite Eu, Ed, route_listed, requested_listed, error_listed, Hu1, Hd1, Ho1, Ho2, Hid, (requested_stored _ _ _ Hr Hc). cbn [negb orb].
  change (same [] []) with true. cbn [negb andb].
  assert (∀ a : bytes, (if same a [] then [] else a) = a) as Ek by (intros a; destruct (same a []) eqn:E; [by apply same_spec in E as ->|done]).
  assert (∀ a : bytes, (if same a [] then a else a) = a) as Ek2 by (intros a; by destruct (same a [])).
  rewrite !Ek, ?Ek2, key_agrees. rewrite !if_none, !existsb_cons. cbn [existsb].
  rewrite !orb_false_iff, !negb_false_iff, !optional_int_within, !optional_int_nonneg, !count_int_nonneg, money_int_nonneg, identity_spec.
  destruct (so_key _ Hs) as [Hk Hn]. destruct (so_text _ Hs) as (Hme & Hpa & Hmo).
  rewrite !history_text by (done || by right). rewrite finish_stored.
  split; [intros H; destruct_and! H; constructor; split_and?; done|]. destruct Hs. intros []. destruct_and?. split_and!; done.
Qed.

Lemma history_accepts_records_witness : ∃ r, NewCompletionRecord demo_input = Ok r ∧
  validateHistoryRecord (normalizeHistoryRecord (historyRecord r)) = None ∧ storable (rec_fields r).
Proof.
  eexists. split; [vm_compute; reflexivity|]. split; [vm_compute; reflexivity|].
  apply (history_accepts_records demo_input); vm_compute; reflexivity.
Defined.

(** ** Bodies *)

(** What a recorder bounded by the schema's limit captures is storable. *)
Lemma captured_body_stored kind max o seen :
  validBodyKind kind = true → 0 ≤ max ≤ RequestBodySchemaSafetyMaxBytes → kind ∉ seen →
  is_ok (validate_bodies seen [capture kind max o]) = true.
Proof.
  intros Hk Hm Hs. cbn [validate_bodies]. unfold capture. cbv zeta. cbn [bs_Kind bs_Captured bs_OriginalSize bs_Truncated]. rewrite Hk. cbn [negb].
  destruct (ob_any o); cbn [negb]; [|done]. rewrite bool_decide_false by done. cbn [orb].
  set (p := take (Z.to_nat max) (ob_bytes o)).
  assert (body_length (mkSnapshot kind (if bool_decide (p = []) then if (0 <? max) && true then Some [] else None else Some p)
    (Z.of_nat (length (ob_bytes o))) (Z.of_nat (length p) <? Z.of_nat (length (ob_bytes o))) true) = Z.of_nat (length p)) as ->.
  { unfold body_length. cbn [bs_Bytes]. destruct (bool_decide_reflect (p = [])) as [->|]; [|done]. by destruct (_ && _). }
  assert (Z.of_nat (length p) ≤ max ∧ Z.of_nat (length p) ≤ Z.of_nat (length (ob_bytes o))) as [H1 H2] by (unfold p; rewrite length_take; lia).
  rewrite (proj2 (Z.ltb_ge _ 0)), (proj2 (Z.ltb_ge (Z.of_nat (length (ob_bytes o))) _)), (proj2 (Z.ltb_ge RequestBodySchemaSafetyMaxBytes _)) by lia.
  rewrite Bool.eqb_reflx. done.
Qed.
