(* ===== verification/HistoryWorker.v ===== *)
(** * The history writer ([internal/httpserver/history_worker.go])

    One goroutine persists the jobs of a bounded queue and runs retention
    passes; any number of goroutines submit and shut down.  The worker is a
    program counter with one step per action that others can interleave with;
    the repository's answers, the clock and the choice of [select] are the
    answers a step is given.  Counters stay below 2^64. *)

From Stdlib Require Import Ascii ZArith Lia ZifyBool.
From stdpp Require Import prelude strings list.
From S2P Require Import Prelude Text Utf8 Money Usage Json BodyRecorder CompletionRecord InputSecurity HistoryStore.
Local Open Scope Z_scope.

(** ** Jobs *)

Record HistoryPersistenceJob := mkJob {
  job_Record : CompletionRecord;
  job_Bodies : list BodySnapshot;
  job_Recorders : list (option BodyRecorder);
}.

Definition NewHistoryPersistenceJob (record : CompletionRecord) (bodies : list BodySnapshot) : HistoryPersistenceJob := mkJob record bodies [].

(** The bodies handed to the repository: the snapshots of the recorders, or the bodies. *)
Definition job_bodies (job : HistoryPersistenceJob) : list BodySnapshot :=
  match job_Recorders job with
  | [] => job_Bodies job
  | rs => omap (λ r, match r with Some _ => Some (BodyRecorder_Snapshot r).1 | None => None end) rs
  end.

(** ** Configuration *)

Record options := mkOptions {
  op_Repository : bool; op_Capacity : Z; op_RequestRetention : Z; op_BodyRetention : Z; op_RetentionEveryJobs : Z;
  op_MaxBodyRowsPerPass : Z; op_MaxMetadataRowsPerPass : Z;
}.

Definition defaultHistoryQueueCapacity : Z := 128.
Definition DefaultRequestRetentionSeconds : Z := 30 * 24 * 60 * 60.
Definition DefaultBodyRetentionSeconds : Z := 7 * 24 * 60 * 60.
Definition RetentionPassEveryJobs : Z := 1024.
Definition RetentionMaxBodyRowsPerPass : Z := 1000.
Definition RetentionMaxMetadataRowsPerPass : Z := 1000.
Definition productionHistoryRowsPerPass : Z := 1000.

Definition rows_per_pass (n default : Z) : Z :=
  let n := if n <=? 0 then default else n in if productionHistoryRowsPerPass <? n then productionHistoryRowsPerPass else n.

Definition normalize_options (o : options) : options :=
  mkOptions (op_Repository o)
    (if op_Capacity o <=? 0 then defaultHistoryQueueCapacity else op_Capacity o)
    (if op_RequestRetention o <=? 0 then DefaultRequestRetentionSeconds * second else op_RequestRetention o)
    (if op_BodyRetention o <=? 0 then DefaultBodyRetentionSeconds * second else op_BodyRetention o)
    (if op_RetentionEveryJobs o =? 0 then RetentionPassEveryJobs else op_RetentionEveryJobs o)
    (rows_per_pass (op_MaxBodyRowsPerPass o) RetentionMaxBodyRowsPerPass)
    (rows_per_pass (op_MaxMetadataRowsPerPass o) RetentionMaxMetadataRowsPerPass).

(** ** State *)

(** Where the worker returns to: its loop or its drain. *)
Inductive loop := Running | Draining.

Inductive pc :=
| AtStartup | AtStartupSweep
| AtLoop (l : loop)
| AtJob (job : HistoryPersistenceJob) (l : loop)
| AtTail (l : loop) | AtRetention (l : loop) | AtSweep (l : loop)
| AtDone.

(** The calls of the repository, and what became of a job that left the queue. *)
Inductive call := Persist (record : HistoryRecord) (bodies : list BodySnapshot) | DeleteBodiesBefore (cutoff limit : Z) | DeleteMetadataBefore (cutoff limit : Z).
Inductive fate := Taken | Aborted.

Record worker := mkWorker {
  hw_queue : list HistoryPersistenceJob;
  hw_accepting : bool;
  hw_stopped : bool;
  hw_abort : bool;
  hw_cancelled : bool;
  hw_pc : pc;
  hw_accepted : Z; hw_processed : Z; hw_persisted : Z; hw_persistFailed : Z; hw_retentionFailed : Z; hw_dropped : Z;
  hw_arrived : list HistoryPersistenceJob;                (* every job Submit took, in order *)
  hw_left : list (HistoryPersistenceJob * fate);          (* every job that left the queue, in order *)
  hw_rejected : Z;                                        (* refusals of Submit *)
  hw_calls : list call;
}.

Definition NewHistoryPersistenceWorker : worker := mkWorker [] true false false false AtStartup 0 0 0 0 0 0 [] [] 0 [].

(** The updates of the fields. *)
Definition goto (p : pc) (w : worker) : worker :=
  mkWorker
    (hw_queue w) (hw_accepting w) (hw_stopped w) (hw_abort w) (hw_cancelled w) p (hw_accepted w) (hw_processed w) (hw_persisted w)
    (hw_persistFailed w) (hw_retentionFailed w) (hw_dropped w) (hw_arrived w) (hw_left w) (hw_rejected w) (hw_calls w).

Definition enqueue (job : HistoryPersistenceJob) (w : worker) : worker :=
  mkWorker
    (hw_queue w ++ [job]) (hw_accepting w) (hw_stopped w) (hw_abort w) (hw_cancelled w) (hw_pc w) (hw_accepted w + 1)
    (hw_processed w) (hw_persisted w) (hw_persistFailed w) (hw_retentionFailed w) (hw_dropped w) (hw_arrived w ++ [job])
    (hw_left w) (hw_rejected w) (hw_calls w).

Definition reject (w : worker) : worker :=
  mkWorker
    (hw_queue w) (hw_accepting w) (hw_stopped w) (hw_abort w) (hw_cancelled w) (hw_pc w) (hw_accepted w) (hw_processed w)
    (hw_persisted w) (hw_persistFailed w) (hw_retentionFailed w) (hw_dropped w + 1) (hw_arrived w) (hw_left w) (hw_rejected w + 1)
    (hw_calls w).

Definition take_job (job : HistoryPersistenceJob) (rest : list HistoryPersistenceJob) (l : loop) (w : worker) : worker :=
  mkWorker
    rest (hw_accepting w) (hw_stopped w) (hw_abort w) (hw_cancelled w) (AtJob job l) (hw_accepted w) (hw_processed w + 1)
    (hw_persisted w) (hw_persistFailed w) (hw_retentionFailed w) (hw_dropped w) (hw_arrived w) (hw_left w ++ [(job, Taken)])
    (hw_rejected w) (hw_calls w).

Definition drop_job (job : HistoryPersistenceJob) (rest : list HistoryPersistenceJob) (w : worker) : worker :=
  mkWorker
    rest (hw_accepting w) (hw_stopped w) (hw_abort w) (hw_cancelled w) (hw_pc w) (hw_accepted w) (hw_processed w) (hw_persisted w)
    (hw_persistFailed w) (hw_retentionFailed w) (hw_dropped w + 1) (hw_arrived w) (hw_left w ++ [(job, Aborted)]) (hw_rejected w)
    (hw_calls w).

Definition call_repository (cs : list call) (w : worker) : worker :=
  mkWorker
    (hw_queue w) (hw_accepting w) (hw_stopped w) (hw_abort w) (hw_cancelled w) (hw_pc w) (hw_accepted w) (hw_processed w)
    (hw_persisted w) (hw_persistFailed w) (hw_retentionFailed w) (hw_dropped w) (hw_arrived w) (hw_left w) (hw_rejected w)
    (hw_calls w ++ cs).

Definition count_persisted (w : worker) : worker :=
  mkWorker
    (hw_queue w) (hw_accepting w) (hw_stopped w) (hw_abort w) (hw_cancelled w) (hw_pc w) (hw_accepted w) (hw_processed w)
    (hw_persisted w + 1) (hw_persistFailed w) (hw_retentionFailed w) (hw_dropped w) (hw_arrived w) (hw_left w) (hw_rejected w)
    (hw_calls w).

Definition count_failed (w : worker) : worker :=
  mkWorker
    (hw_queue w) (hw_accepting w) (hw_stopped w) (hw_abort w) (hw_cancelled w) (hw_pc w) (hw_accepted w) (hw_processed w)
    (hw_persisted w) (hw_persistFailed w + 1) (hw_retentionFailed w) (hw_dropped w) (hw_arrived w) (hw_left w) (hw_rejected w)
    (hw_calls w).

Definition count_retention_failed (w : worker) : worker :=
  mkWorker
    (hw_queue w) (hw_accepting w) (hw_stopped w) (hw_abort w) (hw_cancelled w) (hw_pc w) (hw_accepted w) (hw_processed w)
    (hw_persisted w) (hw_persistFailed w) (hw_retentionFailed w + 1) (hw_dropped w) (hw_arrived w) (hw_left w) (hw_rejected w)
    (hw_calls w).

Definition close_admission (w : worker) : worker :=
  mkWorker
    (hw_queue w) false (hw_stopped w) (hw_abort w) (hw_cancelled w) (hw_pc w) (hw_accepted w) (hw_processed w) (hw_persisted w)
    (hw_persistFailed w) (hw_retentionFailed w) (hw_dropped w) (hw_arrived w) (hw_left w) (hw_rejected w) (hw_calls w).

Definition close_stop (w : worker) : worker :=
  mkWorker
    (hw_queue w) (hw_accepting w) true (hw_abort w) (hw_cancelled w) (hw_pc w) (hw_accepted w) (hw_processed w) (hw_persisted w)
    (hw_persistFailed w) (hw_retentionFailed w) (hw_dropped w) (hw_arrived w) (hw_left w) (hw_rejected w) (hw_calls w).

Definition set_abort (w : worker) : worker :=
  mkWorker
    (hw_queue w) (hw_accepting w) (hw_stopped w) true true (hw_pc w) (hw_accepted w) (hw_processed w) (hw_persisted w)
    (hw_persistFailed w) (hw_retentionFailed w) (hw_dropped w) (hw_arrived w) (hw_left w) (hw_rejected w) (hw_calls w).

Definition cancel (w : worker) : worker :=
  mkWorker
    (hw_queue w) (hw_accepting w) (hw_stopped w) (hw_abort w) true (hw_pc w) (hw_accepted w) (hw_processed w) (hw_persisted w)
    (hw_persistFailed w) (hw_retentionFailed w) (hw_dropped w) (hw_arrived w) (hw_left w) (hw_rejected w) (hw_calls w).

Section worker.
Context (o : options).

(** ** Submission *)

(** Under the lock; a full queue makes [select] take its default. *)
Definition Submit (job : HistoryPersistenceJob) (w : worker) : bool * worker :=
  if negb (hw_accepting w) then (false, reject w)
  else if Z.of_nat (length (hw_queue w)) <? op_Capacity o then (true, enqueue job w)
  else (false, reject w).

(** ** The worker *)

(** What the environment answers to a step. *)
Inductive persist_answer := PersistOk | PersistError | PersistPanic.
Inductive sweep_answer := SweepOk | SweepError | SweepPanic.
Record answer := mkAnswer { an_stop_first : bool; an_persist : persist_answer; an_sweep : sweep_answer; an_now : Z }.

(** [now().UTC().Truncate(time.Microsecond)] and the two deletions. *)
Definition truncate_micro (now : Z) : Z := now - (now - zeroTime) mod Microsecond.
Definition sweep_calls (now : Z) : list call :=
  let now := truncate_micro now in
  [DeleteBodiesBefore (now - op_BodyRetention o) (op_MaxBodyRowsPerPass o); DeleteMetadataBefore (now - op_RequestRetention o) (op_MaxMetadataRowsPerPass o)].

(** The beginning of [retentionPass]: it returns at once or goes on to the deletions. *)
Definition retention_begin (sweep next : pc) (w : worker) : worker :=
  if negb (hw_accepting w) || hw_abort w || negb (op_Repository o)
  then goto next (if negb (op_Repository o) && hw_accepting w then count_retention_failed w else w)
  else goto sweep w.

Definition retention_sweep (next : pc) (a : answer) (w : worker) : worker :=
  let w := call_repository (sweep_calls (an_now a)) w in
  match an_sweep a with
  | SweepOk => goto next w
  | SweepError => goto next (count_retention_failed w)
  | SweepPanic => goto next (count_failed w)
  end.

(** [process] from the counting of the job on. *)
Definition persist_job (job : HistoryPersistenceJob) (l : loop) (a : answer) (w : worker) : worker :=
  if op_Repository o then
    let w := call_repository [Persist (historyRecord (job_Record job)) (job_bodies job)] w in
    match an_persist a with
    | PersistOk => goto (AtTail l) (count_persisted w)
    | PersistError => goto (AtTail l) (count_failed w)
    | PersistPanic => goto (AtLoop l) (count_failed w)
    end
  else goto (AtTail l) (count_failed w).

(** [drain]: one turn of its loop. *)
Definition drain_step (w : worker) : worker :=
  match hw_queue w with
  | job :: rest => if hw_abort w then drop_job job rest w else take_job job rest Draining w
  | [] => goto AtDone w
  end.

(** [None]: the worker waits or is done.  A panic of the first retention pass
    would end the process. *)
Definition worker_step (a : answer) (w : worker) : option worker :=
  match hw_pc w with
  | AtStartup => Some (retention_begin AtStartupSweep (AtLoop Running) w)
  | AtStartupSweep => match an_sweep a with SweepPanic => None | _ => Some (retention_sweep (AtLoop Running) a w) end
  | AtLoop Running =>
      match hw_queue w with
      | job :: rest => if hw_stopped w && an_stop_first a then Some (goto (AtLoop Draining) w) else Some (take_job job rest Running w)
      | [] => if hw_stopped w then Some (goto (AtLoop Draining) w) else None
      end
  | AtLoop Draining => Some (drain_step w)
  | AtJob job l => Some (persist_job job l a w)
  | AtTail l =>
      if (hw_processed w mod op_RetentionEveryJobs o =? 0) && hw_accepting w && negb (hw_abort w) then Some (goto (AtRetention l) w)
      else Some (goto (AtLoop l) w)
  | AtRetention l => Some (retention_begin (AtSweep l) (AtLoop l) w)
  | AtSweep l => Some (retention_sweep (AtLoop l) a w)
  | AtDone => None
  end.

(** ** Shutdown and the system *)

(** The steps of [Shutdown] in the order each caller makes them. *)
Inductive event :=
| EvSubmit (job : HistoryPersistenceJob) | EvWork (a : answer)
| EvClose | EvStop | EvDeadline | EvDropQueued | EvJoin.

Definition handle (ev : event) (w : worker) : worker :=
  match ev with
  | EvSubmit job => (Submit job w).2
  | EvWork a => default w (worker_step a w)
  | EvClose => close_admission w
  | EvStop => if hw_accepting w then w else close_stop w
  | EvDeadline => if hw_stopped w then set_abort w else w
  | EvDropQueued => if hw_abort w then match hw_queue w with job :: rest => drop_job job rest w | [] => w end else w
  | EvJoin => match hw_pc w with AtDone => cancel w | _ => w end
  end.

Definition run_worker (evs : list event) (w : worker) : worker := foldl (λ w ev, handle ev w) w evs.

(** ** Nothing is lost or written twice *)

Definition taken (l : list (HistoryPersistenceJob * fate)) : list HistoryPersistenceJob :=
  omap (λ p, match p.2 with Taken => Some p.1 | Aborted => None end) l.
Definition aborted (l : list (HistoryPersistenceJob * fate)) : list HistoryPersistenceJob :=
  omap (λ p, match p.2 with Aborted => Some p.1 | Taken => None end) l.

Definition persist_call (job : HistoryPersistenceJob) : call := Persist (historyRecord (job_Record job)) (job_bodies job).
Definition is_persist (c : call) : bool := match c with Persist _ _ => true | _ => false end.
Definition persists (cs : list call) : list call := List.filter is_persist cs.

#[local] Arguments persists : simpl never.
#[local] Arguments taken : simpl never.
#[local] Arguments aborted : simpl never.

(** The job that has been counted and not yet written. *)
Definition busy (p : pc) : list HistoryPersistenceJob := match p with AtJob job _ => [job] | _ => [] end.

(** The loop a program counter belongs to has been told to stop. *)
Definition draining (p : pc) : bool :=
  match p with AtLoop Draining | AtJob _ Draining | AtTail Draining | AtRetention Draining | AtSweep Draining | AtDone => true | _ => false end.

Record worker_ok (w : worker) : Prop := {
  wo_fifo : (hw_left w).*1 ++ hw_queue w = hw_arrived w;
  wo_bound : Z.of_nat (length (hw_queue w)) ≤ op_Capacity o;
  wo_accepted : hw_accepted w = Z.of_nat (length (hw_arrived w));
  wo_processed : hw_processed w = Z.of_nat (length (taken (hw_left w)));
  wo_dropped : hw_dropped w = hw_rejected w + Z.of_nat (length (aborted (hw_left w)));
  wo_persists : if op_Repository o then persists (hw_calls w) ++ map persist_call (busy (hw_pc w)) = map persist_call (taken (hw_left w))
    else persists (hw_calls w) = [];
  wo_stop : hw_stopped w = true → hw_accepting w = false;
  wo_abort : hw_abort w = true → hw_stopped w = true;
  wo_draining : draining (hw_pc w) = true → hw_stopped w = true;
  wo_done : hw_pc w = AtDone → hw_queue w = [];
  wo_aborted : hw_abort w = false → aborted (hw_left w) = [];
}.

Lemma taken_snoc l job f : taken (l ++ [(job, f)]) = taken l ++ match f with Taken => [job] | Aborted => [] end.
Proof. unfold taken. rewrite omap_app. by destruct f. Qed.
Lemma aborted_snoc l job f : aborted (l ++ [(job, f)]) = aborted l ++ match f with Aborted => [job] | Taken => [] end.
Proof. unfold aborted. rewrite omap_app. by destruct f. Qed.
Lemma persists_app l l' : persists (l ++ l') = persists l ++ persists l'.
Proof. apply List.filter_app. Qed.
Lemma persists_sweep now : persists (sweep_calls now) = [].
Proof. done. Qed.

(** A step that moves the program counter without a job and keeps the rest. *)
Lemma worker_ok_goto p w : worker_ok w → busy (hw_pc w) = [] → busy p = [] → (draining p = true → hw_stopped w = true) →
  (p = AtDone → hw_queue w = []) → worker_ok (goto p w).
Proof. intros [] Hb Hb' Hd Hq. constructor; try done. cbn. by rewrite Hb, Hb' in *. Qed.

Lemma worker_ok_retention_failed w : worker_ok w → worker_ok (count_retention_failed w).
Proof. intros []. by constructor. Qed.
Lemma worker_ok_failed w : worker_ok w → worker_ok (count_failed w).
Proof. intros []. by constructor. Qed.

Lemma worker_ok_take job rest l w : worker_ok w → hw_queue w = job :: rest → busy (hw_pc w) = [] → hw_pc w ≠ AtDone → (l = Draining → hw_stopped w = true) →
  worker_ok (take_job job rest l w).
Proof.
  intros [] Eq Hb Hd Hl. constructor; cbn; try done.
  - rewrite fmap_app, <- (assoc_L (++)). cbn. by rewrite <- Eq.
  - rewrite Eq in wo_bound0. cbn in wo_bound0. lia.
  - rewrite taken_snoc, length_app, wo_processed0. cbn. lia.
  - rewrite aborted_snoc, app_nil_r. done.
  - rewrite taken_snoc, map_app. destruct (op_Repository o); [|done]. rewrite Hb in wo_persists0. cbn in wo_persists0.
    rewrite app_nil_r in wo_persists0. by rewrite wo_persists0.
  - by destruct l; auto.
  - intros Ha. by rewrite aborted_snoc, wo_aborted0.
Qed.

Lemma worker_ok_drop job rest w : worker_ok w → hw_queue w = job :: rest → hw_abort w = true → worker_ok (drop_job job rest w).
Proof.
  intros [] Eq Ha. constructor; cbn; try done.
  - rewrite fmap_app, <- (assoc_L (++)). cbn. by rewrite <- Eq.
  - rewrite Eq in wo_bound0. cbn in wo_bound0. lia.
  - rewrite taken_snoc, length_app, wo_processed0. cbn. lia.
  - rewrite aborted_snoc, length_app, wo_dropped0. cbn. lia.
  - by rewrite taken_snoc, app_nil_r.
  - intros E. rewrite wo_done0 in Eq; done.
  - congruence.
Qed.

Lemma worker_ok_calls cs w : worker_ok w → persists cs = [] → worker_ok (call_repository cs w).
Proof. intros [] Hc. constructor; cbn; try done. by rewrite persists_app, Hc, app_nil_r. Qed.

Lemma retention_begin_ok sweep next w : worker_ok w → busy (hw_pc w) = [] → busy sweep = [] → busy next = [] →
  draining sweep = draining (hw_pc w) → draining next = draining (hw_pc w) → sweep ≠ AtDone → next ≠ AtDone →
  worker_ok (retention_begin sweep next w).
Proof.
  intros H Hb Hs Hn Ds Dn Ns Nn. pose proof (wo_draining _ H) as Hd. unfold retention_begin. destruct (_ || _).
  - destruct (_ && _); apply worker_ok_goto; try done; try (by apply worker_ok_retention_failed); by rewrite Dn.
  - apply worker_ok_goto; try done. by rewrite Ds.
Qed.

Lemma retention_sweep_ok next a w : worker_ok w → busy (hw_pc w) = [] → busy next = [] → draining next = draining (hw_pc w) → next ≠ AtDone →
  worker_ok (retention_sweep next a w).
Proof.
  intros H Hb Hn Dn Nn. pose proof (wo_draining _ H) as Hd. unfold retention_sweep.
  pose proof (worker_ok_calls (sweep_calls (an_now a)) w H (persists_sweep _)) as Hc.
  destruct (an_sweep a); apply worker_ok_goto; try done; try (by rewrite Dn); [by apply worker_ok_retention_failed|by apply worker_ok_failed].
Qed.

Lemma persist_job_ok job l a w : worker_ok w → hw_pc w = AtJob job l → worker_ok (persist_job job l a w).
Proof.
  intros [] Ep. assert (l = Draining → hw_stopped w = true) as Hl by (intros ->; apply wo_draining0; by rewrite Ep).
  rewrite Ep in wo_persists0. unfold persist_job. destruct (op_Repository o) eqn:Er.
  - destruct (an_persist a); constructor; cbn; try done; rewrite ?Er, ?app_nil_r, ?persists_app; cbn in wo_persists0 |- *; try done; destruct l; (done || auto).
  - constructor; cbn; try done; rewrite ?Er; try done; destruct l; (done || auto).
Qed.

Lemma history_worker_step_ok a w w' : worker_ok w → worker_step a w = Some w' → worker_ok w'.
Proof.
  intros H. pose proof (wo_draining _ H) as Hd. unfold worker_step. destruct (hw_pc w) as [| |[]|job l|l|l|l|] eqn:Ep.
  - intros [= <-]. apply retention_begin_ok; rewrite ?Ep; done.
  - destruct (an_sweep a) eqn:?; intros [= <-]; apply retention_sweep_ok; rewrite ?Ep; done.
  - destruct (hw_queue w) as [|job rest] eqn:Eq.
    + destruct (hw_stopped w) eqn:Es; [|done]. intros [= <-]. apply worker_ok_goto; rewrite ?Ep; done.
    + destruct (hw_stopped w && an_stop_first a) eqn:Es; intros [= <-].
      * apply andb_true_iff in Es as [Es _]. apply worker_ok_goto; rewrite ?Ep; done.
      * apply worker_ok_take; rewrite ?Ep; done.
  - intros [= <-]. unfold drain_step. destruct (hw_queue w) as [|job rest] eqn:Eq.
    + apply worker_ok_goto; rewrite ?Ep; done.
    + destruct (hw_abort w) eqn:Ea; [by apply worker_ok_drop|]. apply worker_ok_take; rewrite ?Ep; auto.
  - intros [= <-]. by apply persist_job_ok.
  - destruct (_ && _ && _); intros [= <-]; apply worker_ok_goto; rewrite ?Ep; try done; by destruct l.
  - intros [= <-]. apply retention_begin_ok; rewrite ?Ep; try done; by destruct l.
  - intros [= <-]. apply retention_sweep_ok; rewrite ?Ep; try done; by destruct l.
  - done.
Qed.

Lemma Submit_ok job w : worker_ok w → worker_ok (Submit job w).2.
Proof.
  intros H. unfold Submit. assert (worker_ok (reject w)) as Hr by (destruct H; constructor; cbn; try done; lia).
  destruct (hw_accepting w) eqn:Ea; cbn [negb]; [|done]. destruct (Z.ltb_spec (Z.of_nat (length (hw_queue w))) (op_Capacity o)); [|done].
  destruct H. cbn [snd]. constructor; cbn; try done; rewrite ?length_app; cbn; try lia.
  - by rewrite (assoc_L (++)), wo_fifo0.
  - intros E. specialize (wo_draining0 ltac:(by rewrite E)). by rewrite wo_stop0 in Ea.
Qed.

Lemma history_handle_ok ev w : worker_ok w → worker_ok (handle ev w).
Proof.
  intros H. destruct ev as [job|a| | | | |]; cbn [handle].
  - by apply Submit_ok.
  - destruct (worker_step a w) as [w'|] eqn:E; [|done]. by apply (history_worker_step_ok a w).
  - destruct H. by constructor.
  - destruct (hw_accepting w) eqn:Ea; [done|]. destruct H. by constructor.
  - destruct (hw_stopped w) eqn:Es; [|done]. destruct H. by constructor.
  - destruct (hw_abort w) eqn:Ea; [|done]. destruct (hw_queue w) as [|job rest] eqn:Eq; [done|]. by apply worker_ok_drop.
  - destruct (hw_pc w) eqn:Ep; try done. destruct H. by constructor.
Qed.

Lemma run_history_worker_ok evs w : worker_ok w → worker_ok (run_worker evs w).
Proof. revert w. unfold run_worker. induction evs as [|ev evs IH]; intros w H; [done|]. cbn. by apply IH, history_handle_ok. Qed.

Lemma new_history_worker_ok : 0 ≤ op_Capacity o → worker_ok NewHistoryPersistenceWorker.
Proof. intros H. constructor; try done. by destruct (op_Repository o). Qed.

(** A finished worker does nothing more. *)
Lemma handle_done ev w : worker_ok w → hw_pc w = AtDone →
  let w' := handle ev w in
  hw_pc w' = AtDone ∧ hw_calls w' = hw_calls w ∧ hw_left w' = hw_left w ∧ hw_arrived w' = hw_arrived w.
Proof.
  intros H Ep. pose proof (wo_done _ H Ep) as Eq. pose proof (wo_stop _ H (wo_draining _ H ltac:(by rewrite Ep))) as Ea.
  destruct ev; cbn [handle]; unfold Submit, worker_step; rewrite ?Ep, ?Ea, ?Eq; try done; [by destruct (hw_stopped w)|by destruct (hw_abort w)].
Qed.

Lemma run_worker_done evs w : worker_ok w → hw_pc w = AtDone →
  let w' := run_worker evs w in hw_calls w' = hw_calls w ∧ hw_left w' = hw_left w ∧ hw_arrived w' = hw_arrived w.
Proof.
  revert w. unfold run_worker. induction evs as [|ev evs IH]; intros w H Ep; [done|]. cbn [foldl].
  destruct (handle_done ev w H Ep) as (Ep' & E1 & E2 & E3). destruct (IH _ (history_handle_ok ev w H) Ep') as (F1 & F2 & F3).
  cbv zeta in *. by rewrite F1, F2, F3.
Qed.

Lemma taken_all l : aborted l = [] → taken l = l.*1.
Proof.
  induction l as [|[job []] l IH]; [done| |done]. unfold taken, aborted in *. cbn. intros H. by rewrite IH.
Qed.

Lemma left_fates l : l.*1 ≡ₚ taken l ++ aborted l.
Proof.
  induction l as [|[job []] l IH]; [done|..]; unfold taken, aborted in *; cbn in *; rewrite IH; [done|]. by rewrite Permutation_middle.
Qed.

End worker.

(** C31: What becomes of the history jobs.  Under every interleaving of
    submissions, worker steps, shutdowns and deadlines, with any answers of the
    repository: the jobs that left the queue followed by the queued ones are
    exactly the accepted ones in their order; so each accepted job is taken by
    the worker, dropped or queued, and dropped ones exist only once the deadline
    of a shutdown has passed; the queue never exceeds its capacity, and the
    counters count exactly the accepted, taken and dropped jobs.  The repository,
    where there is one, has been asked to persist exactly the taken jobs, each
    once and in order, except the one being written; without a repository
    nothing is persisted.  Once the worker is done the queue is empty, no
    repository call follows, and with a repository and without a deadline it
    has been asked to persist every accepted job. *)
Theorem history_jobs_conserved opts evs :
  let o := normalize_options opts in
  let w := run_worker o evs NewHistoryPersistenceWorker in
  (hw_left w).*1 ++ hw_queue w = hw_arrived w ∧
  hw_arrived w ≡ₚ taken (hw_left w) ++ aborted (hw_left w) ++ hw_queue w ∧
  (aborted (hw_left w) ≠ [] → hw_abort w = true ∧ hw_accepting w = false) ∧
  Z.of_nat (length (hw_queue w)) ≤ op_Capacity o ∧
  hw_accepted w = Z.of_nat (length (hw_arrived w)) ∧
  hw_processed w = Z.of_nat (length (taken (hw_left w))) ∧
  hw_dropped w = hw_rejected w + Z.of_nat (length (aborted (hw_left w))) ∧
  (if op_Repository o then persists (hw_calls w) ++ map persist_call (busy (hw_pc w)) = map persist_call (taken (hw_left w))
   else persists (hw_calls w) = []) ∧
  (hw_pc w = AtDone →
    hw_queue w = [] ∧
    (∀ evs', hw_calls (run_worker o evs' w) = hw_calls w ∧ hw_arrived (run_worker o evs' w) = hw_arrived w) ∧
    (hw_abort w = false → op_Repository o = true → persists (hw_calls w) = map persist_call (hw_arrived w))).
Proof.
  cbv zeta. set (o := normalize_options opts). assert (0 ≤ op_Capacity o) as Hc.
  { unfold o, normalize_options, defaultHistoryQueueCapacity. cbn. destruct (Z.leb_spec (op_Capacity opts) 0); lia. }
  pose proof (run_history_worker_ok o evs _ (new_history_worker_ok o Hc)) as H. set (w := run_worker o evs _) in *. clearbody w.
  pose proof H as []. split_and!; try done.
  { by rewrite <-wo_fifo0, left_fates, (assoc_L (++)). }
  { intros Hne. destruct (hw_abort w) eqn:Ea; [|by rewrite wo_aborted0 in Hne]. split; [done|]. by apply wo_stop0, wo_abort0. }
  intros Ep. pose proof (wo_done0 Ep) as Eq. split_and!; [done| |].
  - intros evs'. destruct (run_worker_done o evs' w H Ep) as (E1 & _ & E2). done.
  - intros Ha Hr. rewrite Hr, Ep in wo_persists0. cbn [busy map] in wo_persists0. rewrite app_nil_r in wo_persists0. rewrite wo_persists0.
    rewrite <- wo_fifo0, Eq, app_nil_r, taken_all by auto. done.
Qed.

(** ** Retention passes are well formed *)

Lemma rows_per_pass_range n d : 0 < d ≤ productionHistoryRowsPerPass → 0 < rows_per_pass n d ≤ productionHistoryRowsPerPass.
Proof. unfold rows_per_pass, productionHistoryRowsPerPass. intros H. destruct (Z.leb_spec n 0); [destruct (Z.ltb_spec 1000 d)|destruct (Z.ltb_spec 1000 n)]; lia. Qed.

Lemma cutoff_valid now r rows : r mod Microsecond = 0 → 0 < rows → truncate_micro now - r ≠ zeroTime →
  validateRetentionArgs (truncate_micro now - r) rows = None.
Proof.
  intros Hr Hrows Hz. unfold validateRetentionArgs, IsZero. rewrite (proj2 (Z.eqb_neq _ _) Hz). cbn [orb].
  assert (Z.rem (Nanosecond (truncate_micro now - r)) 1000 = 0) as ->.
  { unfold truncate_micro, Nanosecond, Microsecond, second, zeroTime in *. div_lia. }
  cbn. destruct (Z.leb_spec rows 0); [lia|done].
Qed.

(** With retention periods of whole microseconds, both deletions of a pass
    satisfy the repository's checks of cutoff and row limit. *)
Lemma sweep_calls_valid opts now : op_BodyRetention opts mod Microsecond = 0 → op_RequestRetention opts mod Microsecond = 0 →
  Forall (λ c, match c with
    | DeleteBodiesBefore cutoff rows | DeleteMetadataBefore cutoff rows => cutoff = zeroTime ∨ validateRetentionArgs cutoff rows = None
    | Persist _ _ => False end) (sweep_calls (normalize_options opts) now).
Proof.
  intros Hb Hm.
  assert (∀ x d, x mod Microsecond = 0 → d mod Microsecond = 0 → (if x <=? 0 then d else x) mod Microsecond = 0) as Hi
    by (intros x d ? ?; by destruct (x <=? 0)).
  assert (∀ r rows, r mod Microsecond = 0 → 0 < rows → truncate_micro now - r = zeroTime ∨ validateRetentionArgs (truncate_micro now - r) rows = None) as Hv.
  { intros r rows Hr Hrows. destruct (decide (truncate_micro now - r = zeroTime)); [by left|right]. by apply cutoff_valid. }
  unfold sweep_calls, normalize_options. cbv zeta. cbn [op_BodyRetention op_RequestRetention op_MaxBodyRowsPerPass op_MaxMetadataRowsPerPass].
  apply Forall_cons_2; [|apply Forall_cons_2; [|constructor]]; (apply Hv; [by apply Hi|by apply rows_per_pass_range]).
Qed.
