(* ===== verification/CompletionOwnership.v ===== *)
(** * Who emits the record of a request ([internal/httpserver/completion_ownership.go])

    The request handler and the deferred observation of its response share one
    ownership object; whichever comes last emits the final record.  Each method
    runs a critical section under the lock and does the emission after it, so
    an emission in progress is a process of its own whose steps interleave with
    everything else.  The terminal metadata of [completion.go] is here too. *)

From Stdlib Require Import Ascii ZArith Lia ZifyBool.
From stdpp Require Import prelude strings list.
From S2P Require Import Prelude Text Utf8 Money Usage Json JsonCodec ChatRender BodyRecorder CompletionRecord Trace InputSecurity HistoryStore HistoryWorker.
Local Open Scope Z_scope.

#[local] Arguments str : simpl never.

(** ** Terminal metadata *)

Definition newTerminalMetadataState : TerminalMetadata := mkTerminal TerminalOutcomeUnknown false.

Definition terminalMetadataState_set (metadata state : TerminalMetadata) : TerminalMetadata :=
  if negb (same (Outcome state) TerminalOutcomeUnknown) && negb (same (Outcome metadata) TerminalOutcomeCancelled && UpstreamStarted state)
  then state else metadata.

(** [get] of a nil state. *)
Definition terminalMetadataState_get (state : option TerminalMetadata) : TerminalMetadata :=
  match state with None => mkTerminal TerminalOutcomeUnknown false | Some m => m end.

(** ** Ownership *)

Record completionOwnership := mkOwnership {
  completed : bool;
  transferred : bool;
  enriched : bool;
  finalized : bool;
  own_usage : Usage.Usage;
  own_cost : Money;
  lastMeaningfulMono : Z;
  meaningfulKnown : bool;
  timingInvalid : bool;
}.

Definition newCompletionOwnership : completionOwnership := mkOwnership false false false false zeroUsage UnknownMoney zeroTime false false.

Definition transfer (o : completionOwnership) : bool * completionOwnership :=
  if completed o || finalized o then (false, o)
  else (true, mkOwnership (completed o) true (enriched o) (finalized o) (own_usage o) (own_cost o) (lastMeaningfulMono o) (meaningfulKnown o)
                (timingInvalid o)).

(** The critical section of [finishWithTiming]; the flag says that the caller emits. *)
Definition finishLocked (usage : Usage.Usage) (cost : Money) (lastMeaningful : Z) (timingKnown : bool) (o : completionOwnership)
  : bool * completionOwnership :=
  if enriched o || finalized o then (false, o)
  else
    let timed := timingKnown && negb (IsZero lastMeaningful) in
    let last := if timed then lastMeaningful else lastMeaningfulMono o in
    let known := if timed then true else meaningfulKnown o in
    let invalid := if timed then timingInvalid o else true in
    if negb (completed o) then (false, mkOwnership (completed o) (transferred o) true (finalized o) usage cost last known invalid)
    else (true, mkOwnership (completed o) (transferred o) true true usage cost last known invalid).

(** The critical section of [complete], with what is to be emitted. *)
Definition completeOwnership (o : completionOwnership) : option (Usage.Usage * Money) * completionOwnership :=
  if completed o || finalized o then (None, o)
  else
    let emits := negb (transferred o) || enriched o in
    (if emits then Some (own_usage o, own_cost o) else None,
     mkOwnership true (transferred o) (enriched o) (if emits then true else finalized o) (own_usage o) (own_cost o) (lastMeaningfulMono o)
       (meaningfulKnown o) (timingInvalid o)).

Definition observeMeaningfulEvent (at_ : Z) (o : completionOwnership) : completionOwnership :=
  if IsZero at_ then o
  else if meaningfulKnown o && Before at_ (lastMeaningfulMono o)
  then mkOwnership (completed o) (transferred o) (enriched o) (finalized o) (own_usage o) (own_cost o) (lastMeaningfulMono o) (meaningfulKnown o) true
  else mkOwnership (completed o) (transferred o) (enriched o) (finalized o) (own_usage o) (own_cost o) at_ true (timingInvalid o).

Definition finishedMonotonic (trace : RequestTraceState) : Z := finishedMono (core trace).

Definition streamCloseDelay (trace : RequestTraceState) (o : completionOwnership) : DurationMicros :=
  if timingInvalid o || negb (meaningfulKnown o) then unknown else durationMicros (lastMeaningfulMono o) (finishedMonotonic trace).

(** ** Emission

    The steps of [emit] in order, each under the lock of the trace: the
    enrichment that is known, the final record, and its delivery to the sinks
    together with the finalized recorders. *)

Inductive stage := Delay | Usages | Costs | Timings | Finals.

Record emission := mkEmission { em_stage : stage; em_usage : Usage.Usage; em_cost : Money; em_delay : DurationMicros }.

Definition recorders (trace : RequestTraceState) : list (option BodyRecorder) :=
  let present (r : option BodyRecorder) := match r with Some _ => [r] | None => [] end in
  let '(client, upstream) := requestBodyRecordersForHandoff (bodies trace) in
  present client ++ present upstream ++ present (responseBodyRecorderForHandoff (bodies trace)).

(** One step: the emission that remains or what it delivered, and the trace. *)
Definition emit_step (clock : Z * Z) (o : completionOwnership) (trace : RequestTraceState) (e : emission)
  : (emission + option HistoryPersistenceJob) * RequestTraceState :=
  let next stage delay trace := (inl (mkEmission stage (em_usage e) (em_cost e) delay), trace) in
  match em_stage e with
  | Delay => next Usages (streamCloseDelay trace o) trace
  | Usages => next Costs (em_delay e) (if usage_known (em_usage e) then (SetUsage (em_usage e) trace).2 else trace)
  | Costs => next Timings (em_delay e) (if Money_Known (em_cost e) then (SetCost (em_cost e) trace).2 else trace)
  | Timings =>
      next Finals (em_delay e)
        (if o_known (em_delay e)
         then (SetTimingEnrichment (mkTiming unknown unknown unknown unknown unknown unknown unknown unknown (em_delay e)) trace).2 else trace)
  | Finals =>
      let '(record, trace) := Final clock trace in
      (inr (match record with Some r => Some (mkJob r [] (recorders trace)) | None => None end), trace)
  end.

(** ** The system

    [sy_delivered] has an entry for each emission that has run to its end: the
    job handed to the sinks, or [None] when the trace gave no valid record, in
    which case nothing is handed on. *)

Record system := mkSystem {
  sy_owner : completionOwnership;
  sy_trace : RequestTraceState;
  sy_pending : list emission;
  sy_delivered : list (option HistoryPersistenceJob);
}.

Inductive event :=
| EvTransfer | EvFinish (usage : Usage.Usage) (cost : Money) (lastMeaningful : Z) (timingKnown : bool) | EvComplete
| EvMeaningful (at_ : Z) | EvTrace (op : trace_op) (clock : Z * Z) | EvEmit (n : nat) (clock : Z * Z).

Definition starts (e : option (Usage.Usage * Money)) : list emission :=
  match e with Some (u, c) => [mkEmission Delay u c unknown] | None => [] end.

Definition handle (ev : event) (y : system) : system :=
  match ev with
  | EvTransfer => mkSystem (transfer (sy_owner y)).2 (sy_trace y) (sy_pending y) (sy_delivered y)
  | EvFinish u c at_ known =>
      let '(emits, o) := finishLocked u c at_ known (sy_owner y) in
      mkSystem o (sy_trace y) (sy_pending y ++ starts (if emits then Some (u, c) else None)) (sy_delivered y)
  | EvComplete =>
      let '(emits, o) := completeOwnership (sy_owner y) in
      mkSystem o (sy_trace y) (sy_pending y ++ starts emits) (sy_delivered y)
  | EvMeaningful at_ => mkSystem (observeMeaningfulEvent at_ (sy_owner y)) (sy_trace y) (sy_pending y) (sy_delivered y)
  | EvTrace op clock => mkSystem (sy_owner y) (perform_op op clock (sy_trace y)) (sy_pending y) (sy_delivered y)
  | EvEmit n clock =>
      match sy_pending y !! n with
      | None => y
      | Some e =>
          match emit_step clock (sy_owner y) (sy_trace y) e with
          | (inl e', trace) => mkSystem (sy_owner y) trace (<[n := e']> (sy_pending y)) (sy_delivered y)
          | (inr job, trace) => mkSystem (sy_owner y) trace (delete n (sy_pending y)) (sy_delivered y ++ [job])
          end
      end
  end.

Definition run_system (evs : list event) (y : system) : system := foldl (λ y ev, handle ev y) y evs.

(** ** Exactly one emission *)

(** The emission has been started. *)
Definition emits (o : completionOwnership) : bool := completed o && (negb (transferred o) || enriched o).

Definition final_of (trace : RequestTraceState) (record : option CompletionRecord) : Prop :=
  ∀ ops clock, (Final clock (run_trace ops trace)).1 = record.

Record system_ok (y : system) : Prop := {
  yo_final : finalized (sy_owner y) = emits (sy_owner y);
  yo_count : (length (sy_pending y) + length (sy_delivered y))%nat = (if emits (sy_owner y) then 1 else 0)%nat;
  yo_payload : Forall (λ e, em_usage e = own_usage (sy_owner y) ∧ em_cost e = own_cost (sy_owner y)) (sy_pending y);
  yo_delivered : Forall (λ j, final_of (sy_trace y) (job_Record <$> j)) (sy_delivered y);
}.

Lemma final_of_run ops t r : final_of t r → final_of (run_trace ops t) r.
Proof. intros H ops' clock. specialize (H (ops ++ ops') clock). unfold run_trace in *. by rewrite foldl_app in H. Qed.

Lemma final_of_op op clock t r : final_of t r → final_of (perform_op op clock t) r.
Proof. apply (final_of_run [(op, clock)]). Qed.

(** Every step of an emission is an operation on the trace. *)
Lemma emit_step_trace clock o t e : ∃ ops, (emit_step clock o t e).2 = run_trace ops t.
Proof.
  unfold emit_step. destruct (em_stage e).
  - by exists [].
  - destruct (usage_known _); [by exists [(OpUsage (em_usage e), clock)]|by exists []].
  - destruct (Money_Known _); [by exists [(OpCost (em_cost e), clock)]|by exists []].
  - destruct (o_known _); [|by exists []].
    by exists [(OpTiming (mkTiming unknown unknown unknown unknown unknown unknown unknown unknown (em_delay e)), clock)].
  - exists [(OpFinal, clock)]. unfold run_trace. cbn [foldl perform_op fst snd]. by destruct (Final clock t).
Qed.

Lemma emit_step_final clock o t e job t' : emit_step clock o t e = (inr job, t') → final_of t' (job_Record <$> job).
Proof.
  unfold emit_step. destruct (em_stage e); try done. destruct (Final clock t) as [r t1] eqn:E. intros [= <- <-] ops clock'.
  assert (t1 = (Final clock t).2) as -> by (by rewrite E). rewrite Final_again, E. by destruct r.
Qed.

Lemma emit_step_payload clock o t e e' t' : emit_step clock o t e = (inl e', t') → em_usage e' = em_usage e ∧ em_cost e' = em_cost e.
Proof. unfold emit_step. destruct (em_stage e); try (by intros [= <- _]). by destruct (Final clock t). Qed.

(** Nothing is pending before the emission has been started. *)
Lemma no_emission y : system_ok y → emits (sy_owner y) = false → sy_pending y = [] ∧ sy_delivered y = [].
Proof. intros [_ Hc _ _] He. rewrite He in Hc. destruct (sy_pending y), (sy_delivered y); done. Qed.

Lemma system_ok_start o t (p : option (Usage.Usage * Money)) :
  finalized o = emits o → match p with Some q => q = (own_usage o, own_cost o) | None => True end →
  (if emits o then p ≠ None else p = None) → system_ok (mkSystem o t (starts p) []).
Proof.
  intros Hf Hp He. constructor; cbn; [done| | |constructor].
  - destruct (emits o), p as [[]|]; done.
  - destruct p as [[u c]|]; [|constructor]. injection Hp as -> ->. by repeat constructor.
Qed.

Lemma ownership_handle_ok ev y : system_ok y → system_ok (handle ev y).
Proof.
  intros H. pose proof H as [Hf Hc Hp Hd]. pose proof (no_emission y H) as Hno. unfold emits in *.
  destruct ev as [|u c at_ known| |at_|op clock|n clock]; cbn [handle].
  - unfold transfer. destruct (completed (sy_owner y)) eqn:E1; cbn [orb]; [by destruct y|].
    rewrite Hf. cbn [andb orb]. destruct Hno as [Ep Ed]; [done|]. constructor; unfold emits; cbn; rewrite ?E1; try done; by rewrite ?Ep, ?Ed.
  - unfold finishLocked. destruct (enriched (sy_owner y)) eqn:E2; cbn [orb].
    { cbn. rewrite app_nil_r. by destruct y. }
    destruct (finalized (sy_owner y)) eqn:E3; cbn [orb]; [cbn; rewrite app_nil_r; by destruct y|].
    destruct Hno as [Ep Ed]; [done|]. rewrite Ep, Ed. cbv zeta.
    destruct (completed (sy_owner y)) eqn:E1; cbn [negb app]; apply system_ok_start; unfold emits; cbn; rewrite ?E1, ?orb_true_r; done.
  - unfold completeOwnership. destruct (completed (sy_owner y)) eqn:E1; cbn [orb]; [cbn; rewrite app_nil_r; by destruct y|].
    rewrite Hf. cbn [andb orb]. destruct Hno as [Ep Ed]; [done|]. rewrite Ep, Ed. cbv zeta. cbn [app].
    apply system_ok_start; unfold emits; cbn; destruct (negb _ || _) eqn:E4; cbn; rewrite ?E4; done.
  - unfold observeMeaningfulEvent. destruct (IsZero at_); [by destruct y|].
    destruct (meaningfulKnown _ && _); (constructor; [exact Hf|exact Hc|exact Hp|exact Hd]).
  - constructor; cbn; try done. eapply Forall_impl; [exact Hd|]. intros j. apply final_of_op.
  - destruct (sy_pending y !! n) as [e|] eqn:En; [|done]. destruct (emit_step clock (sy_owner y) (sy_trace y) e) as [[e'|job] t] eqn:Es.
    + destruct (emit_step_trace clock (sy_owner y) (sy_trace y) e) as [ops Et]. rewrite Es in Et. cbn in Et. subst t.
      destruct (emit_step_payload _ _ _ _ _ _ Es) as [Eu Ec]. constructor; cbn; [done|by rewrite length_insert| |].
      * apply Forall_insert; [done|]. rewrite Eu, Ec. by apply (Forall_lookup_1 _ _ _ _ Hp En).
      * eapply Forall_impl; [exact Hd|]. intros j. apply final_of_run.
    + pose proof (emit_step_final _ _ _ _ _ _ Es) as Hj.
      destruct (emit_step_trace clock (sy_owner y) (sy_trace y) e) as [ops Et]. rewrite Es in Et. cbn in Et. subst t.
      pose proof (lookup_lt_Some _ _ _ En). constructor; cbn; [done| | |].
      * rewrite length_delete by eauto. rewrite length_app. cbn. unfold emits. rewrite <- Hc. lia.
      * by apply Forall_delete.
      * apply Forall_app. split; [|by repeat constructor]. eapply Forall_impl; [exact Hd|]. intros j. apply final_of_run.
Qed.

Lemma run_system_ok evs y : system_ok y → system_ok (run_system evs y).
Proof. revert y. unfold run_system. induction evs as [|ev evs IH]; intros y H; [done|]. cbn. by apply IH, ownership_handle_ok. Qed.

(** ** An emission takes five steps *)

Definition steps_left (e : emission) : nat :=
  match em_stage e with Delay => 5 | Usages => 4 | Costs => 3 | Timings => 2 | Finals => 1 end.

Lemma emit_progress clock y e : sy_pending y = [e] →
  let y' := handle (EvEmit 0 clock) y in
  sy_owner y' = sy_owner y ∧
  ((∃ e', sy_pending y' = [e'] ∧ sy_delivered y' = sy_delivered y ∧ steps_left e = S (steps_left e')) ∨
   (steps_left e = 1%nat ∧ sy_pending y' = [] ∧ ∃ job, sy_delivered y' = sy_delivered y ++ [job])).
Proof.
  intros Ep. cbn [handle]. rewrite Ep. cbn [lookup list_lookup]. unfold emit_step, steps_left. destruct (em_stage e); cbv zeta;
    try (split; [done|]; left; eexists; split_and!; done).
  destruct (Final clock (sy_trace y)) as [r t]. split; [done|]. right. split_and!; [done|done|]. by eexists.
Qed.

Lemma emit_nothing n clock y : sy_pending y = [] → run_system (replicate n (EvEmit 0 clock)) y = y.
Proof. intros Ep. unfold run_system. induction n as [|n IH]; [done|]. cbn [replicate foldl handle]. by rewrite Ep. Qed.

Lemma emission_finishes n clock y e : sy_pending y = [e] → (steps_left e ≤ n)%nat →
  let y' := run_system (replicate n (EvEmit 0 clock)) y in
  sy_owner y' = sy_owner y ∧ sy_pending y' = [] ∧ length (sy_delivered y') = S (length (sy_delivered y)).
Proof.
  revert y e. induction n as [|n IH]; intros y e Ep Hn; [unfold steps_left in Hn; destruct (em_stage e); lia|].
  unfold run_system. cbn [replicate foldl]. destruct (emit_progress clock y e Ep) as [Eo H]. set (y1 := handle _ y) in *. clearbody y1.
  destruct H as [(e' & Ep' & Ed & Es)|(_ & Ep' & job & Ed)].
  - destruct (IH y1 e' Ep') as (H1 & H2 & H3); [lia|]. unfold run_system in *. cbv zeta in *. rewrite H1, H2, H3, Eo, Ed. done.
  - pose proof (emit_nothing n clock y1 Ep') as En. unfold run_system in En. rewrite En, Eo, Ep', Ed, length_app. cbn. split_and!; [done|done|lia].
Qed.

(** C21: The record of a request is emitted exactly once, by whichever of
    handler and observation comes last.  Under every interleaving of transfers,
    finishes, completions, meaningful events, operations on the trace and steps
    of the emissions, exactly one emission has been started if the handler has
    completed and either kept the ownership or the observation has finished,
    and none otherwise; a started emission always delivers after five of its
    own steps; and what was delivered is the final record of the trace, which
    every later call returns. *)
Theorem completion_emitted_once trace evs :
  let y := run_system evs (mkSystem newCompletionOwnership trace [] []) in
  let o := sy_owner y in
  let started := if completed o && (negb (transferred o) || enriched o) then 1%nat else 0%nat in
  (length (sy_pending y) + length (sy_delivered y))%nat = started ∧
  (∀ clock, length (sy_delivered (run_system (replicate 5 (EvEmit 0 clock)) y)) = started) ∧
  (∀ job clock, job ∈ sy_delivered y → (Final clock (sy_trace y)).1 = job_Record <$> job).
Proof.
  cbv zeta. set (y := run_system evs _). assert (system_ok y) as H by (apply run_system_ok; constructor; constructor).
  clearbody y. pose proof H as [_ Hc _ Hd]. unfold emits in Hc. split_and!; [done| |].
  - intros clock. set (b := completed _ && _) in *. clearbody b. destruct (sy_pending y) as [|e [|]] eqn:Ep.
    + by rewrite emit_nothing.
    + destruct (emission_finishes 5 clock y e Ep) as (_ & _ & ->); [unfold steps_left; destruct (em_stage e); lia|]. cbn in Hc. lia.
    + cbn in Hc. destruct b; lia.
  - intros job clock Hj. rewrite Forall_forall in Hd. apply (Hd job Hj []).
Qed.
