(* ===== verification/CompletionLogger.v ===== *)
(** * The completion log and the request lifecycle ([completion.go], [lifecycle.go])

    Completion records go through a bounded queue to one worker that writes
    them; [Enqueue] does not lock, so each call is a thread of four steps that
    interleave with the worker and with shutdowns.  The attributes of a log
    line are a list of named scalars. *)

From Stdlib Require Import Ascii ZArith Lia ZifyBool.
From stdpp Require Import prelude strings list.
From S2P Require Import Prelude Text Utf8 Money Usage Json CompletionRecord Trace.
Local Open Scope Z_scope.

#[local] Arguments str : simpl never.

(** ** The attributes of a line *)

Inductive attr_value := AString (s : bytes) | AInt (n : Z) | ABool (b : bool).
Abbreviation attr := (bytes * attr_value)%type.

Definition when (b : bool) (key : bytes) (v : attr_value) : list attr := if b then [(key, v)] else [].
Definition appendTraceCount (key : bytes) (v : optional) : list attr := when (o_known v) key (AInt (o_value v)).
Definition appendTokenCount (key : bytes) (c : TokenCount) : list attr := when (tc_known c) key (AInt (tc_value c)).
Definition text_attr (key s : bytes) (max : Z) : list attr := when (validBoundedText s max && negb (same s [])) key (AString s).
Definition mode_attr (key mode : bytes) : list attr := when (validResponseMode mode && negb (same mode ResponseModeUnknown)) key (AString mode).

Definition completionLogAttrs (record : CompletionRecord) : list attr :=
  let i := rec_fields record in
  let u := ci_Usage i in
  let t := ci_Timing i in
  when (validRequestID (ci_RequestID i)) (str "request_id") (AString (ci_RequestID i)) ++
  text_attr (str "method") (ci_Method i) 32 ++ text_attr (str "path") (ci_Path i) 2048 ++
  when ((RouteClassUnknown <? ci_Route i) && (ci_Route i <=? RouteClassAdmin)) (str "route") (AString (RouteClass_String (ci_Route i))) ++
  text_attr (str "model") (ci_Model i) 512 ++ text_attr (str "key_name") (ci_KeyName i) 256 ++
  when ((ci_RequestedMode i =? RequestModeJSON) || (ci_RequestedMode i =? RequestModeSSE)) (str "requested_mode")
    (AString (RequestMode_String (ci_RequestedMode i))) ++
  mode_attr (str "upstream_mode") (ci_UpstreamMode i) ++ mode_attr (str "delivered_mode") (ci_DeliveredMode i) ++
  appendTraceCount (str "status") (ci_DownstreamStatus i) ++ appendTraceCount (str "downstream_status") (ci_DownstreamStatus i) ++
  appendTraceCount (str "upstream_status") (ci_UpstreamStatus i) ++
  when (negb (same (Outcome (ci_Terminal i)) TerminalOutcomeUnknown) && validTerminalOutcome (Outcome (ci_Terminal i))) (str "terminal_outcome")
    (AString (Outcome (ci_Terminal i))) ++
  [(str "upstream_started", ABool (UpstreamStarted (ci_Terminal i)))] ++
  when (negb (ci_ErrorCode i =? ErrorCodeUnknown) && validErrorCode (ci_ErrorCode i)) (str "error_code") (AString (SafeErrorCode_String (ci_ErrorCode i))) ++
  appendTraceCount (str "client_bytes") (ci_ClientBytes i) ++ appendTraceCount (str "upstream_bytes") (ci_UpstreamBytes i) ++
  appendTraceCount (str "delivered_bytes") (ci_DeliveredBytes i) ++
  appendTokenCount (str "usage_input") (input_count (usage_input u)) ++ appendTokenCount (str "usage_output") (output_count (usage_output u)) ++
  appendTokenCount (str "usage_total") (total_count (usage_total u)) ++
  appendTokenCount (str "usage_cached_input") (cached_input_count (usage_cachedInput u)) ++
  appendTokenCount (str "usage_reasoning_output") (reasoning_output_count (usage_reasoningOutput u)) ++
  when (Money_Known (ci_Cost i)) (str "cost_micros") (AInt (Money_Micros (ci_Cost i)).1) ++
  appendTraceCount (str "total_micros") (Total t) ++ appendTraceCount (str "time_to_upstream_headers_micros") (TimeToUpstreamHeaders t) ++
  appendTraceCount (str "time_to_first_byte_micros") (TimeToFirstByte t) ++ appendTraceCount (str "stream_close_delay_micros") (StreamCloseDelay t).

Definition attr_keys : list bytes :=
  [str "request_id"; str "method"; str "path"; str "route"; str "model"; str "key_name"; str "requested_mode"; str "upstream_mode"; str "delivered_mode";
   str "status"; str "downstream_status"; str "upstream_status"; str "terminal_outcome"; str "upstream_started"; str "error_code"; str "client_bytes";
   str "upstream_bytes"; str "delivered_bytes"; str "usage_input"; str "usage_output"; str "usage_total"; str "usage_cached_input";
   str "usage_reasoning_output"; str "cost_micros"; str "total_micros"; str "time_to_upstream_headers_micros"; str "time_to_first_byte_micros";
   str "stream_close_delay_micros"].

Lemma when_sublist b key v l ks : l.*1 `sublist_of` ks → (when b key v ++ l).*1 `sublist_of` key :: ks.
Proof. intros H. destruct b; cbn; by constructor. Qed.

(** The line of any record has the fixed keys in their order, each at most once. *)
Lemma completionLogAttrs_keys record : (completionLogAttrs record).*1 `sublist_of` attr_keys ∧ NoDup (completionLogAttrs record).*1.
Proof.
  assert ((completionLogAttrs record).*1 `sublist_of` attr_keys) as H.
  { unfold completionLogAttrs, attr_keys, text_attr, mode_attr, appendTraceCount, appendTokenCount. cbv zeta.
    repeat first [apply when_sublist | (rewrite <- (app_nil_r (when _ _ _)); apply when_sublist) | apply sublist_nil_l | (cbn; apply sublist_skip)]. }
  split; [done|]. eapply sublist_NoDup; [|exact H]. apply (bool_decide_unpack _). vm_compute. exact I.
Qed.

(** ** The logger *)

Inductive thread := Entered (record : CompletionRecord) | Passed (record : CompletionRecord) | Leaving.
Inductive worker_pc := WRun | WDrain | WWrite (record : CompletionRecord) (draining : bool) | WDone.

Record logger := mkLogger {
  lg_queue : list CompletionRecord;
  lg_accepting : bool;
  lg_dropped : Z;
  lg_inFlight : Z;
  lg_stopped : bool;
  lg_pc : worker_pc;
  lg_threads : list thread;               (* the calls of Enqueue in progress *)
  lg_written : list CompletionRecord;
  lg_accepted : list CompletionRecord;    (* the records Enqueue returned true for *)
  lg_refused : Z;                         (* the calls that returned false *)
  lg_expired : bool;                      (* a shutdown gave up waiting for calls in progress *)
}.

Definition defaultCompletionQueueCapacity : Z := 128.
Definition completion_capacity (capacity : Z) : Z := if capacity <=? 0 then defaultCompletionQueueCapacity else capacity.

Definition NewCompletionLogger : logger := mkLogger [] true 0 0 false WRun [] [] [] 0 false.

Section logger.
Context (capacity : Z).

Definition with_threads (ts : list thread) (g : logger) : logger :=
  mkLogger (lg_queue g) (lg_accepting g) (lg_dropped g) (lg_inFlight g) (lg_stopped g) (lg_pc g) ts (lg_written g) (lg_accepted g) (lg_refused g)
    (lg_expired g).

Definition with_pc (p : worker_pc) (g : logger) : logger :=
  mkLogger (lg_queue g) (lg_accepting g) (lg_dropped g) (lg_inFlight g) (lg_stopped g) p (lg_threads g) (lg_written g) (lg_accepted g) (lg_refused g)
    (lg_expired g).

(** [inFlight.Add(1)] *)
Definition enqueue_enter (record : CompletionRecord) (g : logger) : logger :=
  mkLogger (lg_queue g) (lg_accepting g) (lg_dropped g) (lg_inFlight g + 1) (lg_stopped g) (lg_pc g) (lg_threads g ++ [Entered record]) (lg_written g)
    (lg_accepted g) (lg_refused g) (lg_expired g).

Definition drop_record (n : nat) (g : logger) : logger :=
  mkLogger (lg_queue g) (lg_accepting g) (lg_dropped g + 1) (lg_inFlight g) (lg_stopped g) (lg_pc g) (<[n := Leaving]> (lg_threads g)) (lg_written g)
    (lg_accepted g) (lg_refused g + 1) (lg_expired g).

Definition push_record (n : nat) (record : CompletionRecord) (g : logger) : logger :=
  mkLogger (lg_queue g ++ [record]) (lg_accepting g) (lg_dropped g) (lg_inFlight g) (lg_stopped g) (lg_pc g) (<[n := Leaving]> (lg_threads g))
    (lg_written g) (lg_accepted g ++ [record]) (lg_refused g) (lg_expired g).

(** The next step of the [n]th call. *)
Definition enqueue_step (n : nat) (g : logger) : logger :=
  match lg_threads g !! n with
  | Some (Entered record) => if lg_accepting g then with_threads (<[n := Passed record]> (lg_threads g)) g else drop_record n g
  | Some (Passed record) => if Z.of_nat (length (lg_queue g)) <? capacity then push_record n record g else drop_record n g
  | Some Leaving =>
      mkLogger (lg_queue g) (lg_accepting g) (lg_dropped g) (lg_inFlight g - 1) (lg_stopped g) (lg_pc g) (delete n (lg_threads g)) (lg_written g)
        (lg_accepted g) (lg_refused g) (lg_expired g)
  | None => g
  end.

Definition take_record (record : CompletionRecord) (rest : list CompletionRecord) (draining : bool) (g : logger) : logger :=
  mkLogger rest (lg_accepting g) (lg_dropped g) (lg_inFlight g) (lg_stopped g) (WWrite record draining) (lg_threads g) (lg_written g) (lg_accepted g)
    (lg_refused g) (lg_expired g).

(** [drain]: one turn of its loop. *)
Definition drain_step (g : logger) : logger :=
  match lg_queue g with record :: rest => take_record record rest true g | [] => with_pc WDone g end.

(** [write] has logged the record. *)
Definition write_record (record : CompletionRecord) (draining : bool) (g : logger) : logger :=
  mkLogger (lg_queue g) (lg_accepting g) (lg_dropped g) (lg_inFlight g) (lg_stopped g) (if draining then WDrain else WRun) (lg_threads g)
    (lg_written g ++ [record]) (lg_accepted g) (lg_refused g) (lg_expired g).

(** [run]; [stop_first] is the choice of [select]. *)
Definition logger_step (stop_first : bool) (g : logger) : logger :=
  match lg_pc g with
  | WRun =>
      match lg_queue g with
      | record :: rest => if lg_stopped g && stop_first then with_pc WDrain g else take_record record rest false g
      | [] => if lg_stopped g then with_pc WDrain g else g
      end
  | WDrain => drain_step g
  | WWrite record draining => write_record record draining g
  | WDone => g
  end.

Definition close_accepting (g : logger) : logger :=
  mkLogger (lg_queue g) false (lg_dropped g) (lg_inFlight g) (lg_stopped g) (lg_pc g) (lg_threads g) (lg_written g) (lg_accepted g) (lg_refused g)
    (lg_expired g).

Definition close_stop (expired : bool) (g : logger) : logger :=
  mkLogger (lg_queue g) (lg_accepting g) (lg_dropped g) (lg_inFlight g) true (lg_pc g) (lg_threads g) (lg_written g) (lg_accepted g) (lg_refused g)
    (expired || lg_expired g).

(** Shutdown closes the gate, and then closes [stop] when no call is in
    progress or when its context has ended. *)
Inductive event := EvEnqueue (record : CompletionRecord) | EvCall (n : nat) | EvWorker (stop_first : bool) | EvClose | EvStop | EvStopExpired.

Definition handle (ev : event) (g : logger) : logger :=
  match ev with
  | EvEnqueue record => enqueue_enter record g
  | EvCall n => enqueue_step n g
  | EvWorker b => logger_step b g
  | EvClose => close_accepting g
  | EvStop => if negb (lg_accepting g) && (lg_inFlight g =? 0) then close_stop false g else g
  | EvStopExpired => if negb (lg_accepting g) && negb (lg_inFlight g =? 0) then close_stop true g else g
  end.

Definition run_logger (evs : list event) (g : logger) : logger := foldl (λ g ev, handle ev g) g evs.

(** ** Conservation *)

Definition writing (p : worker_pc) : list CompletionRecord := match p with WWrite r _ => [r] | _ => [] end.
Definition past_stop (p : worker_pc) : bool := match p with WDrain | WWrite _ true | WDone => true | _ => false end.
Definition admitted (t : thread) : bool := match t with Passed _ => true | _ => false end.

Record logger_ok (g : logger) : Prop := {
  lo_order : lg_written g ++ writing (lg_pc g) ++ lg_queue g = lg_accepted g;
  lo_bound : Z.of_nat (length (lg_queue g)) ≤ capacity;
  lo_dropped : lg_dropped g = lg_refused g;
  lo_flight : lg_inFlight g = Z.of_nat (length (lg_threads g));
  lo_stop : lg_stopped g = true → lg_accepting g = false;
  lo_past : past_stop (lg_pc g) = true → lg_stopped g = true;
  lo_graceful : lg_stopped g = true → lg_expired g = false → Forall (λ t, admitted t = false) (lg_threads g);
  lo_done : lg_pc g = WDone → lg_expired g = false → lg_queue g = [];
}.

Lemma Forall_admitted_insert n t (ts : list thread) : admitted t = false →
  Forall (λ t, admitted t = false) ts → Forall (λ t, admitted t = false) (<[n := t]> ts).
Proof. intros Ht H. by apply Forall_insert. Qed.

Lemma enqueue_step_ok n g : logger_ok g → logger_ok (enqueue_step n g).
Proof.
  intros H. unfold enqueue_step. destruct (lg_threads g !! n) as [[r|r|]|] eqn:En; [| | |done]; pose proof (lookup_lt_Some _ _ _ En) as Hn.
  - destruct (lg_accepting g) eqn:Ea.
    + destruct H. constructor; cbn; try done; [by rewrite length_insert|]. intros Hs. by rewrite lo_stop0 in Ea.
    + destruct H. constructor; cbn; try done; [lia|by rewrite length_insert|]. intros Hs He. apply Forall_admitted_insert; auto.
  - destruct (Z.ltb_spec (Z.of_nat (length (lg_queue g))) capacity).
    + destruct H. constructor; cbn; try done.
      * by rewrite !(assoc_L (++)), <- (assoc_L (++) (lg_written g)), lo_order0.
      * rewrite length_app. cbn. lia.
      * by rewrite length_insert.
      * intros Hs He. apply Forall_admitted_insert; auto.
      * intros Hd He. pose proof (lo_graceful0 (lo_past0 ltac:(by rewrite Hd)) He) as Hf. by apply (Forall_lookup_1 _ _ _ _ Hf) in En.
    + destruct H. constructor; cbn; try done; [lia|by rewrite length_insert|]. intros Hs He. apply Forall_admitted_insert; auto.
  - destruct H. constructor; cbn; try done.
    + rewrite length_delete by eauto. lia.
    + intros Hs He. apply Forall_delete; auto.
Qed.

Lemma logger_step_ok b g : logger_ok g → logger_ok (logger_step b g).
Proof.
  intros H. unfold logger_step, drain_step, write_record. pose proof (lo_order _ H) as Ho. destruct (lg_pc g) as [| |r d|] eqn:Ep; cbn [writing app] in Ho.
  - destruct (lg_queue g) as [|r rest] eqn:Eq.
    + destruct (lg_stopped g) eqn:Es; [|done]. destruct H. by constructor; cbn; rewrite ?Eq, ?Ep in *.
    + destruct (lg_stopped g && b) eqn:Es.
      * apply andb_true_iff in Es as [Es _]. destruct H. by constructor; cbn; rewrite ?Eq, ?Ep in *.
      * destruct H. rewrite Eq in lo_bound0. cbn in lo_bound0. constructor; cbn; try done. lia.
  - destruct (lg_queue g) as [|r rest] eqn:Eq.
    + destruct H. rewrite Ep in *. by constructor; cbn; rewrite ?Eq in *.
    + destruct H. rewrite Eq in lo_bound0. rewrite Ep in *. cbn in lo_bound0. constructor; cbn; try done. lia.
  - destruct H. rewrite Ep in *. constructor; cbn; try done; try (by destruct d).
    destruct d; cbn; by rewrite <- (assoc_L (++)).
  - done.
Qed.

Lemma logger_handle_ok ev g : logger_ok g → logger_ok (handle ev g).
Proof.
  intros H. destruct ev as [r|n|b| | |]; cbn [handle].
  - destruct H. constructor; cbn; try done; [rewrite length_app; cbn; lia|]. intros Hs He. apply Forall_app. split; [auto|by repeat constructor].
  - by apply enqueue_step_ok.
  - by apply logger_step_ok.
  - destruct H. by constructor.
  - destruct (negb (lg_accepting g) && (lg_inFlight g =? 0)) eqn:E; [|done]. apply andb_true_iff in E as [Ea%negb_true_iff Ef].
    destruct H. constructor; cbn; try done. intros _ _. destruct (lg_threads g); [constructor|cbn in lo_flight0; lia].
  - destruct (_ && _) eqn:E; [|done]. apply andb_true_iff in E as [Ea%negb_true_iff _]. destruct H. by constructor.
Qed.

Lemma run_logger_ok evs g : logger_ok g → logger_ok (run_logger evs g).
Proof. revert g. unfold run_logger. induction evs as [|ev evs IH]; intros g H; [done|]. cbn. by apply IH, logger_handle_ok. Qed.

Lemma new_logger_ok : 0 ≤ capacity → logger_ok NewCompletionLogger.
Proof. intros H. by constructor. Qed.
End logger.

(** The completion log writes what it accepts.  Under every interleaving of
    calls of [Enqueue], the worker and shutdowns, the written records, the one
    being written and the queued ones are exactly the accepted records in
    order, the queue stays within its capacity, every refused call is counted
    as dropped, and the gate counts exactly the calls in progress; and when no
    shutdown gave up waiting for them, the worker has written every accepted
    record by the time it ends. *)
Theorem completion_log_conserved n evs :
  let capacity := completion_capacity n in
  let g := run_logger capacity evs NewCompletionLogger in
  lg_written g ++ writing (lg_pc g) ++ lg_queue g = lg_accepted g ∧
  Z.of_nat (length (lg_queue g)) ≤ capacity ∧
  lg_dropped g = lg_refused g ∧
  lg_inFlight g = Z.of_nat (length (lg_threads g)) ∧
  (lg_pc g = WDone → lg_expired g = false → lg_written g = lg_accepted g).
Proof.
  cbv zeta. assert (0 ≤ completion_capacity n) as Hc.
  { unfold completion_capacity, defaultCompletionQueueCapacity. destruct (Z.leb_spec n 0); lia. }
  pose proof (run_logger_ok _ evs _ (new_logger_ok _ Hc)) as []. split_and!; try done.
  intros Ep He. rewrite <- lo_order0, Ep, lo_done0 by done. by rewrite !app_nil_r.
Qed.

(** ** The lifecycle of handlers *)

(** The wait group and whether the sentinel has been released. *)
Record RequestLifecycle := mkLifecycle { rl_active : Z; rl_released : bool }.

Definition NewRequestLifecycle : RequestLifecycle := mkLifecycle 1 false.
Definition Handler_begin (l : RequestLifecycle) : RequestLifecycle := mkLifecycle (rl_active l + 1) (rl_released l).
Definition Handler_end (l : RequestLifecycle) : RequestLifecycle := mkLifecycle (rl_active l - 1) (rl_released l).
Definition StopAccepting (l : RequestLifecycle) : RequestLifecycle := if rl_released l then l else mkLifecycle (rl_active l - 1) true.
(** [Wait] is past its [WaitGroup]. *)
Definition Wait_done (l : RequestLifecycle) : bool := rl_active l =? 0.

Inductive lifecycle_op := LBegin | LEnd | LStop.
Definition lifecycle_step (op : lifecycle_op) (s : RequestLifecycle * Z) : RequestLifecycle * Z :=
  let '(l, running) := s in
  match op with
  | LBegin => (Handler_begin l, running + 1)
  | LEnd => if running =? 0 then s else (Handler_end l, running - 1)
  | LStop => (StopAccepting l, running)
  end.

(** Waiting ends exactly when the sentinel is released and no handler runs. *)
Lemma lifecycle_wait_exact ops :
  let '(l, running) := foldl (λ s op, lifecycle_step op s) (NewRequestLifecycle, 0) ops in
  Wait_done l = true ↔ rl_released l = true ∧ running = 0.
Proof.
  assert (∀ s, rl_active s.1 = s.2 + (if rl_released s.1 then 0 else 1) → 0 ≤ s.2 →
    let s' := foldl (λ s op, lifecycle_step op s) s ops in rl_active s'.1 = s'.2 + (if rl_released s'.1 then 0 else 1) ∧ 0 ≤ s'.2) as H.
  { induction ops as [|op ops IH]; intros s Hs Hp; [done|]. cbn [foldl]. apply IH; destruct s as [[a []] r], op; cbn in *;
      try lia; (destruct (Z.eqb_spec r 0); cbn; lia). }
  specialize (H (NewRequestLifecycle, 0) eq_refl ltac:(cbn; lia)). destruct (foldl _ _ ops) as [l r]. cbn in H. unfold Wait_done.
  destruct (rl_released l); lia.
Qed.
