(* ===== verification/UsageObservation.v ===== *)
(** * Reading the usage of a captured response ([usage_observation.go], [response.go])

    The bounded parsers of the usage worker.  [compress/gzip] is a parameter:
    the bytes a compressed representation decodes to before its end, and
    whether that end is clean; [None] is a bad header.  [mime.ParseMediaType]
    is a parameter of the response classifier. *)

From Stdlib Require Import Ascii ZArith Lia ZifyBool.
From stdpp Require Import prelude strings list gmap.
From S2P Require Import Prelude Text Utf8 Usage Money Pricing Reservation SSEParser Json JsonCodec UsageJson ChatObserver ChatStream RequestBody CompletionRecord.
Local Open Scope Z_scope.

#[local] Arguments str : simpl never.

(** ** Content codings *)

Inductive observation_error := ErrUsageObservationUnsupported | ErrUsageObservationMalformed | ErrUsageObservationTooLarge.

Definition ContentCoding : Type := Z.
Definition ContentCodingIdentity : ContentCoding := 0.
Definition ContentCodingGZIP : ContentCoding := 1.

(** [strings.EqualFold] with an ASCII name that has no special folding. *)
Definition EqualFold (s t : bytes) : bool := same (map lower_byte s) t.

Definition ValidateContentCoding (value : bytes) : result observation_error ContentCoding :=
  let value := TrimSpace value in
  if same value [] || EqualFold value (str "identity") then Ok ContentCodingIdentity
  else if EqualFold value (str "gzip") then Ok ContentCodingGZIP
  else Err ErrUsageObservationUnsupported.

Definition validContentCoding (coding : ContentCoding) : bool := (coding =? ContentCodingIdentity) || (coding =? ContentCodingGZIP).

Definition DefaultUsageObservationMaxBytes : Z := 8 * 1024 * 1024.

Record streamCheckpoint := mkCheckpoint { cp_offset : Z; cp_at : Z }.

Section parsing.
Context (gunzip : bytes → option (bytes * bool)).

(** [io.ReadAll(io.LimitReader(r, n))] of decoded bytes with their end. *)
Definition read_all_limited (n : Z) (decoded : bytes * bool) : option bytes :=
  if n <=? Z.of_nat (length decoded.1) then Some (take (Z.to_nat n) decoded.1) else if decoded.2 then Some decoded.1 else None.

Definition decodeObservedBytes (data : bytes) (coding : ContentCoding) (maxBytes : Z) : result observation_error bytes :=
  if maxBytes <? Z.of_nat (length data) then Err ErrUsageObservationTooLarge
  else if coding =? ContentCodingIdentity then Ok data
  else
    match gunzip data with
    | None => Err ErrUsageObservationMalformed
    | Some stream =>
        match read_all_limited (add64 maxBytes 1) stream with
        | None => Err ErrUsageObservationMalformed
        | Some decoded => if maxBytes <? Z.of_nat (length decoded) then Err ErrUsageObservationTooLarge else Ok decoded
        end
    end.

Definition streamEventLimit : Z := 64 * 1024.

(** The observation of the decoded stream; a failed reader construction is an error. *)
Definition observe_decoded (decoded : bytes) : option (option ObservationResult) :=
  match ObserveStream (Some (decoded, SourceEOF)) streamEventLimit with
  | None => None
  | Some None => Some None
  | Some (Some (result, err)) => Some (match err with None => match obs_Errors result with [] => Some result | _ => None end | Some _ => None end)
  end.

Definition parseUsageObservation (data : bytes) (coding : ContentCoding) (maxBytes : Z) : option (result observation_error Z) :=
  if negb (validContentCoding coding) then Some (Err ErrUsageObservationUnsupported)
  else
    match decodeObservedBytes data coding maxBytes with
    | Err e => Some (Err e)
    | Ok decoded =>
        let trimmed := TrimSpace decoded in
        if same trimmed [] then Some (Err ErrUsageObservationMalformed)
        else if bool_decide (head trimmed = Some "{"%char) then
          Some match ParseJSONUsage trimmed with
               | Ok result => if ur_Observed result then Ok (TotalTokens_Int64 (usage_total (ur_Usage result))) else Err ErrUsageObservationMalformed
               | Err _ => Err ErrUsageObservationMalformed
               end
        else
          match observe_decoded decoded with
          | None => None
          | Some (Some result) =>
              let total := usage_total (uo_Usage (os_Usage (obs_State result))) in
              Some (if TotalTokens_Known total then Ok (TotalTokens_Int64 total) else Err ErrUsageObservationMalformed)
          | Some None => Some (Err ErrUsageObservationMalformed)
          end
    end.

(** Each checkpoint is not before the previous one. *)
Fixpoint checkpoints_ordered (l : list streamCheckpoint) : bool :=
  match l with
  | a :: ((b :: _) as rest) => negb (Before (cp_at b) (cp_at a)) && checkpoints_ordered rest
  | _ => true
  end.

Fixpoint first_checkpoint (offset : Z) (l : list streamCheckpoint) : Z :=
  match l with [] => zeroTime | c :: rest => if offset <=? cp_offset c then cp_at c else first_checkpoint offset rest end.

Definition parseCanonicalUsageObservationWithTiming (data : bytes) (coding : ContentCoding) (maxBytes : Z) (checkpoints : list streamCheckpoint)
    (checkpointOverflow : bool) : option (result observation_error (Usage * Z)) :=
  if negb (validContentCoding coding) then Some (Err ErrUsageObservationUnsupported)
  else
    match decodeObservedBytes data coding maxBytes with
    | Err e => Some (Err e)
    | Ok decoded =>
        let trimmed := TrimSpace decoded in
        if same trimmed [] then Some (Err ErrUsageObservationMalformed)
        else if bool_decide (head trimmed = Some "{"%char) then
          Some match ParseJSONUsage trimmed with
               | Ok result => if ur_Observed result then Ok (ur_Usage result, zeroTime) else Err ErrUsageObservationMalformed
               | Err _ => Err ErrUsageObservationMalformed
               end
        else
          match observe_decoded decoded with
          | None => None
          | Some None => Some (Err ErrUsageObservationMalformed)
          | Some (Some result) =>
              if obs_LastMeaningfulOffset result <=? 0 then Some (Err ErrUsageObservationMalformed)
              else
                let usage := uo_Usage (os_Usage (obs_State result)) in
                if negb (coding =? ContentCodingIdentity) || checkpointOverflow || bool_decide (checkpoints = []) ||
                   (obs_LastMeaningfulOffset result <=? 0) then Some (Ok (usage, zeroTime))
                else if negb (checkpoints_ordered checkpoints) then Some (Ok (usage, zeroTime))
                else Some (Ok (usage, first_checkpoint (obs_LastMeaningfulOffset result) checkpoints))
          end
    end.

Definition parseCanonicalUsageObservation (data : bytes) (coding : ContentCoding) (maxBytes : Z) : option (result observation_error Usage) :=
  match parseCanonicalUsageObservationWithTiming data coding maxBytes [] true with
  | None => None
  | Some (Ok (usage, _)) => Some (Ok usage)
  | Some (Err e) => Some (Err e)
  end.
End parsing.

(** ** Classifying responses ([response.go]) *)

Section classify.
Context (ParseMediaType : bytes → option bytes).

Definition HasSuffix (s p : bytes) : bool := bool_decide (drop (length s - length p) s = p).

Definition classifyResponse (contentType : bytes) : ResponseMode :=
  match ParseMediaType contentType with
  | None => ResponseModeOpaque
  | Some mediaType =>
      let mediaType := map lower_byte mediaType in
      if same mediaType (str "text/event-stream") then ResponseModeSSE
      else if same mediaType (str "application/json") || HasSuffix mediaType (str "+json") then ResponseModeJSON
      else ResponseModeOpaque
  end.

(** The values of the Content-Type header. *)
Definition classifyResponseHeader (contentTypes : list bytes) : ResponseMode :=
  match contentTypes with [t] => classifyResponse t | _ => ResponseModeOpaque end.

Definition classifyActualResponseHeader (contentTypes : list bytes) : ResponseMode :=
  match contentTypes with
  | [t] => match ParseMediaType t with None => ResponseModeUnknown | Some _ => classifyResponse t end
  | _ => ResponseModeUnknown
  end.

(** The request is nil or has a method and a path. *)
Definition shouldAggregateSSE (request : option (bytes * bytes)) (metadata : option RequestMetadata) (responseMode : ResponseMode) : bool :=
  match request with
  | None => false
  | Some (method, path) =>
      if negb (same method (str "POST")) || negb (same path (str "/v1/chat/completions")) then false
      else match metadata with
           | Some m => match rm_Stream m with Some stream => negb stream && same responseMode ResponseModeSSE | None => false end
           | None => false
           end
  end.

(** The representation the handler records as delivered. *)
Definition delivered_mode (request : option (bytes * bytes)) (metadata : option RequestMetadata) (contentTypes : list bytes) : ResponseMode :=
  let responseMode := classifyResponseHeader contentTypes in
  if same (classifyActualResponseHeader contentTypes) ResponseModeSSE && shouldAggregateSSE request metadata responseMode
  then ResponseModeJSON else responseMode.

(** For a response that is not a redirect, the pair the handler records is
    one the record allows, whatever the header. *)
Lemma recorded_modes_listed request metadata contentTypes :
  (classifyActualResponseHeader contentTypes, delivered_mode request metadata contentTypes) ∈ delivery_table.
Proof.
  unfold delivered_mode, classifyResponseHeader, classifyActualResponseHeader, classifyResponse.
  assert (∀ p, p ∈ [(ResponseModeUnknown, ResponseModeOpaque); (ResponseModeJSON, ResponseModeJSON); (ResponseModeSSE, ResponseModeSSE);
    (ResponseModeSSE, ResponseModeJSON); (ResponseModeOpaque, ResponseModeOpaque)] → p ∈ delivery_table) as H.
  { intros p. unfold delivery_table. rewrite !elem_of_cons, elem_of_nil. tauto. }
  apply H. rewrite !elem_of_cons.
  destruct contentTypes as [|t []]; [cbn; tauto| |cbn; tauto]. destruct (ParseMediaType t) as [m|]; [|cbn; tauto].
  destruct (same (map lower_byte m) (str "text/event-stream")).
  - change (same ResponseModeSSE ResponseModeSSE) with true. cbn [andb]. destruct (shouldAggregateSSE _ _ _); tauto.
  - destruct (_ || _); [change (same ResponseModeJSON ResponseModeSSE) with false|change (same ResponseModeOpaque ResponseModeSSE) with false]; cbn [andb]; tauto.
Qed.
End classify.

(** ** The parsers always answer *)

Lemma observe_decoded_total decoded : Z.of_nat (length decoded) ≤ maxInt64 → observe_decoded decoded ≠ None.
Proof.
  intros Hl. unfold observe_decoded, ObserveStream.
  destruct (NewReader (Some (decoded, SourceEOF)) streamEventLimit) as [reader|] eqn:Er.
  - destruct (observe_stream_folds decoded SourceEOF streamEventLimit None reader Er) as (events & err & res & _ & -> & _); [by vm_compute|done|done].
  - unfold ObserveStreamWithTiming. rewrite Er. done.
Qed.

Section totality.
Context (gunzip : bytes → option (bytes * bool)) (maxBytes : Z) (Hmax : 0 ≤ maxBytes ≤ DefaultUsageObservationMaxBytes).

Lemma decodeObservedBytes_bounded data coding decoded : decodeObservedBytes gunzip data coding maxBytes = Ok decoded → Z.of_nat (length decoded) ≤ maxBytes.
Proof.
  unfold decodeObservedBytes. destruct (Z.ltb_spec maxBytes (Z.of_nat (length data))); [done|]. destruct (coding =? _); [by intros [= <-]|].
  destruct (gunzip data); [|done]. destruct (read_all_limited _ _) as [d|]; [|done].
  destruct (Z.ltb_spec maxBytes (Z.of_nat (length d))); [done|]. by intros [= <-].
Qed.

Lemma parseCanonical_total data coding checkpoints overflow :
  parseCanonicalUsageObservationWithTiming gunzip data coding maxBytes checkpoints overflow ≠ None.
Proof.
  unfold parseCanonicalUsageObservationWithTiming. destruct (negb _); [done|]. destruct (decodeObservedBytes _ _ _ _) as [decoded|] eqn:Ed; [|done].
  apply decodeObservedBytes_bounded in Ed. cbv zeta. destruct (same _ _); [done|]. destruct (bool_decide _); [done|].
  pose proof (observe_decoded_total decoded) as Ht. destruct (observe_decoded decoded) as [[r|]|]; [|done|].
  - repeat (destruct (_ <=? 0) || destruct (_ || _) || destruct (negb _)); done.
  - destruct Ht; [|done]. unfold DefaultUsageObservationMaxBytes, maxInt64 in *. lia.
Qed.

Lemma parseUsage_total data coding : parseUsageObservation gunzip data coding maxBytes ≠ None.
Proof.
  unfold parseUsageObservation. destruct (negb _); [done|]. destruct (decodeObservedBytes _ _ _ _) as [decoded|] eqn:Ed; [|done].
  apply decodeObservedBytes_bounded in Ed. cbv zeta. destruct (same _ _); [done|]. destruct (bool_decide _); [done|].
  pose proof (observe_decoded_total decoded) as Ht. destruct (observe_decoded decoded) as [[r|]|]; [done|done|].
  destruct Ht; [|done]. unfold DefaultUsageObservationMaxBytes, maxInt64 in *. lia.
Qed.
End totality.

(** A response that reports only its prompt has a usage without a total; the
    token-only parser reads it as a total of zero, the canonical one as unknown. *)
Example partial_usage_reads_zero gunzip :
  let body := str (String.String "{"%char (String.String (ascii_of_nat 34) "usage")) ++
              str (String.String (ascii_of_nat 34) ":{") ++
              str (String.String (ascii_of_nat 34) "prompt_tokens") ++ str (String.String (ascii_of_nat 34) ":5}}") in
  parseUsageObservation gunzip body ContentCodingIdentity 100 = Some (Ok 0) ∧
  ∃ usage, parseCanonicalUsageObservation gunzip body ContentCodingIdentity 100 = Some (Ok usage) ∧ TotalTokens_Known (usage_total usage) = false.
Proof. split; [vm_compute; reflexivity|]. eexists. split; vm_compute; reflexivity. Qed.
