(* ===== verification/UsageWorker.v ===== *)
(** * The usage worker ([internal/httpserver/usage_observation.go])

    One goroutine reads the usage of captured responses and settles the
    adjustment tickets of their requests.  Tickets and completions are names;
    what a job does to them is a list of actions.  A submission takes a slot
    without the lock and then enters the queue under it, so it is a thread; the
    worker is a program counter; the environment answers whether a parse
    panics and whether the limiters accept an adjustment. *)

From Stdlib Require Import Ascii ZArith Lia ZifyBool.
From stdpp Require Import prelude strings list gmap.
From S2P Require Import Prelude Text Utf8 Usage Money Pricing Reservation Json UsageJson ChatObserver ChatStream RequestBody CompletionRecord Trace UsageObservation.
Local Open Scope Z_scope.

#[local] Arguments str : simpl never.

(** ** Jobs *)

Record UsageObservationJob := mkUsageJob {
  uj_Bytes : bytes;
  uj_ContentCoding : ContentCoding;
  uj_Ticket : option nat;
  uj_BudgetTicket : option nat;
  uj_Pricing : PricingResolution;
  uj_Completion : option nat;
  uj_TimingCheckpoints : list streamCheckpoint;
  uj_TimingOverflow : bool;
  uj_RequestBytes : bytes;
  uj_RequestPricing : PricingResolver;
  uj_ResolveRequest : bool;
}.

Definition newUsageObservationJobOwned (captured : bytes) (coding : ContentCoding) (ticket : option nat) : UsageObservationJob :=
  mkUsageJob (take (Z.to_nat DefaultUsageObservationMaxBytes) captured) coding ticket None UnknownPricingResolution None [] false [] (mkResolver false ∅ []) false.

(** What is done to the handles of a job. *)
Inductive action :=
| AdjustToken (t : nat) (actual : Z) | InvalidateToken (t : nat)
| AdjustBudget (b : nat) (cost : Money) | InvalidateBudget (b : nat)
| FinishCompletion (c : nat) (usage : Usage.Usage) (cost : Money) (lastMeaningful : option Z).

Definition on {A} (handle : option nat) (f : nat → A) : list A := match handle with Some h => [f h] | None => [] end.

Definition invalidateObservationJob (job : UsageObservationJob) : list action :=
  on (uj_Ticket job) InvalidateToken ++ on (uj_BudgetTicket job) InvalidateBudget ++
  on (uj_Completion job) (λ c, FinishCompletion c zeroUsage UnknownMoney None).

(** [ResolveRequest]: the pricing of the model the request names. *)
Definition resolved_pricing (job : UsageObservationJob) : PricingResolution :=
  if uj_ResolveRequest job then
    match ParseRequestMetadata (uj_RequestBytes job) with
    | Ok metadata => PricingResolver_Resolve (uj_RequestPricing job) (rm_Model metadata)
    | Err _ => uj_Pricing job
    end
  else uj_Pricing job.

Definition handled (job : UsageObservationJob) : bool :=
  bool_decide (is_Some (uj_Ticket job)) || bool_decide (is_Some (uj_BudgetTicket job)) || bool_decide (is_Some (uj_Completion job)).

(** The result of the parse: canonical or not, usage, actual total, last meaningful event. *)
Record parsed := mkParsed { pa_canonical : bool; pa_usage : Usage.Usage; pa_actual : Z; pa_last : Z }.

Section worker.
Context (gunzip : bytes → option (bytes * bool)) (capacity maxBytes : Z).

Definition parse_job (panics : bool) (job : UsageObservationJob) : option parsed :=
  let canonical := bool_decide (is_Some (uj_Completion job)) || bool_decide (is_Some (uj_BudgetTicket job)) || PricingResolution_Known (resolved_pricing job) in
  if panics then None
  else if canonical then
    match (match uj_Completion job with
           | None => match parseCanonicalUsageObservation gunzip (uj_Bytes job) (uj_ContentCoding job) maxBytes with
                     | Some (Ok usage) => Some (Ok (usage, zeroTime)) | Some (Err e) => Some (Err e) | None => None end
           | Some _ => parseCanonicalUsageObservationWithTiming gunzip (uj_Bytes job) (uj_ContentCoding job) maxBytes (uj_TimingCheckpoints job)
                         (uj_TimingOverflow job)
           end) with
    | Some (Ok (usage, last)) => Some (mkParsed true usage (if TotalTokens_Known (usage_total usage) then TotalTokens_Int64 (usage_total usage) else 0) last)
    | _ => None
    end
  else
    match parseUsageObservation gunzip (uj_Bytes job) (uj_ContentCoding job) maxBytes with
    | Some (Ok actual) => Some (mkParsed false zeroUsage actual zeroTime)
    | _ => None
    end.

(** The settlement of a parsed job, and whether it may still fail in the limiters. *)
Definition budget_cost (job : UsageObservationJob) (p : parsed) : option Money :=
  match CalculateActualCost (pa_usage p) (resolved_pricing job) with Ok cost => if Money_Known cost then Some cost else None | Err _ => None end.

Definition settle_job (job : UsageObservationJob) (p : parsed) : list action :=
  on (uj_Ticket job) (λ t, if negb (pa_canonical p) || TotalTokens_Known (usage_total (pa_usage p)) then AdjustToken t (pa_actual p) else InvalidateToken t) ++
  on (uj_BudgetTicket job) (λ b, match budget_cost job p with Some cost => AdjustBudget b cost | None => InvalidateBudget b end) ++
  on (uj_Completion job) (λ c, FinishCompletion c (pa_usage p)
    (match CalculateActualCost (pa_usage p) (resolved_pricing job) with Ok cost => cost | Err _ => UnknownMoney end)
    (if IsZero (pa_last p) then None else Some (pa_last p))).

(** [settleErr == nil], given that the limiters accept. *)
Definition settle_ok (accepted : bool) (job : UsageObservationJob) (p : parsed) : bool :=
  accepted && (bool_decide (uj_BudgetTicket job = None) || bool_decide (is_Some (budget_cost job p))).

(** ** State *)

Inductive phase := Idle | Adjusting | Terminal.
Inductive thread := Slotted (job : UsageObservationJob) | Checked (job : UsageObservationJob).
Inductive pc := PSelect | PClaim | PParse (job : UsageObservationJob) (drains : bool) | PAdjust (job : UsageObservationJob) (p : parsed) (drains : bool) | PDrain | PDone.
Inductive outcome := Dropped | Failed | Succeeded.

Record worker := mkWorker {
  us_queue : list UsageObservationJob;
  us_slots : Z;
  us_wake : bool;
  us_stop : bool;
  us_accepting : bool;
  us_drain : bool;
  us_active : option nat;
  us_phase : phase;
  us_pc : pc;
  us_submitted : Z; us_processed : Z; us_succeeded : Z; us_failed : Z; us_dropped : Z;
  us_threads : list thread;                                            (* submissions that hold a slot *)
  us_given : list UsageObservationJob;                                 (* every job submitted *)
  us_settled : list (UsageObservationJob * outcome * list action);     (* every job whose fate is decided *)
  us_finished : list nat;                                              (* completions a shutdown finished early *)
}.

Definition NewUsageObservationWorker : worker := mkWorker [] capacity false false true false None Idle PSelect 0 0 0 0 0 [] [] [] [].

(** The updates of the fields. *)
Definition goto (p : pc) (w : worker) : worker :=
  mkWorker
    (us_queue w) (us_slots w) (us_wake w) (us_stop w) (us_accepting w) (us_drain w) (us_active w) (us_phase w) p (us_submitted w)
    (us_processed w) (us_succeeded w) (us_failed w) (us_dropped w) (us_threads w) (us_given w) (us_settled w) (us_finished w).

Definition give (job : UsageObservationJob) (w : worker) : worker :=
  mkWorker
    (us_queue w) (us_slots w) (us_wake w) (us_stop w) (us_accepting w) (us_drain w) (us_active w) (us_phase w) (us_pc w)
    (us_submitted w) (us_processed w) (us_succeeded w) (us_failed w) (us_dropped w) (us_threads w) (us_given w ++ [job])
    (us_settled w) (us_finished w).

Definition settle (job : UsageObservationJob) (r : outcome) (acts : list action) (w : worker) : worker :=
  mkWorker
    (us_queue w) (us_slots w) (us_wake w) (us_stop w) (us_accepting w) (us_drain w) (us_active w) (us_phase w) (us_pc w)
    (us_submitted w) (us_processed w) (us_succeeded w + match r with Succeeded => 1 | _ => 0 end)
    (us_failed w + match r with Failed => 1 | _ => 0 end) (us_dropped w + match r with Dropped => 1 | _ => 0 end) (us_threads w)
    (us_given w) (us_settled w ++ [(job, r, acts)]) (us_finished w).

Definition add_slots (n : Z) (w : worker) : worker :=
  mkWorker
    (us_queue w) (us_slots w + n) (us_wake w) (us_stop w) (us_accepting w) (us_drain w) (us_active w) (us_phase w) (us_pc w)
    (us_submitted w) (us_processed w) (us_succeeded w) (us_failed w) (us_dropped w) (us_threads w) (us_given w) (us_settled w)
    (us_finished w).

Definition set_threads (ts : list thread) (w : worker) : worker :=
  mkWorker
    (us_queue w) (us_slots w) (us_wake w) (us_stop w) (us_accepting w) (us_drain w) (us_active w) (us_phase w) (us_pc w)
    (us_submitted w) (us_processed w) (us_succeeded w) (us_failed w) (us_dropped w) ts (us_given w) (us_settled w) (us_finished w).

Definition set_queue (q : list UsageObservationJob) (w : worker) : worker :=
  mkWorker
    q (us_slots w) (us_wake w) (us_stop w) (us_accepting w) (us_drain w) (us_active w) (us_phase w) (us_pc w) (us_submitted w)
    (us_processed w) (us_succeeded w) (us_failed w) (us_dropped w) (us_threads w) (us_given w) (us_settled w) (us_finished w).

Definition push (job : UsageObservationJob) (w : worker) : worker :=
  mkWorker
    (us_queue w ++ [job]) (us_slots w) true (us_stop w) (us_accepting w) (us_drain w) (us_active w) (us_phase w) (us_pc w)
    (us_submitted w + 1) (us_processed w) (us_succeeded w) (us_failed w) (us_dropped w) (us_threads w) (us_given w) (us_settled w)
    (us_finished w).

Definition clear_wake (w : worker) : worker :=
  mkWorker
    (us_queue w) (us_slots w) false (us_stop w) (us_accepting w) (us_drain w) (us_active w) (us_phase w) (us_pc w)
    (us_submitted w) (us_processed w) (us_succeeded w) (us_failed w) (us_dropped w) (us_threads w) (us_given w) (us_settled w)
    (us_finished w).

Definition count_processed (w : worker) : worker :=
  mkWorker
    (us_queue w) (us_slots w) (us_wake w) (us_stop w) (us_accepting w) (us_drain w) (us_active w) (us_phase w) (us_pc w)
    (us_submitted w) (us_processed w + 1) (us_succeeded w) (us_failed w) (us_dropped w) (us_threads w) (us_given w) (us_settled w)
    (us_finished w).

Definition set_active (c : option nat) (w : worker) : worker :=
  mkWorker
    (us_queue w) (us_slots w) (us_wake w) (us_stop w) (us_accepting w) (us_drain w) c (us_phase w) (us_pc w) (us_submitted w)
    (us_processed w) (us_succeeded w) (us_failed w) (us_dropped w) (us_threads w) (us_given w) (us_settled w) (us_finished w).

Definition set_phase (p : phase) (w : worker) : worker :=
  mkWorker
    (us_queue w) (us_slots w) (us_wake w) (us_stop w) (us_accepting w) (us_drain w) (us_active w) p (us_pc w) (us_submitted w)
    (us_processed w) (us_succeeded w) (us_failed w) (us_dropped w) (us_threads w) (us_given w) (us_settled w) (us_finished w).

Definition close_accepting (w : worker) : worker :=
  mkWorker
    (us_queue w) (us_slots w) (us_wake w) (us_stop w) false (us_drain w) (us_active w) (us_phase w) (us_pc w) (us_submitted w)
    (us_processed w) (us_succeeded w) (us_failed w) (us_dropped w) (us_threads w) (us_given w) (us_settled w) (us_finished w).

Definition close_stop (w : worker) : worker :=
  mkWorker
    (us_queue w) (us_slots w) (us_wake w) true (us_accepting w) (us_drain w) (us_active w) (us_phase w) (us_pc w) (us_submitted w)
    (us_processed w) (us_succeeded w) (us_failed w) (us_dropped w) (us_threads w) (us_given w) (us_settled w) (us_finished w).

Definition set_drain (w : worker) : worker :=
  mkWorker
    (us_queue w) (us_slots w) (us_wake w) (us_stop w) (us_accepting w) true (us_active w) (us_phase w) (us_pc w) (us_submitted w)
    (us_processed w) (us_succeeded w) (us_failed w) (us_dropped w) (us_threads w) (us_given w) (us_settled w) (us_finished w).

Definition finish_active (w : worker) : worker :=
  mkWorker
    (us_queue w) (us_slots w) (us_wake w) (us_stop w) (us_accepting w) (us_drain w) (us_active w) (us_phase w) (us_pc w)
    (us_submitted w) (us_processed w) (us_succeeded w) (us_failed w) (us_dropped w) (us_threads w) (us_given w) (us_settled w)
    (us_finished w ++ on (us_active w) id).

(** ** Submission *)

(** [markDropped] and [invalidateObservationJob]. *)
Definition drop_job (job : UsageObservationJob) (w : worker) : worker := settle job Dropped (invalidateObservationJob job) w.

(** The checks and the slot, before the lock. *)
Definition submit (job : UsageObservationJob) (w : worker) : worker :=
  let w := give job w in
  if negb (handled job) || negb (validContentCoding (uj_ContentCoding job)) || (maxBytes <? Z.of_nat (length (uj_Bytes job))) then drop_job job w
  else if us_slots w <=? 0 then drop_job job w
  else set_threads (us_threads w ++ [Slotted job]) (add_slots (-1) w).

(** The two critical sections of a submission that holds a slot. *)
Definition submit_step (n : nat) (w : worker) : worker :=
  match us_threads w !! n with
  | None => w
  | Some (Slotted job) =>
      if us_accepting w then set_threads (<[n := Checked job]> (us_threads w)) w
      else drop_job job (add_slots 1 (set_threads (delete n (us_threads w)) w))
  | Some (Checked job) =>
      let w' := set_threads (delete n (us_threads w)) w in
      if us_accepting w then
        if Z.of_nat (length (us_queue w)) <? capacity then push job w' else drop_job job (add_slots 1 w')
      else drop_job job (add_slots 1 w')
  end.

(** ** The worker *)

Fixpoint discard (jobs : list UsageObservationJob) (w : worker) : worker :=
  match jobs with [] => w | job :: rest => discard rest (drop_job job (add_slots 1 w)) end.

Definition discardQueuedLocked (w : worker) : worker := discard (us_queue w) (set_queue [] w).

(** What [run] does once it sees that admission is closed. *)
Definition run_closed (w : worker) : worker := if us_drain w then goto PDrain w else goto PDone (discardQueuedLocked w).

Definition resume (drains : bool) (w : worker) : worker := if drains then goto PDrain w else goto PClaim (set_active None w).

(** The answers: the choice of [select], a panic of the parse, the limiters. *)
Record answer := mkAnswer { an_stop_first : bool; an_panics : bool; an_accepted : bool }.

Definition worker_step (a : answer) (w : worker) : worker :=
  match us_pc w with
  | PSelect =>
      if us_stop w && (an_stop_first a || negb (us_wake w)) then run_closed w
      else if us_wake w then goto PClaim (clear_wake w)
      else w
  | PClaim =>
      if negb (us_accepting w) then run_closed w
      else match us_queue w with
           | job :: rest => goto (PParse job false) (set_active (uj_Completion job) (add_slots 1 (set_queue rest w)))
           | [] => goto PSelect w
           end
  | PParse job drains =>
      let w := count_processed w in
      if negb (handled job) then resume drains (settle job Failed [] w)
      else
        match parse_job (an_panics a) job with
        | None => resume drains (settle job Failed (invalidateObservationJob job) w)
        | Some p =>
            match us_phase w with
            | Idle => goto (PAdjust job p drains) (set_phase Adjusting w)
            | _ => resume drains (settle job Failed (invalidateObservationJob job) w)
            end
        end
  | PAdjust job p drains =>
      let w := settle job (if settle_ok (an_accepted a) job p then Succeeded else Failed) (settle_job job p) w in
      resume drains (match us_phase w with Adjusting => set_phase Idle w | _ => w end)
  | PDrain =>
      match us_queue w with
      | job :: rest => goto (PParse job true) (add_slots 1 (set_queue rest w))
      | [] => goto PDone w
      end
  | PDone => w
  end.

(** ** Shutdown, drain and the system

    A deadline makes two attempts to change the phase, one from each of the
    phases it expects, and they are two steps. *)

Inductive event :=
| EvSubmit (job : UsageObservationJob) | EvThread (n : nat) | EvWork (a : answer)
| EvShutdown | EvDrainFlag | EvDrainClose | EvStop | EvTimeoutIdle | EvTimeoutAdjusting | EvDrainTimeout.

Definition handle (ev : event) (w : worker) : worker :=
  match ev with
  | EvSubmit job => submit job w
  | EvThread n => submit_step n w
  | EvWork a => worker_step a w
  | EvShutdown => discardQueuedLocked (finish_active (close_accepting w))
  | EvDrainFlag => set_drain w
  | EvDrainClose => if us_drain w then close_accepting w else w
  | EvStop => if us_accepting w then w else close_stop w
  | EvTimeoutIdle => if us_stop w then match us_phase w with Idle => set_phase Terminal w | _ => w end else w
  | EvTimeoutAdjusting => if us_stop w then match us_phase w with Adjusting => set_phase Terminal w | _ => w end else w
  | EvDrainTimeout => if us_stop w && us_drain w then discardQueuedLocked w else w
  end.

Definition run_worker (evs : list event) (w : worker) : worker := foldl (λ w ev, handle ev w) w evs.

(** ** Every job is settled exactly once *)

Inductive handle_id := HToken (t : nat) | HBudget (b : nat) | HCompletion (c : nat).

Definition handle_of (a : action) : handle_id :=
  match a with
  | AdjustToken t _ | InvalidateToken t => HToken t
  | AdjustBudget b _ | InvalidateBudget b => HBudget b
  | FinishCompletion c _ _ _ => HCompletion c
  end.

Definition job_handles (job : UsageObservationJob) : list handle_id :=
  on (uj_Ticket job) HToken ++ on (uj_BudgetTicket job) HBudget ++ on (uj_Completion job) HCompletion.

Lemma invalidate_handles job : map handle_of (invalidateObservationJob job) = job_handles job.
Proof. unfold invalidateObservationJob, job_handles. destruct (uj_Ticket job), (uj_BudgetTicket job), (uj_Completion job); done. Qed.

Lemma settle_handles job p : map handle_of (settle_job job p) = job_handles job.
Proof.
  unfold settle_job, job_handles. rewrite !map_app. f_equal; [|f_equal].
  - destruct (uj_Ticket job); [|done]. cbn. by destruct (_ || _).
  - destruct (uj_BudgetTicket job); [|done]. cbn. by destruct (budget_cost job p).
  - by destruct (uj_Completion job).
Qed.

Lemma unhandled_handles job : handled job = false → job_handles job = [].
Proof. unfold handled, job_handles. destruct (uj_Ticket job), (uj_BudgetTicket job), (uj_Completion job); done. Qed.

Definition progress (p : pc) : list UsageObservationJob := match p with PParse job _ | PAdjust job _ _ => [job] | _ => [] end.
Definition closed (p : pc) : bool := match p with PParse _ true | PAdjust _ _ true | PDrain | PDone => true | _ => false end.
Definition adjusting (p : pc) : bool := match p with PAdjust _ _ _ => true | _ => false end.
Definition thread_job (t : thread) : UsageObservationJob := match t with Slotted j | Checked j => j end.
Definition entry_job (e : UsageObservationJob * outcome * list action) : UsageObservationJob := e.1.1.

(** A decided job has had each of its handles settled once; a dropped one only invalidated. *)
Definition entry_ok (e : UsageObservationJob * outcome * list action) : Prop :=
  map handle_of e.2 = job_handles e.1.1 ∧ (e.1.2 = Dropped → e.2 = invalidateObservationJob e.1.1).

Record worker_ok (w : worker) : Prop := {
  wk_slots : us_slots w + Z.of_nat (length (us_queue w)) + Z.of_nat (length (us_threads w)) = capacity;
  wk_free : 0 ≤ us_slots w;
  wk_jobs : us_given w ≡ₚ map entry_job (us_settled w) ++ progress (us_pc w) ++ us_queue w ++ map thread_job (us_threads w);
  wk_entries : Forall entry_ok (us_settled w);
  wk_count : us_succeeded w + us_failed w + us_dropped w = Z.of_nat (length (us_settled w));
  wk_processed : us_processed w = us_succeeded w + us_failed w + (if adjusting (us_pc w) then 1 else 0);
  wk_stop : us_stop w = true → us_accepting w = false;
  wk_closed : closed (us_pc w) = true → us_accepting w = false;
  wk_done : us_pc w = PDone → us_queue w = [];
  wk_wake : us_pc w = PSelect → us_accepting w = true → us_queue w ≠ [] → us_wake w = true;
  wk_phase : us_phase w = Adjusting → adjusting (us_pc w) = true;
  wk_claimed : adjusting (us_pc w) = true → us_phase w ≠ Idle;
}.

(** The jobs the worker has taken, and the completions a shutdown may finish. *)
Definition begun (w : worker) : list UsageObservationJob := map entry_job (us_settled w) ++ progress (us_pc w).
Definition of_begun (w : worker) (c : nat) : Prop := ∃ job, job ∈ begun w ∧ uj_Completion job = Some c.
Definition finishes_ok (w : worker) : Prop := (∀ c, us_active w = Some c → of_begun w c) ∧ Forall (of_begun w) (us_finished w).

Lemma drop_entry_ok job : entry_ok (job, Dropped, invalidateObservationJob job).
Proof. split; [apply invalidate_handles|done]. Qed.

Lemma entries_snoc l e : Forall entry_ok l → entry_ok e → Forall entry_ok (l ++ [e]).
Proof. intros. apply Forall_app. split; [done|by apply Forall_singleton]. Qed.

Lemma discard_eq jobs w : discard jobs w =
  mkWorker (us_queue w) (us_slots w + Z.of_nat (length jobs)) (us_wake w) (us_stop w) (us_accepting w) (us_drain w) (us_active w) (us_phase w) (us_pc w)
    (us_submitted w) (us_processed w) (us_succeeded w) (us_failed w) (us_dropped w + Z.of_nat (length jobs)) (us_threads w) (us_given w)
    (us_settled w ++ map (λ j, (j, Dropped, invalidateObservationJob j)) jobs) (us_finished w).
Proof.
  revert w. induction jobs as [|job jobs IH]; intros w.
  - destruct w. cbn. by rewrite app_nil_r, !Z.add_0_r.
  - cbn [discard]. rewrite IH. destruct w. cbn -[Z.of_nat Z.add]. rewrite <- (assoc_L (++)). cbn [app length]. f_equal; lia.
Qed.

Lemma discard_ok w : worker_ok w → us_accepting w = false → worker_ok (discardQueuedLocked w).
Proof.
  intros [] Ha. unfold discardQueuedLocked. rewrite discard_eq. constructor; cbn; try done.
  - lia.
  - lia.
  - rewrite wk_jobs0, map_app, map_map. cbn. rewrite map_id. solve_Permutation.
  - apply Forall_app. split; [done|]. apply Forall_fmap, Forall_true. intros job. apply drop_entry_ok.
  - rewrite length_app, length_map. lia.
Qed.

Lemma discard_queue w : us_queue (discardQueuedLocked w) = [] ∧ us_accepting (discardQueuedLocked w) = us_accepting w ∧
  us_pc (discardQueuedLocked w) = us_pc w.
Proof. unfold discardQueuedLocked. by rewrite discard_eq. Qed.

(** The two lemmas below end the processing of a job. *)
Lemma fail_ok job acts drains w : worker_ok w → us_pc w = PParse job drains → map handle_of acts = job_handles job →
  worker_ok (resume drains (settle job Failed acts (count_processed w))).
Proof.
  intros [] Ep Ha. rewrite Ep in *. cbn in wk_jobs0, wk_processed0, wk_closed0, wk_phase0.
  assert (entry_ok (job, Failed, acts)) as He by done.
  destruct drains; constructor; cbn -[Z.of_nat]; try done; try lia;
    try (rewrite wk_jobs0, map_app; cbn; solve_Permutation); try (by apply entries_snoc); try (rewrite length_app; cbn; lia); congruence.
Qed.

Lemma adjust_ok job p drains r w : worker_ok w → us_pc w = PAdjust job p drains → r ≠ Dropped →
  worker_ok (resume drains (let w := settle job r (settle_job job p) w in match us_phase w with Adjusting => set_phase Idle w | _ => w end)).
Proof.
  intros [] Ep Hr. rewrite Ep in *. cbn in wk_jobs0, wk_processed0, wk_closed0, wk_claimed0. specialize (wk_claimed0 eq_refl).
  assert (entry_ok (job, r, settle_job job p)) as He by (split; [apply settle_handles|done]).
  cbv zeta. cbn [settle us_phase]. destruct (us_phase w) eqn:Eph; [done| |]; destruct drains, r; try done; constructor; cbn -[Z.of_nat]; try done; try lia;
    try (rewrite wk_jobs0, map_app; cbn; solve_Permutation); try (by apply entries_snoc); try (rewrite length_app; cbn; lia); congruence.
Qed.

Lemma run_closed_ok w : worker_ok w → us_accepting w = false → progress (us_pc w) = [] → worker_ok (run_closed w).
Proof.
  intros H Ha Hp. unfold run_closed. assert (∀ w, worker_ok w → us_accepting w = false → progress (us_pc w) = [] → adjusting (us_pc w) = false) as Hadj
    by (intros w' _ _; by destruct (us_pc w')).
  destruct (us_drain w).
  - pose proof (Hadj w H Ha Hp) as E. destruct H. rewrite Hp, E in *. constructor; cbn -[Z.of_nat]; try done; try lia.
  - pose proof (discard_ok w H Ha) as H'. destruct (discard_queue w) as (Eq & Ea & Epc). rewrite Ha in Ea. rewrite <- Epc in Hp.
    set (w' := discardQueuedLocked w) in *. clearbody w'. pose proof (Hadj w' H' Ea Hp) as E. destruct H'. rewrite Hp, E, Eq in *.
    constructor; cbn -[Z.of_nat]; try done; try (by rewrite Eq); try lia.
Qed.

(** A job goes from the queue to the worker. *)
Lemma claim_ok job rest drains c w : worker_ok w → us_queue w = job :: rest → progress (us_pc w) = [] → adjusting (us_pc w) = false →
  (drains = true → us_accepting w = false) →
  worker_ok (goto (PParse job drains) (set_active c (add_slots 1 (set_queue rest w)))).
Proof.
  intros [] Eq Hp Hadj Hd. rewrite Hp, Hadj, Eq in *. cbn in wk_slots0.
  constructor; cbn -[Z.of_nat]; try done; try lia.
Qed.

Lemma usage_worker_step_ok a w : worker_ok w → worker_ok (worker_step a w).
Proof.
  intros H. unfold worker_step. destruct (us_pc w) as [| |job d|job p d| |] eqn:Ep.
  - destruct (us_stop w && _) eqn:Es.
    + apply andb_true_iff in Es as [Es _]. apply run_closed_ok; [done|by apply H|by rewrite Ep].
    + destruct (us_wake w) eqn:Ew; [|done]. destruct H. rewrite Ep in *. by constructor.
  - destruct (us_accepting w) eqn:Ea; cbn [negb]; [|apply run_closed_ok; by rewrite ?Ep].
    destruct (us_queue w) as [|job rest] eqn:Eq.
    + destruct H. rewrite Ep, ?Eq in *. constructor; cbn -[Z.of_nat]; rewrite ?Eq; done.
    + apply claim_ok; rewrite ?Ep; done.
  - destruct (handled job) eqn:Eh; cbn [negb].
    2:{ apply fail_ok; [done|done|]. by rewrite unhandled_handles. }
    destruct (parse_job (an_panics a) job) as [p|]; [|apply fail_ok; try done; apply invalidate_handles].
    cbn [count_processed us_phase]. destruct (us_phase w) eqn:Eph; try (apply fail_ok; try done; apply invalidate_handles).
    destruct H. rewrite Ep in *. cbn in *. constructor; cbn -[Z.of_nat]; try done. lia.
  - apply adjust_ok; try done. by destruct (settle_ok _ _ _).
  - destruct (us_queue w) as [|job rest] eqn:Eq.
    + destruct H. rewrite Ep, ?Eq in *. constructor; cbn -[Z.of_nat]; rewrite ?Eq; done.
    + assert (us_accepting w = false) as Ha by (apply (wk_closed _ H); by rewrite Ep).
      assert (goto (PParse job true) (add_slots 1 (set_queue rest w)) = goto (PParse job true) (set_active (us_active w) (add_slots 1 (set_queue rest w)))) as -> by done.
      apply claim_ok; rewrite ?Ep; done.
  - done.
Qed.

Lemma drop_ok job w : worker_ok w → progress (us_pc w) = progress (us_pc w) → worker_ok (drop_job job (give job w)).
Proof.
  intros [] _. constructor; cbn -[Z.of_nat]; try done; try lia.
  - rewrite wk_jobs0, map_app. cbn. solve_Permutation.
  - apply entries_snoc; [done|apply drop_entry_ok].
  - rewrite length_app. cbn. lia.
Qed.

Lemma submit_ok job w : worker_ok w → worker_ok (submit job w).
Proof.
  intros H. unfold submit. cbv zeta. destruct (_ || _ || _); [by apply drop_ok|]. destruct (Z.leb_spec (us_slots (give job w)) 0) as [|Hs]; [by apply drop_ok|].
  cbn in Hs. destruct H. constructor; cbn -[Z.of_nat]; try done; try lia.
  - rewrite length_app. cbn. lia.
  - rewrite wk_jobs0, map_app. cbn. solve_Permutation.
Qed.

(** A submission that gives up. *)
Lemma give_up_ok n t w : worker_ok w → us_threads w !! n = Some t →
  worker_ok (drop_job (thread_job t) (add_slots 1 (set_threads (delete n (us_threads w)) w))).
Proof.
  intros [] En. pose proof (delete_Permutation _ _ _ En) as Hp. apply Permutation_length in Hp as Hl. cbn in Hl.
  constructor; cbn -[Z.of_nat]; try done; try lia.
  - rewrite wk_jobs0, (Permutation_map thread_job Hp), map_app. cbn. solve_Permutation.
  - apply entries_snoc; [done|apply drop_entry_ok].
  - rewrite length_app. cbn. lia.
Qed.

Lemma submit_step_ok n w : worker_ok w → worker_ok (submit_step n w).
Proof.
  intros H. unfold submit_step. destruct (us_threads w !! n) as [[job|job]|] eqn:En; [| |done].
  - destruct (us_accepting w) eqn:Ea; [|by apply (give_up_ok n _ w H En)]. destruct H.
    constructor; cbn -[Z.of_nat]; try done; rewrite ?length_insert; try done.
    rewrite list_fmap_insert. cbn. rewrite list_insert_id; [done|]. by rewrite list_lookup_fmap, En.
  - destruct (us_accepting w) eqn:Ea; [|by apply (give_up_ok n _ w H En)].
    destruct (Z.ltb_spec (Z.of_nat (length (us_queue w))) capacity); [|by apply (give_up_ok n _ w H En)].
    pose proof (delete_Permutation _ _ _ En) as Hp. apply Permutation_length in Hp as Hl. cbn in Hl. destruct H.
    constructor; cbn -[Z.of_nat]; try done; try lia.
    + rewrite length_app. cbn. lia.
    + rewrite wk_jobs0, (Permutation_map thread_job Hp). cbn. solve_Permutation.
    + intros E. by rewrite wk_closed0 in Ea by (by rewrite E).
Qed.

Lemma usage_handle_ok ev w : worker_ok w → worker_ok (handle ev w).
Proof.
  intros H. destruct ev as [job|n|a| | | | | | |]; cbn [handle].
  - by apply submit_ok.
  - by apply submit_step_ok.
  - by apply usage_worker_step_ok.
  - apply discard_ok; [|done]. destruct H. by constructor.
  - destruct H. by constructor.
  - destruct (us_drain w); [|done]. destruct H. by constructor.
  - destruct (us_accepting w) eqn:Ea; [done|]. destruct H. by constructor.
  - destruct (us_stop w); [|done]. destruct (us_phase w) eqn:Eph; try done. destruct H. by constructor.
  - destruct (us_stop w); [|done]. destruct (us_phase w) eqn:Eph; try done. destruct H. by constructor.
  - destruct (us_stop w && us_drain w) eqn:E; [|done]. apply andb_true_iff in E as [E _]. apply discard_ok; [done|by apply H].
Qed.

Lemma run_usage_worker_ok evs w : worker_ok w → worker_ok (run_worker evs w).
Proof. revert w. unfold run_worker. induction evs as [|ev evs IH]; intros w H; [done|]. cbn. by apply IH, usage_handle_ok. Qed.

Lemma new_usage_worker_ok : 0 ≤ capacity → worker_ok NewUsageObservationWorker.
Proof. intros H. constructor; try done. cbn. lia. Qed.

(** ** Adjustments after a timeout *)

Definition adjusts (a : action) : bool := match a with AdjustToken _ _ | AdjustBudget _ _ => true | _ => false end.
Definition no_adjust (e : UsageObservationJob * outcome * list action) : Prop := existsb adjusts e.2 = false.

Lemma invalidate_no_adjust job r : no_adjust (job, r, invalidateObservationJob job).
Proof. unfold no_adjust, invalidateObservationJob. destruct (uj_Ticket job), (uj_BudgetTicket job), (uj_Completion job); done. Qed.

(** What is settled from a terminal phase on: at most the job whose adjustment
    the worker had claimed is adjusted. *)
Definition grows (w w' : worker) : Prop := ∃ new, us_settled w' = us_settled w ++ new ∧
  (Forall no_adjust new ∧ (adjusting (us_pc w') = true → us_pc w' = us_pc w) ∨
   ∃ before e after, new = before ++ e :: after ∧ Forall no_adjust (before ++ after) ∧ adjusting (us_pc w) = true ∧ progress (us_pc w) = [entry_job e] ∧
     adjusting (us_pc w') = false).

Lemma grows_same w w' : us_settled w' = us_settled w → (adjusting (us_pc w') = true → us_pc w' = us_pc w) → grows w w'.
Proof. intros E H. exists []. rewrite app_nil_r. split; [done|]. by left. Qed.

Lemma grows_one w w' job r : us_settled w' = us_settled w ++ [(job, r, invalidateObservationJob job)] → (adjusting (us_pc w') = true → us_pc w' = us_pc w) → grows w w'.
Proof. intros E H. eexists. split; [exact E|]. left. split; [|done]. apply Forall_singleton, invalidate_no_adjust. Qed.

Lemma grows_discard w w' : us_settled w' = us_settled w ++ map (λ j, (j, Dropped, invalidateObservationJob j)) (us_queue w) →
  (adjusting (us_pc w') = true → us_pc w' = us_pc w) → grows w w'.
Proof. intros E H. eexists. split; [exact E|]. left. split; [|done]. apply Forall_fmap, Forall_true. intros job. apply invalidate_no_adjust. Qed.

Lemma grows_trans w1 w2 w3 : grows w1 w2 → grows w2 w3 → grows w1 w3.
Proof.
  intros (n1 & E1 & H1) (n2 & E2 & H2). exists (n1 ++ n2). rewrite E2, E1, (assoc_L (++)). split; [done|].
  destruct H1 as [[F1 P1]|(b & e & a & -> & F1 & A1 & G1 & Q1)], H2 as [[F2 P2]|(b' & e' & a' & -> & F2 & A2 & G2 & Q2)].
  - left. split; [by apply Forall_app|]. intros A3. pose proof (P2 A3) as E3. rewrite E3 in *. by apply P1.
  - right. exists (n1 ++ b'), e', a'. pose proof (P1 A2) as E3. rewrite E3 in *. rewrite <-!(assoc_L (++)). split_and!; try done. by apply Forall_app.
  - right. exists b, e, (a ++ n2). rewrite <-(assoc_L (++)). cbn. split_and!; try done; [rewrite (assoc_L (++)); by apply Forall_app|].
    destruct (adjusting (us_pc w3)) eqn:A3; [|done]. pose proof (P2 eq_refl) as E3. congruence.
  - congruence.
Qed.

Lemma terminal_step ev w : us_phase w = Terminal → us_phase (handle ev w) = Terminal ∧ grows w (handle ev w).
Proof.
  intros Ht. destruct ev as [job|n|a| | | | | | |]; cbn [handle].
  - unfold submit. cbv zeta. destruct (_ || _ || _); [split; [done|by eapply grows_one]|]. destruct (_ <=? 0); [split; [done|by eapply grows_one]|].
    split; [done|by apply grows_same].
  - unfold submit_step. destruct (us_threads w !! n) as [[job|job]|]; [| |split; [done|by apply grows_same]].
    + destruct (us_accepting w); split; try done; [by apply grows_same|by eapply grows_one].
    + destruct (us_accepting w); [destruct (_ <? _)|]; split; try done; [by apply grows_same|by eapply grows_one|by eapply grows_one].
  - unfold worker_step, run_closed, resume, discardQueuedLocked. rewrite !discard_eq.
    destruct (us_pc w) as [| |job d|job p d| |] eqn:Ep.
    + destruct (us_stop w && _); [destruct (us_drain w)|destruct (us_wake w)]; (split; [done|]); try (by apply grows_same). by eapply grows_discard.
    + destruct (us_accepting w); cbn [negb]; [destruct (us_queue w)|destruct (us_drain w)]; (split; [done|]); try (by apply grows_same).
      by eapply grows_discard.
    + destruct (handled job); cbn [negb].
      2:{ destruct d; (split; [done|]); exists [(job, Failed, [])]; (split; [done|left; split; [by apply Forall_singleton|done]]). }
      destruct (parse_job (an_panics a) job) as [p|]; cbn [count_processed us_phase]; rewrite ?Ht; destruct d; (split; [done|]); by eapply grows_one.
    + cbn [settle us_phase]. rewrite Ht. destruct d; (split; [done|]); (eexists; split; [reflexivity|]); right; exists []; eexists _, [];
        (split; [reflexivity|]); rewrite Ep; (split; [by apply Forall_nil|done]).
    + destruct (us_queue w); (split; [done|]); by apply grows_same.
    + split; [done|by apply grows_same].
  - unfold discardQueuedLocked. rewrite discard_eq. split; [done|by apply grows_discard].
  - split; [done|by apply grows_same].
  - destruct (us_drain w); (split; [done|by apply grows_same]).
  - destruct (us_accepting w); (split; [done|by apply grows_same]).
  - rewrite Ht. destruct (us_stop w); (split; [done|by apply grows_same]).
  - rewrite Ht. destruct (us_stop w); (split; [done|by apply grows_same]).
  - unfold discardQueuedLocked. rewrite discard_eq. destruct (_ && _); (split; [done|]); [by apply grows_discard|by apply grows_same].
Qed.

Lemma terminal_run evs w : us_phase w = Terminal → grows w (run_worker evs w).
Proof.
  revert w. unfold run_worker. induction evs as [|ev evs IH]; intros w H; [by apply grows_same|]. cbn [foldl].
  destruct (terminal_step ev w H) as [H' Hg]. by eapply grows_trans, IH.
Qed.

(** ** Completions finished by a shutdown *)

Lemma of_begun_mono w w' c : begun w ⊆ begun w' → of_begun w c → of_begun w' c.
Proof. intros H (job & Hj & E). exists job. split; [by apply H|done]. Qed.

Lemma finishes_keep w w' : finishes_ok w → begun w ⊆ begun w' → (us_active w' = us_active w ∨ us_active w' = None) → us_finished w' = us_finished w → finishes_ok w'.
Proof.
  intros [Ha Hf] Hb Hact E. split.
  - intros c Hc. eapply of_begun_mono; [exact Hb|]. apply Ha. destruct Hact; congruence.
  - rewrite E. eapply Forall_impl; [exact Hf|]. intros c. by apply of_begun_mono.
Qed.

Lemma work_finishes a w : finishes_ok w → finishes_ok (worker_step a w).
Proof.
  intros H. unfold worker_step, run_closed, resume, discardQueuedLocked. rewrite !discard_eq.
  destruct (us_pc w) as [| |job d|job p d| |] eqn:Ep.
  - destruct (us_stop w && _); [destruct (us_drain w)|destruct (us_wake w)]; (eapply finishes_keep; [exact H| |by left|done]); unfold begun; rewrite Ep; cbn; rewrite ?map_app; set_solver.
  - destruct (us_accepting w); cbn [negb].
    2:{ destruct (us_drain w); (eapply finishes_keep; [exact H| |by left|done]); unfold begun; rewrite Ep; cbn; rewrite ?map_app; set_solver. }
    destruct (us_queue w) as [|job rest]; [eapply finishes_keep; [exact H|unfold begun; rewrite Ep; cbn; set_solver|by left|done]|].
    destruct H as [_ Hf]. split; cbn.
    + intros c Hc. exists job. split; [unfold begun; cbn; set_solver|done].
    + eapply Forall_impl; [exact Hf|]. intros c. apply of_begun_mono. unfold begun. rewrite Ep. cbn. set_solver.
  - destruct (handled job); cbn [negb]; [destruct (parse_job (an_panics a) job); [cbn [count_processed us_phase]; destruct (us_phase w)|]|]; try destruct d.
    all: (eapply finishes_keep; [exact H| |first [by left|by right]|done]); unfold begun; rewrite Ep; cbn; rewrite ?map_app; set_solver.
  - cbn [settle us_phase]. destruct (us_phase w), d; (eapply finishes_keep; [exact H| |first [by left|by right]|done]); unfold begun; rewrite Ep; cbn; rewrite ?map_app; set_solver.
  - destruct (us_queue w); (eapply finishes_keep; [exact H| |by left|done]); unfold begun; rewrite Ep; cbn; set_solver.
  - done.
Qed.

Lemma handle_finishes ev w : finishes_ok w → finishes_ok (handle ev w).
Proof.
  intros H. destruct ev as [job|n|a| | | | | | |]; cbn [handle]; [| |by apply work_finishes|..].
  - unfold submit. cbv zeta. repeat case_match; (eapply finishes_keep; [exact H| |by left|done]); unfold begun; cbn; rewrite ?map_app; set_solver.
  - unfold submit_step. repeat case_match; (eapply finishes_keep; [exact H| |by left|done]); unfold begun; cbn; rewrite ?map_app; set_solver.
  - unfold discardQueuedLocked. rewrite discard_eq. assert (∀ c, of_begun w c → of_begun (discardQueuedLocked (finish_active (close_accepting w))) c) as Hb.
    { intros c. apply of_begun_mono. unfold discardQueuedLocked. rewrite discard_eq. unfold begun. cbn. rewrite map_app. set_solver. }
    unfold discardQueuedLocked in Hb. rewrite discard_eq in Hb. destruct H as [Ha Hf]. split; cbn.
    + intros c Hc. apply Hb. by apply Ha.
    + apply Forall_app. split; [by eapply Forall_impl|]. destruct (us_active w) as [c|] eqn:Ec; [|by apply Forall_nil]. cbn. apply Forall_singleton, Hb. by apply Ha.
  - eapply finishes_keep; [exact H|done|by left|done].
  - case_match; (eapply finishes_keep; [exact H|done|by left|done]).
  - case_match; (eapply finishes_keep; [exact H|done|by left|done]).
  - repeat case_match; (eapply finishes_keep; [exact H|done|by left|done]).
  - repeat case_match; (eapply finishes_keep; [exact H|done|by left|done]).
  - case_match; [|done]. unfold discardQueuedLocked. rewrite discard_eq. eapply finishes_keep; [exact H| |by left|done]. unfold begun. cbn. rewrite map_app. set_solver.
Qed.

Lemma run_finishes evs w : finishes_ok w → finishes_ok (run_worker evs w).
Proof. revert w. unfold run_worker. induction evs as [|ev evs IH]; intros w H; [done|]. cbn. by apply IH, handle_finishes. Qed.
End worker.

(** ** Hand-off from a completed transport *)

(** The lease has been completed, which gave the tickets; [transferred] is the
    answer of the completion's [transfer].  The result is the invalidation of
    the tickets, or the job for [submit], or nothing at all. *)
Inductive handoff := NoHandoff | Invalidated (acts : list action) | Handed (job : UsageObservationJob).

Definition completeAndSubmitWithPricingTimingAndRequest (lease : option (option nat * option nat)) (captured : bytes) (coding : ContentCoding)
    (pricing : PricingResolution) (completion : option nat) (transferred : bool) (checkpoints : list streamCheckpoint) (checkpointOverflow : bool)
    (request : option bytes) (resolver : PricingResolver) : handoff :=
  match lease with
  | None => NoHandoff
  | Some (token, budget) =>
      if bool_decide (token = None) && bool_decide (budget = None) && bool_decide (completion = None) then NoHandoff
      else if bool_decide (is_Some completion) && negb transferred
      then Invalidated (invalidateObservationJob (mkUsageJob [] 0 token budget UnknownPricingResolution None [] false [] (mkResolver false ∅ []) false))
      else
        let job := newUsageObservationJobOwned captured coding token in
        Handed (mkUsageJob (uj_Bytes job) coding token budget pricing completion checkpoints checkpointOverflow
                  (default [] request) (match request with Some _ => resolver | None => mkResolver false ∅ [] end) (bool_decide (is_Some request)))
  end.

(** The tickets of a completed lease are invalidated or handed on. *)
Lemma handoff_keeps_tickets token budget captured coding pricing completion transferred checkpoints overflow request resolver :
  match completeAndSubmitWithPricingTimingAndRequest (Some (token, budget)) captured coding pricing completion transferred checkpoints overflow request resolver with
  | NoHandoff => token = None ∧ budget = None ∧ completion = None
  | Invalidated acts => map handle_of acts = on token HToken ++ on budget HBudget ∧ transferred = false
  | Handed job => job_handles job = on token HToken ++ on budget HBudget ++ on completion HCompletion ∧
      Z.of_nat (length (uj_Bytes job)) ≤ DefaultUsageObservationMaxBytes
  end.
Proof.
  unfold completeAndSubmitWithPricingTimingAndRequest. destruct (bool_decide (token = None) && _ && _) eqn:E1.
  { apply andb_true_iff in E1 as [[E1 E2]%andb_true_iff E3]. by rewrite !bool_decide_eq_true in *. }
  destruct (bool_decide (is_Some completion) && negb transferred) eqn:E2.
  - apply andb_true_iff in E2 as [_ E2%negb_true_iff]. split; [|done]. rewrite invalidate_handles. unfold job_handles. cbn. by rewrite app_nil_r.
  - split; [done|]. cbn. rewrite length_take. unfold DefaultUsageObservationMaxBytes. lia.
Qed.

(** ** Theorem *)

Definition defaultUsageObservationQueueCapacity : Z := 128.
Definition usage_capacity (n : Z) : Z := if n <=? 0 then defaultUsageObservationQueueCapacity else n.
Definition usage_max_bytes (n : Z) : Z :=
  let n := if n <=? 0 then DefaultUsageObservationMaxBytes else n in if DefaultUsageObservationMaxBytes <? n then DefaultUsageObservationMaxBytes else n.

(** C30: The usage worker settles every job exactly once and strands none.
    Under every interleaving of submissions, worker steps, shutdowns, drains
    and timeouts, with any decompressor, panics and answers of the limiters:
    the submitted jobs are exactly the settled ones, the one in progress, the
    queued ones and those of submissions in progress; the settlement of a job
    settles each of its tickets and its completion once, that of a dropped job
    only by invalidation; besides, a shutdown may finish a completion early,
    and only that of a job in progress or already settled;
    slots, queue and submissions in progress add up to the capacity, so neither
    the queue nor the slots overflow; a waiting worker with a queued job has been
    woken; a finished worker leaves no job; parsing always returns; and from a
    state whose phase is terminal on, at most one job is adjusted, the one whose
    adjustment the worker had claimed in that state. *)
Theorem usage_jobs_settled_once gunzip n m evs :
  let capacity := usage_capacity n in
  let maxBytes := usage_max_bytes m in
  let run := run_worker gunzip capacity maxBytes in
  let w := run evs (NewUsageObservationWorker capacity) in
  us_given w ≡ₚ map entry_job (us_settled w) ++ progress (us_pc w) ++ us_queue w ++ map thread_job (us_threads w) ∧
  Forall entry_ok (us_settled w) ∧
  us_slots w + Z.of_nat (length (us_queue w)) + Z.of_nat (length (us_threads w)) = capacity ∧ 0 ≤ us_slots w ∧
  us_succeeded w + us_failed w + us_dropped w = Z.of_nat (length (us_settled w)) ∧
  (us_pc w = PSelect → us_accepting w = true → us_queue w ≠ [] → us_wake w = true) ∧
  (us_pc w = PDone → us_queue w = [] ∧ us_accepting w = false) ∧
  (∀ data coding checkpoints overflow, parseCanonicalUsageObservationWithTiming gunzip data coding maxBytes checkpoints overflow ≠ None ∧
    parseUsageObservation gunzip data coding maxBytes ≠ None) ∧
  Forall (λ c, ∃ job, job ∈ map entry_job (us_settled w) ++ progress (us_pc w) ∧ uj_Completion job = Some c) (us_finished w) ∧
  (us_phase w = Terminal → ∀ evs', ∃ new, us_settled (run evs' w) = us_settled w ++ new ∧
    (Forall no_adjust new ∨
     ∃ before e after, new = before ++ e :: after ∧ Forall no_adjust (before ++ after) ∧ adjusting (us_pc w) = true ∧ progress (us_pc w) = [entry_job e])).
Proof.
  cbv zeta. set (capacity := usage_capacity n). set (maxBytes := usage_max_bytes m).
  assert (0 ≤ capacity) as Hc by (unfold capacity, usage_capacity, defaultUsageObservationQueueCapacity; destruct (Z.leb_spec n 0); lia).
  assert (0 ≤ maxBytes ≤ DefaultUsageObservationMaxBytes) as Hm.
  { unfold maxBytes, usage_max_bytes, DefaultUsageObservationMaxBytes. cbv zeta. change (8 * 1024 * 1024) with 8388608.
    destruct (Z.leb_spec m 0); [change (8388608 <? 8388608) with false; cbv iota; lia|]. destruct (Z.ltb_spec 8388608 m); lia. }
  pose proof (run_usage_worker_ok gunzip capacity maxBytes evs _ (new_usage_worker_ok capacity Hc)) as H.
  assert (finishes_ok (run_worker gunzip capacity maxBytes evs (NewUsageObservationWorker capacity))) as Hfin by (apply run_finishes; split; [done|by apply Forall_nil]).
  set (w := run_worker _ _ _ evs _) in *. clearbody w. pose proof H as []. split_and!; try done.
  - intros E. split; [by apply wk_done0|]. apply wk_closed0. by rewrite E.
  - intros. split; [by apply parseCanonical_total|by apply parseUsage_total].
  - apply Hfin.
  - intros Ht evs'. destruct (terminal_run gunzip capacity maxBytes evs' w Ht) as (new & E & H'). exists new. split; [done|]. naive_solver.
Qed.

(** ** A deadline that misses both phases

    The two attempts of a deadline are not atomic: when the adjustment in
    progress ends between them, the first has seen it in progress and the second
    sees no adjustment, the phase stays idle, and a job claimed before the queue
    is discarded adjusts its ticket after [Drain] has returned. *)

Definition demo_body : bytes :=
  let q := str (String.String (ascii_of_nat 34) EmptyString) in str "{" ++ q ++ str "usage" ++ q ++ str ":{" ++ q ++ str "total_tokens" ++ q ++ str ":5}}".
Definition demo_job (ticket : nat) : UsageObservationJob := newUsageObservationJobOwned demo_body ContentCodingIdentity (Some ticket).
Definition demo_work : event := EvWork (mkAnswer false false true).

Definition demo_drain : list event :=
  [EvSubmit (demo_job 1); EvThread 0; EvThread 0; EvSubmit (demo_job 2); EvThread 0; EvThread 0;
   demo_work; demo_work; demo_work;                   (* the worker claims the first job and begins its adjustment *)
   EvDrainFlag; EvDrainClose; EvStop; EvTimeoutIdle;  (* the deadline: its first attempt sees the adjustment *)
   demo_work;                                         (* the adjustment ends *)
   EvTimeoutAdjusting;                                (* the second attempt sees none *)
   demo_work; demo_work;                              (* the worker drains and claims the second job *)
   EvDrainTimeout].                                   (* the queue is empty, Drain returns *)

Lemma drain_deadline_adjusts_late gunzip :
  let w := run_worker gunzip 8 100 demo_drain (NewUsageObservationWorker 8) in
  let w' := run_worker gunzip 8 100 [demo_work; demo_work] w in
  us_settled w = [(demo_job 1, Succeeded, [AdjustToken 1 5])] ∧
  us_settled w' = [(demo_job 1, Succeeded, [AdjustToken 1 5]); (demo_job 2, Succeeded, [AdjustToken 2 5])].
Proof. vm_compute. split; reflexivity. Qed.
