(* ===== verification/HttpHeaders.v ===== *)
(** * HTTP headers and paths between the client and the upstream

    [internal/httpserver/server.go]: which headers cross the gateway in either
    direction, the declared length of a response, the size of a request's
    header, and the path of the upstream request.  [http.Header] is a map from
    names to values whose operations use the canonical spelling of a name;
    Go's iteration order is any order of its entries. *)

From Stdlib Require Import Ascii ZArith Lia ZifyBool.
From stdpp Require Import prelude strings list gmap.
From S2P Require Import Prelude Text Utf8 Json CompletionRecord UsageObservation.
Local Open Scope Z_scope.

#[local] Arguments str : simpl never.

Abbreviation lenZ l := (Z.of_nat (length l)).

(** ** [net/http] headers *)

Definition token_symbols : bytes := str "!#$%&'*+-.^_`|~".

Definition is_lower (c : ascii) : bool := (97 <=? code c) && (code c <=? 122).
Definition is_upper (c : ascii) : bool := (65 <=? code c) && (code c <=? 90).

Definition validHeaderFieldByte (c : ascii) : bool :=
  is_digit c || is_lower c || is_upper c || existsb (byte_eqb c) token_symbols.

Fixpoint canonical_loop (upper : bool) (s : bytes) : bytes :=
  match s with
  | [] => []
  | c :: s =>
      let c := if upper && is_lower c then chr (code c - 32) else if negb upper && is_upper c then chr (code c + 32) else c in
      c :: canonical_loop (byte_eqb c minus_char) s
  end.

Definition CanonicalHeaderKey (name : bytes) : bytes :=
  if forallb validHeaderFieldByte name then canonical_loop true name else name.

Abbreviation Header := (gmap bytes (list bytes)).

Definition emptyHeader : Header := ∅.
Definition entry (k : bytes) (h : Header) : list bytes := default [] (h !! k).
Definition Values (h : Header) (name : bytes) : list bytes := entry (CanonicalHeaderKey name) h.
Definition Add (name value : bytes) (h : Header) : Header :=
  let k := CanonicalHeaderKey name in <[k := entry k h ++ [value]]> h.
Definition Set_ (name value : bytes) (h : Header) : Header := <[CanonicalHeaderKey name := [value]]> h.
Definition Del (name : bytes) (h : Header) : Header := delete (CanonicalHeaderKey name) h.

(** [strings.ToLower], where it is compared with ASCII names: beside the ASCII
    capitals, U+0130 and U+212A are the only letters whose lower case is ASCII;
    the other bytes that are not ASCII stay so, and are kept as they are. *)
Fixpoint ToLower (s : bytes) : bytes :=
  match s with
  | c :: s1 =>
      match s1 with
      | d :: s2 =>
          if (code c =? 196) && (code d =? 176) then "i"%char :: ToLower s2
          else match s2 with
               | e :: s3 => if (code c =? 226) && (code d =? 132) && (code e =? 170) then "k"%char :: ToLower s3 else lower_byte c :: ToLower s1
               | [] => lower_byte c :: ToLower s1
               end
      | [] => [lower_byte c]
      end
  | [] => []
  end.

Fixpoint Split (s : bytes) (sep : ascii) : list bytes :=
  match s with
  | [] => [[]]
  | c :: s => if byte_eqb c sep then [] :: Split s sep else match Split s sep with part :: parts => (c :: part) :: parts | [] => [[c]] end
  end.

(** ** Which headers cross *)

Definition hopByHopHeaders : list bytes :=
  [str "connection"; str "keep-alive"; str "proxy-authenticate"; str "proxy-authorization"; str "proxy-connection"; str "te";
   str "trailer"; str "transfer-encoding"; str "upgrade"].

Definition connectionTokens (source : Header) : list bytes :=
  value ← Values source (str "Connection"); (λ token, ToLower (TrimSpace token)) <$> Split value ","%char.

Definition member (name : bytes) (names : list bytes) : bool := existsb (same name) names.

(** One pass over the entries, in the order Go yields them. *)
Definition copy_entries (skip : bytes → bool) (entries : list (bytes * list bytes)) (destination : Header) : Header :=
  foldl (λ d '(name, values), if skip (ToLower name) then d else foldl (λ d value, Add name value d) d values) destination entries.

Definition skipped (source : Header) (deniedHeaders : list bytes) (lowerName : bytes) : bool :=
  member lowerName hopByHopHeaders || member lowerName (connectionTokens source) || member lowerName deniedHeaders.

Definition copyHeaders (entries : list (bytes * list bytes)) (source : Header) (deniedHeaders : list bytes) : Header → Header :=
  copy_entries (skipped source deniedHeaders) entries.

Definition copyEndToEndHeaders (entries : list (bytes * list bytes)) (source : Header) : Header → Header := copyHeaders entries source [].

Definition credentialHeaders : list bytes :=
  [str "authorization"; str "proxy-authorization"; str "api-key"; str "x-api-key"; str "x-upstream-api-key"; str "x-goog-api-key";
   str "x-anthropic-api-key"; str "x-auth-token"].

Definition copyResponseHeaders (entries : list (bytes * list bytes)) (source : Header) : Header → Header :=
  copyHeaders entries source credentialHeaders.

Definition transformedRepresentationHeaders : list bytes :=
  [str "Content-Type"; str "Content-Encoding"; str "Content-Length"; str "Content-Range"; str "Accept-Ranges"; str "ETag";
   str "Content-MD5"; str "Digest"; str "Content-Digest"; str "Last-Modified"].

Definition copyTransformedResponseHeaders (entries : list (bytes * list bytes)) (source destination : Header) : Header :=
  foldl (λ d name, Del name d) (copyResponseHeaders entries source destination) transformedRepresentationHeaders.

(** ** Lengths *)

(** [upstream.ContentLength], whether the body is nil or [http.NoBody], and the header. *)
Definition responseContentLength (contentLength : Z) (noBody : bool) (header : Header) : Z * bool :=
  if (0 <? contentLength) || ((contentLength =? 0) && noBody) then (contentLength, true)
  else match Values header (str "Content-Length") with
       | [value] => match ParseInt (TrimSpace value) with
                    | Ok value => if 0 <=? value then (value, true) else (0, false)
                    | Err _ => (0, false)
                    end
       | _ => (0, false)
       end.

Definition maxIngressHeaderBytes : Z := 16 * 1024.

(** The loop returns early; [inl] is that return. *)
Fixpoint value_bytes (total : Z) (values : list bytes) : Z + Z :=
  match values with
  | [] => inr total
  | value :: values =>
      let total := total + (lenZ value + 2) in
      if maxIngressHeaderBytes <? total then inl total else value_bytes total values
  end.

Fixpoint header_bytes (total : Z) (entries : list (bytes * list bytes)) : Z + Z :=
  match entries with
  | [] => inr total
  | (name, values) :: entries =>
      if EqualFold name (str "host") then header_bytes total entries
      else match value_bytes (total + (lenZ name + 2)) values with
           | inl total => inl total
           | inr total => if maxIngressHeaderBytes <? total then inl total else header_bytes total entries
           end
  end.

Definition requestHeaderBytes (entries : list (bytes * list bytes)) (host : bytes) : Z :=
  match header_bytes 0 entries with
  | inl total => total
  | inr total => if bool_decide (host = []) then total else total + (4 + 2 + lenZ host + 2)
  end.

(** ** Paths

    A parsed URL, with the result of its [EscapedPath]. *)
Record url := mkUrl { u_Path : bytes; u_RawPath : bytes; u_EscapedPath : bytes; u_RawQuery : bytes }.

Definition slash : ascii := "/"%char.
Definition ends_slash (s : bytes) : bool := HasSuffix s [slash].
Definition starts_slash (s : bytes) : bool := HasPrefix s [slash].

Definition joinPath (basePath requestPath : bytes) : bytes * bytes :=
  let baseSlash := ends_slash basePath in
  let requestSlash := starts_slash requestPath in
  if baseSlash && requestSlash then (basePath ++ drop 1 requestPath, [])
  else if negb baseSlash && negb requestSlash then (basePath ++ slash :: requestPath, [])
  else (basePath ++ requestPath, []).

(** [requestURL.Path[1:]] panics on an empty path: [None]. *)
Definition tail (s : bytes) : option bytes := match s with [] => None | _ :: s => Some s end.

Definition joinURLPath (baseURL requestURL : url) : option (bytes * bytes) :=
  if bool_decide (u_RawPath baseURL = []) && bool_decide (u_RawPath requestURL = []) then
    Some (joinPath (u_Path baseURL) (u_Path requestURL))
  else
    let baseSlash := ends_slash (u_EscapedPath baseURL) in
    let requestSlash := starts_slash (u_EscapedPath requestURL) in
    if baseSlash && requestSlash then
      path ← tail (u_Path requestURL); escaped ← tail (u_EscapedPath requestURL);
      Some (u_Path baseURL ++ path, u_EscapedPath baseURL ++ escaped)
    else if negb baseSlash && negb requestSlash then
      Some (u_Path baseURL ++ slash :: u_Path requestURL, u_EscapedPath baseURL ++ slash :: u_EscapedPath requestURL)
    else Some (u_Path baseURL ++ u_Path requestURL, u_EscapedPath baseURL ++ u_EscapedPath requestURL).

Example canonical_names :
  map CanonicalHeaderKey [str "content-type"; str "ETag"; str "x-GOOG-api-key"; str "bad name"] =
  [str "Content-Type"; str "Etag"; str "X-Goog-Api-Key"; str "bad name"].
Proof. reflexivity. Qed.

Example joined_paths :
  joinPath (str "/api/") (str "/v1/models") = (str "/api/v1/models", []) ∧ joinPath (str "/api") (str "/v1/models") = (str "/api/v1/models", []) ∧
  joinPath [] (str "v1") = (str "/v1", []).
Proof. done. Qed.

Example header_sizes : requestHeaderBytes [(str "Host", [str "ignored"]); (str "Accept", [str "a"; str "bc"])] (str "example") = 30.
Proof. reflexivity. Qed.

(** ** What crosses, exactly *)

Lemma entry_Add name value k h :
  entry k (Add name value h) = entry k h ++ (if bool_decide (k = CanonicalHeaderKey name) then [value] else []).
Proof.
  unfold Add. cbv zeta. unfold entry. case_bool_decide as E; [subst; by rewrite lookup_insert_eq|].
  by rewrite lookup_insert_ne, app_nil_r by done.
Qed.

Lemma entry_Add_all name values k h :
  entry k (foldl (λ d value, Add name value d) h values) = entry k h ++ (if bool_decide (k = CanonicalHeaderKey name) then values else []).
Proof.
  revert h. induction values as [|v values IH]; intros h; cbn; [by case_bool_decide; rewrite app_nil_r|].
  rewrite IH, entry_Add. case_bool_decide; by rewrite <-app_assoc.
Qed.

(** What the entries that are not skipped hold under one name. *)
Definition passed (skip : bytes → bool) (k : bytes) (entries : list (bytes * list bytes)) : list bytes :=
  '(name, values) ← entries; if negb (skip (ToLower name)) && bool_decide (k = CanonicalHeaderKey name) then values else [].

Lemma entry_copy skip entries k h : entry k (copy_entries skip entries h) = entry k h ++ passed skip k entries.
Proof.
  revert h. induction entries as [|[name values] entries IH]; intros h; cbn; [by rewrite app_nil_r|].
  unfold copy_entries in IH. rewrite IH. destruct (skip (ToLower name)); cbn; [done|].
  rewrite entry_Add_all. by rewrite <-app_assoc.
Qed.

Definition canonical (h : Header) : Prop := ∀ k vs, h !! k = Some vs → CanonicalHeaderKey k = k.

Lemma passed_absent skip k entries : (∀ e, e ∈ entries → CanonicalHeaderKey e.1 ≠ k) → passed skip k entries = [].
Proof.
  induction entries as [|[name values] entries IH]; intros H; [done|]. cbn. rewrite bool_decide_false.
  - rewrite andb_false_r. apply IH. intros e He. apply H. by right.
  - intros E. apply (H (name, values)); [by left|done].
Qed.

Lemma passed_entry skip k source entries : canonical source → entries ≡ₚ map_to_list source →
  passed skip k entries = if skip (ToLower k) then [] else entry k source.
Proof.
  intros Hc Hp.
  assert (∀ e, e ∈ entries → CanonicalHeaderKey e.1 = e.1 ∧ source !! e.1 = Some e.2) as He.
  { intros [n vs] He. rewrite Hp, elem_of_map_to_list in He. split; [by apply (Hc n vs)|done]. }
  assert (NoDup entries.*1) as Hd by (rewrite Hp; apply NoDup_fst_map_to_list).
  assert (∀ vs, source !! k = Some vs → (k, vs) ∈ entries) as Hin by (intros vs Hv; by rewrite Hp, elem_of_map_to_list).
  unfold entry. destruct (source !! k) as [vs|] eqn:E.
  - specialize (Hin vs eq_refl). apply list_elem_of_split in Hin as (l1 & l2 & ->).
    rewrite fmap_app in Hd. cbn in Hd. apply NoDup_app in Hd as (_ & H1 & H2). apply NoDup_cons in H2 as [H2 _].
    unfold passed. rewrite bind_app. cbn. change (passed skip k l1 ++ (if negb (skip (ToLower k)) && bool_decide (k = CanonicalHeaderKey k) then vs else []) ++ passed skip k l2 = if skip (ToLower k) then [] else vs).
    rewrite !passed_absent.
    + rewrite app_nil_r. destruct (He (k, vs) ltac:(set_solver)) as [Hk _]. cbn in Hk |- *. rewrite Hk, bool_decide_true by done. by destruct (skip _).
    + intros e Hm. rewrite (proj1 (He e ltac:(set_solver))). intros E'. apply H2. rewrite <-E'. by apply list_elem_of_fmap_2.
    + intros e Hm. rewrite (proj1 (He e ltac:(set_solver))). intros E'. apply (H1 k); [rewrite <-E'; by apply list_elem_of_fmap_2|by left].
  - rewrite passed_absent; [by destruct (skip _)|]. intros e Hm. destruct (He e Hm) as [-> Hs]. intros E'. rewrite E' in Hs. congruence.
Qed.

(** C39: A header crosses the gateway exactly when it is neither hop-by-hop, nor
    named by the source's Connection header, nor denied; every one of its
    values then follows, in order, those already at the destination, whatever
    order the map is iterated in; and a converted response has in addition none
    of the headers that describe the representation it replaces. *)
Theorem headers_cross_exactly source destination entries denied k :
  canonical source → entries ≡ₚ map_to_list source →
  let crosses := negb (member (ToLower k) hopByHopHeaders || member (ToLower k) (connectionTokens source) || member (ToLower k) denied) in
  entry k (copyHeaders entries source denied destination) = entry k destination ++ (if crosses then entry k source else []) ∧
  entry k (copyTransformedResponseHeaders entries source destination) =
    (if member k (map CanonicalHeaderKey transformedRepresentationHeaders) then []
     else entry k (copyResponseHeaders entries source destination)).
Proof.
  intros Hc Hp crosses. split.
  - unfold copyHeaders. rewrite entry_copy, (passed_entry _ _ source) by done. subst crosses. unfold skipped. by destruct (_ || _).
  - unfold copyTransformedResponseHeaders. generalize (copyResponseHeaders entries source destination) as h. clear.
    generalize transformedRepresentationHeaders as names. induction names as [|n names IH]; intros h; [done|]. cbn. rewrite IH.
    fold (member k (map CanonicalHeaderKey names)). destruct (member k _); [by rewrite orb_true_r|]. rewrite orb_false_r.
    unfold same, entry, Del. case_bool_decide as E; [subst; by rewrite lookup_delete_eq|]. by rewrite lookup_delete_ne by done.
Qed.

(** No credential of the upstream reaches the client. *)
Lemma credentials_stay source destination entries k :
  canonical source → entries ≡ₚ map_to_list source → member (ToLower k) credentialHeaders = true →
  entry k (copyResponseHeaders entries source destination) = entry k destination.
Proof.
  intros Hc Hp Hm. unfold copyResponseHeaders, copyHeaders. rewrite entry_copy, (passed_entry _ _ source) by done.
  unfold skipped. rewrite Hm, !orb_true_r. by rewrite app_nil_r.
Qed.

(** ** The size of a header

    The early returns do not change the verdict: the size compares with the
    bound as the size counted in full does, in every order of iteration. *)
Definition field_bytes (e : bytes * list bytes) : Z :=
  if EqualFold e.1 (str "host") then 0 else lenZ e.1 + 2 + foldr (λ v n, lenZ v + 2 + n) 0 e.2.
Definition full_header_bytes (entries : list (bytes * list bytes)) (host : bytes) : Z :=
  foldr (λ e n, field_bytes e + n) 0 entries + (if bool_decide (host = []) then 0 else lenZ host + 8).

Lemma value_bytes_spec total values :
  match value_bytes total values with
  | inl t => maxIngressHeaderBytes < t ∧ t ≤ total + foldr (λ v n, lenZ v + 2 + n) 0 values
  | inr t => t = total + foldr (λ v n, lenZ v + 2 + n) 0 values
  end.
Proof.
  revert total. induction values as [|v values IH]; intros total; cbn [value_bytes foldr]; [lia|].
  assert (0 ≤ foldr (λ v n, lenZ v + 2 + n) 0 values) by (clear; induction values; cbn; lia).
  destruct (Z.ltb_spec maxIngressHeaderBytes (total + (lenZ v + 2))); [lia|].
  specialize (IH (total + (lenZ v + 2))). destruct (value_bytes _ values); lia.
Qed.

Lemma field_bytes_nonneg e : 0 ≤ field_bytes e.
Proof. unfold field_bytes. destruct (EqualFold _ _); [lia|]. induction e.2; cbn; lia. Qed.

Lemma fields_nonneg entries : 0 ≤ foldr (λ e n, field_bytes e + n) 0 entries.
Proof. induction entries as [|e entries IH]; cbn; [lia|]. pose proof (field_bytes_nonneg e). lia. Qed.

Lemma header_bytes_spec total entries :
  match header_bytes total entries with
  | inl t => maxIngressHeaderBytes < t ∧ t ≤ total + foldr (λ e n, field_bytes e + n) 0 entries
  | inr t => t = total + foldr (λ e n, field_bytes e + n) 0 entries
  end.
Proof.
  revert total. induction entries as [|[name values] entries IH]; intros total; cbn [header_bytes foldr]; [lia|].
  pose proof (fields_nonneg entries). unfold field_bytes at 1 3. cbn [fst snd]. destruct (EqualFold name (str "host")).
  { specialize (IH total). destruct (header_bytes total entries); lia. }
  pose proof (value_bytes_spec (total + (lenZ name + 2)) values) as Hv. destruct (value_bytes _ values) as [t|t]; [lia|].
  destruct (Z.ltb_spec maxIngressHeaderBytes t); [lia|]. specialize (IH t). destruct (header_bytes t entries); lia.
Qed.

Lemma requestHeaderBytes_verdict entries order host : order ≡ₚ entries →
  maxIngressHeaderBytes < requestHeaderBytes order host ↔ maxIngressHeaderBytes < full_header_bytes entries host.
Proof.
  intros Hp. assert (foldr (λ e n, field_bytes e + n) 0 order = foldr (λ e n, field_bytes e + n) 0 entries) as E
    by (induction Hp; cbn; lia).
  unfold requestHeaderBytes, full_header_bytes. rewrite <-E. pose proof (header_bytes_spec 0 order) as H.
  destruct (header_bytes 0 order) as [t|t]; case_bool_decide; lia.
Qed.

(** A client's request: its key never crosses as such, its other headers do. *)
Definition demo_source : Header :=
  list_to_map [(str "Connection", [str "close, X-Private"]); (str "X-Private", [str "1"]); (str "Accept", [str "a"; str "b"]);
               (str "Api-Key", [str "secret"])].

Lemma headers_cross_exactly_witness :
  canonical demo_source ∧
  entry (str "X-Private") (copyEndToEndHeaders (map_to_list demo_source) demo_source ∅) = [] ∧
  entry (str "Accept") (copyEndToEndHeaders (map_to_list demo_source) demo_source ∅) = [str "a"; str "b"] ∧
  entry (str "Api-Key") (copyResponseHeaders (map_to_list demo_source) demo_source ∅) = [].
Proof.
  assert (canonical demo_source) as Hc.
  { intros k vs H. unfold demo_source in H. cbn in H. repeat (apply lookup_insert_Some in H as [[<- _]|[_ H]]; [done|]). by rewrite lookup_empty in H. }
  split; [exact Hc|].
  split; [|split].
  - exact (proj1 (headers_cross_exactly demo_source ∅ (map_to_list demo_source) [] (str "X-Private") Hc (Permutation_refl _))).
  - exact (proj1 (headers_cross_exactly demo_source ∅ (map_to_list demo_source) [] (str "Accept") Hc (Permutation_refl _))).
  - exact (proj1 (headers_cross_exactly demo_source ∅ (map_to_list demo_source) credentialHeaders (str "Api-Key") Hc (Permutation_refl _))).
Defined.

(** ** The upstream path

    The base and the request meet at one slash. *)
Lemma ends_slash_spec s : ends_slash s = true → ∃ b, s = b ++ [slash].
Proof.
  unfold ends_slash, HasSuffix. case_bool_decide as E; [|done]. intros _. exists (take (length s - 1) s).
  cbn [length] in E. rewrite <-E. by rewrite take_drop.
Qed.

Lemma starts_slash_spec s : starts_slash s = true → s = slash :: drop 1 s.
Proof.
  unfold starts_slash, HasPrefix. case_bool_decide as E; [|done]. intros _. destruct s as [|c s]; [done|]. cbn in E.
  unfold byte_eqb in E. case_bool_decide as Hc; [by subst c|done].
Qed.

Lemma joinPath_seam base request :
  ∃ b r, (joinPath base request).1 = b ++ slash :: r ∧ (base = b ∨ base = b ++ [slash]) ∧ (request = r ∨ request = slash :: r).
Proof.
  unfold joinPath. destruct (ends_slash base) eqn:E1, (starts_slash request) eqn:E2; cbn.
  - destruct (ends_slash_spec _ E1) as (b & ->). pose proof (starts_slash_spec _ E2) as E.
    exists b, (drop 1 request). split; [by rewrite <-app_assoc|]. split; [by right|by right].
  - destruct (ends_slash_spec _ E1) as (b & ->). exists b, request. split; [by rewrite <-app_assoc|]. split; [by right|by left].
  - pose proof (starts_slash_spec _ E2) as E. exists base, (drop 1 request). split; [by rewrite E at 1|]. split; [by left|by right].
  - exists base, request. split; [done|]. split; by left.
Qed.
