(* ===== verification/ResponseWriter.v ===== *)
(** * The downstream response and the gateway's own errors

    [completionResponseWriter] of [internal/httpserver/server.go] and
    [internal/httpserver/errors.go].  The connection below the writer is the
    environment: what each write accepts, whether it fails, whether a flush
    succeeds. *)

From Stdlib Require Import Ascii ZArith Lia ZifyBool.
From stdpp Require Import prelude strings list gmap.
From S2P Require Import Prelude Text Json JsonCodec ChatRender CompletionRecord BodyRecorder Trace HttpHeaders.
Local Open Scope Z_scope.

#[local] Arguments str : simpl never.

(** ** The writer *)

(** [w_header] is the header map until it is sent; [w_sent] what the connection
    sent as status and header; [w_body] the bytes it accepted; [w_calls] counts
    the calls into the environment. *)
Record writer := mkWriter {
  w_header : Header;
  w_sent : option (Z * Header);
  w_body : bytes;
  w_calls : nat;
  w_status : Z;
  w_recorder : option BodyRecorder;
  w_afterFlush : bool;
  w_trace : option TraceState;
}.

Definition set_header (h : Header) (w : writer) : writer :=
  mkWriter h (w_sent w) (w_body w) (w_calls w) (w_status w) (w_recorder w) (w_afterFlush w) (w_trace w).
Definition set_status (z : Z) (w : writer) : writer :=
  mkWriter (w_header w) (w_sent w) (w_body w) (w_calls w) z (w_recorder w) (w_afterFlush w) (w_trace w).
Definition set_recorder (r : option BodyRecorder) (w : writer) : writer :=
  mkWriter (w_header w) (w_sent w) (w_body w) (w_calls w) (w_status w) r (w_afterFlush w) (w_trace w).
Definition set_afterFlush (b : bool) (w : writer) : writer :=
  mkWriter (w_header w) (w_sent w) (w_body w) (w_calls w) (w_status w) (w_recorder w) b (w_trace w).
Definition send (status : Z) (w : writer) : writer :=
  mkWriter (w_header w) (match w_sent w with Some s => Some s | None => Some (status, w_header w) end) (w_body w) (w_calls w) (w_status w)
    (w_recorder w) (w_afterFlush w) (w_trace w).
Definition called (accepted : bytes) (w : writer) : writer :=
  mkWriter (w_header w) (w_sent w) (w_body w ++ accepted) (S (w_calls w)) (w_status w) (w_recorder w) (w_afterFlush w) (w_trace w).

Section writing.
Context (accepts : nat → bytes → Z * bool) (flushes : nat → bool) (clk : nat → Z * Z).

Definition note (op : base_op) (w : writer) : writer :=
  mkWriter (w_header w) (w_sent w) (w_body w) (w_calls w) (w_status w) (w_recorder w) (w_afterFlush w)
    ((λ s, (perform_base op (clk (w_calls w)) s).2) <$> w_trace w).

Definition WriteHeader (status : Z) (w : writer) : writer :=
  if negb (w_status w =? 0) then w else send status (note (OpDownstreamStatus status) (set_status status w)).

Definition within (n : Z) (body : bytes) : bool := (0 <=? n) && (n <=? lenZ body).

(** The connection accepts a prefix; the writer records what it reports. *)
Definition Write (body : bytes) (w : writer) : Z * bool * writer :=
  let w := if w_status w =? 0 then WriteHeader 200 w else w in
  let '(written, failed) := accepts (w_calls w) body in
  let w := called (take (Z.to_nat written) body) w in
  let w := if negb (w_afterFlush w) && within written body then set_recorder (WriteObserved body written (w_recorder w)).2 w else w in
  let w := if negb (w_afterFlush w) && within written body && ((0 <? written) || negb failed)
           then note (OpWrite written (negb failed && (written =? lenZ body) && (0 <? written)) ((written =? 0) && negb failed)) w else w in
  (written, failed, w).

Definition FlushError (w : writer) : bool * writer :=
  let ok := flushes (w_calls w) in
  let w := called [] w in
  (negb ok, if ok && (w_status w =? 0) then note (OpDownstreamStatus 200) (set_status 200 w) else w).

Definition recordResponseBodyAfterFlush (body : bytes) (accepted : Z) (w : writer) : writer :=
  if within accepted body then set_recorder (WriteObserved body accepted (w_recorder w)).2 w else w.

Definition recordDownstreamAfterFlush (accepted : Z) (successful : bool) (w : writer) : writer :=
  if accepted <? 0 then w else note (OpWrite accepted (successful && (0 <? accepted)) ((accepted =? 0) && successful)) w.

Definition setGatewayErrorCode (code : SafeErrorCode) (w : writer) : writer :=
  if code =? ErrorCodeUnknown then w else note (OpErrorCode code) w.

Definition statusCode (w : writer) : Z := if w_status w =? 0 then 200 else w_status w.

(** ** The gateway's errors *)

Definition gatewayErrorInvalidAPIKey : bytes := str "invalid_api_key".
Definition gatewayErrorKeyDisabled : bytes := str "key_disabled".
Definition gatewayErrorKeyExpired : bytes := str "key_expired".
Definition gatewayErrorModelNotAllowed : bytes := str "model_not_allowed".
Definition gatewayErrorRequestLimit : bytes := str "request_limit_exceeded".
Definition gatewayErrorConcurrencyLimit : bytes := str "concurrency_limit_exceeded".
Definition gatewayErrorTokenLimit : bytes := str "token_limit_exceeded".
Definition gatewayErrorBudgetLimit : bytes := str "budget_exceeded".
Definition gatewayErrorInvalidRequest : bytes := str "invalid_request".
Definition gatewayErrorBodyTooLarge : bytes := str "body_too_large".
Definition gatewayErrorNotFound : bytes := str "not_found".
Definition gatewayErrorUpstreamConnection : bytes := str "upstream_connection_error".
Definition gatewayErrorUpstreamTimeout : bytes := str "upstream_timeout".
Definition gatewayErrorResponseTransport : bytes := str "response_transport_error".
Definition gatewayErrorConversion : bytes := str "conversion_error".
Definition gatewayErrorCancellation : bytes := str "cancelled".
Definition gatewayErrorUnsupportedResponse : bytes := str "unsupported_response".
Definition gatewayErrorInternal : bytes := str "gateway_internal_error".
Definition gatewayErrorConflict : bytes := str "conflict".
Definition gatewayErrorCursorExpired : bytes := str "cursor_expired".
Definition gatewayErrorAmbiguousCredentials : bytes := str "ambiguous_credentials".
Definition gatewayErrorInvalidCSRFToken : bytes := str "invalid_csrf_token".
Definition gatewayErrorForbidden : bytes := str "forbidden".
Definition gatewayErrorRateLimitExceeded : bytes := str "rate_limit_exceeded".
Definition gatewayErrorMethodNotAllowed : bytes := str "method_not_allowed".
Definition gatewayErrorServiceUnavailable : bytes := str "service_unavailable".

Record gatewayErrorDefinition := mkDefinition { ed_message : bytes; ed_typeName : bytes; ed_status : Z }.

Definition gatewayErrorDefinitions : list (bytes * gatewayErrorDefinition) :=
  [(gatewayErrorInvalidAPIKey, mkDefinition (str "Incorrect API key provided.") (str "authentication_error") 401);
   (gatewayErrorKeyDisabled, mkDefinition (str "API key is disabled.") (str "authentication_error") 401);
   (gatewayErrorKeyExpired, mkDefinition (str "API key has expired.") (str "authentication_error") 401);
   (gatewayErrorModelNotAllowed, mkDefinition (str "The requested model is not allowed.") (str "permission_error") 403);
   (gatewayErrorRequestLimit, mkDefinition (str "Request limit exceeded.") (str "rate_limit_error") 429);
   (gatewayErrorConcurrencyLimit, mkDefinition (str "Concurrency limit exceeded.") (str "rate_limit_error") 429);
   (gatewayErrorTokenLimit, mkDefinition (str "Token limit exceeded.") (str "rate_limit_error") 429);
   (gatewayErrorBudgetLimit, mkDefinition (str "Budget exceeded.") (str "rate_limit_error") 429);
   (gatewayErrorInvalidRequest, mkDefinition (str "Invalid request.") (str "invalid_request_error") 400);
   (gatewayErrorBodyTooLarge, mkDefinition (str "Request body exceeds the 10 MiB limit.") (str "invalid_request_error") 413);
   (gatewayErrorNotFound, mkDefinition (str "The requested resource was not found.") (str "invalid_request_error") 404);
   (gatewayErrorUpstreamConnection, mkDefinition (str "Unable to connect to the upstream service.") (str "upstream_error") 502);
   (gatewayErrorUpstreamTimeout, mkDefinition (str "The upstream service timed out.") (str "upstream_error") 504);
   (gatewayErrorResponseTransport, mkDefinition (str "The upstream response could not be delivered.") (str "upstream_error") 502);
   (gatewayErrorConversion, mkDefinition (str "The upstream response could not be converted.") (str "upstream_error") 502);
   (gatewayErrorCancellation, mkDefinition (str "The request was cancelled.") (str "request_error") 499);
   (gatewayErrorUnsupportedResponse, mkDefinition (str "The upstream response is not supported.") (str "upstream_error") 502);
   (gatewayErrorInternal, mkDefinition (str "An internal gateway error occurred.") (str "server_error") 500);
   (gatewayErrorConflict, mkDefinition (str "The requested change conflicts with active work.") (str "conflict_error") 409);
   (gatewayErrorCursorExpired, mkDefinition (str "The pagination cursor has expired; restart the traversal.") (str "invalid_request_error") 400);
   (gatewayErrorAmbiguousCredentials,
    mkDefinition (str "Request must not provide both Authorization header and session cookie.") (str "invalid_request_error") 400);
   (gatewayErrorInvalidCSRFToken, mkDefinition (str "Invalid or missing CSRF token.") (str "permission_error") 403);
   (gatewayErrorForbidden, mkDefinition (str "The requested action is forbidden.") (str "permission_error") 403);
   (gatewayErrorRateLimitExceeded,
    mkDefinition (str "Too many failed login attempts. Please try again later.") (str "rate_limit_error") 429);
   (gatewayErrorMethodNotAllowed, mkDefinition (str "Method not allowed.") (str "invalid_request_error") 405);
   (gatewayErrorServiceUnavailable, mkDefinition (str "Service unavailable. Please try again later.") (str "service_error") 503)].

Definition definition_of (code : bytes) : option gatewayErrorDefinition :=
  snd <$> head (filter (λ d, d.1 = code) gatewayErrorDefinitions).

Definition safe_codes : list (bytes * SafeErrorCode) :=
  [(gatewayErrorInvalidAPIKey, 1); (gatewayErrorKeyDisabled, 2); (gatewayErrorKeyExpired, 3); (gatewayErrorInvalidRequest, 4);
   (gatewayErrorBodyTooLarge, 4); (gatewayErrorModelNotAllowed, 5); (gatewayErrorRequestLimit, 6); (gatewayErrorConcurrencyLimit, 7);
   (gatewayErrorTokenLimit, 8); (gatewayErrorBudgetLimit, 9); (gatewayErrorUpstreamConnection, 10); (gatewayErrorUpstreamTimeout, 11);
   (gatewayErrorResponseTransport, 12); (gatewayErrorConversion, 13); (gatewayErrorCancellation, 14);
   (gatewayErrorUnsupportedResponse, 15); (gatewayErrorInternal, 16); (gatewayErrorNotFound, 17); (gatewayErrorConflict, 18);
   (gatewayErrorCursorExpired, 4); (gatewayErrorAmbiguousCredentials, 4); (gatewayErrorMethodNotAllowed, 4);
   (gatewayErrorInvalidCSRFToken, 5); (gatewayErrorForbidden, 5); (gatewayErrorRateLimitExceeded, 6); (gatewayErrorServiceUnavailable, 16)].

Definition safeErrorCodeForGatewayCode (code : bytes) : SafeErrorCode :=
  default ErrorCodeUnknown (snd <$> head (filter (λ d, d.1 = code) safe_codes)).

(** The error envelope, as [json.Encoder] writes it. *)
Definition gatewayErrorBody (definition : gatewayErrorDefinition) (param code : bytes) : json :=
  JObject [(str "error",
    JObject ([(str "message", JText (ed_message definition)); (str "type", JText (ed_typeName definition))] ++ omit_empty (str "param") param ++
             [(str "code", JText code)]))].

Definition newline : ascii := chr 10.

Definition ErrorCodeInternal : SafeErrorCode := 16.

Definition writeGatewayErrorStatus (status : Z) (code : bytes) (definition : gatewayErrorDefinition) (param : bytes) (w : writer) : writer :=
  let safeCode := safeErrorCodeForGatewayCode code in
  let w := setGatewayErrorCode (if safeCode =? ErrorCodeUnknown then ErrorCodeInternal else safeCode) w in
  let w := set_header (Set_ (str "Content-Type") (str "application/json") (w_header w)) w in
  let w := WriteHeader status w in
  (Write (print (gatewayErrorBody definition param code) ++ [newline]) w).2.

Definition internalDefinition : gatewayErrorDefinition :=
  mkDefinition (str "An internal gateway error occurred.") (str "server_error") 500.

Definition writeGatewayErrorRetryAfter (code param : bytes) (retryAfter : Z) (w : writer) : writer :=
  let '(code, definition, param) :=
    match definition_of code with
    | Some d => (code, d, param)
    | None => (gatewayErrorInternal, default internalDefinition (definition_of gatewayErrorInternal), [])
    end in
  let param := if same param (str "model") then param else [] in
  let w := if 0 <? retryAfter then set_header (Set_ (str "Retry-After") (FormatInt retryAfter) (w_header w)) w else w in
  writeGatewayErrorStatus (ed_status definition) code definition param w.

Definition writeGatewayError (code param : bytes) : writer → writer := writeGatewayErrorRetryAfter code param 0.

End writing.

(** ** What a gateway error sends *)

Definition fresh (w : writer) : Prop := w_status w = 0 ∧ w_sent w = None.

(** Every listed error is an HTTP error with a valid code for the trace. *)
Lemma definitions_sound :
  Forall (λ d, 400 ≤ ed_status d.2 < 600 ∧ 0 < safeErrorCodeForGatewayCode d.1 ∧ validErrorCode (safeErrorCodeForGatewayCode d.1) = true)
    gatewayErrorDefinitions.
Proof. repeat (constructor; [vm_compute; split_and!; done|]). constructor. Qed.

Lemma definition_of_listed code d : definition_of code = Some d → (code, d) ∈ gatewayErrorDefinitions.
Proof.
  unfold definition_of. destruct (head _) as [[c e]|] eqn:E; [|done]. intros [= <-]. apply head_Some_elem_of in E.
  apply list_elem_of_filter in E as [E Hin]. cbn in E. by subst c.
Qed.

Definition public_code (code : bytes) : bytes := match definition_of code with Some _ => code | None => gatewayErrorInternal end.
Definition public_definition (code : bytes) : gatewayErrorDefinition := default internalDefinition (definition_of (public_code code)).

Lemma public_definition_listed code : (public_code code, public_definition code) ∈ gatewayErrorDefinitions.
Proof.
  unfold public_definition, public_code. destruct (definition_of code) as [d|] eqn:E.
  - rewrite E. by apply definition_of_listed.
  - apply definition_of_listed. reflexivity.
Qed.

Section errors.
Context (accepts : nat → bytes → Z * bool) (clk : nat → Z * Z).

Lemma WriteHeader_fresh status w : fresh w → status ≠ 0 →
  let w' := WriteHeader clk status w in
  w_sent w' = Some (status, w_header w) ∧ w_status w' = status ∧ w_body w' = w_body w ∧ w_calls w' = w_calls w.
Proof. intros [H1 H2] Hs. unfold WriteHeader. rewrite H1. cbn. by rewrite H2. Qed.

Lemma Write_started body w : w_status w ≠ 0 →
  w_sent (Write accepts clk body w).2 = w_sent w ∧
  w_body (Write accepts clk body w).2 = w_body w ++ take (Z.to_nat (accepts (w_calls w) body).1) body.
Proof.
  intros Hs. unfold Write. destruct (Z.eqb_spec (w_status w) 0); [done|]. destruct (accepts (w_calls w) body) as [count failed]. cbn [snd fst].
  destruct (_ && within _ _ && _), (_ && within _ _); cbn; done.
Qed.

(** The envelope depends on nothing but the code and whether the model is named. *)
Definition envelope (code param : bytes) : bytes :=
  print (gatewayErrorBody (public_definition code) (if same param (str "model") && bool_decide (is_Some (definition_of code)) then param else [])
           (public_code code)) ++ [newline].

(** A gateway error is a bounded public answer.  On a response that has not
    started, whatever the code and whatever the connection does, the status
    sent is that of the listed definition (of the internal error, for a code
    that is not listed), always 4xx or 5xx, as JSON; Retry-After is set exactly
    for a positive delay; and the bytes are a prefix of an envelope that is
    determined by the code and by whether the parameter is the model, the whole
    of it when the connection accepts it. *)
Theorem gateway_error_answer code param retryAfter w : fresh w →
  let w' := writeGatewayErrorRetryAfter accepts clk code param retryAfter w in
  let d := public_definition code in
  ∃ h n, w_sent w' = Some (ed_status d, h) ∧ 400 ≤ ed_status d < 600 ∧
    Values h (str "Content-Type") = [str "application/json"] ∧
    Values h (str "Retry-After") = (if 0 <? retryAfter then [FormatInt retryAfter] else Values (w_header w) (str "Retry-After")) ∧
    w_body w' = w_body w ++ take n (envelope code param) ∧
    (accepts (w_calls w) (envelope code param) = (lenZ (envelope code param), false) → w_body w' = w_body w ++ envelope code param).
Proof.
  intros Hf. cbv zeta.
  assert (400 ≤ ed_status (public_definition code) < 600) as Hr.
  { pose proof definitions_sound as H. rewrite Forall_forall in H. apply (H _ (public_definition_listed code)). }
  set (w0 := if 0 <? retryAfter then set_header (Set_ (str "Retry-After") (FormatInt retryAfter) (w_header w)) w else w).
  set (code' := if safeErrorCodeForGatewayCode (public_code code) =? ErrorCodeUnknown then ErrorCodeInternal
                else safeErrorCodeForGatewayCode (public_code code)).
  set (w1 := set_header (Set_ (str "Content-Type") (str "application/json") (w_header (setGatewayErrorCode clk code' w0))) (setGatewayErrorCode clk code' w0)).
  assert (fresh w1 ∧ w_body w1 = w_body w ∧ w_calls w1 = w_calls w ∧ w_header w1 = Set_ (str "Content-Type") (str "application/json") (w_header w0)) as (Hw & Hb & Hc & Hh).
  { destruct Hf as [H1 H2]. subst w1 w0. unfold setGatewayErrorCode. destruct (0 <? retryAfter), (code' =? ErrorCodeUnknown); by repeat split. }
  assert (writeGatewayErrorRetryAfter accepts clk code param retryAfter w =
          (Write accepts clk (envelope code param) (WriteHeader clk (ed_status (public_definition code)) w1)).2) as ->.
  { unfold writeGatewayErrorRetryAfter, envelope, public_definition, w1, code', public_code.
    destruct (definition_of code) as [d|] eqn:E; cbn [default];
      [|rewrite (bool_decide_false (is_Some None)) by (by intros [? ?]); rewrite andb_false_r; reflexivity].
    rewrite E, bool_decide_true by (by eexists). cbn [default]. rewrite andb_true_r. reflexivity. }
  destruct (WriteHeader_fresh (ed_status (public_definition code)) w1 Hw ltac:(lia)) as (E1 & E2 & E3 & E4).
  destruct (Write_started (envelope code param) (WriteHeader clk (ed_status (public_definition code)) w1) ltac:(lia)) as (F1 & F2).
  rewrite F1, F2, E1, E3, E4, Hb, Hc, Hh. eexists _, _. split; [done|]. split; [lia|]. split; [unfold Values, entry, Set_; by rewrite lookup_insert_eq|]. split; [|split; [done|]].
  - subst w0. unfold Values, entry, Set_. rewrite lookup_insert_ne by done. destruct (0 <? retryAfter); [|done].
    cbn [w_header set_header]. by rewrite lookup_insert_eq.
  - intros ->. cbn [fst]. by rewrite take_ge by lia.
Qed.

End errors.

Definition demo_writer : writer := mkWriter ∅ None [] 0 0 None false None.

Lemma gateway_error_answer_witness :
  fresh demo_writer ∧
  (let w := writeGatewayErrorRetryAfter (λ _ b, (lenZ b, false)) (λ _, (0, 0)) gatewayErrorRequestLimit (str "other") 7 demo_writer in
   fst <$> w_sent w = Some 429 ∧ w_body w = envelope gatewayErrorRequestLimit (str "other")).
Proof.
  split; [by split|]. cbv zeta.
  destruct (gateway_error_answer (λ _ b, (lenZ b, false)) (λ _, (0, 0)) gatewayErrorRequestLimit (str "other") 7 demo_writer ltac:(by split))
    as (h & n & -> & _ & _ & _ & _ & H). split; [reflexivity|]. by rewrite H.
Defined.
