(* ===== verification/Transfer.v ===== *)
(** * Moving response bodies ([server.go], [response_observation.go])

    The readers the gateway puts around an upstream body, the loop that copies
    a body to the client, and what the observation keeps of it.  [io.Reader] is
    the class [Reader]; what the loop needs of a reader is [ReaderLaws], which
    the upstream body satisfies and every wrapper preserves. *)

From Stdlib Require Import Ascii ZArith Lia ZifyBool.
From stdpp Require Import prelude strings list gmap.
From S2P Require Import Prelude Text Money Usage Pricing CompletionRecord BodyRecorder Trace UsageObservation HttpHeaders ResponseWriter.
Local Open Scope Z_scope.

#[local] Arguments str : simpl never.

(** ** Readers *)

Inductive io_error :=
| EOF | ErrUnexpectedEOF | ErrNoProgress | ErrShortWrite | ErrSource | ErrWrite | ErrFlush | ErrContext
| ErrUpstreamResponseTooLarge | ErrSSEEventTooLarge | ErrDecodedRepresentationTooLarge | ErrCompressedWireTooLarge
| ErrUnsupportedResponse | ErrInvalidGzip | ErrConversion.

#[export] Instance io_error_eq_dec : EqDecision io_error.
Proof. solve_decision. Defined.

(** [Read] with a buffer of [n] bytes: the bytes, the error, the reader after. *)
Class Reader (R : Type) := Read : nat → R → bytes * option io_error * R.

(** A reader delivers its content in order, makes progress, and then ends.  A
    read that returns neither bytes nor an error, which [io.Reader] discourages,
    is excluded. *)
Class ReaderLaws (R : Type) `{Reader R} := {
  content : R → bytes * io_error;
  read_law n s : (0 < n)%nat →
    match Read n s with
    | (b, Some e, _) => content s = (b, e) ∧ (length b ≤ n)%nat
    | (b, None, s') => b ≠ [] ∧ content s = (b ++ (content s').1, (content s').2) ∧ (length b ≤ n)%nat
    end;
}.

(** The upstream's body: the pieces in which it arrives and how it ends; the
    end may come with the last piece. *)
Record upstreamBody := mkBody { ub_pieces : list bytes; ub_end : io_error; ub_eager : bool }.

Fixpoint read_pieces (n : nat) (e : io_error) (eager : bool) (pieces : list bytes) : bytes * option io_error * list bytes :=
  match pieces with
  | [] => ([], Some e, [])
  | [] :: pieces => read_pieces n e eager pieces
  | p :: pieces =>
      if (length p <=? n)%nat
      then (if eager && forallb (λ q : bytes, bool_decide (q = [])) pieces then (p, Some e, []) else (p, None, pieces))
      else (take n p, None, drop n p :: pieces)
  end.

#[export] Instance upstreamBody_Reader : Reader upstreamBody := λ n s,
  let '(b, err, pieces) := read_pieces n (ub_end s) (ub_eager s) (ub_pieces s) in (b, err, mkBody pieces (ub_end s) (ub_eager s)).

Lemma concat_blank (pieces : list bytes) : forallb (λ q : bytes, bool_decide (q = [])) pieces = true → concat pieces = [].
Proof. induction pieces as [|q pieces IH]; cbn; [done|]. case_bool_decide; [subst; cbn; apply IH|done]. Qed.

Lemma read_pieces_law n e eager pieces : (0 < n)%nat →
  match read_pieces n e eager pieces with
  | (b, Some e', _) => (concat pieces, e) = (b, e') ∧ (length b ≤ n)%nat
  | (b, None, rest) => b ≠ [] ∧ concat pieces = b ++ concat rest ∧ (length b ≤ n)%nat
  end.
Proof.
  intros Hn. induction pieces as [|p pieces IH]; cbn; [split; [done|lia]|]. destruct p as [|c p]; [exact IH|].
  destruct (Nat.leb_spec (length (c :: p)) n) as [Hl|Hl]; cbn in Hl.
  - destruct (eager && _) eqn:E; [|by split_and!]. apply andb_prop in E as [_ E]. rewrite (concat_blank _ E), app_nil_r. split; [done|]. cbn; lia.
  - split; [|split; [cbn; by rewrite app_assoc, take_drop|rewrite length_take; lia]]. destruct n; [lia|done].
Qed.

#[export] Program Instance upstreamBody_ReaderLaws : ReaderLaws upstreamBody := {| content s := (concat (ub_pieces s), ub_end s) |}.
Next Obligation.
  intros n [pieces e eager] Hn. unfold Read, upstreamBody_Reader. cbn. pose proof (read_pieces_law n e eager pieces Hn) as H.
  destruct (read_pieces n e eager pieces) as [[b [e'|]] rest]; cbn; [done|]. destruct H as (? & -> & ?). done.
Qed.

(** ** The bounded readers

    What remains is never negative: the constructors clamp it. *)

Record boundedResponseReader (R : Type) := mkBounded { br_source : R; br_remaining : N; br_exceeded : bool }.
Arguments mkBounded {R}.
Arguments br_source {R}.
Arguments br_remaining {R}.
Arguments br_exceeded {R}.

Definition shorter (n : nat) (remaining : N) : nat := if (remaining <? N.of_nat n)%N then N.to_nat remaining else n.
Definition less (remaining : N) (b : bytes) : N := (remaining - N.of_nat (length b))%N.

#[export] Instance boundedResponseReader_Read {R} `{Reader R} : Reader (boundedResponseReader R) := λ n r,
  if br_exceeded r then ([], Some ErrUpstreamResponseTooLarge, r)
  else if (br_remaining r =? 0)%N then
    let '(probe, err, s) := Read 1 (br_source r) in
    match probe, err with
    | _ :: _, _ => ([], Some ErrUpstreamResponseTooLarge, mkBounded s 0 true)
    | [], None => ([], Some ErrNoProgress, mkBounded s 0 false)
    | [], Some e => ([], Some e, mkBounded s 0 false)
    end
  else
    let '(b, err, s) := Read (shorter n (br_remaining r)) (br_source r) in
    (b, err, mkBounded s (less (br_remaining r) b) false).

(** [compressedWireReader] and [decodedRepresentationReader] differ in their error. *)
Record limited (tooLarge : io_error) (R : Type) := mkLimited { lr_reader : R; lr_remaining : N }.
Arguments mkLimited {tooLarge R}.
Arguments lr_reader {tooLarge R}.
Arguments lr_remaining {tooLarge R}.

Definition compressedWireReader (R : Type) : Type := limited ErrCompressedWireTooLarge R.
Definition decodedRepresentationReader (R : Type) : Type := limited ErrDecodedRepresentationTooLarge R.

#[export] Instance limited_Read {R} `{Reader R} (tooLarge : io_error) : Reader (limited tooLarge R) := λ n r,
  if (n =? 0)%nat then ([], None, r)
  else if (lr_remaining r =? 0)%N then
    let '(probe, err, s) := Read 1 (lr_reader r) in
    match probe with _ :: _ => ([], Some tooLarge, mkLimited s 0) | [] => ([], err, mkLimited s 0) end
  else
    let '(b, err, s) := Read (shorter n (lr_remaining r)) (lr_reader r) in
    (b, err, mkLimited s (less (lr_remaining r) b)).

(** What a bound leaves of a content. *)
Definition bound (tooLarge : io_error) (remaining : N) (c : bytes * io_error) : bytes * io_error :=
  (take (N.to_nat remaining) c.1, if (remaining <? N.of_nat (length c.1))%N then tooLarge else c.2).

Lemma shorter_spec n remaining : (0 < n)%nat → remaining ≠ 0%N → (0 < shorter n remaining ≤ n)%nat ∧ (shorter n remaining ≤ N.to_nat remaining)%nat.
Proof. unfold shorter. destruct (N.ltb_spec remaining (N.of_nat n)); lia. Qed.

Lemma bound_end tooLarge remaining b e : (length b ≤ N.to_nat remaining)%nat → bound tooLarge remaining (b, e) = (b, e).
Proof. intros H. unfold bound. cbn. rewrite take_ge by lia. destruct (N.ltb_spec remaining (N.of_nat (length b))); [lia|done]. Qed.

Lemma bound_step tooLarge remaining b c : (length b ≤ N.to_nat remaining)%nat →
  bound tooLarge remaining (b ++ c.1, c.2) = (b ++ (bound tooLarge (less remaining b) c).1, (bound tooLarge (less remaining b) c).2).
Proof.
  intros H. unfold bound, less. cbn. rewrite take_app, take_ge by lia. f_equal; [do 2 f_equal; lia|]. rewrite length_app.
  destruct (N.ltb_spec remaining (N.of_nat (length b + length c.1))), (N.ltb_spec (remaining - N.of_nat (length b)) (N.of_nat (length c.1))); lia || done.
Qed.

Lemma bound_probe tooLarge c : c.1 ≠ [] → bound tooLarge 0 c = ([], tooLarge).
Proof. intros H. unfold bound. destruct c.1; [done|]. by cbn. Qed.

Section bounded.
Context {R : Type} `{ReaderLaws R}.

(** One read of the source within the bound, and the probe past it. *)
Lemma bounded_read tooLarge n remaining (s : R) : (0 < n)%nat → remaining ≠ 0%N →
  match Read (shorter n remaining) s with
  | (b, Some e, _) => bound tooLarge remaining (content s) = (b, e) ∧ (length b ≤ n)%nat
  | (b, None, s') => let rest := bound tooLarge (less remaining b) (content s') in
      b ≠ [] ∧ bound tooLarge remaining (content s) = (b ++ rest.1, rest.2) ∧ (length b ≤ n)%nat
  end.
Proof.
  intros Hn Hr. destruct (shorter_spec n remaining Hn Hr) as [Hs1 Hs2].
  pose proof (read_law (shorter n remaining) s ltac:(lia)) as Hl. destruct (Read (shorter n remaining) s) as [[b [e|]] s'].
  - destruct Hl as [-> Hb]. split; [apply bound_end|]; lia.
  - destruct Hl as (Hb & -> & Hn'). split_and!; [done| |lia]. apply bound_step. lia.
Qed.

Lemma probe_read tooLarge (s : R) :
  match Read 1 s with
  | ([], Some e, _) => bound tooLarge 0 (content s) = ([], e)
  | ([], None, _) => False
  | (_, _, _) => bound tooLarge 0 (content s) = ([], tooLarge)
  end.
Proof.
  pose proof (read_law 1 s ltac:(lia)) as Hl. destruct (Read 1 s) as [[[|c b] [e|]] s'].
  - destruct Hl as [-> _]. by apply bound_end.
  - by destruct Hl.
  - destruct Hl as [-> _]. by apply bound_probe.
  - destruct Hl as (_ & -> & _). by apply bound_probe.
Qed.

#[export] Program Instance boundedResponseReader_Laws : ReaderLaws (boundedResponseReader R) := {|
  content r := if br_exceeded r then ([], ErrUpstreamResponseTooLarge)
               else bound ErrUpstreamResponseTooLarge (br_remaining r) (content (br_source r)) |}.
Next Obligation.
  intros n [s remaining exceeded] Hn. cbn. unfold Read, boundedResponseReader_Read. cbn. destruct exceeded; [split; [done|cbn; lia]|].
  destruct (N.eqb_spec remaining 0) as [->|Hr].
  - pose proof (probe_read ErrUpstreamResponseTooLarge s) as Hp.
    destruct (Read 1 s) as [[[|c b] [e|]] s']; cbn in *; try done; rewrite Hp; (split; [done|cbn; lia]).
  - pose proof (bounded_read ErrUpstreamResponseTooLarge n remaining s Hn Hr) as Hb.
    destruct (Read (shorter n remaining) s) as [[b [e|]] s']; cbn in *; done.
Qed.

#[export] Program Instance limited_Laws tooLarge : ReaderLaws (limited tooLarge R) := {|
  content r := bound tooLarge (lr_remaining r) (content (lr_reader r)) |}.
Next Obligation.
  intros tooLarge n [s remaining] Hn. cbn. unfold Read, limited_Read. cbn. destruct (Nat.eqb_spec n 0); [lia|].
  destruct (N.eqb_spec remaining 0) as [->|Hr].
  - pose proof (probe_read tooLarge s) as Hp.
    destruct (Read 1 s) as [[[|c b] [e|]] s']; cbn in *; try done; rewrite Hp; (split; [done|cbn; lia]).
  - pose proof (bounded_read tooLarge n remaining s Hn Hr) as Hb.
    destruct (Read (shorter n remaining) s) as [[b [e|]] s']; cbn in *; done.
Qed.
End bounded.

(** ** The event limit of a stream *)

Record lineState := mkLine { ln_size : Z; ln_lineBreaks : Z; ln_pendingCR : bool }.
Record sseEventLimitReader (R : Type) := mkSSELimit { se_source : R; se_limit : Z; se_line : lineState; se_bad : bool }.
Arguments mkSSELimit {R}.
Arguments se_source {R}.
Arguments se_limit {R}.
Arguments se_line {R}.
Arguments se_bad {R}.

Definition CR : ascii := chr 13.
Definition LF : ascii := chr 10.

Definition finishLineBreak (l : lineState) : lineState :=
  if 2 <=? ln_lineBreaks l + 1 then mkLine 0 0 (ln_pendingCR l) else mkLine (ln_size l) (ln_lineBreaks l + 1) (ln_pendingCR l).

Definition set_pending (b : bool) (l : lineState) : lineState := mkLine (ln_size l) (ln_lineBreaks l) b.

Definition observeByte (value : ascii) (l : lineState) : lineState :=
  if byte_eqb value CR then set_pending true (finishLineBreak l)
  else if byte_eqb value LF then set_pending false (if ln_pendingCR l then l else finishLineBreak l)
  else mkLine (ln_size l) 0 false.

(** The loop over the bytes read: those before the byte that exceeds the limit,
    the state after them, and whether there is such a byte. *)
Fixpoint scan_bytes (limit : Z) (l : lineState) (b : bytes) : bytes * lineState * bool :=
  match b with
  | [] => ([], l, false)
  | c :: b =>
      let l := mkLine (ln_size l + 1) (ln_lineBreaks l) (ln_pendingCR l) in
      if limit <? ln_size l then ([], l, true)
      else let '(kept, l, bad) := scan_bytes limit (observeByte c l) b in (c :: kept, l, bad)
  end.

#[export] Instance sseEventLimitReader_Read {R} `{Reader R} : Reader (sseEventLimitReader R) := λ n r,
  if se_bad r then ([], Some ErrSSEEventTooLarge, r)
  else
    let '(b, err, s) := Read n (se_source r) in
    match b with
    | [] => ([], err, mkSSELimit s (se_limit r) (se_line r) false)
    | _ =>
        let '(kept, l, bad) := scan_bytes (se_limit r) (se_line r) b in
        if bad : bool then (kept, Some ErrSSEEventTooLarge, mkSSELimit s (se_limit r) l true)
        else (b, err, mkSSELimit s (se_limit r) l false)
    end.

Lemma scan_app limit l b c :
  scan_bytes limit l (b ++ c) =
  let '(kept, l', bad) := scan_bytes limit l b in
  if bad : bool then (kept, l', true) else let '(kept', l'', bad') := scan_bytes limit l' c in (kept ++ kept', l'', bad').
Proof.
  revert l. induction b as [|x b IH]; intros l; cbn.
  - by destruct (scan_bytes limit l c) as [[??]?].
  - destruct (limit <? _); [done|]. rewrite IH. destruct (scan_bytes limit _ b) as [[kept l'] [|]]; [done|].
    by destruct (scan_bytes limit l' c) as [[??]?].
Qed.

Lemma scan_kept limit l b : let '(kept, _, bad) := scan_bytes limit l b in (if bad : bool then (length kept ≤ length b)%nat else kept = b).
Proof.
  revert l. induction b as [|x b IH]; intros l; cbn; [done|]. destruct (limit <? _); [cbn; lia|].
  specialize (IH (observeByte x (mkLine (ln_size l + 1) (ln_lineBreaks l) (ln_pendingCR l)))).
  destruct (scan_bytes limit _ b) as [[kept l'] [|]]; cbn; [lia|congruence].
Qed.

Section sse.
Context {R : Type} `{ReaderLaws R}.

(** What the limit leaves of a content. *)
Definition sse_content (limit : Z) (l : lineState) (c : bytes * io_error) : bytes * io_error :=
  let '(kept, _, bad) := scan_bytes limit l c.1 in (kept, if bad : bool then ErrSSEEventTooLarge else c.2).

#[export] Program Instance sseEventLimitReader_Laws : ReaderLaws (sseEventLimitReader R) := {|
  content r := if se_bad r then ([], ErrSSEEventTooLarge) else sse_content (se_limit r) (se_line r) (content (se_source r)) |}.
Next Obligation.
  intros n [s limit l bad] Hn. cbn. unfold Read, sseEventLimitReader_Read. cbn. destruct bad; [split; [done|cbn; lia]|].
  pose proof (read_law n s Hn) as Hl. destruct (Read n s) as [[b err] s'].
  destruct b as [|c b]; [destruct err as [e|]; [|by destruct Hl]; destruct Hl as [-> _]; split; [done|cbn; lia]|].
  pose proof (scan_kept limit l (c :: b)) as Hk. destruct (scan_bytes limit l (c :: b)) as [[kept l'] bad] eqn:Es.
  assert (content s = ((c :: b) ++ match err with Some _ => [] | None => (content s').1 end, match err with Some e => e | None => (content s').2 end)
          ∧ (length (c :: b) ≤ n)%nat) as [Hc Hb].
  { destruct err as [e|]; [destruct Hl as [-> ?]; by rewrite app_nil_r|by destruct Hl as (_ & ? & ?)]. }
  unfold sse_content. rewrite Hc. cbn [fst snd]. rewrite scan_app, Es. destruct bad; [split; [done|lia]|]. subst kept.
  destruct err as [e|]; cbn [scan_bytes]; [by rewrite app_nil_r|]. split; [done|]. split; [|lia]. unfold sse_content; cbn [se_bad se_limit se_line se_source]. destruct (scan_bytes limit l' _) as [[??]?]. done.
Qed.
End sse.

(** *** Events

    An event of a stream framed by line feeds: lines that are not empty, each
    ended, and a blank line. *)
Definition plain_line (line : bytes) : Prop := (line ≠ []) ∧ (CR ∉ line) ∧ (LF ∉ line).
Definition framed (lines : list bytes) : bytes := concat (map (λ line, line ++ [LF]) lines) ++ [LF].
Definition framed_size (lines : list bytes) : Z := lenZ (framed lines).

Definition clean (n : Z) : lineState := mkLine n 0 false.

Lemma observe_plain c l : c ≠ CR → c ≠ LF → observeByte c l = clean (ln_size l).
Proof. intros H1 H2. unfold observeByte, byte_eqb. by rewrite !bool_decide_false by done. Qed.

Lemma scan_line limit line l : CR ∉ line → LF ∉ line → line ≠ [] → ln_pendingCR l = false → ln_size l + lenZ line ≤ limit →
  scan_bytes limit l line = (line, clean (ln_size l + lenZ line), false).
Proof.
  revert l. induction line as [|c line IH]; intros l H1 H2 H3 Hp Hs; [done|]. cbn [scan_bytes]. cbn [length] in *. cbn [ln_size].
  destruct (Z.ltb_spec limit (ln_size l + 1)); [lia|]. rewrite observe_plain by set_solver. cbn [ln_size].
  destruct line as [|d line]; [cbn; do 3 f_equal; lia|]. rewrite IH by (cbn [clean ln_size ln_pendingCR length] in *; set_solver || lia).
  cbn [clean ln_size length]. do 3 f_equal. lia.
Qed.

Lemma scan_LF limit n b : n + 1 ≤ limit → scan_bytes limit (mkLine n b false) [LF] = ([LF], if 2 <=? b + 1 then clean 0 else mkLine (n + 1) (b + 1) false, false).
Proof.
  intros H. cbn [scan_bytes ln_size ln_lineBreaks ln_pendingCR]. destruct (Z.ltb_spec limit (n + 1)); [lia|].
  unfold observeByte. change (byte_eqb LF CR) with false. change (byte_eqb LF LF) with true. cbn. unfold finishLineBreak, set_pending. cbn.
  by destruct (2 <=? b + 1).
Qed.

Lemma scan_event limit lines n : lines ≠ [] → Forall plain_line lines → n + framed_size lines ≤ limit → 0 ≤ n →
  ∀ b, 0 ≤ b ≤ 1 → scan_bytes limit (mkLine n b false) (framed lines) = (framed lines, clean 0, false).
Proof.
  unfold framed_size. revert n. induction lines as [|line lines IH]; intros n Hne Hall Hs Hn b Hb; [done|].
  inversion Hall as [|? ? (L1 & L2 & L3) Hall']; subst. unfold framed in *. cbn [map concat] in *. rewrite <-!app_assoc in *.
  rewrite !length_app in Hs. cbn [length] in Hs.
  rewrite scan_app, scan_line by (cbn [ln_size ln_pendingCR]; done || lia). cbn [ln_size]. unfold clean at 1.
  rewrite scan_app, scan_LF by lia. change (2 <=? 0 + 1) with false. cbn iota.
  destruct lines as [|line' lines].
  - cbn [map concat app]. by rewrite scan_LF by (cbn in Hs; lia).
  - rewrite IH; [done|done|done|rewrite !length_app in *; cbn [length] in *; lia|lia|lia].
Qed.

Lemma scan_line_over limit line l : CR ∉ line → LF ∉ line → ln_size l ≤ limit → limit < ln_size l + lenZ line →
  (scan_bytes limit l line).1.1 = take (Z.to_nat (limit - ln_size l)) line ∧ (scan_bytes limit l line).2 = true.
Proof.
  revert l. induction line as [|c line IH]; intros l H1 H2 Hl Ho; [cbn in Ho; lia|]. cbn [scan_bytes]. cbn [length] in *. cbn [ln_size].
  destruct (Z.ltb_spec limit (ln_size l + 1)); [by replace (Z.to_nat (limit - ln_size l)) with 0%nat by lia|].
  rewrite observe_plain by set_solver. cbn [ln_size].
  destruct (IH (clean (ln_size l + 1)) ltac:(set_solver) ltac:(set_solver) ltac:(cbn; lia) ltac:(cbn; lia)) as [I1 I2].
  destruct (scan_bytes limit (clean (ln_size l + 1)) line) as [[kept l'] bad]. cbn in I1, I2 |- *. subst.
  by replace (Z.to_nat (limit - ln_size l)) with (S (Z.to_nat (limit - (ln_size l + 1)))) by lia.
Qed.

Lemma scan_LF_over limit n b rest : n = limit → scan_bytes limit (mkLine n b false) (LF :: rest) = ([], mkLine (n + 1) b false, true).
Proof. intros ->. cbn. by destruct (Z.ltb_spec limit (limit + 1)); [|lia]. Qed.

(** Only the kept bytes and the verdict of a scan. *)
Definition verdict (r : bytes * lineState * bool) : bytes * bool := (r.1.1, r.2).

Lemma verdict_app limit l b c l' kept :
  scan_bytes limit l b = (kept, l', false) → verdict (scan_bytes limit l (b ++ c)) = (kept ++ (verdict (scan_bytes limit l' c)).1, (verdict (scan_bytes limit l' c)).2).
Proof. intros E. rewrite scan_app, E. by destruct (scan_bytes limit l' c) as [[??]?]. Qed.

Lemma verdict_stop limit l b c : (verdict (scan_bytes limit l b)).2 = true → verdict (scan_bytes limit l (b ++ c)) = verdict (scan_bytes limit l b).
Proof. rewrite scan_app. destruct (scan_bytes limit l b) as [[??] [|]]; done. Qed.

Lemma scan_event_over limit lines n b : Forall plain_line lines → lines ≠ [] ∨ b = 1 → 0 ≤ b ≤ 1 → n ≤ limit → limit < n + framed_size lines →
  verdict (scan_bytes limit (mkLine n b false) (framed lines)) = (take (Z.to_nat (limit - n)) (framed lines), true).
Proof.
  unfold framed_size. revert n b. induction lines as [|line lines IH]; intros n b Hall Hne Hb Hn Ho.
  - unfold framed in *. cbn [map concat app] in *. cbn [length] in Ho. unfold verdict.
    rewrite scan_LF_over by lia. by replace (Z.to_nat (limit - n)) with 0%nat by lia.
  - inversion Hall as [|? ? (L1 & L2 & L3) Hall']; subst. unfold framed in *. cbn [map concat] in *. rewrite <-!app_assoc in *.
    rewrite !length_app in Ho. cbn [length] in Ho.
    destruct (Z.lt_ge_cases limit (n + lenZ line)) as [Hl|Hl].
    { destruct (scan_line_over limit line (mkLine n b false) L2 L3 Hn Hl) as [E1 E2]. rewrite verdict_stop by done.
      unfold verdict. rewrite E1, E2. cbn [ln_size]. f_equal. rewrite take_app_le by lia. done. }
    rewrite (verdict_app _ _ _ _ (clean (n + lenZ line)) line) by (by apply scan_line; cbn [ln_size ln_pendingCR]). unfold clean.
    destruct (Z.eq_dec (n + lenZ line) limit) as [He|He].
    { unfold verdict. change ([LF] ++ ?x) with (LF :: x). rewrite scan_LF_over by done. cbn [fst snd]. rewrite app_nil_r.
      rewrite take_app_le by lia. by rewrite take_ge by lia. }
    rewrite (verdict_app _ _ [LF] _ (mkLine (n + lenZ line + 1) 1 false) [LF]) by (by rewrite scan_LF by lia).
    rewrite IH; [|done|by right|lia|lia|rewrite !length_app; cbn [length]; lia]. cbn [fst snd]. f_equal.
    rewrite (take_app_ge line) by lia. rewrite (take_app_ge [LF]) by (cbn [length]; lia). cbn [length]. do 3 f_equal; lia.
Qed.

Lemma scan_events limit events : Forall (λ e, e ≠ [] ∧ Forall plain_line e ∧ framed_size e ≤ limit) events →
  scan_bytes limit (clean 0) (concat (map framed events)) = (concat (map framed events), clean 0, false).
Proof.
  induction 1 as [|e events (H1 & H2 & H3) _ IH]; [done|]. cbn [map concat]. rewrite scan_app. unfold clean at 1.
  rewrite scan_event by (done || lia). by rewrite IH.
Qed.

(** The event limit passes events whole or cuts the first that is too long.
    For a stream of framed events, in whatever pieces it arrives: when every
    event fits, the reader passes every byte and ends as the source ends; when
    one does not, it passes all events before the first such one and exactly
    the limit's worth of that one, then fails. *)
Theorem sse_event_limit_exact {R} `{ReaderLaws R} (source : R) limit fits over rest :
  Forall (λ e, e ≠ [] ∧ Forall plain_line e ∧ framed_size e ≤ limit) fits → over ≠ [] → Forall plain_line over →
  limit < framed_size over → 0 ≤ limit →
  let reader := mkSSELimit source limit (clean 0) false in
  ((content source).1 = concat (map framed fits) → content reader = content source) ∧
  ((content source).1 = concat (map framed fits) ++ framed over ++ rest →
    content reader = (concat (map framed fits) ++ take (Z.to_nat limit) (framed over), ErrSSEEventTooLarge)).
Proof.
  intros Hf Ho1 Ho2 Ho3 Hl reader. cbn [content sseEventLimitReader_Laws reader se_bad se_limit se_line se_source]. unfold sse_content.
  pose proof (scan_events limit fits Hf) as Es. split; intros E; rewrite E.
  - rewrite Es, <-E. by destruct (content source).
  - pose proof (verdict_app limit _ _ (framed over ++ rest) _ _ Es) as Hv.
    pose proof (scan_event_over limit over 0 0 Ho2 ltac:(by left) ltac:(lia) Hl ltac:(lia)) as Hs. fold (clean 0) in Hs.
    rewrite (verdict_stop limit (clean 0) (framed over) rest) in Hv by (by rewrite Hs). rewrite Hs in Hv. cbn [fst snd] in Hv.
    unfold verdict in Hv. destruct (scan_bytes limit (clean 0) _) as [[kept ?] bad] in Hv |- *. cbn [fst snd] in Hv. injection Hv as -> ->.
    by rewrite Z.sub_0_r.
Qed.

(** ** Observing a response *)

(** The representation kept for usage accounting; [ro_completion] and
    [ro_requestBody] say whether the pointers are set, [ro_checkpointAt] whether
    there is a clock. *)
Record responseObservation := mkResponseObservation {
  ro_maxBytes : Z;
  ro_coding : ContentCoding;
  ro_bytes : bytes;
  ro_overflow : bool;
  ro_eligible : bool;
  ro_pricing : PricingResolution;
  ro_completion : bool;
  ro_canonical : option (Usage.Usage * Money);
  ro_checkpoints : list streamCheckpoint;
  ro_checkpointBytes : Z;
  ro_checkpointOverflow : bool;
  ro_wireOffset : Z;
  ro_checkpointAt : bool;
}.

Definition maxStreamCheckpointCount : Z := 256.
Definition maxStreamCheckpointBytes : Z := 8 * 1024 * 1024.

Definition newResponseObservation (maxBytes : Z) (coding : ContentCoding) (pricing : PricingResolution) : responseObservation :=
  mkResponseObservation (if maxBytes <=? 0 then DefaultUsageObservationMaxBytes else maxBytes) coding [] false false pricing false None
    [] 0 false 0 false.

Definition responseObservationCoding (header : Header) : result observation_error ContentCoding :=
  match Values header (str "Content-Encoding") with
  | [] => Ok ContentCodingIdentity
  | [value] => ValidateContentCoding value
  | _ => Err ErrUsageObservationUnsupported
  end.

Definition with_bytes (b : bytes) (overflow : bool) (o : responseObservation) : responseObservation :=
  mkResponseObservation (ro_maxBytes o) (ro_coding o) b overflow (ro_eligible o) (ro_pricing o) (ro_completion o) (ro_canonical o)
    (ro_checkpoints o) (ro_checkpointBytes o) (ro_checkpointOverflow o) (ro_wireOffset o) (ro_checkpointAt o).
Definition with_checkpoints (cs : list streamCheckpoint) (n : Z) (overflow : bool) (offset : Z) (o : responseObservation) : responseObservation :=
  mkResponseObservation (ro_maxBytes o) (ro_coding o) (ro_bytes o) (ro_overflow o) (ro_eligible o) (ro_pricing o) (ro_completion o) (ro_canonical o)
    cs n overflow offset (ro_checkpointAt o).
Definition setCanonical (usage : Usage.Usage) (cost : Money) (o : responseObservation) : responseObservation :=
  mkResponseObservation (ro_maxBytes o) (ro_coding o) (ro_bytes o) (ro_overflow o) (ro_eligible o) (ro_pricing o) (ro_completion o)
    (Some (usage, cost)) (ro_checkpoints o) (ro_checkpointBytes o) (ro_checkpointOverflow o) (ro_wireOffset o) (ro_checkpointAt o).
Definition owned_by (completion clock : bool) (o : responseObservation) : responseObservation :=
  mkResponseObservation (ro_maxBytes o) (ro_coding o) (ro_bytes o) (ro_overflow o) (ro_eligible o) (ro_pricing o) completion (ro_canonical o)
    (ro_checkpoints o) (ro_checkpointBytes o) (ro_checkpointOverflow o) (ro_wireOffset o) clock.

Definition record (written : bytes) (o : responseObservation) : responseObservation :=
  if bool_decide (written = []) || ro_overflow o then o
  else
    let remaining := ro_maxBytes o - lenZ (ro_bytes o) in
    if remaining <=? 0 then with_bytes (ro_bytes o) true o
    else if remaining <? lenZ written then with_bytes (ro_bytes o ++ take (Z.to_nat remaining) written) true o
    else with_bytes (ro_bytes o ++ written) false o.

Definition addCheckpoint (at_ : Z) (o : responseObservation) : responseObservation :=
  if ro_checkpointOverflow o || (maxStreamCheckpointCount <=? lenZ (ro_checkpoints o)) then o
  else with_checkpoints (ro_checkpoints o ++ [mkCheckpoint (ro_wireOffset o) at_]) (ro_checkpointBytes o) false (ro_wireOffset o) o.

Definition checkpoint (now : Z) (written : Z) (o : responseObservation) : responseObservation :=
  if (written <=? 0) || ro_checkpointOverflow o then o
  else if (maxStreamCheckpointBytes - ro_checkpointBytes o <? written) || (maxStreamCheckpointCount <=? lenZ (ro_checkpoints o))
  then with_checkpoints [] (ro_checkpointBytes o) true (ro_wireOffset o) o
  else
    let o := with_checkpoints (ro_checkpoints o) (ro_checkpointBytes o + written) false (ro_wireOffset o + written) o in
    if ro_checkpointAt o then addCheckpoint now o else o.

(** [finish]: [failed] says whether the dispatch returned an error. *)
Definition finish (failed : bool) (o : responseObservation) : responseObservation :=
  mkResponseObservation (ro_maxBytes o) (ro_coding o) (ro_bytes o) (ro_overflow o) (negb failed && negb (ro_overflow o)) (ro_pricing o)
    (ro_completion o) (ro_canonical o) (ro_checkpoints o) (ro_checkpointBytes o) (ro_checkpointOverflow o) (ro_wireOffset o) (ro_checkpointAt o).

(** ** Copying a body to the client *)

Definition bufferSize : nat := Z.to_nat (32 * 1024).

Section stream.
Context (accepts : nat → bytes → Z * bool) (flushes : nat → bool) (clk : nat → Z * Z) (now : nat → Z).

(** What one fragment that passed the flush leaves behind. *)
Definition after_flush (fragment : bytes) (written : Z) (successful : bool) (w : writer) (o : option responseObservation)
    : writer * option responseObservation :=
  let w := if w_afterFlush w then recordResponseBodyAfterFlush fragment written w else w in
  let w := recordDownstreamAfterFlush clk written successful w in
  (w, (λ o, checkpoint (now (w_calls w)) written (record fragment o)) <$> o).

Definition stream_piece (b : bytes) (w : writer) (o : option responseObservation)
    : (io_error * writer * option responseObservation) + (writer * option responseObservation) :=
  let '(written, failed, w) := Write accepts clk b w in
  if failed : bool then inl (ErrWrite, w, o)
  else if negb (written =? lenZ b) then
    if (0 <? written) && (written <? lenZ b) then
      let '(unflushed, w) := FlushError flushes clk w in
      if unflushed : bool then inl (ErrShortWrite, w, o)
      else let '(w, o) := after_flush (take (Z.to_nat written) b) written true w o in inl (ErrShortWrite, w, o)
    else inl (ErrShortWrite, w, o)
  else
    let '(unflushed, w) := FlushError flushes clk w in
    if unflushed : bool then inl (ErrFlush, w, o) else inr (after_flush b written true w o).

Fixpoint stream_loop {R} `{Reader R} (fuel : nat) (body : R) (w : writer) (o : option responseObservation)
    : option (option io_error * writer * option responseObservation) :=
  match fuel with
  | O => None
  | S fuel =>
      let '(b, readErr, body) := Read bufferSize body in
      match (match b with [] => inr (w, o) | _ => stream_piece b w o end) with
      | inl (err, w, o) => Some (Some err, w, o)
      | inr (w, o) =>
          match readErr with
          | Some e => Some (if bool_decide (e = EOF) then None else Some e, w, o)
          | None => stream_loop fuel body w o
          end
      end
  end.

(** The fuel is one more than the bytes the body has left. *)
Definition streamResponseBody {R} `{ReaderLaws R} (body : R) : writer → option responseObservation → option (option io_error * writer * option responseObservation) :=
  stream_loop (S (length (content body).1)) body.
End stream.

(** *** What is delivered and what is observed *)

(** The observation of the bytes [f]: the prefix it has room for. *)
Definition holds (m : Z) (f : bytes) (o : responseObservation) : Prop :=
  (ro_maxBytes o = m ∧ 0 ≤ m) ∧ ro_bytes o = take (Z.to_nat m) f ∧ ro_overflow o = (m <? lenZ f).
Definition observes (m : Z) (f : bytes) (o : option responseObservation) : Prop := match o with Some o => holds m f o | None => True end.

Lemma record_holds m b f o : holds m f o → holds m (f ++ b) (record b o).
Proof.
  intros ([Hm H0] & H1 & H2). unfold record. rewrite Hm. case_bool_decide as Eb; [subst b; rewrite app_nil_r; by split_and!|]. cbn [orb].
  destruct (ro_overflow o) eqn:Eo.
  { split_and!; [done|done| |].
    - rewrite H1. rewrite take_app_le by lia. done.
    - rewrite Eo. symmetry. rewrite Z.ltb_lt. rewrite length_app. lia. }
  assert (lenZ (ro_bytes o) = lenZ f) as El by (rewrite H1, length_take; lia).
  assert (ro_bytes o = f) as Ef by (rewrite H1; apply take_ge; lia).
  assert (0 < lenZ b) by (destruct b; [done|cbn; lia]). rewrite El.
  destruct (Z.leb_spec (m - lenZ f) 0); [|destruct (Z.ltb_spec (m - lenZ f) (lenZ b))]; unfold holds; cbn; rewrite Ef;
    (split; [done|]); (split; [|rewrite length_app; lia]).
  - rewrite take_app_le by lia. by rewrite take_ge by lia.
  - rewrite take_app_ge by lia. do 2 f_equal. lia.
  - by rewrite take_ge by (rewrite length_app; lia).
Qed.

Lemma checkpoint_holds m f t n o : holds m f o → holds m f (checkpoint t n o).
Proof.
  intros H. unfold checkpoint, addCheckpoint. destruct (_ || ro_checkpointOverflow o); [done|]. destruct (_ || _); [done|].
  destruct (ro_checkpointAt _); [|done]. destruct (_ || _); done.
Qed.

(** What an observation does when [f] passes: it holds that too, and stays. *)
Definition advanced (f : bytes) (o o' : option responseObservation) : Prop :=
  (∀ m g, observes m g o → observes m (g ++ f) o') ∧ (o' = None → o = None).

Lemma advanced_nil o : advanced [] o o.
Proof. split; [intros m g; by rewrite app_nil_r|done]. Qed.

(** What a step of the writer keeps: the start of the response. *)
Definition started (w w' : writer) : Prop := w_status w' = w_status w ∧ w_sent w' = w_sent w.

Section delivery.
Context (accepts : nat → bytes → Z * bool) (flushes : nat → bool) (clk : nat → Z * Z) (now : nat → Z).

Lemma Write_spec b w : w_status w ≠ 0 →
  let '(written, failed, w') := Write accepts clk b w in
  started w w' ∧ w_body w' = w_body w ++ take (Z.to_nat written) b ∧ (written, failed) = accepts (w_calls w) b ∧ w_afterFlush w' = w_afterFlush w.
Proof.
  intros Hs. unfold Write, started. destruct (Z.eqb_spec (w_status w) 0); [done|]. destruct (accepts (w_calls w) b) as [count failed].
  destruct (_ && within _ _ && _), (_ && within _ _); cbn; done.
Qed.

Lemma Flush_spec w : w_status w ≠ 0 →
  let '(failed, w') := FlushError flushes clk w in
  started w w' ∧ w_body w' = w_body w ∧ failed = negb (flushes (w_calls w)) ∧ w_afterFlush w' = w_afterFlush w.
Proof.
  intros Hs. unfold FlushError, started. cbn. destruct (Z.eqb_spec (w_status w) 0); [done|]. rewrite andb_false_r. cbn. by rewrite app_nil_r.
Qed.

Lemma after_flush_spec b n ok w o :
  let '(w', o') := after_flush clk now b n ok w o in started w w' ∧ w_body w' = w_body w ∧ advanced b o o'.
Proof.
  unfold after_flush, recordDownstreamAfterFlush, recordResponseBodyAfterFlush, started.
  split; [destruct (w_afterFlush w), (within n b); cbn; destruct (n <? 0); done|].
  split; [destruct (w_afterFlush w), (within n b); cbn; destruct (n <? 0); done|].
  split; [|by destruct o]. intros m f Ho. destruct o as [o|]; [|done]. cbn. by apply checkpoint_holds, record_holds.
Qed.

(** What a fragment leaves, delivered [d] of which [f] was flushed. *)
Definition passed_on (b d f : bytes) (w w' : writer) (o o' : option responseObservation) : Prop :=
  started w w' ∧ w_body w' = w_body w ++ d ∧ f `prefix_of` d ∧ d `prefix_of` b ∧ advanced f o o'.

Lemma passed_nothing b w o : passed_on b [] [] w w o o.
Proof. split_and!; [done|by rewrite app_nil_r|done|apply prefix_nil|apply advanced_nil]. Qed.

Lemma passed_on_app b c d f w w1 w' o o1 o' : passed_on b b b w w1 o o1 → passed_on c d f w1 w' o1 o' → passed_on (b ++ c) (b ++ d) (b ++ f) w w' o o'.
Proof.
  intros ([S1 S2] & Hb & _ & _ & Hg & Hn) ([T1 T2] & Hd & Hf & Hc & Ho & Hm).
  split_and!; [split; congruence|by rewrite Hd, Hb, app_assoc|by apply prefix_app|by apply prefix_app|].
  split; [intros m g Hy; rewrite app_assoc; by apply Ho, Hg|auto].
Qed.

Lemma stream_piece_spec b w o : w_status w ≠ 0 →
  match stream_piece accepts flushes clk now b w o with
  | inl (_, w', o') => ∃ d f, passed_on b d f w w' o o'
  | inr (w', o') => passed_on b b b w w' o o'
  end.
Proof.
  intros Hs. unfold stream_piece. pose proof (Write_spec b w Hs) as Hw. destruct (Write accepts clk b w) as [[written failed] w1].
  destruct Hw as ((S1 & S2) & Hb & _ & _). set (d := take (Z.to_nat written) b) in *. assert (d `prefix_of` b) as Hp by apply prefix_take.
  assert (∀ w', started w1 w' → w_body w' = w_body w1 → ∃ d f, passed_on b d f w w' o o) as Hstop.
  { intros w' [T1 T2] Hb'. exists d, []. split_and!; [split; congruence|congruence|apply prefix_nil|done|apply advanced_nil]. }
  destruct failed; [by apply Hstop|].
  pose proof (Flush_spec w1 ltac:(congruence)) as Hf. destruct (FlushError flushes clk w1) as [unflushed w2]. destruct Hf as ([F1 F2] & Hb2 & _ & _).
  assert (∀ fragment, let '(w3, o3) := after_flush clk now fragment written true w2 o in
            started w w3 ∧ w_body w3 = w_body w1 ∧ advanced fragment o o3) as Ha.
  { intros fragment. pose proof (after_flush_spec fragment written true w2 o) as Ha. destruct (after_flush clk now fragment written true w2 o).
    destruct Ha as ([A1 A2] & A3 & A4). split_and!; [split; congruence|congruence|done]. }
  destruct (Z.eqb_spec written (lenZ b)) as [Ew|Ew]; cbn [negb].
  - destruct unflushed; [by apply Hstop|]. specialize (Ha b). destruct (after_flush clk now b written true w2 o) as [w3 o3]. destruct Ha as (A1 & A2 & A3).
    assert (d = b) as Hd by (apply take_ge; lia). split_and!; [done|congruence|done|done|done].
  - destruct (_ && _); [|by apply Hstop]. destruct unflushed; [by apply Hstop|]. specialize (Ha d).
    destruct (after_flush clk now d written true w2 o) as [w3 o3]. destruct Ha as (A1 & A2 & A3). exists d, d. split_and!; [done|congruence|done|done|done].
Qed.

(** A connection that accepts and flushes whatever is written. *)
Definition healthy : Prop := (∀ n b, accepts n b = (lenZ b, false)) ∧ ∀ n, flushes n = true.

Lemma healthy_piece b w o : healthy → w_status w ≠ 0 → ∃ r, stream_piece accepts flushes clk now b w o = inr r.
Proof.
  intros [Ha Hf] Hs. unfold stream_piece. pose proof (Write_spec b w Hs) as Hw. destruct (Write accepts clk b w) as [[written failed] w1].
  destruct Hw as ([S1 S2] & _ & E & _). rewrite Ha in E. injection E as -> ->. rewrite Z.eqb_refl. cbn [negb].
  pose proof (Flush_spec w1 ltac:(congruence)) as H. destruct (FlushError flushes clk w1) as [u w2]. destruct H as (_ & _ & -> & _). rewrite Hf. cbn. eauto.
Qed.

(** Copying says nothing about the usage of a response. *)
Lemma observed_canonical b t n o : ro_canonical (checkpoint t n (record b o)) = ro_canonical o.
Proof.
  assert (ro_canonical (record b o) = ro_canonical o) as <-.
  { unfold record. destruct (_ || _); [done|]. destruct (_ <=? 0); [done|]. by destruct (_ <? _). }
  generalize (record b o) as r. intros r. unfold checkpoint, addCheckpoint. destruct (_ || ro_checkpointOverflow _); [done|]. destruct (_ || _); [done|].
  destruct (ro_checkpointAt _); [|done]. by destruct (_ || _).
Qed.

Lemma stream_canonical {R} `{Reader R} fuel (body : R) w o err w' o' :
  stream_loop accepts flushes clk now fuel body w o = Some (err, w', o') → ro_canonical <$> o' = ro_canonical <$> o.
Proof.
  assert (∀ b n ok w o, ro_canonical <$> (after_flush clk now b n ok w o).2 = ro_canonical <$> o) as Ha.
  { intros b n ok w1 [o1|]; [|done]. cbn. by rewrite observed_canonical. }
  assert (∀ b w o, match stream_piece accepts flushes clk now b w o with inl (_, _, o1) | inr (_, o1) => ro_canonical <$> o1 = ro_canonical <$> o end) as Hp.
  { intros b w1 o1. unfold stream_piece. destruct (Write accepts clk b w1) as [[written []] w2]; [done|].
    destruct (FlushError flushes clk w2) as [[] w3]; [destruct (negb _); [by destruct (_ && _)|done]|].
    destruct (negb _); [destruct (_ && _); [|done]|].
    - specialize (Ha (take (Z.to_nat written) b) written true w3 o1). by destruct (after_flush _ _ _ _ _ _ _).
    - specialize (Ha b written true w3 o1). by destruct (after_flush _ _ _ _ _ _ _). }
  revert body w o. induction fuel as [|fuel IH]; intros body w o; [done|]. cbn [stream_loop]. destruct (Read bufferSize body) as [[b e] body'].
  assert (match (match b with [] => inr (w, o) | _ => stream_piece accepts flushes clk now b w o end) with
          | inl (_, _, o1) | inr (_, o1) => ro_canonical <$> o1 = ro_canonical <$> o end) as Hb by (destruct b; [done|apply Hp]).
  destruct (match b with [] => _ | _ => _ end) as [[[e1 w1] o1]|[w1 o1]]; [by intros [= <- <- <-]|].
  destruct e; [by intros [= <- <- <-]|]. intros E. by rewrite (IH _ _ _ E).
Qed.

(** How a copy that nothing interrupts ends. *)
Definition copy_end (e : io_error) : option io_error := if bool_decide (e = EOF) then None else Some e.

Lemma stream_loop_spec {R} `{ReaderLaws R} fuel (body : R) w o : w_status w ≠ 0 → (length (content body).1 < fuel)%nat →
  ∃ err w' o' d f, stream_loop accepts flushes clk now fuel body w o = Some (err, w', o') ∧ passed_on (content body).1 d f w w' o o' ∧
    (err = None ∨ healthy → d = (content body).1 ∧ f = d ∧ err = copy_end (content body).2).
Proof.
  revert body w o. induction fuel as [|fuel IH]; intros body w o Hs Hf; [lia|]. cbn [stream_loop].
  pose proof (read_law bufferSize body ltac:(unfold bufferSize; lia)) as Hl. destruct (Read bufferSize body) as [[b readErr] body'].
  set (piece := match b with [] => inr (w, o) | _ => stream_piece accepts flushes clk now b w o end).
  assert (match piece with inl (_, w', o') => (∃ d f, passed_on b d f w w' o o') ∧ ¬ healthy | inr (w', o') => passed_on b b b w w' o o' end) as Hp.
  { subst piece. destruct b as [|c b]; [apply passed_nothing|]. pose proof (stream_piece_spec (c :: b) w o Hs) as Hp.
    destruct (stream_piece accepts flushes clk now (c :: b) w o) as [[[??]?]|] eqn:E; [|done]. split; [done|]. intros Hh.
    destruct (healthy_piece (c :: b) w o Hh Hs). congruence. }
  clearbody piece. destruct piece as [[[err w'] o']|[w' o']].
  - destruct Hp as [(d & f & P1 & P2 & P3 & P4 & P5) Hnh]. exists (Some err), w', o', d, f. split; [done|]. split; [|by intros [?|?]].
    split_and!; try done. destruct readErr; [by destruct Hl as [-> _]|]. destruct Hl as (_ & -> & _). by apply prefix_app_r.
  - destruct readErr as [e|]; [destruct Hl as [-> _]; by exists (copy_end e), w', o', b, b|].
    destruct Hl as (Hne & Hc & _). destruct (IH body' w' o') as (err & w2 & o2 & d & f & I1 & I2 & I3).
    { destruct Hp as ([? _] & _). congruence. }
    { rewrite Hc in Hf. cbn in Hf. rewrite length_app in Hf. destruct b; [done|cbn in Hf; lia]. }
    exists err, w2, o2, (b ++ d), (b ++ f). rewrite I1, Hc. cbn [fst snd]. split; [done|]. split; [by apply (passed_on_app _ _ _ _ _ w' _ _ o')|].
    intros He. by destruct (I3 He) as (-> & -> & ->).
Qed.
End delivery.

(** ** Non-streaming responses *)

(** The upstream's response; [up_NoBody] says whether its body is [http.NoBody],
    [up_Body] is [None] for nil; [up_entries] is the order its header is iterated in. *)
Record upstreamResponse (R : Type) := mkUpstream {
  up_StatusCode : Z; up_Header : Header; up_entries : list (bytes * list bytes); up_ContentLength : Z; up_NoBody : bool; up_Body : option R }.
Arguments mkUpstream {R}.
Arguments up_StatusCode {R}.
Arguments up_Header {R}.
Arguments up_entries {R}.
Arguments up_ContentLength {R}.
Arguments up_NoBody {R}.
Arguments up_Body {R}.

Definition maxUpstreamResponseBodyBytes : Z := 100 * 1024 * 1024.

Definition nilBody {R} (b : option R) : bool := match b with None => true | Some _ => false end.

Section copying.
Context (accepts : nat → bytes → Z * bool) (flushes : nat → bool) (clk : nat → Z * Z) (now : nat → Z).
Context {R : Type} `{ReaderLaws R}.

Definition copyBoundedNonStreamingResponseWithObservation (upstream : upstreamResponse R) (body : R) (limit : Z) (w : writer)
    (o : option responseObservation) : option (option io_error * writer * option responseObservation) :=
  let limit := if limit <? 0 then 0 else limit in
  let '(declared, known) := responseContentLength (up_ContentLength upstream) (up_NoBody upstream || nilBody (up_Body upstream)) (up_Header upstream) in
  let header := copyResponseHeaders (up_entries upstream) (up_Header upstream) (w_header w) in
  let header := if known && (limit <? declared) then Del (str "Content-Length") header else header in
  let w := WriteHeader clk (up_StatusCode upstream) (set_header header w) in
  streamResponseBody accepts flushes clk now (mkBounded body (Z.to_N limit) false) w o.

(** [drainAggregationBody]: the context's error before each read. *)
Fixpoint drain_loop (fuel : nat) (context : nat → bool) (k : nat) (body : R) : option (option io_error) :=
  match fuel with
  | O => None
  | S fuel =>
      if context k then Some (Some ErrContext)
      else match Read bufferSize body with
           | ([], None, _) => Some (Some ErrNoProgress)
           | (_, Some e, _) => Some (copy_end e)
           | (_, None, body) => drain_loop fuel context (S k) body
           end
  end.

Definition drainAggregationBody (body : R) (context : nat → bool) : option (option io_error) :=
  drain_loop (S (length (content body).1)) context 0 body.

Lemma drain_total body context : ∃ r, drainAggregationBody body context = Some r ∧ ((∀ k, context k = false) → r = copy_end (content body).2).
Proof.
  unfold drainAggregationBody. generalize 0%nat as k. assert (length (content body).1 < S (length (content body).1))%nat as Hf by lia.
  revert Hf. generalize (S (length (content body).1)) as fuel. intros fuel. revert body. induction fuel as [|fuel IH]; intros body Hf k; [lia|].
  cbn [drain_loop]. destruct (context k) eqn:Ek; [eexists; split; [done|]; intros Hc; by rewrite Hc in Ek|].
  pose proof (read_law bufferSize body ltac:(unfold bufferSize; lia)) as Hl. destruct (Read bufferSize body) as [[[|c b] [e|]] body'].
  - destruct Hl as [-> _]. by eexists.
  - by destruct Hl.
  - destruct Hl as [-> _]. by eexists.
  - destruct Hl as (_ & Hc & _). rewrite Hc in Hf |- *. cbn in Hf |- *. apply IH. rewrite length_app in Hf. lia.
Qed.

Lemma response_started (upstream : upstreamResponse R) header w : fresh w → up_StatusCode upstream ≠ 0 →
  let w' := WriteHeader clk (up_StatusCode upstream) (set_header header w) in
  w_status w' ≠ 0 ∧ w_sent w' = Some (up_StatusCode upstream, header) ∧ w_body w' = w_body w.
Proof.
  intros [F1 F2] Hs. destruct (WriteHeader_fresh clk (up_StatusCode upstream) (set_header header w)) as (E1 & E2 & E3 & _); [by split|done|].
  cbv zeta. rewrite E1, E2, E3. done.
Qed.

(** C16: A body is never buffered, altered or exceeded on its way.  Copying a
    response ends whatever the connection and the upstream do.  The status is
    the upstream's and the header is what crosses, less a Content-Length that
    promises more than the limit; the client gets a prefix of the first [limit]
    bytes, and the observation holds a prefix of what was delivered and
    flushed, up to its own bound.  When the connection is healthy, or the copy
    reports no error, the client gets exactly the first [limit] bytes, and the
    copy succeeds exactly if that is the whole body and it ended cleanly. *)
Theorem copy_bounded_exact (upstream : upstreamResponse R) body limit w coding pricing maxBytes :
  fresh w → up_StatusCode upstream ≠ 0 → 0 ≤ limit →
  let allowed := take (Z.to_nat limit) (content body).1 in
  let clean_end := if limit <? lenZ (content body).1 then Some ErrUpstreamResponseTooLarge else copy_end (content body).2 in
  ∃ err w' o' d f header,
    copyBoundedNonStreamingResponseWithObservation upstream body limit w (Some (newResponseObservation maxBytes coding pricing)) = Some (err, w', Some o') ∧
    w_sent w' = Some (up_StatusCode upstream, header) ∧ w_body w' = w_body w ++ d ∧ f `prefix_of` d ∧ d `prefix_of` allowed ∧
    holds (if maxBytes <=? 0 then DefaultUsageObservationMaxBytes else maxBytes) f o' ∧
    (err = None ∨ healthy accepts flushes → d = allowed ∧ f = allowed ∧ err = clean_end) ∧
    (∀ declared, responseContentLength (up_ContentLength upstream) (up_NoBody upstream || nilBody (up_Body upstream)) (up_Header upstream) = (declared, true) →
      limit < declared → Values header (str "Content-Length") = []).
Proof.
  intros Hw Hs Hl allowed clean_end. unfold copyBoundedNonStreamingResponseWithObservation.
  destruct (Z.ltb_spec limit 0); [lia|]. destruct (responseContentLength _ _ _) as [declared known] eqn:El.
  set (header := if known && (limit <? declared) then Del _ _ else _).
  destruct (response_started upstream header w Hw Hs) as (T1 & T2 & T3).
  set (w1 := WriteHeader clk (up_StatusCode upstream) (set_header header w)) in *.
  set (o := newResponseObservation maxBytes coding pricing).
  set (m := if maxBytes <=? 0 then DefaultUsageObservationMaxBytes else maxBytes). assert (observes m [] (Some o)) as Ho.
  { subst o. unfold newResponseObservation, observes, holds, m, DefaultUsageObservationMaxBytes. cbn. destruct (Z.leb_spec maxBytes 0); (split_and!; [done|lia|by rewrite take_nil|symmetry; apply Z.ltb_ge; cbn; lia]). }
  set (reader := mkBounded body (Z.to_N limit) false).
  destruct (stream_loop_spec accepts flushes clk now (S (length (content reader).1)) reader w1 (Some o) T1 ltac:(lia))
    as (err & w' & o' & d & f & E & ([U1 U2] & Hb & Hf & Hd & Hg) & Hx).
  assert (content reader = (allowed, if limit <? lenZ (content body).1 then ErrUpstreamResponseTooLarge else (content body).2)) as Hc.
  { cbn. unfold bound. rewrite Z_N_nat. f_equal. destruct (N.ltb_spec (Z.to_N limit) (N.of_nat (length (content body).1))), (Z.ltb_spec limit (lenZ (content body).1)); lia || done. }
  unfold streamResponseBody. rewrite E. rewrite Hc in Hx, Hd. cbn [fst snd] in Hx, Hd.
  destruct Hg as [Hg Hn]. specialize (Hg m [] Ho). destruct o' as [o'|]; [|by specialize (Hn eq_refl)].
  exists err, w', o', d, f, header. split_and!; [done|congruence|congruence|done|done|done| |].
  - intros He. destruct (Hx He) as (-> & -> & ->). split_and!; [done|done|]. 
    change (copy_end (if limit <? lenZ (content body).1 then ErrUpstreamResponseTooLarge else (content body).2) =
            (if limit <? lenZ (content body).1 then Some ErrUpstreamResponseTooLarge else copy_end (content body).2)).
    by destruct (limit <? _).
  - intros declared' [= <- ->] Hlt. subst header. destruct (Z.ltb_spec limit declared); [|lia]. cbn [andb].
    unfold Values, entry, Del. by rewrite lookup_delete_eq.
Qed.
End copying.

(** A body of seven bytes in three pieces, of which five may pass; the client
    gets them, and the error. *)
Definition demo_upstream_body : upstreamBody := mkBody [str "abc"; str "def"; str "g"] EOF true.
Definition demo_upstream : upstreamResponse upstreamBody :=
  mkUpstream 200 (list_to_map [(str "Content-Length", [str "7"])]) [(str "Content-Length", [str "7"])] 7 false (Some demo_upstream_body).
Definition demo_accepts (_ : nat) (b : bytes) : Z * bool := (lenZ b, false).

Lemma copy_bounded_exact_witness :
  ∃ err w' o', copyBoundedNonStreamingResponseWithObservation demo_accepts (λ _, true) (λ _, (0, 0)) (λ _, 0) demo_upstream demo_upstream_body 5
                 demo_writer (Some (newResponseObservation 4 ContentCodingIdentity UnknownPricingResolution)) = Some (err, w', Some o') ∧
    w_body w' = str "abcde" ∧ ro_bytes o' = str "abcd" ∧ ro_overflow o' = true ∧ err = Some ErrUpstreamResponseTooLarge.
Proof.
  assert (healthy demo_accepts (λ _, true)) as Hh by done.
  destruct (copy_bounded_exact demo_accepts (λ _, true) (λ _, (0, 0)) (λ _, 0) demo_upstream demo_upstream_body 5 demo_writer ContentCodingIdentity
    UnknownPricingResolution 4 ltac:(by split) ltac:(done) ltac:(lia)) as (err & w' & o' & d & f & header & E & _ & Hb & _ & _ & Ho & Hx & _).
  destruct (Hx (or_intror Hh)) as (-> & -> & ->). exists (Some ErrUpstreamResponseTooLarge), w', o'. split; [exact E|]. split; [exact Hb|].
  destruct Ho as (_ & H1 & H2). split; [rewrite H1; reflexivity|]. split; [rewrite H2; reflexivity|reflexivity].
Defined.

Lemma sse_event_limit_exact_witness :
  let source := mkBody [framed [str "data: a"]; framed [str "data: "; str "bcdefgh"]; str "tail"] EOF false in
  content (mkSSELimit source 12 (clean 0) false) = (framed [str "data: a"] ++ take 12 (framed [str "data: "; str "bcdefgh"]), ErrSSEEventTooLarge).
Proof.
  cbv zeta.
  exact (proj2 (sse_event_limit_exact (mkBody [framed [str "data: a"]; framed [str "data: "; str "bcdefgh"]; str "tail"] EOF false) 12
    [[str "data: a"]] [str "data: "; str "bcdefgh"] (str "tail")
    ltac:(repeat constructor; vm_compute; first [done | set_solver]) ltac:(done) ltac:(repeat constructor; vm_compute; first [done | set_solver])
    ltac:(done) ltac:(lia)) eq_refl).
Defined.
