(* ===== verification/Ingress.v ===== *)
(** * From the connection to the proxy ([server.go], [authentication.go])

    The limits on a request before anything else looks at it, routing, gateway
    authentication, and the readers around a request body: the inbound limit,
    body capture, and the bounded side observation used for pricing. *)

From Stdlib Require Import Ascii ZArith Lia ZifyBool.
From stdpp Require Import prelude strings list gmap.
From S2P Require Import Prelude Text Utf8 Json SSEParser RequestBody Pricing Policy Auth CompletionRecord BodyRecorder UsageObservation HttpHeaders ResponseWriter.
Local Open Scope Z_scope.

#[local] Arguments str : simpl never.

(** ** Limits on the request line, the header and the declared body *)

Definition maxRequestURIBytes : Z := 8 * 1024.
Definition maxQueryBytes : Z := 4 * 1024.
Definition maxInboundRequestBodyBytes : Z := 10 * 1024 * 1024.

(** The request as the first handler sees it; its URL may be nil. *)
Record ingress := mkIngress {
  ig_RequestURI : bytes; ig_URL : option url; ig_entries : list (bytes * list bytes); ig_Host : bytes; ig_ContentLength : Z; ig_HasBody : bool }.

Inductive ingress_verdict :=
| RejectStatus (status : Z) (code : bytes)
| Forward (limited : bool).

Definition request_uri (r : ingress) : bytes :=
  match ig_RequestURI r, ig_URL r with
  | [], Some u => u_EscapedPath u ++ (match u_RawQuery u with [] => [] | q => "?"%char :: q end)
  | uri, _ => uri
  end.

Definition body_route (path : bytes) : bool := HasPrefix path (str "/v1/") || HasPrefix path (str "/admin/").

Definition withIngressLimits (r : ingress) : ingress_verdict :=
  match ig_URL r with
  | None => RejectStatus 431 gatewayErrorInvalidRequest
  | Some u =>
      if (maxRequestURIBytes <? lenZ (request_uri r)) || (maxQueryBytes <? lenZ (u_RawQuery u)) ||
         (maxIngressHeaderBytes <? requestHeaderBytes (ig_entries r) (ig_Host r))
      then RejectStatus 431 gatewayErrorInvalidRequest
      else if body_route (u_Path u) then
        if maxInboundRequestBodyBytes <? ig_ContentLength r then RejectStatus 413 gatewayErrorBodyTooLarge else Forward (ig_HasBody r)
      else Forward false
  end.

(** ** The inbound body limit

    [http.MaxBytesReader]: at most [n] bytes, then an error that the handlers
    recognise; [trackedRequestBody] remembers that it happened, and
    [recordBodyTooLarge] counts it once. *)

Definition MaxBytesReader (n : Z) (body : reader) : reader * bool :=
  if n <? lenZ body.1 then ((take (Z.to_nat n) body.1, SourceFailed), true) else (body, false).

Record requestBodyLimitState := mkLimitState { bl_exceeded : bool; bl_recorded : bool }.

Definition tracked (tooLarge : bool) (s : requestBodyLimitState) : requestBodyLimitState := mkLimitState (bl_exceeded s || tooLarge) (bl_recorded s).

(** The state is absent when no limit was installed; the counter is the metric. *)
Definition recordBodyTooLarge (s : option requestBodyLimitState) (count : Z) : option requestBodyLimitState * Z :=
  match s with
  | Some s => if bl_recorded s then (Some s, count) else (Some (mkLimitState (bl_exceeded s) true), count + 1)
  | None => (None, count + 1)
  end.

Definition requestBodyTooLarge (s : option requestBodyLimitState) (count : Z) : bool * option requestBodyLimitState * Z :=
  match s with
  | Some st => if bl_exceeded st then let '(s, count) := recordBodyTooLarge s count in (true, s, count) else (false, s, count)
  | None => (false, s, count)
  end.

(** ** Routing *)

Inductive route := RouteHealth | RouteAdmin | RouteUI | RoutePublic | RouteNotFound.

Definition routeWithAuthenticator (admin : bool) (method path : bytes) : route :=
  if same method (str "GET") && same path (str "/health") then RouteHealth
  else if admin && HasPrefix path (str "/admin/") then RouteAdmin
  else if same path (str "/ui") || HasPrefix path (str "/ui/") then RouteUI
  else if HasPrefix path (str "/v1/") then RoutePublic
  else RouteNotFound.

(** ** Gateway authentication *)

Definition blank_bytes : bytes := [" "%char; chr 9; chr 13; chr 10].

Definition gatewayBearerCredential (value : bytes) : option bytes :=
  let scheme := str "Bearer " in
  let rawKey := drop (length scheme) value in
  if (length value <=? length scheme)%nat || negb (EqualFold (take (length scheme - 1) value) (str "bearer")) ||
     negb (bool_decide (value !! (length scheme - 1)%nat = Some " "%char)) || existsb (λ c, existsb (byte_eqb c) blank_bytes) rawKey
  then None
  else if bool_decide (rawKey = []) then None
  else Some rawKey.

Definition authenticationErrorCode (err : auth_error) : bytes :=
  match err with
  | ErrDisabledCredential => gatewayErrorKeyDisabled
  | ErrExpiredCredential => gatewayErrorKeyExpired
  | _ => gatewayErrorInvalidAPIKey
  end.

(** The principal handed to the proxy, or the code of the error that is written. *)
Definition withGatewayAuthentication (hmac : bytes → bytes → bytes) (clk : nat → Z) (authenticator : option Authenticator) (authorization : list bytes) : result bytes Principal :=
  match authenticator with
  | None => Err gatewayErrorInvalidAPIKey
  | Some a =>
      match authorization with
      | [value] =>
          match gatewayBearerCredential value with
          | None => Err gatewayErrorInvalidAPIKey
          | Some rawKey =>
              match Authenticate hmac clk a rawKey with
              | Err err => Err (authenticationErrorCode err)
              | Ok principal => Ok principal
              end
          end
      | _ => Err gatewayErrorInvalidAPIKey
      end
  end.

(** ** What of a request is inspected *)

(** The method, the path, the Content-Type values and the declared length. *)
Record request_head := mkHead { rq_Method : bytes; rq_Path : bytes; rq_ContentTypes : list bytes; rq_ContentLength : Z }.

Section inspection.
Context (ParseMediaType : bytes → option bytes).

Definition isJSONMediaType (contentTypes : list bytes) : bool :=
  match contentTypes with
  | [t] => match ParseMediaType t with
           | None => false
           | Some mediaType => let m := ToLower mediaType in same m (str "application/json") || HasSuffix m (str "+json")
           end
  | _ => false
  end.

Definition generation_path (path : bytes) : bool := same path (str "/v1/chat/completions") || same path (str "/v1/responses").

Definition eligibleTokenRequest (r : request_head) : bool :=
  same (rq_Method r) (str "POST") && generation_path (rq_Path r) && isJSONMediaType (rq_ContentTypes r).

Definition budgeted (p : EffectivePolicy) : bool := (Policy_TotalBudget p).2 || (Policy_DailyBudget p).2 || (Policy_MonthlyBudget p).2.

Definition nonempty {A} (l : list A) : bool := match l with [] => false | _ => true end.

Definition shouldInspectRequestMetadata (r : request_head) (principal : option Principal) : bool :=
  if negb (same (rq_Method r) (str "POST")) || negb (generation_path (rq_Path r)) || negb (isJSONMediaType (rq_ContentTypes r)) then false
  else match principal with
       | None => true
       | Some p =>
           let policy := p_Policy p in
           eligibleTokenRequest r && (0 <=? rq_ContentLength r) || nonempty (Policy_AllowedModels policy) || nonempty (Policy_DeniedModels policy) ||
           nonempty (Policy_TokenWindows policy) || budgeted policy
       end.

Definition shouldObserveRequestPricing (r : request_head) (principal : option Principal) (present hasRules : bool) : bool :=
  match principal with Some _ => present && hasRules && eligibleTokenRequest r | None => false end.

(** [inspectRequest]: the body to send on, the metadata, the inspected bytes,
    whether they are available, and the error; a body that is nil, [NoBody] or
    declared empty is not read ([None]). *)
Definition inspectRequest (body : option reader) (contentLength limit : Z)
    : option reader * option RequestMetadata * option bytes * bool * option RequestBody.body_error :=
  match body with
  | None => (None, None, None, false, None)
  | Some b =>
      if contentLength =? 0 then (Some b, None, None, false, None)
      else
        let i := InspectRequestBody (Some b) limit in
        match in_replacement i with
        | None => (Some b, None, None, false, in_err i)
        | Some replacement =>
            if negb (in_available i) then (Some replacement, None, None, false, in_err i)
            else match ParseRequestMetadata (default [] (in_inspected i)) with
                 | Err _ => (Some replacement, None, in_inspected i, true, in_err i)
                 | Ok metadata => (Some replacement, Some metadata, in_inspected i, true, in_err i)
                 end
        end
  end.
End inspection.

(** ** The side observation of a request body

    Counts are of bytes read.  Reading has two critical sections around the
    read of the source; the second, with what the source returned, is an event.
    So are the sections of closing, and taking the snapshot. *)
Record telemetryRequestBody := mkTelemetry {
  tb_limit : Z; tb_expected : Z; tb_observed : Z; tb_bytes : bytes; tb_complete : bool; tb_readError : bool; tb_transferred : bool; tb_closed : bool }.

Definition DefaultMaxInspectedRequestBytes : Z := 64 * 1024.

Definition newTelemetryRequestBody (expected limit : Z) : telemetryRequestBody :=
  mkTelemetry (if limit <=? 0 then DefaultMaxInspectedRequestBytes else limit) expected 0 [] false false false false.

Inductive read_end := ReadMore | ReadEOF | ReadError.

Definition telemetry_observe (p : bytes) (e : read_end) (t : telemetryRequestBody) : telemetryRequestBody :=
  if tb_closed t then t
  else
    let observed := tb_observed t + lenZ p in
    let kept := if nonempty p && negb (tb_readError t) && negb (tb_transferred t) && (lenZ (tb_bytes t) <? tb_limit t + 1)
                then tb_bytes t ++ take (Z.to_nat (tb_limit t + 1 - lenZ (tb_bytes t))) p else tb_bytes t in
    let '(complete, readError) :=
      if (0 <=? tb_expected t) && (tb_expected t <=? observed) then (observed =? tb_expected t, tb_readError t || (tb_expected t <? observed))
      else (tb_complete t, tb_readError t) in
    let '(complete, readError) :=
      match e with
      | ReadMore => (complete, readError)
      | ReadEOF => ((tb_expected t <? 0) || (observed =? tb_expected t), readError)
      | ReadError => (complete, true)
      end in
    mkTelemetry (tb_limit t) (tb_expected t) observed kept complete readError (tb_transferred t) false.

(** [Close]: the section before the source is closed, and the one after it failed to. *)
Definition telemetry_close (t : telemetryRequestBody) : telemetryRequestBody :=
  if tb_closed t then t
  else
    let complete := tb_complete t || (negb (tb_readError t) && (0 <=? tb_expected t) && (tb_observed t =? tb_expected t)) in
    mkTelemetry (tb_limit t) (tb_expected t) (tb_observed t) (tb_bytes t) complete (tb_readError t) (tb_transferred t) true.

Definition telemetry_close_failed (t : telemetryRequestBody) : telemetryRequestBody :=
  mkTelemetry (tb_limit t) (tb_expected t) (tb_observed t) (tb_bytes t) false true (tb_transferred t) (tb_closed t).

Definition telemetry_snapshot (t : telemetryRequestBody) : option bytes * telemetryRequestBody :=
  if tb_transferred t || negb (tb_complete t) || tb_readError t || (tb_limit t <? lenZ (tb_bytes t)) then (None, t)
  else (Some (tb_bytes t),
        mkTelemetry (tb_limit t) (tb_expected t) (tb_observed t) [] (tb_complete t) (tb_readError t) true (tb_closed t)).

Inductive telemetry_event := TRead (p : bytes) (e : read_end) | TClose | TCloseFailed | TSnapshot.

Definition telemetry_step (t : telemetryRequestBody) (ev : telemetry_event) : telemetryRequestBody :=
  match ev with
  | TRead p e => telemetry_observe p e t
  | TClose => telemetry_close t
  | TCloseFailed => telemetry_close_failed t
  | TSnapshot => (telemetry_snapshot t).2
  end.

Definition run_telemetry (evs : list telemetry_event) (t : telemetryRequestBody) : telemetryRequestBody := foldl telemetry_step t evs.

(** What the transport read until the body was closed, and whether it met the end. *)
Record transcript := mkTranscript { ts_seen : bytes; ts_eof : bool; ts_closed : bool }.

Definition hear (s : transcript) (ev : telemetry_event) : transcript :=
  match ev with
  | TRead p e => if ts_closed s then s else mkTranscript (ts_seen s ++ p) (ts_eof s || match e with ReadEOF => true | _ => false end) false
  | TClose => mkTranscript (ts_seen s) (ts_eof s) true
  | _ => s
  end.

Definition heard (evs : list telemetry_event) : transcript := foldl hear (mkTranscript [] false false) evs.

(** The body was read to its declared end, or to the end of an undeclared one. *)
Definition whole (expected : Z) (s : transcript) : Prop := if expected <? 0 then ts_eof s = true else lenZ (ts_seen s) = expected.

Record telemetry_ok (s : transcript) (t : telemetryRequestBody) : Prop := {
  to_limit : 0 < tb_limit t;
  to_closed : tb_closed t = ts_closed s;
  to_observed : tb_observed t = lenZ (ts_seen s);
  to_bytes : tb_readError t = false → tb_transferred t = false → tb_bytes t = take (Z.to_nat (tb_limit t + 1)) (ts_seen s);
  to_complete : tb_complete t = true → tb_readError t = false → whole (tb_expected t) s;
}.

Lemma telemetry_kept s p t : telemetry_ok s t → tb_readError t = false → tb_transferred t = false →
  (if nonempty p && negb (tb_readError t) && negb (tb_transferred t) && (lenZ (tb_bytes t) <? tb_limit t + 1)
   then tb_bytes t ++ take (Z.to_nat (tb_limit t + 1 - lenZ (tb_bytes t))) p else tb_bytes t) = take (Z.to_nat (tb_limit t + 1)) (ts_seen s ++ p).
Proof.
  intros [Hl _ _ Hb _] He Ht. rewrite (Hb He Ht), He, Ht. cbn [negb]. rewrite !andb_true_r. rewrite length_take.
  destruct p as [|c p]; [cbn; by rewrite app_nil_r|]. cbn [nonempty andb].
  destruct (Z.ltb_spec (Z.of_nat (Z.to_nat (tb_limit t + 1) `min` length (ts_seen s))) (tb_limit t + 1)) as [H|H].
  - rewrite (take_ge (ts_seen s)) by lia. rewrite take_app_ge by lia. do 2 f_equal. lia.
  - rewrite take_app_le by lia. done.
Qed.

Lemma telemetry_step_ok s t ev : telemetry_ok s t → telemetry_ok (hear s ev) (telemetry_step t ev).
Proof.
  intros H. pose proof H as [Hl Hc Ho Hb Hw]. destruct ev as [p e| | |]; cbn [hear telemetry_step].
  - unfold telemetry_observe. rewrite Hc. destruct (ts_closed s) eqn:Ec; [done|].
    pose proof (telemetry_kept s p t H) as Hk. match type of Hk with _ → _ → ?k = _ => set (kept := k) in * end. rewrite Ho.
    assert (lenZ (ts_seen s ++ p) = lenZ (ts_seen s) + lenZ p) as El by (rewrite length_app; lia).
    destruct ((0 <=? tb_expected t) && (tb_expected t <=? lenZ (ts_seen s) + lenZ p)) eqn:Ee; destruct e;
      constructor; cbn [tb_limit tb_closed tb_observed tb_readError tb_transferred tb_bytes tb_complete tb_expected ts_seen ts_eof ts_closed]; try done; try lia;
      try (intros Hx Ht; apply Hk; [destruct (tb_readError t); [done|]; lia|done]); unfold whole in *; cbn [ts_eof ts_seen]; rewrite ?El;
      intros; try specialize (Hw ltac:(done) ltac:(done)); destruct (Z.ltb_spec (tb_expected t) 0); try lia; try (rewrite ?orb_true_r, ?orb_false_r; done || congruence).
  - unfold telemetry_close. rewrite Hc. destruct (ts_closed s) eqn:Ec; [by destruct s; cbn in *; subst|].
    constructor; cbn; try done. intros Hx Hr. destruct (tb_complete t) eqn:Et; [exact (Hw eq_refl Hr)|]. unfold whole. cbn.
    destruct (Z.ltb_spec (tb_expected t) 0); lia.
  - by constructor.
  - unfold telemetry_snapshot. destruct (_ || _) eqn:E; [done|]. by constructor.
Qed.

Lemma telemetry_run_ok evs expected limit : telemetry_ok (heard evs) (run_telemetry evs (newTelemetryRequestBody expected limit)).
Proof.
  unfold heard, run_telemetry. assert (telemetry_ok (mkTranscript [] false false) (newTelemetryRequestBody expected limit)) as H.
  { constructor; cbn; [destruct (Z.leb_spec limit 0); unfold DefaultMaxInspectedRequestBytes; lia|done|done| |done]. intros _ _. by rewrite take_nil. }
  revert H. generalize (mkTranscript [] false false) (newTelemetryRequestBody expected limit). induction evs as [|ev evs IH]; intros s t H; [done|].
  cbn. by apply IH, telemetry_step_ok.
Qed.

Lemma telemetry_step_frame t ev :
  let t' := telemetry_step t ev in tb_limit t' = tb_limit t ∧ tb_expected t' = tb_expected t ∧ (tb_transferred t = true → tb_transferred t' = true).
Proof.
  destruct ev as [p e| | |]; cbn; [|unfold telemetry_close; by destruct (tb_closed t)|done|unfold telemetry_snapshot; by destruct (_ || _)].
  unfold telemetry_observe. destruct (tb_closed t); [done|]. by destruct (_ && (tb_expected t <=? _)), e.
Qed.

Lemma telemetry_run_frame evs t :
  let t' := run_telemetry evs t in tb_limit t' = tb_limit t ∧ tb_expected t' = tb_expected t ∧ (tb_transferred t = true → tb_transferred t' = true).
Proof.
  revert t. induction evs as [|ev evs IH]; intros t; [done|]. change (run_telemetry (ev :: evs) t) with (run_telemetry evs (telemetry_step t ev)). destruct (telemetry_step_frame t ev) as (E1 & E2 & E3).
  destruct (IH (telemetry_step t ev)) as (F1 & F2 & F3). cbv zeta. rewrite F1, F2. split_and!; [done|done|auto].
Qed.

(** A price is only looked up for a body that was read whole.  Whatever the
    transport reads, in whatever pieces, and whenever the body is closed: if
    the side observation yields a body, it is exactly the bytes that were read,
    they are within the limit, they are the declared length (or reach the end
    of a body without one), and no later call yields anything. *)
Theorem telemetry_snapshot_whole evs expected limit b t' :
  telemetry_snapshot (run_telemetry evs (newTelemetryRequestBody expected limit)) = (Some b, t') →
  b = ts_seen (heard evs) ∧ lenZ b ≤ (if limit <=? 0 then DefaultMaxInspectedRequestBytes else limit) ∧ whole expected (heard evs) ∧
  ∀ later, (telemetry_snapshot (run_telemetry later t')).1 = None.
Proof.
  pose proof (telemetry_run_ok evs expected limit) as [Hl _ _ Hb Hw].
  destruct (telemetry_run_frame evs (newTelemetryRequestBody expected limit)) as (F1 & F2 & _).
  set (t := run_telemetry evs _) in *. unfold telemetry_snapshot at 1. destruct (_ || (tb_limit t <? lenZ (tb_bytes t))) eqn:E; [done|].
  intros [= <- <-]. apply orb_false_iff in E as [E1 E4]. apply orb_false_iff in E1 as [E1 E3]. apply orb_false_iff in E1 as [E1 E2].
  rewrite F2 in Hw. cbn [newTelemetryRequestBody tb_expected tb_limit] in Hw, F1. rewrite Hb in * by done. split_and!.
  - rewrite length_take in E4. apply take_ge. lia.
  - rewrite <-F1. lia.
  - apply Hw; [by destruct (tb_complete t)|done].
  - intros later. unfold telemetry_snapshot. rewrite (proj2 (proj2 (telemetry_run_frame later _))) by done. done.
Qed.

Lemma telemetry_snapshot_whole_witness :
  let evs := [TRead (str "ab") ReadMore; TRead (str "cd") ReadMore; TClose] in
  let r := telemetry_snapshot (run_telemetry evs (newTelemetryRequestBody 4 100)) in
  r.1 = Some (str "abcd") ∧ whole 4 (heard evs).
Proof.
  cbv zeta. split; [reflexivity|].
  exact (proj1 (proj2 (proj2 (telemetry_snapshot_whole [TRead (str "ab") ReadMore; TRead (str "cd") ReadMore; TClose] 4 100 (str "abcd") _ eq_refl)))).
Defined.

(** ** Credentials *)

Lemma gatewayBearerCredential_exact value key :
  gatewayBearerCredential value = Some key ↔
  ∃ scheme, value = scheme ++ " "%char :: key ∧ map lower_byte scheme = str "bearer" ∧ key ≠ [] ∧ Forall (λ c, c ∉ blank_bytes) key.
Proof.
  assert (∀ k : bytes, existsb (λ c, existsb (byte_eqb c) blank_bytes) k = false ↔ Forall (λ c, c ∉ blank_bytes) k) as Hblank.
  { intros k. rewrite <-not_true_iff_false, existsb_exists, Forall_forall. setoid_rewrite existsb_exists. unfold byte_eqb.
    split; [intros H c Hc Hin; apply H; exists c; split; [by apply list_elem_of_In|]; exists c; split; [by apply list_elem_of_In|by rewrite bool_decide_true]|].
    intros H (c & Hc & d & Hd & E). apply bool_decide_eq_true in E as ->. by apply (H d); apply list_elem_of_In. }
  unfold gatewayBearerCredential. change (length (str "Bearer ")) with 7%nat. cbn [Nat.sub]. unfold EqualFold, same. split.
  - destruct (Nat.leb_spec (length value) 7); [done|]. cbn [orb]. case_bool_decide as E1; [|done]. case_bool_decide as E2; [|done]. cbn [negb orb].
    destruct (existsb _ _) eqn:E3; [done|]. case_bool_decide as E4; [done|]. intros [= <-]. exists (take 6 value).
    split; [|split; [exact E1|split; [done|by apply Hblank]]]. by rewrite <-(drop_S _ _ _ E2), take_drop.
  - intros (scheme & -> & Hs & Hk & Hf).
    assert (length scheme = 6%nat) as Hl by (rewrite <-(length_map lower_byte), Hs; done).
    rewrite length_app, Hl. destruct key as [|c key]; [done|]. cbn [length Nat.leb orb Nat.add].
    rewrite take_app_le, take_ge, drop_app_ge, lookup_app_r, Hl by lia. cbn [Nat.sub drop lookup list_lookup].
    rewrite !bool_decide_true by done. cbn [negb orb]. by rewrite (proj2 (Hblank _) Hf).
Qed.
