(* ===== verification/Dispatch.v ===== *)
(** * Dispatching an upstream response ([server.go], [response_observation.go])

    A response is forwarded as it is, or, when a client that did not ask for a
    stream gets one, converted to a single JSON answer; the conversion settles
    the request's lease with the usage it saw.  Afterwards the observation of a
    forwarded response is handed to the usage worker.  [gzip.Reader] is a
    parameter: the decoded content of a compressed one, or that its header is
    invalid. *)

From Stdlib Require Import Ascii ZArith Lia ZifyBool.
From stdpp Require Import prelude strings list gmap.
From S2P Require Import Prelude Text Money Usage Pricing Reservation SSEParser Json ChatStream RequestBody CompletionRecord BodyRecorder Trace UsageObservation UsageWorker Lease HttpHeaders ResponseWriter Transfer.
Local Open Scope Z_scope.

#[local] Arguments str : simpl never.

(** ** The representation that is converted *)

Definition aggregationMaxPayloadSize : Z := 4 * 1024 * 1024.
Definition aggregationMaxDecodedBytes : N := 8 * 1024 * 1024.
Definition aggregationMaxWireBytes : N := Z.to_N DefaultUsageObservationMaxBytes.
Definition maxSSEEventBytes : Z := 1024 * 1024.

Fixpoint content_codings (values : list bytes) : option (list bytes) :=
  match values with
  | [] => Some []
  | value :: values =>
      let parts := TrimSpace <$> Split value ","%char in
      if existsb (λ p, bool_decide (p = [])) parts then None else app parts <$> content_codings values
  end.

Section representation.
Context (gunzip : bytes * io_error → option (bytes * io_error)).

(** The codings, from the last applied to the first. *)
Fixpoint decode_codings (codings : list bytes) (c : bytes * io_error) (requiresDrain : bool) : result io_error ((bytes * io_error) * bool) :=
  match codings with
  | [] => Ok (c, requiresDrain)
  | coding :: codings =>
      if EqualFold coding (str "identity") then decode_codings codings c requiresDrain
      else if negb (EqualFold coding (str "gzip")) then Err ErrUnsupportedResponse
      else match gunzip c with
           | None => Err ErrInvalidGzip
           | Some decoded => decode_codings codings decoded true
           end
  end.

(** [aggregationReaderWithDrain]: what the reader it returns delivers, and
    whether the rest must be drained. *)
Definition aggregationReaderWithDrain {R} `{ReaderLaws R} (upstream : upstreamResponse R) : result io_error ((bytes * io_error) * bool) :=
  match up_Body upstream with
  | None => Err ErrUnexpectedEOF
  | Some body =>
      match content_codings (Values (up_Header upstream) (str "Content-Encoding")) with
      | None => Err ErrUnsupportedResponse
      | Some [] => Ok (bound ErrDecodedRepresentationTooLarge aggregationMaxDecodedBytes (content body), false)
      | Some codings =>
          let compressed := existsb (λ coding, EqualFold coding (str "gzip")) codings in
          let wire := if compressed then bound ErrCompressedWireTooLarge aggregationMaxWireBytes (content body) else content body in
          let? (c, requiresDrain) := decode_codings (reverse codings) wire false in
          Ok (bound ErrDecodedRepresentationTooLarge aggregationMaxDecodedBytes c, requiresDrain)
      end
  end.
End representation.

Definition dispatchErrorCode (err : io_error) : bytes :=
  if bool_decide (err = ErrUnsupportedResponse) then gatewayErrorUnsupportedResponse else gatewayErrorConversion.

(** ** Settling from a conversion *)

(** The request is the lease's only holder, so its calls never wait for another. *)
Definition on_lease {A B} (f : positive → gate → option (A * B * gate)) (lease : option positive) (g : gate) : gate :=
  match lease with
  | None => g
  | Some i => match f i g with Some (_, _, g) => g | None => g end
  end.

Definition finalizeConvertedLeaseConservatively (clk : Z) (lease : option positive) (g : gate) : gate :=
  on_lease (ResourceLease_CompleteConservative clk) lease g.

Definition actual_cost (usage : Usage.Usage) (pricing : PricingResolution) : Money :=
  match CalculateActualCost usage pricing with Ok cost => cost | Err _ => UnknownMoney end.

Definition settleConvertedLease (clk : Z) (lease : option positive) (aggregation : AggregationResult) (pricing : PricingResolution) (g : gate) : gate :=
  if ag_Observed aggregation && TotalTokens_Known (usage_total (ag_Usage aggregation))
  then on_lease (ResourceLease_CommitKnownUsage clk (ag_Usage aggregation) (actual_cost (ag_Usage aggregation) pricing)) lease g
  else finalizeConvertedLeaseConservatively clk lease g.

(** ** Dispatch *)

(** What a dispatch changes; the completion's [finish] calls are listed. *)
Record dispatching := mkDispatching {
  dp_writer : writer;
  dp_gate : gate;
  dp_observation : option responseObservation;
  dp_finished : list (Usage.Usage * Money * option Z);
}.

(** The outcome of the copy loops and of the conversion. *)
Definition copied (d : dispatching) (r : option (option io_error * writer * option responseObservation)) : option (option io_error * dispatching) :=
  '(err, w, o) ← r; Some (err, mkDispatching w (dp_gate d) o (dp_finished d)).

(** The environment: the connection, the trace's clock, the monotonic clock, the
    clock of the conversion, the limiter clock, whether the request's context
    ends the drain, and the decompressor. *)
Record surroundings := mkSurroundings {
  sr_accepts : nat → bytes → Z * bool;
  sr_flushes : nat → bool;
  sr_trace_clock : nat → Z * Z;
  sr_now : nat → Z;
  sr_event_clock : option (nat → option Z);
  sr_limiter_clock : Z;
  sr_drain_interrupted : bool;
  sr_gunzip : bytes * io_error → option (bytes * io_error);
}.

Section dispatch.
Context (ParseMediaType : bytes → option bytes) (e : surroundings).
Context {R : Type} `{ReaderLaws R}.

Definition response_mode (upstream : upstreamResponse R) : ResponseMode :=
  if (300 <=? up_StatusCode upstream) && (up_StatusCode upstream <? 400) then ResponseModeOpaque
  else classifyResponseHeader ParseMediaType (Values (up_Header upstream) (str "Content-Type")).

Definition fail_conversion (lease : option positive) (err : io_error) (d : dispatching) : option io_error * dispatching :=
  (Some err, mkDispatching (writeGatewayError (sr_accepts e) (sr_trace_clock e) (dispatchErrorCode err) [] (dp_writer d))
               (finalizeConvertedLeaseConservatively (sr_limiter_clock e) lease (dp_gate d)) (dp_observation d) (dp_finished d)).

(** Recording the canonical usage and settling, before anything can fail. *)
Definition settle_conversion (lease : option positive) (aggregation : AggregationResult) (pricing : PricingResolution) (d : dispatching) : dispatching :=
  let cost := actual_cost (ag_Usage aggregation) pricing in
  mkDispatching (dp_writer d) (settleConvertedLease (sr_limiter_clock e) lease aggregation pricing (dp_gate d))
    (setCanonical (ag_Usage aggregation) cost <$> dp_observation d)
    (dp_finished d ++ match dp_observation d with
                      | Some o => if ro_completion o then [(ag_Usage aggregation, cost, ag_LastMeaningfulAt aggregation)] else []
                      | None => []
                      end).

Definition deliver_converted (upstream : upstreamResponse R) (body : bytes) (d : dispatching) : option io_error * dispatching :=
  let header := copyTransformedResponseHeaders (up_entries upstream) (up_Header upstream) (w_header (dp_writer d)) in
  let header := Set_ (str "Content-Length") (FormatInt (lenZ body)) (Set_ (str "Content-Type") (str "application/json") header) in
  let w := WriteHeader (sr_trace_clock e) (up_StatusCode upstream) (set_header header (dp_writer d)) in
  let '(written, failed, w) := Write (sr_accepts e) (sr_trace_clock e) body w in
  (if failed : bool then Some ErrWrite else if negb (written =? lenZ body) then Some ErrShortWrite else None,
   mkDispatching w (dp_gate d) (dp_observation d) (dp_finished d)).

Definition drained (c : bytes * io_error) : option io_error := if sr_drain_interrupted e then Some ErrContext else copy_end c.2.

Definition convert (upstream : upstreamResponse R) (lease : option positive) (pricing : PricingResolution) (d : dispatching)
    : option (option io_error * dispatching) :=
  match aggregationReaderWithDrain (sr_gunzip e) upstream with
  | Err err => Some (fail_conversion lease err d)
  | Ok (c, requiresDrain) =>
      match aggregateSSEToJSONWithTiming (Some (c.1, if bool_decide (c.2 = EOF) then SourceEOF else SourceFailed)) maxSSEEventBytes
              aggregationMaxPayloadSize (sr_event_clock e) with
      | None => None
      | Some (_, Some _) => Some (fail_conversion lease (if bool_decide (c.2 = EOF) then ErrConversion else c.2) d)
      | Some (aggregation, None) =>
          let d := settle_conversion lease aggregation pricing d in
          match (if negb (ag_Done aggregation) || requiresDrain then drained c else None) with
          | Some err =>
              let w := writeGatewayError (sr_accepts e) (sr_trace_clock e) (dispatchErrorCode err) [] (dp_writer d) in
              let g := if bool_decide (err = ErrCompressedWireTooLarge)
                       then finalizeConvertedLeaseConservatively (sr_limiter_clock e) lease (dp_gate d) else dp_gate d in
              Some (Some err, mkDispatching w g (dp_observation d) (dp_finished d))
          | None => Some (deliver_converted upstream (ag_JSON aggregation) d)
          end
      end
  end.

(** [dispatchResponseResultWithLeaseAndObservationAndPricing] *)
Definition dispatchResponse (request : option (bytes * bytes)) (metadata : option RequestMetadata) (upstream : upstreamResponse R)
    (lease : option positive) (pricing : PricingResolution) (d : dispatching) : option (option io_error * dispatching) :=
  let responseMode := response_mode upstream in
  if shouldAggregateSSE request metadata responseMode then convert upstream lease pricing d
  else
    match up_Body upstream with
    | None => Some (Some ErrUnexpectedEOF, d)
    | Some body =>
        if same responseMode ResponseModeSSE then
          let header := copyResponseHeaders (up_entries upstream) (up_Header upstream) (w_header (dp_writer d)) in
          let w := WriteHeader (sr_trace_clock e) (up_StatusCode upstream) (set_header header (dp_writer d)) in
          copied d (streamResponseBody (sr_accepts e) (sr_flushes e) (sr_trace_clock e) (sr_now e)
                      (mkSSELimit body maxSSEEventBytes (clean 0) false) w (dp_observation d))
        else
          copied d (copyBoundedNonStreamingResponseWithObservation (sr_accepts e) (sr_flushes e) (sr_trace_clock e) (sr_now e) upstream body
                      maxUpstreamResponseBodyBytes (dp_writer d) (dp_observation d))
    end.
End dispatch.

(** ** Handing the observation over *)

(** Whether there is a usage worker, the request's completion by its name (nil
    when [None]) and whether it still accepts a transfer, the request's body
    when it was observed whole, and the resolver. *)
Record handing := mkHanding {
  hd_worker : bool;
  hd_completion : option nat;
  hd_transfers : bool;
  hd_request : option bytes;
  hd_resolver : PricingResolver;
}.

Record handed_over := mkHandedOver { ho_gate : gate; ho_finished : list (Usage.Usage * Money); ho_handoff : handoff }.

Definition ticket_names (t : LeaseAdjustmentTickets) : option nat * option nat := (Pos.to_nat <$> lt_Token t, Pos.to_nat <$> lt_Budget t).

Definition complete_and_submit (clk : Z) (h : handing) (i : positive) (pricing : PricingResolution) (o : responseObservation) (g : gate) : handed_over :=
  match ResourceLease_TransportCompleteWithAdjustments clk i g with
  | None => mkHandedOver g [] NoHandoff
  | Some (_, tickets, g) =>
      let r := completeAndSubmitWithPricingTimingAndRequest (Some (ticket_names tickets)) (ro_bytes o) (ro_coding o) pricing
                 (hd_completion h) (hd_transfers h) (ro_checkpoints o) (ro_checkpointOverflow o) (hd_request h) (hd_resolver h) in
      mkHandedOver (match r with Invalidated _ => Tickets_Invalidate tickets g | _ => g end) [] r
  end.

Definition submit_for_completion (h : handing) (o : responseObservation) (g : gate) : handed_over :=
  let unknown_finish := [(zeroUsage, UnknownMoney)] in
  if negb (hd_worker h) then mkHandedOver g unknown_finish NoHandoff
  else if negb (hd_transfers h) then mkHandedOver g unknown_finish NoHandoff
  else
    let job := newUsageObservationJobOwned (ro_bytes o) (ro_coding o) None in
    mkHandedOver g []
      (Handed (mkUsageJob (uj_Bytes job) (ro_coding o) None None UnknownPricingResolution (hd_completion h) (ro_checkpoints o)
                 (ro_checkpointOverflow o) (default [] (hd_request h))
                 (match hd_request h with Some _ => hd_resolver h | None => mkResolver false ∅ [] end) (bool_decide (is_Some (hd_request h))))).

(** [responseObservation.settle] *)
Definition settle (clk : Z) (h : handing) (lease : option positive) (budgetConservative : bool) (o : responseObservation) (g : gate) : handed_over :=
  let has_completion := bool_decide (is_Some (hd_completion h)) in
  if ro_eligible o then
    match has_completion, ro_canonical o with
    | true, Some (usage, cost) => mkHandedOver g [(usage, cost)] NoHandoff
    | _, _ =>
        match lease with
        | None => if has_completion then submit_for_completion h o g else mkHandedOver g [] NoHandoff
        | Some i =>
            if negb (hd_worker h) then mkHandedOver (on_lease (ResourceLease_CompleteConservative clk) lease g) [] NoHandoff
            else complete_and_submit clk h i
                   (if budgetConservative && negb (PricingResolution_Known (ro_pricing o)) then UnknownPricingResolution else ro_pricing o) o g
        end
    end
  else
    mkHandedOver (on_lease (ResourceLease_CompleteConservative clk) lease g) (if has_completion then [(zeroUsage, UnknownMoney)] else []) NoHandoff.
