(* ===== verification/Proxy.v ===== *)
(** * Serving a request ([proxyHandler.ServeHTTP] of [server.go])

    One request from the authenticated principal to the settled lease: the
    checks that may refuse it, the limiters it must pass, the upstream call,
    the dispatch of its response, and the cleanup that runs however it ends.
    The handler is a program in a small monad of state and early return; what
    other systems answer (the clocks, the transport, the contexts) is the
    environment.  The wrappers that capture request bodies are left out: they
    only copy what passes through them ([BodyRecorder]). *)

From Stdlib Require Import Ascii ZArith Lia ZifyBool.
From stdpp Require Import prelude strings list gmap.
From S2P Require Import Prelude Text Utf8 Money Usage Windows ModelMatch Pricing Reservation RequestLimiter ConcurrencyLimiter TokenLimiter BudgetLimiter BudgetAccounts BudgetWorld BudgetSafety Lease SSEParser Json Policy Auth Estimator RequestBody BodyRecorder CompletionRecord Trace CompletionOwnership UsageObservation UsageWorker HttpHeaders ResponseWriter Transfer Ingress Dispatch.
Local Open Scope Z_scope.

#[local] Arguments str : simpl never.

(** ** State *)

(** [ps_inspection], [ps_lease], [ps_started], the two admissions and the
    observation are the local variables the cleanup reads; [ps_finished] lists
    the completion's finish calls. *)
Record proxy_state := mkProxy {
  ps_gate : gate;
  ps_requests : RequestLimiter;
  ps_writer : writer;
  ps_terminal : TerminalMetadata;
  ps_limit : option requestBodyLimitState;
  ps_tooLarge : Z;
  ps_inspection : option loc;
  ps_lease : option positive;
  ps_started : bool;
  ps_tokenAdmission : bool;
  ps_budgetAdmission : bool;
  ps_observation : option responseObservation;
  ps_finished : list (Usage.Usage * Money * option Z);
  ps_handoff : handoff;
}.

Definition put_gate (v : gate) (s : proxy_state) : proxy_state :=
  mkProxy v (ps_requests s) (ps_writer s) (ps_terminal s) (ps_limit s) (ps_tooLarge s) (ps_inspection s) (ps_lease s) (ps_started s) (ps_tokenAdmission s) (ps_budgetAdmission s) (ps_observation s) (ps_finished s) (ps_handoff s).
Definition put_requests (v : RequestLimiter) (s : proxy_state) : proxy_state :=
  mkProxy (ps_gate s) v (ps_writer s) (ps_terminal s) (ps_limit s) (ps_tooLarge s) (ps_inspection s) (ps_lease s) (ps_started s) (ps_tokenAdmission s) (ps_budgetAdmission s) (ps_observation s) (ps_finished s) (ps_handoff s).
Definition put_writer (v : writer) (s : proxy_state) : proxy_state :=
  mkProxy (ps_gate s) (ps_requests s) v (ps_terminal s) (ps_limit s) (ps_tooLarge s) (ps_inspection s) (ps_lease s) (ps_started s) (ps_tokenAdmission s) (ps_budgetAdmission s) (ps_observation s) (ps_finished s) (ps_handoff s).
Definition put_terminal (v : TerminalMetadata) (s : proxy_state) : proxy_state :=
  mkProxy (ps_gate s) (ps_requests s) (ps_writer s) v (ps_limit s) (ps_tooLarge s) (ps_inspection s) (ps_lease s) (ps_started s) (ps_tokenAdmission s) (ps_budgetAdmission s) (ps_observation s) (ps_finished s) (ps_handoff s).
Definition put_limit (v : option requestBodyLimitState) (s : proxy_state) : proxy_state :=
  mkProxy (ps_gate s) (ps_requests s) (ps_writer s) (ps_terminal s) v (ps_tooLarge s) (ps_inspection s) (ps_lease s) (ps_started s) (ps_tokenAdmission s) (ps_budgetAdmission s) (ps_observation s) (ps_finished s) (ps_handoff s).
Definition put_tooLarge (v : Z) (s : proxy_state) : proxy_state :=
  mkProxy (ps_gate s) (ps_requests s) (ps_writer s) (ps_terminal s) (ps_limit s) v (ps_inspection s) (ps_lease s) (ps_started s) (ps_tokenAdmission s) (ps_budgetAdmission s) (ps_observation s) (ps_finished s) (ps_handoff s).
Definition put_inspection (v : option loc) (s : proxy_state) : proxy_state :=
  mkProxy (ps_gate s) (ps_requests s) (ps_writer s) (ps_terminal s) (ps_limit s) (ps_tooLarge s) v (ps_lease s) (ps_started s) (ps_tokenAdmission s) (ps_budgetAdmission s) (ps_observation s) (ps_finished s) (ps_handoff s).
Definition put_lease (v : option positive) (s : proxy_state) : proxy_state :=
  mkProxy (ps_gate s) (ps_requests s) (ps_writer s) (ps_terminal s) (ps_limit s) (ps_tooLarge s) (ps_inspection s) v (ps_started s) (ps_tokenAdmission s) (ps_budgetAdmission s) (ps_observation s) (ps_finished s) (ps_handoff s).
Definition put_started (v : bool) (s : proxy_state) : proxy_state :=
  mkProxy (ps_gate s) (ps_requests s) (ps_writer s) (ps_terminal s) (ps_limit s) (ps_tooLarge s) (ps_inspection s) (ps_lease s) v (ps_tokenAdmission s) (ps_budgetAdmission s) (ps_observation s) (ps_finished s) (ps_handoff s).
Definition put_tokenAdmission (v : bool) (s : proxy_state) : proxy_state :=
  mkProxy (ps_gate s) (ps_requests s) (ps_writer s) (ps_terminal s) (ps_limit s) (ps_tooLarge s) (ps_inspection s) (ps_lease s) (ps_started s) v (ps_budgetAdmission s) (ps_observation s) (ps_finished s) (ps_handoff s).
Definition put_budgetAdmission (v : bool) (s : proxy_state) : proxy_state :=
  mkProxy (ps_gate s) (ps_requests s) (ps_writer s) (ps_terminal s) (ps_limit s) (ps_tooLarge s) (ps_inspection s) (ps_lease s) (ps_started s) (ps_tokenAdmission s) v (ps_observation s) (ps_finished s) (ps_handoff s).
Definition put_observation (v : option responseObservation) (s : proxy_state) : proxy_state :=
  mkProxy (ps_gate s) (ps_requests s) (ps_writer s) (ps_terminal s) (ps_limit s) (ps_tooLarge s) (ps_inspection s) (ps_lease s) (ps_started s) (ps_tokenAdmission s) (ps_budgetAdmission s) v (ps_finished s) (ps_handoff s).
Definition put_finished (v : list (Usage.Usage * Money * option Z)) (s : proxy_state) : proxy_state :=
  mkProxy (ps_gate s) (ps_requests s) (ps_writer s) (ps_terminal s) (ps_limit s) (ps_tooLarge s) (ps_inspection s) (ps_lease s) (ps_started s) (ps_tokenAdmission s) (ps_budgetAdmission s) (ps_observation s) v (ps_handoff s).
Definition put_handoff (v : handoff) (s : proxy_state) : proxy_state :=
  mkProxy (ps_gate s) (ps_requests s) (ps_writer s) (ps_terminal s) (ps_limit s) (ps_tooLarge s) (ps_inspection s) (ps_lease s) (ps_started s) (ps_tokenAdmission s) (ps_budgetAdmission s) (ps_observation s) (ps_finished s) v.

(** ** The monad: [None] is an early return *)

Definition prog (A : Type) : Type := proxy_state → option A * proxy_state.
Definition ret {A} (x : A) : prog A := λ s, (Some x, s).
Definition stop {A} : prog A := λ s, (None, s).
Definition bind {A B} (m : prog A) (k : A → prog B) : prog B :=
  λ s, match m s with (None, s) => (None, s) | (Some x, s) => k x s end.
Definition modify (f : proxy_state → proxy_state) : prog () := λ s, (Some (), f s).
Definition get : prog proxy_state := λ s, (Some s, s).

Declare Scope prog_scope.
Delimit Scope prog_scope with prog.
Notation "x ← m ; k" := (bind m (λ x, k%prog)) : prog_scope.
Notation "m ;; k" := (bind m (λ _, k%prog)) : prog_scope.
Local Open Scope prog_scope.

(** ** The handler and one exchange *)

Record handler := mkHandler {
  hn_baseURL : option url;
  hn_client : bool;
  hn_requestLimiter : bool;
  hn_concurrency : option loc;
  hn_budgetLimiter : bool;
  hn_resolver : PricingResolver;
  hn_worker : bool;
  hn_MaxInspected : Z;
  hn_MaxCaptured : Z;
  hn_FallbackInput : Z;
  hn_FallbackOutput : Z;
  hn_MaxObserved : Z;
}.

(** [NewResourceLeaseCoordinator] as the constructor of the handler calls it. *)
Definition hn_coordinator (h : handler) : ResourceLeaseCoordinator :=
  NewResourceLeaseCoordinator (hn_concurrency h) true [hn_budgetLimiter h].

(** The answer of [client.Do]. *)
Inductive do_result (R : Type) :=
| DoError (tooLarge timeout : bool)
| DoNil
| DoResponse (response : upstreamResponse R).
Arguments DoError {R}.
Arguments DoNil {R}.
Arguments DoResponse {R}.

(** The request, what the transport and the contexts answer, and the clocks. *)
Record exchange (R : Type) := mkExchange {
  ex_principal : option Principal;
  ex_head : request_head;
  ex_escapedPath : bytes;
  ex_body : option reader;
  ex_bodyTooLarge : bool;
  ex_requestValid : bool;
  ex_do : do_result R;
  ex_uploadExceeded : bool;
  ex_cancelled_do : bool;
  ex_deadline_do : bool;
  ex_cancelled_end : bool;
  ex_deadline_end : bool;
  ex_context_error : io_error → bool;
  ex_completion : option nat;
  ex_transfers : bool;
  ex_request_snapshot : option bytes;
  ex_surroundings : surroundings;
  ex_clk_requests : Z;
  ex_clk_retry : Z;
  ex_clocks : clocks;
  ex_clk_settle : Z;
}.
Arguments ex_principal {R}.
Arguments ex_head {R}.
Arguments ex_escapedPath {R}.
Arguments ex_body {R}.
Arguments ex_bodyTooLarge {R}.
Arguments ex_requestValid {R}.
Arguments ex_do {R}.
Arguments ex_uploadExceeded {R}.
Arguments ex_cancelled_do {R}.
Arguments ex_deadline_do {R}.
Arguments ex_cancelled_end {R}.
Arguments ex_deadline_end {R}.
Arguments ex_context_error {R}.
Arguments ex_completion {R}.
Arguments ex_transfers {R}.
Arguments ex_request_snapshot {R}.
Arguments ex_surroundings {R}.
Arguments ex_clk_requests {R}.
Arguments ex_clk_retry {R}.
Arguments ex_clocks {R}.
Arguments ex_clk_settle {R}.

Definition key_of (p : Principal) : string := String.string_of_list_ascii (p_ID p).

Section serve.
Context (ParseMediaType : bytes → option bytes) (h : handler) {R : Type} `{ReaderLaws R} (x : exchange R).

Definition accepts_ := sr_accepts (ex_surroundings x).
Definition clock_ := sr_trace_clock (ex_surroundings x).

Definition tell (op : base_op) : prog () := modify (λ s, put_writer (note clock_ op (ps_writer s)) s).

Definition setTerminal (outcome : TerminalOutcome) : prog () :=
  modify (λ s, put_terminal (terminalMetadataState_set (mkTerminal outcome (ps_started s)) (ps_terminal s)) s) ;;
  tell (if same outcome TerminalOutcomeCancelled then OpCancellation else OpTerminalOutcome outcome).

Definition send_error (code param : bytes) (retryAfter : Z) : prog () :=
  modify (λ s, put_writer (writeGatewayErrorRetryAfter accepts_ clock_ code param retryAfter (ps_writer s)) s).

(** The usual early return. *)
Definition refuse {A} (code param : bytes) (retryAfter : Z) : prog A :=
  setTerminal TerminalOutcomePreUpstream ;; send_error code param retryAfter ;; stop.

Definition assert (ok : bool) (otherwise : prog ()) : prog () := if ok then ret () else otherwise.

(** *** Before the cleanup is installed *)

Definition policy_current (s : proxy_state) : bool :=
  match ex_principal x with
  | Some p => if hn_budgetLimiter h then BudgetLimiter_PolicyCurrent (key_of p) (budgetPolicy (p_Policy p)) (bw_limiter (g_budgets (ps_gate s))) else true
  | None => true
  end.

Definition preflight : prog () :=
  match hn_baseURL h with
  | None =>
      modify (λ s, put_terminal (terminalMetadataState_set (mkTerminal TerminalOutcomePreUpstream false) (ps_terminal s)) s) ;;
      send_error gatewayErrorInternal [] 0 ;; stop
  | Some _ =>
      (match ex_principal x with Some p => tell (OpAuthentication (p_ID p) (p_Name p)) | None => ret () end) ;;
      s ← get; assert (policy_current s) (refuse gatewayErrorInvalidAPIKey [] 0)
  end.

(** *** Inspection under a provisional slot *)

Definition inspects : bool := shouldInspectRequestMetadata ParseMediaType (ex_head x) (ex_principal x).

Definition reserve_inspection : prog () :=
  match ex_principal x, hn_concurrency h with
  | Some p, Some limiter =>
      if inspects then
        s ← get;
        let '(r, hp) := ConcurrencyLimiter_Acquire limiter (key_of p) (maxConcurrency (p_Policy p)) (g_heap (ps_gate s)) in
        modify (λ s, put_inspection r (put_gate (with_heap hp (ps_gate s)) s)) ;;
        match r with Some _ => ret () | None => refuse gatewayErrorConcurrencyLimit [] 0 end
      else ret ()
  | _, _ => ret ()
  end.

Definition inspect : prog (option RequestMetadata * option bytes * bool) :=
  if inspects then
    let '(_, metadata, inspected, available, err) := inspectRequest (ex_body x) (rq_ContentLength (ex_head x)) (hn_MaxInspected h) in
    if (match err with Some ErrReadRequestBody => ex_bodyTooLarge x | _ => false end) then
      modify (λ s, let '(l, n) := recordBodyTooLarge (ps_limit s) (ps_tooLarge s) in put_tooLarge n (put_limit l s)) ;;
      refuse gatewayErrorBodyTooLarge [] 0
    else ret (metadata, inspected, available)
  else ret (None, None, false).

Definition describe (metadata : option RequestMetadata) : prog () :=
  let model := match metadata with Some m => if validTraceText (rm_Model m) 512 then rm_Model m else [] | None => [] end in
  let mode := match metadata with
              | Some m => match rm_Stream m with Some true => RequestModeSSE | Some false => RequestModeJSON | None => RequestModeUnknown end
              | None => RequestModeUnknown end in
  let path := if validBoundedText (ex_escapedPath x) 2048 then ex_escapedPath x else [] in
  tell (OpRequestMetadata (rq_Method (ex_head x)) path (ClassifyRoute (rq_Method (ex_head x)) (rq_Path (ex_head x))) model mode).

(** *** Admission *)

Definition check_model (metadata : option RequestMetadata) : prog () :=
  match metadata with
  | Some m =>
      if bool_decide (rm_Model m = []) then ret ()
      else
        assert (validBoundedText (rm_Model m) 512) (refuse gatewayErrorInvalidRequest [] 0) ;;
        match ex_principal x with
        | Some p => assert (Policy_AllowsModel (p_Policy p) (rm_Model m)) (refuse gatewayErrorModelNotAllowed (str "model") 0)
        | None => ret ()
        end
  | None => ret ()
  end.

Definition check_requests : prog () :=
  match ex_principal x with
  | Some p =>
      if hn_requestLimiter h && nonempty (Policy_RequestWindows (p_Policy p)) then
        s ← get;
        let '(allowed, resetAt, l) := RequestLimiter_Allow (ex_clk_requests x) (ps_requests s) (key_of p) (Policy_RequestWindows (p_Policy p)) in
        modify (put_requests l) ;;
        if allowed : bool then ret ()
        else
          let '(retry, l) := RequestLimiter_RetryAfterSeconds (ex_clk_retry x) l resetAt in
          modify (put_requests l) ;; refuse gatewayErrorRequestLimit [] retry
      else ret ()
  | None => ret ()
  end.

Definition models_listing : bool := same (rq_Method (ex_head x)) (str "GET") && same (rq_Path (ex_head x)) (str "/v1/models").

(** [None] is an error, [Some None] no plan. *)
Definition tokenPlan (p : Principal) (metadata : option RequestMetadata) (inspected : option bytes) (available : bool) : option (option ReservationPlan) :=
  if models_listing then Some None
  else
    let responses := same (rq_Path (ex_head x)) (str "/v1/responses") in
    let mode := tokenMode (p_Policy p) in
    let '(input, quality) :=
      if same mode TokenModeEstimate && bool_decide (is_Some metadata) && available && eligibleTokenRequest ParseMediaType (ex_head x) then
        let '(input, quality, err) := EstimateInputTokens (NewApproximateEstimator [hn_FallbackInput h]) (default [] inspected) in
        (input, match err with Some ErrEstimateMalformed | None => quality | Some _ => EstimateQualityUnknown end)
      else (UnknownInputTokens, EstimateQualityUnknown) in
    let declared := match metadata with
                    | Some m => mkMetadata (rm_MaxTokens m) (rm_MaxCompletionTokens m) (rm_MaxOutputTokens m)
                    | None => mkMetadata None None None end in
    match PlanReservation (mkResOptions mode (hn_FallbackInput h) (hn_FallbackOutput h) responses declared input quality) with
    | Ok plan => Some (Some plan)
    | Err (ErrReservationUnavailable | ErrReservationOverflow _) =>
        match PlanReservation (mkResOptions mode (hn_FallbackInput h) (hn_FallbackOutput h) responses (mkMetadata None None None)
                                 UnknownInputTokens EstimateQualityUnknown) with
        | Ok plan => Some (Some plan)
        | Err _ => None
        end
    | Err _ => None
    end.

Definition plan_tokens (metadata : option RequestMetadata) (inspected : option bytes) (available : bool) : prog (option ReservationPlan) :=
  match ex_principal x with
  | Some p =>
      if nonempty (Policy_TokenWindows (p_Policy p)) then
        match tokenPlan p metadata inspected available with
        | None => modify (put_tokenAdmission true) ;; refuse gatewayErrorInternal [] 0
        | Some plan => modify (put_tokenAdmission (bool_decide (is_Some plan))) ;; ret plan
        end
      else ret None
  | None => ret None
  end.

(** A refusal that writes the error before it records the outcome. *)
Definition refuse_late {A} (code : bytes) : prog A := send_error code [] 0 ;; setTerminal TerminalOutcomePreUpstream ;; stop.

(** The plans for tokens and budget, and the pricing of the model. *)
Definition plan_budget (metadata : option RequestMetadata) (inspected : option bytes) (available : bool) (tokens : option ReservationPlan)
    : prog (option ReservationPlan * option BudgetReservationPlan * PricingResolution) :=
  let selected := match metadata with Some m => PricingResolver_Resolve (hn_resolver h) (rm_Model m) | None => UnknownPricingResolution end in
  match ex_principal x with
  | None => ret (tokens, None, selected)
  | Some p =>
      if negb (budgeted (p_Policy p)) || models_listing then ret (tokens, None, selected)
      else if negb (hn_budgetLimiter h) || negb (present (hn_resolver h)) then refuse_late gatewayErrorInternal
      else
        match eligibleTokenRequest ParseMediaType (ex_head x) && available, metadata with
        | true, Some m =>
            let tokens := match tokens with Some plan => Some plan | None => default None (tokenPlan p metadata inspected available) end in
            match tokens with
            | None => refuse gatewayErrorInvalidRequest [] 0
            | Some plan =>
                match PlanBudgetReservation (mkBudgetOptions true (rm_Model m) (hn_MaxInspected h) plan (hn_resolver h)) with
                | Err _ => refuse gatewayErrorInvalidRequest [] 0
                | Ok budget => modify (put_budgetAdmission true) ;; ret (Some plan, Some budget, bp_SelectedPricing budget)
                end
            end
        | _, _ => refuse_late gatewayErrorInvalidRequest
        end
  end.

Definition lease_options (p : Principal) (tokens : option ReservationPlan) (budget : option BudgetReservationPlan) : ResourceLeaseOptions :=
  mkOptions (key_of p) (maxConcurrency (p_Policy p))
    (match tokens with Some _ => Policy_TokenWindows (p_Policy p) | None => [] end)
    (match tokens with Some plan => TotalTokens_Int64 (plan_Total plan) | None => 0 end)
    (match budget with Some _ => budgetPolicy (p_Policy p) | None => UnlimitedBudgetPolicy end)
    (match budget with Some b => bp_Reservation b | None => UnknownMoney end).

Definition writeAdmissionError (rejection : AdmissionError) : prog () :=
  match ae_Resource rejection with
  | AdmissionTokens =>
      s ← get;
      let '(retry, l) := if IsZero (ae_ResetAt rejection) then (0, w_limiter (g_tokens (ps_gate s)))
                         else TokenLimiter_RetryAfterSeconds (ex_clk_retry x) (ae_ResetAt rejection) (w_limiter (g_tokens (ps_gate s))) in
      modify (λ s, put_gate (with_tokens (mkWorld l (w_reservations (g_tokens (ps_gate s)))) (ps_gate s)) s) ;;
      send_error gatewayErrorTokenLimit [] (if retry <=? 0 then 1 else retry)
  | AdmissionBudget =>
      if ae_Invalid rejection then send_error gatewayErrorInternal [] 0
      else
        let retry := ae_RetryAfterSeconds rejection in
        let retry := if (retry <=? 0) && negb (IsZero (ae_ResetAt rejection)) then RetryAfterSecondsAt (ex_clk_retry x) (ae_ResetAt rejection) else retry in
        send_error gatewayErrorBudgetLimit [] (if 0 <? retry then retry else 0)
  | AdmissionConcurrency => send_error gatewayErrorConcurrencyLimit [] 0
  end.

Definition acquire (tokens : option ReservationPlan) (budget : option BudgetReservationPlan) : prog () :=
  match ex_principal x with
  | None => ret ()
  | Some p =>
      s ← get;
      let options := lease_options p tokens budget in
      let '(r, g) := match ps_inspection s with
                     | Some l => Coordinator_AcquireWithProvisional (hn_coordinator h) (ex_clocks x) l options (ps_gate s)
                     | None => Coordinator_Acquire (hn_coordinator h) (ex_clocks x) options (ps_gate s)
                     end in
      modify (λ s, put_inspection None (put_gate g s)) ;;
      match r with
      | Ok i => modify (put_lease (Some i))
      | Err rejection => setTerminal TerminalOutcomePreUpstream ;; writeAdmissionError rejection ;; stop
      end
  end.

(** Everything that must pass before the upstream is called. *)
Definition pass_admission : prog (option RequestMetadata * PricingResolution) :=
  reserve_inspection ;;
  r ← inspect;
  let '(metadata, inspected, available) := r in
  describe metadata ;;
  check_model metadata ;;
  check_requests ;;
  tokens ← plan_tokens metadata inspected available;
  plans ← plan_budget metadata inspected available tokens;
  let '(tokens, budget, pricing) := plans in
  acquire tokens budget ;;
  s ← get;
  assert (policy_current s) (refuse gatewayErrorInvalidAPIKey [] 0) ;;
  assert (ex_requestValid x && hn_client h) (refuse gatewayErrorInternal [] 0) ;;
  ret (metadata, pricing).

(** *** The upstream request *)

Definition requestIDHeader : bytes := str "X-Gateway-Request-ID".

(** The headers of the upstream request: the client's that cross, the gateway's
    own credential and the request's identifier. *)
Definition upstream_headers (apiKey requestID : bytes) (entries : list (bytes * list bytes)) source :=
  let header := Set_ (str "Authorization") (str "Bearer " ++ apiKey) (copyEndToEndHeaders entries source emptyHeader) in
  if bool_decide (requestID = []) then header else Set_ requestIDHeader requestID header.

(** *** The upstream call and the dispatch of its response *)

Definition fail_with {A} (outcome : TerminalOutcome) (code : bytes) : prog A := setTerminal outcome ;; send_error code [] 0 ;; stop.

Definition call_upstream : prog (upstreamResponse R) :=
  modify (put_started true) ;; tell (OpUpstreamStart []) ;;
  modify (λ s, put_limit (tracked (ex_uploadExceeded x) <$> ps_limit s) s) ;;
  match ex_do x with
  | DoError true _ =>
      modify (λ s, let '(l, n) := recordBodyTooLarge (ps_limit s) (ps_tooLarge s) in put_tooLarge n (put_limit l s)) ;;
      fail_with TerminalOutcomePreUpstream gatewayErrorBodyTooLarge
  | DoError false timeout =>
      if ex_cancelled_do x then fail_with TerminalOutcomeCancelled gatewayErrorCancellation
      else if ex_deadline_do x || timeout then fail_with TerminalOutcomeUpstreamError gatewayErrorUpstreamTimeout
      else fail_with TerminalOutcomeUpstreamError gatewayErrorUpstreamConnection
  | answer =>
      s ← get;
      let '(exceeded, l, n) := requestBodyTooLarge (ps_limit s) (ps_tooLarge s) in
      modify (λ s, put_tooLarge n (put_limit l s)) ;;
      if exceeded : bool then fail_with TerminalOutcomePreUpstream gatewayErrorBodyTooLarge
      else match answer with
           | DoResponse response => ret response
           | _ => fail_with TerminalOutcomeUpstreamError gatewayErrorUpstreamConnection
           end
  end.

Definition request_line : option (bytes * bytes) := Some (rq_Method (ex_head x), rq_Path (ex_head x)).

Definition install_capture (transparent : bool) : prog () :=
  match ex_principal x with
  | Some p =>
      if logResponseBody (p_Policy p) && (0 <? hn_MaxCaptured h) then
        match NewBodyRecorder BodyKindResponse (hn_MaxCaptured h) with
        | Ok recorder => modify (λ s, put_writer (set_recorder (Some recorder) (ps_writer s)) s)
        | Err _ => ret ()
        end
      else ret ()
  | None => ret ()
  end ;;
  modify (λ s, put_writer (set_afterFlush transparent (ps_writer s)) s).

Definition install_observation (upstream : upstreamResponse R) (pricing : PricingResolution) : prog () :=
  s ← get;
  let mode := response_mode ParseMediaType upstream in
  if (ps_tokenAdmission s || ps_budgetAdmission s || bool_decide (is_Some (ex_completion x))) && (same mode ResponseModeJSON || same mode ResponseModeSSE) then
    match responseObservationCoding (up_Header upstream) with
    | Ok coding =>
        modify (put_observation (Some (owned_by (bool_decide (is_Some (ex_completion x))) (bool_decide (is_Some (w_trace (ps_writer s))))
                                         (newResponseObservation (hn_MaxObserved h) coding pricing))))
    | Err _ => ret ()
    end
  else ret ().

Definition error_code_unset (s : proxy_state) : bool :=
  match w_trace (ps_writer s) with Some t => ci_ErrorCode (input t) =? ErrorCodeUnknown | None => false end.

Definition conclude (upstream : upstreamResponse R) (err : option io_error) : prog () :=
  match err with
  | Some e =>
      if ex_cancelled_end x then setTerminal TerminalOutcomeCancelled
      else if ex_deadline_end x then tell (OpErrorCode 11) ;; setTerminal TerminalOutcomeUpstreamError
      else if ex_context_error x e then setTerminal TerminalOutcomeCancelled
      else
        s ← get;
        (if error_code_unset s
         then tell (OpErrorCode (if bool_decide (e = ErrDecodedRepresentationTooLarge) || bool_decide (e = ErrCompressedWireTooLarge) then 13 else 12))
         else ret ()) ;;
        setTerminal TerminalOutcomeResponseError
  | None =>
      if ex_cancelled_end x then setTerminal TerminalOutcomeCancelled
      else if ex_deadline_end x then tell (OpErrorCode 11) ;; setTerminal TerminalOutcomeUpstreamError
      else setTerminal (if 400 <=? up_StatusCode upstream then TerminalOutcomeUpstreamError else TerminalOutcomeComplete)
  end.

Definition respond (metadata : option RequestMetadata) (pricing : PricingResolution) (upstream : upstreamResponse R) : prog () :=
  tell (OpUpstreamHeaders (up_StatusCode upstream)) ;;
  let contentTypes := Values (up_Header upstream) (str "Content-Type") in
  let mode := response_mode ParseMediaType upstream in
  let actual := classifyActualResponseHeader ParseMediaType contentTypes in
  let aggregates := shouldAggregateSSE request_line metadata mode in
  (if same actual ResponseModeUnknown then ret () else tell (OpUpstreamResponseMode actual)) ;;
  install_capture (negb aggregates) ;;
  tell (OpDeliveredMode (if same actual ResponseModeSSE && aggregates then ResponseModeJSON else mode)) ;;
  install_observation upstream pricing ;;
  s ← get;
  match dispatchResponse ParseMediaType (ex_surroundings x) request_line metadata upstream (ps_lease s) pricing
          (mkDispatching (ps_writer s) (ps_gate s) (ps_observation s) (ps_finished s)) with
  | None => stop
  | Some (err, d) =>
      modify (λ s, put_finished (dp_finished d) (put_observation (finish (bool_decide (is_Some err)) <$> dp_observation d)
                     (put_gate (dp_gate d) (put_writer (dp_writer d) s)))) ;;
      conclude upstream err
  end.

(** *** The cleanup, in the order of the deferred function *)

Definition release_inspection (s : proxy_state) : proxy_state :=
  match ps_inspection s with
  | Some l => put_gate (with_heap (Lease_Release l (g_heap (ps_gate s))) (ps_gate s)) s
  | None => s
  end.

(** The request's body was observed only when pricing is all it is needed for. *)
Definition observed_request : option bytes :=
  if negb inspects && shouldObserveRequestPricing ParseMediaType (ex_head x) (ex_principal x) (present (hn_resolver h)) (PricingResolver_HasRules (hn_resolver h))
  then ex_request_snapshot x else None.

Definition handing_of : handing := mkHanding (hn_worker h) (ex_completion x) (ex_transfers x) observed_request (hn_resolver h).

Definition settle_observation (lease : option positive) (budgetConservative : bool) (o : responseObservation) (s : proxy_state) : proxy_state :=
  let r := settle (ex_clk_settle x) handing_of lease budgetConservative o (ps_gate s) in
  put_handoff (ho_handoff r) (put_finished (ps_finished s ++ map (λ f, (f.1, f.2, None)) (ho_finished r)) (put_gate (ho_gate r) s)).

Definition settle_lifecycle (s : proxy_state) : proxy_state :=
  match ps_lease s with
  | Some i =>
      if negb (ps_started s) then put_gate (on_lease (ResourceLease_ReleaseBeforeUpstream (ex_clk_settle x)) (Some i) (ps_gate s)) s
      else match ps_observation s with
           | Some o => settle_observation (Some i) (ps_budgetAdmission s) o s
           | None => put_gate (on_lease (ResourceLease_CompleteConservative (ex_clk_settle x)) (Some i) (ps_gate s)) s
           end
  | None => match ps_observation s with Some o => settle_observation None false o s | None => s end
  end.

Definition default_terminal (s : proxy_state) : proxy_state :=
  if same (Outcome (ps_terminal s)) TerminalOutcomeUnknown
  then (setTerminal (if ps_started s then TerminalOutcomeComplete else TerminalOutcomePreUpstream) s).2 else s.

Definition freeze_capture (s : proxy_state) : proxy_state :=
  put_writer (set_recorder (FinalizeForHandoff (w_recorder (ps_writer s))) (ps_writer s)) s.

Definition cleanup (s : proxy_state) : proxy_state := freeze_capture (default_terminal (settle_lifecycle (release_inspection s))).

Definition serve : prog () :=
  r ← pass_admission; let '(metadata, pricing) := r in
  upstream ← call_upstream;
  respond metadata pricing upstream.

Definition ServeHTTP (s : proxy_state) : proxy_state :=
  match preflight s with
  | (None, s) => s
  | (Some _, s) => cleanup (serve s).2
  end.

End serve.
