(* ===== verification/ProxySafety.v ===== *)
(** * What a served request leaves behind

    The proxy of [Proxy.v] against the limiters: whatever happens to a request,
    the slot it took is returned and its reservations are settled; and nothing
    reaches the upstream that the key's policy does not pass_admission. *)

From Stdlib Require Import Ascii ZArith Lia ZifyBool.
From stdpp Require Import prelude strings list gmap.
From S2P Require Import Prelude Text Money Usage Windows Pricing Reservation RequestLimiter ConcurrencyLimiter TokenLimiter BudgetLimiter BudgetAccounts BudgetWorld BudgetSafety Lease SSEParser Policy Auth ChatStream RequestBody BodyRecorder CompletionRecord Trace CompletionOwnership UsageObservation UsageWorker HttpHeaders ResponseWriter Transfer Ingress Dispatch Proxy.
Local Open Scope Z_scope.

#[local] Arguments str : simpl never.

(** ** What is owed *)

Definition slot_count (lease : ConcurrencyLimiter.Lease) (L : loc) (K : string) : Z :=
  if decide (lease_limiter lease = Some L ∧ K = lease_keyID lease) then 1 else 0.

(** Unsettled leases and reservations of [g] other than the given ones were
    there, unsettled, in [g0]. *)
Record unsettled_from (g0 : gate) (i t b : option positive) (g : gate) : Prop := {
  uf_leases : ∀ j r, g_leases g !! j = Some r → rl_finalized r = false → Some j = i ∨ g_leases g0 !! j = Some r;
  uf_tokens : ∀ j r, w_reservations (g_tokens g) !! j = Some r → tr_finalized r = false →
    Some j = t ∨ ∃ r0, w_reservations (g_tokens g0) !! j = Some r0 ∧ tr_finalized r0 = false;
  uf_budgets : ∀ j r, bw_reservations (g_budgets g) !! j = Some r → br_finalized r = false →
    Some j = b ∨ ∃ r0, bw_reservations (g_budgets g0) !! j = Some r0 ∧ br_finalized r0 = false;
}.

Section owed.
Context (p : gset loc) (g0 : gate).

Definition slots_kept (g : gate) : Prop :=
  cinv (g_heap g) p ∧ ∀ L K, held_slots (g_heap g) p L K = held_slots (g_heap g0) p L K.

(** One slot more, held by the lease [l]. *)
Definition borrowed (l : loc) (lease : ConcurrencyLimiter.Lease) (g : gate) : Prop :=
  cinv (g_heap g) p ∧ leases (g_heap g) !! l = Some lease ∧ lease_released lease = false ∧
  ∀ L K, held_slots (g_heap g) p L K = held_slots (g_heap g0) p L K + slot_count lease L K.

Definition idle (g : gate) : Prop := slots_kept g ∧ unsettled_from g0 None None None g.

Definition live (i : positive) (g : gate) : Prop :=
  ∃ l lease t b, borrowed l lease g ∧ g_leases g !! i = Some (mkResourceLease (Some l) t b false false noError noTickets) ∧
    unsettled_from g0 (Some i) t b g.

Definition finalised (i : positive) (g : gate) : Prop := ∃ r, g_leases g !! i = Some r ∧ rl_finalized r = true.
Definition settled (i : positive) (g : gate) : Prop := idle g ∧ finalised i g.
Definition taken (i : positive) (g : gate) : Prop := live i g ∨ settled i g.

Lemma borrowed_released l lease g : borrowed l lease g → slots_kept (gate_releaseOwned l g).
Proof.
  intros (Hc & Hl & Hr & Hh). destruct (releaseOwned_held (g_heap g) p l lease Hc Hl Hr) as [Hc' Hh']. split; [done|].
  intros L K. cbn. rewrite Hh', Hh. unfold slot_count. lia.
Qed.

(** Steps that touch neither the slots nor the leases. *)
Lemma borrowed_heap l lease g g' : g_heap g' = g_heap g → borrowed l lease g → borrowed l lease g'.
Proof. intros E. unfold borrowed. by rewrite E. Qed.

Lemma token_settled_unsettled i t b g g' : token_settled t g g' → unsettled_from g0 i t b g → unsettled_from g0 i None b g'.
Proof.
  intros Hs Hu. destruct (token_settled_frame t g g' Hs) as (_ & Eb & El). destruct Hu as [U1 U2 U3]. constructor; rewrite ?Eb, ?El; [done| |done].
  intros j r Hj Hf. right. destruct (decide (Some j = t)) as [<-|Hne].
  - by rewrite (token_settled_after _ _ _ j r Hs eq_refl Hj) in Hf.
  - destruct Hs as [l' Hs]. destruct t as [k|]; [|subst g'; by destruct (U2 j r Hj Hf)].
    destruct (w_reservations (g_tokens g) !! k); [destruct Hs as (r' & _ & ->)|subst g'; destruct (U2 j r Hj Hf); [congruence|done]].
    cbn in Hj. rewrite lookup_insert_ne in Hj by congruence. by destruct (U2 j r Hj Hf).
Qed.

Lemma budget_settled_unsettled i t b g g' : budget_settled b g g' → unsettled_from g0 i t b g → unsettled_from g0 i t None g'.
Proof.
  intros Hs Hu. destruct (budget_settled_frame b g g' Hs) as (_ & Et & El). destruct Hu as [U1 U2 U3]. constructor; rewrite ?Et, ?El; [done|done|].
  intros j r Hj Hf. right. destruct (decide (Some j = b)) as [<-|Hne].
  - by rewrite (budget_settled_after _ _ _ j r Hs eq_refl Hj) in Hf.
  - destruct Hs as [l' Hs]. destruct b as [k|]; [|subst g'; by destruct (U3 j r Hj Hf)].
    destruct (bw_reservations (g_budgets g) !! k); [destruct Hs as (r' & _ & ->)|subst g'; destruct (U3 j r Hj Hf); [congruence|done]].
    cbn in Hj. rewrite lookup_insert_ne in Hj by congruence. by destruct (U3 j r Hj Hf).
Qed.

(** ** Settling *)

(** [finish] on a lease that is live settles it; on a settled one it is no more than a read. *)
Lemma finish_settles clk c i g : taken i g → ∃ err tickets g', ResourceLease_finish clk c i g = Some (err, tickets, g') ∧ settled i g'.
Proof.
  intros [(l & lease & t & b & Hb & Hi & Hu)|(Hidle & r & Hi & Hr)]; unfold ResourceLease_finish, finish_enter; rewrite Hi; cycle 1.
  { rewrite Hr. do 3 eexists. split; [done|]. split; [done|]. by exists r. }
  cbn [rl_finalized rl_finalizing rl_tokens rl_budget rl_concurrency rl_finalErr rl_deferredTickets].
  set (g1 := with_leases _ g). destruct (settle_tokens clk c t g1) as [[terr ttk] g2] eqn:Et. destruct (settle_budget c b g2) as [[berr btk] g3] eqn:Eb.
  pose proof (settle_tokens_settled _ _ _ _ _ _ _ Et) as Hst. pose proof (settle_budget_settled _ _ _ _ _ _ Eb) as Hsb.
  do 3 eexists. split; [done|].
  assert (unsettled_from g0 (Some i) t b g1) as Hu1.
  { destruct Hu as [U1 U2 U3]. constructor; [|done|done]. cbn. intros j r Hj Hf.
    apply lookup_insert_Some in Hj as [[<- _]|[_ Hj]]; [by left|by apply U1]. }
  pose proof (budget_settled_unsettled _ _ _ _ _ Hsb (token_settled_unsettled _ _ _ _ _ Hst Hu1)) as Hu3.
  destruct (token_settled_frame _ _ _ Hst) as (Eh2 & _ & El2). destruct (budget_settled_frame _ _ _ Hsb) as (Eh3 & _ & El3).
  assert (slots_kept (gate_releaseOwned l g3)) as Hk.
  { apply (borrowed_released l lease), (borrowed_heap _ _ g); [|done]. rewrite Eh3, Eh2. done. }
  split; [split|].
  - destruct Hk as [K1 K2]. by split.
  - destruct Hu3 as [U1 U2 U3]. constructor; cbn; [|done|done]. intros j r Hj Hf.
    apply lookup_insert_Some in Hj as [[<- <-]|[Hne Hj]]; [done|]. destruct (U1 j r Hj Hf) as [[=]|]; [congruence|by right].
  - eexists. cbn. rewrite lookup_insert_eq. done.
Qed.

Lemma on_lease_settles {A B} (f : positive → gate → option (A * B * gate)) i g :
  (∃ e t g', f i g = Some (e, t, g') ∧ settled i g') → settled i (on_lease f (Some i) g).
Proof. intros (e & t & g' & E & Hs). cbn. by rewrite E. Qed.

Lemma conservative_settles clk i g : taken i g → settled i (on_lease (ResourceLease_CompleteConservative clk) (Some i) g).
Proof. intros H. apply on_lease_settles, finish_settles, H. Qed.

Lemma converted_settles clk i aggregation pricing g : taken i g → settled i (settleConvertedLease clk (Some i) aggregation pricing g).
Proof.
  intros H. unfold settleConvertedLease. destruct (_ && _); [|by apply conservative_settles]. apply on_lease_settles.
  unfold ResourceLease_CommitKnownUsage, ResourceLease_CommitKnownWithCost. destruct (negb _); by apply finish_settles.
Qed.

Lemma invalidate_settled tk i g : settled i g → settled i (Tickets_Invalidate tk g).
Proof.
  intros [[Hk [U1 U2 U3]] Hf]. unfold Tickets_Invalidate, Tickets_InvalidateBudget, Tickets_InvalidateToken.
  assert (∀ k (m : gmap positive TokenReservation) j r, alter (λ r, match tr_ticket r with Some tk => with_ticket (ticket_Invalidate tk) r | None => r end) k m !! j = Some r →
            tr_finalized r = false → ∃ r0, m !! j = Some r0 ∧ tr_finalized r0 = false) as Ha.
  { intros k m j r Hj Hr. destruct (decide (k = j)) as [->|]; [|rewrite lookup_alter_ne in Hj by done; eauto].
    rewrite lookup_alter_eq in Hj. destruct (m !! j) as [r0|]; [|done]. injection Hj as <-. exists r0. split; [done|]. by destruct (tr_ticket r0). }
  assert (∀ k (m : gmap positive BudgetReservation) j r, alter (λ r, match br_ticket r with Some tk => with_bticket (BudgetTicket_Invalidate tk) r | None => r end) k m !! j = Some r →
            br_finalized r = false → ∃ r0, m !! j = Some r0 ∧ br_finalized r0 = false) as Hb.
  { intros k m j r Hj Hr. destruct (decide (k = j)) as [->|]; [|rewrite lookup_alter_ne in Hj by done; eauto].
    rewrite lookup_alter_eq in Hj. destruct (m !! j) as [r0|]; [|done]. injection Hj as <-. exists r0. split; [done|]. by destruct (br_ticket r0). }
  split; [split|by destruct (lt_Token tk), (lt_Budget tk)].
  - by destruct (lt_Token tk), (lt_Budget tk).
  - constructor; destruct (lt_Token tk), (lt_Budget tk); cbn; try done; intros j r Hj Hr;
      first [destruct (Ha _ _ _ _ Hj Hr) as (r1 & E1 & E2) | destruct (Hb _ _ _ _ Hj Hr) as (r1 & E1 & E2)]; eauto.
Qed.

(** Dispatching never leaves the lease half settled. *)
Lemma dispatch_gate ParseMediaType e {R} `{ReaderLaws R} request metadata (upstream : upstreamResponse R) lease pricing d err d' :
  dispatchResponse ParseMediaType e request metadata upstream lease pricing d = Some (err, d') →
  (dp_gate d' = dp_gate d ∧ (lease = None ∨ ro_canonical <$> dp_observation d' = ro_canonical <$> dp_observation d)) ∨
  ∃ i, lease = Some i ∧ (taken i (dp_gate d) → settled i (dp_gate d')).
Proof.
  assert (∀ w o fuel R' (r : Reader R') (body : R'), copied d (stream_loop (sr_accepts e) (sr_flushes e) (sr_trace_clock e) (sr_now e) fuel body w o) = Some (err, d') →
            o = dp_observation d → dp_gate d' = dp_gate d ∧ (lease = None ∨ ro_canonical <$> dp_observation d' = ro_canonical <$> dp_observation d)) as Hcopied.
  { intros w o fuel R' r body Hc ->. destruct (stream_loop _ _ _ _ _ _ _ _) as [[[e1 w1] o1]|] eqn:Es; [|done]. injection Hc as <- <-. split; [done|]. right.
    exact (stream_canonical _ _ _ _ _ _ _ _ _ _ _ Es). }
  unfold dispatchResponse. destruct (shouldAggregateSSE _ _ _).
  - unfold convert. destruct lease as [i|]; cycle 1.
    { intros E. left. split; [|by left]. revert E. destruct (aggregationReaderWithDrain _ _) as [[c drains]|]; [|by intros [= <- <-]].
      destruct (aggregateSSEToJSONWithTiming _ _ _ _) as [[aggregation [er|]]|]; [by intros [= <- <-]| |done].
      assert (dp_gate (settle_conversion e None aggregation pricing d) = dp_gate d) as Hg
        by (cbn; unfold settleConvertedLease, finalizeConvertedLeaseConservatively; by destruct (_ && _)).
      destruct (if _ : bool then drained e c else None).
      - intros [= <- <-]. cbn [dp_gate]. by destruct (bool_decide _).
      - unfold deliver_converted. destruct (Write _ _ _ _) as [[??]?]. by intros [= <- <-]. }
    intros E. right. exists i. split; [done|]. intros Ht. revert E.
    destruct (aggregationReaderWithDrain _ _) as [[c drains]|]; [|intros [= <- <-]; by apply conservative_settles].
    destruct (aggregateSSEToJSONWithTiming _ _ _ _) as [[aggregation [er|]]|]; [intros [= <- <-]; by apply conservative_settles| |done].
    pose proof (converted_settles (sr_limiter_clock e) i aggregation pricing (dp_gate d) Ht) as Hs.
    destruct (if _ : bool then drained e c else None).
    + intros [= <- <-]. cbn [dp_gate settle_conversion]. destruct (bool_decide _); [|done]. apply conservative_settles. by right.
    + unfold deliver_converted. destruct (Write _ _ _ _) as [[??]?]. by intros [= <- <-].
  - intros E. left. destruct (up_Body upstream); [|injection E as <- <-; by split; [|right]].
    destruct (same _ _); [by apply Hcopied in E|]. unfold copyBoundedNonStreamingResponseWithObservation in E.
    destruct (responseContentLength _ _ _). by apply Hcopied in E.
Qed.

(** Handing the observation over settles the lease on every branch but that of
    a conversion, which has settled it. *)
Lemma settle_settles clk h i budgetConservative o g : taken i g → ro_canonical o = None ∨ settled i g →
  settled i (ho_gate (settle clk h (Some i) budgetConservative o g)).
Proof.
  intros Ht Hc. unfold settle. destruct (ro_eligible o); [|by apply conservative_settles].
  assert (settled i (ho_gate (if negb (hd_worker h) then mkHandedOver (on_lease (ResourceLease_CompleteConservative clk) (Some i) g) [] NoHandoff
            else complete_and_submit clk h i (if budgetConservative && negb (PricingResolution_Known (ro_pricing o)) then UnknownPricingResolution else ro_pricing o) o g))) as Hs.
  { destruct (hd_worker h); [|by apply conservative_settles]. cbn [negb]. unfold complete_and_submit, ResourceLease_TransportCompleteWithAdjustments.
    destruct (finish_settles clk (Lease.mkTerminal outcomeDeferred 0 false UnknownMoney) i g Ht) as (e & tk & g' & -> & Hs').
    destruct (completeAndSubmitWithPricingTimingAndRequest _ _ _ _ _ _ _ _ _ _); [done|by apply invalidate_settled|done]. }
  destruct (bool_decide (is_Some (hd_completion h))); [|by destruct (ro_canonical o) as [[??]|]].
  destruct (ro_canonical o) as [[usage cost]|]; [|done]. by destruct Hc.
Qed.

(** ** Taking resources *)

Lemma admit_tokens_unsettled co clk o g r g' : unsettled_from g0 None None None g → admit_tokens co clk o g = (r, g') →
  g_heap g' = g_heap g ∧ g_leases g' = g_leases g ∧ g_budgets g' = g_budgets g ∧
  match r with Ok t => unsettled_from g0 None t None g' | Err _ => unsettled_from g0 None None None g' end.
Proof.
  intros [U1 U2 U3] E. unfold admit_tokens in E. destruct (co_tokens co); [|by simplify_eq]. destruct (_ <? 0); [by simplify_eq|].
  destruct (0 <? _); [|by simplify_eq]. unfold gate_reserve_tokens in E. destruct (TokenLimiter_Reserve _ _ _ _ _) as [[[res|] resetAt] l]; simplify_eq;
    (split_and!; [done|done|done|]); constructor; cbn; try done.
  intros j r0 Hj Hf. apply lookup_insert_Some in Hj as [[<- _]|[_ Hj]]; [by left|]. destruct (U2 j r0 Hj Hf); [done|by right].
Qed.

Lemma admit_budget_unsettled co clk o t g r g' : unsettled_from g0 None t None g → admit_budget co clk o g = (r, g') →
  g_heap g' = g_heap g ∧ g_leases g' = g_leases g ∧
  match r with Ok b => unsettled_from g0 None t b g' | Err _ => unsettled_from g0 None t None g' end.
Proof.
  intros [U1 U2 U3] E. unfold admit_budget in E. destruct (_ && _); [|by simplify_eq]. destruct (negb _); [by simplify_eq|].
  unfold gate_reserve_budget in E. destruct (BudgetLimiter_Reserve _ _ _ _ _) as [[res|e] l]; simplify_eq; (split_and!; [done|done|]); constructor; cbn; try done.
  intros j r0 Hj Hf. apply lookup_insert_Some in Hj as [[<- _]|[_ Hj]]; [by left|]. destruct (U3 j r0 Hj Hf); [done|by right].
Qed.

Lemma release_tokens_unsettled clk t b g : unsettled_from g0 None t b g → unsettled_from g0 None None b (gate_release_tokens clk t g).
Proof.
  intros Hu. destruct t as [i|]; [|done]. cbn. destruct (gate_token _ i g) as [[err tk] g'] eqn:E. cbn.
  eapply token_settled_unsettled; [|done]. eapply gate_token_settled; [|done]. intros r l e r' l' Hr. by apply finalizeOnce_final in Hr as [? _].
Qed.

Lemma unsettled_frame i t b g g' : g_leases g' = g_leases g → w_reservations (g_tokens g') = w_reservations (g_tokens g) →
  bw_reservations (g_budgets g') = bw_reservations (g_budgets g) → unsettled_from g0 i t b g → unsettled_from g0 i t b g'.
Proof. intros E1 E2 E3 [U1 U2 U3]. constructor; by rewrite ?E1, ?E2, ?E3. Qed.

Lemma budget_rejection_frame clk e g r g' : budget_rejection clk e g = (r, g') →
  g_heap g' = g_heap g ∧ g_leases g' = g_leases g ∧ g_tokens g' = g_tokens g ∧ bw_reservations (g_budgets g') = bw_reservations (g_budgets g).
Proof.
  unfold budget_rejection, gate_retry_after. destruct e; try by intros [= <- <-]. destruct (negb _); [|by intros [= <- <-]].
  destruct (BudgetLimiter_RetryAfterSeconds _ _ _). by intros [= <- <-].
Qed.

Lemma finishAdmission_owes co ck l lease o g r g' : borrowed l lease g → unsettled_from g0 None None None g → finishAdmission co ck l o g = (r, g') →
  match r with Ok i => live i g' | Err _ => idle g' end.
Proof.
  intros Hb Hu E. unfold finishAdmission in E. destruct (admit_tokens co (ck_tokens ck) o g) as [t g1] eqn:Et.
  destruct (admit_tokens_unsettled _ _ _ _ _ _ Hu Et) as (Eh1 & El1 & _ & Hu1). destruct t as [t|e].
  2:{ simplify_eq. split; [by apply (borrowed_released l lease), (borrowed_heap _ _ g)|]. by apply (unsettled_frame _ _ _ g1). }
  destruct (admit_budget co (ck_budget ck) o g1) as [b g2] eqn:Eb. destruct (admit_budget_unsettled _ _ _ _ _ _ _ Hu1 Eb) as (Eh2 & El2 & Hu2).
  assert (borrowed l lease g2) as Hb2 by (apply (borrowed_heap _ _ g); [congruence|done]).
  destruct b as [b|err].
  - unfold new_resource_lease in E. simplify_eq. exists l, lease, t, b. split; [done|]. cbn. split; [by rewrite lookup_insert_eq|].
    destruct Hu2 as [U1 U2 U3]. constructor; cbn; [|done|done]. intros j r Hj Hf.
    apply lookup_insert_Some in Hj as [[<- _]|[_ Hj]]; [by left|]. destruct (U1 j r Hj Hf); [done|by right].
  - pose proof (release_tokens_unsettled (ck_rollback ck) t None g2 Hu2) as Hu3. destruct (release_tokens_only (ck_rollback ck) t g2) as (Eh3 & _ & _).
    set (g3 := gate_release_tokens (ck_rollback ck) t g2) in *.
    assert (idle (gate_releaseOwned l g3)) as Hi.
    { split; [by apply (borrowed_released l lease), (borrowed_heap _ _ g2)|]. by apply (unsettled_frame _ _ _ g3). }
    destruct err as [err|]; [|by simplify_eq]. destruct (budget_rejection (ck_retry ck) err (gate_releaseOwned l g3)) as [rej g4] eqn:Er. simplify_eq.
    destruct (budget_rejection_frame _ _ _ _ _ Er) as (F1 & F2 & F3 & F4). destruct Hi as [[K1 K2] Hu4].
    split; [split; [by rewrite F1|]; intros L K; by rewrite F1|]. apply (unsettled_frame _ _ _ (gate_releaseOwned l g3)); [done| |done|done]. by rewrite F3.
Qed.

(** A provisional slot: what is needed to adopt it later. *)
Definition provisional (limiter : loc) (k : string) (max : Z) (l : loc) (g : gate) : Prop :=
  ∃ lease, borrowed l lease g ∧ lease_claimed lease = false ∧ lease_admitted lease = true ∧ lease_keyID lease = k ∧
    (lease_limiter lease = Some limiter ∨ lease_limiter lease = None ∧ max = 0) ∧ unsettled_from g0 None None None g.

Lemma Acquire_lease limiter k max hp l hp' : ConcurrencyLimiter_Acquire limiter k max hp = (Some l, hp') →
  ∃ lease, leases hp' !! l = Some lease ∧ lease_released lease = false ∧ lease_claimed lease = false ∧ lease_admitted lease = true ∧
    lease_keyID lease = k ∧ (lease_limiter lease = Some limiter ∨ lease_limiter lease = None ∧ max = 0).
Proof.
  unfold ConcurrencyLimiter_Acquire. destruct (_ <? 0); [done|]. destruct (Z.eqb_spec max 0).
  - unfold new_lease. intros [= <- <-]. eexists. cbn. rewrite lookup_insert_eq. split_and!; eauto.
  - destruct (match states hp !! (limiter, k) with Some _ => _ | None => _ end) as [st h1]. destruct (max <=? _); [done|].
    unfold new_lease. intros [= <- <-]. eexists. cbn. rewrite lookup_insert_eq. split_and!; eauto.
Qed.

Lemma Acquire_provisional limiter k max g r hp : 0 <= max <= maxInt64 → idle g → ConcurrencyLimiter_Acquire limiter k max (g_heap g) = (r, hp) →
  match r with Some l => provisional limiter k max l (with_heap hp g) | None => idle (with_heap hp g) end.
Proof.
  intros Hmax [[Hc Hh] Hu] E.
  assert (acquireConcurrency (mkCoordinator (Some limiter) true true) k max g =
          (match r with Some l => Ok l | None => Err (rejected_until AdmissionConcurrency zeroTime) end, with_heap hp g)) as EA.
  { unfold acquireConcurrency. cbn [co_concurrency]. destruct (Z.ltb_spec max 0); [lia|]. by rewrite E. }
  destruct (acquireConcurrency_spec _ p _ _ _ _ _ Hc (proj2 Hmax) EA) as (_ & _ & _ & HS). destruct r as [l|]; cbn in HS.
  - destruct HS as (Hc' & _ & lease & Hl & Hr & Hcl & Hheld). destruct (Acquire_lease _ _ _ _ _ _ E) as (lease' & E1 & _ & _ & E4 & E5 & E6).
    assert (lease' = lease) as -> by (rewrite Hl, lookup_insert_eq in E1; congruence). exists lease.
    split_and!; [|done|done|done|done|by apply (unsettled_frame _ _ _ g)].
    split_and!; [done|done|done|]. intros L K. cbn. rewrite Hheld, Hh. done.
  - split; [split|by apply (unsettled_frame _ _ _ g)]; cbn; rewrite HS; done.
Qed.

Lemma claimed_held hp q l lease : cinv hp q → leases hp !! l = Some lease → ∀ L K, held_slots (set_lease l (set_claimed lease) hp) q L K = held_slots hp q L K.
Proof.
  intros Hc Hl L K. rewrite (held_slots_update hp _ q q l); [|unfold set_lease; cbn [leases]; by rewrite delete_insert_eq|done].
  unfold slot_of, set_lease. cbn [leases]. rewrite lookup_insert_eq, Hl.
  destruct (decide (holds_slot q L K (l, set_claimed lease))) as [H1|H1], (decide (holds_slot q L K (l, lease))) as [H2|H2]; [lia|by destruct H2|by destruct H1|lia].
Qed.

(** Adopting one's own provisional slot never fails. *)
Lemma adopt_succeeds co limiter k max l o g : co_concurrency co = Some limiter → ro_KeyID o = k → ro_MaxConcurrency o = max → 0 <= max →
  provisional limiter k max l g → ∃ lease g', adopt_provisional co l o g = (true, g') ∧ borrowed l lease g' ∧ unsettled_from g0 None None None g'.
Proof.
  intros Eco Ek Em Hmax (lease & (Hc & Hl & Hr & Hh) & Hcl & Had & Hk & Hlim & Hu). unfold adopt_provisional, Lease_adoptFor.
  rewrite Em, Ek, Eco, Hl, Hr, Hcl, Had. destruct (Z.ltb_spec max 0); [lia|]. cbn [orb negb].
  exists (set_claimed lease), (with_heap (set_lease l (set_claimed lease) (g_heap g)) g).
  assert (borrowed l (set_claimed lease) (with_heap (set_lease l (set_claimed lease) (g_heap g)) g)) as Hb.
  { split_and!; [by apply mark_claimed_inv|cbn; by rewrite lookup_insert_eq|done|]. intros L K. cbn. rewrite (claimed_held _ p) by done. apply Hh. }
  split; [|split; [done|by apply (unsettled_frame _ _ _ g)]].
  destruct Hlim as [HL|[HL ->]]; rewrite HL; cbn.
  - destruct (ci_hold _ _ Hc l lease limiter Hl HL (or_introl Hr)) as (st & Es & Hs). rewrite Es, Hk.
    rewrite !bool_decide_true by done. cbn. rewrite Hk in Hs. rewrite Hs, bool_decide_true by done. cbn.
    rewrite (active_held _ p limiter k st Hc Hs). destruct (ci_count _ _ Hc _ _ _ Hs) as [_ Hpos].
    destruct (Z.leb_spec (held_slots (g_heap g) p limiter k) 0); [lia|done].
  - rewrite Hk, (bool_decide_true (k = k)) by done. by rewrite andb_false_r.
Qed.

Lemma Release_provisional limiter k max l g : provisional limiter k max l g → idle (with_heap (Lease_Release l (g_heap g)) g).
Proof.
  intros (lease & Hb & Hcl & Had & _ & _ & Hu). pose proof (borrowed_released l lease g Hb) as Hk. destruct Hb as (_ & Hl & Hr & _).
  assert (Lease_Release l (g_heap g) = Lease_releaseOwned l (g_heap g)) as ->.
  { unfold Lease_Release, Lease_releaseOwned, Release_mark, releaseOwned_mark. rewrite Hl, Hr, Hcl, Had. done. }
  split; [exact Hk|]. by apply (unsettled_frame _ _ _ g).
Qed.

Lemma Acquire_owes co ck o g r g' : ro_MaxConcurrency o <= maxInt64 → idle g → Coordinator_Acquire co ck o g = (r, g') →
  match r with Ok i => live i g' | Err _ => idle g' end.
Proof.
  intros Hmax [[Hc Hh] Hu] E. unfold Coordinator_Acquire in E. destruct (acquireConcurrency co (ro_KeyID o) (ro_MaxConcurrency o) g) as [q g1] eqn:EA.
  destruct (acquireConcurrency_spec co p _ _ g q g1 Hc Hmax EA) as (E1 & E2 & E3 & HS).
  assert (unsettled_from g0 None None None g1) as Hu1 by (apply (unsettled_frame _ _ _ g); congruence).
  destruct q as [l|e]; [|simplify_eq; split; [split|done]; rewrite HS; done].
  destruct HS as (Hc1 & _ & lease & Hl & Hr & _ & Hheld). apply (finishAdmission_owes co ck l lease o g1 r g'); [|done|done].
  split_and!; [done|rewrite Hl; apply lookup_insert_eq|done|]. intros L K. rewrite Hheld, Hh. done.
Qed.

Lemma AcquireWithProvisional_owes co ck limiter k max l o g r g' : co_concurrency co = Some limiter → ro_KeyID o = k → ro_MaxConcurrency o = max → 0 <= max →
  provisional limiter k max l g → Coordinator_AcquireWithProvisional co ck l o g = (r, g') → match r with Ok i => live i g' | Err _ => idle g' end.
Proof.
  intros Eco Ek Em Hmax Hp E. destruct (adopt_succeeds co limiter k max l o g Eco Ek Em Hmax Hp) as (lease & g1 & EA & Hb & Hu).
  unfold Coordinator_AcquireWithProvisional in E. rewrite EA in E. cbn [negb] in E. by apply (finishAdmission_owes co ck l lease o g1 r g').
Qed.
End owed.

(** ** Steps of the handler *)

(** A step leaves the part [π] of the state alone. *)
Definition keeps {X} (π : proxy_state → X) {A} (m : prog A) : Prop := ∀ s, π (m s).2 = π s.

(** Parts of the state that reporting to the client and to the trace does not touch. *)
Record unreported {X} (π : proxy_state → X) : Prop := {
  un_writer : ∀ v s, π (put_writer v s) = π s;
  un_terminal : ∀ v s, π (put_terminal v s) = π s;
  un_limit : ∀ v s, π (put_limit v s) = π s;
  un_tooLarge : ∀ v s, π (put_tooLarge v s) = π s;
  un_token : ∀ v s, π (put_tokenAdmission v s) = π s;
  un_budget : ∀ v s, π (put_budgetAdmission v s) = π s;
}.

Create HintDb keeps.

Section keeping.
Context {X : Type} (π : proxy_state → X).

Lemma keeps_bind {A B} (m : prog A) (k : A → prog B) : keeps π m → (∀ y, keeps π (k y)) → keeps π (bind m k).
Proof. intros Hm Hk s. unfold bind. specialize (Hm s). destruct (m s) as [[y|] s'] eqn:E; [|done]. rewrite <-Hm. apply Hk. Qed.
Lemma keeps_ret {A} (y : A) : keeps π (ret y).
Proof. done. Qed.
Lemma keeps_stop {A} : keeps π (stop (A := A)).
Proof. done. Qed.
Lemma keeps_get : keeps π get.
Proof. done. Qed.
Lemma keeps_modify f : (∀ s, π (f s) = π s) → keeps π (modify f).
Proof. done. Qed.
Lemma keeps_assert ok m : keeps π m → keeps π (assert ok m).
Proof. by destruct ok. Qed.
End keeping.

#[local] Hint Resolve keeps_bind keeps_ret keeps_stop keeps_get keeps_modify keeps_assert : keeps.

(** Splits the conditionals a step is made of. *)
Ltac keeps := repeat first
  [ progress intros | apply keeps_ret | apply keeps_stop | apply keeps_get | solve [eauto with keeps] | apply keeps_bind
  | match goal with |- context [match ?e with _ => _ end] => destruct e end | progress cbn beta iota ].

Section steps.
Context (ParseMediaType : bytes → option bytes) (h : handler) {R : Type} `{ReaderLaws R} (x : exchange R).

Section reports.
Context {X : Type} (π : proxy_state → X) (Hun : unreported π).
#[local] Hint Resolve un_writer un_terminal un_limit un_tooLarge un_token un_budget : keeps.

Lemma keeps_tell op : keeps π (tell x op).
Proof. apply keeps_modify. eauto with keeps. Qed.
#[local] Hint Resolve keeps_tell : keeps.
Lemma keeps_setTerminal outcome : keeps π (setTerminal x outcome).
Proof. unfold setTerminal. eauto with keeps. Qed.
Lemma keeps_send_error code param retry : keeps π (send_error x code param retry).
Proof. apply keeps_modify. eauto with keeps. Qed.
#[local] Hint Resolve keeps_setTerminal keeps_send_error : keeps.
Lemma keeps_refuse {A} code param retry : keeps π (refuse (A := A) x code param retry).
Proof. unfold refuse. eauto with keeps. Qed.
Lemma keeps_refuse_late {A} code : keeps π (refuse_late (A := A) x code).
Proof. unfold refuse_late. eauto with keeps. Qed.
Lemma keeps_fail_with {A} outcome code : keeps π (fail_with (A := A) x outcome code).
Proof. unfold fail_with. eauto with keeps. Qed.
#[local] Hint Resolve keeps_refuse keeps_refuse_late keeps_fail_with : keeps.

Lemma keeps_put_limits v n : keeps π (modify (λ s, put_tooLarge n (put_limit v s))).
Proof. intros s. cbn. rewrite un_tooLarge by done. by apply un_limit. Qed.
Lemma keeps_recordBodyTooLarge : keeps π (modify (λ s, let '(l, n) := recordBodyTooLarge (ps_limit s) (ps_tooLarge s) in put_tooLarge n (put_limit l s))).
Proof. intros s. cbn. destruct (recordBodyTooLarge _ _) as [v n]. apply (keeps_put_limits v n s). Qed.
#[local] Hint Resolve keeps_put_limits keeps_recordBodyTooLarge : keeps.

Lemma keeps_preflight : keeps π (preflight h x).
Proof. unfold preflight. keeps. Qed.
Lemma keeps_inspect : keeps π (inspect ParseMediaType h x).
Proof. unfold inspect. keeps. Qed.
Lemma keeps_describe metadata : keeps π (describe x metadata).
Proof. unfold describe. keeps. Qed.
Lemma keeps_check_model metadata : keeps π (check_model x metadata).
Proof. unfold check_model. keeps. Qed.
Lemma keeps_plan_tokens metadata inspected available : keeps π (plan_tokens ParseMediaType h x metadata inspected available).
Proof. unfold plan_tokens. keeps. Qed.
Lemma keeps_plan_budget metadata inspected available tokens : keeps π (plan_budget ParseMediaType h x metadata inspected available tokens).
Proof. unfold plan_budget. keeps. Qed.
Lemma keeps_install_capture transparent : keeps π (install_capture h x transparent).
Proof. unfold install_capture. keeps. Qed.
Lemma keeps_conclude upstream err : keeps π (conclude x upstream err).
Proof. unfold conclude. keeps. Qed.

Lemma keeps_check_requests : (∀ v s, π (put_requests v s) = π s) → keeps π (check_requests h x).
Proof. intros Hr. unfold check_requests. keeps. Qed.
Lemma keeps_call_upstream : (∀ v s, π (put_started v s) = π s) → keeps π (call_upstream x).
Proof. intros Hs. unfold call_upstream. keeps. Qed.

(** The steps that move what is held. *)
Context (Hgate : ∀ v s, π (put_gate v s) = π s) (Hinspection : ∀ v s, π (put_inspection v s) = π s).
#[local] Hint Resolve Hgate : keeps.

Lemma keeps_taking v w : keeps π (modify (λ s, put_inspection v (put_gate (w s) s))).
Proof. intros s. cbn. by rewrite Hinspection, Hgate. Qed.
#[local] Hint Resolve keeps_taking : keeps.
Lemma keeps_reserve_inspection : keeps π (reserve_inspection ParseMediaType h x).
Proof. unfold reserve_inspection. keeps. Qed.
Lemma keeps_writeAdmissionError rejection : keeps π (writeAdmissionError x rejection).
Proof. unfold writeAdmissionError. keeps. Qed.
#[local] Hint Resolve keeps_writeAdmissionError : keeps.
Lemma keeps_acquire tokens budget : (∀ v s, π (put_lease v s) = π s) → keeps π (acquire h x tokens budget).
Proof. intros Hl. unfold acquire. keeps. Qed.
End reports.

(** What only the steps that take or return something may touch. *)
Definition held (s : proxy_state) := (ps_gate s, ps_inspection s, ps_lease s, ps_observation s).
Abbreviation quiet := (keeps held).

Lemma held_unreported : unreported held.
Proof. by constructor. Qed.
(** ** What a request owes, step by step *)

Context (p : gset loc) (g0 : gate).

Definition reserved (l : loc) (g : gate) : Prop :=
  match ex_principal x, hn_concurrency h with
  | Some pr, Some limiter => provisional p g0 limiter (key_of pr) (maxConcurrency (p_Policy pr)) l g
  | _, _ => False
  end.

Definition holds (g : gate) (inspection : option loc) (lease : option positive) : Prop :=
  match inspection, lease with
  | None, None => idle p g0 g
  | Some l, None => reserved l g
  | None, Some i => taken p g0 i g
  | Some _, Some _ => False
  end.

(** An observation that carries its result belongs to a settled lease. *)
Definition observed (o : option responseObservation) (lease : option positive) (g : gate) : Prop :=
  ∀ o' i, o = Some o' → lease = Some i → ro_canonical o' = None ∨ settled p g0 i g.

Definition owes (s : proxy_state) : Prop := holds (ps_gate s) (ps_inspection s) (ps_lease s) ∧ observed (ps_observation s) (ps_lease s) (ps_gate s).
Definition unleased (s : proxy_state) : Prop := owes s ∧ ps_lease s = None ∧ ps_observation s = None.
Definition fresh (s : proxy_state) : Prop := unleased s ∧ ps_inspection s = None.
Definition leased (s : proxy_state) : Prop := owes s ∧ ps_inspection s = None ∧ ps_observation s = None.

(** From [P], a step ends in [Q], or returns early and still owes no more. *)
Definition hoare {A} (P : proxy_state → Prop) (m : prog A) (Q : A → proxy_state → Prop) : Prop :=
  ∀ s, P s → match m s with (Some y, s') => Q y s' | (None, s') => owes s' end.

(** Predicates of what is held only. *)
Definition of_held (P : proxy_state → Prop) : Prop := ∀ s s', held s' = held s → P s → P s'.

Lemma owes_held : of_held owes.
Proof. intros s s' [= E1 E2 E3 E4]. unfold owes. by rewrite E1, E2, E3, E4. Qed.
Lemma unleased_held : of_held unleased.
Proof. intros s s' E. pose proof (owes_held s s' E). injection E as E1 E2 E3 E4. unfold unleased. rewrite E3, E4. tauto. Qed.
Lemma fresh_held : of_held fresh.
Proof. intros s s' E. pose proof (unleased_held s s' E). injection E as E1 E2 E3 E4. unfold fresh. rewrite E2. tauto. Qed.
Lemma leased_held : of_held leased.
Proof. intros s s' E. pose proof (owes_held s s' E). injection E as E1 E2 E3 E4. unfold leased. rewrite E2, E4. tauto. Qed.

Lemma hoare_bind {A B} P Q T (m : prog A) (k : A → prog B) : hoare P m Q → (∀ y, hoare (Q y) (k y) T) → hoare P (bind m k) T.
Proof. intros Hm Hk s Hs. unfold bind. specialize (Hm s Hs). destruct (m s) as [[y|] s']; [by apply Hk|done]. Qed.

Lemma hoare_quiet {A} P (m : prog A) : of_held P → (∀ s, P s → owes s) → quiet m → hoare P m (λ _, P).
Proof.
  intros HP Ho Hq s Hs. specialize (Hq s). destruct (m s) as [[y|] s']; cbn in Hq; [by apply (HP s)|]. by apply (owes_held s), Ho.
Qed.

Lemma hoare_get {A} P (k : proxy_state → prog A) Q : (∀ s, P s → match k s s with (Some y, s') => Q y s' | (None, s') => owes s' end) → hoare P (bind get k) Q.
Proof. done. Qed.

(** *** Taking *)

Definition policy_width : Prop := ∀ pr, ex_principal x = Some pr → 0 <= maxConcurrency (p_Policy pr) <= maxInt64.
Context (Hwidth : policy_width).

Lemma reserve_inspection_owes : hoare fresh (reserve_inspection ParseMediaType h x) (λ _, unleased).
Proof.
  intros s [Hu Hi]. unfold reserve_inspection. destruct (ex_principal x) as [pr|] eqn:Epr; [|done]. destruct (hn_concurrency h) as [limiter|] eqn:El; [|done].
  destruct (inspects ParseMediaType x); [|done]. cbn [bind get]. 
  destruct (ConcurrencyLimiter_Acquire limiter (key_of pr) (maxConcurrency (p_Policy pr)) (g_heap (ps_gate s))) as [r hp] eqn:EA.
  destruct Hu as ([Hh Ho] & Hl & Hob). unfold holds in Hh. rewrite Hi, Hl in Hh.
  pose proof (Acquire_provisional p g0 _ _ _ _ _ _ (Hwidth pr Epr) Hh EA) as HA.
  set (s1 := put_inspection r (put_gate (with_heap hp (ps_gate s)) s)).
  assert (unleased s1) as Hs1.
  { split; [|done]. split; [|intros o i Eo; cbn in Eo; congruence]. unfold holds. cbn. rewrite Hl. destruct r; [|done]. unfold reserved. by rewrite Epr, El. }
  destruct r as [l|]; [done|]. refine (hoare_quiet unleased (refuse (A := ()) x gatewayErrorConcurrencyLimit [] 0) unleased_held _ _ s1 Hs1); [by intros ? []|apply keeps_refuse, held_unreported].
Qed.

Lemma hoare_unleased {A} (m : prog A) : quiet m → hoare unleased m (λ _, unleased).
Proof. apply hoare_quiet; [apply unleased_held|by intros ? []]. Qed.

Lemma idle_frame g g' : g_heap g' = g_heap g → g_leases g' = g_leases g → w_reservations (g_tokens g') = w_reservations (g_tokens g) →
  bw_reservations (g_budgets g') = bw_reservations (g_budgets g) → idle p g0 g → idle p g0 g'.
Proof. intros E1 E2 E3 E4 [[K1 K2] Hu]. split; [split; by rewrite E1|]. by apply (unsettled_frame _ _ _ _ g). Qed.

Lemma writeAdmissionError_owes rejection : hoare fresh (writeAdmissionError x rejection) (λ _, fresh).
Proof.
  assert (∀ m : prog (), quiet m → hoare fresh m (λ _, fresh)) as Hq by (intros m Hm; apply hoare_quiet; [apply fresh_held|by intros ? [[]]|done]).
  unfold writeAdmissionError. destruct (ae_Resource rejection); [apply Hq, keeps_send_error, held_unreported| |destruct (ae_Invalid _); apply Hq, keeps_send_error, held_unreported].
  apply hoare_get. intros s Hs. set (r := if IsZero _ then _ else _). destruct r as [retry l]. cbn [bind modify]. apply Hq; [apply keeps_send_error, held_unreported|].
  destruct Hs as [[[Hh Ho] [Hl Hob]] Hi]. unfold fresh, unleased, owes. cbn. rewrite Hl, Hob, Hi. unfold holds in Hh. rewrite Hl, Hi in Hh.
  split_and!; [by apply (idle_frame (ps_gate s))|done|done|done|done].
Qed.

Lemma acquire_owes tokens budget : hoare unleased (acquire h x tokens budget) (λ _, leased).
Proof.
  unfold acquire. destruct (ex_principal x) as [pr|] eqn:Epr.
  2:{ intros s (Ho & Hl & Hob). split_and!; [done| |done]. destruct Ho as [Hh _]. unfold holds, reserved in Hh. rewrite Hl, Epr in Hh. by destruct (ps_inspection s). }
  apply hoare_get. intros s (Ho & Hl & Hob). set (o := lease_options pr tokens budget). destruct Ho as [Hh _]. unfold holds in Hh. rewrite Hl in Hh.
  set (r := match ps_inspection s with Some _ => _ | None => _ end).
  assert (match r.1 with Ok i => live p g0 i r.2 | Err _ => idle p g0 r.2 end) as Hr.
  { subst r. pose proof (Hwidth pr Epr) as [Hw1 Hw2]. destruct (ps_inspection s) as [l|].
    - unfold reserved in Hh. rewrite Epr in Hh. destruct (hn_concurrency h) as [limiter|] eqn:El; [|done].
      destruct (Coordinator_AcquireWithProvisional _ _ _ _ _) as [r g'] eqn:E. refine (AcquireWithProvisional_owes p g0 _ _ limiter _ _ l o _ r g' _ eq_refl eq_refl Hw1 Hh E). done.
    - destruct (Coordinator_Acquire _ _ _ _) as [r g'] eqn:E. by refine (Acquire_owes p g0 _ _ o _ r g' Hw2 Hh E). }
  destruct r as [[i|rejection] g]; cbn in Hr.
  - cbn. split_and!; [|done|done]. split; [by left|]. intros o' j E. cbn in E. congruence.
  - cbn [bind modify]. set (s1 := put_inspection None (put_gate g s)).
    assert (fresh s1) as Hf. { unfold fresh, unleased, owes, holds, observed. cbn. rewrite Hl, Hob. done. }
    refine (hoare_bind fresh (λ _, fresh) (λ _, leased) _ _ _ _ s1 Hf).
    + apply hoare_quiet; [apply fresh_held|by intros ? [[]]|apply keeps_setTerminal, held_unreported].
    + intros _. apply (hoare_bind _ (λ _, fresh)); [apply writeAdmissionError_owes|]. by intros _ s2 [[]].
Qed.

Lemma hoare_leased {A} (m : prog A) : quiet m → hoare leased m (λ _, leased).
Proof. apply hoare_quiet; [apply leased_held|by intros ? []]. Qed.

Lemma admit_owes : hoare fresh (pass_admission ParseMediaType h x) (λ _, leased).
Proof.
  unfold pass_admission. eapply hoare_bind; [apply reserve_inspection_owes|intros ?]. eapply hoare_bind; [apply hoare_unleased, keeps_inspect, held_unreported|intros [[metadata inspected] available]].
  eapply hoare_bind; [apply hoare_unleased, keeps_describe, held_unreported|intros ?]. eapply hoare_bind; [apply hoare_unleased, keeps_check_model, held_unreported|intros ?].
  eapply hoare_bind; [apply hoare_unleased, keeps_check_requests; [apply held_unreported|done]|intros ?]. eapply hoare_bind; [apply hoare_unleased, keeps_plan_tokens, held_unreported|intros tokens].
  eapply hoare_bind; [apply hoare_unleased, keeps_plan_budget, held_unreported|intros [[tokens' budget] pricing]]. eapply hoare_bind; [apply acquire_owes|intros ?].
  eapply hoare_bind; [apply hoare_leased, keeps_get|intros s].
  eapply hoare_bind; [apply hoare_leased, keeps_assert, keeps_refuse, held_unreported|intros ?].
  eapply hoare_bind; [apply hoare_leased, keeps_assert, keeps_refuse, held_unreported|intros ?]. exact (hoare_leased (ret (metadata, pricing)) (keeps_ret held _)).
Qed.

(** *** Using *)

Definition awaiting (s : proxy_state) : Prop := owes s ∧ ps_inspection s = None ∧ ∀ o, ps_observation s = Some o → ro_canonical o = None.

Lemma install_observation_owes upstream pricing : hoare leased (install_observation ParseMediaType h x upstream pricing) (λ _, awaiting).
Proof.
  assert (∀ s, leased s → awaiting s) as Hl. { intros s (? & ? & Ho). split_and!; [done|done|]. by rewrite Ho. }
  unfold install_observation. apply hoare_get. intros s Hs. destruct (_ && _); [|by apply Hl]. destruct (responseObservationCoding _) as [coding|]; [|by apply Hl].
  destruct Hs as ([Hh _] & Hi & _). cbn. split_and!; [|done|by intros o [= <-]]. split; [done|]. intros o i [= <-] _. by left.
Qed.

Lemma dispatched_owes s metadata pricing (upstream : upstreamResponse R) err d : awaiting s →
  dispatchResponse ParseMediaType (ex_surroundings x) (request_line x) metadata upstream (ps_lease s) pricing
    (mkDispatching (ps_writer s) (ps_gate s) (ps_observation s) (ps_finished s)) = Some (err, d) →
  owes (put_finished (dp_finished d) (put_observation (finish (bool_decide (is_Some err)) <$> dp_observation d) (put_gate (dp_gate d) (put_writer (dp_writer d) s)))).
Proof.
  intros ([Hh _] & Hi & Hc) E. unfold holds in Hh. rewrite Hi in Hh. unfold owes, holds. cbn. rewrite Hi.
  destruct (dispatch_gate p g0 ParseMediaType _ _ _ _ _ _ _ _ _ E) as [[Eg Ho]|(i & El & Hs)]; cbn in *.
  - rewrite Eg. split; [done|]. intros o' i Eo El. destruct Ho as [?|Ho]; [congruence|]. left.
    destruct (dp_observation d) as [o|]; [|done]. cbn in Eo. injection Eo as <-. change (ro_canonical o = None).
    destruct (ps_observation s) as [o0|]; [|done]. cbn in Ho. injection Ho as ->. by apply Hc.
  - rewrite El in *. specialize (Hs Hh). split; [by right|]. intros o' j _ [= <-]. by right.
Qed.

Lemma respond_owes metadata pricing upstream : hoare leased (respond ParseMediaType h x metadata pricing upstream) (λ _, owes).
Proof.
  unfold respond. eapply hoare_bind; [apply hoare_leased, keeps_tell, held_unreported|intros ?]. eapply hoare_bind; [apply hoare_leased; destruct (same _ _); [done|apply keeps_tell, held_unreported]|intros ?].
  eapply hoare_bind; [apply hoare_leased, keeps_install_capture, held_unreported|intros ?]. eapply hoare_bind; [apply hoare_leased, keeps_tell, held_unreported|intros ?].
  eapply hoare_bind; [apply install_observation_owes|intros ?]. apply hoare_get. intros s Hs.
  destruct (dispatchResponse _ _ _ _ _ _ _ _) as [[err d]|] eqn:E; [|apply Hs]. cbn [bind modify].
  refine (hoare_quiet owes (conclude x upstream err) owes_held (λ _ H, H) (keeps_conclude held held_unreported upstream err) _ _). by eapply dispatched_owes.
Qed.

Lemma serve_owes s : fresh s → owes (serve ParseMediaType h x s).2.
Proof.
  intros Hs. assert (hoare fresh (serve ParseMediaType h x) (λ _, owes)) as Hh; [|specialize (Hh s Hs); by destruct (serve _ _ _ s) as [[]]].
  unfold serve. eapply hoare_bind; [apply admit_owes|intros [metadata pricing]]. eapply hoare_bind; [apply hoare_leased, keeps_call_upstream; [apply held_unreported|done]|intros upstream]. apply respond_owes.
Qed.

(** *** Returning *)

Lemma ReleaseBeforeUpstream_settles clk i g : taken p g0 i g → settled p g0 i (on_lease (ResourceLease_ReleaseBeforeUpstream clk) (Some i) g).
Proof. intros Ht. apply on_lease_settles, finish_settles, Ht. Qed.

Lemma settle_unleased_gate clk hd b o g : ho_gate (settle clk hd None b o g) = g.
Proof.
  unfold settle, submit_for_completion. destruct (ro_eligible o); [|done]. destruct (bool_decide _), (ro_canonical o) as [[]|]; try done.
  all: by repeat case_match.
Qed.

Lemma settle_lifecycle_idle s : match ps_lease s with Some i => taken p g0 i (ps_gate s) | None => idle p g0 (ps_gate s) end →
  observed (ps_observation s) (ps_lease s) (ps_gate s) → idle p g0 (ps_gate (settle_lifecycle ParseMediaType h x s)).
Proof.
  intros Hh Ho. unfold settle_lifecycle, settle_observation. destruct (ps_lease s) as [i|] eqn:El.
  - destruct (negb _); [by apply ReleaseBeforeUpstream_settles|]. destruct (ps_observation s) as [o|] eqn:Eo; [|by apply conservative_settles].
    apply (settle_settles p g0 _ _ i); [done|]. by apply Ho.
  - destruct (ps_observation s); [|done]. cbn. by rewrite settle_unleased_gate.
Qed.

Lemma cleanup_idle s : owes s → idle p g0 (ps_gate (cleanup ParseMediaType h x s)).
Proof.
  intros [Hh Ho]. unfold cleanup.
  assert (∀ s, ps_gate (freeze_capture (default_terminal x s)) = ps_gate s) as -> by (intros s'; unfold default_terminal; by destruct (same _ _)).
  unfold holds in Hh. unfold release_inspection. destruct (ps_inspection s) as [l|].
  - destruct (ps_lease s) eqn:El; [done|]. unfold reserved in Hh. destruct (ex_principal x); [|done]. destruct (hn_concurrency h) as [limiter|]; [|done].
    apply settle_lifecycle_idle; cbn; rewrite El; [by eapply Release_provisional|]. by intros o i _ [=].
  - apply settle_lifecycle_idle; [by destruct (ps_lease s)|done].
Qed.
End steps.

Lemma idle_refl p g : cinv (g_heap g) p → idle p g g.
Proof. intros Hc. split; [by split|]. constructor; eauto. Qed.

(** ** Everything a request takes is returned *)

(** C2: However a request ends - refused, failed, cancelled, converted or
    delivered - the concurrency slots held afterwards are those held before it,
    for every limiter and key, and no lease, token reservation or budget
    reservation is left unsettled that was not unsettled before. *)
Theorem request_returns_everything ParseMediaType h {R} `{ReaderLaws R} (x : exchange R) p s :
  cinv (g_heap (ps_gate s)) p → policy_width x →
  ps_inspection s = None → ps_lease s = None → ps_observation s = None →
  let s' := ServeHTTP ParseMediaType h x s in
  (∀ L K, held_slots (g_heap (ps_gate s')) p L K = held_slots (g_heap (ps_gate s)) p L K) ∧
  cinv (g_heap (ps_gate s')) p ∧
  (∀ j r, g_leases (ps_gate s') !! j = Some r → rl_finalized r = false → g_leases (ps_gate s) !! j = Some r) ∧
  (∀ j r, w_reservations (g_tokens (ps_gate s')) !! j = Some r → tr_finalized r = false →
     ∃ r0, w_reservations (g_tokens (ps_gate s)) !! j = Some r0 ∧ tr_finalized r0 = false) ∧
  (∀ j r, bw_reservations (g_budgets (ps_gate s')) !! j = Some r → br_finalized r = false →
     ∃ r0, bw_reservations (g_budgets (ps_gate s)) !! j = Some r0 ∧ br_finalized r0 = false).
Proof.
  intros Hc Hw Hi Hl Ho s'.
  assert (idle p (ps_gate s) (ps_gate s')) as [[K1 K2] [U1 U2 U3]].
  { subst s'. unfold ServeHTTP. pose proof (keeps_preflight h x held held_unreported s) as [= Eg Ei El Eo]. destruct (preflight h x s) as [[[]|] s1]; cbn in *.
    - apply cleanup_idle, serve_owes; [done|]. unfold fresh, unleased, owes, holds, observed. rewrite Ei, El, Eo, Hi, Hl, Ho, Eg.
      split_and!; [by apply idle_refl|done|done|done|done].
    - rewrite Eg. by apply idle_refl. }
  split_and!; [done|done|..].
  - intros j r Hj Hf. by destruct (U1 j r Hj Hf).
  - intros j r Hj Hf. by destruct (U2 j r Hj Hf).
  - intros j r Hj Hf. by destruct (U3 j r Hj Hf).
Qed.

(** A key with a model list, request and token windows, a daily budget and
    three slots; a chat request of it, and the upstream's answer. *)
Definition demo_key : Principal :=
  mkPrincipal (str "k1") (str "team") (str "ng_k1") [] (match ParsePolicy (text "{'allowed_models': ['gpt-4*'], 'request_windows': [{'amount': 10, 'duration': '1m'}], 'token_windows': [{'amount': 50000, 'duration': '1h'}], 'budget_limits': [{'amount_micros': 90000000, 'period': 'day'}], 'max_concurrent_requests': 3}") with Ok p => p | Err _ => unrestricted TokenModeEstimate end).
Definition demo_chat (model : string) : bytes := text (("{'model': '" ++ model ++ "', 'max_tokens': 20, 'messages': []}")%string).
Definition demo_answer : upstreamResponse upstreamBody :=
  mkUpstream 200 (list_to_map [(str "Content-Type", [str "application/json"])]) [(str "Content-Type", [str "application/json"])] 2 false (Some (mkBody [str "{}"] EOF true)).
Definition demo_surroundings : surroundings := mkSurroundings demo_accepts (λ _, true) (λ _, (0, 0)) (λ _, 0) None 1700000000000000000 false (λ _, None).
Definition demo_handler : handler :=
  mkHandler (Some (mkUrl (str "/") [] (str "/") [])) true true (Some 1%positive) true (NewPricingResolver demo_pricing) true 4096 0 100 100 4096.
Definition demo_exchange (body contentType : bytes) : exchange upstreamBody :=
  mkExchange upstreamBody (Some demo_key) (mkHead (str "POST") (str "/v1/chat/completions") [contentType] (Z.of_nat (length body))) (str "/v1/chat/completions")
    (Some (body, SourceEOF)) false true (DoResponse demo_answer) false false false false false (λ _, false) None false None demo_surroundings
    1700000000000000000 1700000000000000000 demo_clocks 1700000000000000000.
Definition demo_state : proxy_state :=
  mkProxy demo_gate NewRequestLimiter demo_writer newTerminalMetadataState None 0 None None false false false None [] NoHandoff.
Definition demo_served := ServeHTTP Some demo_handler (demo_exchange (demo_chat "gpt-4") (str "application/json")) demo_state.

Lemma demo_heap_inv : cinv (g_heap (ps_gate demo_state)) ∅.
Proof. constructor; cbn; intros; set_solver. Qed.

(** The request is served under a slot, a token and a budget reservation; none is left. *)
Lemma request_returns_everything_witness :
  ps_started demo_served = true ∧ is_Some (ps_lease demo_served) ∧
  held_slots (g_heap (ps_gate demo_served)) ∅ 1%positive "k1" = 0 ∧
  ∀ j r, bw_reservations (g_budgets (ps_gate demo_served)) !! j = Some r → br_finalized r = true.
Proof.
  split; [vm_compute; reflexivity|]. split; [vm_compute; eexists; reflexivity|].
  assert (policy_width (demo_exchange (demo_chat "gpt-4") (str "application/json"))) as Hw by (intros pr [= <-]; vm_compute; split; discriminate).
  destruct (request_returns_everything Some demo_handler (demo_exchange (demo_chat "gpt-4") (str "application/json")) ∅ demo_state demo_heap_inv Hw eq_refl eq_refl eq_refl)
    as (H1 & _ & _ & _ & H2).
  split; [rewrite H1; reflexivity|]. intros j r Hj. destruct (br_finalized r) eqn:E; [done|]. destruct (H2 j r Hj E) as (r0 & Hr & _). done.
Defined.
