(* ===== verification/ProxyAdmission.v ===== *)
(** * What reaches the upstream

    The proxy of [Proxy.v] calls the upstream only for a request that passed
    every check of its key's policy, and only while it holds the reservations
    that policy asks for. *)

From Stdlib Require Import Ascii ZArith Lia ZifyBool.
From stdpp Require Import prelude strings list gmap.
From S2P Require Import Prelude Text Money Usage Windows Pricing Reservation RequestLimiter ConcurrencyLimiter TokenLimiter BudgetLimiter BudgetAccounts BudgetWorld BudgetSafety Lease Policy Auth RequestBody BodyRecorder CompletionRecord Trace CompletionOwnership UsageObservation UsageWorker HttpHeaders ResponseWriter Transfer Ingress Dispatch Proxy ProxySafety.
Local Open Scope Z_scope.

#[local] Arguments str : simpl never.

(** ** Reservations of an admitted lease *)

Lemma Reserve_unfinalized clk k windows amount l r reset l' : TokenLimiter_Reserve clk k windows amount l = (Some r, reset, l') → tr_finalized r = false.
Proof. unfold TokenLimiter_Reserve. intros E. repeat case_match; by simplify_eq. Qed.

Definition unfinalized (r : result BudgetError BudgetReservation * BudgetLimiter) : Prop := match r.1 with Ok r => br_finalized r = false | Err _ => True end.

Lemma Reserve_budget_unfinalized clk k policy candidate l : unfinalized (BudgetLimiter_Reserve clk k policy candidate l).
Proof.
  unfold BudgetLimiter_Reserve, result_bind. cbv zeta.
  repeat match goal with |- unfinalized (match ?e with _ => _ end) => destruct e end; first [exact I|reflexivity].
Qed.

(** The lease holds an unsettled reservation of each limiter it went through. *)
Record holds_reservations (o : ResourceLeaseOptions) (co : ResourceLeaseCoordinator) (i : positive) (g : gate) : Prop := {
  rv_lease : ∃ r, g_leases g !! i = Some r ∧ rl_finalized r = false ∧
    (co_tokens co = true → 0 < ro_TokenAmount o →
       ∃ t tr, rl_tokens r = Some t ∧ w_reservations (g_tokens g) !! t = Some tr ∧ tr_finalized tr = false) ∧
    (co_budgets co = true → budgetRequested o = true →
       ∃ b br, rl_budget r = Some b ∧ bw_reservations (g_budgets g) !! b = Some br ∧ br_finalized br = false);
}.

Lemma finishAdmission_reserves co ck l o g i g' : finishAdmission co ck l o g = (Ok i, g') → holds_reservations o co i g'.
Proof.
  unfold finishAdmission. destruct (admit_tokens co (ck_tokens ck) o g) as [[t|e] g1] eqn:Et; [|done].
  destruct (admit_budget co (ck_budget ck) o g1) as [[b|e] g2] eqn:Eb; [|by repeat case_match].
  unfold new_resource_lease. intros [= <- <-]. constructor. eexists. split; [apply lookup_insert_eq|]. split; [done|]. cbn.
  assert (g_tokens g2 = g_tokens g1) as E21.
  { unfold admit_budget, gate_reserve_budget in Eb. by repeat case_match; simplify_eq. }
  rewrite E21. split.
  - intros Hco Hamt. unfold admit_tokens, gate_reserve_tokens in Et. rewrite Hco in Et. destruct (Z.ltb_spec (ro_TokenAmount o) 0); [lia|].
    destruct (Z.ltb_spec 0 (ro_TokenAmount o)); [|lia]. destruct (TokenLimiter_Reserve _ _ _ _ _) as [[[r|] reset] l'] eqn:Er; [|done]. simplify_eq.
    do 2 eexists. split; [done|]. cbn. split; [apply lookup_insert_eq|]. by eapply Reserve_unfinalized.
  - intros Hco Hreq. unfold admit_budget, gate_reserve_budget in Eb. rewrite Hco, Hreq in Eb. cbn in Eb. destruct (negb _); [done|].
    destruct (BudgetLimiter_Reserve _ _ _ _ _) as [[r|] l'] eqn:Er; [|done]. simplify_eq.
    do 2 eexists. split; [done|]. cbn. split; [apply lookup_insert_eq|]. pose proof (Reserve_budget_unfinalized (ck_budget ck) (ro_KeyID o) (ro_BudgetPolicy o) (ro_BudgetCandidate o) (bw_limiter (g_budgets g1))) as Hr. by rewrite Er in Hr.
Qed.

Lemma Acquire_reserves co ck o g i g' : Coordinator_Acquire co ck o g = (Ok i, g') → holds_reservations o co i g'.
Proof. unfold Coordinator_Acquire. destruct (acquireConcurrency _ _ _ _) as [[l|e] g1]; [apply finishAdmission_reserves|done]. Qed.

Lemma AcquireWithProvisional_reserves co ck l o g i g' : Coordinator_AcquireWithProvisional co ck l o g = (Ok i, g') → holds_reservations o co i g'.
Proof. unfold Coordinator_AcquireWithProvisional. destruct (adopt_provisional _ _ _ _) as [[] g1]; [apply finishAdmission_reserves|done]. Qed.

(** ** The upstream request *)

(** Whatever the client sent, the upstream sees one authorization, the
    gateway's, and one request identifier. *)
Lemma upstream_headers_own apiKey requestID entries source : requestID ≠ [] →
  Values (upstream_headers apiKey requestID entries source) (str "Authorization") = [str "Bearer " ++ apiKey] ∧
  Values (upstream_headers apiKey requestID entries source) requestIDHeader = [requestID].
Proof.
  intros Hid. unfold upstream_headers. rewrite bool_decide_false by done. unfold Values, entry, Set_.
  split; [|by rewrite lookup_insert_eq]. rewrite lookup_insert_ne by (vm_compute; discriminate). by rewrite lookup_insert_eq.
Qed.

(** ** Plans *)

Lemma PlanReservation_positive options plan : PlanReservation options = Ok plan → 0 < TotalTokens_Int64 (plan_Total plan).
Proof.
  unfold PlanReservation. destruct (reservationInput options) as [[input source]|]; [|done]. cbn. destruct (reservationOutput options) as [[output osource]|]; [|done]. cbn.
  destruct (InputTokens_Add _ _) as [total|]; [|done]. destruct (InputTokens_Known total); [|done]. cbn. destruct (Z.leb_spec (InputTokens_Int64 total) 0); [done|].
  intros [= <-]. cbn. unfold totalTokensFromInput, NewTotalTokens, NewTokenCount. destruct (Z.ltb_spec (InputTokens_Int64 total) 0); [lia|]. done.
Qed.

Lemma PlanBudgetReservation_known options plan : bo_Required options = true → PlanBudgetReservation options = Ok plan → Money_Known (bp_Reservation plan) = true.
Proof.
  intros Hr. unfold PlanBudgetReservation. rewrite Hr. cbn [negb].
  destruct (bool_decide _); [done|]. destruct (_ <=? 0); [done|]. destruct (_ <? _); [done|]. destruct (_ || _); [done|]. destruct (negb (validateBudgetReservation _)); [done|].
  destruct (negb (PricingResolution_Known _)); [done|]. destruct (CalculateReservationCost _ _) as [cost|]; [|done]. destruct (Money_Known cost) eqn:E; [|done]. cbn [negb].
  destruct (Money_Micros cost). destruct (_ && _); [done|]. by intros [= <-].
Qed.

(** ** Steps that passed *)

Lemma bind_inv {A B} (m : prog A) (k : A → prog B) s y s' : bind m k s = (Some y, s') → ∃ z s1, m s = (Some z, s1) ∧ k z s1 = (Some y, s').
Proof. unfold bind. destruct (m s) as [[z|] s1]; [|done]. eauto. Qed.

Lemma assert_inv ok (m : prog ()) s y s' : (∀ s, (m s).1 = None) → assert ok m s = (Some y, s') → ok = true ∧ s' = s.
Proof. intros Hm. destruct ok; cbn; [by intros [= _ <-]|]. intros E. specialize (Hm s). by rewrite E in Hm. Qed.

Section passing.
Context (ParseMediaType : bytes → option bytes) (h : handler) {R : Type} `{ReaderLaws R} (x : exchange R) (pr : Principal) (Hpr : ex_principal x = Some pr).

Lemma refuse_stops {A} code param retry s : (refuse (A := A) x code param retry s).1 = None.
Proof. done. Qed.

(** What inspection learns of the request. *)
Definition inspected_metadata : option RequestMetadata :=
  if inspects ParseMediaType x then let '(_, metadata, _, _, _) := inspectRequest (ex_body x) (rq_ContentLength (ex_head x)) (hn_MaxInspected h) in metadata else None.

Lemma inspect_passed s r s' : inspect ParseMediaType h x s = (Some r, s') → r.1.1 = inspected_metadata.
Proof.
  unfold inspect, inspected_metadata. destruct (inspects _ _); [|by intros [= <- <-]].
  destruct (inspectRequest _ _ _) as [[[[body metadata] inspected] available] err]. destruct (match err with Some ErrReadRequestBody => _ | _ => _ end); [done|by intros [= <- <-]].
Qed.

Lemma check_model_passed metadata s y s' m : check_model x metadata s = (Some y, s') → metadata = Some m → rm_Model m ≠ [] → Policy_AllowsModel (p_Policy pr) (rm_Model m) = true.
Proof.
  intros E -> Hm. unfold check_model in E. rewrite bool_decide_false in E by done. apply bind_inv in E as (? & s1 & _ & E). rewrite Hpr in E. by apply assert_inv in E as [].
Qed.

Lemma check_requests_passed s y s' : check_requests h x s = (Some y, s') → hn_requestLimiter h = true → Policy_RequestWindows (p_Policy pr) ≠ [] →
  (RequestLimiter_Allow (ex_clk_requests x) (ps_requests s) (key_of pr) (Policy_RequestWindows (p_Policy pr))).1.1 = true.
Proof.
  unfold check_requests. rewrite Hpr. intros E Hh Hw. rewrite Hh in E. destruct (Policy_RequestWindows (p_Policy pr)) as [|w ws] eqn:Ew; [done|]. cbn [nonempty andb] in E.
  cbn [bind get] in E. destruct (RequestLimiter_Allow _ _ _ _) as [[allowed resetAt] l]. destruct allowed; [done|]. cbn in E. by destruct (RequestLimiter_RetryAfterSeconds _ _ _).
Qed.

Lemma tokenPlan_positive metadata inspected available plan : tokenPlan ParseMediaType h x pr metadata inspected available = Some (Some plan) → 0 < TotalTokens_Int64 (plan_Total plan).
Proof.
  unfold tokenPlan. destruct (models_listing x); [done|]. destruct (if _ : bool then _ else _) as [input quality].
  destruct (PlanReservation (mkResOptions _ _ _ _ _ input quality)) as [p1|e] eqn:E1; [intros [= <-]; by eapply PlanReservation_positive|].
  destruct e; try done; match goal with |- match ?t with _ => _ end = _ → _ => destruct t as [p2|] eqn:E2 end; try done; intros [= <-]; by eapply PlanReservation_positive.
Qed.

Lemma plan_tokens_passed metadata inspected available s tokens s' : plan_tokens ParseMediaType h x metadata inspected available s = (Some tokens, s') →
  (∀ plan, tokens = Some plan → 0 < TotalTokens_Int64 (plan_Total plan)) ∧
  (Policy_TokenWindows (p_Policy pr) ≠ [] → models_listing x = false → is_Some tokens).
Proof.
  unfold plan_tokens. rewrite Hpr. destruct (Policy_TokenWindows (p_Policy pr)); cbn [nonempty]; [by intros [= <- <-]|].
  destruct (tokenPlan _ _ _ _ _ _ _) as [plan|] eqn:E; [|done]. cbn. intros [= <- <-]. split.
  - intros plan' ->. by eapply tokenPlan_positive.
  - intros _ Hl. destruct plan; [done|]. unfold tokenPlan in E. rewrite Hl in E. by repeat case_match.
Qed.

Definition positive_plan (tokens : option ReservationPlan) : Prop := ∀ plan, tokens = Some plan → 0 < TotalTokens_Int64 (plan_Total plan).

Lemma plan_budget_passed metadata inspected available tokens s tokens' budget pricing s' : positive_plan tokens →
  plan_budget ParseMediaType h x metadata inspected available tokens s = (Some (tokens', budget, pricing), s') →
  positive_plan tokens' ∧ (is_Some tokens → is_Some tokens') ∧
  (budgeted (p_Policy pr) = true → models_listing x = false → hn_budgetLimiter h = true ∧ ∃ b, budget = Some b ∧ Money_Known (bp_Reservation b) = true).
Proof.
  intros Hpos. unfold plan_budget. rewrite Hpr. destruct (budgeted (p_Policy pr)); cbn [negb orb]; [|by intros [= -> <- <- _]].
  destruct (models_listing x) eqn:El; [by intros [= -> <- <- _]|]. destruct (hn_budgetLimiter h); [|intros E; discriminate (f_equal fst E)].
  destruct (present (hn_resolver h)); [|intros E; discriminate (f_equal fst E)]. cbn [negb orb].
  destruct (_ && _); [|intros E; discriminate (f_equal fst E)]. destruct metadata as [m|]; [|intros E; discriminate (f_equal fst E)].
  set (chosen := match tokens with Some _ => _ | None => _ end).
  assert (positive_plan chosen) as Hc.
  { subst chosen. destruct tokens as [plan|]; [done|]. intros plan Hp. destruct (tokenPlan _ _ _ _ _ _ _) as [[?|]|] eqn:E; cbn in Hp; simplify_eq. by eapply tokenPlan_positive. }
  destruct chosen as [plan|]; [|intros E; discriminate (f_equal fst E)].
  destruct (PlanBudgetReservation _) as [b|] eqn:E; [|intros E'; discriminate (f_equal fst E')]. cbn. intros [= <- <- _ _].
  split; [done|]. split; [done|]. intros _ _. split; [done|]. exists b. split; [done|]. exact (PlanBudgetReservation_known (mkBudgetOptions true (rm_Model m) (hn_MaxInspected h) plan (hn_resolver h)) b eq_refl E).
Qed.

Lemma acquire_passed tokens budget s y s' : acquire h x tokens budget s = (Some y, s') →
  ∃ i, ps_lease s' = Some i ∧ holds_reservations (lease_options pr tokens budget) (hn_coordinator h) i (ps_gate s').
Proof.
  unfold acquire. rewrite Hpr. cbn [bind get]. set (r := match ps_inspection s with Some _ => _ | None => _ end). intros E.
  destruct r as [[i|rejection] g] eqn:Er; cbn in E.
  - injection E; intros <- _. exists i. split; [done|]. cbn. subst r. destruct (ps_inspection s); [by eapply AcquireWithProvisional_reserves|by eapply Acquire_reserves].
  - apply bind_inv in E as (? & s2 & _ & E). discriminate (f_equal fst E).
Qed.

(** The state in which the upstream is called. *)
Record admitted (s s1 : proxy_state) : Prop := {
  ad_model : ∀ m, inspected_metadata = Some m → rm_Model m ≠ [] → Policy_AllowsModel (p_Policy pr) (rm_Model m) = true;
  ad_requests : hn_requestLimiter h = true → Policy_RequestWindows (p_Policy pr) ≠ [] →
    (RequestLimiter_Allow (ex_clk_requests x) (ps_requests s) (key_of pr) (Policy_RequestWindows (p_Policy pr))).1.1 = true;
  ad_current : hn_budgetLimiter h = true → BudgetLimiter_PolicyCurrent (key_of pr) (budgetPolicy (p_Policy pr)) (bw_limiter (g_budgets (ps_gate s1))) = true;
  ad_lease : ∃ i r, ps_lease s1 = Some i ∧ g_leases (ps_gate s1) !! i = Some r ∧ rl_finalized r = false ∧
    (Policy_TokenWindows (p_Policy pr) ≠ [] → models_listing x = false →
       ∃ t tr, rl_tokens r = Some t ∧ w_reservations (g_tokens (ps_gate s1)) !! t = Some tr ∧ tr_finalized tr = false) ∧
    (budgeted (p_Policy pr) = true → models_listing x = false →
       ∃ b br, rl_budget r = Some b ∧ bw_reservations (g_budgets (ps_gate s1)) !! b = Some br ∧ br_finalized br = false);
}.

Lemma requests_unreported : unreported ps_requests.
Proof. by constructor. Qed.

Lemma admit_passed s metadata pricing s1 : pass_admission ParseMediaType h x s = (Some (metadata, pricing), s1) → metadata = inspected_metadata ∧ admitted s s1.
Proof.
  unfold pass_admission. intros E. apply bind_inv in E as (? & sa & Ea & E). apply bind_inv in E as ([[md inspected] available] & sb & Eb & E).
  apply bind_inv in E as (? & sc & Ec & E). apply bind_inv in E as (? & sd & Ed & E). apply bind_inv in E as (? & se & Ee & E).
  apply bind_inv in E as (tokens & sf & Ef & E). apply bind_inv in E as ([[tokens' budget] pricing'] & sg & Eg & E). apply bind_inv in E as (? & sh & Eh & E).
  apply bind_inv in E as (sh' & sh'' & [= <- <-] & E). apply bind_inv in E as (? & si & Ei & E). apply bind_inv in E as (? & sj & Ej & [= <- <- <-]).
  apply assert_inv in Ei as [Hcur ->]; [|apply refuse_stops]. apply assert_inv in Ej as [_ ->]; [|apply refuse_stops].
  pose proof (inspect_passed _ _ _ Eb) as Hmd. cbn in Hmd. split; [done|]. subst md.
  assert (ps_requests sd = ps_requests s) as Hreq.
  { pose proof (keeps_reserve_inspection ParseMediaType h x _ requests_unreported (λ _ _, eq_refl) (λ _ _, eq_refl) s) as H1. rewrite Ea in H1.
    pose proof (keeps_inspect ParseMediaType h x _ requests_unreported sa) as H2. rewrite Eb in H2.
    pose proof (keeps_describe x _ requests_unreported inspected_metadata sb) as H3. rewrite Ec in H3.
    pose proof (keeps_check_model x _ requests_unreported inspected_metadata sc) as H4. rewrite Ed in H4. cbn in *. congruence. }
  destruct (plan_tokens_passed _ _ _ _ _ _ Ef) as [Hpos Htok]. destruct (plan_budget_passed _ _ _ _ _ _ _ _ _ Hpos Eg) as (Hpos' & Hkeep & Hbud).
  destruct (acquire_passed _ _ _ _ _ Eh) as (i & Hi & [(r & Hr & Hf & Ht & Hb)]). constructor.
  - intros m Hm. by apply (check_model_passed _ _ _ _ _ Ed).
  - rewrite <-Hreq. by eapply check_requests_passed.
  - intros Hl. unfold policy_current in Hcur. by rewrite Hpr, Hl in Hcur.
  - exists i, r. split_and!; [done|done|done|..].
    + intros Hw Hl. apply Ht; [done|]. destruct (Hkeep (Htok Hw Hl)) as [plan ->]. by apply Hpos'.
    + intros Hw Hl. destruct (Hbud Hw Hl) as (Hbl & b & -> & Hk). apply Hb; [done|]. unfold budgetRequested. cbn. rewrite Hk. apply orb_true_r.
Qed.
End passing.

(** ** The upstream *)

Section upstream.
Context (ParseMediaType : bytes → option bytes) (h : handler) {R : Type} `{ReaderLaws R} (x : exchange R).

Lemma started_unreported : unreported ps_started.
Proof. by constructor. Qed.

Lemma admit_unstarted : keeps ps_started (pass_admission ParseMediaType h x).
Proof.
  pose proof started_unreported as U. unfold pass_admission.
  apply keeps_bind; [by apply keeps_reserve_inspection|intros _]. apply keeps_bind; [by apply keeps_inspect|intros [[metadata inspected] available]].
  apply keeps_bind; [by apply keeps_describe|intros _]. apply keeps_bind; [by apply keeps_check_model|intros _]. apply keeps_bind; [by apply keeps_check_requests|intros _].
  apply keeps_bind; [by apply keeps_plan_tokens|intros tokens]. apply keeps_bind; [by apply keeps_plan_budget|intros [[tokens' budget] pricing]].
  apply keeps_bind; [by apply keeps_acquire|intros _]. apply keeps_bind; [apply keeps_get|intros s].
  apply keeps_bind; [by apply keeps_assert, keeps_refuse|intros _]. apply keeps_bind; [by apply keeps_assert, keeps_refuse|intros _]. apply keeps_ret.
Qed.

Lemma cleanup_started s : ps_started (cleanup ParseMediaType h x s) = ps_started s.
Proof.
  unfold cleanup. transitivity (ps_started (settle_lifecycle ParseMediaType h x (release_inspection s))).
  - cbn. unfold default_terminal. by destruct (same _ _).
  - transitivity (ps_started (release_inspection s)); [unfold settle_lifecycle, settle_observation; by repeat case_match|].
    unfold release_inspection. by destruct (ps_inspection s).
Qed.
End upstream.

(** C3: The upstream is called only for an admitted request: if it was called,
    the request went through a state [s1] from which the handler went on to the
    call, in which the model named by an inspected body is allowed by the key's
    policy, the request limiter let the request pass, the budget policy was
    still current, and the lease held an unsettled token reservation if the key
    has token windows and an unsettled budget reservation if it has a budget
    (the listing of models takes neither). *)
Theorem upstream_only_if_admitted ParseMediaType h {R} `{ReaderLaws R} (x : exchange R) pr s :
  ex_principal x = Some pr → ps_started s = false → ps_started (ServeHTTP ParseMediaType h x s) = true →
  ∃ metadata pricing s1, metadata = inspected_metadata ParseMediaType h x ∧ admitted ParseMediaType h x pr s s1 ∧
    ServeHTTP ParseMediaType h x s = cleanup ParseMediaType h x (bind (call_upstream x) (respond ParseMediaType h x metadata pricing) s1).2.
Proof.
  intros Hpr Hs Hs'. unfold ServeHTTP in *. pose proof (keeps_preflight h x _ started_unreported s) as Hp. pose proof (keeps_preflight h x _ requests_unreported s) as Hr.
  destruct (preflight h x s) as [[[]|] s0]; cbn in Hp, Hr; [|congruence]. rewrite cleanup_started in Hs'. unfold serve in *.
  pose proof (admit_unstarted ParseMediaType h x s0) as Ha. unfold bind at 1 in Hs'. unfold bind at 1.
  destruct (pass_admission ParseMediaType h x s0) as [[[metadata pricing]|] s1] eqn:E; cbn in Ha, Hs'; [|congruence].
  destruct (admit_passed ParseMediaType h x pr Hpr _ _ _ _ E) as [Hm Had]. exists metadata, pricing, s1. split; [done|]. split; [|done].
  destruct Had as [A1 A2 A3 A4]. constructor; [done| |done|done]. by rewrite <-Hr.
Qed.

Lemma upstream_only_if_admitted_witness :
  ∃ metadata, inspected_metadata Some demo_handler (demo_exchange (demo_chat "gpt-4") (str "application/json")) = Some metadata ∧
    Policy_AllowsModel (p_Policy demo_key) (rm_Model metadata) = true ∧ budgeted (p_Policy demo_key) = true.
Proof.
  assert (ps_started demo_served = true) as Hs by (vm_compute; reflexivity).
  destruct (upstream_only_if_admitted Some demo_handler (demo_exchange (demo_chat "gpt-4") (str "application/json")) demo_key demo_state eq_refl eq_refl Hs) as (_ & _ & s1 & _ & [Hm _ _ _] & _).
  assert (∃ m, inspected_metadata Some demo_handler (demo_exchange (demo_chat "gpt-4") (str "application/json")) = Some m ∧ rm_Model m = str "gpt-4") as (m & Em & Er)
    by (vm_compute; eexists; split; reflexivity).
  exists m. split; [exact Em|]. split; [|vm_compute; reflexivity]. apply Hm; [exact Em|]. rewrite Er. discriminate.
Defined.

(** A key restricted to the models [gpt-4*], without a budget. *)
Definition demo_restricted : Principal :=
  mkPrincipal (str "k2") (str "team") (str "ng_k2") [] (match ParsePolicy (text "{'allowed_models': ['gpt-4*']}") with Ok p => p | Err _ => unrestricted TokenModeEstimate end).
Definition as_restricted (x : exchange upstreamBody) : exchange upstreamBody :=
  mkExchange upstreamBody (Some demo_restricted) (ex_head x) (ex_escapedPath x) (ex_body x) (ex_bodyTooLarge x) (ex_requestValid x) (ex_do x) (ex_uploadExceeded x)
    (ex_cancelled_do x) (ex_deadline_do x) (ex_cancelled_end x) (ex_deadline_end x) (ex_context_error x) (ex_completion x) (ex_transfers x) (ex_request_snapshot x)
    (ex_surroundings x) (ex_clk_requests x) (ex_clk_retry x) (ex_clocks x) (ex_clk_settle x).

(** The model list binds only the bodies that are inspected: the same request
    for a model outside the list is refused when it is sent as JSON, and
    forwarded when its content type says it is not. *)
Example model_list_skipped_when_uninspected :
  let refused := ServeHTTP Some demo_handler (as_restricted (demo_exchange (demo_chat "claude") (str "application/json"))) demo_state in
  let forwarded := ServeHTTP Some demo_handler (as_restricted (demo_exchange (demo_chat "claude") (str "text/plain"))) demo_state in
  Policy_AllowsModel (p_Policy demo_restricted) (str "claude") = false ∧
  ps_started refused = false ∧ w_status (ps_writer refused) = 403 ∧
  ps_started forwarded = true ∧ w_status (ps_writer forwarded) = 200.
Proof. vm_compute. split_and!; reflexivity. Qed.
