(* ===== verification/ProxyOutcome.v ===== *)
(** * The recorded outcome of a request

    Every request that the proxy of [Proxy.v] serves leaves one terminal
    outcome, and the flag it carries tells whether the upstream was called. *)

From Stdlib Require Import Ascii ZArith Lia ZifyBool.
From stdpp Require Import prelude strings list gmap.
From S2P Require Import Prelude Text Money Usage Windows Pricing Reservation RequestLimiter ConcurrencyLimiter TokenLimiter BudgetLimiter Lease Policy Auth RequestBody BodyRecorder CompletionRecord Trace CompletionOwnership UsageObservation UsageWorker HttpHeaders ResponseWriter Transfer Ingress Dispatch Proxy ProxySafety.
Local Open Scope Z_scope.

#[local] Arguments str : simpl never.

(** No outcome yet; and an outcome, if there is one, that tells the truth. *)
Definition undecided (s : proxy_state) : Prop := Outcome (ps_terminal s) = TerminalOutcomeUnknown.
Definition truthful (s : proxy_state) : Prop := undecided s ∨ UpstreamStarted (ps_terminal s) = ps_started s.

(** A step goes on undecided, or stops with the truth. *)
Definition honest {A} (m : prog A) : Prop := ∀ s, undecided s → match m s with (Some _, s') => undecided s' | (None, s') => truthful s' end.

Lemma honest_bind {A B} (m : prog A) (k : A → prog B) : honest m → (∀ y, honest (k y)) → honest (bind m k).
Proof. intros Hm Hk s Hs. unfold bind. specialize (Hm s Hs). destruct (m s) as [[y|] s1]; [by apply Hk|done]. Qed.
Lemma honest_ret {A} (y : A) : honest (ret y).
Proof. intros s Hs. exact Hs. Qed.
Lemma honest_get : honest get.
Proof. intros s Hs. exact Hs. Qed.
Lemma honest_modify f : (∀ s, ps_terminal (f s) = ps_terminal s) → honest (modify f).
Proof. intros Hf s Hs. cbn. unfold undecided. by rewrite Hf. Qed.
Lemma honest_assert ok m : honest m → honest (assert ok m).
Proof. destruct ok; [intros _; apply honest_ret|done]. Qed.

(** A known outcome is either kept or replaced by one that is known. *)
Lemma set_known outcome b t : outcome ≠ TerminalOutcomeUnknown → Outcome (terminalMetadataState_set (mkTerminal outcome b) t) ≠ TerminalOutcomeUnknown.
Proof. intros Ho. unfold terminalMetadataState_set. destruct (same (Outcome t) TerminalOutcomeUnknown) eqn:E; cbn; [done|]. destruct (negb _); [|done]. by apply bool_decide_eq_false in E. Qed.

Lemma set_undecided m t : Outcome t = TerminalOutcomeUnknown → terminalMetadataState_set m t = m.
Proof. intros E. unfold terminalMetadataState_set. by rewrite E. Qed.

Create HintDb honest.
#[local] Hint Resolve honest_bind honest_ret honest_get honest_modify honest_assert : honest.
Ltac honest := repeat first
  [ progress intros | apply honest_ret | apply honest_get | solve [eauto with honest] | apply honest_bind
  | match goal with |- context [match ?e with _ => _ end] => destruct e end | progress cbn beta iota ].

Section steps.
Context (ParseMediaType : bytes → option bytes) (h : handler) {R : Type} `{ReaderLaws R} (x : exchange R).

Lemma setTerminal_truthful outcome s : truthful s → truthful (setTerminal x outcome s).2.
Proof.
  intros Hs. unfold truthful, undecided in *. cbn. unfold terminalMetadataState_set. destruct (same (Outcome (ps_terminal s)) TerminalOutcomeUnknown) eqn:E; cbn; [by right|].
  destruct (negb _); [done|by right].
Qed.

Lemma stopped_truthful outcome {A} (m : prog ()) : keeps (λ s, (ps_terminal s, ps_started s)) m → honest (A := A) (setTerminal x outcome ;; m ;; stop)%prog.
Proof.
  intros Hm s Hs. pose proof (setTerminal_truthful outcome s (or_introl Hs)) as Ht. unfold bind. destruct (setTerminal x outcome s) as [[y|] s1] eqn:E; [|done]. cbn in Ht.
  specialize (Hm s1). destruct (m s1) as [[z|] s2]; cbn in *; injection Hm as E1 E2; unfold truthful, undecided in *; by rewrite E1, E2.
Qed.

Lemma keeps_send_error_outcome code param retry : keeps (λ s, (ps_terminal s, ps_started s)) (send_error x code param retry).
Proof. by apply keeps_modify. Qed.
#[local] Hint Resolve keeps_send_error_outcome : honest.

Lemma honest_tell op : honest (tell x op).
Proof. by apply honest_modify. Qed.
Lemma honest_send_error code param retry : honest (send_error x code param retry).
Proof. by apply honest_modify. Qed.
Lemma honest_refuse {A} code param retry : honest (refuse (A := A) x code param retry).
Proof. apply stopped_truthful, keeps_send_error_outcome. Qed.
Lemma honest_fail_with {A} outcome code : honest (fail_with (A := A) x outcome code).
Proof. apply stopped_truthful, keeps_send_error_outcome. Qed.
Lemma honest_refuse_late {A} code : honest (refuse_late (A := A) x code).
Proof. unfold refuse_late. apply honest_bind; [apply honest_send_error|intros _]. intros s Hs. apply (setTerminal_truthful TerminalOutcomePreUpstream s). by left. Qed.
#[local] Hint Resolve honest_tell honest_send_error honest_refuse honest_fail_with honest_refuse_late : honest.

Lemma honest_recordBodyTooLarge : honest (modify (λ s, let '(l, n) := recordBodyTooLarge (ps_limit s) (ps_tooLarge s) in put_tooLarge n (put_limit l s))).
Proof. apply honest_modify. intros s. by destruct (recordBodyTooLarge _ _). Qed.
#[local] Hint Resolve honest_recordBodyTooLarge : honest.

Lemma honest_reserve_inspection : honest (reserve_inspection ParseMediaType h x).
Proof. unfold reserve_inspection. honest. Qed.
Lemma honest_inspect : honest (inspect ParseMediaType h x).
Proof. unfold inspect. honest. Qed.
Lemma honest_check_model metadata : honest (check_model x metadata).
Proof. unfold check_model. honest. Qed.
Lemma honest_check_requests : honest (check_requests h x).
Proof. unfold check_requests. honest. Qed.
Lemma honest_plan_tokens metadata inspected available : honest (plan_tokens ParseMediaType h x metadata inspected available).
Proof. unfold plan_tokens. honest. Qed.
Lemma honest_plan_budget metadata inspected available tokens : honest (plan_budget ParseMediaType h x metadata inspected available tokens).
Proof. unfold plan_budget. honest. Qed.

Lemma keeps_writeAdmissionError_outcome rejection : keeps (λ s, (ps_terminal s, ps_started s)) (writeAdmissionError x rejection).
Proof.
  unfold writeAdmissionError. destruct (ae_Resource rejection); [by apply keeps_modify| |destruct (ae_Invalid _); by apply keeps_modify].
  apply keeps_bind; [done|intros s]. set (r := if IsZero _ then _ else _). destruct r. apply keeps_bind; by intros.
Qed.
#[local] Hint Resolve stopped_truthful keeps_writeAdmissionError_outcome : honest.
Lemma honest_acquire tokens budget : honest (acquire h x tokens budget).
Proof. unfold acquire. honest. Qed.

Lemma honest_preflight : is_Some (hn_baseURL h) → honest (preflight h x).
Proof. intros [u Hu]. unfold preflight. rewrite Hu. honest. Qed.

Lemma honest_admit : honest (pass_admission ParseMediaType h x).
Proof.
  unfold pass_admission. apply honest_bind; [apply honest_reserve_inspection|intros _]. apply honest_bind; [apply honest_inspect|intros [[metadata inspected] available]].
  apply honest_bind; [apply honest_tell|intros _]. apply honest_bind; [apply honest_check_model|intros _]. apply honest_bind; [apply honest_check_requests|intros _].
  apply honest_bind; [apply honest_plan_tokens|intros tokens]. apply honest_bind; [apply honest_plan_budget|intros [[tokens' budget] pricing]].
  apply honest_bind; [apply honest_acquire|intros _]. honest.
Qed.

Lemma honest_call_upstream : honest (call_upstream x).
Proof.
  unfold call_upstream. honest. all: try apply honest_modify. all: done.
Qed.

(** After the call, every step keeps to the truth. *)
Definition candid {A} (m : prog A) : Prop := ∀ s, truthful s → truthful (m s).2.

Lemma candid_bind {A B} (m : prog A) (k : A → prog B) : candid m → (∀ y, candid (k y)) → candid (bind m k).
Proof. intros Hm Hk s Hs. unfold bind. specialize (Hm s Hs). destruct (m s) as [[y|] s1]; [by apply Hk|done]. Qed.

Lemma candid_keeps {A} (m : prog A) : keeps (λ s, (ps_terminal s, ps_started s)) m → candid m.
Proof. intros Hm s Hs. injection (Hm s) as E1 E2. unfold truthful, undecided. by rewrite E1, E2. Qed.

Lemma outcome_keeps_tell op : keeps (λ s, (ps_terminal s, ps_started s)) (tell x op).
Proof. by apply keeps_modify. Qed.

Lemma candid_conclude upstream err : candid (conclude x upstream err).
Proof.
  assert (∀ outcome, candid (setTerminal x outcome)) as Hs by (intros outcome s; apply setTerminal_truthful).
  assert (∀ code outcome, candid (tell x (OpErrorCode code) ;; setTerminal x outcome)%prog) as Ht
    by (intros code outcome; apply candid_bind; [apply candid_keeps, outcome_keeps_tell|intros _; apply Hs]).
  unfold conclude. destruct err as [e|]; (destruct (ex_cancelled_end x); [apply Hs|]); (destruct (ex_deadline_end x); [apply Ht|]); [|apply Hs].
  destruct (ex_context_error x e); [apply Hs|]. apply candid_bind; [by apply candid_keeps|intros s]. apply candid_bind; [|intros _; apply Hs].
  apply candid_keeps. destruct (error_code_unset s); [apply outcome_keeps_tell|done].
Qed.

Lemma candid_respond metadata pricing upstream : candid (respond ParseMediaType h x metadata pricing upstream).
Proof.
  unfold respond.
  apply candid_bind; [apply candid_keeps, outcome_keeps_tell|intros _]. apply candid_bind; [apply candid_keeps; destruct (same _ _); [done|apply outcome_keeps_tell]|intros _].
  apply candid_bind; [apply candid_keeps; unfold install_capture; repeat (case_match || (apply keeps_bind; intros)); done|intros _].
  apply candid_bind; [apply candid_keeps, outcome_keeps_tell|intros _].
  apply candid_bind; [apply candid_keeps; unfold install_observation; apply keeps_bind; [done|intros s; by repeat case_match]|intros _].
  apply candid_bind; [by apply candid_keeps|intros s]. destruct (dispatchResponse _ _ _ _ _ _ _ _) as [[err d]|]; [|by apply candid_keeps].
  apply candid_bind; [by apply candid_keeps|intros _]. apply candid_conclude.
Qed.

Lemma serve_truthful s : undecided s → truthful (serve ParseMediaType h x s).2.
Proof.
  intros Hs. unfold serve, bind. pose proof (honest_admit s Hs) as Ha. destruct (pass_admission ParseMediaType h x s) as [[[metadata pricing]|] s1]; [|done].
  pose proof (honest_call_upstream s1 Ha) as Hc. destruct (call_upstream x s1) as [[upstream|] s2]; [|done]. apply candid_respond. by left.
Qed.

Lemma cleanup_decides s : truthful s → ¬ undecided (cleanup ParseMediaType h x s) ∧ UpstreamStarted (ps_terminal (cleanup ParseMediaType h x s)) = ps_started (cleanup ParseMediaType h x s).
Proof.
  intros Hs. unfold cleanup. set (s1 := settle_lifecycle _ _ _ _).
  assert (truthful s1) as H1.
  { assert ((ps_terminal s1, ps_started s1) = (ps_terminal s, ps_started s)) as [= E1 E2]; [|unfold truthful, undecided; by rewrite E1, E2].
    subst s1. unfold settle_lifecycle, settle_observation, release_inspection. by repeat case_match. }
  clearbody s1. unfold undecided. cbn. unfold default_terminal. destruct (same (Outcome (ps_terminal s1)) TerminalOutcomeUnknown) eqn:E.
  - apply bool_decide_eq_true in E. cbn. rewrite (set_undecided _ _ E). cbn. split; [by destruct (ps_started s1)|done].
  - apply bool_decide_eq_false in E. destruct H1; [done|]. done.
Qed.
End steps.

Lemma refuse_decides {R} `{ReaderLaws R} (x : exchange R) s s1 : undecided s →
  (∃ s0, ps_terminal s0 = ps_terminal s ∧ refuse (A := ()) x gatewayErrorInvalidAPIKey [] 0 s0 = (None, s1)) →
  Outcome (ps_terminal s1) ≠ TerminalOutcomeUnknown ∧ UpstreamStarted (ps_terminal s1) = ps_started s1.
Proof. intros Hs (s0 & E0 & E). apply (f_equal snd) in E. cbn in E. subst s1. cbn. rewrite set_undecided; [done|]. by rewrite E0. Qed.

(** C22: Every request ends with a recorded outcome, whatever path it took, and
    the outcome's flag says whether the upstream was called. *)
Theorem every_request_has_outcome ParseMediaType h {R} `{ReaderLaws R} (x : exchange R) s :
  undecided s → ps_started s = false →
  let s' := ServeHTTP ParseMediaType h x s in
  ¬ undecided s' ∧ UpstreamStarted (ps_terminal s') = ps_started s'.
Proof.
  intros Hs Hst s'. subst s'. unfold ServeHTTP. destruct (hn_baseURL h) as [u|] eqn:Eu.
  2:{ unfold preflight. rewrite Eu. cbn. rewrite (set_undecided _ _ Hs). by rewrite Hst. }
  pose proof (honest_preflight h x (ex_intro _ u Eu) s Hs) as Hp. destruct (preflight h x s) as [[[]|] s1] eqn:E.
  - apply cleanup_decides, serve_truthful, Hp.
  - unfold preflight in E. rewrite Eu in E. apply (refuse_decides x s s1 Hs).
    destruct (ex_principal x) as [pr|]; cbn in E; (destruct (policy_current h x _); [discriminate (f_equal fst E)|]); eexists; (split; [|exact E]); done.
Qed.

Lemma every_request_has_outcome_witness :
  Outcome (ps_terminal demo_served) ≠ TerminalOutcomeUnknown ∧ UpstreamStarted (ps_terminal demo_served) = ps_started demo_served.
Proof. exact (every_request_has_outcome Some demo_handler (demo_exchange (demo_chat "gpt-4") (str "application/json")) demo_state eq_refl eq_refl). Defined.
