(* ===== verification/KeyStore.v ===== *)
(** * The key table ([internal/storage/api_keys.go])

    The repository of gateway keys.  The table is a map from primary keys to
    rows with the constraints of the schema; a statement is a function on it,
    and its failure an argument.  The list is read in pages whose cursors are
    sealed by an authenticated cipher, which is a parameter. *)

From Stdlib Require Import Ascii ZArith Lia ZifyBool.
From stdpp Require Import prelude strings list gmap sorting.
From S2P Require Import Prelude Text Utf8 Json GatewayKey CompletionRecord InputSecurity Policy Auth.
Local Open Scope Z_scope.

#[local] Arguments str : simpl never.

(** ** Records and rows *)

Inductive store_error := ErrNotFound | ErrConflict | ErrInvalidKeyRecord | ErrInvalidCursor | ErrDatabase | ErrStoredPolicy.

#[export] Instance store_error_eq_dec : EqDecision store_error.
Proof. solve_decision. Defined.

Definition HMACDigestSize : nat := 32.
Definition maxAPIKeyListLimit : Z := 500.
Definition maxAPIKeyCursorBytes : nat := MaxCursorBytes.

Record APIKeyRecord := mkKey {
  k_ID : bytes; k_Name : bytes; k_DisplayPrefix : bytes; k_Digest : bytes; k_Enabled : bool; k_ExpiresAt : option Z;
  k_CreatedAt : Z; k_UpdatedAt : Z; k_PolicyJSON : bytes; k_Prefix : bytes; k_KeyHash : bytes }.

Definition identityValues (r : APIKeyRecord) : option (bytes * bytes) :=
  prefix ← either (k_DisplayPrefix r) (k_Prefix r); digest ← either (k_Digest r) (k_KeyHash r); Some (prefix, digest).

Definition validTimestamp (t : Z) : bool := negb (IsZero t) && (t mod second =? 0).

Definition Validate (r : APIKeyRecord) : option store_error :=
  match identityValues r with
  | None => Some ErrInvalidKeyRecord
  | Some (prefix, digest) =>
      if negb (ValidateIdentifier (k_ID r)) || TrimSpace_empty (k_Name r) || TrimSpace_empty prefix then Some ErrInvalidKeyRecord
      else if negb (length digest =? HMACDigestSize)%nat then Some ErrInvalidKeyRecord
      else if negb (validTimestamp (k_CreatedAt r)) || negb (validTimestamp (k_UpdatedAt r)) then Some ErrInvalidKeyRecord
      else if k_UpdatedAt r <? k_CreatedAt r then Some ErrInvalidKeyRecord
      else match k_ExpiresAt r with
           | Some e => if validTimestamp e then None else Some ErrInvalidKeyRecord
           | None => None
           end
  end.

(** A row of [api_keys]; times are seconds. *)
Record row := mkRow {
  row_id : bytes; row_name : bytes; row_prefix : bytes; row_hash : bytes; row_enabled : bool; row_expires : option Z;
  row_created : Z; row_updated : Z; row_policy : bytes; row_seq : Z }.

(** The table and the next value of its insertion sequence. *)
Record table := mkTable { tb_rows : gmap bytes row; tb_next : Z }.

Definition rows (t : table) : list row := (map_to_list (tb_rows t)).*2.
Definition new_table : table := mkTable ∅ 1.

(** [length(trim(x)) > 0] in SQLite: blanks are trimmed, a length ends at a NUL. *)
Definition sql_nonblank (s : bytes) : bool :=
  match trim_left " "%char s with [] => false | c :: _ => negb (code c =? 0) end.

(** The row the repository writes violates a constraint of the table. *)
Definition violates (r : row) (t : table) : bool :=
  negb (sql_nonblank (row_id r)) || negb (sql_nonblank (row_name r)) || negb (sql_nonblank (row_prefix r)) ||
  negb (length (row_hash r) =? 32)%nat ||
  existsb (λ q, same (row_id q) (row_id r) || same (row_hash q) (row_hash r) || same (row_prefix q) (row_prefix r)) (rows t).

(** ** Reading a row *)

(** [time.Unix(value, 0)], refused when it is the zero time. *)
Definition unixTimestamp (value : Z) : option Z := if IsZero (value * second) then None else Some (value * second).

Definition scanAPIKey (r : row) : result store_error APIKeyRecord :=
  match unixTimestamp (row_created r), unixTimestamp (row_updated r) with
  | Some created, Some updated =>
      let record := mkKey (row_id r) (row_name r) (row_prefix r) (row_hash r) (row_enabled r) ((λ e, e * second) <$> row_expires r)
                      created updated (row_policy r) (row_prefix r) (row_hash r) in
      match Validate record with Some e => Err e | None => Ok record end
  | _, _ => Err ErrInvalidKeyRecord
  end.

(** ** Statements *)

Definition Insert (fails : bool) (record : APIKeyRecord) (t : table) : option store_error * table :=
  match Validate record with
  | Some e => (Some e, t)
  | None =>
      match identityValues record with
      | None => (Some ErrInvalidKeyRecord, t)
      | Some (prefix, digest) =>
          if fails then (Some ErrDatabase, t)
          else
            let r := mkRow (k_ID record) (k_Name record) prefix digest (k_Enabled record) (Unix <$> k_ExpiresAt record)
                       (Unix (k_CreatedAt record)) (Unix (k_UpdatedAt record)) (k_PolicyJSON record) (tb_next t) in
            if violates r t then (Some ErrConflict, t)
            else (None, mkTable (<[row_id r := r]> (tb_rows t)) (tb_next t + 1))
      end
  end.

(** A query that identifies at most one row. *)
Definition lookup_key (fails : bool) (found : option row) : result store_error APIKeyRecord :=
  if fails then Err ErrDatabase else match found with None => Err ErrNotFound | Some r => scanAPIKey r end.

Definition GetByID (fails : bool) (id : bytes) (t : table) : result store_error APIKeyRecord :=
  if negb (ValidateIdentifier id) then Err ErrInvalidKeyRecord else lookup_key fails (tb_rows t !! id).

Definition LookupByDisplayPrefix (fails : bool) (prefix : bytes) (t : table) : result store_error APIKeyRecord :=
  if TrimSpace_empty prefix then Err ErrInvalidKeyRecord else lookup_key fails (List.find (λ r, same (row_prefix r) prefix) (rows t)).

(** SQLite compares text byte by byte. *)
Fixpoint bytes_lt (a b : bytes) : bool :=
  match a, b with
  | [], [] => false
  | [], _ :: _ => true
  | _ :: _, [] => false
  | c :: a, d :: b => if code c <? code d then true else if code d <? code c then false else bytes_lt a b
  end.

Definition by_id (r q : row) : bool := bytes_lt (row_id r) (row_id q).

Definition ListKeys (fails : bool) (t : table) : result store_error (list APIKeyRecord) :=
  if fails then Err ErrDatabase else foldr (λ r acc, let? k := scanAPIKey r in let? ks := acc in Ok (k :: ks)) (Ok []) (sort_slice by_id (rows t)).

(** The three columns an update writes. *)
Definition updated (enabled : bool) (policy : option bytes) (now : Z) (r : row) : row :=
  mkRow (row_id r) (row_name r) (row_prefix r) (row_hash r) enabled (row_expires r) (row_created r)
    (Z.max (row_updated r) (Z.max (row_created r) (Unix now))) (default (row_policy r) policy) (row_seq r).

Definition update_row (fails : bool) (id : bytes) (enabled : bool) (policy : option bytes) (now : Z) (t : table) : option store_error * table :=
  if negb (ValidateIdentifier id) then (Some ErrInvalidKeyRecord, t)
  else if fails then (Some ErrDatabase, t)
  else match tb_rows t !! id with
       | None => (Some ErrNotFound, t)
       | Some r => (None, mkTable (<[id := updated enabled policy now r]> (tb_rows t)) (tb_next t))
       end.

Definition SetEnabled (fails : bool) (id : bytes) (enabled : bool) (now : Z) : table → option store_error * table := update_row fails id enabled None now.
Definition UpdatePolicy (fails : bool) (id : bytes) (enabled : bool) (policyJSON : bytes) (now : Z) : table → option store_error * table :=
  update_row fails id enabled (Some policyJSON) now.

Definition UpdatePolicyRecord (fails : bool) (id : bytes) (enabled : bool) (policyJSON : bytes) (now : Z) (t : table)
    : result store_error APIKeyRecord * table :=
  match update_row fails id enabled (Some policyJSON) now t with
  | (Some e, t) => (Err e, t)
  | (None, t) =>
      (match tb_rows t !! id with
       | None => Err ErrNotFound
       | Some r => match scanAPIKey r with Ok k => Ok k | Err ErrNotFound => Err ErrNotFound | Err _ => Err ErrDatabase end
       end, t)
  end.

(** [GetAPIKeyByID]: the row with its policy compiled. *)
Record KeyDetailRecord := mkDetail {
  kd_ID : bytes; kd_Name : bytes; kd_DisplayPrefix : bytes; kd_Enabled : bool; kd_CreatedAt : Z; kd_UpdatedAt : Z; kd_ExpiresAt : option Z;
  kd_Policy : EffectivePolicy }.

Definition GetAPIKeyByID (fails : bool) (mode : TokenMode) (id : bytes) (t : table) : result store_error KeyDetailRecord :=
  if negb (ValidateIdentifier id) then Err ErrInvalidKeyRecord
  else if fails then Err ErrDatabase
  else match tb_rows t !! id with
       | None => Err ErrNotFound
       | Some r =>
           match unixTimestamp (row_created r), unixTimestamp (row_updated r) with
           | Some created, Some updated =>
               if updated <? created then Err ErrInvalidKeyRecord
               else match ParsePolicyWithTokenMode (row_policy r) mode with
                    | Err _ => Err ErrStoredPolicy
                    | Ok policy => Ok (mkDetail (row_id r) (row_name r) (row_prefix r) (row_enabled r) created updated
                                         ((λ e, e * second) <$> row_expires r) policy)
                    end
           | _, _ => Err ErrInvalidKeyRecord
           end
       end.

(** ** Pages *)

Record KeyPolicySummary := mkSummary { AllowModels : bool; DenyModels : bool; LogRequestBody : bool; LogResponseBody : bool }.

Record KeyListRecord := mkListed {
  kl_ID : bytes; kl_Name : bytes; kl_DisplayPrefix : bytes; kl_Enabled : bool; kl_CreatedAt : Z; kl_UpdatedAt : Z; kl_ExpiresAt : option Z;
  kl_PolicySummary : KeyPolicySummary }.

Record apiKeyListCursor := mkCursor { SnapshotSequence : Z; cu_CreatedAt : Z; cu_ID : bytes }.

(** [binary.BigEndian]: the low [n] bytes of a number, and back. *)
Fixpoint be_bytes (n : nat) (v : Z) : bytes := match n with O => [] | S m => be_bytes m (v / 256) ++ [chr (v mod 256)] end.
Definition be_value (s : bytes) : Z := foldl (λ v c, v * 256 + code c) 0 s.

Section pages.
(** The authenticated cipher of the cursors, with the nonce it was given. *)
Context (NonceSize : nat) (Seal Open_ : bytes → bytes → option bytes).
(** SQLite's JSON functions on a stored policy. *)
Context (summary : bytes → KeyPolicySummary).

Definition encodeListCursor (nonce : option bytes) (c : apiKeyListCursor) : result store_error bytes :=
  if (SnapshotSequence c <=? 0) || (cu_CreatedAt c <=? 0) || same (cu_ID c) [] then Err ErrInvalidCursor
  else
    let payload := be_bytes 8 (SnapshotSequence c) ++ be_bytes 8 (cu_CreatedAt c) ++ be_bytes 2 (Z.of_nat (length (cu_ID c))) ++ cu_ID c in
    match nonce with
    | None => Err ErrInvalidCursor
    | Some nonce => match Seal nonce payload with Some sealed => Ok (EncodeToString (nonce ++ sealed)) | None => Err ErrInvalidCursor end
    end.

Definition decodeListCursor (value : bytes) : result store_error (option apiKeyListCursor) :=
  if same value [] then Ok None
  else if (maxAPIKeyCursorBytes <? length value)%nat || negb (ValidateCursorSyntax value) then Err ErrInvalidCursor
  else
    match DecodeString value with
    | None => Err ErrInvalidCursor
    | Some sealed =>
        if (length sealed <=? NonceSize)%nat then Err ErrInvalidCursor
        else
          match Open_ (take NonceSize sealed) (drop NonceSize sealed) with
          | None => Err ErrInvalidCursor
          | Some payload =>
              if (length payload <? 18)%nat then Err ErrInvalidCursor
              else
                let idLength := be_value (take 2 (drop 16 payload)) in
                let id := drop 18 payload in
                if (idLength =? 0) || negb (idLength =? Z.of_nat (length id)) || (Z.of_nat MaxIdentifierBytes <? idLength) || negb (ValidateIdentifier id)
                then Err ErrInvalidCursor
                else
                  let snapshot := wrap64 (be_value (take 8 payload)) in
                  let created := wrap64 (be_value (take 8 (drop 8 payload))) in
                  if (snapshot <=? 0) || (created <=? 0) then Err ErrInvalidCursor else Ok (Some (mkCursor snapshot created id))
          end
    end.

(** [created_at DESC, id DESC] *)
Definition newer (a b : Z * bytes) : bool := if b.1 <? a.1 then true else if a.1 <? b.1 then false else bytes_lt b.2 a.2.
Definition place (r : row) : Z * bytes := (row_created r, row_id r).
Definition newest_first (r q : row) : bool := newer (place r) (place q).

Definition selected (snapshot : Z) (bookmark : option apiKeyListCursor) (r : row) : bool :=
  (row_seq r <=? snapshot) &&
  match bookmark with
  | Some b => (row_created r <? cu_CreatedAt b) || ((row_created r =? cu_CreatedAt b) && bytes_lt (row_id r) (cu_ID b))
  | None => true
  end.

Definition page_rows (snapshot : Z) (bookmark : option apiKeyListCursor) (limit : Z) (t : table) : list row :=
  take (Z.to_nat (limit + 1)) (sort_slice newest_first (List.filter (selected snapshot bookmark) (rows t))).

Definition listed (r : row) : result store_error KeyListRecord :=
  if (row_created r <=? 0) || (row_updated r <=? 0) || (row_updated r <? row_created r) then Err ErrInvalidKeyRecord
  else Ok (mkListed (row_id r) (row_name r) (row_prefix r) (row_enabled r) (row_created r * second) (row_updated r * second)
             ((λ e, e * second) <$> row_expires r) (summary (row_policy r))).

Fixpoint scan_page (rs : list row) : result store_error (list KeyListRecord) :=
  match rs with
  | [] => Ok []
  | r :: rs => let? k := listed r in let? ks := scan_page rs in Ok (k :: ks)
  end.

Definition max_seq (t : table) : Z := foldr (λ r m, Z.max (row_seq r) m) 0 (rows t).

Definition ListAPIKeys (fails : bool) (nonce : option bytes) (limit : Z) (cursor : bytes) (t : table) : result store_error (list KeyListRecord * bytes) :=
  if (limit <=? 0) || (maxAPIKeyListLimit <? limit) then Err ErrInvalidCursor
  else
    let? bookmark := decodeListCursor cursor in
    if fails then Err ErrDatabase
    else
      let snapshot := match bookmark with Some b => SnapshotSequence b | None => max_seq t end in
      let? result := scan_page (page_rows snapshot bookmark limit t) in
      if Z.of_nat (length result) <=? limit then Ok (result, [])
      else match last (take (Z.to_nat limit) result) with
           | None => Err ErrInvalidCursor
           | Some l =>
               let? next := encodeListCursor nonce (mkCursor snapshot (Unix (kl_CreatedAt l)) (kl_ID l)) in
               Ok (take (Z.to_nat limit) result, next)
           end.
End pages.

(** ** Cursors *)

Lemma be_bytes_length n v : length (be_bytes n v) = n.
Proof. revert v. induction n as [|n IH]; intros v; cbn; [done|]. rewrite length_app, IH. cbn. lia. Qed.

Lemma be_value_bytes n v : 0 <= v → be_value (be_bytes n v) = v mod 256 ^ Z.of_nat n.
Proof.
  revert v. induction n as [|n IH]; intros v Hv; [by rewrite Z.mod_1_r|]. cbn [be_bytes]. unfold be_value in *. rewrite foldl_app. cbn [foldl].
  rewrite IH by (apply Z.div_pos; lia). rewrite code_chr by (apply Z.mod_pos_bound; lia).
  rewrite Nat2Z.inj_succ, Z.pow_succ_r by lia. rewrite (Z.rem_mul_r v 256) by lia. lia.
Qed.

Lemma Encode_bound s : (3 * length (EncodeToString s) ≤ 4 * length s + 3)%nat.
Proof.
  assert (∀ n s, length s ≤ n → 3 * length (EncodeToString s) ≤ 4 * length s + 3)%nat as H; [|by apply (H (length s))]. clear s.
  intros n. induction n as [|n IH]; intros s Hs; [destruct s; cbn in *; lia|].
  destruct s as [|a [|b [|c s]]]; cbn [EncodeToString length] in *; [lia|lia|lia|]. specialize (IH s). lia.
Qed.

(** What [cipher.AEAD] documents, for ciphers of the size of AES-GCM. *)
Record aead_laws (NonceSize Overhead : nat) (Seal Open_ : bytes → bytes → option bytes) : Prop := {
  aead_open : ∀ nonce p s, Seal nonce p = Some s → Open_ nonce s = Some p;
  aead_length : ∀ nonce p s, Seal nonce p = Some s → length s = (length p + Overhead)%nat;
  aead_seals : ∀ nonce p, length nonce = NonceSize → is_Some (Seal nonce p);
  aead_small : (NonceSize + Overhead ≤ 64)%nat;
}.

Section cursors.
Context (NonceSize Overhead : nat) (Seal Open_ : bytes → bytes → option bytes) (Haead : aead_laws NonceSize Overhead Seal Open_).

Definition cursor_ok (c : apiKeyListCursor) : Prop :=
  0 < SnapshotSequence c <= maxInt64 ∧ 0 < cu_CreatedAt c <= maxInt64 ∧ ValidateIdentifier (cu_ID c) = true.

Lemma identifier_length id : ValidateIdentifier id = true → id ≠ [] ∧ (length id ≤ MaxIdentifierBytes)%nat.
Proof. unfold ValidateIdentifier. destruct (same id []) eqn:E; [done|]. destruct (Nat.ltb_spec MaxIdentifierBytes (length id)); [done|]. intros _. split; [|done]. by apply bool_decide_eq_false in E. Qed.

Lemma cursor_roundtrip c nonce : cursor_ok c → length nonce = NonceSize →
  ∃ value, encodeListCursor Seal (Some nonce) c = Ok value ∧ value ≠ [] ∧ decodeListCursor NonceSize Open_ value = Ok (Some c).
Proof.
  intros (Hs & Hc & Hid) Hn. destruct (identifier_length _ Hid) as [Hne Hlen]. unfold encodeListCursor.
  destruct (Z.leb_spec (SnapshotSequence c) 0); [lia|]. destruct (Z.leb_spec (cu_CreatedAt c) 0); [lia|]. unfold same at 1. rewrite bool_decide_false by done. cbn [orb].
  set (payload := _ ++ _). destruct (aead_seals _ _ _ _ Haead nonce payload Hn) as [sealed Es]. rewrite Es.
  assert (length payload = 18 + length (cu_ID c))%nat as Hp by (subst payload; rewrite !length_app, !be_bytes_length; lia).
  pose proof (aead_length _ _ _ _ Haead _ _ _ Es) as Hsl. pose proof (aead_small _ _ _ _ Haead) as Hsm.
  set (value := EncodeToString (nonce ++ sealed)). exists value. split; [done|].
  pose proof (Encode_bound (nonce ++ sealed)) as Hel. rewrite length_app in Hel.
  assert (value ≠ []) as Hv. { intros E. pose proof (DecodeString_Encode (nonce ++ sealed)) as Hd. fold value in Hd. rewrite E in Hd. cbn in Hd. destruct nonce; [|done]. destruct sealed; [cbn in *; lia|done]. }
  split; [done|]. unfold decodeListCursor. unfold same at 1. rewrite bool_decide_false by done.
  assert (length value ≤ maxAPIKeyCursorBytes)%nat as Hvl. { unfold maxAPIKeyCursorBytes, MaxCursorBytes, MaxIdentifierBytes in *. fold value in Hel. lia. }
  destruct (Nat.ltb_spec maxAPIKeyCursorBytes (length value)); [lia|].
  rewrite (proj2 (ValidateCursorSyntax_exact value)) by (right; split; [done|by eexists]). cbn [orb negb].
  subst value. rewrite DecodeString_Encode. destruct (Nat.leb_spec (length (nonce ++ sealed)) NonceSize); [rewrite length_app in *; lia|].
  rewrite take_app_length', drop_app_length' by done. rewrite (aead_open _ _ _ _ Haead _ _ _ Es). destruct (Nat.ltb_spec (length payload) 18); [lia|].
  assert (take 8 payload = be_bytes 8 (SnapshotSequence c)) as E1 by (subst payload; apply take_app_length'; by rewrite be_bytes_length).
  assert (drop 8 payload = be_bytes 8 (cu_CreatedAt c) ++ be_bytes 2 (Z.of_nat (length (cu_ID c))) ++ cu_ID c) as E2 by (subst payload; apply drop_app_length'; by rewrite be_bytes_length).
  assert (drop 16 payload = be_bytes 2 (Z.of_nat (length (cu_ID c))) ++ cu_ID c) as E3
    by (change 16%nat with (8 + 8)%nat; rewrite <-drop_drop, E2; apply drop_app_length'; by rewrite be_bytes_length).
  assert (drop 18 payload = cu_ID c) as E4 by (change 18%nat with (16 + 2)%nat; rewrite <-drop_drop, E3; apply drop_app_length'; by rewrite be_bytes_length).
  rewrite E1, E2, E3, E4. rewrite !take_app_length' by (by rewrite be_bytes_length). rewrite !be_value_bytes by lia.
  change (256 ^ Z.of_nat 8) with 18446744073709551616. change (256 ^ Z.of_nat 2) with 65536. unfold maxInt64, MaxIdentifierBytes in *.
  assert (0 < length (cu_ID c))%nat by (destruct (cu_ID c); [done|cbn; lia]).
  rewrite !Z.mod_small by lia. rewrite !wrap64_id by (unfold int64, maxInt64, minInt64; lia).
  destruct (Z.eqb_spec (Z.of_nat (length (cu_ID c))) 0); [lia|]. rewrite Z.eqb_refl. cbn [negb orb]. destruct (Z.ltb_spec (Z.of_nat 256) (Z.of_nat (length (cu_ID c)))); [lia|].
  rewrite Hid. cbn [negb orb]. destruct (Z.leb_spec (SnapshotSequence c) 0); [lia|]. destruct (Z.leb_spec (cu_CreatedAt c) 0); [lia|]. by destruct c.
Qed.
End cursors.

(** ** The order of the pages *)

Lemma bytes_lt_irrefl a : bytes_lt a a = false.
Proof. induction a as [|c a IH]; cbn; [done|]. by rewrite Z.ltb_irrefl. Qed.

Lemma bytes_lt_trans a b c : bytes_lt a b = true → bytes_lt b c = true → bytes_lt a c = true.
Proof.
  revert b c. induction a as [|x a IH]; intros [|y b] [|z c]; cbn; try done.
  destruct (Z.ltb_spec (code x) (code y)), (Z.ltb_spec (code y) (code z)), (Z.ltb_spec (code x) (code z)), (Z.ltb_spec (code y) (code x)),
    (Z.ltb_spec (code z) (code y)), (Z.ltb_spec (code z) (code x)); try done; try lia. apply IH.
Qed.

Lemma bytes_lt_total a b : bytes_lt a b = false → bytes_lt b a = false → a = b.
Proof.
  revert b. induction a as [|x a IH]; intros [|y b]; cbn; try done. destruct (Z.ltb_spec (code x) (code y)), (Z.ltb_spec (code y) (code x)); try done.
  intros E1 E2. rewrite (IH b E1 E2). f_equal. apply code_inj. lia.
Qed.

Lemma newer_irrefl a : newer a a = false.
Proof. unfold newer. by rewrite Z.ltb_irrefl, bytes_lt_irrefl. Qed.

Lemma newer_trans a b c : newer a b = true → newer b c = true → newer a c = true.
Proof.
  unfold newer. destruct (Z.ltb_spec b.1 a.1), (Z.ltb_spec c.1 b.1), (Z.ltb_spec c.1 a.1), (Z.ltb_spec a.1 b.1), (Z.ltb_spec b.1 c.1), (Z.ltb_spec a.1 c.1); try done; try lia.
  intros E1 E2. by apply (bytes_lt_trans _ b.2).
Qed.

Lemma newer_total a b : newer a b = false → newer b a = false → a = b.
Proof.
  unfold newer. destruct (Z.ltb_spec b.1 a.1), (Z.ltb_spec a.1 b.1); try done. intros E1 E2. destruct a, b; cbn in *. f_equal; [lia|]. by apply bytes_lt_total.
Qed.

Lemma newer_asym a b : newer a b = true → newer b a = false.
Proof. intros H. destruct (newer b a) eqn:E; [|done]. pose proof (newer_trans a b a H E) as Ha. by rewrite newer_irrefl in Ha. Qed.

#[export] Instance newer_not_after_trans : Transitive (not_after newer).
Proof.
  intros a b c H1 H2. unfold not_after in *. destruct (newer c a) eqn:E; [|done]. destruct (newer a b) eqn:E2.
  - by rewrite (newer_trans c a b E E2) in H2.
  - rewrite (newer_total a b E2 H1) in E. congruence.
Qed.
#[export] Instance newer_not_after_antisym : AntiSymm (=) (not_after newer).
Proof. intros a b H1 H2. by apply newer_total. Qed.

Definition sorted_places (l : list (Z * bytes)) : list (Z * bytes) := sort_slice newer l.

Lemma sorted_places_Sorted l : Sorted (not_after newer) (sorted_places l).
Proof. apply sort_slice_Sorted, newer_asym. Qed.

(** The order is total, so the sorted list depends on the elements only. *)
Lemma sorted_places_unique l l' : l ≡ₚ l' → sorted_places l = sorted_places l'.
Proof.
  intros Hp. apply (Sorted_unique (not_after newer)); [apply sorted_places_Sorted|apply sorted_places_Sorted|].
  unfold sorted_places. by rewrite !sort_slice_Permutation.
Qed.

Lemma sort_slice_map {A B} (f : A → B) (lessA : A → A → bool) (lessB : B → B → bool) l : (∀ x y, lessA x y = lessB (f x) (f y)) →
  map f (sort_slice lessA l) = sort_slice lessB (map f l).
Proof.
  intros Hf. unfold sort_slice. induction l as [|x l IH]; cbn; [done|]. rewrite <-IH. generalize (foldr (insert_sorted lessA) [] l). intros q. induction q as [|y q IHq]; cbn; [done|].
  rewrite <-Hf. destruct (lessA y x); cbn; [by rewrite IHq|done].
Qed.

(** What follows the last place of a page is the rest of the list. *)
Lemma after_split (P Q : list (Z * bytes)) b : Sorted (not_after newer) (P ++ b :: Q) → NoDup (P ++ b :: Q) →
  List.filter (λ x, newer b x) (P ++ b :: Q) = Q.
Proof.
  intros Hs Hd. apply Sorted_StronglySorted in Hs; [|apply newer_not_after_trans].
  apply StronglySorted_app in Hs as (Hpre & _ & Hbq). apply StronglySorted_inv in Hbq as [_ Hq].
  rewrite List.filter_app. cbn. rewrite newer_irrefl.
  assert (List.filter (λ x, newer b x) P = []) as ->.
  { apply NoDup_app in Hd as (_ & Hdis & _). clear -Hpre Hdis. induction P as [|a P IH]; cbn; [done|].
    assert (not_after newer a b) as Ha by (apply Hpre; [by apply list_elem_of_here|by apply list_elem_of_here]). unfold not_after in Ha. rewrite Ha. apply IH.
    - intros ????; apply Hpre; [by apply list_elem_of_further|done].
    - intros z Hz. apply Hdis. by apply list_elem_of_further. }
  cbn. apply NoDup_app in Hd as (_ & _ & Hd). apply NoDup_cons in Hd as [Hb _]. clear -Hq Hb. induction Q as [|q Q IH]; cbn; [done|].
  apply Forall_cons in Hq as [Hq1 Hq2]. unfold not_after in Hq1. destruct (newer b q) eqn:E.
  - f_equal. apply IH; [done|]. intros Hi. apply Hb. by apply list_elem_of_further.
  - exfalso. apply Hb. rewrite (newer_total b q E Hq1). apply list_elem_of_here.
Qed.

(** ** How the table changes *)

Inductive key_step : table → table → Prop :=
| step_insert fails record t : 0 < Unix (k_CreatedAt record) <= maxInt64 → key_step t (Insert fails record t).2
| step_update fails id enabled policy now t : key_step t (update_row fails id enabled policy now t).2.

Record row_ok (next : Z) (id : bytes) (r : row) : Prop := {
  ro_id : row_id r = id;
  ro_identifier : ValidateIdentifier id = true;
  ro_created : 0 < row_created r <= maxInt64;
  ro_updated : row_created r <= row_updated r;
  ro_seq : 0 < row_seq r < next;
}.
Definition table_ok (t : table) : Prop := 0 < tb_next t ∧ map_Forall (row_ok (tb_next t)) (tb_rows t).

Lemma Insert_cases fails record t : (Insert fails record t).2 = t ∨
  ∃ r, Validate record = None ∧ violates r t = false ∧ row_id r = k_ID record ∧ row_created r = Unix (k_CreatedAt record) ∧ row_updated r = Unix (k_UpdatedAt record) ∧
    row_seq r = tb_next t ∧ (Insert fails record t).2 = mkTable (<[row_id r := r]> (tb_rows t)) (tb_next t + 1).
Proof.
  unfold Insert. destruct (Validate record) eqn:Ev; [by left|]. destruct (identityValues record) as [[prefix digest]|]; [|by left]. destruct fails; [by left|].
  destruct (violates _ t) eqn:Eb; [by left|]. right. by eexists.
Qed.

Lemma violates_fresh r t : table_ok t → violates r t = false → tb_rows t !! row_id r = None.
Proof.
  intros [_ Hok] Hv. unfold violates in Hv. rewrite !orb_false_iff in Hv. destruct Hv as [_ Hv]. destruct (tb_rows t !! row_id r) as [q|] eqn:E; [|done]. exfalso.
  assert (existsb (λ q, same (row_id q) (row_id r) || same (row_hash q) (row_hash r) || same (row_prefix q) (row_prefix r)) (rows t) = true) as Hx; [|congruence].
  apply existsb_exists. exists q. split.
  - apply list_elem_of_In, list_elem_of_fmap. exists (row_id r, q). split; [done|by apply elem_of_map_to_list].
  - unfold same. rewrite bool_decide_true; [done|]. exact (ro_id _ _ _ (Hok _ _ E)).
Qed.

Lemma Validate_times record : Validate record = None → ValidateIdentifier (k_ID record) = true ∧ k_CreatedAt record <= k_UpdatedAt record.
Proof.
  unfold Validate. destruct (identityValues record) as [[prefix digest]|]; [|done]. destruct (ValidateIdentifier (k_ID record)); [|done]. cbn [negb orb].
  destruct (_ || _); [done|]. destruct (negb _); [done|]. destruct (_ || _); [done|]. destruct (Z.ltb_spec (k_UpdatedAt record) (k_CreatedAt record)); [done|]. done.
Qed.

Lemma Unix_mono a b : a <= b → Unix a <= Unix b.
Proof. intros. unfold Unix. apply Z.div_le_mono; [done|lia]. Qed.

Lemma row_ok_later n n' id r : n <= n' → row_ok n id r → row_ok n' id r.
Proof. intros Hn [? ? ? ? ?]. constructor; try done. lia. Qed.

Lemma key_step_ok t t' : key_step t t' → table_ok t → table_ok t' ∧ tb_next t <= tb_next t'.
Proof.
  destruct 1 as [fails record t Hc|fails id enabled policy now t]; intros [Hn Hok].
  - destruct (Insert_cases fails record t) as [->|(r & Hv & Hb & Eid & Ec & Eu & Es & ->)]; [split; [done|lia]|]. destruct (Validate_times _ Hv) as [Hid Ht].
    split; [|cbn; lia]. split; [cbn; lia|]. apply map_Forall_insert_2; cbn [tb_next].
    + constructor; [done|by rewrite Eid|by rewrite Ec|rewrite Ec, Eu; by apply Unix_mono|]. rewrite Es. lia.
    + intros i q Hi. apply (row_ok_later (tb_next t)); [lia|]. by apply Hok.
  - unfold update_row. destruct (negb _); [split; [done|cbn; lia]|]. destruct fails; [split; [done|cbn; lia]|].
    destruct (tb_rows t !! id) as [r|] eqn:E; [|split; [done|cbn; lia]]. split; [|cbn; lia]. split; [done|]. cbn.
    apply map_Forall_insert_2; [|done]. destruct (Hok _ _ E) as [? ? ? ? ?]. constructor; cbn; try done. lia.
Qed.

Lemma filter_Permutation {A} (f : A → bool) l l' : l ≡ₚ l' → List.filter f l ≡ₚ List.filter f l'.
Proof.
  induction 1 as [|x l l' _ IH|x y l|l l1 l2 _ IH1 _ IH2]; cbn; [done|destruct (f x); [by constructor|done]| |by rewrite IH1].
  destruct (f x), (f y); try done. constructor.
Qed.

(** The places of the rows of a snapshot. *)
Definition places (snapshot : Z) (t : table) : list (Z * bytes) := map place (List.filter (λ r, row_seq r <=? snapshot) (rows t)).

Lemma rows_insert m i r : rows (mkTable (<[i := r]> m) 0) ≡ₚ r :: rows (mkTable (delete i m) 0).
Proof. unfold rows. cbn. rewrite <-insert_delete_eq. rewrite map_to_list_insert by apply lookup_delete_eq. done. Qed.

Lemma places_frame S m n n' : places S (mkTable m n) = places S (mkTable m n').
Proof. done. Qed.

Lemma places_insert S m n i r : places S (mkTable (<[i := r]> m) n) ≡ₚ (if row_seq r <=? S then [place r] else []) ++ places S (mkTable (delete i m) n).
Proof.
  rewrite !(places_frame S _ n 0). unfold places. rewrite (filter_Permutation _ _ _ (rows_insert m i r)). cbn. by destruct (row_seq r <=? S).
Qed.

(** No change moves a row of an earlier snapshot, and none adds one. *)
Lemma places_stable S t t' : table_ok t → key_step t t' → S < tb_next t → places S t' ≡ₚ places S t.
Proof.
  intros Hok Hstep HS. destruct Hstep as [fails record t Hc|fails id enabled policy now t].
  - destruct (Insert_cases fails record t) as [->|(r & Hv & Hb & Eid & Ec & Eu & Es & ->)]; [done|].
    rewrite places_insert, Es. destruct (Z.leb_spec (tb_next t) S); [lia|]. cbn. rewrite delete_id by (by apply violates_fresh). by destruct t.
  - unfold update_row. destruct (negb _); [done|]. destruct fails; [done|]. destruct (tb_rows t !! id) as [r|] eqn:E; [|done]. cbn.
    rewrite places_insert. destruct t as [m n]. cbn in E |- *. rewrite <-(insert_id m id r E) at 2. rewrite (places_insert S m n id r). done.
Qed.

(** ** One page *)

Definition follows (bookmark : option apiKeyListCursor) (x : Z * bytes) : bool :=
  match bookmark with Some b => newer (cu_CreatedAt b, cu_ID b) x | None => true end.

Lemma selected_follows S bookmark r : selected S bookmark r = (row_seq r <=? S) && follows bookmark (place r).
Proof.
  unfold selected, follows, newer, place. destruct bookmark as [b|]; [|done]. cbn. f_equal.
  destruct (Z.ltb_spec (row_created r) (cu_CreatedAt b)), (Z.ltb_spec (cu_CreatedAt b) (row_created r)), (Z.eqb_spec (row_created r) (cu_CreatedAt b)); try done; lia.
Qed.

Lemma Sorted_filter (f : Z * bytes → bool) l : Sorted (not_after newer) l → Sorted (not_after newer) (List.filter f l).
Proof.
  intros Hs. apply StronglySorted_Sorted. apply Sorted_StronglySorted in Hs; [|apply newer_not_after_trans].
  induction Hs as [|x l _ IH Hx]; cbn; [constructor|]. destruct (f x); [|done]. constructor; [done|].
  clear IH. induction Hx as [|y l Hy Hl IH]; cbn; [constructor|]. destruct (f y); [by constructor|done].
Qed.

Lemma sorted_places_filter (f : Z * bytes → bool) l : sorted_places (List.filter f l) = List.filter f (sorted_places l).
Proof.
  apply (Sorted_unique (not_after newer)); [apply sorted_places_Sorted|apply Sorted_filter, sorted_places_Sorted|].
  unfold sorted_places. rewrite sort_slice_Permutation. apply filter_Permutation. by rewrite sort_slice_Permutation.
Qed.

Lemma map_filter_comm {A B} (g : A → B) (f : B → bool) l : map g (List.filter (λ x, f (g x)) l) = List.filter f (map g l).
Proof. induction l as [|x l IH]; cbn; [done|]. destruct (f (g x)); cbn; by rewrite IH. Qed.

Lemma page_rows_places S bookmark limit t :
  map place (page_rows S bookmark limit t) = take (Z.to_nat (limit + 1)) (List.filter (follows bookmark) (sorted_places (places S t))).
Proof.
  unfold page_rows. rewrite <-firstn_map. f_equal. rewrite (sort_slice_map place newest_first newer) by done.
  rewrite <-sorted_places_filter. unfold sorted_places, places. f_equal. rewrite <-map_filter_comm. f_equal.
  generalize (rows t). intros l. induction l as [|r l IH]; cbn; [done|]. rewrite selected_follows. destruct (row_seq r <=? S); cbn; [|done].
  destruct (follows bookmark (place r)); by rewrite IH.
Qed.

Lemma row_ids t : table_ok t → map row_id (rows t) = (map_to_list (tb_rows t)).*1.
Proof.
  intros [_ Hok]. unfold rows. assert (∀ x, x ∈ map_to_list (tb_rows t) → row_id x.2 = x.1) as H.
  { intros [i r] Hi. apply elem_of_map_to_list in Hi. exact (ro_id _ _ _ (Hok _ _ Hi)). }
  induction (map_to_list (tb_rows t)) as [|x l IH]; cbn; [done|]. rewrite H by apply list_elem_of_here. f_equal. apply IH. intros y Hy. apply H. by apply list_elem_of_further.
Qed.

Lemma max_seq_bound t r : r ∈ rows t → row_seq r <= max_seq t.
Proof. unfold max_seq. induction (rows t) as [|q l IH]; [set_solver|]. cbn. intros [->|Hr]%elem_of_cons; [lia|]. specialize (IH Hr). lia. Qed.

Lemma max_seq_next t : table_ok t → 0 <= max_seq t < tb_next t.
Proof.
  intros [Hn Hok]. unfold max_seq. assert (∀ r, r ∈ rows t → row_seq r < tb_next t) as H.
  { intros r Hr. apply list_elem_of_fmap in Hr as ([i q] & -> & Hq). apply elem_of_map_to_list in Hq. apply (ro_seq _ _ _ (Hok _ _ Hq)). }
  induction (rows t) as [|q l IH]; cbn; [lia|]. specialize (H q ltac:(set_solver)) as Hq. destruct IH as [I1 I2]; [intros r Hr; apply H; set_solver|]. lia.
Qed.

Lemma places_all t : places (max_seq t) t = map place (rows t).
Proof.
  unfold places. f_equal. pose proof (max_seq_bound t) as H. generalize dependent (max_seq t). intros m H.
  induction (rows t) as [|q l IH]; cbn; [done|]. destruct (Z.leb_spec (row_seq q) m); [|specialize (H q ltac:(set_solver)); lia]. f_equal. apply IH. intros r Hr. apply H. set_solver.
Qed.
Section traversal.
Context (NonceSize Overhead : nat) (Seal Open_ : bytes → bytes → option bytes) (Haead : aead_laws NonceSize Overhead Seal Open_).
Context (summary : bytes → KeyPolicySummary).

Definition listed_place (k : KeyListRecord) : Z * bytes := (Unix (kl_CreatedAt k), kl_ID k).

Lemma scan_page_ok n rs : Forall (λ r, row_ok n (row_id r) r) rs → ∃ ks, scan_page summary rs = Ok ks ∧ map listed_place ks = map place rs.
Proof.
  induction 1 as [|r rs [_ _ Hc Hu _] _ (ks & E & Ek)]; [by exists []|]. unfold scan_page; fold (scan_page summary). unfold listed.
  destruct (Z.leb_spec (row_created r) 0); [lia|]. destruct (Z.leb_spec (row_updated r) 0); [lia|]. destruct (Z.ltb_spec (row_updated r) (row_created r)); [lia|].
  cbn. rewrite E. cbn. eexists. split; [done|]. cbn. rewrite Ek. f_equal. unfold listed_place, place. cbn. f_equal. unfold Unix. by rewrite Z.div_mul.
Qed.

Lemma page_rows_ok S bookmark limit t : table_ok t → Forall (λ r, row_ok (tb_next t) (row_id r) r) (page_rows S bookmark limit t).
Proof.
  intros [_ Hok]. unfold page_rows. apply Forall_take. rewrite sort_slice_Permutation. apply List.Forall_forall. intros r Hr. apply filter_In in Hr as [Hr _].
  apply list_elem_of_In, list_elem_of_fmap in Hr as ([i q] & -> & Hq). apply elem_of_map_to_list in Hq. cbn. pose proof (Hok _ _ Hq) as Hrow. by rewrite (ro_id _ _ _ Hrow).
Qed.

(** The list is [L]; the cursor says that [P] of it was delivered. *)
Definition bookmarks (S : Z) (P : list (Z * bytes)) (cursor : bytes) : Prop :=
  match last P with
  | None => cursor = []
  | Some b => decodeListCursor NonceSize Open_ cursor = Ok (Some (mkCursor S b.1 b.2))
  end.

Lemma last_split {A} (P : list A) b : last P = Some b → ∃ P', P = P' ++ [b].
Proof. intros H. destruct (exists_last (l := P)) as (P' & c & ->); [by destruct P|]. rewrite last_snoc in H. injection H as ->. by exists P'. Qed.

Lemma follows_rest S P Q L cursor bookmark : sorted_places L = P ++ Q → NoDup L → bookmarks S P cursor → decodeListCursor NonceSize Open_ cursor = Ok bookmark →
  List.filter (follows bookmark) (sorted_places L) = Q.
Proof.
  intros EL Hd Hb Hdec. unfold bookmarks in Hb. destruct (last P) as [b|] eqn:El.
  - rewrite Hb in Hdec. injection Hdec as <-. destruct (last_split _ _ El) as (P' & ->). rewrite <-app_assoc in EL. cbn in EL.
    pose proof (sorted_places_Sorted L) as Hs. assert (NoDup (sorted_places L)) as Hd' by (unfold sorted_places; by rewrite sort_slice_Permutation).
    rewrite EL in *. pose proof (after_split P' Q b Hs Hd') as Ha. destruct b as [c i]. exact Ha.
  - subst cursor. injection Hdec as <-. apply last_None in El as ->. cbn in EL. rewrite EL. cbn [follows]. induction Q as [|q Q IH] in |- *; cbn; [done|]. by rewrite IH.
Qed.

Lemma places_NoDup S t : table_ok t → NoDup (places S t).
Proof.
  intros Hok. apply (NoDup_fmap_1 snd). unfold places. rewrite <-list_fmap_compose.
  assert (NoDup (map row_id (rows t))) as Hn by (rewrite (row_ids t Hok); apply NoDup_fst_map_to_list).
  change (NoDup (map row_id (List.filter (λ r, row_seq r <=? S) (rows t)))). induction (rows t) as [|r l IH]; cbn in *; [constructor|].
  apply NoDup_cons in Hn as [H1 H2]. destruct (row_seq r <=? S); [|by apply IH]. cbn. apply NoDup_cons. split; [|by apply IH].
  intros Hin. apply H1. apply list_elem_of_fmap in Hin as (q & -> & Hq). apply list_elem_of_fmap_2. apply list_elem_of_In, filter_In in Hq as [Hq _]. by apply list_elem_of_In.
Qed.

Lemma places_ok S t b : table_ok t → b ∈ sorted_places (places S t) → 0 < b.1 <= maxInt64 ∧ ValidateIdentifier b.2 = true.
Proof.
  intros [_ Hok] Hb. unfold sorted_places in Hb. rewrite sort_slice_Permutation in Hb. apply list_elem_of_fmap in Hb as (r & -> & Hr).
  apply list_elem_of_In, filter_In in Hr as [Hr _]. apply list_elem_of_In, list_elem_of_fmap in Hr as ([i q] & -> & Hq). apply elem_of_map_to_list in Hq.
  destruct (Hok _ _ Hq) as [E ? ? _ _]. cbn. by rewrite E.
Qed.

(** A call delivers the next places of the list and a cursor to the rest. *)
Lemma ListAPIKeys_page S P Q cursor limit nonce t : table_ok t → 0 < limit <= maxAPIKeyListLimit → length nonce = NonceSize →
  sorted_places (places S t) = P ++ Q → bookmarks S P cursor → (P = [] → max_seq t = S) → (Q ≠ [] → 0 < S) → S <= maxInt64 →
  ∃ page next, ListAPIKeys NonceSize Seal Open_ summary false (Some nonce) limit cursor t = Ok (page, next) ∧ map listed_place page = take (Z.to_nat limit) Q ∧
    if decide (length Q ≤ Z.to_nat limit)%nat then next = [] else next ≠ [] ∧ bookmarks S (P ++ take (Z.to_nat limit) Q) next.
Proof.
  intros Hok Hlim Hn EL Hb Hfirst HS HSmax. unfold ListAPIKeys. destruct (Z.leb_spec limit 0); [lia|]. destruct (Z.ltb_spec maxAPIKeyListLimit limit); [lia|]. cbn [orb].
  assert (∃ bookmark, decodeListCursor NonceSize Open_ cursor = Ok bookmark ∧ match bookmark with Some b => SnapshotSequence b | None => max_seq t end = S) as (bookmark & Ed & Esnap).
  { unfold bookmarks in Hb. destruct (last P) eqn:El; [by eexists|]. subst cursor. exists None. split; [done|]. apply Hfirst. by apply last_None. }
  rewrite Ed. cbn [result_bind]. rewrite Esnap.
  pose proof (page_rows_places S bookmark limit t) as Epage. rewrite (follows_rest S P Q _ cursor bookmark EL (places_NoDup S t Hok) Hb Ed) in Epage.
  destruct (scan_page_ok (tb_next t) _ (page_rows_ok S bookmark limit t Hok)) as (ks & Es & Ek). rewrite Es. cbn [result_bind]. rewrite Epage in Ek.
  assert (length ks = length (take (Z.to_nat (limit + 1)) Q)) as Hlen by (rewrite <-Ek; by rewrite length_map). rewrite length_take in Hlen.
  destruct (decide (length Q ≤ Z.to_nat limit)%nat) as [Hle|Hgt].
  - destruct (Z.leb_spec (Z.of_nat (length ks)) limit); [|lia]. exists ks, []. split; [done|]. split; [|done]. rewrite Ek, !take_ge by lia. done.
  - destruct (Z.leb_spec (Z.of_nat (length ks)) limit); [lia|].
    assert (map listed_place (take (Z.to_nat limit) ks) = take (Z.to_nat limit) Q) as Et by (rewrite <-firstn_map, Ek, take_take; f_equal; lia).
    destruct (last (take (Z.to_nat limit) ks)) as [l|] eqn:Ell; [|apply last_None in Ell; rewrite Ell in Et; destruct Q; [cbn in *; lia|]; destruct (Z.to_nat limit) eqn:?; [lia|done]].
    destruct (last_split _ _ Ell) as (ks' & Eks).
    assert (take (Z.to_nat limit) Q = map listed_place ks' ++ [listed_place l]) as EQ by (by rewrite <-Et, Eks, map_app).
    assert (listed_place l ∈ sorted_places (places S t)) as Hin.
    { rewrite EL, <-(take_drop (Z.to_nat limit) Q), EQ. set_solver. }
    destruct (places_ok S t _ Hok Hin) as [Hc Hid]. assert (Q ≠ []) as HQ by (intros ->; cbn in *; lia).
    destruct (cursor_roundtrip NonceSize Overhead Seal Open_ Haead (mkCursor S (Unix (kl_CreatedAt l)) (kl_ID l)) nonce) as (value & Ev & Hne & Hd); [|done|].
    { specialize (HS HQ). destruct Hc as [Hc1 Hc2]. split_and!; cbn in *; done. }
    rewrite Ev. cbn. exists (take (Z.to_nat limit) ks), value. split; [done|]. split; [done|]. split; [done|].
    unfold bookmarks. rewrite EQ, app_assoc, last_snoc. done.
Qed.

(** ** All pages *)

(** Reading page after page while others write. *)
Fixpoint traverse (env : table → table) (nonces : nat → bytes) (limit : Z) (fuel : nat) (t : table) (cursor : bytes) : option (list KeyListRecord) :=
  match fuel with
  | O => None
  | S fuel =>
      match ListAPIKeys NonceSize Seal Open_ summary false (Some (nonces fuel)) limit cursor t with
      | Err _ => None
      | Ok (page, next) => if same next [] then Some page else app page <$> traverse env nonces limit fuel (env t) next
      end
  end.

Lemma steps_stable snap t t' : rtc key_step t t' → table_ok t → snap < tb_next t → table_ok t' ∧ snap < tb_next t' ∧ places snap t' ≡ₚ places snap t.
Proof.
  induction 1 as [t|t t1 t' Hstep _ IH]; intros Hok Hs; [done|]. destruct (key_step_ok _ _ Hstep Hok) as [Hok1 Hn].
  destruct (IH Hok1 ltac:(lia)) as (H1 & H2 & H3). split_and!; [done|done|]. rewrite H3. by apply places_stable.
Qed.

Lemma places_positive snap t b : table_ok t → b ∈ places snap t → 0 < snap.
Proof.
  intros [_ Hok] Hb. apply list_elem_of_fmap in Hb as (r & _ & Hr). apply list_elem_of_In, filter_In in Hr as [Hr Hs].
  apply list_elem_of_In, list_elem_of_fmap in Hr as ([i q] & -> & Hq). apply elem_of_map_to_list in Hq. destruct (Hok _ _ Hq) as [_ _ _ _ ?]. cbn in Hs. lia.
Qed.

Lemma traverse_rest env nonces limit snap fuel : (∀ t, rtc key_step t (env t)) → (∀ n, length (nonces n) = NonceSize) → 0 < limit <= maxAPIKeyListLimit → snap <= maxInt64 →
  ∀ t P Q cursor, table_ok t → snap < tb_next t → sorted_places (places snap t) = P ++ Q → bookmarks snap P cursor → (P = [] → max_seq t = snap) → (length Q < fuel)%nat →
  ∃ all, traverse env nonces limit fuel t cursor = Some all ∧ map listed_place all = Q.
Proof.
  intros Henv Hnon Hlim Hmax. induction fuel as [|fuel IH]; intros t P Q cursor Hok Hs EL Hb Hfirst Hf; [lia|]. cbn [traverse].
  assert (Q ≠ [] → 0 < snap) as Hpos.
  { intros HQ. destruct Q as [|q Q]; [done|]. apply (places_positive snap t q Hok). assert (q ∈ sorted_places (places snap t)) as Hq by (rewrite EL; set_solver).
    unfold sorted_places in Hq. by rewrite sort_slice_Permutation in Hq. }
  destruct (ListAPIKeys_page snap P Q cursor limit (nonces fuel) t Hok Hlim (Hnon fuel) EL Hb Hfirst Hpos Hmax) as (page & next & E & Ep & Hnext). rewrite E.
  destruct (decide (length Q ≤ Z.to_nat limit)%nat).
  - subst next. exists page. split; [done|]. by rewrite Ep, take_ge.
  - destruct Hnext as [Hne Hb']. unfold same. rewrite bool_decide_false by done. destruct (steps_stable snap t (env t) (Henv t) Hok Hs) as (Hok' & Hs' & Hp).
    destruct (IH (env t) (P ++ take (Z.to_nat limit) Q) (drop (Z.to_nat limit) Q) next Hok' Hs') as (all & Ea & Eall); [| done | |rewrite length_drop; lia|].
    + rewrite (sorted_places_unique _ _ Hp), EL, <-app_assoc. by rewrite take_drop.
    + intros HP. apply app_eq_nil in HP as [_ HP]. destruct Q; [cbn in *; lia|]. destruct (Z.to_nat limit) eqn:?; [lia|done].
    + rewrite Ea. exists (page ++ all). split; [done|]. rewrite map_app, Ep, Eall. apply take_drop.
Qed.

End traversal.

(** C29: Reading the key list page by page delivers every key that was stored
    when the first page was read exactly once, newest first, while other
    requests insert and change keys between the pages; every call succeeds, and
    the traversal ends. *)
Theorem key_pages_exact NonceSize Overhead Seal Open_ summary env nonces limit t : aead_laws NonceSize Overhead Seal Open_ →
  (∀ t, rtc key_step t (env t)) → (∀ n, length (nonces n) = NonceSize) → 0 < limit <= maxAPIKeyListLimit →
  table_ok t → tb_next t <= maxInt64 →
  ∃ all, traverse NonceSize Seal Open_ summary env nonces limit (S (length (rows t))) t [] = Some all ∧
    map kl_ID all = map snd (sorted_places (map place (rows t))) ∧ NoDup (map kl_ID all) ∧
    ∀ id, id ∈ map kl_ID all ↔ is_Some (tb_rows t !! id).
Proof.
  intros Ha Henv Hnon Hlim Hok Hmax. pose proof (max_seq_next t Hok) as [Hs0 Hs].
  destruct (traverse_rest NonceSize Overhead Seal Open_ Ha summary env nonces limit (max_seq t) (S (length (rows t))) Henv Hnon Hlim ltac:(lia) t [] (sorted_places (places (max_seq t) t)) []
    Hok Hs eq_refl eq_refl (λ _, eq_refl)) as (all & E & Eall).
  { unfold sorted_places. rewrite sort_slice_length, places_all, length_map. lia. }
  rewrite places_all in Eall. exists all. split; [done|].
  assert (map kl_ID all = map snd (sorted_places (map place (rows t)))) as Eids by (rewrite <-Eall, map_map; done). split; [done|]. rewrite Eids.
  assert (map snd (sorted_places (map place (rows t))) ≡ₚ (map_to_list (tb_rows t)).*1) as Hperm.
  { unfold sorted_places. rewrite sort_slice_Permutation, map_map. change (map row_id (rows t) ≡ₚ (map_to_list (tb_rows t)).*1). by rewrite (row_ids t Hok). }
  split; [rewrite Hperm; apply NoDup_fst_map_to_list|]. intros id. rewrite Hperm. rewrite list_elem_of_fmap. split.
  - intros ([i r] & -> & Hi). apply elem_of_map_to_list in Hi. by eexists.
  - intros [r Hr]. exists (id, r). split; [done|by apply elem_of_map_to_list].
Qed.

(** ** Stored records *)

(** A record as it is read back: both spellings of its identity are filled. *)
Definition stored (r : APIKeyRecord) (prefix digest : bytes) : APIKeyRecord :=
  mkKey (k_ID r) (k_Name r) prefix digest (k_Enabled r) (k_ExpiresAt r) (k_CreatedAt r) (k_UpdatedAt r) (k_PolicyJSON r) prefix digest.

Lemma whole_seconds t : validTimestamp t = true → Unix t * second = t ∧ IsZero t = false.
Proof.
  unfold validTimestamp. intros [H1 H2]%andb_true_iff. split; [|by apply negb_true_iff in H1]. apply Z.eqb_eq in H2. unfold Unix.
  rewrite (Z.div_mod t second) at 2 by done. rewrite H2. lia.
Qed.

Lemma either_same a : either a a = Some a.
Proof. unfold either. destruct (bool_decide (a = [])); [done|]. by rewrite (bool_decide_true (a = a)), andb_false_r. Qed.

Lemma Validate_stored r prefix digest : identityValues r = Some (prefix, digest) → Validate (stored r prefix digest) = Validate r.
Proof. intros E. unfold Validate. rewrite E. unfold identityValues. cbn [stored k_DisplayPrefix k_Prefix k_Digest k_KeyHash]. by rewrite !either_same. Qed.

Lemma Validate_timestamps r : Validate r = None → validTimestamp (k_CreatedAt r) = true ∧ validTimestamp (k_UpdatedAt r) = true ∧
  (∀ e, k_ExpiresAt r = Some e → validTimestamp e = true).
Proof.
  unfold Validate. destruct (identityValues r) as [[prefix digest]|]; [|done]. destruct (_ || _); [done|]. destruct (negb _); [done|].
  destruct (validTimestamp (k_CreatedAt r)); [|done]. destruct (validTimestamp (k_UpdatedAt r)); [|done]. cbn [negb orb]. destruct (_ <? _); [done|].
  destruct (k_ExpiresAt r) as [e|]; [|done]. destruct (validTimestamp e) eqn:E; [|done]. intros _. split_and!; try done. by intros e' [= <-].
Qed.

Lemma scan_stored r prefix digest seq : identityValues r = Some (prefix, digest) → Validate r = None →
  scanAPIKey (mkRow (k_ID r) (k_Name r) prefix digest (k_Enabled r) (Unix <$> k_ExpiresAt r) (Unix (k_CreatedAt r)) (Unix (k_UpdatedAt r)) (k_PolicyJSON r) seq)
  = Ok (stored r prefix digest).
Proof.
  intros Ei Hv. destruct (Validate_timestamps r Hv) as (Hc & Hu & He). destruct (whole_seconds _ Hc) as [Ec Zc]. destruct (whole_seconds _ Hu) as [Eu Zu].
  unfold scanAPIKey, unixTimestamp. cbn [row_created row_updated]. rewrite Ec, Eu, Zc, Zu. cbn [row_id row_name row_prefix row_hash row_enabled row_expires row_policy].
  assert ((λ e, e * second) <$> (Unix <$> k_ExpiresAt r) = k_ExpiresAt r) as ->.
  { destruct (k_ExpiresAt r) as [e|]; [|done]. cbn. f_equal. by apply whole_seconds, He. }
  fold (stored r prefix digest). by rewrite (Validate_stored r prefix digest Ei), Hv.
Qed.

(** An inserted record is read back by its identifier and by its display
    prefix, field for field, and the keys that were stored before are still
    there. *)
Theorem key_insert_roundtrip record prefix digest t t' : table_ok t → 0 < Unix (k_CreatedAt record) <= maxInt64 →
  identityValues record = Some (prefix, digest) → Insert false record t = (None, t') →
  GetByID false (k_ID record) t' = Ok (stored record prefix digest) ∧
  LookupByDisplayPrefix false prefix t' = Ok (stored record prefix digest) ∧
  (∀ id, id ≠ k_ID record → tb_rows t' !! id = tb_rows t !! id) ∧ table_ok t'.
Proof.
  intros Hok Hc Ei E. pose proof (key_step_ok t _ (step_insert false record t Hc) Hok) as [Hok' _]. rewrite E in Hok'. cbn in Hok'.
  unfold Insert in E. destruct (Validate record) as [e|] eqn:Ev; [done|]. rewrite Ei in E. cbn zeta in E.
  set (r := mkRow _ _ _ _ _ _ _ _ _ _) in E. destruct (violates r t) eqn:Eb; [done|]. injection E as <-. cbn [row_id] in *.
  pose proof (violates_fresh r t Hok Eb) as Hfresh. destruct (Validate_times _ Ev) as [Hid _].
  assert (scanAPIKey r = Ok (stored record prefix digest)) as Hscan by (by apply scan_stored).
  split_and!; [| |intros id Hne; cbn; by rewrite lookup_insert_ne|done].
  - unfold GetByID. rewrite Hid. cbn. by rewrite lookup_insert_eq.
  - unfold LookupByDisplayPrefix. assert (TrimSpace_empty prefix = false) as ->.
    { unfold Validate in Ev. rewrite Ei in Ev. destruct (TrimSpace_empty prefix); [|done]. by rewrite orb_true_r in Ev. }
    assert (List.find (λ q, same (row_prefix q) prefix) (rows (mkTable (<[k_ID record := r]> (tb_rows t)) (tb_next t + 1))) = Some r) as ->; [|done].
    destruct (List.find _ _) as [q|] eqn:Ef.
    + apply find_some in Ef as [Hq Hp]. apply list_elem_of_In in Hq. apply bool_decide_eq_true in Hp. f_equal.
      apply list_elem_of_fmap in Hq as ([i q'] & -> & Hq). apply elem_of_map_to_list in Hq. cbn in Hq, Hp |- *.
      apply lookup_insert_Some in Hq as [[_ <-]|[_ Hq]]; [done|]. exfalso. unfold violates in Eb. rewrite !orb_false_iff in Eb. destruct Eb as [_ Eb].
      assert (existsb (λ q, same (row_id q) (row_id r) || same (row_hash q) (row_hash r) || same (row_prefix q) (row_prefix r)) (rows t) = true) as Hx; [|congruence].
      apply existsb_exists. exists q'. split; [apply list_elem_of_In, list_elem_of_fmap; exists (i, q'); split; [done|by apply elem_of_map_to_list]|].
      cbn. rewrite Hp. unfold same. rewrite (bool_decide_true (prefix = prefix)) by done. apply orb_true_r.
    + exfalso. set (t' := mkTable _ _) in Ef. assert (In r (rows t')) as Hin.
      { apply list_elem_of_In, list_elem_of_fmap. exists (k_ID record, r). split; [done|]. apply elem_of_map_to_list, lookup_insert_eq. }
      pose proof (find_none _ _ Ef r Hin) as Hn. cbn in Hn. unfold same in Hn. by rewrite bool_decide_true in Hn.
Qed.

(** ** Witnesses *)

Definition demo_second : Z := 1700000000 * second.
Definition demo_key (id : string) (filler : Z) (at_ : Z) : APIKeyRecord :=
  mkKey (str id) (str "demo") (str id) (repeat (chr filler) 32) true None (demo_second + at_ * second) (demo_second + at_ * second) (str "{}") [] [].
Definition demo_keys : table :=
  (Insert false (demo_key "key_c" 3 5) (Insert false (demo_key "key_b" 2 5) (Insert false (demo_key "key_a" 1 9) new_table).2).2).2.
Definition demo_Seal (nonce p : bytes) : option bytes := Some (repeat "t"%char 16 ++ p).
Definition demo_Open (nonce s : bytes) : option bytes := Some (drop 16 s).
Definition demo_env (t : table) : table := (Insert false (demo_key "key_d" 4 7) t).2.
Definition demo_summary (policy : bytes) : KeyPolicySummary := mkSummary false false false false.
Definition demo_nonces (n : nat) : bytes := repeat (chr (Z.of_nat n)) 12.

Lemma demo_aead : aead_laws 12 16 demo_Seal demo_Open.
Proof.
  split; [| |by eexists|lia].
  - intros nonce p s [= <-]. done.
  - intros nonce p s [= <-]. cbn. lia.
Qed.

Lemma new_table_ok : table_ok new_table.
Proof. split; [done|apply map_Forall_empty]. Qed.

Lemma demo_keys_ok : table_ok demo_keys.
Proof. repeat (refine (proj1 (key_step_ok _ _ (step_insert false _ _ _) _)); [unfold demo_key, demo_second; cbn; unfold Unix; vm_compute; split; congruence|]). apply new_table_ok. Qed.

Lemma key_pages_exact_witness : ∃ all, traverse 12 demo_Seal demo_Open demo_summary demo_env demo_nonces 2 4 demo_keys [] = Some all ∧
  map kl_ID all = [str "key_a"; str "key_c"; str "key_b"].
Proof.
  assert (length (rows demo_keys) = 3%nat) as Hl by (vm_compute; reflexivity).
  assert (map snd (sorted_places (map place (rows demo_keys))) = [str "key_a"; str "key_c"; str "key_b"]) as Es by (vm_compute; reflexivity).
  assert (∀ t, rtc key_step t (demo_env t)) as Henv by (intros t; apply rtc_once, step_insert; vm_compute; split; congruence).
  assert (tb_next demo_keys <= maxInt64) as Hn by (vm_compute; congruence).
  destruct (key_pages_exact 12 16 demo_Seal demo_Open demo_summary demo_env demo_nonces 2 demo_keys demo_aead Henv
    (λ n, repeat_length _ _) ltac:(unfold maxAPIKeyListLimit; lia) demo_keys_ok Hn) as (all & E & Ei & _).
  rewrite Hl in E. rewrite Es in Ei. exists all. exact (conj E Ei).
Defined.

Lemma key_insert_roundtrip_witness :
  GetByID false (str "key_d") (demo_env demo_keys) = Ok (stored (demo_key "key_d" 4 7) (str "key_d") (repeat (chr 4) 32)).
Proof.
  assert (Insert false (demo_key "key_d" 4 7) demo_keys = (None, demo_env demo_keys)) as E by (vm_compute; reflexivity).
  assert (0 < Unix (k_CreatedAt (demo_key "key_d" 4 7)) <= maxInt64) as Hc by (vm_compute; split; congruence).
  exact (proj1 (key_insert_roundtrip (demo_key "key_d" 4 7) (str "key_d") (repeat (chr 4) 32) demo_keys (demo_env demo_keys) demo_keys_ok Hc eq_refl E)).
Defined.
