(* ===== verification/AdminKeys.v ===== *)
(** * The key service of the administration interface ([internal/httpserver/admin.go])

    [adminKeyService] creates keys and replaces policies over four stores that
    have to agree: the key table, the authentication snapshot, the token
    limiter and the budget limiter.  The service's mutex makes its operations
    sequential; the traffic of the limiters, the clocks, the random source and
    the failures of statements are arguments.  An operation is one step: a
    request that authenticates while an update is between its stores sees the
    old snapshot, which is not represented.  The digest function is a
    parameter. *)

From Stdlib Require Import Ascii ZArith Lia ZifyBool.
From stdpp Require Import prelude strings list gmap.
From S2P Require Import Prelude Text Utf8 Json JsonCodec Money Windows TokenLimiter BudgetLimiter Policy GatewayKey CompletionRecord InputSecurity Auth KeyStore.
Local Open Scope Z_scope.

#[local] Arguments str : simpl never.
#[local] Arguments TokenLimiter_ReplacePolicy : simpl never.
#[local] Arguments BudgetLimiter_ReplacePolicy : simpl never.

(** [errLimiter] stands for the limiters' other errors, which are not told apart. *)
Inductive admin_error := errAdminKeyCreation | errInvalidAdminRequest | errPolicyConflict | errKeyNotFound | errLimiter.

#[export] Instance admin_error_eq_dec : EqDecision admin_error.
Proof. solve_decision. Defined.

Record adminKeyService := mkService {
  sv_table : table; sv_pepper : bytes; sv_auth : Authenticator; sv_tokens : option TokenLimiter; sv_budgets : option BudgetLimiter }.

Definition put_table (t : table) (s : adminKeyService) : adminKeyService := mkService t (sv_pepper s) (sv_auth s) (sv_tokens s) (sv_budgets s).
Definition put_auth (a : Authenticator) (s : adminKeyService) : adminKeyService := mkService (sv_table s) (sv_pepper s) a (sv_tokens s) (sv_budgets s).
Definition put_tokens (l : TokenLimiter) (s : adminKeyService) : adminKeyService := mkService (sv_table s) (sv_pepper s) (sv_auth s) (Some l) (sv_budgets s).
Definition put_budgets (l : BudgetLimiter) (s : adminKeyService) : adminKeyService := mkService (sv_table s) (sv_pepper s) (sv_auth s) (sv_tokens s) (Some l).

Definition key_name (id : bytes) : string := String.string_of_list_ascii id.
#[global] Arguments key_name : simpl never.

(** ** The snapshot of the table *)

Definition authRecord (r : APIKeyRecord) : Record_ :=
  mkRecord (k_ID r) (k_Name r) (k_DisplayPrefix r) [] (k_Digest r) [] (k_Enabled r) (k_ExpiresAt r) (k_PolicyJSON r) [].
Definition authRecords (records : list APIKeyRecord) : list Record_ := map authRecord records.

Definition loadSnapshot (fails : bool) (s : adminKeyService) : option admin_error * adminKeyService :=
  match ListKeys fails (sv_table s) with
  | Err _ => (Some errAdminKeyCreation, s)
  | Ok records =>
      match Load (authRecords records) (sv_auth s) with
      | (Some _, _) => (Some errAdminKeyCreation, s)
      | (None, a) => (None, put_auth a s)
      end
  end.

Definition newAdminKeyService (fails : bool) (t : table) (pepper : bytes) (tokenModes : list TokenMode) : result admin_error adminKeyService :=
  match NewAuthenticator pepper tokenModes with
  | Err _ => Err errAdminKeyCreation
  | Ok a =>
      match loadSnapshot fails (mkService t pepper a None None) with
      | (Some e, _) => Err e
      | (None, s) => Ok s
      end
  end.

(** The limiters are told the stored policies before requests are served. *)
Fixpoint register_tokens (records : list APIKeyRecord) (l : TokenLimiter) : result admin_error TokenLimiter :=
  match records with
  | [] => Ok l
  | r :: records =>
      match ParsePolicy (k_PolicyJSON r) with
      | Err _ => Err errAdminKeyCreation
      | Ok policy => register_tokens records (TokenLimiter_RegisterPolicy (key_name (k_ID r)) (Policy_TokenWindows policy) l)
      end
  end.

Fixpoint register_budgets (records : list APIKeyRecord) (l : BudgetLimiter) : result admin_error BudgetLimiter :=
  match records with
  | [] => Ok l
  | r :: records =>
      match ParsePolicy (k_PolicyJSON r) with
      | Err _ => Err errAdminKeyCreation
      | Ok policy => register_budgets records (BudgetLimiter_RegisterPolicy (key_name (k_ID r)) (budgetPolicy policy) l)
      end
  end.

Definition wire_tokens (fails : bool) (tokens : option TokenLimiter) (s : adminKeyService) : result admin_error adminKeyService :=
  match tokens with
  | None => Ok s
  | Some l =>
      match ListKeys fails (sv_table s) with
      | Err _ => Err errAdminKeyCreation
      | Ok records => let? l := register_tokens records l in Ok (put_tokens l s)
      end
  end.

Definition wire_budgets (fails : bool) (budgets : option BudgetLimiter) (s : adminKeyService) : result admin_error adminKeyService :=
  match budgets with
  | None => Ok s
  | Some l =>
      match ListKeys fails (sv_table s) with
      | Err _ => Err errAdminKeyCreation
      | Ok records => let? l := register_budgets records l in Ok (put_budgets l s)
      end
  end.

Definition start_service (f1 f2 f3 : bool) (t : table) (pepper : bytes) (tokenModes : list TokenMode)
    (tokens : option TokenLimiter) (budgets : option BudgetLimiter) : result admin_error adminKeyService :=
  let? s := newAdminKeyService f1 t pepper tokenModes in
  let? s := wire_tokens f2 tokens s in
  wire_budgets f3 budgets s.

(** ** Creating a key *)

Definition hex_bytes (s : bytes) : bytes := s ≫= λ c, [hex_digit (code c / 16); hex_digit (code c mod 16)].

Definition newAPIKeyID (random : option bytes) : option bytes :=
  match random with
  | Some r => if (length r <? 16)%nat then None else Some (str "key-" ++ hex_bytes (take 16 r))
  | None => None
  end.

(** [Truncate(time.Second)]: the zero time is a whole second. *)
Definition truncate_second (t : Z) : Z := t / second * second.

Record createdAdminKey := mkCreated {
  ck_ID : bytes; ck_Name : bytes; ck_Prefix : bytes; ck_Enabled : bool; ck_Policy : bytes; ck_ExpiresAt : option Z; ck_CreatedAt : Z; ck_RawKey : bytes }.

(** What one attempt meets. *)
Record attempt := mkAttempt { at_random : option bytes; at_id : option bytes; at_now : Z; at_list_fails : bool; at_insert_fails : bool }.

Definition empty_policy : bytes := str "{}".

Section create.
Context (hmac : bytes → bytes → bytes).

(** One round of the loop; [None] goes on to the next one. *)
Definition create_attempt (x : attempt) (name : bytes) (expiresAt : option Z) (s : adminKeyService)
    : option (result admin_error createdAdminKey) * adminKeyService :=
  match Generate hmac (at_random x) (sv_pepper s) with
  | Err _ => (Some (Err errAdminKeyCreation), s)
  | Ok generated =>
      match ParseGatewayKey (gk_RawKey generated), newAPIKeyID (at_id x) with
      | Ok prefix, Some id =>
          let now := truncate_second (at_now x) in
          let record := mkKey id name prefix (gk_Digest generated) true expiresAt now now empty_policy [] [] in
          match ListKeys (at_list_fails x) (sv_table s) with
          | Err _ => (Some (Err errAdminKeyCreation), s)
          | Ok records =>
              match Prepare (sv_auth s) (authRecords (records ++ [record])) with
              | Err _ => (Some (Err errAdminKeyCreation), s)
              | Ok prepared =>
                  match Insert (at_insert_fails x) record (sv_table s) with
                  | (Some ErrConflict, t) => (None, put_table t s)
                  | (Some _, t) => (Some (Err errAdminKeyCreation), put_table t s)
                  | (None, t) =>
                      (Some (Ok (mkCreated id name prefix true empty_policy expiresAt now (gk_RawKey generated))),
                       put_auth (Publish prepared (sv_auth s)) (put_table t s))
                  end
              end
          end
      | _, _ => (Some (Err errAdminKeyCreation), s)
      end
  end.

Fixpoint create_attempts (n : nat) (xs : nat → attempt) (name : bytes) (expiresAt : option Z) (s : adminKeyService)
    : result admin_error createdAdminKey * adminKeyService :=
  match n with
  | O => (Err errAdminKeyCreation, s)
  | S m =>
      match create_attempt (xs m) name expiresAt s with
      | (Some r, s) => (r, s)
      | (None, s) => create_attempts m xs name expiresAt s
      end
  end.

Definition create (xs : nat → attempt) (name : bytes) (expiresAt : option Z) (s : adminKeyService)
    : result admin_error createdAdminKey * adminKeyService :=
  if same (sv_pepper s) [] then (Err errAdminKeyCreation, s)
  else if TrimSpace_empty name || negb (validBoundedText name 256) then (Err errInvalidAdminRequest, s)
  else
    let expires := truncate_second <$> expiresAt in
    if match expires with Some e => IsZero e | None => false end then (Err errInvalidAdminRequest, s)
    else create_attempts 3 xs name expires s.
End create.

(** ** Replacing a policy *)

Record updatedAdminKey := mkUpdated {
  uk_ID : bytes; uk_Name : bytes; uk_Prefix : bytes; uk_Enabled : bool; uk_ExpiresAt : option Z; uk_CreatedAt : Z; uk_UpdatedAt : Z; uk_Policy : bytes }.

Definition updatedAdminKeyFromRecord (r : APIKeyRecord) (policyJSON : bytes) : updatedAdminKey :=
  mkUpdated (k_ID r) (k_Name r) (k_DisplayPrefix r) (k_Enabled r) (k_ExpiresAt r) (k_CreatedAt r) (k_UpdatedAt r) policyJSON.

(** What an update meets: failures, clocks, and the traffic of the limiters
    between the first check and the replacement. *)
Record update_env := mkUpdateEnv {
  up_list_fails : bool; up_update_fails : bool; up_now : Z; up_clk_allow : Z; up_clk_replace : Z;
  up_tokens : TokenLimiter → TokenLimiter; up_budgets : BudgetLimiter → BudgetLimiter }.

(** The first record with the identifier, between those before and after it. *)
Fixpoint split_at_id (id : bytes) (records : list APIKeyRecord) : option (list APIKeyRecord * APIKeyRecord * list APIKeyRecord) :=
  match records with
  | [] => None
  | r :: rest =>
      if negb (same (k_ID r) id)
      then match split_at_id id rest with Some (before, found, after) => Some (r :: before, found, after) | None => None end
      else Some ([], r, rest)
  end.

Definition replaced (enabled : bool) (policyJSON : bytes) (r : APIKeyRecord) : APIKeyRecord :=
  mkKey (k_ID r) (k_Name r) (k_DisplayPrefix r) (k_Digest r) enabled (k_ExpiresAt r) (k_CreatedAt r) (k_UpdatedAt r) policyJSON (k_Prefix r) (k_KeyHash r).

Definition allowTokenPolicyReplacement (clk : Z) (key : string) (oldWindows newWindows : list windowKey) (s : adminKeyService) : bool * adminKeyService :=
  match sv_tokens s with
  | None => (true, s)
  | Some l => let '(allowed, l) := TokenLimiter_AllowsPolicyReplacement clk key oldWindows newWindows l in (allowed, put_tokens l s)
  end.

Definition allowBudgetPolicyReplacement (key : string) (oldPolicy newPolicy : BudgetPolicy) (s : adminKeyService) : bool :=
  match sv_budgets s with
  | None => true
  | Some l => BudgetLimiter_AllowsPolicyReplacement key oldPolicy newPolicy l
  end.

Definition committing : Type := adminKeyService → result admin_error APIKeyRecord * adminKeyService.

(** The durable update. *)
Definition commit (x : update_env) (id : bytes) (enabled : bool) (policyJSON : bytes) : committing := λ s,
  match UpdatePolicyRecord (up_update_fails x) id enabled policyJSON (up_now x) (sv_table s) with
  | (Ok k, t) => (Ok k, put_table t s)
  | (Err ErrNotFound, t) => (Err errKeyNotFound, put_table t s)
  | (Err _, t) => (Err errAdminKeyCreation, put_table t s)
  end.

(** [ReplacePolicy] of a limiter reaches its callback when it would report the
    callback's error. *)
Definition replaceBudgetPolicy (key : string) (oldPolicy newPolicy : BudgetPolicy) (inner : committing) : committing := λ s,
  match sv_budgets s with
  | None => inner s
  | Some l =>
      match BudgetLimiter_ReplacePolicy key oldPolicy newPolicy (Some (Some ())) l with
      | (Some (inl ErrBudgetPolicyReplacementConflict), l) => (Err errPolicyConflict, put_budgets l s)
      | (Some (inl _), l) => (Err errLimiter, put_budgets l s)
      | _ =>
          match inner s with
          | (Err e, s) => (Err e, s)
          | (Ok k, s) => (Ok k, put_budgets (BudgetLimiter_ReplacePolicy key oldPolicy newPolicy (Some (None : option ())) l).2 s)
          end
      end
  end.

Definition replaceTokenPolicy (clk : Z) (key : string) (oldWindows newWindows : list windowKey) (inner : committing) : committing := λ s,
  match sv_tokens s with
  | None => inner s
  | Some l =>
      match TokenLimiter_ReplacePolicy clk key oldWindows newWindows (Some (Some ())) l with
      | (Some (inl _), l) => (Err errPolicyConflict, put_tokens l s)
      | (_, checked) =>
          match inner (put_tokens checked s) with
          | (Err e, s) => (Err e, s)
          | (Ok k, s) => (Ok k, put_tokens (TokenLimiter_ReplacePolicy clk key oldWindows newWindows (Some (None : option ())) l).2 s)
          end
      end
  end.

Definition traffic (x : update_env) (s : adminKeyService) : adminKeyService :=
  mkService (sv_table s) (sv_pepper s) (sv_auth s) (up_tokens x <$> sv_tokens s) (up_budgets x <$> sv_budgets s).

Definition updatePolicy (x : update_env) (id : bytes) (enabled : bool) (policyJSON : bytes) (s : adminKeyService)
    : result admin_error updatedAdminKey * adminKeyService :=
  if TrimSpace_empty id then (Err errKeyNotFound, s)
  else match ParsePolicy policyJSON with
  | Err _ => (Err errInvalidAdminRequest, s)
  | Ok newPolicy =>
  match ListKeys (up_list_fails x) (sv_table s) with
  | Err _ => (Err errAdminKeyCreation, s)
  | Ok records =>
  match split_at_id id records with
  | None => (Err errKeyNotFound, s)
  | Some (before, old, after) =>
  match ParsePolicy (k_PolicyJSON old) with
  | Err _ => (Err errInvalidAdminRequest, s)
  | Ok oldPolicy =>
      let key := key_name id in
      let oldWindows := Policy_TokenWindows oldPolicy in
      let newWindows := Policy_TokenWindows newPolicy in
      let oldBudget := budgetPolicy oldPolicy in
      let newBudget := budgetPolicy newPolicy in
      let '(allowed, s) := allowTokenPolicyReplacement (up_clk_allow x) key oldWindows newWindows s in
      if negb allowed then (Err errPolicyConflict, s)
      else if negb (allowBudgetPolicyReplacement key oldBudget newBudget s) then (Err errPolicyConflict, s)
      else
        let unchanged := Bool.eqb (k_Enabled old) enabled && same (k_PolicyJSON old) policyJSON in
        let replacement := replaced enabled policyJSON old in
        match Prepare (sv_auth s) (authRecords (before ++ replacement :: after)) with
        | Err _ => (Err errAdminKeyCreation, s)
        | Ok prepared =>
            if unchanged then (Ok (updatedAdminKeyFromRecord replacement policyJSON), put_auth (Publish prepared (sv_auth s)) s)
            else
              match replaceTokenPolicy (up_clk_replace x) key oldWindows newWindows
                      (replaceBudgetPolicy key oldBudget newBudget (commit x id enabled policyJSON)) (traffic x s) with
              | (Err errKeyNotFound, s) => (Err errKeyNotFound, s)
              | (Err _, s) => (Err errAdminKeyCreation, s)
              | (Ok persisted, s) =>
                  let final := if same (k_ID persisted) [] then replacement else persisted in
                  (Ok (updatedAdminKeyFromRecord final policyJSON), put_auth (Publish prepared (sv_auth s)) s)
              end
        end
  end end end end.

(** ** The four stores agree *)

Definition row_record (r : row) : Record_ :=
  mkRecord (row_id r) (row_name r) (row_prefix r) [] (row_hash r) [] (row_enabled r) ((λ e, e * second) <$> row_expires r) (row_policy r) [].

Definition policies_of {A} (t : table) (value : EffectivePolicy → A) (m : gmap string A) : Prop :=
  ∀ key v, m !! key = Some v → ∃ id r p, key = key_name id ∧ tb_rows t !! id = Some r ∧ ParsePolicy (row_policy r) = Ok p ∧ v = value p.

(** The policies a limiter was told, when there is one. *)
Definition token_policies (s : adminKeyService) : option (gmap string (gset windowKey)) := policyWindows <$> sv_tokens s.
Definition budget_policies (s : adminKeyService) : option (gmap string BudgetPolicy) := bl_policies <$> sv_budgets s.

(** The snapshot has exactly the keys of the table. *)
Definition snapshot_of (t : table) (a : Authenticator) : Prop :=
  ∀ prefix c, c ∈ candidates (au_state a) prefix ↔ ∃ id r, tb_rows t !! id = Some r ∧ snapshot_record (au_tokenMode a) (row_record r) = Ok (prefix, c).

(** The snapshot has exactly the stored keys, and a limiter that was told a
    policy was told the stored one. *)
Record coherent (s : adminKeyService) : Prop := {
  co_table : table_ok (sv_table s);
  co_pepper : au_pepper (sv_auth s) = sv_pepper s;
  co_mode : valid_mode (au_tokenMode (sv_auth s)) = true;
  co_auth : snapshot_of (sv_table s) (sv_auth s);
  co_tokens : ∀ m, token_policies s = Some m → policies_of (sv_table s) (λ p, list_to_set (Policy_TokenWindows p)) m;
  co_budgets : ∀ m, budget_policies s = Some m → policies_of (sv_table s) budgetPolicy m;
}.

Lemma key_name_inj a b : key_name a = key_name b → a = b.
Proof. unfold key_name. intros E. rewrite <-(String.list_ascii_of_string_of_list_ascii a), E. apply String.list_ascii_of_string_of_list_ascii. Qed.

Lemma scan_fields r k : scanAPIKey r = Ok k → authRecord k = row_record r ∧ k_ID k = row_id r ∧ k_Enabled k = row_enabled r ∧ k_PolicyJSON k = row_policy r.
Proof.
  unfold scanAPIKey. destruct (unixTimestamp _) as [c|]; [|done]. destruct (unixTimestamp _) as [u|]; [|done]. destruct (Validate _); [done|]. by intros [= <-].
Qed.

Lemma ListKeys_scan fails t records : ListKeys fails t = Ok records → Forall2 (λ r k, scanAPIKey r = Ok k) (sort_slice by_id (rows t)) records.
Proof.
  unfold ListKeys. destruct fails; [done|]. generalize (sort_slice by_id (rows t)). intros l. revert records.
  induction l as [|r l IH]; intros records; cbn; [by intros [= <-]|]. intros (k & Hk & (ks & Hks & [= <-])%result_bind_Ok)%result_bind_Ok. constructor; [done|by apply IH].
Qed.

Lemma listed_iff fails t records k : ListKeys fails t = Ok records → k ∈ records ↔ ∃ id r, tb_rows t !! id = Some r ∧ scanAPIKey r = Ok k.
Proof.
  intros HF%ListKeys_scan. assert (∀ r, r ∈ sort_slice by_id (rows t) ↔ ∃ id, tb_rows t !! id = Some r) as Hrows.
  { intros r. rewrite sort_slice_Permutation. unfold rows. rewrite list_elem_of_fmap. split.
    - intros ([id q] & -> & Hq%elem_of_map_to_list). by exists id.
    - intros [id Hr]. exists (id, r). split; [done|by apply elem_of_map_to_list]. }
  split.
  - intros [i Hi]%list_elem_of_lookup. destruct (Forall2_lookup_r _ _ _ _ _ HF Hi) as (r & Hr & Hs). apply list_elem_of_lookup_2, Hrows in Hr as [id Hid]. by exists id, r.
  - intros (id & r & Hid & Hs). assert (r ∈ sort_slice by_id (rows t)) as [i Hi]%list_elem_of_lookup by (apply Hrows; by exists id).
    destruct (Forall2_lookup_l _ _ _ _ _ HF Hi) as (k' & Hk & Hs'). rewrite Hs in Hs'. injection Hs' as ->. by eapply list_elem_of_lookup_2.
Qed.

Lemma listed_ids fails t records : table_ok t → ListKeys fails t = Ok records → NoDup (map k_ID records).
Proof.
  intros Hok HF%ListKeys_scan. assert (map k_ID records = map row_id (sort_slice by_id (rows t))) as ->.
  { induction HF as [|r k rs ks Hs _ IH]; cbn; [done|]. apply scan_fields in Hs as (_ & -> & _). by rewrite IH. }
  change (NoDup (row_id <$> sort_slice by_id (rows t))). rewrite sort_slice_Permutation. change (NoDup (map row_id (rows t))). rewrite (row_ids t Hok). apply NoDup_fst_map_to_list.
Qed.

Lemma split_at_id_spec id records b old a : split_at_id id records = Some (b, old, a) → records = b ++ old :: a ∧ k_ID old = id.
Proof.
  revert b. induction records as [|r rest IH]; intros b; cbn; [done|]. unfold same. case_bool_decide as E; cbn.
  - intros [= <- <- <-]. done.
  - destruct (split_at_id id rest) as [[[b' f] a']|]; [|done]. intros [= <- <- <-]. destruct (IH _ eq_refl) as [-> ?]. done.
Qed.

Lemma prepared_candidates a records s : Prepare a records = Ok s →
  ∀ prefix c, c ∈ candidates s prefix ↔ ∃ r, r ∈ records ∧ snapshot_record (au_tokenMode a) r = Ok (prefix, c).
Proof.
  unfold Prepare. destruct (bool_decide _); [done|]. intros Hb prefix c. pose proof (buildLoop_spec (au_tokenMode a) records emptySnapshot) as H.
  unfold buildSnapshot in Hb. rewrite Hb in H. destruct H as (pcs & HF & Hc). rewrite Hc.
  assert (candidates emptySnapshot prefix = []) as -> by reflexivity. cbn [app]. rewrite list_elem_of_fmap. split.
  - intros ([p c'] & -> & [<- [i Hi]%list_elem_of_lookup]%list_elem_of_filter). destruct (Forall2_lookup_r _ _ _ _ _ HF Hi) as (r & Hr & Hs). exists r. split; [by eapply list_elem_of_lookup_2|done].
  - intros (r & [i Hi]%list_elem_of_lookup & Hs). destruct (Forall2_lookup_l _ _ _ _ _ HF Hi) as (pc & Hpc & Hs'). rewrite Hs in Hs'. injection Hs' as <-.
    exists (prefix, c). split; [done|]. apply list_elem_of_filter. split; [done|by eapply list_elem_of_lookup_2].
Qed.

Lemma prepared_all a records s rec : Prepare a records = Ok s → rec ∈ records → ∃ pc, snapshot_record (au_tokenMode a) rec = Ok pc.
Proof.
  unfold Prepare. destruct (bool_decide _); [done|]. intros Hb [i Hi]%list_elem_of_lookup. pose proof (buildLoop_spec (au_tokenMode a) records emptySnapshot) as H.
  unfold buildSnapshot in Hb. rewrite Hb in H. destruct H as (pcs & HF & _). destruct (Forall2_lookup_l _ _ _ _ _ HF Hi) as (pc & _ & ?). by exists pc.
Qed.

(** The records that stand for a table in which one row changed. *)
Lemma records_of_update fails t records id b old a : table_ok t → ListKeys fails t = Ok records → split_at_id id records = Some (b, old, a) →
  ∃ r, tb_rows t !! id = Some r ∧ scanAPIKey r = Ok old ∧ ∀ new r', authRecord new = row_record r' →
    ∀ rec, rec ∈ authRecords (b ++ new :: a) ↔ ∃ id' q, <[id := r']> (tb_rows t) !! id' = Some q ∧ rec = row_record q.
Proof.
  intros Hok HL Hsp. destruct (split_at_id_spec _ _ _ _ _ Hsp) as [-> Hid]. pose proof (listed_ids _ _ _ Hok HL) as Hnd.
  rewrite map_app in Hnd. cbn [map] in Hnd. rewrite <-Permutation_middle in Hnd. apply NoDup_cons in Hnd as [Hfresh _]. rewrite <-map_app, Hid in Hfresh.
  assert (∀ id' q k, tb_rows t !! id' = Some q → scanAPIKey q = Ok k → k_ID k = id') as Hids.
  { intros id' q k Hq (_ & -> & _)%scan_fields. exact (ro_id _ _ _ (proj2 Hok _ _ Hq)). }
  destruct (proj1 (listed_iff _ _ _ old HL)) as (id0 & r & Hr & Hs); [set_solver|]. rewrite (Hids _ _ _ Hr Hs) in Hid. subst id0. exists r. split; [done|]. split; [done|].
  intros new r' Hnew rec. unfold authRecords. rewrite list_elem_of_fmap. split.
  - intros (k & -> & Hk). assert (k = new ∨ k ∈ b ++ a) as [->|Hk'] by set_solver.
    + exists id, r'. split; [by rewrite lookup_insert_eq|done].
    + destruct (proj1 (listed_iff _ _ _ k HL)) as (id' & q & Hq & Hsq); [set_solver|]. exists id', q. split; [|by apply scan_fields].
      rewrite lookup_insert_ne; [done|]. intros ->. apply Hfresh. rewrite <-(Hids _ _ _ Hq Hsq). by apply list_elem_of_fmap_2.
  - intros (id' & q & Hq & ->). apply lookup_insert_Some in Hq as [[<- <-]|[Hne Hq]]; [exists new; split; [done|set_solver]|].
    assert (∃ k, scanAPIKey q = Ok k ∧ k ∈ b ++ old :: a) as (k & Hk & Hin).
    { pose proof (ListKeys_scan _ _ _ HL) as HF. assert (q ∈ sort_slice by_id (rows t)) as [i Hi]%list_elem_of_lookup.
      { rewrite sort_slice_Permutation. apply list_elem_of_fmap. exists (id', q). split; [done|by apply elem_of_map_to_list]. }
      destruct (Forall2_lookup_l _ _ _ _ _ HF Hi) as (k & Hk & Hs'). exists k. split; [done|by eapply list_elem_of_lookup_2]. }
    exists k. split; [symmetry; by apply scan_fields|]. assert (k ≠ old); [|set_solver]. intros ->. apply Hne. by rewrite <-(Hids _ _ _ Hq Hk), (Hids _ _ _ Hr Hs).
Qed.

(** A policy's limits do not depend on the mode it is read with. *)
Lemma compile_document_mode m m' d p : compile_document m d = Ok p →
  ∃ p', compile_document m' d = Ok p' ∧ Policy_TokenWindows p' = Policy_TokenWindows p ∧ policyBudgets p' = policyBudgets p.
Proof.
  unfold compile_document. intros H. repeat match goal with H : result_bind _ _ = Ok _ |- _ => apply result_bind_Ok in H as (? & ? & H) end. simplify_eq.
  repeat match goal with H : _ = Ok _ |- context [result_bind ?e _] => rewrite H; cbn [result_bind] end.
  destruct (Doc_TokenMode d) as [md|]; simplify_eq.
  - destruct (valid_mode md); simplify_eq. cbn [result_bind]. repeat match goal with H : _ = Ok _ |- context [result_bind ?e _] => rewrite H; cbn [result_bind] end. by eexists.
  - cbn [result_bind]. repeat match goal with H : _ = Ok _ |- context [result_bind ?e _] => rewrite H; cbn [result_bind] end. by eexists.
Qed.

Lemma parsePolicy_mode data m m' p : valid_mode m' = true → parsePolicy data m = Ok p →
  ∃ p', parsePolicy data m' = Ok p' ∧ Policy_TokenWindows p' = Policy_TokenWindows p ∧ policyBudgets p' = policyBudgets p.
Proof.
  intros Hm'. unfold parsePolicy. rewrite Hm'. destruct (valid_mode m); [|done]. cbn [negb]. destruct (TrimSpace data) as [|c d].
  - intros [= <-]. by eexists.
  - intros H. repeat (case_match; try discriminate). by eapply compile_document_mode.
Qed.

(** An update of a row that can be read leaves a row that can be read. *)
Lemma scan_updated n id r k enabled policy now : row_ok n id r → scanAPIKey r = Ok k →
  ∃ k', scanAPIKey (updated enabled policy now r) = Ok k' ∧ k_ID k' = id.
Proof.
  intros [Hid Hident Hc Hu _] Hs. unfold scanAPIKey in *. cbn [updated row_created row_updated row_id row_name row_prefix row_hash row_enabled row_expires row_policy].
  unfold unixTimestamp in *. assert (∀ v, 0 < v → IsZero (v * second) = false) as Hz by (intros v Hv; unfold IsZero, zeroTime, second; lia).
  rewrite (Hz (row_created r)) in Hs |- * by lia. rewrite (Hz (row_updated r)) in Hs by lia. rewrite (Hz (Z.max _ _)) by lia.
  set (record := mkKey _ _ _ _ _ _ _ _ _ _ _) in Hs. destruct (Validate record) eqn:Ev; [done|]. clear Hs.
  set (record' := mkKey _ _ _ _ _ _ _ _ _ _ _). assert (Validate record' = None) as ->; [|by exists record'].
  unfold Validate in *. assert (identityValues record' = identityValues record) as -> by done. destruct (identityValues record) as [[prefix digest]|]; [|done].
  cbn [k_ID k_Name k_CreatedAt k_UpdatedAt k_ExpiresAt record record'] in *. destruct (_ || _ || _); [done|]. destruct (negb _); [done|].
  assert (∀ v, 0 < v → validTimestamp (v * second) = true) as Hv by (intros v Hv; unfold validTimestamp; rewrite Hz by done; cbn; by rewrite Z.mod_mul).
  rewrite !Hv in Ev |- * by lia. cbn [negb orb] in *. destruct (Z.ltb_spec (row_updated r * second) (row_created r * second)); [done|].
  destruct (Z.ltb_spec (Z.max (row_updated r) (Z.max (row_created r) (Unix now)) * second) (row_created r * second)); [|done]. unfold second in *. lia.
Qed.

Lemma UpdatePolicyRecord_spec fails id enabled policy now t r k : table_ok t → tb_rows t !! id = Some r → scanAPIKey r = Ok k →
  match UpdatePolicyRecord fails id enabled policy now t with
  | (Ok k', t') => t' = mkTable (<[id := updated enabled (Some policy) now r]> (tb_rows t)) (tb_next t) ∧ k_ID k' = id
  | (Err _, t') => t' = t
  end.
Proof.
  intros Hok Hr Hs. unfold UpdatePolicyRecord, update_row. rewrite (ro_identifier _ _ _ (proj2 Hok _ _ Hr)). cbn [negb]. destruct fails; [done|]. rewrite Hr. cbn [tb_rows].
  rewrite lookup_insert_eq. destruct (scan_updated _ _ _ _ enabled (Some policy) now (proj2 Hok _ _ Hr) Hs) as (k' & -> & Hk). done.
Qed.

(** ** What the operations change *)

(** The durable rows, the snapshot and the limiters' policies are the same. *)
Record stores_kept (s s' : adminKeyService) : Prop := {
  sk_table : sv_table s' = sv_table s;
  sk_pepper : sv_pepper s' = sv_pepper s;
  sk_auth : sv_auth s' = sv_auth s;
  sk_tokens : token_policies s' = token_policies s;
  sk_budgets : budget_policies s' = budget_policies s;
}.
#[export] Instance stores_kept_preorder : PreOrder stores_kept.
Proof. split; [by intros s|]. intros s1 s2 s3 [] []. split; congruence. Qed.

(** The traffic of the limiters leaves their policies alone. *)
Definition quiet (x : update_env) : Prop :=
  (∀ l, policyWindows (up_tokens x l) = policyWindows l) ∧ (∀ l, bl_policies (up_budgets x l) = bl_policies l).

Lemma traffic_kept x s : quiet x → stores_kept s (traffic x s).
Proof. intros [Ht Hb]. split; try done; unfold token_policies, budget_policies; cbn; rewrite <-option_fmap_compose; apply option_fmap_ext; done. Qed.

Lemma coherent_kept s s' : stores_kept s s' → coherent s → coherent s'.
Proof. intros [Ht Hp Ha Htk Hbd] [? ? ? ? ? ?]. split; rewrite ?Ht, ?Hp, ?Ha, ?Htk, ?Hbd; done. Qed.

Lemma allowTokenPolicyReplacement_kept clk key ow nw s allowed s' : allowTokenPolicyReplacement clk key ow nw s = (allowed, s') → stores_kept s s'.
Proof.
  unfold allowTokenPolicyReplacement. destruct (sv_tokens s) as [l|] eqn:El; [|by intros [= <- <-]].
  unfold TokenLimiter_AllowsPolicyReplacement, allowsPolicyReplacementLocked. intros [= <- <-]. split; try done. unfold token_policies. rewrite El. cbn.
  f_equal. apply discardNow_frame.
Qed.

Section replacing.
Context (x : update_env) (id : bytes) (enabled : bool) (policyJSON : bytes) (old : row) (oldRecord : APIKeyRecord).
Context (oldWindows newWindows : list windowKey) (oldBudget newBudget : BudgetPolicy).

(** What each layer of the replacement may have done. *)
Definition budget_layer (s : adminKeyService) (out : result admin_error APIKeyRecord * adminKeyService) : Prop :=
  sv_pepper out.2 = sv_pepper s ∧ sv_auth out.2 = sv_auth s ∧ sv_tokens out.2 = sv_tokens s ∧
  match out.1 with
  | Ok k => k_ID k = id ∧ sv_table out.2 = mkTable (<[id := updated enabled (Some policyJSON) (up_now x) old]> (tb_rows (sv_table s))) (tb_next (sv_table s)) ∧
      budget_policies out.2 = insert (key_name id) newBudget <$> budget_policies s
  | Err _ => sv_table out.2 = sv_table s ∧ budget_policies out.2 = budget_policies s
  end.

Lemma commit_spec s : table_ok (sv_table s) → tb_rows (sv_table s) !! id = Some old → scanAPIKey old = Ok oldRecord →
  let out := commit x id enabled policyJSON s in
  sv_pepper out.2 = sv_pepper s ∧ sv_auth out.2 = sv_auth s ∧ sv_tokens out.2 = sv_tokens s ∧ sv_budgets out.2 = sv_budgets s ∧
  match out.1 with
  | Ok k => k_ID k = id ∧ sv_table out.2 = mkTable (<[id := updated enabled (Some policyJSON) (up_now x) old]> (tb_rows (sv_table s))) (tb_next (sv_table s))
  | Err _ => sv_table out.2 = sv_table s
  end.
Proof.
  intros Hok Hr Hs. unfold commit. pose proof (UpdatePolicyRecord_spec (up_update_fails x) id enabled policyJSON (up_now x) _ _ _ Hok Hr Hs) as H.
  destruct (UpdatePolicyRecord _ _ _ _ _ _) as [[k|e] t']; [by destruct H as [-> ?]|]. subst t'. by destruct e.
Qed.

Lemma budget_replaced l : match BudgetLimiter_ReplacePolicy (key_name id) oldBudget newBudget (Some (Some ())) l with
  | (Some (inl _), l') => l' = l
  | _ => bl_policies (BudgetLimiter_ReplacePolicy (key_name id) oldBudget newBudget (Some (None : option ())) l).2 = <[key_name id := newBudget]> (bl_policies l)
  end.
Proof.
  unfold BudgetLimiter_ReplacePolicy. destruct (_ || _ || _); [done|]. destruct (bl_policies l !! key_name id) as [current|] eqn:E.
  - destruct (negb _); [done|]. cbn. repeat (case_match; try done).
  - cbn. repeat (case_match; try done).
Qed.

Lemma replaceBudgetPolicy_spec s : table_ok (sv_table s) → tb_rows (sv_table s) !! id = Some old → scanAPIKey old = Ok oldRecord →
  budget_layer s (replaceBudgetPolicy (key_name id) oldBudget newBudget (commit x id enabled policyJSON) s).
Proof.
  intros Hok Hr Hs. pose proof (commit_spec s Hok Hr Hs) as Hc. cbv zeta in Hc. unfold replaceBudgetPolicy, budget_layer, budget_policies.
  destruct (sv_budgets s) as [l|] eqn:El.
  - pose proof (budget_replaced l) as Hl. destruct (BudgetLimiter_ReplacePolicy _ _ _ (Some (Some ())) l) as [[[e|e]|] l'].
    + subst l'. by destruct e.
    + destruct (commit _ _ _ _ s) as [[k|e'] s']; cbn in *; destruct Hc as (-> & -> & -> & Eb & Ht); [|by rewrite Eb]. destruct Ht as [? ?]. cbn. split_and!; try done. by f_equal.
    + destruct (commit _ _ _ _ s) as [[k|e'] s']; cbn in *; destruct Hc as (-> & -> & -> & Eb & Ht); [|by rewrite Eb]. destruct Ht as [? ?]. cbn. split_and!; try done. by f_equal.
  - destruct (commit _ _ _ _ s) as [[k|e'] s']; cbn in *; destruct Hc as (-> & -> & -> & Eb & Ht); rewrite Eb; naive_solver.
Qed.

Lemma token_replaced clk l : match TokenLimiter_ReplacePolicy clk (key_name id) oldWindows newWindows (Some (Some ())) l with
  | (Some (inl _), l') => policyWindows l' = policyWindows l
  | (_, l') => policyWindows l' = policyWindows l ∧
      policyWindows (TokenLimiter_ReplacePolicy clk (key_name id) oldWindows newWindows (Some (None : option ())) l).2 = <[key_name id := list_to_set newWindows]> (policyWindows l)
  end.
Proof.
  unfold TokenLimiter_ReplacePolicy, allowsPolicyReplacementLocked. pose proof (proj1 (discardNow_frame clk l)) as Hd. destruct (negb _); cbn; [done|]. by rewrite Hd.
Qed.

Definition replacement_layer (s : adminKeyService) (out : result admin_error APIKeyRecord * adminKeyService) : Prop :=
  match out.1 with
  | Ok k => k_ID k = id ∧ sv_pepper out.2 = sv_pepper s ∧ sv_auth out.2 = sv_auth s ∧
      sv_table out.2 = mkTable (<[id := updated enabled (Some policyJSON) (up_now x) old]> (tb_rows (sv_table s))) (tb_next (sv_table s)) ∧
      token_policies out.2 = insert (key_name id) (list_to_set newWindows) <$> token_policies s ∧
      budget_policies out.2 = insert (key_name id) newBudget <$> budget_policies s
  | Err _ => stores_kept s out.2
  end.

Lemma replace_spec clk s : table_ok (sv_table s) → tb_rows (sv_table s) !! id = Some old → scanAPIKey old = Ok oldRecord →
  replacement_layer s (replaceTokenPolicy clk (key_name id) oldWindows newWindows
    (replaceBudgetPolicy (key_name id) oldBudget newBudget (commit x id enabled policyJSON)) s).
Proof.
  intros Hok Hr Hs. unfold replaceTokenPolicy, replacement_layer. destruct (sv_tokens s) as [l|] eqn:El.
  - pose proof (token_replaced clk l) as Hl. destruct (TokenLimiter_ReplacePolicy _ _ _ _ (Some (Some ())) l) as [[[e|e]|] l'].
    + cbn. split; try done. unfold token_policies. cbn. rewrite El. cbn. by f_equal.
    + destruct Hl as [Hk Hl]. pose proof (replaceBudgetPolicy_spec (put_tokens l' s) Hok Hr Hs) as Hb. unfold budget_layer in Hb.
      destruct (replaceBudgetPolicy _ _ _ _ _) as [[k|e'] s']; cbn in Hb |- *; destruct Hb as (Hp & Ha & Ht & Hb).
      * destruct Hb as (? & ? & ?). unfold token_policies. rewrite El. cbn. rewrite Hl. done.
      * destruct Hb as [? ?]. split; try done. unfold token_policies. rewrite Ht, El. cbn. by f_equal.
    + destruct Hl as [Hk Hl]. pose proof (replaceBudgetPolicy_spec (put_tokens l' s) Hok Hr Hs) as Hb. unfold budget_layer in Hb.
      destruct (replaceBudgetPolicy _ _ _ _ _) as [[k|e'] s']; cbn in Hb |- *; destruct Hb as (Hp & Ha & Ht & Hb).
      * destruct Hb as (? & ? & ?). unfold token_policies. rewrite El. cbn. rewrite Hl. done.
      * destruct Hb as [? ?]. split; try done. unfold token_policies. rewrite Ht, El. cbn. by f_equal.
  - pose proof (replaceBudgetPolicy_spec s Hok Hr Hs) as Hb. unfold budget_layer in Hb.
    destruct (replaceBudgetPolicy _ _ _ _ _) as [[k|e'] s']; cbn in Hb |- *; destruct Hb as (Hp & Ha & Ht & Hb).
    + destruct Hb as (? & ? & ?). unfold token_policies. rewrite Ht, El. done.
    + destruct Hb as [? ?]. split; try done. unfold token_policies. by rewrite Ht.
Qed.
End replacing.

Lemma published_snapshot a records prepared t : Prepare a records = Ok prepared →
  (∀ rec, rec ∈ records ↔ ∃ id q, tb_rows t !! id = Some q ∧ rec = row_record q) → snapshot_of t (Publish prepared a).
Proof.
  intros Hp Hrec prefix c. cbn. rewrite (prepared_candidates _ _ _ Hp). split.
  - intros (rec & (id & q & Hq & ->)%Hrec & Hs). by exists id, q.
  - intros (id & q & Hq & Hs). exists (row_record q). split; [apply Hrec; by exists id, q|done].
Qed.

(** A successful update: the row, the snapshot and both limiters. *)
Record policy_replaced (id : bytes) (enabled : bool) (policyJSON : bytes) (pr_policy : EffectivePolicy) (pr_row : row) (s s' : adminKeyService) : Prop := {
  pr_parsed : ParsePolicy policyJSON = Ok pr_policy;
  pr_known : is_Some (tb_rows (sv_table s) !! id);
  pr_table : sv_table s' = mkTable (<[id := pr_row]> (tb_rows (sv_table s))) (tb_next (sv_table s));
  pr_written : row_enabled pr_row = enabled ∧ row_policy pr_row = policyJSON;
  pr_ok : table_ok (sv_table s');
  pr_snapshot : snapshot_of (sv_table s') (sv_auth s');
  pr_authenticator : au_pepper (sv_auth s') = au_pepper (sv_auth s) ∧ au_tokenMode (sv_auth s') = au_tokenMode (sv_auth s) ∧ sv_pepper s' = sv_pepper s;
  pr_limiters :
    (token_policies s' = token_policies s ∧ budget_policies s' = budget_policies s ∧ sv_table s' = sv_table s) ∨
    (token_policies s' = insert (key_name id) (list_to_set (Policy_TokenWindows pr_policy)) <$> token_policies s ∧
     budget_policies s' = insert (key_name id) (budgetPolicy pr_policy) <$> budget_policies s);
}.

Lemma update_ok t id r enabled policy now : table_ok t → tb_rows t !! id = Some r →
  table_ok (mkTable (<[id := updated enabled policy now r]> (tb_rows t)) (tb_next t)).
Proof.
  intros Hok Hr. pose proof (proj1 (key_step_ok _ _ (step_update false id enabled policy now t) Hok)) as H. unfold update_row in H.
  by rewrite (ro_identifier _ _ _ (proj2 Hok _ _ Hr)), Hr in H.
Qed.

Lemma updatePolicy_spec x id enabled policyJSON s : table_ok (sv_table s) → quiet x →
  match updatePolicy x id enabled policyJSON s with
  | (Err _, s') => stores_kept s s'
  | (Ok k, s') => uk_ID k = id ∧ uk_Policy k = policyJSON ∧ ∃ p r, policy_replaced id enabled policyJSON p r s s'
  end.
Proof.
  intros Hok Hq. unfold updatePolicy. destruct (TrimSpace_empty id); [reflexivity|]. destruct (ParsePolicy policyJSON) as [newPolicy|] eqn:Enew; [|reflexivity].
  destruct (ListKeys _ _) as [records|] eqn:EL; [|reflexivity]. destruct (split_at_id id records) as [[[b old] a]|] eqn:Esp; [|reflexivity].
  destruct (ParsePolicy (k_PolicyJSON old)) as [oldPolicy|] eqn:Eold; [|reflexivity]. cbv zeta.
  destruct (records_of_update _ _ _ _ _ _ _ Hok EL Esp) as (r & Hr & Hs & Hrec). pose proof (split_at_id_spec _ _ _ _ _ Esp) as [_ Hid].
  destruct (allowTokenPolicyReplacement _ _ _ _ s) as [allowed s1] eqn:Ea. pose proof (allowTokenPolicyReplacement_kept _ _ _ _ _ _ _ Ea) as Hk1.
  destruct allowed; cbn [negb]; [|done]. destruct (allowBudgetPolicyReplacement _ _ _ _); cbn [negb]; [|done].
  destruct (Prepare _ _) as [prepared|] eqn:Ep; [|done]. destruct (Bool.eqb _ _ && same _ _) eqn:Eun.
  - apply andb_true_iff in Eun as [Een Epj]. apply eqb_prop in Een. apply bool_decide_eq_true in Epj. destruct (scan_fields _ _ Hs) as (Hrecord & _ & Hre & Hrp).
    split; [done|]. split; [done|]. destruct Hk1 as [Ht Hp Ha Htk Hbd]. exists newPolicy, r. split; cbn; rewrite ?Ht, ?Ha, ?Hp; try done.
    + rewrite (insert_id _ _ _ Hr). by destruct (sv_table s).
    + by rewrite <-Hre, <-Hrp.
    + rewrite Ha in Ep. apply (published_snapshot _ _ _ _ Ep). intros rec. rewrite (Hrec (replaced enabled policyJSON old) r), (insert_id _ _ _ Hr); [done|].
      rewrite <-Hrecord. unfold replaced, authRecord. cbn. by rewrite Een, Epj.
    + left. split_and!; try done.
  - pose proof (traffic_kept x s1 Hq) as Hk2. assert (stores_kept s (traffic x s1)) as [Ht Hp Ha Htk Hbd] by (by transitivity s1).
    pose proof (replace_spec x id enabled policyJSON r old (Policy_TokenWindows oldPolicy) (Policy_TokenWindows newPolicy) (budgetPolicy oldPolicy) (budgetPolicy newPolicy)
      (up_clk_replace x) (traffic x s1)) as H. rewrite Ht in H. specialize (H Hok Hr Hs). unfold replacement_layer in H.
    destruct (replaceTokenPolicy _ _ _ _ _ _) as [[k|e] s2]; cbn [fst snd] in H.
    + destruct H as (Hkid & Hp2 & Ha2 & Ht2 & Htk2 & Hbd2). split; [|split; [done|]].
      { cbn. case_match; done. }
      destruct Hk1 as [Hts1 _ Ha1 _ _]. rewrite Ha1 in Ep.
      exists newPolicy, (updated enabled (Some policyJSON) (up_now x) r). split; cbn; rewrite ?Ha2, ?Hp2, ?Ha, ?Hp; try done.
      * by rewrite Ht2, Ht.
      * rewrite Ht2, Ht. by apply update_ok.
      * rewrite Ht2, Ht. apply (published_snapshot _ _ _ _ Ep). intros rec. cbn [tb_rows]. apply Hrec. destruct (scan_fields _ _ Hs) as (Hrecord & _).
        unfold row_record, replaced, authRecord in *. cbn. injection Hrecord as -> -> -> -> _ -> _. done.
      * right. unfold token_policies, budget_policies in *. cbn. by rewrite Htk2, Hbd2, Htk, Hbd.
    + assert (stores_kept s s2) by (transitivity (traffic x s1); [by split|done]). by destruct e.
Qed.

(** ** Agreement is kept *)

Lemma policies_of_insert {A} t (value : EffectivePolicy → A) m id r p : policies_of t value m → ParsePolicy (row_policy r) = Ok p →
  policies_of (mkTable (<[id := r]> (tb_rows t)) (tb_next t)) value (<[key_name id := value p]> m).
Proof.
  intros H Hp key v. rewrite lookup_insert_Some. intros [[<- <-]|[Hne Hv]].
  - exists id, r, p. cbn. by rewrite lookup_insert_eq.
  - destruct (H key v Hv) as (id' & r' & p' & -> & Hr & ? & ?). exists id', r', p'. cbn. rewrite lookup_insert_ne; [done|]. by intros ->.
Qed.

Lemma policies_of_more {A} t (value : EffectivePolicy → A) m id r next : policies_of t value m → tb_rows t !! id = None →
  policies_of (mkTable (<[id := r]> (tb_rows t)) next) value m.
Proof.
  intros H Hf key v Hv. destruct (H key v Hv) as (id' & r' & p' & -> & Hr & ? & ?). exists id', r', p'. cbn. rewrite lookup_insert_ne; [done|congruence].
Qed.

Lemma policy_replaced_coherent id enabled policyJSON p r s s' : policy_replaced id enabled policyJSON p r s s' → coherent s → coherent s'.
Proof.
  intros [Hp _ Ht [_ Hw] Hok' Hsn (Ha1 & Ha2 & Hpe) Hlim] [Hok Hpep Hmode _ Htk Hbd]. split; try done; [congruence|congruence| |].
  - destruct Hlim as [(Htk' & _ & Et)|[Htk' _]]; rewrite Htk'; [rewrite Et; exact Htk|]. intros m (m0 & Em & ->)%fmap_Some. rewrite Ht.
    apply (policies_of_insert _ (λ p, list_to_set (Policy_TokenWindows p))); [by apply Htk|by rewrite Hw].
  - destruct Hlim as [(_ & Hbd' & Et)|[_ Hbd']]; rewrite Hbd'; [rewrite Et; exact Hbd|]. intros m (m0 & Em & ->)%fmap_Some. rewrite Ht.
    apply policies_of_insert; [by apply Hbd|by rewrite Hw].
Qed.


Lemma Insert_err fails record t e t' : Insert fails record t = (Some e, t') → t' = t.
Proof. unfold Insert. repeat (case_match; try by intros [= _ <-]). Qed.

Lemma truncate_Unix t : Unix (truncate_second t) = Unix t.
Proof. unfold Unix, truncate_second. by rewrite Z.div_mul. Qed.

(** What an insertion that succeeded stored. *)
Lemma Insert_record fails record t t' : Insert fails record t = (None, t') → table_ok t → k_Prefix record = [] → k_KeyHash record = [] →
  ∃ r, tb_rows t !! row_id r = None ∧ t' = mkTable (<[row_id r := r]> (tb_rows t)) (tb_next t + 1) ∧ row_record r = authRecord record ∧ violates r t = false.
Proof.
  intros E Hok Hpre Hhash. unfold Insert in E. destruct (Validate record) eqn:Ev; [done|]. destruct (Validate_timestamps _ Ev) as (_ & _ & He).
  assert (∀ a, either a [] = Some a) as Hei by (intros a; unfold either; case_bool_decide; by subst).
  unfold identityValues in E. rewrite Hpre, Hhash, !Hei in E. cbn [mbind option_bind] in E. destruct fails; [done|]. set (r := mkRow _ _ _ _ _ _ _ _ _ _) in E.
  destruct (violates r t) eqn:Eb; [done|]. injection E as <-. exists r. split; [by apply violates_fresh|]. split; [done|]. split; [|done].
  unfold row_record, authRecord, r. cbn. f_equal. destruct (k_ExpiresAt record) as [e|]; [|done]. cbn. f_equal. by apply whole_seconds, He.
Qed.

(** A new row is one more record. *)
Lemma records_of_insert fails t records id r record : ListKeys fails t = Ok records → tb_rows t !! id = None → authRecord record = row_record r →
  ∀ rec, rec ∈ authRecords (records ++ [record]) ↔ ∃ id' q, <[id := r]> (tb_rows t) !! id' = Some q ∧ rec = row_record q.
Proof.
  intros HL Hfresh Hrec rec. unfold authRecords. rewrite list_elem_of_fmap. split.
  - intros (k & -> & [Hk|Hk]%elem_of_app).
    + apply (listed_iff _ _ _ _ HL) in Hk as (id' & q & Hq & Hs). exists id', q. split; [rewrite lookup_insert_ne; [done|congruence]|by apply scan_fields].
    + apply list_elem_of_singleton in Hk as ->. exists id, r. by rewrite lookup_insert_eq.
  - intros (id' & q & Hq & ->). apply lookup_insert_Some in Hq as [[<- <-]|[_ Hq]]; [exists record; split; [done|set_solver]|].
    pose proof (ListKeys_scan _ _ _ HL) as HF. assert (q ∈ sort_slice by_id (rows t)) as [i Hi]%list_elem_of_lookup.
    { rewrite sort_slice_Permutation. apply list_elem_of_fmap. exists (id', q). split; [done|by apply elem_of_map_to_list]. }
    destruct (Forall2_lookup_l _ _ _ _ _ HF Hi) as (k & Hk & Hs). exists k. split; [symmetry; by apply scan_fields|]. apply elem_of_app. left. by eapply list_elem_of_lookup_2.
Qed.

Section creating.
Context (hmac : bytes → bytes → bytes).

(** A created key: its row, with a digest no other row has. *)
Definition key_created (k : createdAdminKey) (name : bytes) (expires : option Z) (s s' : adminKeyService) : Prop :=
  ∃ r, tb_rows (sv_table s') !! ck_ID k = Some r ∧ row_record r = mkRecord (ck_ID k) name (ck_Prefix k) [] (hmac (sv_pepper s) (ck_RawKey k)) [] true expires empty_policy [] ∧
    (∀ id q, tb_rows (sv_table s') !! id = Some q → row_hash q = row_hash r → id = ck_ID k) ∧
    (∀ id, id ≠ ck_ID k → tb_rows (sv_table s') !! id = tb_rows (sv_table s) !! id) ∧
    ParseGatewayKey (ck_RawKey k) = Ok (ck_Prefix k) ∧ tb_rows (sv_table s) !! ck_ID k = None ∧ ck_ExpiresAt k = expires ∧ sv_pepper s' = sv_pepper s ∧
    ∃ pc, snapshot_record (au_tokenMode (sv_auth s')) (row_record r) = Ok pc.

Lemma create_attempt_spec x name expires s : coherent s → 0 < Unix (at_now x) <= maxInt64 →
  match create_attempt hmac x name expires s with
  | (Some (Ok k), s') => coherent s' ∧ key_created k name expires s s' ∧ token_policies s' = token_policies s ∧ budget_policies s' = budget_policies s
  | (_, s') => stores_kept s s'
  end.
Proof.
  intros Hco Hnow. unfold create_attempt. destruct (Generate _ _ _) as [g|] eqn:Eg; [|reflexivity]. destruct (ParseGatewayKey _) as [prefix|] eqn:Epf; [|reflexivity].
  destruct (newAPIKeyID _) as [id|]; [|reflexivity]. cbv zeta. destruct (ListKeys _ _) as [records|] eqn:EL; [|reflexivity]. set (record := mkKey _ _ _ _ _ _ _ _ _ _ _).
  destruct (Prepare _ _) as [prepared|] eqn:Ep; [|reflexivity]. destruct (Insert _ record _) as [[e|] t'] eqn:Ei.
  { pose proof (Insert_err _ _ _ _ _ Ei) as ->. assert (put_table (sv_table s) s = s) as -> by (by destruct s). destruct e; reflexivity. }
  destruct Hco as [Hok Hpep Hmode Hauth Htk Hbd]. destruct (Insert_record _ _ _ _ Ei Hok eq_refl eq_refl) as (r & Hfresh & -> & Hrec & Hviol).
  assert (row_id r = id) as Hid by (by injection Hrec). rewrite Hid in *. apply Generate_spec in Eg as (_ & m & _ & _ & _ & Hdig).
  split; [|split; [|done]].
  - split; try done; cbn.
    + pose proof (key_step_ok _ _ (step_insert (at_insert_fails x) record (sv_table s) ltac:(cbn; by rewrite truncate_Unix)) Hok) as [H _]. rewrite Ei in H. exact H.
    + apply (published_snapshot _ _ _ _ Ep). intros rec. by apply (records_of_insert _ _ _ _ _ _ EL).
    + intros m' Hm. apply policies_of_more; [by apply Htk|done].
    + intros m' Hm. apply policies_of_more; [by apply Hbd|done].
  - exists r. cbn. rewrite lookup_insert_eq. unfold digestKey in Hdig. split_and!; try done.
    + rewrite Hrec. unfold authRecord, record. cbn. by rewrite Hdig.
    + intros id' q Hq Hh. apply lookup_insert_Some in Hq as [[-> _]|[_ Hq]]; [done|]. exfalso. unfold violates in Hviol. rewrite !orb_false_iff in Hviol. destruct Hviol as [_ Hv].
      assert (existsb (λ q, same (row_id q) (row_id r) || same (row_hash q) (row_hash r) || same (row_prefix q) (row_prefix r)) (rows (sv_table s)) = true) as Hx; [|congruence].
      apply existsb_exists. exists q. split; [apply list_elem_of_In, list_elem_of_fmap; exists (id', q); split; [done|by apply elem_of_map_to_list]|].
      rewrite Hh. unfold same at 2. rewrite (bool_decide_true (row_hash r = row_hash r)) by done. by rewrite orb_true_r.
    + intros id' Hne. by rewrite lookup_insert_ne.
    + apply (prepared_all _ _ _ _ Ep). rewrite Hrec. unfold authRecords. apply list_elem_of_fmap_2. set_solver.
Qed.
End creating.

Section runs.
Context (hmac : bytes → bytes → bytes).

Lemma create_attempts_spec n xs name expires : (∀ n, 0 < Unix (at_now (xs n)) <= maxInt64) → ∀ s, coherent s →
  match create_attempts hmac n xs name expires s with
  | (Ok k, s') => coherent s' ∧ key_created hmac k name expires s s' ∧ token_policies s' = token_policies s ∧ budget_policies s' = budget_policies s
  | (Err _, s') => stores_kept s s'
  end.
Proof.
  intros Hnow. induction n as [|m IH]; intros s Hco; cbn [create_attempts]; [reflexivity|].
  pose proof (create_attempt_spec hmac (xs m) name expires s Hco (Hnow m)) as H. destruct (create_attempt _ _ _ _ s) as [[[k|e]|] s1]; [done|done|].
  specialize (IH s1 (coherent_kept _ _ H Hco)). destruct (create_attempts _ _ _ _ _ s1) as [[k|e] s2]; [|by transitivity s1].
  destruct H as [Ht Hp _ Htk Hbd]. unfold key_created in *. by rewrite <-Ht, <-Hp, <-Htk, <-Hbd.
Qed.

Lemma create_spec xs name expiresAt s : coherent s → (∀ n, 0 < Unix (at_now (xs n)) <= maxInt64) →
  match create hmac xs name expiresAt s with
  | (Ok k, s') => coherent s' ∧ key_created hmac k name (truncate_second <$> expiresAt) s s' ∧ token_policies s' = token_policies s ∧ budget_policies s' = budget_policies s
  | (Err _, s') => stores_kept s s'
  end.
Proof.
  intros Hco Hnow. unfold create. destruct (same _ []); [reflexivity|]. destruct (_ || _); [reflexivity|]. cbv zeta.
  destruct (match truncate_second <$> expiresAt with Some e => IsZero e | None => false end); [reflexivity|]. by apply create_attempts_spec.
Qed.

(** ** The start *)

Lemma policies_of_add {A} t (value : EffectivePolicy → A) m id r p : policies_of t value m → tb_rows t !! id = Some r → ParsePolicy (row_policy r) = Ok p →
  policies_of t value (<[key_name id := value p]> m).
Proof. intros H Hr Hp key v. rewrite lookup_insert_Some. intros [[<- <-]|[_ Hv]]; [by exists id, r, p|by apply H]. Qed.

Definition stored_records (t : table) (records : list APIKeyRecord) : Prop :=
  Forall (λ k, ∃ r, tb_rows t !! k_ID k = Some r ∧ row_policy r = k_PolicyJSON k) records.

Lemma register_tokens_spec t records : stored_records t records → ∀ l l', register_tokens records l = Ok l' →
  policies_of t (λ p, list_to_set (Policy_TokenWindows p)) (policyWindows l) → policies_of t (λ p, list_to_set (Policy_TokenWindows p)) (policyWindows l').
Proof.
  induction 1 as [|k records (r & Hr & Hp) _ IH]; intros l l'; cbn; [by intros [= <-]|]. destruct (ParsePolicy _) as [p|] eqn:E; [|done]. intros H Hl. apply (IH _ _ H). cbn.
  apply (policies_of_add t (λ p, list_to_set (Policy_TokenWindows p)) _ _ r); [done|done|congruence].
Qed.

Lemma register_budgets_spec t records : stored_records t records → ∀ l l', register_budgets records l = Ok l' →
  policies_of t budgetPolicy (bl_policies l) → policies_of t budgetPolicy (bl_policies l').
Proof.
  induction 1 as [|k records (r & Hr & Hp) _ IH]; intros l l'; cbn [register_budgets]; [by intros [= <-]|]. destruct (ParsePolicy _) as [p|] eqn:E; [|done]. intros H Hl. apply (IH _ _ H).
  unfold BudgetLimiter_RegisterPolicy. destruct (_ || _); [done|]. apply (policies_of_add t _ _ _ r); [done|done|congruence].
Qed.

Lemma listed_stored fails t records : table_ok t → ListKeys fails t = Ok records → stored_records t records.
Proof.
  intros Hok HL. apply Forall_forall. intros k Hk. apply (listed_iff _ _ _ _ HL) in Hk as (id & r & Hr & (_ & Hid & _ & Hp)%scan_fields).
  rewrite (ro_id _ _ _ (proj2 Hok _ _ Hr)) in Hid. subst id. by exists r.
Qed.

Lemma listed_records fails t records : ListKeys fails t = Ok records →
  ∀ rec, rec ∈ authRecords records ↔ ∃ id q, tb_rows t !! id = Some q ∧ rec = row_record q.
Proof.
  intros HL rec. unfold authRecords. rewrite list_elem_of_fmap. split.
  - intros (k & -> & (id & q & Hq & Hs)%(listed_iff _ _ _ _ HL)). exists id, q. split; [done|by apply scan_fields].
  - intros (id & q & Hq & ->). pose proof (ListKeys_scan _ _ _ HL) as HF. assert (q ∈ sort_slice by_id (rows t)) as [i Hi]%list_elem_of_lookup.
    { rewrite sort_slice_Permutation. apply list_elem_of_fmap. exists (id, q). split; [done|by apply elem_of_map_to_list]. }
    destruct (Forall2_lookup_l _ _ _ _ _ HF Hi) as (k & Hk & Hs). exists k. split; [symmetry; by apply scan_fields|by eapply list_elem_of_lookup_2].
Qed.

Lemma start_coherent f1 f2 f3 t pepper modes tokens budgets s : start_service f1 f2 f3 t pepper modes tokens budgets = Ok s → table_ok t →
  (∀ l, tokens = Some l → policyWindows l = ∅) → (∀ l, budgets = Some l → bl_policies l = ∅) → coherent s.
Proof.
  intros (s0 & E0 & (s1 & E1 & E2)%result_bind_Ok)%result_bind_Ok Hok Htk Hbd.
  assert (coherent s0 ∧ sv_table s0 = t ∧ sv_tokens s0 = None ∧ sv_budgets s0 = None) as (H0 & Et0 & En1 & En2).
  { unfold newAdminKeyService in E0. destruct (NewAuthenticator pepper modes) as [a|] eqn:Ea; [|done]. unfold loadSnapshot in E0. cbn [sv_table sv_auth] in E0.
    destruct (ListKeys f1 t) as [records|] eqn:EL; [|done]. assert (au_pepper a = pepper ∧ valid_mode (au_tokenMode a) = true) as [Hp Hm].
    { unfold NewAuthenticator in Ea. destruct (bool_decide _); [done|]. destruct modes as [|m [|]]; [by injection Ea as <-| |done]. destruct (valid_mode m) eqn:E; [|done]. by injection Ea as <-. }
    unfold Load in E0. destruct (bool_decide _); [done|]. destruct (Prepare a _) as [prepared|] eqn:Ep; [|done]. injection E0 as <-. split; [|done]. split; try done. cbn.
    apply (published_snapshot _ _ _ _ Ep), (listed_records _ _ _ EL). }
  assert (coherent s1 ∧ sv_table s1 = t ∧ sv_budgets s1 = None) as (H1 & Et1 & En3).
  { unfold wire_tokens in E1. destruct tokens as [l|]; [|by injection E1 as <-]. rewrite Et0 in E1. destruct (ListKeys f2 t) as [records|] eqn:EL; [|done].
    apply result_bind_Ok in E1 as (l' & El & [= <-]). split; [|done]. destruct H0 as [? ? ? ? ? ?]. split; try done. unfold token_policies. cbn. intros m [= <-]. rewrite Et0.
    apply (register_tokens_spec _ _ (listed_stored _ _ _ Hok EL) _ _ El). by rewrite (Htk l eq_refl). }
  unfold wire_budgets in E2. destruct budgets as [l|]; [|by injection E2 as <-]. rewrite Et1 in E2. destruct (ListKeys f3 t) as [records|] eqn:EL; [|done].
  apply result_bind_Ok in E2 as (l' & El & [= <-]). destruct H1 as [? ? ? ? ? ?]. split; try done. unfold budget_policies. cbn. intros m [= <-]. rewrite Et1.
  apply (register_budgets_spec _ _ (listed_stored _ _ _ Hok EL) _ _ El). by rewrite (Hbd l eq_refl).
Qed.

(** ** Runs of the service *)

Inductive service_step : adminKeyService → adminKeyService → Prop :=
| step_create xs name expiresAt s : (∀ n, 0 < Unix (at_now (xs n)) <= maxInt64) → service_step s (create hmac xs name expiresAt s).2
| step_policy x id enabled policyJSON s : quiet x → service_step s (updatePolicy x id enabled policyJSON s).2
| step_traffic x s : quiet x → service_step s (traffic x s).


Lemma service_step_coherent s s' : service_step s s' → coherent s → coherent s'.
Proof.
  destruct 1 as [xs name expiresAt s Hnow|x id enabled policyJSON s Hq|x s Hq]; intros Hco.
  - pose proof (create_spec xs name expiresAt s Hco Hnow) as H. destruct (create hmac _ _ _ s) as [[k|e] s']; [apply H|by eapply coherent_kept].
  - pose proof (updatePolicy_spec x id enabled policyJSON s (co_table _ Hco) Hq) as H.
    destruct (updatePolicy _ _ _ _ s) as [[k|e] s']; [|by eapply coherent_kept]. destruct H as (_ & _ & p & r & H). by eapply policy_replaced_coherent.
  - eapply coherent_kept; [by apply traffic_kept|done].
Qed.

Lemma service_coherent s s' : rtc service_step s s' → coherent s → coherent s'.
Proof. induction 1; [done|]. intros. by eauto using service_step_coherent. Qed.

(** ** What authentication sees *)

Lemma authLoop_candidate clk i digest prefix d e cs p : authLoop clk i digest prefix d e cs = Ok p →
  ∃ c, c ∈ cs ∧ sr_digest c = digest ∧ sr_enabled c = true ∧ p = principalFor c prefix.
Proof.
  revert i d e. induction cs as [|c cs IH]; intros i d e; cbn; [by destruct d, e|]. case_bool_decide as Ed; cbn.
  - destruct (sr_enabled c) eqn:Ee; cbn; [|intros (c' & ? & ?)%IH; exists c'; set_solver]. destruct (expired_at (clk i) c); [intros (c' & ? & ?)%IH; exists c'; set_solver|].
    intros [= <-]. exists c. split; [set_solver|done].
  - intros (c' & ? & ?)%IH. exists c'. set_solver.
Qed.

Lemma authenticated_candidate clk a raw p : Authenticate hmac clk a raw = Ok p →
  ∃ c, c ∈ candidates (au_state a) (take prefixLength raw) ∧ sr_digest c = hmac (au_pepper a) raw ∧ sr_enabled c = true ∧ p = principalFor c (take prefixLength raw).
Proof.
  unfold Authenticate, authenticateSnapshot. destruct (bool_decide _); [done|]. destruct (ParseGatewayKey raw) as [prefix|] eqn:Ep; [|done].
  apply ParseGatewayKey_iff in Ep as [-> _]. destruct (candidates _ _) as [|c cs] eqn:Ec; [done|]. rewrite <-Ec. unfold digestKey. intros (c' & ?)%authLoop_candidate. by exists c'.
Qed.

Lemma row_record_policy r : record_policy (row_record r) = row_policy r.
Proof. unfold record_policy. cbn. case_bool_decide; congruence. Qed.

Lemma row_candidate mode r prefix c : snapshot_record mode (row_record r) = Ok (prefix, c) →
  ∃ policy, ParsePolicyWithTokenMode (row_policy r) mode = Ok policy ∧
    c = mkSnapshotRecord (row_id r) (row_name r) (row_hash r) (row_enabled r) ((λ e, e * second) <$> row_expires r) (row_policy r) policy ∧ prefix = row_prefix r.
Proof.
  intros (Hp & _ & policy & Hpol & -> & _)%snapshot_record_spec. rewrite row_record_policy in *. exists policy. split; [done|].
  assert (record_digest (row_record r) = row_hash r) as -> by (unfold record_digest; cbn; case_bool_decide; congruence).
  split; [done|]. rewrite Hp. unfold record_prefix. cbn. case_bool_decide; congruence.
Qed.

Lemma budget_in_force m b : budget_compiled m b → negb b || sameMoney m m = true.
Proof.
  unfold budget_compiled. destruct b; [|done]. intros [Hk _]. cbn [negb orb]. unfold sameMoney, Money_Equal, Money_Compare. rewrite Hk. cbn [negb orb]. by rewrite Z.ltb_irrefl.
Qed.

Lemma sameBudgetPolicy_compiled p : policy_wf p → sameBudgetPolicy (budgetPolicy p) (budgetPolicy p) = true.
Proof.
  intros (H1 & H2 & H3)%wf_budgets. unfold sameBudgetPolicy. rewrite !eqb_reflx. cbn [andb]. unfold budgetPolicy, Policy_TotalBudget, Policy_DailyBudget, Policy_MonthlyBudget.
  cbn [Limited DayLimited MonthLimited BudgetLimiter.Total Day Month]. by rewrite !budget_in_force.
Qed.

(** C24: A policy update is atomic over its four stores.  When it reports an
    error, the durable rows, the authentication snapshot and the policies of
    both limiters are what they were; when it succeeds, the key's row carries
    the new flag and policy and no other row changed, the published snapshot is
    that of the new table, and both limiters enforce the new policy, or nothing
    changed because the request repeats what is stored. *)
Theorem policy_update_atomic x id enabled policyJSON s : table_ok (sv_table s) → quiet x →
  match updatePolicy x id enabled policyJSON s with
  | (Err _, s') => stores_kept s s'
  | (Ok k, s') => uk_ID k = id ∧ uk_Policy k = policyJSON ∧ ∃ p r, policy_replaced id enabled policyJSON p r s s'
  end.
Proof. apply updatePolicy_spec. Qed.

(** C23: In every state the service reaches from its start, whatever keys were
    created, policies replaced and requests served, a key that authenticates is
    stored and enabled, and its principal carries the policy in force: the
    stored one, which neither the token limiter nor the budget limiter refuses
    as outdated. *)
Theorem authenticated_policy_in_force f1 f2 f3 t pepper modes tokens budgets s0 s clk raw p :
  start_service f1 f2 f3 t pepper modes tokens budgets = Ok s0 → table_ok t →
  (∀ l, tokens = Some l → policyWindows l = ∅) → (∀ l, budgets = Some l → bl_policies l = ∅) →
  rtc service_step s0 s → Authenticate hmac clk (sv_auth s) raw = Ok p →
  ∃ r, tb_rows (sv_table s) !! p_ID p = Some r ∧ row_enabled r = true ∧ row_hash r = hmac (sv_pepper s) raw ∧ p_PolicyJSON p = row_policy r ∧
    (∀ l, sv_tokens s = Some l → policy_current l (key_name (p_ID p)) (normalizeTokenWindows (Policy_TokenWindows (p_Policy p))).1 = true) ∧
    (∀ l, sv_budgets s = Some l → BudgetLimiter_PolicyCurrent (key_name (p_ID p)) (budgetPolicy (p_Policy p)) l = true).
Proof.
  intros Hs Hok Htk0 Hbd0 Hrun Hauth. pose proof (service_coherent _ _ Hrun (start_coherent _ _ _ _ _ _ _ _ _ Hs Hok Htk0 Hbd0)) as [Hok' Hpep Hmode Hsnap Htk Hbd].
  apply authenticated_candidate in Hauth as (c & Hc & Hd & He & ->). apply Hsnap in Hc as (id & r & Hr & Hrec). apply row_candidate in Hrec as (policy & Hpol & -> & _).
  pose proof (ro_id _ _ _ (proj2 Hok' _ _ Hr)) as Hid. cbn in *. rewrite Hid. exists r. rewrite Hpep in Hd. split_and!; try done.
  - intros l El. unfold policy_current. destruct (policyWindows l !! key_name id) as [w|] eqn:Ew; [|done].
    destruct (Htk (policyWindows l)) with (key_name id) w as (id' & r' & p' & Ek & Hr' & Hp' & ->); [by unfold token_policies; rewrite El|done|].
    apply key_name_inj in Ek as <-. rewrite Hr in Hr'. injection Hr' as <-. destruct (parsePolicy_mode _ _ _ _ Hmode Hp') as (p'' & Hp'' & Hw & _).
    unfold ParsePolicyWithTokenMode in Hpol. rewrite Hp'' in Hpol. injection Hpol as ->. rewrite <-Hw.
    destruct (normalizeTokenWindows_ok (tokenWindows policy)) as (ws & Ews & Hperm & _); [apply policy_wf_windows, (parsePolicy_wf _ _ _ Hp'')|].
    unfold Policy_TokenWindows. rewrite Ews. apply sameTokenWindowSet_perm; [apply (parsePolicy_wf _ _ _ Hp'')|done].
  - intros l El. unfold BudgetLimiter_PolicyCurrent. destruct (bl_policies l !! key_name id) as [b|] eqn:Eb; [|done].
    destruct (Hbd (bl_policies l)) with (key_name id) b as (id' & r' & p' & Ek & Hr' & Hp' & ->); [by unfold budget_policies; rewrite El|done|].
    apply key_name_inj in Ek as <-. rewrite Hr in Hr'. injection Hr' as <-. destruct (parsePolicy_mode _ _ _ _ Hmode Hp') as (p'' & Hp'' & _ & Hw).
    unfold ParsePolicyWithTokenMode in Hpol. rewrite Hp'' in Hpol. injection Hpol as ->.
    assert (budgetPolicy p' = budgetPolicy policy) as -> by (unfold budgetPolicy, Policy_TotalBudget, Policy_DailyBudget, Policy_MonthlyBudget; by rewrite Hw).
    by apply sameBudgetPolicy_compiled, (parsePolicy_wf _ _ _ Hp'').
Qed.

(** ** Created keys *)

Lemma authLoop_only now i digest prefix d e cs c : c ∈ cs → (∀ c', c' ∈ cs → sr_digest c' = digest → c' = c) → sr_digest c = digest →
  sr_enabled c = true → expired_at now c = false → authLoop (λ _, now) i digest prefix d e cs = Ok (principalFor c prefix).
Proof.
  intros Hin Huniq Hd He Hx. revert i d e. induction cs as [|c' cs IH]; intros i d e; [set_solver|]. cbn. case_bool_decide as Ed; cbn.
  - rewrite (Huniq c' ltac:(set_solver) (eq_sym Ed)), He, Hx. done.
  - apply IH; [|set_solver]. apply elem_of_cons in Hin as [<-|?]; [congruence|done].
Qed.

Lemma authLoop_expired now i digest prefix e cs c : c ∈ cs → (∀ c', c' ∈ cs → sr_digest c' = digest → c' = c) → sr_digest c = digest →
  sr_enabled c = true → expired_at now c = true → authLoop (λ _, now) i digest prefix false e cs = Err ErrExpiredCredential.
Proof.
  intros Hin Huniq Hd He Hx. assert (∀ cs i, (∀ c', c' ∈ cs → sr_digest c' = digest → c' = c) → authLoop (λ _, now) i digest prefix false true cs = Err ErrExpiredCredential) as Hrest.
  { clear -He Hx. intros cs. induction cs as [|c' cs IH]; intros i H; [done|]. cbn. case_bool_decide as Ed; cbn; [|apply IH; set_solver].
    rewrite (H c' ltac:(set_solver) (eq_sym Ed)), He, Hx. cbn. apply IH. set_solver. }
  revert i e. induction cs as [|c' cs IH]; intros i e; [set_solver|]. cbn. case_bool_decide as Ed; cbn.
  - rewrite (Huniq c' ltac:(set_solver) (eq_sym Ed)), He, Hx. cbn. apply Hrest. set_solver.
  - apply IH; [|set_solver]. apply elem_of_cons in Hin as [<-|?]; [congruence|done].
Qed.

Lemma empty_policy_parsed mode : valid_mode mode = true → ParsePolicyWithTokenMode empty_policy mode = Ok (unrestricted mode).
Proof. intros Hm. unfold ParsePolicyWithTokenMode, parsePolicy. rewrite Hm. vm_compute. reflexivity. Qed.

(** C28: A created key works at once.  The raw key that [create] hands out
    authenticates against the published snapshot, until it expires, as the
    identity that was stored, with no restriction; the other keys' rows are
    unchanged, and when no key is created neither are the table, the snapshot
    or the limiters' policies. *)
Theorem created_key_authenticates xs name expiresAt s now : coherent s → sv_pepper s ≠ [] → (∀ n, 0 < Unix (at_now (xs n)) <= maxInt64) →
  match create hmac xs name expiresAt s with
  | (Err _, s') => stores_kept s s'
  | (Ok k, s') =>
      coherent s' ∧ tb_rows (sv_table s) !! ck_ID k = None ∧ (∀ id, id ≠ ck_ID k → tb_rows (sv_table s') !! id = tb_rows (sv_table s) !! id) ∧
      Authenticate hmac (λ _, now) (sv_auth s') (ck_RawKey k) =
        (if match ck_ExpiresAt k with Some e => e <=? now | None => false end then Err ErrExpiredCredential
         else Ok (mkPrincipal (ck_ID k) name (ck_Prefix k) empty_policy (unrestricted (au_tokenMode (sv_auth s')))))
  end.
Proof.
  intros Hco Hpe Hnow. pose proof (create_spec xs name expiresAt s Hco Hnow) as H. destruct (create _ _ _ _ s) as [[k|e] s'] eqn:Ec; [|done].
  destruct H as (Hco' & (r & Hr & Hrec & Huniq & Hother & Hparse & Hnew & Hexp & Hpep & [prefix c] & Hsr) & _). split_and!; try done. destruct Hco' as [Hok' Hpep' Hmode Hsnap _ _].
  pose proof (row_candidate _ _ _ _ Hsr) as (policy & Hpol & Hc & ->). injection Hrec as Hri Hrn Hrp Hrh Hre Hrx Hrpol.
  rewrite Hrpol, (empty_policy_parsed _ Hmode) in Hpol. injection Hpol as <-.
  unfold Authenticate, authenticateSnapshot. rewrite Hpep', Hpep, bool_decide_false by done. rewrite Hparse. unfold digestKey.
  assert (c ∈ candidates (au_state (sv_auth s')) (ck_Prefix k)) as Hin by (rewrite <-Hrp; apply Hsnap; by exists (ck_ID k), r).
  assert (∀ c', c' ∈ candidates (au_state (sv_auth s')) (ck_Prefix k) → sr_digest c' = hmac (sv_pepper s) (ck_RawKey k) → c' = c) as Huc.
  { intros c' (id' & q & Hq & Hsq)%Hsnap Hd. pose proof (row_candidate _ _ _ _ Hsq) as (? & _ & -> & _). cbn in Hd. rewrite <-Hrh in Hd.
    pose proof (Huniq id' q Hq Hd) as ->. rewrite Hr in Hq. injection Hq as <-. rewrite Hsr in Hsq. by injection Hsq as _ ?. }
  revert Hin Huc. destruct (candidates (au_state (sv_auth s')) (ck_Prefix k)) as [|c0 cs]; [set_solver|]. intros Hin Huc.
  assert (expired_at now c = match ck_ExpiresAt k with Some e => e <=? now | None => false end) as Hx.
  { rewrite Hc. unfold expired_at, Before. cbn [sr_expiresAt]. rewrite Hrx, Hexp. destruct (truncate_second <$> expiresAt) as [e|]; [|done]. by rewrite Z.ltb_antisym, negb_involutive. }
  assert (sr_digest c = hmac (sv_pepper s) (ck_RawKey k) ∧ sr_enabled c = true) as [Hcd Hce] by (rewrite Hc; done). rewrite <-Hx. destruct (expired_at now c) eqn:Ex.
  - by apply authLoop_expired with c.
  - rewrite (authLoop_only now 0 _ _ false false _ c) by done. rewrite Hc. unfold principalFor. cbn. by rewrite Hri, Hrn, Hrpol.
Qed.
End runs.

(** ** Witnesses *)

Definition demo_service_at : Z := 1700000000 * second.
Definition demo_attempts (n : nat) : attempt := mkAttempt (Some (replicate 40 "x"%char)) (Some (replicate 16 "k"%char)) demo_service_at false false.
Definition demo_update (tokens : TokenLimiter → TokenLimiter) : update_env :=
  mkUpdateEnv false false demo_service_at demo_service_at demo_service_at tokens (λ l, l).

Definition demo_start : adminKeyService :=
  match start_service false false false new_table (str "pepper") [] (Some NewTokenLimiter) (Some NewBudgetLimiter) with
  | Ok s => s
  | Err _ => mkService new_table [] (mkAuthenticator [] [] ∅) None None
  end.

Definition demo_created : adminKeyService := (create demo_hmac demo_attempts (str "team") None demo_start).2.
Definition demo_raw : bytes := match (create demo_hmac demo_attempts (str "team") None demo_start).1 with Ok k => ck_RawKey k | Err _ => [] end.
Definition demo_id : bytes := match (create demo_hmac demo_attempts (str "team") None demo_start).1 with Ok k => ck_ID k | Err _ => [] end.

Definition minute_policy : bytes := text "{'token_windows':[{'amount':100,'duration':'1m'}]}".
Definition demo_limited : adminKeyService := (updatePolicy (demo_update (λ l, l)) demo_id true minute_policy demo_created).2.

(** A request that reserves tokens under the policy of [demo_limited]. *)
Definition demo_request (l : TokenLimiter) : TokenLimiter := (TokenLimiter_Reserve demo_service_at (key_name demo_id) [mkWindow 100 (60 * second)] 5 l).2.

(** A conflict that is there at the first check is reported as one; a conflict
    that arises between the check and the replacement is reported as an
    internal error, although the wrapper of the limiter names it. *)
Example raced_conflict_is_internal :
  (updatePolicy (demo_update (λ l, l)) demo_id true empty_policy (traffic (demo_update demo_request) demo_limited)).1 = Err errPolicyConflict ∧
  (updatePolicy (demo_update demo_request) demo_id true empty_policy demo_limited).1 = Err errAdminKeyCreation ∧
  is_ok (updatePolicy (demo_update (λ l, l)) demo_id true empty_policy demo_limited).1 = true.
Proof. split_and!; vm_compute; reflexivity. Qed.

Lemma demo_started : start_service false false false new_table (str "pepper") [] (Some NewTokenLimiter) (Some NewBudgetLimiter) = Ok demo_start.
Proof. vm_compute. reflexivity. Qed.

Lemma demo_start_coherent : coherent demo_start.
Proof. apply (start_coherent _ _ _ _ _ _ _ _ _ demo_started new_table_ok); intros l [= <-]; reflexivity. Qed.

Lemma demo_attempts_ok n : 0 < Unix (at_now (demo_attempts n)) <= maxInt64.
Proof. vm_compute. split; congruence. Qed.

Lemma created_key_authenticates_witness :
  Authenticate demo_hmac (λ _, demo_service_at) (sv_auth demo_created) demo_raw =
    Ok (mkPrincipal demo_id (str "team") (take prefixLength demo_raw) empty_policy (unrestricted TokenModeEstimate)).
Proof.
  assert (sv_pepper demo_start ≠ []) as Hp by (vm_compute; discriminate).
  assert (∃ k, create demo_hmac demo_attempts (str "team") None demo_start = (Ok k, demo_created) ∧ ck_RawKey k = demo_raw ∧ ck_ID k = demo_id ∧ ck_Prefix k = take prefixLength demo_raw ∧ ck_ExpiresAt k = None)
    as (k & E & Er & Ei & Ep & Ex) by (eexists; split; [vm_compute; reflexivity|split_and!; vm_compute; reflexivity]).
  assert (au_tokenMode (sv_auth demo_created) = TokenModeEstimate) as Em by (vm_compute; reflexivity).
  pose proof (created_key_authenticates demo_hmac demo_attempts (str "team") None demo_start demo_service_at demo_start_coherent Hp demo_attempts_ok) as H.
  rewrite E in H. destruct H as (_ & _ & _ & H). rewrite Er, Ei, Ep, Ex, Em in H. exact H.
Defined.

Lemma demo_quiet : quiet (demo_update (λ l, l)).
Proof. done. Qed.

Lemma policy_update_atomic_witness :
  match updatePolicy (demo_update (λ l, l)) demo_id true minute_policy demo_created with
  | (Err _, s') => stores_kept demo_created s'
  | (Ok k, s') => uk_ID k = demo_id ∧ uk_Policy k = minute_policy ∧ ∃ p r, policy_replaced demo_id true minute_policy p r demo_created s'
  end.
Proof.
  apply policy_update_atomic; [|exact demo_quiet].
  exact (co_table _ (service_step_coherent demo_hmac _ _ (step_create demo_hmac demo_attempts (str "team") None demo_start demo_attempts_ok) demo_start_coherent)).
Defined.

Lemma authenticated_policy_in_force_witness :
  ∃ p, Authenticate demo_hmac (λ _, demo_service_at) (sv_auth demo_limited) demo_raw = Ok p ∧
  ∃ r, tb_rows (sv_table demo_limited) !! p_ID p = Some r ∧ p_PolicyJSON p = row_policy r.
Proof.
  assert (∃ p, Authenticate demo_hmac (λ _, demo_service_at) (sv_auth demo_limited) demo_raw = Ok p) as [p Ep] by (eexists; vm_compute; reflexivity).
  assert (rtc (service_step demo_hmac) demo_start demo_limited) as Hrun.
  { eapply rtc_l; [exact (step_create demo_hmac demo_attempts (str "team") None demo_start demo_attempts_ok)|].
    apply rtc_once. exact (step_policy demo_hmac (demo_update (λ l, l)) demo_id true minute_policy demo_created demo_quiet). }
  assert (∀ l, Some NewTokenLimiter = Some l → policyWindows l = ∅) as Ht by (intros l [= <-]; reflexivity).
  assert (∀ l, Some NewBudgetLimiter = Some l → bl_policies l = ∅) as Hb by (intros l [= <-]; reflexivity).
  destruct (authenticated_policy_in_force demo_hmac _ _ _ _ _ _ _ _ _ demo_limited (λ _, demo_service_at) demo_raw p demo_started new_table_ok Ht Hb Hrun Ep) as (r & Hr & _ & _ & Hj & _).
  exists p. split; [exact Ep|]. exists r. split; assumption.
Defined.
