(* ===== verification/AdminSession.v ===== *)
(** * Administration requests ([internal/httpserver/admin.go])

    How an administration request is let in: by the administration credential
    in an Authorization header, or by a session cookie with, for a method that
    changes something, the origin check and the session's CSRF token; the login,
    the session query and the logout; and the two endpoints that change keys,
    over the key service.  The digest, the parsers of media types, URLs and
    addresses, and the trusted networks are parameters; a request carries its
    parsed cookies. *)

From Stdlib Require Import Ascii ZArith Lia ZifyBool.
From stdpp Require Import prelude strings list gmap.
From S2P Require Import Prelude Text Utf8 Json JsonCodec Policy GatewayKey CompletionRecord InputSecurity UsageObservation HttpHeaders ResponseWriter Ingress Session Auth KeyStore AdminKeys.
Local Open Scope Z_scope.

#[local] Arguments str : simpl never.

(** ** Requests and answers *)

(** [http.Header], as the header operations take it. *)
Abbreviation http_header := (@gmap bytes (@list_eq_dec ascii Ascii.eq_dec) (@list_countable ascii Ascii.eq_dec Ascii.countable) (list bytes)).

Record admin_request := mkAdminRequest {
  ar_method : bytes; ar_header : http_header; ar_cookies : list (bytes * bytes); ar_host : bytes; ar_tls : bool; ar_remote : bytes;
  ar_body : option (bytes * bool) }.

Definition header_values (r : admin_request) (name : bytes) : list bytes := Values (ar_header r) name.
Definition header_get (r : admin_request) (name : bytes) : bytes := default [] (head (header_values r name)).

Inductive cookie_action := KeepCookie | ClearSessionCookie (secure : bool) | SetSessionCookie (id : string) (maxAge : Z) (secure : bool).

Inductive answer_body :=
| NoBody
| Anonymous
| Authenticated (csrf : string) (idleExpiresAt expiresAt : Z)
| CreatedKey (k : createdAdminKey)
| UpdatedKey (k : updatedAdminKey).

(** The code is that of the error envelope. *)
Record answer := mkAnswer { an_status : Z; an_code : bytes; an_cookie : cookie_action; an_allow : bool; an_body : answer_body }.

(** [writeAdminError]: the public code, whatever the caller names. *)
Definition admin_code (code : bytes) : bytes :=
  if same code (str "unauthorized") then gatewayErrorInvalidAPIKey
  else if same code (str "invalid_request") then gatewayErrorInvalidRequest
  else match definition_of code with Some _ => code | None => gatewayErrorInternal end.

Definition refusal (status : Z) (code : bytes) (cookie : cookie_action) : answer := mkAnswer status (admin_code code) cookie false NoBody.
Definition writeAdminError (status : Z) (code : bytes) : answer := refusal status code KeepCookie.
Definition writeAdminJSON (status : Z) (cookie : cookie_action) (body : answer_body) : answer := mkAnswer status [] cookie false body.

(** ** Credentials of a request *)

Definition CookieName : bytes := str "gw_session".

Inductive cookie_result := NoCookie | Cookie (value : bytes) | DuplicateCookie.

Fixpoint find_cookie (found : option bytes) (cookies : list (bytes * bytes)) : cookie_result :=
  match cookies with
  | [] => match found with Some v => Cookie v | None => NoCookie end
  | (name, v) :: rest =>
      if same name CookieName then match found with Some _ => DuplicateCookie | None => find_cookie (Some v) rest end
      else find_cookie found rest
  end.
Definition getSessionCookie (r : admin_request) : cookie_result := find_cookie None (ar_cookies r).

(** [None] is a duplicate token. *)
Definition getCSRFToken (r : admin_request) : option bytes :=
  match header_values r (str "X-CSRF-Token") ++ header_values r (str "X-Gateway-CSRF-Token") with
  | [] => Some []
  | [t] => Some t
  | _ => None
  end.

Definition isUnsafeHTTPMethod (method : bytes) : bool :=
  same method (str "POST") || same method (str "PUT") || same method (str "DELETE") || same method (str "PATCH").

Definition name_of (s : bytes) : string := String.string_of_list_ascii s.
#[global] Arguments name_of : simpl never.

(** [strings.EqualFold] with a host that [net/http] accepted, which is ASCII. *)
Definition equal_fold (s host : bytes) : bool := bool_decide (foldName s = foldName host).

Record adminHandler := mkHandlerState { ah_credential : bytes; ah_service : adminKeyService; ah_sessions : Store; ah_logins : LoginRateLimiter }.

Definition put_sessions (st : Store) (h : adminHandler) : adminHandler := mkHandlerState (ah_credential h) (ah_service h) st (ah_logins h).
Definition put_logins (l : LoginRateLimiter) (h : adminHandler) : adminHandler := mkHandlerState (ah_credential h) (ah_service h) (ah_sessions h) l.
Definition put_service (s : adminKeyService) (h : adminHandler) : adminHandler := mkHandlerState (ah_credential h) s (ah_sessions h) (ah_logins h).

(** The clock of the operations of one request. *)
Record admin_clocks := mkClocks { ac_get : Z; ac_csrf : Z; ac_allow : Z; ac_failure : Z; ac_create : Z }.

Section handler.
Context (sha256 : bytes → bytes) (ParseMediaType : bytes → option bytes).
(** The host of [net.SplitHostPort], the scheme and host of [url.Parse]. *)
Context (SplitHostPort : bytes → option bytes) (url_Parse : bytes → option (bytes * bytes)).
(** Addresses and the networks of the trusted proxies. *)
Context {IP : Type} (ParseIP : bytes → option IP) (trustedProxies : list (IP → bool)).
Context (hmac : bytes → bytes → bytes).

Definition ClientIPFromRemoteAddr (remoteAddr : bytes) : bytes :=
  let remoteAddr := TrimSpace remoteAddr in
  if same remoteAddr [] then [] else match SplitHostPort remoteAddr with None => remoteAddr | Some host => host end.

Definition IsSecureRequest (r : admin_request) : bool :=
  if ar_tls r then true
  else match trustedProxies with
       | [] => false
       | _ =>
           match ParseIP (ClientIPFromRemoteAddr (ar_remote r)) with
           | None => false
           | Some ip =>
               if negb (existsb (λ contains, contains ip) trustedProxies) then false
               else same (ToLower (TrimSpace (header_get r (str "X-Forwarded-Proto")))) (str "https")
           end
       end.

Definition isSameOrigin (r : admin_request) : bool :=
  if same (header_get r (str "Sec-Fetch-Site")) (str "cross-site") then false
  else
    let origin := header_get r (str "Origin") in
    let origin := if same origin [] then header_get r (str "Referer") else origin in
    if same origin [] then false
    else match url_Parse origin with
         | None => false
         | Some (scheme, host) =>
             if same host [] then false
             else if negb (equal_fold host (ar_host r)) then false
             else if IsSecureRequest r && negb (same scheme (str "https")) then false
             else true
         end.

Definition adminBearerMatches (r : admin_request) (credential : bytes) : bool :=
  if TrimSpace_empty credential then false
  else
    let presented := match header_values r (str "Authorization") with [v] => v | _ => [] end in
    same (sha256 presented) (sha256 (str "Bearer " ++ credential)).

(** [None] lets the request in. *)
Definition authenticate (x : admin_clocks) (r : admin_request) (h : adminHandler) : option answer * adminHandler :=
  let authHeaders := header_values r (str "Authorization") in
  match getSessionCookie r with
  | DuplicateCookie => (Some (writeAdminError 400 (str "ambiguous_credentials")), h)
  | cookie =>
      let value := match cookie with Cookie v => v | _ => [] end in
      let hasCookie := negb (same value []) in
      let hasAuth := (0 <? length authHeaders)%nat in
      if (1 <? length authHeaders)%nat then (Some (writeAdminError 400 (str "ambiguous_credentials")), h)
      else if hasAuth && hasCookie then (Some (writeAdminError 400 (str "ambiguous_credentials")), h)
      else if hasAuth then
        if negb (adminBearerMatches r (ah_credential h)) then (Some (writeAdminError 401 (str "unauthorized")), h) else (None, h)
      else if hasCookie then
        match Store_Get (ac_get x) (name_of value) (ah_sessions h) with
        | (None, st) => (Some (refusal 401 (str "unauthorized") (ClearSessionCookie (IsSecureRequest r))), put_sessions st h)
        | (Some _, st) =>
            let h := put_sessions st h in
            if isUnsafeHTTPMethod (ar_method r) then
              if negb (isSameOrigin r) then (Some (writeAdminError 403 (str "forbidden")), h)
              else match getCSRFToken r with
                   | None => (Some (writeAdminError 400 (str "ambiguous_credentials")), h)
                   | Some token =>
                       if negb (Store_ValidateCSRF (ac_csrf x) (name_of value) (name_of token) (ah_sessions h))
                       then (Some (writeAdminError 403 (str "invalid_csrf_token")), h) else (None, h)
                   end
            else (None, h)
        end
      else (Some (writeAdminError 401 (str "unauthorized")), h)
  end.

(** ** Sessions *)

Definition adminRequestBodyLimit : nat := 16 * 1024.

Record adminSessionLoginRequest := mkLoginRequest { lr_Credential : bytes; lr_AdminCredential : bytes; lr_Password : bytes }.

Definition login_names : list bytes := [str "credential"; str "admin_credential"; str "password"].
Definition set_login (name raw : bytes) (b : adminSessionLoginRequest) : option adminSessionLoginRequest :=
  if bool_decide (name = str "credential") then v ← Unmarshal_string (lr_Credential b) raw; Some (mkLoginRequest v (lr_AdminCredential b) (lr_Password b))
  else if bool_decide (name = str "admin_credential") then v ← Unmarshal_string (lr_AdminCredential b) raw; Some (mkLoginRequest (lr_Credential b) v (lr_Password b))
  else v ← Unmarshal_string (lr_Password b) raw; Some (mkLoginRequest (lr_Credential b) (lr_AdminCredential b) v).

(** The text of the first value a [json.Decoder] reads. *)
Definition first_value (s : bytes) : option bytes :=
  match value (S (2 * length s)) maxNestingDepth (skip_ws s) with
  | Some (_, rest) => Some (consumed (skip_ws s) rest)
  | None => None
  end.

Definition decode_login (data : bytes) : option adminSessionLoginRequest :=
  raw ← first_value (take adminRequestBodyLimit data); Unmarshal_known login_names set_login (mkLoginRequest [] [] []) raw.

Definition session_body (st : Store) (s : Session) : answer_body :=
  Authenticated (s_CSRFToken s) (s_LastActiveAt s + st_idleTimeout st) (s_CreatedAt s + st_absoluteTimeout st).

Definition handleSessionLogin (x : admin_clocks) (iters : gmap string rateLimitEntry → list (string * rateLimitEntry))
    (iter : gmap string Session → list (string * Session)) (rand : list Z) (r : admin_request) (h : adminHandler) : answer * adminHandler :=
  let ip := name_of (ClientIPFromRemoteAddr (ar_remote r)) in
  let '(allowed, l) := Login_Allow (ac_allow x) ip (ah_logins h) in
  let h := put_logins l h in
  if negb allowed then (writeAdminError 429 (str "rate_limit_exceeded"), h)
  else match getSessionCookie r with
  | DuplicateCookie => (writeAdminError 400 (str "ambiguous_credentials"), h)
  | cookie =>
  match ar_body r with
  | None => (writeAdminError 400 (str "invalid_request"), h)
  | Some (data, _) =>
      if negb (isJSONMediaType ParseMediaType (header_values r (str "Content-Type"))) then (writeAdminError 400 (str "invalid_request"), h)
      else match decode_login data with
      | None => (writeAdminError 400 (str "invalid_request"), h)
      | Some body =>
          let cred := lr_Credential body in
          let cred := if same cred [] then lr_AdminCredential body else cred in
          let cred := if same cred [] then lr_Password body else cred in
          let matched := same (sha256 cred) (sha256 (ah_credential h)) in
          if negb matched || TrimSpace_empty cred
          then (writeAdminError 401 (str "invalid_api_key"), put_logins (Login_RecordFailure iters (ac_failure x) ip (ah_logins h)) h)
          else
            let h := put_logins (Login_RecordSuccess ip (ah_logins h)) h in
            let h := match cookie with
                     | Cookie v => if same v [] then h else put_sessions (Store_Revoke (name_of v) (ah_sessions h)) h
                     | _ => h
                     end in
            match Store_Create iter (ac_create x) rand (ah_sessions h) with
            | (None, _, st) => (writeAdminError 500 (str "gateway_internal_error"), put_sessions st h)
            | (Some s, _, st) =>
                (writeAdminJSON 200 (SetSessionCookie (s_ID s) (Z.quot (st_absoluteTimeout st) second) (IsSecureRequest r)) (session_body st s), put_sessions st h)
            end
      end
  end end.

Definition handleSessionGet (x : admin_clocks) (r : admin_request) (h : adminHandler) : answer * adminHandler :=
  match getSessionCookie r with
  | DuplicateCookie => (writeAdminError 400 (str "ambiguous_credentials"), h)
  | NoCookie => (writeAdminJSON 200 KeepCookie Anonymous, h)
  | Cookie v =>
      if same v [] then (writeAdminJSON 200 KeepCookie Anonymous, h)
      else match Store_Get (ac_get x) (name_of v) (ah_sessions h) with
           | (None, st) => (writeAdminJSON 200 (ClearSessionCookie (IsSecureRequest r)) Anonymous, put_sessions st h)
           | (Some s, st) => (writeAdminJSON 200 KeepCookie (session_body st s), put_sessions st h)
           end
  end.

Definition handleSessionLogout (x : admin_clocks) (r : admin_request) (h : adminHandler) : answer * adminHandler :=
  let done h := (writeAdminJSON 200 (ClearSessionCookie (IsSecureRequest r)) Anonymous, h) in
  match getSessionCookie r with
  | DuplicateCookie => (writeAdminError 400 (str "ambiguous_credentials"), h)
  | NoCookie => done h
  | Cookie v =>
      if same v [] then done h
      else match Store_GetWithoutTouch (ac_get x) (name_of v) (ah_sessions h) with
           | None => done h
           | Some s =>
               if negb (isSameOrigin r) then (writeAdminError 403 (str "forbidden"), h)
               else match getCSRFToken r with
                    | None => (writeAdminError 400 (str "ambiguous_credentials"), h)
                    | Some token =>
                        if negb (bool_decide (s_CSRFToken s = name_of token)) then (writeAdminError 403 (str "invalid_csrf_token"), h)
                        else done (put_sessions (Store_Revoke (name_of v) (ah_sessions h)) h)
                    end
           end
  end.

Definition serveSession (x : admin_clocks) (iters : gmap string rateLimitEntry → list (string * rateLimitEntry))
    (iter : gmap string Session → list (string * Session)) (rand : list Z) (r : admin_request) (h : adminHandler) : answer * adminHandler :=
  let authHeaders := header_values r (str "Authorization") in
  match getSessionCookie r with
  | DuplicateCookie => (writeAdminError 400 (str "ambiguous_credentials"), h)
  | cookie =>
      let hasCookie := match cookie with Cookie v => negb (same v []) | _ => false end in
      if (1 <? length authHeaders)%nat || ((0 <? length authHeaders)%nat && hasCookie) then (writeAdminError 400 (str "ambiguous_credentials"), h)
      else if same (ar_method r) (str "POST") then handleSessionLogin x iters iter rand r h
      else if same (ar_method r) (str "GET") then handleSessionGet x r h
      else if same (ar_method r) (str "DELETE") then handleSessionLogout x r h
      else (mkAnswer 405 (admin_code (str "method_not_allowed")) KeepCookie true NoBody, h)
  end.

(** ** Changing keys *)

Inductive body_error := errAdminBodyTooLarge | errAdminBody.

Record adminPolicyRequest := mkPolicyRequest { pq_Enabled : option bool; pq_Policy : bytes }.

Definition policy_request_names : list bytes := [str "enabled"; str "policy"].
Definition set_policy_request (name raw : bytes) (b : adminPolicyRequest) : option adminPolicyRequest :=
  if bool_decide (name = str "enabled") then v ← Unmarshal_pointer Unmarshal_bool false (pq_Enabled b) raw; Some (mkPolicyRequest v (pq_Policy b))
  else Some (mkPolicyRequest (pq_Enabled b) raw).

(** [json.Compact] of a valid text. *)
Fixpoint compact (quoted escaped : bool) (s : bytes) : bytes :=
  match s with
  | [] => []
  | c :: s =>
      if quoted then c :: compact (escaped || negb (byte_eqb c quote_char)) (negb escaped && byte_eqb c backslash) s
      else if json_space c then compact false false s
      else c :: compact (byte_eqb c quote_char) false s
  end.

Definition decodeAdminPolicyRequest (r : admin_request) : result body_error (bool * bytes) :=
  match ar_body r with
  | None => Err errAdminBody
  | Some (data, fails) =>
      if negb (isJSONMediaType ParseMediaType (header_values r (str "Content-Type"))) then Err errAdminBody
      else if (adminRequestBodyLimit <? length data)%nat then Err errAdminBodyTooLarge
      else if fails then Err errAdminBody
      else if negb (rejectDuplicateJSONKeys data) then Err errAdminBody
      else match Unmarshal_struct policy_request_names set_policy_request (mkPolicyRequest None []) data with
           | None => Err errAdminBody
           | Some body =>
               match pq_Enabled body with
               | None => Err errAdminBody
               | Some enabled =>
                   if same (TrimSpace (pq_Policy body)) [] then Err errAdminBody
                   else match ParsePolicy (pq_Policy body) with
                        | Err _ => Err errAdminBody
                        | Ok _ => Ok (enabled, compact false false (pq_Policy body))
                        end
               end
           end
  end.

(** [PUT /admin/v1/keys/{id}/policy]. *)
Definition put_policy (x : admin_clocks) (u : update_env) (id : bytes) (r : admin_request) (h : adminHandler) : answer * adminHandler :=
  if negb (ValidateIdentifier id) then (writeAdminError 400 (str "invalid_request"), h)
  else match authenticate x r h with
  | (Some refused, h) => (refused, h)
  | (None, h) =>
      match decodeAdminPolicyRequest r with
      | Err errAdminBodyTooLarge => (writeAdminError 413 (str "invalid_request"), h)
      | Err errAdminBody => (writeAdminError 400 (str "invalid_request"), h)
      | Ok (enabled, policy) =>
          let '(out, s) := updatePolicy u id enabled policy (ah_service h) in
          (match out with
           | Ok updated => writeAdminJSON 200 KeepCookie (UpdatedKey updated)
           | Err errKeyNotFound => writeAdminError 404 gatewayErrorNotFound
           | Err errInvalidAdminRequest => writeAdminError 400 (str "invalid_request")
           | Err errPolicyConflict => writeAdminError 409 (str "conflict")
           | Err _ => writeAdminError 500 (str "internal_error")
           end, put_service s h)
      end
  end.

(** [POST /admin/v1/keys]; the decoded name and expiration are an argument. *)
Definition post_key (x : admin_clocks) (xs : nat → attempt) (decoded : result body_error (bytes * option Z)) (r : admin_request) (h : adminHandler) : answer * adminHandler :=
  match authenticate x r h with
  | (Some refused, h) => (refused, h)
  | (None, h) =>
      match decoded with
      | Err errAdminBodyTooLarge => (writeAdminError 413 (str "invalid_request"), h)
      | Err errAdminBody => (writeAdminError 400 (str "invalid_request"), h)
      | Ok (name, expiresAt) =>
          let '(out, s) := create hmac xs name expiresAt (ah_service h) in
          (match out with
           | Ok created => writeAdminJSON 201 KeepCookie (CreatedKey created)
           | Err errInvalidAdminRequest => writeAdminError 400 (str "invalid_request")
           | Err _ => writeAdminError 500 (str "internal_error")
           end, put_service s h)
      end
  end.
End handler.

(** ** What lets a request in *)

Definition session_cookies (r : admin_request) : list bytes := map snd (List.filter (λ c, same c.1 CookieName) (ar_cookies r)).
Definition csrf_tokens (r : admin_request) : list bytes := header_values r (str "X-CSRF-Token") ++ header_values r (str "X-Gateway-CSRF-Token").

Lemma getSessionCookie_spec r : getSessionCookie r = match session_cookies r with [] => NoCookie | [v] => Cookie v | _ => DuplicateCookie end.
Proof.
  unfold getSessionCookie, session_cookies. assert (∀ cs v, find_cookie (Some v) cs = match map snd (List.filter (λ c, same c.1 CookieName) cs) with [] => Cookie v | _ => DuplicateCookie end) as H1.
  { induction cs as [|[n w] cs IH]; intros v; cbn; [done|]. destruct (same n CookieName); [done|apply IH]. }
  induction (ar_cookies r) as [|[n w] cs IH]; cbn; [done|]. destruct (same n CookieName); [|done]. by rewrite H1.
Qed.

Lemma name_of_empty v : name_of v = ""%string → v = [].
Proof. destruct v; [done|]. unfold name_of. discriminate. Qed.

Section exact.
Context (sha256 : bytes → bytes).
Context (SplitHostPort : bytes → option bytes) (url_Parse : bytes → option (bytes * bytes)).
Context {IP : Type} (ParseIP : bytes → option IP) (trustedProxies : list (IP → bool)).

#[local] Abbreviation origin_ok := (isSameOrigin SplitHostPort url_Parse ParseIP trustedProxies).
#[local] Abbreviation let_in := (authenticate sha256 SplitHostPort url_Parse ParseIP trustedProxies).

(** The credential in the header, and no session. *)
Definition bearer_ok (r : admin_request) (h : adminHandler) : Prop :=
  (session_cookies r = [] ∨ session_cookies r = [[]]) ∧
  ∃ v, header_values r (str "Authorization") = [v] ∧ TrimSpace_empty (ah_credential h) = false ∧ sha256 v = sha256 (str "Bearer " ++ ah_credential h).

(** A live session, and for a method that changes something its token. *)
Definition session_ok (x : admin_clocks) (r : admin_request) (h : adminHandler) : Prop :=
  header_values r (str "Authorization") = [] ∧
  ∃ v s, session_cookies r = [v] ∧ v ≠ [] ∧ st_sessions (ah_sessions h) !! name_of v = Some s ∧ expired (ah_sessions h) (ac_get x) s = false ∧
    (isUnsafeHTTPMethod (ar_method r) = true → origin_ok r = true ∧ ∃ t, csrf_tokens r = [t] ∧ t ≠ [] ∧ s_CSRFToken s = name_of t ∧
       expired (ah_sessions h) (ac_csrf x) (touched (ac_get x) s) = false).

Lemma csrf_check x id token st s : st_sessions st !! id = Some s →
  Store_ValidateCSRF x id token st = true ↔ id ≠ ""%string ∧ token ≠ ""%string ∧ expired st x s = false ∧ s_CSRFToken s = token.
Proof.
  intros Hs. unfold Store_ValidateCSRF. rewrite Hs. destruct (bool_decide_reflect (id = ""%string)); [naive_solver|].
  destruct (bool_decide_reflect (token = ""%string)); [naive_solver|]. cbn [orb]. destruct (expired st x s); [naive_solver|]. rewrite bool_decide_eq_true. naive_solver.
Qed.

Lemma csrf_token_spec r t : getCSRFToken r = Some t ↔ (csrf_tokens r = [t]) ∨ (csrf_tokens r = [] ∧ t = []).
Proof. unfold getCSRFToken. fold (csrf_tokens r). destruct (csrf_tokens r) as [|a [|]]; naive_solver. Qed.

(** The cookie path of [authenticate]. *)
Lemma session_let_in x r h v : header_values r (str "Authorization") = [] → session_cookies r = [v] → v ≠ [] → ((let_in x r h).1 = None ↔ session_ok x r h).
Proof.
  intros Ha Hc Hv. assert (name_of v ≠ ""%string) as Hn by (intros E; by apply Hv, name_of_empty).
  unfold authenticate. rewrite getSessionCookie_spec, Hc, Ha. cbn [length Nat.ltb Nat.leb andb]. unfold same. rewrite bool_decide_false by done. cbn [negb].
  assert (session_ok x r h ↔ ∃ s, st_sessions (ah_sessions h) !! name_of v = Some s ∧ expired (ah_sessions h) (ac_get x) s = false ∧
    (isUnsafeHTTPMethod (ar_method r) = true → origin_ok r = true ∧ ∃ t, csrf_tokens r = [t] ∧ t ≠ [] ∧ s_CSRFToken s = name_of t ∧
       expired (ah_sessions h) (ac_csrf x) (touched (ac_get x) s) = false)) as ->.
  { unfold session_ok. split.
    - intros (_ & v' & s & Hv' & _ & H). rewrite Hc in Hv'. injection Hv' as <-. by exists s.
    - intros (s & H). split; [done|]. by exists v, s. }
  unfold Store_Get. rewrite (bool_decide_false (name_of v = ""%string)) by done. destruct (st_sessions (ah_sessions h) !! name_of v) as [s|] eqn:Es.
  2:{ split; [done|]. by intros (s & Hs & _). }
  destruct (expired (ah_sessions h) (ac_get x) s) eqn:Ex.
  { split; [done|]. intros (s' & [= <-] & Hs & _). congruence. }
  set (st' := with_sessions _ _). assert (st_sessions st' !! name_of v = Some (touched (ac_get x) s)) as Hs' by (subst st'; cbn; by rewrite lookup_insert_eq).
  destruct (isUnsafeHTTPMethod (ar_method r)); cbn [put_sessions ah_sessions].
  2:{ split; [|done]. intros _. by exists s. }
  destruct (origin_ok r) eqn:Eo; cbn [negb].
  2:{ split; [done|]. intros (s' & _ & _ & H). by destruct (H eq_refl). }
  destruct (getCSRFToken r) as [token|] eqn:Et.
  - pose proof (csrf_check (ac_csrf x) (name_of v) (name_of token) st' _ Hs') as Hck. change (expired st') with (expired (ah_sessions h)) in Hck. apply csrf_token_spec in Et as [Et|[Et ->]].
    + destruct (Store_ValidateCSRF _ _ _ _) eqn:Ev; cbn [negb].
      * destruct (proj1 Hck eq_refl) as (_ & Ht & ? & Htok). split; [|done]. intros _. exists s. split_and!; try done. intros _. split; [done|].
        exists token. split_and!; try done. by intros ->.
      * split; [done|]. intros (s' & [= <-] & _ & Hcs). destruct (Hcs eq_refl) as (_ & t & Et' & Htn & Htok & ?). rewrite Et in Et'. injection Et' as <-.
        enough (false = true) by done. apply Hck. split_and!; try done. intros E. by apply Htn, name_of_empty.
    + destruct (Store_ValidateCSRF _ _ _ _); cbn [negb]; [destruct (proj1 Hck eq_refl) as (_ & Ht & _); by destruct Ht|].
      split; [done|]. intros (s' & _ & _ & Hcs). destruct (Hcs eq_refl) as (_ & t & Et' & _). congruence.
  - split; [done|]. intros (s' & _ & _ & Hcs). destruct (Hcs eq_refl) as (_ & t & Et' & _). unfold getCSRFToken in Et. fold (csrf_tokens r) in Et. by rewrite Et' in Et.
Qed.

(** The answer is a refusal and neither way in is open. *)
Ltac refused := split; [by intros ?|]; intros [(Hs & Hv)|(Hs & v0 & s0 & Hv & Hn & _)];
  repeat match goal with H : ∃ _, _ |- _ => destruct H | H : _ ∧ _ |- _ => destruct H | H : _ ∨ _ |- _ => destruct H end; simplify_eq; done.

(** C25: An administration request is let in exactly when it carries the
    administration credential in one Authorization header and no session, or no
    such header and one cookie of a live session; in the second case a method
    that changes something also needs the same origin and exactly one CSRF
    token, the session's.  No other combination of headers and cookies is let
    in, and a refusal never changes the key service. *)
Theorem admin_authenticate_exact x r h :
  ((let_in x r h).1 = None ↔ bearer_ok r h ∨ session_ok x r h) ∧ ah_service (let_in x r h).2 = ah_service h ∧ ah_credential (let_in x r h).2 = ah_credential h.
Proof.
  split.
  - destruct (header_values r (str "Authorization")) as [|a [|a' auths]] eqn:Ea.
    + destruct (session_cookies r) as [|v [|v' vs]] eqn:Ec; [|destruct (decide (v = [])) as [->|Hv]|].
      * unfold authenticate, bearer_ok, session_ok. rewrite getSessionCookie_spec, Ec, Ea. refused.
      * unfold authenticate, bearer_ok, session_ok. rewrite getSessionCookie_spec, Ec, Ea. refused.
      * rewrite (session_let_in x r h v Ea Ec Hv). unfold bearer_ok. rewrite Ec, Ea. split; [by right|]. intros [(_ & v0 & Hv0 & _)|H]; done.
      * unfold authenticate, bearer_ok, session_ok. rewrite getSessionCookie_spec, Ec, Ea. refused.
    + unfold authenticate, bearer_ok, session_ok, adminBearerMatches. rewrite getSessionCookie_spec, Ea.
      assert (∀ (P : Prop), (P ∧ ∃ v, [a] = [v] ∧ TrimSpace_empty (ah_credential h) = false ∧ sha256 v = sha256 (str "Bearer " ++ ah_credential h)) ↔
        P ∧ TrimSpace_empty (ah_credential h) = false ∧ sha256 a = sha256 (str "Bearer " ++ ah_credential h)) as Hv.
      { intros P. split; [intros (? & v & [= <-] & ?); done|]. intros (? & ?). split; [done|by exists a]. }
      rewrite Hv. clear Hv. destruct (session_cookies r) as [|v [|v' vs]] eqn:Ec; [|destruct (decide (v = [])) as [->|Hv]|].
      * change (same [] []) with true. cbn [length Nat.ltb Nat.leb andb negb]. destruct (TrimSpace_empty _); [refused|]. unfold same. case_bool_decide; cbn; [|refused]. split; [|done]. intros _. left. split; [by left|done].
      * change (same [] []) with true. cbn [length Nat.ltb Nat.leb andb negb]. destruct (TrimSpace_empty _); [refused|]. unfold same. case_bool_decide; cbn; [|refused]. split; [|done]. intros _. left. split; [by right|done].
      * unfold same. rewrite bool_decide_false by done. cbn [length Nat.ltb Nat.leb andb negb]. split; [done|]. intros [([E|[= E]] & _)|(? & _)]; done.
      * refused.
    + unfold authenticate, bearer_ok, session_ok. rewrite getSessionCookie_spec, Ea. destruct (session_cookies r) as [|v [|v' vs]] eqn:Ec; refused.
  - unfold authenticate, Store_Get, put_sessions. repeat (case_match; try done).
Qed.
End exact.

(** ** The life of a session *)

Lemma Store_Create_stores iter now rand st s rand' st' : Store_Create iter now rand st = (Some s, rand', st') →
  st_sessions st' !! s_ID s = Some s ∧ s_ID s ≠ ""%string ∧ s_CSRFToken s ≠ ""%string ∧ s_CreatedAt s = now ∧ s_LastActiveAt s = now.
Proof.
  unfold Store_Create. cbv zeta. destruct (randomHex rand 32) as [[id|] rest] eqn:E1; [|done]. destruct (randomHex rest 32) as [[csrf|] rest'] eqn:E2; [|done].
  intros [= <- _ <-]. cbn. rewrite lookup_insert_eq. split_and!; try done; by eapply hex_nonempty.
Qed.

Lemma getCSRFToken_one r t : csrf_tokens r = [t] → getCSRFToken r = Some t.
Proof. intros E. unfold getCSRFToken. fold (csrf_tokens r). by rewrite E. Qed.

Section lifecycle.
Context (sha256 : bytes → bytes) (ParseMediaType : bytes → option bytes).
Context (SplitHostPort : bytes → option bytes) (url_Parse : bytes → option (bytes * bytes)).
Context {IP : Type} (ParseIP : bytes → option IP) (trustedProxies : list (IP → bool)).

#[local] Abbreviation login := (handleSessionLogin sha256 ParseMediaType SplitHostPort ParseIP trustedProxies).
#[local] Abbreviation logout := (handleSessionLogout SplitHostPort url_Parse ParseIP trustedProxies).
#[local] Abbreviation let_in := (authenticate sha256 SplitHostPort url_Parse ParseIP trustedProxies).

(** A request of the session: its cookie, its token, the same origin. *)
Definition of_session (id csrf : string) (r : admin_request) : Prop :=
  header_values r (str "Authorization") = [] ∧ (∃ v, session_cookies r = [v] ∧ name_of v = id) ∧ (∃ t, csrf_tokens r = [t] ∧ name_of t = csrf) ∧
  isSameOrigin SplitHostPort url_Parse ParseIP trustedProxies r = true.

Lemma login_success x iters iter rand r h a h' id maxAge secure : login x iters iter rand r h = (a, h') → an_cookie a = SetSessionCookie id maxAge secure →
  ∃ s, st_sessions (ah_sessions h') !! id = Some s ∧ s_ID s = id ∧ id ≠ ""%string ∧ s_CSRFToken s ≠ ""%string ∧ s_CreatedAt s = ac_create x ∧ s_LastActiveAt s = ac_create x ∧
    an_body a = session_body (ah_sessions h') s ∧ ah_credential h' = ah_credential h ∧
    ∃ data e body cred, ar_body r = Some (data, e) ∧ decode_login data = Some body ∧ cred ∈ [lr_Credential body; lr_AdminCredential body; lr_Password body] ∧
      TrimSpace_empty cred = false ∧ sha256 cred = sha256 (ah_credential h).
Proof.
  unfold handleSessionLogin. destruct (Login_Allow _ _ _) as [allowed l]. destruct allowed; cbn [negb]; [|by intros [= <- <-]].
  destruct (getSessionCookie r) as [|v|] eqn:Ec; [| |by intros [= <- <-]].
  all: destruct (ar_body r) as [[data e]|]; [|by intros [= <- <-]].
  all: destruct (isJSONMediaType _ _); cbn [negb]; [|by intros [= <- <-]].
  all: destruct (decode_login data) as [body|] eqn:Eb; [|by intros [= <- <-]].
  all: set (c1 := if same (lr_Credential body) [] then _ else _); set (c2 := if same c1 [] then _ else _).
  all: assert (c2 ∈ [lr_Credential body; lr_AdminCredential body; lr_Password body]) as Hc2 by (subst c1 c2; repeat case_match; set_solver).
  all: destruct (same (sha256 c2) _) eqn:Em; cbn [negb orb]; [|by intros [= <- <-]].
  all: destruct (TrimSpace_empty c2) eqn:Et; [by intros [= <- <-]|]. all: apply bool_decide_eq_true in Em.
  all: destruct (Store_Create _ _ _ _) as [[[s|] rand'] st'] eqn:Es; [|by intros [= <- <-]].
  all: destruct (Store_Create_stores _ _ _ _ _ _ _ Es) as (H1 & H2 & H3 & H4 & H5).
  all: intros [= <- <-] [= <- _ _]; exists s; split_and!; try done; try (by destruct (same v [])).
  all: exists data, e, body, c2; done.
Qed.

Lemma gone_refused x r h v : header_values r (str "Authorization") = [] → session_cookies r = [v] → v ≠ [] → st_sessions (ah_sessions h) !! name_of v = None →
  ∃ refused, (let_in x r h).1 = Some refused ∧ an_status refused = 401.
Proof.
  intros Ha Hc Hv Hs. unfold authenticate. rewrite getSessionCookie_spec, Hc, Ha. cbn [length Nat.ltb Nat.leb andb]. unfold same. rewrite bool_decide_false by done. cbn [negb].
  unfold Store_Get. rewrite bool_decide_false by (intros E; by apply Hv, name_of_empty). rewrite Hs. by eexists.
Qed.

Lemma put_policy_spec x u id r h : coherent (ah_service h) → quiet u →
  let put := put_policy sha256 ParseMediaType SplitHostPort url_Parse ParseIP trustedProxies x u id r h in
  (an_status put.1 ≠ 200 → stores_kept (ah_service h) (ah_service put.2)) ∧ coherent (ah_service put.2).
Proof.
  intros Hco Hq. cbv zeta. assert (ah_service (let_in x r h).2 = ah_service h) as Hsv by (unfold authenticate, Store_Get, put_sessions; repeat (case_match; try done)).
  assert (∀ a h2, ah_service h2 = ah_service h → (an_status a ≠ 200 → stores_kept (ah_service h) (ah_service (a, h2).2)) ∧ coherent (ah_service (a, h2).2)) as Hsame.
  { intros a h2 E. cbn [snd]. rewrite E. by split. }
  unfold put_policy. destruct (ValidateIdentifier id); [|by apply Hsame]. cbn [negb]. destruct (let_in x r h) as [[refused|] h1]; cbn [snd] in Hsv; [by apply Hsame|].
  destruct (decodeAdminPolicyRequest _ r) as [[enabled policy]|[]]; [|by apply Hsame|by apply Hsame].
  pose proof (updatePolicy_spec u id enabled policy (ah_service h1) ltac:(rewrite Hsv; apply Hco) Hq) as HU. destruct (updatePolicy _ _ _ _ _) as [[k|e] s']; rewrite Hsv in HU; cbn.
  - destruct HU as (_ & _ & p & q & H). split; [done|]. by eapply policy_replaced_coherent.
  - split; [done|]. by eapply coherent_kept.
Qed.

Context (hmac : bytes → bytes → bytes).

Lemma post_key_spec x xs decoded r h : coherent (ah_service h) → (∀ n, 0 < Unix (at_now (xs n)) <= maxInt64) →
  let post := post_key sha256 SplitHostPort url_Parse ParseIP trustedProxies hmac x xs decoded r h in
  (an_status post.1 ≠ 201 → stores_kept (ah_service h) (ah_service post.2)) ∧ coherent (ah_service post.2).
Proof.
  intros Hco Hnow. cbv zeta. assert (ah_service (let_in x r h).2 = ah_service h) as Hsv by (unfold authenticate, Store_Get, put_sessions; repeat (case_match; try done)).
  assert (∀ a h2, ah_service h2 = ah_service h → (an_status a ≠ 201 → stores_kept (ah_service h) (ah_service (a, h2).2)) ∧ coherent (ah_service (a, h2).2)) as Hsame.
  { intros a h2 E. cbn [snd]. rewrite E. by split. }
  unfold post_key. destruct (let_in x r h) as [[refused|] h1]; cbn [snd] in Hsv; [by apply Hsame|].
  destruct decoded as [[name expiresAt]|[]]; [|by apply Hsame|by apply Hsame].
  pose proof (create_spec hmac xs name expiresAt (ah_service h1) ltac:(by rewrite Hsv) Hnow) as HU. destruct (create _ _ _ _ _) as [[k|e] s']; rewrite Hsv in HU; cbn.
  - split; [done|]. apply HU.
  - split; [done|]. by eapply coherent_kept.
Qed.

(** C26: What an administration request changes.  A request that is not let in
    leaves the key service as it was, and so does every answer other than 200
    to a policy update and 201 to a creation: the table, the snapshot and the
    limiters' policies are unchanged.  After an accepted request they agree. *)
Theorem key_changes_authenticated x u id xs decoded r h : coherent (ah_service h) → quiet u → (∀ n, 0 < Unix (at_now (xs n)) <= maxInt64) →
  let put := put_policy sha256 ParseMediaType SplitHostPort url_Parse ParseIP trustedProxies x u id r h in
  let post := post_key sha256 SplitHostPort url_Parse ParseIP trustedProxies hmac x xs decoded r h in
  ((let_in x r h).1 ≠ None → ah_service put.2 = ah_service h ∧ ah_service post.2 = ah_service h) ∧
  (an_status put.1 ≠ 200 → stores_kept (ah_service h) (ah_service put.2)) ∧ (an_status post.1 ≠ 201 → stores_kept (ah_service h) (ah_service post.2)) ∧
  coherent (ah_service put.2) ∧ coherent (ah_service post.2).
Proof.
  intros Hco Hq Hnow. cbv zeta. assert (ah_service (let_in x r h).2 = ah_service h) as Hsv by (unfold authenticate, Store_Get, put_sessions; repeat (case_match; try done)).
  pose proof (put_policy_spec x u id r h Hco Hq) as HP. pose proof (post_key_spec x xs decoded r h Hco Hnow) as HK. cbv zeta in HP, HK.
  split_and!; [|apply HP|apply HK|apply HP|apply HK]. intros Href. unfold put_policy, post_key. destruct (let_in x r h) as [[refused|] h1]; [|done].
  by destruct (ValidateIdentifier id).
Qed.
End lifecycle.

(** ** Witnesses *)

Definition demo_clocks : admin_clocks := mkClocks demo_service_at demo_service_at demo_service_at demo_service_at demo_service_at.
Definition demo_admin : adminHandler := mkHandlerState (str "secret") demo_start (NewStore 0 0 0) (NewLoginRateLimiter 0 0 0 0).
Definition demo_login_request : admin_request :=
  mkAdminRequest (str "POST") (Set_ (str "Content-Type") (str "application/json") emptyHeader) [] (str "gateway") false (str "127.0.0.1:1") (Some (text "{'credential':'secret'}", false)).
Definition demo_url (s : bytes) : option (bytes * bytes) := Some (str "http", drop 7 s).
Definition demo_login_answer : answer * adminHandler :=
  handleSessionLogin (λ s, s) Some (λ s, Some (take 9 s)) (λ _ : bytes, (None : option ())) [] demo_clocks map_to_list map_to_list (demo_rand 7) demo_login_request demo_admin.

(** The request that follows the login: the cookie and the token it was given. *)
Definition demo_follow_up (id csrf : string) : admin_request :=
  mkAdminRequest (str "POST")
    (Set_ (str "X-CSRF-Token") (String.list_ascii_of_string csrf) (Set_ (str "Origin") (str "http://gateway") emptyHeader))
    [(str "other", str "1"); (CookieName, String.list_ascii_of_string id)] (str "gateway") false (str "127.0.0.1:1") None.

(** A policy update by the credential in the header. *)
Definition demo_put : admin_request :=
  mkAdminRequest (str "PUT") (Set_ (str "Authorization") (str "Bearer secret") (Set_ (str "Content-Type") (str "application/json") emptyHeader)) [] (str "gateway") false (str "127.0.0.1:1")
    (Some (text "{'enabled': true, 'policy': {'max_concurrent_requests' : 3}}", false)).
Definition demo_admin_created : adminHandler := mkHandlerState (str "secret") demo_created (NewStore 0 0 0) (NewLoginRateLimiter 0 0 0 0).

Example demo_put_policy :
  let out := put_policy (λ s, s) Some (λ s, Some (take 9 s)) demo_url (λ _ : bytes, (None : option ())) [] demo_clocks (demo_update (λ l, l)) demo_id demo_put demo_admin_created in
  an_status out.1 = 200 ∧ row_policy <$> tb_rows (sv_table (ah_service out.2)) !! demo_id = Some (text "{'max_concurrent_requests':3}").
Proof. split; vm_compute; reflexivity. Qed.

(** The duplicate check of the envelope compares exact names and the decoder
    ignores case: of two spellings of a member the later one is taken. *)
Example policy_envelope_case_variant :
  let r := mkAdminRequest (str "PUT") (Set_ (str "Content-Type") (str "application/json") emptyHeader) [] (str "gateway") false [] in
  decodeAdminPolicyRequest Some (r (Some (text "{'enabled':false,'Enabled':true,'policy':{}}", false))) = Ok (true, empty_policy) ∧
  decodeAdminPolicyRequest Some (r (Some (text "{'enabled':false,'enabled':true,'policy':{}}", false))) = Err errAdminBody.
Proof. split; vm_compute; reflexivity. Qed.

Lemma key_changes_authenticated_witness :
  coherent (ah_service (put_policy (λ s, s) Some (λ s, Some (take 9 s)) demo_url (λ _ : bytes, (None : option ())) [] demo_clocks (demo_update (λ l, l)) demo_id demo_put demo_admin_created).2).
Proof.
  assert (coherent demo_created) as Hco by exact (service_step_coherent demo_hmac _ _ (step_create demo_hmac demo_attempts (str "team") None demo_start demo_attempts_ok) demo_start_coherent).
  pose proof (key_changes_authenticated (λ s, s) Some (λ s, Some (take 9 s)) demo_url (λ _ : bytes, (None : option ())) [] demo_hmac demo_clocks (demo_update (λ l, l)) demo_id demo_attempts
    (Err errAdminBody) demo_put demo_admin_created Hco demo_quiet demo_attempts_ok) as H. cbv zeta in H.
  destruct H as (_ & _ & _ & H & _). exact H.
Defined.
