(* ===== verification/AdminLifecycle.v ===== *)
(** * The life of an administration session ([internal/httpserver/admin.go])

    Administration requests one after the other on one handler, and what becomes
    of the session of a login: which requests end it, that its cookie lets in
    until then, and that it never does again. *)

From Stdlib Require Import Ascii ZArith Lia ZifyBool.
From stdpp Require Import prelude strings list gmap.
From S2P Require Import Prelude Text Utf8 Json JsonCodec Policy GatewayKey CompletionRecord InputSecurity UsageObservation HttpHeaders ResponseWriter Ingress Session Auth KeyStore AdminKeys AdminSession.
Local Open Scope Z_scope.

#[local] Arguments str : simpl never.

(** ** Requests *)

(** A request to the session endpoint, to an endpoint that only reads, and to
    the two that change keys, each with the times, the map orders, the random
    bytes and the answers of the stores it meets. *)
Inductive admin_call :=
| SessionCall (x : admin_clocks) (iters : gmap string rateLimitEntry → list (string * rateLimitEntry))
    (iter : gmap string Session → list (string * Session)) (rand : list Z) (r : admin_request)
| ReadCall (x : admin_clocks) (r : admin_request)
| PutPolicyCall (x : admin_clocks) (u : update_env) (id : bytes) (r : admin_request)
| PostKeyCall (x : admin_clocks) (xs : nat → attempt) (decoded : result body_error (bytes * option Z)) (r : admin_request).

Definition call_clocks (c : admin_call) : admin_clocks :=
  match c with SessionCall x _ _ _ _ | ReadCall x _ | PutPolicyCall x _ _ _ | PostKeyCall x _ _ _ => x end.

(** The identifier a login would draw. *)
Definition drawn (c : admin_call) : option string :=
  match c with SessionCall _ _ _ rand _ => (randomHex rand 32).1 | _ => None end.

(** Go visits every entry of a map once. *)
Definition call_ok (c : admin_call) : Prop :=
  match c with SessionCall _ _ iter _ _ => ∀ m, iter m ≡ₚ map_to_list m | _ => True end.

Definition presents (id : string) (r : admin_request) : Prop := ∃ v, session_cookies r = [v] ∧ name_of v = id.

(** The store a login creates its session in: that of a cookie it came with is
    revoked. *)
Definition login_store (r : admin_request) (st : Store) : Store :=
  match session_cookies r with [v] => Store_Revoke (name_of v) st | _ => st end.

Section life.
Context (sha256 : bytes → bytes) (ParseMediaType : bytes → option bytes).
Context (SplitHostPort : bytes → option bytes) (url_Parse : bytes → option (bytes * bytes)).
Context {IP : Type} (ParseIP : bytes → option IP) (trustedProxies : list (IP → bool)).
Context (hmac : bytes → bytes → bytes).

#[local] Abbreviation login := (handleSessionLogin sha256 ParseMediaType SplitHostPort ParseIP trustedProxies).
#[local] Abbreviation logout := (handleSessionLogout SplitHostPort url_Parse ParseIP trustedProxies).
#[local] Abbreviation let_in := (authenticate sha256 SplitHostPort url_Parse ParseIP trustedProxies).
#[local] Abbreviation of_session := (AdminSession.of_session SplitHostPort url_Parse ParseIP trustedProxies).

Definition admin_step (h : adminHandler) (c : admin_call) : adminHandler :=
  match c with
  | SessionCall x iters iter rand r => (serveSession sha256 ParseMediaType SplitHostPort url_Parse ParseIP trustedProxies x iters iter rand r h).2
  | ReadCall x r => (let_in x r h).2
  | PutPolicyCall x u id r => (put_policy sha256 ParseMediaType SplitHostPort url_Parse ParseIP trustedProxies x u id r h).2
  | PostKeyCall x xs decoded r => (post_key sha256 SplitHostPort url_Parse ParseIP trustedProxies hmac x xs decoded r h).2
  end.

Definition admin_run (h : adminHandler) (calls : list admin_call) : adminHandler := foldl admin_step h calls.

(** The body of a login carries the administration credential. *)
Definition has_credential (r : admin_request) (h : adminHandler) : Prop :=
  ∃ data e body cred, ar_body r = Some (data, e) ∧ decode_login data = Some body ∧ cred ∈ [lr_Credential body; lr_AdminCredential body; lr_Password body] ∧
    TrimSpace_empty cred = false ∧ sha256 cred = sha256 (ah_credential h).

(** What ends a session: a request finds it expired, a logout with its cookie,
    its token and the same origin, a login that comes with its cookie, or a
    login that needs the room and finds no session that was idle longer. *)
Inductive ends (id : string) (s : Session) (h : adminHandler) : admin_call → Prop :=
| ends_expired c t : t = ac_get (call_clocks c) ∨ t = ac_create (call_clocks c) → expired (ah_sessions h) t s = true → ends id s h c
| ends_logout x iters iter rand r : ar_method r = str "DELETE" → of_session id (s_CSRFToken s) r → ends id s h (SessionCall x iters iter rand r)
| ends_login x iters iter rand r : ar_method r = str "POST" → has_credential r h → presents id r → ends id s h (SessionCall x iters iter rand r)
| ends_evicted x iters iter rand r : ar_method r = str "POST" → has_credential r h →
    let st := login_store r (ah_sessions h) in let live := filter (λ e : string * Session, expired st (ac_create x) e.2 = false) (st_sessions st) in
    st_maxSessions st <= Z.of_nat (base.size live) → (∀ id' s', live !! id' = Some s' → s_LastActiveAt s <= s_LastActiveAt s') →
    ends id s h (SessionCall x iters iter rand r).

(** ** What a request does to the store *)

Inductive store_effect (h : adminHandler) (c : admin_call) : Store → Prop :=
| effect_none : store_effect h c (ah_sessions h)
| effect_get v : store_effect h c (Store_Get (ac_get (call_clocks c)) v (ah_sessions h)).2
| effect_revoke x iters iter rand r v s : c = SessionCall x iters iter rand r → ar_method r = str "DELETE" → header_values r (str "Authorization") = [] →
    session_cookies r = [v] → st_sessions (ah_sessions h) !! name_of v = Some s → isSameOrigin SplitHostPort url_Parse ParseIP trustedProxies r = true →
    (∃ t, getCSRFToken r = Some t ∧ name_of t = s_CSRFToken s) → store_effect h c (Store_Revoke (name_of v) (ah_sessions h))
| effect_login x iters iter rand r : c = SessionCall x iters iter rand r → ar_method r = str "POST" → has_credential r h →
    store_effect h c (Store_Create iter (ac_create x) rand (login_store r (ah_sessions h))).2.

Lemma let_in_effect x r h : ah_sessions (let_in x r h).2 = ah_sessions h ∨ ∃ v, ah_sessions (let_in x r h).2 = (Store_Get (ac_get x) v (ah_sessions h)).2.
Proof.
  unfold authenticate. destruct (getSessionCookie r) as [|v|]; [| |by left].
  all: repeat (case_match; try (by left)); cbn in *; simplify_eq.
  all: right; eexists; match goal with H : Store_Get _ _ _ = _ |- _ => by rewrite H end.
Qed.

Lemma login_effect x iters iter rand r h : ah_sessions (login x iters iter rand r h).2 = ah_sessions h ∨
  has_credential r h ∧ ah_sessions (login x iters iter rand r h).2 = (Store_Create iter (ac_create x) rand (login_store r (ah_sessions h))).2.
Proof.
  unfold handleSessionLogin. destruct (Login_Allow _ _ _) as [[] l]; cbn [negb]; [|by left].
  rewrite getSessionCookie_spec. unfold login_store. destruct (session_cookies r) as [|v [|]] eqn:Ec; [| |by left].
  all: destruct (ar_body r) as [[data e]|] eqn:Er; [|by left].
  all: destruct (isJSONMediaType _ _); cbn [negb]; [|by left].
  all: destruct (decode_login data) as [body|] eqn:Eb; [|by left].
  all: set (c1 := if same (lr_Credential body) [] then _ else _); set (c2 := if same c1 [] then _ else _).
  all: assert (c2 ∈ [lr_Credential body; lr_AdminCredential body; lr_Password body]) as Hc2 by (subst c1 c2; repeat case_match; set_solver).
  all: destruct (same (sha256 c2) _) eqn:Em; cbn [negb orb]; [|by left].
  all: destruct (TrimSpace_empty c2) eqn:Et; [by left|]. all: apply bool_decide_eq_true in Em.
  all: right; split; [by exists data, e, body, c2|].
  2: replace (ah_sessions (if same v [] then _ else _)) with (Store_Revoke (name_of v) (ah_sessions h)) by (unfold same; case_bool_decide; [subst v|]; done).
  all: cbn [ah_sessions put_logins]; destruct (Store_Create _ _ _ _) as [[[s|] rand'] st']; [done|]; cbn; done.
Qed.

Lemma logout_effect x r h : ah_sessions (logout x r h).2 = ah_sessions h ∨ ∃ v s, session_cookies r = [v] ∧ st_sessions (ah_sessions h) !! name_of v = Some s ∧
  isSameOrigin SplitHostPort url_Parse ParseIP trustedProxies r = true ∧ (∃ t, getCSRFToken r = Some t ∧ name_of t = s_CSRFToken s) ∧
  ah_sessions (logout x r h).2 = Store_Revoke (name_of v) (ah_sessions h).
Proof.
  unfold handleSessionLogout. rewrite getSessionCookie_spec. destruct (session_cookies r) as [|v [|]]; [by left| |by left].
  destruct (same v []); [by left|]. unfold Store_GetWithoutTouch. case_bool_decide; [by left|]. destruct (_ !! name_of v) as [s|] eqn:Es; [|by left].
  destruct (expired _ _ _); [by left|]. destruct (isSameOrigin _ _ _ _ _); [|by left]. destruct (getCSRFToken r) as [t|] eqn:Et; [|by left]. cbn [negb].
  case_bool_decide; cbn [negb]; [|by left]. right. exists v, s. split_and!; try done. by exists t.
Qed.

Lemma admin_step_effect h c : store_effect h c (ah_sessions (admin_step h c)).
Proof.
  assert (∀ x r, call_clocks c = x → store_effect h c (ah_sessions (let_in x r h).2)) as Hlet.
  { intros x r <-. destruct (let_in_effect (call_clocks c) r h) as [->|[v ->]]; [apply effect_none|apply effect_get]. }
  destruct c as [x iters iter rand r|x r|x u id r|x xs decoded r]; cbn [admin_step]; [|by apply Hlet|..].
  - unfold serveSession. rewrite getSessionCookie_spec. destruct (session_cookies r) as [|v [|]] eqn:Ec; [| |apply effect_none].
    all: destruct (_ || _) eqn:Ea; [apply effect_none|].
    all: destruct (same (ar_method r) (str "POST")) eqn:Em; [apply bool_decide_eq_true in Em; destruct (login_effect x iters iter rand r h) as [->|[Hc ->]]; [apply effect_none|by eapply effect_login]|].
    all: destruct (same (ar_method r) (str "GET")) eqn:Eg.
    1,3: unfold handleSessionGet; rewrite getSessionCookie_spec, Ec; try apply effect_none.
    + destruct (same v []); [apply effect_none|]. pose proof (effect_get h (SessionCall x iters iter rand r) (name_of v)) as H. cbn [call_clocks] in H.
      by destruct (Store_Get _ _ _) as [[s|] st].
    + destruct (same _ (str "DELETE")); [|apply effect_none]. destruct (logout_effect x r h) as [->|(v' & _ & E & _)]; [apply effect_none|congruence].
    + destruct (same _ (str "DELETE")) eqn:Ed; [|apply effect_none]. apply bool_decide_eq_true in Ed.
      destruct (logout_effect x r h) as [->|(v' & s & E & Hs & Ho & Ht & ->)]; [apply effect_none|]. rewrite Ec in E. injection E as <-.
      destruct (header_values r (str "Authorization")) as [|a l] eqn:Eh; [by eapply effect_revoke|].
      destruct (same v []) eqn:Ev; [|exfalso; cbn in Ea; by rewrite orb_true_r in Ea].
      apply bool_decide_eq_true in Ev as ->. apply effect_none.
  - unfold put_policy. destruct (ValidateIdentifier id); cbn [negb]; [|apply effect_none].
    specialize (Hlet x r eq_refl). destruct (let_in x r h) as [[a|] h1]; [done|]. destruct (decodeAdminPolicyRequest _ r) as [[enabled policy]|[]]; [|done..].
    by destruct (updatePolicy _ _ _ _ _) as [[k|e] s'].
  - unfold post_key. specialize (Hlet x r eq_refl). destruct (let_in x r h) as [[a|] h1]; [done|]. destruct decoded as [[name expiresAt]|[]]; [|done..].
    by destruct (create _ _ _ _ _) as [[k|e] s'].
Qed.

(** ** One request *)

Lemma session_create_lookup iter now rand st id : (randomHex rand 32).1 ≠ Some id → st_sessions (Store_Create iter now rand st).2 !! id = st_sessions (roomy iter now st) !! id.
Proof.
  rewrite Create_unfold. destruct (randomHex rand 32) as [[k|] rest]; [|done]. cbn. intros Hk. destruct (randomHex rest 32) as [[t|] rest']; [|done]. cbn.
  by rewrite lookup_insert_ne by congruence.
Qed.

Lemma login_store_ok r st : store_ok st → store_ok (login_store r st) ∧ same_config st (login_store r st).
Proof.
  intros Hok. unfold login_store. destruct (session_cookies r) as [|v [|]]; [done| |done].
  exact (apply_ok map_to_list ltac:(done) (ORevoke (name_of v)) st Hok).
Qed.

Lemma admin_step_ok h c : call_ok c → store_ok (ah_sessions h) → store_ok (ah_sessions (admin_step h c)) ∧ same_config (ah_sessions h) (ah_sessions (admin_step h c)).
Proof.
  intros Hc Hok. destruct (admin_step_effect h c) as [|v|x iters iter rand r v s|x iters iter rand r Ec _ _]; [done|..].
  - exact (apply_ok map_to_list ltac:(done) (OGet _ v) _ Hok).
  - exact (apply_ok map_to_list ltac:(done) (ORevoke _) _ Hok).
  - subst c. destruct (login_store_ok r _ Hok) as [Hok' (E1 & E2 & E3)].
    pose proof (apply_ok iter Hc (OCreate (ac_create x) rand) _ Hok') as H. cbn [apply_op] in H.
    destruct (Store_Create _ _ _ _) as [[s rest] st]. destruct H as [H (F1 & F2 & F3)]. split; [done|]. unfold same_config. cbn in *. by rewrite F1, F2, F3.
Qed.

(** A session that is gone comes back only under the identifier of a login. *)
Lemma admin_step_gone h c id : call_ok c → store_ok (ah_sessions h) → drawn c ≠ Some id → st_sessions (ah_sessions h) !! id = None →
  st_sessions (ah_sessions (admin_step h c)) !! id = None.
Proof.
  intros Hc Hok Hd Hn. destruct (admin_step_effect h c) as [|v|x iters iter rand r v s|x iters iter rand r Ec _ _]; [done|..].
  - unfold Store_Get. repeat case_match; cbn; try done; [apply lookup_delete_None; by right|]. apply lookup_insert_None. split; [done|congruence].
  - unfold Store_Revoke. case_match; cbn; [done|]. apply lookup_delete_None. by right.
  - subst c. rewrite session_create_lookup by done. destruct (login_store_ok r _ Hok) as [Hok' _]. apply eq_None_not_Some. intros [s Hs].
    apply (roomy_sub iter Hc) in Hs as [Hs _]; [|done]. unfold login_store, Store_Revoke in Hs.
    destruct (session_cookies r) as [|v [|]]; [congruence| |congruence]. case_match; [congruence|]. cbn in Hs. apply lookup_delete_Some in Hs. naive_solver congruence.
Qed.

Lemma revoke_lookup v st id : name_of v ≠ ""%string → st_sessions (Store_Revoke (name_of v) st) !! id = (if bool_decide (name_of v = id) then None else st_sessions st !! id).
Proof. intros Hv. unfold Store_Revoke. rewrite bool_decide_false by done. cbn. case_bool_decide; [subst; apply lookup_delete_eq|by apply lookup_delete_ne]. Qed.

(** A session that is there stays, with its activity noted, or is ended. *)
Lemma admin_step_session h c id s : call_ok c → store_ok (ah_sessions h) → drawn c ≠ Some id → s_CSRFToken s ≠ ""%string → st_sessions (ah_sessions h) !! id = Some s →
  let now' := st_sessions (ah_sessions (admin_step h c)) !! id in
  now' = Some s ∨ now' = Some (touched (ac_get (call_clocks c)) s) ∨ now' = None ∧ ends id s h c.
Proof.
  intros Hc Hok Hd Ht Hs. cbv zeta. pose proof (so_ids _ Hok _ _ Hs) as Hid.
  destruct (admin_step_effect h c) as [|v|x iters iter rand r v t Ec Hm Ha Hv Hvs Ho (tok & Htok & Hcs)|x iters iter rand r Ec Hm Hcred]; [by left|..].
  - unfold Store_Get. case_bool_decide; [by left|]. destruct (decide (v = id)) as [->|Hne].
    + rewrite Hs. destruct (expired _ _ s) eqn:Ex; cbn; [rewrite lookup_delete_eq; right; right; split; [done|]; eapply ends_expired; [by left|done]|].
      rewrite lookup_insert_eq. by right; left.
    + left. destruct (_ !! v); [|done]. case_match; cbn; [by rewrite lookup_delete_ne|by rewrite lookup_insert_ne].
  - subst c. pose proof (so_ids _ Hok _ _ Hvs) as Hvn. rewrite revoke_lookup by done. case_bool_decide as E; [|by left]. right; right. split; [done|].
    rewrite E in Hvs. replace t with s in * by congruence. apply ends_logout; [done|]. split; [done|]. split; [by exists v|]. split; [|done].
    exists tok. split; [|done]. apply (csrf_token_spec sha256 SplitHostPort url_Parse ParseIP) in Htok as [|[_ ->]]; [done|]. by destruct Ht.
  - subst c. rewrite session_create_lookup by done. destruct (login_store_ok r _ Hok) as [Hok' (C1 & C2 & C3)].
    assert (st_sessions (login_store r (ah_sessions h)) !! id = Some s ∨ presents id r) as [Hs'|Hp].
    { unfold login_store. destruct (session_cookies r) as [|v [|]] eqn:Ecs; [by left| |by left]. destruct (decide (name_of v = ""%string)) as [E|E]; [left; unfold Store_Revoke; by rewrite bool_decide_true|].
      rewrite revoke_lookup by done. case_bool_decide; [right; by exists v|by left]. }
    2:{ destruct (st_sessions (roomy iter (ac_create x) _) !! id) as [t|] eqn:Er; [left|right; right; split; [done|by apply ends_login]].
        apply (roomy_sub iter Hc) in Er as [Er _]; [|done]. rewrite <-Er. destruct Hp as (v & Hv & Hvn). unfold login_store in *. rewrite Hv in *.
        rewrite revoke_lookup in Er by congruence. by rewrite bool_decide_true in Er. }
    destruct (expired (ah_sessions h) (ac_create x) s) eqn:Ex.
    { right; right. split; [|eapply ends_expired; [by right|done]]. apply eq_None_not_Some. intros [t Hr]. apply (roomy_sub iter Hc) in Hr as [Hr Hx]; [|done].
      rewrite (expired_config (ah_sessions h)) in Hx by done. congruence. }
    assert (expired (login_store r (ah_sessions h)) (ac_create x) s = false) as Hx by (by rewrite (expired_config (ah_sessions h))).
    destruct (roomy_spec iter Hc (ac_create x) _ Hok') as (_ & _ & _ & _ & [[-> _]|(Hfull & v & tv & Hv & -> & Hmin)]); [left; by apply map_lookup_filter_Some|].
    destruct (decide (v = id)) as [->|Hne]; [|left; rewrite lookup_delete_ne by done; by apply map_lookup_filter_Some].
    right; right. rewrite lookup_delete_eq. split; [done|]. apply map_lookup_filter_Some in Hv as [Hv _]. replace tv with s in * by congruence. by apply ends_evicted.
Qed.

(** ** Sequences of requests *)

Lemma admin_run_snoc h calls c : admin_run h (calls ++ [c]) = admin_step (admin_run h calls) c.
Proof. unfold admin_run. by rewrite foldl_app. Qed.

Lemma admin_run_ok h calls : Forall call_ok calls → store_ok (ah_sessions h) →
  store_ok (ah_sessions (admin_run h calls)) ∧ same_config (ah_sessions h) (ah_sessions (admin_run h calls)).
Proof.
  intros Hc Hok. induction calls as [|c calls IH] using rev_ind; [done|]. apply Forall_app in Hc as [Hc Hl]. rewrite Forall_singleton in Hl.
  destruct (IH Hc) as [H1 (E1 & E2 & E3)]. rewrite admin_run_snoc. destruct (admin_step_ok _ c Hl H1) as [H2 (F1 & F2 & F3)]. split; [done|]. split_and!; congruence.
Qed.

Lemma admin_run_gone h calls id : Forall call_ok calls → Forall (λ c, drawn c ≠ Some id) calls → store_ok (ah_sessions h) → st_sessions (ah_sessions h) !! id = None →
  st_sessions (ah_sessions (admin_run h calls)) !! id = None.
Proof.
  intros Hc Hd Hok Hn. induction calls as [|c calls IH] using rev_ind; [done|]. apply Forall_app in Hc as [Hc Hcl]. apply Forall_app in Hd as [Hd Hdl].
  rewrite admin_run_snoc. apply admin_step_gone; [by rewrite Forall_singleton in Hcl|by apply admin_run_ok|by rewrite Forall_singleton in Hdl|by apply IH].
Qed.

(** Over any requests a session stays, last active when it was created or used,
    or one of them ended it. *)
Lemma admin_run_session h calls id s : Forall call_ok calls → Forall (λ c, drawn c ≠ Some id) calls → store_ok (ah_sessions h) → s_CSRFToken s ≠ ""%string →
  st_sessions (ah_sessions h) !! id = Some s →
  (∃ last, st_sessions (ah_sessions (admin_run h calls)) !! id = Some (touched last s) ∧ (last = s_LastActiveAt s ∨ last ∈ map (λ c, ac_get (call_clocks c)) calls)) ∨
  st_sessions (ah_sessions (admin_run h calls)) !! id = None ∧
  ∃ pre c post last, calls = pre ++ c :: post ∧ st_sessions (ah_sessions (admin_run h pre)) !! id = Some (touched last s) ∧ ends id (touched last s) (admin_run h pre) c.
Proof.
  intros Hc Hd Hok Ht Hs. induction calls as [|c calls IH] using rev_ind.
  { left. exists (s_LastActiveAt s). split; [|by left]. cbn. rewrite Hs. by destruct s. }
  apply Forall_app in Hc as [Hc Hcl]. apply Forall_app in Hd as [Hd Hdl]. rewrite Forall_singleton in Hcl, Hdl. destruct (admin_run_ok h calls Hc Hok) as [Hok' _].
  rewrite admin_run_snoc. destruct (IH Hc Hd) as [(last & Hl & Hlast)|(Hn & pre & c' & post & last & -> & H)].
  - destruct (admin_step_session _ c id (touched last s) Hcl Hok' Hdl Ht Hl) as [E|[E|[E He]]]; rewrite E.
    + left. exists last. split; [done|]. rewrite map_app. set_solver.
    + left. exists (ac_get (call_clocks c)). split; [done|]. rewrite map_app. set_solver.
    + right. split; [done|]. by exists calls, c, [], last.
  - right. split; [by apply admin_step_gone|]. exists pre, c', (post ++ [c]), last. by rewrite <-app_assoc.
Qed.

(** ** The cookie *)

Lemma expired_refused x r h v s : header_values r (str "Authorization") = [] → session_cookies r = [v] → st_sessions (ah_sessions h) !! name_of v = Some s →
  name_of v ≠ ""%string → expired (ah_sessions h) (ac_get x) s = true → ∃ refused, (let_in x r h).1 = Some refused ∧ an_status refused = 401.
Proof.
  intros Ha Hc Hs Hv Hx. unfold authenticate. rewrite getSessionCookie_spec, Hc, Ha. cbn [length Nat.ltb Nat.leb andb]. unfold same. rewrite bool_decide_false by (by intros ->). cbn [negb].
  unfold Store_Get. rewrite bool_decide_false, Hs, Hx by done. by eexists.
Qed.

(** No request that comes with the cookie alone is let in. *)
Definition refused_always (id : string) (h : adminHandler) : Prop :=
  ∀ x r, header_values r (str "Authorization") = [] → presents id r → ∃ refused, (let_in x r h).1 = Some refused ∧ an_status refused = 401.

Lemma gone_always id h : id ≠ ""%string → st_sessions (ah_sessions h) !! id = None → refused_always id h.
Proof.
  intros Hid Hn x r Ha (v & Hv & Hvn). apply (gone_refused sha256 SplitHostPort url_Parse ParseIP trustedProxies x r h v); [done|done|by intros ->|by rewrite Hvn].
Qed.

Lemma alive_let_in x r h id s : s_CSRFToken s ≠ ""%string → id ≠ ""%string → st_sessions (ah_sessions h) !! id = Some s → of_session id (s_CSRFToken s) r →
  expired (ah_sessions h) (ac_get x) s = false → expired (ah_sessions h) (ac_csrf x) (touched (ac_get x) s) = false → (let_in x r h).1 = None.
Proof.
  intros Ht Hid Hs (Ha & (v & Hv & Hvn) & (t & Htk & Htn) & Ho) Hx Hx'. apply (session_let_in sha256 SplitHostPort url_Parse ParseIP trustedProxies x r h v); [done|done|by intros ->|].
  split; [done|]. exists v, s. rewrite Hvn. split_and!; try done; [by intros ->|]. intros _. split; [done|]. exists t. split_and!; try done. by intros ->.
Qed.

Lemma logout_revokes x r h id s : id ≠ ""%string → st_sessions (ah_sessions h) !! id = Some s → of_session id (s_CSRFToken s) r → expired (ah_sessions h) (ac_get x) s = false →
  an_body (logout x r h).1 = Anonymous ∧ ah_sessions (logout x r h).2 = Store_Revoke id (ah_sessions h).
Proof.
  intros Hid Hs (Ha & (v & Hv & Hvn) & (t & Htk & Htn) & Ho) Hx. unfold handleSessionLogout. rewrite getSessionCookie_spec, Hv. unfold same. rewrite bool_decide_false by (by intros ->).
  unfold Store_GetWithoutTouch. rewrite Hvn, (bool_decide_false (id = ""%string)), Hs, Hx by done. rewrite Ho, (getCSRFToken_one _ _ Htk), Htn. cbn [negb].
  by rewrite (bool_decide_true (s_CSRFToken s = s_CSRFToken s)).
Qed.

Lemma logout_for_ever x r h id s later : store_ok (ah_sessions h) → st_sessions (ah_sessions h) !! id = Some s → of_session id (s_CSRFToken s) r → expired (ah_sessions h) (ac_get x) s = false →
  Forall call_ok later → Forall (λ c, drawn c ≠ Some id) later → an_body (logout x r h).1 = Anonymous ∧ refused_always id (admin_run (logout x r h).2 later).
Proof.
  intros Hok Hs Hof Hx Hc Hd. pose proof (so_ids _ Hok _ _ Hs) as Hid. destruct (logout_revokes x r h id s Hid Hs Hof Hx) as [Hb Hr]. split; [done|].
  pose proof (apply_ok map_to_list ltac:(done) (ORevoke id) _ Hok) as [Hok' _]. cbn in Hok'.
  apply gone_always; [done|]. apply admin_run_gone; [done..|by rewrite Hr|]. rewrite Hr. unfold Store_Revoke. rewrite bool_decide_false by done. apply lookup_delete_eq.
Qed.

Lemma login_ok x iters iter rand r h : (∀ m, iter m ≡ₚ map_to_list m) → store_ok (ah_sessions h) →
  store_ok (ah_sessions (login x iters iter rand r h).2) ∧ same_config (ah_sessions h) (ah_sessions (login x iters iter rand r h).2).
Proof.
  intros Hiter Hok. destruct (login_effect x iters iter rand r h) as [->|[_ ->]]; [done|]. destruct (login_store_ok r _ Hok) as [Hok' (E1 & E2 & E3)].
  pose proof (apply_ok iter Hiter (OCreate (ac_create x) rand) _ Hok') as H. cbn [apply_op] in H. destruct (Store_Create _ _ _ _) as [[s rest] st].
  destruct H as [H (F1 & F2 & F3)]. split; [done|]. unfold same_config. cbn in *. by rewrite F1, F2, F3.
Qed.

(** C27: The life of a session, over every sequence of administration requests.
    A login that hands out a cookie was presented the administration credential.
    After any later requests, as long as no other login draws the same random
    identifier, one of two holds.  Either the session is still stored, last
    active when it was created or used: then its cookie and token let in every
    request of the same origin, also one that changes something, until the
    session expires; from then on the cookie is answered 401; and a logout with
    them succeeds, after which the cookie is answered 401 for ever.  Or the
    cookie is answered 401, and one of the requests ended the session: it found
    it expired, it was a logout with its cookie, its token and the same origin, a
    login that came with its cookie, or a login that evicted it from a full store
    as the one that was idle longest.  In both cases the cookie is answered 401
    after the expiration time the login announced. *)
Theorem session_lifecycle h0 m i a before x iters iter rand r ans h' id maxAge secure after :
  ah_sessions h0 = NewStore m i a → a < maxInt64 → Forall call_ok (before ++ SessionCall x iters iter rand r :: after) →
  login x iters iter rand r (admin_run h0 before) = (ans, h') → an_cookie ans = SetSessionCookie id maxAge secure → Forall (λ c, drawn c ≠ Some id) after →
  ∃ csrf idleExpiresAt expiresAt, an_body ans = Authenticated csrf idleExpiresAt expiresAt ∧ has_credential r (admin_run h0 before) ∧
  let h := admin_run h' after in let session last := mkSession id csrf (ac_create x) last in
  (∀ x2 r2, header_values r2 (str "Authorization") = [] → presents id r2 → expiresAt < ac_get x2 → ∃ refused, (let_in x2 r2 h).1 = Some refused ∧ an_status refused = 401) ∧
  ((∃ last, st_sessions (ah_sessions h) !! id = Some (session last) ∧ (last = ac_create x ∨ last ∈ map (λ c, ac_get (call_clocks c)) after) ∧
     (∀ x2 r2, of_session id csrf r2 → expired (ah_sessions h) (ac_get x2) (session last) = false →
        expired (ah_sessions h) (ac_csrf x2) (session (ac_get x2)) = false → (let_in x2 r2 h).1 = None) ∧
     (∀ x2 r2, header_values r2 (str "Authorization") = [] → presents id r2 → expired (ah_sessions h) (ac_get x2) (session last) = true →
        ∃ refused, (let_in x2 r2 h).1 = Some refused ∧ an_status refused = 401) ∧
     (∀ x3 r3 later, of_session id csrf r3 → expired (ah_sessions h) (ac_get x3) (session last) = false → Forall call_ok later → Forall (λ c, drawn c ≠ Some id) later →
        an_body (logout x3 r3 h).1 = Anonymous ∧ refused_always id (admin_run (logout x3 r3 h).2 later))) ∨
   refused_always id h ∧ ∃ pre c post last, after = pre ++ c :: post ∧ st_sessions (ah_sessions (admin_run h' pre)) !! id = Some (session last) ∧
     ends id (session last) (admin_run h' pre) c).
Proof.
  intros H0 Hmax Hcalls Hlog Hcookie Hd. apply Forall_app in Hcalls as [Hb Hl]. apply Forall_cons in Hl as [Hiter Ha].
  destruct (admin_run_ok h0 before Hb ltac:(rewrite H0; apply NewStore_ok)) as [Hok0 (_ & _ & Habs0)].
  destruct (login_ok x iters iter rand r _ Hiter Hok0) as [Hok1 (_ & _ & Habs1)]. rewrite Hlog in Hok1, Habs1. cbn [snd] in Hok1, Habs1.
  edestruct login_success as (s & Hs & Hid & Hne & Hcs & Hc & Hla & Hbody & _ & Hcred); [exact url_Parse|exact Hlog|exact Hcookie|].
  assert (∀ last, touched last s = mkSession id (s_CSRFToken s) (ac_create x) last) as Es by (intros last; destruct s; cbn in *; by subst).
  exists (s_CSRFToken s), (s_LastActiveAt s + st_idleTimeout (ah_sessions h')), (s_CreatedAt s + st_absoluteTimeout (ah_sessions h')).
  split; [done|]. split; [exact Hcred|]. cbv zeta. destruct (admin_run_ok h' after Ha Hok1) as [Hok2 (_ & _ & Habs2)].
  pose proof (admin_run_session h' after id s Ha Hd Hok1 Hcs Hs) as Hrun. setoid_rewrite Es in Hrun. rewrite Hla in Hrun. split.
  - intros x2 r2 Hau (v & Hv & Hvn) Hexp. destruct Hrun as [(last & Hst & _)|[Hgone _]]; [|apply (gone_always id); [done|done|done|by exists v]].
    apply (expired_refused x2 r2 _ v (mkSession id (s_CSRFToken s) (ac_create x) last)); [done|done|by rewrite Hvn|by rewrite Hvn|].
    unfold expired, Session_IsExpired, Sub. cbn. rewrite Habs2. assert (0 < st_absoluteTimeout (ah_sessions h') < maxInt64) as Hpos.
    { rewrite Habs1, Habs0, H0. cbn. unfold DefaultAbsoluteTimeout, maxInt64 in *. destruct (Z.leb_spec a 0); lia. }
    rewrite Hc in Hexp. unfold maxInt64, minInt64 in *. destruct (Z.ltb_spec 0 (st_absoluteTimeout (ah_sessions h'))); [|lia]. match goal with |- context [Z.ltb ?p ?q] => by destruct (Z.ltb_spec p q); [|lia] end.
  - destruct Hrun as [(last & Hst & Hlast)|[Hgone Hend]]; [left|right; split; [by apply gone_always|done]].
    exists last. split; [done|]. split; [done|]. split_and!.
    + intros x2 r2 Hof Hx Hx'. by apply (alive_let_in x2 r2 _ id (mkSession id (s_CSRFToken s) (ac_create x) last)).
    + intros x2 r2 Hau (v & Hv & Hvn) Hx. eapply (expired_refused x2 r2 _ v); [done|done|by rewrite Hvn|by rewrite Hvn|done].
    + intros x3 r3 later Hof Hx Hcl Hdl. by apply (logout_for_ever x3 r3 _ id (mkSession id (s_CSRFToken s) (ac_create x) last)).
Qed.
End life.

(** ** Witness *)

(** A login, a request of its session, another login; then the first session is
    used again, and logged out. *)
Definition demo_logged_in : answer * adminHandler := demo_login_answer.

Definition demo_other_login : admin_call := SessionCall demo_clocks map_to_list map_to_list (demo_rand 9) demo_login_request.

Definition demo_csrf : string := hex_encode (replicate 32 8).

Definition demo_later : list admin_call := [ReadCall demo_clocks (demo_follow_up demo_session_id demo_csrf); demo_other_login].

#[local] Abbreviation demo_split := (λ s : bytes, Some (take 9 s)).
#[local] Abbreviation demo_ip := (λ _ : bytes, (None : option ())).
#[local] Abbreviation demo_run := (admin_run (λ s, s) Some demo_split demo_url demo_ip [] demo_hmac).
#[local] Abbreviation demo_logout := (handleSessionLogout demo_split demo_url demo_ip [] demo_clocks (demo_follow_up demo_session_id demo_csrf)).

Lemma session_lifecycle_witness :
  base.size (st_sessions (ah_sessions (demo_run demo_logged_in.2 demo_later))) = 2%nat ∧
  (authenticate (λ s, s) demo_split demo_url demo_ip [] demo_clocks (demo_follow_up demo_session_id demo_csrf) (demo_run demo_logged_in.2 demo_later)).1 = None ∧
  refused_always (λ s, s) demo_split demo_url demo_ip [] demo_session_id (demo_run (demo_logout (demo_run demo_logged_in.2 demo_later)).2 demo_later).
Proof.
  assert (Forall call_ok demo_later) as Hok by (apply Forall_cons_2; [done|]; apply Forall_cons_2; [by intros m|by apply Forall_nil]).
  assert (Forall (λ c, drawn c ≠ Some demo_session_id) demo_later) as Hd by (apply Forall_cons_2; [done|]; apply Forall_cons_2; [|by apply Forall_nil]; vm_compute; discriminate).
  split; [vm_compute; reflexivity|].
  destruct (session_lifecycle (λ s, s) Some demo_split demo_url demo_ip [] demo_hmac demo_admin 0 0 0 [] demo_clocks map_to_list map_to_list (demo_rand 7) demo_login_request
    demo_logged_in.1 demo_logged_in.2 demo_session_id 43200 false demo_later) as (csrf & idle & absolute & Eb & _ & _ & H); [reflexivity|reflexivity|apply Forall_cons_2; [by intros m|exact Hok]|apply surjective_pairing|vm_compute; reflexivity|exact Hd|].
  assert (csrf = demo_csrf) as -> by (enough (an_body demo_logged_in.1 = Authenticated demo_csrf idle absolute) by congruence; rewrite Eb; vm_compute in Eb; by injection Eb as <- _ _).
  destruct H as [(last & Hs & _ & Hin & _ & Hout)|(Hno & _)].
  2:{ exfalso. destruct (Hno demo_clocks (demo_follow_up demo_session_id demo_csrf)) as (e & He & _); [reflexivity|eexists; split; vm_compute; reflexivity|]. vm_compute in He. discriminate. }
  assert (last = demo_service_at) as -> by (vm_compute in Hs; by injection Hs).
  assert (of_session demo_split demo_url demo_ip [] demo_session_id demo_csrf (demo_follow_up demo_session_id demo_csrf)) as Hof.
  { split; [vm_compute; reflexivity|]. split; [eexists; split; vm_compute; reflexivity|]. split; [eexists; split; vm_compute; reflexivity|vm_compute; reflexivity]. }
  split; [apply Hin; [exact Hof|vm_compute; reflexivity..]|]. apply (Hout demo_clocks); [exact Hof|vm_compute; reflexivity|exact Hok|exact Hd].
Defined.
